(* ===== verification/_CoqProject ===== *)
-Q . S2P
Prelude.v
RustStr.v
Core.v
Transparency.v
Report.v
Behavior.v
Analyzer.v
Score.v
Json.v
Scanner.v
Paths.v
Store.v
Files.v
Disk.v
Graph.v
Linker.v
Tarball.v
Versions.v
Git.v
Resolver.v
Lockfile.v
Import.v
Workspace.v
Placement.v
Materialize.v
Installed.v
Layout.v
Resolves.v
Npmrc.v
Client.v
Cli.v
Command.v
Install.v
Supply.v
Consent.v
Flags.v
Inspect.v
Sandbox.v
Windows.v
Merkle.v
Contracts.v
ExecAssessment.v
Supervise.v
Exec.v
ExecSpec.v
Display.v
Publish.v
Serde.v
Metadata.v
Manifest.v
Transfer.v
Capsule.v
ControlPlane.v
Objects.v
Prog.v
Keys.v
Publishing.v
PublishSpec.v
Identity.v
Assessment.v
EventLog.v
Registry.v
Service.v
