(* ===== verification/Prelude.v ===== *)
(** * Oath: a verification library

    Oath is a package manager for npm packages that reads code before it runs it, with a
    registry that stages, assesses and publishes packages. This library models its crates
    under [src/crates/] as executable functions, state machines and concurrent programs,
    and proves what they promise. This first file holds what all others share: results,
    integers at their width, lists, options, automation.

    ** The parts, and where they are modelled

    A package comes from a registry ([oath-fetch]), is resolved to a graph
    ([oath-resolve]), checked and unpacked into a content-addressed store ([oath-store]),
    read by the analyzer ([oath-analyze]), linked into [node_modules] ([oath-store]), and
    what is run of it is confined ([oath-sandbox]). What was installed is recorded in a
    log ([oath-transparency]). The commands that put these together are [oath-cli]'s; it
    also executes packages that are not installed and publishes them. The registry
    ([oath-registry]) runs on a database, object stores and an event log, and signs what it
    says ([oath-contracts]).

    - [RustStr.v], [Json.v], [Paths.v]: the [str] methods, [serde_json] values and
      [std::path] functions the program uses, with their laws.
    - [Core.v] ([oath-core/src/policy.rs], [permissions.rs], [integrity.rs]): the layered
      policy, capabilities, integrity strings.
    - [Transparency.v] ([oath-transparency/src/lib.rs]): the client's install log, a chain
      of hashes with Merkle roots; its files are lines of text, its lock a step relation.
    - [Report.v], [Behavior.v], [Analyzer.v], [Scanner.v], [Score.v]
      ([oath-analyze/src/]): facts of a file and the verdict on them, pattern findings,
      the walk of a package and its report, the safety score. The parser (oxc) is an
      interface that gives the view of a file the visitors are written against.
    - [Store.v] ([oath-store/src/cas.rs]): store directories, manifests, building an entry
      aside and moving it into place, as steps of a file system with other processes.
    - [Files.v] ([std::fs], tar and gzip): files and directories of a store or a working
      directory, and the interface of archives, for the parts that read and write them.
    - [Linker.v] ([oath-store/src/linker.rs]): the hoisting plan, safe names and paths, the
      fingerprint of a tree, and its replacement as a transaction that can crash anywhere.
    - [Disk.v]: a file system with directories, inodes that several names share, and
      symbolic links, with the calls of [std::fs] and a logic for programs of them ([wp]).
      [Materialize.v], [Layout.v] ([linker.rs]): building [node_modules] on it, from npm's
      placement plan, and as the virtual store of a graph. [Installed.v], [Resolves.v]:
      what the two leave.
    - [Graph.v], [Git.v], [Resolver.v], [Lockfile.v], [Import.v], [Placement.v]
      ([oath-resolve/src/]): the dependency graph, git specifiers, the resolution level by
      level with its peers, the lockfile, importing npm's, npm's placement plans.
    - [Workspace.v] ([oath-workspace/src/lib.rs]): the packages of a monorepo and their
      dependencies on the registry and on each other.
    - [Keys.v] ([oath-registry/src/lib.rs], [publish_assessment.rs], [exec_assessment.rs]):
      making a signing key among other processes that make it.
    - [Tarball.v], [Versions.v], [Npmrc.v], [Client.v] ([oath-fetch/src/]): unpacking with
      its limits, integrity, the choice of a version, [.npmrc] files, requests with
      retries and the cache of packuments.
    - [Sandbox.v] ([oath-sandbox/src/policy.rs], [linux.rs], [macos.rs]): the plan of a
      policy, the bubblewrap arguments and the system call filter, the Seatbelt profile.
      [Supervise.v] ([executor.rs], [macos.rs], [linux.rs]): starting a process and
      watching it. [Windows.v] ([windows.rs]): the launch in an AppContainer.
    - [Contracts.v], [Serde.v] ([oath-contracts/src/lib.rs]): the signed documents,
      canonical JSON; reading the documents back from JSON values. [Manifest.v]
      ([oath-core/src/config.rs], [manifest.rs], [oath-fetch/src/cache.rs]): the documents
      of a project and the disk cache. [Metadata.v] ([metadata.rs]): the full packument,
      with [oath info].
    - [Cli.v] ([oath-cli/src/main.rs]): the helpers of the commands: specs of packages,
      dates, shell words, comparing lockfiles. [Command.v]: what a command does, as a tree
      of actions with their answers.
    - [Install.v] ([main.rs], [prompts.rs]): [oath install], [ci], [add], [remove] and
      [update]. [Supply.v], [Consent.v], [Flags.v]: what they guarantee. [Inspect.v]:
      [oath run], [init], [verify], [why], [graph], [licenses], [scan] and [perms].
      [Display.v]: [oath score] and [log].
    - [ExecAssessment.v], [Exec.v] ([main.rs], [approvals.rs], [exec_assessment.rs],
      [oath-sandbox/src/lib.rs]): [oath exec], its assessment, the approvals it remembers,
      the capabilities of the sandbox. [ExecSpec.v]: what it guarantees.
    - [Publish.v] ([publish_assessment.rs]): the assessment of a release, its comparison
      with the one before, its text; [Transfer.v], [Capsule.v] ([package_transfer.rs]): the
      capsules that carry packages between registries; [Publishing.v] ([main.rs]): [oath
      publish], [stage] and [transfer]. [PublishSpec.v]: what they guarantee.
    - [Merkle.v] ([oath-registry/src/lib.rs]): the registry's tree of events and proofs.
    - [ControlPlane.v] ([control_plane.rs] and the migrations): every transaction on the
      registry's tables; [EventLog.v] ([postgres_api.rs]): appending to the log, its
      checkpoints, and [registry_step], any transaction of the registry.
    - [Objects.v] ([object_backend.rs]), [Identity.v] ([identity.rs], [billing.rs],
      [metrics.rs]), [Assessment.v] ([assessment.rs]): artifacts and their replicas,
      identity tokens and webhooks, the assessment of a tarball.
    - [Prog.v]: programs of atomic actions that run among others, a program logic for
      them ([wp]), and what it gives for any interleaving ([pool_safe]).
    - [Registry.v] ([postgres_api.rs], [lib.rs]): the service's handlers, router, limits
      and tasks as such programs; [Service.v]: what they guarantee.

    ** State and operations

    A Rust function that returns [Result] is a function to [result E A] with [ensure],
    [ok_or] and the monad for the question mark. A struct is a record, an enum an inductive
    type, an integer a [Z] that wraps or saturates where the source does, bytes and strings
    are [string]s. A [HashMap] is a [gmap]; where the order of its iteration shows, it is a
    parameter of the model. Files, the network, the clock, time-outs and other processes are
    arguments, interfaces (type classes with laws) or steps. A table of the database is a
    map by its primary key and a transaction a function on the database that fails without
    effect; a handler is a program whose actions are such transactions and accesses to the
    object stores, with everything else that can happen in between. A command of [oath] is
    a tree of actions: reading a file, asking the registry or the user, running a script,
    writing; each node continues with the answer it got. What a command guarantees is said
    by a monitor, an automaton that reads the actions of a run with their answers and
    refuses an action that is not allowed yet, for every answer and wherever the run stops.

    Code that is not in the repository is an interface with the laws the program relies
    on: SHA-256 ([Digest]: the length and alphabet of a digest; injectivity is never
    assumed, the theorems name the inputs that were hashed, of which two may collide),
    Ed25519, base64, the text of JSON strings, semver ranges, regular expressions, gzip and
    tar, JSON Web Tokens, HMAC, how a Windows program splits its command line.

    ** What the theorems show

    - The registry. [Service.v]: from an empty database, any interleaving of requests and
      tasks, with faults, is a sequence of the registry's transactions, and published
      artifacts stay available under their digest ([service_refines]); every change is
      authorised by a token that was valid since the request began
      ([requests_are_authorized]); replies go only to those who may read
      ([replies_are_authorized]). [ControlPlane.v]: the life of a release and the
      invariant of the tables; the statements of a revocation each see the database of
      their own moment, and a latest tag can be lost to a revocation beside it. [EventLog.v]: the log is a signed chain, exactly once per
      outbox event, append-only between checkpoints. [Merkle.v]: proofs are complete, and
      sound unless two of the inputs hashed collide. [Assessment.v], [Objects.v],
      [Contracts.v]: the verdict on a tarball, immutable artifacts, signatures that bind
      every field.
    - Installing. [Resolver.v], [Versions.v], [Placement.v], [Lockfile.v]: the graph that is
      resolved, the version that is chosen, the round trip through the lockfile.
      [Client.v], [Tarball.v], [Store.v], [Linker.v]: only verified bytes are unpacked,
      nothing is written outside its root, entries are complete and are what their digest
      says, a crash leaves the old tree, but for what is written through hard links it
      shares with the new one, or the new one. [Installed.v], [Resolves.v]: a run of
      the linker touches nothing outside its directories and no contents of a file, with the
      exception that is stated; each placement or package is complete; Node finds every
      dependency where the graph has it. [Supply.v]: a command links only
      packages of the graph it resolved and verified; [Consent.v]: a script runs only when
      it was allowed, by policy, option or answer; [Flags.v]: options of the command reach
      the engine that does the work.
    - Executing. [ExecSpec.v]: what [oath exec] runs was fetched, scanned, judged and
      allowed in this order; [ExecAssessment.v]: a sandbox that was required is not
      replaced by a weaker one.
    - Publishing. [PublishSpec.v]: what reaches a registry is a second reading of the files
      that were assessed, taken after the assessment, and a denial stops it; [Publish.v]: the assessment as a function of the
      release and the one before; [Transfer.v], [Capsule.v]: an accepted capsule carries
      the bytes its manifest names, and what is written can be read back.
    - Judging. [Behavior.v], [Scanner.v], [Score.v]: the verdict, the report and the score as
      functions of what was found. [Sandbox.v]: what the confinement permits.
    - Recording. [Transparency.v]: entries bind their predecessors; the log survives other
      writers.

    ** Bounds and fuel

    Loops are structural where the source walks data. Others take fuel with a theorem that
    enough of it gives the result: levels of the resolver ([Resolver.v], at most one per
    reachable package), the replacement loop of [expand_env] ([Npmrc.v], which does not
    terminate on a variable that names itself, and the theorem says exactly when), the
    halving of Merkle levels, the split of a power of two. Retries are bounded by the source's own constants.
    Arithmetic keeps the width of the source: [i16] weights in [Score.v], [u64] sizes in
    [Tarball.v] and [Assessment.v], [i64] times in [ControlPlane.v].

    ** Not modelled

    The text of files and of JSON as the parsers of serde read it, the terminal, HTTP
    itself, the child processes of npm, node and git, and what the kernels do with the
    confinement they are asked for. [arborist-plan.cjs] is npm's. Of the registry: its main
    function, connecting to the database and the migration of an older one, the calls to
    the identity provider, the mail service and Stripe. Of the stores: listing and
    measuring them. The website, the deployment and the scripts are not part of the
    program. *)
From Stdlib Require Export ZArith Lia Ascii.
From stdpp Require Export prelude gmap strings sorting pretty.


(** ** Results

    Rust's [Result<A, E>], with the monad notations of stdpp
    ([x ← m; k] is [let x = m?; k]). *)
Inductive result (E A : Type) : Type :=
  | Ok (a : A)
  | Err (e : E).
Arguments Ok {E A} a.
Arguments Err {E A} e.

#[global] Instance result_ret E : MRet (result E) := λ A, @Ok E A.
#[global] Instance result_bind E : MBind (result E) := λ A B f m,
  match m with Ok a => f a | Err e => Err e end.
#[global] Instance result_fmap E : FMap (result E) := λ A B f m,
  match m with Ok a => Ok (f a) | Err e => Err e end.

#[global] Instance result_eq_dec E A `{!EqDecision E, !EqDecision A} :
  EqDecision (result E A).
Proof. solve_decision. Defined.

(** [anyhow::ensure!(b, e)] and [Option::ok_or(e)]. *)
Definition ensure {E} (b : bool) (e : E) : result E unit :=
  if b then Ok tt else Err e.
Definition ok_or {E A} (o : option A) (e : E) : result E A :=
  match o with Some a => Ok a | None => Err e end.
Definition is_ok {E A} (r : result E A) : bool :=
  match r with Ok _ => true | Err _ => false end.

Section result.
Context {E : Type}.

Lemma bind_Ok {A B} (m : result E A) (f : A → result E B) b :
  m ≫= f = Ok b ↔ ∃ a, m = Ok a ∧ f a = Ok b.
Proof. destruct m; naive_solver. Qed.

Lemma bind_Err {A B} (m : result E A) (f : A → result E B) e :
  m ≫= f = Err e ↔ m = Err e ∨ ∃ a, m = Ok a ∧ f a = Err e.
Proof. destruct m; naive_solver. Qed.

Lemma fmap_Ok {A B} (f : A → B) (m : result E A) b :
  f <$> m = Ok b ↔ ∃ a, m = Ok a ∧ b = f a.
Proof. destruct m; naive_solver. Qed.

Lemma ensure_Ok b (e : E) u : ensure b e = Ok u ↔ b = true.
Proof. destruct b, u; naive_solver. Qed.

Lemma ok_or_Ok {A} (o : option A) (e : E) a : ok_or o e = Ok a ↔ o = Some a.
Proof. destruct o; naive_solver. Qed.

Lemma is_ok_true {A} (r : result E A) : is_ok r = true ↔ ∃ a, r = Ok a.
Proof. destruct r; naive_solver. Qed.

Lemma mapM_Ok {A B} (f : A → result E B) l k :
  mapM f l = Ok k ↔ Forall2 (λ x y, f x = Ok y) l k.
Proof.
  revert k. induction l as [|x l IH]; intros k; simpl.
  - split; [intros [= <-]; constructor | by inversion 1].
  - rewrite bind_Ok. setoid_rewrite bind_Ok. split.
    + intros (y & Hy & ys & Hys & [= <-]). constructor; [done|]. by apply IH.
    + inversion 1; subst. eexists; split; [done|]. eexists; split; [|done].
      by apply IH.
Qed.
End result.

(** Inverts a hypothesis stating that a chain of [result] steps succeeded. *)
Ltac inv_ok :=
  repeat match goal with
  | H : (_ ≫= _) = Ok _ |- _ => apply bind_Ok in H as (? & ? & ?)
  | H : (_ <$> _) = Ok _ |- _ => apply fmap_Ok in H as (? & ? & ?)
  | H : ensure _ _ = Ok _ |- _ => apply ensure_Ok in H
  | H : ok_or _ _ = Ok _ |- _ => apply ok_or_Ok in H
  | H : Ok _ = Ok _ |- _ => injection H as H; subst
  | H : mret _ = Ok _ |- _ => injection H as H; subst
  | H : Err _ = Ok _ |- _ => discriminate H
  end.

(** ** Machine integers

    Values are [Z]; the operations below keep them at their width. *)
Definition u64_max : Z := 2 ^ 64 - 1.
Definition is_u64 (x : Z) : Prop := (0 ≤ x ≤ u64_max)%Z.

(** Two's complement: the value an [as] cast to a [w]-bit signed integer gives. *)
Definition wrap_s (w x : Z) : Z := ((x + 2 ^ (w - 1)) mod 2 ^ w - 2 ^ (w - 1))%Z.
(** The value an [as] cast to a [w]-bit unsigned integer gives. *)
Definition wrap_u (w x : Z) : Z := (x mod 2 ^ w)%Z.
Notation to_i16 := (wrap_s 16).
Notation to_i32 := (wrap_s 32).
Notation to_u64 := (wrap_u 64).

Definition checked_add_u64 (a b : Z) : option Z :=
  if (a + b <=? u64_max)%Z then Some (a + b)%Z else None.
Definition saturating_add_u64 (a b : Z) : Z := (a + b) `min` u64_max.
Definition clampZ (lo hi x : Z) : Z := (lo `max` x) `min` hi.

Lemma wrap_s_id w x :
  (0 < w)%Z → (- 2 ^ (w - 1) ≤ x < 2 ^ (w - 1))%Z → wrap_s w x = x.
Proof.
  intros Hw Hx. unfold wrap_s.
  assert (2 ^ w = 2 * 2 ^ (w - 1))%Z as E.
  { rewrite <- Z.pow_succ_r by lia. f_equal. lia. }
  rewrite Z.mod_small; lia.
Qed.
Lemma wrap_s_range w x :
  (0 < w)%Z → (- 2 ^ (w - 1) ≤ wrap_s w x < 2 ^ (w - 1))%Z.
Proof.
  intros Hw. unfold wrap_s.
  assert (2 ^ w = 2 * 2 ^ (w - 1))%Z as E.
  { rewrite <- Z.pow_succ_r by lia. f_equal. lia. }
  pose proof (Z.mod_pos_bound (x + 2 ^ (w - 1)) (2 ^ w)). lia.
Qed.
Lemma clampZ_range lo hi x : (lo ≤ hi)%Z → (lo ≤ clampZ lo hi x ≤ hi)%Z.
Proof. unfold clampZ. lia. Qed.
Lemma clampZ_mono lo hi x y : (x ≤ y)%Z → (clampZ lo hi x ≤ clampZ lo hi y)%Z.
Proof. unfold clampZ. lia. Qed.

(** ** Maps

    A [HashMap<String, V>] is a [gmap string V]. Its iteration order is
    unspecified: code that iterates takes it from a [HashIter], any choice of an
    enumeration of the entries. Theorems that quantify over it hold in every
    order, and a definition that does not take one does not depend on it. *)
Class HashIter := {
  hash_iter {V} : gmap string V → list (string * V);
  hash_iter_perm {V} (m : gmap string V) : hash_iter m ≡ₚ map_to_list m;
}.

(** The enumeration stdpp computes, to evaluate definitions with. *)
Definition default_iter : HashIter :=
  {| hash_iter V m := map_to_list m; hash_iter_perm V m := reflexivity _ |}.

Section hash_iter.
Context `{!HashIter} {V : Type}.
Implicit Types m : gmap string V.

Lemma elem_of_hash_iter m k v : (k, v) ∈ hash_iter m ↔ m !! k = Some v.
Proof. by rewrite hash_iter_perm, elem_of_map_to_list. Qed.
Lemma NoDup_hash_iter_keys m : NoDup (hash_iter m).*1.
Proof. rewrite hash_iter_perm. apply NoDup_fst_map_to_list. Qed.
Lemma NoDup_hash_iter m : NoDup (hash_iter m).
Proof. eapply NoDup_fmap_1, NoDup_hash_iter_keys. Qed.
Lemma length_hash_iter m : length (hash_iter m) = size m.
Proof. by rewrite hash_iter_perm, length_map_to_list. Qed.
Lemma list_to_map_hash_iter m : list_to_map (hash_iter m) = m.
Proof.
  rewrite <- (list_to_map_to_list m) at 2.
  apply list_to_map_proper; [apply NoDup_hash_iter_keys | apply hash_iter_perm].
Qed.
End hash_iter.

(** Sorting with a total order gives one list for all orders of the input. *)
Section sorting.
Context {A : Type} (R : relation A) `{!RelDecision R, !Total R, !Transitive R, !AntiSymm (=) R}.

Lemma merge_sort_perm l k : l ≡ₚ k → merge_sort R l = merge_sort R k.
Proof.
  intros H. apply (Sorted_unique R); [apply Sorted_merge_sort; done.. |].
  by rewrite !merge_sort_Permutation.
Qed.
End sorting.

(** [sort_by], which keeps the order of equals. *)
Section stable_sort.
Context {A : Type} (R : relation A) `{!RelDecision R}.
Fixpoint insert_sorted (x : A) (l : list A) : list A :=
  match l with
  | [] => [x]
  | y :: l' => if decide (R x y) then x :: l else y :: insert_sorted x l'
  end.
Definition stable_sort : list A → list A := foldr insert_sorted [].

Lemma insert_sorted_perm x l : insert_sorted x l ≡ₚ x :: l.
Proof. induction l as [|y l IH]; simpl; [done|]. case_decide; [done|]. rewrite IH. constructor. Qed.
Lemma stable_sort_perm l : stable_sort l ≡ₚ l.
Proof. induction l as [|x l IH]; simpl; [done|]. by rewrite insert_sorted_perm, IH. Qed.
Context `{!Total R, !Transitive R}.
Lemma insert_sorted_sorted x l : StronglySorted R l → StronglySorted R (insert_sorted x l).
Proof.
  induction 1 as [|y l Hl IH Hy]; simpl; [by repeat constructor|]. case_decide as Hxy.
  - constructor; [by constructor|]. constructor; [done|]. eapply Forall_impl; [exact Hy|].
    intros z Hz. by etrans.
  - constructor; [exact IH|]. rewrite insert_sorted_perm. constructor; [|done].
    by destruct (total R x y).
Qed.
Lemma stable_sort_sorted l : StronglySorted R (stable_sort l).
Proof. induction l; simpl; [constructor|]. by apply insert_sorted_sorted. Qed.
End stable_sort.

(** A [BTreeMap<String, V>] is a [gmap string V] too; it iterates by ascending
    key (strings are ordered by bytes, [String.le]). *)
Definition sort_strings : list string → list string := merge_sort String.le.
Definition btree_iter {V} (m : gmap string V) : list (string * V) :=
  omap (λ k, pair k <$> m !! k) (sort_strings (map_to_list m).*1).

Lemma sort_strings_perm l : sort_strings l ≡ₚ l.
Proof. apply merge_sort_Permutation. Qed.
Lemma sort_strings_ext l k : l ≡ₚ k → sort_strings l = sort_strings k.
Proof. apply merge_sort_perm; apply _. Qed.
Lemma sort_strings_sorted l : Sorted String.le (sort_strings l).
Proof. apply Sorted_merge_sort. apply _. Qed.

Lemma elem_of_btree_iter {V} (m : gmap string V) k v :
  (k, v) ∈ btree_iter m ↔ m !! k = Some v.
Proof.
  unfold btree_iter. rewrite list_elem_of_omap. split.
  - intros (k' & _ & H). destruct (m !! k') eqn:E; [|done]. naive_solver.
  - intros H. exists k. rewrite H. split; [|done].
    rewrite sort_strings_perm, list_elem_of_fmap. exists (k, v).
    by rewrite elem_of_map_to_list.
Qed.

(** [Vec::dedup]: drops an element equal to the one kept before it. *)
Fixpoint dedup_from {A} `{!EqDecision A} (x : A) (l : list A) : list A :=
  match l with
  | [] => []
  | y :: l => if decide (x = y) then dedup_from x l else y :: dedup_from y l
  end.
Definition dedup {A} `{!EqDecision A} (l : list A) : list A :=
  match l with [] => [] | x :: l => x :: dedup_from x l end.
Lemma dedup_from_spec (x : string) l y : y ∈ dedup_from x l ∨ y = x ↔ y ∈ l ∨ y = x.
Proof.
  revert x. induction l as [|z l IH]; intros x; simpl; [done|].
  case_decide as Hx; [subst; rewrite IH; set_solver|].
  specialize (IH z). set_solver.
Qed.
Lemma elem_of_dedup (l : list string) y : y ∈ dedup l ↔ y ∈ l.
Proof.
  destruct l as [|x l]; [done|]. simpl. rewrite !elem_of_cons.
  pose proof (dedup_from_spec x l y). tauto.
Qed.

(** [if !v.contains(&x) { v.push(x) }] *)
Definition push_new {A} `{!EqDecision A} (v : list A) (x : A) : list A :=
  if decide (x ∈ v) then v else v ++ [x].

Lemma elem_of_push_new {A} `{!EqDecision A} (v : list A) x y :
  y ∈ push_new v x ↔ y ∈ v ∨ y = x.
Proof. unfold push_new. case_decide; set_solver. Qed.
Lemma NoDup_push_new {A} `{!EqDecision A} (v : list A) x :
  NoDup v → NoDup (push_new v x).
Proof.
  unfold push_new. case_decide; [done|]. intros Hv.
  apply NoDup_app. split_and!; [done| |apply NoDup_singleton]. set_solver.
Qed.
Lemma elem_of_push_all {A} `{!EqDecision A} (xs v : list A) y :
  y ∈ foldl push_new v xs ↔ y ∈ v ∨ y ∈ xs.
Proof.
  revert v. induction xs as [|x xs IH]; intros v; simpl; [set_solver|].
  rewrite IH, elem_of_push_new. set_solver.
Qed.
Lemma NoDup_push_all {A} `{!EqDecision A} (xs v : list A) :
  NoDup v → NoDup (foldl push_new v xs).
Proof.
  revert v. induction xs as [|x xs IH]; intros v Hv; simpl; [done|].
  by apply IH, NoDup_push_new.
Qed.

(** Filters that keep everything or nothing. *)
Lemma list_filter_all {A} (P : A → Prop) `{!∀ x, Decision (P x)} l :
  Forall P l → filter P l = l.
Proof. induction 1; [done|]. rewrite filter_cons_True by done. congruence. Qed.
Lemma list_filter_none {A} (P : A → Prop) `{!∀ x, Decision (P x)} l :
  Forall (λ x, ¬ P x) l → filter P l = [].
Proof. induction 1; [done|]. by rewrite filter_cons_False. Qed.

(** Lists of entries with distinct keys. *)
Lemma perm_same_keys {A B} (l k : list (A * B)) :
  NoDup l.*1 → l ≡ₚ k → l.*1 = k.*1 → l = k.
Proof.
  revert k. induction l as [|[n a] l IH]; intros k; csimpl.
  - intros _ HP%Permutation_nil_l _. done.
  - intros [Hn HN]%NoDup_cons HP Hk. destruct k as [|[n' b] k]; [done|]. csimpl in *.
    injection Hk as -> Hk.
    assert (a = b) as ->.
    { assert ((n', a) ∈ (n', b) :: k) as Hin by (rewrite <- HP; set_solver).
      apply elem_of_cons in Hin as [[= ->]|Hin]; [done|].
      destruct Hn. rewrite Hk. by apply (list_elem_of_fmap_2 fst) in Hin. }
    f_equal. apply IH; [done| |done]. by apply Permutation_cons_inv in HP.
Qed.

(** Sorting by key: with distinct keys there is one sorted order. *)
Lemma sorted_keys_unique {B} (l k : list (string * B)) :
  NoDup l.*1 → l ≡ₚ k → Sorted String.le l.*1 → Sorted String.le k.*1 → l = k.
Proof.
  intros HN HP Hl Hk. apply perm_same_keys; [done..|].
  apply (Sorted_unique String.le); [done..|]. by rewrite HP.
Qed.

(** A map that is injective on values reflects permutations. *)
Lemma fmap_perm_inj {A B} (f : A → B) `{!Inj (=) (=) f} l k :
  f <$> l ≡ₚ f <$> k → l ≡ₚ k.
Proof.
  intros (l3 & E & HP)%Permutation_map_inv. apply (inj (fmap f)) in E. by subst.
Qed.
