(* ===== verification/RustStr.v ===== *)
(** * Rust strings

    [&str] and [String] values are byte strings ([string]); the functions below
    are the [str] methods of the Rust standard library that the program uses,
    with the laws the components share. *)
From S2P Require Export Prelude.

(** ** Concatenation and length *)

Lemma str_app_cons x a b : String x a +:+ b = String x (a +:+ b).
Proof. done. Qed.
Lemma str_app_nil_l b : "" +:+ b = b.
Proof. done. Qed.
Lemma str_app_nil_r s : s +:+ "" = s.
Proof. induction s as [|a s IH]; [done|]. by rewrite str_app_cons, IH. Qed.
Lemma str_app_assoc a b c : a +:+ b +:+ c = (a +:+ b) +:+ c.
Proof. induction a as [|x a IH]; [done|]. by rewrite !str_app_cons, IH. Qed.
Lemma str_length_app a b : String.length (a +:+ b) = String.length a + String.length b.
Proof. induction a as [|x a IH]; [done|]. rewrite str_app_cons. simpl. by rewrite IH. Qed.
Lemma str_app_inj_l a b c : a +:+ b = a +:+ c → b = c.
Proof. induction a as [|x a IH]; [done|]. rewrite !str_app_cons. intros [= ?]. auto. Qed.
Lemma str_app_inj_len a b c d :
  String.length a = String.length c → a +:+ b = c +:+ d → a = c ∧ b = d.
Proof.
  revert c. induction a as [|x a IH]; intros [|y c]; try done.
  rewrite !str_app_cons. intros [= Hl] [= -> H]. by destruct (IH c Hl H) as [-> ->].
Qed.
Lemma str_app_inj_r a b c : b +:+ a = c +:+ a → b = c.
Proof.
  intros H. apply (str_app_inj_len b a c a); [|done].
  apply (f_equal String.length) in H. rewrite !str_length_app in H. lia.
Qed.

Fixpoint chars (s : string) : list ascii :=
  match s with EmptyString => [] | String a s => a :: chars s end.
Fixpoint of_chars (l : list ascii) : string :=
  match l with [] => EmptyString | a :: l => String a (of_chars l) end.

Lemma of_chars_chars s : of_chars (chars s) = s.
Proof. induction s; simpl; congruence. Qed.
Lemma chars_of_chars l : chars (of_chars l) = l.
Proof. induction l; simpl; congruence. Qed.
Lemma chars_app a b : chars (a +:+ b) = chars a ++ chars b.
Proof. induction a as [|x a IH]; [done|]. rewrite str_app_cons. simpl. by rewrite IH. Qed.
Lemma length_chars s : length (chars s) = String.length s.
Proof. induction s; simpl; congruence. Qed.
#[global] Instance chars_inj : Inj (=) (=) chars.
Proof. intros a b H. by rewrite <- (of_chars_chars a), H, of_chars_chars. Qed.

(** [has c s]: the character [c] occurs in [s] ([s.contains(c)]). *)
Definition has (c : ascii) (s : string) : bool := bool_decide (c ∈ chars s).

Lemma has_app c a b : has c (a +:+ b) = has c a || has c b.
Proof.
  apply eq_bool_prop_intro. unfold has. rewrite chars_app.
  rewrite orb_True, !bool_decide_spec. by rewrite elem_of_app.
Qed.

Definition take_str (n : nat) (s : string) : string := of_chars (take n (chars s)).
Definition drop_str (n : nat) (s : string) : string := of_chars (drop n (chars s)).

Lemma take_drop_str n s : take_str n s +:+ drop_str n s = s.
Proof.
  apply (inj chars). unfold take_str, drop_str.
  by rewrite chars_app, !chars_of_chars, take_drop.
Qed.

(** ** Prefixes, suffixes and substrings *)

(** [s.strip_prefix(pre)] *)
Fixpoint strip_prefix (pre s : string) : option string :=
  match pre, s with
  | EmptyString, _ => Some s
  | String a pre, String b s => if decide (a = b) then strip_prefix pre s else None
  | String _ _, EmptyString => None
  end.
(** [s.starts_with(pre)] *)
Definition starts_with (pre s : string) : bool :=
  match strip_prefix pre s with Some _ => true | None => false end.
(** [s.strip_suffix(suf)] *)
Definition strip_suffix (suf s : string) : option string :=
  let n := String.length s - String.length suf in
  if decide (drop_str n s = suf) then Some (take_str n s) else None.
(** [s.ends_with(suf)] *)
Definition ends_with (suf s : string) : bool :=
  match strip_suffix suf s with Some _ => true | None => false end.

Lemma strip_prefix_Some pre s r : strip_prefix pre s = Some r ↔ s = pre +:+ r.
Proof.
  revert s. induction pre as [|a pre IH]; intros s; cbn.
  - split; [by intros [= ->]|by intros ->].
  - destruct s as [|b s]; [done|]. case_decide as Hab.
    + subst. rewrite IH. split; [by intros ->|by intros [= ->]].
    + split; [done|]. intros [= -> ?]. done.
Qed.
Lemma starts_with_true pre s : starts_with pre s = true ↔ ∃ r, s = pre +:+ r.
Proof.
  unfold starts_with. setoid_rewrite <- strip_prefix_Some.
  destruct (strip_prefix pre s); naive_solver.
Qed.
Lemma strip_suffix_Some suf s r : strip_suffix suf s = Some r ↔ s = r +:+ suf.
Proof.
  unfold strip_suffix. split.
  - case_decide as H; [|done]. intros [= <-].
    rewrite <- H at 2. by rewrite take_drop_str.
  - intros ->. rewrite str_length_app.
    replace (String.length r + String.length suf - String.length suf)
      with (length (chars r)) by (rewrite length_chars; lia).
    unfold take_str, drop_str.
    rewrite chars_app, drop_app_length, take_app_length, !of_chars_chars.
    by rewrite decide_True.
Qed.
Lemma ends_with_true suf s : ends_with suf s = true ↔ ∃ r, s = r +:+ suf.
Proof.
  unfold ends_with. setoid_rewrite <- strip_suffix_Some.
  destruct (strip_suffix suf s); naive_solver.
Qed.

(** [s.contains(needle)] *)
Fixpoint contains (needle s : string) : bool :=
  starts_with needle s ||
  match s with EmptyString => false | String _ s => contains needle s end.

Lemma contains_true n s : contains n s = true ↔ ∃ a b, s = a +:+ n +:+ b.
Proof.
  induction s as [|x s IH]; simpl; rewrite orb_true_iff, starts_with_true.
  - split.
    + intros [[r Hr]|]; [|done]. by exists "", r.
    + intros (a & b & Hs). left. destruct a as [|y a]; [by exists b|done].
  - rewrite IH. split.
    + intros [[r ->]|(a & b & ->)]; [by exists "", r|by exists (String x a), b].
    + intros ([|y a] & b & Hs); [left; by exists b|].
      injection Hs as -> ->. right. by exists a, b.
Qed.

(** Byte offset of the first occurrence: [s.find(needle)]. *)
Fixpoint find_str (needle s : string) : option nat :=
  if starts_with needle s then Some 0
  else match s with EmptyString => None | String _ s => S <$> find_str needle s end.

Lemma find_str_Some n s i :
  find_str n s = Some i → ∃ a b, s = a +:+ n +:+ b ∧ String.length a = i.
Proof.
  revert i. induction s as [|x s IH]; intros i; cbn;
    destruct (starts_with n _) eqn:Hs; try (apply starts_with_true in Hs as [r Hr]).
  - intros [= <-]. by exists "", r.
  - done.
  - intros [= <-]. by exists "", r.
  - destruct (find_str n s) as [j|] eqn:Hf; [|done]. intros [= <-].
    destruct (IH j eq_refl) as (a & b & -> & <-). by exists (String x a), b.
Qed.
Lemma find_str_None n s : find_str n s = None ↔ contains n s = false.
Proof.
  induction s as [|x s IH]; cbn; destruct (starts_with n _); cbn; try done.
  rewrite <- IH. by destruct (find_str n s).
Qed.

(** Byte offset of the last occurrence: [s.rfind(needle)]. *)
Fixpoint rfind_str (needle s : string) : option nat :=
  match s with
  | EmptyString => if starts_with needle s then Some 0 else None
  | String _ s' =>
      match rfind_str needle s' with
      | Some i => Some (S i)
      | None => if starts_with needle s then Some 0 else None
      end
  end.

Lemma rfind_str_Some n s i :
  rfind_str n s = Some i → ∃ a b, s = a +:+ n +:+ b ∧ String.length a = i.
Proof.
  revert i. induction s as [|x s IH]; intros i; cbn.
  - destruct (starts_with n _) eqn:Hs; [|done].
    apply starts_with_true in Hs as [r Hr]. intros [= <-]. by exists "", r.
  - destruct (rfind_str n s) as [j|].
    + intros [= <-]. destruct (IH j eq_refl) as (a & b & -> & <-).
      by exists (String x a), b.
    + destruct (starts_with n _) eqn:Hs; [|done].
      apply starts_with_true in Hs as [r Hr]. intros [= <-]. by exists "", r.
Qed.

(** ** Splitting and joining *)

(** [s.split(c)] for a character [c]: always at least one piece. *)
Fixpoint split_char (c : ascii) (s : string) : list string :=
  match s with
  | EmptyString => [""]
  | String a s =>
      if decide (a = c) then "" :: split_char c s
      else match split_char c s with
           | p :: ps => String a p :: ps
           | [] => [String a ""]
           end
  end.

(** [l.join(sep)] *)
Fixpoint join (sep : string) (l : list string) : string :=
  match l with
  | [] => ""
  | [x] => x
  | x :: l => x +:+ sep +:+ join sep l
  end.

Lemma join_cons sep x y l : join sep (x :: y :: l) = x +:+ sep +:+ join sep (y :: l).
Proof. done. Qed.

Lemma split_char_not_nil c s : split_char c s ≠ [].
Proof.
  destruct s as [|a s]; simpl; [done|]. case_decide; [done|].
  by destruct (split_char c s).
Qed.

Lemma split_char_cons c s : ∃ p ps, split_char c s = p :: ps.
Proof.
  destruct (split_char c s) as [|p ps] eqn:E; [|eauto].
  by apply split_char_not_nil in E.
Qed.

Lemma join_split c s : join (String c "") (split_char c s) = s.
Proof.
  induction s as [|a s IH]; [done|]. simpl.
  destruct (split_char_cons c s) as (p & ps & E). rewrite E in IH |- *.
  case_decide as Hac.
  - rewrite join_cons, str_app_nil_l, str_app_cons, str_app_nil_l. by rewrite IH, Hac.
  - destruct ps as [|q ps]; [simpl in *; congruence|].
    rewrite join_cons in IH |- *. rewrite str_app_cons. by rewrite IH.
Qed.

Lemma split_char_has c s : Forall (λ p, has c p = false) (split_char c s).
Proof.
  induction s as [|a s IH]; [by repeat constructor|]. simpl.
  case_decide as Hac; [by constructor|].
  destruct (split_char_cons c s) as (p & ps & E). rewrite E in IH |- *.
  inversion_clear IH as [|?? Hp Hps]. constructor; [|done].
  unfold has in *. simpl. apply bool_decide_eq_false in Hp.
  apply bool_decide_eq_false. rewrite elem_of_cons. naive_solver.
Qed.

Lemma split_char_app c a s :
  has c a = false → split_char c (a +:+ String c s) = a :: split_char c s.
Proof.
  intros Ha. induction a as [|x a IH].
  - rewrite str_app_nil_l. simpl. by rewrite decide_True.
  - unfold has in Ha, IH. simpl in Ha. apply bool_decide_eq_false in Ha.
    rewrite elem_of_cons in Ha. rewrite str_app_cons. simpl.
    rewrite decide_False by naive_solver.
    rewrite IH; [done|]. apply bool_decide_eq_false. naive_solver.
Qed.

Lemma split_char_none c s : has c s = false → split_char c s = [s].
Proof.
  induction s as [|x s IH]; [done|]. unfold has in *. simpl.
  rewrite bool_decide_eq_false, elem_of_cons. intros Hs.
  rewrite decide_False by naive_solver. rewrite IH; [done|].
  apply bool_decide_eq_false. naive_solver.
Qed.

(** Splitting is the inverse of joining pieces that do not hold the separator. *)
Lemma split_join c l :
  l ≠ [] → Forall (λ p, has c p = false) l → split_char c (join (String c "") l) = l.
Proof.
  intros Hl H. induction H as [|p l Hp H IH]; [done|].
  destruct l as [|q l]; [by apply split_char_none|].
  rewrite join_cons. rewrite str_app_cons, str_app_nil_l.
  rewrite split_char_app by done. by rewrite IH.
Qed.

(** [s.split_once(c)] and [s.rsplit_once(sep)] *)
Fixpoint split_once (c : ascii) (s : string) : option (string * string) :=
  match s with
  | EmptyString => None
  | String a s =>
      if decide (a = c) then Some ("", s)
      else prod_map (String a) id <$> split_once c s
  end.

Lemma split_once_Some c s a b :
  split_once c s = Some (a, b) ↔ s = a +:+ String c b ∧ has c a = false.
Proof.
  revert a b. induction s as [|x s IH]; intros a b; simpl.
  - split; [done|]. intros [H _]. by destruct a.
  - case_decide as Hx.
    + subst. split.
      * intros [= <- <-]. by split.
      * intros [H Ha]. destruct a as [|y a]; [by injection H as ->|].
        injection H as -> ->. unfold has in Ha. simpl in Ha.
        apply bool_decide_eq_false in Ha. rewrite elem_of_cons in Ha. naive_solver.
    + split.
      * destruct (split_once c s) as [[a' b']|] eqn:E; [|done].
        intros [= <- <-]. destruct (proj1 (IH a' b') eq_refl) as [-> Ha].
        split; [done|]. unfold has in *. simpl.
        apply bool_decide_eq_false in Ha. apply bool_decide_eq_false.
        rewrite elem_of_cons. naive_solver.
      * intros [H Ha]. destruct a as [|y a].
        { injection H as ->. done. }
        injection H as -> ->. unfold has in Ha. simpl in Ha.
        apply bool_decide_eq_false in Ha. rewrite elem_of_cons in Ha.
        rewrite (proj2 (IH a b)); [done|]. split; [done|].
        apply bool_decide_eq_false. naive_solver.
Qed.

Definition rsplit_once (sep s : string) : option (string * string) :=
  i ← rfind_str sep s;
  Some (take_str i s, drop_str (i + String.length sep) s).

(** [s.replace(c, r)] for a character [c]. *)
Fixpoint replace_char (c : ascii) (r s : string) : string :=
  match s with
  | EmptyString => ""
  | String a s => (if decide (a = c) then r else String a "") +:+ replace_char c r s
  end.

Lemma replace_char_app c r a b :
  replace_char c r (a +:+ b) = replace_char c r a +:+ replace_char c r b.
Proof.
  induction a as [|x a IH]; [done|].
  rewrite str_app_cons. simpl. by rewrite IH, str_app_assoc.
Qed.

(** ** Case *)

Definition between (lo hi : N) (a : ascii) : bool :=
  (lo <=? N_of_ascii a)%N && (N_of_ascii a <=? hi)%N.
Definition is_upper : ascii → bool := between 65 90.
Definition is_lower : ascii → bool := between 97 122.
Definition is_digit : ascii → bool := between 48 57.
Definition is_alnum (a : ascii) : bool := is_upper a || is_lower a || is_digit a.

Definition ascii_lower (a : ascii) : ascii :=
  if is_upper a then ascii_of_N (N_of_ascii a + 32) else a.
Definition ascii_upper (a : ascii) : ascii :=
  if is_lower a then ascii_of_N (N_of_ascii a - 32) else a.

Fixpoint str_map (f : ascii → ascii) (s : string) : string :=
  match s with EmptyString => "" | String a s => String (f a) (str_map f s) end.
(** [to_ascii_lowercase], [to_ascii_uppercase], [eq_ignore_ascii_case] *)
Definition to_ascii_lowercase : string → string := str_map ascii_lower.
Definition to_ascii_uppercase : string → string := str_map ascii_upper.
Definition eq_ignore_ascii_case (a b : string) : bool :=
  bool_decide (to_ascii_lowercase a = to_ascii_lowercase b).

Lemma eq_ignore_ascii_case_refl a : eq_ignore_ascii_case a a = true.
Proof. by apply bool_decide_eq_true. Qed.
Lemma eq_ignore_ascii_case_sym a b :
  eq_ignore_ascii_case a b = eq_ignore_ascii_case b a.
Proof. unfold eq_ignore_ascii_case. by apply bool_decide_ext. Qed.

(** ** Whitespace and lines

    The Unicode [White_Space] characters, as their UTF-8 encodings. *)
Definition byte (n : N) : ascii := ascii_of_N n.
Definition utf8 (l : list N) : string := of_chars (byte <$> l).
Definition white_space : list string :=
  utf8 <$> [[9%N]; [10%N]; [11%N]; [12%N]; [13%N]; [32%N]; [194;133]%N; [194;160]%N;
    [225;154;128]%N;
    [226;128;128]%N; [226;128;129]%N; [226;128;130]%N; [226;128;131]%N; [226;128;132]%N;
    [226;128;133]%N; [226;128;134]%N; [226;128;135]%N; [226;128;136]%N; [226;128;137]%N;
    [226;128;138]%N; [226;128;168]%N; [226;128;169]%N; [226;128;175]%N;
    [226;129;159]%N; [227;128;128]%N].

Fixpoint first_some {A B} (f : A → option B) (l : list A) : option B :=
  match l with
  | [] => None
  | x :: l => match f x with Some y => Some y | None => first_some f l end
  end.

Lemma first_some_Some {A B} (f : A → option B) l b : first_some f l = Some b → ∃ a, a ∈ l ∧ f a = Some b.
Proof.
  induction l as [|a l IH]; simpl; [done|]. destruct (f a) as [b'|] eqn:E.
  - intros [= ->]. exists a. split; [by left|done].
  - intros (a' & ? & ?)%IH. exists a'. split; [by right|done].
Qed.

Fixpoint trim_with (strip : string → string → option string) (fuel : nat) (s : string) :
    string :=
  match fuel with
  | O => s
  | S fuel =>
      match first_some (λ w, strip w s) white_space with
      | Some s' => trim_with strip fuel s'
      | None => s
      end
  end.
(** [s.trim_start()], [s.trim_end()] and [s.trim()]; every step shortens the
    string, so its length is enough fuel. *)
Definition trim_start (s : string) : string := trim_with strip_prefix (String.length s) s.
Definition trim_end (s : string) : string := trim_with strip_suffix (String.length s) s.
Definition trim (s : string) : string := trim_end (trim_start s).

(** [s.split_whitespace()] *)
Fixpoint words_aux (fuel : nat) (cur s : string) : list string :=
  let flush rest := if decide (cur = "") then rest else cur :: rest in
  match fuel, s with
  | S fuel, String a s' =>
      match first_some (λ w, strip_prefix w s) white_space with
      | Some rest => flush (words_aux fuel "" rest)
      | None => words_aux fuel (cur +:+ String a "") s'
      end
  | _, _ => flush []
  end.
Definition split_whitespace (s : string) : list string := words_aux (String.length s) "" s.

(** [s.trim_end_matches(c)] and [s.trim_start_matches(c)] for a character. *)
Fixpoint drop_leading (c : ascii) (l : list ascii) : list ascii :=
  match l with
  | a :: l' => if decide (a = c) then drop_leading c l' else l
  | [] => []
  end.
Definition trim_start_matches (c : ascii) (s : string) : string :=
  of_chars (drop_leading c (chars s)).
Definition trim_end_matches (c : ascii) (s : string) : string :=
  of_chars (rev (drop_leading c (rev (chars s)))).

(** [s.lines()]: line endings are LF or CRLF, the last one optional. *)
Definition newline : ascii := byte 10.
Definition carriage_return : ascii := byte 13.
Fixpoint lines_of (parts : list string) : list string :=
  match parts with
  | [] => []
  | [p] => if decide (p = "") then [] else [p]
  | p :: ps => default p (strip_suffix (String carriage_return "") p) :: lines_of ps
  end.
Definition lines (s : string) : list string := lines_of (split_char newline s).

(** [s.chars().take(n).collect()]: a UTF-8 character starts at every byte that
    is not a continuation byte [10xxxxxx]. *)
Fixpoint take_chars (n : nat) (s : string) : string :=
  match s with
  | EmptyString => ""
  | String a s' =>
      if between 128 191 a then String a (take_chars n s')
      else match n with O => "" | S n => String a (take_chars n s') end
  end.

(** ** Reading back lines *)

Lemma lines_of_cons p q ps :
  lines_of (p :: q :: ps) =
  default p (strip_suffix (String carriage_return "") p) :: lines_of (q :: ps).
Proof. done. Qed.

(** A file that is empty or ends in a newline. *)
Definition terminated (s : string) : Prop := s = "" ∨ ∃ r, s = r +:+ String newline "".

Lemma split_char_snoc c r : split_char c (r +:+ String c "") = split_char c r ++ [""].
Proof.
  induction r as [|a r IH].
  - rewrite str_app_nil_l. simpl. by rewrite decide_True.
  - rewrite str_app_cons. simpl. rewrite IH.
    destruct (split_char_cons c r) as (p & ps & ->). by case_decide.
Qed.

Lemma split_char_app_terminated c r l :
  has c l = false →
  split_char c (r +:+ String c "" +:+ l) = split_char c r ++ [l].
Proof.
  intros Hl. induction r as [|a r IH].
  - rewrite str_app_nil_l, str_app_cons, str_app_nil_l. simpl. rewrite decide_True by done.
    by rewrite split_char_none.
  - rewrite str_app_cons. simpl. rewrite IH.
    destruct (split_char_cons c r) as (p & ps & ->). by case_decide.
Qed.

Lemma lines_of_snoc ps p : ps ≠ [] → lines_of (ps ++ [p]) =
  ((λ p, default p (strip_suffix (String carriage_return "") p)) <$> ps)
  ++ (if decide (p = "") then [] else [p]).
Proof.
  intros Hps. induction ps as [|q ps IH]; [done|].
  destruct ps as [|q' ps]; [done|].
  change ((q :: q' :: ps) ++ [p]) with (q :: q' :: (ps ++ [p])).
  rewrite lines_of_cons. change (q' :: (ps ++ [p])) with ((q' :: ps) ++ [p]).
  by rewrite IH.
Qed.

(** Appending a newline-terminated line to a terminated file adds that line. *)
Lemma lines_append c l :
  terminated c → has newline l = false → ends_with (String carriage_return "") l = false →
  lines (c +:+ l +:+ String newline "") = lines c ++ [l].
Proof.
  intros Hc Hl Hr.
  assert (strip_suffix (String carriage_return "") l = None) as Hs.
  { unfold ends_with in Hr. by destruct (strip_suffix _ l). }
  unfold lines. rewrite str_app_assoc, split_char_snoc.
  rewrite lines_of_snoc by apply split_char_not_nil.
  rewrite decide_True, app_nil_r by done.
  destruct Hc as [->|[r ->]].
  - rewrite str_app_nil_l, split_char_none by done. simpl. by rewrite Hs.
  - rewrite <- str_app_assoc, split_char_app_terminated by done.
    rewrite fmap_app, split_char_snoc, lines_of_snoc by apply split_char_not_nil.
    rewrite decide_True, app_nil_r by done. f_equal. simpl. by rewrite Hs.
Qed.

(** ** UTF-8 validity ([std::str::from_utf8])

    The well-formed byte sequences of the Unicode standard: no overlong forms, no
    surrogates, nothing above U+10FFFF. *)
Definition continuation : ascii → bool := between 128 191.
Fixpoint valid_utf8_chars (l : list ascii) : bool :=
  match l with
  | [] => true
  | a :: l1 =>
      if between 0 127 a then valid_utf8_chars l1
      else match l1 with
      | [] => false
      | b :: l2 =>
          if between 194 223 a then continuation b && valid_utf8_chars l2
          else match l2 with
          | [] => false
          | c :: l3 =>
              if between 224 239 a then
                between (if between 224 224 a then 160 else 128)
                        (if between 237 237 a then 159 else 191) b
                && continuation c && valid_utf8_chars l3
              else match l3 with
              | [] => false
              | d :: l4 =>
                  between 240 244 a
                  && between (if between 240 240 a then 144 else 128)
                             (if between 244 244 a then 143 else 191) b
                  && continuation c && continuation d && valid_utf8_chars l4
              end
          end
      end
  end.
Definition valid_utf8 (s : string) : bool := valid_utf8_chars (chars s).

(** [String::from_utf8_lossy]: a maximal part that is not well formed becomes one U+FFFD. *)
Definition replacement : list ascii := byte <$> [239; 191; 189]%N.
Fixpoint lossy_chars (l : list ascii) : list ascii :=
  match l with
  | [] => []
  | a :: l1 =>
      if between 0 127 a then a :: lossy_chars l1
      else if between 194 223 a then
        match l1 with
        | b :: l2 => if continuation b then a :: b :: lossy_chars l2 else replacement ++ lossy_chars l1
        | [] => replacement
        end
      else if between 224 239 a then
        match l1 with
        | b :: l2 =>
            if between (if between 224 224 a then 160 else 128) (if between 237 237 a then 159 else 191) b then
              match l2 with
              | c :: l3 => if continuation c then a :: b :: c :: lossy_chars l3 else replacement ++ lossy_chars l2
              | [] => replacement
              end
            else replacement ++ lossy_chars l1
        | [] => replacement
        end
      else if between 240 244 a then
        match l1 with
        | b :: l2 =>
            if between (if between 240 240 a then 144 else 128) (if between 244 244 a then 143 else 191) b then
              match l2 with
              | c :: l3 =>
                  if continuation c then
                    match l3 with
                    | d :: l4 =>
                        if continuation d then a :: b :: c :: d :: lossy_chars l4
                        else replacement ++ lossy_chars l3
                    | [] => replacement
                    end
                  else replacement ++ lossy_chars l2
              | [] => replacement
              end
            else replacement ++ lossy_chars l1
        | [] => replacement
        end
      else replacement ++ lossy_chars l1
  end.
Definition utf8_lossy (s : string) : string := of_chars (lossy_chars (chars s)).
Lemma lossy_chars_valid n l : length l ≤ n → valid_utf8_chars l = true → lossy_chars l = l.
Proof.
  revert l. induction n as [|n IH]; intros l Hn Hv; [by destruct l; [|simpl in Hn; lia]|].
  destruct l as [|a l1]; [done|]. simpl in Hn. cbn [valid_utf8_chars lossy_chars] in *.
  destruct (between 0 127 a); [by rewrite IH by (done || lia)|].
  destruct l1 as [|b l2]; [done|]. simpl in Hn.
  destruct (between 194 223 a).
  { apply andb_true_iff in Hv as [-> Hv]. by rewrite IH by (done || lia). }
  destruct l2 as [|c l3]; [done|]. simpl in Hn.
  destruct (between 224 239 a).
  { apply andb_true_iff in Hv as [[-> ->]%andb_true_iff Hv]. by rewrite IH by (done || lia). }
  destruct l3 as [|d l4]; [done|]. simpl in Hn.
  apply andb_true_iff in Hv as [[[[-> ->]%andb_true_iff ->]%andb_true_iff ->]%andb_true_iff Hv].
  by rewrite IH by (done || lia).
Qed.
Lemma utf8_lossy_valid s : valid_utf8 s = true → utf8_lossy s = s.
Proof. intros H. unfold utf8_lossy. by rewrite (lossy_chars_valid _ _ (le_n _) H), of_chars_chars. Qed.

(** [format!("{b:02X}")] *)
Definition hex_digit (n : N) : ascii :=
  if (n <? 10)%N then ascii_of_N (48 + n) else ascii_of_N (55 + n).
Definition hex_byte (a : ascii) : string :=
  of_chars [hex_digit (N_of_ascii a / 16); hex_digit (N_of_ascii a mod 16)].

(** ** Positions of a character *)

Lemma has_cons c x s : has c (String x s) = bool_decide (c = x) || has c s.
Proof.
  unfold has. simpl. destruct (bool_decide (c ∈ x :: chars s)) eqn:E.
  - apply bool_decide_eq_true, elem_of_cons in E as [->|E].
    + by rewrite bool_decide_true.
    + by rewrite (bool_decide_true (c ∈ chars s)), orb_true_r.
  - apply bool_decide_eq_false in E. rewrite not_elem_of_cons in E. destruct E.
    by rewrite !bool_decide_false.
Qed.
Lemma starts_with_char c x s : starts_with (String c "") (String x s) = bool_decide (c = x).
Proof.
  destruct (bool_decide (c = x)) eqn:E.
  - apply bool_decide_eq_true in E as ->. apply starts_with_true. by exists s.
  - apply bool_decide_eq_false in E. apply not_true_is_false.
    intros [r [= -> _]]%starts_with_true. done.
Qed.

Lemma find_str_char c a b :
  has c a = false → find_str (String c "") (a +:+ String c b) = Some (String.length a).
Proof.
  induction a as [|x a IH]; intros H.
  - rewrite str_app_nil_l. simpl find_str. by rewrite starts_with_char, bool_decide_true.
  - rewrite has_cons in H. apply orb_false_iff in H as [Hx Ha].
    rewrite str_app_cons. cbn [find_str]. rewrite starts_with_char, Hx.
    rewrite IH by done. done.
Qed.
Lemma find_str_char_none c s : has c s = false → find_str (String c "") s = None.
Proof.
  induction s as [|x s IH]; intros H; [done|].
  rewrite has_cons in H. apply orb_false_iff in H as [Hx Hs].
  cbn [find_str]. rewrite starts_with_char, Hx, IH; done.
Qed.
Lemma rfind_str_char_none c s : has c s = false → rfind_str (String c "") s = None.
Proof.
  induction s as [|x s IH]; intros H; [done|].
  rewrite has_cons in H. apply orb_false_iff in H as [Hx Hs].
  cbn [rfind_str]. rewrite IH, starts_with_char, Hx; done.
Qed.
Lemma rfind_str_char c a b :
  has c b = false → rfind_str (String c "") (a +:+ String c b) = Some (String.length a).
Proof.
  induction a as [|x a IH]; intros H.
  - rewrite str_app_nil_l. cbn [rfind_str].
    by rewrite rfind_str_char_none, starts_with_char, bool_decide_true by done.
  - rewrite str_app_cons. cbn [rfind_str]. by rewrite IH.
Qed.

Lemma take_str_app a b : take_str (String.length a) (a +:+ b) = a.
Proof.
  unfold take_str. rewrite chars_app, <- length_chars, take_app_length. apply of_chars_chars.
Qed.
Lemma drop_str_app a b : drop_str (String.length a) (a +:+ b) = b.
Proof.
  unfold drop_str. rewrite chars_app, <- length_chars, drop_app_length. apply of_chars_chars.
Qed.
Lemma drop_str_cons n x s : drop_str (S n) (String x s) = drop_str n s.
Proof. done. Qed.
Lemma drop_str_S n a x b : String.length a = n → drop_str (n + 1) (a +:+ String x b) = b.
Proof.
  intros <-. unfold drop_str. rewrite chars_app, <- length_chars. simpl.
  rewrite drop_app_ge, Nat.add_sub_swap, Nat.sub_diag by lia. simpl. apply of_chars_chars.
Qed.

(** ** String literals in double quotes *)

Definition dquote : ascii := byte 34.
Definition backslash : ascii := byte 92.

(** Reading a string literal up to its closing quote: a backslash stands before a
    character taken as it is. *)
Fixpoint read_literal (s : string) : option (string * string) :=
  match s with
  | EmptyString => None
  | String c s =>
      if decide (c = dquote) then Some ("", s)
      else if decide (c = backslash) then
        match s with
        | EmptyString => None
        | String d s => prod_map (String d) id <$> read_literal s
        end
      else prod_map (String c) id <$> read_literal s
  end.

Definition escaped (p : string) : string :=
  replace_char dquote (of_chars [backslash; dquote])
    (replace_char backslash (of_chars [backslash; backslash]) p).
Lemma escaped_cons x p :
  escaped (String x p) =
  (if decide (x = backslash) then of_chars [backslash; backslash]
   else if decide (x = dquote) then of_chars [backslash; dquote] else String x "") +:+ escaped p.
Proof.
  unfold escaped. cbn [replace_char]. rewrite replace_char_app. f_equal.
  case_decide as Hb; [done|]. cbn [replace_char]. by rewrite str_app_nil_r.
Qed.
Lemma read_escaped p rest : read_literal (escaped p +:+ String dquote rest) = Some (p, rest).
Proof.
  induction p as [|x p IH]; [done|]. rewrite escaped_cons, <- str_app_assoc.
  case_decide as Hb; [subst x|case_decide as Hq; [subst x|]].
  - cbn [of_chars]. rewrite !str_app_cons, str_app_nil_l. cbn [read_literal].
    rewrite decide_False, decide_True by done. by rewrite IH.
  - cbn [of_chars]. rewrite !str_app_cons, str_app_nil_l. cbn [read_literal].
    rewrite decide_False, decide_True by done. by rewrite IH.
  - rewrite str_app_cons, str_app_nil_l. cbn [read_literal].
    rewrite !decide_False by done. by rewrite IH.
Qed.

(** [str::parse::<u64>]: an optional plus sign, at least one digit, no overflow. *)
Fixpoint parse_digits (acc : Z) (l : list ascii) : option Z :=
  match l with
  | [] => Some acc
  | a :: l =>
      if is_digit a then
        let v := (acc * 10 + (Z.of_N (N_of_ascii a) - 48))%Z in
        if (v <=? u64_max)%Z then parse_digits v l else None
      else None
  end.
Definition parse_u64 (s : string) : option Z :=
  let digits := default s (strip_prefix "+" s) in
  if decide (digits = "") then None else parse_digits 0 (chars digits).
Lemma parse_digits_nonneg l acc v : (0 ≤ acc)%Z → parse_digits acc l = Some v → (0 ≤ v)%Z.
Proof.
  revert acc. induction l as [|a l IH]; intros acc Ha; simpl; [by intros [= <-]|].
  destruct (is_digit a) eqn:Ed; [|done]. case_match; [|done]. apply IH.
  unfold is_digit, between in Ed. apply andb_true_iff in Ed as [E1%N.leb_le _]. lia.
Qed.
