(* ===== verification/Core.v ===== *)
(** * oath-core

    - [Policy]: the layered [oath-policy.toml] ([policy.rs]): merging the global
      and the project layer, and the questions the CLI asks of the result.
    - [Permissions]: declared capabilities and their risk ([permissions.rs]).
    - [Integrity]: SRI strings and their base64 ([integrity.rs]). *)
From S2P Require Export RustStr.

(** ** [policy.rs] *)
Module Policy.

Inductive RiskLevel := Clean | Info | Low | Medium | High | Critical.
#[export] Instance RiskLevel_eq_dec : EqDecision RiskLevel.
Proof. solve_decision. Defined.

(** Derived [Ord]: the order of the constructors. *)
Definition rank (r : RiskLevel) : nat :=
  match r with
  | Clean => 0 | Info => 1 | Low => 2 | Medium => 3 | High => 4 | Critical => 5
  end.

Record RawPolicy := {
  raw_banned_packages : list string;
  raw_banned_licenses : list string;
  raw_require_approval : list string;
  raw_allow_install_scripts : list string;
  raw_block_install_scripts : option bool;
  raw_max_risk_level : option string;
}.

Record OathPolicy := {
  banned_packages : list string;
  banned_licenses : list string;
  require_approval : list string;
  allow_install_scripts : list string;
  block_install_scripts : bool;
  max_risk_level : string;
}.

Definition default_policy : OathPolicy := {|
  banned_packages := [];
  banned_licenses := [];
  require_approval := [];
  allow_install_scripts := [];
  block_install_scripts := false;
  max_risk_level := "critical";
|}.

Definition merge (self : OathPolicy) (raw : RawPolicy) : OathPolicy := {|
  banned_packages := foldl push_new (banned_packages self) (raw_banned_packages raw);
  banned_licenses := foldl push_new (banned_licenses self) (raw_banned_licenses raw);
  require_approval := foldl push_new (require_approval self) (raw_require_approval raw);
  allow_install_scripts :=
    foldl push_new (allow_install_scripts self) (raw_allow_install_scripts raw);
  block_install_scripts :=
    default (block_install_scripts self) (raw_block_install_scripts raw);
  max_risk_level := default (max_risk_level self) (raw_max_risk_level raw);
|}.

Section load.
(** The file system, the home directory and the [toml] decoder. *)
Context (read_to_string : string → option string)
        (home_dir : option string)
        (toml_from_str : string → option RawPolicy).

Definition layer (path : string) : option RawPolicy :=
  read_to_string path ≫= toml_from_str.

Definition merge_layer (policy : OathPolicy) (l : option RawPolicy) : OathPolicy :=
  match l with Some raw => merge policy raw | None => policy end.

Definition global_layer : option RawPolicy :=
  home ← home_dir; layer (home +:+ "/.oath/policy.toml").
Definition local_layer : option RawPolicy := layer "oath-policy.toml".

Definition load : OathPolicy :=
  merge_layer (merge_layer default_policy global_layer) local_layer.

(** The layers [load] found, in the order they are applied. *)
Definition layers : list RawPolicy :=
  option_list global_layer ++ option_list local_layer.
End load.

Definition listed (l : list string) (name : string) : bool :=
  existsb (λ b, eq_ignore_ascii_case b name) l.

Definition is_package_banned (self : OathPolicy) (name : string) : bool :=
  listed (banned_packages self) name.
Definition is_license_banned (self : OathPolicy) (license : string) : bool :=
  listed (banned_licenses self) license.
Definition allows_install_script (self : OathPolicy) (name : string) : bool :=
  if listed (allow_install_scripts self) name then true
  else negb (block_install_scripts self).

(** [to_lowercase] is Unicode-aware in Rust; no character outside ASCII
    lowercases to one of the letters of the six names, so for this match the
    ASCII lowercase gives the same answer. *)
Definition max_risk (self : OathPolicy) : RiskLevel :=
  let s := to_ascii_lowercase (max_risk_level self) in
  if decide (s = "clean") then Clean
  else if decide (s = "info") then Info
  else if decide (s = "low") then Low
  else if decide (s = "medium") then Medium
  else if decide (s = "high") then High
  else if decide (s = "critical") then Critical
  else Critical.

Lemma listed_true l name :
  listed l name = true ↔ ∃ b, b ∈ l ∧ eq_ignore_ascii_case b name = true.
Proof.
  unfold listed. rewrite existsb_exists. by setoid_rewrite list_elem_of_In.
Qed.

(** A field of the loaded policy that [merge] extends holds what any layer lists. *)
Lemma merge_layer_elem (f : OathPolicy → list string) (r : RawPolicy → list string) p l x :
  (∀ p raw, f (merge p raw) = foldl push_new (f p) (r raw)) →
  x ∈ f (merge_layer p l) ↔ x ∈ f p ∨ ∃ raw, raw ∈ option_list l ∧ x ∈ r raw.
Proof.
  intros Hf. destruct l as [raw|]; simpl; [|set_solver].
  rewrite Hf, elem_of_push_all. set_solver.
Qed.

Lemma load_elem (f : OathPolicy → list string) (r : RawPolicy → list string)
    read home toml x :
  f default_policy = [] →
  (∀ p raw, f (merge p raw) = foldl push_new (f p) (r raw)) →
  x ∈ f (load read home toml) ↔ ∃ raw, raw ∈ layers read home toml ∧ x ∈ r raw.
Proof.
  intros Hd Hf. unfold load, layers.
  rewrite !(merge_layer_elem f r) by done. rewrite Hd. set_solver.
Qed.

Lemma listed_load (f : OathPolicy → list string) (r : RawPolicy → list string)
    read home toml name :
  f default_policy = [] →
  (∀ p raw, f (merge p raw) = foldl push_new (f p) (r raw)) →
  listed (f (load read home toml)) name =
  existsb (λ raw, listed (r raw) name) (layers read home toml).
Proof.
  intros Hd Hf. apply eq_true_iff_eq.
  rewrite listed_true, existsb_exists.
  setoid_rewrite (load_elem f r read home toml _ Hd Hf).
  setoid_rewrite listed_true. setoid_rewrite <- list_elem_of_In. naive_solver.
Qed.

(** The loaded policy is the union of its layers: a package or a licence is
    banned exactly when some layer that was found and parsed lists it, so the
    project file can add a ban but never lift a global one; the two scalars come
    from the last layer that sets them; an install script is allowed when a layer
    allows it by name or no layer's last word blocks scripts. *)
Theorem load_spec read home toml name :
  let p := load read home toml in
  let ls := layers read home toml in
  is_package_banned p name = existsb (λ l, listed (raw_banned_packages l) name) ls ∧
  is_license_banned p name = existsb (λ l, listed (raw_banned_licenses l) name) ls ∧
  (∀ x, x ∈ require_approval p ↔ ∃ l, l ∈ ls ∧ x ∈ raw_require_approval l) ∧
  allows_install_script p name =
    existsb (λ l, listed (raw_allow_install_scripts l) name) ls
    || negb (default false (last (omap raw_block_install_scripts ls))) ∧
  max_risk_level p = default "critical" (last (omap raw_max_risk_level ls)).
Proof.
  intros p ls. split_and!.
  - by apply listed_load.
  - by apply listed_load.
  - intros x. by apply load_elem.
  - unfold allows_install_script.
    unfold p. rewrite (listed_load allow_install_scripts raw_allow_install_scripts) by done.
    fold ls. destruct (existsb _ _); [done|]. simpl. f_equal.
    unfold ls, load, layers.
    destruct (global_layer read home toml) as [g|], (local_layer read toml) as [l|]; simpl;
      repeat destruct (raw_block_install_scripts _); done.
  - unfold p, ls, load, layers.
    destruct (global_layer read home toml) as [g|], (local_layer read toml) as [l|]; simpl;
      repeat destruct (raw_max_risk_level _); done.
Qed.

End Policy.

(** ** [permissions.rs] *)
Module Permissions.

Record Permissions := {
  net : list string;
  fs_read : list string;
  fs_write : list string;
  env : list string;
  run : list string;
  ffi : bool;
  install_scripts : bool;
}.

Definition is_empty (l : list string) : bool := match l with [] => true | _ => false end.

Definition is_sandboxed (p : Permissions) : bool :=
  is_empty (net p) && is_empty (fs_read p) && is_empty (fs_write p)
  && is_empty (env p) && is_empty (run p) && negb (ffi p) && negb (install_scripts p).

Definition summary_line (what : string) (l : list string) : list string :=
  if is_empty l then [] else [what +:+ join ", " l].

Definition summary (p : Permissions) : list string :=
  let lines :=
    summary_line "network: " (net p) ++ summary_line "read: " (fs_read p)
    ++ summary_line "write: " (fs_write p) ++ summary_line "env: " (env p)
    ++ summary_line "exec: " (run p)
    ++ (if ffi p then ["ffi: YES (native code)"] else [])
    ++ (if install_scripts p then ["install scripts: YES"] else []) in
  match lines with [] => ["pure (no system access)"] | _ => lines end.

Inductive RiskLevel := RNone | RLow | RMedium | RHigh | RCritical.
Definition rank (r : RiskLevel) : nat :=
  match r with RNone => 0 | RLow => 1 | RMedium => 2 | RHigh => 3 | RCritical => 4 end.

Definition needs_high (p : Permissions) : bool := ffi p || install_scripts p.
Definition needs_medium (p : Permissions) : bool :=
  negb (is_empty (net p)) || negb (is_empty (fs_write p)) || negb (is_empty (run p)).
Definition needs_low (p : Permissions) : bool :=
  negb (is_empty (fs_read p)) || negb (is_empty (env p)).

Definition risk_level (p : Permissions) : RiskLevel :=
  if needs_high p then RHigh
  else if needs_medium p then RMedium
  else if needs_low p then RLow
  else RNone.

(** [p] declares no capability that [q] does not. *)
Record grants_le (p q : Permissions) : Prop := {
  le_net : net p ⊆ net q;
  le_fs_read : fs_read p ⊆ fs_read q;
  le_fs_write : fs_write p ⊆ fs_write q;
  le_env : env p ⊆ env q;
  le_run : run p ⊆ run q;
  le_ffi : Is_true (ffi p) → Is_true (ffi q);
  le_install : Is_true (install_scripts p) → Is_true (install_scripts q);
}.

Lemma nonempty_mono l k :
  l ⊆ k → Is_true (negb (is_empty l)) → Is_true (negb (is_empty k)).
Proof. destruct l as [|x l], k as [|y k]; try done. intros H _. specialize (H x). set_solver. Qed.

Lemma needs_mono p q :
  grants_le p q →
  (Is_true (needs_high p) → Is_true (needs_high q)) ∧
  (Is_true (needs_medium p) → Is_true (needs_medium q)) ∧
  (Is_true (needs_low p) → Is_true (needs_low q)).
Proof.
  intros [Hn Hr Hw He Hx Hf Hi]. unfold needs_high, needs_medium, needs_low.
  rewrite !orb_True. pose proof nonempty_mono. naive_solver.
Qed.

(** The risk of a manifest: no risk exactly when it is sandboxed, which is
    when its summary says it is pure; granting more never lowers the level; and
    [Critical] is never computed from a declaration. *)
Theorem risk_level_spec p q :
  (risk_level p = RNone ↔ is_sandboxed p = true) ∧
  (is_sandboxed p = true ↔ summary p = ["pure (no system access)"]) ∧
  (grants_le p q → rank (risk_level p) ≤ rank (risk_level q)) ∧
  rank (risk_level p) ≤ rank RHigh.
Proof.
  split_and!.
  - unfold risk_level, needs_high, needs_medium, needs_low, is_sandboxed.
    destruct (ffi p), (install_scripts p), (net p), (fs_write p), (run p), (fs_read p),
      (env p); simpl; done.
  - unfold summary, is_sandboxed, summary_line.
    destruct (net p), (fs_read p), (fs_write p), (env p), (run p), (ffi p),
      (install_scripts p); simpl; done.
  - intros (Hh & Hm & Hl)%needs_mono. unfold risk_level.
    destruct (needs_high p), (needs_high q), (needs_medium p), (needs_medium q),
      (needs_low p), (needs_low q); simpl in *; solve [lia | tauto].
  - unfold risk_level.
    destruct (needs_high p), (needs_medium p), (needs_low p); simpl; lia.
Qed.

Lemma risk_level_spec_witness :
  let p := {| net := []; fs_read := ["src"]; fs_write := []; env := []; run := [];
              ffi := false; install_scripts := false |} in
  let q := {| net := ["a.b"]; fs_read := ["src"]; fs_write := []; env := []; run := [];
              ffi := false; install_scripts := false |} in
  grants_le p q ∧ rank (risk_level p) ≤ rank (risk_level q).
Proof.
  intros p q. assert (grants_le p q) as H by (split; simpl; set_solver).
  split; [exact H|]. by apply (risk_level_spec p q).
Defined.

End Permissions.

(** ** [integrity.rs] *)
Module Integrity.

Definition CHARS : string :=
  "ABCDEFGHIJKLMNOPQRSTUVWXYZabcdefghijklmnopqrstuvwxyz0123456789+/".

(** [CHARS[i] as char]; every index below is masked to 6 bits, so the access is
    never out of bounds ([CHARS] has 64 characters). *)
Definition char_of (i : Z) : ascii := default "="%char (chars CHARS !! Z.to_nat i).

Definition byte_val (a : ascii) : Z := Z.of_N (N_of_ascii a).

(** One round of the loop over [data.chunks(3)]; [b] and [c] are
    [chunk.get(1)] and [chunk.get(2)]. *)
Definition encode_chunk (a : ascii) (b c : option ascii) : list ascii :=
  let b0 := byte_val a in
  let b1 := default 0%Z (byte_val <$> b) in
  let b2 := default 0%Z (byte_val <$> c) in
  let triple := Z.lor (Z.lor (Z.shiftl b0 16) (Z.shiftl b1 8)) b2 in
  [ char_of (Z.land (Z.shiftr triple 18) 63);
    char_of (Z.land (Z.shiftr triple 12) 63);
    (if b then char_of (Z.land (Z.shiftr triple 6) 63) else "=");
    (if c then char_of (Z.land triple 63) else "=") ]%char.

Fixpoint base64_chars (data : list ascii) : list ascii :=
  match data with
  | [] => []
  | [a] => encode_chunk a None None
  | [a; b] => encode_chunk a (Some b) None
  | a :: b :: c :: data => encode_chunk a (Some b) (Some c) ++ base64_chars data
  end.
Definition base64_encode (data : string) : string := of_chars (base64_chars (chars data)).

(** [sri_sha256]: the digest function is a library's. *)
Definition sri_sha256 (sha256 : string → string) (data : string) : string :=
  "sha256-" +:+ base64_encode (sha256 data).

(** *** Specification: the RFC 4648 decoder *)

Fixpoint position (c : ascii) (l : list ascii) : option nat :=
  match l with
  | [] => None
  | a :: l => if decide (a = c) then Some 0 else S <$> position c l
  end.
Definition sextet (c : ascii) : option Z := Z.of_nat <$> position c (chars CHARS).
Definition byte_of (z : Z) : ascii := ascii_of_N (Z.to_N z).

Fixpoint base64_decode (l : list ascii) : option (list ascii) :=
  match l with
  | [] => Some []
  | a :: b :: c :: d :: l =>
      x ← sextet a; y ← sextet b;
      match sextet c, sextet d with
      | Some z, Some w =>
          r ← base64_decode l;
          Some (byte_of (x * 4 + y / 16) :: byte_of (y mod 16 * 16 + z / 4)
                :: byte_of (z mod 4 * 64 + w) :: r)%Z
      | Some z, None =>
          if decide (d = "="%char ∧ l = [])
          then Some [byte_of (x * 4 + y / 16); byte_of (y mod 16 * 16 + z / 4)]%Z else None
      | None, _ =>
          if decide (c = "="%char ∧ d = "="%char ∧ l = [])
          then Some [byte_of (x * 4 + y / 16)]%Z else None
      end
  | _ => None
  end.

Lemma byte_val_range a : (0 ≤ byte_val a < 256)%Z.
Proof. unfold byte_val. pose proof (N_ascii_bounded a). lia. Qed.
Lemma byte_of_val a z : z = byte_val a → byte_of z = a.
Proof.
  intros ->. unfold byte_of, byte_val. rewrite N2Z.id. apply ascii_N_embedding.
Qed.

Lemma sextet_char_of i : (0 ≤ i < 64)%Z → sextet (char_of i) = Some i.
Proof.
  intros Hi. rewrite <- (Z2Nat.id i) by lia.
  assert (Z.to_nat i < 64) as Hn by lia. revert Hn.
  generalize (Z.to_nat i). clear. intros n Hn.
  do 64 (destruct n as [|n]; [reflexivity|]). lia.
Qed.

Lemma lor_shiftl_add a b n :
  (0 ≤ n)%Z → (0 ≤ b < 2 ^ n)%Z → Z.lor (Z.shiftl a n) b = (a * 2 ^ n + b)%Z.
Proof.
  intros Hn Hb. rewrite <- Z.shiftl_mul_pow2 by done. symmetry.
  apply Z.add_nocarry_lor. apply Z.bits_inj'. intros i Hi.
  rewrite Z.land_spec, Z.bits_0, Z.shiftl_spec by done.
  destruct (decide (i < n)%Z).
  - by rewrite Z.testbit_neg_r by lia.
  - rewrite <- (Z.mod_small b (2 ^ n)) by done.
    rewrite Z.mod_pow2_bits_high, andb_false_r by lia. done.
Qed.

Lemma sextet_field t k :
  (0 ≤ k)%Z → sextet (char_of (Z.land (Z.shiftr t k) 63)) = Some (t / 2 ^ k mod 64)%Z.
Proof.
  intros Hk. change 63%Z with (Z.ones 6). rewrite Z.land_ones, Z.shiftr_div_pow2 by lia.
  apply sextet_char_of. apply Z.mod_pos_bound. lia.
Qed.

Lemma sextet_field0 t : sextet (char_of (Z.land t 63)) = Some (t mod 64)%Z.
Proof.
  rewrite <- (Z.shiftr_0_r t) at 1. rewrite sextet_field by lia.
  by rewrite Z.div_1_r.
Qed.

Lemma sextet_eq_char : sextet "="%char = None.
Proof. reflexivity. Qed.

Ltac Zify.zify_post_hook ::= Z.to_euclidean_division_equations.

Lemma triple_val a b c :
  (0 ≤ a < 256)%Z → (0 ≤ b < 256)%Z → (0 ≤ c < 256)%Z →
  Z.lor (Z.lor (Z.shiftl a 16) (Z.shiftl b 8)) c = (a * 65536 + b * 256 + c)%Z.
Proof.
  intros Ha Hb Hc.
  assert (Z.lor (Z.shiftl a 16) (Z.shiftl b 8) = Z.shiftl (a * 256 + b) 8) as ->.
  { replace (Z.shiftl a 16) with (Z.shiftl (Z.shiftl a 8) 8)
      by (by rewrite Z.shiftl_shiftl).
    rewrite <- Z.shiftl_lor. by rewrite lor_shiftl_add by lia. }
  rewrite lor_shiftl_add by lia. lia.
Qed.

Lemma decode_chunk a b c l :
  base64_decode (encode_chunk a (Some b) (Some c) ++ l) =
  (λ r, a :: b :: c :: r) <$> base64_decode l.
Proof.
  pose proof (byte_val_range a). pose proof (byte_val_range b). pose proof (byte_val_range c).
  unfold encode_chunk. cbn -[char_of sextet byte_of Z.shiftr Z.shiftl Z.land Z.lor Z.div Z.modulo].
  rewrite triple_val by done.
  rewrite !sextet_field, sextet_field0 by lia. cbn -[byte_of Z.div Z.modulo Z.add Z.mul Z.pow].
  destruct (base64_decode l); [|done].
  cbn -[byte_of Z.div Z.modulo Z.add Z.mul Z.pow]. do 2 f_equal; [|f_equal; [|f_equal]];
    apply byte_of_val; change (2 ^ 18)%Z with 262144%Z; change (2 ^ 12)%Z with 4096%Z;
    change (2 ^ 6)%Z with 64%Z; lia.
Qed.

Lemma chunks3_ind {A} (P : list A → Prop) :
  P [] → (∀ a, P [a]) → (∀ a b, P [a; b]) →
  (∀ a b c l, P l → P (a :: b :: c :: l)) → ∀ l, P l.
Proof.
  intros H0 H1 H2 H3. fix IH 1.
  intros [|a [|b [|c l]]]; [done|done|done|]. apply H3, IH.
Qed.

Lemma decode_base64_chars l : base64_decode (base64_chars l) = Some l.
Proof.
  induction l as [|a|a b|a b c l IH] using chunks3_ind; [done|..].
  - pose proof (byte_val_range a). unfold base64_chars, encode_chunk.
    cbn -[char_of sextet byte_of Z.shiftr Z.shiftl Z.land Z.lor Z.div Z.modulo].
    rewrite triple_val by lia. rewrite !sextet_field, sextet_eq_char by lia.
    cbn -[byte_of Z.div Z.modulo Z.add Z.mul Z.pow]. do 2 f_equal.
    apply byte_of_val. change (2 ^ 18)%Z with 262144%Z. change (2 ^ 12)%Z with 4096%Z. lia.
  - pose proof (byte_val_range a). pose proof (byte_val_range b).
    unfold base64_chars, encode_chunk.
    cbn -[char_of sextet byte_of Z.shiftr Z.shiftl Z.land Z.lor Z.div Z.modulo].
    rewrite triple_val by lia. rewrite !sextet_field, sextet_eq_char by lia.
    cbn -[byte_of Z.div Z.modulo Z.add Z.mul Z.pow].
    do 2 f_equal; [|f_equal]; apply byte_of_val; change (2 ^ 18)%Z with 262144%Z;
      change (2 ^ 12)%Z with 4096%Z; change (2 ^ 6)%Z with 64%Z; lia.
  - change (base64_chars (a :: b :: c :: l))
      with (encode_chunk a (Some b) (Some c) ++ base64_chars l).
    by rewrite decode_chunk, IH.
Qed.

(** Base64 round trip: the RFC 4648 decoder gives back every byte string
    [base64_encode] encodes, padding included; so two digests have the same SRI
    text only if they are equal; and [n] bytes make [4 * ceil(n / 3)] characters. *)
Theorem base64_roundtrip data data' :
  base64_decode (chars (base64_encode data)) = Some (chars data) ∧
  (base64_encode data = base64_encode data' → data = data') ∧
  String.length (base64_encode data) = 4 * ((String.length data + 2) / 3).
Proof.
  assert (∀ d, base64_decode (chars (base64_encode d)) = Some (chars d)) as H.
  { intros d. unfold base64_encode. rewrite chars_of_chars. apply decode_base64_chars. }
  split_and!; [apply H|..].
  - intros E. pose proof (H data) as H1. rewrite E, H in H1. by injection H1 as ->%(inj chars).
  - rewrite <- !length_chars. unfold base64_encode. rewrite chars_of_chars.
    generalize (chars data). clear. intros l.
    induction l as [|a|a b|a b c l IH] using chunks3_ind; [done..|].
    change (base64_chars (a :: b :: c :: l))
      with (encode_chunk a (Some b) (Some c) ++ base64_chars l).
    rewrite length_app, IH.
    replace (length (a :: b :: c :: l) + 2) with (length l + 2 + 1 * 3) by (simpl; lia).
    rewrite Nat.div_add by done. change (length (encode_chunk a (Some b) (Some c))) with 4. lia.
Qed.

Lemma base64_roundtrip_witness :
  base64_encode "abcd" = base64_encode "abcd" ∧ "abcd" = "abcd".
Proof. split; [reflexivity|]. by apply (base64_roundtrip "abcd" "abcd"). Defined.

(** The encoder agrees with the standard on a known vector. *)
Example base64_foobar : base64_encode "fooba" = "Zm9vYmE=".
Proof. reflexivity. Qed.

End Integrity.
