(* ===== verification/Transparency.v ===== *)
(** * oath-transparency

    The append-only install log ([crates/oath-transparency/src/lib.rs]): a JSONL
    file whose records form a SHA-256 chain, and the Merkle checkpoint over the
    record hashes. JSON and SHA-256 are library code and enter as the interfaces
    [Digest] and [Codec]. *)
From S2P Require Export RustStr.

Record PackageEntry := {
  pe_name : string;
  pe_version : string;
  pe_integrity : option string;
}.

Record TransparencyEntry := {
  ts : Z;
  project : string;
  pkg_count : nat;
  packages : list PackageEntry;
  duration_ms : Z;
  previous_hash : option string;
  entry_hash : option string;
}.

Record HashPayload := {
  hp_ts : Z;
  hp_project : string;
  hp_pkg_count : nat;
  hp_packages : list PackageEntry;
  hp_duration_ms : Z;
}.

Record TransparencyCheckpoint := {
  version : Z;
  entry_count : nat;
  merkle_root_hash : string;
  latest_entry_hash : option string;
}.

Definition GENESIS_HASH : string := "GENESIS".

(** ** Interfaces of the library code *)

(** [format!("{:x}", Sha256::digest(x))]: 64 lowercase hexadecimal digits. *)
Definition is_hex (a : ascii) : bool := is_digit a || between 97 102 a.
Class Digest := {
  sha256_hex : string → string;
  sha256_hex_length s : String.length (sha256_hex s) = 64;
  sha256_hex_digits s : Forall (λ a, is_hex a = true) (chars (sha256_hex s));
}.

(** [serde_json]: records print on one line as an object and parse back; two
    payloads that print alike are equal. *)
Class Codec := {
  payload_to_vec : HashPayload → string;
  entry_to_string : TransparencyEntry → string;
  entry_from_str : string → option TransparencyEntry;
  payload_to_vec_object p : ∃ r, payload_to_vec p = String "{" r;
  payload_to_vec_inj : Inj (=) (=) payload_to_vec;
  entry_round_trip e : entry_from_str (entry_to_string e) = Some e;
  entry_one_line e : has newline (entry_to_string e) = false;
  entry_not_blank e : trim (entry_to_string e) ≠ "";
  entry_no_cr e : ends_with (String carriage_return "") (entry_to_string e) = false;
}.

Inductive log_error := PreviousHashMismatch | EntryHashMismatch.

Section log.
Context `{!Digest} `{!Codec}.

Definition hash_entry (previous : string) (payload : HashPayload) : string :=
  sha256_hex (previous +:+ payload_to_vec payload).

(** *** [merkle_root] *)

(** [hashes.push(hashes.last().unwrap().clone())] when the length is odd *)
Definition pad (hashes : list string) : list string :=
  if Nat.odd (length hashes) then hashes ++ option_list (last hashes) else hashes.
(** [hashes.chunks(2).map(..)], the length being even *)
Fixpoint pair_up (hashes : list string) : list string :=
  match hashes with
  | a :: b :: hashes => sha256_hex (a +:+ b) :: pair_up hashes
  | _ => []
  end.
Fixpoint merkle_loop (fuel : nat) (hashes : list string) : option string :=
  match hashes with
  | [] => None
  | [h] => Some h
  | _ => match fuel with
         | O => None
         | S fuel => merkle_loop fuel (pair_up (pad hashes))
         end
  end.
Definition merkle_root (hashes : list string) : option string :=
  match hashes with
  | [] => Some (sha256_hex "")
  | _ => merkle_loop (length hashes) hashes
  end.

(** *** [TransparencyLogger]; the log file is [None] when it does not exist *)

Definition read_all (file : option string) : list TransparencyEntry :=
  match file with
  | None => []
  | Some content =>
      omap entry_from_str (filter (λ l, trim l ≠ "") (lines content))
  end.

Definition read_recent (file : option string) (tail : nat) : list TransparencyEntry :=
  let entries := read_all file in
  let len := length entries in
  if len <=? tail then entries else drop (len - tail) entries.

Definition payload_of (e : TransparencyEntry) : HashPayload := {|
  hp_ts := ts e; hp_project := project e; hp_pkg_count := pkg_count e;
  hp_packages := packages e; hp_duration_ms := duration_ms e |}.

Definition last_hash (entries : list TransparencyEntry) : string :=
  default GENESIS_HASH (head (omap entry_hash (rev entries))).

Definition new_entry (now : Z) (proj : string)
    (pkgs : list (string * string * option string)) (duration : Z)
    (existing : list TransparencyEntry) : TransparencyEntry :=
  let entries := (λ '(n, v, i),
    {| pe_name := n; pe_version := v; pe_integrity := i |}) <$> pkgs in
  let previous := last_hash existing in
  let payload := {| hp_ts := now; hp_project := proj; hp_pkg_count := length entries;
                    hp_packages := entries; hp_duration_ms := duration |} in
  {| ts := now; project := proj; pkg_count := length entries; packages := entries;
     duration_ms := duration; previous_hash := Some previous;
     entry_hash := Some (hash_entry previous payload) |}.

(** [log]: opens with [create] and [append] and writes one line. *)
Definition log (now : Z) (proj : string) (pkgs : list (string * string * option string))
    (duration : Z) (file : option string) : option string :=
  let entry := new_entry now proj pkgs duration (read_all file) in
  Some (default "" file +:+ entry_to_string entry +:+ String newline "").

Fixpoint verify_from (previous : string) (entries : list TransparencyEntry) :
    result log_error string :=
  match entries with
  | [] => Ok previous
  | e :: entries =>
      _ ← ensure (bool_decide (previous_hash e = Some previous)) PreviousHashMismatch;
      let expected := hash_entry previous (payload_of e) in
      _ ← ensure (bool_decide (entry_hash e = Some expected)) EntryHashMismatch;
      verify_from expected entries
  end.

Definition has_hash (e : TransparencyEntry) : Prop := is_Some (entry_hash e).
#[global] Instance has_hash_dec e : Decision (has_hash e).
Proof. unfold has_hash. apply _. Defined.

(** The records [verify_chain] looks at: those with an [entry_hash]. *)
Definition chained (file : option string) : list TransparencyEntry :=
  filter has_hash (read_all file).

Definition verify_chain (file : option string) : result log_error unit :=
  _ ← verify_from GENESIS_HASH (chained file);
  mret tt.

(** [checkpoint]: the value it returns and writes next to the log. *)
Definition checkpoint (file : option string) :
    result log_error (option TransparencyCheckpoint) :=
  _ ← verify_chain file;
  let hashes := omap entry_hash (read_all file) in
  mret (root ← merkle_root hashes;
        Some {| version := 1; entry_count := length hashes; merkle_root_hash := root;
                latest_entry_hash := last hashes |}).
End log.

(** ** Chain verification *)
Section chain.
Context `{!Digest} `{!Codec}.

Implicit Types l : list TransparencyEntry.

Lemma omap_filter_hash l : omap entry_hash (filter has_hash l) = omap entry_hash l.
Proof.
  induction l as [|e l IH]; [done|]. rewrite filter_cons.
  destruct (decide _) as [Hd|Hd]; csimpl; rewrite IH; [done|].
  destruct (entry_hash e) eqn:E; [by destruct Hd; eexists|done].
Qed.

Lemma last_hash_last l : last_hash l = default GENESIS_HASH (last (omap entry_hash l)).
Proof.
  unfold last_hash. f_equal. induction l as [|e l IH]; [done|]. csimpl.
  rewrite omap_app. destruct (omap entry_hash (rev l)) as [|h hs] eqn:E.
  - symmetry in IH. apply last_None in IH. rewrite IH.
    simpl. by destruct (entry_hash e).
  - csimpl in *. destruct (entry_hash e); [|done].
    destruct (omap entry_hash l) as [|a k]; [done|]. by rewrite last_cons_cons.
Qed.

Lemma verify_from_app p l1 l2 :
  verify_from p (l1 ++ l2) = (q ← verify_from p l1; verify_from q l2).
Proof.
  revert p. induction l1 as [|e l1 IH]; intros p; [done|]. simpl.
  destruct (ensure _ PreviousHashMismatch); [simpl|done].
  destruct (ensure _ EntryHashMismatch); [apply IH|done].
Qed.

Lemma verify_from_cons p e l q :
  verify_from p (e :: l) = Ok q ↔
  previous_hash e = Some p ∧ entry_hash e = Some (hash_entry p (payload_of e)) ∧
  verify_from (hash_entry p (payload_of e)) l = Ok q.
Proof.
  simpl. rewrite bind_Ok. setoid_rewrite bind_Ok. setoid_rewrite ensure_Ok.
  setoid_rewrite bool_decide_eq_true. split; [naive_solver|].
  intros (? & ? & ?). exists tt. naive_solver.
Qed.

Lemma verify_from_last p l q :
  verify_from p l = Ok q → q = default p (last (omap entry_hash l)).
Proof.
  revert p. induction l as [|e l IH]; intros p; [by intros [= ->]|].
  intros (Hp & He & Hl)%verify_from_cons. apply IH in Hl. csimpl. rewrite He.
  rewrite last_cons. by destruct (last (omap entry_hash l)).
Qed.

Lemma verify_chain_Ok file :
  verify_chain file = Ok tt ↔
  verify_from GENESIS_HASH (chained file) = Ok (last_hash (read_all file)).
Proof.
  unfold verify_chain. rewrite bind_Ok. split.
  - intros (q & Hq & _). rewrite Hq. f_equal.
    rewrite last_hash_last, <- omap_filter_hash. by apply verify_from_last.
  - intros Hv. eauto.
Qed.

Lemma read_all_log now proj pkgs d file :
  terminated (default "" file) →
  read_all (log now proj pkgs d file) =
  read_all file ++ [new_entry now proj pkgs d (read_all file)].
Proof.
  intros Ht. unfold log. set (e := new_entry _ _ _ _ _). simpl.
  rewrite lines_append; [|done|apply entry_one_line|apply entry_no_cr].
  rewrite filter_app, omap_app. f_equal; [by destruct file|].
  rewrite filter_cons, decide_True by apply entry_not_blank.
  rewrite filter_nil. simpl. by rewrite entry_round_trip.
Qed.

Lemma terminated_log now proj pkgs d file :
  terminated (default "" (log now proj pkgs d file)).
Proof.
  right. simpl. eexists (_ +:+ _). by rewrite <- str_app_assoc.
Qed.

Definition log_all (file : option string)
    (installs : list (Z * string * list (string * string * option string) * Z)) :=
  foldl (λ f '(now, proj, pkgs, d), log now proj pkgs d f) file installs.

Lemma log_chain_step now proj pkgs d file :
  terminated (default "" file) → verify_chain file = Ok tt →
  verify_chain (log now proj pkgs d file) = Ok tt.
Proof.
  intros Ht Hv. apply verify_chain_Ok in Hv.
  assert (chained (log now proj pkgs d file) =
          chained file ++ [new_entry now proj pkgs d (read_all file)]) as E.
  { unfold chained. rewrite read_all_log, filter_app by done. done. }
  unfold verify_chain. rewrite E, verify_from_app, Hv. simpl.
  by rewrite !bool_decide_true by done.
Qed.

(** The log only grows by valid records: from any file that is empty or
    ends in a newline and verifies, every sequence of installs leaves a file
    that verifies, whose earlier records are unchanged and in place, with one
    record more per install. *)
Theorem log_preserves_chain file installs :
  terminated (default "" file) → verify_chain file = Ok tt →
  verify_chain (log_all file installs) = Ok tt ∧
  read_all file `prefix_of` read_all (log_all file installs) ∧
  length (read_all (log_all file installs)) = length (read_all file) + length installs.
Proof.
  revert file. induction installs as [|[[[now proj] pkgs] d] installs IH];
    intros file Ht Hv; simpl; [split_and!; [done..|lia]|].
  destruct (IH (log now proj pkgs d file)) as (H1 & H2 & H3).
  { apply terminated_log. }
  { by apply log_chain_step. }
  rewrite read_all_log in H2, H3 by done. split_and!; [done| |].
  - etrans; [|exact H2]. by eexists.
  - rewrite H3, length_app. simpl. lia.
Qed.
End chain.

(** ** Tamper evidence, up to a SHA-256 collision *)
Section binding.
Context `{!Digest} `{!Codec}.
Implicit Types l : list TransparencyEntry.

(** Two of the given inputs are different and have one digest. There are such inputs
    for every hash function; the theorems name those at hand, which the code has
    hashed, so that a collision among them is one that was found. *)
Definition collision (inputs : list string) : Prop :=
  ∃ x y, x ∈ inputs ∧ y ∈ inputs ∧ x ≠ y ∧ sha256_hex x = sha256_hex y.
Lemma collision_mono (l k : list string) : l ⊆ k → collision l → collision k.
Proof. intros Hlk (x & y & ? & ? & ?). exists x, y. auto. Qed.
Lemma sha256_inj x y : sha256_hex x = sha256_hex y → x = y ∨ collision [x; y].
Proof. intros E. destruct (decide (x = y)); [by left|right; exists x, y; set_solver]. Qed.
Definition hashed (l : list string) : list (string * string) := (λ x, (x, sha256_hex x)) <$> l.
Definition clash (l : list (string * string)) : Prop :=
  Exists (λ p, Exists (λ q, p.1 ≠ q.1 ∧ p.2 = q.2) l) l.
Lemma collision_clash (l : list string) : clash (hashed l) ↔ collision l.
Proof.
  unfold clash, hashed, collision. rewrite Exists_fmap, Exists_exists. unfold compose.
  setoid_rewrite Exists_fmap. setoid_rewrite Exists_exists. unfold compose. simpl. naive_solver.
Qed.
#[export] Instance collision_dec (l : list string) : Decision (collision l) :=
  let p := hashed l in
  match decide (clash p) as d return p = hashed l → _ with
  | left H => λ E, left (proj1 (collision_clash l) (eq_rect p clash H _ E))
  | right H => λ E, right (λ c, H (eq_rect_r clash (proj2 (collision_clash l) c) E))
  end eq_refl.
(** What is hashed for a record, and for a chain of records. *)
Definition entry_input (p : string) (q : HashPayload) : string := p +:+ payload_to_vec q.
Definition chain_inputs (l : list TransparencyEntry) : list string :=
  (λ e, entry_input (default "" (previous_hash e)) (payload_of e)) <$> l.

Definition is_head (p : string) : Prop := p = GENESIS_HASH ∨ ∃ x, p = sha256_hex x.

Lemma head_no_brace p : is_head p → has "{" p = false.
Proof.
  intros [->|[x ->]]; [done|]. apply bool_decide_eq_false. intros Hin.
  pose proof (sha256_hex_digits x) as Hx. rewrite Forall_forall in Hx.
  by apply Hx in Hin.
Qed.

Lemma hash_entry_inj p q p' q' :
  is_head p → is_head p' → hash_entry p q = hash_entry p' q' →
  (p = p' ∧ q = q') ∨ collision [entry_input p q; entry_input p' q'].
Proof.
  intros Hp Hp' [Heq|]%sha256_inj; [|by right]. left. destruct (payload_to_vec_object q) as [r Hr], (payload_to_vec_object q') as [r' Hr'].
  rewrite Hr, Hr' in Heq.
  assert (split_once "{" (p +:+ String "{" r) = Some (p, r)) as H1.
  { apply split_once_Some. split; [done|]. by apply head_no_brace. }
  assert (split_once "{" (p' +:+ String "{" r') = Some (p', r')) as H2.
  { apply split_once_Some. split; [done|]. by apply head_no_brace. }
  rewrite Heq, H2 in H1. injection H1 as -> ->.
  split; [done|]. apply payload_to_vec_inj. congruence.
Qed.

Lemma genesis_not_digest x : GENESIS_HASH ≠ sha256_hex x.
Proof. intros E. pose proof (sha256_hex_length x) as Hl. by rewrite <- E in Hl. Qed.

Lemma entry_eq (e e' : TransparencyEntry) :
  payload_of e = payload_of e' → previous_hash e = previous_hash e' →
  entry_hash e = entry_hash e' → e = e'.
Proof. destruct e, e'. unfold payload_of. simpl. intros [= -> -> -> -> ->] -> ->. done. Qed.

Lemma verify_from_head p l q : is_head p → verify_from p l = Ok q → is_head q.
Proof.
  revert p. induction l as [|e l IH]; intros p Hp; [by intros [= ->]|].
  intros (_ & _ & Hl)%verify_from_cons. eapply IH; [|done]. right. by eexists.
Qed.

Lemma verify_from_snoc p l e q :
  verify_from p (l ++ [e]) = Ok q ↔
  ∃ r, verify_from p l = Ok r ∧ previous_hash e = Some r ∧
       entry_hash e = Some q ∧ q = hash_entry r (payload_of e).
Proof.
  rewrite verify_from_app, bind_Ok. split.
  - intros (r & Hr & (H1 & H2 & [= <-])%verify_from_cons). eauto.
  - intros (r & Hr & H1 & H2 & ->). exists r. split; [done|].
    apply verify_from_cons. naive_solver.
Qed.

Lemma chain_inj l1 l2 q :
  verify_from GENESIS_HASH l1 = Ok q → verify_from GENESIS_HASH l2 = Ok q →
  l1 = l2 ∨ collision (chain_inputs l1 ++ chain_inputs l2).
Proof.
  revert l2 q. induction l1 as [|e1 l1 IH] using rev_ind; intros l2 q H1 H2;
    destruct l2 as [|e2 l2 _] using rev_ind; [by left|..].
  - apply verify_from_snoc in H2 as (r & _ & _ & _ & ->). injection H1 as E.
    by apply genesis_not_digest in E.
  - apply verify_from_snoc in H1 as (r & _ & _ & _ & ->). injection H2 as E.
    by apply genesis_not_digest in E.
  - apply verify_from_snoc in H1 as (r1 & Hr1 & Hp1 & He1 & E1).
    apply verify_from_snoc in H2 as (r2 & Hr2 & Hp2 & He2 & E2).
    destruct (hash_entry_inj r1 (payload_of e1) r2 (payload_of e2)) as [[-> Hpay]|];
      [by eapply verify_from_head, Hr1; left|by eapply verify_from_head, Hr2; left
      |congruence| |right].
    2: { eapply collision_mono; [|done]. unfold chain_inputs. rewrite !fmap_app. csimpl.
      rewrite Hp1, Hp2. set_solver. }
    destruct (IH l2 r2 Hr1 Hr2) as [->|]; [left|right].
    2: { eapply collision_mono; [|done]. unfold chain_inputs. rewrite !fmap_app. set_solver. }
    do 2 f_equal. apply entry_eq; congruence.
Qed.

(** Tamper evidence: two logs that both verify and whose newest record
    hashes agree hold the same chain of records, every field included, unless
    two of the inputs hashed for their records have one SHA-256 digest. Editing, reordering,
    inserting or dropping a record below the newest one therefore changes the
    newest hash or breaks verification. *)
Theorem head_hash_binds_chain f1 f2 :
  verify_chain f1 = Ok tt → verify_chain f2 = Ok tt →
  last_hash (read_all f1) = last_hash (read_all f2) →
  chained f1 = chained f2 ∨ collision (chain_inputs (chained f1) ++ chain_inputs (chained f2)).
Proof.
  intros H1 H2 E. apply verify_chain_Ok in H1, H2. rewrite E in H1.
  by eapply chain_inj.
Qed.
End binding.
(** A collision among the inputs of a part is one among all. *)
Ltac wider := right; eapply collision_mono; [|eassumption]; simpl; set_solver.

(** ** The Merkle checkpoint *)
Section merkle.
Context `{!Digest}.
Implicit Types l k : list string.

Lemma even_length_pad l : Nat.even (length (pad l)) = true.
Proof.
  unfold pad. rewrite <- Nat.negb_even. destruct (Nat.even (length l)) eqn:E; simpl; [done|].
  rewrite length_app. destruct (last l) as [x|] eqn:El; simpl.
  - by rewrite Nat.add_1_r, Nat.even_succ, <- Nat.negb_even, E.
  - apply last_None in El. by subst.
Qed.

Lemma pair_up_ind (P : list string → Prop) :
  P [] → (∀ a, P [a]) → (∀ a b l, P l → P (a :: b :: l)) → ∀ l, P l.
Proof. intros H0 H1 H2. fix IH 1. intros [|a [|b l]]; [done|done|apply H2, IH]. Qed.

Lemma length_pair_up l : length (pair_up l) = length l / 2.
Proof.
  induction l as [| |a b l IH] using pair_up_ind; [done..|]. simpl length.
  rewrite IH. replace (S (S (length l))) with (length l + 1 * 2) by lia.
  rewrite Nat.div_add by done. lia.
Qed.

Lemma length_pad l : length (pad l) = 2 * ((length l + 1) / 2).
Proof.
  unfold pad. pose proof (Nat.div_mod_eq (length l + 1) 2) as H1.
  pose proof (Nat.mod_upper_bound (length l + 1) 2 ltac:(done)).
  destruct (Nat.odd (length l)) eqn:Eo.
  - apply Nat.odd_spec in Eo as [m Hm]. rewrite length_app.
    destruct (last l) eqn:El; [|apply last_None in El; subst; simpl in *; lia].
    change (length (option_list (Some s))) with 1.
    replace (length l + 1) with (0 + (m + 1) * 2) by lia.
    rewrite Nat.div_add by done. change (0 / 2) with 0. lia.
  - rewrite <- Nat.negb_even in Eo. apply negb_false_iff, Nat.even_spec in Eo as [m Hm].
    replace (length l + 1) with (1 + m * 2) by lia. rewrite Nat.div_add by done.
    change (1 / 2) with 0. lia.
Qed.

Lemma length_level l : length (pair_up (pad l)) = (length l + 1) / 2.
Proof. rewrite length_pair_up, length_pad, Nat.mul_comm. by apply Nat.div_mul. Qed.

Lemma level_shrinks l : 2 ≤ length l → 1 ≤ length (pair_up (pad l)) < length l.
Proof.
  intros Hl. rewrite length_level. split.
  - apply Nat.div_le_lower_bound; lia.
  - apply Nat.div_lt_upper_bound; lia.
Qed.

Lemma merkle_loop_total fuel l : l ≠ [] → length l ≤ fuel → is_Some (merkle_loop fuel l).
Proof.
  revert l. induction fuel as [|fuel IH]; intros [|a [|b l]] Hne Hf; simpl in Hf; try done; try lia.
  change (is_Some (merkle_loop fuel (pair_up (pad (a :: b :: l))))).
  pose proof (level_shrinks (a :: b :: l) ltac:(simpl; lia)) as Hs. simpl length in Hs.
  apply IH; [|lia]. intros E. rewrite E in Hs. simpl in Hs. lia.
Qed.

Definition all_digests l : Prop := Forall (λ h, String.length h = 64) l.

Lemma all_digests_pad l : all_digests l → all_digests (pad l).
Proof.
  intros Hl. unfold pad. destruct (Nat.odd _); [|done]. apply Forall_app. split; [done|].
  destruct (last l) eqn:E; [|constructor]. repeat constructor.
  apply last_Some in E as [k ->]. apply Forall_app in Hl as [_ Hl]. by inversion Hl.
Qed.
Lemma all_digests_pair_up l : all_digests (pair_up l).
Proof.
  induction l as [| |a b l IH] using pair_up_ind; simpl; [constructor..|].
  constructor; [apply sha256_hex_length|done].
Qed.

(** The pairs hashed on one level, and on all. *)
Fixpoint pair_inputs (l : list string) : list string :=
  match l with a :: b :: l => (a +:+ b) :: pair_inputs l | _ => [] end.
Fixpoint loop_inputs (fuel : nat) (l : list string) : list string :=
  match fuel, l with
  | S fuel, _ :: _ :: _ => pair_inputs (pad l) ++ loop_inputs fuel (pair_up (pad l))
  | _, _ => []
  end.
Definition checkpoint_inputs (l : list string) : list string := loop_inputs (length l) l.

Lemma pair_up_inj l k :
  all_digests l → all_digests k → length l = length k → Nat.even (length l) = true →
  pair_up l = pair_up k → l = k ∨ collision (pair_inputs l ++ pair_inputs k).
Proof.
  revert k. induction l as [| |a b l IH] using pair_up_ind; intros k Hl Hk Hlen He E.
  - by destruct k; [left|].
  - done.
  - destruct k as [|c [|d k]]; [done|done|]. simpl in E. injection E as Eh Et.
    inversion_clear Hl as [|?? Ha Hl']. inversion_clear Hl' as [|?? Hb Hl].
    inversion_clear Hk as [|?? Hc Hk']. inversion_clear Hk' as [|?? Hd Hk].
    destruct (IH k Hl Hk) as [->|]; [by injection Hlen|done|done| |].
    2: { right. eapply collision_mono; [|done]. simpl. set_solver. }
    apply sha256_inj in Eh as [Eq|]; [|right; eapply collision_mono; [|done]; simpl; set_solver].
    left. apply str_app_inj_len in Eq as [-> ->]; [done|congruence].
Qed.

Lemma pad_inj l k : length l = length k → pad l = pad k → l = k.
Proof.
  intros Hlen. unfold pad. rewrite Hlen. destruct (Nat.odd _); [|done].
  intros E. by apply app_inj_1 in E as [-> _].
Qed.

Lemma merkle_loop_inj fuel l k r :
  all_digests l → all_digests k → length l = length k →
  merkle_loop fuel l = Some r → merkle_loop fuel k = Some r →
  l = k ∨ collision (loop_inputs fuel l ++ loop_inputs fuel k).
Proof.
  revert l k. induction fuel as [|fuel IH]; intros [|a [|b l]] [|c [|d k]] Hl Hk Hlen H1 H2;
    try done; try (left; simpl in *; congruence).
  change (merkle_loop fuel (pair_up (pad (a :: b :: l))) = Some r) in H1.
  change (merkle_loop fuel (pair_up (pad (c :: d :: k))) = Some r) in H2.
  assert (length (pair_up (pad (a :: b :: l))) = length (pair_up (pad (c :: d :: k)))) as Hlev.
  { by rewrite !length_level, Hlen. }
  destruct (IH _ _ (all_digests_pair_up _) (all_digests_pair_up _) Hlev H1 H2) as [E|];
    [|right; eapply collision_mono; [|done]; cbn [loop_inputs]; set_solver].
  apply pair_up_inj in E as [E|];
    [|right; eapply collision_mono; [|done]; cbn [loop_inputs]; set_solver
    |by apply all_digests_pad|by apply all_digests_pad
    |by rewrite !length_pad, Hlen|apply even_length_pad].
  left. by apply pad_inj.
Qed.

Lemma merkle_loop_fuel fuel fuel' l r :
  fuel ≤ fuel' → merkle_loop fuel l = Some r → merkle_loop fuel' l = Some r.
Proof.
  revert fuel' l. induction fuel as [|fuel IH]; intros fuel' [|a [|b l]] Hf H1; try done;
    destruct fuel' as [|fuel']; try done; try lia.
  apply (IH fuel'); [lia|done].
Qed.

(** The checkpoint's root: the pairing loop ends for every list of hashes;
    for one number of leaves the root determines the leaves, unless two of the
    pairs that were hashed have one SHA-256 digest; across numbers it does not, a list of odd length and the same
    list with its last hash repeated having one root, so the entry count of the
    checkpoint is part of what it commits to. *)
Theorem merkle_root_binds l k :
  is_Some (merkle_root l) ∧
  (all_digests l → all_digests k → length l = length k → merkle_root l = merkle_root k →
   l = k ∨ collision (checkpoint_inputs l ++ checkpoint_inputs k)) ∧
  (2 ≤ length l → Nat.odd (length l) = true →
   merkle_root (l ++ option_list (last l)) = merkle_root l).
Proof.
  assert (∀ l, is_Some (merkle_root l)) as Htot.
  { intros [|a l']; [by eexists|]. by apply merkle_loop_total. }
  split_and!; [apply Htot|..].
  - intros Hl Hk Hlen E. destruct (Htot l) as [r Hr]. rewrite Hr in E.
    destruct l as [|a l], k as [|b k]; try done; [by left|].
    unfold checkpoint_inputs. rewrite <- Hlen.
    eapply (merkle_loop_inj (length (a :: l))); [done..|].
    rewrite Hlen. by symmetry.
  - intros H2 Hodd. destruct (Htot (l ++ option_list (last l))) as [r Hr].
    destruct (Htot l) as [r' Hr']. rewrite Hr, Hr'. f_equal.
    assert (pad (l ++ option_list (last l)) = pad l) as Epad.
    { pose proof (even_length_pad l) as He. unfold pad at 2. rewrite Hodd.
      unfold pad in He at 1. rewrite Hodd in He. unfold pad.
      by rewrite <- Nat.negb_even, He. }
    destruct l as [|a [|b l]]; [simpl in H2; lia..|].
    destruct (last (a :: b :: l)) as [z|] eqn:El; [|by apply last_None in El].
    unfold merkle_root in Hr, Hr'. simpl app in Hr, Epad.
    change (merkle_loop (S (S (length (l ++ [z])))) (a :: b :: l ++ [z]) = Some r) in Hr.
    change (merkle_loop (S (length (l ++ [z]))) (pair_up (pad (a :: b :: l ++ [z]))) = Some r) in Hr.
    rewrite Epad in Hr.
    change (merkle_loop (S (length l)) (pair_up (pad (a :: b :: l))) = Some r') in Hr'.
    apply (merkle_loop_fuel _ (S (length (l ++ [z])))) in Hr'; [congruence|].
    rewrite length_app. lia.
Qed.
End merkle.

(** ** The interfaces are inhabited

    A digest and a codec that satisfy the laws, to instantiate the theorems with. *)
Section example.
Definition toy_sha256 (s : string) : string :=
  of_chars (take 64 (((λ a, if is_hex a then a else "0"%char) <$> chars s)
                     ++ replicate 64 "0"%char)).

Program Definition toy_digest : Digest := {| sha256_hex := toy_sha256 |}.
Next Obligation.
  intros s. rewrite <- length_chars. unfold toy_sha256. rewrite chars_of_chars.
  rewrite length_take, length_app, length_replicate. lia.
Qed.
Next Obligation.
  intros s. unfold toy_sha256. rewrite chars_of_chars. apply Forall_take, Forall_app.
  split; [|by apply Forall_replicate]. apply Forall_fmap, Forall_true. intros a.
  simpl. by destruct (is_hex a) eqn:E.
Qed.

(** A digest in which every character counts: the text as a number in a base, modulo
    a prime, in hexadecimal. *)
Definition hex_char (n : N) : ascii := ascii_of_N (if (n <? 10)%N then 48 + n else 87 + n)%N.
Fixpoint hex_acc (k : nat) (n : N) (acc : list ascii) : list ascii :=
  match k with O => acc | S k => hex_acc k (n / 16) (hex_char (n mod 16) :: acc) end.
Definition sum_sha256 (s : string) : string :=
  of_chars (hex_acc 64 (foldl (λ h a, (h * 257 + N_of_ascii a + 1) mod (2 ^ 127 - 1))%N 0%N (chars s)) []).
Lemma hex_char_hex n : (n < 16)%N → is_hex (hex_char n) = true.
Proof.
  intros H. assert (Forall (λ n, is_hex (hex_char (N.of_nat n)) = true) (seq 0 16)) as Hall.
  { by repeat constructor. }
  rewrite Forall_forall in Hall. rewrite <- (N2Nat.id n). apply Hall, elem_of_seq. lia.
Qed.
Lemma hex_acc_length k n acc : length (hex_acc k n acc) = k + length acc.
Proof. revert n acc. induction k as [|k IH]; intros n acc; [done|]. simpl. rewrite IH. simpl. lia. Qed.
Lemma hex_acc_hex k n acc :
  Forall (λ a, is_hex a = true) acc → Forall (λ a, is_hex a = true) (hex_acc k n acc).
Proof.
  revert n acc. induction k as [|k IH]; intros n acc H; [done|]. simpl. apply IH.
  constructor; [|done]. apply hex_char_hex, N.mod_lt. done.
Qed.
Program Definition sum_digest : Digest := {| sha256_hex := sum_sha256 |}.
Next Obligation.
  intros s. rewrite <- length_chars. unfold sum_sha256. by rewrite chars_of_chars, hex_acc_length.
Qed.
Next Obligation. intros s. unfold sum_sha256. rewrite chars_of_chars. by apply hex_acc_hex. Qed.

#[local] Instance PackageEntry_eq_dec : EqDecision PackageEntry.
Proof. solve_decision. Defined.
#[local] Instance TransparencyEntry_eq_dec : EqDecision TransparencyEntry.
Proof. solve_decision. Defined.
#[local] Instance HashPayload_eq_dec : EqDecision HashPayload.
Proof. solve_decision. Defined.
#[local] Program Instance PackageEntry_countable : Countable PackageEntry :=
  inj_countable' (λ e, (pe_name e, pe_version e, pe_integrity e))
    (λ '(n, v, i), Build_PackageEntry n v i) _.
Next Obligation. by intros []. Qed.
#[local] Program Instance TransparencyEntry_countable : Countable TransparencyEntry :=
  inj_countable' (λ e, (ts e, project e, pkg_count e, packages e, duration_ms e,
                        previous_hash e, entry_hash e))
    (λ '(a, b, c, d, e, f, g), Build_TransparencyEntry a b c d e f g) _.
Next Obligation. by intros []. Qed.
#[local] Program Instance HashPayload_countable : Countable HashPayload :=
  inj_countable' (λ e, (hp_ts e, hp_project e, hp_pkg_count e, hp_packages e,
                        hp_duration_ms e))
    (λ '(a, b, c, d, e), Build_HashPayload a b c d e) _.
Next Obligation. by intros []. Qed.

Fixpoint bits (p : positive) : string :=
  match p with
  | xH => "}" | xO p => String "0" (bits p) | xI p => String "1" (bits p)
  end.
Fixpoint unbits (s : string) : option positive :=
  match s with
  | String "0" s => xO <$> unbits s
  | String "1" s => xI <$> unbits s
  | String "}" EmptyString => Some xH
  | _ => None
  end%char.
Definition print {A} `{Countable A} (x : A) : string := String "{" (bits (encode x)).
Definition parse {A} `{Countable A} (s : string) : option A :=
  match s with String "{" s => unbits s ≫= decode | _ => None end%char.

Lemma unbits_bits p : unbits (bits p) = Some p.
Proof. induction p as [p IH|p IH|]; simpl; rewrite ?IH; done. Qed.
Lemma parse_print {A} `{Countable A} (x : A) : parse (print x) = Some x.
Proof. unfold parse, print. rewrite unbits_bits. simpl. apply decode_encode. Qed.
Lemma bits_newline p : has newline (bits p) = false.
Proof.
  apply bool_decide_eq_false. induction p as [p IH|p IH|]; simpl;
    rewrite elem_of_cons; try (intros [Hx|Hx]; [done|done]).
  rewrite elem_of_nil. by intros [|].
Qed.
Lemma bits_brace p : ∃ s, bits p = s +:+ "}".
Proof.
  induction p as [p [s IH]|p [s IH]|]; simpl.
  - exists (String "1" s). by rewrite IH.
  - exists (String "0" s). by rewrite IH.
  - by exists "".
Qed.
Lemma first_some_None {A B} (f : A → option B) l :
  Forall (λ x, f x = None) l → first_some f l = None.
Proof. by induction 1 as [|x l Hx _ IH]; simpl; rewrite ?Hx. Qed.

Lemma strip_suffix_last w t a b :
  last (chars w) = Some a → last (chars t) = Some b → a ≠ b → strip_suffix w t = None.
Proof.
  intros Hw Ht Hab. destruct (strip_suffix w t) as [r|] eqn:E; [|done].
  apply strip_suffix_Some in E as ->. rewrite chars_app, last_app, Hw in Ht. congruence.
Qed.

Lemma trim_print s : trim (String "{" (s +:+ "}")) = String "{" (s +:+ "}").
Proof.
  unfold trim. assert (trim_start (String "{" (s +:+ "}")) = String "{" (s +:+ "}")) as ->.
  { reflexivity. }
  unfold trim_end. cbn [String.length trim_with]. rewrite first_some_None; [done|].
  assert (Forall (λ w, ∃ a, last (chars w) = Some a ∧ a ≠ "}"%char) white_space) as Hw.
  { repeat constructor; (eexists; split; [reflexivity|done]). }
  eapply Forall_impl; [exact Hw|]. intros w (a & Ha & Hne). simpl.
  eapply strip_suffix_last; [done| |done].
  change (String "{" (s +:+ "}")) with (String "{" s +:+ "}"). by rewrite chars_app, (last_snoc "}"%char).
Qed.

#[local] Program Instance toy_codec : Codec := {|
  payload_to_vec := print; entry_to_string := print; entry_from_str := parse |}.
Next Obligation. intros p. by eexists. Qed.
Next Obligation.
  intros x y E. apply (f_equal (parse (A:=HashPayload))) in E. rewrite !parse_print in E. by injection E.
Qed.
Next Obligation. intros e. apply parse_print. Qed.
Next Obligation.
  intros e. pose proof (bits_newline (encode e)) as Hb.
  unfold has in *. apply bool_decide_eq_false in Hb. apply bool_decide_eq_false.
  simpl. rewrite elem_of_cons. by intros [|].
Qed.
Next Obligation.
  intros e. unfold print. destruct (bits_brace (encode e)) as [s ->].
  by rewrite trim_print.
Qed.
Next Obligation.
  intros e. unfold print. destruct (bits_brace (encode e)) as [s ->].
  destruct (ends_with _ _) eqn:E; [|done]. apply ends_with_true in E as [r E].
  apply (f_equal (λ x, last (chars x))) in E.
  change (String "{" (s +:+ "}")) with (String "{" s +:+ "}") in E.
  rewrite !chars_app, (last_snoc "}"%char) in E.
  by rewrite (last_snoc carriage_return) in E.
Qed.

#[local] Existing Instance toy_digest.

Definition install_a : Z * string * list (string * string * option string) * Z :=
  (1700000000%Z, "/project", [("a", "1.0.0", Some "sha512-a")], 10%Z).
Definition install_b : Z * string * list (string * string * option string) * Z :=
  (1700000001%Z, "/project", [("b", "2.0.0", None)], 20%Z).

Lemma log_preserves_chain_witness :
  terminated (default "" None) ∧ verify_chain None = Ok tt ∧
  verify_chain (log_all None [install_a; install_b]) = Ok tt.
Proof.
  assert (terminated (default "" None)) as Ht by (by left).
  assert (verify_chain None = Ok tt) as Hv by reflexivity.
  split; [exact Ht|]. split; [exact Hv|].
  exact (proj1 (log_preserves_chain None [install_a; install_b] Ht Hv)).
Defined.

Lemma head_hash_binds_chain_witness :
  let f := log_all None [install_a; install_b] in
  verify_chain f = Ok tt ∧ (chained f = chained f ∨ collision (chain_inputs (chained f) ++ chain_inputs (chained f))).
Proof.
  intros f. assert (verify_chain f = Ok tt) as Hv.
  { unfold f. apply log_chain_step; [apply terminated_log|].
    apply log_chain_step; [by left|reflexivity]. }
  split; [exact Hv|]. exact (head_hash_binds_chain f f Hv Hv eq_refl).
Defined.

Lemma merkle_root_binds_witness :
  let l := [toy_sha256 "a"; toy_sha256 "b"; toy_sha256 "c"] in
  all_digests l ∧ Nat.odd (length l) = true ∧
  merkle_root (l ++ option_list (last l)) = merkle_root l
  ∧ (l = l ∨ collision (checkpoint_inputs l ++ checkpoint_inputs l)).
Proof.
  intros l. assert (all_digests l) as Hl by (repeat constructor).
  assert (Nat.odd (length l) = true) as Ho by reflexivity.
  destruct (merkle_root_binds l l) as (_ & H1 & H2).
  split; [exact Hl|]. split; [exact Ho|]. split; [apply H2; [simpl; lia|exact Ho]|].
  apply H1; [exact Hl|exact Hl|reflexivity|reflexivity].
Defined.
End example.
