(* ===== verification/Report.v ===== *)
(** * oath-analyze: the data the analyses exchange

    The report types of [report.rs], and the view of a parsed file the two AST
    visitors ([behavior.rs], [analyzer.rs]) are written against. *)
From S2P Require Export RustStr.

(** ** [report.rs] *)

Inductive RiskLevel := Clean | Info | Low | Medium | High | Critical.
#[export] Instance RiskLevel_eq_dec : EqDecision RiskLevel.
Proof. solve_decision. Defined.
(** Derived [Ord]: the order of the constructors. *)
Definition rank (r : RiskLevel) : nat :=
  match r with
  | Clean => 0 | Info => 1 | Low => 2 | Medium => 3 | High => 4 | Critical => 5
  end.
Definition risk_display (r : RiskLevel) : string :=
  match r with
  | Clean => "CLEAN" | Info => "INFO" | Low => "LOW"
  | Medium => "MEDIUM" | High => "HIGH" | Critical => "CRITICAL"
  end.

Inductive FindingKind :=
  | Network | Filesystem | EnvAccess | Subprocess | DynamicExec | Obfuscation
  | InstallScript | Typosquatting | DataExfiltration | CryptoMiner | ShadowDep
  | CredentialHarvest | ConditionalPayload | Slopsquatting | BracketNotation
  | CiTargeting | SilentSubprocess | EnvPathOverwrite | ModuleLoaderPatch
  | NativeAddon.
#[export] Instance FindingKind_eq_dec : EqDecision FindingKind.
Proof. solve_decision. Defined.
Definition kind_display (k : FindingKind) : string :=
  match k with
  | Network => "network" | Filesystem => "filesystem" | EnvAccess => "env_access"
  | Subprocess => "subprocess" | DynamicExec => "dynamic_exec"
  | Obfuscation => "obfuscation" | InstallScript => "install_script"
  | Typosquatting => "typosquatting" | DataExfiltration => "data_exfiltration"
  | CryptoMiner => "crypto_miner" | ShadowDep => "shadow_dep"
  | CredentialHarvest => "credential_harvest"
  | ConditionalPayload => "conditional_payload" | Slopsquatting => "slopsquatting"
  | BracketNotation => "bracket_notation" | CiTargeting => "ci_targeting"
  | SilentSubprocess => "silent_subprocess" | EnvPathOverwrite => "env_path_overwrite"
  | ModuleLoaderPatch => "module_loader_patch" | NativeAddon => "native_addon"
  end.

Record Finding := {
  kind : FindingKind;
  risk : RiskLevel;
  message : string;
  file : string;
  line : nat;
  snippet : option string;
}.

Record Capabilities := {
  network : bool;
  filesystem : bool;
  env_access : bool;
  subprocess : bool;
  dynamic_exec : bool;
  has_install_scripts : bool;
  native_addon : bool;
}.
Definition no_capabilities : Capabilities :=
  {| network := false; filesystem := false; env_access := false; subprocess := false;
     dynamic_exec := false; has_install_scripts := false; native_addon := false |}.

Record AnalysisReport := {
  package_name : string;
  package_version : string;
  overall_risk : RiskLevel;
  findings : list Finding;
  files_scanned : nat;
  lines_scanned : nat;
  capabilities : Capabilities;
  verdict_reasons : list string;
}.

(** The capability a finding's kind discloses: one round of the loop that
    [scanner.rs] and [analyzer.rs] both run over the findings. *)
Definition note_capability (c : Capabilities) (f : Finding) : Capabilities :=
  match kind f with
  | Network | DataExfiltration =>
      {| network := true; filesystem := filesystem c; env_access := env_access c;
         subprocess := subprocess c; dynamic_exec := dynamic_exec c;
         has_install_scripts := has_install_scripts c; native_addon := native_addon c |}
  | Filesystem =>
      {| network := network c; filesystem := true; env_access := env_access c;
         subprocess := subprocess c; dynamic_exec := dynamic_exec c;
         has_install_scripts := has_install_scripts c; native_addon := native_addon c |}
  | EnvAccess =>
      {| network := network c; filesystem := filesystem c; env_access := true;
         subprocess := subprocess c; dynamic_exec := dynamic_exec c;
         has_install_scripts := has_install_scripts c; native_addon := native_addon c |}
  | Subprocess =>
      {| network := network c; filesystem := filesystem c; env_access := env_access c;
         subprocess := true; dynamic_exec := dynamic_exec c;
         has_install_scripts := has_install_scripts c; native_addon := native_addon c |}
  | DynamicExec =>
      {| network := network c; filesystem := filesystem c; env_access := env_access c;
         subprocess := subprocess c; dynamic_exec := true;
         has_install_scripts := has_install_scripts c; native_addon := native_addon c |}
  | InstallScript =>
      {| network := network c; filesystem := filesystem c; env_access := env_access c;
         subprocess := subprocess c; dynamic_exec := dynamic_exec c;
         has_install_scripts := true; native_addon := native_addon c |}
  | _ => c
  end.

Lemma network_note c f :
  network (note_capability c f) =
  network c || bool_decide (kind f = Network ∨ kind f = DataExfiltration).
Proof. unfold note_capability. destruct (kind f), (network c); done. Qed.
Lemma env_access_note c f :
  env_access (note_capability c f) = env_access c || bool_decide (kind f = EnvAccess).
Proof. unfold note_capability. destruct (kind f), (env_access c); done. Qed.
Lemma dynamic_exec_note c f :
  dynamic_exec (note_capability c f) = dynamic_exec c || bool_decide (kind f = DynamicExec).
Proof. unfold note_capability. destruct (kind f), (dynamic_exec c); done. Qed.
Lemma install_scripts_note c f :
  has_install_scripts (note_capability c f) =
  has_install_scripts c || bool_decide (kind f = InstallScript).
Proof. unfold note_capability. destruct (kind f), (has_install_scripts c); done. Qed.

(** ** The parsed program, as the visitors see it

    The parser and the traversal are oxc's. What the visitors inspect of an
    expression is its constructor among the ones below. *)
Inductive Expr :=
  | Identifier (name : string)
  | StringLiteral (value : string)
  | TemplateLiteral (quasis : list string)
  | StaticMemberExpression (object : Expr) (property : string)
  | CallExpression (callee : Expr)
  | AwaitExpression
  | OtherExpression.
#[export] Instance Expr_eq_dec : EqDecision Expr.
Proof.
  intros x. induction x; intros []; try (right; discriminate); try (by left).
  - destruct (decide (name = name0)) as [->|]; [by left|right; congruence].
  - destruct (decide (value = value0)) as [->|]; [by left|right; congruence].
  - destruct (decide (quasis = quasis0)) as [->|]; [by left|right; congruence].
  - destruct (IHx object) as [->|]; [|right; congruence].
    destruct (decide (property = property0)) as [->|]; [by left|right; congruence].
  - destruct (IHx callee) as [->|]; [by left|right; congruence].
Defined.

(** [Argument::as_expression] is [None] for a spread element only. *)
Inductive Argument := SpreadElement | ArgExpr (e : Expr).
Definition as_expression (a : Argument) : option Expr :=
  match a with SpreadElement => None | ArgExpr e => Some e end.

(** A visit of the traversal, in the order it makes them. Every handler ends by
    walking the node's children (or has none), so a visitor run is the fold of
    its handlers over the visits. *)
Inductive Visit :=
  | VisitCall (span_start span_end : nat) (callee : Expr) (arguments : list Argument)
  | VisitMember (span_start : nat) (object : Expr) (property : string)
  | VisitOtherMember
  | VisitString (value : string)
  | VisitTemplate (quasis : list string).

Inductive SourceType := SourceTs | SourceMjs | SourceCjs.

(** [infer_source_type] (the same in [behavior.rs] and [analyzer.rs]). *)
Definition infer_source_type (path : string) : SourceType :=
  if ends_with ".ts" path || ends_with ".tsx" path then SourceTs
  else if ends_with ".mjs" path then SourceMjs
  else SourceCjs.

(** oxc: whether the parsed body is empty, and the visits of [visit_program]. *)
Class Oxc := {
  body_is_empty : string → SourceType → bool;
  program_visits : string → SourceType → list Visit;
}.

(** The double quote, written as a backquote in the strings of the models. *)
Definition q : string → string :=
  str_map (λ a, if decide (a = "`"%char) then byte 34 else a).
