(* ===== verification/Behavior.v ===== *)
(** * oath-analyze: behavioral facts and verdicts ([behavior.rs])

    A [Behavior] is a record of neutral facts; the visitor raises facts while it
    walks a file, [verdict] renders a tiered verdict from the facts alone. *)
From S2P Require Export Report.

(** ** Facts *)

Inductive Fact :=
  | FNet | FFs | FSubprocess | FCodeExec | FEnvRead
  | FEnvWhole | FSensitiveEnv | FCredPath
  | FDecode | FDecodeIntoExec | FHandCodeExec | FHandDecode
  | FFetchIntoExec | FSuspiciousHost | FWormMarker | FShellDownload.
#[export] Instance Fact_eq_dec : EqDecision Fact.
Proof. solve_decision. Defined.

Record Behavior := {
  net : bool;
  fs : bool;
  subprocess : bool;
  code_exec : bool;
  env_read : bool;
  env_whole : bool;
  sensitive_env : bool;
  cred_path : bool;
  decode : bool;
  decode_into_exec : bool;
  hand_code_exec : bool;
  hand_decode : bool;
  fetch_into_exec : bool;
  suspicious_host : bool;
  worm_marker : bool;
  shell_download : bool;
}.

(** A field by its name, and the record with given fields. *)
Definition get (b : Behavior) (f : Fact) : bool :=
  match f with
  | FNet => net b | FFs => fs b | FSubprocess => subprocess b
  | FCodeExec => code_exec b | FEnvRead => env_read b | FEnvWhole => env_whole b
  | FSensitiveEnv => sensitive_env b | FCredPath => cred_path b
  | FDecode => decode b | FDecodeIntoExec => decode_into_exec b
  | FHandCodeExec => hand_code_exec b | FHandDecode => hand_decode b
  | FFetchIntoExec => fetch_into_exec b | FSuspiciousHost => suspicious_host b
  | FWormMarker => worm_marker b | FShellDownload => shell_download b
  end.
Definition of_facts (g : Fact → bool) : Behavior := {|
  net := g FNet; fs := g FFs; subprocess := g FSubprocess; code_exec := g FCodeExec;
  env_read := g FEnvRead; env_whole := g FEnvWhole; sensitive_env := g FSensitiveEnv;
  cred_path := g FCredPath; decode := g FDecode; decode_into_exec := g FDecodeIntoExec;
  hand_code_exec := g FHandCodeExec; hand_decode := g FHandDecode;
  fetch_into_exec := g FFetchIntoExec; suspicious_host := g FSuspiciousHost;
  worm_marker := g FWormMarker; shell_download := g FShellDownload;
|}.

Definition default_behavior : Behavior := of_facts (λ _, false).
(** [self.b.<f> = true], [self.b.<f> = v] and [if c { self.b.<f> = true }] *)
Definition assign (f : Fact) (v : bool) (b : Behavior) : Behavior :=
  of_facts (λ g, if decide (g = f) then v else get b g).
Definition raise (f : Fact) : Behavior → Behavior := assign f true.
Definition raise_if (c : bool) (f : Fact) (b : Behavior) : Behavior :=
  if c then raise f b else b.

Definition merge (self o : Behavior) : Behavior := {|
  net := net self || net o;
  fs := fs self || fs o;
  subprocess := subprocess self || subprocess o;
  code_exec := code_exec self || code_exec o;
  env_read := env_read self || env_read o;
  env_whole := env_whole self || env_whole o;
  sensitive_env := sensitive_env self || sensitive_env o;
  cred_path := cred_path self || cred_path o;
  decode := decode self || decode o;
  decode_into_exec := decode_into_exec self || decode_into_exec o;
  hand_code_exec := hand_code_exec self || hand_code_exec o;
  hand_decode := hand_decode self || hand_decode o;
  fetch_into_exec := fetch_into_exec self || fetch_into_exec o;
  suspicious_host := suspicious_host self || suspicious_host o;
  worm_marker := worm_marker self || worm_marker o;
  shell_download := shell_download self || shell_download o;
|}.

Definition strong_source (self : Behavior) : bool := sensitive_env self || cred_path self.

(** ** Verdicts *)

Inductive Verdict := VInfo | VWarn | VBlock.
#[export] Instance Verdict_eq_dec : EqDecision Verdict.
Proof. solve_decision. Defined.

(** [if c { flag = true; reasons.push(r) }] *)
Definition rule (c : bool) (r : string) (st : bool * list string) : bool * list string :=
  if c then (true, st.2 ++ [r]) else st.

Definition block_rules (b : Behavior) (has_install_script : bool) : bool * list string :=
  let st := (false, []) in
  let st := rule (env_whole b && net b && (suspicious_host b || worm_marker b))
    "exfiltration: full environment captured and sent to a network sink" st in
  let st := rule (decode_into_exec b)
    "decoded payload executed (decode -> eval/Function/require)" st in
  let st := rule (fetch_into_exec b)
    "second-stage payload: remote content passed to eval/Function" st in
  let st := rule (worm_marker b && (net b || subprocess b))
    "worm/secret-stealer markers (trufflehog / cloud metadata / republish)" st in
  let st := rule (suspicious_host b && (net b || strong_source b || subprocess b))
    "contacts known exfiltration/C2 infrastructure" st in
  let st := rule (has_install_script
      && (shell_download b || suspicious_host b || decode_into_exec b || worm_marker b))
    "install hook runs payload behavior (shell/C2/decode-exec/worm)" st in
  rule (shell_download b && subprocess b)
    "spawns a shell download chain (curl/wget/certutil)" st.

Definition warn_rules (b : Behavior) (reasons : list string) : bool * list string :=
  let credential_network := (sensitive_env b || cred_path b) && net b in
  let st := (false, reasons) in
  let st := rule credential_network
    "sensitive credentials and network access occur in the same file; review the destination"
    st in
  rule (strong_source b && subprocess b) "reads secrets and spawns processes" st.

Definition verdict (b : Behavior) (has_install_script : bool) : Verdict * list string :=
  let (block, reasons) := block_rules b has_install_script in
  if block then (VBlock, reasons)
  else
    let (warn, reasons) := warn_rules b reasons in
    if warn then (VWarn, reasons) else (VInfo, reasons).

(** ** Markers *)

Definition CRED_PATH_FRAGMENTS : list string :=
  [".ssh/id_rsa"; ".ssh/id_ed25519"; ".aws/credentials"; ".aws/config"; ".npmrc";
   "/etc/shadow"; "id_rsa"; "Library/Keychains"; "Login Data"; "/.config/gcloud";
   ".docker/config.json"; "wallet.dat"; ".bash_history"].
Definition SUSPICIOUS_HOST : list string :=
  [".ngrok.io"; ".ngrok-free.app"; "webhook.site"; "burpcollaborator"; "requestbin";
   "pipedream.net"; "interact.sh"; ".oast."; "oastify.com"; "dnslog.cn"; ".nip.io";
   "transfer.sh"; "0x0.st"; "discord.com/api/webhooks"; "discordapp.com/api/webhooks";
   "api.telegram.org/bot"; "file.io"; "anonfiles"; "gofile.io"; "paste.ee";
   "termbin.com"].
Definition WORM_MARKER : list string :=
  ["trufflehog"; "169.254.169.254"; "metadata.google.internal"; "shai-hulud";
   "npm publish"; "npm_package_description"].
Definition SHELL_DOWNLOAD : list string :=
  ["curl "; "wget "; "certutil"; "Invoke-WebRequest"; "bitsadmin"; "| bash"; "| sh";
   "powershell -"; "regsvr32"; "rundll32"].

(** [l.iter().any(|m| s.contains(m))] *)
Definition any_in (l : list string) (s : string) : bool := existsb (λ m, contains m s) l.

Definition contains_shell_download (s : string) : bool := any_in SHELL_DOWNLOAD s.

Definition scan_install_command (cmd : string) (b : Behavior) : Behavior :=
  let lc := to_ascii_lowercase cmd in
  let b := raise_if (any_in SHELL_DOWNLOAD cmd
    || contains "/dev/tcp" lc || contains "base64 -d" lc || contains "base64 --decode" lc
    || contains "|sh" lc || contains "| sh" lc || contains "|bash" lc
    || contains "| bash" lc || contains "python -c" lc || contains "python3 -c" lc
    || contains "node -e" lc || contains "eval(" lc) FShellDownload b in
  let b := raise_if (existsb (λ h, contains (to_ascii_lowercase h) lc) SUSPICIOUS_HOST)
    FSuspiciousHost b in
  raise_if (any_in WORM_MARKER cmd) FWormMarker b.

Definition is_sensitive_env_name (name : string) : bool :=
  bool_decide (name = "TOKEN")
  || ends_with "_TOKEN" name
  || bool_decide (name = "SECRET")
  || ends_with "_SECRET" name
  || contains "CLIENT_SECRET" name
  || bool_decide (name = "PASSWORD")
  || ends_with "_PASSWORD" name
  || bool_decide (name = "PASSWD")
  || ends_with "_PASSWD" name
  || contains "PRIVATE_KEY" name
  || contains "ACCESS_KEY" name
  || bool_decide (name = "APIKEY")
  || ends_with "_APIKEY" name
  || bool_decide (name = "API_KEY")
  || ends_with "_API_KEY" name
  || contains "CREDENTIAL" name.

(** ** The visitor *)

Definition is_process_env (expr : Expr) : bool :=
  match expr with
  | StaticMemberExpression (Identifier obj) property =>
      bool_decide (property = "env") && bool_decide (obj = "process")
  | _ => false
  end.

Definition callee_name (callee : Expr) : option string :=
  match callee with
  | Identifier name => Some name
  | StaticMemberExpression (Identifier obj) prop => Some (obj +:+ "." +:+ prop)
  | StaticMemberExpression _ prop => Some prop
  | _ => None
  end.

Definition argument_contains_shell_download (arg : Argument) : bool :=
  match as_expression arg with
  | Some (StringLiteral s) => contains_shell_download s
  | Some (TemplateLiteral quasis) => existsb contains_shell_download quasis
  | _ => false
  end.

Definition eqs (n s : string) : bool := bool_decide (n = s).

Definition arg_is_decode (arg : Expr) : bool :=
  match arg with
  | CallExpression callee =>
      match callee_name callee with
      | Some n =>
          if eqs n "atob" || ends_with ".from" n || eqs n "Buffer.from" then true
          else ends_with "fromCharCode" n || eqs n "unescape"
      | None => false
      end
  | _ => false
  end.

Definition arg_is_fetchlike (arg : Expr) : bool :=
  match arg with
  | CallExpression callee =>
      match callee_name callee with
      | Some name =>
          let n := to_ascii_lowercase name in
          eqs n "fetch" || ends_with ".get" n || contains "request" n
          || contains "download" n
      | None => false
      end
  | AwaitExpression => true
  | _ => false
  end.

Definition check_string (v : string) (b : Behavior) : Behavior :=
  let b := raise_if (any_in CRED_PATH_FRAGMENTS v) FCredPath b in
  let b := raise_if (any_in SUSPICIOUS_HOST (to_ascii_lowercase v)) FSuspiciousHost b in
  raise_if (any_in WORM_MARKER v) FWormMarker b.

(** The [match] on the module name of a [require]. *)
Definition require_fact (m : string) : option Fact :=
  if bool_decide (m ∈ ["http"; "https"; "net"; "dgram"; "dns"; "tls"; "node:http";
                       "node:https"; "node:net"; "node:dns"]) then Some FNet
  else if bool_decide (m ∈ ["child_process"; "node:child_process"]) then Some FSubprocess
  else if bool_decide (m ∈ ["fs"; "node:fs"; "fs/promises"]) then Some FFs
  else if bool_decide (m ∈ ["vm"; "node:vm"]) then Some FCodeExec
  else None.

Definition visit_require (n : string) (arguments : list Argument) (b : Behavior) : Behavior :=
  match arguments with
  | ArgExpr (StringLiteral s) :: _ =>
      if eqs n "require" then
        match require_fact s with Some f => raise f b | None => b end
      else b
  | _ => b
  end.

Definition visit_code_exec (n : string) (arguments : list Argument) (b : Behavior) : Behavior :=
  if eqs n "eval" || ends_with ".runInContext" n || ends_with ".runInNewContext" n
     || ends_with "._compile" n || eqs n "Function"
  then
    let b := raise FCodeExec b in
    match head arguments ≫= as_expression with
    | Some a =>
        raise_if (arg_is_fetchlike a) FFetchIntoExec
          (raise_if (arg_is_decode a) FDecodeIntoExec b)
    | None => b
    end
  else b.

Definition visit_net_sink (n : string) (b : Behavior) : Behavior :=
  let nl := to_ascii_lowercase n in
  raise_if ((eqs nl "fetch" || starts_with "axios" nl || ends_with ".request" nl
       || ends_with ".get" nl || ends_with ".post" nl || ends_with ".connect" nl
       || (ends_with ".write" nl && net b))
      && (eqs nl "fetch" || starts_with "axios" nl || ends_with ".request" nl
       || ends_with ".connect" nl)) FNet b.

Definition visit_subprocess (n : string) (arguments : list Argument) (b : Behavior) :
    Behavior :=
  if ends_with ".exec" n || ends_with ".execSync" n || ends_with ".spawn" n
     || ends_with ".spawnSync" n || ends_with ".fork" n || ends_with ".execFile" n
  then
    raise_if (existsb argument_contains_shell_download arguments) FShellDownload
      (raise FSubprocess b)
  else b.

Definition visit_decode (n : string) (b : Behavior) : Behavior :=
  raise_if (eqs n "atob" || eqs n "Buffer.from" || ends_with "fromCharCode" n) FDecode b.

(** The loop over the arguments that looks for a whole [process.env]. *)
Definition visit_env_whole (arguments : list Argument) (b : Behavior) : Behavior :=
  foldl (λ b arg,
    match as_expression arg with
    | Some e => raise_if (is_process_env e) FEnvWhole b
    | None => b
    end) b arguments.

Definition visit_call_expression (callee : Expr) (arguments : list Argument) (b : Behavior) :
    Behavior :=
  match callee_name callee with
  | Some n =>
      let b := visit_require n arguments b in
      let b := visit_code_exec n arguments b in
      let b := visit_net_sink n b in
      let b := visit_subprocess n arguments b in
      let b := visit_decode n b in
      visit_env_whole arguments b
  | None => b
  end.

Definition visit_member_expression (object : Expr) (property : string) (b : Behavior) :
    Behavior :=
  let b :=
    if is_process_env object then
      raise_if (is_sensitive_env_name (to_ascii_uppercase property)) FSensitiveEnv
        (raise FEnvRead b)
    else b in
  match object with
  | Identifier obj =>
      raise_if (eqs property "env" && eqs obj "process") FEnvRead b
  | _ => b
  end.

Definition visit_template_literal (quasis : list string) (b : Behavior) : Behavior :=
  foldl (λ b raw, check_string raw b) b quasis.

Definition visit (b : Behavior) (v : Visit) : Behavior :=
  match v with
  | VisitCall _ _ callee arguments => visit_call_expression callee arguments b
  | VisitMember _ object property => visit_member_expression object property b
  | VisitOtherMember => b
  | VisitString value => check_string value b
  | VisitTemplate quasis => visit_template_literal quasis b
  end.

Definition is_minified (source : string) : bool :=
  1000 <? foldl Nat.max 0 (String.length <$> lines source).

Definition analyze_file `{!Oxc} (source path : string) : Behavior :=
  let source_type := infer_source_type path in
  let b := default_behavior in
  if body_is_empty source source_type then b
  else
    let b := foldl visit b (program_visits source source_type) in
    if negb (is_minified source)
    then assign FHandDecode (decode b) (assign FHandCodeExec (code_exec b) b)
    else b.

(** ** Facts form a join semilattice *)

Lemma behavior_ext a b : (∀ f, get a f = get b f) → a = b.
Proof.
  intros H. destruct a, b. f_equal.
  - apply (H FNet).
  - apply (H FFs).
  - apply (H FSubprocess).
  - apply (H FCodeExec).
  - apply (H FEnvRead).
  - apply (H FEnvWhole).
  - apply (H FSensitiveEnv).
  - apply (H FCredPath).
  - apply (H FDecode).
  - apply (H FDecodeIntoExec).
  - apply (H FHandCodeExec).
  - apply (H FHandDecode).
  - apply (H FFetchIntoExec).
  - apply (H FSuspiciousHost).
  - apply (H FWormMarker).
  - apply (H FShellDownload).
Qed.
Lemma get_merge a b f : get (merge a b) f = get a f || get b f.
Proof. by destruct f. Qed.
Lemma get_default f : get default_behavior f = false.
Proof. by destruct f. Qed.
Lemma get_of_facts g f : get (of_facts g) f = g f.
Proof. by destruct f. Qed.
Lemma get_raise_if c f b g : get (raise_if c f b) g = get b g || (c && bool_decide (g = f)).
Proof.
  destruct c; simpl; [|by rewrite orb_false_r]. unfold raise, assign.
  rewrite get_of_facts. case_decide as E.
  - by rewrite bool_decide_eq_true_2, orb_true_r.
  - by rewrite bool_decide_eq_false_2, orb_false_r.
Qed.

#[export] Instance merge_comm : Comm (=) merge.
Proof. intros a b. apply behavior_ext. intros f. rewrite !get_merge. apply orb_comm. Qed.
#[export] Instance merge_assoc : Assoc (=) merge.
Proof. intros a b c. apply behavior_ext. intros f. rewrite !get_merge. apply orb_assoc. Qed.
#[export] Instance merge_idemp : IdemP (=) merge.
Proof. intros a. apply behavior_ext. intros f. rewrite !get_merge. apply orb_diag. Qed.
#[export] Instance merge_left_id : LeftId (=) default_behavior merge.
Proof. intros a. apply behavior_ext. intros f. by rewrite get_merge, get_default. Qed.
#[export] Instance merge_right_id : RightId (=) default_behavior merge.
Proof. intros a. by rewrite (comm merge), (left_id default_behavior merge). Qed.

(** *** A handler only adds facts, and which ones does not depend on the state *)
Definition additive (h : Behavior → Behavior) : Prop :=
  ∀ b, h b = merge b (h default_behavior).

Lemma additive_id : additive (λ b, b).
Proof. intros b. by rewrite (right_id default_behavior merge). Qed.
Lemma additive_compose h k : additive h → additive k → additive (λ b, k (h b)).
Proof.
  intros Hh Hk b. rewrite Hk, Hh, (Hk (h default_behavior)). by rewrite (assoc merge).
Qed.
Lemma additive_if (c : bool) h k :
  additive h → additive k → additive (λ b, if c then h b else k b).
Proof. by destruct c. Qed.
Lemma additive_raise_if c f : additive (raise_if c f).
Proof.
  intros b. apply behavior_ext. intros g.
  by rewrite get_merge, !get_raise_if, get_default.
Qed.
Lemma additive_then_raise_if c f h : additive h → additive (λ b, raise_if c f (h b)).
Proof. intros Hh. apply (additive_compose h (raise_if c f)); [done|apply additive_raise_if]. Qed.
Lemma additive_raise f : additive (raise f).
Proof. apply (additive_raise_if true). Qed.
Lemma additive_foldl {A} (h : A → Behavior → Behavior) l :
  (∀ x, additive (h x)) → additive (λ b, foldl (λ b x, h x b) b l).
Proof.
  intros Hh. induction l as [|x l IH]; [apply additive_id|].
  apply (additive_compose (h x) (λ b, foldl _ b l)); [done|apply IH].
Qed.

Create HintDb facts.
#[export] Hint Resolve additive_id additive_raise_if additive_raise additive_then_raise_if
  : facts.

Lemma additive_check_string v : additive (check_string v).
Proof.
  unfold check_string. auto with facts.
Qed.
Lemma additive_visit_net_sink n : additive (visit_net_sink n).
Proof.
  intros b. unfold visit_net_sink. set (nl := to_ascii_lowercase n).
  set (w := ends_with ".write" nl).
  destruct (eqs nl "fetch"), (starts_with "axios" nl), (ends_with ".request" nl),
    (ends_with ".connect" nl); simpl; rewrite ?orb_true_r, ?andb_false_r;
    first [apply (additive_raise_if true) | apply (additive_raise_if false)].
Qed.
Lemma additive_visit_require n args : additive (visit_require n args).
Proof.
  unfold visit_require. destruct args as [|[|[]] args]; try apply additive_id.
  apply additive_if; [|apply additive_id]. destruct (require_fact _); auto with facts.
Qed.
Lemma additive_visit_code_exec n args : additive (visit_code_exec n args).
Proof.
  unfold visit_code_exec. apply additive_if; [|apply additive_id].
  destruct (head args ≫= as_expression); auto with facts.
Qed.
Lemma additive_visit_subprocess n args : additive (visit_subprocess n args).
Proof.
  unfold visit_subprocess. apply additive_if; [|apply additive_id]. auto with facts.
Qed.
Lemma additive_visit_decode n : additive (visit_decode n).
Proof. unfold visit_decode. auto with facts. Qed.
Lemma additive_visit_env_whole args : additive (visit_env_whole args).
Proof.
  apply (additive_foldl (λ arg b, match as_expression arg with
    | Some e => raise_if (is_process_env e) FEnvWhole b | None => b end)).
  intros arg. destruct (as_expression arg); auto with facts.
Qed.
#[export] Hint Resolve additive_visit_require additive_visit_code_exec
  additive_visit_net_sink additive_visit_subprocess additive_visit_decode
  additive_visit_env_whole additive_check_string : facts.

(** Splits a pipeline of handlers at its last one. *)
Ltac additive_chain :=
  repeat match goal with
  | |- additive (λ b, ?k (@?h b)) =>
      lazymatch h with (λ b, b) => fail | _ => apply (additive_compose h k) end
  end; auto with facts.

Lemma additive_visit_call callee args : additive (visit_call_expression callee args).
Proof.
  unfold visit_call_expression. destruct (callee_name callee); [|apply additive_id].
  additive_chain.
Qed.
Lemma additive_visit v : additive (λ b, visit b v).
Proof.
  destruct v as [?? callee args|? object property| |value|quasis]; simpl.
  - apply additive_visit_call.
  - unfold visit_member_expression. set (c := is_process_env object).
    assert (∀ f : Behavior → Behavior, additive f → additive (λ b,
      f (if c then raise_if (is_sensitive_env_name (to_ascii_uppercase property))
                 FSensitiveEnv (raise FEnvRead b) else b))) as H.
    { intros f Hf. apply (additive_compose (λ b, if c then _ else _)); [|done].
      apply additive_if; [|apply additive_id].
      auto with facts. }
    destruct object; first [apply (H (raise_if _ _)); apply additive_raise_if
                           | apply (H (λ b, b)); apply additive_id].
  - apply additive_id.
  - apply additive_check_string.
  - apply (additive_foldl check_string). intros. apply additive_check_string.
Qed.

Lemma foldl_visit_merge vs b :
  foldl visit b vs = merge b (foldl visit default_behavior vs).
Proof. apply (additive_foldl (λ v b, visit b v) vs additive_visit). Qed.

Lemma get_foldl_visit vs f :
  get (foldl visit default_behavior vs) f =
  existsb (λ v, get (visit default_behavior v) f) vs.
Proof.
  induction vs as [|v vs IH]; simpl; [apply get_default|].
  by rewrite foldl_visit_merge, get_merge, IH.
Qed.

(** The visitor computes, for each fact, whether some visited node raises it
    on its own: a node's facts do not depend on the nodes before it (although the
    network-sink test reads the state), so the traversal order is irrelevant, and
    the facts of two runs joined are the merge of their facts. *)
Theorem visit_order_irrelevant vs ws f :
  get (foldl visit default_behavior vs) f =
    existsb (λ v, get (visit default_behavior v) f) vs ∧
  foldl visit default_behavior (vs ++ ws) =
    merge (foldl visit default_behavior vs) (foldl visit default_behavior ws) ∧
  (vs ≡ₚ ws → foldl visit default_behavior vs = foldl visit default_behavior ws).
Proof.
  split_and!.
  - apply get_foldl_visit.
  - by rewrite foldl_app, foldl_visit_merge.
  - intros HP. apply behavior_ext. intros g. rewrite !get_foldl_visit.
    apply eq_true_iff_eq. rewrite !existsb_exists.
    setoid_rewrite <- list_elem_of_In. by setoid_rewrite HP.
Qed.

Lemma visit_order_irrelevant_witness :
  let v := VisitCall 0 9 (StaticMemberExpression (Identifier "sock") "write") [] in
  let w := VisitCall 9 20 (Identifier "fetch") [] in
  [v; w] ≡ₚ [w; v] ∧
  foldl visit default_behavior [v; w] = foldl visit default_behavior [w; v].
Proof.
  intros v w. assert ([v; w] ≡ₚ [w; v]) as HP by constructor.
  split; [exact HP|]. by apply (visit_order_irrelevant [v; w] [w; v] FNet).
Defined.

(** ** The verdict *)

Definition verdict_rank (v : Verdict) : nat :=
  match v with VInfo => 0 | VWarn => 1 | VBlock => 2 end.

(** The conditions under which a package must be blocked or reviewed. *)
Definition must_block (b : Behavior) (hook : bool) : bool :=
  decode_into_exec b || fetch_into_exec b
  || (worm_marker b && (net b || subprocess b || hook))
  || (suspicious_host b && (net b || strong_source b || subprocess b || hook))
  || (shell_download b && (subprocess b || hook)).
Definition must_warn (b : Behavior) : bool := strong_source b && (net b || subprocess b).

(** A capability on its own, or a marker that is only a weak signal. *)
Definition neutral (f : Fact) : bool :=
  match f with
  | FNet | FFs | FSubprocess | FCodeExec | FEnvRead | FEnvWhole | FDecode
  | FHandCodeExec | FHandDecode => true
  | _ => false
  end.

Lemma rule_flag c r st : (rule c r st).1 = c || st.1.
Proof. by destruct c. Qed.
Lemma rule_reasons c r st : (rule c r st).2 = st.2 ++ (if c then [r] else []).
Proof. destruct c; simpl; [done|]. by rewrite app_nil_r. Qed.
(** A reason is recorded exactly when the flag is raised. *)
Definition justified (st : bool * list string) : Prop := st.1 = false ↔ st.2 = [].
Lemma rule_justified c r st : justified st → justified (rule c r st).
Proof. unfold justified. destruct c, st as [? []]; simpl; naive_solver. Qed.

Lemma block_rules_justified b h : justified (block_rules b h).
Proof. unfold block_rules. repeat apply rule_justified. done. Qed.
Lemma warn_rules_justified b : justified (warn_rules b []).
Proof. unfold warn_rules. repeat apply rule_justified. done. Qed.
Lemma block_rules_flag b h : (block_rules b h).1 = must_block b h.
Proof.
  unfold block_rules, must_block, strong_source. rewrite !rule_flag. simpl.
  destruct (worm_marker b), (suspicious_host b), (decode_into_exec b), (fetch_into_exec b),
    (shell_download b), (net b), (subprocess b), h; simpl;
    rewrite ?orb_true_r, ?andb_false_r; try reflexivity;
    destruct (env_whole b), (sensitive_env b), (cred_path b); reflexivity.
Qed.
Lemma warn_rules_flag b r : (warn_rules b r).1 = must_warn b.
Proof.
  unfold warn_rules, must_warn, strong_source. rewrite !rule_flag. simpl.
  destruct (sensitive_env b), (cred_path b), (net b), (subprocess b); reflexivity.
Qed.

Lemma verdict_fst b h :
  (verdict b h).1 = if must_block b h then VBlock else if must_warn b then VWarn else VInfo.
Proof.
  unfold verdict. rewrite <- block_rules_flag.
  destruct (block_rules b h) as [[] rs]; simpl; [done|].
  rewrite <- (warn_rules_flag b rs). by destruct (warn_rules b rs) as [[] ?].
Qed.
Lemma verdict_reasons_empty b h : (verdict b h).2 = [] ↔ (verdict b h).1 = VInfo.
Proof.
  pose proof (block_rules_justified b h) as Hb. unfold verdict, justified in *.
  destruct (block_rules b h) as [[] rs]; simpl in *; [naive_solver|].
  rewrite (proj1 Hb eq_refl).
  pose proof (warn_rules_justified b) as Hw. unfold justified in Hw.
  destruct (warn_rules b []) as [[] rs']; simpl in *; naive_solver.
Qed.

Lemma must_block_mono a b h k :
  Is_true (must_block a h) → Is_true (must_block (merge a b) (h || k)).
Proof.
  unfold must_block, strong_source. simpl. rewrite !orb_True, !andb_True, !orb_True. tauto.
Qed.
Lemma must_warn_mono a b : Is_true (must_warn a) → Is_true (must_warn (merge a b)).
Proof.
  unfold must_warn, strong_source. simpl. rewrite !andb_True, !orb_True. tauto.
Qed.

Lemma verdict_rank_mono a b h k :
  verdict_rank (verdict a h).1 ≤ verdict_rank (verdict (merge a b) (h || k)).1.
Proof.
  pose proof (must_block_mono a b h k) as Hb. pose proof (must_warn_mono a b) as Hw.
  rewrite !verdict_fst.
  destruct (must_block a h), (must_block (merge a b) (h || k)), (must_warn a),
    (must_warn (merge a b)); simpl in *; solve [lia | tauto].
Qed.

Lemma verdict_neutral b h :
  (∀ f, get b f = true → neutral f = true) → verdict b h = (VInfo, []).
Proof.
  intros H.
  assert (∀ f, neutral f = false → get b f = false) as N.
  { intros f Hf. destruct (get b f) eqn:E; [|done]. apply H in E. congruence. }
  assert ((verdict b h).1 = VInfo) as Hv.
  { rewrite verdict_fst. unfold must_block, must_warn, strong_source.
    rewrite (N FDecodeIntoExec eq_refl : decode_into_exec b = false),
      (N FFetchIntoExec eq_refl : fetch_into_exec b = false),
      (N FWormMarker eq_refl : worm_marker b = false),
      (N FSuspiciousHost eq_refl : suspicious_host b = false),
      (N FShellDownload eq_refl : shell_download b = false),
      (N FSensitiveEnv eq_refl : sensitive_env b = false),
      (N FCredPath eq_refl : cred_path b = false). done. }
  pose proof (proj2 (verdict_reasons_empty b h) Hv).
  destruct (verdict b h); simpl in *; congruence.
Qed.

(** What the comment in [verdict] promises for a capture of the whole environment with the
    network: [Block] when a decode marker is there too, [Warn] when nothing is. *)
Definition commented_verdict (b : Behavior) : Verdict :=
  if env_whole b && net b then if decode b then VBlock else VWarn else VInfo.

(** (C20) The verdict as the code computes it, exactly: [Block] when a decode or a
    download feeds an execution, or a worm marker, attacker host or shell payload meets a
    capability or an install hook; otherwise [Warn] when a named secret or a
    credential path meets the network or a subprocess; otherwise [Info]. Reasons
    are given exactly when it is not [Info], and a fact or a hook more never lowers
    the verdict. Capabilities alone are never enough. For one of them, the capture of the
    whole environment with the network, this is less than the comment in the code
    promises, which is a warning, and a block with a decode marker
    ([commented_verdict]): the code gives [Info] without a reason there, and nowhere
    else is it below the comment. *)
Theorem verdict_spec b b' hook hook' :
  (verdict b hook).1 =
    (if must_block b hook then VBlock else if must_warn b then VWarn else VInfo) ∧
  ((verdict b hook).2 = [] ↔ (verdict b hook).1 = VInfo) ∧
  ((∀ f, get b f = true → neutral f = true) → verdict b hook = (VInfo, [])) ∧
  (verdict_rank (verdict b hook).1 < verdict_rank (commented_verdict b) →
     env_whole b = true ∧ net b = true ∧ must_block b hook = false ∧
     (decode b = true ∨ must_warn b = false)) ∧
  verdict_rank (verdict b hook).1 ≤
    verdict_rank (verdict (merge b b') (hook || hook')).1.
Proof.
  split_and!.
  - apply verdict_fst.
  - apply verdict_reasons_empty.
  - apply verdict_neutral.
  - rewrite verdict_fst. unfold commented_verdict.
    destruct (env_whole b), (net b), (decode b), (must_block b hook), (must_warn b); simpl; intros H;
      try lia; split_and!; auto.
  - apply verdict_rank_mono.
Qed.

Lemma verdict_spec_witness :
  let b := raise FNet (raise FDecode default_behavior) in
  let c := raise FEnvWhole b in
  (∀ f, get b f = true → neutral f = true) ∧ verdict b false = (VInfo, [])
  ∧ verdict_rank (verdict c false).1 < verdict_rank (commented_verdict c) ∧ env_whole c = true.
Proof.
  intros b c. assert (∀ f, get b f = true → neutral f = true) as H by (intros []; done).
  split; [exact H|]. split; [by apply (verdict_spec b default_behavior false false)|].
  assert (verdict_rank (verdict c false).1 < verdict_rank (commented_verdict c)) as Hlt by (vm_compute; lia).
  split; [exact Hlt|]. by apply (verdict_spec c default_behavior false false).
Defined.

(** A whole-environment capture with network access and a decode is rendered
    [Info], without a reason: no rule reads [decode], and none warns on it. *)
Example env_whole_net_decode_is_info hook :
  verdict (raise FNet (raise FEnvWhole (raise FDecode default_behavior))) hook = (VInfo, []).
Proof. by destruct hook. Qed.
