(* ===== verification/Score.v ===== *)
(** * oath-analyze: the safety score ([score.rs])

    Weights are [i16] and counts [u32], kept at their width: the release profile
    has no overflow checks, so the arithmetic wraps. *)
From S2P Require Export Report.

Record ScoreFactor := { name : string; weight : Z; factor_description : string }.
Record SafetyScore := { score : Z; grade : ascii; factors : list ScoreFactor }.

Definition score_to_grade (score : Z) : ascii :=
  (if bool_decide (90 ≤ score ≤ 100) then "A"
   else if bool_decide (75 ≤ score ≤ 89) then "B"
   else if bool_decide (60 ≤ score ≤ 74) then "C"
   else if bool_decide (40 ≤ score ≤ 59) then "D"
   else "F")%Z%char.

Record ScoreContext := { is_dev : bool; weekly_downloads : Z; age_days : Z }.

Definition KNOWN_NETWORK_PACKAGES : list string :=
  ["axios"; "node-fetch"; "undici"; "got"; "request"; "superagent"; "ky"; "cross-fetch";
   "isomorphic-fetch"; "whatwg-fetch"; "needle"; "phin"].
Definition KNOWN_FS_PACKAGES : list string :=
  ["fs-extra"; "graceful-fs"; "glob"; "globby"; "chokidar"; "rimraf"; "del"; "mkdirp";
   "make-dir"; "find-up"; "locate-path"; "fast-glob"].
Definition KNOWN_ENV_PACKAGES : list string := ["dotenv"; "cross-env"; "env-ci"; "envinfo"].
Definition KNOWN_EXEC_PACKAGES : list string :=
  ["execa"; "cross-spawn"; "shelljs"; "npm-run-all"].

Definition is_known_safe_for_capability (name capability : string) : bool :=
  if decide (capability = "network") then bool_decide (name ∈ KNOWN_NETWORK_PACKAGES)
  else if decide (capability = "filesystem") then bool_decide (name ∈ KNOWN_FS_PACKAGES)
  else if decide (capability = "env_access") then bool_decide (name ∈ KNOWN_ENV_PACKAGES)
  else if decide (capability = "subprocess" ∨ capability = "dynamic_exec")
  then bool_decide (name ∈ KNOWN_EXEC_PACKAGES)
  else false.

(** ** The package directory

    [join(name).exists()], and the readable entries of a walk from the package
    root with their depth, type and file name (when it is UTF-8). *)
Record WalkEntry := { depth : nat; is_file : bool; file_name : option string }.
Record PackageDir := { exists_in : string → bool; walk : list WalkEntry }.

(** [Path::extension] of a file name. *)
Definition extension (n : string) : option string :=
  if decide (n = "..") then None
  else p ← rsplit_once "." n; if decide (p.1 = "") then None else Some p.2.

Definition any_exists (d : PackageDir) (names : list string) : bool :=
  existsb (exists_in d) names.
Definition name_is (f : string → bool) (e : WalkEntry) : bool :=
  match file_name e with Some n => f n | None => false end.

Definition has_readme (d : PackageDir) : bool :=
  any_exists d ["README.md"; "readme.md"; "README"; "README.txt"; "README.rst"].
Definition file_count (d : PackageDir) : nat := length (filter (λ e, is_file e = true) (walk d)).
Definition has_minified (d : PackageDir) : bool :=
  existsb (λ e, is_file e
    && name_is (λ n, ends_with ".min.js" n || ends_with ".min.cjs" n) e) (walk d).
Definition has_types (d : PackageDir) : bool :=
  exists_in d "index.d.ts"
  || existsb (λ e, (depth e <=? 3)
       && (name_is (λ n, bool_decide (extension n = Some "d.ts")) e
           || name_is (ends_with ".d.ts") e)) (walk d).
Definition has_license (d : PackageDir) : bool :=
  any_exists d ["LICENSE"; "LICENSE.md"; "LICENSE.txt"; "LICENCE"; "license"].
Definition has_tests (d : PackageDir) : bool := any_exists d ["test"; "tests"; "__tests__"].

(** ** [compute_safety_score_inner] *)

(** The factors collected and the raw score, and [if c { push; raw += w }]. *)
Definition Acc : Type := list ScoreFactor * Z.
Definition factor (c : bool) (n : string) (w : Z) (desc : string) (acc : Acc) : Acc :=
  if c then (acc.1 ++ [{| name := n; weight := w; factor_description := desc |}],
             (acc.2 + w)%Z)
  else acc.

(** A [u32] count of the findings at a risk level. *)
Definition count_risk (r : RiskLevel) (fs : list Finding) : Z :=
  wrap_u 32 (Z.of_nat (length (filter (λ f, risk f = r) fs))).
(** [-(count as i16 * per)] *)
Definition risk_penalty (count per : Z) : Z := to_i16 (- to_i16 (to_i16 count * per)).

(** [.filter(kind && message.contains).count() as i32] *)
Definition count_message (k : FindingKind) (m : string) (fs : list Finding) : Z :=
  to_i32 (Z.of_nat (length (filter (λ f, kind f = k ∧ contains m (message f) = true) fs))).
(** [-(count * per).min(cap) as i16] *)
Definition capped_penalty (count per cap : Z) : Z :=
  to_i16 (- (to_i32 (count * per) `min` cap)).

Definition risk_factor (r : RiskLevel) (per : Z) (n label : string) (fs : list Finding) :
    Acc → Acc :=
  let c := count_risk r fs in
  factor (0 <? c)%Z n (risk_penalty c per) (pretty c +:+ label).
Definition message_factor (k : FindingKind) (m : string) (per cap : Z) (n label : string)
    (fs : list Finding) : Acc → Acc :=
  let c := count_message k m fs in
  factor (0 <? c)%Z n (capped_penalty c per cap) (pretty c +:+ label).

Definition risk_factors (fs : list Finding) (acc : Acc) : Acc :=
  let acc := risk_factor Critical 30 "critical_findings" " critical finding(s)" fs acc in
  let acc := risk_factor High 15 "high_findings" " high finding(s)" fs acc in
  let acc := risk_factor Medium 5 "medium_findings" " medium finding(s)" fs acc in
  risk_factor Low 2 "low_findings" " low finding(s)" fs acc.

Definition high_obfuscation (fs : list Finding) : bool :=
  existsb (λ f, bool_decide (kind f = Obfuscation)
    && (bool_decide (risk f = High) || bool_decide (risk f = Critical))) fs.

Definition capability_factors (report : AnalysisReport) (acc : Acc) : Acc :=
  let caps := capabilities report in
  let pkg_name := package_name report in
  let acc := factor (has_install_scripts caps) "install_scripts" (-10)
    "Package has install scripts" acc in
  let acc := factor (network caps && env_access caps
      && negb (is_known_safe_for_capability pkg_name "network")
      && negb (is_known_safe_for_capability pkg_name "env_access"))
    "network_env_combo" (-20)
    "Network access combined with environment variable access" acc in
  let acc := factor (dynamic_exec caps
      && negb (is_known_safe_for_capability pkg_name "dynamic_exec"))
    "dynamic_exec" (-10) "Uses dynamic code execution (eval/Function)" acc in
  factor (high_obfuscation (findings report)) "obfuscated_code" (-25)
    "Obfuscated code detected" acc.

Definition obfuscation_factors (fs : list Finding) (acc : Acc) : Acc :=
  let acc := message_factor Obfuscation "Base64 payload" 30 60 "base64_payload"
    " base64 payload detection(s) (Buffer.from/atob with encoded data)" fs acc in
  let acc := message_factor Obfuscation "Dynamic require" 25 50 "dynamic_require_obfuscation"
    " dynamic require obfuscation(s) (concatenated module names)" fs acc in
  let acc := message_factor Obfuscation "Hex string execution" 40 80 "hex_string_execution"
    " hex string execution(s) (eval+fromCharCode or hex eval)" fs acc in
  let acc := message_factor DataExfiltration "Environment variable exfiltration" 35 70
    "env_exfiltration_combo"
    " file(s) with process.env read + HTTP request (possible exfiltration)" fs acc in
  message_factor CryptoMiner "wallet address" 20 60 "crypto_wallet_patterns"
    " cryptocurrency wallet address(es) detected" fs acc.

Definition directory_factors (d : PackageDir) (acc : Acc) : Acc :=
  let acc := factor (negb (has_readme d)) "no_readme" (-5) "Package has no README" acc in
  let acc := factor (200 <? file_count d) "large_surface_area" (-5)
    ("Package has " +:+ pretty (file_count d) +:+ " files (large surface area)") acc in
  let acc := factor (negb (has_minified d)) "readable_source" 5
    "All source is readable (no minified files)" acc in
  let acc := factor (has_types d) "typescript_types" 5 "Has TypeScript type definitions" acc in
  let acc := factor (has_license d) "has_license" 5 "Has LICENSE file" acc in
  factor (has_tests d) "has_tests" 5 "Has test directory" acc.

Definition raw_factors (report : AnalysisReport) (d : PackageDir) : Acc :=
  let acc := ([], 100%Z) in
  let acc := risk_factors (findings report) acc in
  let acc := capability_factors report acc in
  let acc := obfuscation_factors (findings report) acc in
  directory_factors d acc.

Definition verdict_floor (r : RiskLevel) : option (Z * string) :=
  match r with
  | Info => Some (75%Z, "AST analysis found no correlated dangerous behavior")
  | High => Some (60%Z,
      "AST analysis found reviewable behavior without block-tier corroboration")
  | _ => None
  end.

Definition apply_floor (report : AnalysisReport) (acc : Acc) : Acc :=
  match verdict_floor (overall_risk report) with
  | Some (floor, desc) =>
      if (acc.2 <? floor)%Z then
        let recovered := (floor - (acc.2 `max` 0))%Z in
        (acc.1 ++ [{| name := "behavioral_verdict";
                      weight := to_i16 (clampZ 0 32767 recovered);
                      factor_description := desc |}], floor)
      else acc
  | None => acc
  end.

Definition compute_safety_score (report : AnalysisReport) (d : PackageDir) : SafetyScore :=
  let acc := apply_floor report (raw_factors report d) in
  let final_score := clampZ 0 100 acc.2 in
  {| score := final_score; grade := score_to_grade final_score; factors := acc.1 |}.

(** ** [compute_safety_score_contextual] *)

Definition with_score (s : Z) (fs : list ScoreFactor) : SafetyScore :=
  {| score := s; grade := score_to_grade s; factors := fs |}.

Definition dev_discount (ctx : ScoreContext) (s : SafetyScore) : SafetyScore :=
  if is_dev ctx && (score s <? 100)%Z then
    let lost := (100 - score s)%Z in
    let recovered := ((lost * 40) `quot` 100)%Z in
    let s' := clampZ 0 100 (score s + recovered) in
    with_score s' (factors s ++
      if (0 <? recovered)%Z
      then [{| name := "dev_dependency"; weight := to_i16 recovered;
               factor_description := "Dev dependency (reduced severity)" |}]
      else [])
  else s.

Definition has_critical (report : AnalysisReport) : bool :=
  existsb (λ f, bool_decide (risk f = Critical)) (findings report).

Definition popularity_trust (report : AnalysisReport) (ctx : ScoreContext) (s : SafetyScore) :
    SafetyScore :=
  if (1000000 <=? weekly_downloads ctx)%Z && negb (has_critical report)
     && (score s <? 90)%Z
  then with_score 90 (factors s ++
    [{| name := "trusted_popular"; weight := 90 - score s;
        factor_description := pretty (weekly_downloads ctx / 1000000)%Z +:+
          "M+ weekly downloads, no critical findings (heuristic flags treated as false positives)" |}])
  else s.

Definition suspicion_boost (ctx : ScoreContext) (s : SafetyScore) : SafetyScore :=
  if ((0 <? weekly_downloads ctx) && (weekly_downloads ctx <? 100) && (age_days ctx <? 30))%Z
  then with_score ((score s + -15) `max` 0) (factors s ++
    [{| name := "new_unpopular"; weight := -15;
        factor_description := "New package with very few downloads" |}])
  else s.

Definition compute_safety_score_contextual (report : AnalysisReport) (d : PackageDir)
    (ctx : ScoreContext) : SafetyScore :=
  suspicion_boost ctx
    (popularity_trust report ctx (dev_discount ctx (compute_safety_score report d))).

(** ** The factors explain the score *)

Definition sum_weights (l : list ScoreFactor) : Z := foldr Z.add 0%Z (weight <$> l).
Lemma sum_weights_snoc l f : sum_weights (l ++ [f]) = (sum_weights l + weight f)%Z.
Proof. unfold sum_weights. induction l as [|x l IH]; csimpl; [lia|]. rewrite IH. lia. Qed.

(** The raw score is 100 plus the weights listed. *)
Definition explained (acc : Acc) : Prop := acc.2 = (100 + sum_weights acc.1)%Z.

Lemma factor_explained c n w d acc : explained acc → explained (factor c n w d acc).
Proof. unfold explained. destruct c; [|done]. csimpl. rewrite sum_weights_snoc. simpl. lia. Qed.

Lemma raw_factors_explained report d : explained (raw_factors report d).
Proof.
  unfold raw_factors, directory_factors, obfuscation_factors, capability_factors,
    risk_factors, message_factor, risk_factor. cbv zeta.
  do 19 apply factor_explained. done.
Qed.

Lemma score_to_grade_A s : (90 ≤ s ≤ 100)%Z → score_to_grade s = "A"%char.
Proof. intros H. unfold score_to_grade. by rewrite bool_decide_eq_true_2. Qed.

(** The score and its grade: between 0 and 100, the grade the score's; the
    listed factors add up to it (clamped), unless a floor lifted a negative raw
    score; a package the behavioral analysis found harmless scores at least 75,
    a reviewable one at least 60. *)
Theorem safety_score_spec report d :
  let s := compute_safety_score report d in
  (0 ≤ score s ≤ 100)%Z ∧
  grade s = score_to_grade (score s) ∧
  ((0 ≤ (raw_factors report d).2)%Z ∨ verdict_floor (overall_risk report) = None →
     score s = clampZ 0 100 (100 + sum_weights (factors s))) ∧
  (overall_risk report = Info → 75 ≤ score s)%Z ∧
  (overall_risk report = High → 60 ≤ score s)%Z.
Proof.
  intros s. pose proof (raw_factors_explained report d) as He. unfold explained in He.
  unfold s, compute_safety_score, apply_floor. simpl.
  set (acc := raw_factors report d) in *. split_and!.
  - unfold clampZ. lia.
  - unfold clampZ. lia.
  - done.
  - destruct (verdict_floor (overall_risk report)) as [[fl desc]|] eqn:Efl;
      [|intros _; simpl; by rewrite <- He].
    destruct (acc.2 <? fl)%Z eqn:E; [|intros _; simpl; by rewrite <- He].
    assert (fl ≤ 75)%Z by (destruct (overall_risk report); simplify_eq/=; lia).
    intros [Hraw|]; [|done]. apply Z.ltb_lt in E. csimpl. f_equal.
    rewrite sum_weights_snoc. simpl. unfold clampZ.
    rewrite wrap_s_id; [lia|lia|]. change (2 ^ (16 - 1))%Z with 32768%Z. lia.
  - intros ->. simpl. destruct (acc.2 <? 75)%Z eqn:E; simpl; unfold clampZ; lia.
  - intros ->. simpl. destruct (acc.2 <? 60)%Z eqn:E; simpl; unfold clampZ; lia.
Qed.

Lemma dev_discount_range ctx s :
  (0 ≤ score s ≤ 100)%Z → grade s = score_to_grade (score s) →
  (score s ≤ score (dev_discount ctx s) ≤ 100)%Z ∧
  grade (dev_discount ctx s) = score_to_grade (score (dev_discount ctx s)).
Proof.
  intros Hs Hg. unfold dev_discount. destruct (is_dev ctx && (score s <? 100)%Z).
  - simpl. split; [|done].
    pose proof (Z.quot_pos ((100 - score s) * 40) 100 ltac:(lia) ltac:(lia)). unfold clampZ. lia.
  - split; [lia|done].
Qed.

(** The context only moves the score as documented: the result is a score
    with its grade; a package with a million weekly downloads and no critical
    finding gets at least 90, grade A; with a critical finding popularity changes
    nothing; and a new, rarely downloaded package loses at most 15 points. *)
Theorem contextual_score_spec report d ctx :
  let s := compute_safety_score_contextual report d ctx in
  let base := dev_discount ctx (compute_safety_score report d) in
  (0 ≤ score s ≤ 100)%Z ∧
  grade s = score_to_grade (score s) ∧
  (score (compute_safety_score report d) ≤ score base)%Z ∧
  ((1000000 ≤ weekly_downloads ctx)%Z → has_critical report = false →
     90 ≤ score s ∧ grade s = "A"%char)%Z ∧
  (has_critical report = true → s = suspicion_boost ctx base) ∧
  (score base - 15 ≤ score s)%Z.
Proof.
  intros s base.
  destruct (safety_score_spec report d) as (Hr & Hg & _).
  destruct (dev_discount_range ctx _ Hr Hg) as [Hb Hgb]. fold base in Hb, Hgb.
  unfold s, compute_safety_score_contextual. fold base.
  assert (Hp : (score base ≤ score (popularity_trust report ctx base) ≤ 100)%Z ∧
    grade (popularity_trust report ctx base)
    = score_to_grade (score (popularity_trust report ctx base))).
  { unfold popularity_trust.
    destruct ((1000000 <=? weekly_downloads ctx)%Z && negb (has_critical report)); simpl;
      [|split; [lia|done]].
    destruct (score base <? 90)%Z eqn:E; simpl; split; try done; lia. }
  set (p := popularity_trust report ctx base) in *. destruct Hp as [Hp Hgp].
  assert (Hs : (score p - 15 ≤ score (suspicion_boost ctx p) ≤ 100)%Z ∧
    (0 ≤ score (suspicion_boost ctx p))%Z ∧
    grade (suspicion_boost ctx p) = score_to_grade (score (suspicion_boost ctx p))).
  { unfold suspicion_boost.
    destruct ((0 <? weekly_downloads ctx) && _ && _)%Z; simpl; split_and!; try done; lia. }
  destruct Hs as (Hs & Hs0 & Hgs). split_and!; [lia|lia|done|lia|..|lia].
  - intros Hw Hc.
    assert (suspicion_boost ctx p = p) as E.
    { unfold suspicion_boost. replace (weekly_downloads ctx <? 100)%Z with false by lia.
      by rewrite andb_false_r. }
    assert (90 ≤ score p)%Z.
    { unfold p, popularity_trust. rewrite Hc.
      replace (1000000 <=? weekly_downloads ctx)%Z with true by lia. simpl.
      destruct (score base <? 90)%Z eqn:E'; simpl; lia. }
    rewrite E. split; [done|]. rewrite Hgp. apply score_to_grade_A. lia.
  - intros Hc. unfold p, popularity_trust. rewrite Hc. by rewrite andb_false_r.
Qed.

(** ** Width of the penalties *)

Lemma to_i16_id x : (-32768 ≤ x < 32768)%Z → to_i16 x = x.
Proof. intros. apply wrap_s_id; [lia|]. change (2 ^ (16 - 1))%Z with 32768%Z. lia. Qed.
Lemma to_i32_id x : (-2147483648 ≤ x < 2147483648)%Z → to_i32 x = x.
Proof. intros. apply wrap_s_id; [lia|]. change (2 ^ (32 - 1))%Z with 2147483648%Z. lia. Qed.

Lemma risk_penalty_exact c per :
  (0 ≤ c ≤ 32767)%Z → (0 ≤ per)%Z → (c * per ≤ 32767)%Z → risk_penalty c per = (- (c * per))%Z.
Proof.
  intros. assert (0 ≤ c * per)%Z by (apply Z.mul_nonneg_nonneg; lia).
  unfold risk_penalty. rewrite (to_i16_id c), (to_i16_id (c * per)), to_i16_id by lia. done.
Qed.
Lemma capped_penalty_range c per cap :
  (0 ≤ c)%Z → (0 ≤ per)%Z → (c * per < 2147483648)%Z → (0 ≤ cap ≤ 32767)%Z →
  (- cap ≤ capped_penalty c per cap ≤ 0)%Z.
Proof.
  intros. assert (0 ≤ c * per)%Z by (apply Z.mul_nonneg_nonneg; lia). unfold capped_penalty. rewrite (to_i32_id (c * per)) by lia.
  rewrite to_i16_id by lia. lia.
Qed.

Lemma count_risk_range r fs :
  (length fs ≤ 4000)%nat → (0 ≤ count_risk r fs ≤ Z.of_nat (length fs))%Z.
Proof.
  intros H. unfold count_risk, wrap_u. pose proof (length_filter (λ f, risk f = r) fs).
  rewrite Z.mod_small; [lia|]. change (2 ^ 32)%Z with 4294967296%Z. lia.
Qed.
Lemma count_message_range k m fs :
  (length fs ≤ 4000)%nat → (0 ≤ count_message k m fs ≤ Z.of_nat (length fs))%Z.
Proof.
  intros H. unfold count_message.
  pose proof (length_filter (λ f, kind f = k ∧ contains m (message f) = true) fs).
  rewrite to_i32_id by lia. lia.
Qed.

Lemma factor_le c n w d acc u :
  (w ≤ u)%Z → (0 ≤ u)%Z → ((factor c n w d acc).2 ≤ acc.2 + u)%Z.
Proof. destruct c; simpl; lia. Qed.
Lemma factor_ge c n w d acc u :
  (- u ≤ w)%Z → (0 ≤ u)%Z → (acc.2 - u ≤ (factor c n w d acc).2)%Z.
Proof. destruct c; simpl; lia. Qed.

Lemma message_factor_le k m per cap n l fs acc :
  (length fs ≤ 4000)%nat → (0 ≤ per ≤ 40)%Z → (0 ≤ cap ≤ 32767)%Z →
  ((message_factor k m per cap n l fs acc).2 ≤ acc.2)%Z.
Proof.
  intros Hl Hp Hc. unfold message_factor.
  pose proof (count_message_range k m fs Hl). set (c := count_message k m fs) in *.
  assert (c ≤ 4000)%Z by lia. assert (c * per ≤ 4000 * 40)%Z by (apply Z.mul_le_mono_nonneg; lia).
  pose proof (capped_penalty_range c per cap ltac:(lia) ltac:(lia) ltac:(lia) Hc).
  pose proof (factor_le (0 <? c)%Z n (capped_penalty c per cap) (pretty c +:+ l) acc 0). lia.
Qed.
Lemma risk_factor_le r per n l fs acc :
  (length fs ≤ 1092)%nat → (0 ≤ per ≤ 30)%Z → ((risk_factor r per n l fs acc).2 ≤ acc.2)%Z.
Proof.
  intros Hl Hp. unfold risk_factor.
  pose proof (count_risk_range r fs ltac:(lia)). set (c := count_risk r fs) in *.
  pose proof (factor_le (0 <? c)%Z n (risk_penalty c per) (pretty c +:+ l) acc 0) as H1.
  assert (c ≤ 1092)%Z by lia. assert (c * per ≤ 1092 * 30)%Z by (apply Z.mul_le_mono_nonneg; lia).
  rewrite risk_penalty_exact in H1 |- * by lia. nia.
Qed.

Lemma directory_factors_range d acc :
  (acc.2 - 10 ≤ (directory_factors d acc).2 ≤ acc.2 + 20)%Z.
Proof.
  unfold directory_factors, factor.
  destruct (negb (has_readme d)), (200 <? file_count d), (negb (has_minified d)),
    (has_types d), (has_license d), (has_tests d); simpl; lia.
Qed.
Lemma capability_factors_range report acc :
  (acc.2 - 65 ≤ (capability_factors report acc).2 ≤ acc.2)%Z.
Proof. unfold capability_factors, factor. repeat case_match; simpl; lia. Qed.
Lemma obfuscation_factors_le fs acc :
  (length fs ≤ 4000)%nat → ((obfuscation_factors fs acc).2 ≤ acc.2)%Z.
Proof.
  intros Hl. unfold obfuscation_factors.
  do 5 (etrans; [apply message_factor_le; [done|lia|lia]|]). done.
Qed.

(** (C40) Four critical findings are fatal: a package the analysis blocks, with at
    most 1092 findings of which at least four are critical, scores 0, grade F,
    whatever its directory and capabilities add. *)
Theorem critical_findings_are_fatal report d :
  overall_risk report = Critical →
  (length (findings report) ≤ 1092)%nat →
  (4 ≤ length (filter (λ f, risk f = Critical) (findings report)))%nat →
  score (compute_safety_score report d) = 0%Z ∧
  grade (compute_safety_score report d) = "F"%char.
Proof.
  intros Hr Hl Hc. set (fs := findings report) in *.
  assert ((raw_factors report d).2 ≤ 0)%Z as Hraw.
  { unfold raw_factors. fold fs.
    pose proof (directory_factors_range d (obfuscation_factors fs
      (capability_factors report (risk_factors fs ([], 100%Z))))) as H1.
    pose proof (obfuscation_factors_le fs
      (capability_factors report (risk_factors fs ([], 100%Z))) ltac:(lia)).
    pose proof (capability_factors_range report (risk_factors fs ([], 100%Z))).
    assert ((risk_factors fs ([], 100%Z)).2 ≤ -20)%Z; [|lia].
    unfold risk_factors. do 3 (etrans; [apply risk_factor_le; [done|lia]|]).
    unfold risk_factor. pose proof (count_risk_range Critical fs ltac:(lia)) as H4.
    assert (count_risk Critical fs
      = Z.of_nat (length (filter (λ f, risk f = Critical) fs))) as E.
    { unfold count_risk, wrap_u. apply Z.mod_small.
      pose proof (length_filter (λ f, risk f = Critical) fs).
      change (2 ^ 32)%Z with 4294967296%Z. lia. }
    rewrite risk_penalty_exact by lia. unfold factor.
    replace (0 <? count_risk Critical fs)%Z with true by lia. simpl. lia. }
  unfold compute_safety_score, apply_floor. rewrite Hr. simpl.
  replace (clampZ 0 100 (raw_factors report d).2) with 0%Z by (unfold clampZ; lia). done.
Qed.

(** The penalty wraps: with 1093 to 2180 critical findings (and no other,
    none of them an obfuscation) the [i16] product overflows into a bonus and the
    package scores 100, grade A, although it is to be blocked. *)
Theorem critical_penalty_overflow report d n :
  overall_risk report = Critical →
  Forall (λ f, kind f = DynamicExec ∧ risk f = Critical) (findings report) →
  length (findings report) = n → (1093 ≤ n ≤ 2180)%nat →
  score (compute_safety_score report d) = 100%Z ∧
  grade (compute_safety_score report d) = "A"%char.
Proof.
  intros Hr Hall Hn Hb. set (fs := findings report) in *.
  assert (∀ r, r ≠ Critical → count_risk r fs = 0%Z) as Hother.
  { intros r Hne. unfold count_risk. rewrite list_filter_none; [done|].
    eapply Forall_impl; [exact Hall|]. simpl. intros f [_ Hf]. congruence. }
  assert (∀ k m, k ≠ DynamicExec → count_message k m fs = 0%Z) as Hmsg.
  { intros k m Hne. unfold count_message. rewrite list_filter_none; [done|].
    eapply Forall_impl; [exact Hall|]. simpl. intros f [Hf _]. naive_solver. }
  assert (count_risk Critical fs = Z.of_nat n) as Hc.
  { unfold count_risk. rewrite list_filter_all by (eapply Forall_impl; [exact Hall|]; simpl; tauto).
    rewrite Hn. unfold wrap_u. apply Z.mod_small. change (2 ^ 32)%Z with 4294967296%Z. lia. }
  assert (risk_penalty (Z.of_nat n) 30 = 65536 - Z.of_nat n * 30)%Z as Hpen.
  { unfold risk_penalty. rewrite (to_i16_id (Z.of_nat n)) by lia.
    unfold wrap_s. change (2 ^ 16)%Z with 65536%Z. change (2 ^ (16 - 1))%Z with 32768%Z.
    rewrite (Z.mod_eq (Z.of_nat n * 30 + 32768)) by lia.
    assert ((Z.of_nat n * 30 + 32768) / 65536 = 1)%Z as -> by (Z.div_mod_to_equations; lia).
    rewrite Z.mod_small; lia. }
  assert (100 ≤ (raw_factors report d).2)%Z as Hraw.
  { unfold raw_factors. fold fs.
    pose proof (directory_factors_range d (obfuscation_factors fs
      (capability_factors report (risk_factors fs ([], 100%Z))))).
    assert (∀ acc, obfuscation_factors fs acc = acc) as E.
    { intros acc. unfold obfuscation_factors, message_factor. by rewrite !Hmsg. }
    rewrite E in *. pose proof (capability_factors_range report (risk_factors fs ([], 100%Z))).
    assert ((risk_factors fs ([], 100%Z)).2 = 100 + (65536 - Z.of_nat n * 30))%Z; [|lia].
    unfold risk_factors, risk_factor. rewrite (Hother High), (Hother Medium), (Hother Low) by done.
    rewrite Hc, Hpen. unfold factor. replace (0 <? Z.of_nat n)%Z with true by lia. done. }
  unfold compute_safety_score, apply_floor. rewrite Hr. simpl.
  replace (clampZ 0 100 (raw_factors report d).2) with 100%Z by (unfold clampZ; lia). done.
Qed.

(** ** Witnesses *)

Definition sample_finding (k : FindingKind) (r : RiskLevel) : Finding :=
  {| kind := k; risk := r; message := "m"; file := "index.js"; line := 1; snippet := None |}.
Definition sample_report (r : RiskLevel) (fs : list Finding) : AnalysisReport :=
  {| package_name := "p"; package_version := "1.0.0"; overall_risk := r; findings := fs;
     files_scanned := 1; lines_scanned := 1; capabilities := no_capabilities;
     verdict_reasons := [] |}.
Definition sample_dir : PackageDir :=
  {| exists_in n := bool_decide (n = "LICENSE");
     walk := [{| depth := 1; is_file := true; file_name := Some "index.js" |}] |}.

Lemma safety_score_spec_witness :
  let r := sample_report Info (replicate 3 (sample_finding Network High)) in
  (0 ≤ (raw_factors r sample_dir).2)%Z ∧ overall_risk r = Info ∧
  (75 ≤ score (compute_safety_score r sample_dir))%Z.
Proof.
  intros r. split; [by vm_compute|]. split; [reflexivity|].
  by apply (safety_score_spec r sample_dir).
Defined.

Lemma contextual_score_spec_witness :
  let r := sample_report High (replicate 9 (sample_finding Network High)) in
  let ctx := {| is_dev := false; weekly_downloads := 2000000; age_days := 900 |} in
  (1000000 ≤ weekly_downloads ctx)%Z ∧ has_critical r = false ∧
  grade (compute_safety_score_contextual r sample_dir ctx) = "A"%char.
Proof.
  intros r ctx. split; [by vm_compute|]. split; [reflexivity|].
  apply (contextual_score_spec r sample_dir ctx); [by vm_compute|reflexivity].
Defined.

Lemma critical_findings_are_fatal_witness :
  let r := sample_report Critical (replicate 4 (sample_finding DynamicExec Critical)) in
  overall_risk r = Critical ∧ length (findings r) = 4 ∧
  score (compute_safety_score r sample_dir) = 0%Z.
Proof.
  intros r. split; [reflexivity|]. split; [reflexivity|].
  apply (critical_findings_are_fatal r sample_dir); [reflexivity|simpl; lia|].
  vm_compute. lia.
Defined.

Lemma critical_penalty_overflow_witness :
  let r := sample_report Critical (replicate 1093 (sample_finding DynamicExec Critical)) in
  overall_risk r = Critical ∧ length (findings r) = 1093%nat ∧
  grade (compute_safety_score r sample_dir) = "A"%char.
Proof.
  intros r. split; [reflexivity|]. split; [apply length_replicate|].
  apply (critical_penalty_overflow r sample_dir 1093);
    [reflexivity | by apply Forall_replicate | apply length_replicate | lia].
Defined.
