(* ===== verification/Json.v ===== *)
(** * JSON values

    [serde_json::Value], as much of it as the program inspects. An object keeps
    the entries of its map by ascending key, which is how serde_json stores it. *)
From S2P Require Export RustStr.

Inductive Json :=
  | JNull
  | JBool (b : bool)
  | JNumber (text : string)
  | JString (s : string)
  | JArray (l : list Json)
  | JObject (m : list (string * Json)).

Fixpoint alist_get {A} (k : string) (l : list (string * A)) : option A :=
  match l with
  | [] => None
  | (k', a) :: l => if decide (k = k') then Some a else alist_get k l
  end.

(** [value.get(key)] and [value.as_str()] *)
Definition jget (k : string) (j : Json) : option Json :=
  match j with JObject m => alist_get k m | _ => None end.
Definition as_str (j : Json) : option string :=
  match j with JString s => Some s | _ => None end.

(** Induction with the hypothesis for every element and every entry. *)
Section induction.
Context (P : Json → Prop) (Hnull : P JNull) (Hbool : ∀ b, P (JBool b))
  (Hnumber : ∀ t, P (JNumber t)) (Hstring : ∀ s, P (JString s))
  (Harray : ∀ l, Forall P l → P (JArray l))
  (Hobject : ∀ m, Forall (λ e, P e.2) m → P (JObject m)).
Fixpoint Json_nested_ind (j : Json) : P j :=
  match j with
  | JNull => Hnull
  | JBool b => Hbool b
  | JNumber t => Hnumber t
  | JString s => Hstring s
  | JArray l =>
      Harray l ((fix go l : Forall P l :=
        match l with
        | [] => Forall_nil_2 P
        | j :: l => Forall_cons_2 P j l (Json_nested_ind j) (go l)
        end) l)
  | JObject m =>
      Hobject m ((fix go m : Forall (λ e : string * Json, P e.2) m :=
        match m with
        | [] => Forall_nil_2 _
        | e :: m => Forall_cons_2 (λ e : string * Json, P e.2) e m (Json_nested_ind e.2) (go m)
        end) m)
  end.
End induction.

(** Values as trees, which can be compared and counted. *)
Fixpoint json_tree (j : Json) : gen_tree (bool + string) :=
  match j with
  | JNull => GenNode 0 []
  | JBool b => GenNode 1 [GenLeaf (inl b)]
  | JNumber t => GenNode 2 [GenLeaf (inr t)]
  | JString s => GenNode 3 [GenLeaf (inr s)]
  | JArray l => GenNode 4 (json_tree <$> l)
  | JObject m => GenNode 5 ((λ '(k, v), GenNode 6 [GenLeaf (inr k); json_tree v]) <$> m)
  end.
Fixpoint tree_json (t : gen_tree (bool + string)) : Json :=
  match t with
  | GenNode 1 [GenLeaf (inl b)] => JBool b
  | GenNode 2 [GenLeaf (inr t)] => JNumber t
  | GenNode 3 [GenLeaf (inr s)] => JString s
  | GenNode 4 l => JArray (tree_json <$> l)
  | GenNode 5 l => JObject ((λ t, match t with
                                  | GenNode 6 [GenLeaf (inr k); v] => (k, tree_json v)
                                  | _ => ("", JNull)
                                  end) <$> l)
  | _ => JNull
  end.
Lemma tree_json_tree j : tree_json (json_tree j) = j.
Proof.
  induction j as [| | | |l IH|m IH] using Json_nested_ind; try done; simpl; f_equal.
  - induction IH as [|j l Hj _ IH]; [done|]. csimpl. by rewrite Hj, IH.
  - induction IH as [|[k v] m Hv _ IH]; [done|]. csimpl in *. by rewrite Hv, IH.
Qed.
#[export] Instance json_tree_inj : Inj (=) (=) json_tree.
Proof. intros j k H. by rewrite <- (tree_json_tree j), H, tree_json_tree. Qed.
#[export] Instance Json_eq_dec : EqDecision Json := inj_eq_dec json_tree.
#[export] Program Instance Json_countable : Countable Json := inj_countable' json_tree tree_json tree_json_tree.
