(* ===== verification/Paths.v ===== *)
(** * Paths (Unix)

    [std::path] as the program uses it: the components of a path, joining,
    parents, and the place a relative path leads to. *)
From S2P Require Export RustStr.

Inductive Component := RootDir | CurDir | ParentDir | Normal (part : string).
#[export] Instance Component_eq_dec : EqDecision Component.
Proof. solve_decision. Defined.

(** [Path::components]: repeated separators and inner [.] disappear; a leading
    [.] is kept. *)
Definition component_of (part : string) : list Component :=
  if decide (part = "") then []
  else if decide (part = ".") then []
  else if decide (part = "..") then [ParentDir]
  else [Normal part].
Definition components (p : string) : list Component :=
  let parts := split_char "/" p in
  match parts with
  | [] => []
  | first :: rest =>
      (if starts_with "/" p then [RootDir]
       else if decide (first = ".") then [CurDir] else component_of first)
      ++ mjoin (component_of <$> rest)
  end.

(** [a.join(b)]: an absolute [b] replaces [a]. *)
Definition pjoin (a b : string) : string :=
  if starts_with "/" b then b
  else if decide (a = "") then b
  else if ends_with "/" a then a +:+ b
  else a +:+ "/" +:+ b.

(** Where the components lead from a directory (the names below the root),
    without following symlinks: [..] goes to the parent, and stays at the root. *)
Definition step (cwd : list string) (c : Component) : list string :=
  match c with
  | RootDir => []
  | CurDir => cwd
  | ParentDir => removelast cwd
  | Normal n => cwd ++ [n]
  end.
Definition resolve (cwd : list string) (cs : list Component) : list string :=
  foldl step cwd cs.

(** [Path::with_extension], of a path that ends with a file name. *)
Definition file_stem (name : string) : string :=
  match rsplit_once "." name with
  | Some (before, _) => if decide (before = "") then name else before
  | None => name
  end.
Definition with_extension (path extension : string) : string :=
  match rsplit_once "/" path with
  | Some (directory, name) => directory +:+ "/" +:+ file_stem name +:+ "." +:+ extension
  | None => file_stem path +:+ "." +:+ extension
  end.

Definition is_normal (c : Component) : bool :=
  match c with Normal _ => true | _ => false end.
Definition names (cs : list Component) : list string :=
  omap (λ c, match c with Normal n => Some n | _ => None end) cs.

(** ** Lemmas *)

(** A name that is one component of a path. *)
Definition safe_name (n : string) : Prop :=
  n ≠ "" ∧ n ≠ "." ∧ n ≠ ".." ∧ has "/" n = false.

Lemma component_of_normal n : safe_name n → component_of n = [Normal n].
Proof. intros (?&?&?&_). unfold component_of. by rewrite !decide_False. Qed.
Lemma component_of_safe part n :
  Normal n ∈ component_of part → has "/" part = false → n = part ∧ safe_name n.
Proof.
  unfold component_of, safe_name. repeat case_decide; set_solver.
Qed.

Lemma starts_with_slash p : starts_with "/" p = false → ∀ r, p ≠ "/" +:+ r.
Proof. intros H r ->. rewrite (proj2 (starts_with_true _ _)) in H by eauto. done. Qed.

Lemma components_normal_safe p n : Normal n ∈ components p → safe_name n.
Proof.
  unfold components. pose proof (split_char_has "/" p) as Hs.
  destruct (split_char "/" p) as [|f rest]; [set_solver|].
  inversion_clear Hs as [|?? Hf Hr]. rewrite elem_of_app. intros [Hn|Hn].
  - destruct (starts_with "/" p); [set_solver|]. case_decide; [set_solver|].
    by apply component_of_safe in Hn as [_ ?].
  - apply list_elem_of_join in Hn as (l & Hl & (part & -> & Hp)%list_elem_of_fmap).
    apply component_of_safe in Hl as [_ ?]; [done|].
    rewrite Forall_forall in Hr. by apply Hr.
Qed.

Lemma components_name n : safe_name n → components n = [Normal n].
Proof.
  intros Hn. unfold components. rewrite split_char_none by apply Hn. simpl.
  destruct (starts_with "/" n) eqn:E.
  - apply starts_with_true in E as [r ->]. destruct Hn as (_&_&_&Hn).
    rewrite has_app in Hn. done.
  - rewrite decide_False by apply Hn. by rewrite component_of_normal.
Qed.

(** Relative paths of plain names. *)
Lemma components_join_names ns :
  ns ≠ [] → Forall safe_name ns → components (join "/" ns) = Normal <$> ns.
Proof.
  intros Hne Hns. unfold components.
  rewrite (split_join "/"); [|done|].
  2: { eapply Forall_impl; [exact Hns|]. by intros n (?&?&?&?). }
  destruct ns as [|n ns]; [done|]. inversion_clear Hns as [|?? Hn Hns'].
  assert (starts_with "/" (join "/" (n :: ns)) = false) as ->.
  { destruct (starts_with "/" (join "/" (n :: ns))) eqn:E; [|done].
    apply starts_with_true in E as [r Hr].
    destruct Hn as (Hn0&_&_&Hn). destruct n as [|a n]; [done|].
    assert (a = "/"%char) as ->.
    { destruct ns as [|m ns].
      - by injection Hr.
      - rewrite join_cons, str_app_cons in Hr. by injection Hr. }
    done. }
  rewrite decide_False by apply Hn. rewrite component_of_normal by done.
  csimpl. f_equal. clear -Hns'. induction Hns' as [|m ns Hm _ IH]; [done|].
  csimpl. rewrite component_of_normal by done. csimpl. by rewrite IH.
Qed.

Lemma resolve_normal cwd ns : resolve cwd (Normal <$> ns) = cwd ++ ns.
Proof.
  unfold resolve. revert cwd. induction ns as [|n ns IH]; intros cwd; csimpl.
  - by rewrite app_nil_r.
  - by rewrite IH, <- app_assoc.
Qed.
Lemma resolve_app cwd a b : resolve cwd (a ++ b) = resolve (resolve cwd a) b.
Proof. apply foldl_app. Qed.
Lemma resolve_up a b : resolve (a ++ b) (replicate (length b) ParentDir) = a.
Proof.
  induction b as [|x b IH] using rev_ind; [by rewrite app_nil_r|].
  rewrite length_app, Nat.add_comm. unfold resolve in *. simpl.
  rewrite app_assoc, removelast_last. apply IH.
Qed.

(** Components without [..] and without a root stay below where they start. *)
Lemma resolve_below cwd cs :
  Forall (λ c, c ≠ ParentDir ∧ c ≠ RootDir) cs → resolve cwd cs = cwd ++ names cs.
Proof.
  intros H. unfold resolve. revert cwd. induction H as [|c cs [Hp Hr] _ IH]; intros cwd; csimpl.
  - by rewrite app_nil_r.
  - rewrite IH. destruct c; try done. simpl. by rewrite <- app_assoc.
Qed.

(** ** Prefixes of a path *)

Lemma split_char_app_gen c a b :
  split_char c (a +:+ String c b) = split_char c a ++ split_char c b.
Proof.
  induction a as [|x a IH].
  - rewrite str_app_nil_l. simpl. by rewrite decide_True.
  - rewrite str_app_cons. simpl. rewrite IH. case_decide; [done|].
    by destruct (split_char_cons c a) as (p & ps & ->).
Qed.
Lemma last_separator c p :
  has c p = true → ∃ q l, p = q +:+ String c l ∧ has c l = false.
Proof.
  induction p as [|x p IH]; [done|]. intros H. destruct (has c p) eqn:E.
  - destruct IH as (q & l & -> & Hl); [done|]. by exists (String x q), l.
  - rewrite has_cons, E, orb_false_r in H. apply bool_decide_eq_true in H as <-.
    by exists "", p.
Qed.
Lemma components_root l : has "/" l = false → components ("/" +:+ l) = RootDir :: component_of l.
Proof.
  intros Hl. unfold components. change ("/" +:+ l) with (String "/" l).
  rewrite starts_with_char, bool_decide_true by done. simpl.
  rewrite split_char_none by done. csimpl. by rewrite app_nil_r.
Qed.
Lemma components_snoc q l :
  q ≠ "" → has "/" l = false → components (q +:+ String "/" l) = components q ++ component_of l.
Proof.
  intros Hq Hl. unfold components. rewrite split_char_app_gen, (split_char_none _ l) by done.
  destruct (split_char_cons "/" q) as (f & ps & ->). simpl app.
  destruct q as [|x q]; [done|]. rewrite str_app_cons, !starts_with_char.
  rewrite fmap_app, join_app. csimpl. by rewrite app_nil_r, app_assoc.
Qed.
Lemma component_of_length part : length (component_of part) ≤ 1.
Proof. unfold component_of. repeat case_decide; simpl; lia. Qed.

(** Every initial part of the components is the components of a prefix. *)
Lemma prefix_exists p k :
  (starts_with "/" p = true → 1 ≤ k) → k ≤ length (components p) →
  ∃ a b, p = a +:+ b ∧ components a = take k (components p).
Proof.
  remember (String.length p) as n eqn:Hn. revert p k Hn.
  induction n as [n IH] using lt_wf_ind. intros p k -> Hk1 Hk.
  destruct (decide (k = length (components p))) as [->|Hne].
  { exists p, "". by rewrite str_app_nil_r, firstn_all. }
  destruct (decide (k = 0)) as [->|Hk0]; [by exists "", p|].
  destruct (has "/" p) eqn:Hp.
  - destruct (last_separator _ _ Hp) as (q & l & -> & Hl).
    destruct (decide (q = "")) as [->|Hq].
    + rewrite str_app_nil_l in *. change (String "/" l) with ("/" +:+ l) in *.
      rewrite components_root in * by done. simpl in Hk, Hne.
      pose proof (component_of_length l). exists "/", l. split; [done|].
      assert (k = 1) as -> by lia. done.
    + rewrite components_snoc in * by done. rewrite length_app in Hk, Hne.
      pose proof (component_of_length l).
      destruct (IH (String.length q)) with (p := q) (k := k) as (a & b & -> & E); [|done|lia|lia|].
      { rewrite str_length_app. simpl. lia. }
      exists a, (b +:+ String "/" l). rewrite str_app_assoc. split; [done|].
      by rewrite take_app_le by lia.
  - exfalso. unfold components in Hk, Hne. rewrite split_char_none in Hk, Hne by done.
    simpl in Hk, Hne. rewrite app_nil_r in Hk, Hne. pose proof (component_of_length p).
    destruct (starts_with "/" p); [simpl in *; lia|]. case_decide; simpl in *; lia.
Qed.

(** Joining a relative path that does not begin with a dot. *)
Definition relative (b : string) : Prop := starts_with "/" b = false ∧ head (components b) ≠ Some CurDir.
Lemma components_relative b : relative b → mjoin (component_of <$> split_char "/" b) = components b.
Proof.
  intros [Hb Hc]. unfold components. destruct (split_char "/" b) as [|f rest] eqn:E; [done|]. rewrite Hb.
  case_decide as Hd; [|done]. exfalso. apply Hc. unfold components. by rewrite E, Hb, decide_True.
Qed.
Lemma components_app_slash q b :
  q ≠ "" → starts_with "/" b = false → head (components b) ≠ Some CurDir →
  components (q +:+ String "/" b) = components q ++ components b.
Proof.
  intros Hq Hb Hc. rewrite <- (components_relative b) by done. unfold components. rewrite split_char_app_gen.
  destruct (split_char_cons "/" q) as (f & ps & ->). simpl app.
  destruct q as [|x q]; [done|]. rewrite str_app_cons, !starts_with_char.
  by rewrite fmap_app, join_app, app_assoc.
Qed.
Lemma resolve_pjoin cwd a b : relative b → resolve cwd (components (pjoin a b)) = resolve (resolve cwd (components a)) (components b).
Proof.
  intros Hb. destruct Hb as [Hs Hc]. unfold pjoin. rewrite Hs. case_decide as Ha; [by subst a|].
  destruct (ends_with "/" a) eqn:He.
  - apply ends_with_true in He as [q ->]. destruct (decide (q = "")) as [->|Hq].
    + rewrite !str_app_nil_l. change ("/" +:+ b) with (String "/" b).
      assert (Hr : components (String "/" b) = RootDir :: components b).
      { rewrite <- (components_relative b) by done. unfold components. by rewrite (split_char_app_gen "/" "" b : split_char "/" (String "/" b) = _). }
      by rewrite Hr.
    + rewrite <- str_app_assoc, str_app_cons, str_app_nil_l.
      rewrite !components_app_slash by done. simpl. by rewrite app_nil_r, resolve_app.
  - change (a +:+ "/" +:+ b) with (a +:+ String "/" b). by rewrite components_app_slash, resolve_app.
Qed.
