(* ===== verification/Store.v ===== *)
(** * oath-store: the content-addressable store ([cas.rs])

    Where a package's files live, the manifest that fingerprints them, and how an
    entry is built aside, validated and moved into place. *)
From S2P Require Export Json Paths.

(** ** Names of store directories *)

Definition safe_char (a : ascii) : bool :=
  is_upper a || is_lower a || is_digit a
  || bool_decide (a ∈ [".";"_";"-";"@";"+"]%char).

Fixpoint encode (s : string) : string :=
  match s with
  | EmptyString => ""
  | String a s =>
      (if safe_char a then String a "" else "%" +:+ hex_byte a) +:+ encode s
  end.
Definition safe_path_component (input : string) : string :=
  if decide (input = "") then "_"
  else
    let out := encode input in
    if decide (out = ".") then "%2E"
    else if decide (out = "..") then "%2E%2E"
    else out.

Definition STORE_MANIFEST_FILE : string := ".oath-store-manifest.json".
Definition STORE_MANIFEST_SCHEMA_VERSION : Z := 1.

(** Directories, as the names below the store root. *)
Definition package_name_dir (name : string) : list string :=
  [safe_path_component (replace_char "/" "+" name)].
Definition package_dir (name version : string) : list string :=
  package_name_dir name ++ [safe_path_component version].
Definition variant_parent (name version : string) : list string :=
  [".variants"; safe_path_component (replace_char "/" "+" name); safe_path_component version].

Definition identity (resolved_url lock_integrity : option string) : string :=
  "resolved=" +:+ default "" resolved_url +:+ String newline "integrity="
  +:+ default "" lock_integrity.

(** ** File trees

    A directory on disk: entries in [read_dir] order, with distinct names. *)
Inductive Tree :=
  | File (data : string)
  | Special
  | Dir (entries : list (string * Tree)).

(** The package directories of the store, each with its tree. *)
Notation Store := (gmap (list string) Tree).

Record StoreManifestFile := { mpath : string; bytes : Z; blake3 : string }.
#[export] Instance StoreManifestFile_eq_dec : EqDecision StoreManifestFile.
Proof. solve_decision. Defined.

Record StoreManifest := {
  schema_version : Z;
  name : string;
  version : string;
  lock_integrity : option string;
  resolved_url : option string;
  package_json_name : string;
  package_json_version : string;
  file_count : Z;
  byte_count : Z;
  blake3_tree : list StoreManifestFile;
}.

Inductive PackageVerification :=
  | Verified (m : StoreManifest)
  | Missing
  | Corrupt (reason : string).
Definition is_verified (v : PackageVerification) : bool :=
  match v with Verified _ => true | _ => false end.

(** BLAKE3 in hexadecimal, serde_json's reader, and the manifest's JSON form. *)
Class StoreLib := {
  blake3_hex : string → string;
  parse_json : string → option Json;
  manifest_to_vec : StoreManifest → string;
  manifest_from_slice : string → option StoreManifest;
}.
(** What is documented of them: serde reads back what it wrote. *)
Class StoreLibLaws `{!StoreLib} := {
  manifest_roundtrip m : manifest_from_slice (manifest_to_vec m) = Some m;
}.

Section store.
Context `{!StoreLib}.

Definition package_dir_for (name version : string) (resolved_url lock_integrity : option string) :
    list string :=
  match resolved_url, lock_integrity with
  | None, None => package_dir name version
  | _, _ => variant_parent name version ++ [blake3_hex (identity resolved_url lock_integrity)]
  end.

(** [copy_dir_recursive]: the copy, or the refusal of a non-regular entry. *)
Fixpoint copy_tree (t : Tree) : result string Tree :=
  match t with
  | File d => Ok (File d)
  | Special => Err "refusing to store non-regular package entry"
  | Dir es =>
      Dir <$> (fix copy_all es :=
        match es with
        | [] => Ok []
        | (n, t) :: es => t' ← copy_tree t; es' ← copy_all es; Ok ((n, t') :: es')
        end) es
  end.

Definition entries (t : Tree) : list (string * Tree) :=
  match t with Dir es => es | _ => [] end.

(** Files of a directory read by name, in the order of their names. *)
Definition by_name {A} (a b : string * A) : Prop := String.le a.1 b.1.
#[export] Instance by_name_dec {A} : RelDecision (@by_name A).
Proof. intros a b. apply String.le_dec. Defined.
Definition by_path (a b : StoreManifestFile) : Prop := String.le (mpath a) (mpath b).
#[export] Instance by_path_dec : RelDecision by_path.
Proof. intros a b. apply String.le_dec. Defined.

(** [manifest_relative_path]: names of the walk are plain components. *)
Definition manifest_relative_path (parts : list string) : result string string :=
  if forallb valid_utf8 parts then Ok (join "/" parts) else Err "non-UTF-8 store path".

(** Results of the entries, in order, up to the first error. *)
Fixpoint collect_results {A} (l : list (string * result string (list A))) :
    result string (list A) :=
  match l with
  | [] => Ok []
  | (_, r) :: l => xs ← r; ys ← collect_results l; Ok (xs ++ ys)
  end.

(** [collect_file_tree] on one entry: [parts] is its path below the root. *)
Fixpoint collect_entry (parts : list string) (t : Tree) : result string (list StoreManifestFile) :=
  match t with
  | File data =>
      if decide (last parts = Some STORE_MANIFEST_FILE) then Ok []
      else
        relative ← manifest_relative_path parts;
        Ok [{| mpath := relative; bytes := Z.of_nat (String.length data);
               blake3 := blake3_hex data |}]
  | Special => Err "refusing special file in store"
  | Dir es =>
      collect_results (merge_sort by_name
        ((fix go es := match es with
          | [] => []
          | (n, t) :: es => (n, collect_entry (parts ++ [n]) t) :: go es
          end) es))
  end.
Definition build_file_tree (dir : Tree) : result string (list StoreManifestFile) :=
  merge_sort by_path <$> collect_entry [] dir.

Definition read_file (dir : Tree) (n : string) : option string :=
  match alist_get n (entries dir) with Some (File d) => Some d | _ => None end.

Definition version_matches (package_json_version version : string) : bool :=
  let package_version := default package_json_version (strip_prefix "v" package_json_version) in
  bool_decide (package_version = version)
  || match strip_prefix version package_version with
     | Some suffix => starts_with "+" suffix && (1 <? String.length suffix)
     | None => false
     end.

Definition json_field (j : Json) (k : string) : string :=
  default "" (v ← jget k j; as_str v).

Definition build_manifest (nm ver : string) (url integ : option string) (dir : Tree) :
    result string StoreManifest :=
  text ← ok_or (read_file dir "package.json") "package store entry missing package.json";
  package_json ← ok_or (parse_json text) "package.json in store is not valid JSON";
  let pname := json_field package_json "name" in
  let pversion := json_field package_json "version" in
  _ ← ensure (bool_decide (pname = nm) && version_matches pversion ver) "package.json mismatch";
  tree ← build_file_tree dir;
  Ok {| schema_version := STORE_MANIFEST_SCHEMA_VERSION;
        name := nm; version := ver;
        lock_integrity := integ; resolved_url := url;
        package_json_name := pname; package_json_version := pversion;
        file_count := Z.of_nat (length tree);
        byte_count := foldr Z.add 0%Z (bytes <$> tree);
        blake3_tree := tree |}.

(** [expected] is checked only when the caller has one. *)
Definition matches_expected (expected found : option string) : bool :=
  match expected with Some e => bool_decide (found = Some e) | None => true end.

(** [validate_manifest]; [Err None] is [Missing], [Err (Some r)] is [Corrupt r]. *)
Definition validate_manifest (nm ver : string) (url integ : option string)
    (dir : option Tree) : result (option string) StoreManifest :=
  t ← ok_or dir None;
  _ ← ensure (bool_decide (is_Some (alist_get STORE_MANIFEST_FILE (entries t))))
        (Some "missing store manifest");
  data ← ok_or (read_file t STORE_MANIFEST_FILE) (Some "could not read manifest");
  manifest ← ok_or (manifest_from_slice data) (Some "malformed store manifest");
  _ ← ensure (bool_decide (schema_version manifest = STORE_MANIFEST_SCHEMA_VERSION))
        (Some "unsupported store manifest schema");
  _ ← ensure (bool_decide (name manifest = nm) && bool_decide (version manifest = ver))
        (Some "manifest package mismatch");
  _ ← ensure (matches_expected integ (lock_integrity manifest))
        (Some "manifest lock integrity mismatch");
  _ ← ensure (matches_expected url (resolved_url manifest))
        (Some "manifest resolved URL mismatch");
  rebuilt ← match build_manifest nm ver (resolved_url manifest) (lock_integrity manifest) t with
            | Ok r => Ok r
            | Err e => Err (Some e)
            end;
  _ ← ensure (bool_decide (package_json_name rebuilt = package_json_name manifest)
              && bool_decide (package_json_version rebuilt = package_json_version manifest))
        (Some "package.json name/version changed");
  _ ← ensure (bool_decide (file_count rebuilt = file_count manifest)
              && bool_decide (byte_count rebuilt = byte_count manifest)
              && bool_decide (blake3_tree rebuilt = blake3_tree manifest))
        (Some "BLAKE3 file tree mismatch");
  Ok manifest.

Definition verify_package_at (nm ver : string) (url integ : option string)
    (dir : option Tree) : PackageVerification :=
  match validate_manifest nm ver url integ dir with
  | Ok m => Verified m
  | Err None => Missing
  | Err (Some r) => Corrupt r
  end.

(** *** Storing

    The store is a map from package directories to their trees. What the file
    system and other processes do during a call is its environment: a fault while the
    entry is read, which is reported as a missing or a corrupt entry; what others make
    of the entry between the verification and the removal, between the removal and the
    rename, and between a rename that failed and the look at the winner; whether the
    removal of a corrupt entry is complete, and what it leaves otherwise; whether the
    preparation of the temporary directory and the rename succeed. Reading an entry,
    removing it and moving it into place are a step each. *)
Record Env := {
  misread : option (option string);
  before_removal : option Tree → option Tree;
  removal : option (option Tree → option Tree);
  prepare_ok : bool;
  before_rename : option Tree → option Tree;
  rename_ok : bool;
  before_check : option Tree → option Tree;
  misread_winner : bool;
}.
Definition others (f : option Tree → option Tree) (dir : list string) (st : Store) : Store :=
  partial_alter f dir st.

Fixpoint set_file (n d : string) (es : list (string * Tree)) : result string (list (string * Tree)) :=
  match es with
  | [] => Ok [(n, File d)]
  | (n', t) :: es =>
      if decide (n' = n) then
        match t with File _ => Ok ((n, File d) :: es) | _ => Err "failed to write store manifest" end
      else es' ← set_file n d es; Ok ((n', t) :: es')
  end.
(** [std::fs::write(dir.join(n), d)] *)
Definition write_file (n d : string) (t : Tree) : result string Tree :=
  match t with Dir es => Dir <$> set_file n d es | _ => Err "not a directory" end.

(** The closure that fills the temporary directory. *)
Definition build_entry (nm ver : string) (url integ : option string) (extracted : Tree) :
    result string Tree :=
  temp ← copy_tree extracted;
  manifest ← build_manifest nm ver url integ temp;
  temp ← write_file STORE_MANIFEST_FILE (manifest_to_vec manifest) temp;
  match validate_manifest nm ver url integ (Some temp) with
  | Ok _ => Ok temp
  | Err None => Err "newly written store entry is missing"
  | Err (Some r) => Err ("newly written store entry is corrupt: " +:+ r)
  end.

(** A directory can be renamed onto nothing or onto an empty directory. *)
Definition can_replace (target : option Tree) : bool :=
  match target with None | Some (Dir []) => true | _ => false end.

(** What the first verification says. *)
Definition first_verdict (env : Env) (nm ver : string) (url integ : option string) (e : option Tree) :
    PackageVerification :=
  match misread env with
  | None => verify_package_at nm ver url integ e
  | Some None => Missing
  | Some (Some reason) => Corrupt reason
  end.
(** Nothing fails and nobody interferes. *)
Definition quiet : Env := {|
  misread := None; before_removal := id; removal := None; prepare_ok := true; before_rename := id;
  rename_ok := true; before_check := id; misread_winner := false |}.
(** From the temporary directory on. *)
Definition install_entry (nm ver : string) (url integ : option string) (extracted : Tree)
    (dir : list string) (env : Env) (st : Store) : result string (list string) * Store :=
  if negb (prepare_ok env) then (Err "failed to create store temp dir", st)
  else
    match build_entry nm ver url integ extracted with
    | Err e => (Err e, st)
    | Ok temp =>
        let st := others (before_rename env) dir st in
        if rename_ok env && can_replace (st !! dir) then (Ok dir, <[dir := temp]> st)
        else
          let st := others (before_check env) dir st in
          if negb (misread_winner env) && is_verified (verify_package_at nm ver url integ (st !! dir))
          then (Ok dir, st)
          else (Err "failed to atomically install store dir", st)
    end.
Definition store_package_at (nm ver : string) (url integ : option string) (extracted : Tree)
    (dir : list string) (env : Env) (st : Store) : result string (list string) * Store :=
  match first_verdict env nm ver url integ (st !! dir) with
  | Verified _ => (Ok dir, st)
  | Missing => install_entry nm ver url integ extracted dir env st
  | Corrupt _ =>
      let st := others (before_removal env) dir st in
      match removal env with
      | None => install_entry nm ver url integ extracted dir env (delete dir st)
      | Some remains => (Err "failed to remove corrupt store dir", others remains dir st)
      end
  end.

Definition store_package_with_manifest (nm ver : string) (url integ : option string)
    (extracted : Tree) : Env → Store → result string (list string) * Store :=
  store_package_at nm ver url integ extracted (package_dir nm ver).
Definition store_package (nm ver : string) (extracted : Tree) :
    Env → Store → result string (list string) * Store :=
  store_package_with_manifest nm ver None None extracted.
Definition store_package_variant_with_manifest (nm ver : string) (url integ : option string)
    (extracted : Tree) : Env → Store → result string (list string) * Store :=
  store_package_at nm ver url integ extracted (package_dir_for nm ver url integ).

Definition verify_package (st : Store) (nm ver : string) (integ : option string) :
    PackageVerification :=
  verify_package_at nm ver None integ (st !! package_dir nm ver).
Definition has_package (st : Store) (nm ver : string) : bool :=
  is_verified (verify_package st nm ver None).
Definition verify_package_variant (st : Store) (nm ver : string) (url integ : option string) :
    PackageVerification :=
  verify_package_at nm ver url integ (st !! package_dir_for nm ver url integ).

Definition remove_package (nm ver : string) (st : Store) : Store :=
  filter (λ '(d, _), d ≠ package_dir nm ver ∧ ¬ variant_parent nm ver `prefix_of` d) st.
End store.

(** ** Directory names *)

Lemma encode_app a b : encode (a +:+ b) = encode a +:+ encode b.
Proof.
  induction a as [|x a IH]; [done|].
  rewrite str_app_cons. simpl. by rewrite IH, str_app_assoc.
Qed.

(** Decides a property of all bytes by evaluation. *)
Definition all_bytes (P : ascii → bool) : bool :=
  forallb (λ n, P (ascii_of_nat n)) (seq 0 256).
Lemma all_bytes_true P a : all_bytes P = true → P a = true.
Proof.
  unfold all_bytes. rewrite forallb_forall. intros H.
  rewrite <- (ascii_nat_embedding a). apply H, in_seq.
  pose proof (nat_ascii_bounded a). lia.
Qed.

Definition encode_char (a : ascii) : string := if safe_char a then String a "" else "%" +:+ hex_byte a.
Lemma encode_cons a s : encode (String a s) = encode_char a +:+ encode s.
Proof. done. Qed.

(** Encoded characters are told apart by their own text: one safe character, or a
    percent sign and two digits. *)
Definition decode_first (s : string) : option (ascii * string) :=
  match s with
  | String c rest =>
      if decide (c = "%"%char) then
        match rest with
        | String h (String l rest) =>
            let digit x := if is_digit x then (N_of_ascii x - 48)%N else (N_of_ascii x - 55)%N in
            Some (ascii_of_N (digit h * 16 + digit l), rest)
        | _ => None
        end
      else Some (c, rest)
  | EmptyString => None
  end.
Definition decodable (a : ascii) : bool :=
  (bool_decide (encode_char a = String a "") && bool_decide (a ≠ "%"%char))
  || match encode_char a with
     | String p (String h (String l "")) =>
         bool_decide (p = "%"%char) && bool_decide (decode_first (encode_char a) = Some (a, ""))
     | _ => false
     end.
Lemma decode_encode_char a s : decode_first (encode_char a +:+ s) = Some (a, s).
Proof.
  assert (decodable a = true) as H by (apply all_bytes_true; by vm_compute).
  unfold decodable in H. apply orb_true_iff in H as [H|H].
  - apply andb_true_iff in H as [H1%bool_decide_eq_true H2%bool_decide_eq_true].
    rewrite H1, str_app_cons, str_app_nil_l. simpl. by rewrite decide_False.
  - destruct (encode_char a) as [|p [|h [|l [|]]]]; try done.
    apply andb_true_iff in H as [->%bool_decide_eq_true H2%bool_decide_eq_true].
    rewrite !str_app_cons, str_app_nil_l. simpl in *. by injection H2 as ->.
Qed.
#[export] Instance encode_inj : Inj (=) (=) encode.
Proof.
  intros a. induction a as [|x a IH]; intros [|y b]; try done.
  - rewrite encode_cons. intros H. pose proof (decode_encode_char y (encode b)) as D.
    by rewrite <- H in D.
  - rewrite encode_cons. intros H. pose proof (decode_encode_char x (encode a)) as D.
    by rewrite H in D.
  - rewrite !encode_cons. intros H. pose proof (decode_encode_char x (encode a)) as D.
    rewrite H, decode_encode_char in D. injection D as -> E. f_equal. by apply IH.
Qed.

Definition component_char (a : ascii) : bool := safe_char a || bool_decide (a = "%"%char).
Lemma encode_chars s : forallb component_char (chars (encode s)) = true.
Proof.
  induction s as [|a s IH]; [done|].
  rewrite encode_cons, chars_app, forallb_app, IH, andb_true_r.
  apply (all_bytes_true (λ a, forallb component_char (chars (encode_char a)))).
  by vm_compute.
Qed.

Lemma component_char_not_slash : component_char "/"%char = false.
Proof. done. Qed.
Lemma encode_nil s : encode s = "" → s = "".
Proof. intros H. by apply (inj encode). Qed.

Lemma safe_path_component_cases s :
  safe_path_component s =
  if decide (s = "") then "_" else if decide (s = ".") then "%2E"
  else if decide (s = "..") then "%2E%2E" else encode s.
Proof.
  assert (encode s = "." ↔ s = ".") as E1
    by (change "." with (encode ".") at 1; split; [apply (inj encode)|by intros ->]).
  assert (encode s = ".." ↔ s = "..") as E2
    by (change ".." with (encode "..") at 1; split; [apply (inj encode)|by intros ->]).
  unfold safe_path_component. simpl. by rewrite (decide_ext _ _ _ _ E1), (decide_ext _ _ _ _ E2).
Qed.

Lemma encode_safe_name s : s ≠ "" → s ≠ "." → s ≠ ".." → safe_name (encode s).
Proof.
  intros H0 H1 H2. unfold safe_name. split_and!.
  - by intros ->%encode_nil.
  - change "." with (encode "."). by intros ?%(inj encode).
  - change ".." with (encode ".."). by intros ?%(inj encode).
  - unfold has. apply bool_decide_eq_false. intros Hin.
    pose proof (encode_chars s) as Hc. rewrite forallb_forall in Hc.
    apply list_elem_of_In in Hin. by apply Hc in Hin.
Qed.
Lemma safe_path_component_safe s : safe_name (safe_path_component s).
Proof.
  rewrite safe_path_component_cases. repeat case_decide.
  - by split_and!.
  - by split_and!.
  - by split_and!.
  - by apply encode_safe_name.
Qed.
Lemma encode_not_escape s p : encode s = "%2E" +:+ p → False.
Proof.
  intros H. destruct s as [|a s]; [done|]. rewrite encode_cons in H.
  pose proof (decode_encode_char a (encode s)) as D. rewrite H in D.
  change (decode_first ("%2E" +:+ p)) with (Some ("."%char, p)) in D.
  injection D as <- ->. change (encode_char ".") with "." in H. done.
Qed.
Lemma safe_path_component_inj a b :
  a ≠ "" → b ≠ "" → safe_path_component a = safe_path_component b → a = b.
Proof.
  intros Ha Hb. rewrite !safe_path_component_cases.
  rewrite (decide_False (P := a = "")), (decide_False (P := b = "")) by done.
  repeat case_decide; subst; try done.
  - intros E. symmetry in E. by apply (encode_not_escape b "") in E.
  - intros E. symmetry in E. by apply (encode_not_escape b "%2E") in E.
  - intros E. by apply (encode_not_escape a "") in E.
  - intros E. by apply (encode_not_escape a "%2E") in E.
  - apply (inj encode).
Qed.

Lemma replace_slash_inj a b :
  has "+" a = false → has "+" b = false →
  replace_char "/" "+" a = replace_char "/" "+" b → a = b.
Proof.
  revert b. induction a as [|x a IH]; intros [|y b] Ha Hb; simpl; try done.
  - case_decide; done.
  - case_decide; done.
  - unfold has in *. simpl in Ha, Hb.
    apply bool_decide_eq_false in Ha, Hb. rewrite elem_of_cons in Ha, Hb.
    intros E. assert (x = y ∧ replace_char "/" "+" a = replace_char "/" "+" b) as [-> E'].
    { repeat case_decide; subst; rewrite !str_app_cons, !str_app_nil_l in E;
        injection E; naive_solver. }
    f_equal. apply IH; [..|done]; apply bool_decide_eq_false; naive_solver.
Qed.
Lemma replace_slash_nil a : replace_char "/" "+" a = "" → a = "".
Proof. destruct a as [|x a]; [done|]. simpl. by case_decide. Qed.

Lemma identity_inj u i u' i' :
  has newline (default "" u) = false → has newline (default "" u') = false →
  identity u i = identity u' i' → default "" u = default "" u' ∧ default "" i = default "" i'.
Proof.
  intros Hu Hu' H. unfold identity in H. apply str_app_inj_l in H.
  assert (∀ u i, has newline u = false →
    split_once newline (u +:+ String newline "integrity=" +:+ i) = Some (u, "integrity=" +:+ i)) as S.
  { intros a b Ha. apply split_once_Some. by rewrite str_app_cons. }
  pose proof (S _ (default "" i) Hu) as E. rewrite H, S in E by done.
  injection E as -> E. split; [done|]. symmetry. by repeat injection E as E.
Qed.

(** Store directories: for every package name and version, hostile ones
    included, the directory is the store root followed by plain names (no
    separator, no [.] or [..]), so it cannot leave the store; and distinct
    packages have distinct directories, provided names and versions are not empty
    and names do not hold a [+] (which the separator is mapped to). With an
    injective hash the variants of a package are told apart by URL and integrity,
    an absent one counting as empty. *)
Theorem package_dir_spec `{!StoreLib} n v n' v' u i u' i' :
  Forall safe_name (package_dir n v) ∧
  Forall safe_name (variant_parent n v) ∧
  (n ≠ "" → n' ≠ "" → v ≠ "" → v' ≠ "" → has "+" n = false → has "+" n' = false →
     (package_dir n v = package_dir n' v' → n = n' ∧ v = v') ∧
     (Inj (=) (=) blake3_hex →
      has newline (default "" u) = false → has newline (default "" u') = false →
      package_dir_for n v u i = package_dir_for n' v' u' i' →
      n = n' ∧ v = v' ∧ default "" u = default "" u' ∧ default "" i = default "" i')).
Proof.
  assert (∀ s, safe_name (safe_path_component s)) as Hsafe by apply safe_path_component_safe.
  split; [by repeat apply Forall_cons_2; try apply Forall_nil_2|].
  split; [by repeat apply Forall_cons_2; try apply Forall_nil_2|].
  intros Hn Hn' Hv Hv' Hp Hp'.
  assert (∀ l, replace_char "/" "+" l ≠ "" ↔ l ≠ "") as Hr.
  { intros l. split; [by intros Hl ->|]. by intros Hl ?%replace_slash_nil. }
  assert (safe_path_component (replace_char "/" "+" n)
          = safe_path_component (replace_char "/" "+" n') → n = n') as Hname.
  { intros E%safe_path_component_inj; [|by apply Hr..]. by apply replace_slash_inj. }
  assert (safe_path_component v = safe_path_component v' → v = v') as Hver
    by (by apply safe_path_component_inj).
  assert (package_dir n v = package_dir n' v' → n = n' ∧ v = v') as Hdir.
  { intros [= E1 E2]. auto. }
  split; [done|]. intros Hinj Hu Hu'.
  assert (variant_parent n v ++ [blake3_hex (identity u i)]
          = variant_parent n' v' ++ [blake3_hex (identity u' i')] →
          n = n' ∧ v = v' ∧ default "" u = default "" u' ∧ default "" i = default "" i') as Hvar.
  { intros [= E1 E2 E3]. apply (inj blake3_hex) in E3. apply identity_inj in E3 as [??]; auto. }
  unfold package_dir_for.
  destruct u as [u|], i as [i|], u' as [u'|], i' as [i'|]; try exact Hvar; try done.
  intros E. destruct (Hdir E). done.
Qed.

(** ** What a manifest covers *)

Lemma Tree_ind' (P : Tree → Prop) :
  (∀ d, P (File d)) → P Special → (∀ es, Forall (λ e, P e.2) es → P (Dir es)) → ∀ t, P t.
Proof.
  intros Hf Hs Hd. fix IH 1. intros [d| |es]; [apply Hf|apply Hs|]. apply Hd.
  induction es as [|[n t] es IHes]; constructor; [apply IH|done].
Qed.

(** The regular files of a tree, with their paths, but those named like the
    manifest, at any depth. *)
Fixpoint covered (parts : list string) (t : Tree) : list (string * string) :=
  match t with
  | File data =>
      if decide (last parts = Some STORE_MANIFEST_FILE) then [] else [(join "/" parts, data)]
  | Special => []
  | Dir es =>
      (fix go es := match es with
        | [] => []
        | (n, t) :: es => covered (parts ++ [n]) t ++ go es
        end) es
  end.

Section covered.
Context `{!StoreLib}.
Implicit Types (nm ver : string) (url integ : option string) (extracted t : Tree).

Definition file_entry (f : string * string) : StoreManifestFile :=
  {| mpath := f.1; bytes := Z.of_nat (String.length f.2); blake3 := blake3_hex f.2 |}.

Definition collect_all (parts : list string) (es : list (string * Tree)) :
    list (string * result string (list StoreManifestFile)) :=
  (λ e, (e.1, collect_entry (parts ++ [e.1]) e.2)) <$> es.
Definition covered_all (parts : list string) (es : list (string * Tree)) :
    list (string * string) :=
  es ≫= λ e, covered (parts ++ [e.1]) e.2.

Lemma collect_entry_Dir parts es :
  collect_entry parts (Dir es) = collect_results (merge_sort by_name (collect_all parts es)).
Proof.
  simpl. do 2 f_equal. unfold collect_all. induction es as [|[n t] es IH]; csimpl; congruence.
Qed.
Lemma covered_Dir parts es : covered parts (Dir es) = covered_all parts es.
Proof. simpl. unfold covered_all. induction es as [|[n t] es IH]; csimpl; congruence. Qed.

Lemma collect_results_Ok {A} (l : list (string * result string (list A))) xs :
  collect_results l = Ok xs →
  ∃ yss, Forall2 (λ r ys, r.2 = Ok ys) l yss ∧ xs = mjoin yss.
Proof.
  revert xs. induction l as [|[n r] l IH]; intros xs; csimpl.
  - intros [= <-]. by exists [].
  - intros (ys & Hr & (zs & Hl & Hxs)%bind_Ok)%bind_Ok. injection Hxs as <-.
    destruct (IH zs Hl) as (yss & HF & ->). exists (ys :: yss). by split; [constructor|].
Qed.

Lemma mjoin_perm {A} (a b : list (list A)) : a ≡ₚ b → mjoin a ≡ₚ mjoin b.
Proof. by intros ->. Qed.

Lemma collect_covered t : ∀ parts l,
  collect_entry parts t = Ok l → l ≡ₚ file_entry <$> covered parts t.
Proof.
  induction t as [d| |es IH] using Tree_ind'; intros parts l.
  - simpl. case_decide; [by intros [= <-]|].
    intros (r & Hr & E)%bind_Ok. injection E as <-. unfold manifest_relative_path in Hr.
    destruct (forallb valid_utf8 parts); [|done]. by injection Hr as <-.
  - done.
  - rewrite collect_entry_Dir, covered_Dir.
    intros (yss & HF & ->)%collect_results_Ok.
    pose proof (merge_sort_Permutation by_name (collect_all parts es)) as HP.
    destruct (Permutation_Forall2 HP HF) as (yss' & HP' & HF').
    rewrite (mjoin_perm _ _ HP'). clear HP HF HP' yss.
    revert yss' HF'. induction IH as [|[n t] es Ht _ IHes]; intros yss HF.
    + by apply Forall2_nil_inv_l in HF as ->.
    + apply Forall2_cons_inv_l in HF as (ys & yss' & Hys & HF & ->).
      unfold covered_all in *. csimpl in *. rewrite fmap_app.
      by rewrite (Ht _ _ Hys), (IHes _ HF).
Qed.

Lemma build_file_tree_covered t l :
  build_file_tree t = Ok l → l ≡ₚ file_entry <$> covered [] t.
Proof.
  intros (l' & Hl & ->)%fmap_Ok. rewrite merge_sort_Permutation. by apply collect_covered.
Qed.

Lemma validate_manifest_Ok nm ver url integ dir m :
  validate_manifest nm ver url integ dir = Ok m →
  ∃ t, dir = Some t ∧ name m = nm ∧ version m = ver ∧
    (∀ e, url = Some e → resolved_url m = Some e) ∧
    (∀ e, integ = Some e → lock_integrity m = Some e) ∧
    build_file_tree t = Ok (blake3_tree m).
Proof.
  unfold validate_manifest. intros Hv.
  apply bind_Ok in Hv as (t & Ht & Hv). apply ok_or_Ok in Ht as ->.
  do 3 apply bind_Ok in Hv as (? & _ & Hv). rename x1 into m'.
  apply bind_Ok in Hv as (? & _ & Hv).
  apply bind_Ok in Hv as (? & Hn & Hv). apply ensure_Ok, andb_true_iff in Hn as [Hn Hvs].
  apply bool_decide_eq_true in Hn, Hvs.
  apply bind_Ok in Hv as (? & Hi & Hv). apply ensure_Ok in Hi.
  apply bind_Ok in Hv as (? & Hu & Hv). apply ensure_Ok in Hu.
  apply bind_Ok in Hv as (r & Hr & Hv).
  apply bind_Ok in Hv as (? & _ & Hv).
  apply bind_Ok in Hv as (? & Hb & Hv). apply ensure_Ok, andb_true_iff in Hb as [_ Hb].
  apply bool_decide_eq_true in Hb. injection Hv as ->.
  exists t. split_and!; [done..| | |].
  - intros e ->. by apply bool_decide_eq_true in Hu.
  - intros e ->. by apply bool_decide_eq_true in Hi.
  - destruct (build_manifest _ _ _ _ t) as [r'|] eqn:E; [|done]. injection Hr as ->.
    unfold build_manifest in E.
    apply bind_Ok in E as (? & _ & E). apply bind_Ok in E as (? & _ & E).
    apply bind_Ok in E as (? & _ & E). apply bind_Ok in E as (tree & Htree & E).
    injection E as <-. simpl in Hb. by subst.
Qed.

Lemma verify_Verified nm ver url integ dir m :
  verify_package_at nm ver url integ dir = Verified m →
  validate_manifest nm ver url integ dir = Ok m.
Proof. unfold verify_package_at. by destruct (validate_manifest _ _ _ _ dir) as [?|[]]; intros [= ->]. Qed.

Lemma file_entry_inj : Inj (=) (=) blake3_hex → Inj (=) (=) file_entry.
Proof. intros Hinj [p d] [p' d'] [= -> _ E%(inj blake3_hex)]. by subst. Qed.

(** A verified entry is what its manifest says: it is for the package asked
    for, from the URL and with the integrity asked for (when the caller has them),
    and its files are those fingerprinted: with an injective hash, two trees that
    verify with the same manifest have the same covered files, path and content.
    Covered are all regular files but those named [.oath-store-manifest.json], at
    any depth. *)
Theorem verified_entry_spec nm ver url integ t m :
  verify_package_at nm ver url integ (Some t) = Verified m →
  name m = nm ∧ version m = ver ∧
  (∀ e, url = Some e → resolved_url m = Some e) ∧
  (∀ e, integ = Some e → lock_integrity m = Some e) ∧
  blake3_tree m ≡ₚ file_entry <$> covered [] t ∧
  (∀ url' integ' t', Inj (=) (=) blake3_hex →
     verify_package_at nm ver url' integ' (Some t') = Verified m →
     covered [] t' ≡ₚ covered [] t).
Proof.
  intros Hv. apply verify_Verified, validate_manifest_Ok in Hv
    as (t0 & [= <-] & Hn & Hvs & Hu & Hi & Hb).
  apply build_file_tree_covered in Hb.
  split_and!; [done..|]. intros url' integ' t' Hinj Hv'.
  apply verify_Verified, validate_manifest_Ok in Hv' as (t1 & [= <-] & _ & _ & _ & _ & Hb').
  apply build_file_tree_covered in Hb'. apply file_entry_inj in Hinj.
  apply (fmap_perm_inj file_entry). by rewrite <- Hb, <- Hb'.
Qed.

(** *** The store operations *)

Lemma others_same (f : option Tree → option Tree) (dir : list string) (st : Store) : others f dir st !! dir = f (st !! dir).
Proof. apply lookup_partial_alter_eq. Qed.
Lemma others_other (f : option Tree → option Tree) (dir d : list string) (st : Store) : d ≠ dir → others f dir st !! d = st !! d.
Proof. intros Hd. by apply lookup_partial_alter_ne. Qed.
Lemma others_id (dir : list string) (st : Store) : others id dir st = st.
Proof. by apply partial_alter_id. Qed.
Lemma build_entry_verified nm ver url integ extracted temp :
  build_entry nm ver url integ extracted = Ok temp →
  is_verified (verify_package_at nm ver url integ (Some temp)) = true.
Proof.
  intros Eb. unfold build_entry in Eb. apply bind_Ok in Eb as (? & _ & Eb).
  apply bind_Ok in Eb as (? & _ & Eb). apply bind_Ok in Eb as (t & _ & Eb). unfold verify_package_at.
  destruct (validate_manifest nm ver url integ (Some t)) as [m|[]] eqn:E; [|done..].
  injection Eb as <-. by rewrite E.
Qed.
(** An entry that can be replaced by a rename does not verify. *)
Lemma can_replace_unverified nm ver url integ e :
  can_replace e = true → is_verified (verify_package_at nm ver url integ e) = false.
Proof. by destruct e as [[| |[]]|]. Qed.
Lemma install_entry_cases nm ver url integ extracted (dir : list string) (env : Env) (st st' : Store)
    (r : result string (list string)) :
  install_entry nm ver url integ extracted dir env st = (r, st') →
  let e := before_rename env (st !! dir) in
  (∀ d, d ≠ dir → st' !! d = st !! d) ∧
  (∀ d, r = Ok d → d = dir ∧ is_verified (verify_package_at nm ver url integ (st' !! dir)) = true) ∧
  (is_verified (verify_package_at nm ver url integ e) = true →
     st' !! dir = st !! dir ∨ st' !! dir = before_check env e).
Proof.
  unfold install_entry. destruct (negb (prepare_ok env)).
  { intros [= <- <-]. cbn. split; [done|]. split; [done|]. by left. }
  destruct (build_entry nm ver url integ extracted) as [temp|e] eqn:Eb; cbn.
  2:{ intros [= <- <-]. split; [done|]. split; [done|]. by left. }
  rewrite others_same. destruct (rename_ok env && can_replace _) eqn:Er.
  - intros [= <- <-]. split_and!.
    + intros d Hd. rewrite lookup_insert_ne by done. by apply others_other.
    + intros d [= <-]. split; [done|]. rewrite lookup_insert_eq. by eapply build_entry_verified.
    + apply andb_true_iff in Er as [_ Er]. by rewrite (can_replace_unverified _ _ _ _ _ Er).
  - rewrite !others_same.
    destruct (negb (misread_winner env) && _) eqn:Ev; intros [= <- <-]; rewrite ?others_same; split_and!; try done;
      try (intros d Hd; by rewrite !others_other); try by right.
    intros d [= <-]. split; [done|]. by apply andb_true_iff in Ev as [_ Ev].
Qed.

(** (C30) Storing, whatever fails and whoever interferes: other entries are untouched, and
    when the call succeeds the entry at the returned directory verifies for the package, URL
    and integrity asked for. An entry that verifies and is read without a fault stays, and
    the call succeeds. Only an entry that was read as corrupt is removed: by a fault of
    reading, or because of what another process put there since, that can be one that
    verifies. What verifies when the new entry is to be moved into place is never replaced
    or removed. *)
Theorem store_package_safe nm ver url integ extracted (env : Env) (st st' : Store)
    (r : result string (list string)) :
  let dir := package_dir_for nm ver url integ in
  let verifies e := is_verified (verify_package_at nm ver url integ e) = true in
  let corrupt := ∃ reason, first_verdict env nm ver url integ (st !! dir) = Corrupt reason in
  store_package_variant_with_manifest nm ver url integ extracted env st = (r, st') →
  (∀ d, d ≠ dir → st' !! d = st !! d) ∧
  (∀ d, r = Ok d → d = dir ∧ verifies (st' !! dir)) ∧
  (verifies (st !! dir) → misread env = None → r = Ok dir ∧ st' = st) ∧
  (¬ corrupt → verifies (before_rename env (st !! dir)) →
     st' !! dir = st !! dir ∨ st' !! dir = before_check env (before_rename env (st !! dir))) ∧
  (corrupt → match removal env with
     | Some remains => r = Err "failed to remove corrupt store dir"
                    ∧ st' !! dir = remains (before_removal env (st !! dir))
     | None => verifies (before_rename env None) →
                 st' !! dir = None ∨ st' !! dir = before_check env (before_rename env None)
     end).
Proof.
  intros dir verifies corrupt. unfold store_package_variant_with_manifest, store_package_at. fold dir.
  intros Hrun. unfold corrupt. destruct (first_verdict env nm ver url integ (st !! dir)) as [m| |reason] eqn:Ev.
  - assert (Hv : verifies (st !! dir)).
    { unfold first_verdict in Ev. destruct (misread env) as [[]|]; [done..|]. unfold verifies. by rewrite Ev. }
    injection Hrun as <- <-. split_and!; [done| |done|by left|by intros [? ?]]. by intros d [= <-].
  - apply install_entry_cases in Hrun as (Hf & Hok & Hk). split_and!; [done..| |done|by intros [? ?]].
    intros Hv Hm. unfold first_verdict in Ev. rewrite Hm in Ev. unfold verifies in Hv. by rewrite Ev in Hv.
  - assert (Hm : verifies (st !! dir) → misread env = None → r = Ok dir ∧ st' = st).
    { intros Hv Hm. unfold first_verdict in Ev. rewrite Hm in Ev. unfold verifies in Hv. by rewrite Ev in Hv. }
    destruct (removal env) as [remains|].
    + injection Hrun as <- <-. rewrite !others_same. split_and!; [|done|done|intros []; by eexists|done].
      intros d Hd. by rewrite !others_other.
    + apply install_entry_cases in Hrun as (Hf & Hok & Hk). rewrite lookup_delete_eq in Hk.
      split_and!; [|done|done|intros []; by eexists|done].
      intros d Hd. by rewrite Hf, lookup_delete_ne, others_other.
Qed.

Lemma copy_tree_id t : ∀ t', copy_tree t = Ok t' → t' = t.
Proof.
  induction t as [d| |es IH] using Tree_ind'; intros t'; simpl; [by intros [= ->]|done|].
  intros (es' & Hes & ->)%fmap_Ok. f_equal. revert es' Hes.
  induction IH as [|[n t] es Ht _ IHes]; intros es'; [by intros [= ->]|].
  intros (t1 & ->%Ht & (es1 & ->%IHes & E)%bind_Ok)%bind_Ok. by injection E as <-.
Qed.

Lemma set_file_Ok n d es es' :
  set_file n d es = Ok es' →
  (es' = es ++ [(n, File d)] ∧ n ∉ es.*1) ∨
  ∃ a b d', es = a ++ (n, File d') :: b ∧ es' = a ++ (n, File d) :: b ∧ n ∉ a.*1.
Proof.
  revert es'. induction es as [|[n' t] es IH]; intros es'; simpl.
  - intros [= <-]. left. split; [done|]. apply not_elem_of_nil.
  - case_decide as Hn.
    + subst. destruct t; [|done|done]. intros [= <-]. right. exists [], es, data.
      split_and!; [done..|apply not_elem_of_nil].
    + intros (es1 & Hes & E)%bind_Ok. injection E as <-.
      destruct (IH _ Hes) as [[-> Hni]|(a & b & d' & -> & -> & Hni)].
      * left. split; [done|]. csimpl. apply not_elem_of_cons. by split.
      * right. exists ((n', t) :: a), b, d'. split_and!; [done..|].
        csimpl. apply not_elem_of_cons. by split.
Qed.

Lemma alist_get_app_ne {A} k n (x : A) a b :
  k ≠ n → alist_get k (a ++ (n, x) :: b) = alist_get k (a ++ b).
Proof.
  intros Hne. induction a as [|[n' y] a IH]; simpl; [by rewrite decide_False|].
  case_decide; [done|apply IH].
Qed.
Lemma alist_get_here {A} n (x : A) a b :
  n ∉ a.*1 → alist_get n (a ++ (n, x) :: b) = Some x.
Proof.
  induction a as [|[n' y] a IH]; csimpl; [by rewrite decide_True|].
  intros [Hne Hni]%not_elem_of_cons. rewrite decide_False by done. by apply IH.
Qed.

Lemma collect_results_skip {A} (a b : list (string * result string (list A))) n :
  collect_results (a ++ (n, Ok []) :: b) = collect_results (a ++ b).
Proof.
  induction a as [|[m r] a IH]; csimpl; [by destruct (collect_results b)|].
  destruct r; csimpl; [|done]. by rewrite IH.
Qed.

Lemma Sorted_by_name {A} (l : list (string * A)) : Sorted by_name l → Sorted String.le l.*1.
Proof.
  induction 1 as [|x l _ IH Hh]; csimpl; constructor; [done|].
  destruct Hh; csimpl; by constructor.
Qed.
#[local] Instance by_name_total {A} : Total (@by_name A).
Proof. intros [a ?] [b ?]. apply (total String.le a b). Qed.
#[local] Instance by_name_trans {A} : Transitive (@by_name A).
Proof. intros [a ?] [b ?] [c ?]. unfold by_name. simpl. apply transitivity. Qed.

(** An entry that contributes no file can be sorted in anywhere. *)
Lemma collect_results_sorted_skip {A} (l : list (string * result string (list A))) n :
  NoDup (l.*1 ++ [n]) →
  collect_results (merge_sort by_name (l ++ [(n, Ok [])])) =
  collect_results (merge_sort by_name l).
Proof.
  intros HN. pose proof (merge_sort_Permutation by_name (l ++ [(n, Ok [])])) as HP.
  pose proof (Sorted_merge_sort by_name (l ++ [(n, Ok [])])) as HS.
  set (s := merge_sort by_name (l ++ [(n, Ok [])])) in *.
  assert ((n, Ok []) ∈ s) as Hin by (rewrite HP; set_solver).
  apply list_elem_of_split in Hin as (a & b & E). rewrite E, collect_results_skip.
  f_equal. assert (a ++ b ≡ₚ l) as HP'.
  { rewrite E in HP. rewrite <- Permutation_middle, (Permutation_app_comm l) in HP.
    by apply Permutation_cons_inv in HP. }
  apply NoDup_app in HN as (HN & _ & _).
  apply sorted_keys_unique.
  - by rewrite HP'.
  - by rewrite merge_sort_Permutation.
  - apply Sorted_by_name. apply StronglySorted_Sorted.
    apply Sorted_StronglySorted in HS; [|apply _].
    rewrite E in HS. clear -HS. induction a as [|x a IH]; csimpl in *.
    + by inversion_clear HS.
    + inversion_clear HS as [|?? HS' HF]. constructor; [by apply IH|].
      apply Forall_app in HF as [Ha Hb]. apply Forall_app. split; [done|].
      by inversion_clear Hb.
  - apply Sorted_by_name, Sorted_merge_sort. apply _.
Qed.

Lemma collect_all_app parts a b : collect_all parts (a ++ b) = collect_all parts a ++ collect_all parts b.
Proof. apply fmap_app. Qed.
Lemma collect_all_fst parts es : (collect_all parts es).*1 = es.*1.
Proof. unfold collect_all. rewrite <- list_fmap_compose. by apply list_fmap_ext. Qed.

(** Writing the manifest into a directory does not change what is fingerprinted. *)
Lemma write_manifest_invisible d es es' :
  NoDup es.*1 → set_file STORE_MANIFEST_FILE d es = Ok es' →
  build_file_tree (Dir es') = build_file_tree (Dir es) ∧
  covered [] (Dir es') ≡ₚ covered [] (Dir es) ∧
  read_file (Dir es') "package.json" = read_file (Dir es) "package.json" ∧
  read_file (Dir es') STORE_MANIFEST_FILE = Some d.
Proof.
  intros HN Hes. unfold build_file_tree. rewrite !collect_entry_Dir, !covered_Dir.
  apply set_file_Ok in Hes as [[-> Hni]|(a & b & d' & -> & -> & Hni)].
  - split_and!.
    + f_equal. rewrite collect_all_app. apply collect_results_sorted_skip.
      rewrite collect_all_fst. apply NoDup_app. split_and!; [done| |apply NoDup_singleton].
      intros x Hx ->%list_elem_of_singleton. done.
    + unfold covered_all. rewrite bind_app. csimpl. by rewrite app_nil_r.
    + unfold read_file. simpl. by rewrite alist_get_app_ne, app_nil_r.
    + unfold read_file. simpl. by rewrite alist_get_here.
  - split_and!.
    + f_equal. by rewrite !collect_all_app.
    + unfold covered_all. by rewrite !bind_app.
    + unfold read_file. simpl. by rewrite !alist_get_app_ne.
    + unfold read_file. simpl. by rewrite alist_get_here.
Qed.

Lemma verify_present nm ver url integ t :
  verify_package_at nm ver url integ (Some t) ≠ Missing.
Proof.
  unfold verify_package_at.
  destruct (validate_manifest nm ver url integ (Some t)) as [|[e|]] eqn:E; [done..|].
  unfold validate_manifest in E.
  repeat (apply bind_Err in E as [E|(? & _ & E)];
    [unfold ok_or, ensure in E; by repeat case_match|]).
  done.
Qed.

Context `{!StoreLibLaws}.

Lemma build_entry_Ok nm ver url integ es m :
  NoDup es.*1 → copy_tree (Dir es) = Ok (Dir es) →
  (∀ t, (STORE_MANIFEST_FILE, t) ∈ es → ∃ d, t = File d) →
  build_manifest nm ver url integ (Dir es) = Ok m →
  ∃ t, build_entry nm ver url integ (Dir es) = Ok t ∧
    validate_manifest nm ver url integ (Some t) = Ok m ∧
    covered [] t ≡ₚ covered [] (Dir es).
Proof.
  intros HN Hcopy Hfile Hm. unfold build_entry. rewrite Hcopy. simpl. rewrite Hm. simpl.
  assert (∃ es', set_file STORE_MANIFEST_FILE (manifest_to_vec m) es = Ok es') as [es' Hes].
  { clear -Hfile. induction es as [|[n t] es IH]; simpl; [eauto|].
    case_decide as Hn.
    - subst. destruct (Hfile t) as [d ->]; [set_solver|eauto].
    - destruct IH as [es' ->]; [set_solver|]. simpl. eauto. }
  rewrite Hes. simpl.
  destruct (write_manifest_invisible _ _ _ HN Hes) as (Hb & Hc & Hp & Hr).
  assert (validate_manifest nm ver url integ (Some (Dir es')) = Ok m) as Hv.
  { assert (build_manifest nm ver url integ (Dir es') = Ok m) as Hm'.
    { unfold build_manifest in *. by rewrite Hb, Hp. }
    assert (schema_version m = STORE_MANIFEST_SCHEMA_VERSION ∧ name m = nm ∧ version m = ver
      ∧ lock_integrity m = integ ∧ resolved_url m = url) as (E1 & E2 & E3 & E4 & E5).
    { clear -Hm. unfold build_manifest in Hm.
      do 4 apply bind_Ok in Hm as (? & _ & Hm). by injection Hm as <-. }
    unfold validate_manifest. simpl. rewrite Hr. simpl.
    rewrite bool_decide_eq_true_2.
    2: { unfold read_file in Hr. simpl in Hr. by destruct (alist_get _ es'). }
    simpl. rewrite manifest_roundtrip. simpl. rewrite E1, E2, E3, E4, E5.
    rewrite !bool_decide_eq_true_2 by done. simpl.
    assert (∀ o, matches_expected o o = true) as Ho.
    { intros [o|]; [|done]. by apply bool_decide_eq_true_2. }
    rewrite !Ho. simpl. rewrite Hm'. simpl. by rewrite !bool_decide_eq_true_2. }
  rewrite Hv. eauto.
Qed.

(** Storing works: without faults and rivals, a package of regular files
    (names distinct, nothing but a file in the manifest's place) whose
    [package.json] matches is stored unless it is verified already; the entry
    then verifies with the manifest computed from the extracted files, has
    exactly their covered files, and replaces a missing or corrupt one. *)
Theorem store_package_complete nm ver url integ (es : list (string * Tree)) (env : Env)
    (st : Store) (m : StoreManifest) :
  let dir := package_dir_for nm ver url integ in
  NoDup es.*1 → copy_tree (Dir es) = Ok (Dir es) →
  (∀ t, (STORE_MANIFEST_FILE, t) ∈ es → ∃ d, t = File d) →
  build_manifest nm ver url integ (Dir es) = Ok m →
  env = quiet →
  is_verified (verify_package_variant st nm ver url integ) = false →
  ∃ t st', store_package_variant_with_manifest nm ver url integ (Dir es) env st = (Ok dir, st') ∧
    st' !! dir = Some t ∧ covered [] t ≡ₚ covered [] (Dir es) ∧
    verify_package_variant st' nm ver url integ = Verified m.
Proof.
  intros dir HN Hcopy Hfile Hm -> Hv.
  destruct (build_entry_Ok _ _ _ _ _ _ HN Hcopy Hfile Hm) as (t & Hb & Hvt & Hc).
  assert (∀ st0 : Store, can_replace (st0 !! dir) = true →
    install_entry nm ver url integ (Dir es) dir quiet st0 = (Ok dir, <[dir := t]> st0)) as Hinstall.
  { intros st0 Hst0. unfold install_entry. cbn [quiet prepare_ok rename_ok before_rename negb andb].
    by rewrite Hb, others_id, Hst0. }
  assert (∀ st0 : Store, <[dir := t]> st0 !! dir = Some t ∧
    verify_package_variant (<[dir := t]> st0) nm ver url integ = Verified m) as Hend.
  { intros st0. unfold verify_package_variant, verify_package_at. fold dir.
    rewrite lookup_insert_eq. by rewrite Hvt. }
  unfold store_package_variant_with_manifest, store_package_at. fold dir.
  unfold verify_package_variant in Hv. fold dir in Hv. unfold first_verdict. cbn [quiet misread].
  destruct (verify_package_at nm ver url integ (st !! dir)) as [m'| |e] eqn:Ev; [done|..].
  - exists t, (<[dir := t]> st). destruct (Hend st).
    split_and!; [|done..]. apply Hinstall.
    destruct (st !! dir) as [t0|]; [|done]. by apply verify_present in Ev.
  - cbn [quiet before_removal removal]. rewrite others_id.
    exists t, (<[dir := t]> (delete dir st)). destruct (Hend (delete dir st)).
    split_and!; [|done..]. apply Hinstall. by rewrite lookup_delete_eq.
Qed.
End covered.

(** ** A model of the libraries, to evaluate with *)

Fixpoint pos_text (p : positive) : string :=
  match p with
  | xH => ""
  | xO p => String "0" (pos_text p)
  | xI p => String "1" (pos_text p)
  end.
Fixpoint text_pos (s : string) : positive :=
  match s with
  | EmptyString => xH
  | String a s => if decide (a = "0"%char) then xO (text_pos s) else xI (text_pos s)
  end.
Lemma text_pos_text p : text_pos (pos_text p) = p.
Proof. induction p; simpl; congruence. Qed.

#[local] Instance StoreManifestFile_countable : Countable StoreManifestFile.
Proof.
  refine (inj_countable' (λ f, (mpath f, bytes f, blake3 f))
    (λ '(p, b, h), {| mpath := p; bytes := b; blake3 := h |}) _). by intros [].
Defined.
#[local] Instance StoreManifest_eq_dec : EqDecision StoreManifest.
Proof. solve_decision. Defined.
#[local] Instance StoreManifest_countable : Countable StoreManifest.
Proof.
  refine (inj_countable' (λ m, (schema_version m, name m, version m, lock_integrity m,
      resolved_url m, package_json_name m, package_json_version m, file_count m, byte_count m,
      blake3_tree m))
    (λ '(a, b, c, d, e, f, g, h, i, j), {| schema_version := a; name := b; version := c;
      lock_integrity := d; resolved_url := e; package_json_name := f;
      package_json_version := g; file_count := h; byte_count := i; blake3_tree := j |}) _).
  by intros [].
Defined.

Definition sample_lib : StoreLib := {|
  blake3_hex s := s;
  parse_json _ := Some (JObject [("name", JString "p"); ("version", JString "v1.0.0")]);
  manifest_to_vec m := pos_text (countable.encode m);
  manifest_from_slice s := countable.decode (text_pos s);
|}.
Lemma sample_lib_laws : @StoreLibLaws sample_lib.
Proof. split. intros m. simpl. by rewrite text_pos_text, countable.decode_encode. Qed.

Definition sample_package : list (string * Tree) :=
  [("package.json", File "{}"); ("lib", Dir [("index.js", File "x")])].

Lemma package_dir_spec_witness :
  package_dir "a/b" "1.0" = package_dir "a/b" "1.0" ∧ "a/b" = "a/b".
Proof.
  split; [reflexivity|].
  destruct (@package_dir_spec sample_lib "a/b" "1.0" "a/b" "1.0" None None None None)
    as (_ & _ & Hinj).
  by edestruct Hinj as [[]%(λ H, H eq_refl) _].
Defined.

Lemma store_package_complete_witness :
  ∃ m t st', @build_manifest sample_lib "p" "1.0.0" (Some "u") None (Dir sample_package) = Ok m ∧
    @store_package_variant_with_manifest sample_lib "p" "1.0.0" (Some "u") None
      (Dir sample_package) quiet ∅
    = (Ok (@package_dir_for sample_lib "p" "1.0.0" (Some "u") None), st') ∧
    st' !! @package_dir_for sample_lib "p" "1.0.0" (Some "u") None = Some t.
Proof.
  destruct (@build_manifest sample_lib "p" "1.0.0" (Some "u") None (Dir sample_package))
    as [m|e] eqn:E; [|by vm_compute in E].
  assert (NoDup sample_package.*1) as H1 by (apply (bool_decide_unpack _); by vm_compute).
  assert (∀ t, (STORE_MANIFEST_FILE, t) ∈ sample_package → ∃ d, t = File d) as H2.
  { intros t [[=]|[[=]|[]%elem_of_nil]%elem_of_cons]%elem_of_cons. }
  assert (is_verified (@verify_package_variant sample_lib ∅ "p" "1.0.0" (Some "u") None)
    = false) as H3.
  { unfold verify_package_variant. by rewrite lookup_empty. }
  destruct (@store_package_complete sample_lib sample_lib_laws "p" "1.0.0" (Some "u") None
    sample_package quiet ∅ m H1 eq_refl H2 E eq_refl H3)
    as (t & st' & Hs & Ht & _).
  exists m, t, st'. split; [reflexivity|]. by split.
Defined.

Lemma store_package_safe_witness :
  ∃ r st', @store_package_variant_with_manifest sample_lib "p" "1.0.0" None None
      (Dir sample_package) quiet ∅ = (r, st') ∧
    st' !! ["other"] = (∅ : Store) !! ["other"].
Proof.
  destruct (@store_package_variant_with_manifest sample_lib "p" "1.0.0" None None
      (Dir sample_package) quiet ∅) as [r st'] eqn:E.
  exists r, st'. split; [reflexivity|].
  by apply (@store_package_safe sample_lib "p" "1.0.0" None None (Dir sample_package) quiet
    ∅ st' r E).
Defined.

Lemma verified_entry_spec_witness :
  ∃ t m, @verify_package_at sample_lib "p" "1.0.0" None None (Some t) = Verified m ∧
    version m = "1.0.0".
Proof.
  destruct (@build_entry sample_lib "p" "1.0.0" None None (Dir sample_package))
    as [t|e] eqn:Et; [|by vm_compute in Et].
  destruct (@verify_package_at sample_lib "p" "1.0.0" None None (Some t)) as [m| |e] eqn:E.
  - exists t, m. split; [done|].
    by apply (@verified_entry_spec sample_lib "p" "1.0.0" None None t m E).
  - vm_compute in Et. injection Et as <-. by vm_compute in E.
  - vm_compute in Et. injection Et as <-. by vm_compute in E.
Defined.

(** The gap in the fingerprint: a file named like the manifest in a subdirectory
    is not covered, so adding or changing it leaves the fingerprint as it is. *)
Example nested_manifest_name_not_covered d :
  covered [] (Dir [("package.json", File "{}"); ("lib", Dir [(STORE_MANIFEST_FILE, File d)])])
  = [("package.json", "{}")].
Proof. reflexivity. Qed.
(** A rival commits its entry after this process read a corrupt one: the entry is removed
    with it, and is lost when the package then turns out not to be one. *)
Example rival_entry_is_removed :
  let store := @store_package_variant_with_manifest sample_lib "p" "1.0.0" None None in
  let dir := @package_dir_for sample_lib "p" "1.0.0" None None in
  let rival := (store (Dir sample_package) quiet ∅).2 !! dir in
  let env := {| misread := None; before_removal := λ _, rival; removal := None; prepare_ok := true;
                before_rename := id; rename_ok := true; before_check := id; misread_winner := false |} in
  is_verified (@verify_package_at sample_lib "p" "1.0.0" None None rival) = true ∧
  (store (Dir []) env {[dir := Dir []]}).2 !! dir = None.
Proof. by vm_compute. Qed.
(** So is an entry that could not be read. *)
Example unread_entry_is_removed :
  let store := @store_package_variant_with_manifest sample_lib "p" "1.0.0" None None in
  let dir := @package_dir_for sample_lib "p" "1.0.0" None None in
  let st := (store (Dir sample_package) quiet ∅).2 in
  let env := {| misread := Some (Some "could not read manifest"); before_removal := id; removal := None;
                prepare_ok := false; before_rename := id; rename_ok := true; before_check := id;
                misread_winner := false |} in
  is_verified (@verify_package_variant sample_lib st "p" "1.0.0" None None) = true ∧
  (store (Dir sample_package) env st).2 !! dir = None.
Proof. by vm_compute. Qed.
