(* ===== verification/Files.v ===== *)
(** * The file system of the programs that write more than one file

    Files by their names from the root, directories, and what [std::fs] does to them; the
    interleaving of several processes is modelled where it matters, in [Store], [Linker] and
    [Keys]. *)
From S2P Require Export Paths.

(** Files by their names from the root, and the directories; no symbolic links, so
    that paths lead where their components do. *)
Record Fs := { fs_files : gmap (list string) string; fs_dirs : gset (list string) }.

(** An error leaves what was done so far. *)
Notation FsResult := (result (string * Fs)).
Definition with_fs {A : Type} (fs : Fs) (r : result string A) : FsResult A :=
  match r with Ok a => Ok a | Err e => Err (e, fs) end.
(** [create_dir_all], component by component *)
Fixpoint create_dirs (cwd : list string) (cs : list Component) (fs : Fs) : FsResult Fs :=
  match cs with
  | [] => Ok fs
  | c :: cs =>
      let next := step cwd c in
      match fs_files fs !! next with
      | Some _ => Err ("Not a directory", fs)
      | None => create_dirs next cs {| fs_files := fs_files fs; fs_dirs := {[next]} ∪ fs_dirs fs |}
      end
  end.
(** A path that ends like a directory's is not one of a file. *)
Definition directory_path (p : string) : bool := ends_with "/" p || ends_with "/." p.
(** [std::fs::write] *)
Definition write_file (path bytes : string) (fs : Fs) : result string Fs :=
  let target := resolve [] (components path) in
  if directory_path path || bool_decide (target ∈ fs_dirs fs) then Err "Is a directory"
  else Ok {| fs_files := <[target := bytes]> (fs_files fs); fs_dirs := fs_dirs fs |}.
(** What a temporary directory leaves behind when it is dropped. *)
Definition remove_tree (root : list string) (fs : Fs) : Fs :=
  {| fs_files := filter (λ '(p, _), ¬ root `prefix_of` p) (fs_files fs);
     fs_dirs := filter (λ p, ¬ root `prefix_of` p) (fs_dirs fs) |}.

(** ** Archives *)

Inductive ArchiveType := RegularFile | DirectoryEntry | LinkOrSpecial.
#[export] Instance ArchiveType_eq_dec : EqDecision ArchiveType.
Proof. solve_decision. Defined.
(** An entry as the reader yields it: its path and its bytes may be unreadable. *)
Record ArchiveEntry := {
  ae_type : ArchiveType;
  ae_path : result string string;
  ae_size : Z;
  ae_bytes : result string string;
}.
(** [flate2], [tar] and [String::from_utf8_lossy]. [unpack_in] writes below the
    directory only; it answers [false] for an entry it skips. *)
Class Archives := {
  read_archive : string → result string (list (result string ArchiveEntry));
  unpack_in : string → ArchiveEntry → Fs → result (string * Fs) (bool * Fs);
  lossy : string → string;
  read_archive_sizes t es a : read_archive t = Ok es → Ok a ∈ es → is_u64 (ae_size a);
  unpack_in_below dir e fs p :
    let after := match unpack_in dir e fs with Ok (_, fs') => fs' | Err (_, fs') => fs' end in
    ¬ resolve [] (components dir) `prefix_of` p →
    fs_files after !! p = fs_files fs !! p ∧ (p ∈ fs_dirs after ↔ p ∈ fs_dirs fs);
}.
