(* ===== verification/Disk.v ===== *)
(** * A disk with links ([std::fs])

    Directories, files and symbolic links by their physical names, the contents of files
    behind inode numbers that names can share, and the calls of [std::fs] on it: the walk
    along a path through symbolic links, what looks at an entry and what follows it, and
    the errors the programs tell apart. For the code that builds and replaces trees. *)
From S2P Require Export Paths.

(** ** Objects *)

Inductive Obj :=
  | Folder
  | Regular (ino : nat)
  | Link (to : list Component).
#[export] Instance Obj_eq_dec : EqDecision Obj.
Proof. solve_decision. Defined.
Record Inode := { contents : string; executable : bool }.
#[export] Instance Inode_eq_dec : EqDecision Inode.
Proof. solve_decision. Defined.
Notation Objects := (gmap (list string) Obj).
Record Disk := { objs : Objects; inodes : gmap nat Inode }.
#[export] Instance Disk_eq_dec : EqDecision Disk.
Proof. solve_decision. Defined.

Definition set_objs (f : Objects → Objects) (d : Disk) : Disk :=
  {| objs := f (objs d); inodes := inodes d |}.
Definition set_inodes (f : gmap nat Inode → gmap nat Inode) (d : Disk) : Disk :=
  {| objs := objs d; inodes := f (inodes d) |}.
(** An inode number that is not in use. *)
Definition new_ino (d : Disk) : nat := fresh (dom (inodes d)).

(** ** Errors, and calls that read and change the disk *)

Inductive Errno :=
  NotFound | NotADirectory | IsADirectory | AlreadyExists | DirectoryNotEmpty | TooManyLinks
  | InvalidInput | NameTooLong | CrossDevice.
#[export] Instance Errno_eq_dec : EqDecision Errno.
Proof. solve_decision. Defined.

(** An error leaves what was done so far. *)
Definition Io (E A : Type) : Type := Disk → Disk * result E A.
#[export] Instance Io_ret E : MRet (Io E) := λ A a d, (d, Ok a).
#[export] Instance Io_bind E : MBind (Io E) := λ A B f m d,
  match m d with
  | (d', Ok a) => f a d'
  | (d', Err e) => (d', Err e)
  end.
Definition throw {E A} (e : E) : Io E A := λ d, (d, Err e).
Definition asks {E A} (f : Disk → A) : Io E A := λ d, (d, Ok (f d)).
Definition from {E A} (r : result E A) : Io E A := λ d, (d, r).
Definition change {E} (f : Disk → Disk) : Io E unit := λ d, (f d, Ok tt).
(** [match m { Ok(a) => .., Err(e) => .. }] and [.ok()] *)
Definition attempt {E F A} (m : Io E A) : Io F (result E A) := λ d,
  let '(d', r) := m d in (d', Ok r).
Definition map_err {E F A} (f : E → F) (m : Io E A) : Io F A := λ d,
  let '(d', r) := m d in (d', match r with Ok a => Ok a | Err e => Err (f e) end).
(** [for x in l { f(x)?; }] *)
Fixpoint for_each {E A} (f : A → Io E unit) (l : list A) : Io E unit :=
  match l with
  | [] => mret tt
  | x :: l => _ ← f x; for_each f l
  end.
(** With a variable the body changes. *)
Fixpoint for_fold {E A S} (f : S → A → Io E S) (s : S) (l : list A) : Io E S :=
  match l with
  | [] => mret s
  | x :: l => s ← f s x; for_fold f s l
  end.

(** ** The walk along a path

    [walk follow links objs at cs]: the physical name where the components [cs] lead from
    the directory [at], and what is there; nothing, when only the last component is
    missing. The last component is looked through when it is a link and [follow] is set.
    Linux gives up after 40 links. *)
Section walk.
Context (objs : Objects) (follow : bool).

Fixpoint walk (links : nat) (dir : list string) (cs : list Component) :
    result Errno (list string * option Obj) :=
  (fix go dir cs :=
    match cs with
    | [] => Ok (dir, objs !! dir)
    | Normal n :: cs =>
        let p := dir ++ [n] in
        match objs !! p with
        | None => if decide (cs = []) then Ok (p, None) else Err NotFound
        | Some Folder => go p cs
        | Some (Regular i) => if decide (cs = []) then Ok (p, Some (Regular i)) else Err NotADirectory
        | Some (Link to) =>
            if decide (cs = []) then
              if follow then
                match links with
                | 0 => Err TooManyLinks
                | S links => walk links dir to
                end
              else Ok (p, Some (Link to))
            else
              match links with
              | 0 => Err TooManyLinks
              | S links => walk links dir (to ++ cs)
              end
        end
    | c :: cs => go (step dir c) cs
    end) dir cs.
End walk.
Definition MAXSYMLINKS : nat := 40.
Notation Path := (list Component).
Definition find (follow : bool) (path : Path) (d : Disk) : result Errno (list string * option Obj) :=
  walk (objs d) follow MAXSYMLINKS [] path.
(** Absolute paths, as names from the root. *)
Definition path_of (names : list string) : Path := Normal <$> names.
(** [metadata] and [symlink_metadata], of an entry that has to be there *)
Definition look (follow : bool) (path : Path) (d : Disk) : result Errno (list string * Obj) :=
  '(p, o) ← find follow path d;
  o ← ok_or o NotFound;
  Ok (p, o).
Definition exists_ (path : Path) (d : Disk) : bool := is_ok (look true path d).
Definition is_dir (path : Path) (d : Disk) : bool :=
  match look true path d with Ok (_, Folder) => true | _ => false end.
Definition canonicalize (path : Path) (d : Disk) : result Errno (list string) :=
  fst <$> look true path d.
(** [Path::parent]: the last component goes, but not the root. *)
Definition parent (path : Path) : option Path :=
  match last path with
  | None | Some RootDir => None
  | Some _ => Some (removelast path)
  end.

(** ** Calls *)

(** The place for a new entry: its name, once its parent is a directory. *)
Definition place (path : Path) : Io Errno (list string) := λ d,
  (d, '(p, o) ← find false path d;
      _ ← ensure (bool_decide (o = None)) AlreadyExists;
      Ok p).
Definition put (p : list string) (o : Obj) : Io Errno unit := change (set_objs <[p := o]>).
(** [mkdir] *)
Definition create_dir (path : Path) : Io Errno unit := p ← place path; put p Folder.
(** [DirBuilder::create_dir_all], along the reversed path. *)
Fixpoint create_dirs_up (up : Path) : Io Errno unit :=
  match up with
  | [] => mret tt
  | c :: up' =>
      r ← attempt (create_dir (reverse up));
      match r with
      | Ok _ => mret tt
      | Err e =>
          there ← asks (is_dir (reverse up));
          if (there : bool) then mret tt
          else if decide (e = NotFound) then
            _ ← create_dirs_up up';
            r ← attempt (create_dir (reverse up));
            there ← asks (is_dir (reverse up));
            if (there : bool) then mret tt else from r
          else throw e
      end
  end.
Definition create_dir_all (path : Path) : Io Errno unit := create_dirs_up (reverse path).
(** [symlink] *)
Definition symlink (to path : Path) : Io Errno unit := p ← place path; put p (Link to).
(** [hard_link], of a file; a link of a link is refused by none of the callers' files. *)
Definition hard_link (can_link : bool) (src path : Path) : Io Errno unit :=
  '(_, o) ← asks (look false src) ≫= from;
  match o with
  | Folder => throw IsADirectory
  | o =>
      p ← place path;
      _ ← from (ensure can_link CrossDevice);
      put p o
  end.
(** [std::fs::read] *)
Definition read_file (path : Path) : Io Errno string := λ d,
  (d, '(_, o) ← look true path d;
      match o with
      | Regular i => ok_or (contents <$> inodes d !! i) NotFound
      | _ => Err IsADirectory
      end).
(** [std::fs::write]: a file that is there keeps its inode, with all its names. *)
Definition write (path : Path) (text : string) : Io Errno unit :=
  '(p, o) ← asks (find true path) ≫= from;
  match o with
  | Some (Regular i) => change (set_inodes (alter (λ n, {| contents := text; executable := executable n |}) i))
  | None =>
      i ← asks new_ino;
      _ ← change (set_inodes <[i := {| contents := text; executable := false |}]>);
      put p (Regular i)
  | _ => throw IsADirectory
  end.
(** [std::fs::copy]: the target is emptied before the source is read, and what is written
    is a file of its own unless a file is there. *)
Definition copy (src path : Path) : Io Errno unit :=
  '(_, o) ← asks (look true src) ≫= from;
  match o with
  | Regular i =>
      _ ← write path "";
      n ← asks (λ d, inodes d !! i);
      '(_, o) ← asks (look true path) ≫= from;
      match n, o with
      | Some n, Regular j => change (set_inodes <[j := n]>)
      | _, _ => mret tt
      end
  | _ => throw InvalidInput
  end.
(** [chmod a+x], of a file *)
Definition make_executable (path : Path) : Io Errno unit :=
  '(_, o) ← asks (look true path) ≫= from;
  match o with
  | Regular i => change (set_inodes (alter (λ n, {| contents := contents n; executable := true |}) i))
  | _ => mret tt
  end.

(** ** Trees *)

(** The entries of a directory with their names. *)
Definition strip (p q : list string) : option (list string) :=
  if decide (p `prefix_of` q) then Some (drop (length p) q) else None.
Definition subtree (p : list string) (m : Objects) : Objects :=
  list_to_map (omap (λ '(q, o), (λ r, (r, o)) <$> strip p q) (map_to_list m)).
Definition prune (p : list string) (m : Objects) : Objects := filter (λ '(q, _), ¬ p `prefix_of` q) m.
Definition graft (p : list string) (t m : Objects) : Objects := kmap (app p) t ∪ prune p m.
Definition children (p : list string) (m : Objects) : gmap string Obj :=
  list_to_map (omap (λ '(r, o), match r with [n] => Some (n, o) | _ => None end)
                 (map_to_list (subtree p m))).
(** [remove_file] and [remove_dir_all] *)
Definition remove_file (path : Path) : Io Errno unit :=
  '(p, o) ← asks (look false path) ≫= from;
  match o with
  | Folder => throw IsADirectory
  | _ => change (set_objs (delete p))
  end.
Definition remove_dir_all (path : Path) : Io Errno unit :=
  '(p, o) ← asks (look false path) ≫= from;
  match o with
  | Folder => change (set_objs (prune p))
  | Link _ => change (set_objs (delete p))
  | Regular _ => throw NotADirectory
  end.
(** [rename] *)
Definition rename (src dst : Path) : Io Errno unit :=
  '(p, o) ← asks (look false src) ≫= from;
  '(q, old) ← asks (find false dst) ≫= from;
  _ ← from (ensure (negb (bool_decide (p `prefix_of` q ∧ p ≠ q))) InvalidInput);
  m ← asks objs;
  _ ← from (match o, old with
            | _, None => Ok tt
            | Folder, Some Folder =>
                ensure (bool_decide (p = q) || bool_decide (children q m = ∅)) DirectoryNotEmpty
            | Folder, Some _ => Err NotADirectory
            | _, Some Folder => Err IsADirectory
            | _, Some _ => Ok tt
            end);
  if decide (p = q) then mret tt
  else change (set_objs (λ m, graft q (subtree p m) (prune p m))).

(** ** Reasoning about calls

    [wp m Q d]: run from [d], [m] ends with an answer and a disk that satisfy [Q]. *)
Definition wp {E A} (m : Io E A) (Q : result E A → Disk → Prop) (d : Disk) : Prop := Q (m d).2 (m d).1.

Section wp.
Context {E : Type}.

Lemma wp_io_mono {A} (m : Io E A) Q Q' d : (∀ r d', Q r d' → Q' r d') → wp m Q d → wp m Q' d.
Proof. unfold wp. auto. Qed.
Lemma wp_io_bind {A B} (m : Io E A) (f : A → Io E B) Q d :
  wp m (λ r d', match r with Ok a => wp (f a) Q d' | Err e => Q (Err e) d' end) d → wp (m ≫= f) Q d.
Proof. unfold wp, mbind, Io_bind. by destruct (m d) as [d' [a|e]]. Qed.
Lemma wp_io_ret {A} (a : A) Q d : Q (Ok a : result E A) d → wp (mret a) Q d.
Proof. done. Qed.
Lemma wp_io_throw {A} (e : E) Q d : Q (Err e : result E A) d → wp (throw e) Q d.
Proof. done. Qed.
Lemma wp_asks {A} (f : Disk → A) Q d : Q (Ok (f d) : result E A) d → wp (asks f) Q d.
Proof. done. Qed.
Lemma wp_from {A} (r : result E A) Q d : Q r d → wp (from r) Q d.
Proof. done. Qed.
Lemma wp_change f Q d : Q (Ok tt : result E unit) (f d) → wp (change f) Q d.
Proof. done. Qed.
Lemma wp_io_attempt {F A} (m : Io E A) (Q : result F (result E A) → Disk → Prop) d :
  wp m (λ r d', Q (Ok r) d') d → wp (attempt m) Q d.
Proof. unfold wp, attempt. by destruct (m d). Qed.
Lemma wp_map_err {F A} (f : E → F) (m : Io E A) Q d :
  wp m (λ r d', Q (match r with Ok a => Ok a | Err e => Err (f e) end) d') d → wp (map_err f m) Q d.
Proof. unfold wp, map_err. by destruct (m d) as [d' [a|e]]. Qed.

(** An invariant of the body is one of the loop. *)
Lemma wp_for_each {A} (f : A → Io E unit) (J : Disk → Prop) l d :
  (∀ x d, x ∈ l → J d → wp (f x) (λ _, J) d) → J d → wp (for_each f l) (λ _, J) d.
Proof.
  revert d. induction l as [|x l IH]; intros d Hf HJ; simpl; [done|].
  apply wp_io_bind. eapply wp_io_mono; [|apply Hf; [left|done]].
  intros [a|e] d' HJ'; [|done]. apply IH; [|done]. intros y d'' Hy. apply Hf. by right.
Qed.
Lemma wp_for_fold {A S} (f : S → A → Io E S) (J : Disk → Prop) l s d :
  (∀ s x d, x ∈ l → J d → wp (f s x) (λ _, J) d) → J d → wp (for_fold f s l) (λ _, J) d.
Proof.
  revert s d. induction l as [|x l IH]; intros s d Hf HJ; simpl; [done|].
  apply wp_io_bind. eapply wp_io_mono; [|apply Hf; [left|done]].
  intros [a|e] d' HJ'; [|done]. apply IH; [|done]. intros s' y d'' Hy. apply Hf. by right.
Qed.
End wp.

(** ** Well-formed disks *)

Record dwf (d : Disk) : Prop := {
  dwf_root : objs d !! [] = Some Folder;
  dwf_up p n : is_Some (objs d !! (p ++ [n])) → objs d !! p = Some Folder;
  dwf_ino p i : objs d !! p = Some (Regular i) → is_Some (inodes d !! i);
}.

Lemma prefix_snoc (p q : list string) n : p `prefix_of` q ++ [n] → p = q ++ [n] ∨ p `prefix_of` q.
Proof.
  intros [k Hk]. destruct k as [|x k] using rev_ind.
  - left. by rewrite app_nil_r in Hk.
  - right. exists k. rewrite app_assoc in Hk. by apply app_inj_tail in Hk as [-> _].
Qed.

(** What is above something is a directory. *)
Lemma dwf_above d p q : dwf d → is_Some (objs d !! p) → q `prefix_of` p → q ≠ p → objs d !! q = Some Folder.
Proof.
  intros Hd. induction p as [|n p IH] using rev_ind; intros Hp Hq Hne.
  - by apply prefix_nil_inv in Hq.
  - apply prefix_snoc in Hq as [->|Hq]; [done|]. pose proof (dwf_up _ Hd _ _ Hp) as Hf.
    destruct (decide (q = p)) as [->|]; [done|]. apply IH; eauto.
Qed.
Lemma dwf_below d p q : dwf d → objs d !! p ≠ Some Folder → p `prefix_of` q → q ≠ p → objs d !! q = None.
Proof.
  intros Hd Hp Hq Hne. destruct (objs d !! q) eqn:E; [|done].
  destruct Hp. eapply (dwf_above _ q); eauto.
Qed.

(** No link above the name. *)
Definition plain (m : Objects) (p : list string) : Prop :=
  ∀ q t, q `prefix_of` p → q ≠ p → m !! q ≠ Some (Link t).

Lemma plain_there d p : dwf d → is_Some (objs d !! p) → plain (objs d) p.
Proof. intros Hd Hp q t Hq Hne. by rewrite (dwf_above d p q) by done. Qed.
Lemma plain_prefix m p q : plain m p → q `prefix_of` p → plain m q.
Proof.
  intros Hp Hq x t Hx Hne. apply Hp; [by trans q|]. intros ->. apply Hne. by apply (anti_symm prefix).
Qed.
Lemma plain_below d p n : dwf d → objs d !! p = Some Folder → plain (objs d) (p ++ [n]).
Proof.
  intros Hd Hp q t Hq Hne. apply prefix_snoc in Hq as [->|Hq]; [done|].
  destruct (decide (q = p)) as [->|]; [by rewrite Hp|]. by rewrite (dwf_above d p q) by eauto.
Qed.
Lemma plain_snoc m p n : plain m p → (∀ t, m !! p ≠ Some (Link t)) → plain m (p ++ [n]).
Proof.
  intros Hm Hp q t Hq Hne. apply prefix_snoc in Hq as [->|Hq]; [done|].
  destruct (decide (q = p)) as [->|]; [done|]. by apply Hm.
Qed.

(** ** The walk along plain names *)

Lemma app_cons_l {A} (a b : list A) x : a ++ x :: b = (a ++ [x]) ++ b.
Proof. by rewrite <- app_assoc. Qed.

Section walk_plain.
Context (m : Objects) (follow : bool) (links : nat).

Lemma walk_normal dir n cs :
  walk m follow links dir (Normal n :: cs) =
    let p := dir ++ [n] in
    match m !! p with
    | None => if decide (cs = []) then Ok (p, None) else Err NotFound
    | Some Folder => walk m follow links p cs
    | Some (Regular i) => if decide (cs = []) then Ok (p, Some (Regular i)) else Err NotADirectory
    | Some (Link to) =>
        if decide (cs = []) then
          if follow then
            match links with 0 => Err TooManyLinks | S links => walk m follow links dir to end
          else Ok (p, Some (Link to))
        else match links with 0 => Err TooManyLinks | S links => walk m follow links dir (to ++ cs) end
    end.
Proof. by destruct links. Qed.
Lemma walk_nil dir : walk m follow links dir [] = Ok (dir, m !! dir).
Proof. by destruct links. Qed.
Lemma walk_parent dir x cs : walk m follow links (dir ++ [x]) (ParentDir :: cs) = walk m follow links dir cs.
Proof. transitivity (walk m follow links (step (dir ++ [x]) ParentDir) cs); [by destruct links|]. simpl. by rewrite removelast_last. Qed.
Lemma walk_current dir cs : walk m follow links dir (CurDir :: cs) = walk m follow links dir cs.
Proof. by destruct links. Qed.
Lemma walk_up dir a cs : walk m follow links (dir ++ a) (replicate (length a) ParentDir ++ cs) = walk m follow links dir cs.
Proof.
  induction a as [|x a IH] using rev_ind; simpl; [by rewrite app_nil_r|].
  rewrite length_app, Nat.add_comm. simpl. by rewrite (assoc_L app), walk_parent, IH.
Qed.

Definition looked_at (p : list string) : Prop := follow = false ∨ ∀ t, m !! p ≠ Some (Link t).

Lemma walk_plain_inv dir r q o :
  plain m (dir ++ r) → looked_at (dir ++ r) → m !! dir = Some Folder →
  walk m follow links dir (path_of r) = Ok (q, o) →
  q = dir ++ r ∧ o = m !! q ∧ (∀ r' n, r = r' ++ [n] → m !! (dir ++ r') = Some Folder).
Proof.
  revert dir. induction r as [|n r IH]; intros dir Hp Hl Hd.
  - rewrite walk_nil, app_nil_r. intros [= <- <-]. split_and!; [done..|]. by intros [|??] ? ?.
  - change (path_of (n :: r)) with (Normal n :: path_of r).
    rewrite walk_normal. cbv zeta. rewrite (app_cons_l dir r n) in Hp, Hl |- *.
    assert (∀ b r' x, n :: r = r' ++ [x] → (r = [] ∨ b = true ∧ ∀ r' x, r = r' ++ [x] → m !! ((dir ++ [n]) ++ r') = Some Folder) →
      m !! (dir ++ r') = Some Folder) as Hparent.
    { intros b [|y r'] x [= <- Hr] Hx; [by rewrite app_nil_r|]. destruct Hx as [->|[_ Hx]]; [by destruct r'|].
      rewrite (app_cons_l dir r' n). by eapply Hx. }
    destruct (m !! (dir ++ [n])) as [[|i|t]|] eqn:E.
    + intros Hw. apply IH in Hw as (-> & -> & Hw); [|done..]. split_and!; [done..|].
      intros r' x Hr. eapply (Hparent true); eauto.
    + case_decide as Hr; [|done]. intros [= <- <-]. destruct r; [|done]. rewrite app_nil_r.
      split_and!; [done..|]. intros. by eapply (Hparent false); eauto.
    + case_decide as Hr.
      * destruct r; [|done]. rewrite app_nil_r in *. destruct Hl as [->|Hl]; [|by destruct (Hl t)].
        intros [= <- <-]. split_and!; [done..|]. intros. by eapply (Hparent false); eauto.
      * destruct (Hp (dir ++ [n]) t); [by eexists| |done].
        intros Hq. apply (f_equal length) in Hq. rewrite !length_app in Hq. destruct r; [done|]. simpl in Hq. lia.
    + case_decide as Hr; [|done]. intros [= <- <-]. destruct r; [|done]. rewrite app_nil_r.
      split_and!; [done..|]. intros. by eapply (Hparent false); eauto.
Qed.

Lemma walk_reach dir r n :
  (∀ q, q `prefix_of` r → m !! (dir ++ q) = Some Folder) → looked_at (dir ++ r ++ [n]) →
  walk m follow links dir (path_of (r ++ [n])) = Ok (dir ++ r ++ [n], m !! (dir ++ r ++ [n])).
Proof.
  revert dir. induction r as [|x r IH]; intros dir Hr Hl; simpl.
  - change (path_of [n]) with [Normal n]. rewrite walk_normal. cbv zeta.
    simpl in Hl. destruct (m !! (dir ++ [n])) as [[|i|t]|] eqn:E; [|done| |done].
    + by rewrite walk_nil, E.
    + rewrite decide_True by done. destruct Hl as [->|Hl]; [done|by destruct (Hl t)].
  - change (path_of (x :: r ++ [n])) with (Normal x :: path_of (r ++ [n])).
    rewrite walk_normal. cbv zeta.
    pose proof (Hr [x] (prefix_cons _ _ _ (prefix_nil _))) as ->.
    change (dir ++ (x :: r) ++ [n]) with (dir ++ x :: (r ++ [n])) in Hl.
    rewrite (app_cons_l dir (r ++ [n]) x) in Hl |- *. apply IH; [|done].
    intros q Hq. rewrite <- app_cons_l. by apply Hr, prefix_cons.
Qed.
End walk_plain.

Lemma find_walk follow path d : find follow path d = walk (objs d) follow MAXSYMLINKS [] path.
Proof. done. Qed.
#[global] Opaque MAXSYMLINKS walk.

(** Where a plain name leads: to itself. *)
Lemma find_plain d follow p q o :
  objs d !! [] = Some Folder → plain (objs d) p → looked_at (objs d) follow p →
  find follow (path_of p) d = Ok (q, o) →
  q = p ∧ o = objs d !! p ∧ (∀ p' n, p = p' ++ [n] → objs d !! p' = Some Folder).
Proof.
  intros Hr Hp Hl Hf. rewrite find_walk in Hf.
  apply walk_plain_inv in Hf as (-> & -> & Hf); [|done..]. eauto.
Qed.
Lemma find_reach d follow p n :
  dwf d → objs d !! p = Some Folder → looked_at (objs d) follow (p ++ [n]) →
  find follow (path_of (p ++ [n])) d = Ok (p ++ [n], objs d !! (p ++ [n])).
Proof.
  intros Hd Hp Hl. rewrite find_walk.
  apply (walk_reach _ _ _ []); [|done]. intros q Hq. simpl.
  destruct (decide (q = p)) as [->|]; [done|]. by apply (dwf_above d p).
Qed.
Lemma find_there d follow p o :
  dwf d → objs d !! p = Some o → looked_at (objs d) follow p →
  find follow (path_of p) d = Ok (p, Some o).
Proof.
  intros Hd Hp Hl. destruct p as [|n p _] using rev_ind.
  - rewrite find_walk. by rewrite walk_nil, Hp.
  - rewrite find_reach; [by rewrite Hp|done| |done]. eapply dwf_up; eauto.
Qed.
Lemma look_there d follow p o :
  dwf d → objs d !! p = Some o → looked_at (objs d) follow p → look follow (path_of p) d = Ok (p, o).
Proof. intros. unfold look. by erewrite find_there by done. Qed.
Lemma look_plain d follow p q o :
  objs d !! [] = Some Folder → plain (objs d) p → looked_at (objs d) follow p →
  look follow (path_of p) d = Ok (q, o) → q = p ∧ objs d !! p = Some o.
Proof.
  intros Hr Hp Hl. unfold look. intros ([q' o'] & Hf & Ho)%bind_Ok.
  apply find_plain in Hf as (-> & -> & _); [|done..]. inv_ok. simplify_eq. done.
Qed.
Lemma folder_looked_at m follow p : m !! p = Some Folder → looked_at m follow p.
Proof. intros Hp. right. intros t. by rewrite Hp. Qed.
(** A relative link: up along [x], then down along [b]. *)
Lemma look_relative d r x a b o to :
  dwf d → objs d !! (r ++ x) = Some Folder → objs d !! ((r ++ x) ++ [a]) = Some (Link to) →
  to = match replicate (length x) ParentDir ++ path_of b with [] => [CurDir] | rel => rel end →
  objs d !! (r ++ b) = Some o → (∀ t, o ≠ Link t) →
  look true (path_of ((r ++ x) ++ [a])) d = Ok (r ++ b, o).
Proof.
  intros Hd Hx Ha Hto Hb Ho. unfold look. rewrite find_walk.
  assert (∀ links, walk (objs d) true links (r ++ x) to = Ok (r ++ b, Some o)) as Hwalk.
  { intros links. assert (walk (objs d) true links (r ++ x) to = walk (objs d) true links r (path_of b)) as ->.
    { rewrite <- (walk_up _ _ _ r x), Hto. by destruct (replicate (length x) ParentDir ++ path_of b); [rewrite walk_current|]. }
    destruct b as [|n b _] using rev_ind; [by rewrite app_nil_r in *; rewrite walk_nil, Hb|].
    rewrite walk_reach, Hb; [done| |right; intros t; rewrite Hb; intros [= ->]; by apply (Ho t)].
    intros q Hq. apply (dwf_above d (r ++ b ++ [n])); [done|eauto|by apply prefix_app, prefix_app_r|].
    intros ->%app_inv_head. apply prefix_length in Hq. rewrite length_app in Hq. simpl in Hq. lia. }
  assert (∀ cs dir p, dir ++ cs = p → p `prefix_of` r ++ x → objs d !! dir = Some Folder →
    walk (objs d) true MAXSYMLINKS dir (path_of (cs ++ [a])) = walk (objs d) true MAXSYMLINKS p (path_of [a])) as Hdown.
  { intros cs. induction cs as [|n cs IH]; intros dir p Hp Hpre Hdir; [by rewrite app_nil_r in Hp; subst|].
    change (path_of ((n :: cs) ++ [a])) with (Normal n :: path_of (cs ++ [a])). rewrite walk_normal. cbv zeta.
    rewrite app_cons_l in Hp. assert (objs d !! (dir ++ [n]) = Some Folder) as Hn.
    { destruct (decide (dir ++ [n] = r ++ x)) as [->|]; [done|]. apply (dwf_above d (r ++ x)); [done|eauto| |done].
      etrans; [|done]. rewrite <- Hp. by eexists. }
    rewrite Hn. by apply IH. }
  rewrite (Hdown (r ++ x) [] (r ++ x)); [|done|done|apply Hd].
  change (path_of [a]) with [Normal a]. rewrite walk_normal. cbv zeta. rewrite Ha, decide_True by done.
  change MAXSYMLINKS with (S 39). cbv iota. by rewrite Hwalk.
Qed.
#[export] Hint Resolve plain_there folder_looked_at : disk.

(** ** Putting and removing entries *)

(** An entry can be put at [p]. *)
Definition vacant (d : Disk) (p : list string) : Prop :=
  objs d !! p = None ∧ ∃ p' n, p = p' ++ [n] ∧ objs d !! p' = Some Folder.

Lemma wp_place d p (Q : result Errno (list string) → Disk → Prop) :
  objs d !! [] = Some Folder → plain (objs d) p →
  (vacant d p → Q (Ok p) d) → (∀ e, Q (Err e) d) → wp (place (path_of p)) Q d.
Proof.
  intros Hr Hp HQ He. unfold wp, place. simpl.
  destruct (find false (path_of p) d) as [[q o]|e] eqn:Hf; simpl; [|done].
  apply find_plain in Hf as (-> & -> & Hf); [|done|done|by left].
  destruct (objs d !! p) as [o|] eqn:E.
  - rewrite bool_decide_false by done. apply He.
  - rewrite bool_decide_true by done. simpl. apply HQ. split; [done|].
    destruct p as [|n p _] using rev_ind; [by simplify_eq|]. eauto.
Qed.
Lemma place_vacant d p : dwf d → vacant d p → place (path_of p) d = (d, Ok p).
Proof.
  intros Hd (Hn & p' & n & -> & Hp). unfold place. rewrite find_reach; [|done|done|by left].
  by rewrite Hn.
Qed.

Lemma dwf_put d p o :
  dwf d → vacant d p → (∀ i, o = Regular i → is_Some (inodes d !! i)) → dwf (set_objs <[p := o]> d).
Proof.
  intros Hd (Hn & p' & n & -> & Hp) Ho. split; simpl.
  - rewrite lookup_insert_ne; [apply Hd|]. by destruct p'.
  - intros q x Hq. destruct (decide (q = p' ++ [n])) as [->|Hne].
    + rewrite lookup_insert_ne in Hq.
      * apply Hd in Hq. by rewrite Hq in Hn.
      * intros He. apply (f_equal length) in He. rewrite !length_app in He. simpl in He. lia.
    + rewrite lookup_insert_ne by done. destruct (decide (p' ++ [n] = q ++ [x])) as [He|He].
      * by apply app_inj_tail in He as [-> ->].
      * rewrite lookup_insert_ne in Hq by done. by eapply Hd.
  - intros q i. destruct (decide (p' ++ [n] = q)) as [<-|Hne].
    + rewrite lookup_insert_eq. intros [= ->]. by apply Ho.
    + rewrite lookup_insert_ne by done. apply Hd.
Qed.

Lemma prune_lookup p m q : prune p m !! q = if decide (p `prefix_of` q) then None else m !! q.
Proof.
  unfold prune. case_decide as Hp.
  - apply map_lookup_filter_None. right. intros x _. by auto.
  - destruct (m !! q) eqn:E.
    + apply map_lookup_filter_Some. auto.
    + apply map_lookup_filter_None. auto.
Qed.
Lemma dwf_prune d p : dwf d → p ≠ [] → dwf (set_objs (prune p) d).
Proof.
  intros Hd Hne. split; simpl.
  - rewrite prune_lookup, decide_False; [apply Hd|]. by intros ?%prefix_nil_inv.
  - intros q n. rewrite !prune_lookup. case_decide as Hp; [by intros [??]|]. intros Hq.
    rewrite decide_False; [by eapply Hd|]. intros Hq'. apply Hp. by apply prefix_app_r.
  - intros q i. rewrite prune_lookup. case_decide; [done|]. apply Hd.
Qed.
Lemma dwf_delete d p : dwf d → objs d !! p ≠ Some Folder → dwf (set_objs (delete p) d).
Proof.
  intros Hd Hp. split; simpl.
  - rewrite lookup_delete_ne; [apply Hd|]. intros ->. by destruct Hp; apply Hd.
  - intros q n. destruct (decide (p = q ++ [n])) as [->|Hne]; [rewrite lookup_delete_eq; by intros [??]|].
    rewrite lookup_delete_ne by done. intros Hq%(dwf_up _ Hd).
    rewrite lookup_delete_ne; [done|]. by intros ->.
  - intros q i. destruct (decide (p = q)) as [->|Hne]; [by rewrite lookup_delete_eq|].
    rewrite lookup_delete_ne by done. apply Hd.
Qed.
(** Below an entry that is no directory there is nothing to prune. *)
Lemma prune_leaf d p : dwf d → objs d !! p ≠ Some Folder → prune p (objs d) = delete p (objs d).
Proof.
  intros Hd Hp. apply map_eq. intros q. rewrite prune_lookup. case_decide as Hq.
  - destruct (decide (q = p)) as [->|]; [by rewrite lookup_delete_eq|].
    rewrite lookup_delete_ne by done. symmetry. by apply (dwf_below d p).
  - rewrite lookup_delete_ne; [done|]. by intros ->.
Qed.

(** A removal removes what is at a plain name and below, or fails. *)
Lemma wp_remove_dir_all d p (Q : result Errno unit → Disk → Prop) :
  dwf d → plain (objs d) p →
  (is_Some (objs d !! p) → Q (Ok tt) (set_objs (prune p) d)) → (∀ e, Q (Err e) d) →
  wp (remove_dir_all (path_of p)) Q d.
Proof.
  intros Hd Hp HQ He. unfold remove_dir_all. apply wp_io_bind, wp_io_bind, wp_asks, wp_from.
  destruct (look false (path_of p) d) as [[q o]|e] eqn:Hl; [|apply He].
  apply look_plain in Hl as [-> Hl]; [|apply Hd|done|by left].
  assert (Q (Ok tt) (set_objs (prune p) d)) as HQ' by (apply HQ; eauto).
  destruct o; [done|apply He|]. apply wp_change. unfold set_objs in HQ' |- *.
  rewrite <- (prune_leaf d p) by (rewrite ?Hl; done); exact HQ'.
Qed.
Lemma wp_remove_file d p (Q : result Errno unit → Disk → Prop) :
  dwf d → plain (objs d) p →
  (is_Some (objs d !! p) → Q (Ok tt) (set_objs (prune p) d)) → (∀ e, Q (Err e) d) →
  wp (remove_file (path_of p)) Q d.
Proof.
  intros Hd Hp HQ He. unfold remove_file. apply wp_io_bind, wp_io_bind, wp_asks, wp_from.
  destruct (look false (path_of p) d) as [[q o]|e] eqn:Hl; [|apply He].
  apply look_plain in Hl as [-> Hl]; [|apply Hd|done|by left].
  assert (Q (Ok tt) (set_objs (prune p) d)) as HQ' by (apply HQ; eauto).
  destruct o; [apply He| |]; apply wp_change; unfold set_objs in HQ' |- *;
    rewrite <- (prune_leaf d p) by (rewrite ?Hl; done); exact HQ'.
Qed.

Lemma wp_symlink d p to (Q : result Errno unit → Disk → Prop) :
  objs d !! [] = Some Folder → plain (objs d) p →
  (vacant d p → Q (Ok tt) (set_objs <[p := Link to]> d)) → (∀ e, Q (Err e) d) →
  wp (symlink to (path_of p)) Q d.
Proof.
  intros Hr Hp HQ He. unfold symlink. apply wp_io_bind, wp_place; [done..| |done].
  intros Hv. apply wp_change. auto.
Qed.
Lemma wp_create_dir d p (Q : result Errno unit → Disk → Prop) :
  objs d !! [] = Some Folder → plain (objs d) p →
  (vacant d p → Q (Ok tt) (set_objs <[p := Folder]> d)) → (∀ e, Q (Err e) d) →
  wp (create_dir (path_of p)) Q d.
Proof.
  intros Hr Hp HQ He. unfold create_dir. apply wp_io_bind, wp_place; [done..| |done].
  intros Hv. apply wp_change. auto.
Qed.

(** ** Directories *)

Definition unlinked (m : Objects) (p : list string) : Prop := ∀ q t, q `prefix_of` p → m !! q ≠ Some (Link t).
Lemma unlinked_plain m p : unlinked m p → plain m p.
Proof. intros Hu q t Hq _. by apply Hu. Qed.
Lemma unlinked_snoc m p n : unlinked m p → plain m (p ++ [n]).
Proof. intros Hu. apply plain_snoc; [by apply unlinked_plain|]. intros t. by apply Hu. Qed.
Lemma unlinked_prefix m p q : unlinked m p → q `prefix_of` p → unlinked m q.
Proof. intros Hu Hq x t Hx. apply Hu. by trans q. Qed.
Lemma unlinked_looked_at m f p : unlinked m p → looked_at m f p.
Proof. intros Hu. right. intros t. by apply Hu. Qed.
Lemma unlinked_folder d p : dwf d → objs d !! p = Some Folder → unlinked (objs d) p.
Proof.
  intros Hd Hp q t Hq. destruct (decide (q = p)) as [->|]; [by rewrite Hp|].
  by rewrite (dwf_above d p q) by eauto.
Qed.

Lemma is_dir_plain d p : objs d !! [] = Some Folder → unlinked (objs d) p → is_dir (path_of p) d = true →
  objs d !! p = Some Folder.
Proof.
  intros Hr Hu. unfold is_dir. destruct (look true (path_of p) d) as [[q []]|] eqn:Hl; try done.
  apply look_plain in Hl as [-> Hl]; [done|done|by apply unlinked_plain|by apply unlinked_looked_at].
Qed.
Lemma is_dir_there d p : dwf d → objs d !! p = Some Folder → is_dir (path_of p) d = true.
Proof. intros Hd Hp. unfold is_dir. by rewrite (look_there _ _ _ _ Hd Hp) by auto with disk. Qed.
Lemma exists_there d p o : dwf d → objs d !! p = Some o → (∀ t, o ≠ Link t) → exists_ (path_of p) d = true.
Proof.
  intros Hd Hp Ho. unfold exists_. rewrite (look_there _ _ _ _ Hd Hp); [done|]. right. intros t. rewrite Hp.
  intros [= ->]. by destruct (Ho t).
Qed.
Lemma exists_plain d p : objs d !! [] = Some Folder → unlinked (objs d) p → exists_ (path_of p) d = true →
  is_Some (objs d !! p).
Proof.
  intros Hr Hu. unfold exists_. rewrite is_ok_true. intros ([q o] & Hl).
  apply look_plain in Hl as [-> Hl]; [eauto|done|by apply unlinked_plain|by apply unlinked_looked_at].
Qed.

Lemma reverse_path_of p : reverse (path_of p) = path_of (reverse p).
Proof. unfold path_of. by rewrite fmap_reverse. Qed.

(** [create_dir_all] makes directories on the way only, and ends with one. *)
Lemma wp_create_dir_all (J : Disk → Prop) p d :
  (∀ d, J d → dwf d ∧ unlinked (objs d) p) →
  (∀ d q, J d → q `prefix_of` p → vacant d q → J (set_objs <[q := Folder]> d)) →
  J d → wp (create_dir_all (path_of p)) (λ r d', J d' ∧ (is_ok r = true → objs d' !! p = Some Folder)) d.
Proof.
  unfold create_dir_all. revert d. induction p as [|n p IH] using rev_ind; intros d Hu Hput HJ.
  - apply wp_io_ret. split; [done|]. intros _. by apply Hu in HJ as [[]].
  - unfold path_of. rewrite fmap_app, reverse_app. simpl. fold (path_of p).
    assert (reverse (Normal n :: reverse (path_of p)) = path_of (p ++ [n])) as Hrev.
    { unfold path_of. rewrite reverse_cons, reverse_involutive, fmap_app. done. }
    rewrite Hrev.
    assert (∀ d, J d → wp (create_dir (path_of (p ++ [n]))) (λ r d', J d' ∧ (is_ok r = true → objs d' !! (p ++ [n]) = Some Folder)) d) as Hmk.
    { intros d1 HJ1. destruct (Hu _ HJ1) as [Hd1 Hu1]. apply wp_create_dir; [apply Hd1|by apply unlinked_plain| |by auto].
      intros Hv. split; [by apply Hput|]. intros _. simpl. by rewrite lookup_insert_eq. }
    apply wp_io_bind, wp_io_attempt. eapply wp_io_mono; [|by apply Hmk]. intros r d1 [HJ1 Hr].
    destruct r as [[]|e]; [by apply wp_io_ret; auto|].
    apply wp_io_bind, wp_asks. destruct (Hu _ HJ1) as [Hd1 Hu1].
    destruct (is_dir _ d1) eqn:Hdir.
    { apply wp_io_ret. split; [done|]. intros _. by apply is_dir_plain; [apply Hd1|..]. }
    case_decide; [|by apply wp_io_throw].
    apply wp_io_bind. eapply wp_io_mono; [|apply (IH d1); [|by auto using prefix_app_r|done]].
    2: { intros d2 HJ2. apply Hu in HJ2 as [? HJ2]. split; [done|]. eapply unlinked_prefix; [done|]. by apply prefix_app_r. }
    intros r2 d2 [HJ2 Hr2]. destruct r2 as [[]|e2]; [|done].
    apply wp_io_bind, wp_io_attempt. eapply wp_io_mono; [|by apply Hmk]. intros r3 d3 [HJ3 Hr3].
    apply wp_io_bind, wp_asks. destruct (is_dir _ d3) eqn:Hdir3.
    { apply wp_io_ret. split; [done|]. intros _. destruct (Hu _ HJ3). by apply is_dir_plain; [apply dwf_root|..]. }
    by apply wp_from.
Qed.

(** ** Files *)

Lemma hard_link_ok d src dst i can :
  dwf d → objs d !! src = Some (Regular i) → vacant d dst →
  hard_link can (path_of src) (path_of dst) d =
    if can : bool then (set_objs <[dst := Regular i]> d, Ok tt) else (d, Err CrossDevice).
Proof.
  intros Hd Hs Hv. unfold hard_link, mbind, Io_bind, asks, from.
  rewrite (look_there _ _ _ _ Hd Hs) by by left. by rewrite place_vacant by done; destruct can.
Qed.

(** What [write] does at a plain name. *)
Definition written (d : Disk) (p : list string) (text : string) : Disk :=
  match objs d !! p with
  | Some (Regular i) => set_inodes (alter (λ n, {| contents := text; executable := executable n |}) i) d
  | _ => set_objs <[p := Regular (new_ino d)]>
           (set_inodes <[new_ino d := {| contents := text; executable := false |}]> d)
  end.
Lemma write_vacant d p text : dwf d → vacant d p → write (path_of p) text d = (written d p text, Ok tt).
Proof.
  intros Hd Hv. pose proof Hv as (Hn & p' & n & -> & Hp). unfold write, mbind, Io_bind, asks, from.
  rewrite find_reach; [|done|done|right; by rewrite Hn]. unfold written. rewrite Hn. done.
Qed.
Lemma wp_write d p text (Q : result Errno unit → Disk → Prop) :
  objs d !! [] = Some Folder → unlinked (objs d) p →
  (vacant d p ∨ (∃ i, objs d !! p = Some (Regular i)) → Q (Ok tt) (written d p text)) → (∀ e, Q (Err e) d) →
  wp (write (path_of p) text) Q d.
Proof.
  intros Hr Hu HQ He. unfold write. apply wp_io_bind, wp_io_bind, wp_asks, wp_from.
  destruct (find true (path_of p) d) as [[q o]|e] eqn:Hf; [|apply He].
  apply find_plain in Hf as (-> & -> & Hf); [|done|by apply unlinked_plain|by apply unlinked_looked_at].
  unfold written in HQ. destruct (objs d !! p) as [[|i|t]|] eqn:E; [apply He| |apply He|].
  - apply wp_change, HQ. eauto.
  - apply wp_io_bind, wp_asks, wp_io_bind, wp_change, wp_change, HQ. left. split; [done|].
    destruct p as [|n p _] using rev_ind; [by simplify_eq|]. eauto.
Qed.
Lemma new_ino_fresh d : inodes d !! new_ino d = None.
Proof. apply not_elem_of_dom. unfold new_ino. apply is_fresh. Qed.

Lemma copy_ok d src dst i n :
  dwf d → objs d !! src = Some (Regular i) → inodes d !! i = Some n → vacant d dst →
  let j := new_ino d in
  let d' := {| objs := <[dst := Regular j]> (objs d); inodes := <[j := n]> (inodes d) |} in
  copy (path_of src) (path_of dst) d = (d', Ok tt).
Proof.
  intros Hd Hs Hi Hv j d'. unfold copy. unfold mbind, Io_bind, asks, from.
  rewrite (look_there _ _ _ _ Hd Hs) by (right; intros t; by rewrite Hs).
  rewrite write_vacant by done. unfold written. destruct Hv as (Hn & Hv). rewrite Hn.
  set (d1 := set_objs _ _).
  assert (dwf d1) as Hd1.
  { apply (dwf_put (set_inodes _ d)).
    - split; simpl; [apply Hd|apply Hd|]. intros p k Hp. apply (dwf_ino _ Hd) in Hp as [m Hp].
      destruct (decide (k = new_ino d)) as [->|]; [by rewrite lookup_insert_eq; eauto|].
      rewrite lookup_insert_ne by done. eauto.
    - done.
    - intros k [= <-]. simpl. by rewrite lookup_insert_eq. }
  assert (objs d1 !! dst = Some (Regular j)) as Hj by (simpl; by rewrite lookup_insert_eq).
  rewrite (look_there _ _ _ _ Hd1 Hj) by (right; intros t; by rewrite Hj).
  assert (i ≠ j) by (intros ->; pose proof (new_ino_fresh d); subst j; congruence).
  simpl. rewrite lookup_insert_ne, Hi by done. unfold d', change, set_inodes, d1. simpl.
  do 2 f_equal. by rewrite insert_insert_eq.
Qed.

(** ** Subtrees *)

Lemma strip_Some p q r : strip p q = Some r ↔ q = p ++ r.
Proof.
  unfold strip. case_decide as Hp.
  - destruct Hp as [k ->]. rewrite drop_app_length. split; [by intros [= ->]|by intros [= ->]%app_inv_head].
  - split; [done|]. intros ->. by destruct Hp; apply prefix_app_r.
Qed.
Lemma list_to_map_omap {K A L B} `{Countable K, Countable L} (f : K * A → option (L * B)) (m : gmap K A) l b :
  (∀ k a k' a' l b b', f (k, a) = Some (l, b) → f (k', a') = Some (l, b') → k = k') →
  (list_to_map (omap f (map_to_list m)) : gmap L B) !! l = Some b ↔ ∃ k a, m !! k = Some a ∧ f (k, a) = Some (l, b).
Proof.
  intros Hf. rewrite <- elem_of_list_to_map.
  - rewrite list_elem_of_omap. split.
    + intros ([k a] & Hk%elem_of_map_to_list & Hl). eauto.
    + intros (k & a & Hk & Hl). exists (k, a). by rewrite elem_of_map_to_list.
  - assert (NoDup (map_to_list m).*1) as Hnd by apply NoDup_fst_map_to_list. revert Hnd.
    induction (map_to_list m) as [|[k a] kas IH]; csimpl; [constructor|].
    intros [Hk Hnd]%NoDup_cons. destruct (f (k, a)) as [[x y]|] eqn:Ef; csimpl; [|by auto].
    apply NoDup_cons. split; [|by auto]. intros ([x' y'] & -> & Hx)%list_elem_of_fmap.
    apply list_elem_of_omap in Hx as ([k' a'] & Hk' & Hx). simpl in *.
    apply Hk. rewrite (Hf _ _ _ _ _ _ _ Ef Hx). apply list_elem_of_fmap. by exists (k', a').
Qed.

Lemma subtree_lookup p m r : subtree p m !! r = m !! (p ++ r).
Proof.
  apply option_eq. intros o. unfold subtree. rewrite list_to_map_omap.
  - split.
    + intros (q & o' & Hq & Hs). apply fmap_Some in Hs as (r' & Hr & [= -> ->]).
      apply strip_Some in Hr as ->. done.
    + intros Hp. exists (p ++ r), o. split; [done|]. rewrite (proj2 (strip_Some _ _ r)) by done. done.
  - intros k a k' a' l b b' (x & Hr & [= -> ->])%fmap_Some (x' & Hr' & Hx)%fmap_Some. simplify_eq.
    apply strip_Some in Hr as ->, Hr' as ->. done.
Qed.
Lemma children_lookup p m n : children p m !! n = m !! (p ++ [n]).
Proof.
  rewrite <- subtree_lookup. apply option_eq. intros o. unfold children. rewrite list_to_map_omap.
  - split.
    + intros ([|x [|]] & o' & Hq & Hs); simplify_eq. done.
    + intros Hp. by exists [n], o.
  - intros k a k' a' x b b'. destruct k as [|? [|]], k' as [|? [|]]; naive_solver.
Qed.
Lemma graft_lookup p t m q :
  graft p t m !! q = match strip p q with Some r => t !! r | None => m !! q end.
Proof.
  unfold graft. destruct (strip p q) as [r|] eqn:Hs.
  - apply strip_Some in Hs as ->. assert (prune p m !! (p ++ r) = None) as Hn.
    { rewrite prune_lookup, decide_True; [done|]. by apply prefix_app_r. }
    rewrite lookup_union_l by done. by apply (lookup_kmap _).
  - assert (¬ p `prefix_of` q) as Hp by (unfold strip in Hs; by case_decide).
    rewrite lookup_union_r.
    + by rewrite prune_lookup, decide_False.
    + apply (lookup_kmap_None _). intros r ->. by destruct Hp; apply prefix_app_r.
Qed.

(** A tree is a directory with directories above all its entries. *)
Record twf (I : gmap nat Inode) (t : Objects) : Prop := {
  twf_up r n : is_Some (t !! (r ++ [n])) → t !! r = Some Folder;
  twf_ino r i : t !! r = Some (Regular i) → is_Some (I !! i);
}.
Lemma twf_subtree d p : dwf d → twf (inodes d) (subtree p (objs d)).
Proof.
  intros Hd. split.
  - intros r n. rewrite !subtree_lookup, (assoc_L app). apply Hd.
  - intros r i. rewrite subtree_lookup. apply Hd.
Qed.
Lemma dwf_graft d p n t :
  dwf d → objs d !! p = Some Folder → twf (inodes d) t → dwf (set_objs (graft (p ++ [n]) t) d).
Proof.
  intros Hd Hp Ht. split; simpl.
  - rewrite graft_lookup. destruct (strip (p ++ [n]) []) eqn:Hs; [|apply Hd].
    apply strip_Some in Hs. by destruct p.
  - intros q x. rewrite !graft_lookup. destruct (strip (p ++ [n]) (q ++ [x])) as [r|] eqn:Hs.
    + apply strip_Some in Hs. destruct r as [|y r _] using rev_ind.
      * rewrite app_nil_r in Hs. apply app_inj_tail in Hs as [-> ->]. intros _.
        destruct (strip (p ++ [n]) p) eqn:Hs; [|done].
        apply strip_Some, (f_equal length) in Hs. rewrite !length_app in Hs. simpl in Hs. lia.
      * rewrite (assoc_L app) in Hs. apply app_inj_tail in Hs as [-> ->].
        rewrite (proj2 (strip_Some _ _ r)) by done. apply Ht.
    + intros Hq. destruct (strip (p ++ [n]) q) as [r|] eqn:Hs'; [|by eapply Hd].
      apply strip_Some in Hs' as ->. rewrite <- (assoc_L app) in Hs.
      by rewrite (proj2 (strip_Some _ _ (r ++ [x]))) in Hs.
  - intros q i. rewrite graft_lookup. destruct (strip _ q); [apply Ht|apply Hd].
Qed.

(** [rename] of a tree to a name that is free or a directory without entries. *)
Lemma wp_rename d p q (Q : result Errno unit → Disk → Prop) :
  objs d !! [] = Some Folder → plain (objs d) p → plain (objs d) q → ¬ q `prefix_of` p →
  (is_Some (objs d !! p) → ¬ p `prefix_of` q → Q (Ok tt) (set_objs (λ m, graft q (subtree p m) (prune p m)) d)) →
  (∀ e, Q (Err e) d) →
  wp (rename (path_of p) (path_of q)) Q d.
Proof.
  intros Hr Hp Hq Hqp HQ He. unfold rename. apply wp_io_bind, wp_io_bind, wp_asks, wp_from.
  destruct (look false (path_of p) d) as [[p' o]|e] eqn:Hl; [|apply He].
  apply look_plain in Hl as [-> Hl]; [|done|done|by left].
  apply wp_io_bind, wp_io_bind, wp_asks, wp_from.
  destruct (find false (path_of q) d) as [[q' old]|e] eqn:Hf; [|apply He].
  apply find_plain in Hf as (-> & -> & Hf); [|done|done|by left].
  assert (p ≠ q) by (by intros ->).
  apply wp_io_bind, wp_from. destruct (ensure _ _) eqn:Hpre; [|apply He].
  apply ensure_Ok, negb_true_iff, bool_decide_eq_false in Hpre.
  apply wp_io_bind, wp_asks, wp_io_bind, wp_from.
  match goal with |- match ?r with _ => _ end => destruct r; [|apply He] end.
  rewrite decide_False by done. apply wp_change, HQ; [eauto|]. intros ?. by apply Hpre.
Qed.

Lemma create_dir_all_vacant d p :
  dwf d → vacant d p → create_dir_all (path_of p) d = (set_objs <[p := Folder]> d, Ok tt).
Proof.
  intros Hd Hv. pose proof Hv as (_ & p' & n & -> & _). unfold create_dir_all, path_of.
  rewrite fmap_app, reverse_app. simpl. rewrite reverse_cons, reverse_involutive.
  change ((Normal <$> p') ++ [Normal n]) with ((Normal <$> p') ++ (Normal <$> [n])). rewrite <- fmap_app.
  fold (path_of (p' ++ [n])). unfold create_dir, attempt, mbind, Io_bind. by rewrite place_vacant.
Qed.
(** A directory has no entries beyond those on the disk. *)
Lemma vacant_below d p r : dwf d → objs d !! p = None → objs d !! (p ++ r) = None.
Proof.
  intros Hd Hp. destruct (decide (r = [])) as [->|Hr]; [by rewrite app_nil_r|].
  apply (dwf_below d p); [done|by rewrite Hp|by eexists|].
  intros He. apply Hr. apply (app_inv_head p). by rewrite app_nil_r.
Qed.
