(* ===== verification/Graph.v ===== *)
(** * oath-resolve: the dependency graph ([graph.rs]) *)
From S2P Require Export RustStr.

Record DepNode := {
  name : string;
  alias : option string;
  version : string;
  resolved : string;
  integrity : option string;
  dependencies : gmap string string;
  has_install_script : bool;
  dev : bool;
  optional : bool;
  peer_dependencies : gmap string string;
  optional_peers : gset string;
  resolved_peers : gmap string string;
}.
#[export] Instance DepNode_eq_dec : EqDecision DepNode.
Proof. solve_decision. Defined.

Inductive PeerResolution :=
  | Satisfied (required_by peer_name peer_key : string)
  | MissingPeer (required_by peer_name range : string)
  | Conflict (required_by peer_name range found_version : string).
Record PeerReport := {
  satisfied : list PeerResolution;
  missing : list PeerResolution;
  conflicts : list PeerResolution;
  optional_missing : list string;
}.
Definition default_report : PeerReport :=
  {| satisfied := []; missing := []; conflicts := []; optional_missing := [] |}.

Record DepGraph := {
  nodes : gmap string DepNode;
  roots : list string;
  peer_report : PeerReport;
}.
Definition new_graph : DepGraph :=
  {| nodes := ∅; roots := []; peer_report := default_report |}.

(** [DepGraph::key], [get] and [packages_with_install_scripts] *)
Definition key (name version : string) : string := name +:+ "@" +:+ version.
Definition get (g : DepGraph) (k : string) : option DepNode := nodes g !! k.
Definition package_count (g : DepGraph) : nat := size (nodes g).
Definition packages_with_install_scripts `{!HashIter} (g : DepGraph) : list DepNode :=
  filter (λ n, has_install_script n = true) (hash_iter (nodes g)).*2.

(** [node.alias.as_deref().unwrap_or(&node.name)] *)
Definition install_name (n : DepNode) : string := default (name n) (alias n).

Definition sample_node (n v : string) (deps : gmap string string) : DepNode :=
  {| name := n; alias := None; version := v;
     resolved := "https://registry.example/" +:+ n +:+ "-" +:+ v +:+ ".tgz";
     integrity := None; dependencies := deps; has_install_script := false;
     dev := false; optional := false; peer_dependencies := ∅; optional_peers := ∅;
     resolved_peers := ∅ |}.
