(* ===== verification/Linker.v ===== *)
(** * oath-store: the linker ([linker.rs])

    The hoisting plan, the names and paths that may be written below
    [node_modules], the fingerprint that lets an unchanged tree be kept, and the
    transaction that replaces the tree. *)
From S2P Require Export Json Paths Graph.

(** ** [build_plan] *)

Record LinkPlan := {
  hoisted : gmap string string;
  nested : list (string * string * string);
}.

(** Derived [Ord] of the triples that [nested.sort()] sorts by. *)
Definition str_lt (a b : string) : Prop := String.le a b ∧ a ≠ b.
Definition triple_le (a b : string * string * string) : Prop :=
  let '(a1, a2, a3) := a in let '(b1, b2, b3) := b in
  str_lt a1 b1 ∨ (a1 = b1 ∧ (str_lt a2 b2 ∨ (a2 = b2 ∧ String.le a3 b3))).
#[export] Instance triple_le_dec : RelDecision triple_le.
Proof.
  intros [[a1 a2] a3] [[b1 b2] b3]. unfold triple_le, str_lt. apply _.
Defined.

Section plan.
Context `{!HashIter} (graph : DepGraph).

Definition group_step (acc : gmap string (list string)) (e : string * DepNode) :
    gmap string (list string) :=
  <[install_name e.2 := default [] (acc !! install_name e.2) ++ [e.1]]> acc.
Definition by_install_name : gmap string (list string) :=
  foldl group_step ∅ (hash_iter (nodes graph)).

Definition bump (acc : gmap string nat) (k : string) : gmap string nat :=
  <[k := default 0 (acc !! k) + 1]> acc.
Definition ref_counts : gmap string nat :=
  let acc := foldl (λ acc e, foldl bump acc (hash_iter (dependencies e.2)).*2) ∅
               (hash_iter (nodes graph)) in
  foldl bump acc (roots graph).
Definition ref_count (k : string) : nat := default 0 (ref_counts !! k).

(** The comparison of [max_by]: [better a b] is [a < b]. *)
Definition worse (a b : string) : bool :=
  (ref_count a <? ref_count b)
  || ((ref_count a =? ref_count b) && bool_decide (str_lt b a)).
(** [max_by]: a later element wins a tie. *)
Fixpoint max_by (best : string) (keys : list string) : string :=
  match keys with
  | [] => best
  | k :: keys => max_by (if worse k best then best else k) keys
  end.
Definition pick (keys : list string) : option string :=
  match keys with
  | [] => None
  | [k] => Some k
  | k :: keys => Some (max_by k keys)
  end.

Definition hoist_step (acc : gmap string string) (e : string * list string) :
    gmap string string :=
  match pick e.2 with Some k => <[e.1 := k]> acc | None => acc end.
Definition hoist : gmap string string := foldl hoist_step ∅ (btree_iter by_install_name).

(** The install name of a dependency: that of the node, or the declared name. *)
Definition dep_install_name (dep_name dep_key : string) : string :=
  match nodes graph !! dep_key with
  | Some dep_node => install_name dep_node
  | None => dep_name
  end.
Definition is_hoisted (h : gmap string string) (n dep_key : string) : bool :=
  match h !! n with Some k => bool_decide (k = dep_key) | None => false end.

Definition nested_unsorted (h : gmap string string) : list (string * string * string) :=
  e ← hash_iter (nodes graph);
  d ← hash_iter (dependencies e.2);
  let n := dep_install_name d.1 d.2 in
  if is_hoisted h n d.2 then [] else [(e.1, n, d.2)].

Definition build_plan : LinkPlan :=
  {| hoisted := hoist; nested := merge_sort triple_le (nested_unsorted hoist) |}.
End plan.

(** ** Names *)

Definition is_safe_path_name_part (part : string) : bool :=
  bool_decide (part ≠ "") && bool_decide (part ≠ ".") && bool_decide (part ≠ "..")
  && negb (has "\" part) && negb (has (byte 0) part).
Definition is_safe_bin_name (n : string) : bool :=
  is_safe_path_name_part n && negb (has "/" n).

Definition validate_install_name (n : string) : result string unit :=
  if decide (n = "") then Err "invalid empty package install name"
  else
    let parts := split_char "/" n in
    if starts_with "@" n then
      match parts with
      | [a; b] =>
          if (String.length a =? 1) || negb (is_safe_path_name_part a)
             || negb (is_safe_path_name_part b)
          then Err ("invalid scoped package install name: " +:+ n) else Ok tt
      | _ => Err ("invalid scoped package install name: " +:+ n)
      end
    else
      match parts with
      | [a] => if negb (is_safe_path_name_part a)
               then Err ("invalid package install name: " +:+ n) else Ok tt
      | _ => Err ("invalid package install name: " +:+ n)
      end.

Fixpoint check_all {A} (f : A → result string unit) (l : list A) : result string unit :=
  match l with
  | [] => Ok tt
  | x :: l => _ ← f x; check_all f l
  end.
Definition validate_graph_path_names `{!HashIter} (g : DepGraph) : result string unit :=
  check_all (λ node,
    _ ← validate_install_name (install_name node);
    _ ← check_all validate_install_name (hash_iter (dependencies node)).*1;
    check_all validate_install_name (hash_iter (resolved_peers node)).*1)
  (hash_iter (nodes g)).*2.

(** A relative path as its components, or [None] when it is not plain. *)
Fixpoint sanitize_components (cs : list Component) : option (list string) :=
  match cs with
  | [] => Some []
  | Normal part :: cs =>
      if is_safe_path_name_part part then cons part <$> sanitize_components cs else None
  | CurDir :: cs => sanitize_components cs
  | _ => None
  end.
Definition sanitize_package_relative_path (path : string) : option (list string) :=
  safe ← sanitize_components (components path);
  if decide (safe = []) then None else Some safe.

(** [read_bin_entries], after the file has been read and parsed. *)
Definition read_bin_entries (json : option Json) (inst : string) :
    list (string * list string) :=
  match json ≫= jget "bin" with
  | Some (JString path) =>
      let bin_name := default inst (last (split_char "/" inst)) in
      if is_safe_bin_name bin_name then
        match sanitize_package_relative_path path with
        | Some p => [(bin_name, p)]
        | None => []
        end
      else []
  | Some (JObject map) =>
      omap (λ '(n, path),
        p ← as_str path;
        if is_safe_bin_name n then pair n <$> sanitize_package_relative_path p else None) map
  | _ => []
  end.

(** ** [pathdiff_relative], on components *)

Fixpoint common_len (a b : list Component) : nat :=
  match a, b with
  | x :: a, y :: b => if decide (x = y) then S (common_len a b) else 0
  | _, _ => 0
  end.
Definition pathdiff_relative (from to : list Component) : list Component :=
  let from_dir := removelast from in
  let n := common_len from_dir to in
  let rel := replicate (length from_dir - n) ParentDir ++ drop n to in
  match rel with [] => [CurDir] | _ => rel end.

(** ** [link_manifest] *)

Definition tab : string := String (byte 9) "".
Definition manifest_line (fields : list string) : string :=
  join tab fields +:+ String newline "".

Section manifest.
Context `{!HashIter} (graph : DepGraph).

Definition edge_records (what key : string) (m : gmap string string) : list (list string) :=
  (λ '(n, k), [what; key; n; k]) <$> btree_iter m.
Definition node_records (k : string) (node : DepNode) : list (list string) :=
  ["pkg"; k; name node; default "" (alias node); version node]
  :: edge_records "dep" k (dependencies node)
  ++ edge_records "peer" k (resolved_peers node).
Definition manifest_records : list (list string) :=
  ((λ r, ["root"; r]) <$> sort_strings (roots graph))
  ++ (sort_strings (hash_iter (nodes graph)).*1 ≫= λ k,
       match nodes graph !! k with Some node => node_records k node | None => [] end).
Definition link_manifest : string := join "" (manifest_line <$> manifest_records).
End manifest.

(** ** Orders *)

Lemma str_lt_or a b : String.le a b → a = b ∨ str_lt a b.
Proof. unfold str_lt. destruct (decide (a = b)); tauto. Qed.
Lemma str_lt_le_trans a b c : str_lt a b → String.le b c → str_lt a c.
Proof.
  intros [H1 H2] H3. split; [by trans b|]. intros ->. apply H2. by apply (anti_symm String.le).
Qed.
Lemma str_le_lt_trans a b c : String.le a b → str_lt b c → str_lt a c.
Proof.
  intros H1 [H2 H3]. split; [by trans b|]. intros ->. apply H3. by apply (anti_symm String.le).
Qed.
Lemma str_lt_irrefl a : ¬ str_lt a a.
Proof. by intros [_ ?]. Qed.

#[export] Instance triple_le_total : Total triple_le.
Proof.
  intros [[a1 a2] a3] [[b1 b2] b3]. unfold triple_le, str_lt.
  destruct (total String.le a1 b1), (total String.le a2 b2), (total String.le a3 b3),
    (decide (a1 = b1)), (decide (a2 = b2)); naive_solver.
Qed.
#[export] Instance triple_le_trans : Transitive triple_le.
Proof.
  intros [[a1 a2] a3] [[b1 b2] b3] [[c1 c2] c3]. unfold triple_le.
  assert (∀ x y z : string, str_lt x y → str_lt y z → str_lt x z) as T.
  { intros x y z Hxy [Hyz _]. by eapply str_lt_le_trans. }
  assert (∀ x y z : string, String.le x y → String.le y z → String.le x z) as T'.
  { intros x y z. apply transitivity. }
  intros [H1|[-> [H1|[-> H1]]]] [H2|[-> [H2|[-> H2]]]]; eauto 10.
Qed.
#[export] Instance triple_le_antisymm : AntiSymm (=) triple_le.
Proof.
  intros [[a1 a2] a3] [[b1 b2] b3]. unfold triple_le.
  assert (∀ x y, str_lt x y → str_lt y x → False) as T.
  { intros x y Hxy [Hyx _]. apply (str_lt_irrefl x). by eapply str_lt_le_trans. }
  intros [H1|[-> [H1|[-> H1]]]] [H2|[E [H2|[E' H2]]]]; subst; try (exfalso; eauto; fail);
    try (exfalso; by eapply str_lt_irrefl).
  do 2 f_equal. by apply (anti_symm String.le).
Qed.

(** ** The hoisting plan *)

Section plan_lemmas.
Context `{!HashIter} (graph : DepGraph).
Notation ref_count := (ref_count graph).

(** Every reference to a key: dependency edges of the nodes, and the roots. *)
Definition references : list string :=
  (hash_iter (nodes graph) ≫= λ e, (hash_iter (dependencies e.2)).*2) ++ roots graph.

Lemma foldl_bump l acc k :
  default 0 (foldl bump acc l !! k) =
  default 0 (acc !! k) + length (filter (λ x, x = k) l).
Proof.
  revert acc. induction l as [|x l IH]; intros acc; simpl; [lia|].
  rewrite IH, filter_cons. unfold bump. case_decide as Hx.
  - subst. rewrite lookup_insert_eq. simpl. lia.
  - by rewrite lookup_insert_ne.
Qed.
Lemma foldl_bump_bind {A} (f : A → list string) l acc :
  foldl (λ acc e, foldl bump acc (f e)) acc l = foldl bump acc (l ≫= f).
Proof.
  revert acc. induction l as [|e l IH]; intros acc; csimpl; [done|].
  by rewrite IH, foldl_app.
Qed.
Lemma ref_count_references k : ref_count k = length (filter (λ x, x = k) references).
Proof.
  unfold Linker.ref_count, ref_counts. rewrite foldl_bump_bind, <- foldl_app.
  by rewrite foldl_bump, lookup_empty.
Qed.

Lemma foldl_group_step l acc n :
  default [] (foldl group_step acc l !! n) =
  default [] (acc !! n) ++ (filter (λ e, install_name e.2 = n) l).*1.
Proof.
  revert acc. induction l as [|e l IH]; intros acc; simpl; [by rewrite app_nil_r|].
  rewrite IH, filter_cons. unfold group_step. case_decide as He.
  - subst. rewrite lookup_insert_eq. csimpl. by rewrite <- app_assoc.
  - by rewrite lookup_insert_ne.
Qed.
Lemma elem_of_group n k :
  k ∈ default [] (by_install_name graph !! n) ↔
  ∃ node, nodes graph !! k = Some node ∧ install_name node = n.
Proof.
  unfold by_install_name. rewrite foldl_group_step, lookup_empty. simpl.
  rewrite list_elem_of_fmap. setoid_rewrite list_elem_of_filter. split.
  - intros ([k' node] & -> & Hn & Hin). apply elem_of_hash_iter in Hin. eauto.
  - intros (node & Hin & Hn). exists (k, node). by rewrite elem_of_hash_iter.
Qed.

(** [m] is at least as good as [k]: more references, or as many and a smaller key. *)
Definition good (m k : string) : Prop :=
  ref_count k < ref_count m ∨ (ref_count k = ref_count m ∧ String.le m k).
Lemma good_refl k : good k k.
Proof. right. by split. Qed.
Lemma good_trans a b c : good a b → good b c → good a c.
Proof.
  unfold good. intros [H1|[H1 H1']] [H2|[H2 H2']]; [lia|lia|lia|].
  right. split; [lia|]. by trans b.
Qed.
Lemma good_antisymm a b : good a b → good b a → a = b.
Proof.
  unfold good. intros [H1|[H1 H1']] [H2|[H2 H2']]; try lia. by apply (anti_symm String.le).
Qed.
Lemma worse_good a b : if worse graph a b then good b a else good a b.
Proof.
  unfold worse, good. destruct (ref_count a <? ref_count b) eqn:E1; simpl.
  { left. by apply Nat.ltb_lt. }
  apply Nat.ltb_ge in E1. destruct (ref_count a =? ref_count b) eqn:E2; simpl.
  - apply Nat.eqb_eq in E2. case_bool_decide as Hlt.
    + right. split; [done|]. apply Hlt.
    + right. split; [done|]. destruct (total String.le a b) as [|Hba]; [done|].
      apply str_lt_or in Hba as [->|]; done.
  - apply Nat.eqb_neq in E2. left. lia.
Qed.
Lemma max_by_good keys best :
  max_by graph best keys ∈ best :: keys ∧ ∀ k, k ∈ best :: keys → good (max_by graph best keys) k.
Proof.
  revert best. induction keys as [|x keys IH]; intros best; cbn [max_by].
  - split; [set_solver|]. intros k ->%list_elem_of_singleton. apply good_refl.
  - pose proof (worse_good x best) as Hw.
    destruct (IH (if worse graph x best then best else x)) as [Hin Hall].
    split; [destruct (worse graph x best); set_solver|].
    intros k Hk. apply elem_of_cons in Hk as [->|[->|Hk]%elem_of_cons].
    + apply (good_trans _ (if worse graph x best then best else x)); [apply Hall; left|].
      destruct (worse graph x best); [apply good_refl|done].
    + apply (good_trans _ (if worse graph x best then best else x)); [apply Hall; left|].
      destruct (worse graph x best); [done|apply good_refl].
    + apply Hall. set_solver.
Qed.
Lemma pick_good keys :
  keys ≠ [] → ∃ k, pick graph keys = Some k ∧ k ∈ keys ∧ ∀ k', k' ∈ keys → good k k'.
Proof.
  intros Hne. destruct keys as [|x [|y keys]]; [done|..].
  - exists x. split_and!; [done|set_solver|]. intros k' ->%list_elem_of_singleton. apply good_refl.
  - exists (max_by graph x (y :: keys)). destruct (max_by_good (y :: keys) x). done.
Qed.

Lemma foldl_hoist l acc n k :
  NoDup l.*1 →
  foldl (hoist_step graph) acc l !! n = Some k ↔
  (∃ ks, (n, ks) ∈ l ∧ pick graph ks = Some k) ∨
  (acc !! n = Some k ∧ ∀ ks, (n, ks) ∈ l → pick graph ks = None).
Proof.
  revert acc. induction l as [|[m ks] l IH]; intros acc; csimpl; [set_solver|].
  intros [Hm HN]%NoDup_cons. rewrite IH by done.
  assert (∀ x, (m, x) ∉ l) as Hm'.
  { intros x Hx. apply Hm. by apply (list_elem_of_fmap_2 fst) in Hx. }
  destruct (decide (n = m)) as [->|Hne].
  - destruct (pick graph ks) as [k'|] eqn:Ep.
    + unfold hoist_step. simpl. rewrite Ep, lookup_insert_eq. set_solver.
    + unfold hoist_step. simpl. rewrite Ep. set_solver.
  - assert (hoist_step graph acc (m, ks) !! n = acc !! n) as ->.
    { unfold hoist_step. simpl. destruct (pick graph ks); [by rewrite lookup_insert_ne|done]. }
    set_solver.
Qed.
Lemma NoDup_btree_iter {V} (m : gmap string V) : NoDup (btree_iter m).*1.
Proof.
  unfold btree_iter.
  assert (NoDup (sort_strings (map_to_list m).*1)) as HN.
  { rewrite sort_strings_perm. apply NoDup_fst_map_to_list. }
  induction HN as [|k ks Hk HN IH]; csimpl; [constructor|].
  destruct (m !! k) as [v|] eqn:E; csimpl; [|done].
  constructor; [|done]. intros Hin. apply Hk.
  apply list_elem_of_fmap in Hin as ([k' v'] & -> & (k'' & Hk' & Hv)%list_elem_of_omap).
  destruct (m !! k''); simplify_eq/=. done.
Qed.

Lemma hoist_Some n k :
  hoist graph !! n = Some k ↔
  ∃ node, nodes graph !! k = Some node ∧ install_name node = n ∧
    ∀ k' node', nodes graph !! k' = Some node' → install_name node' = n → good k k'.
Proof.
  unfold hoist. rewrite foldl_hoist by apply NoDup_btree_iter.
  setoid_rewrite elem_of_btree_iter. rewrite lookup_empty.
  pose proof (elem_of_group n) as Hg. split.
  - intros [(ks & Hks & Hp)|[? _]]; [|done]. rewrite Hks in Hg. simpl in Hg.
    destruct (pick_good ks) as (k0 & Hp' & Hin & Hall).
    { by intros ->. }
    assert (k0 = k) as -> by congruence.
    apply Hg in Hin as (node & Hn & Hi). exists node. split_and!; [done..|].
    intros k' node' Hn' Hi'. apply Hall, Hg. eauto.
  - intros (node & Hn & Hi & Hall). left.
    destruct (by_install_name graph !! n) as [ks|] eqn:Hks; simpl in Hg.
    2: { exfalso. apply (not_elem_of_nil k), Hg. eauto. }
    assert (k ∈ ks) as Hk by (apply Hg; eauto).
    destruct (pick_good ks) as (k0 & Hp & Hin & Hall0); [by intros ->; apply not_elem_of_nil in Hk|].
    exists ks. split; [done|]. rewrite Hp. f_equal. apply good_antisymm; [by apply Hall0|].
    apply Hg in Hin as (node0 & Hn0 & Hi0). by apply (Hall k0 node0).
Qed.

Lemma hoist_total k node :
  nodes graph !! k = Some node → is_Some (hoist graph !! install_name node).
Proof.
  intros Hn. pose proof (elem_of_group (install_name node)) as Hg.
  set (ks := default [] (by_install_name graph !! install_name node)) in *.
  assert (k ∈ ks) as Hk by (apply Hg; eauto).
  destruct (pick_good ks) as (k0 & _ & Hin & Hall); [by intros E; rewrite E in Hk; apply not_elem_of_nil in Hk|].
  apply Hg in Hin as (node0 & Hn0 & Hi0). exists k0. apply hoist_Some.
  exists node0. split_and!; [done..|]. intros k' node' Hn' Hi'. apply Hall, Hg. eauto.
Qed.

Lemma elem_of_nested h p n d :
  (p, n, d) ∈ nested_unsorted graph h ↔
  ∃ node dn, nodes graph !! p = Some node ∧ dependencies node !! dn = Some d ∧
    n = dep_install_name graph dn d ∧ h !! n ≠ Some d.
Proof.
  assert (∀ n d, is_hoisted h n d = true ↔ h !! n = Some d) as Hh.
  { intros n' d'. unfold is_hoisted. destruct (h !! n'); [|done].
    rewrite bool_decide_eq_true. naive_solver. }
  unfold nested_unsorted. rewrite list_elem_of_bind. split.
  - intros ([p' node] & Hin & Hp). apply list_elem_of_bind in Hin as ([dn d'] & Hd & Hdn).
    cbn [fst snd] in *. apply elem_of_hash_iter in Hp, Hdn.
    destruct (is_hoisted h (dep_install_name graph dn d') d') eqn:E; [by apply not_elem_of_nil in Hd|].
    apply list_elem_of_singleton in Hd as [= -> -> ->]. exists node, dn.
    split_and!; [done..|]. rewrite <- Hh. congruence.
  - intros (node & dn & Hp & Hdn & -> & Hne). exists (p, node). rewrite elem_of_hash_iter.
    split; [|done]. apply list_elem_of_bind. exists (dn, d). cbn [fst snd].
    rewrite elem_of_hash_iter. split; [|done].
    rewrite <- Hh in Hne. destruct (is_hoisted _ _ _); [done|]. by apply list_elem_of_singleton.
Qed.
End plan_lemmas.

(** The plan does not depend on the iteration order. *)
Lemma references_perm (H1 H2 : HashIter) g : @references H1 g ≡ₚ @references H2 g.
Proof.
  unfold references. apply Permutation_app_tail.
  assert (∀ {V} (m : gmap string V), @hash_iter H1 V m ≡ₚ @hash_iter H2 V m) as HP
    by (intros V m; by rewrite !hash_iter_perm).
  rewrite (HP _ (nodes g)). generalize (@hash_iter H2 _ (nodes g)). intros l.
  induction l as [|e l IH]; csimpl; [done|].
  apply Permutation_app; [|exact IH]. apply fmap_Permutation, HP.
Qed.
Lemma ref_count_iter (H1 H2 : HashIter) g k : @ref_count H1 g k = @ref_count H2 g k.
Proof.
  rewrite (@ref_count_references H1), (@ref_count_references H2).
  by rewrite (references_perm H1 H2).
Qed.
Lemma hoist_iter (H1 H2 : HashIter) g : @hoist H1 g = @hoist H2 g.
Proof.
  apply map_eq. intros n. apply option_eq. intros k. rewrite !hoist_Some.
  unfold good. by setoid_rewrite (ref_count_iter H1 H2).
Qed.
Lemma nested_iter (H1 H2 : HashIter) g h :
  @nested_unsorted H1 g h ≡ₚ @nested_unsorted H2 g h.
Proof.
  unfold nested_unsorted.
  assert (∀ {V} (m : gmap string V), @hash_iter H1 V m ≡ₚ @hash_iter H2 V m) as HP
    by (intros V m; by rewrite !hash_iter_perm).
  rewrite (HP _ (nodes g)). generalize (@hash_iter H2 _ (nodes g)). intros l.
  induction l as [|e l IH]; csimpl; [done|].
  apply Permutation_app; [|exact IH]. by rewrite (HP _ (dependencies e.2)).
Qed.

(** The hoisting plan: every install name of the graph is hoisted, to the key
    of a node of that name that has the most references (roots and dependency
    edges), the smallest key on a tie; every dependency edge is served either by
    the hoisted node of its install name or by a nested link under its parent, and
    nothing else is nested; and the plan is the same for every iteration order of
    the graph's hash maps. *)
Theorem build_plan_spec {HI : HashIter} g :
  let p := build_plan g in
  (∀ k node, nodes g !! k = Some node → is_Some (hoisted p !! install_name node)) ∧
  (∀ n k, hoisted p !! n = Some k ↔
     ∃ node, nodes g !! k = Some node ∧ install_name node = n ∧
       ∀ k' node', nodes g !! k' = Some node' → install_name node' = n → good g k k') ∧
  (∀ parent n d, (parent, n, d) ∈ nested p ↔
     ∃ node dn, nodes g !! parent = Some node ∧ dependencies node !! dn = Some d ∧
       n = dep_install_name g dn d ∧ hoisted p !! n ≠ Some d) ∧
  (∀ H' : HashIter, @build_plan H' g = p).
Proof.
  intros p. split_and!.
  - intros k node. apply hoist_total.
  - intros n k. apply hoist_Some.
  - intros parent n d. unfold p, build_plan. cbn [nested hoisted].
    rewrite merge_sort_Permutation. apply elem_of_nested.
  - intros H'. unfold p, build_plan. rewrite (hoist_iter H' HI). f_equal.
    apply merge_sort_perm; [apply _..|]. apply nested_iter.
Qed.

Lemma build_plan_spec_witness :
  let g := {| nodes := {["a@1" := sample_node "a" "1" {["b" := "b@2"]};
                         "b@1" := sample_node "b" "1" ∅; "b@2" := sample_node "b" "2" ∅]};
              roots := ["a@1"; "b@1"; "b@1"]; peer_report := default_report |} in
  nodes g !! "b@2" = Some (sample_node "b" "2" ∅) ∧
  is_Some (hoisted (@build_plan default_iter g) !! "b") ∧
  nested (@build_plan default_iter g) = [("a@1", "b", "b@2")].
Proof.
  intros g. split; [reflexivity|]. split; [|by vm_compute].
  by apply (@build_plan_spec default_iter g) with (k := "b@2") (node := sample_node "b" "2" ∅).
Defined.

(** ** Names and paths *)

Lemma is_safe_part_name part :
  is_safe_path_name_part part = true → has "/" part = false → safe_name part.
Proof.
  unfold is_safe_path_name_part. rewrite !andb_true_iff, !bool_decide_eq_true.
  intros [[[[??]?]?]?] ?. by split_and!.
Qed.

(** The name as path components: one plain name, or a scope and a plain name. *)
Definition install_parts (n : string) (parts : list string) : Prop :=
  n = join "/" parts ∧ Forall safe_name parts ∧
  Forall (λ p, is_safe_path_name_part p = true) parts ∧
  (starts_with "@" n = false ∧ length parts = 1 ∨
   starts_with "@" n = true ∧ length parts = 2 ∧ head parts ≠ Some "@").

Lemma length_1_at a n :
  starts_with "@" (a +:+ n) = true → String.length a = 1 → a = "@".
Proof.
  intros [r Hr]%starts_with_true Hl. destruct a as [|x [|]]; try done.
  rewrite !str_app_cons in Hr. by injection Hr as ->.
Qed.

Lemma validate_install_name_parts n :
  validate_install_name n = Ok tt ↔ install_parts n (split_char "/" n).
Proof.
  unfold validate_install_name, install_parts. rewrite (join_split "/" n).
  pose proof (split_char_has "/" n) as Hs. pose proof (join_split "/" n) as Hj.
  assert (∀ p, p ∈ split_char "/" n → is_safe_path_name_part p = true → safe_name p) as Hsafe.
  { intros p Hp Hsp. apply is_safe_part_name; [done|]. rewrite Forall_forall in Hs. auto. }
  case_decide as Hn; [subst; simpl; split; [done|]; intros (_&H&_); inversion_clear H as [|?? []]; done|].
  destruct (split_char_cons "/" n) as (a & rest & E). rewrite E in *.
  destruct (starts_with "@" n) eqn:Hat.
  - destruct rest as [|b [|c rest]].
    + split; [done|]. intros (_&_&_&[[??]|(_&?&_)]); done.
    + destruct (String.length a =? 1) eqn:El; simpl.
      { split; [done|]. intros (_&_&_&[[??]|(_&_&Ha)]); [done|]. apply Nat.eqb_eq in El.
        destruct Ha. simpl. f_equal. apply (length_1_at a ("/" +:+ b)); [|done].
        simpl in Hj. by rewrite Hj. }
      destruct (is_safe_path_name_part a) eqn:Ea; simpl.
      2: { split; [done|]. intros (_&_&H&_). inversion_clear H. congruence. }
      destruct (is_safe_path_name_part b) eqn:Eb; simpl.
      2: { split; [done|]. intros (_&_&H&_). inversion_clear H as [|?? _ H']. inversion_clear H'. congruence. }
      split; [|done]. intros _. split_and!; [done|..].
      * repeat apply Forall_cons_2; try apply Forall_nil_2; apply Hsafe; set_solver.
      * by repeat apply Forall_cons_2.
      * right. split_and!; [done..|]. simpl. intros [= ->]. done.
    + split; [done|]. intros (_&_&_&[[??]|(_&?&_)]); done.
  - destruct rest as [|b rest].
    + destruct (is_safe_path_name_part a) eqn:Ea; simpl.
      2: { split; [done|]. intros (_&_&H&_). inversion_clear H. congruence. }
      split; [|done]. intros _. split_and!; [done|..|by left].
      * apply Forall_cons_2; [|apply Forall_nil_2]. apply Hsafe; set_solver.
      * by apply Forall_cons_2.
    + split; [done|]. intros (_&_&_&[[??]|(?&_)]); done.
Qed.

Lemma install_parts_components n parts :
  install_parts n parts → components n = Normal <$> parts ∧ parts ≠ [] ∧ length parts ≤ 2.
Proof.
  intros (-> & Hs & _ & Hl). assert (parts ≠ []) as Hne by (intros ->; simpl in Hl; lia).
  split_and!; [by apply components_join_names|done|lia].
Qed.

Lemma check_all_Ok {A} (f : A → result string unit) l :
  check_all f l = Ok tt ↔ ∀ x, x ∈ l → f x = Ok tt.
Proof.
  induction l as [|x l IH]; simpl; [set_solver|].
  rewrite bind_Ok. split.
  - intros ([] & Hx & Hl) y [->|Hy]%elem_of_cons; [done|]. by apply IH.
  - intros H. exists tt. split; [apply H; set_solver|]. apply IH. set_solver.
Qed.

Lemma sanitize_components_Some cs ns :
  sanitize_components cs = Some ns →
  Forall (λ c, c ≠ ParentDir ∧ c ≠ RootDir) cs ∧ ns = names cs ∧
  Forall (λ p, is_safe_path_name_part p = true) ns.
Proof.
  revert ns. induction cs as [|c cs IH]; intros ns; simpl.
  - intros [= <-]. split_and!; [constructor|done|constructor].
  - destruct c as [| | |p]; try done.
    + intros Hs. destruct (IH _ Hs) as (H1 & -> & H2). split_and!; [by constructor|done|done].
    + destruct (is_safe_path_name_part p) eqn:Ep; [|done].
      destruct (sanitize_components cs) as [ns'|]; [|done]. intros [= <-].
      destruct (IH ns' eq_refl) as (H1 & -> & H2). split_and!; [by constructor|done|by constructor].
Qed.

(** What may be written below [node_modules]: a graph is accepted exactly when
    every install name and every declared dependency and resolved peer name is
    valid; a valid name is one plain component or a scope and one (never empty,
    [.], [..], absolute or with a backslash or NUL), so joining it stays below the
    directory at depth one or two; and every bin entry read from a manifest is a
    plain name and leads, from the package directory, to a place inside it. *)
Theorem link_names_safe `{!HashIter} g n json inst cwd :
  (validate_graph_path_names g = Ok tt ↔
     ∀ k node, nodes g !! k = Some node →
       validate_install_name (install_name node) = Ok tt ∧
       (∀ d v, dependencies node !! d = Some v → validate_install_name d = Ok tt) ∧
       (∀ p v, resolved_peers node !! p = Some v → validate_install_name p = Ok tt)) ∧
  (validate_install_name n = Ok tt ↔ install_parts n (split_char "/" n)) ∧
  (validate_install_name n = Ok tt →
     components n = Normal <$> split_char "/" n ∧
     resolve cwd (components n) = cwd ++ split_char "/" n ∧
     1 ≤ length (split_char "/" n) ≤ 2) ∧
  (∀ bin path, (bin, path) ∈ read_bin_entries json inst →
     safe_name bin ∧ path ≠ [] ∧ ∃ raw, resolve cwd (components raw) = cwd ++ path ∧
     Forall safe_name path).
Proof.
  split_and!.
  - unfold validate_graph_path_names. rewrite check_all_Ok. split.
    + intros Hall k node Hk. destruct (proj1 (bind_Ok _ _ _) (Hall node ltac:(apply list_elem_of_fmap;
        exists (k, node); by rewrite elem_of_hash_iter))) as ([] & H1 & H2).
      apply bind_Ok in H2 as ([] & H2 & H3). rewrite check_all_Ok in H2, H3.
      split_and!; [done|..]; intros d v Hd; [apply H2|apply H3]; apply list_elem_of_fmap;
        exists (d, v); by rewrite elem_of_hash_iter.
    + intros Hall node ([k node'] & -> & Hk%elem_of_hash_iter)%list_elem_of_fmap. simpl.
      destruct (Hall k node' Hk) as (-> & H2 & H3). simpl.
      rewrite (proj2 (check_all_Ok validate_install_name (hash_iter (dependencies node')).*1));
        [simpl|].
      * apply check_all_Ok. intros p ([p' v] & -> & Hp%elem_of_hash_iter)%list_elem_of_fmap. eauto.
      * intros d ([d' v] & -> & Hd%elem_of_hash_iter)%list_elem_of_fmap. eauto.
  - apply validate_install_name_parts.
  - intros Hv%validate_install_name_parts%install_parts_components.
    destruct Hv as (Hc & Hne & Hl). rewrite Hc, resolve_normal. split_and!; [done..| |done].
    destruct (split_char "/" n); [done|simpl; lia].
  - intros bin path Hin.
    assert (∃ raw, is_safe_bin_name bin = true ∧
      sanitize_package_relative_path raw = Some path) as (raw & Hb & Hp).
    { unfold read_bin_entries in Hin. destruct (json ≫= jget "bin") as [[]|];
        try by apply not_elem_of_nil in Hin.
      - destruct (is_safe_bin_name _) eqn:Eb; [|by apply not_elem_of_nil in Hin].
        destruct (sanitize_package_relative_path s) as [p|] eqn:Ep;
          [|by apply not_elem_of_nil in Hin].
        apply list_elem_of_singleton in Hin as [= -> ->]. eauto.
      - apply list_elem_of_omap in Hin as ([nm j] & _ & Hj).
        destruct (as_str j) as [raw|]; [|done]. simpl in Hj.
        destruct (is_safe_bin_name nm) eqn:Eb; [|done].
        destruct (sanitize_package_relative_path raw) as [p|] eqn:Ep; [|done].
        injection Hj as -> ->. eauto. }
    unfold is_safe_bin_name in Hb. apply andb_true_iff in Hb as [Hb Hsl].
    apply negb_true_iff in Hsl. unfold sanitize_package_relative_path in Hp.
    destruct (sanitize_components (components raw)) as [ns|] eqn:Es; [|done]. simpl in Hp.
    case_decide as Hne; [done|]. injection Hp as ->.
    apply sanitize_components_Some in Es as (Hcs & -> & _).
    split_and!; [by apply is_safe_part_name|done|]. exists raw.
    rewrite resolve_below by done. split; [done|].
    apply Forall_forall. intros x Hx. apply list_elem_of_omap in Hx as (c & Hc & Hx).
    destruct c; simplify_eq/=. by eapply components_normal_safe.
Qed.

Lemma link_names_safe_witness :
  validate_install_name "@scope/name" = Ok tt ∧
  components "@scope/name" = [Normal "@scope"; Normal "name"].
Proof.
  split; [reflexivity|].
  apply (@link_names_safe default_iter new_graph "@scope/name" None "x" []). reflexivity.
Defined.

(** ** Relative links *)

Lemma common_len_app p a b : common_len (p ++ a) (p ++ b) = length p + common_len a b.
Proof. induction p as [|c p IH]; simpl; [done|]. rewrite decide_True by done. by rewrite IH. Qed.
Lemma common_len_names (a b : list string) : ∃ x a' b', a = x ++ a' ∧ b = x ++ b' ∧
  common_len (Normal <$> a) (Normal <$> b) = length x.
Proof.
  revert b. induction a as [|n a IH]; intros b; [by exists [], [], b|].
  destruct b as [|m b]; [by exists [], (n :: a), []|]. csimpl.
  case_decide as Hn; [|by exists [], (n :: a), (m :: b)]. injection Hn as ->.
  destruct (IH b) as (x & a' & b' & -> & -> & ->). by exists (m :: x), a', b'.
Qed.

Definition abs (ns : list string) : list Component := RootDir :: (Normal <$> ns).

Lemma removelast_snoc {A} (l : list A) x : removelast (l ++ [x]) = l.
Proof. apply removelast_last. Qed.

Lemma pathdiff_abs p a b l :
  ∃ x a' b', a = x ++ a' ∧ b = x ++ b' ∧
  pathdiff_relative (abs (p ++ a ++ [l])) (abs (p ++ b)) =
  match replicate (length a') ParentDir ++ (Normal <$> b') with
  | [] => [CurDir] | rel => rel end.
Proof.
  destruct (common_len_names a b) as (x & a' & b' & -> & -> & Hc).
  exists x, a', b'. split_and!; [done..|]. unfold pathdiff_relative, abs.
  assert (removelast (RootDir :: (Normal <$> p ++ (x ++ a') ++ [l]))
    = (RootDir :: (Normal <$> p)) ++ (Normal <$> (x ++ a'))) as ->.
  { assert ((RootDir :: (Normal <$> p ++ (x ++ a') ++ [l]))
      = (RootDir :: (Normal <$> p ++ x ++ a')) ++ [Normal l]) as ->
      by (rewrite (app_assoc p), (fmap_app _ _ [l]); done).
    by rewrite removelast_snoc, fmap_app. }
  assert ((RootDir :: (Normal <$> p ++ x ++ b'))
    = (RootDir :: (Normal <$> p)) ++ (Normal <$> (x ++ b'))) as ->
    by (rewrite (fmap_app _ p); done).
  rewrite common_len_app, Hc, !length_app, !length_fmap, length_app.
  assert (∀ n m k : nat, n + (m + k) - (n + m) = k) as -> by lia.
  assert (drop (length (RootDir :: (Normal <$> p)) + length x)
    ((RootDir :: (Normal <$> p)) ++ (Normal <$> x ++ b')) = Normal <$> b') as ->;
    [|by destruct (replicate (length a') ParentDir ++ (Normal <$> b'))].
  rewrite fmap_app, app_assoc. apply drop_app_length'. by rewrite length_app, !length_fmap.
Qed.

(** A relative link leads where it should: from the directory that holds the
    link [l], following [pathdiff_relative] reaches the target; and the text of
    the link only depends on the parts below a common ancestor, so links made in
    the staged tree still lead to their targets after the tree is moved. *)
Theorem pathdiff_relative_spec p q a b l :
  resolve (p ++ a) (pathdiff_relative (abs (p ++ a ++ [l])) (abs (p ++ b))) = p ++ b ∧
  resolve (q ++ a) (pathdiff_relative (abs (p ++ a ++ [l])) (abs (p ++ b))) = q ++ b.
Proof.
  destruct (pathdiff_abs p a b l) as (x & a' & b' & -> & -> & ->).
  assert (∀ r, resolve (r ++ x ++ a') (match replicate (length a') ParentDir ++ (Normal <$> b')
    with [] => [CurDir] | rel => rel end) = r ++ x ++ b') as H; [|by split].
  intros r. destruct a' as [|n a'], b' as [|m b']; [done|..].
  all: match goal with |- resolve _ (match ?l with _ => _ end) = _ =>
    replace (match l with [] => [CurDir] | rel => rel end) with l by done end.
  all: by rewrite resolve_app, !(app_assoc r), resolve_up, resolve_normal, <- ?app_assoc.
Qed.

Example pathdiff_example :
  pathdiff_relative (abs ["p"; "node_modules"; ".oath"; "a@1"; "node_modules"; "b"])
                    (abs ["p"; "node_modules"; ".oath"; "b@2"; "node_modules"; "b"])
  = [ParentDir; ParentDir; Normal "b@2"; Normal "node_modules"; Normal "b"].
Proof. reflexivity. Qed.

(** ** The link fingerprint *)

(** What the fingerprint says of a node. *)
Definition layout (node : DepNode) :
    string * string * string * gmap string string * gmap string string :=
  (name node, default "" (alias node), version node, dependencies node, resolved_peers node).

Definition clean (s : string) : bool := negb (has newline s) && negb (has (byte 9) s).
Definition clean_graph (g : DepGraph) : Prop :=
  Forall (λ r, clean r = true) (roots g) ∧
  map_Forall (λ k node, clean k = true ∧ clean (name node) = true
    ∧ clean (default "" (alias node)) = true ∧ clean (version node) = true
    ∧ map_Forall (λ n d, clean n = true ∧ clean d = true) (dependencies node)
    ∧ map_Forall (λ n d, clean n = true ∧ clean d = true) (resolved_peers node)) (nodes g).

Section manifest_lemmas.
Context `{!HashIter}.

Lemma elem_of_edge_records what k m r :
  r ∈ edge_records what k m ↔ ∃ n d, r = [what; k; n; d] ∧ m !! n = Some d.
Proof.
  unfold edge_records. rewrite list_elem_of_fmap. split.
  - intros ([n d] & -> & Hm%elem_of_btree_iter). eauto.
  - intros (n & d & -> & Hm%elem_of_btree_iter). by exists (n, d).
Qed.
Lemma elem_of_records g r :
  r ∈ manifest_records g ↔
  (∃ x, x ∈ roots g ∧ r = ["root"; x]) ∨
  ∃ k node, nodes g !! k = Some node ∧ r ∈ node_records k node.
Proof.
  unfold manifest_records. rewrite elem_of_app, list_elem_of_fmap.
  setoid_rewrite sort_strings_perm at 1. split.
  - intros [(x & -> & Hx)|(k & Hr & Hk)%list_elem_of_bind]; [left; eauto|right].
    exists k. destruct (nodes g !! k) as [node|]; [eauto|by apply not_elem_of_nil in Hr].
  - intros [(x & Hx & ->)|(k & node & Hk & Hr)]; [left; eauto|right].
    apply list_elem_of_bind. exists k. rewrite Hk. split; [done|].
    rewrite sort_strings_perm. apply list_elem_of_fmap. exists (k, node).
    by rewrite elem_of_hash_iter.
Qed.
Lemma pkg_record g k a b c :
  ["pkg"; k; a; b; c] ∈ manifest_records g ↔
  ∃ node, nodes g !! k = Some node ∧ a = name node ∧ b = default "" (alias node) ∧ c = version node.
Proof.
  rewrite elem_of_records. unfold node_records.
  setoid_rewrite elem_of_cons. setoid_rewrite elem_of_app. setoid_rewrite elem_of_edge_records.
  naive_solver.
Qed.
Lemma dep_record g k n d :
  ["dep"; k; n; d] ∈ manifest_records g ↔
  ∃ node, nodes g !! k = Some node ∧ dependencies node !! n = Some d.
Proof.
  rewrite elem_of_records. unfold node_records.
  setoid_rewrite elem_of_cons. setoid_rewrite elem_of_app. setoid_rewrite elem_of_edge_records.
  naive_solver.
Qed.
Lemma peer_record g k n d :
  ["peer"; k; n; d] ∈ manifest_records g ↔
  ∃ node, nodes g !! k = Some node ∧ resolved_peers node !! n = Some d.
Proof.
  rewrite elem_of_records. unfold node_records.
  setoid_rewrite elem_of_cons. setoid_rewrite elem_of_app. setoid_rewrite elem_of_edge_records.
  naive_solver.
Qed.

Definition root_of (r : list string) : option string :=
  match r with [a; x] => if decide (a = "root") then Some x else None | _ => None end.
Lemma roots_of_records g : omap root_of (manifest_records g) = sort_strings (roots g).
Proof.
  unfold manifest_records. rewrite omap_app.
  assert (∀ l, omap root_of ((λ r, ["root"; r]) <$> l) = l) as ->.
  { induction l as [|x l IH]; csimpl; [done|]. by rewrite IH. }
  match goal with |- _ ++ ?l = _ => assert (l = []) as ->; [|by rewrite app_nil_r] end.
  apply elem_of_nil_inv. intros x (r & Hr & Hx)%list_elem_of_omap.
  apply list_elem_of_bind in Hr as (k & Hr & _).
  destruct (nodes g !! k) as [node|]; [|by apply not_elem_of_nil in Hr].
  unfold node_records in Hr.
  apply elem_of_cons in Hr as [->|[Hr|Hr]%elem_of_app]; [done|..];
    apply elem_of_edge_records in Hr as (?&?&->&_); done.
Qed.

Lemma records_clean g r : clean_graph g → r ∈ manifest_records g → r ≠ [] ∧ Forall (λ f, clean f = true) r.
Proof.
  intros [Hr Hn] [(x & Hx & ->)|(k & node & Hk & Hin)]%elem_of_records.
  - split; [done|]. rewrite Forall_forall in Hr. repeat constructor. by apply Hr.
  - destruct (Hn k node Hk) as (H1 & H2 & H3 & H4 & H5 & H6). unfold node_records in Hin.
    apply elem_of_cons in Hin as [->|[Hin|Hin]%elem_of_app]; [by repeat constructor|..];
      apply elem_of_edge_records in Hin as (n & d & -> & Hd).
    + destruct (H5 n d Hd). by repeat constructor.
    + destruct (H6 n d Hd). by repeat constructor.
Qed.

Lemma has_join c sep l : has c sep = false → Forall (λ f, has c f = false) l → has c (join sep l) = false.
Proof.
  intros Hs. induction 1 as [|x l Hx Hl IH]; [done|]. destruct l as [|y l]; [done|].
  by rewrite join_cons, !has_app, Hx, Hs, IH.
Qed.
Lemma join_concat x l : join "" (x :: l) = x +:+ join "" l.
Proof. destruct l as [|y l]; [by rewrite str_app_nil_r|]. by rewrite join_cons, str_app_nil_l. Qed.
Lemma split_lines ls :
  Forall (λ l, has newline l = false) ls →
  split_char newline (join "" ((λ l, l +:+ String newline "") <$> ls)) = ls ++ [""].
Proof.
  induction 1 as [|l ls Hl _ IH]; [done|].
  rewrite fmap_cons, join_concat, <- str_app_assoc, str_app_cons, str_app_nil_l.
  rewrite split_char_app by done. by rewrite IH.
Qed.

(** The records can be read back from the text of the fingerprint. *)
Lemma link_manifest_records g :
  clean_graph g →
  (split_char (byte 9) <$> split_char newline (link_manifest g)) = manifest_records g ++ [[""]].
Proof.
  intros Hc. unfold link_manifest, manifest_line.
  assert ((λ fields : list string, join tab fields +:+ String newline "") <$> manifest_records g
    = (λ l, l +:+ String newline "") <$> (join tab <$> manifest_records g)) as ->
    by by rewrite <- list_fmap_compose.
  rewrite split_lines.
  - rewrite fmap_app. csimpl. f_equal. rewrite <- list_fmap_compose.
    rewrite <- (list_fmap_id (manifest_records g)) at 2. apply list_fmap_ext.
    intros i r Hr. destruct (records_clean g r Hc) as [Hne Hf]; [by eapply list_elem_of_lookup_2|].
    simpl. apply split_join; [done|]. eapply Forall_impl; [exact Hf|].
    intros f [_ Ht]%andb_true_iff. by apply negb_true_iff.
  - apply Forall_fmap, Forall_forall. intros r Hr. simpl.
    destruct (records_clean g r Hc Hr) as [_ Hf]. apply has_join; [done|].
    eapply Forall_impl; [exact Hf|]. intros f [Hn _]%andb_true_iff. by apply negb_true_iff.
Qed.

Lemma node_layout_records k node node' :
  layout node = layout node' → node_records k node = node_records k node'.
Proof. unfold layout, node_records. by intros [= -> -> -> -> ->]. Qed.
End manifest_lemmas.

Lemma manifest_records_layout (H1 H2 : HashIter) g g' :
  roots g ≡ₚ roots g' → layout <$> nodes g = layout <$> nodes g' →
  @manifest_records H1 g = @manifest_records H2 g'.
Proof.
  intros Hr Hn. unfold manifest_records. rewrite (sort_strings_ext _ _ Hr). f_equal.
  assert (sort_strings (@hash_iter H1 _ (nodes g)).*1
    = sort_strings (@hash_iter H2 _ (nodes g')).*1) as ->.
  { apply sort_strings_ext. rewrite !hash_iter_perm.
    assert (∀ m : gmap string DepNode, (map_to_list m).*1 ≡ₚ (map_to_list (layout <$> m)).*1) as E.
    { intros m. rewrite map_to_list_fmap, <- list_fmap_compose. apply reflexive_eq.
      apply list_fmap_ext. by intros i []. }
    by rewrite (E (nodes g)), (E (nodes g')), Hn. }
  generalize (sort_strings (@hash_iter H2 _ (nodes g')).*1). intros ks.
  induction ks as [|k ks IH]; csimpl; [done|]. rewrite IH. f_equal.
  assert (layout <$> nodes g !! k = layout <$> nodes g' !! k) as E.
  { by rewrite <- !lookup_fmap, Hn. }
  destruct (nodes g !! k) as [a|], (nodes g' !! k) as [b|]; try done.
  apply node_layout_records. by apply (inj Some).
Qed.

(** The fingerprint that lets a tree be kept: it is the same for graphs with
    the same roots (in any order) and the same layout of every node (name, alias,
    version, dependency and peer edges), whatever the map order; and, for fields
    without tabs and newlines, only for those. Where a package comes from
    ([resolved], [integrity]) is not part of it. *)
Theorem link_manifest_spec (H1 H2 : HashIter) g g' :
  clean_graph g → clean_graph g' →
  @link_manifest H1 g = @link_manifest H2 g' ↔
  roots g ≡ₚ roots g' ∧ layout <$> nodes g = layout <$> nodes g'.
Proof.
  intros Hc Hc'. split.
  - intros E.
    assert (@manifest_records H1 g = @manifest_records H2 g') as Er.
    { pose proof (@link_manifest_records H1 g Hc) as L. rewrite E in L.
      rewrite (@link_manifest_records H2 g' Hc') in L. by apply app_inj_tail in L as [-> _]. }
    split.
    + rewrite <- (sort_strings_perm (roots g)), <- (sort_strings_perm (roots g')).
      by rewrite <- (@roots_of_records H1), <- (@roots_of_records H2), Er.
    + assert (∀ (Ha Hb : HashIter) a b k node, @manifest_records Ha a = @manifest_records Hb b →
        nodes a !! k = Some node → ∃ node', nodes b !! k = Some node' ∧ layout node = layout node')
        as Hsub.
      { intros Ha Hb a b k node Eab Hk.
        assert (["pkg"; k; name node; default "" (alias node); version node]
          ∈ @manifest_records Ha a) as Hp by (apply pkg_record; eauto).
        rewrite Eab in Hp. apply pkg_record in Hp as (node' & Hk' & E1 & E2 & E3).
        exists node'. split; [done|]. unfold layout. rewrite E1, E2, E3.
        assert (dependencies node = dependencies node') as ->.
        { apply map_eq. intros n. apply option_eq. intros d.
          assert (dependencies node !! n = Some d ↔ ["dep"; k; n; d] ∈ @manifest_records Ha a)
            as -> by (rewrite dep_record; naive_solver).
          rewrite Eab, dep_record. naive_solver. }
        assert (resolved_peers node = resolved_peers node') as ->; [|done].
        apply map_eq. intros n. apply option_eq. intros d.
        assert (resolved_peers node !! n = Some d ↔ ["peer"; k; n; d] ∈ @manifest_records Ha a)
          as -> by (rewrite peer_record; naive_solver).
        rewrite Eab, peer_record. naive_solver. }
      apply map_eq. intros k. rewrite !lookup_fmap.
      destruct (nodes g !! k) as [node|] eqn:Ek.
      * destruct (Hsub H1 H2 g g' k node Er Ek) as (node' & -> & E'). simpl. by rewrite E'.
      * destruct (nodes g' !! k) as [node'|] eqn:Ek'; [|done].
        destruct (Hsub H2 H1 g' g k node' (eq_sym Er) Ek') as (? & E' & _). congruence.
  - intros [Hr Hn]. unfold link_manifest. by rewrite (manifest_records_layout H1 H2 g g' Hr Hn).
Qed.

Definition sample_graph (url : string) : DepGraph :=
  {| nodes := {["a@1" := {| name := "a"; alias := None; version := "1"; resolved := url;
       integrity := None; dependencies := ∅; has_install_script := false; dev := false;
       optional := false; peer_dependencies := ∅; optional_peers := ∅;
       resolved_peers := ∅ |}]}; roots := ["a@1"]; peer_report := default_report |}.
Lemma sample_graph_clean url : clean_graph (sample_graph url).
Proof.
  split; [by repeat constructor|].
  apply map_Forall_singleton. split_and!; try done; apply map_Forall_empty.
Qed.
(** Two sources of one version: the second is not linked over the first. *)
Lemma link_manifest_spec_witness :
  resolved <$> nodes (sample_graph "git+https://a#1") !! "a@1"
    ≠ resolved <$> nodes (sample_graph "git+https://a#2") !! "a@1" ∧
  @link_manifest default_iter (sample_graph "git+https://a#1")
    = @link_manifest default_iter (sample_graph "git+https://a#2").
Proof.
  split; [by vm_compute|].
  apply (link_manifest_spec default_iter default_iter _ _ (sample_graph_clean _)
    (sample_graph_clean _)).
  split; reflexivity.
Defined.

(** ** The transaction that replaces [node_modules]

    The three directories [node_modules], [.oath-node_modules-stage] and
    [.oath-node_modules-backup]; a tree is opaque. [link_all] and
    [link_placement_plan_inner] run the same protocol. *)
Section transaction.
Context {T : Type}.

Record Fs := { live : option T; stage : option T; backup : option T }.

(** [recover_link_transaction], when every operation succeeds. *)
Definition recover_link_transaction (fs : Fs) : Fs :=
  let fs :=
    match backup fs with
    | Some b =>
        match live fs with
        | Some _ => {| live := live fs; stage := stage fs; backup := None |}
        | None => {| live := Some b; stage := stage fs; backup := None |}
        end
    | None => fs
    end in
  {| live := live fs; stage := None; backup := backup fs |}.

(** The end of [link_all], given whether each rename and the removal succeed;
    [true] when the call returns [Ok]. *)
Definition commit (aside_ok promote_ok restore_ok cleanup_ok : bool) (fs : Fs) : bool * Fs :=
  match live fs with
  | Some _ =>
      if aside_ok then
        let fs := {| live := None; stage := stage fs; backup := live fs |} in
        if promote_ok then
          let fs := {| live := stage fs; stage := None; backup := backup fs |} in
          (true, {| live := live fs; stage := stage fs;
                    backup := if cleanup_ok then None else backup fs |})
        else (false, if restore_ok
                     then {| live := backup fs; stage := stage fs; backup := None |} else fs)
      else (false, fs)
  | None =>
      if promote_ok then (true, {| live := stage fs; stage := None; backup := backup fs |})
      else (false, fs)
  end.

(** *** Every crash point

    The protocol as steps on the disk. A removal of a directory tree passes
    through arbitrary partial trees; a rename is one step. [complete n] holds of
    the trees a run builds in full. The new tree shares files with the live one by hard
    links: building it can write through them ([linker.rs:348], the record of the last
    plan, in place) and set the mode of executables; [through l l'] holds when the live
    tree [l] becomes [l'] that way. *)
Inductive Pc := Recovering | Building | Committing | Promoting | Cleaning | Stopped.

Context (complete : T → Prop) (through : T → T → Prop).

Inductive tx_step : Pc * Fs → Pc * Fs → Prop :=
  | recover_remove_backup l s b b' :
      tx_step (Recovering, {| live := Some l; stage := s; backup := Some b |})
              (Recovering, {| live := Some l; stage := s; backup := b' |})
  | recover_restore s b :
      tx_step (Recovering, {| live := None; stage := s; backup := Some b |})
              (Recovering, {| live := Some b; stage := s; backup := None |})
  | recover_remove_stage l s s' :
      tx_step (Recovering, {| live := l; stage := Some s; backup := None |})
              (Recovering, {| live := l; stage := s'; backup := None |})
  | recover_end l :
      tx_step (Recovering, {| live := l; stage := None; backup := None |})
              (Building, {| live := l; stage := None; backup := None |})
  | build_some l s s' b :
      tx_step (Building, {| live := l; stage := s; backup := b |})
              (Building, {| live := l; stage := Some s'; backup := b |})
  | build_through l l' s b :
      through l l' →
      tx_step (Building, {| live := Some l; stage := s; backup := b |})
              (Building, {| live := Some l'; stage := s; backup := b |})
  | build_all l n b :
      complete n →
      tx_step (Building, {| live := l; stage := Some n; backup := b |})
              (Committing, {| live := l; stage := Some n; backup := b |})
  | move_aside l s b :
      tx_step (Committing, {| live := Some l; stage := s; backup := b |})
              (Promoting, {| live := None; stage := s; backup := Some l |})
  | nothing_aside s b :
      tx_step (Committing, {| live := None; stage := s; backup := b |})
              (Promoting, {| live := None; stage := s; backup := b |})
  | promote s b :
      tx_step (Promoting, {| live := None; stage := Some s; backup := b |})
              (Cleaning, {| live := Some s; stage := None; backup := b |})
  | promote_failed s b :
      tx_step (Promoting, {| live := None; stage := s; backup := Some b |})
              (Stopped, {| live := Some b; stage := s; backup := None |})
  | clean_up l s b b' :
      tx_step (Cleaning, {| live := Some l; stage := s; backup := Some b |})
              (Cleaning, {| live := Some l; stage := s; backup := b' |})
  | stop_run pc fs : tx_step (pc, fs) (Stopped, fs)
  | crash pc fs : tx_step (pc, fs) (Recovering, fs).

(** What a user has: the live tree, or the backup a recovery will restore. *)
Definition visible (fs : Fs) : option T :=
  match live fs with Some t => Some t | None => backup fs end.

Context (old : option T).
(** The original tree or one that was built, but for what was written through links. *)
Definition whole (t : T) : Prop := ∃ n, (old = Some n ∨ complete n) ∧ rtc through n t.
Definition acceptable (o : option T) : Prop :=
  match o with Some t => whole t | None => old = None end.

Record tx_inv (pc : Pc) (fs : Fs) : Prop := {
  inv_visible : acceptable (visible fs);
  inv_building : pc = Building ∨ pc = Committing → backup fs = None;
  inv_complete : pc = Committing ∨ pc = Promoting → ∃ n, stage fs = Some n ∧ complete n;
}.

Lemma tx_inv_step c c' : tx_step c c' → tx_inv c.1 c.2 → tx_inv c'.1 c'.2.
Proof.
  intros Hs [Hv Hb Hc]. destruct Hs; simpl in *; split; unfold visible in *; simpl in *;
    try naive_solver.
  - destruct Hv as (n & Hn & Ht). exists n. split; [done|]. by eapply rtc_r.
  - destruct (Hc (or_intror eq_refl)) as (n & [= ->] & Hn). exists n. split; [by right|done].
Qed.

Lemma tx_inv_reachable fs c :
  acceptable (visible fs) → rtc tx_step (Recovering, fs) c → tx_inv c.1 c.2.
Proof.
  intros Hv Hr. assert (tx_inv Recovering fs) as Hi by (split; [done|naive_solver..]).
  change Recovering with ((Recovering, fs).1) in Hi.
  change fs with ((Recovering, fs).2) in Hi at 2.
  induction Hr as [c|c c' c'' Hs _ IH]; [done|]. apply IH. by eapply tx_inv_step.
Qed.

Lemma recover_visible fs :
  recover_link_transaction fs = {| live := visible fs; stage := None; backup := None |}.
Proof. by destruct fs as [[l|] s [b|]]. Qed.

(** Recovering runs to its end, and its end is the same however it got there. *)
Lemma recover_steps fs :
  rtc tx_step (Recovering, fs) (Building, recover_link_transaction fs).
Proof.
  rewrite recover_visible. destruct fs as [l s b]. unfold visible. simpl.
  transitivity (Recovering, {| live := match l with Some t => Some t | None => b end;
                               stage := s; backup := None |}).
  { destruct b as [b|], l as [l|]; try done; apply rtc_once; constructor. }
  transitivity (Recovering, {| live := match l with Some t => Some t | None => b end;
                               stage := None; backup := None |}).
  { destruct s as [s|]; [|done]. apply rtc_once. constructor. }
  apply rtc_once. constructor.
Qed.

(** [commit] is a run of the steps. *)
Lemma commit_steps a p r c n l :
  ∃ pc, rtc tx_step (Committing, {| live := l; stage := Some n; backup := None |})
    (pc, (commit a p r c {| live := l; stage := Some n; backup := None |}).2).
Proof.
  destruct l as [l|]; unfold commit; simpl.
  - destruct a; simpl; [|exists Committing; done].
    destruct p; simpl.
    + exists Cleaning. eapply rtc_l; [constructor|]. eapply rtc_l; [constructor|].
      destruct c; [|done]. apply rtc_once. constructor.
    + destruct r.
      * exists Stopped. eapply rtc_l; [constructor|]. apply rtc_once. constructor.
      * exists Promoting. apply rtc_once. constructor.
  - destruct p; simpl.
    + exists Cleaning. eapply rtc_l; [constructor|]. apply rtc_once. constructor.
    + exists Promoting. apply rtc_once. constructor.
Qed.
End transaction.

(** (C6) The transaction is crash-safe. Take any number of runs, each stopped by a
    crash or an error at any point, a directory removal half done included: the
    live tree, and the tree the next recovery restores when there is none, is
    always the original tree or one that some run built completely, never a
    partial one, but for what the building of later trees has written through the
    hard links they share with it (the record of the last plan, the mode of
    executables); so a tree the user had is never lost; and the recovery at the
    start of the next run reaches a state with just that tree live. *)
Theorem link_transaction_crash_safe {T} (complete : T → Prop) (through : T → T → Prop)
    (old : option T) pc fs :
  rtc (tx_step complete through) (Recovering, {| live := old; stage := None; backup := None |}) (pc, fs) →
  (∀ t, visible fs = Some t → ∃ n, (old = Some n ∨ complete n) ∧ rtc through n t) ∧
  (is_Some old → is_Some (visible fs)) ∧
  recover_link_transaction fs = {| live := visible fs; stage := None; backup := None |} ∧
  rtc (tx_step complete through) (pc, fs) (Building, recover_link_transaction fs).
Proof.
  intros Hr. apply (tx_inv_reachable complete through old) in Hr as Hi.
  2: { destruct old as [o|]; [|done]. exists o. split; [by left|done]. }
  destruct Hi as [Hv _ _]. simpl in Hv. split_and!.
  - intros t Ht. by rewrite Ht in Hv.
  - intros [o ->]. by destruct (visible fs).
  - apply recover_visible.
  - eapply rtc_l; [apply crash|]. apply recover_steps.
Qed.

(** One run, to its end: after [recover_link_transaction] the commit either
    succeeds, and the staged tree is live with nothing else visible, or fails, and
    what is visible is what was before; it returns [Ok] exactly when the staged
    tree went live. *)
Theorem commit_spec {T} (n : T) aside_ok promote_ok restore_ok cleanup_ok fs :
  let start := recover_link_transaction fs in
  let '(ok, fs') := commit aside_ok promote_ok restore_ok cleanup_ok
                      {| live := live start; stage := Some n; backup := backup start |} in
  (ok = true → visible fs' = Some n ∧ live fs' = Some n ∧ stage fs' = None) ∧
  (ok = false → visible fs' = visible fs) ∧
  (aside_ok = true → promote_ok = true → ok = true).
Proof.
  intros start. subst start. rewrite recover_visible. generalize (visible fs). intros v.
  destruct v as [v|], aside_ok, promote_ok, restore_ok, cleanup_ok; cbn; by split_and!.
Qed.

(** A tree and its record; the record of the old tree is written while the new one is
    built, and the run is stopped between the renames. *)
Lemma link_transaction_crash_safe_witness :
  let old := Some ("old", "first") in
  let fs := {| live := None; stage := Some ("new", "second"); backup := Some ("old", "second") |} in
  let complete (t : string * string) := t = ("new", "second") in
  let through (t u : string * string) := t.1 = u.1 in
  rtc (tx_step complete through) (Recovering, {| live := old; stage := None; backup := None |})
    (Promoting, fs) ∧
  ∃ n, (old = Some n ∨ complete n) ∧ rtc through n ("old", "second").
Proof.
  intros old fs complete through.
  assert (rtc (tx_step complete through)
    (Recovering, {| live := old; stage := None; backup := None |}) (Promoting, fs)) as Hr.
  { eapply rtc_l; [apply recover_end|]. eapply rtc_l; [apply (build_some _ _ _ _ ("new", "second"))|].
    eapply rtc_l; [by apply (build_through _ _ _ ("old", "second"))|].
    eapply rtc_l; [by apply build_all|]. eapply rtc_l; [apply move_aside|]. done. }
  split; [exact Hr|].
  exact (proj1 (link_transaction_crash_safe complete through old Promoting fs Hr) ("old", "second") eq_refl).
Defined.

Lemma commit_spec_witness :
  let fs := {| live := Some "old"; stage := None; backup := None |} in
  commit true false true true {| live := Some "old"; stage := Some "new"; backup := None |}
    = (false, {| live := Some "old"; stage := Some "new"; backup := None |}) ∧
  visible {| live := Some "old"; stage := Some "new"; backup := None |} = visible fs.
Proof.
  intros fs. split; [reflexivity|].
  by apply (commit_spec "new" true false true true fs).
Defined.
