(* ===== verification/Tarball.v ===== *)
(** * oath-fetch: tarballs ([tarball.rs])

    Limits, integrity strings and the extraction of an archive. *)
From S2P Require Export Paths.

Record TarballLimits := {
  max_archive_bytes : Z;
  max_unpacked_bytes : Z;
  max_entries : Z;
  max_path_bytes : Z;
  max_path_components : Z;
}.
Definition default_limits : TarballLimits := {|
  max_archive_bytes := 512 * 1024 * 1024;
  max_unpacked_bytes := 2 * 1024 * 1024 * 1024;
  max_entries := 200000;
  max_path_bytes := 4096;
  max_path_components := 64;
|}.

(** [std::env::var] *)
Inductive EnvVar := NotPresent | NotUnicode | Value (v : string).
Definition env_u64 (env : string → EnvVar) (name : string) (dflt : Z) : result string Z :=
  match env name with
  | Value v => ok_or (parse_u64 v) (name +:+ " must be a positive integer")
  | NotPresent => Ok dflt
  | NotUnicode => Err ("could not read " +:+ name)
  end.
Definition from_env (env : string → EnvVar) : result string TarballLimits :=
  let limits := default_limits in
  a ← env_u64 env "OATH_MAX_TARBALL_BYTES" (max_archive_bytes limits);
  u ← env_u64 env "OATH_MAX_UNPACKED_BYTES" (max_unpacked_bytes limits);
  e ← env_u64 env "OATH_MAX_TARBALL_ENTRIES" (max_entries limits);
  Ok {| max_archive_bytes := a; max_unpacked_bytes := u; max_entries := e;
        max_path_bytes := max_path_bytes limits;
        max_path_components := max_path_components limits |}.

Definition check_archive_size (self : TarballLimits) (bytes : Z) : result string unit :=
  if (max_archive_bytes self <? bytes)%Z
  then Err ("tarball compressed size " +:+ pretty bytes +:+ " exceeds limit "
            +:+ pretty (max_archive_bytes self))
  else Ok tt.

(** ** Integrity *)

(** The digests and the base64 alphabet of the libraries. *)
Class Digests := {
  sha512 : string → string;
  sha256 : string → string;
  sha1 : string → string;
  base64 : string → string;
}.
Inductive Algorithm := Sha512 | Sha256 | Sha1.
#[export] Instance Algorithm_eq_dec : EqDecision Algorithm.
Proof. solve_decision. Defined.
Definition algorithm_name (a : Algorithm) : string :=
  match a with Sha512 => "sha512" | Sha256 => "sha256" | Sha1 => "sha1" end.

(** A hasher is the algorithm and the bytes it has been fed. *)
Record IntegrityVerifier := {
  algorithm : Algorithm;
  fed : string;
  expected : list string;
}.

Definition parse_token (token : string) : result string (string * string) :=
  p ← ok_or (split_once "-" token) ("invalid SRI format: " +:+ token);
  if decide (p.2 = "") then Err ("invalid SRI format: " +:+ token) else Ok p.
Definition digests_of (a : Algorithm) (tokens : list (string * string)) : list string :=
  omap (λ p, if decide (p.1 = algorithm_name a) then Some p.2 else None) tokens.

Definition new_verifier (sri : string) : result string IntegrityVerifier :=
  tokens ← mapM parse_token (split_whitespace sri);
  let pick a rest :=
    match digests_of a tokens with
    | [] => rest
    | ds => Ok {| algorithm := a; fed := ""; expected := ds |}
    end in
  pick Sha512 (pick Sha256 (pick Sha1
    (Err ("SRI metadata contains no supported digest: " +:+ sri)))).

Definition update (self : IntegrityVerifier) (data : string) : IntegrityVerifier :=
  {| algorithm := algorithm self; fed := fed self +:+ data; expected := expected self |}.

Definition finalize `{!Digests} (a : Algorithm) (data : string) : string :=
  base64 (match a with Sha512 => sha512 data | Sha256 => sha256 data | Sha1 => sha1 data end).

Definition finish `{!Digests} (self : IntegrityVerifier) : result string unit :=
  let a := algorithm_name (algorithm self) in
  let computed := finalize (algorithm self) (fed self) in
  if decide (computed ∈ expected self) then Ok tt
  else Err ("integrity check failed: expected one of "
            +:+ join " " ((λ d, a +:+ "-" +:+ d) <$> expected self)
            +:+ ", got " +:+ a +:+ "-" +:+ computed).

Definition verify_integrity `{!Digests} (data sri : string) : result string unit :=
  verifier ← new_verifier sri;
  finish (update verifier data).

(** ** Extraction *)

(** [sanitize_tar_path]; the outer [None] is a path that is not valid UTF-8. *)
Definition tar_component (path_str : string) (c : Component) : result string (list string) :=
  match c with
  | Normal part =>
      if decide (part = "") then Err ("tar path contains empty component: " +:+ path_str)
      else Ok [part]
  | CurDir => Ok []
  | ParentDir | RootDir => Err ("unsafe tar path: " +:+ path_str)
  end.
Definition sanitize_tar_path (limits : TarballLimits) (path : string) :
    result string (option (list string)) :=
  _ ← ensure (valid_utf8 path) "tar path is not valid UTF-8";
  _ ← ensure (Z.of_nat (String.length path) <=? max_path_bytes limits)%Z
        "tar path length exceeds limit";
  parts ← mjoin <$> mapM (tar_component path) (components path);
  let relative := drop 1 parts in
  if decide (relative = []) then Ok None
  else
    _ ← ensure (Z.of_nat (length relative) <=? max_path_components limits)%Z
          "tar path component count exceeds limit";
    Ok (Some relative).

(** npm's [.gitignore] to [.npmignore] normalization. *)
Definition normalize_name (relative : list string) : list string :=
  match last relative with
  | Some n => if decide (n = ".gitignore") then removelast relative ++ [".npmignore"] else relative
  | None => relative
  end.

Inductive EntryType := Directory | Regular | OtherType.
(** What the archive reader yields for an entry: its header fields, the bytes
    [std::io::copy] writes, and the I/O failure that cuts it short, if any. *)
Record TarEntry := {
  entry_path : string;
  entry_type : EntryType;
  entry_size : Z;
  entry_mode : option Z;
  entry_body : string;
  entry_failure : option string;
}.

(** The files below the destination, with their executable bit. *)
Record TarFile := { content : string; executable : bool }.
Notation TarFiles := (gmap (list string) TarFile).

(** [create_dir_all(parent)] fails when a file is in the way. *)
Definition parents_ok (fs : TarFiles) (p : list string) : bool :=
  forallb (λ i, match fs !! take i p with Some _ => false | None => true end)
    (seq 1 (length p - 1)).
(** [File::create] fails on a directory. *)
Definition is_directory (fs : TarFiles) (p : list string) : bool :=
  existsb (λ q, bool_decide (p `prefix_of` q) && bool_decide (p ≠ q)) (map_to_list fs).*1.

Record TarState := { entry_count : Z; unpacked_bytes : Z; files : TarFiles }.
(** An error leaves the files written so far. *)
Notation TarResult := (result (string * TarFiles)).
Definition with_files {A : Type} (fs : TarFiles) (r : result string A) : TarResult A :=
  match r with Ok a => Ok a | Err e => Err (e, fs) end.

(** The body of a regular entry: the file is created or truncated, and keeps an
    executable bit it had. *)
Definition write_entry (e : TarEntry) (p : list string) (fs : TarFiles) : TarResult TarFiles :=
  _ ← with_files fs (ensure (parents_ok fs p) "failed to create dir");
  _ ← with_files fs (ensure (negb (is_directory fs p)) "failed to create");
  let was := match fs !! p with Some f => executable f | None => false end in
  let exec := negb (Z.land (default 420 (entry_mode e)) 73 =? 0)%Z in
  match entry_failure e with
  | Some err => Err (err, <[p := {| content := entry_body e; executable := was |}]> fs)
  | None => Ok (<[p := {| content := entry_body e; executable := was || exec |}]> fs)
  end.

(** One round of the loop of [extract_archive]. *)
Definition extract_entry (limits : TarballLimits) (e : result string TarEntry) (st : TarState) :
    TarResult TarState :=
  let fs := files st in
  n ← with_files fs (ok_or (checked_add_u64 (entry_count st) 1) "tarball entry count overflow");
  _ ← with_files fs (ensure (n <=? max_entries limits)%Z "tarball entry count exceeds limit");
  e ← with_files fs e;
  sanitized ← with_files fs (sanitize_tar_path limits (entry_path e));
  match sanitized with
  | None => Ok {| entry_count := n; unpacked_bytes := unpacked_bytes st; files := fs |}
  | Some relative =>
      let p := normalize_name relative in
      match entry_type e with
      | Directory => Ok {| entry_count := n; unpacked_bytes := unpacked_bytes st; files := fs |}
      | Regular =>
          total ← with_files fs (ok_or (checked_add_u64 (unpacked_bytes st) (entry_size e))
                                  "tarball unpacked size overflow");
          _ ← with_files fs (ensure (total <=? max_unpacked_bytes limits)%Z
                               "tarball unpacked size exceeds limit");
          fs ← write_entry e p fs;
          Ok {| entry_count := n; unpacked_bytes := total; files := fs |}
      | OtherType => Err ("unsupported tar entry type", fs)
      end
  end.
Fixpoint extract_loop (limits : TarballLimits) (es : list (result string TarEntry))
    (st : TarState) : TarResult TarState :=
  match es with
  | [] => Ok st
  | e :: es => st ← extract_entry limits e st; extract_loop limits es st
  end.
Definition extract_archive (limits : TarballLimits) (es : list (result string TarEntry))
    (dest : TarFiles) : TarResult TarFiles :=
  files <$> extract_loop limits es {| entry_count := 0; unpacked_bytes := 0; files := dest |}.

(** [gunzip_untar] is the decompressor and the archive reader. *)
Definition extract_tarball_limited (gunzip_untar : string → list (result string TarEntry))
    (limits : TarballLimits) (data : string) (dest : TarFiles) : TarResult TarFiles :=
  _ ← with_files dest (check_archive_size limits (Z.of_nat (String.length data)));
  extract_archive limits (gunzip_untar data) dest.
Definition extract_tarball (env : string → EnvVar)
    (gunzip_untar : string → list (result string TarEntry)) (data : string) (dest : TarFiles) :
    TarResult TarFiles :=
  limits ← with_files dest (from_env env);
  extract_tarball_limited gunzip_untar limits data dest.

Definition list_tarball (es : list (result string TarEntry)) : result string (list string) :=
  es ← mapM id es;
  Ok (omap (λ e, match sanitize_tar_path default_limits (entry_path e) with
                 | Ok (Some p) => Some (join "/" p)
                 | _ => None
                 end) es).

(** ** Integrity: lemmas *)

(** A well-formed SRI token. *)
Definition sri_token (token alg digest : string) : Prop :=
  token = alg +:+ "-" +:+ digest ∧ has "-" alg = false ∧ digest ≠ "".

Lemma parse_token_Ok token alg digest :
  parse_token token = Ok (alg, digest) ↔ sri_token token alg digest.
Proof.
  unfold parse_token, sri_token. rewrite bind_Ok. split.
  - intros ([a d] & Hs%ok_or_Ok & H). apply split_once_Some in Hs as [-> Ha].
    case_decide; [done|]. by injection H as -> ->.
  - intros (-> & Ha & Hd). exists (alg, digest). split.
    + apply ok_or_Ok. by apply split_once_Some.
    + by rewrite decide_False.
Qed.

Lemma sri_token_inj t1 t2 a1 d1 a2 d2 :
  sri_token t1 a1 d1 → sri_token t2 a2 d2 → t1 = t2 → a1 = a2 ∧ d1 = d2.
Proof.
  rewrite <- !parse_token_Ok. intros H1 H2 ->. rewrite H1 in H2. by injection H2.
Qed.

Lemma algorithm_name_inj a b : algorithm_name a = algorithm_name b → a = b.
Proof. by destruct a, b. Qed.
Lemma algorithm_name_dash a : has "-" (algorithm_name a) = false.
Proof. by destruct a. Qed.

Lemma elem_of_digests_of a tokens d :
  d ∈ digests_of a tokens ↔ (algorithm_name a, d) ∈ tokens.
Proof.
  unfold digests_of. rewrite list_elem_of_omap. split.
  - intros ([n e] & Hin & H). simpl in H. case_decide; naive_solver.
  - intros H. exists (algorithm_name a, d). split; [done|]. simpl. by rewrite decide_True.
Qed.
Lemma digests_of_nil a tokens :
  digests_of a tokens = [] ↔ ∀ d, (algorithm_name a, d) ∉ tokens.
Proof.
  split.
  - intros E d. rewrite <- elem_of_digests_of, E. set_solver.
  - intros H. destruct (digests_of a tokens) as [|d ds] eqn:E; [done|].
    destruct (H d). rewrite <- elem_of_digests_of, E. set_solver.
Qed.

(** The strength of an algorithm. *)
Definition strength (a : Algorithm) : nat :=
  match a with Sha512 => 2 | Sha256 => 1 | Sha1 => 0 end.

Lemma new_verifier_Ok sri v :
  new_verifier sri = Ok v ↔
  ∃ tokens, mapM parse_token (split_whitespace sri) = Ok tokens ∧
    fed v = "" ∧ expected v = digests_of (algorithm v) tokens ∧ expected v ≠ [] ∧
    ∀ b, strength (algorithm v) < strength b → digests_of b tokens = [].
Proof.
  unfold new_verifier. rewrite bind_Ok. f_equiv. intros tokens. f_equiv.
  destruct (digests_of Sha512 tokens) as [|d1 l1] eqn:E1;
    [destruct (digests_of Sha256 tokens) as [|d2 l2] eqn:E2;
     [destruct (digests_of Sha1 tokens) as [|d3 l3] eqn:E3|]|].
  - split; [done|]. destruct v as [[] f e]; simpl; naive_solver.
  - split.
    + intros [= <-]. split_and!; simpl; try done. intros []; simpl; try done; lia.
    + destruct v as [[] f e]; simpl; intros (-> & He & Hne & Hb); try congruence.
  - split.
    + intros [= <-]. split_and!; simpl; try done. intros []; simpl; try done; lia.
    + destruct v as [[] f e]; simpl; intros (-> & He & Hne & Hb); try congruence.
      specialize (Hb Sha256). simpl in Hb. rewrite Hb in E2 by lia. done.
  - split.
    + intros [= <-]. split_and!; simpl; try done. intros []; simpl; lia.
    + destruct v as [[] f e]; simpl; intros (-> & He & Hne & Hb); try congruence;
        specialize (Hb Sha512); simpl in Hb; rewrite Hb in E1 by lia; done.
Qed.

Section integrity.
Context `{!Digests}.
Implicit Types v : IntegrityVerifier.

Lemma finish_Ok v :
  finish v = Ok tt ↔ finalize (algorithm v) (fed v) ∈ expected v.
Proof. unfold finish. case_decide; naive_solver. Qed.

Lemma update_chunks v chunks :
  foldl update v chunks = update v (join "" chunks).
Proof.
  revert v. induction chunks as [|c cs IH]; intros v; simpl.
  - unfold update. rewrite str_app_nil_r. by destruct v.
  - rewrite IH. destruct cs as [|c' cs].
    + simpl. unfold update. simpl. f_equal. by rewrite str_app_nil_r.
    + unfold update. cbn [fed algorithm expected]. f_equal.
      by rewrite str_app_nil_l, str_app_assoc.
Qed.

(** (C21) Integrity strings. [verify_integrity] accepts some data exactly when
    every whitespace-separated token of the integrity string is [algorithm-digest]
    with a digest that is not empty, and the token of the data's own digest under
    an algorithm the program supports is one of them, no token naming a stronger
    algorithm (sha512 over sha256 over sha1). A digest fed in chunks, as a download
    streams it, is the digest of the whole body. *)
Theorem verify_integrity_spec data sri :
  (verify_integrity data sri = Ok tt ↔
   Forall (λ t, ∃ a d, sri_token t a d) (split_whitespace sri) ∧
   ∃ a, finalize a data ≠ "" ∧
     algorithm_name a +:+ "-" +:+ finalize a data ∈ split_whitespace sri ∧
     ∀ b t d, strength a < strength b → t ∈ split_whitespace sri →
       ¬ sri_token t (algorithm_name b) d) ∧
  (∀ chunks, join "" chunks = data →
     (v ← new_verifier sri; finish (foldl update v chunks)) = verify_integrity data sri).
Proof.
  split; [|intros chunks <-; unfold verify_integrity; destruct (new_verifier sri);
           simpl; [by rewrite update_chunks | done]].
  unfold verify_integrity. rewrite bind_Ok. setoid_rewrite finish_Ok.
  setoid_rewrite new_verifier_Ok. setoid_rewrite mapM_Ok. split.
  - intros (v & (tokens & HF & Hfed & He & _ & Hb) & Hin). simpl in Hin.
    rewrite Hfed, str_app_nil_l, He, elem_of_digests_of in Hin. split.
    { apply Forall_forall. intros t Ht.
      apply list_elem_of_lookup in Ht as [i Hi].
      destruct (Forall2_lookup_l _ _ _ _ _ HF Hi) as ([a d] & _ & ?%parse_token_Ok). eauto. }
    exists (algorithm v). apply list_elem_of_lookup in Hin as [i Hi].
    destruct (Forall2_lookup_r _ _ _ _ _ HF Hi) as (t & Ht & Hp%parse_token_Ok).
    destruct Hp as (-> & _ & Hne). split_and!; [done|by eapply list_elem_of_lookup_2|].
    intros b t d Hlt Htin Hs%parse_token_Ok.
    apply Hb, digests_of_nil with (d := d) in Hlt. destruct Hlt.
    apply list_elem_of_lookup in Htin as [j Hj].
    destruct (Forall2_lookup_l _ _ _ _ _ HF Hj) as (p & Hp & Hpar).
    rewrite Hs in Hpar. injection Hpar as <-. by eapply list_elem_of_lookup_2.
  - intros (Hall & a & Hne & Hin & Hb).
    assert (∃ tokens, Forall2 (λ t p, parse_token t = Ok p) (split_whitespace sri) tokens)
      as [tokens HF].
    { clear -Hall. induction Hall as [|t ts (a & d & H) _ [l IH]]; [by exists []|].
      exists ((a, d) :: l). constructor; [by apply parse_token_Ok|done]. }
    assert ((algorithm_name a, finalize a data) ∈ tokens) as Htok.
    { apply list_elem_of_lookup in Hin as [i Hi].
      destruct (Forall2_lookup_l _ _ _ _ _ HF Hi) as (p & Hp & Hpar).
      assert (parse_token (algorithm_name a +:+ "-" +:+ finalize a data) =
              Ok (algorithm_name a, finalize a data)) as E
        by (apply parse_token_Ok; split_and!; [done|apply algorithm_name_dash|done]).
      rewrite E in Hpar. injection Hpar as <-. by eapply list_elem_of_lookup_2. }
    exists {| algorithm := a; fed := ""; expected := digests_of a tokens |}. simpl. split.
    + exists tokens. split_and!; [done..| |].
      * intros E. by apply (proj1 (digests_of_nil _ _) E) in Htok.
      * intros b Hlt. apply digests_of_nil. intros d Hd.
        apply list_elem_of_lookup in Hd as [i Hi].
        destruct (Forall2_lookup_r _ _ _ _ _ HF Hi) as (t & Ht & Hp%parse_token_Ok).
        eapply Hb; [done| |done]. by eapply list_elem_of_lookup_2.
    + by rewrite str_app_nil_l, elem_of_digests_of.
Qed.
End integrity.

(** Digests to evaluate with: short identifiable strings. *)
Definition toy_digests : Digests := {|
  sha512 s := "5" +:+ s; sha256 s := "2" +:+ s; sha1 s := "1" +:+ s; base64 s := s |}.

Lemma verify_integrity_spec_witness :
  @verify_integrity toy_digests "ab" "sha1-1ab sha512-5ab" = Ok tt ∧
  @verify_integrity toy_digests "ab" "sha1-1ab sha512-5xx" ≠ Ok tt ∧
  (v ← new_verifier "sha512-5ab"; @finish toy_digests (foldl update v ["a"; "b"])) =
    @verify_integrity toy_digests "ab" "sha512-5ab".
Proof.
  split; [reflexivity|]. split; [by vm_compute|].
  exact (proj2 (@verify_integrity_spec toy_digests "ab" "sha512-5ab") ["a"; "b"] eq_refl).
Defined.

(** ** Extraction: lemmas *)

Lemma with_files_Ok {A : Type} fs (r : result string A) a :
  with_files fs r = Ok a ↔ r = Ok a.
Proof. destruct r; naive_solver. Qed.
Lemma with_files_Err {A : Type} fs (r : result string A) e :
  with_files fs r = Err e ↔ r = Err e.1 ∧ e.2 = fs.
Proof. destruct r, e; naive_solver. Qed.

(** The names of an archive path without its first component. *)
Definition stripped_path (path : string) : list string := drop 1 (names (components path)).

Lemma tar_component_mapM path cs ps :
  mapM (tar_component path) cs = Ok ps →
  mjoin ps = names cs ∧ Forall (λ c, c ≠ ParentDir ∧ c ≠ RootDir) cs.
Proof.
  rewrite mapM_Ok. induction 1 as [|c p cs ps H _ [IH1 IH2]]; [done|].
  destruct c as [| | |part]; simpl in H; try done.
  - injection H as <-. split; [done|]. by constructor.
  - case_decide; [done|]. injection H as <-. split; [|by constructor].
    csimpl. by rewrite IH1.
Qed.
Lemma names_safe path : Forall safe_name (names (components path)).
Proof.
  apply Forall_forall. unfold names. intros n (c & Hc & H)%list_elem_of_omap.
  destruct c; try done. injection H as ->. by eapply components_normal_safe.
Qed.
Lemma tar_component_total path cs :
  Forall (λ c, c ≠ ParentDir ∧ c ≠ RootDir ∧ c ≠ Normal "") cs →
  ∃ ps, mapM (tar_component path) cs = Ok ps.
Proof.
  induction 1 as [|c cs (Hp & Hr & Hn) _ [ps IH]]; [by exists []|].
  destruct c as [| | |part]; try done.
  - exists ([] :: ps). simpl. by rewrite IH.
  - exists ([part] :: ps). simpl. rewrite decide_False by naive_solver. simpl. by rewrite IH.
Qed.

(** The result of [sanitize_tar_path]. *)
Definition target (path : string) : option (list string) :=
  if decide (stripped_path path = []) then None else Some (stripped_path path).

Lemma sanitize_tar_path_Ok limits path r :
  sanitize_tar_path limits path = Ok r →
  r = target path ∧
  Forall (λ c, c ≠ ParentDir ∧ c ≠ RootDir) (components path) ∧
  ∀ p, r = Some p → (Z.of_nat (length p) ≤ max_path_components limits)%Z.
Proof.
  unfold sanitize_tar_path, target. intros H. inv_ok.
  destruct (tar_component_mapM _ _ _ H1) as [Hj Hcs]. subst.
  rewrite Hj in H2. unfold stripped_path. case_decide as E.
  - injection H2 as <-. by split_and!.
  - inv_ok. split_and!; [done|done|]. intros p [= <-].
    match goal with H : (_ <=? max_path_components _)%Z = true |- _ => by apply Z.leb_le in H end.
Qed.

(** A path extraction may write: below the destination, bounded, not [.gitignore]. *)
Definition good_path (limits : TarballLimits) (p : list string) : Prop :=
  p ≠ [] ∧ Forall safe_name p ∧ (Z.of_nat (length p) ≤ max_path_components limits)%Z ∧
  last p ≠ Some ".gitignore".

Lemma normalize_name_good limits path p :
  target path = Some p → (Z.of_nat (length p) ≤ max_path_components limits)%Z →
  good_path limits (normalize_name p).
Proof.
  unfold target. case_decide as Hne; [done|]. intros [= <-] Hlen.
  assert (Forall safe_name (stripped_path path)) as Hs by apply Forall_drop, names_safe.
  revert Hne Hlen Hs. generalize (stripped_path path). intros p Hne Hlen Hs.
  unfold normalize_name. destruct p as [|x p _] using rev_ind; [done|].
  rewrite last_snoc. apply Forall_app in Hs as [Hp Hx]. case_decide as Hg.
  - rewrite removelast_last. repeat split.
    + by destruct p.
    + apply Forall_app. split; [done|]. by repeat constructor.
    + rewrite length_app in *. simpl in *. lia.
    + by rewrite last_snoc.
  - repeat split; [by destruct p|by apply Forall_app|done|]. rewrite last_snoc. congruence.
Qed.

(** The bytes in a tree. *)
Definition tree_size (fs : TarFiles) : nat :=
  sum_list ((λ x, String.length (content x.2)) <$> map_to_list fs).

Lemma tree_size_perm (l k : list (list string * TarFile)) :
  l ≡ₚ k →
  sum_list ((λ x, String.length (content x.2)) <$> l) =
  sum_list ((λ x, String.length (content x.2)) <$> k).
Proof. induction 1; csimpl; lia. Qed.
Lemma tree_size_fresh fs p f :
  fs !! p = None → tree_size (<[p:=f]> fs) = String.length (content f) + tree_size fs.
Proof.
  intros H. unfold tree_size. by rewrite (tree_size_perm _ _ (map_to_list_insert _ _ _ H)).
Qed.
Lemma tree_size_insert fs p f :
  tree_size (<[p:=f]> fs) ≤ String.length (content f) + tree_size fs.
Proof.
  destruct (fs !! p) as [g|] eqn:E; [|by rewrite tree_size_fresh].
  rewrite <- insert_delete_eq, tree_size_fresh by apply lookup_delete_eq.
  rewrite <- (insert_delete_id fs p g) at 2 by done.
  rewrite tree_size_fresh by apply lookup_delete_eq. lia.
Qed.

(** The regular entries an archive writes, in order. *)
Definition regular_target (e : TarEntry) : option (list string * TarEntry) :=
  match target (entry_path e), entry_type e with
  | Some p, Regular => Some (normalize_name p, e)
  | _, _ => None
  end.
Definition written (l : list TarEntry) : list (list string * TarEntry) := omap regular_target l.

(** The tree an extraction leaves. *)
Definition tree_of (r : TarResult TarFiles) : TarFiles :=
  match r with Ok fs => fs | Err (_, fs) => fs end.
Definition exec_bits (e : TarEntry) : bool :=
  negb (Z.land (default 420 (entry_mode e)) 73 =? 0)%Z.

Lemma write_entry_tree e p fs :
  tree_of (write_entry e p fs) = fs ∨
  ∃ x, tree_of (write_entry e p fs) = <[p:={| content := entry_body e; executable := x |}]> fs.
Proof.
  unfold write_entry. destruct (parents_ok fs p); [|by left].
  destruct (is_directory fs p); [by left|]. right.
  simpl. destruct (entry_failure e); simpl; eauto.
Qed.
Lemma write_entry_Ok e p fs fs' :
  write_entry e p fs = Ok fs' →
  fs' = <[p := {| content := entry_body e;
                  executable := match fs !! p with Some f => executable f | None => false end
                                || exec_bits e |}]> fs.
Proof.
  unfold write_entry. destruct (parents_ok fs p); [|done].
  destruct (is_directory fs p); [done|]. simpl. destruct (entry_failure e); naive_solver.
Qed.

(** What a round that succeeds did. *)
Lemma extract_entry_Ok limits e st st' :
  extract_entry limits e st = Ok st' →
  ∃ e0, e = Ok e0 ∧
    entry_count st' = (entry_count st + 1)%Z ∧ (entry_count st' ≤ max_entries limits)%Z ∧
    Forall (λ c, c ≠ ParentDir ∧ c ≠ RootDir) (components (entry_path e0)) ∧
    match regular_target e0 with
    | None =>
        unpacked_bytes st' = unpacked_bytes st ∧ files st' = files st ∧
        (entry_type e0 = OtherType → target (entry_path e0) = None)
    | Some (p, _) =>
        good_path limits p ∧ entry_type e0 ≠ OtherType ∧
        unpacked_bytes st' = (unpacked_bytes st + entry_size e0)%Z ∧
        (unpacked_bytes st' ≤ max_unpacked_bytes limits)%Z ∧
        write_entry e0 p (files st) = Ok (files st')
    end.
Proof.
  unfold extract_entry, checked_add_u64. intros (n & Hn & H)%bind_Ok.
  apply with_files_Ok, ok_or_Ok in Hn. case_match; [|done]. injection Hn as <-.
  apply bind_Ok in H as ([] & Hm%with_files_Ok%ensure_Ok & H).
  apply bind_Ok in H as (e0 & He%with_files_Ok & H).
  apply bind_Ok in H as (s & Hs%with_files_Ok & H).
  apply sanitize_tar_path_Ok in Hs as (-> & Hcs & Hlen).
  exists e0. apply Z.leb_le in Hm. split; [done|].
  unfold regular_target. destruct (target (entry_path e0)) as [p|] eqn:Et.
  2: { injection H as <-. by split_and!. }
  destruct (entry_type e0).
  - injection H as <-. by split_and!.
  - apply bind_Ok in H as (t & Ht%with_files_Ok%ok_or_Ok & H).
    case_match; [|done]. injection Ht as <-.
    apply bind_Ok in H as ([] & Hu%with_files_Ok%ensure_Ok & H). apply Z.leb_le in Hu.
    apply bind_Ok in H as (fs & Hw & [= <-]). split_and!; try done.
    eapply normalize_name_good; [done|by apply Hlen].
  - done.
Qed.

(** What a round that fails left behind. *)
Lemma extract_entry_Err limits e st msg fs :
  extract_entry limits e st = Err (msg, fs) →
  fs = files st ∨
  ∃ e0 p x, e = Ok e0 ∧ regular_target e0 = Some (p, e0) ∧ good_path limits p ∧
    (unpacked_bytes st + entry_size e0 ≤ max_unpacked_bytes limits)%Z ∧
    fs = <[p:={| content := entry_body e0; executable := x |}]> (files st).
Proof.
  unfold extract_entry, checked_add_u64. intros [[_ H]%with_files_Err|(n & _ & H)]%bind_Err;
    [by left|].
  apply bind_Err in H as [[_ H]%with_files_Err|(u & _ & H)]; [by left|].
  apply bind_Err in H as [[_ H]%with_files_Err|(e0 & He%with_files_Ok & H)]; [by left|].
  apply bind_Err in H as [[_ H]%with_files_Err|(s & Hs%with_files_Ok & H)]; [by left|].
  apply sanitize_tar_path_Ok in Hs as (-> & _ & Hlen).
  destruct (target (entry_path e0)) as [p|] eqn:Et; [|done].
  destruct (entry_type e0) eqn:Ety; [done| |injection H as _ <-; by left].
  apply bind_Err in H as [[_ H]%with_files_Err|(t & Ht%with_files_Ok%ok_or_Ok & H)]; [by left|].
  case_match; [|done]. injection Ht as <-.
  apply bind_Err in H as [[_ H]%with_files_Err|([] & Hu%with_files_Ok%ensure_Ok & H)]; [by left|].
  apply Z.leb_le in Hu. apply bind_Err in H as [H|(? & _ & H)]; [|done].
  destruct (write_entry_tree e0 (normalize_name p) (files st)) as [E|[x E]];
    rewrite H in E; simpl in E; [by left|]. right.
  exists e0, (normalize_name p), x. split_and!; try done.
  - unfold regular_target. by rewrite Et, Ety.
  - eapply normalize_name_good; [done|by apply Hlen].
Qed.

(** The tree stays in bounds, whether extraction succeeds or stops. *)
Definition bounded (limits : TarballLimits) (u : Z) (fs : TarFiles) : Prop :=
  (∀ p f, fs !! p = Some f → good_path limits p) ∧ (Z.of_nat (tree_size fs) ≤ u)%Z.
(** The reader never yields more bytes than the header announces. *)
Definition sized (e : result string TarEntry) : Prop :=
  match e with
  | Ok e => (Z.of_nat (String.length (entry_body e)) ≤ entry_size e)%Z
  | Err _ => True
  end.

Lemma bounded_insert limits u fs p f n :
  bounded limits u fs → good_path limits p →
  (Z.of_nat (String.length (content f)) ≤ n)%Z → bounded limits (u + n) (<[p:=f]> fs).
Proof.
  intros [Hp Hs] Hg Hf. split.
  - intros q g [[<- _]|[_ ?]]%lookup_insert_Some; eauto.
  - pose proof (tree_size_insert fs p f). lia.
Qed.
Lemma extract_loop_bounded limits es st :
  Forall sized es → bounded limits (unpacked_bytes st) (files st) →
  (unpacked_bytes st ≤ max_unpacked_bytes limits)%Z →
  bounded limits (max_unpacked_bytes limits) (tree_of (files <$> extract_loop limits es st)).
Proof.
  intros Hes. revert st. induction Hes as [|e es He _ IH]; intros st Hb Hu; simpl.
  { destruct Hb. split; [done|lia]. }
  destruct (extract_entry limits e st) as [st'|[msg fs]] eqn:E; simpl.
  - apply extract_entry_Ok in E as (e0 & -> & _ & _ & _ & E). apply IH.
    + destruct (regular_target e0) as [[p e1]|]; [|destruct E as (-> & -> & _); done].
      destruct E as (Hg & _ & -> & _ & ->%write_entry_Ok). by apply bounded_insert.
    + destruct (regular_target e0) as [[p e1]|].
      * by destruct E as (_ & _ & _ & ? & _).
      * by destruct E as (-> & _).
  - apply extract_entry_Err in E as [->|(e0 & p & x & -> & _ & Hg & Hm & ->)].
    + destruct Hb. split; [done|lia].
    + destruct (bounded_insert limits (unpacked_bytes st) (files st) p
        {| content := entry_body e0; executable := x |} (entry_size e0)) as [? ?];
        [done..|]. split; [done|lia].
Qed.

Definition was_executable (fs : TarFiles) (p : list string) : bool :=
  match fs !! p with Some f => executable f | None => false end.
Definition accepted_entry (e : TarEntry) : Prop :=
  Forall (λ c, c ≠ ParentDir ∧ c ≠ RootDir) (components (entry_path e)) ∧
  (entry_type e = OtherType → target (entry_path e) = None).
Definition bodies (l : list TarEntry) : list (list string * string) :=
  (λ x, (x.1, entry_body x.2)) <$> written l.
Definition made_executable (l : list TarEntry) (p : list string) : bool :=
  existsb (λ x, bool_decide (x.1 = p) && exec_bits x.2) (written l).

Lemma extract_loop_Ok limits es st st' :
  extract_loop limits es st = Ok st' →
  ∃ l, es = Ok <$> l ∧ Forall accepted_entry l ∧
    entry_count st' = (entry_count st + Z.of_nat (length l))%Z ∧
    (l = [] ∨ (entry_count st' ≤ max_entries limits)%Z) ∧
    content <$> files st' = list_to_map (rev (bodies l)) ∪ (content <$> files st) ∧
    ∀ p f, files st' !! p = Some f →
      executable f = was_executable (files st) p || made_executable l p.
Proof.
  revert st. induction es as [|e es IH]; intros st H; simpl in H.
  { injection H as <-. exists []. split_and!; [done|constructor|simpl; lia|by left| |].
    - unfold bodies. simpl. by rewrite (left_id_L ∅ (∪)).
    - intros p f Hf. unfold was_executable. by rewrite Hf, orb_false_r. }
  apply bind_Ok in H as (st1 & (e0 & -> & Hn & Hm & Hc & E)%extract_entry_Ok & H).
  apply IH in H as (l & -> & Hacc & Hn' & Hm' & Hfs & Hx). exists (e0 :: l).
  assert (accepted_entry e0) as Ha.
  { split; [done|]. destruct (regular_target e0) as [[p e1]|]; naive_solver. }
  split_and!; [done|by constructor|simpl; lia| | |].
  - right. destruct Hm' as [->|]; [|done]. simpl in Hn'. lia.
  - rewrite Hfs. unfold bodies, written. simpl.
    destruct (regular_target e0) as [[p e1]|] eqn:Er; [|by destruct E as (_ & -> & _)].
    destruct E as (_ & _ & _ & _ & ->%write_entry_Ok).
    assert (e1 = e0) as -> by (unfold regular_target in Er; repeat case_match; naive_solver).
    csimpl. rewrite list_to_map_app, <- (assoc_L (∪)). f_equal.
    rewrite fmap_insert. simpl. by rewrite <- insert_union_l, (left_id_L ∅ (∪)).
  - intros p f Hf. rewrite (Hx p f Hf). unfold made_executable, written. simpl.
    destruct (regular_target e0) as [[q e1]|] eqn:Er.
    2: { destruct E as (_ & E & _). by rewrite E. }
    destruct E as (_ & _ & _ & _ & E%write_entry_Ok). rewrite E.
    assert (e1 = e0) as -> by (unfold regular_target in Er; repeat case_match; naive_solver).
    unfold was_executable. simpl. destruct (decide (q = p)) as [->|Hqp].
    + rewrite lookup_insert_eq, bool_decide_true by done. simpl. by rewrite orb_assoc.
    + rewrite lookup_insert_ne, bool_decide_false by done. done.
Qed.

(** (C10) Archive extraction. Into an empty destination, with a reader that yields
    at most the announced bytes of an entry, and whatever the archive holds:
    every file is below the destination under plain names, within the limit of
    path components and never called [.gitignore], and the bytes on disk are
    within the limit, also when extraction stops with an error. When it succeeds,
    every entry was readable, there are at most [max_entries], none has a [..] or
    root component, none that is kept is anything but a file or a directory; the
    contents are those of the last regular entry of each path, and a file is
    executable exactly when one of its entries has an executable bit. *)
Theorem extract_archive_spec limits es :
  (0 ≤ max_unpacked_bytes limits)%Z → Forall sized es →
  let r := extract_archive limits es ∅ in
  bounded limits (max_unpacked_bytes limits) (tree_of r) ∧
  ∀ fs, r = Ok fs →
    ∃ l, es = Ok <$> l ∧ (l = [] ∨ (Z.of_nat (length l) ≤ max_entries limits)%Z) ∧
      Forall accepted_entry l ∧
      content <$> fs = list_to_map (rev (bodies l)) ∧
      ∀ p f, fs !! p = Some f → executable f = made_executable l p.
Proof.
  intros Hmax Hes r. split.
  - apply extract_loop_bounded; [done| |done]. split; [|done].
    intros p f Hf. simpl in Hf. by rewrite lookup_empty in Hf.
  - intros fs (st & Hst & ->)%fmap_Ok.
    apply extract_loop_Ok in Hst as (l & -> & Hacc & Hn & Hm & Hfs & Hx). exists l.
    simpl in *. split_and!; [done| |done| |done].
    + rewrite Hn in Hm. naive_solver lia.
    + by rewrite Hfs, fmap_empty, (right_id_L ∅ (∪)).
Qed.

Definition sample_entry (path body : string) : TarEntry := {|
  entry_path := path; entry_type := Regular; entry_size := 8; entry_mode := Some 493%Z;
  entry_body := body; entry_failure := None |}.

Lemma extract_archive_spec_witness :
  extract_archive default_limits
    [Ok (sample_entry "package/lib/.gitignore" "a"); Ok (sample_entry "package/lib/x" "b");
     Ok (sample_entry "package/./lib/x" "c")] ∅ =
    Ok (<[["lib"; "x"] := {| content := "c"; executable := true |}]>
        (<[["lib"; ".npmignore"] := {| content := "a"; executable := true |}]> ∅)) ∧
  (∃ fs, extract_archive default_limits
    [Ok (sample_entry "package/a" "a"); Ok (sample_entry "../../etc/passwd" "b")] ∅ =
    Err ("unsafe tar path: ../../etc/passwd", fs)) ∧
  bounded default_limits (max_unpacked_bytes default_limits)
    (tree_of (extract_archive default_limits
      [Ok (sample_entry "package/a" "a"); Ok (sample_entry "../../etc/passwd" "b")] ∅)).
Proof.
  split; [reflexivity|]. split; [eexists; reflexivity|].
  refine (proj1 (extract_archive_spec default_limits
    [Ok (sample_entry "package/a" "a"); Ok (sample_entry "../../etc/passwd" "b")] _ _)).
  - simpl. lia.
  - repeat constructor; simpl; lia.
Defined.
