(* ===== verification/Versions.v ===== *)
(** * oath-fetch: packuments and version resolution ([packument.rs], [resolve.rs])

    The registry's metadata of a package, and the choice of one of its versions
    for a specifier. *)
From S2P Require Export Json.

(** ** Packuments

    Fields of the same name in several Rust structs carry a suffix here. *)
Record Signature := { keyid : string; sig : string }.
Record DistInfo := {
  tarball : string;
  shasum : option string;
  dist_integrity : option string;
  file_count : option Z;
  unpacked_size : option Z;
  signatures : list Signature;
}.
Record PeerDepMeta := { peer_optional : bool }.
Inductive BinField := Single (s : string) | Map (m : gmap string string).
Inductive Engines :=
  | EnginesMap (m : gmap string string) | EnginesString (s : string)
  | EnginesArray (l : list string) | EnginesNone.
Record VersionInfo := {
  info_name : string;
  info_version : string;
  info_dependencies : gmap string string;
  dev_dependencies : gmap string string;
  optional_dependencies : gmap string string;
  info_peer_dependencies : gmap string string;
  peer_dependencies_meta : gmap string PeerDepMeta;
  bin : option BinField;
  engines : Engines;
  os : list string;
  cpu : list string;
  dist : DistInfo;
  info_has_install_script : bool;
  has_shrinkwrap : bool;
  funding : option Json;
}.
Record Packument := {
  packument_name : string;
  modified : option string;
  dist_tags : gmap string string;
  versions : gmap string VersionInfo;
  time : gmap string string;
}.

Definition dist_tag_version (p : Packument) (tag : string) : option string := dist_tags p !! tag.
Definition latest_version (p : Packument) : option string := dist_tag_version p "latest".
Definition version_info (p : Packument) (v : string) : option VersionInfo := versions p !! v.

(** ** node_semver

    The grammar of versions and ranges and [satisfies] are the library's. Its
    [Version] is [Ord]: [version_le] is [a.cmp(b) ≠ Greater], a total preorder
    (build metadata does not count, so it is not antisymmetric). *)
Class Semver := {
  Version : Type;
  Range : Type;
  parse_version : string → option Version;
  parse_range : string → option Range;
  satisfies : Range → Version → bool;
  version_le : relation Version;
  version_le_dec :: RelDecision version_le;
  version_le_total :: Total version_le;
  version_le_trans :: Transitive version_le;
}.

(** ** [resolve_version] *)

(** The specifier without an [npm:name@] prefix. *)
Definition strip_alias (specifier : string) : string :=
  match strip_prefix "npm:" specifier with
  | None => specifier
  | Some rest =>
      match strip_prefix "@" rest with
      | Some stripped =>
          match find_str "@" stripped with
          | Some p => drop_str (p + 1 + 1) rest
          | None => "latest"
          end
      | None =>
          match rfind_str "@" rest with
          | Some at_pos => if 0 <? at_pos then drop_str (at_pos + 1) rest else "latest"
          | None => "latest"
          end
      end
  end.

Section resolve.
Context {SV : Semver} {HI : HashIter}.

(** A version string, its metadata, and the parsed version. *)
Notation Candidate := (string * VersionInfo * Version)%type.
Definition candidate_le (a b : Candidate) : Prop := version_le a.2 b.2.
#[export] Instance candidate_le_dec : RelDecision candidate_le.
Proof. intros a b. unfold candidate_le. apply _. Defined.
#[export] Instance candidate_le_total : Total candidate_le.
Proof. intros a b. apply version_le_total. Qed.
#[export] Instance candidate_le_trans : Transitive candidate_le.
Proof. intros a b c. apply version_le_trans. Qed.

Definition candidates_of (ok : Version → bool) (p : Packument) : list Candidate :=
  omap (λ e, match parse_version e.1 with
             | Some v => if ok v then Some (e.1, e.2, v) else None
             | None => None
             end) (hash_iter (versions p)).
Definition highest (ok : Version → bool) (p : Packument) : option (string * VersionInfo) :=
  fst <$> last (merge_sort candidate_le (candidates_of ok p)).

Definition resolve_version (p : Packument) (specifier : string) :
    result string (string * VersionInfo) :=
  let specifier := strip_alias specifier in
  let tagged := v ← dist_tags p !! specifier; pair v <$> versions p !! v in
  match tagged with
  | Some r => Ok r
  | None =>
      match versions p !! specifier with
      | Some info => Ok (specifier, info)
      | None =>
          range ← ok_or (parse_range specifier) ("invalid semver range: " +:+ specifier);
          ok_or (highest (satisfies range) p)
            ("no version of " +:+ packument_name p +:+ " satisfies range " +:+ specifier)
      end
  end.

Definition resolve_intersection (p : Packument) (specifiers : list string) :
    result string (string * VersionInfo) :=
  ranges ← mapM (λ s, ok_or (parse_range s) ("invalid range: " +:+ s)) specifiers;
  ok_or (highest (λ v, forallb (λ r, satisfies r v) ranges) p)
    ("no version of " +:+ packument_name p +:+ " satisfies all constraints").
End resolve.

(** ** The prefix *)

Lemma strip_alias_plain s : starts_with "npm:" s = false → strip_alias s = s.
Proof.
  unfold strip_alias, starts_with. by destruct (strip_prefix "npm:" s).
Qed.
Lemma strip_npm r : strip_prefix "npm:" ("npm:" +:+ r) = Some r.
Proof. by apply strip_prefix_Some. Qed.
Lemma strip_at_None s : starts_with "@" s = false → strip_prefix "@" s = None.
Proof. unfold starts_with. by destruct (strip_prefix "@" s). Qed.

Lemma strip_alias_unscoped n v :
  n ≠ "" → starts_with "@" (n +:+ "@" +:+ v) = false → has "@" v = false →
  strip_alias ("npm:" +:+ n +:+ "@" +:+ v) = v.
Proof.
  intros Hn Ha Hv. unfold strip_alias. rewrite strip_npm, strip_at_None by done.
  change ("@" +:+ v) with (String "@" v). rewrite rfind_str_char by done.
  destruct n as [|x n]; [done|]. cbn [String.length Nat.ltb Nat.leb].
  rewrite (drop_str_S (S (String.length n))); done.
Qed.
Lemma strip_alias_scoped n v :
  has "@" n = false → strip_alias ("npm:@" +:+ n +:+ "@" +:+ v) = v.
Proof.
  intros Hn. unfold strip_alias. change ("npm:@" +:+ n +:+ "@" +:+ v) with
    ("npm:" +:+ ("@" +:+ (n +:+ String "@" v))).
  rewrite strip_npm, (proj2 (strip_prefix_Some "@" _ (n +:+ String "@" v)) eq_refl).
  rewrite find_str_char by done.
  change ("@" +:+ (n +:+ String "@" v)) with (String "@" n +:+ String "@" v).
  apply drop_str_S. simpl. lia.
Qed.
Lemma strip_alias_bare n :
  has "@" n = false → strip_alias ("npm:" +:+ n) = "latest" ∧ strip_alias ("npm:@" +:+ n) = "latest".
Proof.
  intros Hn. unfold strip_alias. split.
  - rewrite strip_npm. destruct (strip_prefix "@" n) eqn:E.
    { apply strip_prefix_Some in E as ->. rewrite has_app in Hn. done. }
    by rewrite rfind_str_char_none.
  - change ("npm:@" +:+ n) with ("npm:" +:+ ("@" +:+ n)).
    rewrite strip_npm, (proj2 (strip_prefix_Some "@" _ n) eq_refl).
    by rewrite find_str_char_none.
Qed.

(** ** The highest version *)
Section highest.
Context {SV : Semver} {HI : HashIter}.

(** [v] with metadata [info] is a version the test accepts. *)
Definition acceptable (ok : Version → bool) (p : Packument) (v : string) (info : VersionInfo)
    (ver : Version) : Prop :=
  versions p !! v = Some info ∧ parse_version v = Some ver ∧ ok ver = true.

Lemma elem_of_candidates ok p v info ver :
  (v, info, ver) ∈ candidates_of ok p ↔ acceptable ok p v info ver.
Proof.
  unfold candidates_of, acceptable. rewrite list_elem_of_omap. split.
  - intros ([v' i'] & Hin%elem_of_hash_iter & H). simpl in H.
    destruct (parse_version v') eqn:E; [|done]. case_match; [|done]. naive_solver.
  - intros (Hv & Hp & Hok). exists (v, info). rewrite elem_of_hash_iter. simpl.
    by rewrite Hp, Hok.
Qed.

(** The choice: acceptable, and no acceptable version is higher. *)
Definition is_highest (ok : Version → bool) (p : Packument) (v : string) (info : VersionInfo) :
    Prop :=
  ∃ ver, acceptable ok p v info ver ∧
    ∀ v' info' ver', acceptable ok p v' info' ver' → version_le ver' ver.

Lemma last_sorted_max {A} (R : relation A) `{!Transitive R, !Total R} l x :
  Sorted R l → last l = Some x → ∀ y, y ∈ l → R y x.
Proof.
  intros Hs Hl y Hy. destruct l as [|z l _] using rev_ind; [done|].
  rewrite last_snoc in Hl. injection Hl as ->.
  apply elem_of_app in Hy as [Hy| ->%list_elem_of_singleton].
  - apply Sorted_StronglySorted in Hs; [|apply _].
    by eapply (StronglySorted_app_1_elem_of R l [x]); [done..|set_solver].
  - by destruct (total R x x).
Qed.

Lemma highest_Some ok p v info :
  highest ok p = Some (v, info) → is_highest ok p v info.
Proof.
  unfold highest. destruct (last (merge_sort candidate_le (candidates_of ok p))) eqn:E; [|done].
  destruct p0 as [[v' i'] ver]. intros [= -> ->]. exists ver.
  assert (∀ y, y ∈ merge_sort candidate_le (candidates_of ok p) → candidate_le y (v, info, ver))
    as Hmax.
  { apply last_sorted_max; [apply _..| |done]. apply Sorted_merge_sort, _. }
  setoid_rewrite merge_sort_Permutation in Hmax. split.
  - apply elem_of_candidates. rewrite <- merge_sort_Permutation. by eapply last_Some_elem_of.
  - intros v' i' ver' Ha. by apply (Hmax (v', i', ver')), elem_of_candidates.
Qed.
Lemma highest_None ok p :
  highest ok p = None ↔ ∀ v info ver, ¬ acceptable ok p v info ver.
Proof.
  unfold highest. setoid_rewrite <- elem_of_candidates.
  rewrite fmap_None, last_None. split.
  - intros E v info ver. rewrite <- merge_sort_Permutation, E. set_solver.
  - intros Hno. destruct (merge_sort _ _) as [|[[v i] ver] l] eqn:E; [done|].
    destruct (Hno v i ver). rewrite <- merge_sort_Permutation, E. set_solver.
Qed.

(** The two outcomes of the search through a range. *)
Definition searches (ok : Version → bool) (p : Packument)
    (r : result string (string * VersionInfo)) : Prop :=
  match r with
  | Ok (v, info) => is_highest ok p v info
  | Err _ => ∀ v info ver, ¬ acceptable ok p v info ver
  end.
Lemma highest_searches ok p e : searches ok p (ok_or (highest ok p) e).
Proof.
  destruct (highest ok p) as [[v info]|] eqn:E; simpl.
  - by apply highest_Some.
  - by apply highest_None.
Qed.

(** (C32) Version resolution. After an [npm:name@] prefix is dropped, a specifier
    is first a dist-tag whose version exists, then an exact version, and only then
    a range; a range gives a published version that satisfies it and that no other
    satisfying version exceeds, and fails exactly when it does not parse or no
    version satisfies it. The intersection of specifiers gives the highest version
    satisfying all of them. This holds in every order of the version map. *)
Theorem resolve_version_spec p spec :
  (let s := strip_alias spec in
   match dist_tags p !! s with
   | Some v =>
       match versions p !! v with
       | Some info => resolve_version p spec = Ok (v, info)
       | None => True
       end
   | None => True
   end ∧
   ((∀ v info, dist_tags p !! s = Some v → versions p !! v ≠ Some info) →
    match versions p !! s with
    | Some info => resolve_version p spec = Ok (s, info)
    | None =>
        match parse_range s with
        | Some range => searches (satisfies range) p (resolve_version p spec)
        | None => ∃ e, resolve_version p spec = Err e
        end
    end)) ∧
  (∀ specs,
    match mapM parse_range specs with
    | Some ranges =>
        searches (λ v, forallb (λ r, satisfies r v) ranges) p (resolve_intersection p specs)
    | None => ∃ e, resolve_intersection p specs = Err e
    end) ∧
  (∀ n v, n ≠ "" → starts_with "@" n = false → has "@" v = false →
     strip_alias ("npm:" +:+ n +:+ "@" +:+ v) = v) ∧
  (∀ n v, has "@" n = false → strip_alias ("npm:@" +:+ n +:+ "@" +:+ v) = v).
Proof.
  split_and!.
  - intros s. unfold resolve_version. fold s. split.
    + destruct (dist_tags p !! s) as [v|]; [|done]. simpl.
      by destruct (versions p !! v).
    + intros Ht. assert ((v ← dist_tags p !! s; pair v <$> versions p !! v) = None) as ->.
      { destruct (dist_tags p !! s) as [v|]; [|done]. simpl.
        destruct (versions p !! v) as [i|] eqn:Ev; [|done]. by destruct (Ht v i). }
      destruct (versions p !! s); [done|].
      destruct (parse_range s); [apply highest_searches|]. simpl. eauto.
  - intros specs. unfold resolve_intersection.
    assert (∀ rs, mapM parse_range specs = Some rs →
      mapM (λ s, ok_or (parse_range s) ("invalid range: " +:+ s)) specs = Ok rs) as H1.
    { intros rs Hrs%mapM_Some. apply mapM_Ok. eapply Forall2_impl; [done|].
      intros ??. by rewrite ok_or_Ok. }
    destruct (mapM parse_range specs) as [rs|] eqn:E.
    { rewrite (H1 rs) by done. apply highest_searches. }
    destruct (mapM (λ s, ok_or (parse_range s) ("invalid range: " +:+ s)) specs)
      as [rs|err] eqn:E2; [|by exists err].
    apply mapM_Ok in E2. exfalso. clear H1.
    assert (mapM parse_range specs = Some rs) as E3; [|congruence].
    apply mapM_Some. eapply Forall2_impl; [done|]. intros ??. by rewrite ok_or_Ok.
  - intros n v Hn Ha Hv. apply strip_alias_unscoped; [done| |done].
    destruct n as [|x n]; [done|]. rewrite str_app_cons.
    by rewrite starts_with_char in *.
  - apply strip_alias_scoped.
Qed.
End highest.

(** Versions ordered as strings, with ranges [>=v], to evaluate definitions with. *)
Definition toy_semver : Semver := {|
  Version := string; Range := string;
  parse_version s := if decide (s = "") then None else Some s;
  parse_range s := strip_prefix ">=" s;
  satisfies r v := bool_decide (String.le r v);
  version_le := String.le |}.
Definition sample_info (n v : string) (deps : gmap string string) : VersionInfo := {|
  info_name := n; info_version := v; info_dependencies := deps; dev_dependencies := ∅;
  optional_dependencies := ∅; info_peer_dependencies := ∅; peer_dependencies_meta := ∅;
  bin := None; engines := EnginesNone; os := []; cpu := [];
  dist := {| tarball := "https://registry.example/" +:+ n +:+ "-" +:+ v +:+ ".tgz";
             shasum := None; dist_integrity := None; file_count := None;
             unpacked_size := None; signatures := [] |};
  info_has_install_script := false; has_shrinkwrap := false; funding := None |}.
Definition sample_packument (n : string) (vs : list string) : Packument := {|
  packument_name := n; modified := None; dist_tags := {["latest" := "2.0.0"]};
  versions := list_to_map ((λ v, (v, sample_info n v ∅)) <$> vs); time := ∅ |}.

Lemma resolve_version_spec_witness :
  fst <$> @resolve_version toy_semver default_iter
    (sample_packument "p" ["1.0.0"; "1.2.3"; "2.0.0"]) "npm:p@>=1.1" = Ok "2.0.0" ∧
  fst <$> @resolve_version toy_semver default_iter
    (sample_packument "p" ["1.0.0"; "1.2.3"; "2.0.0"]) "1.0.0" = Ok "1.0.0" ∧
  strip_alias ("npm:@" +:+ "s/p" +:+ "@" +:+ ">=1.1") = ">=1.1".
Proof.
  split; [reflexivity|]. split; [reflexivity|].
  exact (proj2 (proj2 (proj2 (@resolve_version_spec toy_semver default_iter
    (sample_packument "p" ["1.0.0"]) "1.0.0"))) "s/p" ">=1.1" eq_refl).
Defined.
