(* ===== verification/Git.v ===== *)
(** * oath-resolve: git dependencies ([git.rs])

    Specifiers, the cached tarball's file name, and the resolution of a git
    dependency. The network, git, the tar reader, npm's packlist and the JSON
    parser are parameters. *)
From S2P Require Export Json Paths.

Record GitSpec := {
  url : string;
  git_ref : option string;
  github_repo : option (string * string);
}.

Definition is_git_spec (spec : string) : bool :=
  starts_with "github:" spec || starts_with "gitlab:" spec || starts_with "bitbucket:" spec
  || starts_with "git+https://" spec || starts_with "git+ssh://" spec
  || starts_with "ssh://" spec || starts_with "git://" spec.

(** [s.trim_end_matches(suffix)]; every step shortens the string. *)
Fixpoint trim_suffixes (fuel : nat) (suf s : string) : string :=
  match fuel with
  | O => s
  | S fuel => match strip_suffix suf s with Some s => trim_suffixes fuel suf s | None => s end
  end.
Definition trim_end_git (s : string) : string := trim_suffixes (String.length s) ".git" s.

Definition split_ref (s : string) : string * option string :=
  match find_str "#" s with
  | Some pos => (take_str pos s, Some (drop_str (pos + 1) s))
  | None => (s, None)
  end.

Definition parse_github_url (u : string) : option (string * string) :=
  rest ← strip_prefix "https://github.com/" (trim_end_git u);
  split_once "/" rest.

(** The three host shorthands differ in the host and in [github_repo]. *)
Definition parse_shorthand (host : string) (github : bool) (rest : string) : option GitSpec :=
  let '(repo_path, r) := split_ref rest in
  '(user, repo) ← split_once "/" repo_path;
  let repo := trim_end_git repo in
  Some {| url := "https://" +:+ host +:+ "/" +:+ user +:+ "/" +:+ repo +:+ ".git";
          git_ref := r;
          github_repo := if github then Some (user, repo) else None |}.

Definition or_else {A} (a b : option A) : option A :=
  match a with Some _ => a | None => b end.

Definition parse_git_spec (spec : string) : option GitSpec :=
  match strip_prefix "github:" spec with Some rest => parse_shorthand "github.com" true rest
  | None =>
  match strip_prefix "gitlab:" spec with Some rest => parse_shorthand "gitlab.com" false rest
  | None =>
  match strip_prefix "bitbucket:" spec with
  | Some rest => parse_shorthand "bitbucket.org" false rest
  | None =>
  if starts_with "git+https://" spec then
    let '(u, r) := split_ref (drop_str 4 spec) in
    Some {| url := u; git_ref := r; github_repo := parse_github_url u |}
  else
  match or_else (strip_prefix "git+ssh://" spec) (strip_prefix "ssh://" spec) with
  | Some url_part =>
      let '(u, r) := split_ref url_part in
      let https_url :=
        match or_else (strip_prefix "git@github.com:" u) (strip_prefix "git@github.com/" u) with
        | Some repo => "https://github.com/" +:+ repo
        | None => "https://" +:+ u
        end in
      Some {| url := https_url; git_ref := r; github_repo := parse_github_url https_url |}
  | None =>
  match strip_prefix "git://" spec with
  | Some url_part =>
      let '(u, r) := split_ref url_part in
      Some {| url := "https://" +:+ u; git_ref := r;
              github_repo := parse_github_url ("https://" +:+ u) |}
  | None => None
  end end end end end.

(** ** The cached tarball *)

Definition safe_byte (a : ascii) : bool :=
  is_alnum a || existsb (λ c, bool_decide (a = c)) ["."; "_"; "-"; "@"; "+"]%char.
Fixpoint escape_bytes (s : string) : string :=
  match s with
  | EmptyString => ""
  | String a s =>
      (if safe_byte a then String a "" else "%" +:+ hex_byte a) +:+ escape_bytes s
  end.
Definition safe_cache_component (input : string) : string :=
  if decide (input = "") then "_"
  else let out := escape_bytes input in
    if decide (out = ".") then "%2E"
    else if decide (out = "..") then "%2E%2E" else out.

(** The hexadecimal SHA-256 of the library. *)
Class Sha256Hex := { sha256_hex : string → string }.
Definition git_cache_file_name `{!Sha256Hex} (name version resolved_url : string) : string :=
  safe_cache_component (replace_char "/" "+" name) +:+ "-"
  +:+ safe_cache_component version +:+ "-" +:+ sha256_hex resolved_url +:+ ".tgz".

(** ** Resolution *)

Record GitResolved := {
  git_name : string;
  git_version : string;
  resolved_url : string;
  tarball_data : string;
  git_dependencies : gmap string string;
  git_optional_dependencies : gmap string string;
  git_has_install_script : bool;
}.

(** What the program gets from outside: the archive GitHub returns for a
    repository and reference; the clone of a repository, packed by npm's packlist,
    with its [package.json]; an archive unpacked and packed again the same way. *)
Class GitTools := {
  github_tarball : string → string → string → result string string;
  git_clone_packed : string → string → result string (string * string);
  repack_tarball : string → result string (string * string);
  parse_json : string → option Json;
}.

Definition extract_deps_from_json (pkg : Json) (key : string) : gmap string string :=
  match jget key pkg with
  | Some (JObject obj) => list_to_map (omap (λ e, pair e.1 <$> as_str e.2) obj)
  | _ => ∅
  end.

Section git.
Context {GT : GitTools}.

Definition parse_git_tarball_from_json (data pkg_json_data url : string) :
    result string GitResolved :=
  pkg ← ok_or (parse_json pkg_json_data) "failed to parse package.json from git repo";
  name ← ok_or (n ← jget "name" pkg; as_str n) ("no 'name' in package.json from " +:+ url);
  Ok {| git_name := name;
        git_version := default "0.0.0" (v ← jget "version" pkg; as_str v);
        resolved_url := url;
        tarball_data := data;
        git_dependencies := extract_deps_from_json pkg "dependencies";
        git_optional_dependencies := extract_deps_from_json pkg "optionalDependencies";
        git_has_install_script :=
          match jget "scripts" pkg with
          | Some (JObject scripts) =>
              existsb (λ k, match alist_get k scripts with Some _ => true | None => false end)
                ["install"; "preinstall"; "postinstall"]
          | _ => false
          end |}.

Definition parse_git_tarball (data url : string) : result string GitResolved :=
  '(normalized, pkg_json_data) ← repack_tarball data;
  parse_git_tarball_from_json normalized pkg_json_data url.

Definition resolve_github_tarball (user repo r : string) : result string GitResolved :=
  data ← github_tarball user repo r;
  parse_git_tarball data ("git+https://github.com/" +:+ user +:+ "/" +:+ repo +:+ ".git").

Definition resolve_via_git_clone (u r : string) : result string GitResolved :=
  '(tar_data, pkg_json_data) ← git_clone_packed u r;
  parse_git_tarball_from_json tar_data pkg_json_data u.

Definition resolve_git_spec (spec : GitSpec) : result string GitResolved :=
  let resolve :=
    let r := default "HEAD" (git_ref spec) in
    match github_repo spec with
    | Some (user, repo) => resolve_github_tarball user repo r
    | None => resolve_via_git_clone (url spec) r
    end in
  match git_ref spec with
  | Some r =>
      match strip_prefix "semver:" r with
      | Some range => Err ("git semver selector " +:+ range +:+ " is not supported yet")
      | None => resolve
      end
  | None => resolve
  end.
End git.

(** The directory of cached tarballs: a file that exists is not written again.
    [None] when writing fails. *)
Definition cache_git_tarball `{!Sha256Hex} (writable : bool) (cache : gmap string string)
    (g : GitResolved) : option (gmap string string) :=
  let file := git_cache_file_name (git_name g) (git_version g) (resolved_url g) in
  match cache !! file with
  | Some _ => Some cache
  | None => if writable then Some (<[file := tarball_data g]> cache) else None
  end.

(** ** Lemmas *)

Lemma escape_byte_slash a :
  has "/" (if safe_byte a then String a "" else "%" +:+ hex_byte a) = false.
Proof. by destruct a as [[] [] [] [] [] [] [] []]; vm_compute. Qed.
Lemma escape_bytes_slash s : has "/" (escape_bytes s) = false.
Proof.
  induction s as [|a s IH]; [done|]. cbn [escape_bytes].
  by rewrite has_app, escape_byte_slash, IH.
Qed.
Lemma safe_cache_component_slash s : has "/" (safe_cache_component s) = false.
Proof.
  unfold safe_cache_component. repeat case_decide; try done. apply escape_bytes_slash.
Qed.

Lemma trim_suffixes_has c fuel suf s :
  has c s = false → has c (trim_suffixes fuel suf s) = false.
Proof.
  revert s. induction fuel as [|fuel IH]; intros s Hs; [done|]. simpl.
  destruct (strip_suffix suf s) as [s'|] eqn:E; [|done]. apply IH.
  apply strip_suffix_Some in E as ->. rewrite has_app in Hs. by apply orb_false_iff in Hs as [? _].
Qed.

Lemma split_ref_none s : has "#" s = false → split_ref s = (s, None).
Proof. intros H. unfold split_ref. by rewrite find_str_char_none. Qed.
Lemma split_ref_some s r : has "#" s = false → split_ref (s +:+ "#" +:+ r) = (s, Some r).
Proof.
  intros H. unfold split_ref. change ("#" +:+ r) with (String "#" r).
  rewrite find_str_char, take_str_app by done. f_equal. f_equal.
  by apply drop_str_S.
Qed.

Lemma parse_github_spec user repo r :
  has "#" user = false → has "/" user = false → has "#" repo = false →
  parse_git_spec ("github:" +:+ user +:+ "/" +:+ repo +:+ "#" +:+ r) =
  Some {| url := "https://github.com/" +:+ user +:+ "/" +:+ trim_end_git repo +:+ ".git";
          git_ref := Some r; github_repo := Some (user, trim_end_git repo) |}.
Proof.
  intros Hu Hs Hr. unfold parse_git_spec.
  rewrite (proj2 (strip_prefix_Some "github:" _ _) eq_refl). unfold parse_shorthand.
  replace (user +:+ "/" +:+ repo +:+ "#" +:+ r) with ((user +:+ "/" +:+ repo) +:+ "#" +:+ r)
    by by rewrite <- !str_app_assoc.
  rewrite split_ref_some by (rewrite !has_app, Hu, Hr; done).
  by rewrite (proj2 (split_once_Some "/" (user +:+ "/" +:+ repo) user repo) (conj eq_refl Hs)).
Qed.

Lemma parse_https_no_ref u :
  has "#" u = false →
  parse_git_spec ("git+https://" +:+ u) =
  Some {| url := "https://" +:+ u; git_ref := None; github_repo := parse_github_url ("https://" +:+ u) |}.
Proof.
  intros Hu. unfold parse_git_spec.
  assert (∀ p : string, starts_with p ("git+https://" +:+ u) = false →
    strip_prefix p ("git+https://" +:+ u) = None) as Hp.
  { unfold starts_with. intros p. by destruct (strip_prefix p _). }
  rewrite !Hp by reflexivity.
  rewrite (proj2 (starts_with_true _ _)) by by eexists.
  change (drop_str 4 ("git+https://" +:+ u)) with (drop_str (String.length "git+") ("git+" +:+ ("https://" +:+ u))).
  rewrite drop_str_app, split_ref_none by by rewrite has_app. done.
Qed.

Section cache.
Context {GT : GitTools} {SH : Sha256Hex}.

Lemma parse_git_tarball_url data u g :
  parse_git_tarball data u = Ok g → resolved_url g = u.
Proof.
  unfold parse_git_tarball, parse_git_tarball_from_json.
  intros ([d j] & _ & H)%bind_Ok. by inv_ok.
Qed.
Lemma resolve_github_url user repo r g :
  resolve_github_tarball user repo r = Ok g →
  resolved_url g = "git+https://github.com/" +:+ user +:+ "/" +:+ repo +:+ ".git".
Proof. intros (d & _ & H)%bind_Ok. by eapply parse_git_tarball_url. Qed.

(** Sources of git dependencies. The file a tarball is cached under is one
    plain name in the cache directory, whatever the package is called. The URL
    recorded for a GitHub dependency has lost the reference: two references of one
    repository get the same URL, which read back asks for the default branch; and
    when they declare the same name and version, the tarball cached for the first
    one stays the one cached for the second. *)
Theorem git_reference_lost user repo r1 r2 g1 g2 :
  (∀ u, has "/" (sha256_hex u) = false) →
  has "#" user = false → has "#" repo = false →
  resolve_github_tarball user repo r1 = Ok g1 →
  resolve_github_tarball user repo r2 = Ok g2 →
  (∀ n v u, safe_name (git_cache_file_name n v u)) ∧
  resolved_url g1 = resolved_url g2 ∧
  option_map git_ref (parse_git_spec (resolved_url g1)) = Some None ∧
  (git_name g1 = git_name g2 → git_version g1 = git_version g2 →
   ∀ w1 w2 cache c, cache_git_tarball w1 cache g1 = Some c → cache_git_tarball w2 c g2 = Some c).
Proof.
  intros Hsha Hu Hr H1%resolve_github_url H2%resolve_github_url. split_and!.
  - intros n v u. unfold git_cache_file_name, safe_name.
    rewrite !has_app, !safe_cache_component_slash, Hsha. split_and!; [| | |done];
      intros E%(f_equal String.length); rewrite !str_length_app in E; simpl in E; lia.
  - congruence.
  - rewrite H1. change ("git+https://github.com/" +:+ user +:+ "/" +:+ repo +:+ ".git")
      with ("git+https://" +:+ ("github.com/" +:+ user +:+ "/" +:+ repo +:+ ".git")).
    rewrite parse_https_no_ref; [done|]. by rewrite !has_app, Hu, Hr.
  - intros Hn Hv w1 w2 cache c. unfold cache_git_tarball. rewrite Hn, Hv, H1, H2.
    destruct (cache !! _) as [d|] eqn:E.
    + intros [= <-]. by rewrite E.
    + destruct w1; [|done]. intros [= <-]. by rewrite lookup_insert_eq.
Qed.
End cache.

(** GitHub answering with the reference as the archive, whose package is [x@1.0.0]. *)
Definition toy_git : GitTools := {|
  github_tarball u p r := Ok r;
  git_clone_packed u r := Err "no git";
  repack_tarball d := Ok (d, "");
  parse_json _ := Some (JObject [("name", JString "x"); ("version", JString "1.0.0")]) |}.

Lemma git_reference_lost_witness :
  let GT := toy_git in let SH := {| sha256_hex _ := "00" |} in
  ∃ g1 g2, resolve_github_tarball "u" "r" "v1" = Ok g1 ∧ resolve_github_tarball "u" "r" "v2" = Ok g2 ∧
    tarball_data g1 = "v1" ∧ tarball_data g2 = "v2" ∧
    ∃ c, cache_git_tarball true ∅ g1 = Some c ∧ cache_git_tarball true c g2 = Some c.
Proof.
  intros GT SH. eexists _, _. split; [reflexivity|]. split; [reflexivity|].
  split; [reflexivity|]. split; [reflexivity|]. eexists. split; [reflexivity|].
  refine (proj2 (proj2 (proj2 (@git_reference_lost GT SH "u" "r" "v1" "v2" _ _
    _ _ _ eq_refl eq_refl))) _ _ true true ∅ _ _); intros; reflexivity.
Defined.
