(* ===== verification/Resolver.v ===== *)
(** * oath-resolve: the resolver ([resolver.rs])

    Level by level search of the dependency graph, the edges between the packages
    found, and the peer dependencies.

    Within one run the answer of the registry for a package may change from level
    to level ([fetch_packument]); git and GitHub answer a request always the same. *)
From S2P Require Export Graph Versions Git.

(** ** Specifiers and platforms *)

Definition parse_alias_spec (specifier : string) : option (string * string) :=
  rest ← strip_prefix "npm:" specifier;
  match strip_prefix "@" rest with
  | Some stripped =>
      match find_str "@" stripped with
      | Some p => let at_pos := p + 1 in Some (take_str at_pos rest, drop_str (at_pos + 1) rest)
      | None => Some (rest, "latest")
      end
  | None =>
      match rfind_str "@" rest with
      | Some at_pos =>
          if 0 <? at_pos then Some (take_str at_pos rest, drop_str (at_pos + 1) rest)
          else Some (rest, "latest")
      | None => Some (rest, "latest")
      end
  end.

(** One of the two lists of [is_platform_compatible]. *)
Definition platform_list_ok (current : string) (l : list string) : bool :=
  match l with
  | [] => true
  | _ =>
      if existsb (starts_with "!") l
      then negb (existsb (λ s, bool_decide (s = "!" +:+ current)) l)
      else existsb (λ s, bool_decide (s = current)) l
  end.
Definition is_platform_compatible (current_os current_cpu : string) (os cpu : list string) : bool :=
  platform_list_ok current_os os && platform_list_ok current_cpu cpu.

Record ResolveOptions := { include_dev : bool; include_optional : bool; max_depth : nat }.
Definition default_options : ResolveOptions :=
  {| include_dev := true; include_optional := true; max_depth := 256 |}.

Record PendingDep := {
  pending_name : string;
  specifier : string;
  depth : nat;
  pending_dev : bool;
  pending_optional : bool;
  pending_alias : option string;
}.

(** A declared dependency, its [npm:] alias resolved. *)
Definition pending (depth : nat) (dev optional : bool) (dep : string * string) : PendingDep :=
  match parse_alias_spec dep.2 with
  | Some (real, ver) =>
      {| pending_name := real; specifier := ver; depth := depth; pending_dev := dev;
         pending_optional := optional; pending_alias := Some dep.1 |}
  | None =>
      {| pending_name := dep.1; specifier := dep.2; depth := depth; pending_dev := dev;
         pending_optional := optional; pending_alias := None |}
  end.
Definition pending_install_name (p : PendingDep) : string := default (pending_name p) (pending_alias p).

(** The platform, the registry client by level, and the git cache directory. *)
Class ResolveEnv := {
  current_os : string;
  current_cpu : string;
  fetch_packument : nat → string → result string Packument;
  git_cache_writable : string → bool;
}.

(** The locals of [resolve] and the resolver's cache. *)
Record State := {
  graph : DepGraph;
  seen : gset string;
  packument_cache : gmap string Packument;
  git_cache : gmap string string;
  next_level : list PendingDep;
}.

Definition set_level (l : list PendingDep) (st : State) : State :=
  {| graph := graph st; seen := seen st; packument_cache := packument_cache st;
     git_cache := git_cache st; next_level := l |}.
Definition set_cache (c : gmap string Packument) (st : State) : State :=
  {| graph := graph st; seen := seen st; packument_cache := c;
     git_cache := git_cache st; next_level := next_level st |}.
Definition set_git_cache (c : gmap string string) (st : State) : State :=
  {| graph := graph st; seen := seen st; packument_cache := packument_cache st;
     git_cache := c; next_level := next_level st |}.
Definition push_root (g : DepGraph) (k : string) : DepGraph :=
  {| nodes := nodes g; roots := roots g ++ [k]; peer_report := peer_report g |}.
Definition insert_node (g : DepGraph) (k : string) (n : DepNode) : DepGraph :=
  {| nodes := <[k := n]> (nodes g); roots := roots g; peer_report := peer_report g |}.

(** [resolved.insert(key)], and the root list at depth 0. *)
Definition mark (p : PendingDep) (k : string) (st : State) : State :=
  {| graph := if depth p =? 0 then push_root (graph st) k else graph st;
     seen := {[k]} ∪ seen st; packument_cache := packument_cache st;
     git_cache := git_cache st; next_level := next_level st |}.
(** The node inserted and its dependencies queued. *)
Definition add_node (k : string) (n : DepNode) (deps : list PendingDep) (st : State) : State :=
  {| graph := insert_node (graph st) k n; seen := seen st;
     packument_cache := packument_cache st; git_cache := git_cache st;
     next_level := next_level st ++ deps |}.

Section resolver.
Context {SV : Semver} {HI : HashIter} {GT : GitTools} {SH : Sha256Hex} {RE : ResolveEnv}.
Context (options : ResolveOptions).

(** ** One dependency *)

Definition children (p : PendingDep) (deps optional_deps : gmap string string) : list PendingDep :=
  (pending (S (depth p)) (pending_dev p) false <$> hash_iter deps) ++
  (if include_optional options
   then pending (S (depth p)) (pending_dev p) true <$> hash_iter optional_deps else []).
(** The declared specifiers; an optional dependency replaces a plain one. *)
Definition declared (deps optional_deps : gmap string string) : gmap string string :=
  if include_optional options then optional_deps ∪ deps else deps.

Definition registry_node (p : PendingDep) (v : string) (info : VersionInfo) : DepNode := {|
  name := pending_name p;
  alias := pending_alias p;
  version := v;
  resolved := tarball (dist info);
  integrity := dist_integrity (dist info);
  dependencies := declared (info_dependencies info) (optional_dependencies info);
  has_install_script := info_has_install_script info;
  dev := pending_dev p;
  optional := pending_optional p;
  peer_dependencies := info_peer_dependencies info;
  optional_peers := dom (filter (λ e, peer_optional e.2 = true) (peer_dependencies_meta info));
  resolved_peers := ∅;
|}.
Definition git_node (p : PendingDep) (g : GitResolved) : DepNode := {|
  name := git_name g;
  alias := pending_alias p;
  version := git_version g;
  resolved := resolved_url g;
  integrity := None;
  dependencies := declared (git_dependencies g) (git_optional_dependencies g);
  has_install_script := git_has_install_script g;
  dev := pending_dev p;
  optional := pending_optional p;
  peer_dependencies := ∅;
  optional_peers := ∅;
  resolved_peers := ∅;
|}.

(** [resolve_git_dep]; the state is changed also when it fails at its end. *)
Definition resolve_git_dep (p : PendingDep) (st : State) : result string unit * State :=
  match parse_git_spec (specifier p) with
  | None => (Err ("failed to parse git spec: " +:+ specifier p), st)
  | Some spec =>
  match resolve_git_spec spec with
  | Err e => (Err e, st)
  | Ok g =>
      let k := key (pending_install_name p) (git_version g) in
      if decide (k ∈ seen st) then (Ok tt, st)
      else
        let st := mark p k st in
        let st := add_node k (git_node p g)
                    (children p (git_dependencies g) (git_optional_dependencies g)) st in
        let file := git_cache_file_name (git_name g) (git_version g) (resolved_url g) in
        match cache_git_tarball (git_cache_writable file) (git_cache st) g with
        | Some c => (Ok tt, set_git_cache c st)
        | None => (Err "failed to cache git tarball", st)
        end
  end end.

(** The body of the loop over a level. *)
Definition visit (p : PendingDep) (st : State) : result string State :=
  if max_depth options <? depth p then Ok st
  else if is_git_spec (specifier p) then
    match resolve_git_dep p st with
    | (Ok _, st) => Ok st
    | (Err e, st) => if pending_optional p then Ok st else Err e
    end
  else
  match packument_cache st !! pending_name p with
  | None =>
      if pending_optional p then Ok st
      else Err ("failed to fetch packument for " +:+ pending_name p)
  | Some packument =>
  match resolve_version packument (specifier p) with
  | Err e => if pending_optional p then Ok st else Err e
  | Ok (v, info) =>
      let k := key (pending_install_name p) v in
      if decide (k ∈ seen st) then Ok st
      else
        let st := mark p k st in
        if pending_optional p && negb (is_platform_compatible current_os current_cpu (os info) (cpu info))
        then Ok st
        else Ok (add_node k (registry_node p v info)
                   (children p (info_dependencies info) (optional_dependencies info)) st)
  end end.
Fixpoint visit_all (level : list PendingDep) (st : State) : result string State :=
  match level with
  | [] => Ok st
  | p :: level => st ← visit p st; visit_all level st
  end.

(** ** A level *)

(** The names to fetch, each once: none that is cached, too deep or a git specifier. *)
Definition to_fetch (cache : gmap string Packument) (p : PendingDep) : bool :=
  negb (max_depth options <? depth p) && negb (is_git_spec (specifier p))
  && match cache !! pending_name p with Some _ => false | None => true end.
Definition names_to_fetch (cache : gmap string Packument) (level : list PendingDep) : list string :=
  foldl push_new [] (pending_name <$> filter (λ p, to_fetch cache p = true) level).
Definition store_fetched (lvl : nat) (cache : gmap string Packument) (n : string) :
    gmap string Packument :=
  match fetch_packument lvl n with Ok p => <[n := p]> cache | Err _ => cache end.
Definition fetch_level (lvl : nat) (level : list PendingDep) (st : State) : State :=
  set_cache (foldl (store_fetched lvl) (packument_cache st)
               (names_to_fetch (packument_cache st) level)) st.

(** The search; [None] when the fuel runs out. *)
Fixpoint bfs (fuel lvl : nat) (level : list PendingDep) (st : State) :
    option (result string State) :=
  match level with
  | [] => Some (Ok st)
  | _ =>
      match fuel with
      | O => None
      | S fuel =>
          match visit_all level (set_level [] (fetch_level lvl level st)) with
          | Err e => Some (Err e)
          | Ok st => bfs fuel (S lvl) (next_level st) st
          end
      end
  end.

(** ** The edges *)

(** The order of candidates: by version, then by key. *)
Definition candidate_key_le (a b : string * Version) : Prop :=
  version_le a.2 b.2 ∧ (¬ version_le b.2 a.2 ∨ String.le a.1 b.1).
#[export] Instance candidate_key_le_dec : RelDecision candidate_key_le.
Proof. intros a b. unfold candidate_key_le. apply _. Defined.

Definition edge_candidates (g : DepGraph) (dep_name dep_spec : string) : list (string * Version) :=
  let version_spec := default dep_spec (snd <$> parse_alias_spec dep_spec) in
  let range := parse_range version_spec in
  omap (λ e,
    let '(k, node) := e in
    if bool_decide (alias node = Some dep_name) || bool_decide (name node = dep_name) then
      match parse_version (version node) with
      | Some v =>
          match range with
          | Some r => if satisfies r v then Some (k, v) else None
          | None => Some (k, v)
          end
      | None => None
      end
    else None) (hash_iter (nodes g)).
Definition find_matching_key (g : DepGraph) (dep_name dep_spec : string) : option string :=
  fst <$> last (merge_sort candidate_key_le (edge_candidates g dep_name dep_spec)).

Definition set_dependencies (deps : gmap string string) (n : DepNode) : DepNode := {|
  name := name n; alias := alias n; version := version n; resolved := resolved n;
  integrity := integrity n; dependencies := deps; has_install_script := has_install_script n;
  dev := dev n; optional := optional n; peer_dependencies := peer_dependencies n;
  optional_peers := optional_peers n; resolved_peers := resolved_peers n |}.
Definition fix_node (g : DepGraph) (n : DepNode) : DepNode :=
  set_dependencies (map_imap (find_matching_key g) (dependencies n)) n.
Definition fix_edges (g : DepGraph) : DepGraph :=
  {| nodes := fix_node g <$> nodes g; roots := roots g; peer_report := peer_report g |}.
End resolver.

(** ** Peer dependencies *)

Section peers.
Context {SV : Semver} {HI : HashIter}.

Definition semver_satisfies (v range : string) : bool :=
  let version_clean := hd v (split_char "+" v) in
  match parse_version version_clean with
  | None => true
  | Some v => match parse_range range with Some r => satisfies r v | None => true end
  end.

(** [build_parent_map]: one entry of the list per dependency of the parent. *)
Definition push_parent (parent : string) (m : gmap string (list string)) (dep_key : string) :
    gmap string (list string) :=
  <[dep_key := default [] (m !! dep_key) ++ [parent]]> m.
Definition build_parent_map (g : DepGraph) : gmap string (list string) :=
  foldl (λ m e, foldl (push_parent e.1) m (hash_iter (dependencies e.2)).*2) ∅ (hash_iter (nodes g)).

Inductive PeerLookupResult := Found (k : string) | LookupConflict (v : string) | Missing.

Definition extract_version_from_key (k : string) : string :=
  match rfind_str "@" k with
  | Some a => if 0 <? a then drop_str (a + 1) k else k
  | None => k
  end.
Definition judge (k v range : string) : PeerLookupResult :=
  if semver_satisfies v range then Found k else LookupConflict v.

(** The walk; [None] when the fuel runs out. *)
Fixpoint peer_walk (fuel : nat) (g : DepGraph) (parents : gmap string (list string))
    (peer_name range : string) (visited : gset string) (queue : list string) :
    option (option PeerLookupResult) :=
  match queue with
  | [] => Some None
  | a :: queue =>
      match fuel with
      | O => None
      | S fuel =>
          if decide (a ∈ visited) then peer_walk fuel g parents peer_name range visited queue
          else
            let visited := {[a]} ∪ visited in
            match nodes g !! a with
            | None => peer_walk fuel g parents peer_name range visited queue
            | Some ancestor =>
                match dependencies ancestor !! peer_name with
                | Some k => Some (Some (judge k (extract_version_from_key k) range))
                | None =>
                    peer_walk fuel g parents peer_name range visited
                      (queue ++ filter (λ gp, gp ∉ visited) (default [] (parents !! a)))
                end
            end
      end
  end.
(** Every key is expanded at most once. *)
Definition walk_fuel (parents : gmap string (list string)) (queue : list string) : nat :=
  S (length queue + sum_list (length <$> (map_to_list parents).*2)).

Fixpoint find_root_peer (g : DepGraph) (peer_name range : string) (rs : list string) :
    PeerLookupResult :=
  match rs with
  | [] => Missing
  | r :: rs =>
      match nodes g !! r with
      | None => find_root_peer g peer_name range rs
      | Some n =>
          if bool_decide (install_name n = peer_name) || bool_decide (name n = peer_name)
          then judge r (version n) range
          else find_root_peer g peer_name range rs
      end
  end.

Definition find_peer_in_context (g : DepGraph) (parents : gmap string (list string))
    (pkg_key peer_name range : string) : option PeerLookupResult :=
  let queue := default [] (parents !! pkg_key) ++ roots g in
  default (find_root_peer g peer_name range (roots g)) <$>
    peer_walk (walk_fuel parents queue) g parents peer_name range ∅ queue.

Definition peer_work (g : DepGraph) : list (string * string * string * bool) :=
  '(k, n) ← hash_iter (nodes g);
  '(pname, prange) ← hash_iter (peer_dependencies n);
  [(k, pname, prange, bool_decide (pname ∈ optional_peers n))].

Definition set_peer (pname pkey : string) (n : DepNode) : DepNode := {|
  name := name n; alias := alias n; version := version n; resolved := resolved n;
  integrity := integrity n; dependencies := dependencies n;
  has_install_script := has_install_script n; dev := dev n; optional := optional n;
  peer_dependencies := peer_dependencies n; optional_peers := optional_peers n;
  resolved_peers := <[pname := pkey]> (resolved_peers n) |}.

Definition record_peer (w : string * string * string * bool) (r : PeerLookupResult)
    (st : DepGraph * PeerReport) : DepGraph * PeerReport :=
  let '(k, pname, prange, is_optional) := w in
  let '(g, rep) := st in
  match r with
  | Found pkey =>
      ({| nodes := alter (set_peer pname pkey) k (nodes g); roots := roots g;
          peer_report := peer_report g |},
       {| satisfied := satisfied rep ++ [Satisfied k pname pkey]; missing := missing rep;
          conflicts := conflicts rep; optional_missing := optional_missing rep |})
  | Missing =>
      (g, if is_optional
          then {| satisfied := satisfied rep; missing := missing rep; conflicts := conflicts rep;
                  optional_missing := optional_missing rep ++ [pname] |}
          else {| satisfied := satisfied rep; missing := missing rep ++ [MissingPeer k pname prange];
                  conflicts := conflicts rep; optional_missing := optional_missing rep |})
  | LookupConflict v =>
      (g, {| satisfied := satisfied rep; missing := missing rep;
             conflicts := conflicts rep ++ [Conflict k pname prange v];
             optional_missing := optional_missing rep |})
  end.
Fixpoint resolve_peer_work (parents : gmap string (list string))
    (work : list (string * string * string * bool)) (st : DepGraph * PeerReport) :
    option (DepGraph * PeerReport) :=
  match work with
  | [] => Some st
  | w :: work =>
      let '(k, pname, prange, _) := w in
      r ← find_peer_in_context st.1 parents k pname prange;
      resolve_peer_work parents work (record_peer w r st)
  end.
Definition resolve_peers (g : DepGraph) : option (DepGraph * PeerReport) :=
  resolve_peer_work (build_parent_map g) (peer_work g) (g, default_report).
End peers.

(** ** [resolve] *)
Section resolve.
Context {SV : Semver} {HI : HashIter} {GT : GitTools} {SH : Sha256Hex} {RE : ResolveEnv}.
Context (options : ResolveOptions).

Definition start_level (deps dev_deps : gmap string string) : list PendingDep :=
  (pending 0 false false <$> hash_iter deps) ++
  (if include_dev options then pending 0 true false <$> hash_iter dev_deps else []).

(** [None] would be a run that does not end. The resolver is left with its
    packuments and the git cache. *)
Definition resolve (cache : gmap string Packument) (gcache : gmap string string)
    (deps dev_deps : gmap string string) : option (result string DepGraph) :=
  r ← bfs options (max_depth options + 2) 0 (start_level deps dev_deps)
        {| graph := new_graph; seen := ∅; packument_cache := cache; git_cache := gcache;
           next_level := [] |};
  match r with
  | Err e => Some (Err e)
  | Ok st =>
      '(g, report) ← resolve_peers (fix_edges (graph st));
      Some (Ok {| nodes := nodes g; roots := roots g; peer_report := report |})
  end.
End resolve.

(** ** Peers: lemmas *)

Section peer_lemmas.
Context {SV : Semver} {HI : HashIter}.
Implicit Types g : DepGraph.

(** [a] declares a dependency whose edge leads to [b]. *)
Definition depends g (a b : string) : Prop :=
  ∃ n d, nodes g !! a = Some n ∧ dependencies n !! d = Some b.
Definition parents_in (m : gmap string (list string)) (b : string) : list string :=
  default [] (m !! b).

Lemma push_parents_elem p deps m a b :
  a ∈ parents_in (foldl (push_parent p) m deps) b ↔ a ∈ parents_in m b ∨ (a = p ∧ b ∈ deps).
Proof.
  revert m. induction deps as [|d deps IH]; intros m; simpl; [set_solver|].
  rewrite IH. unfold parents_in, push_parent. destruct (decide (b = d)) as [->|Hb].
  - rewrite lookup_insert_eq. simpl. rewrite elem_of_app. set_solver.
  - rewrite lookup_insert_ne by done. set_solver.
Qed.
Lemma parent_map_elem g a b : a ∈ parents_in (build_parent_map g) b ↔ depends g a b.
Proof.
  unfold build_parent_map, depends. setoid_rewrite <- elem_of_hash_iter.
  assert (∀ l m, a ∈ parents_in (foldl (λ m e, foldl (push_parent e.1) m
                   (hash_iter (dependencies e.2)).*2) m l) b ↔
    a ∈ parents_in m b ∨ ∃ n d, (a, n) ∈ l ∧ (d, b) ∈ hash_iter (dependencies n)) as Hl.
  { induction l as [|[k n] l IH]; intros m; simpl; [set_solver|].
    rewrite IH, push_parents_elem. simpl. rewrite list_elem_of_fmap. split.
    - intros [[?|[-> ([d b'] & -> & Hd)]]|(n' & d & ? & ?)]; [by left| |].
      + right. exists n, d. split; [left|done].
      + right. exists n', d. split; [by right|done].
    - intros [?|(n' & d & [[= -> ->]|?]%elem_of_cons & Hd)]; [by do 2 left| |].
      + left. right. split; [done|]. by exists (d, b).
      + right. by exists n', d. }
  rewrite Hl. unfold parents_in at 1. rewrite lookup_empty. simpl. set_solver.
Qed.

(** Where a peer is looked for: the packages above [pkg], and the roots and those
    above them. A key without a node ends the way up. *)
Inductive peer_context g (pkg : string) : string → Prop :=
  | context_parent a : depends g a pkg → peer_context g pkg a
  | context_root r : r ∈ roots g → peer_context g pkg r
  | context_up a b :
      peer_context g pkg a → is_Some (nodes g !! a) → depends g b a → peer_context g pkg b.

(** The fuel: queued keys, and the parents of keys not visited. *)
Definition unvisited (parents : gmap string (list string)) (visited : gset string) : nat :=
  sum_list (length <$> (map_to_list (filter (λ e, e.1 ∉ visited) parents)).*2).

Lemma sum_lengths_perm (l k : list (string * list string)) :
  l ≡ₚ k → sum_list (length <$> l.*2) = sum_list (length <$> k.*2).
Proof. induction 1; csimpl; lia. Qed.
Lemma unvisited_step parents visited a :
  a ∉ visited →
  unvisited parents visited = length (parents_in parents a) + unvisited parents ({[a]} ∪ visited).
Proof.
  intros Ha. unfold unvisited.
  assert (filter (λ e : string * list string, e.1 ∉ {[a]} ∪ visited) parents =
          delete a (filter (λ e, e.1 ∉ visited) parents)) as ->.
  { apply map_eq. intros k. apply option_eq. intros l.
    rewrite lookup_delete_Some, !map_lookup_filter_Some. set_solver. }
  unfold parents_in. destruct (parents !! a) as [l|] eqn:E; simpl.
  - rewrite <- (sum_lengths_perm _ _ (map_to_list_delete (filter (λ e, e.1 ∉ visited) parents) a l
      (proj2 (map_lookup_filter_Some _ _ _ _) (conj E Ha)))). done.
  - rewrite delete_id; [done|]. apply map_lookup_filter_None. by left.
Qed.

Section walk.
Context (g : DepGraph) (parents : gmap string (list string)) (peer_name range : string).

Lemma peer_walk_total fuel visited queue :
  length queue + unvisited parents visited ≤ fuel →
  ∃ r, peer_walk fuel g parents peer_name range visited queue = Some r.
Proof.
  revert visited queue. induction fuel as [|fuel IH]; intros visited queue Hf.
  { destruct queue; simpl in *; [eauto|lia]. }
  destruct queue as [|a queue]; [by eexists|]. simpl in *.
  case_decide as Ha; [apply IH; lia|].
  rewrite (unvisited_step parents visited a Ha) in Hf.
  destruct (nodes g !! a) as [n|]; [|apply IH; lia].
  destruct (dependencies n !! peer_name); [by eexists|]. apply IH.
  rewrite length_app. fold (parents_in parents a).
  pose proof (length_filter (λ gp, gp ∉ {[a]} ∪ visited) (parents_in parents a)). lia.
Qed.

Lemma peer_walk_ext g2 fuel visited queue :
  (∀ k, dependencies <$> nodes g !! k = dependencies <$> nodes g2 !! k) →
  peer_walk fuel g parents peer_name range visited queue =
  peer_walk fuel g2 parents peer_name range visited queue.
Proof.
  intros Hg. revert visited queue. induction fuel as [|fuel IH]; intros visited queue; [done|].
  destruct queue as [|a queue]; [done|]. simpl. case_decide; [done|].
  specialize (Hg a). destruct (nodes g !! a), (nodes g2 !! a); try done.
  injection Hg as ->. destruct (_ !! peer_name); [done|]. apply IH.
Qed.
End walk.
End peer_lemmas.

Section peer_search.
Context {SV : Semver} {HI : HashIter}.
Context (g : DepGraph) (pkg peer_name range : string).
Notation parents := (build_parent_map g).

(** An ancestor that declares the peer. *)
Definition declares (a k : string) : Prop :=
  ∃ n, peer_context g pkg a ∧ nodes g !! a = Some n ∧ dependencies n !! peer_name = Some k.

Lemma peer_walk_sound fuel visited queue r :
  Forall (peer_context g pkg) queue →
  peer_walk fuel g parents peer_name range visited queue = Some (Some r) →
  ∃ a k, declares a k ∧ r = judge k (extract_version_from_key k) range.
Proof.
  revert visited queue. induction fuel as [|fuel IH]; intros visited queue Hq H.
  { by destruct queue. }
  destruct queue as [|a queue]; [done|]. simpl in H. inversion_clear Hq as [|?? Ha Hq'].
  case_decide; [by eapply IH|].
  destruct (nodes g !! a) as [n|] eqn:En; [|by eapply IH].
  destruct (dependencies n !! peer_name) as [k|] eqn:Ek.
  - injection H as <-. exists a, k. split; [by exists n|done].
  - eapply IH; [|done]. apply Forall_app. split; [done|]. apply Forall_forall.
    intros b [_ Hb]%list_elem_of_filter. apply (parent_map_elem g) in Hb.
    by eapply context_up.
Qed.

(** Everything visited was expanded. *)
Definition closed_under (visited : gset string) (queue : list string) : Prop :=
  ∀ a n, a ∈ visited → nodes g !! a = Some n →
    dependencies n !! peer_name = None ∧ ∀ b, depends g b a → b ∈ visited ∨ b ∈ queue.

Lemma peer_walk_complete fuel visited queue :
  closed_under visited queue →
  peer_walk fuel g parents peer_name range visited queue = Some None →
  ∃ visited', visited ⊆ visited' ∧ (∀ a, a ∈ queue → a ∈ visited') ∧ closed_under visited' [].
Proof.
  revert visited queue. induction fuel as [|fuel IH]; intros visited queue Hc H.
  { destruct queue; [|done]. exists visited. set_solver. }
  destruct queue as [|a queue]; [exists visited; set_solver|]. simpl in H.
  case_decide as Ha.
  { apply IH in H as (v & ? & ? & ?).
    - exists v. set_solver.
    - intros b n Hb Hn. destruct (Hc b n Hb Hn) as [? Hd]. split; [done|].
      intros c Hcc. destruct (Hd c Hcc) as [?|[->|?]%elem_of_cons]; auto. }
  destruct (nodes g !! a) as [n|] eqn:En.
  2: { apply IH in H as (v & ? & ? & ?); [exists v; set_solver|].
       intros b n [->%elem_of_singleton|Hb]%elem_of_union Hn; [congruence|].
       destruct (Hc b n Hb Hn) as [? Hd]. split; [done|].
       intros c Hcc. destruct (Hd c Hcc) as [?|[->|?]%elem_of_cons]; set_solver. }
  destruct (dependencies n !! peer_name) as [k|] eqn:Ek; [done|].
  apply IH in H as (v & ? & ? & ?); [exists v; set_solver|].
  intros b m [->%elem_of_singleton|Hb]%elem_of_union Hm.
  - assert (m = n) as -> by congruence. split; [done|]. intros c Hcc.
    destruct (decide (c ∈ {[a]} ∪ visited)) as [?|Hcv]; [by left|]. right.
    apply elem_of_app. right. apply list_elem_of_filter. split; [done|].
    by apply (parent_map_elem g).
  - destruct (Hc b m Hb Hm) as [? Hd]. split; [done|].
    intros c Hcc. destruct (Hd c Hcc) as [?|[->|?]%elem_of_cons]; set_solver.
Qed.

Lemma peer_walk_none fuel :
  peer_walk fuel g parents peer_name range ∅ (default [] (parents !! pkg) ++ roots g) = Some None →
  ∀ a k, ¬ declares a k.
Proof.
  intros H. apply peer_walk_complete in H as (v & _ & Hq & Hc); [|intros ??; set_solver].
  intros a k (n & Hctx & Hn & Hk).
  assert (∀ b, peer_context g pkg b → b ∈ v) as Hall.
  { induction 1 as [b Hb|r Hr|b c _ IH [m Hm] Hd].
    - apply Hq, elem_of_app. left. by apply (parent_map_elem g).
    - apply Hq, elem_of_app. by right.
    - destruct (Hc b m IH Hm) as [_ Hcl]. destruct (Hcl c Hd); set_solver. }
  destruct (Hc a n (Hall a Hctx) Hn). congruence.
Qed.

(** A package that can provide the peer, under its key and version: an edge of an
    ancestor, or a root of that name. *)
Definition provider (k v : string) : Prop :=
  ((∃ a, declares a k) ∧ v = extract_version_from_key k) ∨
  (∃ n, k ∈ roots g ∧ nodes g !! k = Some n ∧
     (install_name n = peer_name ∨ name n = peer_name) ∧ v = version n).
Definition peer_outcome (r : PeerLookupResult) : Prop :=
  match r with
  | Found k => ∃ v, provider k v ∧ semver_satisfies v range = true
  | LookupConflict v => ∃ k, provider k v ∧ semver_satisfies v range = false
  | Missing => ∀ k v, ¬ provider k v
  end.

Lemma judge_outcome k v : provider k v → peer_outcome (judge k v range).
Proof. intros H. unfold judge. destruct (semver_satisfies v range) eqn:E; simpl; eauto. Qed.

Lemma find_root_peer_outcome rs :
  (∀ r, r ∈ rs → r ∈ roots g) →
  match find_root_peer g peer_name range rs with
  | Missing => ∀ r n, r ∈ rs → nodes g !! r = Some n → install_name n ≠ peer_name ∧ name n ≠ peer_name
  | o => peer_outcome o
  end.
Proof.
  induction rs as [|r rs IH]; intros Hr; simpl; [set_solver|].
  assert (∀ x, x ∈ rs → x ∈ roots g) as Hr' by set_solver.
  specialize (IH Hr'). destruct (nodes g !! r) as [n|] eqn:En.
  2: { destruct (find_root_peer _ _ _ rs); [done..|].
       intros x m [->|Hx]%elem_of_cons Hm; [congruence|by eapply IH]. }
  destruct (bool_decide (install_name n = peer_name)) eqn:E1;
    [|destruct (bool_decide (name n = peer_name)) eqn:E2]; simpl;
    repeat match goal with
    | H : bool_decide _ = true |- _ => apply bool_decide_eq_true in H
    | H : bool_decide _ = false |- _ => apply bool_decide_eq_false in H
    end.
  - assert (provider r (version n)) as Hp by (right; exists n; set_solver).
    pose proof (judge_outcome _ _ Hp) as Hj. unfold judge in *.
    by destruct (semver_satisfies _ _).
  - assert (provider r (version n)) as Hp by (right; exists n; set_solver).
    pose proof (judge_outcome _ _ Hp) as Hj. unfold judge in *.
    by destruct (semver_satisfies _ _).
  - destruct (find_root_peer _ _ _ rs); [done..|].
    intros x m [->|Hx]%elem_of_cons Hm; [naive_solver congruence|by eapply IH].
Qed.

Lemma find_peer_in_context_spec :
  ∃ r, find_peer_in_context g parents pkg peer_name range = Some r ∧ peer_outcome r.
Proof.
  unfold find_peer_in_context. set (queue := default [] (parents !! pkg) ++ roots g).
  destruct (peer_walk_total g parents peer_name range (walk_fuel parents queue) ∅ queue)
    as [[r|] Hw].
  { unfold walk_fuel, unvisited. rewrite map_filter_id; [lia|]. set_solver. }
  - rewrite Hw. simpl. exists r. split; [done|].
    apply peer_walk_sound in Hw as (a & k & Hd & ->).
    + apply judge_outcome. left. eauto.
    + apply Forall_app. split; apply Forall_forall; intros a Ha.
      * apply context_parent. by apply (parent_map_elem g).
      * by apply context_root.
  - rewrite Hw. simpl. eexists. split; [done|].
    pose proof (find_root_peer_outcome (roots g) (λ _ H, H)) as Hr.
    destruct (find_root_peer _ _ _ _) as [| |] eqn:Er; [done..|].
    intros k v [[[a Ha] _]|(n & Hk & Hn & Hname & _)].
    + by eapply peer_walk_none.
    + destruct (Hr k n Hk Hn). naive_solver.
Qed.
End peer_search.

Section peer_report.
Context {SV : Semver} {HI : HashIter}.
Implicit Types g : DepGraph.
Notation Work := (string * string * string * bool)%type.

(** A graph that differs from [g] only in the peers resolved. *)
Definition same_but_peers (n n' : DepNode) : Prop := ∃ ps,
  n' = {| name := name n; alias := alias n; version := version n; resolved := resolved n;
          integrity := integrity n; dependencies := dependencies n;
          has_install_script := has_install_script n; dev := dev n; optional := optional n;
          peer_dependencies := peer_dependencies n; optional_peers := optional_peers n;
          resolved_peers := ps |}.
Definition similar g g' : Prop :=
  roots g' = roots g ∧ ∀ k, option_Forall2 same_but_peers (nodes g !! k) (nodes g' !! k).

Lemma similar_refl g : similar g g.
Proof.
  split; [done|]. intros k. destruct (nodes g !! k) as [n|]; constructor.
  exists (resolved_peers n). by destruct n.
Qed.
Lemma similar_find g g' parents pkg peer_name range :
  similar g g' →
  find_peer_in_context g' parents pkg peer_name range =
  find_peer_in_context g parents pkg peer_name range.
Proof.
  intros [Hr Hn]. unfold find_peer_in_context. rewrite Hr.
  rewrite (peer_walk_ext g parents peer_name range g').
  2: { intros k. by destruct (Hn k) as [n n' [ps ->]|]. }
  f_equal. f_equal. clear Hr. induction (roots g) as [|r rs IH]; [done|]. simpl.
  destruct (Hn r) as [n n' [ps ->]|]; simpl; [|exact IH]. unfold install_name. simpl.
  case_match; [done|exact IH].
Qed.
Lemma similar_alter g g' k p pk rep :
  similar g g' →
  similar g {| nodes := alter (set_peer p pk) k (nodes g'); roots := roots g'; peer_report := rep |}.
Proof.
  intros [Hr Hn]. split; [done|]. intros j. simpl. specialize (Hn j).
  destruct (decide (j = k)) as [->|Hj]; [rewrite lookup_alter_eq|by rewrite lookup_alter_ne].
  destruct Hn as [n n' [ps ->]|]; constructor. by eexists.
Qed.

(** The peer of a node after the pass. *)
Definition resolved_peer g (k p : string) : option string :=
  n ← nodes g !! k; resolved_peers n !! p.
Definition work_key (w : Work) : string * string := (w.1.1.1, w.1.1.2).

#[local] Arguments record_peer : simpl never.
Lemma resolve_peer_work_spec g (out : Work → PeerLookupResult) work g1 rep :
  (∀ k p r o, find_peer_in_context g (build_parent_map g) k p r = Some (out (k, p, r, o))) →
  NoDup (work_key <$> work) → (∀ w, w ∈ work → is_Some (nodes g !! w.1.1.1)) →
  similar g g1 →
  ∃ g2, resolve_peer_work (build_parent_map g) work (g1, rep) =
      Some (g2, (foldl (λ st w, record_peer w (out w) st) (g1, rep) work).2) ∧
    similar g g2 ∧
    ∀ k p, resolved_peer g2 k p =
      match list_find (λ w, work_key w = (k, p)) work with
      | Some (_, w) =>
          match out w with Found pk => Some pk | _ => resolved_peer g1 k p end
      | None => resolved_peer g1 k p
      end.
Proof.
  intros Hout. revert g1 rep. induction work as [|w work IH]; intros g1 rep HN Hin Hs.
  { exists g1. split; [done|]. by split. }
  destruct w as [[[k p] r] o]. csimpl in *. apply NoDup_cons in HN as [Hnew HN].
  rewrite (similar_find g g1) by done. rewrite (Hout k p r o). simpl.
  destruct (Hin (k, p, r, o)) as [n Hn]; [left|]. simpl in Hn.
  assert (∃ g1' rep', record_peer (k, p, r, o) (out (k, p, r, o)) (g1, rep) = (g1', rep') ∧
    similar g g1' ∧ ∀ k' p', resolved_peer g1' k' p' =
      if decide ((k, p) = (k', p')) then
        match out (k, p, r, o) with Found pk => Some pk | _ => resolved_peer g1 k' p' end
      else resolved_peer g1 k' p') as (g1' & rep' & E & Hs' & Hp).
  { unfold record_peer. destruct (out (k, p, r, o)) as [pk|v|]; (eexists _, _; split; [reflexivity|]).
    - split; [by apply similar_alter|]. intros k' p'. unfold resolved_peer. simpl.
      destruct Hs as [_ Hs]. specialize (Hs k). rewrite Hn in Hs.
      destruct (nodes g1 !! k) as [n1|] eqn:En1; [|by inversion Hs].
      destruct (decide (k' = k)) as [->|Hk].
      + rewrite lookup_alter_eq, En1. simpl.
        destruct (decide (p' = p)) as [->|Hpp].
        * by rewrite lookup_insert_eq, decide_True.
        * rewrite lookup_insert_ne, decide_False by congruence. done.
      + rewrite lookup_alter_ne, decide_False by congruence. done.
    - split; [done|]. intros. by case_decide.
    - split; [done|]. intros. by case_decide. }
  rewrite E. destruct (IH g1' rep') as (g2 & Hg2 & Hs2 & Hp2); [done|set_solver|done|].
  exists g2. split; [done|]. split; [done|]. intros k' p'. rewrite Hp2.
  cbn [list_find]. change (work_key (k, p, r, o)) with (k, p).
  specialize (Hp k' p'). case_decide as Hd.
  - injection Hd as <- <-.
    rewrite (proj2 (list_find_None _ _)); [done|].
    apply Forall_forall. intros w Hw Hwk. apply Hnew, list_elem_of_fmap. by exists w.
  - rewrite Hp.
    by destruct (list_find _ work) as [[i w]|].
Qed.
End peer_report.

Section peer_theorem.
Context {SV : Semver} {HI : HashIter}.
Implicit Types g : DepGraph.
Notation Work := (string * string * string * bool)%type.

Lemma elem_of_peer_work g k p r o :
  (k, p, r, o) ∈ peer_work g ↔
  ∃ n, nodes g !! k = Some n ∧ peer_dependencies n !! p = Some r ∧
       o = bool_decide (p ∈ optional_peers n).
Proof.
  unfold peer_work. rewrite list_elem_of_bind. split.
  - intros ([k' n] & H & Hn%elem_of_hash_iter).
    apply list_elem_of_bind in H as ([p' r'] & H & Hp%elem_of_hash_iter).
    apply list_elem_of_singleton in H as [= -> -> -> ->]. eauto.
  - intros (n & Hn & Hp & ->). exists (k, n). rewrite elem_of_hash_iter. split; [|done].
    apply list_elem_of_bind. exists (p, r). rewrite elem_of_hash_iter. set_solver.
Qed.

Lemma NoDup_keyed {A B C} (l : list (A * B)) (f : A * B → list C) (key_of : C → A * A) :
  NoDup l.*1 → (∀ x, NoDup (key_of <$> f x)) →
  (∀ x c, c ∈ f x → (key_of c).1 = x.1) → NoDup (key_of <$> (l ≫= f)).
Proof.
  intros Hl Hf Hk. induction l as [|x l IH]; [constructor|]. csimpl in *.
  apply NoDup_cons in Hl as [Hx Hl]. rewrite fmap_app. apply NoDup_app.
  split_and!; [apply Hf| |by apply IH].
  intros c (c1 & -> & Hc1)%list_elem_of_fmap (c2 & E & Hc2)%list_elem_of_fmap.
  apply list_elem_of_bind in Hc2 as (y & Hc2 & Hy).
  apply Hx, list_elem_of_fmap. exists y. split; [|done].
  by rewrite <- (Hk x c1), E, (Hk y c2).
Qed.
Lemma NoDup_peer_work g : NoDup (work_key <$> peer_work g).
Proof.
  apply (NoDup_keyed _ _ work_key); [apply NoDup_hash_iter_keys| |].
  - intros [k n].
    assert (work_key <$> ('(pname, prange) ← hash_iter (peer_dependencies n);
              [(k, pname, prange, bool_decide (pname ∈ optional_peers n))]) =
            pair k <$> (hash_iter (peer_dependencies n)).*1) as ->.
    { induction (hash_iter (peer_dependencies n)) as [|[p r] l IH]; [done|]. csimpl.
      by f_equal. }
    apply (NoDup_fmap_2 _), NoDup_hash_iter_keys.
  - intros [k n] c ([p r] & Hc & _)%list_elem_of_bind. set_solver.
Qed.

(** The entries of the report. *)
Definition is_satisfied (out : Work → PeerLookupResult) (w : Work) : option PeerResolution :=
  match out w with Found pk => Some (Satisfied w.1.1.1 w.1.1.2 pk) | _ => None end.
Definition is_missing (out : Work → PeerLookupResult) (w : Work) : option PeerResolution :=
  match out w with
  | Missing => if w.2 then None else Some (MissingPeer w.1.1.1 w.1.1.2 w.1.2)
  | _ => None
  end.
Definition is_optional_missing (out : Work → PeerLookupResult) (w : Work) : option string :=
  match out w with Missing => if w.2 then Some w.1.1.2 else None | _ => None end.
Definition is_conflict (out : Work → PeerLookupResult) (w : Work) : option PeerResolution :=
  match out w with
  | LookupConflict v => Some (Conflict w.1.1.1 w.1.1.2 w.1.2 v)
  | _ => None
  end.

Lemma foldl_report out work g1 rep :
  (foldl (λ st w, record_peer w (out w) st) (g1, rep) work).2 =
  {| satisfied := satisfied rep ++ omap (is_satisfied out) work;
     missing := missing rep ++ omap (is_missing out) work;
     conflicts := conflicts rep ++ omap (is_conflict out) work;
     optional_missing := optional_missing rep ++ omap (is_optional_missing out) work |}.
Proof.
  revert g1 rep. induction work as [|w work IH]; intros g1 rep; simpl.
  { rewrite !app_nil_r. by destruct rep. }
  destruct w as [[[k p] r] o]. unfold is_satisfied, is_missing, is_conflict, is_optional_missing.
  unfold record_peer at 2. destruct (out (k, p, r, o)) eqn:E; [..|destruct o];
    rewrite IH; simpl; rewrite ?E, <- ?app_assoc; done.
Qed.

(** Peer dependencies. The pass ends for every graph, cycles included, and
    gives every peer a package declares one outcome: found when an ancestor (a
    package above it, a root or one above a root) has an edge of that name, or a
    root has that name, whose version satisfies the range; a conflict when such a
    version does not satisfy it; missing only when there is no such edge and no
    such root. The report lists every outcome once, a missing optional peer apart,
    the peers found are recorded in the package, and nothing else changes. *)
Theorem resolve_peers_spec g :
  ∃ g' rep out,
    resolve_peers g = Some (g', rep) ∧
    (∀ k p r o, peer_outcome g k p r (out (k, p, r, o))) ∧
    similar g g' ∧
    (∀ k n p, nodes g !! k = Some n →
       resolved_peer g' k p =
       match peer_dependencies n !! p with
       | Some r =>
           match out (k, p, r, bool_decide (p ∈ optional_peers n)) with
           | Found pk => Some pk
           | _ => resolved_peers n !! p
           end
       | None => resolved_peers n !! p
       end) ∧
    satisfied rep = omap (is_satisfied out) (peer_work g) ∧
    missing rep = omap (is_missing out) (peer_work g) ∧
    conflicts rep = omap (is_conflict out) (peer_work g) ∧
    optional_missing rep = omap (is_optional_missing out) (peer_work g).
Proof.
  set (out := λ w : Work, default Missing
    (find_peer_in_context g (build_parent_map g) w.1.1.1 w.1.1.2 w.1.2)).
  assert (∀ k p r o, find_peer_in_context g (build_parent_map g) k p r = Some (out (k, p, r, o)) ∧
            peer_outcome g k p r (out (k, p, r, o))) as Hout.
  { intros k p r o. destruct (find_peer_in_context_spec g k p r) as (x & Hx & Ho).
    unfold out. simpl. by rewrite Hx. }
  destruct (resolve_peer_work_spec g out (peer_work g) g default_report) as (g' & Hg & Hs & Hp).
  { intros. apply Hout. }
  { apply NoDup_peer_work. }
  { intros [[[k p] r] o] (n & Hn & _)%elem_of_peer_work. by exists n. }
  { apply similar_refl. }
  eexists g', _, out. split; [exact Hg|]. rewrite foldl_report. simpl.
  split_and!; try done; [intros; apply Hout|].
  intros k n p Hn. rewrite Hp.
  assert (resolved_peer g k p = resolved_peers n !! p) as -> by (unfold resolved_peer; by rewrite Hn).
  destruct (peer_dependencies n !! p) as [r|] eqn:Er.
  - destruct (list_find_elem_of (λ w, work_key w = (k, p)) (peer_work g)
      (k, p, r, bool_decide (p ∈ optional_peers n))) as [[i w] Hf]; [|done|].
    { apply elem_of_peer_work. eauto. }
    rewrite Hf. apply list_find_Some in Hf as (Hw & Hkey & _).
    apply list_elem_of_lookup_2 in Hw. destruct w as [[[k' p'] r'] o].
    injection Hkey as -> ->. apply elem_of_peer_work in Hw as (n' & ? & ? & ->).
    by simplify_eq.
  - destruct (list_find _ _) as [[i w]|] eqn:Hf; [|done].
    apply list_find_Some in Hf as (Hw & Hkey & _). apply list_elem_of_lookup_2 in Hw.
    destruct w as [[[k' p'] r'] o]. injection Hkey as -> ->.
    apply elem_of_peer_work in Hw as (n' & ? & ? & _). congruence.
Qed.
End peer_theorem.

(** ** The specification of the search *)

Section search_spec.
Context {SV : Semver} {HI : HashIter} {GT : GitTools} {SH : Sha256Hex} {RE : ResolveEnv}.
Context (options : ResolveOptions).
Implicit Types (p c : PendingDep).

(** [c] asks for the dependency [d] declared with the specifier [s]: for the
    package an alias names, under the name [d], else for [d] itself. *)
Definition asks_for (dp : nat) (dv opt : bool) (d s : string) c : Prop :=
  depth c = dp ∧ pending_dev c = dv ∧ pending_optional c = opt ∧
  match parse_alias_spec s with
  | Some (real, ver) => pending_name c = real ∧ specifier c = ver ∧ pending_alias c = Some d
  | None => pending_name c = d ∧ specifier c = s ∧ pending_alias c = None
  end.

(** A dependency of the project. *)
Definition direct (deps devs : gmap string string) c : Prop := ∃ d s,
  deps !! d = Some s ∧ asks_for 0 false false d s c ∨
  include_dev options = true ∧ devs !! d = Some s ∧ asks_for 0 true false d s c.
(** A dependency of a package with the lists [plain] and [opts], chosen for [p]. *)
Definition declared_by p (plain opts : gmap string string) c : Prop := ∃ d s,
  plain !! d = Some s ∧ asks_for (S (depth p)) (pending_dev p) false d s c ∨
  include_optional options = true ∧ opts !! d = Some s ∧
    asks_for (S (depth p)) (pending_dev p) true d s c.

(** The package a pending dependency leads to: its key, its node before the edges,
    and the dependencies it declares, from a packument of the cache or from git. *)
Inductive leads_to (cache : gmap string Packument) p :
    string → DepNode → gmap string string → gmap string string → Prop :=
  | leads_registry packument v info :
      is_git_spec (specifier p) = false →
      cache !! pending_name p = Some packument →
      resolve_version packument (specifier p) = Ok (v, info) →
      leads_to cache p (key (default (pending_name p) (pending_alias p)) v)
        {| name := pending_name p; alias := pending_alias p; version := v;
           resolved := tarball (dist info); integrity := dist_integrity (dist info);
           dependencies :=
             if include_optional options
             then optional_dependencies info ∪ info_dependencies info else info_dependencies info;
           has_install_script := info_has_install_script info;
           dev := pending_dev p; optional := pending_optional p;
           peer_dependencies := info_peer_dependencies info;
           optional_peers :=
             dom (filter (λ e, peer_optional e.2 = true) (peer_dependencies_meta info));
           resolved_peers := ∅ |}
        (info_dependencies info) (optional_dependencies info)
  | leads_git spec g :
      is_git_spec (specifier p) = true →
      parse_git_spec (specifier p) = Some spec →
      resolve_git_spec spec = Ok g →
      leads_to cache p (key (default (pending_name p) (pending_alias p)) (git_version g))
        {| name := git_name g; alias := pending_alias p; version := git_version g;
           resolved := resolved_url g; integrity := None;
           dependencies :=
             if include_optional options
             then git_optional_dependencies g ∪ git_dependencies g else git_dependencies g;
           has_install_script := git_has_install_script g;
           dev := pending_dev p; optional := pending_optional p;
           peer_dependencies := ∅; optional_peers := ∅; resolved_peers := ∅ |}
        (git_dependencies g) (git_optional_dependencies g).

(** Why a dependency comes to nothing. The packuments of a level are asked for
    in the round of its number. *)
Inductive blocked (cache : gmap string Packument) p : Prop :=
  | not_fetched e :
      is_git_spec (specifier p) = false →
      fetch_packument (depth p) (pending_name p) = Err e → blocked cache p
  | no_version packument e :
      is_git_spec (specifier p) = false →
      cache !! pending_name p = Some packument →
      resolve_version packument (specifier p) = Err e → blocked cache p
  | git_unparsed :
      is_git_spec (specifier p) = true → parse_git_spec (specifier p) = None → blocked cache p
  | git_failed spec e :
      is_git_spec (specifier p) = true → parse_git_spec (specifier p) = Some spec →
      resolve_git_spec spec = Err e → blocked cache p
  | git_not_cached spec g :
      is_git_spec (specifier p) = true → parse_git_spec (specifier p) = Some spec →
      resolve_git_spec spec = Ok g →
      git_cache_writable (git_cache_file_name (git_name g) (git_version g) (resolved_url g)) = false →
      blocked cache p.

(** An optional package the platform rules out. *)
Definition ruled_out (cache : gmap string Packument) p (k : string) : Prop :=
  pending_optional p = true ∧ is_git_spec (specifier p) = false ∧
  ∃ packument v info,
    cache !! pending_name p = Some packument ∧
    resolve_version packument (specifier p) = Ok (v, info) ∧
    k = key (default (pending_name p) (pending_alias p)) v ∧
    is_platform_compatible current_os current_cpu (os info) (cpu info) = false.

(** [n] is [n0] with its edges and peers filled in. *)
Definition same_package (n0 n : DepNode) : Prop :=
  ∃ deps ps, n = {| name := name n0; alias := alias n0; version := version n0;
    resolved := resolved n0; integrity := integrity n0; dependencies := deps;
    has_install_script := has_install_script n0; dev := dev n0; optional := optional n0;
    peer_dependencies := peer_dependencies n0; optional_peers := optional_peers n0;
    resolved_peers := ps |}.

(** The dependencies the search comes to: those of the project, and those declared
    by the packages of the graph that were chosen for one of them. *)
Inductive reached (deps devs : gmap string string) (cache : gmap string Packument)
    (g : DepGraph) : PendingDep → Prop :=
  | reached_direct c : direct deps devs c → reached deps devs cache g c
  | reached_below p k n0 n plain opts c :
      reached deps devs cache g p → depth p ≤ max_depth options →
      leads_to cache p k n0 plain opts → nodes g !! k = Some n → same_package n0 n →
      declared_by p plain opts c → reached deps devs cache g c.

(** *** Lemmas *)

#[export] Instance same_package_refl : Reflexive same_package.
Proof. intros n. exists (dependencies n), (resolved_peers n). by destruct n. Qed.
#[export] Instance same_package_trans : Transitive same_package.
Proof. intros n0 n1 n2 (ds & ps & ->) (ds' & ps' & ->). by exists ds', ps'. Qed.

Lemma pending_asks dp dv opt d s c :
  asks_for dp dv opt d s c ↔ c = pending dp dv opt (d, s).
Proof.
  unfold asks_for, pending. simpl. destruct c. simpl.
  destruct (parse_alias_spec s) as [[real ver]|]; split; [naive_solver|intros [=]|naive_solver|intros [=]];
    by simplify_eq.
Qed.
Lemma elem_of_pending dp dv opt (m : gmap string string) c :
  c ∈ pending dp dv opt <$> hash_iter m ↔ ∃ d s, m !! d = Some s ∧ asks_for dp dv opt d s c.
Proof.
  rewrite list_elem_of_fmap. setoid_rewrite pending_asks. split.
  - intros ([d s] & -> & H%elem_of_hash_iter). eauto.
  - intros (d & s & H & ->). exists (d, s). by rewrite elem_of_hash_iter.
Qed.
Lemma elem_of_start_level deps devs c :
  c ∈ start_level options deps devs ↔ direct deps devs c.
Proof.
  unfold start_level, direct. rewrite elem_of_app, elem_of_pending.
  destruct (include_dev options); [rewrite elem_of_pending|]; set_solver.
Qed.
Lemma elem_of_children p plain opts c :
  c ∈ children options p plain opts ↔ declared_by p plain opts c.
Proof.
  unfold children, declared_by. rewrite elem_of_app, elem_of_pending.
  destruct (include_optional options); [rewrite elem_of_pending|]; set_solver.
Qed.
Lemma direct_level0 deps devs c :
  direct deps devs c → depth c = 0 ∧ pending_optional c = false.
Proof. intros (d & s & [(_ & ? & _ & ? & _)|(_ & _ & ? & _ & ? & _)]); done. Qed.
Lemma declared_depth p plain opts c : declared_by p plain opts c → depth c = S (depth p).
Proof. intros (d & s & [(_ & ? & _)|(_ & _ & ? & _)]); done. Qed.
Lemma reached_level0 deps devs cache g c :
  reached deps devs cache g c → depth c = 0 → direct deps devs c.
Proof. intros [?|p k n0 n plain opts c' _ _ _ _ _ H] Hz; [done|]. apply declared_depth in H. lia. Qed.

Lemma leads_mono cache cache' p k n plain opts :
  cache ⊆ cache' → leads_to cache p k n plain opts → leads_to cache' p k n plain opts.
Proof.
  intros Hc [pk v info ???|spec g ???]; [|by eapply leads_git].
  eapply leads_registry; [done| |done]. by eapply lookup_weaken.
Qed.
Lemma leads_fields cache p k n plain opts :
  leads_to cache p k n plain opts →
  optional n = pending_optional p ∧ alias n = pending_alias p.
Proof. by destruct 1. Qed.
Lemma blocked_mono cache cache' p : cache ⊆ cache' → blocked cache p → blocked cache' p.
Proof.
  intros Hc [e ??|pk e ? Hp ?|??|spec e ???|spec g ????].
  - by eapply not_fetched.
  - eapply no_version; [done| |done]. by eapply lookup_weaken.
  - by eapply git_unparsed.
  - by eapply git_failed.
  - by eapply git_not_cached.
Qed.
Lemma ruled_out_mono cache cache' p k :
  cache ⊆ cache' → ruled_out cache p k → ruled_out cache' p k.
Proof.
  intros Hc (Ho & Hg & pk & v & info & Hp & H). split_and!; [done..|]. exists pk, v, info.
  split; [by eapply lookup_weaken|done].
Qed.
Lemma reached_mono deps devs cache cache' g g' c :
  cache ⊆ cache' →
  (∀ k n, nodes g !! k = Some n → ∃ n', nodes g' !! k = Some n' ∧ same_package n n') →
  reached deps devs cache g c → reached deps devs cache' g' c.
Proof.
  intros Hc Hg. induction 1 as [|p k n0 n plain opts c _ IH Hp Hl Hn Hs Hd]; [by apply reached_direct|].
  destruct (Hg k n Hn) as (n' & ? & ?).
  eapply reached_below; [done|done|by eapply leads_mono|done|by etrans|done].
Qed.
End search_spec.

(** ** The search: lemmas *)

Section search.
Context {SV : Semver} {HI : HashIter} {GT : GitTools} {SH : Sha256Hex} {RE : ResolveEnv}.
Context (options : ResolveOptions).
Implicit Types (st : State) (p c : PendingDep).

(** A dependency dealt with: too deep, optional and come to nothing, or its
    package marked. *)
Definition settled st p : Prop :=
  max_depth options < depth p ∨
  pending_optional p = true ∧ blocked (packument_cache st) p ∨
  ∃ k n plain opts, leads_to options (packument_cache st) p k n plain opts ∧ k ∈ seen st.

(** What is not in the cache was asked for in vain. *)
Definition fetched (cache : gmap string Packument) p : Prop :=
  depth p ≤ max_depth options → is_git_spec (specifier p) = false →
  cache !! pending_name p = None → ∃ e, fetch_packument (depth p) (pending_name p) = Err e.

(** The two ways a visit goes on, and the one in which it ends the search. *)
Lemma visit_spec p st :
  fetched (packument_cache st) p →
  match visit options p st with
  | Ok st' =>
      (st' = st ∧ settled st p) ∨
      (depth p ≤ max_depth options ∧ ∃ k, k ∉ seen st ∧
        (ruled_out (packument_cache st) p k ∧ st' = mark p k st ∨
         ∃ n plain opts gc, leads_to options (packument_cache st) p k n plain opts ∧
           st' = set_git_cache gc (add_node k n (children options p plain opts) (mark p k st))))
  | Err _ =>
      depth p ≤ max_depth options ∧ pending_optional p = false ∧ blocked (packument_cache st) p
  end.
Proof.
  intros Hf. unfold visit, settled.
  destruct (Nat.ltb_spec (max_depth options) (depth p)) as [Hd|Hd]; [left; auto|].
  destruct (is_git_spec (specifier p)) eqn:Eg.
  - unfold resolve_git_dep. destruct (parse_git_spec _) as [spec|] eqn:Es.
    2: { destruct (pending_optional p); [left|]; auto 10 using git_unparsed. }
    destruct (resolve_git_spec spec) as [g|e] eqn:Er.
    2: { destruct (pending_optional p); [left|]; eauto 10 using git_failed. }
    assert (leads_to options (packument_cache st) p (key (pending_install_name p) (git_version g))
      (git_node options p g) (git_dependencies g) (git_optional_dependencies g)) as Hl
      by by eapply leads_git.
    case_decide as Hk.
    { left. split; [done|]. do 2 right. eauto 10. }
    destruct (cache_git_tarball _ _ g) as [gc|] eqn:Ec.
    + right. split; [done|]. eexists. split; [done|]. right. eexists _, _, _, gc. by split.
    + destruct (pending_optional p).
      * right. split; [done|]. eexists. split; [done|]. right. eexists _, _, _, (git_cache st). by split.
      * split_and!; [done..|]. eapply git_not_cached; [done..|].
        unfold cache_git_tarball in Ec. repeat case_match; simplify_eq; done.
  - destruct (packument_cache st !! pending_name p) as [pk|] eqn:Ep.
    2: { destruct (Hf Hd Eg Ep) as [e He].
         destruct (pending_optional p); [left|]; eauto 10 using not_fetched. }
    destruct (resolve_version pk (specifier p)) as [[v info]|e] eqn:Er.
    2: { destruct (pending_optional p); [left|]; eauto 10 using no_version. }
    assert (leads_to options (packument_cache st) p (key (pending_install_name p) v)
      (registry_node options p v info) (info_dependencies info) (optional_dependencies info)) as Hl
      by by eapply leads_registry.
    case_decide as Hk.
    { left. split; [done|]. do 2 right. eauto 10. }
    destruct (pending_optional p && _) eqn:Ec; right; (split; [done|]); eexists; (split; [done|]).
    + left. apply andb_true_iff in Ec as [Eo Ec%negb_true_iff]. split; [|done].
      split_and!; [done..|]. eauto 10.
    + right. eexists _, _, _, (git_cache st). by split.
Qed.

(** *** Termination: dependencies of level [d] have depth [d] *)

Lemma children_depth p a b : Forall (λ c, depth c = S (depth p)) (children options p a b).
Proof. apply Forall_forall. intros c Hc%elem_of_children. by eapply declared_depth. Qed.

Lemma visit_next p st st' :
  visit options p st = Ok st' →
  packument_cache st' = packument_cache st ∧
  ∃ cs, next_level st' = next_level st ++ cs ∧
    Forall (λ c, depth c = S (depth p) ∧ depth p ≤ max_depth options) cs.
Proof.
  assert (∃ cs, next_level st = next_level st ++ cs ∧
    Forall (λ c, depth c = S (depth p) ∧ depth p ≤ max_depth options) cs) as Hnil
    by (exists []; by rewrite app_nil_r).
  assert (∀ a b, depth p ≤ max_depth options → Forall (λ c, depth c = S (depth p) ∧
    depth p ≤ max_depth options) (children options p a b)) as Hcs.
  { intros a b Hd. eapply Forall_impl; [apply children_depth|]. done. }
  unfold visit. destruct (Nat.ltb_spec (max_depth options) (depth p)) as [Hd|Hd]; [by intros [= <-]|].
  destruct (is_git_spec _).
  - unfold resolve_git_dep. destruct (parse_git_spec _) as [spec|];
      [destruct (resolve_git_spec spec) as [g|e]; [case_decide; [|destruct (cache_git_tarball _ _ g)]|]|];
      try destruct (pending_optional p); intros [= <-]; (split; [done|]); simpl; eauto.
  - destruct (_ !! _) as [pk|]; [destruct (resolve_version pk _) as [[v info]|e]; [case_decide;
      [|destruct (pending_optional p && _)]|]|]; try destruct (pending_optional p);
      intros [= <-]; (split; [done|]); simpl; eauto.
Qed.
Lemma visit_depth p st st' d :
  visit options p st = Ok st' → depth p = d →
  Forall (λ c, depth c = S d ∧ d ≤ max_depth options) (next_level st) →
  Forall (λ c, depth c = S d ∧ d ≤ max_depth options) (next_level st').
Proof. intros H <- HF. apply visit_next in H as (_ & cs & -> & ?). by apply Forall_app. Qed.
Lemma visit_all_depth level st st' d :
  visit_all options level st = Ok st' → Forall (λ c, depth c = d) level →
  Forall (λ c, depth c = S d ∧ d ≤ max_depth options) (next_level st) →
  Forall (λ c, depth c = S d ∧ d ≤ max_depth options) (next_level st').
Proof.
  revert st. induction level as [|p level IH]; intros st H Hl Hn; simpl in H.
  { by injection H as <-. }
  apply bind_Ok in H as (st1 & H1 & H). inversion_clear Hl as [|?? Hp Hl'].
  eapply IH; [done..|]. by eapply visit_depth.
Qed.

Lemma bfs_total fuel lvl level st :
  Forall (λ c, depth c = lvl) level → max_depth options + 2 ≤ fuel + lvl →
  (level = [] ∨ lvl ≤ S (max_depth options)) →
  ∃ r, bfs options fuel lvl level st = Some r.
Proof.
  revert lvl level st. induction fuel as [|fuel IH]; intros lvl level st Hl Hf Hle.
  { destruct Hle as [->|]; [by eexists|lia]. }
  destruct level as [|p level]; [by eexists|]. cbn [bfs].
  destruct (visit_all options (p :: level) _) as [st'|e] eqn:E; [|by eexists].
  apply (visit_all_depth _ _ _ lvl) in E; [|done|constructor]. apply IH.
  - eapply Forall_impl; [done|]. by intros c [? _].
  - lia.
  - destruct (next_level st') as [|c cs]; [by left|]. right.
    inversion_clear E as [|?? [_ ?]]. lia.
Qed.
End search.

Section invariant.
Context {SV : Semver} {HI : HashIter} {GT : GitTools} {SH : Sha256Hex} {RE : ResolveEnv}.
Context (options : ResolveOptions).
Context (cache0 : gmap string Packument) (deps devs : gmap string string).
Implicit Types (st : State) (p c : PendingDep) (Q : list PendingDep).
Notation direct := (direct options deps devs).
Notation reached_in st := (reached options deps devs (packument_cache st) (graph st)).
Notation leads_in st := (leads_to options (packument_cache st)).

(** Every packument is the one the resolver had or one the registry gave. *)
Definition packuments_given (cache : gmap string Packument) : Prop := ∀ n pk,
  cache !! n = Some pk → cache0 !! n = Some pk ∨ ∃ lvl, fetch_packument lvl n = Ok pk.
Definition rooted st c : Prop :=
  ∃ k n plain opts, leads_in st c k n plain opts ∧ k ∈ roots (graph st).

(** The invariant of the search, [Q] being the dependencies still to visit. *)
Record search_inv st Q : Prop := {
  inv_cache : packuments_given (packument_cache st);
  inv_roots r : r ∈ roots (graph st) → is_Some (nodes (graph st) !! r) ∧ r ∈ seen st ∧
    ∃ c n plain opts, direct c ∧ leads_in st c r n plain opts;
  inv_roots_NoDup : NoDup (roots (graph st));
  inv_nodes k n : nodes (graph st) !! k = Some n →
    k ∈ seen st ∧ ∃ p plain opts, depth p ≤ max_depth options ∧ reached_in st p ∧
      leads_in st p k n plain opts ∧
      ∀ c, declared_by options p plain opts c → settled options st c ∨ c ∈ Q;
  inv_seen k : k ∈ seen st → is_Some (nodes (graph st) !! k) ∨
    ∃ p, reached_in st p ∧ ruled_out (packument_cache st) p k;
  inv_direct c : direct c → c ∈ Q ∨ rooted st c;
  inv_queue c : c ∈ Q → reached_in st c;
  inv_level0 : (∀ k, k ∈ seen st → k ∈ roots (graph st)) ∨ ∀ c, c ∈ Q → 0 < depth c;
}.

Lemma settled_mono st st' p :
  packument_cache st ⊆ packument_cache st' → seen st ⊆ seen st' →
  settled options st p → settled options st' p.
Proof.
  intros Hc Hs [?|[[? ?]|(k & n & a & b & Hl & Hk)]]; [by left| |].
  - right; left. split; [done|]. by eapply blocked_mono.
  - do 2 right. exists k, n, a, b. split; [by eapply leads_mono|set_solver].
Qed.
Lemma reached_same cache cache' g c :
  cache ⊆ cache' →
  reached options deps devs cache g c → reached options deps devs cache' g c.
Proof. intros Hc. apply reached_mono; [done|]. intros k n Hn. by exists n. Qed.

(** Fetching only adds packuments, and asks for all that are missing. *)
Lemma fetch_level_cache lvl level st :
  let st' := fetch_level options lvl level st in
  packument_cache st ⊆ packument_cache st' ∧
  ∀ n pk, packument_cache st' !! n = Some pk →
    packument_cache st !! n = Some pk ∨ fetch_packument lvl n = Ok pk.
Proof.
  unfold fetch_level. simpl. set (c0 := packument_cache st).
  assert (∀ n, n ∈ names_to_fetch options c0 level → c0 !! n = None) as Hn.
  { intros n [?|(p & -> & [Hp _]%list_elem_of_filter)%list_elem_of_fmap]%elem_of_push_all;
      [set_solver|].
    unfold to_fetch in Hp. destruct (c0 !! pending_name p); [|done].
    by rewrite andb_false_r in Hp. }
  revert Hn. generalize (names_to_fetch options c0 level). intros l Hl.
  assert (∀ acc, c0 ⊆ acc →
    (∀ n pk, acc !! n = Some pk → c0 !! n = Some pk ∨ fetch_packument lvl n = Ok pk) →
    c0 ⊆ foldl (store_fetched lvl) acc l ∧
    ∀ n pk, foldl (store_fetched lvl) acc l !! n = Some pk →
      c0 !! n = Some pk ∨ fetch_packument lvl n = Ok pk) as H; [|apply H; auto].
  induction l as [|n l IH]; intros acc Ha Hacc; [done|]. simpl.
  apply IH; [set_solver|..]; unfold store_fetched;
    destruct (fetch_packument lvl n) as [pk|e] eqn:E; try done.
  - apply insert_subseteq_r; [apply Hl; left|done].
  - intros m q [[<- <-]|[_ ?]]%lookup_insert_Some; auto.
Qed.
Lemma store_fetched_Some lvl n l acc :
  is_Some (acc !! n) ∨ n ∈ l ∧ (∃ pk, fetch_packument lvl n = Ok pk) →
  is_Some (foldl (store_fetched lvl) acc l !! n).
Proof.
  revert acc. induction l as [|m l IH]; intros acc H; simpl; [destruct H; set_solver|].
  apply IH. unfold store_fetched. destruct H as [H|[[->|H]%elem_of_cons [pk E]]]; [left|left|by right; eauto].
  - destruct (fetch_packument lvl m); [|done]. rewrite lookup_insert_is_Some'. by right.
  - rewrite E, lookup_insert_eq. done.
Qed.
Lemma fetch_level_fetched level st p :
  p ∈ level → fetched options (packument_cache (fetch_level options (depth p) level st)) p.
Proof.
  intros Hp Hd Hg Hn. destruct (fetch_packument _ _) as [pk|e] eqn:E; [|by eexists]. exfalso.
  pose proof (fetch_level_cache (depth p) level st) as [Hc _].
  assert (packument_cache st !! pending_name p = None) as H0
    by (eapply lookup_weaken_None; eassumption).
  destruct (store_fetched_Some (depth p) (pending_name p)
    (names_to_fetch options (packument_cache st) level) (packument_cache st)) as [x Hx].
  - right. split; [|by eexists]. apply elem_of_push_all. right. apply list_elem_of_fmap.
    exists p. split; [done|]. apply list_elem_of_filter. split; [|done]. unfold to_fetch.
    rewrite Hg, H0, (proj2 (Nat.ltb_ge _ _) Hd). done.
  - unfold fetch_level in Hn. simpl in Hn. congruence.
Qed.

Lemma fetch_level_inv lvl level st Q :
  search_inv st Q → search_inv (set_level [] (fetch_level options lvl level st)) Q.
Proof.
  intros Hi. destruct (fetch_level_cache lvl level st) as [Hc Hf].
  set (st' := set_level [] (fetch_level options lvl level st)).
  assert (∀ p, settled options st p → settled options st' p) as Hset
    by (intros p; by apply settled_mono).
  assert (∀ p, reached_in st p → reached_in st' p) as Hre by (intros p; by apply reached_same).
  destruct Hi as [Hcache Hroots HN Hnodes Hseen Hd Hq Hl].
  split; [| |done| | | | |done].
  - intros n pk [?|?]%Hf; eauto.
  - intros r (? & ? & c & n & a & b & ? & ?)%Hroots. split_and!; [done..|].
    exists c, n, a, b. split; [done|by eapply leads_mono].
  - intros k n (Hk & p & a & b & ? & ? & Hlead & Hcs)%Hnodes. split; [done|]. exists p, a, b.
    split_and!; [done|auto|by eapply leads_mono|]. intros c Hcc. destruct (Hcs c Hcc); auto.
  - intros k [?|[p [? ?]]]%Hseen; [by left|]. right. exists p. split; [auto|by eapply ruled_out_mono].
  - intros c [?|(k & n & a & b & ? & ?)]%Hd; [by left|]. right. exists k, n, a, b.
    split; [by eapply leads_mono|done].
  - intros c ?%Hq. auto.
Qed.

(** A dependency dealt with leaves the queue. *)
Lemma inv_pop st p Q :
  search_inv st (p :: Q) → settled options st p →
  (depth p = 0 → direct p → rooted st p) → search_inv st Q.
Proof.
  intros [Hcache Hroots HN Hnodes Hseen Hd Hq Hl] Hs Hr. split; [done..| |done| | |].
  - intros k n (Hk & q & a & b & ? & ? & Hlead & Hcs)%Hnodes. split; [done|]. exists q, a, b.
    split_and!; [done..|]. intros c Hcc. destruct (Hcs c Hcc) as [|[->|]%elem_of_cons]; auto.
  - intros c Hcd. destruct (Hd c Hcd) as [[->|]%elem_of_cons|]; auto.
    right. apply Hr; [by eapply direct_level0|done].
  - intros c Hc. apply Hq. by right.
  - destruct Hl as [|Hl]; [by left|]. right. intros c Hc. apply Hl. by right.
Qed.

Lemma inv_add st p Q k n plain opts gc :
  search_inv st (p :: Q) → (∀ c, c ∈ Q → depth p ≤ depth c) →
  depth p ≤ max_depth options → k ∉ seen st →
  leads_in st p k n plain opts →
  search_inv (set_git_cache gc (add_node k n (children options p plain opts) (mark p k st)))
    (Q ++ children options p plain opts).
Proof.
  intros [Hcache Hroots HN Hnodes Hseen Hd Hq Hl] HQ Hdp Hk Hlead.
  set (cs := children options p plain opts).
  set (st' := set_git_cache gc (add_node k n cs (mark p k st))).
  assert (∀ c, c ∈ cs ↔ declared_by options p plain opts c) as Hcs by apply elem_of_children.
  assert (∀ q, settled options st q → settled options st' q) as Hmono
    by (intros q; apply settled_mono; [done|simpl; set_solver]).
  assert (settled options st' p) as Hsp.
  { do 2 right. exists k, n, plain, opts. split; [done|]. simpl. set_solver. }
  assert (∀ r, r ∈ roots (graph st') ↔ r ∈ roots (graph st) ∨ depth p = 0 ∧ r = k) as Hr'.
  { intros r. simpl. destruct (Nat.eqb_spec (depth p) 0); simpl; set_solver. }
  assert (nodes (graph st') = <[k:=n]> (nodes (graph st))) as Hn'
    by (simpl; by destruct (depth p =? 0)).
  assert (∀ q, reached_in st q → reached_in st' q) as Hre.
  { intros q. apply reached_mono; [done|]. intros j m Hj. exists m. split; [|done].
    rewrite Hn'. rewrite lookup_insert_ne; [done|]. intros ->. by destruct (Hnodes _ _ Hj). }
  assert (reached_in st' p) as Hp by (apply Hre, Hq; left).
  assert (∀ c, c ∈ Q ++ cs → depth p ≤ depth c) as HQ'.
  { intros c [?|Hc%Hcs%declared_depth]%elem_of_app; [auto|lia]. }
  split.
  - done.
  - intros r [Hr|[Hz ->]]%Hr'; rewrite Hn'.
    + destruct (Hroots r Hr) as (? & ? & ?). split_and!; [|simpl; set_solver|done].
      rewrite lookup_insert_is_Some'. by right.
    + rewrite lookup_insert_eq. split_and!; [done|simpl; set_solver|]. exists p, n, plain, opts.
      split; [|done]. by eapply reached_level0.
  - simpl. destruct (depth p =? 0); [|done]. simpl. apply NoDup_app.
    split_and!; [done| |apply NoDup_singleton]. intros r Hr ->%list_elem_of_singleton.
    by apply Hk, Hroots.
  - intros j m. rewrite Hn'.
    intros [[<- <-]|[_ (Hj & q & a & b & ? & ? & ? & Hc)%Hnodes]]%lookup_insert_Some.
    + split; [simpl; set_solver|]. exists p, plain, opts. split_and!; [done..|].
      intros c Hc%Hcs. right. apply elem_of_app. by right.
    + split; [simpl; set_solver|]. exists q, a, b. split_and!; [done|auto|done|].
      intros c [?|[->|?]%elem_of_cons]%Hc; [auto..|]. right. apply elem_of_app. by left.
  - intros j Hj. rewrite Hn'. simpl in Hj. apply elem_of_union in Hj as [->%elem_of_singleton|Hj].
    + left. by rewrite lookup_insert_eq.
    + destruct (Hseen j Hj) as [?|(q & ? & ?)]; [|right; exists q; auto].
      left. rewrite lookup_insert_is_Some'. by right.
  - intros c Hc. destruct (Hd c Hc) as [[->|?]%elem_of_cons|(j & m & a & b & ? & ?)].
    + right. exists k, n, plain, opts. split; [done|]. apply Hr'. right.
      split; [by eapply direct_level0|done].
    + left. apply elem_of_app. by left.
    + right. exists j, m, a, b. split; [done|]. apply Hr'. auto.
  - intros c [?|Hc%Hcs]%elem_of_app; [apply Hre, Hq; by right|].
    eapply (reached_below _ _ _ _ _ p k n n); [done..| |done|done]. rewrite Hn'. apply lookup_insert_eq.
  - destruct (decide (depth p = 0)) as [Hz|Hz].
    + destruct Hl as [Hl|Hl].
      * left. simpl. intros j [->%elem_of_singleton|Hj]%elem_of_union; apply Hr'; auto.
      * specialize (Hl p). set_solver by lia.
    + right. intros c Hc%HQ'. lia.
Qed.

Lemma inv_skip st p Q k :
  search_inv st (p :: Q) → (∀ c, c ∈ Q → depth p ≤ depth c) →
  ruled_out (packument_cache st) p k → (∃ n plain opts, leads_in st p k n plain opts) →
  search_inv (mark p k st) Q.
Proof.
  intros Hi HQ Hrule (n0 & a0 & b0 & Hlead). assert (reached_in st p) as Hp by (eapply inv_queue; [done|left]).
  assert (depth p ≠ 0) as Hz.
  { intros Hz. destruct Hrule as [Ho _]. apply reached_level0, direct_level0 in Hp; [|done].
    destruct Hp. congruence. }
  assert (graph (mark p k st) = graph st) as Hg
    by (simpl; by rewrite (proj2 (Nat.eqb_neq _ _) Hz)).
  assert (∀ c, settled options st c → settled options (mark p k st) c) as Hmono
    by (intros c; apply settled_mono; [done|simpl; set_solver]).
  destruct Hi as [Hcache Hroots HN Hnodes Hseen Hd Hq Hl].
  split; rewrite ?Hg; try done.
  - intros r Hr. destruct (Hroots r Hr) as (? & ? & ?). split_and!; [done|simpl; set_solver|done].
  - intros j m (Hj & q & a & b & ? & ? & ? & Hc)%Hnodes. split; [simpl; set_solver|]. exists q, a, b.
    split_and!; [done..|]. intros c [?|[->|?]%elem_of_cons]%Hc; [auto| |by right]. left.
    do 2 right. exists k, n0, a0, b0. split; [done|simpl; set_solver].
  - intros j [->%elem_of_singleton|?]%elem_of_union; [right; by exists p|auto].
  - intros c Hc. destruct (Hd c Hc) as [[->|?]%elem_of_cons|(j & m & a & b & ? & ?)].
    + destruct Hz. by eapply direct_level0.
    + by left.
    + right. exists j, m, a, b. by rewrite Hg.
  - intros c Hc. apply Hq. by right.
  - right. intros c Hc%HQ. lia.
Qed.

(** What a search that fails came to. *)
Definition search_failed : Prop := ∃ cache g c,
  packuments_given cache ∧ reached options deps devs cache g c ∧
  depth c ≤ max_depth options ∧ pending_optional c = false ∧ blocked cache c.

Lemma visit_inv st p rest :
  search_inv st (p :: rest ++ next_level st) →
  (∀ c, c ∈ rest ++ next_level st → depth p ≤ depth c) →
  fetched options (packument_cache st) p →
  match visit options p st with
  | Ok st' => search_inv st' (rest ++ next_level st')
  | Err _ => search_failed
  end.
Proof.
  intros Hi HQ Hf. pose proof (visit_spec options p st Hf) as H.
  assert (reached_in st p) as Hp by (eapply inv_queue; [done|left]).
  destruct (visit options p st) as [st'|e].
  2: { exists (packument_cache st), (graph st), p. destruct H as (? & ? & ?).
       split_and!; [by eapply inv_cache|done..]. }
  destruct H as [[-> Hs]|(Hd & k & Hk & [[Hr ->]|(n & a & b & gc & Hlead & ->)])].
  - apply (inv_pop _ _ _ Hi Hs). intros Hz Hdp.
    destruct Hs as [?|[[Ho _]|(k & n & a & b & Hl & Hk)]]; [lia| |].
    + apply direct_level0 in Hdp as [_ ?]. congruence.
    + exists k, n, a, b. split; [done|].
      destruct (inv_level0 _ _ Hi) as [Hl0|Hl0]; [auto|].
      specialize (Hl0 p). set_solver by lia.
  - apply inv_skip; [done..|]. destruct Hr as (_ & ? & pk & v & info & ? & ? & -> & _).
    by do 3 eexists; eapply leads_registry.
  - simpl. rewrite app_assoc. by apply inv_add.
Qed.
Lemma visit_all_inv level st d :
  search_inv st (level ++ next_level st) → Forall (λ c, depth c = d) level →
  Forall (λ c, depth c = S d ∧ d ≤ max_depth options) (next_level st) →
  (∀ p, p ∈ level → fetched options (packument_cache st) p) →
  match visit_all options level st with
  | Ok st' => search_inv st' (next_level st')
  | Err _ => search_failed
  end.
Proof.
  revert st. induction level as [|p level IH]; intros st Hi Hl Hn Hf; [done|]. simpl.
  inversion_clear Hl as [|?? Hp Hl'].
  pose proof (visit_inv st p level Hi) as Hv. pose proof (visit_next options p st) as Hx.
  destruct (visit options p st) as [st1|e] eqn:E; simpl.
  - destruct (Hx st1 eq_refl) as [Hc _]. apply IH; [| done| |].
    + apply Hv; [|apply Hf; left]. rewrite Forall_forall in Hl', Hn.
      intros c [?%Hl'|[? _]%Hn]%elem_of_app; lia.
    + by eapply visit_depth.
    + intros q Hq. rewrite Hc. apply Hf. by right.
  - apply Hv; [|apply Hf; left]. rewrite Forall_forall in Hl', Hn.
    intros c [?%Hl'|[? _]%Hn]%elem_of_app; lia.
Qed.

Lemma bfs_inv fuel lvl level st r :
  search_inv st level → Forall (λ c, depth c = lvl) level →
  bfs options fuel lvl level st = Some r →
  match r with Ok st' => search_inv st' [] | Err _ => search_failed end.
Proof.
  revert lvl level st. induction fuel as [|fuel IH]; intros lvl level st Hi Hl H.
  { destruct level; [|done]. by injection H as <-. }
  destruct level as [|p level]; [by injection H as <-|]. cbn [bfs] in H.
  pose proof (visit_all_inv (p :: level) (set_level [] (fetch_level options lvl (p :: level) st)) lvl)
    as Hv. simpl next_level in Hv. rewrite app_nil_r in Hv.
  specialize (Hv (fetch_level_inv _ _ _ _ Hi) Hl ltac:(constructor)).
  destruct (visit_all options (p :: level) _) as [st1|e] eqn:E.
  - pose proof E as Ed. apply (visit_all_depth _ _ _ _ lvl) in Ed; [|done|constructor].
    eapply IH; [| |done].
    + apply Hv. rewrite Forall_forall in Hl. intros q Hq. rewrite <- (Hl q Hq).
      by apply fetch_level_fetched.
    + eapply Forall_impl; [done|]. by intros c [? _].
  - injection H as <-. apply Hv. rewrite Forall_forall in Hl. intros q Hq. rewrite <- (Hl q Hq).
    by apply fetch_level_fetched.
Qed.

Lemma start_inv gcache :
  let level := start_level options deps devs in
  search_inv
    {| graph := new_graph; seen := ∅; packument_cache := cache0; git_cache := gcache;
       next_level := [] |} level.
Proof.
  intros level. split; simpl.
  - intros n pk H. by left.
  - intros r Hr. by apply elem_of_nil in Hr.
  - constructor.
  - intros k n Hn. by rewrite lookup_empty in Hn.
  - intros k Hk. by apply elem_of_empty in Hk.
  - intros c Hc. left. by apply elem_of_start_level.
  - intros c Hc%elem_of_start_level. by apply reached_direct.
  - left. intros k Hk. by apply elem_of_empty in Hk.
Qed.
End invariant.

(** ** Edges: lemmas *)

Section edges.
Context {SV : Semver} {HI : HashIter}.

(** A package of the graph an edge can lead to. *)
Definition edge_match (g : DepGraph) (d spec k : string) (v : Version) : Prop :=
  ∃ n, nodes g !! k = Some n ∧ (alias n = Some d ∨ name n = d) ∧
    parse_version (version n) = Some v ∧
    match parse_range (default spec (snd <$> parse_alias_spec spec)) with
    | Some r => satisfies r v = true
    | None => True
    end.

Lemma elem_of_edge_candidates g d spec k v :
  (k, v) ∈ edge_candidates g d spec ↔ edge_match g d spec k v.
Proof.
  unfold edge_candidates, edge_match. rewrite list_elem_of_omap. split.
  - intros ([k' n] & Hin%elem_of_hash_iter & H).
    destruct (_ || _) eqn:E; [|done]. apply orb_true_iff in E.
    rewrite !bool_decide_eq_true in E.
    destruct (parse_version (version n)) as [v'|] eqn:Ev; [|done].
    destruct (parse_range _) as [r|]; [destruct (satisfies r v') eqn:Es; [|done]|];
      injection H as -> ->; exists n; by split_and!.
  - intros (n & Hn & Hname & Hv & Hr). exists (k, n). rewrite elem_of_hash_iter. split; [done|].
    rewrite Hv. assert (bool_decide (alias n = Some d) || bool_decide (name n = d) = true) as ->.
    { apply orb_true_iff. by rewrite !bool_decide_eq_true. }
    destruct (parse_range _); [by rewrite Hr|done].
Qed.

#[local] Instance candidate_key_le_total : Total candidate_key_le.
Proof.
  intros [a va] [b vb]. unfold candidate_key_le. simpl.
  destruct (decide (version_le va vb)) as [H1|H1], (decide (version_le vb va)) as [H2|H2].
  - destruct (total String.le a b); auto.
  - auto.
  - auto.
  - by destruct (total version_le va vb).
Qed.
#[local] Instance candidate_key_le_trans : Transitive candidate_key_le.
Proof.
  intros [a va] [b vb] [c vc]. unfold candidate_key_le. simpl. intros [H1 H2] [H3 H4].
  split; [by etrans|]. destruct (decide (version_le vc va)) as [Hca|]; [|by left]. right.
  destruct H2 as [H2|H2]; [destruct H2; by etrans|].
  destruct H4 as [H4|H4]; [destruct H4; by etrans|]. by etrans.
Qed.

Lemma find_matching_key_spec g d spec :
  match find_matching_key g d spec with
  | Some k => ∃ v, edge_match g d spec k v ∧
      ∀ k' v', edge_match g d spec k' v' → version_le v' v
  | None => ∀ k v, ¬ edge_match g d spec k v
  end.
Proof.
  unfold find_matching_key.
  set (l := merge_sort candidate_key_le (edge_candidates g d spec)).
  assert (∀ k v, edge_match g d spec k v ↔ (k, v) ∈ l) as Hl
    by (intros k v; unfold l; by rewrite merge_sort_Permutation, elem_of_edge_candidates).
  destruct (last l) as [[k v]|] eqn:E; simpl; setoid_rewrite Hl.
  - exists v. split; [by eapply last_Some_elem_of|]. intros k' v' Hin.
    assert (candidate_key_le (k', v') (k, v)) as [? _]; [|done].
    apply (last_sorted_max candidate_key_le l); [|done..]. apply Sorted_merge_sort, _.
  - apply last_None in E. rewrite E. set_solver.
Qed.
End edges.

(** ** The theorem *)

Section theorem.
Context {SV : Semver} {HI : HashIter} {GT : GitTools} {SH : Sha256Hex} {RE : ResolveEnv}.
Context (options : ResolveOptions).

(** The edges of a node: every declared dependency leads to the highest package
    of the graph that matches it, and is dropped only if there is none. *)
Definition edges_ok (g : DepGraph) (n0 n : DepNode) : Prop :=
  ∀ d,
    match dependencies n0 !! d, dependencies n !! d with
    | Some spec, Some k => ∃ v, edge_match g d spec k v ∧
        ∀ k' v', edge_match g d spec k' v' → version_le v' v
    | Some spec, None => ∀ k v, ¬ edge_match g d spec k v
    | None, e => e = None
    end.

(** What a dependency came to in the graph. *)
Definition accounted (deps devs : gmap string string) (cache : gmap string Packument)
    (g : DepGraph) (c : PendingDep) : Prop :=
  max_depth options < depth c ∨
  pending_optional c = true ∧ blocked cache c ∨
  ∃ k n plain opts, leads_to options cache c k n plain opts ∧
    (is_Some (nodes g !! k) ∨
     ∃ p, reached options deps devs cache g p ∧ ruled_out cache p k).

Lemma edge_match_ext g g' d spec k v :
  (∀ k, option_Forall2 same_package (nodes g !! k) (nodes g' !! k)) →
  edge_match g d spec k v ↔ edge_match g' d spec k v.
Proof.
  intros Hs. unfold edge_match. specialize (Hs k).
  destruct Hs as [n n' (ds & ps & ->)|]; [|naive_solver].
  split; intros (m & [= <-] & H); eexists; (split; [reflexivity|]); exact H.
Qed.
Lemma fix_edges_same g k : option_Forall2 same_package (nodes g !! k) (nodes (fix_edges g) !! k).
Proof.
  simpl. rewrite lookup_fmap. destruct (nodes g !! k) as [n|]; constructor. by eexists _, _.
Qed.
Lemma same_package_peers g g1 g2 :
  (∀ k, option_Forall2 same_package (nodes g !! k) (nodes g1 !! k)) → similar g1 g2 →
  ∀ k, option_Forall2 same_package (nodes g !! k) (nodes g2 !! k).
Proof.
  intros H1 [_ H2] k. specialize (H1 k). specialize (H2 k).
  destruct H1 as [n n1 (ds & ps & ->)|]; inversion H2 as [? n2 [ps2 ->]|]; subst;
    constructor. by eexists _, _.
Qed.
Lemma edges_fixed g g' k n0 n :
  similar (fix_edges g) g' → nodes g !! k = Some n0 → nodes g' !! k = Some n → edges_ok g' n0 n.
Proof.
  intros Hsim Hn0 Hn d. pose proof (proj2 Hsim k) as H2. simpl in H2.
  rewrite lookup_fmap, Hn0, Hn in H2. inversion_clear H2 as [? ? [ps ->]|]. simpl.
  rewrite map_lookup_imap. destruct (dependencies n0 !! d) as [spec|]; [|done]. simpl.
  pose proof (find_matching_key_spec g d spec) as Hf.
  pose proof (λ k v, edge_match_ext g g' d spec k v
    (same_package_peers _ _ _ (fix_edges_same g) Hsim)) as Hext.
  destruct (find_matching_key _ _ _) as [k'|].
  - destruct Hf as (v & Hm & Hmax). exists v. split; [by apply Hext|].
    intros k2 v2 H%Hext. by eapply Hmax.
  - intros k2 v2 H%Hext. by eapply Hf.
Qed.

(** (C27) Dependency resolution. It ends for all answers of the registry and of
    git, cycles and ever deeper dependencies included. It fails only for a
    dependency it comes to that is not optional and not too deep, and whose
    packument is not had, whose specifier no version satisfies, or whose git
    reference fails; what it comes to are the dependencies of the project (an
    [npm:] alias standing for the package it names) and those declared by the
    packages chosen for them. The graph it returns has distinct roots, each a
    package of the graph chosen for a direct dependency, and each direct dependency
    has one. Every package of the graph was chosen for a dependency the search came
    to, by [resolve_version] from the packument of the name asked for or by git, and
    is recorded with what that says of it; the package chosen for each dependency
    it declares is in the graph, unless the dependency is too deep, is optional and
    comes to nothing, or the package was ruled out by the platform where the search
    came to it as an optional one; its edges lead to the highest matching packages
    of the graph, and one is dropped only when none matches. *)
Theorem resolve_spec cache gcache deps devs :
  ∃ r, resolve options cache gcache deps devs = Some r ∧
  match r with
  | Err _ => search_failed options cache deps devs
  | Ok g =>
      ∃ cache', packuments_given cache cache' ∧
      NoDup (roots g) ∧
      (∀ k, k ∈ roots g → is_Some (nodes g !! k) ∧
         ∃ c n plain opts, direct options deps devs c ∧ leads_to options cache' c k n plain opts) ∧
      (∀ c, direct options deps devs c →
         ∃ k n plain opts, leads_to options cache' c k n plain opts ∧ k ∈ roots g) ∧
      (∀ k n, nodes g !! k = Some n →
         ∃ p n0 plain opts,
           reached options deps devs cache' g p ∧ depth p ≤ max_depth options ∧
           leads_to options cache' p k n0 plain opts ∧ same_package n0 n ∧ edges_ok g n0 n ∧
           ∀ c, declared_by options p plain opts c → accounted deps devs cache' g c)
  end.
Proof.
  unfold resolve. set (level := start_level options deps devs). set (st0 := Build_State _ _ _ _ _).
  assert (Forall (λ c, depth c = 0) level) as HF.
  { apply Forall_forall. intros c Hc%elem_of_start_level. by eapply direct_level0. }
  destruct (bfs_total options (max_depth options + 2) 0 level st0 HF) as [r Hb]; [lia|right; lia|].
  rewrite Hb. simpl. apply (bfs_inv options cache deps devs) in Hb; [|apply start_inv|done].
  destruct r as [st|e]; [|by eexists].
  destruct Hb as [Hcache Hroots HN Hnodes Hseen Hdirect _ _].
  destruct (resolve_peers_spec (fix_edges (graph st))) as (g' & rep & _ & Hp & _ & Hsim & _).
  rewrite Hp. simpl. eexists. split; [reflexivity|]. simpl.
  pose proof (same_package_peers _ _ _ (fix_edges_same (graph st)) Hsim) as Hsame.
  set (g2 := {| nodes := nodes g'; roots := roots g'; peer_report := rep |}).
  assert (∀ k n, nodes (graph st) !! k = Some n →
    ∃ n', nodes g2 !! k = Some n' ∧ same_package n n') as Hin.
  { intros k n Hn. specialize (Hsame k). rewrite Hn in Hsame. inversion Hsame. eauto. }
  assert (∀ k, is_Some (nodes (graph st) !! k) → is_Some (nodes g' !! k)) as Hin'.
  { intros k [n Hn]. destruct (Hin k n Hn) as (n' & ? & _). by exists n'. }
  assert (∀ c, reached options deps devs (packument_cache st) (graph st) c →
    reached options deps devs (packument_cache st) g2 c) as Hre by (intros c; by apply reached_mono).
  pose proof (proj1 Hsim) as Hr. simpl in Hr. exists (packument_cache st). rewrite Hr.
  split_and!; [done|done| | |].
  - intros k (? & _ & ?)%Hroots. auto.
  - intros c Hc. destruct (Hdirect c Hc) as [Hnil|?]; [by apply elem_of_nil in Hnil|done].
  - intros k n Hn. pose proof (Hsame k) as H2. rewrite Hn in H2.
    destruct (nodes (graph st) !! k) as [n0|] eqn:En; inversion H2 as [? ? H0|]; subst.
    destruct (Hnodes k n0 En) as (_ & p & a & b & Hdp & Hrp & Hlead & Hcs).
    exists p, n0, a, b. split_and!; [by apply Hre|done..| |].
    + intros d. by apply (edges_fixed (graph st) g' k).
    + intros c Hc. destruct (Hcs c Hc) as [Hset|Hnil]; [|by apply elem_of_nil in Hnil].
      destruct Hset as [?|[?|(k' & n' & a' & b' & ? & Hk')]]; [by left|by right; left|].
      do 2 right. exists k', n', a', b'. split; [done|].
      destruct (Hseen k' Hk') as [|(q & ? & ?)]; [left; by apply Hin'|right; exists q; auto].
Qed.
End theorem.

(** ** Examples

    A small registry: a package by its name, its single version and what that
    declares. *)
Definition toy_info (n : string) (deps opts : gmap string string) (os : list string) : VersionInfo :=
  {| info_name := n; info_version := "1"; info_dependencies := deps; dev_dependencies := ∅;
     optional_dependencies := opts; info_peer_dependencies := ∅; peer_dependencies_meta := ∅;
     bin := None; engines := EnginesNone; os := os; cpu := [];
     dist := {| tarball := n +:+ ".tgz"; shasum := None; dist_integrity := None;
                file_count := None; unpacked_size := None; signatures := [] |};
     info_has_install_script := false; has_shrinkwrap := false; funding := None |}.
Definition toy_registry (l : list (string * VersionInfo)) : ResolveEnv := {|
  current_os := "linux"; current_cpu := "x64";
  fetch_packument _ n :=
    match alist_get n l with
    | Some info => Ok {| packument_name := n; modified := None; dist_tags := ∅;
                         versions := {["1" := info]}; time := ∅ |}
    | None => Err "not found"
    end;
  git_cache_writable _ := true |}.
Definition toy_resolve (l : list (string * VersionInfo)) (deps devs : gmap string string) :=
  @resolve toy_semver default_iter toy_git {| sha256_hex _ := "00" |} (toy_registry l)
    default_options ∅ ∅ deps devs.

(** Package [a] needs [b], under an alias too, and [b] needs [a] again: the search
    ends, and the graph is as the theorem says. A package that nobody published
    makes it fail, where an optional one does not. *)
Definition toy_packages : list (string * VersionInfo) :=
  [("a", toy_info "a" {["b" := ">=1"; "bb" := "npm:b@>=1"]} {["gone" := ">=1"]} []);
   ("b", toy_info "b" {["a" := ">=1"]} ∅ []); ("f", toy_info "f" {["gone" := ">=1"]} ∅ [])].
Lemma resolve_spec_witness :
  match toy_resolve toy_packages {["a" := ">=1"]} ∅ with
  | Some (Ok g) =>
      (roots g, (λ n, (name n, dependencies n)) <$> nodes g !! "bb@1",
       dependencies <$> nodes g !! "a@1") =
      (["a@1"], Some ("b", {["a" := "a@1"]}), Some {["b" := "bb@1"; "bb" := "bb@1"]}) ∧
      ∃ cache, ∀ k n, nodes g !! k = Some n → ∃ p,
        @reached toy_semver default_iter toy_git default_options {["a" := ">=1"]} ∅ cache g p ∧
        optional n = pending_optional p ∧ alias n = pending_alias p
  | _ => False
  end ∧
  toy_resolve toy_packages {["f" := ">=1"]} ∅ = Some (Err "failed to fetch packument for gone") ∧
  @search_failed toy_semver default_iter toy_git {| sha256_hex _ := "00" |}
    (toy_registry toy_packages) default_options ∅ {["f" := ">=1"]} ∅.
Proof.
  split.
  - destruct (@resolve_spec toy_semver default_iter toy_git {| sha256_hex _ := "00" |}
      (toy_registry toy_packages) default_options ∅ ∅ {["a" := ">=1"]} ∅) as (r & E & Hr).
    assert (match toy_resolve toy_packages {["a" := ">=1"]} ∅ with
      | Some (Ok g) => (roots g, (λ n, (name n, dependencies n)) <$> nodes g !! "bb@1",
          dependencies <$> nodes g !! "a@1") =
          (["a@1"], Some ("b", {["a" := "a@1"]}), Some {["b" := "bb@1"; "bb" := "bb@1"]})
      | _ => False end) as F by (vm_compute; reflexivity).
    change (toy_resolve toy_packages {["a" := ">=1"]} ∅ = Some r) in E.
    rewrite E in F |- *. destruct r as [g|e]; [|done].
    split; [exact F|]. destruct Hr as (cache & _ & _ & _ & _ & Hn). exists cache. intros k n Hk.
    destruct (Hn k n Hk) as (p & n0 & a & b & Hp & _ & Hl & (ds & ps & ->) & _).
    exists p. split; [exact Hp|]. apply (leads_fields _ _ _ _ _ _ _ Hl).
  - split; [vm_compute; reflexivity|].
    destruct (@resolve_spec toy_semver default_iter toy_git {| sha256_hex _ := "00" |}
      (toy_registry toy_packages) default_options ∅ ∅ {["f" := ">=1"]} ∅) as (r & E & Hr).
    assert (toy_resolve toy_packages {["f" := ">=1"]} ∅ =
      Some (Err "failed to fetch packument for gone")) as F by (vm_compute; reflexivity).
    change (toy_resolve toy_packages {["f" := ">=1"]} ∅ = Some r) in E.
    rewrite E in F. injection F as ->. exact Hr.
Defined.

(** Package [w] only installs on Windows. Package [a] declares it as optional and
    [b] as required; [a] comes first and marks it as resolved, so that [b] is
    installed without it and no error is reported. *)
Example skipped_optional_drops_required :
  let l := [("a", toy_info "a" ∅ {["w" := ">=1"]} []); ("b", toy_info "b" {["w" := ">=1"]} ∅ []);
            ("w", toy_info "w" ∅ ∅ ["win32"])] in
  match toy_resolve l {["a" := ">=1"; "b" := ">=1"]} ∅ with
  | Some (Ok g) => (nodes g !! "w@1", dependencies <$> nodes g !! "b@1") = (None, Some ∅)
  | _ => False
  end ∧
  match toy_resolve l {["b" := ">=1"]} ∅ with
  | Some (Ok g) => dependencies <$> nodes g !! "b@1" = Some {["w" := "w@1"]}
  | _ => False
  end.
Proof. split; vm_compute; reflexivity. Qed.

(** Package [c] is needed by [d], a development dependency, and below [a], a
    dependency; it is found through [d] first and recorded as development only. *)
Example dev_flag_of_the_first_path :
  let l := [("a", toy_info "a" {["b" := ">=1"]} ∅ []); ("b", toy_info "b" {["c" := ">=1"]} ∅ []);
            ("c", toy_info "c" ∅ ∅ []); ("d", toy_info "d" {["c" := ">=1"]} ∅ [])] in
  match toy_resolve l {["a" := ">=1"]} {["d" := ">=1"]} with
  | Some (Ok g) => dev <$> nodes g !! "c@1" = Some true
  | _ => False
  end.
Proof. vm_compute. reflexivity. Qed.

(** The enumeration in the other direction. *)
Definition reverse_iter : HashIter.
Proof.
  refine {| hash_iter V m := reverse (map_to_list m) |}.
  intros V m. apply reverse_Permutation.
Defined.
Definition peer_graph : DepGraph :=
  let pkg := sample_node "pkg" "1" ∅ in
  {| nodes :=
       {["a@1" := sample_node "a" "1" {["pkg" := "pkg@1"; "q" := "q@1"]};
         "b@1" := sample_node "b" "1" {["pkg" := "pkg@1"; "q" := "q@2"]};
         "pkg@1" := {| name := "pkg"; alias := None; version := "1"; resolved := "";
           integrity := None; dependencies := ∅; has_install_script := false; dev := false;
           optional := false; peer_dependencies := {["q" := ">=2"]}; optional_peers := ∅;
           resolved_peers := ∅ |}]};
     roots := ["a@1"; "b@1"]; peer_report := default_report |}.

(** The same graph has its peer satisfied in one order of the map and in conflict
    in the other. *)
Example peer_report_depends_on_order :
  option_map (λ r, (length (satisfied r.2), length (conflicts r.2)))
    (@resolve_peers toy_semver default_iter peer_graph) ≠
  option_map (λ r, (length (satisfied r.2), length (conflicts r.2)))
    (@resolve_peers toy_semver reverse_iter peer_graph).
Proof. vm_compute. discriminate. Qed.
