(* ===== verification/Lockfile.v ===== *)
(** * oath-resolve: the lockfile ([lockfile.rs])

    From the dependency graph to the lockfile and back. Writing it as JSON and
    reading it is serde's work. *)
From S2P Require Export Graph.

Record LockEntry := {
  entry_name : option string;
  entry_version : string;
  entry_resolved : string;
  entry_integrity : option string;
  entry_dependencies : gmap string string;
  entry_dev : bool;
  entry_optional : bool;
  entry_has_install_script : bool;
  entry_alias : option string;
  entry_peer_dependencies : gmap string string;
  entry_resolved_peers : gmap string string;
}.
Record Lockfile := {
  lockfile_version : Z;
  project_name : string;
  project_version : string;
  lock_roots : list string;
  root_dependencies : gmap string string;
  root_dev_dependencies : gmap string string;
  packages : gmap string LockEntry;
}.
Definition LOCKFILE_VERSION : Z := 2.

(** ** Package names *)

(** [s.replace(needle, r)] for a needle that is not empty; a step consumes a byte. *)
Fixpoint replace_aux (fuel : nat) (needle r s : string) : string :=
  match fuel, s with
  | S fuel, String a s' =>
      match strip_prefix needle s with
      | Some rest => r +:+ replace_aux fuel needle r rest
      | None => String a (replace_aux fuel needle r s')
      end
  | _, _ => s
  end.
Definition replace_str (needle r s : string) : string := replace_aux (String.length s) needle r s.

(** [s.split(pat).next()] for a string, and for either of two characters. *)
Definition before (pat s : string) : string :=
  match find_str pat s with Some i => take_str i s | None => s end.
Fixpoint before_either (a b : ascii) (s : string) : string :=
  match s with
  | EmptyString => ""
  | String c s => if decide (c = a ∨ c = b) then "" else String c (before_either a b s)
  end.

Definition npm_tarball_package_name (resolved : string) : option string :=
  let path := before_either "?" "#" resolved in
  let before_tarball := before "/-/" path in
  if decide (before_tarball = path) then None
  else
    match rev (split_char "/" before_tarball) with
    | [] => None
    | l :: segments =>
        let l := replace_str "%2F" "/" (replace_str "%2f" "/" l) in
        if starts_with "@" l && has "/" l then Some l
        else
          let previous := hd "" segments in
          if starts_with "@" previous then Some (previous +:+ "/" +:+ l) else Some l
    end.

Definition lock_key_package_name (key : string) : string :=
  match rsplit_once "node_modules/" key with
  | Some (_, rest) =>
      let plain := hd rest (split_char "/" rest) in
      match strip_prefix "@" rest with
      | Some scope_rest =>
          match split_char "/" scope_rest with
          | scope :: package :: _ =>
              take_str (String.length scope + 1 + String.length package) rest
          | _ => plain
          end
      | None => plain
      end
  | None =>
      match rfind_str "@" key with
      | Some at_pos => if 0 <? at_pos then take_str at_pos key else key
      | None => key
      end
  end.

Definition package_name_for_key (self : LockEntry) (key : string) : string :=
  match entry_name self with
  | Some n => n
  | None =>
      match npm_tarball_package_name (entry_resolved self) with
      | Some n => n
      | None => lock_key_package_name key
      end
  end.

(** ** From and to the graph *)

Definition lock_entry (k : string) (n : DepNode) : LockEntry := {|
  entry_name := if decide (k = key (name n) (version n)) then None else Some (name n);
  entry_version := version n;
  entry_resolved := resolved n;
  entry_integrity := integrity n;
  entry_dependencies := dependencies n;
  entry_dev := dev n;
  entry_optional := optional n;
  entry_has_install_script := has_install_script n;
  entry_alias := alias n;
  entry_peer_dependencies := peer_dependencies n;
  entry_resolved_peers := resolved_peers n;
|}.
Definition from_graph_with_manifest (g : DepGraph) (pname pversion : string)
    (deps dev_deps : gmap string string) : Lockfile := {|
  lockfile_version := LOCKFILE_VERSION;
  project_name := pname;
  project_version := pversion;
  lock_roots := dedup (sort_strings (roots g));
  root_dependencies := deps;
  root_dev_dependencies := dev_deps;
  packages := map_imap (λ k n, Some (lock_entry k n)) (nodes g);
|}.
Definition from_graph (g : DepGraph) (pname pversion : string) : Lockfile :=
  from_graph_with_manifest g pname pversion ∅ ∅.

Definition node_of_entry (k : string) (e : LockEntry) : DepNode := {|
  name := package_name_for_key e k;
  alias := entry_alias e;
  version := entry_version e;
  resolved := entry_resolved e;
  integrity := entry_integrity e;
  dependencies := entry_dependencies e;
  has_install_script := entry_has_install_script e;
  dev := entry_dev e;
  optional := entry_optional e;
  peer_dependencies := entry_peer_dependencies e;
  optional_peers := ∅;
  resolved_peers := entry_resolved_peers e;
|}.
Definition to_graph (l : Lockfile) : DepGraph := {|
  nodes := map_imap (λ k e, Some (node_of_entry k e)) (packages l);
  roots := lock_roots l;
  peer_report := default_report;
|}.

Definition is_locked (l : Lockfile) (name version : string) : bool :=
  bool_decide (is_Some (packages l !! key name version)).
Definition lock_package_count (l : Lockfile) : nat := size (packages l).
Definition matches_manifest (l : Lockfile) (deps dev_deps : gmap string string) : bool :=
  bool_decide (root_dependencies l = deps) && bool_decide (root_dev_dependencies l = dev_deps).

(** ** Lemmas *)

(** A name the reader can recover: it is recorded, or the tarball URL gives it, or
    the URL gives none and the key does. *)
Definition name_recoverable (k : string) (n : DepNode) : Prop :=
  k ≠ key (name n) (version n) ∨
  npm_tarball_package_name (resolved n) = Some (name n) ∨
  (npm_tarball_package_name (resolved n) = None ∧ name n ≠ "" ∧
   rsplit_once "node_modules/" k = None ∧ has "@" (version n) = false).
(** What the lockfile does not keep of a node: which peers are optional. *)
Definition without_optional_peers (n : DepNode) : DepNode := {|
  name := name n; alias := alias n; version := version n; resolved := resolved n;
  integrity := integrity n; dependencies := dependencies n;
  has_install_script := has_install_script n; dev := dev n; optional := optional n;
  peer_dependencies := peer_dependencies n; optional_peers := ∅;
  resolved_peers := resolved_peers n |}.

Lemma lock_key_canonical n v :
  n ≠ "" → rsplit_once "node_modules/" (key n v) = None → has "@" v = false →
  lock_key_package_name (key n v) = n.
Proof.
  intros Hn Hk Hv. unfold lock_key_package_name. rewrite Hk. unfold key.
  change ("@" +:+ v) with (String "@" v). rewrite rfind_str_char by done.
  destruct n as [|x n]; [done|]. cbn [String.length Nat.ltb Nat.leb].
  apply (take_str_app (String x n)).
Qed.

Lemma node_roundtrip k n :
  name_recoverable k n → node_of_entry k (lock_entry k n) = without_optional_peers n.
Proof.
  intros Hr. unfold node_of_entry, without_optional_peers. simpl. f_equal.
  unfold package_name_for_key. simpl. case_decide as Hk; [|done]. simpl.
  destruct Hr as [?|[->|(-> & Hn & Hs & Hv)]]; [done..|].
  subst. by apply lock_key_canonical.
Qed.

Lemma dedup_from_sorted (x : string) l :
  StronglySorted String.le (x :: l) →
  StronglySorted String.le (x :: dedup_from x l) ∧ x ∉ dedup_from x l ∧ NoDup (dedup_from x l).
Proof.
  revert x. induction l as [|z l IH]; intros x Hs; simpl.
  { split_and!; [done|set_solver|constructor]. }
  inversion_clear Hs as [|?? Hs' HF]. case_decide as Hx.
  - subst. by apply IH.
  - destruct (IH z Hs') as (Hss & Hz & HN).
    assert (Forall (String.le x) (z :: dedup_from z l)) as HF'.
    { apply Forall_forall. intros y Hy. rewrite Forall_forall in HF. apply HF.
      apply elem_of_cons in Hy as [->|Hy]; [left|].
      destruct (proj1 (dedup_from_spec z l y) (or_introl Hy)) as [?| ->]; [by right|left]. }
    split_and!.
    + by constructor.
    + intros Hin. apply elem_of_cons in Hin as [?|Hin]; [done|].
      apply Hx, (anti_symm String.le).
      * by inversion_clear HF'.
      * inversion_clear Hss as [|?? _ Hzl]. rewrite Forall_forall in Hzl. by apply Hzl.
    + by constructor.
Qed.
Lemma dedup_sorted (l : list string) :
  Sorted String.le l → Sorted String.le (dedup l) ∧ NoDup (dedup l).
Proof.
  intros Hs. apply Sorted_StronglySorted in Hs; [|apply _].
  destruct l as [|x l]; [split; constructor|]. apply dedup_from_sorted in Hs as (Hs & Hx & HN).
  split; [by apply StronglySorted_Sorted|by constructor].
Qed.

(** ** Properties *)

(** Lockfile round trip. Reading back the lockfile of a graph whose package
    names are recoverable gives the same packages, but for which of their peers are
    optional, and the roots sorted and without duplicates. The lockfile matches
    exactly the manifest it was made from, locks exactly the keys of the graph, and
    does not depend on the order in which the roots were found. *)
Theorem lockfile_roundtrip g pname pversion deps dev_deps :
  (∀ k n, nodes g !! k = Some n → name_recoverable k n) →
  let l := from_graph_with_manifest g pname pversion deps dev_deps in
  nodes (to_graph l) = without_optional_peers <$> nodes g ∧
  (∀ k, k ∈ roots (to_graph l) ↔ k ∈ roots g) ∧
  Sorted String.le (roots (to_graph l)) ∧ NoDup (roots (to_graph l)) ∧
  (∀ d dd, matches_manifest l d dd = true ↔ d = deps ∧ dd = dev_deps) ∧
  (∀ n v, is_locked l n v = true ↔ is_Some (nodes g !! key n v)) ∧
  (∀ g', nodes g' = nodes g → roots g' ≡ₚ roots g →
     from_graph_with_manifest g' pname pversion deps dev_deps = l).
Proof.
  intros Hrec l.
  destruct (dedup_sorted (sort_strings (roots g)) (sort_strings_sorted _)) as [Hs HN].
  split_and!; [| |exact Hs|exact HN| | |].
  - apply map_eq. intros k. simpl. rewrite !map_lookup_imap, lookup_fmap.
    destruct (nodes g !! k) as [n|] eqn:E; [|done]. simpl. f_equal. by apply node_roundtrip, Hrec.
  - intros k. simpl. by rewrite elem_of_dedup, sort_strings_perm.
  - intros d dd. unfold matches_manifest. rewrite andb_true_iff, !bool_decide_eq_true. simpl.
    naive_solver.
  - intros n v. unfold is_locked. rewrite bool_decide_eq_true. simpl. rewrite map_lookup_imap.
    destruct (nodes g !! key n v); simpl; naive_solver.
  - intros g' Hn Hr. unfold l, from_graph_with_manifest.
    by rewrite Hn, (sort_strings_ext _ _ Hr).
Qed.

Definition sample_graph : DepGraph := {|
  nodes := {["a@1.0.0" := sample_node "a" "1.0.0" {["b" := "b@2.0.0"]};
             "b@2.0.0" := sample_node "b" "2.0.0" ∅]};
  roots := ["b@2.0.0"; "a@1.0.0"; "a@1.0.0"]; peer_report := default_report |}.

Lemma lockfile_roundtrip_witness :
  let l := from_graph_with_manifest sample_graph "p" "1.0.0" {["a" := "^1"]} ∅ in
  roots (to_graph l) = ["a@1.0.0"; "b@2.0.0"] ∧
  nodes (to_graph l) = without_optional_peers <$> nodes sample_graph.
Proof.
  intros l. split; [reflexivity|].
  refine (proj1 (lockfile_roundtrip sample_graph "p" "1.0.0" {["a" := "^1"]} ∅ _)).
  intros k n Hn. simpl in Hn.
  apply lookup_insert_Some in Hn as [[<- <-]|[_ [<- <-]%lookup_singleton_Some]].
  - right. right. split_and!; reflexivity || discriminate.
  - right. right. split_and!; reflexivity || discriminate.
Defined.

(** Names lost by the lockfile. A package under its own key, whose tarball URL
    holds another package's name, is read back under that other name. And of a
    scoped package recorded by location, without a name and with a tarball URL that
    tells none, the last character of the name is lost. *)
Theorem lockfile_wrong_names k e :
  entry_name e = None →
  (∀ n, npm_tarball_package_name (entry_resolved e) = Some n → name (node_of_entry k e) = n) ∧
  (∀ x s p c, npm_tarball_package_name (entry_resolved e) = None →
     rsplit_once "node_modules/" k = Some (x, "@" +:+ s +:+ "/" +:+ p +:+ String c "") →
     has "/" s = false → has "/" (p +:+ String c "") = false →
     name (node_of_entry k e) = "@" +:+ s +:+ "/" +:+ p).
Proof.
  intros Hn. simpl. unfold package_name_for_key. rewrite Hn. split; [by intros n ->|].
  intros x s p c -> Hk Hs Hp. unfold lock_key_package_name. rewrite Hk.
  rewrite (proj2 (strip_prefix_Some "@" _ _) eq_refl).
  change (s +:+ "/" +:+ p +:+ String c "") with (s +:+ String "/" (p +:+ String c "")).
  rewrite split_char_app by done. rewrite split_char_none by done.
  replace (String.length s + 1 + String.length (p +:+ String c ""))
    with (String.length ("@" +:+ s +:+ "/" +:+ p))
    by (rewrite !str_length_app; cbn [String.length]; lia).
  replace ("@" +:+ s +:+ String "/" (p +:+ String c ""))
    with (("@" +:+ s +:+ "/" +:+ p) +:+ String c "") by by rewrite <- !str_app_assoc.
  apply take_str_app.
Qed.

Definition located_entry (url : string) : LockEntry :=
  {| entry_name := None; entry_version := "1.0.0"; entry_resolved := url; entry_integrity := None;
     entry_dependencies := ∅; entry_dev := false; entry_optional := false;
     entry_has_install_script := false; entry_alias := None; entry_peer_dependencies := ∅;
     entry_resolved_peers := ∅ |}.
Lemma lockfile_wrong_names_witness :
  name (node_of_entry "a@1.0.0" (located_entry "https://mirror/b/-/b-1.0.0.tgz")) = "b" ∧
  name (node_of_entry "node_modules/@types/node" (located_entry "https://host/x.tgz")) = "@types/nod".
Proof.
  split.
  - exact (proj1 (lockfile_wrong_names "a@1.0.0" (located_entry "https://mirror/b/-/b-1.0.0.tgz")
      eq_refl) "b" eq_refl).
  - exact (proj2 (lockfile_wrong_names "node_modules/@types/node" (located_entry "https://host/x.tgz")
      eq_refl) "" "types" "nod" "e"%char eq_refl eq_refl eq_refl eq_refl).
Defined.
