(* ===== verification/Import.v ===== *)
(** * oath-resolve: importing [package-lock.json] ([import.rs])

    npm's lockfile, a map from the paths below the project to what is installed there,
    as a dependency graph: the nodes, and for each dependency the package that node
    finds from where its dependent is. Reading the file is outside; the operating
    system and the processor are parameters. *)
From S2P Require Export Graph Json.

Definition as_bool (j : Json) : option bool := match j with JBool b => Some b | _ => None end.
Definition as_object (j : Json) : option (list (string * Json)) :=
  match j with JObject m => Some m | _ => None end.
Definition as_array (j : Json) : option (list Json) :=
  match j with JArray l => Some l | _ => None end.
(** A field that is true. *)
Definition flag (k : string) (e : list (string * Json)) : bool :=
  default false (alist_get k e ≫= as_bool).
Definition is_key {A} (k : string) (m : list (string * A)) : bool :=
  bool_decide (is_Some (alist_get k m)).

(** ** Paths *)

Definition name_from_path (pkg_path : string) : string :=
  match rfind_str "node_modules/" pkg_path with
  | Some idx => drop_str (idx + String.length "node_modules/") pkg_path
  | None => pkg_path
  end.
Definition candidate (prefix dep : string) : string :=
  if decide (prefix = "") then "node_modules/" +:+ dep else prefix +:+ "/node_modules/" +:+ dep.
(** What the loop goes on with: the directory around, or the project. *)
Definition enclosing (prefix : string) : string :=
  match rfind_str "/node_modules/" prefix with
  | Some idx => take_str idx prefix
  | None => ""
  end.
Fixpoint resolve_loop {A} (fuel : nat) (packages : list (string * A)) (prefix dep : string) :
    option string :=
  match fuel with
  | 0 => None
  | S fuel =>
      let cand := candidate prefix dep in
      if is_key cand packages then Some cand
      else if decide (prefix = "") then None
      else resolve_loop fuel packages (enclosing prefix) dep
  end.
Definition resolve_dep_path {A} (packages : list (string * A)) (from_path dep : string) : option string :=
  resolve_loop (S (String.length from_path)) packages from_path dep.

(** ** Platforms *)

Fixpoint match_items (current : string) (items : list string) (has_positive included : bool) : bool :=
  match items with
  | [] => negb has_positive || included
  | item :: items =>
      match strip_prefix "!" item with
      | Some neg => if decide (neg = current) then false else match_items current items has_positive included
      | None => match_items current items true (included || bool_decide (item = current))
      end
  end.
Definition matches_list (field : option Json) (current : string) : bool :=
  match field ≫= as_array with
  | Some (x :: l) => match_items current (omap as_str (x :: l)) false false
  | _ => true
  end.
Definition npm_os (os : string) : string :=
  if decide (os = "macos") then "darwin" else if decide (os = "windows") then "win32" else os.
Definition npm_cpu (arch : string) : string :=
  if decide (arch = "x86_64") then "x64" else if decide (arch = "aarch64") then "arm64"
  else if decide (arch = "x86") then "ia32" else arch.

(** ** The graph *)

Definition range_map (v : option Json) : gmap string string :=
  match v ≫= as_object with
  | Some m => list_to_map (reverse (omap (λ '(k, v), pair k <$> as_str v) m))
  | None => ∅
  end.

Section import.
Context (os arch : string).

Definition platform_matches (entry : list (string * Json)) : bool :=
  matches_list (alist_get "os" entry) (npm_os os) && matches_list (alist_get "cpu" entry) (npm_cpu arch).
(** The node of an entry, if there is one to install. *)
Definition node_of (pkg_path : string) (entry : Json) : option DepNode :=
  if decide (pkg_path = "") then None else
  e ← as_object entry;
  if flag "link" e then None else
  version ← alist_get "version" e ≫= as_str;
  if negb (platform_matches e) then None else
  let dev_optional := flag "devOptional" e in
  Some {| name := name_from_path pkg_path; alias := None; version := version;
          resolved := default "" (alist_get "resolved" e ≫= as_str);
          integrity := alist_get "integrity" e ≫= as_str; dependencies := ∅;
          has_install_script := flag "hasInstallScript" e;
          dev := flag "dev" e || dev_optional; optional := flag "optional" e || dev_optional;
          peer_dependencies := range_map (alist_get "peerDependencies" e);
          optional_peers := ∅; resolved_peers := ∅ |}.
(** The first pass: the key of each path and the nodes. *)
Definition first_pass (packages : list (string * Json)) : gmap string string * gmap string DepNode :=
  foldl (λ '(path_to_key, ns) '(pkg_path, entry),
           match node_of pkg_path entry with
           | Some n =>
               let k := key (name n) (version n) in
               (<[pkg_path := k]> path_to_key, <[k := n]> ns)
           | None => (path_to_key, ns)
           end) (∅, ∅) packages.
(** The names of the dependencies in a field, in the order of the map. *)
Definition names_in (field : string) (e : list (string * Json)) : list string :=
  from_option (λ m, m.*1) [] (alist_get field e ≫= as_object).
(** The key that node finds for a dependency. *)
Definition find_key (packages : list (string * Json)) (path_to_key : gmap string string)
    (from_path dep : string) : option string :=
  dep_path ← resolve_dep_path packages from_path dep; path_to_key !! dep_path.
Definition resolved_dependencies (packages : list (string * Json)) (path_to_key : gmap string string)
    (pkg_path : string) (e : list (string * Json)) : gmap string string :=
  list_to_map (reverse (omap (λ d, pair d <$> find_key packages path_to_key pkg_path d)
    (names_in "dependencies" e ++ names_in "optionalDependencies" e))).
Definition set_dependencies (deps : gmap string string) (n : DepNode) : DepNode := {|
  name := name n; alias := alias n; version := version n; resolved := resolved n;
  integrity := integrity n; dependencies := deps; has_install_script := has_install_script n;
  dev := dev n; optional := optional n; peer_dependencies := peer_dependencies n;
  optional_peers := optional_peers n; resolved_peers := resolved_peers n |}.
Definition second_step (packages : list (string * Json)) (path_to_key : gmap string string)
    (ns : gmap string DepNode) (entry : string * Json) : gmap string DepNode :=
  match as_object entry.2, (if decide (entry.1 = "") then None else path_to_key !! entry.1) with
  | Some e, Some self_key =>
      alter (set_dependencies (resolved_dependencies packages path_to_key entry.1 e)) self_key ns
  | _, _ => ns
  end.
Definition second_pass (packages : list (string * Json)) (path_to_key : gmap string string)
    (ns : gmap string DepNode) : gmap string DepNode :=
  foldl (second_step packages path_to_key) ns packages.
Definition add_root (roots : list string) (k : string) : list string :=
  if decide (k ∈ roots) then roots else roots ++ [k].
Definition import_roots (packages : list (string * Json)) (path_to_key : gmap string string) : list string :=
  match alist_get "" packages ≫= as_object with
  | Some e => foldl add_root [] (omap (find_key packages path_to_key "")
                (names_in "dependencies" e ++ names_in "devDependencies" e
                 ++ names_in "optionalDependencies" e))
  | None => []
  end.
Definition import_npm_lockfile (root : Json) : result string DepGraph :=
  packages ← ok_or (jget "packages" root ≫= as_object)
    "package-lock.json has no `packages` map (lockfileVersion 1 is unsupported; run `npm install` once with npm 7+ to upgrade it)";
  let '(path_to_key, ns) := first_pass packages in
  let ns := second_pass packages path_to_key ns in
  let roots := import_roots packages path_to_key in
  _ ← ensure (negb (bool_decide (ns = ∅))) "package-lock.json contained no installable packages";
  Ok {| nodes := ns; roots := roots; peer_report := default_report |}.
End import.

(** ** Where node looks *)

Lemma rfind_None n s : rfind_str n s = None ↔ contains n s = false.
Proof.
  induction s as [|x s IH]; cbn [rfind_str contains].
  - rewrite orb_false_r. by destruct (starts_with n "").
  - destruct IH as [IH1 IH2]. destruct (rfind_str n s), (contains n s), (starts_with n (String x s));
      simpl; intuition congruence.
Qed.
(** A path below which nothing is nested but by its own name. *)
Definition plain_name (s : string) : Prop := contains "/node_modules/" ("/" +:+ s) = false.
Lemma rfind_node_modules p s :
  plain_name s → rfind_str "/node_modules/" (p +:+ "/node_modules/" +:+ s) = Some (String.length p).
Proof.
  intros Hs. induction p as [|x p IH].
  - change (match rfind_str "/node_modules/" ("node_modules/" +:+ s) with
            | Some i => Some (S i)
            | None => if starts_with "/node_modules/" ("/node_modules/" +:+ s) then Some 0 else None
            end = Some 0).
    assert (rfind_str "/node_modules/" ("node_modules/" +:+ s) = None) as ->.
    { apply rfind_None. exact Hs. }
    done.
  - rewrite str_app_cons. cbn [rfind_str]. by rewrite IH.
Qed.
Lemma enclosing_candidate p s : plain_name s → enclosing (candidate p s) = p.
Proof.
  intros Hs. unfold enclosing, candidate. case_decide as Hp.
  - subst. assert (rfind_str "/node_modules/" ("node_modules/" +:+ s) = None) as ->; [|done].
    apply rfind_None. exact Hs.
  - rewrite rfind_node_modules by done. by rewrite take_str_app.
Qed.
Lemma candidate_longer p s : String.length p < String.length (candidate p s).
Proof.
  unfold candidate. case_decide as Hp; [subst; rewrite str_length_app; simpl; lia|].
  rewrite !str_length_app. simpl. lia.
Qed.
Lemma enclosing_shorter p : p ≠ "" → String.length (enclosing p) < String.length p.
Proof.
  intros Hp. unfold enclosing. destruct (rfind_str _ p) as [i|] eqn:E.
  - apply rfind_str_Some in E as (a & b & -> & <-). rewrite take_str_app, !str_length_app. simpl. lia.
  - destruct p; [done|]. simpl. lia.
Qed.
Lemma resolve_loop_fuel {A} (packages : list (string * A)) dep f f' p :
  String.length p < f → String.length p < f' →
  resolve_loop f packages p dep = resolve_loop f' packages p dep.
Proof.
  revert f' p. induction f as [|f IH]; intros [|f'] p Hf Hf'; try lia. cbn [resolve_loop].
  destruct (is_key _ _); [done|]. case_decide as Hp; [done|].
  pose proof (enclosing_shorter p Hp). apply IH; lia.
Qed.
(** One round of the loop, which always ends. *)
Lemma resolve_dep_path_unfold {A} (packages : list (string * A)) p dep :
  resolve_dep_path packages p dep =
    if is_key (candidate p dep) packages then Some (candidate p dep)
    else if decide (p = "") then None else resolve_dep_path packages (enclosing p) dep.
Proof.
  unfold resolve_dep_path at 1. cbn [resolve_loop]. destruct (is_key _ _); [done|].
  case_decide as Hp; [done|]. apply resolve_loop_fuel; [by apply enclosing_shorter|lia].
Qed.
(** Packages nested in packages, below a directory of the project. *)
Definition path_of (base : string) (segs : list string) : string := foldl candidate base segs.
(** Where node looks from there: in the [node_modules] of the package, of each package
    around it, of the directory, of the project. *)
Definition lookup_paths (base : string) (segs : list string) (dep : string) : list string :=
  ((λ k, candidate (path_of base (take k segs)) dep) <$> reverse (seq 0 (S (length segs))))
  ++ (if decide (base = "") then [] else [candidate "" dep]).
Lemma path_of_snoc base segs s : path_of base (segs ++ [s]) = candidate (path_of base segs) s.
Proof. apply foldl_snoc. Qed.
Lemma lookup_paths_snoc base segs s dep :
  lookup_paths base (segs ++ [s]) dep = candidate (path_of base (segs ++ [s])) dep :: lookup_paths base segs dep.
Proof.
  unfold lookup_paths. rewrite length_app. simpl length. rewrite Nat.add_1_r.
  rewrite (seq_S (S (length segs))), reverse_snoc. simpl plus. csimpl.
  rewrite take_ge by (rewrite length_app; simpl; lia). f_equal. f_equal.
  apply list_fmap_ext. intros i k Hk. apply list_elem_of_lookup_2 in Hk.
  apply elem_of_reverse, (elem_of_seq 0 (S (length segs))) in Hk. by rewrite take_app_le by lia.
Qed.

(** A dependency is looked for where node looks: from a package that is nested in
    packages below a directory of the project, the path found is the first one of the
    package's own [node_modules], those of the packages around it, that of the directory
    and that of the project, that is in the lockfile; and the search always ends. *)
Theorem resolve_dep_path_spec {A} (packages : list (string * A)) base segs dep :
  contains "/node_modules/" base = false → Forall plain_name segs →
  resolve_dep_path packages (path_of base segs) dep
    = head (filter (λ c, is_key c packages = true) (lookup_paths base segs dep)).
Proof.
  intros Hb. induction segs as [|s segs IH] using rev_ind; intros Hs.
  - unfold lookup_paths, path_of. simpl. rewrite resolve_dep_path_unfold, filter_cons.
    destruct (is_key (candidate base dep) packages) eqn:E; [by rewrite decide_True|].
    rewrite (decide_False (P := false = true)) by done. case_decide as Hbase; [done|].
    assert (enclosing base = "") as ->.
    { unfold enclosing. apply rfind_None in Hb. by rewrite Hb. }
    rewrite resolve_dep_path_unfold, filter_cons.
    destruct (is_key (candidate "" dep) packages) eqn:E'; [by rewrite decide_True|]. by rewrite (decide_False (P := false = true)).
  - apply Forall_app in Hs as [Hs Hx]. apply Forall_cons in Hx as [Hx _].
    rewrite lookup_paths_snoc, path_of_snoc, resolve_dep_path_unfold, filter_cons.
    destruct (is_key _ _) eqn:E; [by rewrite decide_True|]. rewrite (decide_False (P := false = true)) by done.
    rewrite decide_False.
    + rewrite enclosing_candidate by done. by apply IH.
    + intros H. pose proof (candidate_longer (path_of base segs) s) as Hl. rewrite H in Hl. simpl in Hl. lia.
Qed.

(** ** What the graph holds *)

Lemma alist_get_Some {A} k (l : list (string * A)) a : alist_get k l = Some a → (k, a) ∈ l.
Proof.
  induction l as [|[k' b] l IH]; simpl; [done|]. case_decide as Hk; [intros [= ->]; subst; by left|].
  intros H. right. by apply IH.
Qed.
Lemma alist_get_NoDup {A} k (l : list (string * A)) a : NoDup l.*1 → (k, a) ∈ l → alist_get k l = Some a.
Proof.
  induction l as [|[k' b] l IH]; simpl; [by intros _ ?%elem_of_nil|].
  intros [Hn Hl]%NoDup_cons [[= -> ->]|Hin]%elem_of_cons; [by rewrite decide_True|].
  rewrite decide_False; [by apply IH|]. intros ->. apply Hn. by apply (list_elem_of_fmap_2 fst) in Hin.
Qed.
Lemma alist_get_is_Some {A} k (l : list (string * A)) : is_Some (alist_get k l) ↔ k ∈ l.*1.
Proof.
  split.
  - intros [a Ha%alist_get_Some]. by apply (list_elem_of_fmap_2 fst) in Ha.
  - induction l as [|[k' b] l IH]; simpl; [by intros ?%elem_of_nil|]. intros [->|?]%elem_of_cons.
    + rewrite decide_True by done. by eexists.
    + case_decide; [by eexists|by apply IH].
Qed.
(** A map made by inserting in order holds the last value of a key. *)
Lemma list_to_map_reverse_lookup {A} (l : list (string * A)) k a :
  (list_to_map (reverse l) : gmap string A) !! k = Some a ↔
  ∃ l1 l2, l = l1 ++ (k, a) :: l2 ∧ k ∉ l2.*1.
Proof.
  induction l as [|[k' b] l IH] using rev_ind.
  { simpl. split; [done|]. intros (l1 & l2 & H & _). by destruct l1. }
  rewrite reverse_snoc. cbn [list_to_map fst snd foldr]. destruct (decide (k' = k)) as [->|Hne].
  - rewrite lookup_insert_eq. split.
    + intros [= ->]. exists l, []. split; [done|by intros ?%elem_of_nil].
    + intros (l1 & l2 & H & Hn). destruct l2 as [|y l2 _] using rev_ind.
      * apply app_inj_tail in H as [_ [= ->]]. done.
      * rewrite app_comm_cons, app_assoc in H. apply app_inj_tail in H as [_ <-].
        rewrite fmap_app in Hn. set_solver.
  - rewrite lookup_insert_ne by done. rewrite IH. split.
    + intros (l1 & l2 & -> & Hn). exists l1, (l2 ++ [(k', b)]). rewrite <- app_assoc. split; [done|].
      rewrite fmap_app. set_solver.
    + intros (l1 & l2 & H & Hn). destruct l2 as [|y l2 _] using rev_ind.
      * apply app_inj_tail in H as [_ [= -> ->]]. done.
      * rewrite app_comm_cons, app_assoc in H. apply app_inj_tail in H as [-> <-].
        exists l1, l2. split; [done|]. rewrite fmap_app in Hn. set_solver.
Qed.

Section spec.
Context (os arch : string).
Notation node_of := (node_of os arch).
Implicit Types packages : list (string * Json).
Definition key_of (n : DepNode) : string := key (name n) (version n).
(** What the lockfile installs, in the order of its paths. *)
Definition installed packages : list (string * list (string * Json) * DepNode) :=
  omap (λ '(p, entry), n ← node_of p entry; e ← as_object entry; Some (p, e, n)) packages.
(** The last of the paths where a key is installed. *)
Definition last_entry (k : string) packages : option (string * list (string * Json) * DepNode) :=
  last (filter (λ '(_, _, n), key_of n = k) (installed packages)).

Lemma node_of_object p entry n : node_of p entry = Some n → ∃ e, entry = JObject e ∧ p ≠ "".
Proof.
  unfold Import.node_of. case_decide; [done|]. destruct entry; try done. intros _. by eexists.
Qed.
Lemma elem_of_installed packages p e n :
  (p, e, n) ∈ installed packages ↔ (p, JObject e) ∈ packages ∧ node_of p (JObject e) = Some n.
Proof.
  unfold installed. rewrite list_elem_of_omap. split.
  - intros ([p' entry] & Hin & H). destruct (node_of p' entry) as [n'|] eqn:En; [|done].
    destruct (node_of_object _ _ _ En) as (e' & -> & _). by injection H as <- <- <-.
  - intros [Hin Hn]. exists (p, JObject e). split; [done|]. by rewrite Hn.
Qed.
Lemma installed_snoc packages p entry :
  installed (packages ++ [(p, entry)]) =
  installed packages ++ match node_of p entry, as_object entry with Some n, Some e => [(p, e, n)] | _, _ => [] end.
Proof.
  unfold installed. rewrite omap_app. f_equal. simpl. destruct (node_of p entry); [|done]. simpl.
  by destruct (as_object entry).
Qed.
Lemma last_entry_snoc k packages p entry :
  last_entry k (packages ++ [(p, entry)]) =
  match node_of p entry, as_object entry with
  | Some n, Some e => if decide (key_of n = k) then Some (p, e, n) else last_entry k packages
  | _, _ => last_entry k packages
  end.
Proof.
  unfold last_entry. rewrite installed_snoc, filter_app.
  destruct (node_of p entry) as [n|]; [|by rewrite app_nil_r].
  destruct (as_object entry) as [e|]; [|by rewrite app_nil_r]. rewrite filter_cons.
  rewrite filter_nil. destruct (decide (key_of n = k)) as [Hk|Hk].
  - by rewrite last_snoc.
  - by rewrite app_nil_r.
Qed.
Lemma last_entry_Some k packages p e n :
  last_entry k packages = Some (p, e, n) →
  (p, JObject e) ∈ packages ∧ node_of p (JObject e) = Some n ∧ key_of n = k.
Proof.
  intros H%last_Some_elem_of. apply list_elem_of_filter in H as [Hk H].
  by apply elem_of_installed in H as [? ?].
Qed.
Lemma last_entry_is_Some k packages p e n :
  (p, JObject e) ∈ packages → node_of p (JObject e) = Some n → key_of n = k →
  is_Some (last_entry k packages).
Proof.
  intros Hin Hn Hk. apply last_is_Some. intros Hnil.
  assert ((p, e, n) ∈ filter (λ '(_, _, n), key_of n = k) (installed packages)) as H.
  { apply list_elem_of_filter. split; [done|]. by apply elem_of_installed. }
  rewrite Hnil in H. by apply elem_of_nil in H.
Qed.

Lemma first_pass_nodes packages k :
  (first_pass os arch packages).2 !! k = (λ '(_, _, n), n) <$> last_entry k packages.
Proof.
  induction packages as [|[p entry] packages IH] using rev_ind; [done|].
  unfold first_pass in *. rewrite foldl_snoc, last_entry_snoc.
  destruct (foldl _ _ packages) as [p2k ns]. simpl in *.
  destruct (node_of p entry) as [n|] eqn:En; [|done].
  destruct (node_of_object _ _ _ En) as (e & -> & _). simpl.
  change (key (name n) (version n)) with (key_of n). case_decide as Hk.
  - subst. by rewrite lookup_insert_eq.
  - by rewrite lookup_insert_ne.
Qed.
Lemma first_pass_keys packages p k :
  NoDup packages.*1 →
  (first_pass os arch packages).1 !! p = Some k ↔
  ∃ e n, (p, JObject e) ∈ packages ∧ node_of p (JObject e) = Some n ∧ key_of n = k.
Proof.
  induction packages as [|[p' entry] packages IH] using rev_ind; intros Hd.
  { split; [done|]. by intros (e & n & ?%elem_of_nil & _). }
  rewrite fmap_app in Hd. apply NoDup_app in Hd as (Hd & Hn & _). specialize (IH Hd).
  assert (p' ∉ packages.*1) as Hp' by (intros ?; by eapply Hn; [done|left]).
  unfold first_pass in *. rewrite foldl_snoc.
  destruct (foldl _ _ packages) as [p2k ns]. simpl in *.
  assert ((∃ e n, (p, JObject e) ∈ packages ++ [(p', entry)] ∧ node_of p (JObject e) = Some n ∧ key_of n = k)
    ↔ (∃ e n, (p, JObject e) ∈ packages ∧ node_of p (JObject e) = Some n ∧ key_of n = k)
      ∨ (p = p' ∧ ∃ n, node_of p entry = Some n ∧ key_of n = k)) as ->.
  { split.
    - intros (e & n & [Hin|[= -> <-]%list_elem_of_singleton]%elem_of_app & ? & ?); [left; eauto|right; eauto].
    - intros [(e & n & ? & ? & ?)|(-> & n & Hnode & Hk)].
      + exists e, n. rewrite elem_of_app. auto.
      + destruct (node_of_object _ _ _ Hnode) as (e & -> & _). exists e, n.
        rewrite elem_of_app. split; [right; by left|done]. }
  destruct (node_of p' entry) as [n'|] eqn:En; simpl.
  - destruct (decide (p = p')) as [->|Hne].
    + rewrite lookup_insert_eq, En. split; [intros [= <-]; right; eauto|].
      intros [(e & n & Hin & _)|(_ & n & [= <-] & <-)]; [|done].
      exfalso. apply Hp'. by apply (list_elem_of_fmap_2 fst) in Hin.
    + rewrite lookup_insert_ne by done. rewrite IH. naive_solver.
  - rewrite IH. split; [by left|]. intros [?|(-> & n & ? & _)]; [done|congruence].
Qed.

(** The node of a key: the entry at the last path where it is installed, with the
    dependencies found from there. *)
Lemma second_pass_nodes packages k l l' :
  NoDup packages.*1 → packages = l ++ l' →
  let p2k := (first_pass os arch packages).1 in
  foldl (second_step packages p2k) (first_pass os arch packages).2 l !! k =
  match last_entry k l with
  | Some (p, e, _) => set_dependencies (resolved_dependencies packages p2k p e)
                        <$> (first_pass os arch packages).2 !! k
  | None => (first_pass os arch packages).2 !! k
  end.
Proof.
  intros Hd Hl p2k. revert l' Hl. induction l as [|[p entry] l IH] using rev_ind; intros l' Hl; [done|].
  rewrite <- app_assoc in Hl. specialize (IH _ Hl).
  rewrite foldl_snoc, last_entry_snoc. unfold second_step at 1. cbn [fst snd].
  assert ((p, entry) ∈ packages) as Hin by (rewrite Hl; set_solver).
  destruct (node_of p entry) as [n|] eqn:En.
  - destruct (node_of_object _ _ _ En) as (e & -> & Hp). cbn [as_object].
    rewrite decide_False by done.
    assert (p2k !! p = Some (key_of n)) as ->.
    { apply first_pass_keys; [done|]. by exists e, n. }
    destruct (decide (key_of n = k)) as [<-|Hk].
    + rewrite lookup_alter_eq, IH. destruct (last_entry (key_of n) l) as [[[p' e'] n']|]; [|done].
      by destruct ((first_pass os arch packages).2 !! key_of n).
    + by rewrite lookup_alter_ne.
  - destruct (as_object entry) as [e|] eqn:Ee; [|by rewrite IH]. case_decide as Hp; [by rewrite IH|].
    destruct (p2k !! p) as [k'|] eqn:Ek; [|by rewrite IH].
    apply first_pass_keys in Ek as (e' & n & Hin' & Hn & _); [|done].
    assert (entry = JObject e') as ->; [|congruence].
    pose proof (alist_get_NoDup _ _ _ Hd Hin). pose proof (alist_get_NoDup _ _ _ Hd Hin'). congruence.
Qed.
Lemma find_key_Some packages p d k :
  NoDup packages.*1 →
  find_key packages (first_pass os arch packages).1 p d = Some k ↔
  ∃ dep_path e n, resolve_dep_path packages p d = Some dep_path
    ∧ (dep_path, JObject e) ∈ packages ∧ node_of dep_path (JObject e) = Some n ∧ key_of n = k.
Proof.
  intros Hd. unfold find_key. split.
  - intros (dp & Hdp & Hk)%bind_Some. apply first_pass_keys in Hk as (e & n & ? & ? & ?); [|done]. eauto 8.
  - intros (dp & e & n & Hdp & ? & ? & ?). rewrite Hdp. simpl. apply first_pass_keys; [done|]. eauto.
Qed.
#[local] Arguments find_key : simpl never.
Lemma resolved_dependencies_Some packages p2k p e d k :
  resolved_dependencies packages p2k p e !! d = Some k ↔
  d ∈ names_in "dependencies" e ++ names_in "optionalDependencies" e ∧ find_key packages p2k p d = Some k.
Proof.
  unfold resolved_dependencies. rewrite list_to_map_reverse_lookup. split.
  - intros (l1 & l2 & H & _).
    assert ((d, k) ∈ omap (λ d, pair d <$> find_key packages p2k p d)
      (names_in "dependencies" e ++ names_in "optionalDependencies" e)) as Hin by (rewrite H; set_solver).
    apply list_elem_of_omap in Hin as (d' & Hd & (k' & Hk & [= -> ->])%fmap_Some). done.
  - intros [Hin Hk]. revert Hin. generalize (names_in "dependencies" e ++ names_in "optionalDependencies" e) as l.
    induction l as [|x l IH] using rev_ind; [by intros ?%elem_of_nil|].
    rewrite omap_app. destruct (decide (x = d)) as [->|Hne].
    + intros _. cbn. rewrite Hk. cbn. exists (omap (λ d, pair d <$> find_key packages p2k p d) l), [].
      split; [done|by intros ?%elem_of_nil].
    + intros [Hin|?%list_elem_of_singleton]%elem_of_app; [|done]. destruct (IH Hin) as (l1 & l2 & -> & Hn).
      exists l1, (l2 ++ omap (λ d, pair d <$> find_key packages p2k p d) [x]). rewrite <- app_assoc.
      split; [done|]. rewrite fmap_app, not_elem_of_app. split; [done|]. cbn.
      destruct (find_key packages p2k p x); cbn; set_solver.
Qed.
Lemma import_roots_spec packages p2k :
  let names e := names_in "dependencies" e ++ names_in "devDependencies" e ++ names_in "optionalDependencies" e in
  NoDup (import_roots packages p2k)
  ∧ ∀ k, k ∈ import_roots packages p2k ↔
      ∃ e d, alist_get "" packages = Some (JObject e) ∧ d ∈ names e ∧ find_key packages p2k "" d = Some k.
Proof.
  intros names. unfold import_roots. destruct (alist_get "" packages) as [j|]; simpl.
  2: { split; [constructor|]. intros k. split; [by intros ?%elem_of_nil|naive_solver]. }
  destruct (as_object j) as [e|] eqn:Ej.
  2: { split; [constructor|]. intros k. split; [by intros ?%elem_of_nil|]. intros (e & d & [= ->] & _). done. }
  assert (j = JObject e) as -> by (destruct j; try done; by injection Ej as ->).
  assert (∀ l, NoDup (foldl add_root [] l) ∧ ∀ k, k ∈ foldl add_root [] l ↔ k ∈ l) as Hf.
  { induction l as [|x l [IH1 IH2]] using rev_ind; [split; [constructor|done]|].
    rewrite foldl_snoc. unfold add_root at 1 3. case_decide as Hx.
    - split; [done|]. intros k. rewrite IH2, elem_of_app, list_elem_of_singleton. rewrite IH2 in Hx. naive_solver.
    - split; [|intros k; by rewrite !elem_of_app, IH2].
      apply NoDup_app. split; [done|]. split; [|apply NoDup_singleton]. set_solver. }
  destruct (Hf (omap (find_key packages p2k "") (names e))) as [H1 H2]. split; [exact H1|].
  intros k. etrans; [apply H2|]. rewrite list_elem_of_omap. naive_solver.
Qed.

(** What the graph of a lockfile is, in terms of the two passes. *)
Lemma import_graph root packages g :
  jget "packages" root = Some (JObject packages) → NoDup packages.*1 →
  import_npm_lockfile os arch root = Ok g →
  let found p d k := ∃ dep_path e n, resolve_dep_path packages p d = Some dep_path
    ∧ (dep_path, JObject e) ∈ packages ∧ node_of dep_path (JObject e) = Some n ∧ key_of n = k in
  (∀ k, is_Some (nodes g !! k) ↔
     ∃ p e n, (p, JObject e) ∈ packages ∧ node_of p (JObject e) = Some n ∧ key_of n = k)
  ∧ (∀ k n, nodes g !! k = Some n → ∃ p e n0,
       last_entry k packages = Some (p, e, n0) ∧ n = set_dependencies (dependencies n) n0
       ∧ ∀ d k', dependencies n !! d = Some k' ↔
           d ∈ names_in "dependencies" e ++ names_in "optionalDependencies" e ∧ found p d k')
  ∧ NoDup (roots g)
  ∧ (∀ k, k ∈ roots g ↔ ∃ e d, alist_get "" packages = Some (JObject e)
       ∧ d ∈ names_in "dependencies" e ++ names_in "devDependencies" e ++ names_in "optionalDependencies" e
       ∧ found "" d k)
  ∧ (∀ k n d k', nodes g !! k = Some n → dependencies n !! d = Some k' → is_Some (nodes g !! k'))
  ∧ (∀ k, k ∈ roots g → is_Some (nodes g !! k)).
Proof.
  intros Hp Hd H found. unfold import_npm_lockfile in H. rewrite Hp in H. simpl in H.
  destruct (first_pass os arch packages) as [p2k ns] eqn:Ef.
  apply bind_Ok in H as (_ & _ & [= <-]). cbn [nodes roots].
  assert (p2k = (first_pass os arch packages).1) as -> by by rewrite Ef.
  assert (ns = (first_pass os arch packages).2) as -> by by rewrite Ef. clear Ef.
  assert (∀ k, second_pass packages (first_pass os arch packages).1 (first_pass os arch packages).2 !! k =
    (λ '(p, e, n), set_dependencies (resolved_dependencies packages (first_pass os arch packages).1 p e) n)
      <$> last_entry k packages) as Hn.
  { intros k. unfold second_pass.
    rewrite (second_pass_nodes packages k packages []) by (done || by rewrite app_nil_r).
    rewrite first_pass_nodes. by destruct (last_entry k packages) as [[[p e] n]|]. }
  assert (∀ k, is_Some (second_pass packages (first_pass os arch packages).1 (first_pass os arch packages).2 !! k) ↔
    ∃ p e n, (p, JObject e) ∈ packages ∧ node_of p (JObject e) = Some n ∧ key_of n = k) as Hdom.
  { intros k. rewrite Hn, fmap_is_Some. split.
    - intros [[[p e] n] Hl]. apply last_entry_Some in Hl as (? & ? & ?). by exists p, e, n.
    - intros (p & e & n & ? & ? & ?). by eapply last_entry_is_Some. }
  assert (∀ p d k, find_key packages (first_pass os arch packages).1 p d = Some k ↔ found p d k) as Hfound.
  { intros p d k. by apply find_key_Some. }
  pose proof (import_roots_spec packages (first_pass os arch packages).1) as [Hr1 Hr2].
  assert (∀ k, k ∈ import_roots packages (first_pass os arch packages).1 ↔ ∃ e d,
      alist_get "" packages = Some (JObject e)
      ∧ d ∈ names_in "dependencies" e ++ names_in "devDependencies" e ++ names_in "optionalDependencies" e
      ∧ found "" d k) as Hr3.
  { intros k. rewrite Hr2. by setoid_rewrite Hfound. }
  split; [exact Hdom|]. split; [|split; [exact Hr1|split; [exact Hr3|split]]].
  - intros k n. rewrite Hn. intros ([[p e] n0] & Hl & ->)%fmap_Some. exists p, e, n0.
    split; [done|]. split; [done|]. intros d k'. cbn [dependencies set_dependencies].
    by rewrite resolved_dependencies_Some, Hfound.
  - intros k n d k'. rewrite Hn. intros ([[p e] n0] & Hl & ->)%fmap_Some. cbn [dependencies set_dependencies].
    rewrite resolved_dependencies_Some, Hfound. intros (_ & dp & e' & n' & _ & ? & ? & ?). apply Hdom. by exists dp, e', n'.
  - intros k (e & d & _ & _ & dp & e' & n' & _ & ? & ? & ?)%Hr3. apply Hdom. by exists dp, e', n'.
Qed.
End spec.

(** ** What the lockfile says, without the two passes *)

Definition NM : string := "node_modules/".
(** [a] is what precedes the last [/node_modules/] of a path, and [b] what follows it. *)
Definition splits_last (sep p a b : string) : Prop :=
  p = a +:+ sep +:+ b ∧ ∀ a' b', p = a' +:+ sep +:+ b' → String.length a' ≤ String.length a.
(** The directories around a package: itself, the package or directory it is nested in,
    and so on, and the project. *)
Inductive around : string → string → Prop :=
  | around_self p : around p p
  | around_out p a b q : splits_last ("/" +:+ NM) p a b → around a q → around p q
  | around_project p : around p "".
(** What a directory has of a name in its [node_modules]. *)
Definition own_copy (q d : string) : string :=
  if decide (q = "") then NM +:+ d else q +:+ "/" +:+ NM +:+ d.
(** Where node finds a name from a path: in the nearest directory around it that has it. *)
Definition nearest (paths : list string) (p d dp : string) : Prop :=
  ∃ q, around p q ∧ dp = own_copy q d ∧ dp ∈ paths
    ∧ ∀ q', around p q' → String.length q < String.length q' → own_copy q' d ∉ paths.

Lemma rfind_str_last n s i :
  rfind_str n s = Some i → ∀ a b, s = a +:+ n +:+ b → String.length a ≤ i.
Proof.
  revert i. induction s as [|x s IH]; intros i H a b Hs.
  - destruct a; [simpl; lia|done].
  - destruct a as [|y a]; [simpl; lia|]. rewrite str_app_cons in Hs. injection Hs as -> Hs. cbn [rfind_str] in H.
    destruct (rfind_str n s) as [j|] eqn:E.
    + injection H as <-. specialize (IH j eq_refl a b Hs). simpl. lia.
    + exfalso. apply rfind_None in E. rewrite <- not_true_iff_false in E. apply E, contains_true. by exists a, b.
Qed.
Lemma rfind_str_splits n s i :
  rfind_str n s = Some i → ∃ a b, splits_last n s a b ∧ String.length a = i.
Proof.
  intros H. pose proof (rfind_str_last n s i H) as Hl. apply rfind_str_Some in H as (a & b & Hs & Ha).
  exists a, b. split; [|done]. split; [done|]. intros a' b' Hs'. rewrite Ha. by eapply Hl.
Qed.
Lemma splits_last_unique sep p a b a' b' :
  splits_last sep p a b → splits_last sep p a' b' → a = a' ∧ b = b'.
Proof.
  intros [H1 M1] [H2 M2]. pose proof (M1 _ _ H2). pose proof (M2 _ _ H1).
  assert (a = a') as ->.
  { rewrite <- (take_str_app a (sep +:+ b)), <- H1, H2. replace (String.length a) with (String.length a') by lia.
    apply take_str_app. }
  split; [done|]. rewrite H1 in H2. by apply (inj (String.append a')), (inj (String.append sep)) in H2.
Qed.
Lemma around_shorter p q : around p q → String.length q ≤ String.length p.
Proof.
  induction 1 as [p|p a b q [-> _] _ IH|p]; [lia|rewrite str_length_app; lia|simpl; lia].
Qed.
(** The directories around a path but itself are those around the next one. *)
Lemma around_cases p q : p ≠ "" → around p q ↔ q = p ∨ around (enclosing p) q.
Proof.
  intros Hp. unfold enclosing. destruct (rfind_str "/node_modules/" p) as [i|] eqn:E.
  - apply rfind_str_splits in E as (a & b & Hs & <-).
    assert (take_str (String.length a) p = a) as -> by (destruct Hs as [-> _]; apply take_str_app). split.
    + intros H. inversion H as [|? a' b' ? Hs' Ha|]; subst; [by left| |right; constructor].
      right. by destruct (splits_last_unique _ _ _ _ _ _ Hs Hs') as [-> _].
    + intros [->|H]; [constructor|by eapply around_out].
  - apply rfind_None in E. split.
    + intros H. inversion H as [|? a' b' ? [Hs' _] Ha|]; subst; [by left| |right; constructor].
      exfalso. rewrite <- not_true_iff_false in E. apply E, contains_true. by exists a', b'.
    + intros [->|H]; [constructor|]. apply around_shorter in H. destruct q; [constructor|simpl in H; lia].
Qed.
Lemma own_copy_candidate q d : own_copy q d = candidate q d.
Proof. done. Qed.
Lemma is_key_paths {A} c (packages : list (string * A)) : is_key c packages = true ↔ c ∈ packages.*1.
Proof. unfold is_key. by rewrite bool_decide_eq_true, alist_get_is_Some. Qed.
Lemma resolve_dep_path_nearest {A} (packages : list (string * A)) p d dp :
  resolve_dep_path packages p d = Some dp ↔ nearest packages.*1 p d dp.
Proof.
  remember (String.length p) as n eqn:Hn. revert p Hn. induction (lt_wf n) as [n _ IH]. intros p ->.
  rewrite resolve_dep_path_unfold. destruct (is_key (candidate p d) packages) eqn:Ek.
  { apply is_key_paths in Ek. split.
    - intros [= <-]. exists p. split_and!; [constructor|done|done|].
      intros q' Hq'%around_shorter Hl. lia.
    - intros (q & Hq & -> & Hin & Hfar). f_equal. destruct (decide (q = p)) as [->|Hne]; [done|].
      destruct (Nat.lt_ge_cases (String.length q) (String.length p)) as [Hl|Hl]; [by destruct (Hfar p); [constructor|done|]|].
      destruct (decide (p = "")) as [->|Hp].
      { apply around_shorter in Hq. destruct q; [done|simpl in Hq; lia]. }
      rewrite (around_cases p q Hp) in Hq. destruct Hq as [->|Hq]; [done|]. apply around_shorter in Hq.
      pose proof (enclosing_shorter p Hp). lia. }
  rewrite <- not_true_iff_false, is_key_paths in Ek. case_decide as Hp.
  { subst p. split; [done|]. intros (q & Hq & -> & Hin & _). apply around_shorter in Hq.
    destruct q; [done|simpl in Hq; lia]. }
  rewrite (IH _ (enclosing_shorter p Hp) (enclosing p) eq_refl). unfold nearest. setoid_rewrite (around_cases p); [|done..].
  split.
  - intros (q & Hq & -> & Hin & Hfar). exists q. split_and!; [by right|done|done|].
    intros q' [->|Hq'] Hl; [done|by apply Hfar].
  - intros (q & [->|Hq] & -> & Hin & Hfar); [done|]. exists q. split_and!; [done..|].
    intros q' Hq'. apply Hfar. by right.
Qed.

(** A list of systems, which fits one unless it denies it or names only others. *)
Definition fits (field : string) (e : list (string * Json)) (current : string) : Prop :=
  ∀ items, alist_get field e = Some (JArray items) →
    JString ("!" +:+ current) ∉ items
    ∧ ((∃ s, JString s ∈ items ∧ starts_with "!" s = false) →
       JString current ∈ items ∧ starts_with "!" current = false).
Lemma match_items_true current items has included :
  match_items current items has included = true ↔
  "!" +:+ current ∉ items
  ∧ (has = true ∨ (∃ s, s ∈ items ∧ starts_with "!" s = false) →
     included = true ∨ current ∈ items ∧ starts_with "!" current = false).
Proof.
  revert has included. induction items as [|item items IH]; intros has included; cbn [match_items].
  - rewrite orb_true_iff, negb_true_iff. destruct has; split.
    + intros [?|H]; [done|]. split; [apply not_elem_of_nil|by left].
    + intros [_ H]. right. destruct H as [?|[?%elem_of_nil _]]; [by left|done|done].
    + intros _. split; [apply not_elem_of_nil|]. intros [?|(s & ?%elem_of_nil & _)]; done.
    + by left.
  - destruct (strip_prefix "!" item) as [neg|] eqn:E.
    + apply strip_prefix_Some in E as ->. case_decide as Hn.
      * subst. split; [done|]. intros [H _]. destruct H. by left.
      * rewrite IH. rewrite not_elem_of_cons. setoid_rewrite elem_of_cons.
        assert (starts_with "!" ("!" +:+ neg) = true) as Hs by (apply starts_with_true; by exists neg).
        assert ("!" +:+ current ≠ "!" +:+ neg) as Hne by (intros ?%(inj (String.append "!")); congruence). split.
        -- intros [H1 H2]. split; [done|]. intros H. destruct H2 as [?|[? ?]]; [|by left|right; auto].
           destruct H as [?|(s & [->|?] & ?)]; [by left|congruence|right; eauto].
        -- intros [[_ H1] H2]. split; [done|]. intros H. destruct H2 as [?|[[->|?] ?]]; [|by left|congruence|by right].
           destruct H as [?|(s & ? & ?)]; [by left|right; eauto].
    + assert (starts_with "!" item = false) as Hs.
      { rewrite <- not_true_iff_false, starts_with_true. intros [r Hr]. apply strip_prefix_Some in Hr. congruence. }
      rewrite IH, not_elem_of_cons. setoid_rewrite elem_of_cons. rewrite orb_true_iff, bool_decide_eq_true.
      assert ("!" +:+ current ≠ item) as Hne.
      { intros <-. rewrite <- not_true_iff_false, starts_with_true in Hs. apply Hs. by exists current. }
      split.
      * intros [H1 H2]. split; [done|]. intros _. destruct H2 as [[?| ->]|[? ?]]; [by left|by left|right; auto|right; auto].
      * intros [[_ H1] H2]. split; [done|]. intros _. destruct H2 as [?|[[->|?] ?]]; [right; eauto|auto..].
Qed.
Lemma omap_as_str s (l : list Json) : s ∈ omap as_str l ↔ JString s ∈ l.
Proof.
  rewrite list_elem_of_omap. split.
  - intros (j & Hj & E). destruct j; try done. by injection E as ->.
  - intros H. by exists (JString s).
Qed.
Lemma matches_list_fits field e current :
  matches_list (alist_get field e) current = true ↔ fits field e current.
Proof.
  unfold matches_list, fits. destruct (alist_get field e) as [j|]; simpl; [|naive_solver].
  destruct j as [| | | |l|]; simpl; try (by split; [intros _ ? [=]|]).
  destruct l as [|x l].
  { split; [|done]. intros _ ? [= <-]. split; [apply not_elem_of_nil|]. by intros (s & ?%elem_of_nil & _). }
  pose proof (match_items_true current (omap as_str (x :: l)) false false) as Hm.
  rewrite !omap_as_str in Hm. setoid_rewrite omap_as_str in Hm. etrans; [exact Hm|]. split.
  - intros [H1 H2] ? [= <-]. split; [done|]. intros H. by destruct H2 as [?|?]; [by right| |].
  - intros H. destruct (H _ eq_refl) as [H1 H2]. split; [done|]. intros [?|?]; [done|right; auto].
Qed.

(** The entry at a path is installed, under a name: the rest of its path. *)
Definition named (p n : string) : Prop :=
  (∃ a, splits_last NM p a n) ∨ n = p ∧ ∀ a b, p ≠ a +:+ NM +:+ b.
Lemma name_from_path_named p n : name_from_path p = n ↔ named p n.
Proof.
  unfold name_from_path, named. fold NM. destruct (rfind_str NM p) as [i|] eqn:E.
  - apply rfind_str_splits in E as (a & b & Hs & <-).
    assert (drop_str (String.length a + String.length NM) p = b) as ->.
    { destruct Hs as [-> _]. rewrite str_app_assoc, <- str_length_app. apply drop_str_app. }
    split; [intros <-; left; by exists a|]. intros [[a' Hs']|[_ Hn]].
    + by destruct (splits_last_unique _ _ _ _ _ _ Hs Hs') as [_ ->].
    + destruct Hs as [Hs _]. by destruct (Hn a b).
  - apply rfind_None in E. rewrite <- not_true_iff_false, contains_true in E. split.
    + intros <-. right. split; [done|]. intros a b ->. apply E. by exists a, b.
    + intros [[a [Hs _]]|[-> _]]; [|done]. destruct E. by exists a, n.
Qed.
Definition says (k : string) (e : list (string * Json)) : Prop := alist_get k e = Some (JBool true).
Lemma flag_says k e : flag k e = true ↔ says k e.
Proof. unfold flag, says. destruct (alist_get k e) as [[]|]; simpl; split; try done; [by intros ->|by intros [= ->]]. Qed.

Section lockfile.
Context (os arch : string).
(** The entry at [p] is to be installed here as version [v] of [n]: it is neither the
    project nor a link, it has a version, and its platforms fit. *)
Definition installed_as (packages : list (string * Json)) (p : string) (e : list (string * Json))
    (n v : string) : Prop :=
  (p, JObject e) ∈ packages ∧ p ≠ "" ∧ named p n ∧ ¬ says "link" e
  ∧ alist_get "version" e = Some (JString v) ∧ fits "os" e (npm_os os) ∧ fits "cpu" e (npm_cpu arch).
(** The last entry of a name and version. *)
Definition last_installed (packages : list (string * Json)) (p : string) (e : list (string * Json))
    (n v : string) : Prop :=
  ∃ before after, packages = before ++ (p, JObject e) :: after
    ∧ installed_as packages p e n v
    ∧ ∀ p' e' n' v', (p', JObject e') ∈ after → installed_as packages p' e' n' v' →
        n' +:+ "@" +:+ v' ≠ n +:+ "@" +:+ v.
Definition text_field (k : string) (e : list (string * Json)) : option string := alist_get k e ≫= as_str.
(** What a node has of its entry. *)
Definition describes (e : list (string * Json)) (n v : string) (node : DepNode) : Prop :=
  name node = n ∧ version node = v ∧ alias node = None
  ∧ resolved node = default "" (text_field "resolved" e) ∧ integrity node = text_field "integrity" e
  ∧ (has_install_script node = true ↔ says "hasInstallScript" e)
  ∧ (dev node = true ↔ says "dev" e ∨ says "devOptional" e)
  ∧ (optional node = true ↔ says "optional" e ∨ says "devOptional" e)
  ∧ optional_peers node = ∅ ∧ resolved_peers node = ∅.
Definition lists (fields : list string) (e : list (string * Json)) (d : string) : Prop :=
  ∃ field m, field ∈ fields ∧ alist_get field e = Some (JObject m) ∧ d ∈ m.*1.

Lemma node_of_installed packages p e n v :
  (p, JObject e) ∈ packages →
  installed_as packages p e n v ↔
  ∃ node, node_of os arch p (JObject e) = Some node ∧ name node = n ∧ version node = v.
Proof.
  intros Hin. unfold installed_as, node_of, platform_matches. rewrite <- name_from_path_named, <- flag_says.
  rewrite <- !matches_list_fits. case_decide as Hp; [naive_solver|]. cbn [as_object mbind option_bind].
  destruct (flag "link" e) eqn:El; [naive_solver|]. destruct (alist_get "version" e) as [j|]; simpl; [|naive_solver].
  destruct (as_str j) as [v'|] eqn:Ev; simpl.
  2:{ split; [|naive_solver]. intros (_ & _ & _ & _ & [= ->] & _). done. }
  assert (j = JString v') as -> by (destruct j; try done; by injection Ev as ->).
  destruct (matches_list (alist_get "os" e) _) eqn:Eo; simpl; [|naive_solver].
  destruct (matches_list (alist_get "cpu" e) _) eqn:Ec; simpl; [|naive_solver].
  split.
  - intros (_ & _ & <- & _ & [= <-] & _). eexists. split; [reflexivity|done].
  - intros (node & [= <-] & <- & <-). done.
Qed.
Lemma node_of_describes p e node :
  node_of os arch p (JObject e) = Some node → describes e (name node) (version node) node.
Proof.
  unfold node_of, describes, text_field. case_decide; [done|]. cbn [as_object mbind option_bind].
  destruct (flag "link" e); [done|]. destruct (alist_get "version" e ≫= as_str); simpl; [|done].
  destruct (negb _); [done|]. intros [= <-]. cbn. rewrite !orb_true_iff, !flag_says. by split_and!.
Qed.
Lemma names_in_lists f e d : d ∈ names_in f e ↔ lists [f] e d.
Proof.
  unfold names_in, lists. split.
  - destruct (alist_get f e) as [j|] eqn:E; simpl; [|by intros ?%elem_of_nil].
    destruct j as [| | | | |m]; simpl; try by intros ?%elem_of_nil. intros Hd. exists f, m. split; [by left|done].
  - intros (f' & m & ->%list_elem_of_singleton & -> & Hd). done.
Qed.
Lemma lists_app fs gs e d : lists (fs ++ gs) e d ↔ lists fs e d ∨ lists gs e d.
Proof. unfold lists. setoid_rewrite elem_of_app. naive_solver. Qed.
Lemma last_entry_installed packages k p e node :
  last_entry os arch k packages = Some (p, e, node) →
  last_installed packages p e (name node) (version node) ∧ key_of node = k.
Proof.
  intros H. pose proof (last_entry_Some os arch _ _ _ _ _ H) as (Hin & Hn & Hk). split; [|done].
  assert (Hinst : ∀ pk, (p, JObject e) ∈ pk → installed_as pk p e (name node) (version node)).
  { intros pk Hp. apply node_of_installed; [done|]. by exists node. }
  revert H. induction packages as [|[p' entry] l IH] using rev_ind; [done|]. rewrite last_entry_snoc. intros H.
  assert (Hdec : (last_entry os arch k l = Some (p, e, node)
      ∧ ∀ e' n', entry = JObject e' → node_of os arch p' (JObject e') = Some n' → key_of n' ≠ k)
    ∨ (p' = p ∧ entry = JObject e)).
  { destruct (node_of os arch p' entry) as [n'|] eqn:En.
    - destruct (node_of_object os arch _ _ _ En) as (e' & -> & _). cbn [as_object] in H. case_decide as Hk'.
      + injection H as -> -> ->. by right.
      + left. split; [done|]. intros ? ? [= <-] Hn'. congruence.
    - left. split; [done|]. intros e' n' -> Hn'. congruence. }
  destruct Hdec as [[Hl Hlast]|[-> ->]].
  - pose proof (last_entry_Some os arch _ _ _ _ _ Hl) as (Hinl & _).
    destruct (IH Hinl Hl) as (before & after & -> & _ & Ha).
    exists before, (after ++ [(p', entry)]). rewrite <- app_assoc. split; [done|].
    split; [apply Hinst, elem_of_app; right; by left|].
    intros q e' n' v' [Hq|Hq]%elem_of_app Hi.
    + apply (Ha q e'); [done|]. destruct Hi as (_ & Hi). split; [|done].
      apply elem_of_app. right. by right.
    + apply list_elem_of_singleton in Hq. injection Hq as <- <-.
      apply node_of_installed in Hi as (n0 & Hn0 & <- & <-); [|by set_solver].
      rewrite <- Hk in Hlast. by apply (Hlast e' n0 eq_refl Hn0).
  - exists l, []. split; [done|]. split; [apply Hinst, elem_of_app; right; by left|]. intros ? ? ? ? ?%elem_of_nil. done.
Qed.

(** (C37) What the graph of a lockfile is. Its nodes are the keys, name@version, of the
    entries to be installed on this platform: neither the project nor links, nor those
    without a version or for other platforms. The node of a key is made from the last entry
    with that key, and has as dependencies, of the names the entry lists, the key of the
    entry that is nearest to its path, where that is to be installed: in the [node_modules]
    of the package itself, of a package it is nested in, or of the project; the roots,
    without repetition, are what is nearest to the project. So the graph is closed: every
    dependency and every root is a node. *)
Theorem import_spec root packages g :
  jget "packages" root = Some (JObject packages) → NoDup packages.*1 →
  import_npm_lockfile os arch root = Ok g →
  let found p d k := ∃ dp e n v, nearest packages.*1 p d dp ∧ installed_as packages dp e n v
                                 ∧ k = n +:+ "@" +:+ v in
  (∀ k, is_Some (nodes g !! k) ↔ ∃ p e n v, installed_as packages p e n v ∧ k = n +:+ "@" +:+ v)
  ∧ (∀ k node, nodes g !! k = Some node → ∃ p e n v,
       last_installed packages p e n v ∧ k = n +:+ "@" +:+ v ∧ describes e n v node
       ∧ ∀ d k', dependencies node !! d = Some k' ↔
           lists ["dependencies"; "optionalDependencies"] e d ∧ found p d k')
  ∧ NoDup (roots g)
  ∧ (∀ k, k ∈ roots g ↔ ∃ e d, alist_get "" packages = Some (JObject e)
       ∧ lists ["dependencies"; "devDependencies"; "optionalDependencies"] e d ∧ found "" d k)
  ∧ (∀ k node d k', nodes g !! k = Some node → dependencies node !! d = Some k' → is_Some (nodes g !! k'))
  ∧ (∀ k, k ∈ roots g → is_Some (nodes g !! k)).
Proof.
  intros Hp Hd Hg found. destruct (import_graph os arch root packages g Hp Hd Hg) as (H1 & H2 & H3 & H4 & H5 & H6).
  assert (Hi : ∀ p k, (∃ e n v, installed_as packages p e n v ∧ k = n +:+ "@" +:+ v) ↔
    ∃ e n, (p, JObject e) ∈ packages ∧ node_of os arch p (JObject e) = Some n ∧ key_of n = k).
  { intros p k. split.
    - intros (e & n & v & Hi & ->). pose proof (proj1 Hi) as Hin.
      apply node_of_installed in Hi as (node & Hn & <- & <-); [|done]. by exists e, node.
    - intros (e & node & Hin & Hn & <-). exists e, (name node), (version node). split; [|done].
      apply node_of_installed; [done|]. by exists node. }
  assert (Hf : ∀ p d k, (∃ dp e n, resolve_dep_path packages p d = Some dp ∧ (dp, JObject e) ∈ packages
      ∧ node_of os arch dp (JObject e) = Some n ∧ key_of n = k) ↔ found p d k).
  { intros p d k. unfold found. setoid_rewrite <- resolve_dep_path_nearest. split.
    - intros (dp & e & n & Hdp & Hr). destruct (proj2 (Hi dp k)) as (e' & n' & v' & ? & ?); [by exists e, n|].
      by exists dp, e', n', v'.
    - intros (dp & e & n & v & Hdp & Hr). destruct (proj1 (Hi dp k)) as (e' & n' & ? & ? & ?); [by exists e, n, v|].
      by exists dp, e', n'. }
  split_and!; [|  |done| |done|done].
  - intros k. rewrite H1. setoid_rewrite <- Hi. done.
  - intros k node Hn. destruct (H2 k node Hn) as (p & e & n0 & Hl & Hnode & Hdeps).
    apply last_entry_Some in Hl as Hs. destruct Hs as (_ & Hn0 & _).
    apply last_entry_installed in Hl as [Hl <-]. exists p, e, (name n0), (version n0). split_and!; [done..| |].
    + apply node_of_describes in Hn0. rewrite Hnode. exact Hn0.
    + intros d k'. rewrite Hdeps, Hf, elem_of_app, !names_in_lists, <- lists_app. done.
  - intros k. rewrite H4. setoid_rewrite Hf. setoid_rewrite elem_of_app. setoid_rewrite elem_of_app.
    setoid_rewrite names_in_lists. setoid_rewrite <- lists_app. setoid_rewrite <- lists_app. done.
Qed.
End lockfile.

(** ** A lockfile *)

(** With a nested package, and one for another platform. *)
Definition sample_lock : list (string * Json) := [
  ("", JObject [("dependencies", JObject [("a", JString "^1.0.0")])]);
  ("node_modules/a", JObject [("version", JString "1.0.0");
     ("dependencies", JObject [("b", JString "^1.0.0"); ("c", JString "^1.0.0")])]);
  ("node_modules/b", JObject [("version", JString "1.0.0");
     ("dependencies", JObject [("c", JString "^2.0.0"); ("w", JString "1")])]);
  ("node_modules/b/node_modules/c", JObject [("version", JString "2.1.0")]);
  ("node_modules/c", JObject [("version", JString "1.5.0")]);
  ("node_modules/w", JObject [("version", JString "1.0.0"); ("os", JArray [JString "win32"])])].
Definition sample_root : Json := JObject [("lockfileVersion", JNumber "3"); ("packages", JObject sample_lock)].
Lemma resolve_dep_path_spec_witness :
  resolve_dep_path sample_lock "packages/x/node_modules/b/node_modules/q" "c" = Some "node_modules/c"
  ∧ resolve_dep_path sample_lock (path_of "" ["b"; "q"]) "c" = Some "node_modules/b/node_modules/c".
Proof.
  split.
  - transitivity (head (filter (λ c, is_key c sample_lock = true) (lookup_paths "packages/x" ["b"; "q"] "c")));
      [|by vm_compute].
    apply (resolve_dep_path_spec sample_lock "packages/x" ["b"; "q"] "c"); [by vm_compute|].
    by repeat constructor.
  - by vm_compute.
Defined.
Lemma import_spec_witness : ∃ g,
  import_npm_lockfile "linux" "x86_64" sample_root = Ok g
  ∧ roots g = ["a@1.0.0"]
  ∧ (∀ n, nodes g !! "b@1.0.0" = Some n →
       dependencies n !! "c" = Some "c@2.1.0" ∧ dependencies n !! "w" = None)
  ∧ is_Some (nodes g !! "a@1.0.0").
Proof.
  assert (∃ g, import_npm_lockfile "linux" "x86_64" sample_root = Ok g ∧ roots g = ["a@1.0.0"]
    ∧ (dependencies <$> nodes g !! "b@1.0.0") = Some {[ "c" := "c@2.1.0" ]}) as (g & Hg & Hr & Hb).
  { eexists. split; [by vm_compute|]. split; by vm_compute. }
  exists g. split; [done|]. split; [done|]. split.
  - intros n Hn. rewrite Hn in Hb. injection Hb as ->. by split.
  - assert (NoDup (sample_lock.*1)) as Hd by (apply (bool_decide_unpack _); by vm_compute).
    destruct (import_spec "linux" "x86_64" sample_root sample_lock g eq_refl Hd Hg)
      as (_ & _ & _ & _ & _ & H).
    apply H. rewrite Hr. by left.
Defined.
(** Of two copies of a package at the same version only the dependencies found from the
    later path are kept: here those of the copy in [x] are gone. *)
Definition twice_lock : list (string * Json) := [
  ("", JObject [("dependencies", JObject [("c", JString "1"); ("x", JString "1")])]);
  ("node_modules/c", JObject [("version", JString "1.0.0"); ("dependencies", JObject [("d", JString "*")])]);
  ("node_modules/d", JObject [("version", JString "1.0.0")]);
  ("node_modules/x", JObject [("version", JString "1.0.0"); ("dependencies", JObject [("c", JString "1")])]);
  ("node_modules/x/node_modules/c", JObject [("version", JString "1.0.0"); ("dependencies", JObject [("d", JString "*")])]);
  ("node_modules/x/node_modules/d", JObject [("version", JString "2.0.0")])].
Lemma copies_collapse : ∃ g,
  import_npm_lockfile "linux" "x86_64" (JObject [("packages", JObject twice_lock)]) = Ok g
  ∧ resolve_dep_path twice_lock "node_modules/c" "d" = Some "node_modules/d"
  ∧ dependencies <$> nodes g !! "c@1.0.0" = Some {[ "d" := "d@2.0.0" ]}.
Proof. eexists. split; [by vm_compute|]. split; by vm_compute. Qed.
