(* ===== verification/Workspace.v ===== *)
(** * oath-workspace: the packages of a monorepo ([oath-workspace/src/lib.rs])

    Finding the root of a workspace, the directories its patterns name, and the
    dependencies of its packages: those of the registry and those on each other. The file
    system, the parsers of manifests and the glob library are an interface. *)
From S2P Require Export Paths.

Inductive WorkspacesField :=
  | WorkspacesArray (patterns : list string)
  | WorkspacesObject (packages : list string).
Definition patterns (self : WorkspacesField) : list string :=
  match self with WorkspacesArray v => v | WorkspacesObject packages => packages end.
(** [private] is a word of Rust only. *)
Record Manifest := {
  m_name : string;
  m_version : string;
  m_private : bool;
  m_dependencies : gmap string string;
  dev_dependencies : gmap string string;
  m_peer_dependencies : gmap string string;
  optional_dependencies : gmap string string;
  workspaces : option WorkspacesField;
}.
Record WorkspacePackage := {
  p_name : string;
  p_version : string;
  p_path : string;
  package_json : Manifest;
}.
Record WorkspaceRoot := { w_root : string; packages : list WorkspacePackage }.

(** The machine: the file system with the directory the program was started in, the
    derived parsers of the two files (the second gives the patterns), and the glob
    library: the paths for a pattern, less those that cannot be read, and the matcher of
    one. *)
Class Machine := {
  current_dir : option string;
  path_exists : string → bool;
  is_dir : string → bool;
  read_to_string : string → option string;
  parse_manifest : string → option Manifest;
  parse_pnpm : string → option (list string);
  glob_with : string → option (list string);
  glob_pattern : string → option (string → bool);
}.

(** ** Specifiers *)

Inductive WorkspaceSpecifier := Any | Caret | Tilde | Exact (v : string) | NotWorkspace.
Definition parse_workspace_spec (spec : string) : WorkspaceSpecifier :=
  if negb (starts_with "workspace:" spec) then NotWorkspace else
  let rest := drop_str (String.length "workspace:") spec in
  if decide (rest = "*") then Any else if decide (rest = "^") then Caret
  else if decide (rest = "~") then Tilde else Exact rest.
Definition is_workspace_spec (spec : string) : bool := starts_with "workspace:" spec.

(** ** The order of paths *)

Definition rank (c : Component) : nat :=
  match c with RootDir => 0 | CurDir => 1 | ParentDir => 2 | Normal _ => 3 end.
Definition part_of (c : Component) : string := match c with Normal p => p | _ => "" end.
Definition component_le (a b : Component) : Prop :=
  rank a < rank b ∨ (rank a = rank b ∧ String.le (part_of a) (part_of b)).
Fixpoint components_le (xs ys : list Component) : Prop :=
  match xs, ys with
  | [], _ => True
  | _ :: _, [] => False
  | x :: xs, y :: ys => if decide (x = y) then components_le xs ys else component_le x y
  end.
#[export] Instance component_le_dec : RelDecision component_le.
Proof. intros a b. unfold component_le. apply _. Defined.
#[export] Instance components_le_dec : RelDecision components_le.
Proof.
  intros xs. induction xs as [|x xs IH]; intros [|y ys]; simpl; try apply _.
  destruct (decide (x = y)); [apply IH|apply _].
Defined.
(** [PathBuf::cmp] and [PathBuf::eq] *)
Definition path_le (a b : string) : Prop := components_le (components a) (components b).
#[export] Instance path_le_dec : RelDecision path_le := λ a b, components_le_dec _ _.
Definition sort_paths : list string → list string := stable_sort path_le.
Fixpoint dedup_paths_from (x : string) (l : list string) : list string :=
  match l with
  | [] => []
  | y :: l => if decide (components x = components y) then dedup_paths_from x l
              else y :: dedup_paths_from y l
  end.
Definition dedup_paths (l : list string) : list string :=
  match l with [] => [] | x :: l => x :: dedup_paths_from x l end.

(** ** Directories *)

(** [Path::parent] of an absolute path. *)
Definition drop_empty (parts : list string) : list string :=
  reverse ((fix go l := match l with
                        | x :: l' => if decide (x = "" ∨ x = ".") then go l' else l
                        | [] => []
                        end) (reverse parts)).
Definition parent (p : string) : option string :=
  match drop_empty (tail (split_char "/" p)) with
  | [] => None
  | parts => Some match drop_empty (removelast parts) with [] => "/" | ps => "/" +:+ join "/" ps end
  end.

Section workspace.
Context {MC : Machine}.

Definition abs_pattern (root pattern : string) : string :=
  if starts_with "/" pattern then pattern else pjoin root pattern.
Definition negations (root : string) (ps : list string) : list (string → bool) :=
  omap (λ neg, glob_pattern (abs_pattern root (trim_start_matches "!" neg)))
    (filter (λ p, starts_with "!" p = true) ps).
Definition excluded (negs : list (string → bool)) (entry : string) : bool :=
  existsb (λ neg, neg entry || contains "node_modules" entry) negs.
Definition expand_pattern (root : string) (negs : list (string → bool)) (pattern : string) : list string :=
  match glob_with (abs_pattern root pattern) with
  | Some entries =>
      filter (λ entry, is_dir entry && negb (excluded negs entry)
                       && path_exists (pjoin entry "package.json") = true) entries
  | None => []
  end.
Definition expand_workspace_globs (root : string) (ps : list string) : list string :=
  let negs := negations root ps in
  let results := mjoin (expand_pattern root negs <$> filter (λ p, starts_with "!" p = false) ps) in
  dedup_paths (sort_paths results).

Definition load_workspace_package (path : string) : option WorkspacePackage :=
  content ← read_to_string (pjoin path "package.json");
  manifest ← parse_manifest content;
  if decide (m_name manifest = "") then None else
  Some {| p_name := m_name manifest; p_version := m_version manifest; p_path := path;
          package_json := manifest |}.
Definition expand_and_load_packages (root : string) (ps : list string) : list WorkspacePackage :=
  omap load_workspace_package (expand_workspace_globs root ps).
Definition try_load_pnpm_workspace (root : string) : option WorkspaceRoot :=
  content ← read_to_string (pjoin root "pnpm-workspace.yaml");
  ps ← parse_pnpm content;
  Some {| w_root := root; packages := expand_and_load_packages root ps |}.
(** A round of the loop: the workspace of a directory. *)
Definition load_package_json (current : string) : option WorkspaceRoot :=
  let pkg_json := pjoin current "package.json" in
  if negb (path_exists pkg_json) then None else
  content ← read_to_string pkg_json;
  manifest ← parse_manifest content;
  ws ← workspaces manifest;
  Some {| w_root := current; packages := expand_and_load_packages current (patterns ws) |}.
Definition workspace_at (current : string) : option WorkspaceRoot :=
  let pnpm := if path_exists (pjoin current "pnpm-workspace.yaml")
              then try_load_pnpm_workspace current else None in
  match pnpm with Some root => Some root | None => load_package_json current end.
Fixpoint detect_loop (fuel : nat) (current : string) : option WorkspaceRoot :=
  match fuel with
  | 0 => None
  | S fuel =>
      match workspace_at current with
      | Some root => Some root
      | None => match parent current with Some up => detect_loop fuel up | None => None end
      end
  end.
Definition detect_workspace_root (start : string) : option WorkspaceRoot :=
  start ← (if starts_with "/" start then Some start else (λ d, pjoin d start) <$> current_dir);
  detect_loop (S (String.length start)) start.

(** ** Dependencies *)

Definition package_map (self : WorkspaceRoot) : gmap string WorkspacePackage :=
  foldl (λ m p, <[p_name p := p]> m) ∅ (packages self).
Definition find_package (self : WorkspaceRoot) (name : string) : option WorkspacePackage :=
  head (filter (λ p, p_name p = name) (packages self)).

(** The dependencies of the registry and the links: consumer, name and path. *)
Definition Deps : Type := gmap string string * list (string * string * string).
Definition process_dep (pkg_map : gmap string WorkspacePackage) (consumer dep_name spec : string)
    (acc : Deps) : Deps :=
  let '(external, links) := acc in
  if is_workspace_spec spec then
    match pkg_map !! dep_name with
    | Some ws_pkg => (external, links ++ [(consumer, dep_name, p_path ws_pkg)])
    | None => acc
    end
  else match pkg_map !! dep_name with
  | Some ws_pkg => (external, links ++ [(consumer, dep_name, p_path ws_pkg)])
  | None => (match external !! dep_name with
             | Some _ => external
             | None => <[dep_name := spec]> external
             end, links)
  end.
Context {ITER : HashIter}.
Definition process_deps (pkg_map : gmap string WorkspacePackage) (consumer : string)
    (deps : gmap string string) (acc : Deps) : Deps :=
  foldl (λ acc '(name, spec), process_dep pkg_map consumer name spec acc) acc (hash_iter deps).
Definition process_manifest (pkg_map : gmap string WorkspacePackage) (include_dev : bool)
    (consumer : string) (m : Manifest) (acc : Deps) : Deps :=
  let acc := process_deps pkg_map consumer (m_dependencies m) acc in
  if include_dev then process_deps pkg_map consumer (dev_dependencies m) acc else acc.
Definition collect_external_deps (self : WorkspaceRoot) (include_dev : bool) : Deps :=
  let pkg_map := package_map self in
  let root_manifest := read_to_string (pjoin (w_root self) "package.json") ≫= parse_manifest in
  let acc := match root_manifest with
             | Some rm => process_manifest pkg_map include_dev "root" rm (∅, [])
             | None => (∅, [])
             end in
  foldl (λ acc pkg, process_manifest pkg_map include_dev (p_name pkg) (package_json pkg) acc)
    acc (packages self).
End workspace.

(** ** The order of paths *)

Lemma component_key_inj a b : rank a = rank b → part_of a = part_of b → a = b.
Proof. destruct a, b; simpl; congruence. Qed.
#[export] Instance component_le_total : Total component_le.
Proof.
  intros a b. unfold component_le. destruct (total String.le (part_of a) (part_of b)); lia || idtac.
  all: destruct (Nat.lt_trichotomy (rank a) (rank b)) as [|[|]]; auto.
Qed.
#[export] Instance component_le_trans : Transitive component_le.
Proof.
  intros a b c [H1|[H1 H1']] [H2|[H2 H2']]; unfold component_le; try (left; lia).
  right. split; [lia|]. by etrans.
Qed.
#[export] Instance component_le_antisymm : AntiSymm (=) component_le.
Proof.
  intros a b [H1|[H1 H1']] [H2|[H2 H2']]; try lia. apply component_key_inj; [done|].
  by apply (anti_symm String.le).
Qed.
#[export] Instance components_le_total : Total components_le.
Proof.
  intros xs. induction xs as [|x xs IH]; intros [|y ys]; simpl; auto.
  case_decide; [|case_decide; [congruence|apply total; apply _]].
  rewrite decide_True by done. apply IH.
Qed.
#[export] Instance components_le_antisymm : AntiSymm (=) components_le.
Proof.
  intros xs. induction xs as [|x xs IH]; intros [|y ys]; simpl; try done.
  case_decide as Hxy.
  - rewrite decide_True by done. intros. f_equal; [done|]. by apply IH.
  - rewrite decide_False by done. intros. destruct Hxy. by apply (anti_symm component_le).
Qed.
#[export] Instance components_le_trans : Transitive components_le.
Proof.
  intros xs. induction xs as [|x xs IH]; intros [|y ys] [|z zs]; simpl; try done.
  destruct (decide (x = y)) as [->|Hxy].
  - case_decide; [|done]. by apply IH.
  - destruct (decide (y = z)) as [->|Hyz]; [by rewrite decide_False|].
    intros H1 H2. case_decide as Hxz; [|by etrans].
    subst. destruct Hxy. by apply (anti_symm component_le).
Qed.
#[export] Instance path_le_total : Total path_le.
Proof. intros a b. apply (total components_le). Qed.
#[export] Instance path_le_trans : Transitive path_le.
Proof. intros a b c. apply (transitivity (R := components_le)). Qed.

Lemma dedup_paths_from_sorted x l :
  StronglySorted path_le (x :: l) →
  NoDup (components <$> x :: dedup_paths_from x l)
  ∧ StronglySorted path_le (x :: dedup_paths_from x l)
  ∧ ∀ c, c ∈ components <$> x :: dedup_paths_from x l ↔ c ∈ components <$> x :: l.
Proof.
  revert x. induction l as [|y l IH]; intros x Hs.
  { simpl. split; [apply NoDup_singleton|]. split; [by repeat constructor|done]. }
  apply StronglySorted_inv in Hs as [Hs Hx]. cbn [dedup_paths_from].
  apply Forall_cons in Hx as [Hxy Hx]. case_decide as Hc.
  - destruct (IH x) as (H1 & H2 & H3).
    { apply StronglySorted_inv in Hs as [Hs _]. by constructor. }
    split; [exact H1|]. split; [exact H2|]. intros c. rewrite H3. csimpl. rewrite Hc. set_solver.
  - destruct (IH y Hs) as (H1 & H2 & H3).
    assert (∀ z, z ∈ y :: dedup_paths_from y l → path_le y z) as Hy.
    { intros z Hz. apply StronglySorted_inv in H2 as [_ H2]. rewrite Forall_forall in H2.
      apply elem_of_cons in Hz as [->|Hz]; [by destruct (total path_le y y)|by apply H2]. }
    split; [|split].
    + csimpl. constructor; [|exact H1]. rewrite <- fmap_cons. intros (z & Hz & Hin)%list_elem_of_fmap.
      destruct Hc. apply (anti_symm components_le); [exact Hxy|]. rewrite Hz. by apply Hy.
    + constructor; [exact H2|]. apply Forall_forall. intros z Hz. etrans; [exact Hxy|]. by apply Hy.
    + intros c. csimpl. rewrite !(elem_of_cons _ _ (components x)). csimpl in H3. by rewrite H3.
Qed.
Lemma dedup_paths_subseteq l x : x ∈ dedup_paths l → x ∈ l.
Proof.
  destruct l as [|y l]; [done|]. simpl. rewrite !elem_of_cons. intros [->|H]; [by left|right].
  revert y H. induction l as [|z l IH]; intros y; simpl; [done|].
  case_decide; [intros ?; right; by eapply IH|].
  rewrite !elem_of_cons. intros [->|?]; [by left|right]. by eapply IH.
Qed.

(** ** Directories *)

(** The absolute path of plain names. *)
Definition abs_path (names : list string) : string := "/" +:+ join "/" names.
Lemma drop_empty_safe names : Forall safe_name names → drop_empty names = names.
Proof.
  intros H. unfold drop_empty. rewrite <- (reverse_involutive names) at 2. f_equal.
  assert (Forall safe_name (reverse names)) as Hr by by apply Forall_reverse.
  destruct (reverse names) as [|x l]; [done|]. apply Forall_cons in Hr as [(? & ? & _) _].
  rewrite decide_False; [done|]. tauto.
Qed.
Lemma split_abs_path names : Forall safe_name names → names ≠ [] → tail (split_char "/" (abs_path names)) = names.
Proof.
  intros H Hne. unfold abs_path.
  change ("/" +:+ join "/" names) with ("" +:+ String "/" (join "/" names)).
  rewrite split_char_app by done. simpl. apply split_join; [done|].
  eapply Forall_impl; [exact H|]. by intros n (?&?&?&?).
Qed.
Lemma parent_abs_path names n :
  Forall safe_name (names ++ [n]) → parent (abs_path (names ++ [n])) = Some (abs_path names).
Proof.
  intros H. unfold parent. rewrite split_abs_path by (done || by destruct names).
  rewrite drop_empty_safe by done. apply Forall_app in H as [H _].
  destruct (names ++ [n]) eqn:E; [by destruct names|]. rewrite <- E, removelast_last.
  rewrite drop_empty_safe by done. by destruct names.
Qed.
Lemma parent_root : parent "/" = None.
Proof. reflexivity. Qed.

Section spec.
Context {MC : Machine}.

Lemma elem_of_expand_pattern root negs pattern x :
  x ∈ expand_pattern root negs pattern →
  is_dir x = true ∧ excluded negs x = false ∧ path_exists (pjoin x "package.json") = true
  ∧ ∃ entries, glob_with (abs_pattern root pattern) = Some entries ∧ x ∈ entries.
Proof.
  unfold expand_pattern. destruct (glob_with _) as [entries|]; [|by intros ?%elem_of_nil].
  intros [H Hin]%list_elem_of_filter. apply andb_prop in H as [[H1 H2%negb_true_iff]%andb_prop H3].
  split; [done|]. split; [done|]. split; [done|]. by eexists.
Qed.
(** The directories that patterns name: in the order of paths, each once, those with a
    [package.json] that no negation excludes. *)
Lemma expand_workspace_globs_spec root ps :
  let dirs := expand_workspace_globs root ps in
  NoDup (components <$> dirs) ∧ StronglySorted path_le dirs
  ∧ (∀ x, x ∈ dirs → is_dir x = true ∧ excluded (negations root ps) x = false
        ∧ path_exists (pjoin x "package.json") = true
        ∧ ∃ p entries, p ∈ ps ∧ starts_with "!" p = false
            ∧ glob_with (abs_pattern root p) = Some entries ∧ x ∈ entries)
  ∧ (∀ p entries x, p ∈ ps → starts_with "!" p = false →
        glob_with (abs_pattern root p) = Some entries → x ∈ entries →
        is_dir x = true → excluded (negations root ps) x = false →
        path_exists (pjoin x "package.json") = true → ∃ y, y ∈ dirs ∧ components y = components x).
Proof.
  intros dirs. unfold expand_workspace_globs in dirs. set (results := mjoin _) in dirs.
  assert (StronglySorted path_le (sort_paths results)) as Hs.
  { apply (stable_sort_sorted path_le). }
  assert (NoDup (components <$> dirs) ∧ StronglySorted path_le dirs
    ∧ ∀ c, c ∈ components <$> dirs ↔ c ∈ components <$> sort_paths results) as (H1 & H2 & H3).
  { unfold dirs. destruct (sort_paths results) as [|x l]; [|by apply dedup_paths_from_sorted].
    split; [constructor|]. split; [constructor|done]. }
  split; [exact H1|]. split; [exact H2|]. split.
  - intros x Hx%dedup_paths_subseteq. unfold sort_paths in Hx; rewrite (stable_sort_perm path_le) in Hx.
    apply list_elem_of_join in Hx as (l & Hx & (p & -> & Hp)%list_elem_of_fmap).
    apply list_elem_of_filter in Hp as [Hp Hin].
    apply elem_of_expand_pattern in Hx as (? & ? & ? & entries & ? & ?). by eauto 12.
  - intros p entries x Hin Hp Hg Hx Hd He Hj.
    assert (components x ∈ components <$> dirs) as (y & Hy & Hyin)%list_elem_of_fmap; [|by exists y].
    rewrite H3. apply list_elem_of_fmap_2. unfold sort_paths; rewrite (stable_sort_perm path_le).
    apply list_elem_of_join. eexists. split; [|apply list_elem_of_fmap_2, list_elem_of_filter; by split].
    unfold expand_pattern. rewrite Hg. apply list_elem_of_filter. split; [|done]. by rewrite Hd, He, Hj.
Qed.
Lemma load_workspace_package_Some x p :
  load_workspace_package x = Some p →
  p_path p = x ∧ p_name p ≠ "" ∧ p_name p = m_name (package_json p) ∧ p_version p = m_version (package_json p)
  ∧ read_to_string (pjoin x "package.json") ≫= parse_manifest = Some (package_json p).
Proof.
  unfold load_workspace_package. intros (content & Hc & (m & Hm & H)%bind_Some)%bind_Some.
  case_decide as Hn; [done|]. injection H as <-. simpl. by rewrite Hc.
Qed.
(** *** What a directory says *)

(** The patterns of a directory: of its [pnpm-workspace.yaml] if that can be read, or else
    of the workspaces in its [package.json]. *)
Definition pnpm_patterns (dir : string) (ps : list string) : Prop :=
  path_exists (pjoin dir "pnpm-workspace.yaml") = true
  ∧ read_to_string (pjoin dir "pnpm-workspace.yaml") ≫= parse_pnpm = Some ps.
Definition manifest_patterns (dir : string) (ps : list string) : Prop :=
  path_exists (pjoin dir "package.json") = true ∧
  ∃ m ws, read_to_string (pjoin dir "package.json") ≫= parse_manifest = Some m
    ∧ workspaces m = Some ws ∧ ps = patterns ws.
Definition has_patterns (dir : string) (ps : list string) : Prop :=
  pnpm_patterns dir ps ∨ (∀ qs, ¬ pnpm_patterns dir qs) ∧ manifest_patterns dir ps.
(** A directory that the patterns name: it has a [package.json], one of them finds it, and
    no negative one matches it. While there is a negative one that the glob library takes,
    what has [node_modules] in its path is left out as well. *)
Definition named_by (dir : string) (ps : list string) (x : string) : Prop :=
  is_dir x = true ∧ path_exists (pjoin x "package.json") = true
  ∧ (∃ p entries, p ∈ ps ∧ starts_with "!" p = false
       ∧ glob_with (abs_pattern dir p) = Some entries ∧ x ∈ entries)
  ∧ ∀ p matches, p ∈ ps → starts_with "!" p = true →
      glob_pattern (abs_pattern dir (trim_start_matches "!" p)) = Some matches →
      matches x = false ∧ contains "node_modules" x = false.
Lemma not_excluded dir ps x :
  excluded (negations dir ps) x = false ↔
  ∀ p matches, p ∈ ps → starts_with "!" p = true →
    glob_pattern (abs_pattern dir (trim_start_matches "!" p)) = Some matches →
    matches x = false ∧ contains "node_modules" x = false.
Proof.
  unfold excluded, negations. rewrite <- not_true_iff_false, existsb_exists. split.
  - intros H p matches Hin Hp Hm. rewrite <- orb_false_iff, <- not_true_iff_false. intros Hx. apply H.
    exists matches. split; [|done]. apply list_elem_of_In, list_elem_of_omap. exists p. split; [|done].
    by apply list_elem_of_filter.
  - intros H (matches & Hin & Hx). apply list_elem_of_In, list_elem_of_omap in Hin as (p & Hin & Hm).
    apply list_elem_of_filter in Hin as [Hp Hin]. destruct (H p matches Hin Hp Hm) as [H1 H2].
    by rewrite H1, H2 in Hx.
Qed.
Lemma expanded_named root ps :
  let dirs := expand_workspace_globs root ps in
  NoDup (components <$> dirs) ∧ StronglySorted path_le dirs
  ∧ (∀ x, x ∈ dirs → named_by root ps x)
  ∧ (∀ x, named_by root ps x → ∃ y, y ∈ dirs ∧ components y = components x).
Proof.
  intros dirs. destruct (expand_workspace_globs_spec root ps) as (H1 & H2 & H3 & H4). unfold named_by.
  setoid_rewrite <- not_excluded. split_and!; [done..| |].
  - intros x Hx. destruct (H3 x Hx) as (? & ? & ? & ?). by split_and!.
  - intros x (Hd & Hp & (p & es & Hin & Hn & Hg & Hx) & He). by eapply H4.
Qed.
Lemma manifest_None dir (P : list string → Prop) (Q : Prop) :
  (∀ ps, ¬ P ps) → Q →
  match load_package_json dir with Some _ => False | None => True end ↔ ∀ ps, ¬ (P ps ∨ Q ∧ manifest_patterns dir ps).
Proof.
  intros HP HQ. unfold load_package_json, manifest_patterns. destruct (path_exists _) eqn:Ep; cbn.
  2:{ split; [|done]. intros _ ps [?|(_ & ? & _)]; [by eapply HP|done]. }
  destruct (read_to_string _ ≫= parse_manifest) as [m|] eqn:Er.
  - apply bind_Some in Er as (c & -> & Hm). cbn. rewrite Hm. cbn. destruct (workspaces m) as [ws|] eqn:Ew; cbn.
    + split; [done|]. intros H. apply (H (patterns ws)). right. split; [done|]. split; [done|]. by exists m, ws.
    + split; [|done]. intros _ ps [?|(_ & _ & m' & ws & [= <-] & ? & _)]; [by eapply HP|congruence].
  - assert ((content ← read_to_string (pjoin dir "package.json"); manifest ← parse_manifest content;
      ws ← workspaces manifest; Some {| w_root := dir; packages := expand_and_load_packages dir (patterns ws) |}) = None) as ->.
    { destruct (read_to_string _) as [c|]; [|done]. cbn in Er |- *. by rewrite Er. }
    split; [|done]. intros _ ps [?|(_ & _ & m' & ws & ? & _)]; [by eapply HP|done].
Qed.
Lemma workspace_at_None dir : workspace_at dir = None ↔ ∀ ps, ¬ has_patterns dir ps.
Proof.
  unfold workspace_at, has_patterns.
  destruct (if path_exists _ then _ else _) as [r|] eqn:E.
  - split; [done|]. destruct (path_exists _) eqn:Ep; [|done].
    apply bind_Some in E as (c & Hc & (ps & Hps & _)%bind_Some). intros H. destruct (H ps). left.
    split; [done|]. by rewrite Hc.
  - assert (∀ qs, ¬ pnpm_patterns dir qs) as Hno.
    { intros qs [Hp Hq]. rewrite Hp in E. apply bind_Some in Hq as (c & Hc & Hq).
      unfold try_load_pnpm_workspace in E. rewrite Hc in E. simpl in E. by rewrite Hq in E. }
    rewrite <- (manifest_None dir _ _ Hno Hno). by destruct (load_package_json dir).
Qed.
Lemma workspace_at_Some dir w :
  workspace_at dir = Some w →
  w_root w = dir ∧ ∃ ps, has_patterns dir ps ∧ packages w = expand_and_load_packages dir ps.
Proof.
  unfold workspace_at. intros H.
  destruct (if path_exists _ then _ else _) as [r|] eqn:E.
  - injection H as <-. destruct (path_exists _) eqn:Ep; [|done].
    apply bind_Some in E as (c & Hc & (ps & Hps & [= <-])%bind_Some). simpl. split; [done|]. exists ps.
    split; [|done]. left. split; [done|]. by rewrite Hc.
  - assert (∀ qs, ¬ pnpm_patterns dir qs) as Hno.
    { intros qs [Hp Hq]. rewrite Hp in E. apply bind_Some in Hq as (c & Hc & Hq).
      unfold try_load_pnpm_workspace in E. rewrite Hc in E. simpl in E. by rewrite Hq in E. }
    unfold load_package_json in H. destruct (negb (path_exists (pjoin dir "package.json"))) eqn:Ep; [done|].
    apply negb_false_iff in Ep.
    apply bind_Some in H as (c & Hc & (m & Hm & (ws & Hws & [= <-])%bind_Some)%bind_Some). simpl.
    split; [done|]. exists (patterns ws). split; [|done]. right. split; [done|]. split; [done|].
    exists m, ws. by rewrite Hc.
Qed.

Lemma detect_loop_names names fuel :
  Forall safe_name names → length names < fuel →
  detect_loop fuel (abs_path names) =
    first_some (λ k, workspace_at (abs_path (take k names))) (reverse (seq 0 (S (length names)))).
Proof.
  revert fuel. induction names as [|n names IH] using rev_ind; intros [|fuel] Hs Hf; try (simpl in *; lia).
  - cbn. destruct (workspace_at _); [done|]. done.
  - rewrite length_app. simpl length. rewrite Nat.add_1_r, (seq_S (S (length names))), reverse_snoc.
    rewrite length_app in Hf. simpl in Hf. cbn [detect_loop first_some Nat.add].
    rewrite take_ge by (rewrite length_app; simpl; lia).
    destruct (workspace_at (abs_path (names ++ [n]))) as [w|]; [done|].
    rewrite parent_abs_path by done. apply Forall_app in Hs as [Hs _]. rewrite IH by (done || lia).
    assert (∀ l, Forall (λ k, k ≤ length names) l →
      first_some (λ k, workspace_at (abs_path (take k names))) l
      = first_some (λ k, workspace_at (abs_path (take k (names ++ [n])))) l) as Hfs.
    { intros l. induction 1 as [|k l Hk _ IHl]; [done|]. cbn [first_some].
      rewrite take_app_le by done. by rewrite IHl. }
    apply Hfs, Forall_forall. intros k Hk%elem_of_reverse%elem_of_seq. lia.
Qed.
Lemma first_some_range {A} (f : nat → option A) n :
  match first_some f (reverse (seq 0 (S n))) with
  | Some a => ∃ k, k ≤ n ∧ f k = Some a ∧ ∀ j, k < j → j ≤ n → f j = None
  | None => ∀ j, j ≤ n → f j = None
  end.
Proof.
  induction n as [|n IH].
  - cbn. destruct (f 0) as [a|] eqn:E.
    + exists 0. split_and!; [lia|done|lia].
    + intros j Hj. by replace j with 0 by lia.
  - rewrite (seq_S (S n)), reverse_snoc. cbn [Nat.add first_some]. destruct (f (S n)) as [a|] eqn:E.
    + exists (S n). split_and!; [lia|done|lia].
    + destruct (first_some f (reverse (seq 0 (S n)))) as [a|].
      * destruct IH as (k & Hk & Hf & Hlast). exists k. split_and!; [lia|done|].
        intros j Hj Hn. destruct (decide (j = S n)) as [->|]; [done|]. apply Hlast; lia.
      * intros j Hj. destruct (decide (j = S n)) as [->|]; [done|]. apply IH. lia.
Qed.
Lemma loaded_packages dirs :
  NoDup (components <$> dirs) → StronglySorted path_le dirs →
  NoDup (components ∘ p_path <$> omap load_workspace_package dirs)
  ∧ StronglySorted path_le (p_path <$> omap load_workspace_package dirs).
Proof.
  intros H1 H2. split.
  - clear H2. induction dirs as [|x l IH]; [constructor|].
    csimpl. csimpl in H1. apply NoDup_cons in H1 as [Hn H1].
    destruct (load_workspace_package x) as [p|] eqn:E; [|by apply IH]. csimpl. constructor; [|by apply IH].
    apply load_workspace_package_Some in E as (Hx & _). simpl. rewrite Hx. intros (q & Hq & Hin)%list_elem_of_fmap.
    apply list_elem_of_omap in Hin as (y & Hy & (<- & _)%load_workspace_package_Some).
    apply Hn. simpl in Hq. rewrite Hq. by apply list_elem_of_fmap_2.
  - clear H1. induction dirs as [|x l IH]; [constructor|].
    apply StronglySorted_inv in H2 as [H2 Hx]. csimpl.
    destruct (load_workspace_package x) as [p|] eqn:E; [|by apply IH]. csimpl. constructor; [by apply IH|].
    apply load_workspace_package_Some in E as (-> & _). rewrite Forall_forall in Hx. apply Forall_forall.
    intros z (q & -> & Hin)%list_elem_of_fmap.
    apply list_elem_of_omap in Hin as (y & Hy & (-> & _)%load_workspace_package_Some). by apply Hx.
Qed.
Lemma length_abs_path names : Forall safe_name names → length names < S (String.length (abs_path names)).
Proof.
  intros Hs. unfold abs_path. rewrite str_length_app. simpl.
  induction Hs as [|n names Hn _ IH]; [simpl; lia|]. destruct Hn as [Hn _]. destruct n as [|c n]; [done|].
  destruct names; [simpl; lia|]. rewrite join_cons, !str_length_app. simpl in *. lia.
Qed.

(** (C38) The search for a workspace ends: with that of the nearest directory on the way to
    the root of the file system that has patterns, by its [pnpm-workspace.yaml] or else by
    its [package.json], or with none if no directory has. The packages of the workspace, in
    the order of their paths and each directory once, are those of the directories that the
    patterns name, with the manifest that their [package.json] holds, if it has a name: a
    positive pattern finds the directory and no negative one matches it. A path with
    [node_modules] is left out only while there is a negative pattern, although the comment
    of the function lists its exclusion among the patterns and a test expects it. *)
Theorem workspace_spec names :
  Forall safe_name names →
  match detect_workspace_root (abs_path names) with
  | Some w => ∃ k ps, k ≤ length names ∧ w_root w = abs_path (take k names) ∧ has_patterns (w_root w) ps
      ∧ (∀ j qs, k < j → j ≤ length names → ¬ has_patterns (abs_path (take j names)) qs)
      ∧ NoDup (components ∘ p_path <$> packages w) ∧ StronglySorted path_le (p_path <$> packages w)
      ∧ (∀ p, p ∈ packages w →
           named_by (w_root w) ps (p_path p) ∧ p_name p ≠ "" ∧ p_name p = m_name (package_json p)
           ∧ p_version p = m_version (package_json p)
           ∧ read_to_string (pjoin (p_path p) "package.json") ≫= parse_manifest = Some (package_json p))
      ∧ (∀ x, named_by (w_root w) ps x → ∃ y, components y = components x ∧
           ∀ m, read_to_string (pjoin y "package.json") ≫= parse_manifest = Some m → m_name m ≠ "" →
             ∃ p, p ∈ packages w ∧ p_path p = y ∧ package_json p = m)
  | None => ∀ j qs, j ≤ length names → ¬ has_patterns (abs_path (take j names)) qs
  end.
Proof.
  intros Hs.
  assert (detect_workspace_root (abs_path names) = detect_loop (S (String.length (abs_path names))) (abs_path names))
    as -> by done.
  rewrite detect_loop_names by (done || by apply length_abs_path).
  pose proof (first_some_range (λ k, workspace_at (abs_path (take k names))) (length names)) as H.
  destruct (first_some _ _) as [w|].
  2:{ intros j qs Hj. by apply workspace_at_None, H. }
  destruct H as (k & Hk & Hw & Hlast). apply workspace_at_Some in Hw as (Hr & ps & Hps & Hp).
  rewrite Hr, Hp. destruct (expanded_named (abs_path (take k names)) ps) as (H1 & H2 & H3 & H4).
  unfold expand_and_load_packages. destruct (loaded_packages _ H1 H2) as [H5 H6].
  exists k, ps. split; [done|]. split; [done|]. split; [done|].
  split; [intros j qs Hj Hn; by apply workspace_at_None, Hlast|]. split; [done|]. split; [done|]. split.
  - intros p (x & Hx & Hload)%list_elem_of_omap. apply load_workspace_package_Some in Hload as (-> & ? & ? & ? & ?).
    split; [by apply H3|]. by split_and!.
  - intros x (y & Hy & Hc)%H4. exists y. split; [done|]. intros m Hm Hn.
    exists {| p_name := m_name m; p_version := m_version m; p_path := y; package_json := m |}.
    split; [|done]. apply list_elem_of_omap. exists y. split; [done|]. unfold load_workspace_package.
    apply bind_Some in Hm as (c & -> & Hm). simpl. rewrite Hm. simpl. by rewrite decide_False.
Qed.
End spec.

(** ** Dependencies *)

Section deps.
Context {MC : Machine} {ITER : HashIter}.

Lemma package_map_lookup w n : package_map w !! n = last (filter (λ p, p_name p = n) (packages w)).
Proof.
  unfold package_map. induction (packages w) as [|p l IH] using rev_ind; [done|].
  rewrite foldl_snoc, filter_app, filter_cons, filter_nil. case_decide as Hn.
  - subst. by rewrite last_snoc, lookup_insert_eq.
  - by rewrite app_nil_r, lookup_insert_ne.
Qed.
(** The maps of dependencies in the order they are read, each with who has them. *)
Definition sources_of (include_dev : bool) (consumer : string) (m : Manifest) : list (string * gmap string string) :=
  (consumer, m_dependencies m) :: (if include_dev then [(consumer, dev_dependencies m)] else []).
Definition sources (w : WorkspaceRoot) (include_dev : bool) : list (string * gmap string string) :=
  from_option (sources_of include_dev "root") []
    (read_to_string (pjoin (w_root w) "package.json") ≫= parse_manifest)
  ++ mjoin ((λ pkg, sources_of include_dev (p_name pkg) (package_json pkg)) <$> packages w).
Definition entries (s : string * gmap string string) : list (string * string * string) :=
  (λ '(n, spec), (s.1, n, spec)) <$> hash_iter s.2.

Lemma process_deps_entries pm s acc :
  process_deps pm s.1 s.2 acc = foldl (λ acc '(c, n, spec), process_dep pm c n spec acc) acc (entries s).
Proof.
  unfold process_deps, entries. revert acc. induction (hash_iter s.2) as [|[n spec] l IH]; intros acc; [done|].
  csimpl. apply IH.
Qed.
Lemma process_manifest_sources pm dev c m acc :
  process_manifest pm dev c m acc =
    foldl (λ acc '(c, n, spec), process_dep pm c n spec acc) acc (mjoin (entries <$> sources_of dev c m)).
Proof.
  unfold process_manifest, sources_of. destruct dev; csimpl; rewrite ?app_nil_r, ?foldl_app.
  - by rewrite <- (process_deps_entries pm (c, _)), <- (process_deps_entries pm (c, _)).
  - by rewrite <- (process_deps_entries pm (c, _)).
Qed.
Lemma collect_entries w dev :
  collect_external_deps w dev =
    foldl (λ acc '(c, n, spec), process_dep (package_map w) c n spec acc) (∅, [])
      (mjoin (entries <$> sources w dev)).
Proof.
  unfold collect_external_deps, sources. rewrite fmap_app, join_app, foldl_app.
  set (acc := match _ with Some _ => _ | None => _ end).
  assert (acc = foldl (λ acc '(c, n, spec), process_dep (package_map w) c n spec acc) (∅, [])
    (mjoin (entries <$> from_option (sources_of dev "root") []
       (read_to_string (pjoin (w_root w) "package.json") ≫= parse_manifest)))) as <-.
  { unfold acc. destruct (_ ≫= parse_manifest) as [rm|]; [|done]. apply process_manifest_sources. }
  clearbody acc. generalize (package_map w) as pm. intros pm. revert acc. induction (packages w) as [|p l IH]; intros acc; [done|].
  set (f := λ pkg, sources_of dev (p_name pkg) (package_json pkg)) in *.
  assert (mjoin (f <$> p :: l) = f p ++ mjoin (f <$> l)) as -> by done.
  cbn [foldl]. rewrite fmap_app, join_app, foldl_app, IH. by rewrite process_manifest_sources.
Qed.

Definition external_spec (d : string) (e : string * string * string) : option string :=
  let '(_, n, spec) := e in
  if decide (n = d ∧ is_workspace_spec spec = false) then Some spec else None.
Lemma process_entries pm l :
  let '(external, links) :=
    foldl (λ acc '(c, n, spec), process_dep pm c n spec acc) (∅, []) l in
  (∀ d, external !! d = match pm !! d with Some _ => None | None => head (omap (external_spec d) l) end)
  ∧ links = omap (λ '(c, n, _), (λ p, (c, n, p_path p)) <$> pm !! n) l.
Proof.
  induction l as [|[[c n] spec] l IH] using rev_ind.
  { split; [|done]. intros d. rewrite lookup_empty. by destruct (pm !! d). }
  rewrite foldl_snoc. destruct (foldl _ _ l) as [external links]. destruct IH as [IH1 IH2].
  assert (∀ d, head (omap (external_spec d) (l ++ [(c, n, spec)])) =
    match head (omap (external_spec d) l) with Some x => Some x | None => external_spec d (c, n, spec) end) as Hh.
  { intros d. rewrite omap_app. destruct (omap (external_spec d) l); [|done]. simpl. by case_decide. }
  rewrite omap_app, <- IH2. cbn [external_spec] in Hh. unfold process_dep.
  destruct (is_workspace_spec spec) eqn:Ew; destruct (pm !! n) as [p|] eqn:Ep; cbn; rewrite ?Ep; cbn.
  - split; [|done]. intros d. rewrite Hh, IH1. rewrite decide_False by (by intros [_ ?]).
    destruct (pm !! d); [done|]. by destruct (head _).
  - rewrite app_nil_r. split; [|done]. intros d. rewrite Hh, IH1. rewrite decide_False by (by intros [_ ?]).
    destruct (pm !! d); [done|]. by destruct (head _).
  - split; [|done]. intros d. rewrite Hh, IH1. destruct (pm !! d) eqn:Ed; [done|].
    rewrite decide_False by (intros [-> _]; congruence). by destruct (head _).
  - rewrite app_nil_r. split; [|done]. intros d. rewrite Hh. destruct (decide (n = d)) as [->|Hne].
    + rewrite Ep, decide_True by done. destruct (external !! d) eqn:Ed; rewrite IH1, Ep in Ed.
      * by rewrite IH1, Ep, Ed.
      * by rewrite Ed, lookup_insert_eq.
    + rewrite decide_False by tauto.
      assert ((match external !! n with Some _ => external | None => <[n := spec]> external end) !! d
        = external !! d) as ->.
      { destruct (external !! n); [done|]. by rewrite lookup_insert_ne. }
      rewrite IH1. destruct (pm !! d); [done|]. by destruct (head _).
Qed.
Lemma external_entries d s :
  omap (external_spec d) (entries s) =
    option_list (s.2 !! d ≫= λ spec, if is_workspace_spec spec then None else Some spec).
Proof.
  destruct s as [c m]. unfold entries. cbn [fst snd]. rewrite <- (list_to_map_hash_iter m) at 2.
  pose proof (NoDup_hash_iter_keys m) as Hd. induction (hash_iter m) as [|[n spec] l IH]; [done|].
  csimpl. csimpl in Hd. apply NoDup_cons in Hd as [Hn Hd]. specialize (IH Hd). destruct (decide (n = d)) as [->|Hne].
  - rewrite lookup_insert_eq. csimpl.
    assert (omap (external_spec d) ((λ '(n, spec), (c, n, spec)) <$> l) = []) as ->.
    { rewrite IH. by rewrite not_elem_of_list_to_map_1. }
    destruct (is_workspace_spec spec); [by rewrite decide_False by (by intros [_ ?])|by rewrite decide_True].
  - rewrite decide_False by tauto. rewrite lookup_insert_ne by done. exact IH.
Qed.

(** The dependencies of a workspace, in any order of the maps. A name that no package
    has is of the registry, with the first specifier that is none of a workspace in the
    order of the root, the packages, dependencies before development dependencies; the
    links are one for each package and each name it depends on that a package has, to the
    last such package, whatever the specifier says. *)
Theorem collect_external_deps_spec w include_dev :
  let '(external, links) := collect_external_deps w include_dev in
  let named n := filter (λ p, p_name p = n) (packages w) in
  (∀ d, external !! d =
     if decide (named d = []) then
       head (omap (λ s, s.2 !! d ≫= λ spec, if is_workspace_spec spec then None else Some spec)
         (sources w include_dev))
     else None)
  ∧ (∀ c d path, (c, d, path) ∈ links ↔
       ∃ deps p, (c, deps) ∈ sources w include_dev ∧ is_Some (deps !! d)
         ∧ last (named d) = Some p ∧ path = p_path p).
Proof.
  rewrite collect_entries.
  pose proof (process_entries (package_map w) (mjoin (entries <$> sources w include_dev))) as H.
  destruct (foldl _ _ _) as [external links]. destruct H as [H1 ->]. cbv zeta. split.
  - intros d. rewrite H1, package_map_lookup. case_decide as Hd.
    + rewrite Hd. simpl. clear. induction (sources w include_dev) as [|s l IH]; [done|].
      csimpl. rewrite omap_app, external_entries. by destruct (s.2 !! d ≫= _).
    + by destruct (last _) eqn:E; [|apply last_None in E].
  - intros c d path. rewrite list_elem_of_omap. split.
    + intros ([[c' n] spec] & Hin & (p & Hp & [= -> -> ->])%fmap_Some).
      apply list_elem_of_join in Hin as (l & Hin & ([c'' deps] & -> & Hs)%list_elem_of_fmap).
      apply list_elem_of_fmap in Hin as ([n' spec'] & [= -> -> ->] & Hin%elem_of_hash_iter).
      rewrite package_map_lookup in Hp. exists deps, p. split; [done|]. split; [by eexists|done].
    + intros (deps & p & Hs & [spec Hspec] & Hp & ->). exists (c, d, spec). split.
      * apply list_elem_of_join. exists (entries (c, deps)). split; [|by apply list_elem_of_fmap_2].
        unfold entries. apply list_elem_of_fmap. exists (d, spec). split; [done|]. by apply elem_of_hash_iter.
      * by rewrite package_map_lookup, Hp.
Qed.
End deps.

(** ** A monorepo *)

Definition empty_manifest (name : string) (ws : option WorkspacesField) : Manifest :=
  {| m_name := name; m_version := "1.0.0"; m_private := false; m_dependencies := ∅; dev_dependencies := ∅;
     m_peer_dependencies := ∅; optional_dependencies := ∅; workspaces := ws |}.
(** The directories of [/r] that hold a [package.json]; its contents is their path. *)
Definition demo_dirs : list string := ["/r/p/b"; "/r/p/a"; "/r/p/node_modules/x"; "/r/p/a/"].
Definition demo_machine (ps : list string) : Machine := {|
  current_dir := None;
  path_exists p := bool_decide (p ∈ "/r/package.json" :: ((λ d, pjoin d "package.json") <$> demo_dirs));
  is_dir p := bool_decide (p ∈ demo_dirs);
  read_to_string p := Some p;
  parse_manifest c := if decide (c = "/r/package.json") then Some (empty_manifest "" (Some (WorkspacesArray ps)))
                      else Some (empty_manifest c None);
  parse_pnpm c := None;
  glob_with p := if decide (p = "/r/p/**") then Some demo_dirs else None;
  glob_pattern p := Some (λ x, bool_decide (p = x));
|}.
Definition demo : Machine := demo_machine ["p/**"; "!p/b"].
Lemma workspace_spec_witness :
  ∃ w, detect_workspace_root (MC := demo) "/r/p/a" = Some w ∧ p_path <$> packages w = ["/r/p/a"]
    ∧ ∃ ps, has_patterns (MC := demo) (w_root w) ps ∧ named_by (MC := demo) (w_root w) ps "/r/p/a".
Proof.
  assert (Forall safe_name ["r"; "p"; "a"]) as Hs by by repeat constructor.
  pose proof (workspace_spec (MC := demo) ["r"; "p"; "a"] Hs) as H.
  change (abs_path ["r"; "p"; "a"]) with "/r/p/a" in H.
  assert (∃ w, detect_workspace_root (MC := demo) "/r/p/a" = Some w ∧ p_path <$> packages w = ["/r/p/a"])
    as (w & Hw & Hp).
  { exists (default {| w_root := ""; packages := [] |} (detect_workspace_root (MC := demo) "/r/p/a")).
    split; by vm_compute. }
  rewrite Hw in H. destruct H as (k & ps & _ & _ & Hps & _ & _ & _ & H & _).
  exists w. split; [done|]. split; [done|]. exists ps. split; [done|].
  destruct (packages w) as [|p l] eqn:E; [done|]. injection Hp as <- _.
  by destruct (H p (list_elem_of_here _ _)) as (? & _).
Defined.
(** Packages below [node_modules] are left out only if there is a negation, of anything. *)
Example node_modules_included :
  expand_workspace_globs (MC := demo_machine []) "/r" ["p/**"] = ["/r/p/a"; "/r/p/b"; "/r/p/node_modules/x"]
  ∧ expand_workspace_globs (MC := demo_machine []) "/r" ["p/**"; "!z"] = ["/r/p/a"; "/r/p/b"].
Proof. split; by vm_compute. Qed.
(** A reference to a package that the workspace does not have is dropped, and a specifier
    of the registry for a name it has is not looked at. *)
Example dependencies_dropped :
  let p name deps := {| p_name := name; p_version := "1.0.0"; p_path := "/r/" +:+ name;
    package_json := {| m_name := name; m_version := "1.0.0"; m_private := false; m_dependencies := deps;
      dev_dependencies := ∅; m_peer_dependencies := ∅; optional_dependencies := ∅; workspaces := None |} |} in
  collect_external_deps (MC := demo_machine []) (ITER := default_iter)
    {| w_root := "/r"; packages := [p "a" {[ "gone" := "workspace:*" ]}; p "b" {[ "a" := "^9.0.0" ]}] |} true
  = (∅, [("b", "a", "/r/a")]).
Proof. by vm_compute. Qed.
