(* ===== verification/Placement.v ===== *)
(** * oath-resolve: placement plans ([placement.rs])

    The plan npm's Arborist prints, its validation, and the dependency graph made
    from it. Running node, the bundled runtime and serde are outside. *)
From S2P Require Export Graph Paths.

Record PlacementEdge := {
  edge_name : string;
  edge_spec : string;
  dependency_type : string;
  target_location : option string;
  valid : bool;
}.
Record PlacementNode := {
  location : string;
  place_name : string;
  node_name : string;
  node_version : string;
  node_resolved : option string;
  node_integrity : option string;
  node_dev : bool;
  node_optional : bool;
  node_has_install_script : bool;
  reuse_existing : bool;
  link : bool;
  target : option string;
  edges : list PlacementEdge;
}.
Record PlannerIdentity := { planner_name : string; npm : string }.
Record PlacementPlan := {
  schema_version : Z;
  planner : PlannerIdentity;
  project : string;
  plan_nodes : list PlacementNode;
  removed_locations : list string;
  invalid_edges : list PlacementEdge;
}.
Definition PLACEMENT_PLAN_VERSION : Z := 2.

(** ** [to_dep_graph] *)

Definition is_peer (e : PlacementEdge) : bool := starts_with "peer" (dependency_type e).
(** The pairs collected into a map: a later edge of a name replaces an earlier one. *)
Definition collect {A} (l : list (string * A)) : gmap string A :=
  foldl (λ m e, <[e.1 := e.2]> m) ∅ l.
Definition edge_targets (peer : bool) (es : list PlacementEdge) : list (string * string) :=
  omap (λ e, pair (edge_name e) <$> target_location e)
    (filter (λ e, is_peer e = peer) es).

Definition dep_node (n : PlacementNode) : result string DepNode :=
  resolved ← ok_or (node_resolved n) ("Arborist omitted resolved URL for " +:+ location n);
  Ok {| name := node_name n;
        alias := if decide (place_name n = node_name n) then None else Some (place_name n);
        version := node_version n;
        resolved := resolved;
        integrity := node_integrity n;
        dependencies := collect (edge_targets false (edges n));
        has_install_script := node_has_install_script n;
        dev := node_dev n;
        optional := node_optional n;
        peer_dependencies :=
          collect ((λ e, (edge_name e, edge_spec e)) <$> filter (λ e, is_peer e = true) (edges n));
        optional_peers :=
          list_to_set (edge_name <$> filter (λ e, dependency_type e = "peerOptional") (edges n));
        resolved_peers := collect (edge_targets true (edges n)) |}.

Definition is_root_location (loc : string) : bool :=
  match strip_prefix "node_modules/" loc with
  | Some rest => negb (contains "/node_modules/" rest)
  | None => false
  end.

Fixpoint insert_nodes (l : list PlacementNode) (g : DepGraph) : result string DepGraph :=
  match l with
  | [] => Ok g
  | n :: l =>
      if link n then insert_nodes l g
      else
        d ← dep_node n;
        insert_nodes l {| nodes := <[location n := d]> (nodes g); roots := roots g;
                          peer_report := peer_report g |}
  end.
Definition to_dep_graph (self : PlacementPlan) : result string DepGraph :=
  g ← insert_nodes (plan_nodes self) new_graph;
  Ok {| nodes := nodes g;
        roots := location <$> filter (λ n, negb (link n) && is_root_location (location n) = true)
                                (plan_nodes self);
        peer_report := peer_report g |}.

(** ** Validation *)

(** The three checks of a location, in the order of the code. *)
Definition check_location (what loc : string) : result string unit :=
  _ ← ensure (negb (starts_with "/" loc)) ("absolute " +:+ what +:+ " rejected: " +:+ loc);
  _ ← ensure (forallb (λ c, bool_decide (c ≠ ParentDir)) (components loc))
        (what +:+ " traversal rejected: " +:+ loc);
  ensure (starts_with "node_modules/" loc) (what +:+ " outside node_modules rejected: " +:+ loc).
Fixpoint check_locations (what : string) (locs : list string) : result string unit :=
  match locs with
  | [] => Ok tt
  | l :: locs => _ ← check_location what l; check_locations what locs
  end.
Definition validate_locations (plan : PlacementPlan) : result string unit :=
  _ ← check_locations "placement" (location <$> plan_nodes plan);
  check_locations "removal" (removed_locations plan).

(** [PlacementPlan::read], given the plan serde decodes from the file. *)
Definition read (decoded : result string PlacementPlan) : result string PlacementPlan :=
  plan ← decoded;
  _ ← ensure (schema_version plan =? PLACEMENT_PLAN_VERSION)%Z "unsupported placement plan version";
  _ ← validate_locations plan;
  Ok plan.

(** ** The plan of an earlier run *)

Definition fill_in (old n : PlacementNode) : PlacementNode :=
  if decide (node_name old = node_name n ∧ node_version old = node_version n) then {|
    location := location n; place_name := place_name n; node_name := node_name n;
    node_version := node_version n;
    node_resolved := match node_resolved n with Some r => Some r | None => node_resolved old end;
    node_integrity := match node_integrity n with Some i => Some i | None => node_integrity old end;
    node_dev := node_dev n; node_optional := node_optional n;
    node_has_install_script := node_has_install_script n; reuse_existing := reuse_existing n;
    link := link n; target := target n; edges := edges n |}
  else n.
Definition hydrate_node (previous : gmap string PlacementNode) (n : PlacementNode) : PlacementNode :=
  match previous !! location n with Some old => fill_in old n | None => n end.
(** [previous] is the decoded file of the earlier plan. *)
Definition hydrate_from_persisted_plan (previous : result string PlacementPlan)
    (plan : PlacementPlan) : PlacementPlan :=
  match read previous with
  | Err _ => plan
  | Ok p =>
      let by_location := collect ((λ n, (location n, n)) <$> plan_nodes p) in
      {| schema_version := schema_version plan; planner := planner plan; project := project plan;
         plan_nodes := hydrate_node by_location <$> plan_nodes plan;
         removed_locations := removed_locations plan; invalid_edges := invalid_edges plan |}
  end.

(** [plan_with], given what the planner prints (or how it fails). *)
Definition plan_with (output previous : result string PlacementPlan) : result string PlacementPlan :=
  plan ← output;
  _ ← ensure (schema_version plan =? PLACEMENT_PLAN_VERSION)%Z "unsupported placement plan version";
  let plan := hydrate_from_persisted_plan previous plan in
  _ ← validate_locations plan;
  Ok plan.

(** The check of the files npm's packlist names. *)
Definition check_packlist (files : list string) : result string (list string) :=
  _ ← mapM (λ f,
        _ ← ensure (negb (starts_with "/" f)) "absolute npm packlist path rejected";
        ensure (forallb is_normal (components f)) ("unsafe npm packlist path rejected: " +:+ f))
        files;
  Ok files.

(** ** Lemmas *)

(** A location as the checks want it. *)
Definition good_location (loc : string) : Prop :=
  starts_with "node_modules/" loc = true ∧ ParentDir ∉ components loc.

Lemma check_location_Ok what loc : check_location what loc = Ok tt ↔ good_location loc.
Proof.
  unfold check_location, good_location. split.
  - intros ([] & _ & ([] & Hall%ensure_Ok & Hs%ensure_Ok)%bind_Ok)%bind_Ok. split; [done|].
    rewrite forallb_forall in Hall. intros Hin%list_elem_of_In%Hall. done.
  - intros [Hs Hp].
    assert (starts_with "/" loc = false) as -> by (by apply starts_with_true in Hs as [r ->]).
    rewrite (proj2 (forallb_forall _ _)); [by rewrite Hs|].
    intros c Hc%list_elem_of_In. apply bool_decide_eq_true. by intros ->.
Qed.
Lemma check_locations_Ok what locs : check_locations what locs = Ok tt ↔ Forall good_location locs.
Proof.
  induction locs as [|l locs IH]; simpl; [split; [constructor|done]|].
  rewrite bind_Ok, Forall_cons. split.
  - intros ([] & H1%check_location_Ok & H2%IH). done.
  - intros [H1%(check_location_Ok what) H2%IH]. by exists tt.
Qed.
Lemma validate_locations_Ok plan :
  validate_locations plan = Ok tt ↔
  Forall good_location ((location <$> plan_nodes plan) ++ removed_locations plan).
Proof.
  unfold validate_locations. rewrite bind_Ok, Forall_app. split.
  - intros ([] & H1%check_locations_Ok & H2%check_locations_Ok). done.
  - intros [H1%(check_locations_Ok "placement") H2%(check_locations_Ok "removal")]. by exists tt.
Qed.

(** Where a good location leads: below [node_modules], under plain names. *)
Lemma good_location_below loc root :
  good_location loc →
  ∃ ns, Forall safe_name ns ∧ resolve root (components loc) = root ++ "node_modules" :: ns.
Proof.
  intros [[r ->]%starts_with_true Hp].
  change ("node_modules/" +:+ r) with ("node_modules" +:+ String "/" r) in *.
  unfold components in *. rewrite split_char_app in * by done. simpl in *.
  exists (names (mjoin (component_of <$> split_char "/" r))). split.
  - apply Forall_forall. intros n (c & Hc & Hn)%list_elem_of_omap.
    destruct c; try done. injection Hn as ->.
    apply list_elem_of_join in Hc as (l & Hl & (part & -> & Hpart)%list_elem_of_fmap).
    pose proof (split_char_has "/" r) as Hs. rewrite Forall_forall in Hs.
    by apply component_of_safe in Hl as [_ ?]; [|apply Hs].
  - rewrite resolve_below; [by rewrite <- app_assoc|].
    apply Forall_forall. intros c Hc. split.
    + intros ->. apply Hp. set_solver.
    + intros ->. apply list_elem_of_join in Hc as (l & Hl & (part & -> & _)%list_elem_of_fmap).
      unfold component_of in Hl. repeat case_decide; set_solver.
Qed.

(** Nodes without a link, and the graph they give. *)
Lemma insert_nodes_Ok l g g' :
  insert_nodes l g = Ok g' →
  (∀ k d, nodes g' !! k = Some d → nodes g !! k = Some d ∨
     ∃ n, n ∈ l ∧ link n = false ∧ location n = k ∧ dep_node n = Ok d) ∧
  (∀ k, is_Some (nodes g !! k) → is_Some (nodes g' !! k)) ∧
  (∀ n, n ∈ l → link n = false → is_Some (nodes g' !! location n)).
Proof.
  revert g. induction l as [|n l IH]; intros g H; simpl in H.
  { injection H as <-. set_solver. }
  destruct (link n) eqn:El.
  { destruct (IH g H) as (H1 & H2 & H3). split_and!; [|done|].
    { intros k d [?|(m & ? & ?)]%H1; [by left|]. right. exists m. split; [by right|done]. }
    intros m [->|Hm]%elem_of_cons; [congruence|auto]. }
  apply bind_Ok in H as (d & Hd & H). destruct (IH _ H) as (H1 & H2 & H3). simpl in *.
  split_and!.
  - intros k d' Hk. destruct (H1 k d' Hk) as [Hk'|(m & ? & ?)];
      [|right; exists m; split; [by right|done]].
    apply lookup_insert_Some in Hk' as [[<- <-]|[_ ?]]; [|by left].
    right. exists n. split; [left|done].
  - intros k Hk. apply H2, lookup_insert_is_Some'. by right.
  - intros m [->|Hm]%elem_of_cons Hl; [|auto]. apply H2, lookup_insert_is_Some'. by left.
Qed.
Lemma insert_nodes_Err l g e :
  insert_nodes l g = Err e → ∃ n, n ∈ l ∧ link n = false ∧ node_resolved n = None.
Proof.
  revert g. induction l as [|n l IH]; intros g H; simpl in H; [done|].
  destruct (link n) eqn:El; [apply IH in H as (m & ? & ?); exists m; set_solver|].
  apply bind_Err in H as [H|(d & _ & H)].
  - exists n. split; [left|]. split; [done|]. unfold dep_node in H.
    by destruct (node_resolved n).
  - apply IH in H as (m & ? & ?). exists m. split; [by right|done].
Qed.

Lemma collect_lookup {A} (l : list (string * A)) k :
  collect l !! k = snd <$> last (filter (λ e, e.1 = k) l).
Proof.
  unfold collect. induction l as [|[n a] l IH] using rev_ind; [done|].
  rewrite foldl_app, filter_app. cbn [foldl fst snd]. rewrite filter_cons. cbn [fst]. case_decide as Hn.
  - subst n. rewrite lookup_insert_eq, filter_nil, last_snoc. done.
  - by rewrite lookup_insert_ne, IH, filter_nil, app_nil_r.
Qed.
(** What an earlier plan, if it is one that is accepted, has for a node: its last node of
    the same location, when that has the same name and version. *)
Definition donor (previous : result string PlacementPlan) (n : PlacementNode) : option PlacementNode :=
  match read previous with
  | Ok q =>
      old ← last (filter (λ m, location m = location n) (plan_nodes q));
      if decide (node_name old = node_name n ∧ node_version old = node_version n) then Some old else None
  | Err _ => None
  end.
(** What an earlier plan changes in a node: a URL and an integrity that are missing. *)
Definition only_filled (previous : result string PlacementPlan) (n n' : PlacementNode) : Prop :=
  location n' = location n ∧ place_name n' = place_name n ∧ node_name n' = node_name n ∧
  node_version n' = node_version n ∧ node_dev n' = node_dev n ∧ node_optional n' = node_optional n ∧
  node_has_install_script n' = node_has_install_script n ∧ reuse_existing n' = reuse_existing n ∧
  link n' = link n ∧ target n' = target n ∧ edges n' = edges n ∧
  (∀ url, node_resolved n' = Some url ↔
     node_resolved n = Some url
     ∨ node_resolved n = None ∧ ∃ old, donor previous n = Some old ∧ node_resolved old = Some url) ∧
  (∀ i, node_integrity n' = Some i ↔
     node_integrity n = Some i
     ∨ node_integrity n = None ∧ ∃ old, donor previous n = Some old ∧ node_integrity old = Some i).
Lemma filled_by previous n :
  only_filled previous n
    match donor previous n with Some old => fill_in old n | None => n end.
Proof.
  unfold only_filled. destruct (donor previous n) as [old|] eqn:Ed.
  2:{ split_and!; try done; intros x; (split; [by left|by intros [?|(_ & ? & ? & _)]]). }
  assert (node_name old = node_name n ∧ node_version old = node_version n) as Hs.
  { unfold donor in Ed. destruct (read previous) as [q|]; [|done].
    destruct (last _) as [m|]; [|done]. cbn in Ed. case_decide; [|done]. by injection Ed as <-. }
  unfold fill_in. rewrite decide_True by done. cbn.
  split_and!; try done; intros x.
  - destruct (node_resolved n); naive_solver.
  - destruct (node_integrity n); naive_solver.
Qed.
Lemma hydrated_nodes previous plan :
  plan_nodes (hydrate_from_persisted_plan previous plan)
  = (λ n, match donor previous n with Some old => fill_in old n | None => n end) <$> plan_nodes plan.
Proof.
  unfold hydrate_from_persisted_plan, donor. destruct (read previous) as [q|e].
  2:{ symmetry. apply list_fmap_id. }
  cbn [plan_nodes]. apply list_fmap_ext. intros i n _. unfold hydrate_node. rewrite collect_lookup.
  assert (filter (λ e : string * PlacementNode, e.1 = location n) ((λ m, (location m, m)) <$> plan_nodes q)
          = (λ m, (location m, m)) <$> filter (λ m, location m = location n) (plan_nodes q)) as ->.
  { induction (plan_nodes q) as [|m l IH]; [done|]. csimpl. rewrite !filter_cons. cbn [fst].
    case_decide; [|done]. csimpl. by rewrite IH. }
  rewrite fmap_last. destruct (last _) as [old|]; [|done]. cbn.
  destruct (decide (node_name old = node_name n ∧ node_version old = node_version n)); [done|].
  unfold fill_in. by rewrite decide_False.
Qed.

(** (C36) Placement plans. A plan that is accepted has the expected version, and
    every location it places or removes, from whatever directory, leads to that
    directory's [node_modules] or below it, under plain names; exactly the plans whose
    locations start with [node_modules/] and have no [..] pass. An earlier plan, that is
    accepted itself, only fills in a missing URL and a missing integrity, and only those
    that it has for the same location, name and version. The graph made from the plan has
    a package for every location that is not a link, made from a node of that location,
    and the roots are the locations directly in [node_modules]; it fails only when such a
    node has no URL. *)
Theorem placement_plan_spec output previous p :
  plan_with output previous = Ok p →
  (∃ plan, output = Ok plan ∧ schema_version plan = PLACEMENT_PLAN_VERSION ∧
     Forall2 (only_filled previous) (plan_nodes plan) (plan_nodes p) ∧
     removed_locations p = removed_locations plan) ∧
  (∀ loc root, loc ∈ (location <$> plan_nodes p) ++ removed_locations p →
     ∃ ns, Forall safe_name ns ∧ resolve root (components loc) = root ++ "node_modules" :: ns) ∧
  (∀ q, validate_locations q = Ok tt ↔
     Forall good_location ((location <$> plan_nodes q) ++ removed_locations q)) ∧
  match to_dep_graph p with
  | Ok g =>
      (∀ k d, nodes g !! k = Some d →
         ∃ n, n ∈ plan_nodes p ∧ link n = false ∧ location n = k ∧ dep_node n = Ok d) ∧
      (∀ n, n ∈ plan_nodes p → link n = false → is_Some (nodes g !! location n)) ∧
      (∀ k, k ∈ roots g ↔ is_Some (nodes g !! k) ∧ is_root_location k = true)
  | Err _ => ∃ n, n ∈ plan_nodes p ∧ link n = false ∧ node_resolved n = None
  end.
Proof.
  unfold plan_with. intros (plan & -> & H)%bind_Ok.
  apply bind_Ok in H as ([] & Hv%ensure_Ok%Z.eqb_eq & H).
  apply bind_Ok in H as ([] & Hl & [= <-]).
  set (p := hydrate_from_persisted_plan previous plan) in *. split_and!.
  - exists plan. split_and!; [done|done| |].
    + unfold p. rewrite hydrated_nodes. apply Forall2_fmap_r, Forall_Forall2_diag, Forall_true.
      apply filled_by.
    + unfold p, hydrate_from_persisted_plan. by destruct (read previous).
  - intros loc root Hloc. apply good_location_below.
    apply validate_locations_Ok in Hl. rewrite Forall_forall in Hl. by apply Hl.
  - apply validate_locations_Ok.
  - unfold to_dep_graph. destruct (insert_nodes (plan_nodes p) new_graph) as [g|e] eqn:E; simpl.
    + destruct (insert_nodes_Ok _ _ _ E) as (H1 & _ & H3). split_and!; [|done|].
      * intros k d Hk. destruct (H1 k d Hk) as [Hk'|]; [simpl in Hk'; by rewrite lookup_empty in Hk'|done].
      * intros k. rewrite list_elem_of_fmap. setoid_rewrite list_elem_of_filter. split.
        -- intros (n & -> & [Hn Hr]%andb_true_iff & Hin). apply negb_true_iff in Hn. auto.
        -- intros [[d Hd] Hr]. destruct (H1 k d Hd) as [Hk'|(n & Hin & Hlk & <- & _)];
             [simpl in Hk'; by rewrite lookup_empty in Hk'|].
           exists n. rewrite Hlk, Hr. done.
    + by eapply insert_nodes_Err.
Qed.

Definition sample_placement (loc n : string) (es : list PlacementEdge) : PlacementNode := {|
  location := loc; place_name := n; node_name := n; node_version := "1.0.0";
  node_resolved := Some ("https://registry.example/" +:+ n); node_integrity := None;
  node_dev := false; node_optional := false; node_has_install_script := false;
  reuse_existing := false; link := false; target := None; edges := es |}.
Definition sample_plan (locs : list string) : PlacementPlan := {|
  schema_version := 2; planner := {| planner_name := "arborist"; npm := "11" |}; project := ".";
  plan_nodes := (λ l, sample_placement l "a" []) <$> locs; removed_locations := [];
  invalid_edges := [] |}.

Lemma placement_plan_spec_witness :
  (∃ e, plan_with (Ok (sample_plan ["node_modules/a/../../etc"])) (Err "none") = Err e) ∧
  ∃ g, to_dep_graph (sample_plan ["node_modules/a"; "node_modules/b/node_modules/a"]) = Ok g ∧
    roots g = ["node_modules/a"] ∧ is_Some (nodes g !! "node_modules/b/node_modules/a").
Proof.
  split; [eexists; reflexivity|]. eexists. split; [reflexivity|]. split; [reflexivity|].
  refine (proj1 (proj2 (proj2 (proj2 (proj2 (placement_plan_spec
    (Ok (sample_plan ["node_modules/a"; "node_modules/b/node_modules/a"])) (Err "none")
    (sample_plan ["node_modules/a"; "node_modules/b/node_modules/a"]) eq_refl)))))
    (sample_placement "node_modules/b/node_modules/a" "a" []) _ eq_refl).
  right. left.
Defined.
(** [node_modules] itself passes for a location below it. *)
Example node_modules_is_placed :
  validate_locations (sample_plan ["node_modules/."]) = Ok tt
  ∧ resolve ["project"] (components "node_modules/.") = ["project"; "node_modules"].
Proof. by vm_compute. Qed.
