(* ===== verification/Materialize.v ===== *)
(** * oath-store: building [node_modules] ([linker.rs])

    [link_placement_plan_inner] and [link_all] on a disk with symbolic and hard links: the
    recovery of an interrupted run, the tree that is built aside, and its commit. *)
From S2P Require Export Disk.
From S2P Require Export Placement.
From S2P Require Import Linker Store.

(** What goes wrong is the disk's error, or is said with a message (without the path of an
    ancestor or of a link where the code adds it). *)
Inductive LinkError := Os (e : Errno) | Says (message : string).
#[export] Instance LinkError_eq_dec : EqDecision LinkError.
Proof. solve_decision. Defined.
Notation Linking := (Io LinkError).
Definition sys {A} (m : Io Errno A) : Linking A := map_err Os m.
Definition context {A} (message : string) (m : Io Errno A) : Linking A := map_err (λ _, Says message) m.
Definition contextual {A} (message : string) (m : Linking A) : Linking A := map_err (λ _, Says message) m.
Definition demand (b : bool) (message : string) : Linking unit := from (ensure b (Says message)).
Definition need {A} (o : option A) (message : string) : Linking A := from (ok_or o (Says message)).

(** Which names the file system can give a second hard link, and how the plan is written. *)
Class LinkLib := {
  can_link : Path → Path → bool;
  plan_to_vec : PlacementPlan → result string string;
}.

Definition plain_join (path : Path) (names : list string) : Path := path ++ path_of names.

(** [LinkResult] *)
Record LinkResult := { linked : nat; symlinks : nat; nested_links : nat; bins : nat; missing : nat }.
Definition no_links : LinkResult :=
  {| linked := 0; symlinks := 0; nested_links := 0; bins := 0; missing := 0 |}.
Definition one_linked (r : LinkResult) : LinkResult :=
  {| linked := S (linked r); symlinks := symlinks r; nested_links := nested_links r; bins := bins r; missing := missing r |}.
Definition one_symlink (r : LinkResult) : LinkResult :=
  {| linked := linked r; symlinks := S (symlinks r); nested_links := nested_links r; bins := bins r; missing := missing r |}.
Definition one_nested (r : LinkResult) : LinkResult :=
  {| linked := linked r; symlinks := symlinks r; nested_links := S (nested_links r); bins := bins r; missing := missing r |}.
Definition one_bin (r : LinkResult) : LinkResult :=
  {| linked := linked r; symlinks := symlinks r; nested_links := nested_links r; bins := S (bins r); missing := missing r |}.
Definition one_missing (r : LinkResult) : LinkResult :=
  {| linked := linked r; symlinks := symlinks r; nested_links := nested_links r; bins := bins r; missing := S (missing r) |}.

(** ** The transaction on the disk *)

Definition settle_backup (live backup : Path) : Linking unit :=
  had_backup ← asks (exists_ backup);
  had_live ← asks (exists_ live);
  if had_backup : bool then
    if had_live : bool then
      context "failed to remove committed node_modules backup" (remove_dir_all backup)
    else context "failed to restore interrupted node_modules transaction" (rename backup live)
  else mret tt.
Definition recover_link_transaction (live stage backup : Path) : Linking unit :=
  _ ← settle_backup live backup;
  had_stage ← asks (exists_ stage);
  if had_stage : bool then
    context "failed to clean interrupted node_modules stage" (remove_dir_all stage)
  else mret tt.

(** [remove_existing_path] *)
Definition remove_existing_path (path : Path) : Io Errno unit :=
  r ← attempt (asks (look false path) ≫= from);
  match r with
  | Err NotFound => mret tt
  | Err e => throw e
  | Ok (_, Folder) => remove_dir_all path
  | Ok _ => remove_file path
  end.

(** The end of both: the old tree aside, the new one in, the old one removed. [strict]
    tells [link_placement_plan_inner], for which a backup that stays is an error, from
    [link_all], which warns. *)
Definition commit_tree (strict : bool) (aside promote cleanup : string) (live stage backup : Path) :
    Linking unit :=
  had_live ← asks (exists_ live);
  _ ← (if had_live : bool then context aside (rename live backup) else mret tt);
  r ← attempt (rename stage live);
  match r with
  | Err _ =>
      saved ← asks (exists_ backup);
      gone ← asks (λ d, negb (exists_ live d));
      _ ← (if (saved : bool) && (gone : bool) then
             _ ← attempt (E := Errno) (rename backup live); mret tt
           else mret tt);
      throw (Says promote)
  | Ok _ =>
      saved ← asks (exists_ backup);
      if saved : bool then
        if strict then context cleanup (remove_dir_all backup)
        else _ ← attempt (E := Errno) (remove_dir_all backup); mret tt
      else mret tt
  end.

(** ** Contents *)

Section materialize.
Context `{!HashIter, !LinkLib, !StoreLib}.

(** [hardlink_dir]; entries come in any order. The fuel bounds the depth of the source. *)
Fixpoint hardlink_dir_at (fuel : nat) (src dst : Path) : Io Errno unit :=
  match fuel with
  | 0 => throw NameTooLong
  | S fuel =>
      _ ← create_dir_all dst;
      '(p, o) ← asks (look true src) ≫= from;
      _ ← from (ensure (bool_decide (o = Folder)) NotADirectory);
      es ← asks (λ d, children p (objs d));
      for_each (λ '(n, o),
        let src_path := src ++ [Normal n] in
        let dst_path := dst ++ [Normal n] in
        match o with
        | Folder => hardlink_dir_at fuel src_path dst_path
        | Regular _ =>
            r ← attempt (E := Errno) (hard_link (can_link src_path dst_path) src_path dst_path);
            match r with Ok _ => mret tt | Err _ => copy src_path dst_path end
        | Link _ => mret tt
        end) (hash_iter es)
  end.
(** No entry is deeper than the longest name on the disk. *)
Definition deepest (m : Objects) : nat := max_list (length <$> (map_to_list m).*1).
Definition hardlink_dir (src dst : Path) : Io Errno unit :=
  fuel ← asks (λ d, S (deepest (objs d)));
  hardlink_dir_at fuel src dst.

(** [read_bin_entries], with its file. *)
Definition bin_entries (pkg_json_path : Path) (install_name : string) : Linking (list (string * list string)) :=
  r ← attempt (Disk.read_file pkg_json_path);
  match r with
  | Err _ => mret []
  | Ok content => mret (read_bin_entries (parse_json content) install_name)
  end.

(** [validated_workspace_target]: the canonical target, or the path as it is when it does
    not exist but the nearest ancestor that does is in the project. *)
Fixpoint existing_ancestor (project : list string) (display : string) (up : Path) : Linking unit :=
  match up with
  | [] | [RootDir] => throw (Says "workspace link has no existing project ancestor")
  | _ :: up =>
      r ← asks (canonicalize (reverse up));
      match r with
      | Ok canonical =>
          demand (bool_decide (project `prefix_of` canonical)) ("workspace link escapes project: " +:+ display)
      | Err NotFound => existing_ancestor project display up
      | Err _ => throw (Says "resolve workspace link ancestor")
      end
  end.
Definition validated_workspace_target (project_dir : Path) (target : string) : Linking Path :=
  project ← context "resolve workspace project root" (asks (canonicalize project_dir) ≫= from);
  let candidate :=
    if starts_with "/" target then components target else project_dir ++ components target in
  r ← asks (canonicalize candidate);
  match r with
  | Ok canonical =>
      _ ← demand (bool_decide (project `prefix_of` canonical)) ("workspace link escapes project: " +:+ target);
      mret (RootDir :: path_of canonical)
  | Err NotFound =>
      _ ← existing_ancestor project target (reverse candidate);
      mret candidate
  | Err _ => throw (Says ("resolve workspace link target " +:+ target))
  end.

(** ** [link_placement_plan_inner] *)

(** [Path::strip_prefix("node_modules")] *)
Definition below_node_modules (location : string) : option Path :=
  match components location with
  | Normal first :: rest => if decide (first = "node_modules") then Some rest else None
  | _ => None
  end.
Definition is_reserved (c : Component) : bool :=
  match c with ParentDir | RootDir => true | _ => false end.

(** Links to the executables of a package, where there is none of the name yet. *)
Definition link_bin (destination : Path) (bin_dir : Path) (result : LinkResult)
    (bin : string * list string) : Linking LinkResult :=
  let '(bin_name, bin_path) := bin in
  let target := plain_join destination bin_path in
  found ← asks (exists_ target);
  if negb (found : bool) then mret result
  else
    _ ← sys (create_dir_all bin_dir);
    let link := bin_dir ++ [Normal bin_name] in
    there ← asks (exists_ link);
    if there : bool then mret result
    else _ ← sys (symlink (pathdiff_relative link target) link); mret (one_bin result).

Section placement.
Context (root : list string) (project_dir : list string) (preserve_existing : bool).

Definition live_path : list string := project_dir ++ ["node_modules"].
Definition stage_path : list string := project_dir ++ [".oath-node_modules-stage"].
Definition backup_path : list string := project_dir ++ [".oath-node_modules-backup"].

Definition remove_placement (location : string) : Linking unit :=
  relative ← need (below_node_modules location) ("invalid removal location " +:+ location);
  context ("remove stale placement " +:+ location) (remove_existing_path (path_of stage_path ++ relative)).

(** [create_dir_all] of the parent of a destination, if it has one *)
Definition create_parent (destination : Path) : Linking unit :=
  match parent destination with Some p => sys (create_dir_all p) | None => mret tt end.
(** The directory of a placement in the verified store. *)
Definition store_source (node : PlacementNode) : list string :=
  root ++ package_dir_for (node_name node) (node_version node) (node_resolved node) (node_integrity node).

Definition place_link (node : PlacementNode) (destination : Path) : Linking unit :=
  _ ← context ("replace existing workspace link " +:+ location node) (remove_existing_path destination);
  target ← need (target node) "Arborist link node has no target";
  target ← validated_workspace_target (path_of project_dir) target;
  _ ← create_parent destination;
  sys (symlink target destination).
Definition place_contents (node : PlacementNode) (relative destination : Path) : Linking unit :=
  if preserve_existing && reuse_existing node then
    let existing := path_of live_path ++ relative in
    there ← asks (is_dir existing);
    _ ← demand there ("Arborist marked missing placement unchanged: " +:+ location node);
    _ ← context ("restore unchanged placement " +:+ location node) (remove_existing_path destination);
    _ ← create_parent destination;
    sys (hardlink_dir existing destination)
  else
    _ ← context ("replace changed placement " +:+ location node) (remove_existing_path destination);
    let source := path_of (store_source node) in
    there ← asks (exists_ source);
    _ ← demand there ("planned package missing from verified store: "
                        +:+ node_name node +:+ "@" +:+ node_version node);
    _ ← create_parent destination;
    sys (hardlink_dir source destination).

Definition place_node (result : LinkResult) (node : PlacementNode) : Linking LinkResult :=
  relative ← need (below_node_modules (location node)) ("invalid placement location " +:+ location node);
  _ ← demand (bool_decide (relative ≠ []) && negb (existsb is_reserved relative))
        ("unsafe placement location " +:+ location node);
  let destination := path_of stage_path ++ relative in
  if link node then
    _ ← place_link node destination;
    mret (one_symlink result)
  else
    _ ← place_contents node relative destination;
    let result := one_linked result in
    bins ← bin_entries (destination ++ [Normal "package.json"]) (place_name node);
    node_modules ← need (parent destination) "placement has no node_modules parent";
    for_fold (link_bin destination (node_modules ++ [Normal ".bin"])) result bins.

Definition build_placement (plan : PlacementPlan) : Linking LinkResult :=
  live ← asks (exists_ (path_of live_path));
  _ ← (if preserve_existing && (live : bool) then
         sys (hardlink_dir (path_of live_path) (path_of stage_path))
       else mret tt);
  _ ← sys (create_dir_all (path_of (stage_path ++ [".oath"])));
  _ ← for_each remove_placement (removed_locations plan);
  result ← for_fold place_node no_links (plan_nodes plan);
  bytes ← from (match plan_to_vec plan with Ok b => Ok b | Err e => Err (Says e) end);
  _ ← sys (Disk.write (path_of (stage_path ++ [".oath"; "placement-plan.json"])) bytes);
  mret result.

Definition link_placement_plan_inner (plan : PlacementPlan) : Linking LinkResult :=
  let live := path_of live_path in
  let stage := path_of stage_path in
  let backup := path_of backup_path in
  _ ← recover_link_transaction live stage backup;
  result ← build_placement plan;
  _ ← commit_tree true "failed to stage existing node_modules" "failed to promote Arborist placement"
        "failed to remove node_modules backup" live stage backup;
  mret result.
End placement.

Definition link_placement_plan (root : list string) (plan : PlacementPlan) (project_dir : list string) :=
  link_placement_plan_inner root project_dir true plan.
Definition link_placement_plan_clean (root : list string) (plan : PlacementPlan) (project_dir : list string) :=
  link_placement_plan_inner root project_dir false plan.
End materialize.

(** ** Copies of trees *)

(** A copy of an entry: links are left out, files are the same or new ones with the same
    contents. *)
Definition clone (I : gmap nat Inode) (o : option Obj) (I' : gmap nat Inode) (o' : option Obj) : Prop :=
  match o with
  | Some Folder => o' = Some Folder
  | Some (Regular i) => ∃ j, o' = Some (Regular j) ∧ (j = i ∨ I !! j = None) ∧ I' !! j = I !! i
  | _ => o' = None
  end.
(** A new file has one name. *)
Definition once (d d' : Disk) : Prop := ∀ p p' j,
  objs d' !! p = Some (Regular j) → objs d' !! p' = Some (Regular j) → inodes d !! j = None → p = p'.
Record copied (src dst : list string) (d d' : Disk) : Prop := {
  copied_wf : dwf d';
  copied_frame p : ¬ dst `prefix_of` p → objs d' !! p = objs d !! p;
  copied_inodes : inodes d ⊆ inodes d';
  copied_clone r : clone (inodes d) (objs d !! (src ++ r)) (inodes d') (objs d' !! (dst ++ r));
  copied_once : once d d';
}.

Lemma clone_inodes d p I' J' o' : dwf d → I' ⊆ J' → clone (inodes d) (objs d !! p) I' o' → clone (inodes d) (objs d !! p) J' o'.
Proof.
  intros Hd HJ. destruct (objs d !! p) as [[|i|]|] eqn:Hp; simpl; try done. intros (j & -> & Hji & Hj).
  exists j. split_and!; [done..|]. apply (dwf_ino _ Hd) in Hp as [n Hn].
  rewrite Hn in Hj |- *. by eapply lookup_weaken.
Qed.
Lemma clone_source I J o I' o' : J ⊆ I → (∀ i, o = Some (Regular i) → is_Some (J !! i)) →
  clone I o I' o' → clone J o I' o'.
Proof.
  intros HJI HJ. destruct o as [[|i|]|]; simpl; try done. intros (j & -> & Hji & Hj).
  destruct (HJ i eq_refl) as [c Hc]. exists j. split_and!; [done| |].
  - destruct Hji as [|Hn]; [by left|right]. by eapply lookup_weaken_None.
  - by rewrite Hj, Hc, (lookup_weaken _ _ _ _ Hc HJI).
Qed.
Lemma once_refl d : dwf d → once d d.
Proof. intros Hd p p' j Hp _ Hj. apply (dwf_ino _ Hd) in Hp as [c Hc]. by rewrite Hc in Hj. Qed.
Lemma once_trans d d1 d2 :
  once d d1 → once d1 d2 → (∀ p j, objs d2 !! p = Some (Regular j) →
    objs d1 !! p = Some (Regular j) ∨ is_Some (inodes d !! j) ∨ inodes d1 !! j = None) → once d d2.
Proof.
  intros H1 H2 Hd2 p p' j Hp Hp' Hj. destruct (inodes d1 !! j) eqn:Hj1; [|by eapply H2].
  pose proof (Hd2 _ _ Hp) as Hq. pose proof (Hd2 _ _ Hp') as Hq'. rewrite Hj, Hj1 in Hq, Hq'.
  destruct Hq as [Hq|[[]|]], Hq' as [Hq'|[[]|]]; try done. by eapply H1.
Qed.

Section hardlink.
Context `{!HashIter, !LinkLib}.

Definition link_entry fuel (src dst : Path) (e : string * Obj) : Io Errno unit :=
  let src_path := src ++ [Normal e.1] in
  let dst_path := dst ++ [Normal e.1] in
  match e.2 with
  | Folder => hardlink_dir_at fuel src_path dst_path
  | Regular _ =>
      r ← attempt (E := Errno) (hard_link (can_link src_path dst_path) src_path dst_path);
      match r with Ok _ => mret tt | Err _ => copy src_path dst_path end
  | Link _ => mret tt
  end.

Lemma path_of_app p q : path_of (p ++ q) = path_of p ++ path_of q.
Proof. apply fmap_app. Qed.
Lemma path_of_last p n : path_of p ++ [Normal n] = path_of (p ++ [n]).
Proof. unfold path_of. by rewrite fmap_app. Qed.

(** The statement of [hardlink_dir_at_ok], at one fuel. *)
Definition links_all (fuel : nat) : Prop := ∀ S D d,
  dwf d → objs d !! S = Some Folder → vacant d D → ¬ S `prefix_of` D →
  (∀ r, is_Some (objs d !! (S ++ r)) → length r < fuel) →
  ∃ d', hardlink_dir_at fuel (path_of S) (path_of D) d = (d', Ok tt) ∧ copied S D d d'.

Lemma below_ne (S D : list string) n : ¬ S `prefix_of` D → ¬ S ++ [n] `prefix_of` D ++ [n].
Proof.
  intros Hn Hp. apply prefix_snoc in Hp as [He|Hp].
  - apply app_inj_tail in He as [-> _]. done.
  - apply Hn. etrans; [|done]. by apply prefix_app_r.
Qed.

Lemma link_entry_ok fuel S D n o d :
  links_all fuel →
  dwf d → objs d !! D = Some Folder → objs d !! (S ++ [n]) = Some o → objs d !! (D ++ [n]) = None →
  ¬ S `prefix_of` D → (∀ r, is_Some (objs d !! (S ++ n :: r)) → length r < fuel) →
  ∃ d', link_entry fuel (path_of S) (path_of D) (n, o) d = (d', Ok tt) ∧ copied (S ++ [n]) (D ++ [n]) d d'.
Proof.
  intros IH Hd HD Ho Hn HSD Hfuel. unfold link_entry. cbn [fst snd]. rewrite !path_of_last.
  assert (vacant d (D ++ [n])) as Hv by (split; eauto).
  assert (∀ r, objs d !! ((D ++ [n]) ++ r) = None) as Hbelow by (intros; by apply vacant_below).
  assert (∀ r, o ≠ Folder → r ≠ [] → objs d !! ((S ++ [n]) ++ r) = None) as Hleaf.
  { intros r Hf Hr. apply (dwf_below d (S ++ [n])); [done|congruence|by eexists|].
    intros He. apply Hr, (app_inv_head (S ++ [n])). by rewrite app_nil_r. }
  destruct o as [|i|t].
  - apply IH; try done; [by apply below_ne|]. intros r. rewrite <- (assoc_L app). apply Hfuel.
  - destruct (dwf_ino _ Hd _ _ Ho) as [c Hc]. unfold mbind, Io_bind, attempt. rewrite (hard_link_ok _ _ _ i) by done.
    assert (∀ j I', I' !! j = Some c → j = i ∨ inodes d !! j = None → inodes d ⊆ I' →
      let d' := {| objs := <[D ++ [n] := Regular j]> (objs d); inodes := I' |} in
      copied (S ++ [n]) (D ++ [n]) d d') as Hcopied.
    { intros j I' Hj Hji HI d'. split; [| | done| |].
      - apply (dwf_put {| objs := objs d; inodes := I' |}); [|done|by intros k [= <-]; simpl; rewrite Hj; eauto].
        split; simpl; [apply Hd|apply Hd|]. intros p k Hk. apply Hd in Hk as [m Hk].
        exists m. by eapply lookup_weaken.
      - intros p Hp. simpl. rewrite lookup_insert_ne; [done|]. intros He. by destruct Hp; rewrite He.
      - intros r. simpl. destruct (decide (r = [])) as [->|Hr].
        + rewrite !app_nil_r, lookup_insert_eq, Ho. simpl. exists j. by rewrite Hj, Hc.
        + rewrite Hleaf, lookup_insert_ne by (done || intros He; apply Hr, (app_inv_head (D ++ [n])); by rewrite app_nil_r).
          apply Hbelow.
      - intros p p' k. simpl. rewrite !lookup_insert_Some. intros [[<- _]|[_ Hp]] [[<- _]|[_ Hp']] Hk; try done.
        + apply (dwf_ino _ Hd) in Hp' as [? Hp']. by rewrite Hp' in Hk.
        + apply (dwf_ino _ Hd) in Hp as [? Hp]. by rewrite Hp in Hk.
        + apply (dwf_ino _ Hd) in Hp as [? Hp]. by rewrite Hp in Hk. }
    destruct (can_link _ _).
    + eexists. split; [done|]. by apply (Hcopied i (inodes d)); [|left|].
    + erewrite copy_ok by done. eexists. split; [done|]. apply Hcopied; [by rewrite lookup_insert_eq|right; apply new_ino_fresh|].
      apply insert_subseteq, new_ino_fresh.
  - exists d. split; [done|]. split; [done|done|done| |by apply once_refl]. intros r. rewrite Hbelow.
    destruct (decide (r = [])) as [->|Hr]; [rewrite app_nil_r, Ho|rewrite Hleaf by done]; done.
Qed.

Lemma for_each_ext {E A} (f g : A → Io E unit) l : (∀ x, f x = g x) → for_each f l = for_each g l.
Proof. intros Hfg. induction l as [|x l IH]; simpl; [done|]. by rewrite Hfg, IH. Qed.

(** The copy of some entries of a directory, one after the other. *)
Lemma link_entries_ok fuel S D l d :
  links_all fuel →
  dwf d → objs d !! D = Some Folder → ¬ S `prefix_of` D → ¬ D `prefix_of` S → NoDup l.*1 →
  (∀ n o, (n, o) ∈ l → objs d !! (S ++ [n]) = Some o ∧ objs d !! (D ++ [n]) = None) →
  (∀ n r, is_Some (objs d !! (S ++ n :: r)) → length r < fuel) →
  ∃ d', for_each (link_entry fuel (path_of S) (path_of D)) l d = (d', Ok tt) ∧
    dwf d' ∧ inodes d ⊆ inodes d' ∧
    (∀ p, (∀ n, n ∈ l.*1 → ¬ D ++ [n] `prefix_of` p) → objs d' !! p = objs d !! p) ∧
    (∀ n r, n ∈ l.*1 → clone (inodes d) (objs d !! (S ++ n :: r)) (inodes d') (objs d' !! (D ++ n :: r))) ∧
    once d d'.
Proof.
  intros IH Hd HD HSD HDS Hnd Hl Hfuel. revert d Hd HD Hl Hfuel.
  induction l as [|[n o] l IHl]; intros d Hd HD Hl Hfuel.
  { exists d. split_and!; [done..| |by apply once_refl]. by intros n r ?%elem_of_nil. }
  apply NoDup_cons in Hnd as [Hn Hnd]. simpl in Hn.
  destruct (Hl n o) as [Ho HDn]; [left|].
  destruct (link_entry_ok fuel S D n o d) as (d1 & Hrun & [Hd1 Hf1 Hi1 Hc1 Ho1]); try done.
  { intros r. apply Hfuel. }
  assert (∀ x r, x ≠ n → ¬ D ++ [n] `prefix_of` D ++ x :: r) as Hother.
  { intros x r Hx Hp%prefix_app_inv. by apply prefix_cons_inv_1 in Hp. }
  assert (∀ r, ¬ D ++ [n] `prefix_of` S ++ r) as Hsource.
  { intros r Hp. destruct (prefix_weak_total D S (S ++ r)) as [|]; [|by eexists|done..].
    etrans; [|done]. by eexists. }
  destruct (IHl Hnd d1 Hd1) as (d2 & Hrun2 & Hd2 & Hi2 & Hf2 & Hc2 & Ho2).
  { rewrite Hf1; [done|]. intros Hp%prefix_length. rewrite length_app in Hp. simpl in Hp. lia. }
  { intros x o' Hx. rewrite !Hf1.
    - apply Hl. by right.
    - apply Hother. intros ->. apply Hn. apply list_elem_of_fmap. by exists (n, o').
    - apply Hsource. }
  { intros x r. rewrite Hf1 by apply Hsource. apply Hfuel. }
  exists d2. split; [|split; [done|split]].
  - simpl. unfold mbind, Io_bind. by rewrite Hrun.
  - by trans (inodes d1).
  - split_and!.
    + intros p Hp. rewrite Hf2, Hf1; [done|apply Hp; by left|]. intros x Hx. apply Hp. by right.
    + intros x r [->|Hx]%elem_of_cons.
      * rewrite Hf2.
        -- apply (clone_inodes _ _ (inodes d1)); [done|done|]. specialize (Hc1 r). by rewrite <- !(assoc_L app) in Hc1.
        -- intros y Hy Hp%prefix_app_inv. apply prefix_cons_inv_1 in Hp as ->. done.
      * specialize (Hc2 x r Hx). rewrite Hf1 in Hc2 by apply Hsource.
        eapply clone_source; [exact Hi1| |done]. intros i Hi. by apply (dwf_ino _ Hd) in Hi.
    + eapply once_trans; [done|done|]. intros p j Hp.
      destruct (decide (Exists (λ x, D ++ [x] `prefix_of` p) l.*1)) as [Hx|Hx].
      * right. apply Exists_exists in Hx as (x & Hx & r & ->). rewrite <- (assoc_L app) in Hp.
        specialize (Hc2 x r Hx). change ([x] ++ r) with (x :: r) in Hp. rewrite Hp, Hf1 in Hc2 by apply Hsource.
        destruct (objs d !! (S ++ x :: r)) as [[|i|]|] eqn:Hi; simpl in Hc2; try done.
        destruct Hc2 as (k & [= <-] & [->|Hk] & _); [left|by right]. by apply (dwf_ino _ Hd) in Hi.
      * left. rewrite <- Hf2; [done|]. intros x Hxl Hxp. apply Hx, Exists_exists. eauto.
Qed.

Lemma hardlink_dir_at_ok fuel : links_all fuel.
Proof.
  induction fuel as [|fuel IH]; intros S D d Hd HS Hv HSD Hfuel.
  { exfalso. assert (length (@nil string) < 0); [apply Hfuel; rewrite app_nil_r; eauto|simpl in *; lia]. }
  simpl. set (d1 := set_objs <[D := Folder]> d).
  assert (∀ r, objs d !! (D ++ r) = None) as Hbelow by (intros; apply vacant_below, Hv; done).
  assert (¬ D `prefix_of` S) as HDS by (intros [k ->]; by rewrite Hbelow in HS).
  assert (∀ p, p ≠ D → objs d1 !! p = objs d !! p) as Hd1p by (intros; apply lookup_insert_ne; auto).
  assert (∀ r, objs d1 !! (S ++ r) = objs d !! (S ++ r)) as Hsource.
  { intros r. apply Hd1p. intros He. apply HSD. by exists r. }
  assert (dwf d1) as Hd1 by (by apply dwf_put).
  assert (objs d1 !! S = Some Folder) as HS1 by (rewrite Hd1p; [done|]; by intros <-).
  unfold mbind, Io_bind, asks, from. rewrite (create_dir_all_vacant d D) by done. fold d1.
  rewrite (look_there _ _ _ _ Hd1 HS1) by auto with disk. simpl.
  rewrite (for_each_ext _ (link_entry fuel (path_of S) (path_of D))); [|by intros [n [| |]]].
  destruct (link_entries_ok fuel S D (hash_iter (children S (objs d1))) d1) as (d2 & Hrun2 & Hd2 & Hi2 & Hf2 & Hc2 & Ho2); try done.
  - simpl. by rewrite lookup_insert_eq.
  - apply NoDup_hash_iter_keys.
  - intros n o Ho%elem_of_hash_iter. rewrite children_lookup in Ho. split; [done|].
    rewrite Hd1p by (intros He; apply (f_equal length) in He; rewrite length_app in He; simpl in He; lia); apply Hbelow.
  - intros n r. rewrite Hsource. intros Hr%Hfuel. simpl in Hr. lia.
  - exists d2. split; [exact Hrun2|]. split; [done| | | |].
    + intros p Hp. rewrite Hf2.
      * apply Hd1p. by intros ->.
      * intros n _ Hn. apply Hp. etrans; [|done]. by eexists.
    + done.
    + intros [|n r].
      * rewrite !app_nil_r, HS. simpl. rewrite Hf2; [simpl; by rewrite lookup_insert_eq|].
        intros n _ Hp%prefix_length. rewrite length_app in Hp. simpl in Hp. lia.
      * destruct (decide (n ∈ (hash_iter (children S (objs d1))).*1)) as [Hn|Hn].
        -- specialize (Hc2 n r Hn). by rewrite Hsource in Hc2.
        -- rewrite Hf2, Hd1p, Hbelow.
           ++ assert (objs d !! (S ++ n :: r) = None) as ->; [|done].
              rewrite <- Hsource, app_cons_l. apply vacant_below; [done|]. rewrite <- children_lookup.
              apply eq_None_not_Some. intros [o Ho]. apply Hn, list_elem_of_fmap. exists (n, o).
              by rewrite elem_of_hash_iter.
           ++ intros He. apply (f_equal length) in He. rewrite length_app in He. simpl in He. lia.
           ++ intros x Hx Hp%prefix_app_inv. by apply prefix_cons_inv_1 in Hp as ->.
    + intros p p' j Hp Hp'. by apply Ho2.
Qed.

Lemma deepest_length m p : is_Some (m !! p) → length p ≤ deepest m.
Proof.
  intros [o Hp]. apply max_list_elem_of_le, list_elem_of_fmap. exists p. split; [done|].
  apply list_elem_of_fmap. exists (p, o). by rewrite elem_of_map_to_list.
Qed.
Lemma hardlink_dir_ok S D d :
  dwf d → objs d !! S = Some Folder → vacant d D → ¬ S `prefix_of` D →
  ∃ d', hardlink_dir (path_of S) (path_of D) d = (d', Ok tt) ∧ copied S D d d'.
Proof.
  intros. apply hardlink_dir_at_ok; try done. intros r Hr%deepest_length. rewrite length_app in Hr. lia.
Qed.
Lemma wp_hardlink_dir S D d (Q : result Errno unit → Disk → Prop) :
  dwf d → unlinked (objs d) S → vacant d D → ¬ S `prefix_of` D → ¬ D `prefix_of` S →
  (∀ d', objs d !! S = Some Folder → copied S D d d' → Q (Ok tt) d') →
  (∀ e, Q (Err e) (set_objs <[D := Folder]> d)) →
  wp (hardlink_dir (path_of S) (path_of D)) Q d.
Proof.
  intros Hd Hu Hv HSD HDS HQ He. destruct (decide (objs d !! S = Some Folder)) as [HS|HS].
  { destruct (hardlink_dir_ok S D d) as (d' & Hrun & Hc); try done. unfold wp. rewrite Hrun. by apply HQ. }
  unfold hardlink_dir. apply wp_io_bind, wp_asks. simpl. apply wp_io_bind.
  unfold wp at 1. rewrite create_dir_all_vacant by done. simpl.
  apply wp_io_bind, wp_io_bind, wp_asks, wp_from.
  destruct (look true (path_of S) _) as [[q o]|e] eqn:Hl; [|apply He].
  assert (∀ q, q `prefix_of` S → <[D:=Folder]> (objs d) !! q = objs d !! q) as Hsame.
  { intros x Hx. rewrite lookup_insert_ne; [done|]. by intros <-. }
  apply look_plain in Hl as [-> Hl].
  - simpl in Hl. rewrite Hsame in Hl by done. apply wp_io_bind, wp_from.
    rewrite bool_decide_false by congruence. apply He.
  - simpl. rewrite Hsame by apply prefix_nil. apply Hd.
  - intros x t Hx _. simpl. rewrite Hsame by done. by apply Hu.
  - right. intros t. simpl. rewrite Hsame by done. by apply Hu.
Qed.
End hardlink.
