(* ===== verification/Installed.v ===== *)
(** * What [node_modules] is after [link_placement_plan]

    The frame of a run, the contents of the tree it leaves, and where each file and each link
    of it comes from. *)
From S2P Require Export Materialize.
From S2P Require Import Linker Store.

(** ** The three directories *)

Section transaction.
Context (project : list string).
Notation live := (live_path project).
Notation stage := (stage_path project).
Notation backup := (backup_path project).

(** A name in none of the three directories. *)
Definition outside (p : list string) : Prop :=
  ¬ live `prefix_of` p ∧ ¬ stage `prefix_of` p ∧ ¬ backup `prefix_of` p.
Record frame (d d' : Disk) : Prop := {
  frame_wf : dwf d';
  frame_objs p : outside p → objs d' !! p = objs d !! p;
}.
(** A project whose three directories are not links. *)
Record ready (d : Disk) : Prop := {
  ready_wf : dwf d;
  ready_project : objs d !! project = Some Folder;
  ready_links p t : p ∈ [live; stage; backup] → objs d !! p ≠ Some (Link t);
}.

Lemma project_outside q : q `prefix_of` project → outside q.
Proof.
  intros Hq. assert (∀ n, ¬ project ++ [n] `prefix_of` q) as Hn.
  { intros n Hn. assert (project ++ [n] `prefix_of` project) as Hp by (by trans q).
    apply prefix_length in Hp. rewrite length_app in Hp. simpl in Hp. lia. }
  split_and!; apply Hn.
Qed.
Lemma three_ne n n' r r' : n ≠ n' → (project ++ [n]) ++ r ≠ (project ++ [n']) ++ r'.
Proof.
  intros Hne. rewrite <- !(assoc_L app). intros He%app_inv_head. simpl in He. congruence.
Qed.
Lemma three_apart n n' r : n ≠ n' → ¬ project ++ [n] `prefix_of` (project ++ [n']) ++ r.
Proof. intros Hne [k Hk]. apply (three_ne n' n r k); [done|]. by rewrite Hk. Qed.
Lemma three_apart_nil n n' : n ≠ n' → ¬ project ++ [n] `prefix_of` project ++ [n'].
Proof. intros Hne Hp. apply (three_apart n n' []); [done|]. by rewrite app_nil_r. Qed.

Lemma frame_refl d : dwf d → frame d d.
Proof. by split. Qed.
Lemma frame_trans d d' d'' : frame d d' → frame d' d'' → frame d d''.
Proof. intros [? H1] [? H2]. split; [done|]. intros p Hp. by rewrite H2, H1. Qed.

Lemma ready_unlinked d n : ready d → n ∈ ["node_modules"; ".oath-node_modules-stage"; ".oath-node_modules-backup"] →
  unlinked (objs d) (project ++ [n]).
Proof.
  intros [Hd Hp Hl] Hn q t Hq. apply prefix_snoc in Hq as [->|Hq]; [|by apply (unlinked_folder d project)].
  apply Hl. unfold live_path, stage_path, backup_path. set_solver.
Qed.
Lemma frame_ready d d' : ready d → frame d d' →
  (∀ p t, p ∈ [live; stage; backup] → objs d' !! p ≠ Some (Link t)) → ready d'.
Proof.
  intros [Hd Hp _] [Hd' Hf] Hl. split; [done| |done]. rewrite Hf; [done|]. by apply project_outside.
Qed.

Lemma frame_prune d n : ready d → n ∈ ["node_modules"; ".oath-node_modules-stage"; ".oath-node_modules-backup"] →
  frame d (set_objs (prune (project ++ [n])) d) ∧ ready (set_objs (prune (project ++ [n])) d).
Proof.
  intros Hr Hn. assert (frame d (set_objs (prune (project ++ [n])) d)) as Hf.
  { split; [apply dwf_prune; [apply Hr|by destruct project]|]. intros p (H1 & H2 & H3). simpl.
    rewrite prune_lookup, decide_False; [done|]. intros Hp.
    unfold live_path, stage_path, backup_path in *. set_unfold. naive_solver. }
  split; [done|]. eapply frame_ready; [done..|]. intros p t Hp. simpl. rewrite prune_lookup.
  case_decide; [done|]. by apply Hr.
Qed.

(** One of the three directories takes the place of another. *)
Definition moved (n n' : string) (d : Disk) : Disk :=
  set_objs (λ m, graft (project ++ [n']) (subtree (project ++ [n]) m) (prune (project ++ [n]) m)) d.
Lemma moved_lookup n n' d p :
  objs (moved n n' d) !! p = match strip (project ++ [n']) p with
    | Some r => objs d !! ((project ++ [n]) ++ r)
    | None => if decide (project ++ [n] `prefix_of` p) then None else objs d !! p
    end.
Proof. simpl. rewrite graft_lookup. destruct (strip _ p); [apply subtree_lookup|apply prune_lookup]. Qed.
Lemma moved_to n n' d r : objs (moved n n' d) !! ((project ++ [n']) ++ r) = objs d !! ((project ++ [n]) ++ r).
Proof. rewrite moved_lookup. by rewrite (proj2 (strip_Some _ _ r)). Qed.
Lemma moved_from n n' d r : n ≠ n' → objs (moved n n' d) !! ((project ++ [n]) ++ r) = None.
Proof.
  intros Hne. rewrite moved_lookup. destruct (strip _ _) as [r'|] eqn:Hs.
  - apply strip_Some, three_ne in Hs; [done|done].
  - rewrite decide_True; [done|]. by eexists.
Qed.
Lemma moved_other n n' d p : ¬ project ++ [n] `prefix_of` p → ¬ project ++ [n'] `prefix_of` p →
  objs (moved n n' d) !! p = objs d !! p.
Proof.
  intros Hn Hn'. rewrite moved_lookup. destruct (strip _ _) as [r'|] eqn:Hs.
  - apply strip_Some in Hs as ->. destruct Hn'. by eexists.
  - by rewrite decide_False.
Qed.

Notation three := ["node_modules"; ".oath-node_modules-stage"; ".oath-node_modules-backup"].
Lemma frame_moved d n n' : ready d → n ≠ n' → n ∈ three → n' ∈ three →
  frame d (moved n n' d) ∧ ready (moved n n' d).
Proof.
  intros Hr Hne Hn Hn'. assert (frame d (moved n n' d)) as Hf.
  { split.
    - pose proof (dwf_prune d (project ++ [n]) ltac:(apply Hr) ltac:(by destruct project)) as Hd.
      apply (dwf_graft (set_objs (prune (project ++ [n])) d)); [done| |].
      + simpl. rewrite prune_lookup, decide_False; [apply Hr|].
        intros Hp%prefix_length. rewrite length_app in Hp. simpl in Hp. lia.
      + apply (twf_subtree d), Hr.
    - intros p (H1 & H2 & H3). apply moved_other; intros Hp;
        unfold live_path, stage_path, backup_path in *; set_unfold; naive_solver. }
  split; [done|]. eapply frame_ready; [done..|]. intros p t Hp.
  destruct (strip (project ++ [n']) p) as [r|] eqn:Hs.
  - apply strip_Some in Hs as ->. rewrite moved_to.
    assert (r = []) as ->.
    { unfold live_path, stage_path, backup_path in Hp. destruct r as [|x r]; [done|].
      assert (∃ m, (project ++ [n']) ++ x :: r = project ++ [m]) as [m Hm] by set_solver.
      apply (f_equal length) in Hm. rewrite !length_app in Hm. simpl in Hm. lia. }
    rewrite app_nil_r. apply Hr. unfold live_path, stage_path, backup_path. set_solver.
  - rewrite moved_lookup, Hs. case_decide; [done|]. by apply Hr.
Qed.

Lemma exists_three d n : ready d → n ∈ three →
  exists_ (path_of (project ++ [n])) d = bool_decide (is_Some (objs d !! (project ++ [n]))).
Proof.
  intros Hr Hn. apply eq_bool_prop_intro. rewrite bool_decide_spec. split.
  - intros He%Is_true_true. apply exists_plain; [apply Hr|by apply ready_unlinked|done].
  - intros [o Ho]. apply Is_true_true. eapply exists_there; [apply Hr|done|].
    intros t ->. eapply (ready_links _ Hr (project ++ [n])); [|done].
    unfold live_path, stage_path, backup_path. set_solver.
Qed.
Lemma wp_remove_three d n Q : ready d → n ∈ three →
  Q (Ok tt) (set_objs (prune (project ++ [n])) d) → (∀ e, Q (Err e) d) →
  wp (remove_dir_all (path_of (project ++ [n]))) Q d.
Proof.
  intros Hr Hn HQ He. apply wp_remove_dir_all; [apply Hr| |auto|done].
  by apply unlinked_plain, ready_unlinked.
Qed.
Lemma wp_move_three d n n' Q : ready d → n ∈ three → n' ∈ three → n ≠ n' →
  Q (Ok tt) (moved n n' d) → (∀ e, Q (Err e) d) →
  wp (rename (path_of (project ++ [n])) (path_of (project ++ [n']))) Q d.
Proof.
  intros Hr Hn Hn' Hne HQ He. apply wp_rename; [apply Hr| | | |auto|done];
    [by apply unlinked_plain, ready_unlinked..|]. apply three_apart_nil. done.
Qed.

(** The tree a recovery keeps: the live one, or without one the one set aside. *)
Definition old_tree (d : Disk) : list string :=
  if decide (is_Some (objs d !! live)) then live else backup.

Record recovered (d d' : Disk) : Prop := {
  recovered_ready : ready d';
  recovered_stage r : objs d' !! (stage ++ r) = None;
  recovered_backup r : objs d' !! (backup ++ r) = None;
  recovered_live r : objs d' !! (live ++ r) = objs d !! (old_tree d ++ r);
}.
Definition kept_outside (d d' : Disk) : Prop := frame d d' ∧ ready d' ∧ inodes d' = inodes d.
Lemma kept_outside_trans d d' d'' : kept_outside d d' → kept_outside d' d'' → kept_outside d d''.
Proof. intros (? & ? & H1) (? & ? & H2). split_and!; [by eapply frame_trans|done|congruence]. Qed.
Lemma kept_prune d n : ready d → n ∈ three → kept_outside d (set_objs (prune (project ++ [n])) d).
Proof. intros Hr Hn. by destruct (frame_prune d n Hr Hn). Qed.
Lemma kept_moved d n n' : ready d → n ≠ n' → n ∈ three → n' ∈ three → kept_outside d (moved n n' d).
Proof. intros Hr ? ? ?. by destruct (frame_moved d n n' Hr). Qed.

Lemma ready_below d n r : ready d → objs d !! (project ++ [n]) = None → objs d !! ((project ++ [n]) ++ r) = None.
Proof. intros Hr. apply vacant_below, Hr. Qed.

Lemma recover_backup d : ready d →
  wp (settle_backup (path_of live) (path_of backup))
    (λ r d', kept_outside d d' ∧ (is_ok r = true → (∀ r, objs d' !! (backup ++ r) = None) ∧
      ∀ r, objs d' !! (live ++ r) = objs d !! (old_tree d ++ r))) d.
Proof.
  intros Hr. unfold settle_backup. apply wp_io_bind, wp_asks, wp_io_bind, wp_asks. unfold old_tree, live_path, backup_path.
  rewrite !exists_three by (done || set_solver). 
  assert (kept_outside d d) as Hk by (split_and!; [by apply frame_refl, Hr|done|done]).
  case_bool_decide as Hb; [case_bool_decide as Hl|].
  - apply wp_map_err, wp_remove_three; [done|set_solver| |by intros e; split].
    split; [apply kept_prune; [done|set_solver]|]. intros _. simpl. split; intros r; rewrite prune_lookup.
    + rewrite decide_True; [done|]. by eexists.
    + rewrite decide_False, decide_True by (done || apply three_apart; done). done.
  - apply wp_map_err, wp_move_three; [done|set_solver|set_solver|done| |by intros e; split].
    split; [apply kept_moved; [done|done|set_solver..]|]. intros _. rewrite decide_False by done.
    split; intros r; [by apply moved_from|apply moved_to].
  - apply wp_io_ret. split; [done|]. intros _. split.
    + intros r. apply ready_below; [done|]. by apply eq_None_not_Some.
    + intros r. case_decide as Hl; [done|]. rewrite !ready_below by (done || by apply eq_None_not_Some). done.
Qed.

Lemma wp_recover d : ready d →
  wp (Materialize.recover_link_transaction (path_of live) (path_of stage) (path_of backup))
    (λ r d', kept_outside d d' ∧ (is_ok r = true → recovered d d')) d.
Proof.
  intros Hr. unfold Materialize.recover_link_transaction.
  apply wp_io_bind. eapply wp_io_mono; [|exact (recover_backup d Hr)]. intros r d1 (Hk & Hb). pose proof Hk as (_ & Hr1 & _).
  destruct r as [[]|e]; [|by split]. specialize (Hb eq_refl) as [Hb Hl].
  apply wp_io_bind, wp_asks. unfold stage_path.
  rewrite (exists_three d1) by (done || set_solver). case_bool_decide as Hs.
  - apply wp_map_err, wp_remove_three; [done|set_solver| |by intros e; split].
    split; [eapply kept_outside_trans; [done|]; apply kept_prune; [done|set_solver]|].
    intros _. split; [apply frame_prune; [done|set_solver]|..]; intros r; simpl; rewrite prune_lookup.
    + rewrite decide_True; [done|]. by eexists.
    + case_decide; [done|]. apply Hb.
    + rewrite decide_False; [apply Hl|]. by apply three_apart.
  - split; [done|]. intros _. split; [done| |done|done]. intros r. apply ready_below; [done|].
    by apply eq_None_not_Some.
Qed.

Lemma kept_refl d : ready d → kept_outside d d.
Proof. intros Hr. split_and!; [by apply frame_refl, Hr|done|done]. Qed.

(** The live tree, if there is one, set aside. *)
Lemma wp_set_aside message d (Q : result LinkError unit → Disk → Prop) :
  ready d →
  (∀ d1, kept_outside d d1 → (∀ r, objs d1 !! (stage ++ r) = objs d !! (stage ++ r)) → Q (Ok tt) d1) →
  (∀ e, Q (Err e) d) →
  wp (if bool_decide (is_Some (objs d !! live)) then
        Materialize.context message (rename (path_of live) (path_of backup))
      else mret tt) Q d.
Proof.
  intros Hr HQ He. unfold live_path, stage_path, backup_path in *.
  case_bool_decide as Hl; [|by apply wp_io_ret, HQ; [apply kept_refl|]].
  apply wp_map_err, wp_move_three; [done|set_solver|set_solver|done| |by intros e; apply He].
  apply HQ; [apply kept_moved; [done|done|set_solver..]|].
  intros r. apply moved_other; by apply three_apart.
Qed.

Lemma wp_commit strict aside promote cleanup d :
  ready d → (∀ r, objs d !! (backup ++ r) = None) →
  wp (commit_tree strict aside promote cleanup (path_of live) (path_of stage) (path_of backup))
    (λ r d', kept_outside d d' ∧ (is_ok r = true →
      (∀ r, objs d' !! (live ++ r) = objs d !! (stage ++ r)) ∧ (∀ r, objs d' !! (stage ++ r) = None) ∧
      (strict = true → ∀ r, objs d' !! (backup ++ r) = None))) d.
Proof.
  intros Hr Hb. unfold commit_tree, live_path, stage_path, backup_path in *.
  apply wp_io_bind, wp_asks. rewrite (exists_three d) by (done || set_solver).
  apply wp_io_bind.
  apply wp_set_aside; [done| |by intros e; split; [apply kept_refl|]].
  intros d1 Hk1 Hs1. pose proof Hk1 as (_ & Hr1 & _). apply wp_io_bind, wp_io_attempt.
  apply wp_move_three; [done|set_solver|set_solver|done| |].
  - set (d2 := moved _ _ d1). assert (kept_outside d1 d2) as Hk2 by (apply kept_moved; [done|done|set_solver..]).
    assert (kept_outside d d2) as Hk by (by eapply kept_outside_trans). pose proof Hk as (_ & Hr2 & _).
    assert (∀ r, objs d2 !! ((project ++ ["node_modules"]) ++ r) = objs d !! ((project ++ [".oath-node_modules-stage"]) ++ r)) as Hl2.
    { intros r. unfold d2. by rewrite moved_to, Hs1. }
    assert (∀ r, objs d2 !! ((project ++ [".oath-node_modules-stage"]) ++ r) = None) as Hn2.
    { intros r. by apply moved_from. }
    apply wp_io_bind, wp_asks. rewrite (exists_three d2) by (done || set_solver).
    case_bool_decide as Hb2; [|apply wp_io_ret; split; [done|]; intros _; split_and!; [done..|]; intros _ r;
      apply ready_below; [done|by apply eq_None_not_Some]].
    set (d3 := set_objs (prune (project ++ [".oath-node_modules-backup"])) d2).
    assert (kept_outside d d3) as Hk3 by (eapply kept_outside_trans; [done|]; apply kept_prune; [done|set_solver]).
    assert ((∀ r, objs d3 !! ((project ++ ["node_modules"]) ++ r) = objs d !! ((project ++ [".oath-node_modules-stage"]) ++ r)) ∧
      (∀ r, objs d3 !! ((project ++ [".oath-node_modules-stage"]) ++ r) = None) ∧
      (strict = true → ∀ r, objs d3 !! ((project ++ [".oath-node_modules-backup"]) ++ r) = None)) as Hd3.
    { split_and!; [intros r|intros r|intros _ r]; simpl; rewrite prune_lookup.
      - by rewrite decide_False by by apply three_apart.
      - case_decide; [done|]. apply Hn2.
      - rewrite decide_True; [done|]. by eexists. }
    destruct strict.
    + apply wp_map_err, wp_remove_three; [done|set_solver|by split|by intros e; split].
    + apply wp_io_bind, wp_io_attempt, wp_remove_three; [done|set_solver|by split|].
      intros e. apply wp_io_ret. by split.
  - intros e. apply wp_io_bind, wp_asks, wp_io_bind, wp_asks, wp_io_bind.
    match goal with |- wp (if ?b then _ else _) _ _ => destruct b end.
    + apply wp_io_bind, wp_io_attempt, wp_move_three; [done|set_solver|set_solver|done| |].
      * apply wp_io_ret, wp_io_throw. split; [|done]. eapply kept_outside_trans; [done|].
        apply kept_moved; [done|done|set_solver..].
      * intros e'. apply wp_io_ret, wp_io_throw. by split.
    + apply wp_io_ret, wp_io_throw. by split.
Qed.
End transaction.
#[export] Hint Resolve kept_refl : disk.

(** ** Building the tree *)

(** [remove_existing_path] leaves nothing at the name, or fails. *)
Lemma wp_remove_existing_path p d (Q : result Errno unit → Disk → Prop) :
  dwf d → plain (objs d) p → Q (Ok tt) (set_objs (prune p) d) → (∀ e, Q (Err e) d) →
  wp (remove_existing_path (path_of p)) Q d.
Proof.
  intros Hd Hp HQ He. unfold remove_existing_path. apply wp_io_bind, wp_io_attempt, wp_io_bind, wp_asks, wp_from.
  destruct (look false (path_of p) d) as [[q o]|e] eqn:Hlook.
  - destruct o; [by apply wp_remove_dir_all|by apply wp_remove_file|by apply wp_remove_file].
  - destruct e; try (apply wp_io_throw, He). apply wp_io_ret.
    assert (set_objs (prune p) d = d) as Hsame; [|by rewrite Hsame in HQ].
    destruct d as [m I]. unfold set_objs. simpl. f_equal. apply map_eq. intros x. rewrite prune_lookup.
    case_decide as Hx; [|done]. destruct Hx as [k ->]. symmetry. apply (vacant_below {| objs := m; inodes := I |}); [done|].
    simpl. destruct (m !! p) as [o|] eqn:Ho; [|done].
    rewrite (look_there {| objs := m; inodes := I |} false _ o) in Hlook; [done|done|done|by left].
Qed.

Lemma pathdiff_path_of a n b :
  pathdiff_relative (path_of (a ++ [n])) (path_of b) = pathdiff_relative (abs (a ++ [n])) (abs b).
Proof.
  unfold pathdiff_relative, abs, path_of. rewrite !fmap_app. simpl fmap.
  rewrite app_comm_cons, !removelast_snoc. simpl. done.
Qed.
(** The link to an executable leads from its directory to the file, wherever the tree is. *)
Lemma bin_link_resolves p a n b q :
  resolve (q ++ a) (pathdiff_relative (path_of (p ++ a ++ [n])) (path_of (p ++ b))) = q ++ b.
Proof. rewrite (assoc_L app), pathdiff_path_of, <- (assoc_L app). apply pathdiff_relative_spec. Qed.

Lemma components_after p c cs x : components p = c :: cs → x ∈ cs → x = ParentDir ∨ ∃ n, x = Normal n.
Proof.
  unfold components. intros Hc Hx. destruct (split_char "/" p) as [|first rest]; [done|].
  assert (x ∈ mjoin (component_of <$> rest)) as (l & Hl & (part & -> & _)%list_elem_of_fmap)%list_elem_of_join.
  { destruct (starts_with "/" p); [|case_decide].
    - injection Hc as _ <-. done.
    - injection Hc as _ <-. done.
    - pose proof (component_of_length first) as Hle. destruct (component_of first) as [|y [|]]; simpl in *.
      + rewrite Hc. by right.
      + by injection Hc as _ <-.
      + lia. }
  unfold component_of in Hl. repeat case_decide; set_solver.
Qed.
Lemma below_names p rel : below_node_modules p = Some rel → ParentDir ∉ rel → rel = path_of (names rel).
Proof.
  unfold below_node_modules. intros Hp Hn. destruct (components p) as [|c cs] eqn:Hc; [done|].
  assert (∀ x, x ∈ rel → x = ParentDir ∨ ∃ n, x = Normal n) as Hr.
  { intros x Hx. destruct c as [| | |m]; try done. case_decide; simplify_eq. by eapply components_after. }
  clear Hp Hc. induction rel as [|x rel IH]; [done|].
  destruct (Hr x) as [->|[n ->]]; [left|by destruct Hn; left|]. csimpl.
  f_equal. apply IH; [intros ?; apply Hn; by right|]. intros y Hy. apply Hr. by right.
Qed.

Section build.
Context `{!HashIter, !LinkLib, !StoreLib}.
Context (root project : list string) (keep : bool) (plan : PlacementPlan) (d1 : Disk).
Notation live := (live_path project).
Notation stage := (stage_path project).
Notation source := (store_source root).

(** The names of a location below [node_modules]. *)
Definition loc (location : string) : list string := names (default [] (below_node_modules location)).
Notation at_ node := (loc (location node)).

(** The link a placement makes: the canonical path of its target, in the project; or, where
    nothing is, the target as it is, if the longest part of it that is there is in the
    project. The disk is one of the run: that of its start but for the stage. *)
Definition candidate_of (target : string) : Path :=
  if starts_with "/" target then components target else path_of project ++ components target.
Definition target_ok (node : PlacementNode) (to : Path) : Prop :=
  ∃ t, target node = Some t ∧
    ∃ d, (∀ p, ¬ stage `prefix_of` p → objs d !! p = objs d1 !! p) ∧
      ((∃ c, canonicalize (candidate_of t) d = Ok c ∧ to = RootDir :: path_of c ∧ project `prefix_of` c) ∨
       (to = candidate_of t ∧ ∃ k c, canonicalize (take k to) d = Ok c ∧ project `prefix_of` c ∧
          ∀ j, k < j → canonicalize (take j to) d = Err NotFound)).

(** Where files and links of the tree may come from. *)
Definition file_ok (r : list string) (c : option Inode) : Prop :=
  (∃ node x j, node ∈ plan_nodes plan ∧ link node = false ∧ r = at_ node ++ x ∧
     objs d1 !! (source node ++ x) = Some (Regular j) ∧ c = inodes d1 !! j) ∨
  (keep = true ∧ ∃ j, objs d1 !! (live ++ r) = Some (Regular j) ∧ c = inodes d1 !! j).
Definition link_ok (r : list string) (to : Path) : Prop :=
  (∃ node, node ∈ plan_nodes plan ∧ link node = true ∧ r = at_ node ∧ target_ok node to) ∨
  (∃ node n bin, node ∈ plan_nodes plan ∧ link node = false ∧ r = removelast (at_ node) ++ [".bin"; n] ∧
     to = pathdiff_relative (path_of (stage ++ r)) (path_of (stage ++ at_ node ++ bin))).
Definition entry_ok (r : list string) (o : Obj) (I : gmap nat Inode) : Prop :=
  match o with
  | Folder => True
  | Regular i => file_ok r (I !! i)
  | Link to => link_ok r to
  end.

Definition plan_file : list string := [".oath"; "placement-plan.json"].

(** What the plan and the disk have to be like: no placement in a [.bin] directory, in [.oath]
    or below the location of a link; sources and reused directories that are not behind links;
    a store apart from the project's directories; a record of the last plan with one name. *)
Record plan_good : Prop := {
  pr_names n : n ∈ plan_nodes plan → at_ n ≠ [] ∧ head (at_ n) ≠ Some ".oath";
  pr_bin n : n ∈ plan_nodes plan → ".bin" ∉ at_ n;
  pr_links n m : n ∈ plan_nodes plan → m ∈ plan_nodes plan → link m = true →
    at_ m `prefix_of` at_ n → at_ m = at_ n;
  pr_source n : n ∈ plan_nodes plan → unlinked (objs d1) (source n);
  pr_reused n : n ∈ plan_nodes plan → reuse_existing n = true → unlinked (objs d1) (live ++ at_ n);
  pr_root n : n ∈ ["node_modules"; ".oath-node_modules-stage"; ".oath-node_modules-backup"] →
    ¬ project ++ [n] `prefix_of` root ∧ ¬ root `prefix_of` project ++ [n];
  pr_alone p i : objs d1 !! (live ++ plan_file) = Some (Regular i) → objs d1 !! p = Some (Regular i) →
    p = live ++ plan_file;
}.
(** So it is after a recovery. *)
Record plan_ready : Prop := {
  pr_good :> plan_good;
  pr_removed r : r ∈ removed_locations plan → ParentDir ∉ components r;
  pr_ready : ready project d1;
  pr_stage r : objs d1 !! (stage ++ r) = None;
}.
Context (Hplan : plan_ready).

(** The invariant of the build. *)
Record building (d : Disk) : Prop := {
  b_wf : dwf d;
  b_frame p : ¬ stage `prefix_of` p → objs d !! p = objs d1 !! p;
  b_inodes : inodes d1 ⊆ inodes d;
  b_entry r o : objs d !! (stage ++ r) = Some o → entry_ok r o (inodes d);
  b_plan i : objs d !! (stage ++ plan_file) = Some (Regular i) →
    inodes d1 !! i = None ∨ objs d1 !! (live ++ plan_file) = Some (Regular i);
  b_alone r i : objs d !! (stage ++ plan_file) = Some (Regular i) → objs d !! (stage ++ r) = Some (Regular i) →
    r = plan_file;
}.

Lemma building_start : building d1.
Proof. split; [apply Hplan|done|done|..]; intros r; rewrite ?(pr_stage Hplan); done. Qed.

Lemma stage_apart r r' : ¬ stage ++ r `prefix_of` live ++ r'.
Proof.
  intros [k Hk]. unfold live_path, stage_path in Hk. rewrite <- !(assoc_L app) in Hk.
  apply app_inv_head in Hk. done.
Qed.
Lemma building_project d : building d → objs d !! project = Some Folder.
Proof.
  intros Hb. rewrite (b_frame d Hb); [apply (pr_ready Hplan)|].
  intros Hp%prefix_length. unfold stage_path in Hp. rewrite length_app in Hp. simpl in Hp. lia.
Qed.
Lemma above_stage d l q : building d → q `prefix_of` stage ++ l → ¬ stage `prefix_of` q → objs d !! q = Some Folder.
Proof.
  intros Hb Hq Hs. assert (q `prefix_of` project) as Hp.
  { destruct (prefix_weak_total stage q (stage ++ l)) as [|Hq']; [by eexists|done|done|].
    unfold stage_path in Hq'. apply prefix_snoc in Hq' as [->|]; [|done]. by destruct Hs. }
  destruct (decide (q = project)) as [->|]; [by apply building_project|].
  apply (dwf_above d project); [apply Hb| |done..]. rewrite building_project by done. eauto.
Qed.
(** Names of the tree that no link is above. *)
Lemma building_unlinked d l : building d → (∀ q, q `prefix_of` l → ∀ to, ¬ link_ok q to) → unlinked (objs d) (stage ++ l).
Proof.
  intros Hb Hl q t Hq. destruct (decide (stage `prefix_of` q)) as [[r ->]|Hs].
  - intros Hr. apply prefix_app_inv in Hq. by apply (Hl r Hq t), (b_entry d Hb _ _ Hr).
  - by rewrite (above_stage d l).
Qed.
Lemma building_put d r o : building d → vacant d (stage ++ r) → entry_ok r o (inodes d) →
  (∀ i, o ≠ Regular i) → building (set_objs <[stage ++ r := o]> d).
Proof.
  intros Hb Hv Ho Hi.
  assert (∀ p i, <[stage ++ r := o]> (objs d) !! p = Some (Regular i) → objs d !! p = Some (Regular i)) as Hreg.
  { intros p i. rewrite lookup_insert_Some. intros [[_ He]|[_ ?]]; [by destruct (Hi i)|done]. }
  split; simpl.
  - apply dwf_put; [apply Hb|done|]. intros i ->. by destruct (Hi i).
  - intros p Hp. rewrite lookup_insert_ne; [by apply Hb|]. intros <-. apply Hp. by eexists.
  - apply Hb.
  - intros x o'. destruct (decide (r = x)) as [->|Hne].
    + rewrite lookup_insert_eq. by intros [= <-].
    + rewrite lookup_insert_ne by (by intros ?%app_inv_head). apply Hb.
  - intros i Hp%Hreg. by apply Hb.
  - intros x i Hp%Hreg Hx%Hreg. by eapply (b_alone d Hb).
Qed.
Lemma building_prune d r : building d → building (set_objs (prune (stage ++ r)) d).
Proof.
  intros Hb.
  assert (∀ p o, prune (stage ++ r) (objs d) !! p = Some o → objs d !! p = Some o) as Hreg.
  { intros p o. rewrite prune_lookup. by case_decide. }
  split; simpl.
  - apply dwf_prune; [apply Hb|]. unfold stage_path. by destruct project.
  - intros p Hp. rewrite prune_lookup, decide_False; [by apply Hb|]. intros Hr. apply Hp.
    etrans; [|done]. by eexists.
  - apply Hb.
  - intros x o Hx%Hreg. by apply Hb.
  - intros i Hp%Hreg. by apply Hb.
  - intros x i Hp%Hreg Hx%Hreg. by eapply (b_alone d Hb).
Qed.

(** A copy from what was there before the build. *)
Section building_copied.
Context (d d' : Disk) (S r : list string) (Hb : building d) (Hcopied : copied S (stage ++ r) d d').
Context (Hr : r = [] ∨ ¬ r `prefix_of` plan_file).
Context (Hsource : ∀ x i, objs d !! (S ++ x) = Some (Regular i) →
  objs d1 !! (S ++ x) = Some (Regular i) ∧ file_ok (r ++ x) (inodes d1 !! i) ∧
  (r ++ x = plan_file ↔ S ++ x = live ++ plan_file)).

(** An entry is a copy or was there. *)
Lemma copied_entry x o : objs d' !! (stage ++ x) = Some o →
  (∃ y, x = r ++ y ∧ (o = Folder ∨ ∃ i j, objs d !! (S ++ y) = Some (Regular i) ∧ o = Regular j ∧
     (j = i ∨ inodes d !! j = None) ∧ inodes d' !! j = inodes d !! i)) ∨
  (¬ r `prefix_of` x ∧ objs d !! (stage ++ x) = Some o).
Proof.
  intros Ho. destruct (decide (r `prefix_of` x)) as [[y ->]|Hx].
  - left. exists y. split; [done|]. pose proof (copied_clone _ _ _ _ Hcopied y) as Hc.
    rewrite <- (assoc_L app), Ho in Hc. destruct (objs d !! (S ++ y)) as [[|i|t]|] eqn:Hy; simpl in Hc; try done.
    + left. by injection Hc.
    + destruct Hc as (j & [= ->] & Hji & Hj). right. by exists i, j.
  - right. split; [done|]. rewrite <- (copied_frame _ _ _ _ Hcopied); [done|]. by intros ?%prefix_app_inv.
Qed.
Lemma old_inode i : is_Some (inodes d1 !! i) → inodes d !! i = inodes d1 !! i.
Proof. intros [c Hc]. by rewrite Hc, (lookup_weaken _ _ _ _ Hc (b_inodes d Hb)). Qed.
Lemma d1_inode p i : objs d1 !! p = Some (Regular i) → is_Some (inodes d1 !! i).
Proof. apply (dwf_ino d1), Hplan. Qed.

Lemma copied_plan i : objs d' !! (stage ++ plan_file) = Some (Regular i) →
  inodes d1 !! i = None ∨ objs d1 !! (live ++ plan_file) = Some (Regular i).
Proof.
  intros [(y & Hy & [|(i0 & j & Hi0 & [= ->] & Hji & _)])|[_ Hp]]%copied_entry; [done| |by apply Hb].
  destruct Hji as [->|Hn].
  - apply Hsource in Hi0 as (Hi0 & _ & He). right. by rewrite <- (proj1 He).
  - left. eapply lookup_weaken_None; [done|apply Hb].
Qed.
Lemma copied_alone x i : objs d' !! (stage ++ plan_file) = Some (Regular i) → objs d' !! (stage ++ x) = Some (Regular i) →
  x = plan_file.
Proof.
  intros Hp Hx. pose proof Hp as Hp0. pose proof Hx as Hx0.
  assert (∀ j, objs d !! (stage ++ plan_file) = Some (Regular j) → inodes d !! j ≠ None) as Hin.
  { intros j [c Hc]%(dwf_ino d (b_wf d Hb)). by rewrite Hc. }
  apply copied_entry in Hp as [(y & Hy & [|(i0 & j & Hi0 & [= ->] & Hji & _)])|[Hnp Hp]];
    apply copied_entry in Hx as [(z & -> & [|(k0 & k & Hk0 & [= ->] & Hki & _)])|[Hnx Hx]]; try done.
  - destruct Hji as [->|Hn].
    + apply Hsource in Hi0 as (Hi0 & _ & He). rewrite (proj1 He) in Hi0 by done.
      destruct Hki as [->|Hn]; [|by rewrite old_inode in Hn; destruct (d1_inode _ _ Hi0) as [? Hd]; [rewrite Hd in Hn|]].
      apply Hsource in Hk0 as (Hk0 & _ & He'). apply He'. by eapply (pr_alone Hplan).
    + apply (app_inv_head stage). by eapply (copied_once _ _ _ _ Hcopied).
  - destruct Hr as [->|Hr']; [by destruct Hnx; apply prefix_nil|]. destruct Hr'. rewrite Hy. by eexists.
  - destruct Hki as [->|Hn]; [|by destruct (Hin _ Hp)]. apply Hsource in Hk0 as (Hk0 & _ & He').
    destruct (b_plan d Hb _ Hp) as [Hn|Hlive]; [by destruct (d1_inode _ _ Hk0) as [? Hd]; rewrite Hd in Hn|].
    apply He'. by eapply (pr_alone Hplan).
  - by eapply (b_alone d Hb).
Qed.
Lemma building_copied : building d'.
Proof.
  pose proof Hcopied as [Hd Hf Hi Hc Hon]. split; [done| | | |apply copied_plan|apply copied_alone].
  - intros p Hp. rewrite Hf; [by apply Hb|]. intros Hp'. apply Hp. etrans; [|done]. by eexists.
  - etrans; [apply Hb|done].
  - intros x o [(y & -> & [->|(i & j & Hij & -> & _ & Hj)])|[_ Ho]]%copied_entry; [done|..].
    + apply Hsource in Hij as (Hij & Hok & _). simpl. rewrite Hj, old_inode; [done|]. by eapply d1_inode.
    + pose proof (b_entry d Hb _ _ Ho) as He. destruct o as [|i|to]; [done| |done]. simpl in He |- *.
      destruct (dwf_ino d (b_wf d Hb) _ _ Ho) as [c Hc']. rewrite Hc' in He. by rewrite (lookup_weaken _ _ _ _ Hc' Hi).
Qed.
End building_copied.

(** Entries under some names stay as they are, and inodes too. *)
Record stays (P : list string → Prop) (d d' : Disk) : Prop := {
  stays_inodes : inodes d ⊆ inodes d';
  stays_objs p o : P p → objs d !! p = Some o → objs d' !! p = Some o;
}.
Notation everywhere := (λ _, True).
Notation beside l := (λ p, ¬ stage ++ l `prefix_of` p).
Lemma stays_refl P d : stays P d d.
Proof. by split. Qed.
Lemma stays_trans P d d' d'' : stays P d d' → stays P d' d'' → stays P d d''.
Proof. intros [] []. split; [by etrans|]. auto. Qed.
Lemma stays_mono (P P' : list string → Prop) d d' : (∀ p, P p → P' p) → stays P' d d' → stays P d d'.
Proof. intros HP []. split; auto. Qed.
Lemma stays_put P d p o : objs d !! p = None → stays P d (set_objs <[p := o]> d).
Proof.
  intros Hp. split; [done|]. intros q o' _ Hq. simpl. rewrite lookup_insert_ne; [done|]. by intros ->; rewrite Hp in Hq.
Qed.
Lemma stays_prune d l : stays (beside l) d (set_objs (prune (stage ++ l)) d).
Proof. split; [done|]. intros p o Hp Ho. simpl. by rewrite prune_lookup, decide_False. Qed.
Lemma stays_copied d d' S l : copied S (stage ++ l) d d' → stays (beside l) d d'.
Proof. intros [Hd Hf Hi Hc]. split; [done|]. intros p o Hp. by rewrite Hf. Qed.

(** No link is above a location, nor above the directory of executables beside it. *)
Lemma no_link_above n q to : n ∈ plan_nodes plan → q `prefix_of` at_ n → q ≠ at_ n → ¬ link_ok q to.
Proof.
  intros Hn Hq Hne [(m & Hm & Hl & -> & _)|(m & x & bin & Hm & _ & -> & _)].
  - apply Hne. by apply (pr_links Hplan).
  - apply (pr_bin Hplan n Hn). destruct Hq as [k ->]. set_solver.
Qed.
Lemma no_link_bin n q to l x : n ∈ plan_nodes plan → at_ n = l ++ [x] → q `prefix_of` l ++ [".bin"] → ¬ link_ok q to.
Proof.
  intros Hn Hl Hq. apply prefix_snoc in Hq as [->|Hq].
  - intros [(m & Hm & _ & He & _)|(m & y & bin & Hm & _ & He & _)].
    + apply (pr_bin Hplan m Hm). rewrite <- He. set_solver.
    + apply (pr_bin Hplan n Hn). rewrite (app_cons_l (removelast _) [y] ".bin") in He. apply app_inj_tail in He as [He _].
      rewrite Hl, He. set_solver.
  - apply (no_link_above n); [done|rewrite Hl; by apply prefix_app_r|]. intros ->. rewrite Hl in Hq.
    by apply prefix_snoc_not in Hq.
Qed.

Lemma not_plan_file n : n ∈ plan_nodes plan → ¬ at_ n `prefix_of` plan_file.
Proof.
  intros Hn [k Hk]. destruct (pr_names Hplan n Hn) as [Hne Ho]. destruct (at_ n) as [|x l]; [done|].
  injection Hk as <- _. done.
Qed.

Section node.
Context (n : PlacementNode) (Hn : n ∈ plan_nodes plan) (l : list string) (x : string) (Hl : at_ n = l ++ [x]).

Lemma parent_unlinked d : building d → unlinked (objs d) (stage ++ l).
Proof.
  intros Hb. apply building_unlinked; [done|]. intros q Hq to.
  apply (no_link_bin n q to l x); [done..|]. by apply prefix_app_r.
Qed.
Lemma bin_unlinked d : building d → unlinked (objs d) (stage ++ l ++ [".bin"]).
Proof. intros Hb. apply building_unlinked; [done|]. intros q Hq to. by apply (no_link_bin n q to l x). Qed.
Lemma node_plain d : building d → plain (objs d) (stage ++ at_ n).
Proof. intros Hb. rewrite Hl, (assoc_L app). by apply unlinked_snoc, parent_unlinked. Qed.
End node.

Lemma wp_remove_existing l d :
  building d → plain (objs d) (stage ++ l) →
  wp (remove_existing_path (path_of (stage ++ l))) (λ r d', building d' ∧ stays (beside l) d d' ∧
    (is_ok r = true → ∀ y, objs d' !! ((stage ++ l) ++ y) = None)) d.
Proof.
  intros Hb Hp. apply wp_remove_existing_path; [apply Hb|done| |by intros e; split_and!; [|apply stays_refl|]].
  split_and!; [by apply building_prune|apply stays_prune|]. intros _ y. simpl.
  rewrite prune_lookup, decide_True; [done|]. by eexists.
Qed.

(** Directories on the way to [l] change nothing else. *)
Lemma wp_make_dirs l d P (K : Disk → Prop) :
  building d → (∀ d, building d → unlinked (objs d) (stage ++ l)) →
  K d → (∀ d q, K d → q `prefix_of` stage ++ l → K (set_objs <[q := Folder]> d)) →
  wp (create_dir_all (path_of (stage ++ l))) (λ r d', building d' ∧ stays P d d' ∧ K d' ∧
    (is_ok r = true → objs d' !! (stage ++ l) = Some Folder)) d.
Proof.
  intros Hb Hu HK Hput.
  eapply wp_io_mono; [|apply (wp_create_dir_all (λ d', building d' ∧ stays P d d' ∧ K d'))].
  - intros r d' ((? & ? & ?) & ?). done.
  - intros d' (Hb' & _). split; [apply Hb'|by apply Hu].
  - intros d' q (Hb' & Hs & HK') Hq Hv. split_and!; [|by eapply stays_trans; [|apply stays_put, Hv]|by apply Hput].
    destruct (decide (stage `prefix_of` q)) as [[r ->]|Hsq].
    + by apply building_put.
    + exfalso. destruct Hv as [Hv _]. by rewrite (above_stage d' l) in Hv.
  - split_and!; [done|apply stays_refl|done].
Qed.

(** The check of a link's target reads the disk only, and passes at the first part of it
    that is there, in the project. *)
Lemma wp_existing_ancestor p display up d (Q : result LinkError unit → Disk → Prop) :
  (∀ e, Q (Err e) d) →
  (∀ k c, k < length up → canonicalize (reverse (drop (S k) up)) d = Ok c → p `prefix_of` c →
     (∀ j, j < k → canonicalize (reverse (drop (S j) up)) d = Err NotFound) → Q (Ok tt) d) →
  wp (existing_ancestor p display up) Q d.
Proof.
  revert Q. induction up as [|c up IH]; intros Q He HQ; simpl; [by apply wp_io_throw|].
  assert (wp (r ← asks (E := LinkError) (canonicalize (reverse up));
    match r with
    | Ok canonical => demand (bool_decide (p `prefix_of` canonical)) ("workspace link escapes project: " +:+ display)
    | Err NotFound => existing_ancestor p display up
    | Err _ => throw (Says "resolve workspace link ancestor")
    end) Q d) as Hw.
  { apply wp_io_bind, wp_asks. destruct (canonicalize (reverse up) d) as [c'|[]] eqn:Hc; try (by apply wp_io_throw).
    - apply wp_from. destruct (ensure _ _) as [[]|] eqn:Hp; [|done]. apply ensure_Ok, bool_decide_eq_true in Hp.
      apply (HQ 0 c'); [simpl; lia|done|done|lia].
    - apply IH; [done|]. intros k c' Hk Hok Hp Hno. apply (HQ (S k) c'); [simpl; lia|done|done|].
      intros [|j] Hj; [done|]. simpl. apply Hno. lia. }
  destruct c; [destruct up; [by apply wp_io_throw|]|..]; exact Hw.
Qed.
Lemma wp_validated n t d : target n = Some t → building d →
  wp (validated_workspace_target (path_of project) t) (λ r d', d' = d ∧ ∀ to, r = Ok to → target_ok n to) d.
Proof.
  intros Ht Hb. unfold validated_workspace_target.
  assert (canonicalize (path_of project) d = Ok project) as Hproject.
  { unfold canonicalize. by rewrite (look_there d true project Folder) by
      (try apply Hb; by apply building_project || apply folder_looked_at, building_project). }
  apply wp_io_bind, wp_map_err, wp_io_bind, wp_asks, wp_from. rewrite Hproject. cbv zeta.
  change (if starts_with "/" t then components t else path_of project ++ components t) with (candidate_of t).
  apply wp_io_bind, wp_asks. destruct (canonicalize (candidate_of t) d) as [c|e] eqn:Hc.
  - apply wp_io_bind, wp_from. destruct (ensure _ _) eqn:He; [|done]. apply ensure_Ok, bool_decide_eq_true in He.
    apply wp_io_ret. split; [done|]. intros to [= <-]. exists t. split; [done|].
    exists d. split; [apply Hb|]. left. eauto.
  - destruct e; try by apply wp_io_throw.
    apply wp_io_bind, wp_existing_ancestor; [done|]. intros k c Hk Hok Hp Hno.
    rewrite length_reverse in Hk.
    apply wp_io_ret. split; [done|]. intros to [= <-]. exists t. split; [done|].
    exists d. split; [apply Hb|]. right. split; [done|].
    assert (∀ j, reverse (drop j (reverse (candidate_of t))) = take (length (candidate_of t) - j) (candidate_of t)) as Hrev.
    { intros j. by rewrite drop_reverse, reverse_involutive. }
    exists (length (candidate_of t) - S k), c. rewrite <- Hrev. split_and!; [done|done|].
    intros j Hj. destruct (decide (length (candidate_of t) ≤ j)); [by rewrite take_ge|].
    replace j with (length (candidate_of t) - S (length (candidate_of t) - S j)) by lia.
    rewrite <- Hrev. apply Hno. lia.
Qed.

(** What a placement has put in its place. *)
Definition from_ (n : PlacementNode) : list string :=
  if keep && reuse_existing n then live ++ at_ n else source n.
Definition kept (o : option Obj) (d : Disk) (o' : option Obj) : Prop :=
  match o with
  | Some Folder => o' = Some Folder
  | Some (Regular i) => ∃ j, o' = Some (Regular j) ∧ inodes d !! j = inodes d1 !! i
  | _ => True
  end.
Definition placed (n : PlacementNode) (d : Disk) : Prop :=
  if link n then ∃ to, objs d !! (stage ++ at_ n) = Some (Link to) ∧ target_ok n to
  else ∀ y, kept (objs d1 !! (from_ n ++ y)) d (objs d !! ((stage ++ at_ n) ++ y)).

Lemma kept_stays P o p d d' : dwf d → stays P d d' → P p →
  kept o d (objs d !! p) → kept o d' (objs d' !! p).
Proof.
  intros Hd [Hi Ho] HP. destruct o as [[|i|]|]; simpl; [by intros; apply Ho| |done..].
  intros (j & Hj & Hc). exists j. split; [by apply Ho|]. apply (dwf_ino _ Hd) in Hj as [c Hj].
  rewrite <- Hc, Hj. by eapply lookup_weaken.
Qed.
Lemma placed_everywhere n d d' : dwf d → stays everywhere d d' → placed n d → placed n d'.
Proof.
  intros Hd Hs. unfold placed. destruct (link n).
  - intros (to & Ho & Ht). exists to. split; [|done]. by apply Hs.
  - intros Hk y. by eapply (kept_stays everywhere).
Qed.

Section place.
Context (n : PlacementNode) (Hn : n ∈ plan_nodes plan) (l : list string) (x : string) (Hl : at_ n = l ++ [x]).

Definition free (d : Disk) : Prop := ∀ y, objs d !! ((stage ++ at_ n) ++ y) = None.

Lemma parent_stage : parent (path_of (stage ++ at_ n)) = Some (path_of (stage ++ l)).
Proof.
  unfold parent, path_of. rewrite Hl, (assoc_L app), (fmap_app _ (stage ++ l)). simpl.
  by rewrite last_snoc, removelast_snoc.
Qed.
Lemma wp_create_parent d (Q : result LinkError unit → Disk → Prop) : building d → free d →
  (∀ d', building d' → stays everywhere d d' → free d' → vacant d' (stage ++ at_ n) → Q (Ok tt) d') →
  (∀ e d', building d' → stays everywhere d d' → Q (Err e) d') →
  wp (create_parent (path_of (stage ++ at_ n))) Q d.
Proof.
  intros Hb Hf HQ He. unfold create_parent. rewrite parent_stage. apply wp_map_err.
  eapply wp_io_mono; [|apply (wp_make_dirs l d everywhere free Hb)].
  - intros [[]|e] d' (? & ? & Hf' & Hp); [|by apply He]. apply HQ; [done..|].
    split; [rewrite <- (app_nil_r (stage ++ _)); apply Hf'|].
    exists (stage ++ l), x. split; [by rewrite Hl, (assoc_L app)|]. by apply Hp.
  - intros d' Hb'. by eapply parent_unlinked.
  - done.
  - intros d' q Hf' Hq y. simpl. rewrite lookup_insert_ne; [apply Hf'|]. intros ->.
    apply prefix_length in Hq. rewrite Hl, !length_app in Hq. simpl in Hq. lia.
Qed.

Definition outcome {A} (d : Disk) (r : result LinkError A) (d' : Disk) : Prop :=
  building d' ∧ stays (beside (at_ n)) d d' ∧ (is_ok r = true → placed n d').

Lemma wp_place_link d : link n = true → building d →
  wp (place_link project n (path_of (stage ++ at_ n))) (outcome d) d.
Proof.
  intros Hlink Hb. unfold place_link. apply wp_io_bind, wp_map_err.
  eapply wp_io_mono; [|by apply wp_remove_existing; [|eapply node_plain]].
  intros r d2 (Hb2 & Hs2 & Hf2). destruct r as [[]|e]; [|by split_and!]. specialize (Hf2 eq_refl).
  apply wp_io_bind, wp_from. destruct (target n) as [t|] eqn:Ht; [|by split_and!]. simpl.
  apply wp_io_bind. eapply wp_io_mono; [|by apply (wp_validated n)].
  intros r d3 (-> & Hto). destruct r as [to|e]; [|by split_and!]. specialize (Hto to eq_refl).
  apply wp_io_bind, wp_create_parent; [done|done| |].
  - intros d4 Hb4 Hs4 Hf4 Hv4. assert (stays (beside (at_ n)) d d4) as Hs.
    { eapply stays_trans; [done|]. by eapply stays_mono; [|exact Hs4]. }
    apply wp_map_err, wp_symlink; [apply Hb4|by eapply node_plain| |by intros e; split_and!].
    intros _. split_and!.
    + apply building_put; [done|done|left; eauto|done].
    + eapply stays_trans; [done|]. apply stays_put, Hv4.
    + intros _. unfold placed. rewrite Hlink. exists to. split; [|done]. simpl. by rewrite lookup_insert_eq.
  - intros e d4 Hb4 Hs4. split_and!; [done| |done]. eapply stays_trans; [done|]. by eapply stays_mono; [|exact Hs4].
Qed.

Lemma from_apart r : ¬ stage `prefix_of` from_ n ++ r ∧ ¬ from_ n `prefix_of` stage ++ r.
Proof.
  unfold from_. destruct (keep && reuse_existing n).
  - split; [rewrite <- (assoc_L app); by apply three_apart|]. intros Hp%prefix_app_l. revert Hp. by apply three_apart.
  - destruct (pr_root Hplan ".oath-node_modules-stage") as [Ha1 Ha2]; [set_solver|].
    assert (∀ k, root `prefix_of` k → stage `prefix_of` k → False) as Hcmp.
    { intros k Hk1 Hk2. destruct (prefix_weak_total root stage k); done. }
    unfold store_source. split; intros Hp.
    + eapply Hcmp; [|exact Hp]. rewrite <- (assoc_L app). by eexists.
    + apply prefix_app_l in Hp. eapply Hcmp; [exact Hp|]. by eexists.
Qed.
Lemma from_same d r : building d → objs d !! (from_ n ++ r) = objs d1 !! (from_ n ++ r).
Proof. intros Hb. apply Hb, from_apart. Qed.
Lemma from_unlinked d : building d → unlinked (objs d) (from_ n).
Proof.
  intros Hb q t Hq. rewrite (b_frame d Hb).
  - revert q t Hq. change (unlinked (objs d1) (from_ n)). unfold from_.
    destruct keep; simpl; [destruct (reuse_existing n) eqn:Hr|]; by apply Hplan.
  - intros Hs. destruct (from_apart []) as [Ha1 _]. apply Ha1. rewrite app_nil_r. by trans q.
Qed.
Lemma from_file_ok r i : link n = false → objs d1 !! (from_ n ++ r) = Some (Regular i) → file_ok (at_ n ++ r) (inodes d1 !! i).
Proof.
  unfold from_. intros Hlink. destruct keep eqn:Hk, (reuse_existing n) eqn:Hr; simpl; intros Hi.
  - right. split; [done|]. exists i. by rewrite (assoc_L app).
  - left. by exists n, r, i.
  - left. by exists n, r, i.
  - left. by exists n, r, i.
Qed.

Lemma from_not_plan_file y : from_ n ++ y ≠ live ++ plan_file.
Proof.
  unfold from_. destruct (keep && reuse_existing n).
  - rewrite <- (assoc_L app). intros He%app_inv_head. apply (not_plan_file n Hn). rewrite <- He. by eexists.
  - intros He. unfold store_source in He. rewrite <- (assoc_L app) in He.
    destruct (pr_root Hplan "node_modules") as [Ha1 Ha2]; [set_solver|].
    destruct (prefix_weak_total root live (live ++ plan_file)) as [|]; [rewrite <- He; by eexists|by eexists|done..].
Qed.
Lemma wp_hardlink_placed d : link n = false → building d → vacant d (stage ++ at_ n) →
  wp (sys (hardlink_dir (path_of (from_ n)) (path_of (stage ++ at_ n)))) (outcome d) d.
Proof.
  intros Hlink Hb Hv. apply wp_map_err, wp_hardlink_dir.
  - apply Hb.
  - by apply from_unlinked.
  - done.
  - apply from_apart.
  - intros Hp. destruct (from_apart []) as [Ha1 _]. apply Ha1. rewrite app_nil_r. etrans; [|done]. by eexists.
  - intros d' _ Hc. split_and!.
    + eapply building_copied; [done|exact Hc|right; by apply not_plan_file|]. intros y i Hi.
      rewrite from_same in Hi by done. split_and!; [done|by apply from_file_ok|].
      split; [|by intros He; destruct (from_not_plan_file y)].
      intros He. exfalso. apply (not_plan_file n Hn). rewrite <- He. by eexists.
    + by eapply stays_copied.
    + intros _. unfold placed. rewrite Hlink. intros y. pose proof (copied_clone _ _ _ _ Hc y) as Hy.
      rewrite from_same in Hy by done. destruct (objs d1 !! (from_ n ++ y)) as [[|i|]|] eqn:Hi; simpl in Hy |- *; try done.
      destruct Hy as (j & Hj & _ & Hij). exists j. split; [done|]. rewrite Hij. apply old_inode; [done|].
      by eapply d1_inode.
  - intros e. split_and!; [by apply building_put| |done]. apply stays_put, Hv.
Qed.

Lemma outcome_later d d' {A} (r : result LinkError A) d'' :
  stays (beside (at_ n)) d d' → outcome d' r d'' → outcome d r d''.
Proof. intros Hs (? & ? & ?). split_and!; [done| |done]. by eapply stays_trans. Qed.

Lemma wp_place_contents d : link n = false → building d →
  wp (place_contents root project keep n (path_of (at_ n)) (path_of (stage ++ at_ n))) (outcome d) d.
Proof.
  intros Hlink Hb.
  assert (∀ d3, building d3 → stays (beside (at_ n)) d d3 → free d3 →
    wp (_ ← create_parent (path_of (stage ++ at_ n));
        sys (hardlink_dir (path_of (from_ n)) (path_of (stage ++ at_ n)))) (outcome d) d3) as Hlast.
  { intros d3 Hb3 Hs3 Hf3. apply wp_io_bind, wp_create_parent; [done|done| |].
    - intros d4 Hb4 Hs4 Hf4 Hv4. eapply wp_io_mono; [|by apply wp_hardlink_placed].
      intros r d5. apply outcome_later. eapply stays_trans; [done|]. by eapply stays_mono; [|exact Hs4].
    - intros e d4 Hb4 Hs4. split_and!; [done| |done]. eapply stays_trans; [done|]. by eapply stays_mono; [|exact Hs4]. }
  assert (∀ e : LinkError, outcome d (Err e : result LinkError unit) d) as He by (intros e; split_and!; [done|apply stays_refl|done]).
  unfold place_contents, from_ in *. destruct (keep && reuse_existing n).
  - apply wp_io_bind, wp_asks, wp_io_bind, wp_from. destruct (ensure _ _); [|apply He].
    apply wp_io_bind, wp_map_err. eapply wp_io_mono; [|by apply wp_remove_existing; [|eapply node_plain]].
    intros r d2 (Hb2 & Hs2 & Hf2). destruct r as [[]|e]; [|by split_and!].
    rewrite <- path_of_app. by apply Hlast; [..|exact (Hf2 eq_refl)].
  - apply wp_io_bind, wp_map_err. eapply wp_io_mono; [|by apply wp_remove_existing; [|eapply node_plain]].
    intros r d2 (Hb2 & Hs2 & Hf2). destruct r as [[]|e]; [|by split_and!].
    apply wp_io_bind, wp_asks, wp_io_bind, wp_from. destruct (ensure _ _); [|by split_and!].
    by apply Hlast; [..|exact (Hf2 eq_refl)].
Qed.
End place.

Lemma wp_link_bin n l x res bin d :
  n ∈ plan_nodes plan → at_ n = l ++ [x] → link n = false → building d →
  wp (link_bin (path_of (stage ++ at_ n)) (path_of ((stage ++ l) ++ [".bin"])) res bin)
    (λ _ d', building d' ∧ stays everywhere d d') d.
Proof.
  intros Hn Hl Hlink Hb. destruct bin as [bin_name bin_path]. unfold link_bin. apply wp_io_bind, wp_asks.
  destruct (negb _); [by apply wp_io_ret; split; [|apply stays_refl]|].
  apply wp_io_bind, wp_map_err. rewrite <- (assoc_L app stage l).
  eapply wp_io_mono; [|apply (wp_make_dirs _ d everywhere (λ _, True) Hb); try done].
  2: { intros d2 Hb2. by eapply bin_unlinked. }
  intros r d2 (Hb2 & Hs2 & _ & Hf2). destruct r as [[]|e]; [|done].
  apply wp_io_bind, wp_asks. destruct (exists_ _ d2); [by apply wp_io_ret|].
  apply wp_io_bind, wp_map_err. rewrite path_of_last. apply wp_symlink.
  - apply Hb2.
  - apply unlinked_snoc. by eapply bin_unlinked.
  - intros Hv. apply wp_io_ret. rewrite <- !(assoc_L app) in Hv |- *. split.
    + apply building_put; [done|done| |done]. right. exists n, bin_name, bin_path.
      rewrite Hl, removelast_snoc. split_and!; [done..|].
      unfold plain_join. rewrite <- path_of_app, <- !(assoc_L app). done.
    + eapply stays_trans; [done|]. apply stays_put, Hv.
  - intros e. by split.
Qed.

Lemma wp_place_node n res d :
  n ∈ plan_nodes plan → building d → wp (place_node root project keep res n) (outcome n d) d.
Proof.
  intros Hn Hb. unfold place_node.
  assert (∀ e : LinkError, outcome n d (Err e : result LinkError LinkResult) d) as He by (intros e; split_and!; [done|apply stays_refl|done]).
  apply wp_io_bind, wp_from. destruct (ok_or _ _) as [rel|e] eqn:Hrel; [|apply He]. apply ok_or_Ok in Hrel.
  apply wp_io_bind, wp_from. destruct (ensure _ _) eqn:Hok; [|apply He].
  apply ensure_Ok, andb_true_iff in Hok as [Hne%bool_decide_eq_true Hres%negb_true_iff].
  assert (rel = path_of (at_ n)) as ->.
  { unfold loc. rewrite Hrel. apply (below_names (location n)); [done|]. intros Hp.
    rewrite <- not_true_iff_false in Hres. apply Hres, existsb_exists. exists ParentDir. by rewrite <- list_elem_of_In. }
  destruct (at_ n) as [|x l _] eqn:Hl using rev_ind; [done|]. rewrite <- Hl in *. clear Hne Hres.
  cbv zeta. rewrite <- path_of_app. destruct (link n) eqn:Hlink.
  - apply wp_io_bind. eapply wp_io_mono; [|by eapply wp_place_link]. intros [[]|e] d2 Ho; [by apply wp_io_ret|done].
  - apply wp_io_bind. eapply wp_io_mono; [|by eapply wp_place_contents].
    intros [[]|e] d2 (Hb2 & Hs2 & Hp2); [|done]. specialize (Hp2 eq_refl).
    assert (∀ r : result LinkError LinkResult, ∀ d', building d' ∧ stays everywhere d2 d' → outcome n d r d') as Hend.
    { intros r d' [Hb' Hs']. split_and!; [done| |].
      - eapply stays_trans; [done|]. by eapply stays_mono; [|exact Hs'].
      - intros _. eapply placed_everywhere; [apply Hb2|done|done]. }
    assert (∀ r : result LinkError LinkResult, outcome n d r d2) as Hend2 by (intros r; apply Hend; split; [done|apply stays_refl]).
    apply wp_io_bind. unfold bin_entries. apply wp_io_bind, wp_io_attempt.
    assert (∀ Q : result Errno string → Disk → Prop, (∀ r, Q r d2) → ∀ p, wp (Disk.read_file p) Q d2) as Hread by (intros Q HQ p; apply HQ).
    apply Hread. intros r. clear Hread.
    assert (∀ bins, wp (node_modules ← need (parent (path_of (stage ++ at_ n))) "placement has no node_modules parent";
      for_fold (link_bin (path_of (stage ++ at_ n)) (node_modules ++ [Normal ".bin"])) (one_linked res) bins)
      (outcome n d) d2) as Hbins.
    { intros bins. apply wp_io_bind, wp_from. rewrite (parent_stage n l x) by done. simpl. rewrite path_of_last.
      eapply wp_io_mono; [intros r' d'; apply Hend|].
      apply (wp_for_fold _ (λ d', building d' ∧ stays everywhere d2 d')); [|split; [done|apply stays_refl]].
      intros s b d3 _ [Hb3 Hs3]. eapply wp_io_mono; [|by eapply wp_link_bin].
      intros _ d4 [Hb4 Hs4]. split; [done|]. by eapply stays_trans. }
    destruct r as [content|e]; apply wp_io_ret, Hbins.
Qed.

(** All placements: what one puts in its place stays, below a later one excepted. *)
Definition remains (ns : list PlacementNode) (d : Disk) : Prop :=
  ∀ before n after, ns = before ++ n :: after →
    if link n then (∀ m, m ∈ after → ¬ at_ m `prefix_of` at_ n) →
      ∃ to, objs d !! (stage ++ at_ n) = Some (Link to) ∧ target_ok n to
    else ∀ y, (∀ m, m ∈ after → ¬ at_ m `prefix_of` at_ n ++ y) →
      kept (objs d1 !! (from_ n ++ y)) d (objs d !! ((stage ++ at_ n) ++ y)).

Lemma remains_snoc ns n d d' :
  dwf d → remains ns d → stays (beside (at_ n)) d d' → placed n d' → remains (ns ++ [n]) d'.
Proof.
  intros Hd Hr Hs Hp before m after He. destruct after as [|z after _] using rev_ind.
  - apply app_inj_tail in He as [-> ->]. unfold placed in Hp. destruct (link m); [done|]. intros y _. apply Hp.
  - rewrite app_comm_cons, (assoc_L app) in He. apply app_inj_tail in He as [-> ->].
    specialize (Hr before m after eq_refl). destruct (link m).
    + intros Hz. destruct Hr as (to & Ho & Ht); [intros; apply Hz; set_solver|]. exists to. split; [|done].
      apply Hs; [|done]. intros ?%prefix_app_inv. eapply Hz; [|done]. set_solver.
    + intros y Hz. eapply (kept_stays _ _ _ d); [done|done| |apply Hr; intros; apply Hz; set_solver].
      rewrite <- (assoc_L app). intros ?%prefix_app_inv. eapply Hz; [|done]. set_solver.
Qed.
Lemma wp_place_all ns before res d :
  (∀ n, n ∈ ns → n ∈ plan_nodes plan) → building d → remains before d →
  wp (for_fold (place_node root project keep) res ns)
    (λ r d', building d' ∧ (is_ok r = true → remains (before ++ ns) d')) d.
Proof.
  revert before res d. induction ns as [|n ns IH]; intros before res d Hns Hb Hr; simpl.
  - apply wp_io_ret. rewrite app_nil_r. done.
  - apply wp_io_bind. eapply wp_io_mono; [|apply wp_place_node; [apply Hns; left|done]].
    intros [r|e] d' (Hb' & Hs' & Hp'); [|done].
    eapply wp_io_mono; [|apply (IH (before ++ [n])); [by intros; apply Hns; right|done|]].
    + by rewrite <- (assoc_L app).
    + eapply remains_snoc; [apply Hb|done|done|by apply Hp'].
Qed.

(** Before the placements: what was copied from the old tree, without its links. *)
Definition seeded (d : Disk) : Prop := building d ∧ ∀ r t, objs d !! (stage ++ r) ≠ Some (Link t).

Lemma seeded_unlinked d l : seeded d → unlinked (objs d) (stage ++ l).
Proof.
  intros [Hb Hs] q t Hq. destruct (decide (stage `prefix_of` q)) as [[r ->]|Hsq]; [apply Hs|].
  by rewrite (above_stage d l).
Qed.

Lemma wp_seed :
  wp (if keep && exists_ (path_of live) d1 then sys (hardlink_dir (path_of live) (path_of stage)) else mret tt)
    (λ _, seeded) d1.
Proof.
  pose proof (pr_ready Hplan) as Hr.
  assert (seeded d1) as Hs.
  { split; [apply building_start|]. intros r t. by rewrite (pr_stage Hplan). }
  destruct (keep && exists_ _ d1) eqn:Hk; [|by apply wp_io_ret]. apply andb_true_iff in Hk as [Hk _].
  assert (∀ r, objs d1 !! ((stage ++ []) ++ r) = None) as Hfree by (intros; rewrite app_nil_r; apply Hplan).
  assert (vacant d1 (stage ++ [])) as Hv.
  { split; [rewrite <- (app_nil_r (stage ++ [])); apply Hfree|]. exists project, ".oath-node_modules-stage".
    rewrite app_nil_r. split; [done|apply Hr]. }
  rewrite <- (app_nil_r stage). apply wp_map_err, wp_hardlink_dir.
  - apply Hr.
  - apply ready_unlinked; [done|set_solver].
  - done.
  - by apply three_apart.
  - rewrite app_nil_r. by apply three_apart_nil.
  - intros d' _ Hc. split.
    + eapply building_copied; [apply building_start|exact Hc|by left|]. intros y i Hi. split_and!; [done| |].
      * right. split; [done|]. eauto.
      * simpl. split; [by intros ->|by intros ?%app_inv_head].
    + intros r t Ht. destruct (copied_entry d1 d' live [] Hc r (Link t) Ht) as [(y & _ & [|(i & j & _ & ? & _)])|[Hnp _]]; try done.
      by destruct Hnp; apply prefix_nil.
  - intros e. split.
    + by apply building_put; [apply building_start|..].
    + intros r t. simpl. rewrite lookup_insert_Some. intros [[_ ?]|[_ Ht]]; [done|]. by apply (proj2 Hs r t).
Qed.

Lemma wp_remove_placements d : seeded d →
  wp (for_each (remove_placement project) (removed_locations plan)) (λ _, seeded) d.
Proof.
  intros Hs. apply wp_for_each; [|done]. clear d Hs. intros r d Hin Hs. unfold remove_placement.
  apply wp_io_bind, wp_from. destruct (ok_or _ _) as [rel|e] eqn:Hrel; [|done]. apply ok_or_Ok in Hrel.
  assert (rel = path_of (names rel)) as ->.
  { apply (below_names r); [done|]. intros Hp. apply (pr_removed Hplan r Hin).
    unfold below_node_modules in Hrel. destruct (components r) as [|[] cs]; try done. case_decide; simplify_eq. by right. }
  rewrite <- path_of_app. apply wp_map_err, wp_remove_existing_path; [apply Hs|by apply unlinked_plain, seeded_unlinked| |done].
  split; [by apply building_prune, Hs|]. intros x t. simpl. rewrite prune_lookup. case_decide; [done|]. apply Hs.
Qed.

(** Nothing outside the stage is changed, and no file but the record of the last plan. *)
Record touched (d : Disk) : Prop := {
  t_wf : dwf d;
  t_frame p : ¬ stage `prefix_of` p → objs d !! p = objs d1 !! p;
  t_inodes i c : inodes d1 !! i = Some c → objs d1 !! (live ++ plan_file) ≠ Some (Regular i) → inodes d !! i = Some c;
  t_stage t : objs d !! stage ≠ Some (Link t);
}.
Lemma plan_file_unlinked d : building d → unlinked (objs d) (stage ++ plan_file).
Proof.
  intros Hb. apply building_unlinked; [done|]. intros q Hq to [(m & Hm & _ & -> & _)|(m & y & bin & Hm & _ & -> & _)].
  - by apply (not_plan_file m Hm).
  - destruct Hq as [k Hk]. apply (f_equal (λ p, bool_decide (".bin" ∈ p))) in Hk.
    rewrite bool_decide_false, bool_decide_true in Hk by (unfold plan_file; set_solver). done.
Qed.
Lemma building_touched d : building d → touched d.
Proof.
  intros Hb. split; [apply Hb..| |].
  - intros i c Hi _. eapply lookup_weaken; [done|apply Hb].
  - intros t. apply (plan_file_unlinked d Hb). by eexists.
Qed.

(** The disk when the record of the plan has been written. *)
Section finished.
Context (d : Disk) (bytes : string).
Notation d' := (written d (stage ++ plan_file) bytes).

Lemma written_objs p : p ≠ stage ++ plan_file → objs d' !! p = objs d !! p.
Proof. intros Hp. unfold written. destruct (objs d !! (stage ++ plan_file)) as [[]|]; simpl; by rewrite ?lookup_insert_ne. Qed.
Lemma written_regular : ∃ i, objs d' !! (stage ++ plan_file) = Some (Regular i).
Proof. unfold written. destruct (objs d !! (stage ++ plan_file)) as [[]|] eqn:E; simpl; rewrite ?lookup_insert_eq, ?E; eauto. Qed.
Context (Hb : building d).
Lemma written_inode r i : r ≠ plan_file → objs d !! (stage ++ r) = Some (Regular i) → inodes d' !! i = inodes d !! i.
Proof.
  intros Hr Hi. destruct (dwf_ino d (b_wf d Hb) _ _ Hi) as [c Hc]. pose proof (new_ino_fresh d) as Hnew.
  assert (i ≠ new_ino d) by (intros ->; congruence).
  unfold written. destruct (objs d !! (stage ++ plan_file)) as [[|j|]|] eqn:E; simpl; rewrite ?lookup_insert_ne by done; try done.
  rewrite lookup_alter_ne; [done|]. intros ->. by destruct Hr; eapply (b_alone d Hb).
Qed.
Context (Hv : vacant d (stage ++ plan_file) ∨ ∃ i, objs d !! (stage ++ plan_file) = Some (Regular i)).
Lemma written_touched : touched d'.
Proof.
  split.
  - unfold written. destruct Hv as [Hv'|[j Hj]].
    + pose proof (proj1 Hv') as ->. apply dwf_put; [|done|intros i [= <-]; simpl; rewrite lookup_insert_eq; eauto].
      split; simpl; [apply Hb|apply Hb|]. intros p i [c Hi]%(dwf_ino d (b_wf d Hb)).
      destruct (decide (i = new_ino d)) as [->|]; [rewrite lookup_insert_eq|rewrite lookup_insert_ne by done]; eauto.
    + rewrite Hj. split; simpl; [apply Hb|apply Hb|]. intros p i [c Hi]%(dwf_ino d (b_wf d Hb)).
      destruct (decide (j = i)) as [->|]; [rewrite lookup_alter_eq, Hi|rewrite lookup_alter_ne by done]; simpl; eauto.
  - intros p Hp. rewrite written_objs; [by apply Hb|]. intros ->. apply Hp. by eexists.
  - intros i c Hi Hplain. assert (inodes d !! i = Some c) as Hic by (eapply lookup_weaken; [done|apply Hb]).
    unfold written. pose proof (new_ino_fresh d).
    assert (i ≠ new_ino d) by (intros ->; congruence).
    destruct (objs d !! (stage ++ plan_file)) as [[|j|]|] eqn:E; simpl; rewrite ?lookup_insert_ne by done; try done.
    rewrite lookup_alter_ne; [done|]. intros ->. destruct (b_plan d Hb _ E); [congruence|done].
  - intros t. rewrite written_objs; [by apply building_touched|].
    intros He. apply (f_equal length) in He. rewrite length_app in He. simpl in He. lia.
Qed.
End finished.

Lemma wp_build :
  wp (build_placement root project keep plan) (λ r d', touched d' ∧ (is_ok r = true → ∃ d bytes,
    building d ∧ remains (plan_nodes plan) d ∧ d' = written d (stage ++ plan_file) bytes)) d1.
Proof.
  unfold build_placement. apply wp_io_bind, wp_asks, wp_io_bind. eapply wp_io_mono; [|apply wp_seed].
  intros [[]|e] d2 Hs2; [|by split; [apply building_touched, Hs2|]].
  apply wp_io_bind, wp_map_err.
  eapply wp_io_mono; [|apply (wp_make_dirs [".oath"] d2 everywhere (λ d, ∀ r t, objs d !! (stage ++ r) ≠ Some (Link t))); [apply Hs2| |apply Hs2|]].
  2: { intros d Hb. apply (unlinked_prefix _ (stage ++ plan_file)); [by apply plan_file_unlinked|].
       apply prefix_app. by exists ["placement-plan.json"]. }
  2: { intros d q Hd _ r t. simpl. rewrite lookup_insert_Some. intros [[_ ?]|[_ ?]]; [done|by eapply Hd]. }
  intros r d3 (Hb3 & _ & Hk3 & _). destruct r as [[]|e]; [|by split; [apply building_touched|]].
  apply wp_io_bind. eapply wp_io_mono; [|by apply wp_remove_placements].
  intros [[]|e] d4 Hs4; [|by split; [apply building_touched, Hs4|]].
  apply wp_io_bind. eapply wp_io_mono; [|apply (wp_place_all (plan_nodes plan) []); [done|apply Hs4|]].
  2: { intros [] ? ? ?; done. }
  intros [res|e] d5 (Hb5 & Hr5); [|by split; [apply building_touched|]]. specialize (Hr5 eq_refl).
  apply wp_io_bind, wp_from. destruct (plan_to_vec plan) as [bytes|e]; [|by split; [apply building_touched|]].
  apply wp_io_bind, wp_map_err, wp_write.
  - apply Hb5.
  - by apply plan_file_unlinked.
  - intros Hv. apply wp_io_ret. split; [by apply written_touched|]. intros _. by exists d5, bytes.
  - intros e. by split; [apply building_touched|].
Qed.

End build.

(** ** A run *)

Section installed.
Context `{!HashIter, !LinkLib, !StoreLib}.
Context (root project : list string) (keep : bool) (plan : PlacementPlan).
Notation live := (live_path project).
Notation stage := (stage_path project).
Notation backup := (backup_path project).
Notation at_ node := (loc (location node)).

(** A link of the tree: that of a placement, into the project, or one to an executable of a
    package beside it. *)
Definition link_leads (d1 : Disk) (r : list string) (to : Path) : Prop :=
  (∃ node, node ∈ plan_nodes plan ∧ link node = true ∧ r = at_ node ∧ target_ok project d1 node to) ∨
  (∃ node n bin, node ∈ plan_nodes plan ∧ link node = false ∧ r = removelast (at_ node) ++ [".bin"; n] ∧
     resolve (live ++ removelast (at_ node) ++ [".bin"]) to = live ++ at_ node ++ bin).
Record installed (d1 d' : Disk) : Prop := {
  i_file r i : objs d' !! (live ++ r) = Some (Regular i) →
    r = plan_file ∨ file_ok root project keep plan d1 r (inodes d' !! i);
  i_link r to : objs d' !! (live ++ r) = Some (Link to) → link_leads d1 r to;
  i_content before n after y : plan_nodes plan = before ++ n :: after → link n = false →
    (∀ m, m ∈ after → ¬ at_ m `prefix_of` at_ n ++ y) → at_ n ++ y ≠ plan_file →
    kept d1 (objs d1 !! (from_ root project keep n ++ y)) d' (objs d' !! (live ++ at_ n ++ y));
  i_linked before n after : plan_nodes plan = before ++ n :: after → link n = true →
    (∀ m, m ∈ after → ¬ at_ m `prefix_of` at_ n) →
    ∃ to, objs d' !! (live ++ at_ n) = Some (Link to) ∧ target_ok project d1 n to;
  i_stage r : objs d' !! (stage ++ r) = None;
  i_backup r : objs d' !! (backup ++ r) = None;
}.

Lemma wp_installed d1 (Hplan : plan_ready root project plan d1) :
  (∀ r, objs d1 !! (backup ++ r) = None) →
  wp (result ← build_placement root project keep plan;
      _ ← commit_tree true "failed to stage existing node_modules" "failed to promote Arborist placement"
            "failed to remove node_modules backup" (path_of live) (path_of stage) (path_of backup);
      mret result)
    (λ r d', frame project d1 d' ∧
      (∀ i c, inodes d1 !! i = Some c → objs d1 !! (live ++ plan_file) ≠ Some (Regular i) → inodes d' !! i = Some c) ∧
      (is_ok r = true → installed d1 d')) d1.
Proof.
  intros Hback. apply wp_io_bind. eapply wp_io_mono; [|by apply wp_build].
  intros r d2 (Ht & Hdone).
  assert (frame project d1 d2) as Hf2.
  { split; [apply Ht|]. intros p (_ & Hs & _). by apply Ht. }
  assert (ready project d2) as Hr2.
  { eapply frame_ready; [apply Hplan|done|]. intros p t Hp Hl.
    destruct (decide (p = stage)) as [->|Hne]; [by eapply t_stage|].
    rewrite (t_frame _ _ _ Ht) in Hl; [by eapply (pr_ready _ _ _ _ Hplan)|].
    unfold live_path, stage_path, backup_path in *. set_unfold in Hp.
    destruct Hp as [->|[->|[->|[]]]]; [by apply three_apart_nil|done|by apply three_apart_nil]. }
  destruct r as [res|e]; [|by split_and!; [..|apply Ht|]].
  destruct (Hdone eq_refl) as (db & bytes & Hb & Hr & ->). clear Hdone. set (d2 := written _ _ _) in *.
  assert (∀ r, objs d2 !! (backup ++ r) = None) as Hback2.
  { intros r. rewrite (t_frame _ _ _ Ht) by by apply three_apart. apply Hback. }
  apply wp_io_bind. eapply wp_io_mono; [|by apply wp_commit]. intros r d3 ((Hf3 & Hr3 & Hi3) & Hcommit).
  assert (frame project d1 d3 ∧ ∀ i c, inodes d1 !! i = Some c →
    objs d1 !! (live ++ plan_file) ≠ Some (Regular i) → inodes d3 !! i = Some c) as [Hframe Hinodes].
  { split; [by eapply frame_trans|]. rewrite Hi3. apply Ht. }
  destruct r as [[]|e]; [|by split_and!]. destruct (Hcommit eq_refl) as (Hl3 & Hs3 & Hb3).
  apply wp_io_ret. split_and!; [done..|]. intros _.
  assert (∀ r, r ≠ plan_file → objs d3 !! (live ++ r) = objs db !! (stage ++ r)) as Hlive.
  { intros r Hne. rewrite Hl3. apply written_objs. by intros ?%app_inv_head. }
  split.
  - intros r i Hi. destruct (decide (r = plan_file)) as [->|Hne]; [by left|right].
    rewrite Hlive in Hi by done. rewrite Hi3. unfold d2. rewrite (written_inode _ _ _ _ _ _ _ Hb _ _ Hne Hi). apply (b_entry _ _ _ _ _ _ Hb _ _ Hi).
  - intros r to Hto. destruct (decide (r = plan_file)) as [->|Hne].
    + rewrite Hl3 in Hto. destruct (written_regular project db bytes) as [i Hi]. unfold d2 in Hto. by rewrite Hi in Hto.
    + rewrite Hlive in Hto by done. destruct (b_entry _ _ _ _ _ _ Hb _ _ Hto) as [|(n & x & bin & Hn & Hk & -> & ->)]; [by left|right].
      exists n, x, bin. split_and!; [done..|].
      rewrite (app_cons_l (removelast (at_ n)) [x] ".bin").
      apply bin_link_resolves.
  - intros before n after y He Hk Hafter Hne. specialize (Hr before n after He). rewrite Hk in Hr.
    specialize (Hr y Hafter). rewrite Hlive by done. rewrite (assoc_L app).
    unfold kept in Hr |- *. destruct (objs d1 !! _) as [[|i|]|]; [done| |done..].
    destruct Hr as (j & Hj & Hij). exists j. split; [done|]. rewrite Hi3, <- Hij.
    rewrite <- (assoc_L app) in Hj. unfold d2. by apply (written_inode _ _ _ _ _ _ _ Hb _ _ Hne).
  - intros before n after He Hk Hafter. specialize (Hr before n after He). rewrite Hk in Hr.
    destruct (Hr Hafter) as (to & Hto & Hok). exists to. rewrite Hlive; [done|].
    intros Heq. apply (not_plan_file _ _ _ _ Hplan n); [rewrite He; set_solver|by rewrite Heq].
  - done.
  - by apply Hb3.
Qed.
End installed.


(** ** An installation *)

Definition sample_linking : LinkLib := {| can_link _ _ := true; plan_to_vec p := Ok "the plan" |}.
(** Every manifest names an executable. *)
Definition sample_store : StoreLib := {|
  blake3_hex s := s;
  parse_json _ := Some (JObject [("bin", JString "cli.js")]);
  manifest_to_vec _ := "";
  manifest_from_slice _ := None;
|}.
Definition sample_placement (loc nm : string) (reuse : bool) (to : option string) : PlacementNode := {|
  location := loc; place_name := nm; node_name := nm; node_version := "1.0.0"; node_resolved := None;
  node_integrity := None; node_dev := false; node_optional := false; node_has_install_script := false;
  reuse_existing := reuse; link := bool_decide (is_Some to); target := to; edges := [] |}.
Definition sample_plan (nodes : list PlacementNode) (removed : list string) : PlacementPlan := {|
  Placement.schema_version := 2; planner := {| planner_name := ""; npm := "" |}; project := "/p";
  plan_nodes := nodes; removed_locations := removed; invalid_edges := [] |}.
Definition folders (l : list (list string)) : Objects := list_to_map ((λ p, (p, Folder)) <$> l).
Definition sample_disk : Disk := {|
  objs := <[["s"; "a"; "1.0.0"; "package.json"] := Regular 0]> (<[["s"; "a"; "1.0.0"; "cli.js"] := Regular 1]>
    (<[["s"; "b"; "1.0.0"; "index.js"] := Regular 2]>
      (folders [[]; ["s"]; ["s"; "a"]; ["s"; "a"; "1.0.0"]; ["s"; "b"]; ["s"; "b"; "1.0.0"]; ["p"]; ["p"; "w"]])));
  inodes := {[0 := {| contents := "{}"; executable := false |};
              1 := {| contents := "main of a"; executable := true |};
              2 := {| contents := "module b"; executable := false |}]} |}.
Definition first_plan : PlacementPlan := sample_plan
  [sample_placement "node_modules/a" "a" false None;
   sample_placement "node_modules/a/node_modules/b" "b" false None;
   sample_placement "node_modules/w" "w" false (Some "w")] [].
#[local] Existing Instances sample_linking sample_store default_iter.

Definition first_run := link_placement_plan ["s"] first_plan ["p"] sample_disk.

(** A disk is well-formed when each of its entries is. *)
Definition all_entries (P : list string → Obj → bool) (d : Disk) : bool :=
  forallb (λ '(p, o), P p o) (map_to_list (objs d)).
Definition wf_entry (d : Disk) (p : list string) (o : Obj) : bool :=
  (bool_decide (p = []) || bool_decide (objs d !! removelast p = Some Folder))
  && match o with Regular i => bool_decide (is_Some (inodes d !! i)) | _ => true end.
Definition no_link (o : Obj) : bool := match o with Link _ => false | _ => true end.
Lemma all_entries_lookup P d p o : all_entries P d = true → objs d !! p = Some o → P p o = true.
Proof.
  unfold all_entries. rewrite forallb_forall. intros Hall Hp%elem_of_map_to_list.
  apply (Hall (p, o)). by apply list_elem_of_In.
Qed.
Lemma dwf_entries d : objs d !! [] = Some Folder → all_entries (wf_entry d) d = true → dwf d.
Proof.
  intros Hroot Hall. split; [done| |].
  - intros p n [o Ho]. apply (all_entries_lookup _ _ _ _ Hall), andb_true_iff, proj1, orb_true_iff in Ho.
    rewrite removelast_snoc, !bool_decide_eq_true in Ho. destruct Ho as [Ho|Ho]; [by destruct p|done].
  - intros p i Hp. by apply (all_entries_lookup _ _ _ _ Hall), andb_true_iff, proj2, bool_decide_eq_true in Hp.
Qed.
Lemma no_links_entries d : all_entries (λ _, no_link) d = true → ∀ p t, objs d !! p ≠ Some (Link t).
Proof. intros Hall p t Hp. by apply (all_entries_lookup _ _ _ _ Hall) in Hp. Qed.


(** A placement that the plan removes below one that it keeps is back after the run: the copy
    of the directory that is kept is made after the removal, from the old tree. *)
Definition second_plan : PlacementPlan := sample_plan
  [sample_placement "node_modules/a" "a" true None] ["node_modules/a/node_modules/b"; "node_modules/w"].
Example removed_comes_back :
  objs (link_placement_plan ["s"] second_plan ["p"] first_run.1).1 !!
    ["p"; "node_modules"; "a"; "node_modules"; "b"; "index.js"] = Some (Regular 2).
Proof. vm_compute. reflexivity. Qed.

(** The record of the last plan is overwritten while the tree it is in is live. *)
Definition other_linking : LinkLib := {| can_link _ _ := true; plan_to_vec p := Ok "another plan" |}.
Example live_record_changes :
  let d := first_run.1 in
  let d' := (@build_placement default_iter other_linking sample_store ["s"] ["p"] true second_plan d).1 in
  objs d' !! ["p"; "node_modules"; ".oath"; "placement-plan.json"] = Some (Regular 3) ∧
  contents <$> inodes d !! 3 = Some "the plan" ∧ contents <$> inodes d' !! 3 = Some "another plan".
Proof. vm_compute. done. Qed.

(** A target that leaves the project behind a directory that does not exist is accepted. *)
Example missing_target_escapes :
  (@validated_workspace_target (path_of ["p"]) "missing/../../elsewhere" sample_disk).2
  = Ok [Normal "p"; Normal "missing"; ParentDir; ParentDir; Normal "elsewhere"].
Proof. vm_compute. reflexivity. Qed.
