(* ===== verification/Layout.v ===== *)
(** * oath-store: the virtual store layout of [link_all] ([linker.rs])

    The tree for a graph without placements: every package in a directory of its own below
    [node_modules/.oath], links to it for the top level, for the packages that depend on it and
    for conflicts, and links to executables. *)
From S2P Require Export Installed.
From S2P Require Import Linker Store.

(** [virtual_key_component]; [safe_fs_component] is [safe_path_component] of the store. *)
Definition virtual_key_component (key : string) : string := safe_path_component key.

Section layout.
Context `{!HashIter, !LinkLib, !StoreLib}.
Context (root project : list string) (graph : DepGraph).
Notation nm_dir := (path_of (stage_path project)).
Definition oath_dir : Path := nm_dir ++ [Normal ".oath"].
(** [.oath/{key}/node_modules], and the package in it *)
Definition virtual_modules (key : string) : Path :=
  oath_dir ++ [Normal (virtual_key_component key); Normal "node_modules"].
Definition virtual_package (key install_name : string) : Path :=
  virtual_modules key ++ components install_name.
Definition scope_of (install_name : string) : string := default "" (head (split_char "/" install_name)).
Definition is_scoped (install_name : string) : bool := has "/" install_name.

(** Phase 1 *)
Definition link_package (result : LinkResult) (e : string * DepNode) : Linking LinkResult :=
  let '(key, node) := e in
  let pkg_store_dir := path_of (root ++ package_dir_for (Graph.name node) (Graph.version node) (Some (Graph.resolved node)) (Graph.integrity node)) in
  found ← asks (exists_ pkg_store_dir);
  if negb (found : bool) then mret (one_missing result)
  else
    let virtual_dir := virtual_package key (install_name node) in
    _ ← create_parent virtual_dir;
    _ ← sys (hardlink_dir pkg_store_dir virtual_dir);
    mret (one_linked result).

(** Phase 2 *)
Definition hoist_target (install key : string) : Path :=
  let down := [Normal ".oath"; Normal (virtual_key_component key); Normal "node_modules"] ++ components install in
  if is_scoped install then ParentDir :: down else down.
Definition hoist_link (result : LinkResult) (e : string * string) : Linking LinkResult :=
  let '(install, key) := e in
  match nodes graph !! key with
  | None => mret result
  | Some _ =>
      _ ← (if is_scoped install then sys (create_dir_all (nm_dir ++ components (scope_of install))) else mret tt);
      _ ← context ("failed to symlink " +:+ install) (symlink (hoist_target install key) (nm_dir ++ components install));
      mret (one_symlink result)
  end.

(** Phase 3 *)
Definition nest_link (result : LinkResult) (e : string * string * string) : Linking LinkResult :=
  let '(parent_key, install, child_key) := e in
  match nodes graph !! parent_key, nodes graph !! child_key with
  | Some parent_node, Some _ =>
      let parent_pkg_dir := virtual_package parent_key (install_name parent_node) in
      there ← asks (exists_ parent_pkg_dir);
      if negb (there : bool) then mret result
      else
        let nested_nm_dir := parent_pkg_dir ++ [Normal "node_modules"] in
        _ ← sys (create_dir_all (if is_scoped install then nested_nm_dir ++ components (scope_of install)
                                 else nested_nm_dir));
        let nested_symlink := nested_nm_dir ++ components install in
        let source := virtual_package child_key install in
        found ← asks (exists_ source);
        taken ← asks (exists_ nested_symlink);
        if negb (found : bool) || (taken : bool) then mret result
        else
          _ ← context ("failed to create nested symlink " +:+ install)
                (symlink (pathdiff_relative nested_symlink source) nested_symlink);
          mret (one_nested result)
  | _, _ => mret result
  end.

(** Phases 4 and 4b: a link beside the package [key] to the package [dep_key]. *)
Definition dependency_link (what key dep_key dep_install : string) (result : LinkResult) : Linking LinkResult :=
  let source := virtual_package dep_key dep_install in
  let target := virtual_package key dep_install in
  found ← asks (exists_ source);
  taken ← asks (exists_ target);
  if (found : bool) && negb (taken : bool) then
    _ ← (if is_scoped dep_install then sys (create_dir_all (virtual_modules key ++ components (scope_of dep_install)))
         else mret tt);
    _ ← context ("failed to symlink " +:+ what) (symlink (pathdiff_relative target source) target);
    mret (one_symlink result)
  else mret result.
Definition link_dependencies (result : LinkResult) (e : string * DepNode) : Linking LinkResult :=
  for_fold (λ result d, dependency_link "dependency" e.1 d.2 (dep_install_name graph d.1 d.2) result)
    result (hash_iter (dependencies e.2)).
Definition link_peers (result : LinkResult) (e : string * DepNode) : Linking LinkResult :=
  for_fold (λ result peer_key,
    match nodes graph !! peer_key with
    | Some peer_node => dependency_link "peer dependency" e.1 peer_key (install_name peer_node) result
    | None => mret result
    end) result (hash_iter (resolved_peers e.2)).*2.

(** Phase 5 *)
Definition hoist_bin (install : string) (result : LinkResult) (bin : string * list string) : Linking LinkResult :=
  let '(bin_name, bin_path) := bin in
  let target := nm_dir ++ components install ++ path_of bin_path in
  let link_path := nm_dir ++ [Normal ".bin"; Normal bin_name] in
  found ← asks (exists_ target);
  taken ← asks (exists_ link_path);
  if (found : bool) && negb (taken : bool) then
    _ ← context ("failed to symlink bin " +:+ bin_name)
          (symlink (ParentDir :: components install ++ path_of bin_path) link_path);
    _ ← attempt (E := Errno) (make_executable target);
    mret (one_bin result)
  else mret result.
Definition hoist_bins (result : LinkResult) (e : string * string) : Linking LinkResult :=
  let '(install, key) := e in
  match nodes graph !! key with
  | None => mret result
  | Some _ =>
      bins ← bin_entries (nm_dir ++ components install ++ [Normal "package.json"]) install;
      for_fold (hoist_bin install) result bins
  end.

Definition manifest_path (nm : Path) : Path := nm ++ [Normal ".oath"; Normal ".link-manifest"].
Definition build_layout : Linking LinkResult :=
  _ ← context "failed to create node_modules/.oath" (create_dir_all oath_dir);
  let plan := build_plan graph in
  result ← for_fold link_package no_links (hash_iter (nodes graph));
  result ← for_fold hoist_link result (btree_iter (hoisted plan));
  result ← for_fold nest_link result (nested plan);
  result ← for_fold link_dependencies result (hash_iter (nodes graph));
  result ← for_fold link_peers result (hash_iter (nodes graph));
  _ ← sys (create_dir_all (nm_dir ++ [Normal ".bin"]));
  result ← for_fold hoist_bins result (btree_iter (hoisted plan));
  _ ← context "failed to write link manifest" (Disk.write (manifest_path nm_dir) (link_manifest graph));
  mret result.

(** [link_all]: nothing is built when the fingerprint of the live tree is that of the graph. *)
Definition link_all : Linking LinkResult :=
  let live := path_of (live_path project) in
  let backup := path_of (backup_path project) in
  _ ← from (match validate_graph_path_names graph with Ok _ => Ok tt | Err e => Err (Says e) end);
  _ ← Materialize.recover_link_transaction live nm_dir backup;
  there ← asks (exists_ live);
  prev ← attempt (E := Errno) (Disk.read_file (manifest_path live));
  if (there : bool) && (match prev with Ok p => bool_decide (p = link_manifest graph) | Err _ => false end) then
    mret {| linked := size (nodes graph); symlinks := 0; nested_links := 0; bins := 0; Materialize.missing := 0 |}
  else
    result ← build_layout;
    _ ← commit_tree false "failed to stage existing node_modules for replacement"
          "failed to atomically promote staged node_modules" "" live nm_dir backup;
    mret result.
End layout.

#[local] Existing Instances sample_linking sample_store default_iter.
Definition node_of (nm ver : string) (deps : gmap string string) : DepNode :=
  {| Graph.name := nm; alias := None; Graph.version := ver; resolved := ""; integrity := None; dependencies := deps;
     has_install_script := false; dev := false; optional := false; peer_dependencies := ∅;
     optional_peers := ∅; resolved_peers := ∅ |}.
