(* ===== verification/Resolves.v ===== *)
(** * Every dependency resolves

    What [link_all] leaves: nothing outside its directories is touched, every package is in its
    directory with all its files, and Node's search from the directory of a package finds, for
    each of its dependencies, the package the graph says. *)
From S2P Require Export Layout.
From S2P Require Import Linker Store.

(** ** Names in the layout *)

(** Names the layout uses itself. *)
Definition reserved : list string := [".bin"; ".oath"; "node_modules"; ".link-manifest"].
Definition at_sign (p : string) : bool := starts_with "@" p.
Inductive parts_of : list string → Prop :=
  | one_part a : at_sign a = false → a ∉ reserved → parts_of [a]
  | two_parts s a : at_sign s = true → s ∉ reserved → a ∉ reserved → parts_of [s; a].
(** An install name that passes the validation and is none of those. *)
Record good_name (n : string) : Prop := {
  gn_valid : validate_install_name n = Ok tt;
  gn_free : Forall (λ p, p ∉ reserved) (split_char "/" n);
}.
Lemma good_name_components n : good_name n → components n = path_of (split_char "/" n).
Proof. intros [Hv _]. by apply validate_install_name_parts, install_parts_components in Hv as (-> & _ & _). Qed.
Lemma good_name_parts n : good_name n → parts_of (split_char "/" n).
Proof.
  intros [Hv Hf]. apply validate_install_name_parts in Hv as (Hn & Hs & _ & Hl).
  destruct Hl as [[Hat Hl]|(Hat & Hl & _)].
  - destruct (split_char "/" n) as [|a [|]]; try done. simpl in Hn. subst a. constructor; [done|].
    by inversion_clear Hf.
  - destruct (split_char "/" n) as [|s [|a [|]]]; try done. inversion_clear Hf as [|?? ? Hf']. inversion_clear Hf'.
    constructor; [|done..]. inversion_clear Hs as [|?? Hs' _]. unfold at_sign.
    destruct Hs' as [Hne _]. rewrite Hn in Hat. simpl in Hat. destruct s as [|x s]; [done|].
    apply starts_with_true in Hat as [r Hr]. apply starts_with_true.
    rewrite !str_app_cons in Hr. injection Hr as -> _. by exists s.
Qed.
Lemma good_name_inj n m : split_char "/" n = split_char "/" m → n = m.
Proof. intros He. rewrite <- (join_split "/" n), <- (join_split "/" m). by rewrite He. Qed.
Lemma good_name_scoped n : good_name n →
  (is_scoped n = false ∧ ∃ a, split_char "/" n = [a]) ∨
  (is_scoped n = true ∧ ∃ s a, split_char "/" n = [s; a] ∧ at_sign s = true ∧ components (scope_of n) = path_of [s]).
Proof.
  intros Hn. pose proof (good_name_parts n Hn) as Hp. pose proof (split_char_has "/" n) as Hh.
  destruct Hn as [Hv _]. apply validate_install_name_parts in Hv as (Hj & Hs & _).
  inversion Hp as [a ? ? He|s a ? ? ? He]; rewrite <- He in *.
  - left. simpl in Hj. split; [|eauto]. unfold is_scoped. rewrite Hj. by inversion_clear Hh.
  - right. split.
    + unfold is_scoped. rewrite Hj. simpl. rewrite !has_app. apply orb_true_iff. by right.
    + exists s, a. split_and!; [done..|]. unfold scope_of. rewrite <- He. simpl.
      inversion_clear Hs. by apply components_name.
Qed.

(** ** Where the entries of the tree come from *)

Section resolves.
Context `{!HashIter, !LinkLib, !StoreLib}.
Context (root project : list string) (graph : DepGraph) (d1 : Disk).
Notation live := (live_path project).
Notation stage := (stage_path project).
Notation parts n := (split_char "/" n).

Definition source_of (node : DepNode) : list string :=
  root ++ package_dir_for (Graph.name node) (Graph.version node) (Some (Graph.resolved node)) (Graph.integrity node).
(** [.oath/{key}/node_modules] and the packages in it, as names. *)
Definition modules (key : string) : list string := [".oath"; virtual_key_component key; "node_modules"].
Definition package (key : string) (install : string) : list string := modules key ++ parts install.
(** Node [k] depends on [c], or has it as a peer, under the install name [n]. *)
Definition edge (k n c : string) : Prop :=
  ∃ node, nodes graph !! k = Some node ∧
    ((∃ d, dependencies node !! d = Some c ∧ n = dep_install_name graph d c) ∨
     (∃ p peer, resolved_peers node !! p = Some c ∧ nodes graph !! c = Some peer ∧ n = install_name peer)).
Definition own_dir (r : list string) : Prop :=
  r = [] ∨ r = [".oath"] ∨ r = [".bin"] ∨ (∃ s, at_sign s = true ∧ r = [s]) ∨
  (∃ k, r = [".oath"; virtual_key_component k] ∨ r = modules k) ∨
  (∃ k s, at_sign s = true ∧ r = modules k ++ [s]) ∨
  (∃ k node, nodes graph !! k = Some node ∧
     (r = package k (install_name node) ∨ r = package k (install_name node) ++ ["node_modules"] ∨
      ∃ s, at_sign s = true ∧ r = package k (install_name node) ++ ["node_modules"; s])).
Definition relative_link (r target : list string) : Path :=
  pathdiff_relative (path_of (stage ++ r)) (path_of (stage ++ target)).

Inductive link_origin (r : list string) (to : Path) : Prop :=
  | top_link n k : hoisted (build_plan graph) !! n = Some k → good_name n → r = parts n →
      to = hoist_target n k → link_origin r to
  | nested_link k node n c : nodes graph !! k = Some node → (k, n, c) ∈ nested (build_plan graph) → good_name n →
      r = package k (install_name node) ++ "node_modules" :: parts n → to = relative_link r (package c n) →
      link_origin r to
  | dep_link k n c : edge k n c → good_name n → r = package k n → to = relative_link r (package c n) → link_origin r to
  | bin_link x : r = [".bin"; x] → link_origin r to.
Inductive origin (I : gmap nat Inode) (r : list string) : Obj → Prop :=
  | own_origin : own_dir r → origin I r Folder
  | dir_origin k node y : nodes graph !! k = Some node → r = package k (install_name node) ++ y →
      objs d1 !! (source_of node ++ y) = Some Folder → origin I r Folder
  | file_origin k node y i j : nodes graph !! k = Some node → r = package k (install_name node) ++ y →
      objs d1 !! (source_of node ++ y) = Some (Regular i) →
      contents <$> I !! j = contents <$> inodes d1 !! i → origin I r (Regular j)
  | link_origin_ to : link_origin r to → origin I r (Link to).

(** What is assumed of the graph and the store: names that are valid and not the layout's,
    nonempty keys, all packages in the store, not behind links and without bundled ones, a
    store apart from the directories of the project. *)
Record layout_good : Prop := {
  lg_name k node : nodes graph !! k = Some node → k ≠ "" ∧ good_name (install_name node);
  lg_key k node : nodes graph !! k = Some node → virtual_key_component k ≠ "node_modules";
  lg_dep k node d c : nodes graph !! k = Some node → dependencies node !! d = Some c → good_name d;
  lg_store k node : nodes graph !! k = Some node → objs d1 !! source_of node = Some Folder;
  lg_source k node : nodes graph !! k = Some node → unlinked (objs d1) (source_of node);
  lg_bundled k node : nodes graph !! k = Some node → objs d1 !! (source_of node ++ ["node_modules"]) = None;
  lg_root n : n ∈ ["node_modules"; ".oath-node_modules-stage"; ".oath-node_modules-backup"] →
    ¬ project ++ [n] `prefix_of` root ∧ ¬ root `prefix_of` project ++ [n];
}.
Record layout_ready : Prop := {
  lr_good :> layout_good;
  lr_ready : ready project d1;
  lr_stage r : objs d1 !! (stage ++ r) = None;
}.
Context (Hgood : layout_ready).

Lemma key_inj k k' node node' : nodes graph !! k = Some node → nodes graph !! k' = Some node' →
  virtual_key_component k = virtual_key_component k' → k = k'.
Proof. intros Hk Hk'. apply safe_path_component_inj; by eapply (lg_name Hgood). Qed.

(** Contents are kept: old inodes can only become executable. *)
Definition same_contents (I I' : gmap nat Inode) : Prop :=
  ∀ i c, I !! i = Some c → contents <$> I' !! i = Some (contents c).
Record laid (d : Disk) : Prop := {
  l_wf : dwf d;
  l_frame p : ¬ stage `prefix_of` p → objs d !! p = objs d1 !! p;
  l_inodes : same_contents (inodes d1) (inodes d);
  l_entry r o : objs d !! (stage ++ r) = Some o → origin (inodes d) r o;
}.

(** ** Where there is no link *)

(** Compares paths of the layout, given the shape of install names. *)
Ltac shape n :=
  let Hp := fresh "Hp" in
  match goal with H : good_name n |- _ => pose proof (good_name_parts n H) as Hp end;
  destruct Hp; simplify_eq/=.
Ltac not_reserved :=
  solve [done | congruence | match goal with H : ?x ∉ reserved |- _ => by destruct H; apply (bool_decide_unpack _) end].

Lemma no_link_of r : (∀ to, ¬ link_origin r to) → ∀ d, laid d → ∀ t, objs d !! (stage ++ r) ≠ Some (Link t).
Proof. intros Hr d Hd t Ht. apply (l_entry d Hd) in Ht. inversion Ht. by eapply Hr. Qed.

Lemma no_link_scope s : at_sign s = true → ∀ to, ¬ link_origin [s] to.
Proof.
  intros Hs to [n k _ Hn He _|k node n c _ _ _ He _|k n c _ _ He _|x He]; [|done..].
  apply good_name_parts in Hn. rewrite <- He in Hn. inversion Hn. congruence.
Qed.
Lemma no_link_modules k l : l `prefix_of` modules k → ∀ to, ¬ link_origin l to.
Proof.
  intros [l' Hl] to [n k' _ Hn He _|k' node n c _ _ _ He _|k' n c _ Hn He _|x He]; subst l; unfold package, modules in *; simplify_eq/=.
  - shape n; not_reserved.
  - destruct (parts (install_name node)); simplify_eq/=.
  - shape n.
Qed.
Lemma no_link_modules_scope k s : at_sign s = true → ∀ to, ¬ link_origin (modules k ++ [s]) to.
Proof.
  intros Hs to [n k' _ Hn He _|k' node n c _ _ _ He _|k' n c _ Hn He _|x He]; unfold package, modules in *; simplify_eq/=.
  - shape n; not_reserved.
  - destruct (parts (install_name node)) as [|? [|]]; simplify_eq/=.
  - shape n; not_reserved.
Qed.
Lemma no_link_dot_bin to : ¬ link_origin [".bin"] to.
Proof.
  intros [n k' _ Hn He _|k' node n c _ _ _ He _|k' n c _ Hn He _|x He]; unfold package, modules in *; simplify_eq/=.
  shape n; not_reserved.
Qed.
Lemma no_link_manifest to : ¬ link_origin [".oath"; ".link-manifest"] to.
Proof.
  intros [n k' _ Hn He _|k' node n c _ _ _ He _|k' n c _ Hn He _|x He]; unfold package, modules in *; simplify_eq/=.
  shape n; not_reserved.
Qed.
(** In the directory of a package only the nested links are links. *)
Lemma package_app k k' node node' y y' : nodes graph !! k = Some node → nodes graph !! k' = Some node' →
  package k (install_name node) ++ y = package k' (install_name node') ++ y' → k = k' ∧ node = node' ∧ y = y'.
Proof.
  intros Hk Hk' He. unfold package, modules in He. simpl in He. injection He as Hv He.
  assert (k = k') as -> by (by eapply key_inj). rewrite Hk in Hk'. injection Hk' as ->.
  split_and!; [done..|]. by apply app_inv_head in He.
Qed.
Lemma no_link_package k node y to : nodes graph !! k = Some node →
  y = ["node_modules"] ∨ (∃ s, at_sign s = true ∧ y = ["node_modules"; s]) →
  ¬ link_origin (package k (install_name node) ++ y) to.
Proof.
  intros Hk Hy [n k' _ Hn He _|k' node' n c Hk' _ Hn He _|k' n c _ Hn He _|x He].
  - unfold package, modules in He. simplify_eq/=. shape n.
  - apply package_app in He as (-> & -> & He); [|done..].
    destruct Hy as [->|(s & Hs & ->)]; simplify_eq/=; shape n; congruence.
  - pose proof (proj2 (lg_name Hgood k node Hk)) as Hm. unfold package, modules in He. simpl in He. injection He as _ He.
    revert He. remember (install_name node) as m eqn:Em. clear Em. intros He.
    destruct Hy as [->|(s & Hs & ->)]; shape m; shape n; not_reserved.
  - unfold package, modules in He. simplify_eq/=.
Qed.

(** ** Steps of the build *)

Lemma contents_weaken I I' j c : same_contents I I' → is_Some (I !! j) →
  contents <$> I !! j = c → contents <$> I' !! j = c.
Proof. intros HI [n Hn] <-. rewrite Hn. simpl. by apply HI. Qed.
Lemma same_contents_refl I : same_contents I I.
Proof. intros i c Hi. by rewrite Hi. Qed.
Lemma same_contents_subseteq I I' : I ⊆ I' → same_contents I I'.
Proof. intros HI i c Hi. by rewrite (lookup_weaken _ _ _ _ Hi HI). Qed.
Lemma same_contents_trans I I' I'' : same_contents I I' → same_contents I' I'' → same_contents I I''.
Proof.
  intros Ha Hb i c Hi. specialize (Ha i c Hi). destruct (I' !! i) as [c'|] eqn:Hi'; [|done].
  by rewrite (Hb i c' Hi').
Qed.
Lemma origin_mono I I' r o : same_contents I I' → (∀ j, o = Regular j → is_Some (I !! j)) →
  origin I r o → origin I' r o.
Proof.
  intros HI Hj Ho. destruct Ho as [|k node y|k node y i j Hk Hr Hi Hc|to Hl].
  - by constructor.
  - by eapply dir_origin.
  - eapply file_origin; [done..|]. by eapply contents_weaken, Hc; [|apply Hj].
  - by constructor.
Qed.

(** What later steps keep. *)
Record later (d d' : Disk) : Prop := {
  later_objs p o : objs d !! p = Some o → objs d' !! p = Some o;
  later_inodes : same_contents (inodes d) (inodes d');
}.
Lemma later_refl d : later d d.
Proof. split; [done|apply same_contents_refl]. Qed.
Lemma later_trans d d' d'' : later d d' → later d' d'' → later d d''.
Proof. intros [] []. split; [auto|by eapply same_contents_trans]. Qed.
Lemma later_put d p o : objs d !! p = None → later d (set_objs <[p := o]> d).
Proof.
  intros Hp. split; [|apply same_contents_refl]. intros q o' Hq. simpl.
  rewrite lookup_insert_ne; [done|]. by intros ->; rewrite Hp in Hq.
Qed.

Lemma laid_start : laid d1.
Proof. split; [apply Hgood|done|apply same_contents_refl|]. intros r o. by rewrite (lr_stage Hgood). Qed.
Lemma laid_project d : laid d → objs d !! project = Some Folder.
Proof.
  intros Hd. rewrite (l_frame d Hd); [apply (lr_ready Hgood)|].
  intros Hp%prefix_length. unfold stage_path in Hp. rewrite length_app in Hp. simpl in Hp. lia.
Qed.
Lemma laid_put d r o : laid d → vacant d (stage ++ r) → origin (inodes d) r o → (∀ i, o ≠ Regular i) →
  laid (set_objs <[stage ++ r := o]> d).
Proof.
  intros Hd Hv Ho Hi. split; simpl.
  - apply dwf_put; [apply Hd|done|]. intros i ->. by destruct (Hi i).
  - intros p Hp. rewrite lookup_insert_ne; [by apply Hd|]. intros <-. apply Hp. by eexists.
  - apply Hd.
  - intros x o'. destruct (decide (r = x)) as [->|Hne].
    + rewrite lookup_insert_eq. by intros [= <-].
    + rewrite lookup_insert_ne by (by intros ?%app_inv_head). apply Hd.
Qed.
Lemma laid_inodes d I : laid d → same_contents (inodes d) I → laid {| objs := objs d; inodes := I |}.
Proof.
  intros Hd HI. assert (∀ i, is_Some (inodes d !! i) → is_Some (I !! i)) as Hdom.
  { intros i [c Hc]. apply HI in Hc. destruct (I !! i); [eauto|done]. }
  split; simpl.
  - split; simpl; [apply Hd|apply Hd|]. intros p i Hp. apply Hdom. by eapply (dwf_ino d), Hp; apply Hd.
  - apply Hd.
  - eapply same_contents_trans; [apply Hd|done].
  - intros r o Ho. eapply origin_mono; [done| |by apply Hd]. intros j ->. by eapply (dwf_ino d), Ho; apply Hd.
Qed.
Lemma laid_unlinked d r : laid d → (∀ q, q `prefix_of` r → ∀ to, ¬ link_origin q to) → unlinked (objs d) (stage ++ r).
Proof.
  intros Hd Hr q t Hq. destruct (decide (stage `prefix_of` q)) as [[x ->]|Hs].
  - apply prefix_app_inv in Hq. by apply no_link_of; [apply Hr|].
  - assert (q `prefix_of` project) as Hp.
    { destruct (prefix_weak_total stage q (stage ++ r)) as [|Hq']; [by eexists|done|done|].
      unfold stage_path in Hq'. apply prefix_snoc in Hq' as [->|]; [|done]. by destruct Hs. }
    by apply (unlinked_folder d project); [apply Hd|apply laid_project|].
Qed.

(** Directories of the layout, below one that is there. *)
Lemma wp_own_dirs base c d (K : Disk → Prop) :
  laid d → objs d !! base = Some Folder →
  (∀ c', c' ≠ [] → c' `prefix_of` c → ∃ r, base ++ c' = stage ++ r ∧ own_dir r ∧ ∀ to, ¬ link_origin r to) →
  K d → (∀ d c', K d → c' ≠ [] → c' `prefix_of` c → K (set_objs <[base ++ c' := Folder]> d)) →
  wp (create_dir_all (path_of (base ++ c))) (λ r d', laid d' ∧ later d d' ∧ K d' ∧
    (is_ok r = true → objs d' !! (base ++ c) = Some Folder)) d.
Proof.
  intros Hd Hbase Hc HK Hput.
  eapply wp_io_mono; [|apply (wp_create_dir_all (λ d', laid d' ∧ later d d' ∧ K d'))].
  - intros r d' ((? & ? & ?) & ?). done.
  - intros d' (Hd' & Hl & _). split; [apply Hd'|]. intros q t Hq.
    assert (objs d' !! base = Some Folder) as Hbase' by by apply Hl.
    destruct (prefix_weak_total base q (base ++ c)) as [[c' ->]|Hq']; [by eexists|done| |].
    + apply prefix_app_inv in Hq. destruct (decide (c' = [])) as [->|Hne]; [by rewrite app_nil_r, Hbase'|].
      destruct (Hc c' Hne Hq) as (r & -> & _ & Hn). by apply no_link_of.
    + by apply (unlinked_folder d' base); [apply Hd'|..].
  - intros d' q (Hd' & Hl & HK') Hq Hv. pose proof (later_objs _ _ Hl _ _ Hbase) as Hbase'.
    assert (∃ c', q = base ++ c' ∧ c' ≠ []) as (c' & -> & Hne).
    { destruct (prefix_weak_total base q (base ++ c)) as [[c' ->]|Hq']; [by eexists|done| |].
      - exists c'. split; [done|]. intros ->. rewrite app_nil_r in Hv. destruct Hv as [Hv _]. by rewrite Hbase' in Hv.
      - destruct Hv as [Hv _]. destruct (decide (q = base)) as [->|]; [by rewrite Hbase' in Hv|].
        rewrite (dwf_above d' base q) in Hv; [done|apply Hd'|eauto|done..]. }
    apply prefix_app_inv in Hq. destruct (Hc c' Hne Hq) as (r & Hr & Ho & Hn).
    split_and!; [|by eapply later_trans; [|apply later_put, Hv]|by apply Hput].
    rewrite Hr in Hv |- *. apply laid_put; [done|done|by constructor|done].
  - split_and!; [done|apply later_refl|done].
Qed.

(** A link of the layout. *)
Lemma wp_own_link x a to d :
  laid d → unlinked (objs d) (stage ++ x) → link_origin (x ++ [a]) to →
  wp (symlink to (path_of (stage ++ x ++ [a]))) (λ r d', laid d' ∧ later d d' ∧
    (is_ok r = true → objs d' !! (stage ++ x ++ [a]) = Some (Link to))) d.
Proof.
  intros Hd Hu Ho. apply wp_symlink; [apply Hd|rewrite (assoc_L app); by apply unlinked_snoc| |].
  - intros Hv. split_and!; [|apply later_put, Hv|].
    + apply laid_put; [done|done|by constructor|done].
    + intros _. simpl. by rewrite lookup_insert_eq.
  - intros e. split_and!; [done|apply later_refl|done].
Qed.
Lemma exists_some d p : objs d !! [] = Some Folder → plain (objs d) p → exists_ (path_of p) d = true → is_Some (objs d !! p).
Proof.
  intros Hr Hp He. destruct (objs d !! p) as [o|] eqn:Ho; [eauto|].
  unfold exists_ in He. apply is_ok_true in He as [[q o] Hl].
  apply look_plain in Hl as [-> Hl]; [by rewrite Ho in Hl|done|done|]. right. by rewrite Ho.
Qed.

(** ** Phase 1: the packages *)

Lemma source_apart node r : ¬ stage `prefix_of` source_of node ++ r ∧ ¬ source_of node `prefix_of` stage ++ r.
Proof.
  destruct (lg_root Hgood ".oath-node_modules-stage") as [Ha1 Ha2]; [set_solver|].
  assert (∀ k, root `prefix_of` k → stage `prefix_of` k → False) as Hcmp.
  { intros k Hk1 Hk2. destruct (prefix_weak_total root stage k); done. }
  unfold source_of. split; intros Hp.
  - eapply Hcmp; [|exact Hp]. rewrite <- (assoc_L app). by eexists.
  - apply prefix_app_l in Hp. eapply Hcmp; [exact Hp|]. by eexists.
Qed.
Lemma source_same d node r : laid d → objs d !! (source_of node ++ r) = objs d1 !! (source_of node ++ r).
Proof. intros Hd. apply Hd, source_apart. Qed.
Lemma source_unlinked d k node : laid d → nodes graph !! k = Some node → unlinked (objs d) (source_of node).
Proof.
  intros Hd Hk q t Hq. rewrite (l_frame d Hd); [by eapply (lg_source Hgood)|]. intros Hs.
  destruct (source_apart node []) as [Ha _]. apply Ha. rewrite app_nil_r. by trans q.
Qed.

Definition in_store (node : DepNode) : Prop := objs d1 !! source_of node = Some Folder.
Definition holds (o : option Obj) (d : Disk) (o' : option Obj) : Prop :=
  match o with
  | Some Folder => o' = Some Folder
  | Some (Regular i) => ∃ j, o' = Some (Regular j) ∧ contents <$> inodes d !! j = contents <$> inodes d1 !! i
  | _ => True
  end.
Definition filled (k : string) (node : DepNode) (d : Disk) : Prop :=
  ∀ y, holds (objs d1 !! (source_of node ++ y)) d (objs d !! ((stage ++ package k (install_name node)) ++ y)).
Definition absent (k : string) (d : Disk) : Prop := objs d !! (stage ++ [".oath"; virtual_key_component k]) = None.

Lemma holds_later o d d' p : dwf d → later d d' → holds o d (objs d !! p) → holds o d' (objs d' !! p).
Proof.
  intros Hd Hl. destruct o as [[|i|]|]; simpl; [by apply Hl| |done..]. intros (j & Hj & Hc). exists j.
  split; [by apply Hl|]. eapply contents_weaken; [apply Hl|by eapply dwf_ino|done].
Qed.
Lemma filled_later k node d d' : laid d → later d d' → filled k node d → filled k node d'.
Proof. intros Hd Hl Hf y. by eapply holds_later; [apply Hd|..]. Qed.
Lemma filled_folder k node d : in_store node → filled k node d → objs d !! (stage ++ package k (install_name node)) = Some Folder.
Proof. intros Hs Hf. specialize (Hf []). rewrite !app_nil_r in Hf. by rewrite Hs in Hf. Qed.

Lemma virtual_package_path k n : good_name n → virtual_package project k n = path_of (stage ++ package k n).
Proof.
  intros Hn. unfold virtual_package, virtual_modules, oath_dir. rewrite (good_name_components n Hn).
  unfold package, modules, path_of. rewrite !fmap_app, <- !(assoc_L app). done.
Qed.
Lemma good_name_split n : good_name n → ∃ l x, parts n = l ++ [x] ∧ (l = [] ∨ ∃ s, l = [s] ∧ at_sign s = true).
Proof. intros Hn. destruct (good_name_parts n Hn) as [a|s a Hs]; [by exists [], a; auto|exists [s], a; eauto]. Qed.

Lemma copied_laid k node d d' : nodes graph !! k = Some node → laid d →
  (∀ y, objs d !! ((stage ++ package k (install_name node)) ++ y) = None) →
  copied (source_of node) (stage ++ package k (install_name node)) d d' →
  laid d' ∧ later d d' ∧ filled k node d'.
Proof.
  intros Hk Hd Hfree Hc. pose proof (copied_inodes _ _ _ _ Hc) as Hi.
  assert (∀ y i, objs d1 !! (source_of node ++ y) = Some (Regular i) → contents <$> inodes d !! i = contents <$> inodes d1 !! i) as Hsource.
  { intros y i Hy. apply (dwf_ino d1) in Hy as [c Hy]; [|apply Hgood]. rewrite Hy. simpl. by apply (l_inodes d Hd). }
  split_and!.
  - split; [apply Hc| | |].
    + intros p Hp. rewrite (copied_frame _ _ _ _ Hc); [by apply Hd|]. intros Hp'. apply Hp. etrans; [|done]. by eexists.
    + eapply same_contents_trans; [apply Hd|by apply same_contents_subseteq].
    + intros r o Ho. destruct (decide (package k (install_name node) `prefix_of` r)) as [[y ->]|Hr].
      * pose proof (copied_clone _ _ _ _ Hc y) as Hy. rewrite <- (assoc_L app), Ho, source_same in Hy by done.
        destruct (objs d1 !! (source_of node ++ y)) as [[|i|]|] eqn:Hs; simpl in Hy; try done.
        -- injection Hy as ->. by eapply dir_origin.
        -- destruct Hy as (j & [= ->] & _ & Hj). eapply file_origin; [done..|]. rewrite Hj. by eapply Hsource.
      * rewrite (copied_frame _ _ _ _ Hc) in Ho by (by intros ?%prefix_app_inv).
        eapply origin_mono; [by apply same_contents_subseteq| |by apply Hd]. intros j ->. by eapply (dwf_ino d), Ho; apply Hd.
  - split; [|by apply same_contents_subseteq]. intros p o Ho. rewrite (copied_frame _ _ _ _ Hc); [done|].
    intros [y ->]. by rewrite Hfree in Ho.
  - intros y. pose proof (copied_clone _ _ _ _ Hc y) as Hy. rewrite source_same in Hy by done.
    destruct (objs d1 !! (source_of node ++ y)) as [[|i|]|] eqn:Hs; simpl in Hy |- *; try done.
    destruct Hy as (j & Hj & _ & Hij). exists j. split; [done|]. rewrite Hij. by eapply Hsource.
Qed.

Lemma modules_dirs k l : l = [] ∨ (∃ s, l = [s] ∧ at_sign s = true) →
  ∀ c', c' ≠ [] → c' `prefix_of` [virtual_key_component k; "node_modules"] ++ l →
  ∃ r, (stage ++ [".oath"]) ++ c' = stage ++ r ∧ own_dir r ∧ ∀ to, ¬ link_origin r to.
Proof.
  intros Hl c' Hne Hc. exists (".oath" :: c'). split; [by rewrite <- (assoc_L app)|].
  assert (c' = [virtual_key_component k] ∨ c' = [virtual_key_component k; "node_modules"] ∨
    ∃ s, at_sign s = true ∧ c' = [virtual_key_component k; "node_modules"; s]) as Hcases.
  { destruct Hc as [z Hz]. destruct Hl as [->|(s & -> & Hs)];
      destruct c' as [|? [|? [|? [|]]]]; simplify_eq/=; eauto. }
  destruct Hcases as [->|[->|(s & Hs & ->)]].
  - split; [unfold own_dir; eauto 10|]. apply (no_link_modules k). by exists ["node_modules"].
  - split; [unfold own_dir, modules; eauto 10|]. by apply (no_link_modules k).
  - split; [unfold own_dir, modules; eauto 10|]. by apply (no_link_modules_scope k s).
Qed.

Lemma wp_link_package res k node d :
  nodes graph !! k = Some node → laid d → objs d !! (stage ++ [".oath"]) = Some Folder → absent k d →
  wp (link_package root project res (k, node)) (λ r d', laid d' ∧ later d d' ∧
    (∀ k' node', nodes graph !! k' = Some node' → k' ≠ k → absent k' d → absent k' d') ∧
    (is_ok r = true → in_store node → filled k node d')) d.
Proof.
  intros Hk Hd Hoath Hab. pose proof (proj2 (lg_name Hgood k node Hk)) as Hn.
  unfold link_package. fold (source_of node). apply wp_io_bind, wp_asks. rewrite virtual_package_path by done.
  destruct (exists_ (path_of (source_of node)) d) eqn:He.
  2: { apply wp_io_ret. split_and!; [done|apply later_refl|done|]. intros _ Hs. unfold in_store in Hs.
       rewrite <- (app_nil_r (source_of node)), <- (source_same d), app_nil_r in Hs by done.
       by erewrite exists_there in He by (done || apply Hd). }
  set (p := package k (install_name node)).
  assert (∀ y, objs d !! ((stage ++ p) ++ y) = None) as Hfree.
  { intros y. unfold p, package, modules. change ([".oath"; virtual_key_component k; "node_modules"] ++ parts (install_name node))
      with ([".oath"; virtual_key_component k] ++ ("node_modules" :: parts (install_name node))).
    rewrite (assoc_L app), <- (assoc_L app). apply vacant_below; [apply Hd|done]. }
  destruct (good_name_split _ Hn) as (l & x & Hl & Hshape).
  assert (parent (path_of (stage ++ p)) = Some (path_of ((stage ++ [".oath"]) ++ [virtual_key_component k; "node_modules"] ++ l))) as Hparent.
  { unfold p, package. rewrite Hl. unfold parent, path_of, modules. rewrite !(assoc_L app), !fmap_app. simpl.
    rewrite last_snoc, removelast_snoc. by rewrite <- !(assoc_L app). }
  apply wp_io_bind. unfold create_parent. rewrite Hparent. apply wp_map_err.
  set (K := λ d' : Disk, (∀ k' node', nodes graph !! k' = Some node' → k' ≠ k → absent k' d → absent k' d') ∧
    ∀ y, objs d' !! ((stage ++ p) ++ y) = None).
  eapply wp_io_mono; [|apply (wp_own_dirs (stage ++ [".oath"]) ([virtual_key_component k; "node_modules"] ++ l) d K)];
    [|done|done|by apply modules_dirs|by split|].
  2: { intros d' c' [HK1 HK2] Hne [z Hz]. split.
       - intros k' node' Hk' Hkk Hab'. unfold absent. simpl. rewrite lookup_insert_ne; [by eapply HK1|].
         rewrite <- (assoc_L app). intros He'%app_inv_head. simplify_eq/=. by apply Hkk; symmetry; eapply key_inj.
       - intros y. simpl. rewrite lookup_insert_ne; [apply HK2|]. unfold p, package, modules. rewrite Hl, <- !(assoc_L app).
         intros He'%app_inv_head. apply (f_equal length) in Hz, He'. rewrite !length_app in Hz, He'. simpl in Hz, He'. 
         rewrite !length_app in He'. simpl in He'. lia. }
  intros [[]|e] d2 (Hd2 & Hl2 & [HK1 HK2] & Hdir); [|by split_and!]. specialize (Hdir eq_refl).
  assert (∀ r, ¬ stage ++ p `prefix_of` stage ++ [".oath"; r]) as Hshort.
  { intros r Hp%prefix_app_inv. apply prefix_length in Hp. unfold p, package, modules in Hp. simpl in Hp. lia. }
  assert (vacant d2 (stage ++ p)) as Hv.
  { split; [rewrite <- (app_nil_r (stage ++ p)); apply HK2|]. eexists _, x. split; [|exact Hdir].
    unfold p, package, modules. rewrite Hl. by rewrite <- !(assoc_L app). }
  apply wp_io_bind, wp_map_err, wp_hardlink_dir; [apply Hd2|by eapply source_unlinked|done|apply source_apart|..].
  - intros Hp. destruct (source_apart node []) as [Ha _]. apply Ha. rewrite app_nil_r. etrans; [|done]. by eexists.
  - intros d3 _ Hc. destruct (copied_laid k node d2 d3) as (Hd3 & Hl3 & Hf3); [done..|].
    apply wp_io_ret. split_and!; [done|by eapply later_trans| |done].
    intros k' node' Hk' Hkk Hab'. unfold absent. rewrite (copied_frame _ _ _ _ Hc); [by eapply HK1|apply Hshort].
  - intros e. split_and!; [|eapply later_trans; [done|]; by apply later_put, Hv| |done].
    + apply laid_put; [done|done| |done]. constructor. unfold own_dir, p. eauto 12.
    + intros k' node' Hk' Hkk Hab'. unfold absent. simpl. rewrite lookup_insert_ne; [by eapply HK1|].
      intros He'. apply (Hshort (virtual_key_component k')). by rewrite He'.
Qed.

(** All packages: each is in its directory, if the store has it. *)
Lemma wp_link_packages l res d :
  (∀ k node, (k, node) ∈ l → nodes graph !! k = Some node) → NoDup l.*1 →
  laid d → objs d !! (stage ++ [".oath"]) = Some Folder → (∀ k, k ∈ l.*1 → absent k d) →
  wp (for_fold (link_package root project) res l) (λ r d', laid d' ∧ later d d' ∧
    (is_ok r = true → ∀ k node, (k, node) ∈ l → in_store node → filled k node d')) d.
Proof.
  revert res d. induction l as [|[k node] l IH]; intros res d Hl Hnd Hd Ho Hab; simpl.
  { apply wp_io_ret. split_and!; [done|apply later_refl|]. by intros _ k node ?%elem_of_nil. }
  apply NoDup_cons in Hnd as [Hk Hnd]. simpl in Hk.
  apply wp_io_bind. eapply wp_io_mono; [|apply (wp_link_package res k node); [apply Hl; left|done|done|apply Hab; left]].
  intros [r|e] d2 (Hd2 & Hl2 & Hab2 & Hf2); [|done]. specialize (Hf2 eq_refl).
  eapply wp_io_mono; [|apply (IH r d2)].
  - intros r' d3 (Hd3 & Hl3 & Hf3). split_and!; [done|by eapply later_trans|]. intros Hr' k' node' [[= -> ->]|Hin]%elem_of_cons Hs.
    + eapply filled_later; [|done|]; auto.
    + by apply Hf3.
  - intros k' node' Hin. apply Hl. by right.
  - done.
  - done.
  - by apply Hl2.
  - intros k' Hin. apply list_elem_of_fmap in Hin as ([k1 node1] & -> & Hin). simpl. eapply Hab2; [by apply Hl; right| |].
    + intros ->. apply Hk, list_elem_of_fmap. by exists (k, node1).
    + apply Hab. right. apply list_elem_of_fmap. by exists (k1, node1).
Qed.

(** ** The links *)

(** All packages are in place. *)
Definition packed (d : Disk) : Prop := objs d !! stage = Some Folder ∧
  ∀ k node, nodes graph !! k = Some node → filled k node d.
Lemma packed_later d d' : laid d → packed d → later d d' → packed d'.
Proof. intros Hd [Hs Hp] Hl. split; [by apply Hl|]. intros k node Hk. eapply filled_later; eauto. Qed.
Lemma packed_folder d k node : nodes graph !! k = Some node → packed d →
  objs d !! (stage ++ package k (install_name node)) = Some Folder.
Proof. intros Hk [_ Hp]. apply filled_folder; [by eapply (lg_store Hgood)|auto]. Qed.

(** A loop whose steps only add to the tree. *)
Lemma wp_fold_later {A} (f : LinkResult → A → Linking LinkResult) (G : A → Disk → Prop) l res d :
  (∀ x d d', later d d' → G x d → G x d') →
  (∀ res x d, x ∈ l → laid d → packed d →
     wp (f res x) (λ r d', laid d' ∧ later d d' ∧ (is_ok r = true → G x d')) d) →
  laid d → packed d →
  wp (for_fold f res l) (λ r d', laid d' ∧ later d d' ∧ (is_ok r = true → ∀ x, x ∈ l → G x d')) d.
Proof.
  intros HG Hf. revert res d. induction l as [|x l IH]; intros res d Hd Hp; simpl.
  { apply wp_io_ret. split_and!; [done|apply later_refl|]. by intros _ x ?%elem_of_nil. }
  apply wp_io_bind. eapply wp_io_mono; [|apply Hf; [left|done..]]. intros [r|e] d2 (Hd2 & Hl2 & Hg2); [|done].
  eapply wp_io_mono; [|apply (IH (λ res y d Hy, Hf res y d (proj2 (elem_of_cons _ _ _) (or_intror Hy))) r d2); [done|by apply (packed_later d)]].
  intros r' d3 (Hd3 & Hl3 & Hg3). split_and!; [done|by eapply later_trans|].
  intros Hr' y [->|Hy]%elem_of_cons; [eapply HG; [done|by apply Hg2]|by apply Hg3].
Qed.
Definition placed_at (r : list string) (d : Disk) : Prop := is_Some (objs d !! (stage ++ r)).
Lemma placed_at_later r d d' : later d d' → placed_at r d → placed_at r d'.
Proof. intros Hl [o Ho]. exists o. by apply Hl. Qed.

(** The scope of a name in a directory of the layout, and the link to the name in it. *)
Lemma wp_scoped_link r n to d (m : Linking LinkResult) (Q : result LinkError LinkResult → Disk → Prop) message :
  good_name n → laid d → objs d !! (stage ++ r) = Some Folder →
  (∀ s, at_sign s = true → own_dir (r ++ [s]) ∧ ∀ to, ¬ link_origin (r ++ [s]) to) →
  link_origin (r ++ parts n) to →
  (∀ d', laid d' → later d d' → objs d' !! (stage ++ r ++ parts n) = Some (Link to) → wp m Q d') →
  (∀ e d', laid d' → later d d' → Q (Err e) d') →
  wp (_ ← (if is_scoped n then sys (create_dir_all (path_of (stage ++ r) ++ components (scope_of n))) else mret tt);
      _ ← Materialize.context message (symlink to (path_of (stage ++ r ++ parts n))); m) Q d.
Proof.
  intros Hn Hd Hr Hs Ho HQ He.
  assert (∀ d' l a, laid d' → later d d' → parts n = l ++ [a] → unlinked (objs d') (stage ++ r ++ l) →
    wp (_ ← Materialize.context message (symlink to (path_of (stage ++ r ++ parts n))); m) Q d') as Hlink.
  { intros d' l a Hd' Hl' Hp Hu. apply wp_io_bind, wp_map_err. rewrite Hp in Ho |- *.
    rewrite (assoc_L app r) in Ho |- *. eapply wp_io_mono; [|by apply wp_own_link].
    intros [[]|e] d3 (Hd3 & Hl3 & Hok); [|apply He; [done|by eapply later_trans]].
    apply HQ; [done|by eapply later_trans|]. rewrite Hp, (assoc_L app r). by apply Hok. }
  destruct (good_name_scoped n Hn) as [[-> (a & Ha)]|[-> (s & a & Ha & Hat & Hc)]].
  - apply wp_io_bind, wp_io_ret, (Hlink d [] a); [done|apply later_refl|done|].
    rewrite app_nil_r. by apply (unlinked_folder d); [apply Hd|].
  - rewrite Hc, <- path_of_app. apply wp_io_bind, wp_map_err.
    eapply wp_io_mono; [|apply (wp_own_dirs (stage ++ r) [s] d (λ _, True)); [done|done| |done|done]].
    + intros [[]|e] d2 (Hd2 & Hl2 & _ & Hdir); [|by apply He].
      apply (Hlink d2 [s] a); [done..|]. rewrite (assoc_L app). apply (unlinked_folder d2); [apply Hd2|by apply Hdir].
    + intros c' Hne [z Hz]. assert (c' = [s]) as -> by (destruct c' as [|? [|]]; by simplify_eq/=).
      exists (r ++ [s]). split; [by rewrite (assoc_L app)|by apply Hs].
Qed.

Lemma hoisted_name n k : hoisted (build_plan graph) !! n = Some k → ∃ node, nodes graph !! k = Some node ∧ install_name node = n.
Proof. intros (node & ? & ? & _)%(hoist_Some graph). eauto. Qed.
Lemma nested_name k n c cnode : (k, n, c) ∈ nested (build_plan graph) → nodes graph !! c = Some cnode → n = install_name cnode.
Proof.
  intros Hin Hc. simpl in Hin. rewrite merge_sort_Permutation in Hin.
  apply (elem_of_nested graph) in Hin as (node & d & _ & _ & -> & _). unfold dep_install_name. by rewrite Hc.
Qed.
Lemma node_name_good k node : nodes graph !! k = Some node → good_name (install_name node).
Proof. apply (lg_name Hgood). Qed.
Lemma edge_name k n c : edge k n c → good_name n.
Proof.
  intros (node & Hk & [(d & Hd & ->)|(p & peer & _ & Hc & ->)]); [|by eapply node_name_good].
  unfold dep_install_name. destruct (nodes graph !! c) eqn:Hc; [by eapply node_name_good|by eapply (lg_dep Hgood)].
Qed.

(** Phase 2 *)
Definition hoisted_at (e : string * string) (d : Disk) : Prop :=
  objs d !! (stage ++ parts e.1) = Some (Link (hoist_target e.1 e.2)).
Lemma wp_hoist_link res n k d : hoisted (build_plan graph) !! n = Some k → laid d → packed d →
  wp (hoist_link project graph res (n, k)) (λ r d', laid d' ∧ later d d' ∧ (is_ok r = true → hoisted_at (n, k) d')) d.
Proof.
  intros Hh Hd Hp. destruct (hoisted_name n k Hh) as (node & Hk & <-). pose proof (node_name_good _ _ Hk) as Hn.
  unfold hoist_link. rewrite Hk, (good_name_components _ Hn), <- path_of_app, <- (app_nil_r stage), <- (assoc_L app).
  apply wp_scoped_link; [done|done|rewrite app_nil_r; apply Hp| | | |].
  - intros s Hs. split; [unfold own_dir; eauto 10|]. by apply no_link_scope.
  - by eapply top_link.
  - intros d' Hd' Hl' Ho. apply wp_io_ret. by split_and!.
  - intros e d' Hd' Hl'. by split_and!.
Qed.

(** Phase 3 *)
Lemma plain_package d k n : laid d → good_name n → plain (objs d) (stage ++ package k n).
Proof.
  intros Hd Hn. destruct (good_name_split n Hn) as (l & x & Hl & Hs). unfold package. rewrite Hl, !(assoc_L app).
  apply unlinked_snoc. rewrite <- (assoc_L app). apply laid_unlinked; [done|]. intros q Hq to.
  destruct Hs as [->|(s & -> & Hs)]; [rewrite app_nil_r in Hq; by apply (no_link_modules k)|].
  apply prefix_snoc in Hq as [->|Hq]; [by apply no_link_modules_scope|by apply (no_link_modules k)].
Qed.
Definition nested_at (e : string * string * string) (d : Disk) : Prop :=
  let '(k, n, c) := e in
  ∀ node cnode, nodes graph !! k = Some node → nodes graph !! c = Some cnode →
    placed_at (package k (install_name node) ++ "node_modules" :: parts n) d.
Lemma wp_nest_link res k n c d : (k, n, c) ∈ nested (build_plan graph) → laid d → packed d →
  wp (nest_link project graph res (k, n, c)) (λ r d', laid d' ∧ later d d' ∧ (is_ok r = true → nested_at (k, n, c) d')) d.
Proof.
  intros Hin Hd Hp. unfold nest_link, nested_at.
  destruct (nodes graph !! k) as [node|] eqn:Hk; [|by apply wp_io_ret; split_and!; [done|apply later_refl|]].
  destruct (nodes graph !! c) as [cnode|] eqn:Hc; [|by apply wp_io_ret; split_and!; [done|apply later_refl|]].
  pose proof (nested_name _ _ _ _ Hin Hc) as ->. pose proof (node_name_good _ _ Hc) as Hn.
  pose proof (node_name_good _ _ Hk) as Hm. rewrite !virtual_package_path by done.
  apply wp_io_bind, wp_asks. pose proof (packed_folder d k node Hk Hp) as Hdir.
  rewrite (exists_there d _ Folder) by (done || apply Hd). simpl negb. cbv iota.
  destruct (good_name_split _ Hn) as (l & x & Hl & Hshape).
  assert ((if is_scoped (install_name cnode)
     then (path_of (stage ++ package k (install_name node)) ++ [Normal "node_modules"]) ++ components (scope_of (install_name cnode))
     else path_of (stage ++ package k (install_name node)) ++ [Normal "node_modules"]) =
     path_of ((stage ++ package k (install_name node)) ++ "node_modules" :: l)) as ->.
  { rewrite path_of_last. destruct Hshape as [->|(s' & -> & Hs')];
      destruct (good_name_scoped _ Hn) as [[-> (a & Ha)]|[-> (s & a & Ha & _ & ->)]];
      rewrite Hl in Ha; simplify_eq/=; [by rewrite <- (assoc_L app)|by rewrite path_of_last, <- (assoc_L app)]. }
  apply wp_io_bind, wp_map_err.
  eapply wp_io_mono; [|apply (wp_own_dirs (stage ++ package k (install_name node)) ("node_modules" :: l) d (λ _, True)); try done].
  2: { intros c' Hne [z Hz]. exists (package k (install_name node) ++ c'). split; [by rewrite (assoc_L app)|].
       assert (c' = ["node_modules"] ∨ ∃ s, at_sign s = true ∧ c' = ["node_modules"; s]) as Hcases.
       { destruct Hshape as [->|(s & -> & Hs)]; destruct c' as [|? [|? [|]]]; simplify_eq/=; eauto. }
       split; [|intros to; by apply (no_link_package k node)]. right; right; right; right; right; right.
       exists k, node. destruct Hcases as [->|(s & Hs & ->)]; eauto 10. }
  intros [[]|e] d2 (Hd2 & Hl2 & _ & Hdir2); [|by split_and!]. specialize (Hdir2 eq_refl).
  rewrite (good_name_components _ Hn), path_of_last, <- path_of_app, Hl.
  assert (((stage ++ package k (install_name node)) ++ ["node_modules"]) ++ l ++ [x] =
    stage ++ (package k (install_name node) ++ "node_modules" :: l) ++ [x]) as -> by (by rewrite <- !(assoc_L app)).
  rewrite <- (assoc_L app) in Hdir2.
  assert (unlinked (objs d2) (stage ++ package k (install_name node) ++ "node_modules" :: l)) as Hu.
  { by apply (unlinked_folder d2); [apply Hd2|]. }
  apply wp_io_bind, wp_asks, wp_io_bind, wp_asks.
  assert (package k (install_name node) ++ "node_modules" :: l ++ [x] =
    (package k (install_name node) ++ "node_modules" :: l) ++ [x]) as Hassoc by (by rewrite <- (assoc_L app)).
  assert (∀ d', placed_at ((package k (install_name node) ++ "node_modules" :: l) ++ [x]) d' → later d2 d' → laid d' →
    laid d' ∧ later d d' ∧ (is_ok (Ok res : result LinkError LinkResult) = true → ∀ node0 cnode0, Some node = Some node0 → Some cnode = Some cnode0 →
      placed_at (package k (install_name node0) ++ "node_modules" :: l ++ [x]) d')) as Hend.
  { intros d' Hpl Hl' Hd'. split_and!; [done|by eapply later_trans|]. intros _ node0 cnode0 [= <-] _. by rewrite Hassoc. }
  assert (exists_ (path_of (stage ++ package c (install_name cnode))) d2 = true) as ->.
  { apply (exists_there d2 _ Folder); [apply Hd2| |done]. apply packed_folder; [done|]. by apply (packed_later d). }
  simpl negb. simpl orb. destruct (exists_ _ d2) eqn:Htaken.
  - apply wp_io_ret, Hend; [|apply later_refl|done]. unfold placed_at. apply exists_some; [apply Hd2| |done].
    rewrite (assoc_L app). by apply unlinked_snoc.
  - apply wp_io_bind, wp_map_err. eapply wp_io_mono; [|apply wp_own_link; [done|done|]].
    + intros [[]|e] d3 (Hd3 & Hl3 & Ho); [|split_and!; [done|by eapply later_trans|done]].
      apply wp_io_ret. apply Hend; [|done|done]. unfold placed_at. rewrite (Ho eq_refl). eauto.
    + by apply (nested_link _ _ k node (install_name cnode) c); [..|by rewrite Hl, Hassoc|].
Qed.

(** Phases 4 and 4b *)
Lemma virtual_modules_path k : virtual_modules project k = path_of (stage ++ modules k).
Proof. unfold virtual_modules, oath_dir. by rewrite (path_of_app stage), <- (assoc_L app). Qed.
Lemma edge_dir d k n c : edge k n c → packed d → laid d → objs d !! (stage ++ modules k) = Some Folder.
Proof.
  intros (node & Hk & _) Hp Hd. pose proof (packed_folder d k node Hk Hp) as Hf.
  destruct (good_name_split _ (node_name_good _ _ Hk)) as (l & x & Hl & _). unfold package in Hf.
  apply (dwf_above d (stage ++ modules k ++ parts (install_name node))); [apply Hd|by eexists|..].
  - rewrite (assoc_L app). by eexists.
  - intros He%app_inv_head. rewrite Hl in He. apply (f_equal length) in He. rewrite !length_app in He. simpl in He. lia.
Qed.
Definition dep_at (e : string * string * string) (d : Disk) : Prop :=
  let '(k, n, c) := e in is_Some (nodes graph !! c) → placed_at (package k n) d.
Lemma dep_at_later e d d' : later d d' → dep_at e d → dep_at e d'.
Proof. destruct e as [[k n] c]. intros Hl Hd Hc. eapply placed_at_later; eauto. Qed.
Lemma edge_install k n c cnode : edge k n c → nodes graph !! c = Some cnode → n = install_name cnode.
Proof.
  intros (node & _ & [(d & _ & ->)|(p & peer & _ & Hc & ->)]) Hc'; [unfold dep_install_name; by rewrite Hc'|congruence].
Qed.
Lemma wp_dependency_link what res k n c d : edge k n c → laid d → packed d →
  wp (dependency_link project what k c n res) (λ r d', laid d' ∧ later d d' ∧ (is_ok r = true → dep_at (k, n, c) d')) d.
Proof.
  intros Hedge Hd Hp. pose proof (edge_name _ _ _ Hedge) as Hn. pose proof (edge_dir _ _ _ _ Hedge Hp Hd) as Hdir.
  unfold dependency_link. rewrite !virtual_package_path, virtual_modules_path by done.
  apply wp_io_bind, wp_asks, wp_io_bind, wp_asks. destruct (exists_ (path_of (stage ++ package c n)) d) eqn:Hf; cbn [andb].
  2: { apply wp_io_ret. split_and!; [done|apply later_refl|]. intros _ [cnode Hc].
       rewrite (edge_install _ _ _ _ Hedge Hc) in Hf.
       rewrite (exists_there d _ Folder) in Hf; [done|apply Hd|by apply packed_folder|done]. }
  destruct (exists_ (path_of (stage ++ package k n)) d) eqn:Htaken; cbn [negb].
  - apply wp_io_ret. split_and!; [done|apply later_refl|]. intros _ _. apply exists_some; [apply Hd|by apply plain_package|done].
  - change (stage ++ package k n) with (stage ++ modules k ++ parts n).
    apply (wp_scoped_link (modules k) n); [exact Hn|exact Hd|exact Hdir|..].
    + intros s Hs. split; [unfold own_dir, modules; eauto 10|]. by apply no_link_modules_scope.
    + by eapply dep_link.
    + intros d' Hd' Hl' Ho. apply wp_io_ret. split_and!; [done..|]. intros _ _. eexists. exact Ho.
    + intros e d' Hd' Hl'. by split_and!.
Qed.
Definition deps_at (e : string * DepNode) (d : Disk) : Prop :=
  ∀ n c, dependencies e.2 !! n = Some c → dep_at (e.1, dep_install_name graph n c, c) d.
Definition peers_at (e : string * DepNode) (d : Disk) : Prop :=
  ∀ p c peer, resolved_peers e.2 !! p = Some c → nodes graph !! c = Some peer → dep_at (e.1, install_name peer, c) d.
Lemma wp_link_dependencies res k node d : nodes graph !! k = Some node → laid d → packed d →
  wp (link_dependencies project graph res (k, node)) (λ r d', laid d' ∧ later d d' ∧ (is_ok r = true → deps_at (k, node) d')) d.
Proof.
  intros Hk Hd Hp. unfold link_dependencies.
  eapply wp_io_mono; [|apply (wp_fold_later _ (λ x, dep_at (k, dep_install_name graph x.1 x.2, x.2))); [|..|done|done]].
  - intros r d' (Hd' & Hl & Hg). split_and!; [done..|]. intros Hr n c Hc.
    apply (Hg Hr (n, c)), elem_of_hash_iter. exact Hc.
  - intros x d2 d3. apply dep_at_later.
  - intros res' [n c] d' Hx Hd' Hp'. apply wp_dependency_link; [|done..].
    exists node. split; [done|]. left. exists n. split; [|done]. by apply elem_of_hash_iter.
Qed.
Lemma wp_link_peers res k node d : nodes graph !! k = Some node → laid d → packed d →
  wp (link_peers project graph res (k, node)) (λ r d', laid d' ∧ later d d' ∧ (is_ok r = true → peers_at (k, node) d')) d.
Proof.
  intros Hk Hd Hp. unfold link_peers.
  eapply wp_io_mono; [|apply (wp_fold_later _ (λ c d, ∀ peer, nodes graph !! c = Some peer → dep_at (k, install_name peer, c) d)); [|..|done|done]].
  - intros r d' (Hd' & Hl & Hg). split_and!; [done..|]. intros Hr n c peer Hc. apply Hg; [done|].
    apply list_elem_of_fmap. exists (n, c). split; [done|]. by apply elem_of_hash_iter.
  - intros c d2 d3 Hl Hc peer Hpeer. eapply dep_at_later; [done|auto].
  - intros res' c d' Hx Hd' Hp'. apply list_elem_of_fmap in Hx as ([n c'] & -> & Hx). simpl.
    apply elem_of_hash_iter in Hx. destruct (nodes graph !! c') as [peer|] eqn:Hc.
    + eapply wp_io_mono; [|apply wp_dependency_link; [|done..]].
      * intros r d2 (? & ? & Hg). split_and!; [done..|]. intros Hr peer' [= <-] _. apply (Hg Hr). by rewrite Hc.
      * exists node. split; [done|]. right. by exists n, peer.
    + apply wp_io_ret. by split_and!; [|apply later_refl|].
Qed.

(** Phase 5 *)
Lemma same_contents_executable I i :
  same_contents I (alter (λ n, {| contents := contents n; executable := true |}) i I).
Proof. intros j c Hj. destruct (decide (i = j)) as [->|]; [by rewrite lookup_alter_eq, Hj|by rewrite lookup_alter_ne, Hj]. Qed.
Lemma wp_make_executable p d : laid d →
  wp (make_executable p) (λ r d', laid d' ∧ later d d') d.
Proof.
  intros Hd. unfold make_executable. apply wp_io_bind, wp_io_bind, wp_asks, wp_from.
  destruct (look true p d) as [[q [|i|t]]|e]; [apply wp_io_ret|apply wp_change|apply wp_io_ret|]; try (by split; [|apply later_refl]).
  pose proof (same_contents_executable (inodes d) i) as HI. split; [by apply laid_inodes|]. by split.
Qed.
Lemma wp_hoist_bin n res bin d : laid d → packed d → objs d !! (stage ++ [".bin"]) = Some Folder →
  wp (hoist_bin project n res bin) (λ r d', laid d' ∧ later d d') d.
Proof.
  intros Hd Hp Hbin. destruct bin as [x l]. unfold hoist_bin.
  apply wp_io_bind, wp_asks, wp_io_bind, wp_asks. set (target := path_of stage ++ _).
  destruct ((exists_ target d : bool) && _); [|by apply wp_io_ret; split; [|apply later_refl]].
  apply wp_io_bind, wp_map_err. change [Normal ".bin"; Normal x] with (path_of [".bin"; x]). rewrite <- path_of_app.
  eapply wp_io_mono; [|apply (wp_own_link [".bin"] x); [done| |by eapply bin_link]].
  2: { apply (unlinked_folder d); [apply Hd|done]. }
  intros [[]|e] d2 (Hd2 & Hl2 & _); [|done].
  apply wp_io_bind, wp_io_attempt. eapply wp_io_mono; [|by apply wp_make_executable].
  intros r d3 (Hd3 & Hl3). apply wp_io_ret. split; [done|by eapply later_trans].
Qed.
Lemma wp_read_file p Q d : Q (Disk.read_file p d).2 d → wp (Disk.read_file p) Q d.
Proof. done. Qed.
Lemma wp_bin_entries p n Q d : (∀ l, Q (Ok l : result LinkError _) d) → wp (bin_entries p n) Q d.
Proof.
  intros HQ. unfold bin_entries. apply wp_io_bind, wp_io_attempt, wp_read_file.
  destruct (Disk.read_file p d).2 as [text|e]; by apply wp_io_ret.
Qed.
Definition binned (d : Disk) : Prop := objs d !! (stage ++ [".bin"]) = Some Folder.
Lemma wp_hoist_bins res e d : laid d → packed d → binned d →
  wp (hoist_bins project graph res e) (λ r d', laid d' ∧ later d d') d.
Proof.
  intros Hd Hp Hb. destruct e as [n k]. unfold hoist_bins.
  destruct (nodes graph !! k); [|by apply wp_io_ret; split; [|apply later_refl]].
  apply wp_io_bind, wp_bin_entries. intros l.
  eapply wp_io_mono; [|apply (wp_for_fold _ (λ d', laid d' ∧ later d d') l)]; [done| |by split; [|apply later_refl]].
  intros bin s d' _ [Hd' Hl]. eapply wp_io_mono; [|apply wp_hoist_bin; [done|by apply (packed_later d)|by apply Hl]].
  intros r d2 [Hd2 Hl2]. split; [done|by eapply later_trans].
Qed.

(** ** The whole tree *)

Record complete (d : Disk) : Prop := {
  c_packed : packed d;
  c_hoisted n k : hoisted (build_plan graph) !! n = Some k → hoisted_at (n, k) d;
  c_nested k n c : (k, n, c) ∈ nested (build_plan graph) → nested_at (k, n, c) d;
  c_edge k n c : edge k n c → is_Some (nodes graph !! c) → placed_at (package k n) d;
}.
Lemma nested_at_later e d d' : later d d' → nested_at e d → nested_at e d'.
Proof. destruct e as [[k n] c]. intros Hl Hn node cnode Hk Hc. eapply placed_at_later; [done|by eapply Hn]. Qed.
Lemma complete_later d d' : laid d → later d d' → complete d → complete d'.
Proof.
  intros Hd Hl [Hp Hh Hn He]. split; [by eapply packed_later|..].
  - intros n k Hk. by apply Hl, Hh.
  - intros k n c Hin. by eapply nested_at_later, Hn.
  - intros k n c Hedge Hc. by eapply placed_at_later, He.
Qed.
Lemma complete_edges d : packed d → (∀ n k, hoisted (build_plan graph) !! n = Some k → hoisted_at (n, k) d) →
  (∀ k n c, (k, n, c) ∈ nested (build_plan graph) → nested_at (k, n, c) d) →
  (∀ k node, nodes graph !! k = Some node → deps_at (k, node) d) →
  (∀ k node, nodes graph !! k = Some node → peers_at (k, node) d) → complete d.
Proof.
  intros Hp Hh Hn Hdep Hpeer. split; [done..|].
  intros k n c (node & Hk & [(m & Hm & ->)|(p & peer & Hm & Hc & ->)]) Hs.
  - by eapply Hdep.
  - by eapply Hpeer.
Qed.
Definition manifest_at : list string := stage ++ [".oath"; ".link-manifest"].
Definition built (d : Disk) : Prop :=
  ∃ d', laid d' ∧ complete d' ∧ vacant d' manifest_at ∧ d = written d' manifest_at (link_manifest graph).

Lemma oath_dirs c' : c' ≠ [] → c' `prefix_of` [".oath-node_modules-stage"; ".oath"] →
  ∃ r, project ++ c' = stage ++ r ∧ own_dir r ∧ ∀ to, ¬ link_origin r to.
Proof.
  intros Hne [z Hz]. assert (c' = [".oath-node_modules-stage"] ∨ c' = [".oath-node_modules-stage"; ".oath"]) as [-> | ->]
    by (destruct c' as [|? [|? [|]]]; simplify_eq/=; eauto).
  - exists []. split; [by rewrite app_nil_r|]. split; [by left|]. apply (no_link_modules ""). apply prefix_nil.
  - exists [".oath"]. split; [unfold stage_path; by rewrite <- (assoc_L app)|]. split; [by right; left|].
    apply (no_link_modules ""). by eexists.
Qed.
Lemma wp_oath_dir :
  wp (create_dir_all (oath_dir project)) (λ r d', laid d' ∧ later d1 d' ∧
    (∀ k node, nodes graph !! k = Some node → absent k d') ∧
    (is_ok r = true → objs d' !! (stage ++ [".oath"]) = Some Folder)) d1.
Proof.
  assert (oath_dir project = path_of (project ++ [".oath-node_modules-stage"; ".oath"])) as ->.
  { unfold oath_dir, stage_path. by rewrite path_of_last, <- (assoc_L app). }
  assert (project ++ [".oath-node_modules-stage"; ".oath"] = stage ++ [".oath"]) as Hs by (unfold stage_path; by rewrite <- (assoc_L app)).
  eapply wp_io_mono; [|apply (wp_own_dirs project [".oath-node_modules-stage"; ".oath"] d1
    (λ d', ∀ k node, nodes graph !! k = Some node → absent k d'))].
  - intros r d'. by rewrite Hs.
  - apply laid_start.
  - apply laid_project, laid_start.
  - apply oath_dirs.
  - intros k node _. apply (lr_stage Hgood).
  - intros d c' Hab _ [z Hz] k node Hk. unfold absent. simpl. rewrite lookup_insert_ne; [by eapply Hab|].
    change [".oath"; virtual_key_component k] with ([".oath"] ++ [virtual_key_component k]).
    rewrite (assoc_L app), <- Hs, <- (assoc_L app). intros He%app_inv_head. apply (f_equal length) in Hz, He.
    rewrite length_app in Hz. rewrite He in Hz. simpl in Hz. lia.
Qed.
Lemma wp_bin_dir d : laid d → packed d →
  wp (create_dir_all (path_of stage ++ [Normal ".bin"])) (λ r d', laid d' ∧ later d d' ∧ (is_ok r = true → binned d')) d.
Proof.
  intros Hd Hp. rewrite path_of_last.
  eapply wp_io_mono; [|apply (wp_own_dirs stage [".bin"] d (λ _, True)); [done|apply Hp| |done|done]].
  - intros r d' (? & ? & _ & ?). by split_and!.
  - intros c' Hne [z Hz]. assert (c' = [".bin"]) as -> by (destruct c' as [|? [|]]; by simplify_eq/=).
    exists [".bin"]. split_and!; [done|unfold own_dir; eauto|apply no_link_dot_bin].
Qed.
Lemma manifest_free d : laid d → packed d → unlinked (objs d) manifest_at ∧
  (vacant d manifest_at ∨ (∃ i, objs d !! manifest_at = Some (Regular i)) → vacant d manifest_at).
Proof.
  intros Hd Hp. split.
  - apply laid_unlinked; [done|]. intros q [z Hz]. destruct q as [|? [|? [|]]]; simplify_eq/=.
    + apply (no_link_modules ""), prefix_nil.
    + apply (no_link_modules ""). by eexists.
    + apply no_link_manifest.
  - intros [Hv|[i Hi]]; [done|]. apply (l_entry d Hd) in Hi. inversion Hi as [| |k node y i' j Hk He|]; subst.
    apply (f_equal length) in He. unfold package, modules in He. rewrite !length_app in He. simpl in He.
    destruct (good_name_split _ (node_name_good k node Hk)) as (l & x & Hl & _). rewrite Hl, length_app in He. simpl in He. lia.
Qed.
Lemma wp_manifest d : laid d → complete d →
  wp (Disk.write (manifest_path (path_of stage)) (link_manifest graph))
    (λ r d', if is_ok r then built d' else laid d') d.
Proof.
  intros Hd Hc. destruct (manifest_free d Hd (c_packed d Hc)) as [Hu Hf].
  assert (manifest_path (path_of stage) = path_of manifest_at) as -> by (unfold manifest_path, manifest_at; by rewrite (path_of_app stage)).
  apply wp_write; [apply Hd|done| |].
  - intros Hv. exists d. split_and!; [done..|by apply Hf|done].
  - done.
Qed.

Lemma wp_build_layout :
  wp (build_layout root project graph) (λ r d', if is_ok r then built d' else laid d') d1.
Proof.
  unfold build_layout. apply wp_io_bind, wp_map_err. eapply wp_io_mono; [|apply wp_oath_dir].
  intros [[]|e] d2 (Hd2 & _ & Hab & Ho); [|done]. specialize (Ho eq_refl).
  apply wp_io_bind. eapply wp_io_mono; [|apply wp_link_packages; [|apply NoDup_hash_iter_keys|done|done|]].
  2: { intros k node. apply elem_of_hash_iter. }
  2: { intros k Hk. apply list_elem_of_fmap in Hk as ([k' node] & -> & Hk). apply elem_of_hash_iter in Hk. by eapply Hab. }
  intros [r|e] d3 (Hd3 & Hl3 & Hf); [|done]. specialize (Hf eq_refl).
  assert (packed d3) as Hp3.
  { split.
    - apply (dwf_above d3 (stage ++ [".oath"])); [apply Hd3|exists Folder; by apply Hl3|by eexists|].
      intros He. apply (f_equal length) in He. rewrite length_app in He. simpl in He. lia.
    - intros k node Hk. apply Hf; [by apply elem_of_hash_iter|by eapply (lg_store Hgood)]. }
  apply wp_io_bind. eapply wp_io_mono; [|apply (wp_fold_later _ hoisted_at); [|..|exact Hd3|exact Hp3]].
  2: { intros e d d' Hl. apply Hl. }
  2: { intros res [n k] d He. apply wp_hoist_link. by apply elem_of_btree_iter. }
  intros [r4|e] d4 (Hd4 & Hl4 & Hg4); [|done]. specialize (Hg4 eq_refl). pose proof (packed_later _ _ Hd3 Hp3 Hl4) as Hp4.
  apply wp_io_bind. eapply wp_io_mono; [|apply (wp_fold_later _ nested_at); [|..|exact Hd4|exact Hp4]].
  2: { apply nested_at_later. }
  2: { intros res [[k n] c] d He. by apply wp_nest_link. }
  intros [r5|e] d5 (Hd5 & Hl5 & Hg5); [|done]. specialize (Hg5 eq_refl). pose proof (packed_later _ _ Hd4 Hp4 Hl5) as Hp5.
  apply wp_io_bind. eapply wp_io_mono; [|apply (wp_fold_later _ deps_at); [|..|exact Hd5|exact Hp5]].
  2: { intros e d d' Hl Hdep n c Hc. by eapply dep_at_later, Hdep. }
  2: { intros res [k node] d He. apply wp_link_dependencies. by apply elem_of_hash_iter. }
  intros [r6|e] d6 (Hd6 & Hl6 & Hg6); [|done]. specialize (Hg6 eq_refl). pose proof (packed_later _ _ Hd5 Hp5 Hl6) as Hp6.
  apply wp_io_bind. eapply wp_io_mono; [|apply (wp_fold_later _ peers_at); [|..|exact Hd6|exact Hp6]].
  2: { intros e d d' Hl Hdep n c peer Hn Hc. by eapply dep_at_later, Hdep. }
  2: { intros res [k node] d He. apply wp_link_peers. by apply elem_of_hash_iter. }
  intros [r7|e] d7 (Hd7 & Hl7 & Hg7); [|done]. specialize (Hg7 eq_refl). pose proof (packed_later _ _ Hd6 Hp6 Hl7) as Hp7.
  assert (complete d7) as Hc7.
  { apply complete_edges; [done|..].
    - intros n k Hk. apply Hl7, Hl6, Hl5. by apply Hg4, elem_of_btree_iter.
    - intros k n c Hin. apply (nested_at_later _ d6), (nested_at_later _ d5); [done..|by apply Hg5].
    - intros k node Hk n c Hc. eapply dep_at_later, (Hg6 (k, node)); [done|by apply elem_of_hash_iter|done].
    - intros k node Hk. apply (Hg7 (k, node)). by apply elem_of_hash_iter. }
  apply wp_io_bind, wp_map_err. eapply wp_io_mono; [|by apply wp_bin_dir].
  intros [[]|e] d8 (Hd8 & Hl8 & Hb); [|done]. specialize (Hb eq_refl). pose proof (complete_later _ _ Hd7 Hl8 Hc7) as Hc8.
  apply wp_io_bind. eapply wp_io_mono; [|apply (wp_for_fold _ (λ d', laid d' ∧ later d8 d')); [|by split; [|apply later_refl]]].
  2: { intros e s d _ [Hd Hl]. eapply wp_io_mono; [|apply wp_hoist_bins; [done|apply (packed_later d8); [done|apply Hc8|done]|by apply Hl]].
       intros x d' [Hd' Hl']. split; [done|by eapply later_trans]. }
  intros [r9|e] d9 [Hd9 Hl9]; [|done]. pose proof (complete_later _ _ Hd8 Hl9 Hc8) as Hc9.
  apply wp_io_bind, wp_map_err. eapply wp_io_mono; [|by apply wp_manifest].
  intros [[]|e] d10 Hend; [|done]. by apply wp_io_ret.
Qed.

(** ** What is below [node_modules] of a package *)

Notation nm := "node_modules".
Definition package_part (k : string) (node : DepNode) (y : list string) (o : Obj) : Prop :=
  (y = [] ∨ y = [nm] ∨ ∃ s, at_sign s = true ∧ y = [nm; s]) ∨ is_Some (objs d1 !! (source_of node ++ y)) ∨
  ∃ n c, (k, n, c) ∈ nested (build_plan graph) ∧ good_name n ∧ y = nm :: parts n ∧
    o = Link (relative_link (package k (install_name node) ++ y) (package c n)).
Inductive module_part (k : string) (z : list string) (o : Obj) : Prop :=
  | modules_part : z = [] → module_part k z o
  | scope_part s : at_sign s = true → z = [s] → module_part k z o
  | own_part node y : nodes graph !! k = Some node → z = parts (install_name node) ++ y → package_part k node y o →
      module_part k z o
  | dep_part n c : edge k n c → good_name n → z = parts n → o = Link (relative_link (package k n) (package c n)) →
      module_part k z o.
Lemma modules_inj k k' z z' : is_Some (nodes graph !! k) → is_Some (nodes graph !! k') →
  modules k ++ z = modules k' ++ z' → k = k' ∧ z = z'.
Proof.
  intros [node Hk] [node' Hk'] He. unfold modules in He. simpl in He. injection He as Hv ->. split; [|done].
  by eapply key_inj.
Qed.
Lemma reserved_name a n : good_name n → a ∈ parts n → a ∉ reserved.
Proof. intros Hn Ha. by eapply Forall_forall in Ha; [|apply Hn]. Qed.
Lemma modules_top k z n : good_name n → modules k ++ z ≠ parts n.
Proof. intros Hn He. apply (reserved_name ".oath" n Hn); [rewrite <- He; left|by apply (bool_decide_unpack _)]. Qed.
Lemma origin_modules I k z o : is_Some (nodes graph !! k) → origin I (modules k ++ z) o → module_part k z o.
Proof.
  intros Hs Ho. pose proof Hs as [node0 Hk0].
  assert (∀ k' node' y, nodes graph !! k' = Some node' → modules k ++ z = package k' (install_name node') ++ y →
    k' = k ∧ z = parts (install_name node') ++ y) as Hpackage.
  { intros k' node' y Hk' He. unfold package in He. rewrite <- (assoc_L app) in He.
    apply modules_inj in He as [-> ->]; [done|done|by eexists]. }
  destruct Ho as [Ho|k' node y Hk' He Hy|k' node y i j Hk' He Hy _|to Ho].
  - unfold own_dir in Ho. destruct Ho as [?|[?|[?|[(s & _ & He)|[(k' & [He|He])|[(k' & s & Hat & He)|(k' & node & Hk' & He)]]]]]];
      try done.
    + destruct z; [|by apply (f_equal length) in He; rewrite length_app in He; simpl in He; lia]. by constructor.
    + unfold modules in He. simplify_eq/=. by eapply scope_part.
    + assert (∃ y, modules k ++ z = package k' (install_name node) ++ y ∧ (y = [] ∨ y = [nm] ∨ ∃ s, at_sign s = true ∧ y = [nm; s]))
        as (y & He' & Hy) by (destruct He as [->|[->|(s & Hs' & ->)]]; [exists []; rewrite app_nil_r|eexists|eexists]; eauto 10).
      apply Hpackage in He' as [-> ->]; [|done]. by apply (own_part k _ _ node y); [done|done|left].
  - apply Hpackage in He as [-> ->]; [|done]. apply (own_part k _ _ node y); [done|done|]. right; left. by rewrite Hy.
  - apply Hpackage in He as [-> ->]; [|done]. apply (own_part k _ _ node y); [done|done|]. right; left. by rewrite Hy.
  - destruct Ho as [n k' _ Hn He _|k' node n c Hk' Hin Hn He ->|k' n c Hedge Hn He ->|x He].
    + by apply modules_top in He.
    + pose proof (Hpackage _ _ _ Hk' He) as [-> ->]. apply (own_part k _ _ node (nm :: parts n)); [done|done|]. right; right.
      exists n, c. by rewrite He.
    + pose proof Hedge as (node & Hk' & _). unfold package in He. pose proof He as He'.
      apply modules_inj in He as [<- ->]; [|done|by eexists]. by eapply dep_part.
    + done.
Qed.
(** The three places Node looks in, from the package. *)
Lemma nested_part I k node n o : nodes graph !! k = Some node → good_name n →
  origin I (package k (install_name node) ++ nm :: parts n) o →
  ∃ c, (k, n, c) ∈ nested (build_plan graph) ∧ o = Link (relative_link (package k (install_name node) ++ nm :: parts n) (package c n)).
Proof.
  intros Hk Hn Ho. pose proof (node_name_good _ _ Hk) as Hm. unfold package in Ho at 1. rewrite <- (assoc_L app) in Ho.
  apply origin_modules in Ho; [|eauto]. destruct Ho as [He|s _ He|node' y Hk' He Hy|n' c _ Hn' He _].
  - by destruct (parts (install_name node)).
  - destruct (parts (install_name node)) as [|? [|]] eqn:E; simplify_eq/=. destruct (good_name_parts _ Hm); simplify_eq/=; congruence.
  - rewrite Hk in Hk'. injection Hk' as <-. apply app_inv_head in He as <-. destruct Hy as [Hy|[Hy|(n' & c & Hin & Hn' & He & ->)]].
    + exfalso. destruct Hy as [Hy|[Hy|(s & Hs & Hy)]]; simplify_eq/=; destruct (good_name_parts n Hn); simplify_eq/=; congruence.
    + exfalso. change (nm :: parts n) with ([nm] ++ parts n) in Hy. rewrite (assoc_L app), vacant_below in Hy;
        [by destruct Hy|apply Hgood|by eapply (lg_bundled Hgood)].
    + injection He as He%good_name_inj. subst n'. eauto.
  - exfalso. apply (reserved_name nm n' Hn'); [|by apply (bool_decide_unpack _)].
    rewrite <- He. apply elem_of_app. right. left.
Qed.
Lemma scope_modules_part I k node s a o : nodes graph !! k = Some node → parts (install_name node) = [s; a] →
  origin I (modules k ++ [s; nm]) o → False.
Proof.
  intros Hk Hm Ho. pose proof (node_name_good _ _ Hk) as Hn. assert (nm ∈ reserved) as Hr by by apply (bool_decide_unpack _).
  apply origin_modules in Ho; [|eauto]. destruct Ho as [He|s' _ He|node' y Hk' He Hy|n' c _ Hn' He _]; [done..| |].
  - rewrite Hk in Hk'. injection Hk' as <-. rewrite Hm in He. simplify_eq/=. eapply (reserved_name nm _ Hn); [|done].
    rewrite Hm. right. left.
  - apply (reserved_name nm n' Hn'); [|done]. rewrite <- He. right. left.
Qed.
Lemma beside_part I k node n o : nodes graph !! k = Some node → good_name n → n ≠ install_name node →
  origin I (package k n) o → ∃ c, edge k n c ∧ o = Link (relative_link (package k n) (package c n)).
Proof.
  intros Hk Hn Hne Ho. pose proof (node_name_good _ _ Hk) as Hm.
  apply origin_modules in Ho; [|eauto]. destruct Ho as [He|s Hs He|node' y Hk' He Hy|n' c Hedge Hn' He ->].
  - by destruct (good_name_parts n Hn).
  - destruct (good_name_parts n Hn); simplify_eq/=; congruence.
  - rewrite Hk in Hk'. injection Hk' as <-. destruct Hne. apply good_name_inj. rewrite He.
    pose proof (good_name_parts n Hn) as Hp. rewrite He in Hp. revert Hp. destruct (good_name_parts _ Hm); simpl; intros Hp; inversion Hp; simplify_eq/=; congruence.
  - apply good_name_inj in He as <-. eauto.
Qed.

(** ** The committed tree *)

(** Node's search for a package: [node_modules] in the directory and in those above it,
    but not in a [node_modules] itself; the first that has an entry of that name. *)
Fixpoint search_up (up : list string) : list (list string) :=
  (if decide (head up = Some nm) then [] else [reverse up ++ [nm]]) ++
  match up with [] => [] | _ :: up => search_up up end.
Definition search_dirs (directory : list string) : list (list string) := search_up (reverse directory).
Definition candidate (d : Disk) (n : string) (directory : list string) : option (list string) :=
  match look true (path_of (directory ++ parts n)) d with Ok (p, _) => Some p | Err _ => None end.
Definition require (d : Disk) (directory : list string) (n : string) : option (list string) :=
  head (omap (candidate d n) (search_dirs directory)).

Lemma search_dirs_snoc p n : search_dirs (p ++ [n]) =
  (if decide (n = nm) then [] else [(p ++ [n]) ++ [nm]]) ++ search_dirs p.
Proof.
  unfold search_dirs. rewrite reverse_app. simpl. rewrite reverse_cons, reverse_involutive.
  destruct (decide (n = nm)) as [->|Hn]; [by rewrite decide_True|]. by rewrite decide_False by congruence.
Qed.
Lemma require_snoc d p n m : require d (p ++ [m]) n =
  if decide (m = nm) then require d p n
  else match candidate d n ((p ++ [m]) ++ [nm]) with Some q => Some q | None => require d p n end.
Proof.
  unfold require. rewrite search_dirs_snoc. case_decide; [done|]. simpl. by destruct (candidate _ _ _).
Qed.

Section committed.
Context (db d : Disk) (Hdb : laid db) (Hcomplete : complete db) (Hwf : dwf d) (Hinodes : same_contents (inodes db) (inodes d)).
Definition manifest_name : list string := [".oath"; ".link-manifest"].
Context (Hsame : ∀ r, r ≠ manifest_name → objs d !! (live ++ r) = objs db !! (stage ++ r)).
Context (Hmanifest : ∀ t, objs d !! (live ++ manifest_name) ≠ Some (Link t)).

Lemma live_origin r o : r ≠ manifest_name → objs d !! (live ++ r) = Some o → origin (inodes d) r o.
Proof.
  intros Hr Ho. rewrite Hsame in Ho by done. pose proof (l_entry db Hdb r o Ho) as Hor.
  eapply origin_mono; [done| |done]. intros j ->. eapply (dwf_ino db), Ho. apply Hdb.
Qed.
Lemma live_no_link r : (∀ to, ¬ link_origin r to) → ∀ t, objs d !! (live ++ r) ≠ Some (Link t).
Proof.
  intros Hr t Ht. destruct (decide (r = manifest_name)) as [->|Hm]; [by eapply Hmanifest|].
  apply live_origin in Ht; [|done]. inversion Ht. by eapply Hr.
Qed.
Lemma not_manifest k z : modules k ++ z ≠ manifest_name.
Proof. done. Qed.
Lemma not_manifest_package k n y : package k n ++ y ≠ manifest_name.
Proof. unfold package. rewrite <- (assoc_L app). apply not_manifest. Qed.
Lemma live_package k node : nodes graph !! k = Some node → objs d !! (live ++ package k (install_name node)) = Some Folder.
Proof.
  intros Hk. rewrite Hsame; [|rewrite <- (app_nil_r (package _ _)); apply not_manifest_package].
  apply packed_folder; [done|apply Hcomplete].
Qed.
Lemma live_modules k l : is_Some (nodes graph !! k) → (∀ node, nodes graph !! k = Some node → l `prefix_of` parts (install_name node)) →
  objs d !! (live ++ modules k ++ l) = Some Folder.
Proof.
  intros [node Hk] Hl. destruct (Hl node Hk) as [z Hz]. destruct (decide (z = [])) as [->|Hne].
  - rewrite app_nil_r in Hz. rewrite <- Hz. by apply live_package.
  - eapply dwf_above; [exact Hwf|exists Folder; by apply (live_package k node)|..].
    + unfold package. rewrite Hz. exists z. by rewrite !(assoc_L app).
    + intros He%app_inv_head%app_inv_head. rewrite Hz in He. apply (f_equal length) in He. rewrite length_app in He.
      destruct z; [done|simpl in He; lia].
Qed.
(** A relative link of the layout leads to its package. *)
Lemma live_link x a target :
  objs d !! (live ++ x) = Some Folder → objs d !! (live ++ target) = Some Folder →
  objs d !! ((live ++ x) ++ [a]) = Some (Link (relative_link (x ++ [a]) target)) →
  look true (path_of ((live ++ x) ++ [a])) d = Ok (live ++ target, Folder).
Proof.
  intros Hx Ht Ha. unfold relative_link in Ha. rewrite (assoc_L app stage), pathdiff_path_of, <- (assoc_L app stage x) in Ha.
  destruct (pathdiff_abs stage x target a) as (pre & x' & b' & -> & -> & Hp). rewrite Hp in Ha.
  rewrite (assoc_L app live pre x') in Hx, Ha |- *. rewrite (assoc_L app live pre b') in Ht |- *.
  by apply (look_relative d (live ++ pre) x' a b' Folder _ Hwf Hx Ha eq_refl Ht).
Qed.
Lemma unlinked_more p n : unlinked (objs d) p → (∀ t, objs d !! (p ++ [n]) ≠ Some (Link t)) → unlinked (objs d) (p ++ [n]).
Proof. intros Hp Hn q t Hq. apply prefix_snoc in Hq as [->|Hq]; [done|by apply Hp]. Qed.
Lemma exists_missing p : plain (objs d) p → objs d !! p = None → exists_ (path_of p) d = false.
Proof.
  intros Hp Hn. destruct (exists_ (path_of p) d) eqn:E; [|done]. apply exists_some in E as [o Ho]; [|apply Hwf|done].
  by rewrite Hn in Ho.
Qed.
Lemma candidate_missing n directory : exists_ (path_of (directory ++ parts n)) d = false → candidate d n directory = None.
Proof. unfold exists_, candidate. by destruct (look _ _ _) as [[]|]. Qed.

(** In the package itself: the nested link, or nothing. *)
Lemma candidate_nested k node n c : nodes graph !! k = Some node → edge k n c → is_Some (nodes graph !! c) →
  (∀ c', edge k n c' → c' = c) →
  candidate d n ((live ++ package k (install_name node)) ++ [nm]) = None ∨
  candidate d n ((live ++ package k (install_name node)) ++ [nm]) = Some (live ++ package c n).
Proof.
  intros Hk Hedge [cnode Hc] Honly. pose proof (edge_name _ _ _ Hedge) as Hn.
  destruct (good_name_split n Hn) as (l & x & Hl & Hs). set (P := package k (install_name node)).
  assert (unlinked (objs d) (live ++ P ++ nm :: l)) as Hu.
  { assert (unlinked (objs d) ((live ++ P) ++ [nm])) as Hu.
    { apply unlinked_more; [apply unlinked_folder; [done|by apply live_package]|]. rewrite <- (assoc_L app).
      apply live_no_link. intros to. apply no_link_package; [done|by left]. }
    destruct Hs as [->|(s & -> & Hs)]; [by rewrite <- (assoc_L app) in Hu|].
    apply (unlinked_more _ s) in Hu; [by rewrite <- !(assoc_L app) in Hu|]. rewrite <- !(assoc_L app). simpl.
    apply live_no_link. intros to. apply no_link_package; [done|]. right. eauto. }
  assert (((live ++ P) ++ [nm]) ++ parts n = (live ++ P ++ nm :: l) ++ [x]) as Hpath by (by rewrite Hl, <- !(assoc_L app)).
  destruct (objs d !! ((live ++ P ++ nm :: l) ++ [x])) as [o|] eqn:Ho.
  - right. pose proof Ho as Ho'. rewrite <- !(assoc_L app) in Ho'. change ((nm :: l) ++ [x]) with (nm :: l ++ [x]) in Ho'.
    rewrite <- Hl in Ho'. apply live_origin in Ho'; [|apply not_manifest_package].
    apply nested_part in Ho' as (c' & Hin & ->); [|done..].
    assert (c' = c) as ->.
    { apply Honly. simpl in Hin. rewrite merge_sort_Permutation in Hin. apply (elem_of_nested graph) in Hin as (node' & m & Hk' & Hm & -> & _).
      exists node'. split; [done|]. left. eauto. }
    unfold candidate. rewrite Hpath. rewrite (edge_install _ _ _ _ Hedge Hc) in *.
    rewrite (live_link (P ++ nm :: l) x (package c (install_name cnode))); [done| |by apply live_package|].
    + eapply dwf_up; [exact Hwf|]. by eexists.
    + rewrite Ho. do 3 f_equal. rewrite Hl. unfold P. by rewrite <- (assoc_L app).
  - left. apply candidate_missing. rewrite Hpath. apply exists_missing; [|done]. by apply unlinked_snoc.
Qed.
(** Beside the package: the link to the dependency. *)
Lemma candidate_beside k node n c : nodes graph !! k = Some node → edge k n c → is_Some (nodes graph !! c) →
  (∀ c', edge k n c' → c' = c) → n ≠ install_name node →
  candidate d n (live ++ modules k) = Some (live ++ package c n).
Proof.
  intros Hk Hedge Hcs Honly Hne. pose proof Hcs as [cnode Hc]. pose proof (edge_name _ _ _ Hedge) as Hn.
  destruct (c_edge db Hcomplete k n c Hedge Hcs) as [o Ho].
  rewrite <- Hsame in Ho by (rewrite <- (app_nil_r (package _ _)); apply not_manifest_package).
  pose proof Ho as Hor. apply live_origin in Hor; [|rewrite <- (app_nil_r (package _ _)); apply not_manifest_package].
  apply (beside_part _ _ node) in Hor as (c' & Hedge' & ->); [|done..]. apply Honly in Hedge' as ->.
  destruct (good_name_split n Hn) as (l & x & Hl & Hs). unfold candidate.
  assert ((live ++ modules k) ++ parts n = (live ++ modules k ++ l) ++ [x]) as -> by (by rewrite Hl, !(assoc_L app)).
  assert (package k n = (modules k ++ l) ++ [x]) as Hp by (unfold package; by rewrite Hl, (assoc_L app)).
  rewrite (edge_install _ _ _ _ Hedge Hc) in *.
  rewrite (live_link (modules k ++ l) x (package c (install_name cnode))); [done| |by apply live_package|].
  - eapply dwf_up; [exact Hwf|]. rewrite Hp, (assoc_L app) in Ho. by eexists.
  - by rewrite <- (assoc_L app), <- Hp, Ho.
Qed.
(** In the scope of the package: nothing. *)
Lemma candidate_scope k node s a n : nodes graph !! k = Some node → parts (install_name node) = [s; a] →
  candidate d n ((live ++ modules k ++ [s]) ++ [nm]) = None.
Proof.
  intros Hk Hm. apply candidate_missing.
  assert (objs d !! (live ++ modules k ++ [s]) = Some Folder) as Hf.
  { apply live_modules; [eauto|]. intros node' Hk'. rewrite Hk in Hk'. injection Hk' as <-. rewrite Hm. by exists [a]. }
  assert (objs d !! ((live ++ modules k ++ [s]) ++ [nm]) = None) as Hnone.
  { destruct (objs d !! ((live ++ modules k ++ [s]) ++ [nm])) as [o|] eqn:Ho; [|done]. exfalso. rewrite <- !(assoc_L app) in Ho.
    apply live_origin in Ho; [|apply not_manifest]. by eapply scope_modules_part. }
  apply exists_missing; [|by apply vacant_below]. intros q t Hq _ Ht.
  destruct (prefix_weak_total q ((live ++ modules k ++ [s]) ++ [nm]) (((live ++ modules k ++ [s]) ++ [nm]) ++ parts n)) as [Hq'|[z ->]];
    [done|by eexists| |].
  - apply prefix_snoc in Hq' as [->|Hq']; [by rewrite Hnone in Ht|]. by eapply (unlinked_folder d); [exact Hwf|exact Hf|exact Hq'|].
  - by rewrite vacant_below in Ht.
Qed.
Lemma require_edge k node n c : nodes graph !! k = Some node → edge k n c → is_Some (nodes graph !! c) →
  (∀ c', edge k n c' → c' = c) → n ≠ install_name node →
  require d (live ++ package k (install_name node)) n = Some (live ++ package c n).
Proof.
  intros Hk Hedge Hc Honly Hne. pose proof (candidate_nested k node n c Hk Hedge Hc Honly) as Hnested.
  pose proof (candidate_beside k node n c Hk Hedge Hc Honly Hne) as Hbeside.
  pose proof (node_name_good _ _ Hk) as Hm. assert (nm ∈ reserved) as Hr by by apply (bool_decide_unpack _).
  assert (virtual_key_component k ≠ nm) as Hv by (by apply (lg_key Hgood k node)).
  assert (require d (live ++ modules k) n = Some (live ++ package c n)) as Hmodules.
  { unfold modules in Hbeside |- *. change [".oath"; virtual_key_component k; nm] with ([".oath"; virtual_key_component k] ++ [nm]) in *.
    change [".oath"; virtual_key_component k] with ([".oath"] ++ [virtual_key_component k]) in *. rewrite !(assoc_L app) in Hbeside |- *.
    rewrite require_snoc, decide_True by done. rewrite require_snoc, decide_False by done. by rewrite Hbeside. }
  assert (∀ l x, parts (install_name node) = l ++ [x] → require d (live ++ modules k ++ l) n = Some (live ++ package c n) →
    require d (live ++ package k (install_name node)) n = Some (live ++ package c n)) as Hlast.
  { intros l x Hl Hup. assert (x ≠ nm) as Hx.
    { intros ->. apply (reserved_name nm _ Hm); [|done]. rewrite Hl. apply elem_of_app. right. left. }
    assert (live ++ package k (install_name node) = (live ++ modules k ++ l) ++ [x]) as He by (unfold package; by rewrite Hl, !(assoc_L app)).
    rewrite He in Hnested |- *. rewrite require_snoc, decide_False by done. by destruct Hnested as [-> | ->]. }
  remember (parts (install_name node)) as ps eqn:Eps. pose proof (good_name_parts _ Hm) as Hparts. rewrite <- Eps in Hparts.
  destruct Hparts as [a Ha _|s a Hs Hsr _].
  - apply (Hlast [] a); [done|]. by rewrite app_nil_r.
  - apply (Hlast [s] a); [done|]. rewrite (assoc_L app), require_snoc, decide_False by congruence.
    rewrite <- (assoc_L app live), (candidate_scope k node s a); [done|done|by symmetry].
Qed.
(** At the top: every hoisted package. *)
Lemma look_hoisted n k : hoisted (build_plan graph) !! n = Some k →
  look true (path_of (live ++ parts n)) d = Ok (live ++ package k n, Folder).
Proof.
  intros Hh. pose proof (c_hoisted db Hcomplete n k Hh) as Ho. destruct (hoisted_name n k Hh) as (node & Hk & <-).
  pose proof (node_name_good _ _ Hk) as Hn. unfold hoisted_at in Ho. simpl in Ho.
  rewrite <- Hsame in Ho.
  2: { intros He. apply (reserved_name ".oath" _ Hn); [rewrite He; left|by apply (bool_decide_unpack _)]. }
  pose proof (live_package k node Hk) as Hf. unfold hoist_target in Ho. rewrite (good_name_components _ Hn) in Ho.
  destruct (good_name_scoped _ Hn) as [[Hsc (a & Ha)]|[Hsc (s & a & Ha & _)]]; rewrite Hsc in Ho.
  - pose proof (look_relative d live [] a (package k (install_name node)) Folder) as Hlook. rewrite app_nil_r in Hlook.
    rewrite Ha in Ho |- *. eapply Hlook; [done| |exact Ho| |done|done].
    + eapply dwf_up; [exact Hwf|]. eauto.
    + unfold package. by rewrite Ha.
  - pose proof (look_relative d live [s] a (package k (install_name node)) Folder) as Hlook. rewrite <- (assoc_L app) in Hlook.
    rewrite Ha in Ho |- *. eapply Hlook; [done| |exact Ho| |done|done].
    + apply (dwf_up _ Hwf _ a). rewrite <- (assoc_L app). eauto.
    + unfold package. by rewrite Ha.
Qed.
End committed.

(** ** [link_all] *)

(** What a successful run that builds the tree leaves: all files of each package in its
    directory, with their contents; the hoisted names at the top; each dependency and peer
    where Node finds it from the package that needs it, unless it has the name of the package
    itself or two packages are wanted under the name; the fingerprint; and no other entry. *)
Record linked_tree (d : Disk) : Prop := {
  lt_package k node y : nodes graph !! k = Some node →
    holds (objs d1 !! (source_of node ++ y)) d (objs d !! (live ++ package k (install_name node) ++ y));
  lt_hoisted n k : hoisted (build_plan graph) !! n = Some k →
    look true (path_of (live ++ parts n)) d = Ok (live ++ package k n, Folder);
  lt_require k node n c : nodes graph !! k = Some node → edge k n c → is_Some (nodes graph !! c) →
    (∀ c', edge k n c' → c' = c) → n ≠ install_name node →
    require d (live ++ package k (install_name node)) n = Some (live ++ package c n);
  lt_manifest : ∃ i, objs d !! (live ++ manifest_name) = Some (Regular i) ∧
    contents <$> inodes d !! i = Some (link_manifest graph);
  lt_origin r o : objs d !! (live ++ r) = Some o → r ≠ manifest_name → origin (inodes d) r o;
  lt_stage r : objs d !! (stage ++ r) = None;
}.
Section committed_tree.
Context (db d : Disk) (Hdb : laid db) (Hcomplete : complete db) (Hfree : vacant db manifest_at).
Notation dw := (written db manifest_at (link_manifest graph)).
Lemma written_manifest : dw = set_objs <[manifest_at := Regular (new_ino db)]>
  (set_inodes <[new_ino db := {| contents := link_manifest graph; executable := false |}]> db).
Proof. unfold written. by rewrite (proj1 Hfree). Qed.
Lemma manifest_contents : same_contents (inodes db) (inodes dw).
Proof.
  intros i c Hi. rewrite written_manifest. simpl. rewrite lookup_insert_ne; [by rewrite Hi|].
  intros <-. by rewrite new_ino_fresh in Hi.
Qed.
Lemma manifest_wf : dwf dw.
Proof.
  rewrite written_manifest. apply (dwf_put (set_inodes _ db)).
  - split; simpl; [apply Hdb|apply Hdb|]. intros p j Hp. apply (dwf_ino db) in Hp as [m Hm]; [|apply Hdb].
    destruct (decide (j = new_ino db)) as [->|]; [by rewrite lookup_insert_eq; eauto|].
    rewrite lookup_insert_ne by done. eauto.
  - exact Hfree.
  - intros j [= <-]. simpl. rewrite lookup_insert_eq. eauto.
Qed.
Context (Hwf : dwf d) (Hinodes : inodes d = inodes dw) (Hlive : ∀ r, objs d !! (live ++ r) = objs dw !! (stage ++ r)).
Context (Hstage : ∀ r, objs d !! (stage ++ r) = None).
Lemma committed_tree : linked_tree d.
Proof.
  assert (∀ r, r ≠ manifest_name → objs d !! (live ++ r) = objs db !! (stage ++ r)) as Hsame.
  { intros r Hr. rewrite Hlive, written_manifest. simpl. rewrite lookup_insert_ne; [done|]. by intros ?%app_inv_head. }
  assert (objs d !! (live ++ manifest_name) = Some (Regular (new_ino db))) as Hm.
  { rewrite Hlive, written_manifest. simpl. by rewrite lookup_insert_eq. }
  assert (∀ t, objs d !! (live ++ manifest_name) ≠ Some (Link t)) as Hl by (intros t; by rewrite Hm).
  assert (same_contents (inodes db) (inodes d)) as Hi by (rewrite Hinodes; apply manifest_contents).
  split.
  - intros k node y Hk. rewrite Hsame by apply not_manifest_package. rewrite (assoc_L app).
    pose proof (proj2 (c_packed db Hcomplete) k node Hk y) as Hy. revert Hy.
    destruct (objs d1 !! (source_of node ++ y)) as [[|i|]|]; simpl; [done| |done..]. intros (j & Hj & Hc). exists j. split; [done|].
    eapply contents_weaken; [done| |done]. eapply (dwf_ino db), Hj. apply Hdb.
  - intros n k. by apply (look_hoisted db).
  - intros k node n c. by apply (require_edge db).
  - exists (new_ino db). split; [done|]. rewrite Hinodes, written_manifest. simpl. by rewrite lookup_insert_eq.
  - intros r o Ho Hr. by apply (live_origin db).
  - done.
Qed.
End committed_tree.

Lemma laid_frame d : laid d → frame project d1 d.
Proof. intros Hd. split; [apply Hd|]. intros p (_ & Hs & _). by apply Hd. Qed.
Lemma built_frame d : built d → frame project d1 d ∧ same_contents (inodes d1) (inodes d) ∧ ready project d ∧
  (∀ p, ¬ stage `prefix_of` p → objs d !! p = objs d1 !! p).
Proof.
  intros (db & Hdb & Hc & Hv & ->).
  assert (∀ p, ¬ stage `prefix_of` p → objs (written db manifest_at (link_manifest graph)) !! p = objs d1 !! p) as Hp.
  { intros p Hp. rewrite written_manifest by done. simpl. rewrite lookup_insert_ne; [by apply Hdb|].
    intros <-. apply Hp. by eexists. }
  assert (frame project d1 (written db manifest_at (link_manifest graph))) as Hf.
  { split; [by apply manifest_wf|]. intros p (_ & Hs & _). by apply Hp. }
  split_and!; [done| | |done].
  - eapply same_contents_trans; [apply Hdb|by apply manifest_contents].
  - eapply frame_ready; [apply (lr_ready Hgood)|done|]. intros p t Hin Hl.
    destruct (decide (p = stage)) as [->|Hne].
    + rewrite written_manifest in Hl by done. simpl in Hl. rewrite lookup_insert_ne in Hl.
      * rewrite <- (app_nil_r stage) in Hl. eapply no_link_of; [|exact Hdb|exact Hl].
        apply (no_link_modules ""), prefix_nil.
      * intros He. apply (f_equal length) in He. unfold manifest_at in He. rewrite length_app in He. simpl in He. lia.
    + rewrite Hp in Hl; [by eapply (ready_links _ _ (lr_ready Hgood))|]. unfold live_path, stage_path, backup_path in *. set_unfold in Hin.
      destruct Hin as [->|[->|[->|[]]]]; [by apply three_apart_nil|done|by apply three_apart_nil].
Qed.
Lemma wp_build_commit : (∀ r, objs d1 !! (backup_path project ++ r) = None) →
  wp (result ← build_layout root project graph;
      _ ← commit_tree false "failed to stage existing node_modules for replacement"
            "failed to atomically promote staged node_modules" "" (path_of live) (path_of stage) (path_of (backup_path project));
      mret result)
    (λ r d, frame project d1 d ∧ same_contents (inodes d1) (inodes d) ∧ (is_ok r = true → linked_tree d)) d1.
Proof.
  intros Hback. apply wp_io_bind. eapply wp_io_mono; [|apply wp_build_layout]. intros [res|e] d2 Hd2.
  2: { split_and!; [by apply laid_frame|apply Hd2|done]. }
  pose proof (built_frame d2 Hd2) as (Hf2 & Hi2 & Hr2 & Hp2). destruct Hd2 as (db & Hdb & Hc & Hv & ->).
  apply wp_io_bind. eapply wp_io_mono; [|apply wp_commit; [done|]].
  2: { intros r. rewrite Hp2; [apply Hback|]. unfold stage_path, backup_path. by apply three_apart. }
  intros r d3 ((Hf3 & Hr3 & Hi3) & Hcommit).
  assert (frame project d1 d3) as Hf by (by eapply frame_trans).
  assert (same_contents (inodes d1) (inodes d3)) as Hi by (by rewrite Hi3).
  destruct r as [[]|e]; [|by split_and!]. destruct (Hcommit eq_refl) as (Hl3 & Hs3 & _).
  apply wp_io_ret. split_and!; [done..|]. intros _. apply (committed_tree db); [done..|apply Hf3|done|done|done].
Qed.
End resolves.

(** (C4) [link_all], for any graph whose packages are in the store under valid names, without
    a [node_modules] of their own (bundled packages are not covered), and whose dependencies
    have valid names, in any order of maps. A run that ends, well or not, leaves everything outside the three
    directories as it was and the contents of every file, those of the store included. When
    it succeeds, either the fingerprint of the live tree was that of the graph, and then
    nothing changed but an interrupted run that was settled; or the new tree stands: each package with
    all its files, the hoisted names leading to their packages, and, from the directory of
    each package, Node's search for the name of a dependency or a peer finds the package the
    graph names. Two kinds of names are excepted: that of the package itself, for which
    Node finds the package ([self_named_dependency]), and a name under which the graph
    wants two packages. *)
Theorem link_all_resolves `{!HashIter, !LinkLib, !StoreLib} root project graph d0 :
  ready project d0 →
  let d1 := (Materialize.recover_link_transaction (path_of (live_path project)) (path_of (stage_path project))
               (path_of (backup_path project)) d0).1 in
  layout_good root project graph d1 →
  let '(d', r) := link_all root project graph d0 in
  frame project d0 d' ∧ same_contents (inodes d0) (inodes d') ∧
  (is_ok r = true → recovered project d0 d1 ∧
    ((d' = d1 ∧ (Disk.read_file (manifest_path (path_of (live_path project))) d1).2 = Ok (link_manifest graph)) ∨
     linked_tree root project graph d1 d')).
Proof.
  intros Hr d1 Hgood.
  enough (wp (link_all root project graph) (λ r d', frame project d0 d' ∧ same_contents (inodes d0) (inodes d') ∧
    (is_ok r = true → recovered project d0 d1 ∧
      ((d' = d1 ∧ (Disk.read_file (manifest_path (path_of (live_path project))) d1).2 = Ok (link_manifest graph)) ∨
       linked_tree root project graph d1 d'))) d0) as Hw.
  { unfold wp in Hw. by destruct (link_all _ _ _ d0). }
  unfold link_all. apply wp_io_bind, wp_from. destruct (validate_graph_path_names graph) as [[]|e];
    [|split_and!; [by apply frame_refl, Hr|apply same_contents_refl|done]].
  apply wp_io_bind.
  assert (wp (Materialize.recover_link_transaction (path_of (live_path project)) (path_of (stage_path project)) (path_of (backup_path project)))
    (λ r d', d' = d1 ∧ kept_outside project d0 d' ∧ (is_ok r = true → recovered project d0 d')) d0) as Hrec
    by (split; [done|exact (wp_recover project d0 Hr)]).
  eapply wp_io_mono; [|exact Hrec]. clear Hrec. intros r d2 (-> & (Hf & Hr1 & Hi) & Hrec).
  destruct r as [[]|e]; [|split_and!; [done|rewrite Hi; apply same_contents_refl|done]]. specialize (Hrec eq_refl).
  assert (layout_ready root project graph d1) as Hready by (split; [done|done|apply Hrec]).
  assert (wp (result ← build_layout root project graph;
      _ ← commit_tree false "failed to stage existing node_modules for replacement"
            "failed to atomically promote staged node_modules" "" (path_of (live_path project)) (path_of (stage_path project)) (path_of (backup_path project));
      mret result) (λ r d', frame project d0 d' ∧ same_contents (inodes d0) (inodes d') ∧
    (is_ok r = true → recovered project d0 d1 ∧
      ((d' = d1 ∧ (Disk.read_file (manifest_path (path_of (live_path project))) d1).2 = Ok (link_manifest graph)) ∨
       linked_tree root project graph d1 d'))) d1) as Hbuild.
  { eapply wp_io_mono; [|apply (wp_build_commit root project graph d1 Hready), Hrec].
    intros r d3 (Hf3 & Hi3 & Hok). split_and!; [by eapply frame_trans|by rewrite <- Hi|]. intros Hr'. split; [done|]. right. by apply Hok. }
  apply wp_io_bind, wp_asks, wp_io_bind, wp_io_attempt.
  apply wp_read_file. destruct (Disk.read_file (manifest_path (path_of (live_path project))) d1).2 as [p|e];
    [destruct (exists_ (path_of (live_path project)) d1 && bool_decide (p = link_manifest graph)) eqn:Hfast|rewrite andb_false_r].
  - apply wp_io_ret. split_and!; [done|rewrite Hi; apply same_contents_refl|]. intros _. split; [done|]. left. split; [done|].
    apply andb_true_iff in Hfast as [_ Hp]. by apply bool_decide_eq_true in Hp as ->.
  - by apply Hbuild.
  - by apply Hbuild.
Qed.

(** ** A graph *)

#[local] Existing Instances sample_linking sample_store default_iter.
Definition node_a : DepNode := node_of "a" "1" {["b" := "b@1"; "@x/c" := "@x/c@1"]}.
Definition node_c : DepNode := node_of "@x/c" "1" {["b" := "b@2"]}.
Definition layout_graph : DepGraph := {|
  nodes := <["a@1" := node_a]> (<["@x/c@1" := node_c]>
      (<["b@1" := node_of "b" "1" ∅]> {["b@2" := node_of "b" "2" ∅]}));
  roots := ["a@1"]; peer_report := default_report |}.
Definition layout_files : list (list string * string) :=
  (λ '(k, node), (source_of ["s"] node ++ ["package.json"], k)) <$> map_to_list (nodes layout_graph).
Definition layout_disk : Disk := {|
  objs := list_to_map (imap (λ i e, (e.1, Regular i)) layout_files) ∪
    folders (["p"] :: concat ((λ e, (λ i, take i e.1) <$> seq 0 (length e.1)) <$> layout_files));
  inodes := list_to_map (imap (λ i e, (i, {| contents := e.2; executable := false |})) layout_files) |}.
Definition layout_run := link_all ["s"] ["p"] layout_graph layout_disk.
Definition good_name_check (n : string) : bool :=
  is_ok (validate_install_name n) && forallb (λ p, bool_decide (p ∉ reserved)) (split_char "/" n).
Lemma good_name_checked n : good_name_check n = true → good_name n.
Proof.
  intros [Hv Hf]%andb_true_iff. split; [by destruct (validate_install_name n) as [[]|]|].
  apply Forall_forall. intros p Hp. rewrite forallb_forall in Hf. apply list_elem_of_In in Hp. by apply Hf, bool_decide_eq_true in Hp.
Qed.
(** [layout_good], node by node. *)
Definition node_check (root : list string) (d : Disk) (e : string * DepNode) : bool :=
  let '(k, node) := e in
  bool_decide (k ≠ "") && good_name_check (install_name node) && bool_decide (virtual_key_component k ≠ "node_modules")
  && forallb (good_name_check ∘ fst) (map_to_list (dependencies node))
  && bool_decide (objs d !! source_of root node = Some Folder)
  && bool_decide (objs d !! (source_of root node ++ ["node_modules"]) = None).
Lemma layout_checked root project graph d :
  forallb (node_check root d) (map_to_list (nodes graph)) = true → (∀ p t, objs d !! p ≠ Some (Link t)) →
  ¬ project `prefix_of` root → ¬ root `prefix_of` project → (∀ n, root ≠ project ++ [n]) →
  layout_good root project graph d.
Proof.
  rewrite forallb_forall. intros Hall Hlinks Hroot Hproject Hne.
  assert (∀ k node, nodes graph !! k = Some node → node_check root d (k, node) = true) as Hnode.
  { intros k node Hk. apply Hall, list_elem_of_In. by apply elem_of_map_to_list. }
  unfold node_check in Hnode. split.
  - intros k node Hk. specialize (Hnode k node Hk). rewrite !andb_true_iff, !bool_decide_eq_true in Hnode.
    destruct Hnode as (((((? & ?) & _) & _) & _) & _). split; [done|by apply good_name_checked].
  - intros k node Hk. specialize (Hnode k node Hk). rewrite !andb_true_iff, !bool_decide_eq_true in Hnode. apply Hnode.
  - intros k node n c Hk Hn. specialize (Hnode k node Hk). rewrite !andb_true_iff, forallb_forall in Hnode.
    destruct Hnode as (((_ & Hdep) & _) & _). apply good_name_checked, (Hdep (n, c)), list_elem_of_In.
    by apply elem_of_map_to_list.
  - intros k node Hk. specialize (Hnode k node Hk). rewrite !andb_true_iff, !bool_decide_eq_true in Hnode. apply Hnode.
  - intros k node _ q t _. apply Hlinks.
  - intros k node Hk. specialize (Hnode k node Hk). rewrite !andb_true_iff, !bool_decide_eq_true in Hnode. apply Hnode.
  - intros n _. split; [intros Hp; apply Hroot; etrans; [|exact Hp]; by eexists|].
    intros [->|Hp]%prefix_snoc; [by apply (Hne n)|done].
Qed.

Lemma layout_disk_ready : ready ["p"] layout_disk.
Proof.
  split; [|vm_compute; reflexivity|intros p t _; apply no_links_entries; vm_cast_no_check (eq_refl true)].
  apply dwf_entries; [vm_compute; reflexivity|vm_cast_no_check (eq_refl true)].
Qed.
Lemma layout_disk_good : layout_good ["s"] ["p"] layout_graph layout_disk.
Proof.
  apply layout_checked; [vm_cast_no_check (eq_refl true)| |by intros [? ?]|by intros [? ?]|by intros ?].
  apply no_links_entries. vm_cast_no_check (eq_refl true).
Qed.
Lemma layout_disk_recovered : Materialize.recover_link_transaction (path_of (live_path ["p"])) (path_of (stage_path ["p"]))
    (path_of (backup_path ["p"])) layout_disk = (layout_disk, Ok tt).
Proof. vm_cast_no_check (eq_refl (layout_disk, Ok tt : result LinkError unit)). Qed.
Lemma layout_run_ok : layout_run.2 = Ok {| linked := 4; symlinks := 6; nested_links := 1; bins := 0; Materialize.missing := 0 |}.
Proof. vm_compute. reflexivity. Qed.
Lemma layout_disk_fresh : (Disk.read_file (manifest_path (path_of (live_path ["p"]))) layout_disk).2 = Err NotFound.
Proof. vm_compute. reflexivity. Qed.
Lemma link_all_resolves_witness :
  ∃ d', layout_run = (d', Ok {| linked := 4; symlinks := 6; nested_links := 1; bins := 0; Materialize.missing := 0 |}) ∧
    require d' ["p"; "node_modules"; ".oath"; "@x%2Fc@1"; "node_modules"; "@x"; "c"] "b" =
      Some ["p"; "node_modules"; ".oath"; "b@2"; "node_modules"; "b"] ∧
    require d' ["p"; "node_modules"; ".oath"; "a@1"; "node_modules"; "a"] "b" =
      Some ["p"; "node_modules"; ".oath"; "b@1"; "node_modules"; "b"].
Proof.
  pose proof (link_all_resolves ["s"] ["p"] layout_graph layout_disk layout_disk_ready) as Hrun.
  cbv zeta in Hrun. rewrite layout_disk_recovered in Hrun. cbn [fst] in Hrun. specialize (Hrun layout_disk_good).
  change (link_all ["s"] ["p"] layout_graph layout_disk) with layout_run in Hrun.
  pose proof layout_run_ok as Hok.
  destruct layout_run as [d' r]. simpl in Hok. destruct Hrun as (_ & _ & Hdone). subst r.
  destruct (Hdone eq_refl) as [_ [[_ Hm]|Ht]]; [by rewrite layout_disk_fresh in Hm|].
  exists d'. split_and!; [done|..].
  - assert (nodes layout_graph !! "@x/c@1" = Some node_c) as Hc by (vm_compute; reflexivity).
    assert (["p"; "node_modules"; ".oath"; "@x%2Fc@1"; "node_modules"; "@x"; "c"] = live_path ["p"] ++ package "@x/c@1" (install_name node_c)) as ->
      by (vm_compute; reflexivity).
    assert (["p"; "node_modules"; ".oath"; "b@2"; "node_modules"; "b"] = live_path ["p"] ++ package "b@2" "b") as ->
      by (vm_compute; reflexivity).
    apply (lt_require _ _ _ _ _ Ht "@x/c@1" node_c "b" "b@2" Hc); [|exists (node_of "b" "2" ∅); vm_compute; reflexivity| |done].
    + exists node_c. split; [exact Hc|]. left. exists "b". split; vm_compute; reflexivity.
    + intros c (node & Hk & Hedge). rewrite Hc in Hk. injection Hk as <-.
      destruct Hedge as [(m & Hm & _)|(m & p & Hm & _)]; [|done].
      by apply (lookup_singleton_Some "b" m "b@2" c) in Hm as [_ <-].
  - assert (nodes layout_graph !! "a@1" = Some node_a) as Ha by (vm_compute; reflexivity).
    assert (["p"; "node_modules"; ".oath"; "a@1"; "node_modules"; "a"] = live_path ["p"] ++ package "a@1" (install_name node_a)) as ->
      by (vm_compute; reflexivity).
    assert (["p"; "node_modules"; ".oath"; "b@1"; "node_modules"; "b"] = live_path ["p"] ++ package "b@1" "b") as ->
      by (vm_compute; reflexivity).
    apply (lt_require _ _ _ _ _ Ht "a@1" node_a "b" "b@1" Ha); [|exists (node_of "b" "1" ∅); vm_compute; reflexivity| |done].
    + exists node_a. split; [exact Ha|]. left. exists "b". split; vm_compute; reflexivity.
    + intros c (node & Hk & Hedge). rewrite Ha in Hk. injection Hk as <-.
      destruct Hedge as [(m & Hm & Hn)|(m & p & Hm & _)]; [|done].
      apply (lookup_insert_Some _ "b" m "b@1" c) in Hm as [[_ <-]|[_ Hm]]; [done|].
      apply (lookup_singleton_Some "@x/c" m "@x/c@1" c) in Hm as [<- <-].
      assert (dep_install_name layout_graph "@x/c" "@x/c@1" = "@x/c") as Hx by (vm_compute; reflexivity).
      by rewrite Hx in Hn.
Defined.

(** Empty packages in the store. *)
Definition sample_packages (graph : DepGraph) : Disk :=
  {| objs := folders (["p"] :: concat ((λ e, (λ i, take i (source_of ["s"] e.2)) <$> seq 0 6) <$> map_to_list (nodes graph)));
     inodes := ∅ |}.
(** The version the root depends on is not at the top when another version has more
    dependents: the root's own require finds that one. *)
Definition popular_graph : DepGraph := {|
  nodes := <["b@1" := node_of "b" "1" ∅]> (<["b@2" := node_of "b" "2" ∅]>
    (<["c@1" := node_of "c" "1" {["b" := "b@2"]}]> {["d@1" := node_of "d" "1" {["b" := "b@2"]}]}));
  roots := ["b@1"; "c@1"; "d@1"]; peer_report := default_report |}.
Example root_version_not_hoisted :
  require (link_all ["s"] ["p"] popular_graph (sample_packages popular_graph)).1 ["p"] "b" =
  Some ["p"; "node_modules"; ".oath"; "b@2"; "node_modules"; "b"].
Proof. vm_compute. reflexivity. Qed.

(** A package that depends on another one under its own name, which is at the top, is
    linked to itself. *)
Definition self_named_graph : DepGraph := {|
  nodes := <["a@1" := node_of "a" "1" {["a" := "a@2"]}]> (<["a@2" := node_of "a" "2" ∅]>
    (<["c@1" := node_of "c" "1" {["a" := "a@2"]}]> {["d@1" := node_of "d" "1" {["a" := "a@2"]}]}));
  roots := ["a@1"; "c@1"; "d@1"]; peer_report := default_report |}.
Example self_named_dependency :
  require (link_all ["s"] ["p"] self_named_graph (sample_packages self_named_graph)).1
    ["p"; "node_modules"; ".oath"; "a@1"; "node_modules"; "a"] "a" =
  Some ["p"; "node_modules"; ".oath"; "a@1"; "node_modules"; "a"].
Proof. vm_compute. reflexivity. Qed.
