(* ===== verification/Npmrc.v ===== *)
(** * oath-fetch: [.npmrc] files ([npmrc.rs])

    Registries by scope and tokens by host, from the files of the user and of the
    project and from the environment. *)
From S2P Require Export RustStr.

(** [std::env::var(name).unwrap_or_default()] *)
Notation Env := (string → string).

(** ** [expand_env] *)

(** One round of the loop: the first [${] is replaced with its closing brace. *)
Definition expand_once (env : Env) (out : string) : option string :=
  start ← find_str "${" out;
  let rest := drop_str (start + 2) out in
  rel_end ← find_str "}" rest;
  let var := take_str rel_end rest in
  Some (take_str start out +:+ env var +:+ drop_str (rel_end + 1) rest).
(** The loop; [None] when the fuel runs out. *)
Fixpoint expand_env (fuel : nat) (env : Env) (s : string) : option string :=
  match expand_once env s with
  | None => Some s
  | Some s' => match fuel with O => None | S fuel => expand_env fuel env s' end
  end.

(** ** The files *)

Record NpmrcConfig := {
  default_registry : option string;
  scoped_registries : gmap string string;
  tokens : gmap string string;
}.
Definition default_npmrc : NpmrcConfig :=
  {| default_registry := None; scoped_registries := ∅; tokens := ∅ |}.

Definition normalize_registry (u : string) : string := trim_end_matches "/" u.

Definition host_from_npmrc_key (k : string) : option string :=
  let trimmed := trim_start_matches "/" k in
  let host := hd trimmed (split_char "/" trimmed) in
  let host := hd host (split_char ":" host) in
  if decide (host = "") then None else Some host.

Definition set_default (r : string) (c : NpmrcConfig) : NpmrcConfig :=
  {| default_registry := Some r; scoped_registries := scoped_registries c; tokens := tokens c |}.
Definition set_scope (s r : string) (c : NpmrcConfig) : NpmrcConfig :=
  {| default_registry := default_registry c;
     scoped_registries := <[s := r]> (scoped_registries c); tokens := tokens c |}.
Definition set_token (h t : string) (c : NpmrcConfig) : NpmrcConfig :=
  {| default_registry := default_registry c; scoped_registries := scoped_registries c;
     tokens := <[h := t]> (tokens c) |}.

(** What a line assigns, its value expanded: the outer [None] when the expansion
    does not end within the fuel, the inner one for a line to skip. *)
Definition assignment (fuel : nat) (env : Env) (line : string) : option (option (string * string)) :=
  let line := trim line in
  if bool_decide (line = "") || starts_with "#" line || starts_with ";" line then Some None
  else
  match split_once "=" line with
  | None => Some None
  | Some (k, raw_val) =>
      val ← expand_env fuel env (trim raw_val);
      Some (Some (trim k, val))
  end.
Definition set_key (k val : string) (self : NpmrcConfig) : NpmrcConfig :=
  if bool_decide (val = "") && negb (starts_with "//" k) then self
  else if decide (k = "registry") then set_default (normalize_registry val) self
  else match strip_suffix ":registry" k with
  | Some scope =>
      if starts_with "@" scope then set_scope scope (normalize_registry val) self else self
  | None =>
  match strip_suffix ":_authToken" k with
  | Some host_path =>
      match host_from_npmrc_key host_path with
      | Some host => if decide (val = "") then self else set_token host val self
      | None => self
      end
  | None => self
  end end.
(** One round of the loop of [merge_file]. *)
Definition merge_line (fuel : nat) (env : Env) (self : NpmrcConfig) (line : string) :
    option NpmrcConfig :=
  a ← assignment fuel env line;
  Some (match a with Some (k, val) => set_key k val self | None => self end).
Fixpoint merge_lines (fuel : nat) (env : Env) (self : NpmrcConfig) (l : list string) :
    option NpmrcConfig :=
  match l with
  | [] => Some self
  | line :: l => self ← merge_line fuel env self line; merge_lines fuel env self l
  end.
(** A file that cannot be read is [None]. *)
Definition merge_file (fuel : nat) (env : Env) (self : NpmrcConfig) (file : option string) :
    option NpmrcConfig :=
  match file with None => Some self | Some content => merge_lines fuel env self (lines content) end.

(** [load]: [home] is the user's file, if there is a home directory, and
    [override] the variable [OATH_REGISTRY], or else [npm_config_registry]. *)
Definition load (fuel : nat) (env : Env) (override : option string) (home project : option string) :
    option NpmrcConfig :=
  cfg ← merge_file fuel env default_npmrc home;
  cfg ← merge_file fuel env cfg project;
  Some match override with
       | Some reg => if decide (reg = "") then cfg else set_default (normalize_registry reg) cfg
       | None => cfg
       end.

Definition token_for_host (self : NpmrcConfig) (host : string) : option string := tokens self !! host.

(** ** Expansion: lemmas *)

Definition dollars (s : string) : nat := length (filter (λ a, a = "$"%char) (chars s)).

Lemma dollars_app a b : dollars (a +:+ b) = dollars a + dollars b.
Proof. unfold dollars. by rewrite chars_app, filter_app, length_app. Qed.
Lemma dollars_none s : has "$" s = false → dollars s = 0.
Proof.
  intros H. apply bool_decide_eq_false in H. unfold dollars.
  rewrite list_filter_none; [done|]. apply Forall_forall. by intros a Ha ->.
Qed.

(** A round replaces a reference. *)
Lemma expand_once_Some env s s' :
  expand_once env s = Some s' →
  ∃ pre var post, s = pre +:+ "${" +:+ var +:+ "}" +:+ post ∧ s' = pre +:+ env var +:+ post.
Proof.
  unfold expand_once. destruct (find_str "${" s) as [start|] eqn:E1; [|done]. simpl.
  apply find_str_Some in E1 as (pre & r & -> & <-).
  replace (drop_str (String.length pre + 2) (pre +:+ "${" +:+ r)) with r.
  2: { symmetry. unfold drop_str. rewrite chars_app, <- length_chars, drop_app_add'; [|done].
       apply of_chars_chars. }
  destruct (find_str "}" r) as [e|] eqn:E2; [|done]. simpl.
  apply find_str_Some in E2 as (var & post & -> & <-). intros [= <-].
  exists pre, var, post. split; [done|].
  rewrite !take_str_app. do 2 f_equal.
  change ("}" +:+ post) with (String "}" post). by rewrite drop_str_S.
Qed.
Lemma find_str_here n s : starts_with n s = true → find_str n s = Some 0.
Proof. intros H. destruct s; cbn [find_str]; by rewrite H. Qed.
Lemma expand_once_ref env pre var post :
  has "$" pre = false → has "}" var = false →
  expand_once env (pre +:+ "${" +:+ var +:+ "}" +:+ post) = Some (pre +:+ env var +:+ post).
Proof.
  intros Hp Hv. unfold expand_once.
  assert (find_str "${" (pre +:+ "${" +:+ var +:+ "}" +:+ post) = Some (String.length pre)) as ->.
  { induction pre as [|x pre IH].
    - rewrite str_app_nil_l. apply find_str_here, starts_with_true. by eexists.
    - rewrite has_cons in Hp. apply orb_false_iff in Hp as [Hx Hp].
      rewrite str_app_cons. cbn [find_str]. rewrite IH by done.
      destruct (starts_with "${" (String x _)) eqn:Es; [|done].
      apply starts_with_true in Es as [r [= -> _]]. done. }
  simpl.
  replace (drop_str (String.length pre + 2) (pre +:+ "${" +:+ var +:+ "}" +:+ post))
    with (var +:+ String "}" post).
  2: { symmetry. unfold drop_str. rewrite chars_app, <- length_chars, drop_app_add'; [|done].
       apply of_chars_chars. }
  rewrite find_str_char by done. simpl.
  by rewrite !take_str_app, drop_str_S.
Qed.

Lemma expand_env_total env s fuel :
  (∀ v, has "$" (env v) = false) → dollars s ≤ fuel →
  ∃ r, expand_env fuel env s = Some r ∧ expand_once env r = None.
Proof.
  intros Henv. revert s. induction fuel as [|fuel IH]; intros s Hd; cbn [expand_env].
  - destruct (expand_once env s) as [s'|] eqn:E; [|by exists s].
    apply expand_once_Some in E as (pre & var & post & -> & _).
    rewrite !dollars_app in Hd. change (dollars "${") with 1 in Hd. lia.
  - destruct (expand_once env s) as [s'|] eqn:E; [|by exists s]. apply IH.
    apply expand_once_Some in E as (pre & var & post & -> & ->).
    rewrite !dollars_app in Hd. rewrite !dollars_app. change (dollars "${") with 1 in Hd.
    rewrite (dollars_none (env var)) by done. lia.
Qed.
Lemma expand_env_loop env v fuel :
  has "}" v = false → env v = "${" +:+ v +:+ "}" →
  expand_env fuel env ("${" +:+ v +:+ "}") = None.
Proof.
  intros Hv He. pose proof (expand_once_ref env "" v "" eq_refl Hv) as H.
  rewrite !str_app_nil_l, !str_app_nil_r, He in H.
  induction fuel as [|fuel IH]; cbn [expand_env]; rewrite H; done.
Qed.

(** Expansion of variables. When no value holds a dollar sign, expansion ends
    after at most as many rounds as the text has dollar signs, no reference is left,
    and a single reference is replaced with its value. A variable whose value is a
    reference to itself keeps it running for ever, and with it the reading of a file
    that uses the variable. *)
Theorem expand_env_spec env :
  ((∀ v, has "$" (env v) = false) →
   (∀ s fuel, dollars s ≤ fuel →
      ∃ r, expand_env fuel env s = Some r ∧ expand_once env r = None) ∧
   (∀ pre var post fuel, has "$" pre = false → has "}" var = false → has "$" post = false →
      expand_env (S fuel) env (pre +:+ "${" +:+ var +:+ "}" +:+ post) =
      Some (pre +:+ env var +:+ post))) ∧
  (∀ v, has "}" v = false → env v = "${" +:+ v +:+ "}" →
   ∀ fuel, expand_env fuel env ("${" +:+ v +:+ "}") = None).
Proof.
  split; [intros Henv; split|].
  - intros s fuel. by apply expand_env_total.
  - intros pre var post fuel Hp Hv Hq. cbn [expand_env]. rewrite expand_once_ref by done.
    assert (expand_once env (pre +:+ env var +:+ post) = None) as E.
    { unfold expand_once. destruct (find_str "${" _) as [i|] eqn:E; [|done].
      apply find_str_Some in E as (a & b & E & _). apply (f_equal (has "$")) in E.
      rewrite !has_app, Hp, Henv, Hq in E. simpl in E. by rewrite orb_true_r in E. }
    destruct fuel; cbn [expand_env]; by rewrite E.
  - intros v Hv He fuel. by apply expand_env_loop.
Qed.

Lemma expand_env_spec_witness :
  expand_env 1 (λ v, if decide (v = "TOKEN") then "secret" else "") "a${TOKEN}b" = Some "asecretb" ∧
  ∀ fuel, expand_env fuel (λ v, "${V}") "${V}" = None.
Proof.
  split.
  - refine (proj2 (proj1 (expand_env_spec (λ v, if decide (v = "TOKEN") then "secret" else "")) _)
      "a" "TOKEN" "b" 0 eq_refl eq_refl eq_refl). intros v. by case_decide.
  - exact (proj2 (expand_env_spec (λ v, "${V}")) "V" eq_refl eq_refl).
Defined.

(** ** Settings: lemmas *)

(** What an assignment sets: the default registry, the registry of a scope, the
    token of a host. *)
Definition default_of (a : string * string) : option string :=
  if decide (a.1 = "registry" ∧ a.2 ≠ "") then Some (normalize_registry a.2) else None.
Definition scope_of (s : string) (a : string * string) : option string :=
  if decide (a.1 = s +:+ ":registry" ∧ starts_with "@" s = true ∧ a.2 ≠ "")
  then Some (normalize_registry a.2) else None.
Definition token_of (h : string) (a : string * string) : option string :=
  hp ← strip_suffix ":_authToken" a.1;
  if decide (host_from_npmrc_key hp = Some h ∧ a.2 ≠ "") then Some a.2 else None.

Definition or_keep (new old : option string) : option string :=
  match new with Some x => Some x | None => old end.

Lemma strip_registry_token k a b :
  strip_suffix ":registry" k = Some a → strip_suffix ":_authToken" k = Some b → False.
Proof.
  intros ->%strip_suffix_Some E%strip_suffix_Some.
  apply (f_equal (λ s, last (chars s))) in E. rewrite !chars_app, !last_app in E. done.
Qed.
Lemma starts_slashes_at s t : starts_with "//" (s +:+ t) = true → starts_with "@" s = true → False.
Proof.
  intros [r E]%starts_with_true [u ->]%starts_with_true. done.
Qed.

Lemma set_key_default k v c :
  default_registry (set_key k v c) = or_keep (default_of (k, v)) (default_registry c).
Proof.
  unfold set_key, default_of. simpl. destruct (decide (v = "")) as [->|Hv].
  - rewrite (decide_False (P := k = "registry" ∧ "" ≠ "")) by naive_solver.
    rewrite bool_decide_true by done. simpl. destruct (starts_with "//" k) eqn:E; [|done]. simpl.
    rewrite decide_False by (by intros ->). repeat case_match; done.
  - rewrite bool_decide_false by done. simpl. destruct (decide (k = "registry")) as [->|Hk].
    + by rewrite decide_True.
    + rewrite decide_False by naive_solver. simpl. repeat case_match; done.
Qed.

Lemma set_key_scope s k v c :
  scoped_registries (set_key k v c) !! s = or_keep (scope_of s (k, v)) (scoped_registries c !! s).
Proof.
  unfold set_key, scope_of. simpl. destruct (decide (v = "")) as [->|Hv].
  - rewrite (decide_False (P := k = s +:+ ":registry" ∧ _)) by naive_solver.
    rewrite bool_decide_true by done. simpl. destruct (starts_with "//" k) eqn:E; [|done]. simpl.
    rewrite decide_False by (by intros ->).
    destruct (strip_suffix ":registry" k) as [t|] eqn:E2.
    + apply strip_suffix_Some in E2 as ->. destruct (starts_with "@" t) eqn:E3; [|done].
      by destruct (starts_slashes_at t ":registry").
    + repeat case_match; done.
  - rewrite bool_decide_false by done. simpl. destruct (decide (k = "registry")) as [->|Hk].
    + rewrite decide_False; [done|]. intros (E & Hs & _). by apply starts_with_true in Hs as [r ->].
    + destruct (strip_suffix ":registry" k) as [t|] eqn:E2.
      * apply strip_suffix_Some in E2 as ->. destruct (starts_with "@" t) eqn:E3.
        -- simpl. destruct (decide (s = t)) as [->|Hst].
           ++ rewrite decide_True by done. by rewrite lookup_insert_eq.
           ++ rewrite decide_False by (intros [E _]; by apply str_app_inj_r in E).
              by rewrite lookup_insert_ne.
        -- rewrite decide_False; [done|]. intros (E & Hs & _). apply str_app_inj_r in E as ->.
           congruence.
      * rewrite decide_False; [repeat case_match; done|].
        intros [-> _]. by rewrite (proj2 (strip_suffix_Some _ _ s) eq_refl) in E2.
Qed.

Lemma set_key_token h k v c :
  tokens (set_key k v c) !! h = or_keep (token_of h (k, v)) (tokens c !! h).
Proof.
  unfold set_key, token_of. simpl.
  destruct (strip_suffix ":_authToken" k) as [hp|] eqn:E1; simpl.
  2: { repeat case_match; done. }
  destruct (strip_suffix ":registry" k) as [t|] eqn:E2; [by destruct (strip_registry_token k t hp)|].
  destruct (decide (k = "registry")) as [->|Hk].
  { apply strip_suffix_Some in E1. apply (f_equal (λ s, last (chars s))) in E1.
    by rewrite chars_app, last_app in E1. }
  destruct (decide (v = "")) as [->|Hv].
  - rewrite (decide_False (P := _ ∧ _)) by naive_solver. simpl.
    destruct (negb (starts_with "//" k)); [done|].
    by destruct (host_from_npmrc_key hp).
  - rewrite bool_decide_false by done. simpl. destruct (host_from_npmrc_key hp) as [h'|].
    + simpl. destruct (decide (h' = h)) as [->|Hh].
      * rewrite decide_True by done. by rewrite lookup_insert_eq.
      * rewrite decide_False by naive_solver. by rewrite lookup_insert_ne.
    + by rewrite decide_False by naive_solver.
Qed.

(** A sequence of assignments: the last one that sets something counts. *)
Lemma last_setting (get : NpmrcConfig → option string) (f : string * string → option string) c l :
  (∀ k v c, get (set_key k v c) = or_keep (f (k, v)) (get c)) →
  get (foldl (λ c a, set_key a.1 a.2 c) c l) = or_keep (last (omap f l)) (get c).
Proof.
  intros Hf. revert c. induction l as [|[k v] l IH]; intros c; [done|]. csimpl.
  rewrite IH, Hf. destruct (f (k, v)) as [x|]; [|done]. rewrite last_cons.
  by destruct (last (omap f l)).
Qed.

Lemma merge_lines_Some fuel env c l c' :
  merge_lines fuel env c l = Some c' ↔
  ∃ as_, mapM (assignment fuel env) l = Some as_ ∧
    c' = foldl (λ c a, set_key a.1 a.2 c) c (omap id as_).
Proof.
  revert c. induction l as [|line l IH]; intros c; simpl.
  { split; [intros [= <-]; by exists []|by intros (? & [= <-] & ->)]. }
  unfold merge_line. destruct (assignment fuel env line) as [a|]; simpl; [|naive_solver].
  rewrite IH. destruct (mapM _ l) as [as_|]; simpl; [|naive_solver].
  split.
  - intros (? & [= <-] & ->). eexists. split; [done|]. by destruct a as [[k v]|].
  - intros (? & [= <-] & ->). eexists. split; [done|]. by destruct a as [[k v]|].
Qed.

Lemma dollars_trim_with strip fuel s :
  (∀ w s s', strip w s = Some s' → dollars s' ≤ dollars s) → dollars (trim_with strip fuel s) ≤ dollars s.
Proof.
  intros Hs. revert s. induction fuel as [|fuel IH]; intros s; [done|]. cbn [trim_with].
  destruct (first_some _ white_space) as [s'|] eqn:E; [|done].
  apply first_some_Some in E as (w & _ & Hw%Hs). specialize (IH s'). lia.
Qed.
Lemma dollars_trim s : dollars (trim s) ≤ dollars s.
Proof.
  unfold trim, trim_end, trim_start. etrans; [apply dollars_trim_with|apply dollars_trim_with].
  - intros w a b ->%strip_suffix_Some. rewrite dollars_app. lia.
  - intros w a b ->%strip_prefix_Some. rewrite dollars_app. lia.
Qed.

(** The rounds a line may take. *)
Lemma assignment_total fuel env line :
  (∀ v, has "$" (env v) = false) → dollars line ≤ fuel → is_Some (assignment fuel env line).
Proof.
  intros Henv Hd. unfold assignment. destruct (_ || _); [done|].
  destruct (split_once "=" (trim line)) as [[k v]|] eqn:E; [|done].
  apply split_once_Some in E as [E _].
  pose proof (dollars_trim line) as H1. rewrite E in H1.
  change (String "=" v) with ("=" +:+ v) in H1. rewrite !dollars_app in H1.
  pose proof (dollars_trim v) as H2.
  destruct (expand_env_total env (trim v) fuel Henv) as (r & -> & _); [lia|done].
Qed.

Definition file_lines (file : option string) : list string :=
  match file with Some content => lines content | None => [] end.
Lemma load_lines fuel env override home project :
  load fuel env override home project =
  cfg ← merge_lines fuel env default_npmrc (file_lines home ++ file_lines project);
  Some match override with
       | Some reg => if decide (reg = "") then cfg else set_default (normalize_registry reg) cfg
       | None => cfg
       end.
Proof.
  unfold load.
  assert (∀ c f, merge_file fuel env c f = merge_lines fuel env c (file_lines f)) as Hf
    by by intros c [].
  rewrite !Hf. generalize default_npmrc. induction (file_lines home) as [|l ls IH]; intros c; simpl.
  - by rewrite Hf.
  - destruct (merge_line fuel env c l); simpl; [apply IH|done].
Qed.

(** Registries and tokens. What is loaded is, for every host, the token of the
    last line that gives one for that host, the project's file after the user's; for
    every scope, and for the default registry, likewise, except that the environment
    overrides the default registry. So a token is only ever sent to a host some line
    names; the path and the port of the line do not count. Loading ends when no
    variable holds a dollar sign. *)
Theorem npmrc_load_spec fuel env override home project :
  (∀ cfg, load fuel env override home project = Some cfg →
   ∃ as_, mapM (assignment fuel env) (file_lines home ++ file_lines project) = Some as_ ∧
     (∀ h, token_for_host cfg h = last (omap (token_of h) (omap id as_))) ∧
     (∀ s, scoped_registries cfg !! s = last (omap (scope_of s) (omap id as_))) ∧
     default_registry cfg =
       match override with
       | Some reg =>
           if decide (reg = "") then last (omap default_of (omap id as_))
           else Some (normalize_registry reg)
       | None => last (omap default_of (omap id as_))
       end) ∧
  ((∀ v, has "$" (env v) = false) →
   Forall (λ l, dollars l ≤ fuel) (file_lines home ++ file_lines project) →
   is_Some (load fuel env override home project)) ∧
  (∀ h rest, h ≠ "" → has "/" h = false → has ":" h = false →
     (rest = "" ∨ starts_with "/" rest = true ∨ starts_with ":" rest = true) →
     host_from_npmrc_key ("//" +:+ h +:+ rest) = Some h).
Proof.
  rewrite load_lines. split_and!.
  - intros cfg (c & (as_ & Has & ->)%merge_lines_Some & [= <-])%bind_Some. exists as_. split; [done|].
    assert (∀ get f, (∀ k v c, get (set_key k v c) = or_keep (f (k, v)) (get c)) →
      get default_npmrc = None →
      get (foldl (λ c a, set_key a.1 a.2 c) default_npmrc (omap id as_)) = last (omap f (omap id as_)))
      as Hget.
    { intros get f Hf H0. rewrite (last_setting get f) by done. rewrite H0.
      by destruct (last _). }
    split_and!.
    + intros h. unfold token_for_host.
      rewrite <- (Hget (λ c, tokens c !! h) (token_of h)); [|intros; apply set_key_token|done].
      destruct override as [reg|]; [case_decide|]; done.
    + intros s.
      rewrite <- (Hget (λ c, scoped_registries c !! s) (scope_of s)); [|intros; apply set_key_scope|done].
      destruct override as [reg|]; [case_decide|]; done.
    + rewrite <- (Hget default_registry default_of); [|intros; apply set_key_default|done].
      destruct override as [reg|]; [case_decide|]; done.
  - intros Henv Hf.
    assert (is_Some (mapM (assignment fuel env) (file_lines home ++ file_lines project))) as [as_ Has].
    { apply mapM_is_Some. eapply Forall_impl; [done|]. intros l. by apply assignment_total. }
    pose proof (proj2 (merge_lines_Some fuel env default_npmrc _ _) (ex_intro _ as_ (conj Has eq_refl)))
      as ->. done.
  - intros h rest Hne Hs Hc Hrest. unfold host_from_npmrc_key.
    assert (trim_start_matches "/" ("//" +:+ h +:+ rest) = h +:+ rest) as ->.
    { unfold trim_start_matches. destruct h as [|x h]; [done|].
      rewrite has_cons in Hs. apply orb_false_iff in Hs as [Hx _].
      apply bool_decide_eq_false in Hx. simpl. rewrite decide_False by congruence. simpl.
      by rewrite of_chars_chars. }
    destruct Hrest as [->|[[r ->]%starts_with_true|[r ->]%starts_with_true]].
    + rewrite str_app_nil_r, !split_char_none by done. simpl. by rewrite decide_False.
    + change ("/" +:+ r) with (String "/" r). rewrite split_char_app by done. simpl.
      rewrite split_char_none by done. simpl. by rewrite decide_False.
    + change (":" +:+ r) with (String ":" r).
      destruct (split_char "/" (h +:+ String ":" r)) as [|p ps] eqn:E; [by apply split_char_not_nil in E|].
      simpl. assert (∃ q, p = h +:+ String ":" q) as [q ->].
      { destruct (split_char_cons "/" r) as (q & qs & Er).
        assert (split_char "/" (h +:+ String ":" r) = (h +:+ String ":" q) :: qs) as E2.
        { clear -Er Hs. induction h as [|x h IH].
          - rewrite !str_app_nil_l. cbn [split_char]. by rewrite Er.
          - rewrite has_cons in Hs. apply orb_false_iff in Hs as [Hx Hs].
            apply bool_decide_eq_false in Hx. rewrite !str_app_cons. cbn [split_char].
            rewrite IH by done. by rewrite decide_False by congruence. }
        rewrite E in E2. injection E2 as -> _. by exists q. }
      rewrite split_char_app by done. simpl. by rewrite decide_False.
Qed.

Lemma npmrc_load_spec_witness :
  let env := λ v, if decide (v = "TOK") then "secret" else "" in
  ∃ cfg, load 2 env (Some "https://mirror/") (Some "//h.example/:_authToken=old")
           (Some "//h.example:8080/a/:_authToken=${TOK}") = Some cfg ∧
    token_for_host cfg "h.example" = Some "secret" ∧ default_registry cfg = Some "https://mirror" ∧
    host_from_npmrc_key ("//" +:+ "h.example" +:+ ":8080/a/") = Some "h.example".
Proof.
  intros env. eexists. split; [reflexivity|]. split; [reflexivity|]. split; [reflexivity|].
  apply (proj2 (proj2 (npmrc_load_spec 2 env None None None)) "h.example" ":8080/a/");
    [done|reflexivity..|right; right; reflexivity].
Defined.
