(* ===== verification/Client.v ===== *)
(** * oath-fetch: the registry client ([client.rs])

    Registries and tokens of a request, retries, the download of a tarball, and
    packuments with their cache on disk. The network, the clock, the URL parser and
    serde are parameters; the waits between attempts are returned. *)
From S2P Require Export Npmrc Tarball Versions.

(** ** Configuration *)

Record RegistryConfig := {
  registry_url : string;
  registry_scopes : gmap string string;
  host_tokens : gmap string string;
  cache_dir : string;
  token : option string;
  timeout_secs : Z;
}.
Definition default_config (home : string) : RegistryConfig := {|
  registry_url := "https://registry.npmjs.org"; registry_scopes := ∅; host_tokens := ∅;
  cache_dir := home +:+ "/.oath/cache/registry"; token := None; timeout_secs := 10 |}.
Definition from_npmrc (home : string) (npmrc : NpmrcConfig) : RegistryConfig :=
  let cfg := default_config home in {|
    registry_url := default (registry_url cfg) (default_registry npmrc);
    registry_scopes := scoped_registries npmrc;
    host_tokens := tokens npmrc;
    cache_dir := cache_dir cfg; token := token cfg; timeout_secs := timeout_secs cfg |}.

(** [url::Url::parse(u).ok()?.host_str()] *)
Class UrlParser := { host_of : string → option string }.

(** The part of [RegistryClient::new] that folds the single token in. *)
Definition fold_token `{!UrlParser} (c : RegistryConfig) : RegistryConfig :=
  match token c, host_of (registry_url c) with
  | Some t, Some h =>
      {| registry_url := registry_url c; registry_scopes := registry_scopes c;
         host_tokens := match host_tokens c !! h with
                        | Some _ => host_tokens c
                        | None => <[h := t]> (host_tokens c)
                        end;
         cache_dir := cache_dir c; token := token c; timeout_secs := timeout_secs c |}
  | _, _ => c
  end.

Definition registry_for (c : RegistryConfig) (name : string) : string :=
  if starts_with "@" name then
    default (registry_url c) (registry_scopes c !! hd name (split_char "/" name))
  else registry_url c.
Definition package_url (c : RegistryConfig) (name : string) : string :=
  registry_for c name +:+ "/" +:+ name.
Definition token_for_url `{!UrlParser} (c : RegistryConfig) (u : string) : option string :=
  h ← host_of u; host_tokens c !! h.

(** ** Attempts *)

(** A chunk of a body, or the error that interrupts it. *)
Inductive Chunk := Data (bytes : string) | Broken (retryable : bool).
Record Response := {
  status : Z;
  retry_after : option string;
  etag : option string;
  content_length : option Z;
  body : list Chunk;
}.
Inductive Attempt := Answer (r : Response) | Failed (retryable : bool).

Definition REQUEST_ATTEMPTS : nat := 3.
Definition is_success (s : Z) : bool := (200 <=? s)%Z && (s <=? 299)%Z.
Definition should_retry_status (s : Z) : bool :=
  existsb (Z.eqb s) [408; 425; 429; 500; 502; 503; 504]%Z.

(** In milliseconds. *)
Definition RETRY_MAX_DELAY : Z := 2000.
Definition retry_delay (attempt : nat) (retry_after : option string) : Z :=
  match r ← retry_after; parse_u64 r with
  | Some secs => (secs * 1000) `min` RETRY_MAX_DELAY
  | None => (200 * 2 ^ (Z.of_nat attempt `min` 10)) `min` RETRY_MAX_DELAY
  end.
Definition may_retry (attempt : nat) : bool := attempt + 1 <? REQUEST_ATTEMPTS.

(** The whole body, or the first interruption. *)
Fixpoint collect_body (l : list Chunk) : result bool string :=
  match l with
  | [] => Ok ""
  | Data d :: l => rest ← collect_body l; Ok (d +:+ rest)
  | Broken r :: _ => Err r
  end.

(** ** [send_bytes_with_retries]

    A run gives the outcome and the waits; no outcome is the [unreachable!] after
    the loop. *)
Definition Run A := (option (result string A) * list Z)%type.
Definition waiting {A} (d : Z) (r : Run A) : Run A := (r.1, d :: r.2).

Record Buffered := { buffered_status : Z; buffered_etag : option string; buffered_body : string }.

Fixpoint send_loop (more attempt : nat) (net : nat → Attempt) (context : string) : Run Buffered :=
  match more with
  | O => (None, [])
  | S more =>
      match net attempt with
      | Answer resp =>
          if should_retry_status (status resp) && may_retry attempt
          then waiting (retry_delay attempt (retry_after resp))
                 (send_loop more (S attempt) net context)
          else
            match collect_body (body resp) with
            | Ok b => (Some (Ok {| buffered_status := status resp; buffered_etag := etag resp;
                                   buffered_body := b |}), [])
            | Err retryable =>
                if retryable && may_retry attempt
                then waiting (retry_delay attempt None) (send_loop more (S attempt) net context)
                else (Some (Err context), [])
            end
      | Failed retryable =>
          if retryable && may_retry attempt
          then waiting (retry_delay attempt None) (send_loop more (S attempt) net context)
          else (Some (Err context), [])
      end
  end.
(** The program's requests have no streamed body, so they can be cloned. *)
Definition send_bytes_with_retries (net : nat → Attempt) (context : string) : Run Buffered :=
  send_loop REQUEST_ATTEMPTS 0 net context.

(** ** [fetch_tarball_to_file] *)

(** The disk: whether the file can be created and flushed, and what a write that
    fails leaves of its chunk. *)
Class Disk := {
  create_ok : nat → bool;
  write_fails : nat → nat → option string;
  flush_ok : nat → bool;
}.

(** The stream of one attempt: chunk by chunk, with the file written so far. The
    outcomes are an error to return, an interruption, or the end. *)
Inductive StreamEnd := StreamError (e : string) | Interrupted (retryable : bool) | Complete.
Fixpoint stream_loop (limits : TarballLimits) (fails : nat → option string) (i : nat)
    (chunks : list Chunk) (downloaded : Z) (verifier : option IntegrityVerifier) (file : string) :
    StreamEnd * Z * option IntegrityVerifier * string :=
  match chunks with
  | [] => (Complete, downloaded, verifier, file)
  | Broken r :: _ => (Interrupted r, downloaded, verifier, file)
  | Data chunk :: chunks =>
      match checked_add_u64 downloaded (Z.of_nat (String.length chunk)) with
      | None => (StreamError "tarball compressed size overflow", downloaded, verifier, file)
      | Some downloaded =>
          match check_archive_size limits downloaded with
          | Err e => (StreamError e, downloaded, verifier, file)
          | Ok _ =>
              let verifier := (λ v, update v chunk) <$> verifier in
              match fails i with
              | Some part => (StreamError "failed to write", downloaded, verifier, file +:+ part)
              | None =>
                  stream_loop limits fails (S i) chunks downloaded verifier (file +:+ chunk)
              end
          end
      end
  end.

Section download.
Context {DG : Digests} {DK : Disk}.
Context (limits : TarballLimits) (expected_integrity : option string).

(** A run leaves the destination, which may be missing. *)
Notation Download := (option (result string Z) * list Z * option string)%type.
Definition wait_then (d : Z) (r : Download) : Download := (r.1.1, d :: r.1.2, r.2).

Definition check_length (len : option Z) : result string unit :=
  match len with Some n => check_archive_size limits n | None => Ok tt end.
Definition start_verifier : result string (option IntegrityVerifier) :=
  match expected_integrity with Some sri => Some <$> new_verifier sri | None => Ok None end.

Fixpoint download_loop (more attempt : nat) (net : nat → Attempt) (dest : option string) : Download :=
  match more with
  | O => (None, [], dest)
  | S more =>
      match net attempt with
      | Failed retryable =>
          if retryable && may_retry attempt
          then wait_then (retry_delay attempt None) (download_loop more (S attempt) net dest)
          else (Some (Err "tarball download failed"), [], dest)
      | Answer resp =>
          if should_retry_status (status resp) && may_retry attempt
          then wait_then (retry_delay attempt (retry_after resp))
                 (download_loop more (S attempt) net dest)
          else if negb (is_success (status resp))
          then (Some (Err ("tarball download returned " +:+ pretty (status resp))), [], dest)
          else
            match check_length (content_length resp) with
            | Err e => (Some (Err e), [], dest)
            | Ok _ =>
            match start_verifier with
            | Err e => (Some (Err e), [], dest)
            | Ok verifier =>
                if negb (create_ok attempt) then (Some (Err "failed to create"), [], dest)
                else
                let '(ended, downloaded, verifier, file) :=
                  stream_loop limits (write_fails attempt) 0 (body resp) 0 verifier "" in
                match ended with
                | StreamError e => (Some (Err e), [], Some file)
                | Interrupted retryable =>
                    if retryable && may_retry attempt
                    then wait_then (retry_delay attempt None)
                           (download_loop more (S attempt) net None)
                    else (Some (Err "failed to read tarball chunk"), [], None)
                | Complete =>
                    if negb (flush_ok attempt) then (Some (Err "failed to flush"), [], Some file)
                    else
                    match verifier with
                    | None => (Some (Ok downloaded), [], Some file)
                    | Some v =>
                        match finish v with
                        | Ok _ => (Some (Ok downloaded), [], Some file)
                        | Err e => (Some (Err e), [], None)
                        end
                    end
                end
            end end
      end
  end.
Definition fetch_tarball_to_file (net : nat → Attempt) (dest : option string) : Download :=
  download_loop REQUEST_ATTEMPTS 0 net dest.
End download.

(** ** [fetch_packument] *)

(** serde's reading of a packument, and which cache files can be written. *)
Class PackumentIO := {
  parse_packument : string → option Packument;
  writable : string → bool;
}.

(** A file of the cache directory, with its modification time in nanoseconds. *)
Record CacheFile := { data : string; mtime : Z }.
(** The etags in memory, and the cache directory by file name. *)
Record ClientState := { etag_cache : gmap string string; disk : gmap string CacheFile }.

Definition CACHE_TTL_SECS : Z := 300.
Definition safe_file_name (name : string) : string := replace_char "/" "__" name.
Definition cache_file (name : string) : string := safe_file_name name +:+ ".json".
Definition etag_file (name : string) : string := safe_file_name name +:+ ".etag".

(** Whole seconds since the modification; a time in the future counts as now. *)
Definition age_secs (now : Z) (f : CacheFile) : Z := (0 `max` (now - mtime f)) / 10 ^ 9.

Section packuments.
Context {UP : UrlParser} {IO : PackumentIO}.

Definition write_disk (f content : string) (now : Z) (st : ClientState) : ClientState :=
  if writable f
  then {| etag_cache := etag_cache st; disk := <[f := {| data := content; mtime := now |}]> (disk st) |}
  else st.
Definition remember_etag (name e : string) (st : ClientState) : ClientState :=
  {| etag_cache := <[name := e]> (etag_cache st); disk := disk st |}.

Definition fresh_packument (st : ClientState) (name : string) (now : Z) : option Packument :=
  f ← disk st !! cache_file name;
  if (age_secs now f <? CACHE_TTL_SECS)%Z then parse_packument (data f) else None.

(** The etag a request carries: from memory, or from the file beside the cache. *)
Definition known_etag (st : ClientState) (name : string) : option string :=
  match etag_cache st !! name with
  | Some e => Some e
  | None => (λ f, trim (data f)) <$> disk st !! etag_file name
  end.

Definition load_cached_packument (st : ClientState) (name : string) : result string Packument :=
  f ← ok_or (disk st !! cache_file name) "cache miss after 304";
  ok_or (parse_packument (data f)) "corrupt cache entry".

(** What follows the answer of the registry, at time [now]. *)
Definition store_etag (name : string) (now : Z) (resp : Buffered) (st : ClientState) : ClientState :=
  match buffered_etag resp with
  | Some e => write_disk (etag_file name) e now (remember_etag name e st)
  | None => st
  end.
Definition handle_response (st : ClientState) (name : string) (now : Z) (resp : Buffered) :
    result string Packument * ClientState :=
  let s := buffered_status resp in
  if (s =? 304)%Z then (load_cached_packument st name, st)
  else if (s =? 404)%Z then (Err ("package not found: " +:+ name), st)
  else if negb (is_success s) then (Err ("registry returned " +:+ pretty s), st)
  else
    let st := write_disk (cache_file name) (buffered_body resp) now (store_etag name now resp st) in
    (ok_or (parse_packument (buffered_body resp)) "failed to parse packument", st).

(** A registry answers a request: its URL, its token and the etag it carries, by
    attempt. The request is made at [now] and answered at [later]. *)
Notation Registry := (string → option string → option string → nat → Attempt).
Definition fetch_packument (c : RegistryConfig) (registry : Registry) (now later : Z)
    (name : string) (st : ClientState) : option (result string Packument) * list Z * ClientState :=
  let u := package_url c name in
  match fresh_packument st name now with
  | Some p => (Some (Ok p), [], st)
  | None =>
      let '(r, waits) :=
        send_bytes_with_retries (registry u (token_for_url c u) (known_etag st name))
          "registry request failed" in
      match r with
      | Some (Ok resp) =>
          let '(p, st) := handle_response st name later resp in (Some p, waits, st)
      | Some (Err e) => (Some (Err e), waits, st)
      | None => (None, waits, st)
      end
  end.
End packuments.

(** ** [urlencoding::encode] *)

Definition unreserved (a : ascii) : bool :=
  is_alnum a || existsb (λ c, bool_decide (a = c)) ["-"; "_"; "."; "~"]%char.
Fixpoint url_encode (s : string) : string :=
  match s with
  | EmptyString => ""
  | String a s => (if unreserved a then String a "" else "%" +:+ hex_byte a) +:+ url_encode s
  end.

(** ** The other requests *)

(** A client has no etags in memory; [build_ok] is whether the HTTP client can be made. *)
Definition new_client `{!UrlParser} (build_ok : bool) (c : RegistryConfig) (disk : gmap string CacheFile) :
    result string (RegistryConfig * ClientState) :=
  _ ← ensure build_ok "failed to build HTTP client";
  Ok (fold_token c, {| etag_cache := ∅; disk := disk |}).
Section requests.
Context `{!UrlParser} {V : Type} (parse_value : string → option V).
Notation Registry := (string → option string → option string → nat → Attempt).
(** What becomes of a buffered answer; [refused] is a status that is an error of its own. *)
Definition value_of (refused : Z → option string) (failed unparsed : string) (resp : Buffered) : result string V :=
  match refused (buffered_status resp) with
  | Some e => Err e
  | None =>
      _ ← ensure (is_success (buffered_status resp)) (failed +:+ pretty (buffered_status resp));
      ok_or (parse_value (buffered_body resp)) unparsed
  end.
Definition get_value (c : RegistryConfig) (registry : Registry) (u context : string)
    (judge : Buffered → result string V) : Run V :=
  let '(r, waits) := send_bytes_with_retries (registry u (token_for_url c u) None) context in
  ((λ r, match r with Ok resp => judge resp | Err e => Err e end) <$> r, waits).
Definition fetch_packument_full (c : RegistryConfig) (registry : Registry) (name : string) : Run V :=
  get_value c registry (package_url c name) "registry request failed"
    (value_of (λ s, if (s =? 404)%Z then Some ("package not found: " +:+ name) else None)
       "registry returned " "failed to parse full packument").
Definition search_url (c : RegistryConfig) (query : string) (limit : nat) : string :=
  registry_url c +:+ "/-/v1/search?text=" +:+ url_encode query +:+ "&size=" +:+ pretty limit.
Definition search (c : RegistryConfig) (registry : Registry) (query : string) (limit : nat) : Run V :=
  get_value c registry (search_url c query limit) "registry search request failed"
    (value_of (λ _, None) "registry search returned " "failed to parse search results").
(** Into a temporary file, which is empty at first, and back. *)
Definition fetch_tarball {DG : Digests} {DK : Disk} (env : string → EnvVar) (temp_ok : bool) (read_ok : bool)
    (net : nat → Attempt) (expected_integrity : option string) : Run string :=
  match from_env env with
  | Err e => (Some (Err e), [])
  | Ok limits =>
      if negb temp_ok then (Some (Err "failed to create temp tarball"), [])
      else
        let '(r, waits, file) := fetch_tarball_to_file limits expected_integrity net (Some "") in
        ((λ r, match r with
               | Ok _ => if read_ok then ok_or file "failed to read temp tarball" else Err "failed to read temp tarball"
               | Err e => Err e
               end) <$> r, waits)
  end.
End requests.

(** ** Retries: lemmas *)

Lemma retry_delay_bounds attempt ra : (0 ≤ retry_delay attempt ra ≤ RETRY_MAX_DELAY)%Z.
Proof.
  unfold retry_delay, RETRY_MAX_DELAY.
  destruct (r ← ra; parse_u64 r) as [secs|] eqn:E.
  - destruct ra as [r|]; [|done]. simpl in E. unfold parse_u64 in E.
    case_decide; [done|].
    apply parse_digits_nonneg in E; lia.
  - assert (0 ≤ 2 ^ (Z.of_nat attempt `min` 10))%Z by (apply Z.pow_nonneg; lia). lia.
Qed.

(** Attempts and waits of a run that still has [more] attempts. *)
Definition bounded_waits (more : nat) (waits : list Z) : Prop :=
  length waits < more ∧ Forall (λ d, 0 ≤ d ≤ RETRY_MAX_DELAY)%Z waits.

Lemma bounded_waits_nil more : bounded_waits (S more) [].
Proof. split; [simpl; lia|constructor]. Qed.
Lemma bounded_waits_cons more a ra waits :
  bounded_waits more waits → bounded_waits (S more) (retry_delay a ra :: waits).
Proof. intros [? ?]. split; [simpl; lia|]. constructor; [apply retry_delay_bounds|done]. Qed.
Lemma may_retry_more more attempt :
  S more + attempt = REQUEST_ATTEMPTS → may_retry attempt = true → 0 < more.
Proof. unfold may_retry, REQUEST_ATTEMPTS. intros H1 H2%Nat.ltb_lt. lia. Qed.

Lemma send_loop_spec more attempt net context :
  0 < more → more + attempt = REQUEST_ATTEMPTS →
  let '(r, waits) := send_loop more attempt net context in
  is_Some r ∧ bounded_waits more waits ∧
  ∀ b, r = Some (Ok b) → ∃ i resp, attempt ≤ i < REQUEST_ATTEMPTS ∧ net i = Answer resp ∧
    buffered_status b = status resp ∧ buffered_etag b = etag resp ∧
    collect_body (body resp) = Ok (buffered_body b).
Proof.
  revert attempt. induction more as [|more IH]; intros attempt Hp Hm; [lia|].
  assert (∀ ra, may_retry attempt = true →
    let '(r, waits) := waiting (retry_delay attempt ra) (send_loop more (S attempt) net context) in
    is_Some r ∧ bounded_waits (S more) waits ∧
    ∀ b, r = Some (Ok b) → ∃ i resp, attempt ≤ i < REQUEST_ATTEMPTS ∧ net i = Answer resp ∧
      buffered_status b = status resp ∧ buffered_etag b = etag resp ∧
      collect_body (body resp) = Ok (buffered_body b)) as Hretry.
  { intros ra Hr. specialize (IH (S attempt) (may_retry_more _ _ Hm Hr)).
    destruct (send_loop more (S attempt) net context) as [r waits]. simpl.
    destruct IH as (? & ? & Hb); [lia|]. split_and!; [done|by apply bounded_waits_cons|].
    intros b (i & resp & ? & ?)%Hb. exists i, resp. split; [lia|done]. }
  cbn [send_loop]. destruct (net attempt) as [resp|retryable] eqn:En.
  - destruct (should_retry_status (status resp) && may_retry attempt) eqn:Es.
    { apply andb_true_iff in Es as [_ Es]. by apply Hretry. }
    destruct (collect_body (body resp)) as [b|retryable] eqn:Eb.
    + split_and!; [done|apply bounded_waits_nil|]. intros ? [= <-]. exists attempt, resp.
      split_and!; try done; lia.
    + destruct (retryable && may_retry attempt) eqn:Er.
      * apply andb_true_iff in Er as [_ Er]. by apply Hretry.
      * split_and!; [done|apply bounded_waits_nil|done].
  - destruct (retryable && may_retry attempt) eqn:Er.
    + apply andb_true_iff in Er as [_ Er]. by apply Hretry.
    + split_and!; [done|apply bounded_waits_nil|done].
Qed.

(** ** Downloads: lemmas *)

Lemma stream_loop_complete limits fails i chunks dl v file dl' v' file' :
  stream_loop limits fails i chunks dl v file = (Complete, dl', v', file') →
  ∃ b, collect_body chunks = Ok b ∧ file' = file +:+ b ∧
    dl' = (dl + Z.of_nat (String.length b))%Z ∧
    (dl' = dl ∨ (dl' ≤ max_archive_bytes limits)%Z) ∧
    v' = (λ v, update v b) <$> v.
Proof.
  revert i dl v file. induction chunks as [|[d|r] chunks IH]; intros i dl v file H; simpl in H; [| |done].
  - injection H as <- <- <-. exists "". rewrite str_app_nil_r. split_and!; [done|done|simpl; lia|by left|].
    destruct v as [[]|]; [|done]. unfold update. simpl. by rewrite str_app_nil_r.
  - unfold checked_add_u64, check_archive_size in H.
    destruct (dl + Z.of_nat (String.length d) <=? u64_max)%Z; [|done].
    destruct (max_archive_bytes limits <? _)%Z eqn:E2; [done|]. apply Z.ltb_ge in E2.
    destruct (fails i); [done|].
    apply IH in H as (b & Hb & -> & -> & Hle & ->). exists (d +:+ b).
    cbn [collect_body]. rewrite Hb. split_and!; [done|by rewrite str_app_assoc| | |].
    + rewrite str_length_app. lia.
    + right. lia.
    + destruct v as [[]|]; [|done]. unfold update. simpl. by rewrite str_app_assoc.
Qed.
Lemma stream_loop_runs limits fails chunks b i dl v file :
  collect_body chunks = Ok b → (∀ i, fails i = None) →
  (dl + Z.of_nat (String.length b) ≤ max_archive_bytes limits)%Z →
  (max_archive_bytes limits ≤ u64_max)%Z →
  stream_loop limits fails i chunks dl v file =
  (Complete, (dl + Z.of_nat (String.length b))%Z, (λ v, update v b) <$> v, file +:+ b).
Proof.
  intros Hb Hf Hmax Hu. revert b i dl v file Hb Hmax.
  induction chunks as [|[d|r] chunks IH]; intros b i dl v file Hb Hmax; simpl in Hb; [| |done].
  - injection Hb as <-. simpl. rewrite str_app_nil_r, Z.add_0_r. f_equal.
    do 2 f_equal. destruct v as [[]|]; [|done]. unfold update. simpl. by rewrite str_app_nil_r.
  - destruct (collect_body chunks) as [b'|] eqn:E; [|done]. injection Hb as <-.
    rewrite str_length_app in *. cbn [stream_loop]. unfold checked_add_u64, check_archive_size.
    rewrite (proj2 (Z.leb_le _ _)) by lia. rewrite (proj2 (Z.ltb_ge _ _)) by lia.
    rewrite Hf, (IH b') by (done || lia). f_equal; [f_equal; [f_equal; lia|]|by rewrite str_app_assoc].
    destruct v as [[]|]; [|done]. unfold update. simpl. by rewrite str_app_assoc.
Qed.

Section download_theorem.
Context {DG : Digests} {DK : Disk}.
Context (limits : TarballLimits) (expected_integrity : option string).
Implicit Types net : nat → Attempt.

(** A body some attempt delivered completely, within the limit and verified. *)
Definition delivered net (from : nat) (b : string) : Prop :=
  ∃ i resp, from ≤ i < REQUEST_ATTEMPTS ∧ net i = Answer resp ∧ is_success (status resp) = true ∧
    collect_body (body resp) = Ok b ∧
    (Z.of_nat (String.length b) ≤ max_archive_bytes limits)%Z ∧
    ∀ sri, expected_integrity = Some sri → verify_integrity b sri = Ok tt.

Lemma start_verifier_finish v b :
  start_verifier expected_integrity = Ok v →
  match v with
  | Some v => ∃ sri, expected_integrity = Some sri ∧ finish (update v b) = verify_integrity b sri
  | None => expected_integrity = None
  end.
Proof.
  unfold start_verifier. destruct expected_integrity as [sri|]; [|by intros [= <-]].
  intros (w & Hw & ->)%fmap_Ok. exists sri. split; [done|].
  unfold verify_integrity. by rewrite Hw.
Qed.

Lemma download_loop_spec more attempt net dest :
  (0 ≤ max_archive_bytes limits)%Z → 0 < more → more + attempt = REQUEST_ATTEMPTS →
  let '(r, waits, dest') := download_loop limits expected_integrity more attempt net dest in
  is_Some r ∧ bounded_waits more waits ∧
  ∀ n, r = Some (Ok n) → ∃ b, delivered net attempt b ∧ dest' = Some b ∧
    n = Z.of_nat (String.length b).
Proof.
  intros Hmax. revert attempt dest. induction more as [|more IH]; intros attempt dest Hp Hm; [lia|].
  assert (∀ ra dest, may_retry attempt = true →
    let '(r, waits, dest') := wait_then (retry_delay attempt ra)
      (download_loop limits expected_integrity more (S attempt) net dest) in
    is_Some r ∧ bounded_waits (S more) waits ∧
    ∀ n, r = Some (Ok n) → ∃ b, delivered net attempt b ∧ dest' = Some b ∧
      n = Z.of_nat (String.length b)) as Hretry.
  { intros ra d Hr. specialize (IH (S attempt) d (may_retry_more _ _ Hm Hr)).
    destruct (download_loop _ _ more (S attempt) net d) as [[r waits] dest']. simpl.
    destruct IH as (? & ? & Hb); [lia|]. split_and!; [done|by apply bounded_waits_cons|].
    intros n (b & (i & resp & ? & Hdel) & ?)%Hb. exists b. split; [|done].
    exists i, resp. split; [lia|done]. }
  assert (∀ (e : string) (d : option string),
    is_Some (Some (Err (A := Z) e)) ∧ bounded_waits (S more) [] ∧
    ∀ n, Some (Err (A := Z) e) = Some (Ok n) → ∃ b, delivered net attempt b ∧ d = Some b ∧
      n = Z.of_nat (String.length b)) as Herr
    by (intros; split_and!; [done|apply bounded_waits_nil|done]).
  cbn [download_loop]. destruct (net attempt) as [resp|retryable] eqn:En.
  2: { destruct (retryable && may_retry attempt) eqn:Er; [|apply Herr].
       apply andb_true_iff in Er as [_ Er]. by apply Hretry. }
  destruct (should_retry_status (status resp) && may_retry attempt) eqn:Es.
  { apply andb_true_iff in Es as [_ Es]. by apply Hretry. }
  destruct (is_success (status resp)) eqn:Eok; [|apply Herr]. simpl.
  destruct (check_length limits (content_length resp)); [|apply Herr].
  destruct (start_verifier expected_integrity) as [v|] eqn:Ev; [|apply Herr].
  destruct (create_ok attempt); [|apply Herr]. simpl.
  destruct (stream_loop _ _ _ _ _ _ _) as [[[ended dl] v'] file] eqn:El.
  destruct ended as [e|retryable|]; [apply Herr| |].
  { destruct (retryable && may_retry attempt) eqn:Er; [|apply Herr].
    apply andb_true_iff in Er as [_ Er]. by apply Hretry. }
  apply stream_loop_complete in El as (b & Hb & -> & -> & Hle & ->).
  destruct (flush_ok attempt); [|apply Herr]. simpl.
  assert (∀ P : Prop, P → (P → ∀ sri, expected_integrity = Some sri → verify_integrity b sri = Ok tt) →
    is_Some (Some (Ok (E := string) (Z.of_nat (String.length b)))) ∧ bounded_waits (S more) [] ∧
    ∀ n, Some (Ok (E := string) (Z.of_nat (String.length b))) = Some (Ok n) →
      ∃ b', delivered net attempt b' ∧ Some b = Some b' ∧ n = Z.of_nat (String.length b')) as Hok.
  { intros P HP HV. split_and!; [done|apply bounded_waits_nil|]. intros n [= <-]. exists b.
    split; [|done]. exists attempt, resp. split_and!; try done; [lia| |by apply HV]. lia. }
  pose proof (start_verifier_finish v b Ev) as Hv. destruct v as [v|]; simpl.
  - destruct Hv as (sri & Hsri & Hf). rewrite Hf.
    destruct (verify_integrity b sri) as [[]|e] eqn:Evi; [|apply Herr].
    apply (Hok True I). intros _ sri' Hs. congruence.
  - apply (Hok True I). intros _ sri' Hs. congruence.
Qed.

(** (C24) Tarball downloads. A download makes at most three attempts and waits at
    most two seconds between them, and always ends with a result. When it succeeds,
    the destination holds the whole body of one successful answer, its size is what
    is returned and within the limit, and it passes the integrity check asked for.
    An answer that is complete at once is decided by its integrity alone: a body
    that fails the check is an error and its file is removed. *)
Theorem fetch_tarball_spec net dest :
  (0 ≤ max_archive_bytes limits ≤ u64_max)%Z →
  (let '(r, waits, dest') := fetch_tarball_to_file limits expected_integrity net dest in
   is_Some r ∧ bounded_waits REQUEST_ATTEMPTS waits ∧
   ∀ n, r = Some (Ok n) → ∃ b, delivered net 0 b ∧ dest' = Some b ∧ n = Z.of_nat (String.length b)) ∧
  (∀ resp b, net 0 = Answer resp → is_success (status resp) = true →
     check_length limits (content_length resp) = Ok tt → collect_body (body resp) = Ok b →
     (Z.of_nat (String.length b) ≤ max_archive_bytes limits)%Z →
     create_ok 0 = true → (∀ i, write_fails 0 i = None) → flush_ok 0 = true →
     match expected_integrity with
     | None => fetch_tarball_to_file limits expected_integrity net dest =
                 (Some (Ok (Z.of_nat (String.length b))), [], Some b)
     | Some sri =>
         match new_verifier sri, verify_integrity b sri with
         | Err e, _ => fetch_tarball_to_file limits expected_integrity net dest =
                         (Some (Err e), [], dest)
         | _, Ok _ => fetch_tarball_to_file limits expected_integrity net dest =
                        (Some (Ok (Z.of_nat (String.length b))), [], Some b)
         | _, Err e => fetch_tarball_to_file limits expected_integrity net dest =
                         (Some (Err e), [], None)
         end
     end).
Proof.
  intros [H0 Hu]. split; [by apply download_loop_spec; [|unfold REQUEST_ATTEMPTS; lia..]|].
  intros resp b Hn Hs Hl Hb Hle Hc Hw Hf.
  assert (should_retry_status (status resp) = false) as Hr.
  { unfold is_success in Hs. apply andb_true_iff in Hs as [H1%Z.leb_le H2%Z.leb_le].
    unfold should_retry_status. simpl. rewrite !(proj2 (Z.eqb_neq _ _)) by lia. done. }
  unfold fetch_tarball_to_file, REQUEST_ATTEMPTS. cbn [download_loop].
  rewrite Hn, Hr, Hs, Hl. simpl. unfold start_verifier.
  destruct expected_integrity as [sri|].
  - unfold verify_integrity. destruct (new_verifier sri) as [v|e] eqn:Ev; simpl; [|done].
    rewrite Hc. simpl. rewrite (stream_loop_runs limits (write_fails 0) (body resp) b) by done.
    simpl. rewrite Hf. simpl. by destruct (finish (update v b)).
  - rewrite Hc. simpl. rewrite (stream_loop_runs limits (write_fails 0) (body resp) b) by done.
    simpl. by rewrite Hf.
Qed.
End download_theorem.
(** The bytes that [fetch_tarball] gives are one whole body, within the limit and checked
    against its integrity, whatever the attempts before it left. *)
Theorem fetch_tarball_bytes {DG : Digests} {DK : Disk} env net sri b limits waits :
  from_env env = Ok limits → (0 ≤ max_archive_bytes limits)%Z →
  fetch_tarball env true true net sri = (Some (Ok b), waits) →
  delivered limits sri net 0 b ∧ bounded_waits REQUEST_ATTEMPTS waits.
Proof.
  intros He Hl. unfold fetch_tarball. rewrite He. cbn [negb]. unfold fetch_tarball_to_file.
  pose proof (download_loop_spec limits sri REQUEST_ATTEMPTS 0 net (Some "") Hl ltac:(unfold REQUEST_ATTEMPTS; lia) eq_refl) as H.
  destruct (download_loop _ _ _ _ _ _) as [[r w] file]. destruct H as (_ & Hw & Hd).
  intros [= Hr <-]. split; [|done]. destruct r as [[n|e]|]; simplify_eq/=.
  destruct (Hd n eq_refl) as (b' & Hb & -> & _). simpl in Hr. by simplify_eq.
Qed.

Definition sound_disk : Disk :=
  {| create_ok _ := true; write_fails _ _ := None; flush_ok _ := true |}.
Definition answer (s : Z) (e : option string) (chunks : list Chunk) : Response :=
  {| status := s; retry_after := Some "1"; etag := e; content_length := None; body := chunks |}.

Lemma fetch_tarball_spec_witness :
  let net i := Answer (if i =? 0 then answer 503 None [] else answer 200 None [Data "a"; Data "b"]) in
  @fetch_tarball_to_file toy_digests sound_disk default_limits (Some "sha512-5ab") net None =
    (Some (Ok 2%Z), [1000%Z], Some "ab") ∧
  @fetch_tarball_to_file toy_digests sound_disk default_limits (Some "sha512-5xx")
    (λ _, Answer (answer 200 None [Data "a"; Data "b"])) (Some "old") =
    (Some (Err "integrity check failed: expected one of sha512-5xx, got sha512-5ab"), [], None).
Proof.
  split; [reflexivity|].
  refine (proj2 (@fetch_tarball_spec toy_digests sound_disk default_limits (Some "sha512-5xx")
    (λ _, Answer (answer 200 None [Data "a"; Data "b"])) (Some "old") _)
    (answer 200 None [Data "a"; Data "b"]) "ab" eq_refl eq_refl eq_refl eq_refl _ eq_refl
    (λ _, eq_refl) eq_refl).
  - unfold u64_max. simpl. lia.
  - simpl. lia.
Defined.

(** ** The packument cache: lemmas *)

Section cache_theorems.
Context {UP : UrlParser} {IO : PackumentIO}.
Implicit Types st : ClientState.

(** An attempt after which the request is sent again. *)
Definition passing (a : Attempt) : Prop :=
  match a with
  | Answer resp =>
      status resp ∈ [408; 425; 429; 500; 502; 503; 504]%Z ∨ collect_body (body resp) = Err true
  | Failed retryable => retryable = true
  end.
(** The attempt that counts: the first that does not pass, or the third. *)
Definition concludes (net : nat → Attempt) (i : nat) : Prop :=
  i ≤ 2 ∧ (∀ j, j < i → passing (net j)) ∧ (i = 2 ∨ ¬ passing (net i)).

(** The packument of a cache file less than five minutes old (in nanoseconds). *)
Definition young st (n : string) (now : Z) (p : Packument) : Prop := ∃ f,
  disk st !! cache_file n = Some f ∧ (now - mtime f < 5 * 60 * 10 ^ 9)%Z ∧
  parse_packument (data f) = Some p.
(** The etag the client goes by, if any. *)
Definition goes_by st (n : string) (v : option string) : Prop :=
  match etag_cache st !! n with
  | Some e => v = Some e
  | None =>
      match disk st !! etag_file n with
      | Some f => v = Some (trim (data f))
      | None => v = None
      end
  end.
(** The client after a successful answer with the body [b]. *)
Definition kept_answer st st' (n : string) (later : Z) (resp : Response) (b : string) : Prop :=
  (∀ m, etag_cache st' !! m =
     match etag resp with
     | Some e => if decide (m = n) then Some e else etag_cache st !! m
     | None => etag_cache st !! m
     end) ∧
  ∀ f, disk st' !! f =
    if decide (writable f = true ∧ f = cache_file n) then Some {| data := b; mtime := later |}
    else match etag resp with
         | Some e =>
             if decide (writable f = true ∧ f = etag_file n)
             then Some {| data := e; mtime := later |} else disk st !! f
         | None => disk st !! f
         end.
(** What the request comes to. *)
Definition comes_to st st' (n : string) (later : Z) (a : Attempt) (r : result string Packument) : Prop :=
  match a with
  | Failed _ => is_ok r = false ∧ st' = st
  | Answer resp =>
      match collect_body (body resp) with
      | Err _ => is_ok r = false ∧ st' = st
      | Ok b =>
          if decide (status resp = 304)%Z then
            st' = st ∧ ∀ p, r = Ok p ↔
              ∃ f, disk st !! cache_file n = Some f ∧ parse_packument (data f) = Some p
          else if decide (200 ≤ status resp ≤ 299)%Z then
            kept_answer st st' n later resp b ∧ ∀ p, r = Ok p ↔ parse_packument b = Some p
          else is_ok r = false ∧ st' = st
      end
  end.

(** What HTTP says of an answer to a request with the etag [v], when the document
    is [current] and an etag stands for what [doc] says: 304 is only answered when
    that etag stands for the current document, a success carries the document, and
    its etag, if it has one, stands for that; a field has no blanks around it. *)
Definition keeps_to_http (doc : string → string) (current : string) (v : option string)
    (a : Attempt) : Prop := ∀ resp, a = Answer resp →
  (status resp = 304%Z → ∃ e, v = Some e ∧ doc e = current) ∧
  ((200 ≤ status resp ≤ 299)%Z → ∀ b, collect_body (body resp) = Ok b → b = current) ∧
  ((200 ≤ status resp ≤ 299)%Z → ∀ e, etag resp = Some e → doc e = current ∧ trim e = e).
(** The cached body is what the etag the client goes by stands for. *)
Definition coherent (doc : string → string) st (n : string) : Prop :=
  ∀ e, goes_by st n (Some e) → ∃ f, disk st !! cache_file n = Some f ∧ data f = doc e.

(** *** Lemmas *)

Lemma passing_dec a : passing a ∨ ¬ passing a.
Proof.
  destruct a as [resp|[]]; simpl; [|by left|by right].
  destruct (decide (status resp ∈ [408; 425; 429; 500; 502; 503; 504]%Z)); [by left; left|].
  destruct (collect_body (body resp)) as [b|[]]; [right|left|right]; naive_solver.
Qed.
Lemma should_retry_elem s :
  should_retry_status s = true ↔ s ∈ [408; 425; 429; 500; 502; 503; 504]%Z.
Proof.
  unfold should_retry_status. rewrite existsb_exists. setoid_rewrite Z.eqb_eq. split.
  - intros (x & Hx & ->). by apply list_elem_of_In.
  - intros H. exists s. split; [by apply list_elem_of_In|done].
Qed.

(** The result of the attempt that counts. *)
Definition concluded (a : Attempt) (context : string) : result string Buffered :=
  match a with
  | Failed _ => Err context
  | Answer resp =>
      match collect_body (body resp) with
      | Ok b => Ok {| buffered_status := status resp; buffered_etag := etag resp; buffered_body := b |}
      | Err _ => Err context
      end
  end.
Lemma send_loop_concludes more attempt net context :
  more + attempt = REQUEST_ATTEMPTS → 0 < more → (∀ j, j < attempt → passing (net j)) →
  ∃ i, concludes net i ∧ attempt ≤ i ∧
    (send_loop more attempt net context).1 = Some (concluded (net i) context) ∧
    length (send_loop more attempt net context).2 = i - attempt.
Proof.
  revert attempt. induction more as [|more IH]; intros attempt Hm Hp Hj; [lia|].
  unfold REQUEST_ATTEMPTS in *.
  assert (∀ ra, may_retry attempt = true → passing (net attempt) → ∃ i,
    concludes net i ∧ attempt ≤ i ∧
    (waiting (retry_delay attempt ra) (send_loop more (S attempt) net context)).1 =
      Some (concluded (net i) context) ∧
    length (waiting (retry_delay attempt ra) (send_loop more (S attempt) net context)).2 =
      i - attempt) as Hretry.
  { intros ra Hr%(may_retry_more more) Hpass; [|unfold REQUEST_ATTEMPTS; lia].
    destruct (IH (S attempt)) as (i & Hi & Hle & H1 & H2); [lia..| |].
    { intros j Hlt. destruct (decide (j = attempt)) as [->|]; [done|]. apply Hj. lia. }
    exists i. split_and!; [done|lia|done|]. simpl. rewrite H2. lia. }
  assert (may_retry attempt = false ∨ ¬ passing (net attempt) → concludes net attempt) as Hend.
  { intros H. split_and!; [lia|done|]. destruct H as [H|H]; [left|by right].
    unfold may_retry, REQUEST_ATTEMPTS in H. apply Nat.ltb_ge in H. lia. }
  assert (∀ r : Run Buffered, r = (Some (concluded (net attempt) context), []) →
    may_retry attempt = false ∨ ¬ passing (net attempt) →
    ∃ i, concludes net i ∧ attempt ≤ i ∧ r.1 = Some (concluded (net i) context) ∧
      length r.2 = i - attempt) as Hdone.
  { intros r -> H. exists attempt. split_and!; [auto|lia|done|simpl; lia]. }
  cbn [send_loop]. destruct (may_retry attempt) eqn:Em.
  2: { apply Hdone; [|by left]. destruct (net attempt) as [resp|retryable]; simpl.
       - rewrite andb_false_r. by destruct (collect_body (body resp)) as [b|[]].
       - by rewrite andb_false_r. }
  destruct (net attempt) as [resp|retryable] eqn:En.
  - pose proof (should_retry_elem (status resp)) as Hst.
    rewrite andb_true_r. destruct (should_retry_status (status resp)) eqn:Es; [apply (Hretry (retry_after resp)); [done|left; by apply Hst]|].
    destruct (collect_body (body resp)) as [b|[]] eqn:Eb; [|by apply (Hretry None); [|right]|].
    all: apply Hdone; [unfold concluded; by rewrite Eb|right; simpl; rewrite Eb; intros [?%Hst|?]; done].
  - destruct retryable; [by apply (Hretry None)|]. apply Hdone; [done|by right].
Qed.

Lemma cache_etag_files n m : cache_file n ≠ etag_file m.
Proof.
  unfold cache_file, etag_file. intros E. apply (f_equal (λ s, last (chars s))) in E.
  by rewrite !chars_app, !last_app in E.
Qed.
Lemma write_disk_ok f x now st :
  writable f = true →
  write_disk f x now st =
  {| etag_cache := etag_cache st; disk := <[f := {| data := x; mtime := now |}]> (disk st) |}.
Proof. unfold write_disk. by intros ->. Qed.
Lemma write_disk_lookup f x now st g :
  disk (write_disk f x now st) !! g =
  if decide (writable g = true ∧ g = f) then Some {| data := x; mtime := now |} else disk st !! g.
Proof.
  unfold write_disk. case_decide as H.
  - destruct H as [H ->]. rewrite H. apply lookup_insert_eq.
  - destruct (writable f) eqn:E; [|done]. apply lookup_insert_ne. naive_solver.
Qed.
Lemma write_disk_etags f x now st : etag_cache (write_disk f x now st) = etag_cache st.
Proof. unfold write_disk. by case_match. Qed.

Lemma goes_by_known st n : goes_by st n (known_etag st n).
Proof. unfold goes_by, known_etag. destruct (etag_cache st !! n); [done|]. by destruct (disk st !! _). Qed.
Lemma goes_by_eq st n v : goes_by st n v → v = known_etag st n.
Proof. unfold goes_by, known_etag. destruct (etag_cache st !! n); [done|]. by destruct (disk st !! _). Qed.
Lemma fresh_packument_spec st n now p : fresh_packument st n now = Some p ↔ young st n now p.
Proof.
  assert (∀ f, (age_secs now f < CACHE_TTL_SECS)%Z ↔ (now - mtime f < 5 * 60 * 10 ^ 9)%Z) as Hage.
  { intros f. unfold age_secs, CACHE_TTL_SECS. change (10 ^ 9)%Z with 1000000000%Z.
    Z.div_mod_to_equations. lia. }
  unfold fresh_packument, young. rewrite bind_Some. split.
  - intros (f & Hf & H). destruct (Z.ltb_spec (age_secs now f) CACHE_TTL_SECS) as [E%Hage|]; [eauto|done].
  - intros (f & Hf & E%Hage%Z.ltb_lt & H). exists f. by rewrite E.
Qed.

Lemma handle_response_spec st n later resp b :
  collect_body (body resp) = Ok b →
  let buffered := {| buffered_status := status resp; buffered_etag := etag resp; buffered_body := b |} in
  comes_to st (handle_response st n later buffered).2 n later (Answer resp)
    (handle_response st n later buffered).1.
Proof.
  intros Hb. simpl. rewrite Hb. unfold handle_response, is_success. simpl.
  destruct (Z.eqb_spec (status resp) 304) as [E|E]; [rewrite decide_True by done|rewrite decide_False by done].
  { split; [done|]. intros p. unfold load_cached_packument. split.
    - intros (f & Hf%ok_or_Ok & Hp%ok_or_Ok)%bind_Ok. eauto.
    - intros (f & Hf & Hp). rewrite Hf. simpl. by rewrite Hp. }
  destruct (Z.eqb_spec (status resp) 404) as [E4|E4].
  { rewrite decide_False by lia. done. }
  destruct (decide (200 ≤ status resp ≤ 299)%Z) as [Hs|Hs].
  - rewrite (proj2 (Z.leb_le _ _)), (proj2 (Z.leb_le _ _)) by lia. simpl. split.
    + split; [|intros f].
      * intros m. rewrite write_disk_etags. unfold store_etag. simpl.
        destruct (etag resp) as [e|]; [|done]. rewrite write_disk_etags. simpl.
        case_decide as Hm; [subst; apply lookup_insert_eq|by apply lookup_insert_ne].
      * rewrite write_disk_lookup. case_decide; [done|]. unfold store_etag. simpl.
        destruct (etag resp) as [e|]; [|done]. by rewrite write_disk_lookup.
    + intros p. split; [by intros ?%ok_or_Ok|by intros ->].
  - destruct (_ && _) eqn:Eb; [|done].
    apply andb_true_iff in Eb as [?%Z.leb_le ?%Z.leb_le]. lia.
Qed.
Lemma fetch_packument_requests c registry now later n st :
  fresh_packument st n now = None →
  let net := registry (package_url c n) (token_for_url c (package_url c n)) (known_etag st n) in
  let '(r, waits, st') := fetch_packument c registry now later n st in
  ∃ i r', concludes net i ∧ length waits = i ∧ r = Some r' ∧ comes_to st st' n later (net i) r'.
Proof.
  intros Hf. simpl. unfold fetch_packument. rewrite Hf. unfold send_bytes_with_retries.
  set (net := registry _ _ _).
  destruct (send_loop_concludes REQUEST_ATTEMPTS 0 net "registry request failed")
    as (i & Hi & _ & Hr & Hw); [done|unfold REQUEST_ATTEMPTS; lia|lia|].
  destruct (send_loop _ _ _ _) as [r waits]. simpl in Hr, Hw. subst r.
  unfold concluded. destruct (net i) as [resp|retryable] eqn:En.
  - destruct (collect_body (body resp)) as [b|retryable] eqn:Eb.
    + pose proof (handle_response_spec st n later resp b Eb) as Hh. simpl in Hh.
      destruct (handle_response _ _ _ _) as [r st'].
      exists i, r. rewrite En. split_and!; [done|lia|done|exact Hh].
    + exists i, (Err "registry request failed"). rewrite En. simpl. rewrite Eb.
      split_and!; [done|lia|done..].
  - exists i, (Err "registry request failed"). rewrite En. split_and!; [done|lia|done..].
Qed.

Lemma fetch_packument_waits c registry now later n st :
  Forall (λ d, 0 ≤ d ≤ 2000)%Z (fetch_packument c registry now later n st).1.2.
Proof.
  unfold fetch_packument. destruct (fresh_packument _ _ _); [constructor|].
  set (net := registry _ _ _). unfold send_bytes_with_retries.
  pose proof (send_loop_spec REQUEST_ATTEMPTS 0 net "registry request failed"
    ltac:(unfold REQUEST_ATTEMPTS; lia) eq_refl) as Hs.
  destruct (send_loop _ _ _ _) as [r waits]. destruct Hs as (_ & [_ Hb] & _).
  destruct r as [[resp|e]|]; [|done..]. by destruct (handle_response _ _ _ _).
Qed.

(** What a request leaves cached, and what it returns. *)
Lemma kept_answer_coherent doc current st st' n later resp b :
  kept_answer st st' n later resp b → b = current → writable (cache_file n) = true →
  (∀ e, etag resp = Some e → doc e = current ∧ trim e = e) → is_Some (etag resp) →
  coherent doc st' n.
Proof.
  intros [He Hd] -> Hw Hdoc [e Ee] e' Hg. unfold goes_by in Hg. rewrite He, Ee, decide_True in Hg by done.
  injection Hg as ->. exists {| data := current; mtime := later |}.
  rewrite Hd, decide_True by done. split; [done|]. simpl. symmetry. by apply Hdoc.
Qed.
Lemma comes_to_current doc current v st st' n later a r p :
  keeps_to_http doc current v a → goes_by st n v → coherent doc st n →
  comes_to st st' n later a r → r = Ok p → parse_packument current = Some p.
Proof.
  intros Hh Hv Hc Ho ->. destruct a as [resp|]; simpl in Ho; [|by destruct Ho].
  destruct (Hh resp eq_refl) as (H304 & Hbody & _).
  destruct (collect_body (body resp)) as [b|]; [|by destruct Ho].
  destruct (decide (status resp = 304)%Z) as [E|E].
  - destruct Ho as [_ Ho]. destruct (proj1 (Ho p) eq_refl) as (f & Hf & Hp).
    destruct (H304 E) as (e & -> & <-). destruct (Hc e Hv) as (f' & Hf' & <-). congruence.
  - destruct (decide (200 ≤ status resp ≤ 299)%Z) as [E2|]; [|by destruct Ho].
    destruct Ho as [_ Ho]. rewrite <- (Hbody E2 b eq_refl). by apply Ho.
Qed.
Lemma comes_to_coherent doc current v st st' n later a r :
  keeps_to_http doc current v a → coherent doc st n → comes_to st st' n later a r →
  writable (cache_file n) = true →
  (∀ resp, a = Answer resp → (200 ≤ status resp ≤ 299)%Z → is_Some (etag resp)) →
  coherent doc st' n.
Proof.
  intros Hh Hc Ho Hw Het. destruct a as [resp|]; simpl in Ho; [|by destruct Ho as [_ ->]].
  destruct (Hh resp eq_refl) as (_ & Hbody & Hdoc).
  destruct (collect_body (body resp)) as [b|]; [|by destruct Ho as [_ ->]].
  destruct (decide (status resp = 304)%Z) as [E|E]; [by destruct Ho as [-> _]|].
  destruct (decide (200 ≤ status resp ≤ 299)%Z) as [E2|]; [|by destruct Ho as [_ ->]].
  destruct Ho as [Ho _]. eapply (kept_answer_coherent _ current); eauto.
Qed.

(** (C34) Packuments. A cached one less than five minutes old that parses is returned
    without a request, and nothing changes. Otherwise the package's URL is asked for,
    with its host's token and the etag the client goes by (the one in memory, else
    the one on disk), again after an attempt that passes and at most three times,
    with waits of at most two seconds. The attempt that counts decides: no answer or
    another status is an error that changes nothing; 304 gives the cached packument,
    whatever its age; a success gives the body if it parses, and its etag, if it has
    one, and its body are remembered, in the files that can be written. So, when the
    registry keeps to HTTP and what is cached is what the client's etag stands for, a
    packument that is returned is the registry's current one or one cached less than
    five minutes ago; and that the cache is so is kept by every fetch whose answer,
    when it is a success, has an etag and whose cache file can be written. *)
Theorem fetch_packument_spec c registry now later n st v :
  goes_by st n v →
  let net := registry (package_url c n) (token_for_url c (package_url c n)) v in
  let '(r, waits, st') := fetch_packument c registry now later n st in
  (∀ p, young st n now p → (r, waits, st') = (Some (Ok p), [], st)) ∧
  ((∀ p, ¬ young st n now p) → ∃ i r',
     concludes net i ∧ length waits = i ∧ Forall (λ d, 0 ≤ d ≤ 2000)%Z waits ∧
     r = Some r' ∧ comes_to st st' n later (net i) r') ∧
  ∀ doc current, (∀ i, keeps_to_http doc current v (net i)) → coherent doc st n →
    (∀ p, r = Some (Ok p) → young st n now p ∨ parse_packument current = Some p) ∧
    (writable (cache_file n) = true →
     (∀ i resp, net i = Answer resp → (200 ≤ status resp ≤ 299)%Z → is_Some (etag resp)) →
     coherent doc st' n).
Proof.
  intros Hv. pose proof (goes_by_eq _ _ _ Hv) as ->. simpl. set (net := registry _ _ _).
  pose proof (fetch_packument_requests c registry now later n st) as Hreq.
  destruct (fresh_packument st n now) as [p|] eqn:Ef.
  { pose proof (proj1 (fresh_packument_spec _ _ _ _) Ef) as Hy. unfold fetch_packument. rewrite Ef.
    split_and!.
    - intros q Hq%fresh_packument_spec. congruence.
    - intros Hno. by destruct (Hno p).
    - intros doc current _ Hc. split; [|done]. intros q [= <-]. by left. }
  specialize (Hreq eq_refl). simpl in Hreq. fold net in Hreq.
  assert (Forall (λ d, 0 ≤ d ≤ 2000)%Z (fetch_packument c registry now later n st).1.2) as Hwaits
    by apply fetch_packument_waits.
  destruct (fetch_packument _ _ _ _ _ _) as [[r waits] st'].
  destruct Hreq as (i & r' & Hi & Hw & -> & Ho). split_and!.
  - intros p Hp%fresh_packument_spec. congruence.
  - intros _. by exists i, r'.
  - intros doc current Hh Hc. split.
    + intros p [= ->]. right. by eapply comes_to_current.
    + intros Hwr Het. eapply comes_to_coherent; eauto.
Qed.
End cache_theorems.

(** A parser that reads every body but [bad] as a package of that name. *)
Definition toy_parser : PackumentIO := {|
  parse_packument s := if decide (s = "bad") then None else Some (sample_packument s []);
  writable _ := true |}.
Definition toy_urls : UrlParser := {| host_of u := Some "registry.npmjs.org" |}.
(** A registry whose documents are their own etags. *)
Definition toy_answers (current : string → string) (u : string) (tok inm : option string) (i : nat) :
    Attempt :=
  let d := current u in
  if decide (inm = Some d) then Answer (answer 304 None []) else Answer (answer 200 (Some d) [Data d]).
Definition empty_client : ClientState := {| etag_cache := ∅; disk := ∅ |}.
Definition toy_fetch := @fetch_packument toy_urls toy_parser (default_config "").

Lemma toy_keeps_to_http d v u tok i :
  trim d = d → keeps_to_http (λ e, e) d v (toy_answers (λ _, d) u tok v i).
Proof.
  unfold toy_answers. intros Hd resp. case_decide as E; intros [= <-]; simpl.
  - split_and!; [by exists d|lia..].
  - split_and!; [done|intros _ b [= <-]; apply str_app_nil_r|by intros _ e [= <-]].
Qed.
Lemma fetch_packument_spec_witness :
  let st := (toy_fetch (toy_answers (λ _, "v1")) 0 0 "p" empty_client).2 in
  let later := (5 * 60 * 10 ^ 9)%Z in
  coherent (λ e, e) st "p" ∧
  ∃ p, (toy_fetch (toy_answers (λ _, "v2")) later later "p" st).1.1 = Some (Ok p) ∧
    (@young toy_parser st "p" later p ∨ @parse_packument toy_parser "v2" = Some p).
Proof.
  intros st later. split.
  - pose proof (@fetch_packument_spec toy_urls toy_parser (default_config "") (toy_answers (λ _, "v1"))
      0 0 "p" empty_client None eq_refl) as H.
    cbv zeta in H. unfold st, toy_fetch. destruct (fetch_packument _ _ _ _ _ _) as [[r waits] st'].
    destruct H as (_ & _ & H). destruct (H (λ e, e) "v1") as [_ Hc].
    + intros i. by apply toy_keeps_to_http.
    + intros e [=].
    + apply Hc; [done|]. intros i resp. unfold toy_answers. case_decide; [done|]. by intros [= <-].
  - exists (sample_packument "v2" []). split; [vm_compute; reflexivity|].
    pose proof (@fetch_packument_spec toy_urls toy_parser (default_config "") (toy_answers (λ _, "v2"))
      later later "p" st (Some "v1") eq_refl) as H. cbv zeta in H.
    assert ((toy_fetch (toy_answers (λ _, "v2")) later later "p" st).1.1 =
      Some (Ok (sample_packument "v2" []))) as E by (vm_compute; reflexivity).
    unfold toy_fetch in E. destruct (fetch_packument _ _ later later _ _) as [[r waits] st'].
    destruct H as (_ & _ & H). destruct (H (λ e, e) "v2") as [Hp _].
    + intros i. by apply toy_keeps_to_http.
    + intros e He. exists {| data := "v1"; mtime := 0 |}. split; [vm_compute; reflexivity|].
      vm_compute in He. by injection He as ->.
    + apply Hp, E.
Defined.

(** The hypotheses about the answers are needed. When the body could not be written,
    the new etag stands over the old body, which the next 304 serves as current; and
    a success without an etag leaves the old etag over the new body, which is served
    when the registry goes back to the old document. *)
Definition etags_only : PackumentIO := {|
  parse_packument s := Some (sample_packument s []);
  writable f := bool_decide (f = etag_file "p") |}.
Example new_etag_over_old_body :
  let fetch := @fetch_packument toy_urls etags_only (default_config "") in
  let later := (5 * 60 * 10 ^ 9)%Z in
  let st := {| etag_cache := {["p" := "v1"]}; disk := {["p.json" := {| data := "v1"; mtime := 0 |}]} |} in
  let st1 := (fetch (toy_answers (λ _, "v2")) later later "p" st).2 in
  (fetch (toy_answers (λ _, "v2")) later later "p" st1).1.1 = Some (Ok (sample_packument "v1" [])).
Proof. vm_compute. reflexivity. Qed.
Example old_etag_over_new_body :
  let later := (5 * 60 * 10 ^ 9)%Z in
  let st := (toy_fetch (toy_answers (λ _, "v1")) 0 0 "p" empty_client).2 in
  let st1 := (toy_fetch (λ _ _ _ _, Answer (answer 200 None [Data "v2"])) later later "p" st).2 in
  (toy_fetch (toy_answers (λ _, "v1")) (2 * later) (2 * later) "p" st1).1.1 =
    Some (Ok (sample_packument "v2" [])).
Proof. vm_compute. reflexivity. Qed.

Section cache_faults.
Context {UP : UrlParser} {IO : PackumentIO}.
Implicit Types st : ClientState.

(** Faults of the packument cache. A body that does not parse is cached with
    its etag; every later fetch that the registry answers with 304 then fails and
    leaves the cache as it is. So does an etag on disk whose body was never written,
    as after a crash, since the etag is written first. And a name is served the
    fresh packument of any other name with the same cache file. *)
Theorem packument_cache_faults c name st :
  (∀ registry now later e b resp,
     (∀ f, writable f = true) → fresh_packument st name now = None →
     registry (package_url c name) (token_for_url c (package_url c name)) (known_etag st name) 0 =
       Answer resp →
     status resp = 200%Z → etag resp = Some e → collect_body (body resp) = Ok b →
     parse_packument b = None →
     ∃ st', fetch_packument c registry now later name st =
              (Some (Err "failed to parse packument"), [], st') ∧
       ∀ registry' now' later' resp',
         registry' (package_url c name) (token_for_url c (package_url c name)) (Some e) 0 =
           Answer resp' → status resp' = 304%Z → is_ok (collect_body (body resp')) = true →
         fetch_packument c registry' now' later' name st' =
           (Some (Err "corrupt cache entry"), [], st')) ∧
  (∀ registry now later resp,
     disk st !! cache_file name = None →
     registry (package_url c name) (token_for_url c (package_url c name)) (known_etag st name) 0 =
       Answer resp → status resp = 304%Z → is_ok (collect_body (body resp)) = true →
     fetch_packument c registry now later name st = (Some (Err "cache miss after 304"), [], st)) ∧
  (∀ registry now later other p,
     safe_file_name other = safe_file_name name → fresh_packument st other now = Some p →
     fetch_packument c registry now later name st = (Some (Ok p), [], st)).
Proof.
  assert (∀ st registry now later resp, fresh_packument st name now = None →
    registry (package_url c name) (token_for_url c (package_url c name)) (known_etag st name) 0 =
      Answer resp → status resp = 304%Z → is_ok (collect_body (body resp)) = true →
    fetch_packument c registry now later name st = (Some (load_cached_packument st name), [], st))
    as H304.
  { intros s registry now later resp Hf Hr Hs [b Hb]%is_ok_true. unfold fetch_packument.
    rewrite Hf. unfold send_bytes_with_retries, REQUEST_ATTEMPTS. cbn [send_loop].
    rewrite Hr, Hs, Hb. done. }
  split_and!.
  - intros registry now later e b resp Hw Hf Hr Hs He Hb Hp.
    eexists. split.
    { unfold fetch_packument. rewrite Hf. unfold send_bytes_with_retries, REQUEST_ATTEMPTS.
      cbn [send_loop]. rewrite Hr, Hs, Hb. cbn. unfold handle_response, store_etag. cbn.
      rewrite He, Hp. done. }
    intros registry' now' later' resp' Hr' Hs' Hok.
    rewrite !write_disk_ok by done. set (st' := Build_ClientState _ _).
    assert (disk st' !! cache_file name = Some {| data := b; mtime := later |}) as Hc
      by apply lookup_insert_eq.
    rewrite (H304 st' _ _ _ resp'); [|unfold fresh_packument; rewrite Hc; simpl; by case_match| |done..].
    + unfold load_cached_packument. rewrite Hc. simpl. by rewrite Hp.
    + unfold known_etag. simpl. rewrite lookup_insert_eq. done.
  - intros registry now later resp Hd Hr Hs Hok. rewrite (H304 st _ _ _ resp); [|unfold fresh_packument; by rewrite Hd|done..].
    unfold load_cached_packument. by rewrite Hd.
  - intros registry now later other p Ho Hf. unfold fetch_packument, fresh_packument, cache_file in *.
    rewrite Ho in Hf. by rewrite Hf.
Qed.
End cache_faults.

Lemma packument_cache_faults_witness :
  let reg := toy_answers (λ _, "bad") in
  let st1 := (toy_fetch reg 0 0 "p" empty_client).2 in
  toy_fetch reg 1 1 "p" st1 = (Some (Err "corrupt cache entry"), [], st1) ∧
  safe_file_name "@a__b/c" = safe_file_name "@a/b__c" ∧
  ∀ reg' now later,
    let st := (toy_fetch (toy_answers (λ _, "private")) 0 0 "@a__b/c" empty_client).2 in
    (now < 300 * 10 ^ 9)%Z → (0 ≤ now)%Z →
    toy_fetch reg' now later "@a/b__c" st = (Some (Ok (sample_packument "private" [])), [], st).
Proof.
  intros reg st1. split; [|split; [reflexivity|]].
  - destruct (proj1 (@packument_cache_faults toy_urls toy_parser (default_config "") "p" empty_client)
      reg 0%Z 0%Z "bad" "bad" (answer 200 (Some "bad") [Data "bad"]) (λ _, eq_refl) eq_refl eq_refl
      eq_refl eq_refl eq_refl eq_refl) as (st' & E & H).
    assert (st1 = st') as -> by (unfold st1, toy_fetch; by rewrite E).
    exact (H reg 1%Z 1%Z (answer 304 None []) eq_refl eq_refl eq_refl).
  - intros reg' now later st Hnow H0.
    apply (proj2 (proj2 (@packument_cache_faults toy_urls toy_parser (default_config "") "@a/b__c" st))
      reg' now later "@a__b/c"); [reflexivity|].
    unfold fresh_packument, age_secs, CACHE_TTL_SECS.
    assert (disk st !! cache_file "@a__b/c" = Some {| data := "private"; mtime := 0 |}) as E
      by reflexivity.
    rewrite E. simpl.
    rewrite (proj2 (Z.ltb_lt _ _)); [reflexivity|]. apply Z.div_lt_upper_bound; lia.
Defined.
