(* ===== verification/Cli.v ===== *)
(** * oath-cli: what the commands compute ([main.rs], its helpers)

    Package specifiers, the binaries of a package, quoting for the shell, durations and
    release ages, versions of tools, and the comparison of lockfiles: the functions of the
    command line that have no effects. *)
From S2P Require Export Lockfile Linker.

(** ** Package specifiers *)

Definition parse_package_spec (spec : string) : string * string :=
  match strip_prefix "@" spec with
  | Some stripped =>
      match find_str "@" stripped with
      | Some i => ("@" +:+ take_str i stripped, drop_str (i + 1) stripped)
      | None => (spec, "latest")
      end
  | None => match split_once "@" spec with Some nv => nv | None => (spec, "latest") end
  end.
Definition is_git_like_spec (spec : string) : bool :=
  starts_with "github:" spec || starts_with "gitlab:" spec || starts_with "bitbucket:" spec
  || starts_with "git+https://" spec || starts_with "git+ssh://" spec || starts_with "git://" spec.
Definition dependency_manifest_spec `{!HashIter} (pkg_name requested_spec : string) (g : DepGraph) : string :=
  if starts_with "npm:" requested_spec || is_git_like_spec requested_spec then requested_spec
  else
    match head (filter (λ n, alias n = Some pkg_name ∨ name n = pkg_name) (hash_iter (nodes g)).*2) with
    | Some node => "^" +:+ version node
    | None => requested_spec
    end.
(** [v.as_object()], and the map of a field of a manifest. *)
Definition object_of (j : Json) : option (list (string * Json)) :=
  match j with JObject m => Some m | _ => None end.
Definition extract_deps (pkg : Json) (k : string) : gmap string string :=
  match jget k pkg ≫= object_of with
  | Some obj => list_to_map ((λ '(n, v), (n, default "*" (as_str v))) <$> reverse obj)
  | None => ∅
  end.

(** ** The binaries of a package *)

Definition is_safe_path_part (part : string) : bool :=
  bool_decide (part ≠ "") && bool_decide (part ≠ ".") && bool_decide (part ≠ "..")
  && negb (has "\" part) && negb (has (byte 0) part).
Definition is_safe_bin_name (n : string) : bool := is_safe_path_part n && negb (has "/" n).
Definition package_bin_basename (n : string) : string := default n (last (split_char "/" n)).
(** The parts pushed onto the path. *)
Fixpoint relative_parts (cs : list Component) : option (list string) :=
  match cs with
  | [] => Some []
  | Normal part :: cs => if is_safe_path_part part then cons part <$> relative_parts cs else None
  | CurDir :: cs => relative_parts cs
  | _ => None
  end.
Definition package_relative_path (path : string) : option (list string) :=
  parts ← relative_parts (components path);
  if decide (parts = []) then None else Some parts.
Definition name_le (a b : string * list string) : Prop := String.le a.1 b.1.
#[export] Instance name_le_dec : RelDecision name_le := λ a b, decide (String.le a.1 b.1).
Definition bin_entries (pkg_json : Json) (inst : string) : list (string * list string) :=
  match jget "bin" pkg_json with
  | Some (JString path) =>
      match package_relative_path path with
      | Some p => if is_safe_bin_name (package_bin_basename inst)
                  then [(package_bin_basename inst, p)] else []
      | None => []
      end
  | Some (JObject map) =>
      omap (λ '(n, path),
        p ← as_str path;
        if negb (is_safe_bin_name n) then None else pair n <$> package_relative_path p) map
  | _ => []
  end.
Definition safe_bin_entries (pkg_json : Json) (inst : string) : list (string * list string) :=
  stable_sort name_le (bin_entries pkg_json inst).
Definition preferred_bin_path (pkg_json : Json) (inst : string) : option (list string) :=
  let bins := safe_bin_entries pkg_json inst in
  let basename := package_bin_basename inst in
  match head (filter (λ b, b.1 = inst ∨ b.1 = basename) bins) with
  | Some b => Some b.2
  | None => snd <$> head bins
  end.

(** ** The shell *)

Definition unquoted (a : ascii) : bool :=
  is_alnum a || bool_decide (a ∈ chars "_-./:=,+@%").
Fixpoint quote_chars (s : string) : string :=
  match s with
  | "" => ""
  | String a s => (if decide (a = "'"%char) then "'\''" else String a "") +:+ quote_chars s
  end.
Definition shell_quote_arg (arg : string) : string :=
  if decide (arg = "") then "''"
  else if forallb unquoted (chars arg) then arg
  else "'" +:+ quote_chars arg +:+ "'".
Definition shell_quote_args (args : list string) : string := join " " (shell_quote_arg <$> args).
(** Reference: how a POSIX shell splits a command into words, of the text that uses
    nothing but single quotes, backslashes outside of them, blanks, and characters without
    a meaning of their own. [cur] is the word being read. *)
Fixpoint sh_words (quoted : bool) (cur : option string) (s : string) : option (list string) :=
  match s with
  | "" => if quoted then None else Some (option_list cur)
  | String a s' =>
      if quoted then
        if decide (a = "'"%char) then sh_words false cur s'
        else sh_words true (Some (default "" cur +:+ String a "")) s'
      else if decide (a = "'"%char) then sh_words true (Some (default "" cur)) s'
      else if decide (a = "\"%char) then
        match s' with
        | String b s'' => sh_words false (Some (default "" cur +:+ String b "")) s''
        | "" => None
        end
      else if decide (a = " "%char) then app (option_list cur) <$> sh_words false None s'
      else if unquoted a then sh_words false (Some (default "" cur +:+ String a "")) s'
      else None
  end.

(** ** Durations and versions *)

(** Products wrap, as in the release profile. *)
Definition parse_duration_secs (s : string) : option Z :=
  let s := trim s in
  if decide (s = "") then None
  else
    let '(num_str, unit) :=
      match strip_suffix "d" s with
      | Some r => (r, "d"%char)
      | None => match strip_suffix "h" s with
      | Some r => (r, "h"%char)
      | None => match strip_suffix "w" s with
      | Some r => (r, "w"%char)
      | None => (s, "d"%char)
      end end end in
    num ← parse_u64 num_str;
    if decide (unit = "h"%char) then Some (to_u64 (num * 3600))
    else if decide (unit = "d"%char) then Some (to_u64 (num * 86400))
    else Some (to_u64 (to_u64 (num * 7) * 86400)).
Definition parse_tool_version (raw : string) : result string (Z * Z * Z) :=
  let raw := trim_start_matches "v" (trim raw) in
  let parts := split_char "." raw in
  major ← ok_or (head parts) "missing major version";
  major ← ok_or (parse_u64 major) "invalid digit";
  minor ← ok_or (parts !! 1) "missing minor version";
  minor ← ok_or (parse_u64 minor) "invalid digit";
  let patch := default "0" (parts !! 2) in
  patch ← ok_or (parse_u64 (default "0" (head (split_char "-" patch)))) "invalid digit";
  Ok (major, minor, patch).

(** ** Release ages *)

(** A slice at bytes that are no boundary of characters panics; a parse that fails gives no
    age. *)
Inductive Fault := Panic | Absent.
Definition is_char_boundary (i : nat) (s : string) : bool :=
  match chars s !! i with Some a => negb (continuation a) | None => bool_decide (i = String.length s) end.
Definition slice (a b : nat) (s : string) : result Fault string :=
  if is_char_boundary a s && is_char_boundary b s then Ok (take_str (b - a) (drop_str a s)) else Err Panic.
Definition slice_u64 (a b : nat) (s : string) : result Fault Z :=
  t ← slice a b s; ok_or (parse_u64 t) Absent.
Definition days_before_month : list Z := [0; 31; 59; 90; 120; 151; 181; 212; 243; 273; 304; 334]%Z.
Definition is_leap (year : Z) : bool :=
  (year mod 4 =? 0)%Z && (negb (year mod 100 =? 0)%Z || (year mod 400 =? 0)%Z).
Definition publish_ts (year month day hour min sec : Z) : Z :=
  let days := to_u64 (to_u64 (to_u64 (year - 1970) * 365) + to_u64 (year - 1969) / 4) in
  let days := if (1 <=? month)%Z && (month <=? 12)%Z
              then to_u64 (days + nth (Z.to_nat (month - 1)) days_before_month 0%Z) else days in
  let days := if (2 <? month)%Z && is_leap year then to_u64 (days + 1) else days in
  let days := to_u64 (days + to_u64 (day - 1)) in
  to_u64 (to_u64 (to_u64 (to_u64 (days * 86400) + to_u64 (hour * 3600)) + to_u64 (min * 60)) + sec).
(** [now] is the system time, if it is after the epoch. *)
Definition parse_iso_age_secs (now : option Z) (iso : string) : result Fault Z :=
  let s := trim iso in
  if String.length s <? 19 then Err Absent else
  year ← slice_u64 0 4 s;
  month ← slice_u64 5 7 s;
  day ← slice_u64 8 10 s;
  hour ← slice_u64 11 13 s;
  min ← slice_u64 14 16 s;
  sec ← slice_u64 17 19 s;
  let ts := publish_ts year month day hour min sec in
  now_ts ← ok_or now Absent;
  Ok (if (ts <? now_ts)%Z then now_ts - ts else 0)%Z.
(** Reference: the days from 1970 to a date, year by year and month by month. *)
Definition year_days (y : Z) : Z := if is_leap y then 366 else 365.
Definition month_days (y : Z) : list Z :=
  [31; if is_leap y then 29 else 28; 31; 30; 31; 30; 31; 31; 30; 31; 30; 31]%Z.
Definition sum_Z (l : list Z) : Z := foldr Z.add 0%Z l.
Definition civil_days (year month day : Z) : Z :=
  (sum_Z (year_days <$> seqZ 1970 (year - 1970))
   + sum_Z (take (Z.to_nat (month - 1)) (month_days year)) + (day - 1))%Z.

(** ** Frozen lockfiles *)

(** The entry at a location that only one of two lockfiles has. *)
Definition one_sided (existing generated : Lockfile) (k : string) : option LockEntry :=
  match packages existing !! k, packages generated !! k with
  | Some e, None | None, Some e => Some e
  | _, _ => None
  end.
Definition all_locations (existing generated : Lockfile) : gset string :=
  dom (packages existing) ∪ dom (packages generated).
Definition platform_only (existing generated : Lockfile) : gset string :=
  filter (λ k, from_option entry_optional false (one_sided existing generated k) = true)
    (all_locations existing generated).
Definition keep_edges (gone : gset string) (m : gmap string string) : gmap string string :=
  filter (λ kv, kv.2 ∉ gone) m.
Definition normalize_entry (gone : gset string) (e : LockEntry) : LockEntry := {|
  entry_name := None; entry_version := entry_version e; entry_resolved := entry_resolved e;
  entry_integrity := entry_integrity e;
  entry_dependencies := keep_edges gone (entry_dependencies e);
  entry_dev := entry_dev e; entry_optional := entry_optional e; entry_has_install_script := false;
  entry_alias := entry_alias e; entry_peer_dependencies := entry_peer_dependencies e;
  entry_resolved_peers := keep_edges gone (entry_resolved_peers e) |}.
Definition normalize (gone : gset string) (l : Lockfile) : Lockfile := {|
  lockfile_version := lockfile_version l; project_name := project_name l;
  project_version := project_version l;
  lock_roots := filter (λ k, k ∉ gone) (lock_roots l);
  root_dependencies := root_dependencies l; root_dev_dependencies := root_dev_dependencies l;
  packages := normalize_entry gone <$> filter (λ ke, ke.1 ∉ gone) (packages l) |}.
#[export] Instance LockEntry_eq_dec : EqDecision LockEntry.
Proof. solve_decision. Defined.
#[export] Instance Lockfile_eq_dec : EqDecision Lockfile.
Proof. solve_decision. Defined.
(** [serde_json::to_value] keeps lockfiles apart: it leaves out a field only at its default. *)
Definition lockfiles_match_for_frozen (existing generated : Lockfile) : bool :=
  if existsb (λ k, from_option (λ e, negb (entry_optional e)) false (one_sided existing generated k))
       (elements (all_locations existing generated))
  then false
  else
    let gone := platform_only existing generated in
    bool_decide (normalize gone existing = normalize gone generated).

(** ** Quoting *)

Lemma unquoted_plain a : unquoted a = true → a ≠ "'"%char ∧ a ≠ "\"%char ∧ a ≠ " "%char.
Proof. intros H. by repeat split; intros ->. Qed.
Lemma sh_words_plain s : ∀ c t,
  forallb unquoted (chars s) = true → sh_words false (Some c) (s +:+ t) = sh_words false (Some (c +:+ s)) t.
Proof.
  induction s as [|a s IH]; intros c t Hs; [by rewrite str_app_nil_r|].
  simpl in Hs. apply andb_true_iff in Hs as [Ha Hs]. destruct (unquoted_plain a Ha) as (H1 & H2 & H3).
  rewrite str_app_cons. cbn [sh_words]. rewrite !decide_False, Ha by done. rewrite IH by done.
  by rewrite <- str_app_assoc.
Qed.
Lemma sh_words_quoted s : ∀ c t,
  sh_words true (Some c) (quote_chars s +:+ "'" +:+ t) = sh_words false (Some (c +:+ s)) t.
Proof.
  induction s as [|a s IH]; intros c t; [by rewrite str_app_nil_r|]. cbn [quote_chars]. case_decide as Ha.
  - subst. rewrite <- str_app_assoc. remember (quote_chars s +:+ "'" +:+ t) as r eqn:Hr.
    change ("'\''" +:+ r) with (String "'" (String "\" (String "'" (String "'" r)))). cbn [sh_words].
    rewrite !(decide_True (P := "'"%char = "'"%char)), (decide_False (P := "\"%char = "'"%char)),
      (decide_True (P := "\"%char = "\"%char)) by done. cbn [from_option id]. subst r.
    etrans; [apply (IH (c +:+ "'") t)|]. by rewrite <- str_app_assoc.
  - rewrite <- str_app_assoc. remember (quote_chars s +:+ "'" +:+ t) as r eqn:Hr.
    change (String a "" +:+ r) with (String a r). cbn [sh_words]. rewrite decide_False by done. subst r.
    cbn [from_option id]. etrans; [apply (IH (c +:+ String a "") t)|]. by rewrite <- str_app_assoc.
Qed.
Lemma sh_words_arg arg t :
  sh_words false None (shell_quote_arg arg +:+ t) = sh_words false (Some arg) t.
Proof.
  unfold shell_quote_arg. case_decide as Ha; [by subst|].
  destruct (forallb unquoted (chars arg)) eqn:E.
  - destruct arg as [|a s]; [done|]. simpl in E. apply andb_true_iff in E as [Ea Es].
    destruct (unquoted_plain a Ea) as (H1 & H2 & H3).
    rewrite str_app_cons. cbn [sh_words]. rewrite !decide_False, Ea by done. by rewrite sh_words_plain.
  - rewrite <- !str_app_assoc. remember (quote_chars arg +:+ "'" +:+ t) as r eqn:Hr.
    change ("'" +:+ r) with (String "'" r). cbn [sh_words]. rewrite decide_True by done. subst r.
    cbn [from_option id]. apply (sh_words_quoted arg "" t).
Qed.

(** The arguments of a script reach it as they were given: a shell that splits the
    quoted text gets exactly the arguments, whatever characters they hold. *)
Theorem shell_quote_roundtrip args : sh_words false None (shell_quote_args args) = Some args.
Proof.
  unfold shell_quote_args. induction args as [|a args IH]; [done|].
  destruct args as [|b args].
  - csimpl. rewrite <- (str_app_nil_r (shell_quote_arg a)). by rewrite sh_words_arg.
  - rewrite !fmap_cons, join_cons, sh_words_arg. rewrite fmap_cons in IH.
    remember (join " " (shell_quote_arg b :: (shell_quote_arg <$> args))) as r.
    change (" " +:+ r) with (String " " r). cbn [sh_words].
    rewrite !decide_False, decide_True by done. by rewrite IH.
Qed.

(** ** Binaries *)

Lemma is_safe_path_part_spec p :
  is_safe_path_part p = true ↔ p ≠ "" ∧ p ≠ "." ∧ p ≠ ".." ∧ has "\" p = false ∧ has (byte 0) p = false.
Proof.
  unfold is_safe_path_part. rewrite !andb_true_iff, !bool_decide_eq_true, !negb_true_iff. tauto.
Qed.
Lemma relative_parts_linker cs : relative_parts cs = sanitize_components cs.
Proof. induction cs as [|[] cs IH]; simpl; by rewrite ?IH. Qed.
Lemma relative_parts_safe cs ps :
  (∀ n, Normal n ∈ cs → safe_name n) → relative_parts cs = Some ps → Forall safe_name ps.
Proof.
  revert ps. induction cs as [|c cs IH]; intros ps Hn; simpl; [by intros [= <-]|].
  destruct c as [| | |n]; try done.
  - apply IH. intros n ?. apply Hn. by right.
  - destruct (is_safe_path_part n); [|done]. intros (ps' & Hps & ->)%fmap_Some.
    constructor; [apply Hn; by left|]. apply IH; [|done]. intros m ?. apply Hn. by right.
Qed.
Lemma package_relative_path_safe path ps :
  package_relative_path path = Some ps → ps ≠ [] ∧ Forall safe_name ps.
Proof.
  unfold package_relative_path. intros (ps' & H & Hd)%bind_Some. case_decide; [done|].
  injection Hd as <-. split; [done|]. eapply relative_parts_safe; [|exact H].
  intros n. apply components_normal_safe.
Qed.
Lemma elem_of_bin_entries pkg inst n ps :
  (n, ps) ∈ bin_entries pkg inst → is_safe_bin_name n = true ∧ ∃ path, package_relative_path path = Some ps.
Proof.
  unfold bin_entries. destruct (jget "bin" pkg) as [[| | |path|l|m]|]; try (by intros ?%elem_of_nil).
  - destruct (package_relative_path path) eqn:E; [|by intros ?%elem_of_nil].
    destruct (is_safe_bin_name _) eqn:En; [|by intros ?%elem_of_nil].
    intros [= -> ->]%list_elem_of_singleton. eauto.
  - intros ([k v] & _ & H)%list_elem_of_omap. apply bind_Some in H as (path & _ & H).
    destruct (is_safe_bin_name k) eqn:En; [|done]. simpl in H. apply fmap_Some in H as (p & Hp & [= -> ->]). eauto.
Qed.
(** The linker's binaries and those of the command line are the same. *)
Lemma bin_entries_linker pkg inst :
  bin_entries pkg inst = read_bin_entries (Some pkg) inst.
Proof.
  unfold bin_entries, read_bin_entries, package_relative_path, sanitize_package_relative_path. simpl.
  destruct (jget "bin" pkg) as [[| | |path|l|m]|]; try done.
  - rewrite relative_parts_linker. unfold package_bin_basename. change (Linker.is_safe_bin_name) with is_safe_bin_name.
    destruct (sanitize_components _ ≫= _); [done|]. by destruct (is_safe_bin_name _).
  - induction m as [|[k v] m IH]; [done|]. csimpl. rewrite IH. clear IH. destruct (as_str v) as [p|]; csimpl; [|done].
    change (Linker.is_safe_bin_name k) with (is_safe_bin_name k). rewrite relative_parts_linker.
    by destruct (is_safe_bin_name k).
Qed.
#[export] Instance name_le_total : Total name_le.
Proof. intros a b. apply (total String.le). Qed.
#[export] Instance name_le_trans : Transitive name_le.
Proof. intros a b c. apply (transitivity (R := String.le)). Qed.

(** The binaries of a package: one name in a directory each, at a path of plain names
    below the package, sorted by name; the same as the linker's. The preferred one is one
    of them, that of the package's name if there is one. *)
Theorem safe_bin_entries_spec pkg inst :
  let bins := safe_bin_entries pkg inst in
  bins ≡ₚ read_bin_entries (Some pkg) inst
  ∧ StronglySorted name_le bins
  ∧ (∀ n ps, (n, ps) ∈ bins → safe_name n ∧ has "\" n = false ∧ ps ≠ [] ∧ Forall safe_name ps)
  ∧ (∀ ps, preferred_bin_path pkg inst = Some ps → ∃ n, (n, ps) ∈ bins ∧
       ((∃ n' ps', (n', ps') ∈ bins ∧ (n' = inst ∨ n' = package_bin_basename inst)) →
         n = inst ∨ n = package_bin_basename inst))
  ∧ (preferred_bin_path pkg inst = None ↔ bins = []).
Proof.
  intros bins. split; [|split; [|split; [|split]]].
  - unfold bins, safe_bin_entries. by rewrite stable_sort_perm, bin_entries_linker.
  - apply stable_sort_sorted; apply _.
  - intros n ps Hin. unfold bins, safe_bin_entries in Hin. rewrite stable_sort_perm in Hin.
    apply elem_of_bin_entries in Hin as [Hn (path & Hp%package_relative_path_safe)].
    unfold is_safe_bin_name in Hn. apply andb_true_iff in Hn as [Hn Hs%negb_true_iff].
    apply is_safe_path_part_spec in Hn as (? & ? & ? & ? & _). repeat split; try done; apply Hp.
  - intros ps. unfold preferred_bin_path. fold bins.
    destruct (filter _ bins) as [|[n ps'] l] eqn:E; simpl.
    + intros ([n ps'] & Hb & ->)%fmap_Some. exists n. split.
      { destruct bins; [done|]. injection Hb as ->. by left. }
      intros (n' & ps'' & Hin & Hn'). exfalso.
      assert ((n', ps'') ∈ filter (λ b, b.1 = inst ∨ b.1 = package_bin_basename inst) bins) as Hf.
      { by apply list_elem_of_filter. }
      rewrite E in Hf. by apply elem_of_nil in Hf.
    + intros [= ->]. exists n.
      assert ((n, ps) ∈ filter (λ b, b.1 = inst ∨ b.1 = package_bin_basename inst) bins) as Hf by (rewrite E; by left).
      apply list_elem_of_filter in Hf as [Hn Hin]. by split.
  - unfold preferred_bin_path. fold bins. destruct (filter _ bins) as [|b l] eqn:E; simpl.
    + by destruct bins.
    + split; [done|]. intros Hb. by rewrite Hb in E.
Qed.

(** ** Specifiers *)

Lemma parse_package_spec_spec n v :
  n ≠ "" → has "@" (drop_str 1 n) = false →
  parse_package_spec (n +:+ "@" +:+ v) = (n, v)
  ∧ parse_package_spec n = (n, "latest").
Proof.
  intros Hn Hd. destruct n as [|a n]; [done|]. change (drop_str 1 (String a n)) with (of_chars (chars n)) in Hd.
  rewrite of_chars_chars in Hd. unfold parse_package_spec.
  change (String a n +:+ "@" +:+ v) with (String a (n +:+ String "@" v)).
  cbn [strip_prefix]. destruct (decide ("@"%char = a)) as [<-|Ha].
  - rewrite find_str_char by done. rewrite take_str_app, drop_str_S by done.
    split; [done|]. by rewrite find_str_char_none.
  - assert (has "@" (String a n) = false) as H.
    { rewrite has_cons, Hd, orb_false_r. by apply bool_decide_eq_false. }
    split.
    + change (String a (n +:+ String "@" v)) with (String a n +:+ String "@" v).
      assert (split_once "@" (String a n +:+ String "@" v) = Some (String a n, v)) as ->; [|done].
      by apply split_once_Some.
    + assert (split_once "@" (String a n) = None) as ->; [|done].
      destruct (split_once "@" (String a n)) as [[x y]|] eqn:E; [|done].
      apply split_once_Some in E as [E _]. rewrite E, has_app, has_cons in H. by rewrite orb_true_r in H.
Qed.

(** ** Frozen lockfiles *)

Lemma elem_of_platform_only a b k :
  k ∈ platform_only a b ↔ ∃ e, one_sided a b k = Some e ∧ entry_optional e = true.
Proof.
  unfold platform_only. rewrite elem_of_filter. split.
  - intros [H _]. destruct (one_sided a b k) as [e|]; [|done]. by exists e.
  - intros (e & He & Ho). rewrite He. split; [done|]. unfold all_locations. rewrite elem_of_union, !elem_of_dom.
    unfold one_sided in He. destruct (packages a !! k), (packages b !! k); naive_solver.
Qed.
Lemma one_sided_sym a b k : one_sided a b k = one_sided b a k.
Proof. unfold one_sided. by destruct (packages a !! k), (packages b !! k). Qed.
Lemma frozen_one_sided a b :
  lockfiles_match_for_frozen a b = true ↔
  (∀ k e, one_sided a b k = Some e → entry_optional e = true)
  ∧ normalize (platform_only a b) a = normalize (platform_only a b) b.
Proof.
  unfold lockfiles_match_for_frozen. destruct (existsb _ _) eqn:E.
  - split; [done|]. intros [H _]. apply existsb_exists in E as (k & _ & Hk).
    destruct (one_sided a b k) as [e|] eqn:Ee; [|done]. simpl in Hk. by rewrite (H k e Ee) in Hk.
  - rewrite bool_decide_eq_true. split; [|tauto]. intros H. split; [|done].
    intros k e He. destruct (entry_optional e) eqn:Eo; [done|].
    assert (existsb (λ k, from_option (λ e, negb (entry_optional e)) false (one_sided a b k))
      (elements (all_locations a b)) = true); [|congruence].
    apply existsb_exists. exists k. rewrite He. simpl. rewrite Eo. split; [|done].
    apply list_elem_of_In, elem_of_elements. unfold all_locations. rewrite elem_of_union, !elem_of_dom.
    unfold one_sided in He. destruct (packages a !! k), (packages b !! k); naive_solver.
Qed.
Lemma normalize_lookup gone l k :
  packages (normalize gone l) !! k = if decide (k ∈ gone) then None else normalize_entry gone <$> packages l !! k.
Proof.
  simpl. rewrite lookup_fmap. case_decide as Hk.
  - rewrite map_lookup_filter_None_2; [done|]. right. intros e _. simpl. tauto.
  - destruct (packages l !! k) as [e|] eqn:E.
    + by rewrite (map_lookup_filter_Some_2 _ _ k e) by done.
    + by rewrite map_lookup_filter_None_2 by auto.
Qed.

(** What a frozen install compares. Two lockfiles match when they say the same of the
    project, its direct dependencies and its roots, and of every location but those that
    one of them has alone, which must be optional: there they name the same version, URL
    and integrity, flags, alias and ranges, and the same places of dependencies but those.
    So a location that is not optional is in both, and one that is in both is the same. *)
Theorem lockfiles_match_spec a b :
  let gone k := is_Some (one_sided a b k) in
  let edges (m m' : gmap string string) := ∀ d k, ¬ gone k → m !! d = Some k ↔ m' !! d = Some k in
  lockfiles_match_for_frozen a b = true ↔
  lockfile_version a = lockfile_version b ∧ project_name a = project_name b
  ∧ project_version a = project_version b
  ∧ root_dependencies a = root_dependencies b ∧ root_dev_dependencies a = root_dev_dependencies b
  ∧ filter (λ k, k ∉ platform_only a b) (lock_roots a) = filter (λ k, k ∉ platform_only a b) (lock_roots b)
  ∧ (∀ k e, one_sided a b k = Some e → entry_optional e = true)
  ∧ ∀ k x y, packages a !! k = Some x → packages b !! k = Some y →
      entry_version x = entry_version y ∧ entry_resolved x = entry_resolved y
      ∧ entry_integrity x = entry_integrity y ∧ entry_dev x = entry_dev y
      ∧ entry_optional x = entry_optional y ∧ entry_alias x = entry_alias y
      ∧ entry_peer_dependencies x = entry_peer_dependencies y
      ∧ edges (entry_dependencies x) (entry_dependencies y)
      ∧ edges (entry_resolved_peers x) (entry_resolved_peers y).
Proof.
  intros gone edges. rewrite frozen_one_sided.
  assert ((∀ k e, one_sided a b k = Some e → entry_optional e = true) →
    ∀ k, k ∈ platform_only a b ↔ gone k) as Hgone.
  { intros Ho k. rewrite elem_of_platform_only. split; [intros (e & He & _); by exists e|].
    intros [e He]. exists e. split; [done|]. by eapply Ho. }
  assert (∀ m m', (∀ k, k ∈ platform_only a b ↔ gone k) →
    keep_edges (platform_only a b) m = keep_edges (platform_only a b) m' ↔ edges m m') as Hedges.
  { intros m m' Hg. unfold keep_edges, edges. split.
    - intros H d k Hk. apply (f_equal (λ m, m !! d)) in H. rewrite <- Hg in Hk.
      pose proof (map_lookup_filter_Some (λ kv, kv.2 ∉ platform_only a b) m d k) as H1.
      pose proof (map_lookup_filter_Some (λ kv, kv.2 ∉ platform_only a b) m' d k) as H2.
      rewrite <- H in H2. simpl in *. tauto.
    - intros H. apply map_eq. intros d. apply option_eq. intros k. rewrite !map_lookup_filter_Some. simpl.
      split; intros [Hk Hn]; (split; [|done]); eapply H; eauto; by rewrite <- Hg. }
  split.
  - intros [Ho Hn]. specialize (Hgone Ho).
    pose proof (f_equal lockfile_version Hn). pose proof (f_equal project_name Hn).
    pose proof (f_equal project_version Hn). pose proof (f_equal root_dependencies Hn).
    pose proof (f_equal root_dev_dependencies Hn). pose proof (f_equal lock_roots Hn). simpl in *.
    split; [done|]. split; [done|]. split; [done|]. split; [done|]. split; [done|]. split; [done|].
    split; [done|]. intros k x y Hx Hy.
    assert (k ∉ platform_only a b) as Hk.
    { rewrite Hgone. unfold gone, one_sided. rewrite Hx, Hy. by intros [? ?]. }
    apply (f_equal (λ l, packages l !! k)) in Hn. rewrite !normalize_lookup in Hn.
    rewrite !decide_False, Hx, Hy in Hn by done. simpl in Hn. injection Hn as ??? Hd ??? ? Hp.
    rewrite <- !Hedges by done. tauto.
  - intros (? & ? & ? & ? & ? & Hr & Ho & Hk). split; [done|]. specialize (Hgone Ho).
    assert (packages (normalize (platform_only a b) a) = packages (normalize (platform_only a b) b)) as Hp.
    { apply map_eq. intros k. rewrite !normalize_lookup. case_decide as Hg; [done|].
      rewrite Hgone in Hg. unfold gone, one_sided in Hg.
      destruct (packages a !! k) as [x|] eqn:Ex, (packages b !! k) as [y|] eqn:Ey; try done;
        [|destruct Hg; by eexists|destruct Hg; by eexists].
      destruct (Hk k x y Ex Ey) as (? & ? & ? & ? & ? & ? & ? & Hd & Hq).
      apply Hedges in Hd; [|done]. apply Hedges in Hq; [|done]. simpl. unfold normalize_entry. congruence. }
    unfold normalize in *. simpl in Hp. congruence.
Qed.
Lemma frozen_refl a : lockfiles_match_for_frozen a a = true.
Proof.
  apply frozen_one_sided. split; [|done]. intros k e. unfold one_sided. by destruct (packages a !! k).
Qed.
Lemma frozen_sym a b : lockfiles_match_for_frozen a b = lockfiles_match_for_frozen b a.
Proof.
  apply eq_true_iff_eq. rewrite !frozen_one_sided.
  assert (platform_only a b = platform_only b a) as ->.
  { apply set_eq. intros k. rewrite !elem_of_platform_only. setoid_rewrite one_sided_sym at 1. done. }
  split; (intros [H1 H2]; split; [|done]; intros k e; rewrite one_sided_sym; apply H1).
Qed.
(** A package that is optional passes although the lockfile does not have it. *)
Definition optional_entry (v : string) : LockEntry := {|
  entry_name := None; entry_version := v; entry_resolved := "https://r/x-" +:+ v; entry_integrity := None;
  entry_dependencies := ∅; entry_dev := false; entry_optional := true; entry_has_install_script := true;
  entry_alias := None; entry_peer_dependencies := ∅; entry_resolved_peers := ∅ |}.
Definition lock_of (ps : gmap string LockEntry) (rs : list string) : Lockfile :=
  {| lockfile_version := 2; project_name := "p"; project_version := "1.0.0"; lock_roots := rs;
     root_dependencies := ∅; root_dev_dependencies := ∅; packages := ps |}.
Example optional_package_added :
  lockfiles_match_for_frozen (lock_of ∅ [])
    (lock_of {[ "node_modules/x" := optional_entry "6.6.6" ]} ["node_modules/x"]) = true
  ∧ lockfiles_match_for_frozen (lock_of {[ "node_modules/x" := optional_entry "1.0.0" ]} ["node_modules/x"])
      (lock_of {[ "node_modules/x" := optional_entry "6.6.6" ]} ["node_modules/x"]) = false.
Proof. split; by vm_compute. Qed.

(** ** Times *)

Definition check_days (y m : Z) : bool :=
  (to_u64 (to_u64 (to_u64 (y - 1970) * 365) + to_u64 (y - 1969) / 4)
   + nth (Z.to_nat (m - 1)) days_before_month 0 + (if (2 <? m) && is_leap y then 1 else 0)
   =? sum_Z (year_days <$> seqZ 1970 (y - 1970)) + sum_Z (take (Z.to_nat (m - 1)) (month_days y)))%Z
  && (to_u64 (to_u64 (to_u64 (y - 1970) * 365) + to_u64 (y - 1969) / 4) <? 2 ^ 20)%Z
  && (nth (Z.to_nat (m - 1)) days_before_month 0 <? 2 ^ 20)%Z
  && (0 <=? to_u64 (to_u64 (to_u64 (y - 1970) * 365) + to_u64 (y - 1969) / 4))%Z
  && (0 <=? nth (Z.to_nat (m - 1)) days_before_month 0)%Z.
Lemma check_all_days :
  forallb (λ y, forallb (λ m, check_days y m) (seqZ 1 12)) (seqZ 1970 131) = true.
Proof. by vm_compute. Qed.
Lemma check_days_in_range y m : (1970 ≤ y ≤ 2100)%Z → (1 ≤ m ≤ 12)%Z → check_days y m = true.
Proof.
  intros Hy Hm. pose proof check_all_days as H. rewrite forallb_forall in H.
  specialize (H y). rewrite <- list_elem_of_In, elem_of_seqZ in H. specialize (H ltac:(lia)).
  rewrite forallb_forall in H. apply H. rewrite <- list_elem_of_In, elem_of_seqZ. lia.
Qed.
Lemma to_u64_small z : (0 ≤ z < 2 ^ 64)%Z → to_u64 z = z.
Proof. intros H. unfold wrap_u. by rewrite Z.mod_small. Qed.

(** The time of a release is exact from 1970 to 2100: the days are those of the
    calendar, in spite of the approximation of leap years, and nothing wraps. *)
Theorem publish_ts_exact year month day hour min sec :
  (1970 ≤ year ≤ 2100)%Z → (1 ≤ month ≤ 12)%Z → (1 ≤ day ≤ 31)%Z →
  (0 ≤ hour < 24)%Z → (0 ≤ min < 60)%Z → (0 ≤ sec ≤ 60)%Z →
  publish_ts year month day hour min sec
    = (civil_days year month day * 86400 + hour * 3600 + min * 60 + sec)%Z.
Proof.
  intros Hy Hm Hd Hh Hi Hs. pose proof (check_days_in_range year month Hy Hm) as Hc.
  unfold check_days in Hc. rewrite !andb_true_iff, Z.eqb_eq, !Z.ltb_lt, !Z.leb_le in Hc.
  destruct Hc as ((((Hc & H1) & H2) & H3) & H4). unfold publish_ts, civil_days.
  set (d0 := to_u64 (to_u64 (to_u64 (year - 1970) * 365) + to_u64 (year - 1969) / 4)) in *.
  set (d1 := nth (Z.to_nat (month - 1)) days_before_month 0%Z) in *.
  assert (((1 <=? month)%Z && (month <=? 12)%Z) = true) as -> by lia.
  rewrite (to_u64_small (d0 + d1)) by lia.
  assert ((if (2 <? month)%Z && is_leap year then to_u64 (d0 + d1 + 1) else (d0 + d1))%Z
    = (d0 + d1 + (if (2 <? month)%Z && is_leap year then 1 else 0))%Z) as ->.
  { destruct (_ && _); [|lia]. apply to_u64_small. lia. }
  rewrite <- Hc. set (x := (d0 + d1 + _)%Z).
  assert (0 ≤ x < 2 ^ 22)%Z as Hx by (unfold x; destruct (_ && _); lia). clearbody x d0 d1.
  rewrite (to_u64_small (day - 1)), (to_u64_small (hour * 3600)), (to_u64_small (min * 60)) by lia.
  rewrite (to_u64_small (x + (day - 1))) by lia. rewrite (to_u64_small ((x + (day - 1)) * 86400)) by lia.
  rewrite (to_u64_small (_ + hour * 3600)) by lia. rewrite (to_u64_small (_ + min * 60)) by lia.
  by rewrite to_u64_small by lia.
Qed.
Lemma publish_ts_exact_witness :
  publish_ts 2024 2 29 12 30 5 = (civil_days 2024 2 29 * 86400 + 12 * 3600 + 30 * 60 + 5)%Z
  ∧ publish_ts 2024 2 29 12 30 5 = 1709209805%Z.
Proof. split; [apply publish_ts_exact; lia|by vm_compute]. Defined.
(** Letters that take several bytes end the program. *)
Example iso_panics : parse_iso_age_secs (Some 0%Z) ("202" +:+ utf8 [195;169]%N +:+ "-01-01T00:00:00Z") = Err Panic.
Proof. by vm_compute. Qed.

(** A duration is what it says unless it is too long for 64 bits, when it is anything. *)
Lemma parse_duration_exact n :
  is_u64 (n * 604800) → (0 ≤ n)%Z →
  ∀ s, parse_u64 s = Some n → trim (s +:+ "w") = s +:+ "w" → trim (s +:+ "h") = s +:+ "h" →
  parse_duration_secs (s +:+ "w") = Some (n * 604800)%Z ∧ parse_duration_secs (s +:+ "h") = Some (n * 3600)%Z.
Proof.
  intros Hn H0 s Hs Hw Hh. unfold is_u64, u64_max in Hn. unfold parse_duration_secs. rewrite Hw, Hh.
  assert (∀ c d, c ≠ d → strip_suffix (String c "") (s +:+ String d "") = None) as Hnone.
  { intros c d Hcd. destruct (strip_suffix (String c "") (s +:+ String d "")) as [r|] eqn:E; [|done].
    apply strip_suffix_Some in E. apply (f_equal chars) in E. rewrite !chars_app in E. simpl in E.
    apply app_inj_tail in E as [_ E]. congruence. }
  assert (∀ c, strip_suffix (String c "") (s +:+ String c "") = Some s) as Hsome.
  { intros c. by apply strip_suffix_Some. }
  assert (∀ c, s +:+ String c "" ≠ "") as Hne by (intros c; by destruct s).
  rewrite !decide_False by apply Hne.
  rewrite (Hnone "d"%char "w"%char), (Hnone "h"%char "w"%char), (Hsome "w"%char) by done.
  rewrite (Hnone "d"%char "h"%char), (Hsome "h"%char) by done. rewrite Hs. simpl.
  rewrite (to_u64_small (n * 7)) by lia. rewrite !to_u64_small by lia. split; [|done]. f_equal. lia.
Qed.
Example duration_wraps : parse_duration_secs "213503982334602d" = Some 61184%Z.
Proof. by vm_compute. Qed.
