(* ===== verification/Command.v ===== *)
(** * Commands that act on the world, and monitors of what they do

    A command of the command line is a tree of actions with the answers the world gives to
    them; what it may do is the set of its traces, also those that are cut short. A monitor
    is an automaton that reads a trace and stops at an action that is not permitted: the
    specification of a command. *)
From S2P Require Export Prelude.

(** How a command ends: [anyhow::bail!] and [std::process::exit]. *)
Inductive Stop := Bail (e : string) | Exit (code : Z).
Inductive cmd (E : Type → Type) (A : Type) : Type :=
  | Return (r : result Stop A)
  | Do {X : Type} (e : E X) (k : X → cmd E A).
Arguments Return {E A} r.
Arguments Do {E A X} e k.

Fixpoint cmd_bind {E A B} (f : A → cmd E B) (p : cmd E A) : cmd E B :=
  match p with
  | Return (Ok a) => f a
  | Return (Err e) => Return (Err e)
  | Do e k => Do e (λ x, cmd_bind f (k x))
  end.
#[global] Instance cmd_ret E : MRet (cmd E) := λ A a, Return (Ok a).
#[global] Instance cmd_mbind E : MBind (cmd E) := λ A B, cmd_bind.
#[global] Instance cmd_fmap E : FMap (cmd E) := λ A B f, cmd_bind (λ a, Return (Ok (f a))).

Definition act {E X} (e : E X) : cmd E X := Do e (λ x, Return (Ok x)).
Definition bail {E A} (e : string) : cmd E A := Return (Err (Bail e)).
Definition exit_with {E A} (code : Z) : cmd E A := Return (Err (Exit code)).
(** The question mark, and [anyhow::ensure!]. *)
Definition lift {E A} (r : result string A) : cmd E A :=
  Return (match r with Ok a => Ok a | Err e => Err (Bail e) end).
Definition need {E A} (o : option A) (e : string) : cmd E A := lift (ok_or o e).
Definition demand {E} (b : bool) (e : string) : cmd E unit := lift (ensure b e).
Definition try {E A} (e : E (result string A)) : cmd E A := r ← act e; lift r.
Definition when {E} (b : bool) (p : cmd E unit) : cmd E unit := if b then p else mret tt.
(** [for x in l { .. }] with variables, and without. *)
Fixpoint fold_cmd {E A B} (f : A → B → cmd E A) (a : A) (l : list B) : cmd E A :=
  match l with
  | [] => mret a
  | x :: l => a ← f a x; fold_cmd f a l
  end.
Definition each {E B} (f : B → cmd E unit) (l : list B) : cmd E unit := fold_cmd (λ _, f) tt l.

(** ** Traces *)

Record event (E : Type → Type) := Event { answer_type : Type; action : E answer_type; answer : answer_type }.
Arguments Event {E answer_type} action answer.
Arguments action {E} e.
Arguments answer {E} e.

(** What a command may have done, and how it ended if it was not cut short. *)
Inductive performs {E A} : cmd E A → list (event E) → option (result Stop A) → Prop :=
  | performs_cut p : performs p [] None
  | performs_end r : performs (Return r) [] (Some r)
  | performs_do X (e : E X) k x tr o : performs (k x) tr o → performs (Do e k) (Event e x :: tr) o.
(** The run in a world that answers every action by a function. *)
Fixpoint run {E A} (world : ∀ X, E X → X) (p : cmd E A) : list (event E) * result Stop A :=
  match p with
  | Return r => ([], r)
  | Do e k => let x := world _ e in let '(tr, r) := run world (k x) in (Event e x :: tr, r)
  end.
Lemma run_performs {E A} (world : ∀ X, E X → X) (p : cmd E A) :
  performs p (run world p).1 (Some (run world p).2).
Proof.
  induction p as [r|X e k IH]; simpl; [constructor|]. specialize (IH (world X e)).
  destruct (run world (k (world X e))) as [tr r]. by constructor.
Qed.

(** ** Monitors *)

Section monitor.
Context {E : Type → Type} {S : Type} (mon : S → ∀ X, E X → X → option S).
Fixpoint watch (s : S) (tr : list (event E)) : option S :=
  match tr with
  | [] => Some s
  | ev :: tr => s' ← mon s _ (action ev) (answer ev); watch s' tr
  end.
(** The monitor permits whatever the command does, and the command ends in a state of the
    monitor with what [Q] says. *)
Fixpoint safe {A} (p : cmd E A) (Q : result Stop A → S → Prop) (s : S) : Prop :=
  match p with
  | Return r => Q r s
  | Do e k => ∀ x, ∃ s', mon s _ e x = Some s' ∧ safe (k x) Q s'
  end.

Lemma watch_app s tr tr' : watch s (tr ++ tr') = watch s tr ≫= λ s', watch s' tr'.
Proof.
  revert s. induction tr as [|ev tr IH]; intros s; [done|]. simpl. destruct (mon _ _ _ _); [|done].
  simpl. apply IH.
Qed.
Lemma safe_sound {A} (p : cmd E A) Q s tr o :
  safe p Q s → performs p tr o →
  ∃ s', watch s tr = Some s' ∧ ∀ r, o = Some r → Q r s'.
Proof.
  intros Hs Hp. revert s Hs. induction Hp as [p|r|X e k x tr o Hp IH]; intros s Hs.
  - by exists s.
  - exists s. split; [done|]. by intros r' [= <-].
  - destruct (Hs x) as (s' & Hm & Hs'). destruct (IH s' Hs') as (s'' & Hw & HQ).
    exists s''. split; [|done]. simpl. by rewrite Hm.
Qed.
Lemma watch_mono {A} (p : cmd E A) (Q Q' : result Stop A → S → Prop) s :
  safe p Q s → (∀ r s', Q r s' → Q' r s') → safe p Q' s.
Proof.
  intros Hs HQ. revert s Hs. induction p as [r|X e k IH]; intros s Hs; simpl in *; [by apply HQ|].
  intros x. destruct (Hs x) as (s' & ? & ?). exists s'. split; [done|]. by apply IH.
Qed.
Lemma watch_bind {A B} (p : cmd E A) (f : A → cmd E B) Q s :
  safe p (λ r s', match r with Ok a => safe (f a) Q s' | Err e => Q (Err e) s' end) s →
  safe (p ≫= f) Q s.
Proof.
  revert s. induction p as [[a|e]|X e k IH]; intros s Hs; [exact Hs..|].
  intros x. destruct (Hs x) as (s' & ? & ?). exists s'. split; [done|]. by apply IH.
Qed.
Lemma watch_ret {A} (a : A) (Q : result Stop A → S → Prop) s : Q (Ok a) s → safe (mret a) Q s.
Proof. exact id. Qed.
Lemma safe_act {X B} (e : E X) (f : X → cmd E B) Q s :
  (∀ x, ∃ s', mon s _ e x = Some s' ∧ safe (f x) Q s') → safe (act e ≫= f) Q s.
Proof. exact id. Qed.
Lemma safe_try {A B} (e : E (result string A)) (f : A → cmd E B) Q s :
  (∀ x, ∃ s', mon s _ e x = Some s' ∧
    match x with Ok a => safe (f a) Q s' | Err m => Q (Err (Bail m)) s' end) →
  safe (try e ≫= f) Q s.
Proof.
  intros H x. destruct (H x) as (s' & Hm & Hx). exists s'. split; [done|]. by destruct x.
Qed.
Lemma watch_lift {A B} (r : result string A) (f : A → cmd E B) Q s :
  match r with Ok a => safe (f a) Q s | Err m => Q (Err (Bail m)) s end → safe (lift r ≫= f) Q s.
Proof. by destruct r. Qed.
Lemma safe_fold {A B} (f : A → B → cmd E A) a l (I : list B → A → S → Prop)
    (Q : result Stop A → S → Prop) s :
  I l a s →
  (∀ x l' a s, I (x :: l') a s → x ∈ l →
     safe (f a x) (λ r s', match r with Ok a' => I l' a' s' | Err e => Q (Err e) s' end) s) →
  (∀ a s, I [] a s → Q (Ok a) s) →
  safe (fold_cmd f a l) Q s.
Proof.
  intros HI Hf HQ. revert a s HI. induction l as [|x l IH]; intros a s HI; [by apply HQ|].
  simpl. apply watch_bind. eapply watch_mono; [apply Hf; [done|by left]|].
  intros [a'|e] s' Hs'; [|done]. apply IH; [|done]. intros y l' b t Hb Hin. apply Hf; [done|by right].
Qed.
(** A loop that keeps an invariant of the monitor. *)
Lemma safe_each {B} (f : B → cmd E unit) l (I : S → Prop) (Q : result Stop unit → S → Prop) s :
  I s → (∀ x s, I s → x ∈ l → safe (f x) (λ r s', match r with Ok _ => I s' | Err e => Q (Err e) s' end) s) →
  (∀ s, I s → Q (Ok tt) s) → safe (each f l) Q s.
Proof.
  intros HI Hf HQ. apply (safe_fold _ _ _ (λ _ _ s, I s)); [done| |by intros []].
  intros x l' [] s' HI' Hin. by apply Hf.
Qed.
End monitor.

(** ** What a command never does *)

(** Every action the command can ask for, whatever the answers, is one of [P]. *)
Fixpoint only {E A} (P : ∀ X, E X → Prop) (p : cmd E A) : Prop :=
  match p with
  | Return _ => True
  | Do e k => P _ e ∧ ∀ x, only P (k x)
  end.
Section only.
Context {E : Type → Type} (P : ∀ X, E X → Prop).
Lemma only_bind {A B} (p : cmd E A) (f : A → cmd E B) :
  only P p → (∀ a, only P (f a)) → only P (p ≫= f).
Proof. intros Hp Hf. induction p as [[a|e]|X e k IH]; [apply Hf|done|]. split; [apply Hp|]. intros x. apply IH, Hp. Qed.
Lemma only_fmap {A B} (p : cmd E A) (f : A → B) : only P p → only P (f <$> p).
Proof. intros Hp. by apply (only_bind p (λ a, Return (Ok (f a)))). Qed.
Lemma only_act {X} (e : E X) : P _ e → only P (act e).
Proof. by split. Qed.
Lemma only_try {A} (e : E (result string A)) : P _ e → only P (try e).
Proof. by split. Qed.
Lemma only_fold {A B} (f : A → B → cmd E A) a l :
  (∀ a x, x ∈ l → only P (f a x)) → only P (fold_cmd f a l).
Proof.
  revert a. induction l as [|x l IH]; intros a Hf; [done|]. simpl.
  apply only_bind; [apply Hf; left|]. intros a'. apply IH. intros b y Hy. apply Hf. by right.
Qed.
Lemma only_each {B} (f : B → cmd E unit) l : (∀ x, x ∈ l → only P (f x)) → only P (each f l).
Proof. intros Hf. apply only_fold. intros _ x. apply Hf. Qed.
Lemma only_when b (p : cmd E unit) : only P p → only P (when b p).
Proof. by destruct b. Qed.
Lemma only_mono (P' : ∀ X, E X → Prop) {A} (p : cmd E A) :
  (∀ X (e : E X), P X e → P' X e) → only P p → only P' p.
Proof. intros HP. induction p as [r|X e k IH]; [done|]. intros [? ?]. split; [by apply HP|]. intros x. by apply IH. Qed.
(** What every one of these actions keeps, the command keeps. *)
Context {S : Type} (mon : S → ∀ X, E X → X → option S).
Lemma only_safe (I : S → Prop) {A} (p : cmd E A) (Q : result Stop A → S → Prop) s :
  (∀ X (e : E X) x s, P X e → I s → ∃ s', mon s X e x = Some s' ∧ I s') →
  only P p → I s → (∀ r s', I s' → Q r s') → safe mon p Q s.
Proof.
  intros HP Hp HI HQ. revert s HI. induction p as [r|X e k IH]; intros s HI; [by apply HQ|].
  intros x. destruct (HP X e x s) as (s' & Hm & HI'); [apply Hp|done|].
  exists s'. split; [done|]. by apply IH; [apply Hp|].
Qed.
Lemma safe_after (I : S → Prop) {A B} (p : cmd E A) (f : A → cmd E B) (Q : result Stop B → S → Prop) s :
  (∀ X (e : E X) x s, P X e → I s → ∃ s', mon s X e x = Some s' ∧ I s') →
  only P p → I s → (∀ a s', I s' → safe mon (f a) Q s') → (∀ e s', I s' → Q (Err e) s') →
  safe mon (p ≫= f) Q s.
Proof. intros HP Hp HI Hf HQ. apply watch_bind. apply (only_safe I); [done..|]. intros [a|e]; auto. Qed.
End only.
(** What holds of the result of a command, whatever the answers. *)
Fixpoint returns {E A} (φ : A → Prop) (p : cmd E A) : Prop :=
  match p with
  | Return (Ok a) => φ a
  | Return (Err _) => True
  | Do e k => ∀ x, returns φ (k x)
  end.
Lemma returns_any {E A} (p : cmd E A) : returns (λ _, True) p.
Proof. by induction p as [[a|e]|X e k IH]. Qed.
Lemma returns_mono {E A} (φ ψ : A → Prop) (p : cmd E A) : (∀ a, φ a → ψ a) → returns φ p → returns ψ p.
Proof. intros H. induction p as [[a|e]|X e k IH]; simpl; auto. Qed.
Lemma returns_bind {E A B} (ψ : A → Prop) (φ : B → Prop) (p : cmd E A) (f : A → cmd E B) :
  returns ψ p → (∀ a, ψ a → returns φ (f a)) → returns φ (p ≫= f).
Proof. intros Hp Hf. induction p as [[a|e]|X e k IH]; [by apply Hf|done|]. intros x. apply IH, Hp. Qed.
Lemma returns_after {E A B} (φ : B → Prop) (p : cmd E A) (f : A → cmd E B) :
  (∀ a, returns φ (f a)) → returns φ (p ≫= f).
Proof. intros Hf. apply (returns_bind (λ _, True)); [apply returns_any|auto]. Qed.
Lemma safe_returns {E S A} (mon : S → ∀ X, E X → X → option S) (φ : A → Prop) (p : cmd E A)
    (Q : result Stop A → S → Prop) s :
  returns φ p → safe mon p Q s →
  safe mon p (λ r s', Q r s' ∧ match r with Ok a => φ a | Err _ => True end) s.
Proof.
  revert s. induction p as [[a|e]|X e k IH]; intros s Hr Hs; [done..|]. intros x.
  destruct (Hs x) as (s' & ? & ?). exists s'. split; [done|]. by apply IH.
Qed.
(** The commands here are trees of binds, tests and calls; this takes them apart. *)
Ltac only_step :=
  lazymatch goal with
  | |- only _ (mbind _ _) => apply only_bind
  | |- only _ (fmap _ _) => apply only_fmap
  | |- only _ (act _) => apply only_act
  | |- only _ (try _) => apply only_try
  | |- only _ (each _ _) => apply only_each
  | |- only _ (fold_cmd _ _ _) => apply only_fold
  | |- only _ (when _ _) => apply only_when
  | |- only _ (mret _) => exact I
  | |- only _ (bail _) => exact I
  | |- only _ (exit_with _) => exact I
  | |- only _ (lift _) => exact I
  | |- only _ (need _ _) => exact I
  | |- only _ (demand _ _) => exact I
  | |- only _ (match ?x with _ => _ end) => destruct x
  | |- ∀ _, _ => intro
  | |- only _ (let _ := _ in _) => cbv zeta
  end.
Ltac only_tac := repeat only_step; try done.

(** ** Commands on other actions *)

Fixpoint embed {E F A} (f : ∀ X, E X → F X) (p : cmd E A) : cmd F A :=
  match p with
  | Return r => Return r
  | Do e k => Do (f _ e) (λ x, embed f (k x))
  end.
Lemma only_embed {E F A} (f : ∀ X, E X → F X) (P : ∀ X, E X → Prop) (Q : ∀ X, F X → Prop) (p : cmd E A) :
  (∀ X e, P X e → Q X (f X e)) → only P p → only Q (embed f p).
Proof. intros H. induction p as [r|X e k IH]; [done|]. intros [? ?]. split; [by apply H|]. intros x. by apply IH. Qed.
Lemma safe_embed {E F S A} (f : ∀ X, E X → F X) (mon : S → ∀ X, E X → X → option S)
    (mon' : S → ∀ X, F X → X → option S) (p : cmd E A) Q s :
  (∀ s X e x, mon' s X (f X e) x = mon s X e x) → safe mon p Q s → safe mon' (embed f p) Q s.
Proof.
  intros H. revert s. induction p as [r|X e k IH]; intros s Hs; [done|]. intros x.
  destruct (Hs x) as (s' & Hm & Hs'). exists s'. rewrite H. split; [done|]. by apply IH.
Qed.
Lemma returns_embed {E F A} (f : ∀ X, E X → F X) (φ : A → Prop) (p : cmd E A) :
  returns φ p → returns φ (embed f p).
Proof. induction p as [r|X e k IH]; [done|]. intros Hp x. by apply IH. Qed.
