(* ===== verification/Install.v ===== *)
(** * oath-cli: installing ([main.rs], [prompts.rs])

    [oath install], [ci], [update], [remove], the install of a workspace and of global
    packages, as commands on the other components: planning, the registry, the store, the
    linker, the lockfile, the shell. What those do is modelled in their files; here it is
    in which order and under which conditions they are called. *)
From S2P Require Import Store Core Report Versions Tarball Git Workspace Placement Cli Command.

(** ** Actions *)

Record PlacementRequest := {
  req_add : list string; req_rm : list string; req_update : option Json; save_type : option string }.
Definition default_request : PlacementRequest :=
  {| req_add := []; req_rm := []; req_update := None; save_type := None |}.
Definition request_add (specs : list string) (dev : bool) : PlacementRequest :=
  {| req_add := specs; req_rm := []; req_update := None;
     save_type := if dev then Some "dev" else None |}.
Definition request_remove (names : list string) : PlacementRequest :=
  {| req_add := []; req_rm := names; req_update := None; save_type := None |}.
Definition request_update (names : list string) : PlacementRequest :=
  {| req_add := []; req_rm := [];
     req_update := Some (if decide (names = []) then JBool true else JArray (JString <$> names));
     save_type := None |}.

(** What commands ask of the world. Paths are relative to the project unless they begin
    with a slash; a link that leads nowhere does not exist, but is there. *)
Inductive Act : Type → Type :=
  (* files, the environment, the clock, the terminal *)
  | Exists (path : string) : Act bool
  | IsThere (path : string) : Act bool
  | IsDir (path : string) : Act bool
  | IsFile (path : string) : Act bool
  | ReadText (path : string) : Act (result string string)
  | WriteText (path text : string) : Act (result string unit)
  | ReadJson (path : string) : Act (result string Json)
  | WriteJson (path : string) (j : Json) : Act (result string unit)
  | CreateDirs (path : string) : Act (result string unit)
  | RemovePath (path : string) : Act (result string unit)
  | MakeExecutable (path : string) : Act unit
  | Symlink (target path : string) : Act (result string unit)
  | GetEnv (name : string) : Act (option string)
  | Home : Act (option string)
  | TempDir : Act string
  | CurrentDir : Act (result string string)
  | CanonicalDir : Act (result string string)
  | Now : Act (option Z)
  | Answers : Act (list string)
  | Sh (dir command : string) (env : list (string * string)) : Act (option Z)
  (* workspaces, plans, the graph and the lockfile *)
  | DetectWorkspace (cwd : string) : Act (option WorkspaceRoot)
  | Plan (dir : string) (request : PlacementRequest) : Act (result string PlacementPlan)
  | ReadPlan (path : string) : Act (result string PlacementPlan)
  | WritePlan (path : string) (plan : PlacementPlan) : Act (result string unit)
  | ResolveGraph (deps dev_deps : gmap string string) : Act (result string DepGraph)
  | ImportNpm (path : string) : Act (result string DepGraph)
  | ReadLock (path : string) : Act (result string Lockfile)
  | WriteLock (path : string) (l : Lockfile) : Act (result string unit)
  (* the registry *)
  | NewClient : Act (result string unit)
  | FetchPackument (name : string) : Act (result string Packument)
  | FetchFull (name : string) : Act (result string Json)
  (* the store, of a package with its URL and integrity *)
  | OpenStore : Act (result string string)
  | VerifyVariant (name version url : string) (integrity : option string) : Act PackageVerification
  | StorePackage (name version url : string) (integrity : option string) (tarball : nat) :
      Act (result string unit)
  (* tarballs, each in a temporary directory of its own *)
  | ReadLimits : Act (result string TarballLimits)
  | NextDone (pending : nat) : Act nat
  | FetchTarball (url : string) (integrity : option string) (limits : TarballLimits) (tarball : nat) :
      Act (result string Z)
  | FileUrlPath (url : string) : Act (result string string)
  | PackLocal (path : string) : Act (result string Z)
  | WritePacked (path : string) (tarball : nat) : Act (result string unit)
  | FileLength (path : string) : Act (result string Z)
  | CopyFile (path : string) (tarball : nat) : Act (result string unit)
  | FetchGit (spec : GitSpec) : Act (result string Z)
  | CacheGit (path : string) : Act (result string unit)
  | Extract (limits : TarballLimits) (tarball : nat) : Act (result string unit)
  (* linking *)
  | LinkPlan (plan : PlacementPlan) (dir : string) : Act (result string nat)
  | LinkPlanClean (plan : PlacementPlan) (dir : string) : Act (result string nat)
  | LinkAll (g : DepGraph) (dir : string) : Act (result string nat)
  (* judging and recording *)
  | LoadPolicy : Act Policy.OathPolicy
  | Scan (name version dir : string) : Act (result string AnalysisReport)
  | LogInstall (project : string) (entries : list (string * string * option string)) : Act unit.
Notation command := (cmd Act).

(** ** Manifests as JSON *)

(** Insertion in a serde_json map, and [value[key] = v], which makes an object of null and
    panics on anything else. *)
Fixpoint obj_insert (k : string) (v : Json) (m : list (string * Json)) : list (string * Json) :=
  match m with
  | [] => [(k, v)]
  | (k', v') :: m' =>
      if decide (k = k') then (k, v) :: m'
      else if decide (String.le k k') then (k, v) :: m else (k', v') :: obj_insert k v m'
  end.
Definition index_set (k : string) (v : Json) (j : Json) : option Json :=
  match j with
  | JObject m => Some (JObject (obj_insert k v m))
  | JNull => Some (JObject [(k, v)])
  | _ => None
  end.
(** [value[k][k'] = v] *)
Definition index_set2 (k k' : string) (v : Json) (j : Json) : option Json :=
  inner ← index_set k' v (default JNull (jget k j)); index_set k inner j.
Definition panic_unless {A} (o : option A) : command A :=
  match o with Some a => mret a | None => exit_with 101 end.
Definition read_package_json : command Json := try (ReadJson "package.json").
Definition string_field (k dflt : string) (pkg : Json) : string := default dflt (jget k pkg ≫= as_str).
Definition dep_key (dev : bool) : string := if dev then "devDependencies" else "dependencies".
Definition npm_package_env (pkg : Json) : list (string * string) :=
  from_option (omap (λ '(k, v),
    pair ("npm_package_" +:+ k) <$>
      match v with
      | JString s => Some s
      | JNumber n => Some n
      | JBool b => Some (if b : bool then "true" else "false")
      | _ => None
      end)) [] (object_of pkg).

(** ** What is missing: registry metadata, store entries *)

Definition pair_le (a b : string * string) : Prop :=
  (a.1 ≠ b.1 ∧ String.le a.1 b.1) ∨ (a.1 = b.1 ∧ String.le a.2 b.2).
#[export] Instance pair_le_dec : RelDecision pair_le.
Proof. intros a b. unfold pair_le. apply _. Defined.
Definition without_metadata (plan : PlacementPlan) : list (string * string) :=
  dedup (stable_sort pair_le ((λ n, (node_name n, node_version n)) <$>
    filter (λ n, link n = false ∧ node_resolved n = None) (plan_nodes plan))).
Definition fill_metadata (found : gmap (string * string) (string * option string)) (n : PlacementNode) :
    PlacementNode :=
  match found !! (node_name n, node_version n) with
  | None => n
  | Some (url, integ) => {|
      location := location n; place_name := place_name n; node_name := node_name n;
      node_version := node_version n;
      node_resolved := Some (default url (node_resolved n));
      node_integrity := match node_integrity n with Some i => Some i | None => integ end;
      node_dev := node_dev n; node_optional := node_optional n;
      node_has_install_script := node_has_install_script n; reuse_existing := reuse_existing n;
      link := link n; target := target n; edges := edges n |}
  end.
Definition with_nodes (plan : PlacementPlan) (ns : list PlacementNode) : PlacementPlan := {|
  schema_version := schema_version plan; planner := planner plan; project := project plan;
  plan_nodes := ns; removed_locations := removed_locations plan; invalid_edges := invalid_edges plan |}.
Definition hydrate_missing_registry_metadata (plan : PlacementPlan) : command PlacementPlan :=
  if decide (without_metadata plan = []) then mret plan
  else
    _ ← try NewClient;
    found ← fold_cmd (λ found nv,
      p ← try (FetchPackument nv.1);
      info ← need (Versions.versions p !! nv.2) "registry has no metadata";
      mret (<[nv := (tarball (dist info), dist_integrity (dist info))]> found)) ∅ (without_metadata plan);
    mret (with_nodes plan (fill_metadata found <$> plan_nodes plan)).

(** The package of a node, by what names its store entry. *)
Definition identity_of (n : DepNode) : string * string * string * option string :=
  (name n, version n, resolved n, integrity n).
Definition verify_node (n : DepNode) : Act PackageVerification :=
  VerifyVariant (name n) (version n) (resolved n) (integrity n).
Section install.
Context {SV : Sha256Hex} {HI : HashIter}.

(** [graph.nodes.values()] *)
Definition graph_nodes (g : DepGraph) : list DepNode := (hash_iter (nodes g)).*2.
Definition missing_step (acc : list DepNode * nat) (n : DepNode) : command (list DepNode * nat) :=
  v ← act (verify_node n);
  mret match v with
       | Verified _ => (acc.1, S acc.2)
       | _ => if decide (identity_of n ∈ identity_of <$> acc.1) then acc else (acc.1 ++ [n], acc.2)
       end.
Definition missing_store_nodes (g : DepGraph) : command (list DepNode * nat) :=
  fold_cmd missing_step ([], 0) (graph_nodes g).
Fixpoint all_verified (l : list (string * LockEntry)) : command bool :=
  match l with
  | [] => mret true
  | (k, e) :: l =>
      v ← act (VerifyVariant (package_name_for_key e k) (entry_version e) (entry_resolved e) (entry_integrity e));
      if is_verified v then all_verified l else mret false
  end.
Definition lockfile_all_cached (l : Lockfile) : command bool := all_verified (hash_iter (packages l)).

(** ** Downloads *)

Definition file_dependency_path (url : string) : command (option string) :=
  if negb (starts_with "file:" url) then mret None
  else
    path ← try (FileUrlPath url);
    there ← act (Exists path);
    _ ← demand there "local dependency does not exist";
    mret (Some path).
Definition materialize_file_dependency (source : string) (tarball : nat) (limits : TarballLimits) : command Z :=
  dir ← act (IsDir source);
  if dir : bool then
    len ← try (PackLocal source);
    _ ← lift (check_archive_size limits len);
    _ ← try (WritePacked source tarball);
    mret len
  else
    file ← act (IsFile source);
    _ ← demand file "unsupported local dependency";
    bytes ← try (FileLength source);
    _ ← lift (check_archive_size limits bytes);
    _ ← try (CopyFile source tarball);
    mret bytes.
Definition git_cache_path (name version url : string) : command string :=
  home ← act Home;
  dir ← match home with Some dir => mret dir | None => act TempDir end;
  mret (pjoin dir (".oath/git-cache/" +:+ git_cache_file_name name version url)).
Definition fetch_git (url cache_file : string) (limits : TarballLimits) : command unit :=
  spec ← need (parse_git_spec url) "invalid git dependency URL";
  len ← try (FetchGit spec);
  _ ← lift (check_archive_size limits len);
  try (CacheGit cache_file).
Definition copy_cached (cache_file : string) (tarball : nat) (limits : TarballLimits) : command Z :=
  len ← try (FileLength cache_file);
  _ ← lift (check_archive_size limits len);
  _ ← try (CopyFile cache_file tarball);
  mret len.
(** The bytes of a package, in the temporary file of its task; [on_miss] is what happens
    when a git dependency is not in the cache. *)
Definition tarball_bytes (on_miss : string → command unit) (limits : TarballLimits) (n : DepNode) (tarball : nat) :
    command Z :=
  local ← file_dependency_path (resolved n);
  match local with
  | Some path => materialize_file_dependency path tarball limits
  | None =>
      if is_git_spec (resolved n) then
        cache_file ← git_cache_path (name n) (version n) (resolved n);
        cached ← act (Exists cache_file);
        _ ← when (negb cached) (on_miss cache_file);
        copy_cached cache_file tarball limits
      else try (FetchTarball (resolved n) (integrity n) limits tarball)
  end.
Definition download_tarball_to_temp (limits : TarballLimits) (n : DepNode) (tarball : nat) : command Z :=
  tarball_bytes (λ cache_file, fetch_git (resolved n) cache_file limits) limits n tarball.
Definition store_node (n : DepNode) (tarball : nat) : command unit :=
  try (StorePackage (name n) (version n) (resolved n) (integrity n) tarball).
Definition extract_and_store (limits : TarballLimits) (n : DepNode) (tarball : nat) : command unit :=
  _ ← try (Extract limits tarball);
  store_node n tarball.

(** [JoinSet::join_next]: any of the tasks that are left is the next to be done. What a
    task does is shown in one piece when it is joined: a task has its own temporary
    directory, and tasks of one git dependency write the same bytes to the cache. *)
Fixpoint join_all (limits : TarballLimits) (tasks : nat) (pending : list (nat * DepNode)) (done : nat * Z) :
    command (nat * Z) :=
  match tasks, pending with
  | S tasks, first :: _ =>
      i ← act (NextDone (length pending));
      let '(t, n) := default first (pending !! i) in
      len ← download_tarball_to_temp limits n t;
      _ ← extract_and_store limits n t;
      join_all limits tasks (filter (λ p, p.1 ≠ t) pending) (S done.1, to_u64 (done.2 + len))
  | _, _ => mret done
  end.
Definition download_missing_nodes (to_download : list DepNode) : command (nat * Z) :=
  if decide (to_download = []) then mret (0, 0%Z)
  else
    limits ← try ReadLimits;
    join_all limits (length to_download) (imap pair to_download) (0, 0%Z).
Definition download_and_store_package (n : DepNode) : command Z :=
  limits ← try ReadLimits;
  len ← tarball_bytes (λ _, bail "git dep not in cache and no tarball URL available") limits n 0;
  _ ← extract_and_store limits n 0;
  mret len.

(** ** Scripts *)

Definition script_of (pkg : Json) (event : string) : option string :=
  scripts ← jget "scripts" pkg ≫= object_of;
  alist_get event scripts ≫= as_str.
Definition bin_first_path : command string :=
  path ← act (GetEnv "PATH");
  mret ("./node_modules/.bin:" +:+ default "" path).
(** A script of the project itself; how it exits is only printed. *)
Definition run_root_lifecycle (event : string) : command unit :=
  read ← act (ReadJson "package.json");
  match read with
  | Err _ => mret tt
  | Ok pkg =>
      match (jget "scripts" pkg ≫= jget event) ≫= as_str with
      | None => mret tt
      | Some script =>
          path ← bin_first_path;
          _ ← act (Sh "." script ([("PATH", path); ("npm_lifecycle_event", event);
                                   ("npm_lifecycle_script", script)] ++ npm_package_env pkg));
          mret tt
      end
  end.
Definition install_hooks : list string := ["preinstall"; "install"; "postinstall"].
Definition detect_install_script (pkg_dir : string) : command (option string) :=
  read ← act (ReadJson (pjoin pkg_dir "package.json"));
  mret match read with Ok value => first_some (script_of value) install_hooks | Err _ => None end.
Definition run_install_script (pkg_dir : string) : command unit :=
  read ← act (ReadJson (pjoin pkg_dir "package.json"));
  match read with
  | Err _ => mret tt
  | Ok value =>
      each (λ hook,
        match script_of value hook with
        | Some script =>
            _ ← act (Sh pkg_dir script (("npm_lifecycle_event", hook) :: npm_package_env value)); mret tt
        | None => mret tt
        end) install_hooks
  end.

(** [prompts.rs] *)
Inductive ScriptDecision := Allow | Always | Deny.
Definition quoted (s : string) : string := String dquote (s +:+ String dquote "").
Definition newline_str : string := String newline "".
Definition allow_line (package_name : string) : string :=
  "allow_install_scripts = [" +:+ quoted package_name +:+ "]" +:+ newline_str.
(** The new text of oath-policy.toml, if it changes. *)
Definition amended_policy (existing package_name : string) : option string :=
  if contains (quoted package_name) existing then None
  else Some
    (if decide (existing = "") then
       "# oath-policy.toml -- auto-generated" +:+ newline_str +:+ allow_line package_name
     else
       match find_str "allow_install_scripts" existing with
       | Some start =>
           match find_str "]" (drop_str start existing) with
           | Some bracket =>
               let trimmed := trim_end (take_str (start + bracket) existing) in
               trimmed +:+ (if ends_with "[" trimmed then "" else ", ") +:+ quoted package_name
                 +:+ drop_str (start + bracket) existing
           | None => existing +:+ newline_str +:+ "# added by oath" +:+ newline_str +:+ allow_line package_name
           end
       | None => existing +:+ newline_str +:+ allow_line package_name
       end).
Definition append_to_policy_allowlist (package_name : string) : command unit :=
  read ← act (ReadText "oath-policy.toml");
  let existing := match read with Ok t => t | Err _ => "" end in
  match amended_policy existing package_name with
  | None => mret tt
  | Some text => _ ← act (WriteText "oath-policy.toml" text); mret tt
  end.
(** The loop over the lines that are typed, until one answers; the end of the input denies. *)
Fixpoint read_answer (lines : list string) : ScriptDecision :=
  match lines with
  | [] => Deny
  | l :: lines =>
      let answer := to_ascii_lowercase (trim l) in
      if decide (answer = "y" ∨ answer = "yes") then Allow
      else if decide (answer = "" ∨ answer = "n" ∨ answer = "no") then Deny
      else if decide (answer = "a" ∨ answer = "always") then Always
      else read_answer lines
  end.
Definition prompt_install_script (package_name : string) (yes_flag : bool) (policy : Policy.OathPolicy) :
    command ScriptDecision :=
  if Policy.allows_install_script policy package_name then mret Allow
  else if yes_flag then mret Allow
  else
    typed ← act Answers;
    _ ← match read_answer typed with
        | Always => append_to_policy_allowlist package_name
        | _ => mret tt
        end;
    mret (read_answer typed).

(** ** [cmd_install] *)

Record InstallOptions := {
  o_packages : list string; o_dev : bool; o_dry_run : bool; o_audit : bool; o_yes : bool;
  o_run_scripts : bool; o_ignore_scripts : bool; o_global : bool; o_frozen : bool;
  o_min_age : option string }.
(** What the manifest says: with packages to add, it is [pending] until the end. *)
Record Project := {
  pending : option Json; added : list string;
  pr_deps : gmap string string; pr_dev_deps : gmap string string;
  pr_name : string; pr_version : string }.
Definition project_of (dflt : string) (pkg : Json) (pending : option Json) (added : list string) : Project := {|
  pending := pending; added := added;
  pr_deps := extract_deps pkg "dependencies"; pr_dev_deps := extract_deps pkg "devDependencies";
  pr_name := string_field "name" dflt pkg; pr_version := string_field "version" "0.0.0" pkg |}.
Definition default_manifest : Json :=
  JObject [("name", JString "project"); ("version", JString "1.0.0")].
Definition add_requests (dev : bool) (pkg : Json) (packages : list string) : option Json :=
  pkg ← match jget (dep_key dev) pkg with
        | None => index_set (dep_key dev) (JObject []) pkg
        | Some _ => Some pkg
        end;
  foldl (λ pkg spec,
    pkg ← pkg;
    let '(n, v) := parse_package_spec spec in
    index_set2 (dep_key dev) n (JString v) pkg) (Some pkg) packages.
Definition install_project (o : InstallOptions) : command Project :=
  if decide (o_packages o = []) then
    pkg ← read_package_json;
    mret (project_of "unnamed" pkg None [])
  else
    there ← act (Exists "package.json");
    pkg ← (if there : bool then read_package_json else mret default_manifest);
    pkg ← panic_unless (add_requests (o_dev o) pkg (o_packages o));
    mret (project_of "project" pkg (Some pkg) ((λ s, (parse_package_spec s).1) <$> o_packages o)).
Definition trusted_list (pkg : Json) : list string :=
  match jget "trustedDependencies" pkg with Some (JArray l) => omap as_str l | _ => [] end.
Definition trusted_deps (p : Project) : command (list string) :=
  match pending p with
  | Some pkg => mret (trusted_list pkg)
  | None =>
      read ← act (ReadJson "package.json");
      mret (trusted_list match read with Ok pkg => pkg | Err _ => JNull end)
  end.
Definition plan_dir (dir : string) (request : PlacementRequest) : command PlacementPlan :=
  plan ← try (Plan dir request);
  hydrate_missing_registry_metadata plan.
Definition resolve_graph (p : Project) : command DepGraph :=
  _ ← try NewClient;
  try (ResolveGraph (pr_deps p) (pr_dev_deps p)).
Definition legacy_graph (o : InstallOptions) (p : Project) : command DepGraph :=
  locked ← act (Exists "oath-lock.json");
  if locked && bool_decide (o_packages o = []) then
    l ← try (ReadLock "oath-lock.json");
    _ ← try OpenStore;
    all_cached ← lockfile_all_cached l;
    if matches_manifest l (pr_deps p) (pr_dev_deps p) && all_cached then mret (to_graph l)
    else resolve_graph p
  else if decide (o_packages o = []) then
    npm_lock ← act (Exists "package-lock.json");
    if npm_lock : bool then try (ImportNpm "package-lock.json") else resolve_graph p
  else resolve_graph p.
Definition install_graph (o : InstallOptions) (cwd : string) (p : Project) :
    command (option PlacementPlan * DepGraph) :=
  resolver ← act (GetEnv "OATH_RESOLVER");
  if decide (resolver = Some "legacy") then
    g ← legacy_graph o p; mret (None, g)
  else
    plan ← plan_dir cwd (if decide (o_packages o = []) then default_request
                         else request_add (o_packages o) (o_dev o));
    g ← lift (to_dep_graph plan);
    mret (Some plan, g).
(** The specifications written to the manifest and to the lockfile, for what is added. *)
Definition settle (dev : bool) (g : DepGraph)
    (acc : option (Json * gmap string string * gmap string string)) (n : string) :
    option (Json * gmap string string * gmap string string) :=
  '(pkg, deps, dev_deps) ← acc;
  let requested := default "latest" ((jget (dep_key dev) pkg ≫= jget n) ≫= as_str) in
  let final := dependency_manifest_spec n requested g in
  pkg ← index_set2 (dep_key dev) n (JString final) pkg;
  Some (pkg, (if dev then deps else <[n := final]> deps), (if dev then <[n := final]> dev_deps else dev_deps)).
Definition settled (o : InstallOptions) (p : Project) (g : DepGraph) :
    option (option Json * gmap string string * gmap string string) :=
  match pending p with
  | None => Some (None, pr_deps p, pr_dev_deps p)
  | Some pkg =>
      '(pkg, deps, dev_deps) ← foldl (settle (o_dev o) g) (Some (pkg, pr_deps p, pr_dev_deps p)) (added p);
      Some (Some pkg, deps, dev_deps)
  end.
Definition check_frozen (frozen : bool) (l : Lockfile) : command unit :=
  when frozen (
    existing ← try (ReadLock "oath-lock.json");
    demand (lockfiles_match_for_frozen existing l) "lockfile would be modified, refusing (--frozen-lockfile)").

(** [--min-age]: the age of a release in seconds, if the registry gives it. *)
Definition from_registry (n : DepNode) : bool :=
  negb (starts_with "git+" (resolved n) || starts_with "github:" (resolved n)
        || starts_with "gitlab:" (resolved n) || starts_with "bitbucket:" (resolved n)).
Definition release_age (n : DepNode) : command (option Z) :=
  full ← act (FetchFull (name n));
  match (match full with Ok v => jget "time" v ≫= jget (version n) | Err _ => None end) ≫= as_str with
  | None => mret None
  | Some iso =>
      now ← act Now;
      match parse_iso_age_secs now iso with
      | Ok age => mret (Some age)
      | Err Absent => mret None
      | Err Panic => bail "task panicked"
      end
  end.
Definition too_recent (limit : Z) (found : list DepNode) (n : DepNode) : command (list DepNode) :=
  if negb (from_registry n) then mret found
  else
    age ← release_age n;
    mret match age with Some a => if (a <? limit)%Z then found ++ [n] else found | None => found end.
Definition check_min_age (min_age : option string) (to_download : list DepNode) : command unit :=
  match min_age ≫= parse_duration_secs with
  | Some limit =>
      if decide (to_download = []) then mret tt
      else
        violations ← fold_cmd (too_recent limit) [] to_download;
        demand (bool_decide (violations = [])) "packages newer than the minimum release age"
  | None => mret tt
  end.

(** Linking, and what is written after it. *)
Definition plan_path (dir : string) : string := pjoin dir ".oath/placement-plan.json".
Definition link (plan : option PlacementPlan) (g : DepGraph) (dir : string) : command unit :=
  match plan with
  | Some plan =>
      _ ← try (LinkPlan plan dir);
      try (WritePlan (plan_path dir) plan)
  | None => _ ← try (LinkAll g dir); mret tt
  end.
Definition write_results (frozen : bool) (l : Lockfile) (manifest : option Json) : command unit :=
  _ ← when (negb frozen) (try (WriteLock "oath-lock.json" l));
  match manifest with Some pkg => try (WriteJson "package.json" pkg) | None => mret tt end.
Context {SL : StoreLib}.
Definition store_dir (root : string) (n : DepNode) : string :=
  pjoin root (RustStr.join "/" (package_dir_for (name n) (version n) (Some (resolved n)) (integrity n))).
(** The install script of a package; the answer tells whether it was blocked for want of
    trust. *)
Definition consider_script (o : InstallOptions) (trusted : list string) (policy : Policy.OathPolicy)
    (root cwd : string) (n : DepNode) : command bool :=
  if o_ignore_scripts o || negb (has_install_script n) then mret false
  else if Policy.is_package_banned policy (name n) then mret false
  else
    let linked := pjoin cwd ("node_modules/" +:+ install_name n) in
    is_linked ← act (Exists linked);
    let pkg_dir := if is_linked : bool then linked else store_dir root n in
    if bool_decide (name n ∈ trusted) || o_yes o then
      there ← act (Exists pkg_dir);
      _ ← when there (run_install_script pkg_dir);
      mret false
    else if o_run_scripts o then
      there ← act (Exists pkg_dir);
      if negb there then mret false
      else
        scanned ← act (Scan (name n) (version n) pkg_dir);
        match scanned with
        | Err _ => mret false
        | Ok _ =>
            _ ← detect_install_script pkg_dir;
            decision ← prompt_install_script (name n) false policy;
            _ ← match decision with Deny => mret tt | _ => run_install_script pkg_dir end;
            mret false
        end
    else mret true.
Definition scripts (o : InstallOptions) (trusted : list string) (root cwd : string) (g : DepGraph) : command nat :=
  policy ← act LoadPolicy;
  fold_cmd (λ blocked n,
    b ← consider_script o trusted policy root cwd n;
    mret (if b : bool then S blocked else blocked)) 0 (graph_nodes g).
(** The reports that are printed: of packages at critical, and at high risk. *)
Definition scan_node (root : string) (found : list DepNode * list DepNode) (n : DepNode) :
    command (list DepNode * list DepNode) :=
  there ← act (Exists (store_dir root n));
  if negb there then mret found
  else
    scanned ← act (Scan (name n) (version n) (store_dir root n));
    mret match scanned with
         | Ok report =>
             match overall_risk report with
             | Critical => (found.1 ++ [n], found.2)
             | High => (found.1, found.2 ++ [n])
             | _ => found
             end
         | Err _ => found
         end.
Definition audit (root : string) (g : DepGraph) : command (list DepNode * list DepNode) :=
  fold_cmd (scan_node root) ([], []) (graph_nodes g).
Definition log_entries (g : DepGraph) : list (string * string * option string) :=
  (λ n, (name n, version n, integrity n)) <$> graph_nodes g.

(** The plan of what to install, up to the dry run. *)
Record Planned := {
  pl_plan : option PlacementPlan; pl_graph : DepGraph; pl_lock : Lockfile;
  pl_manifest : option Json; pl_trusted : list string }.
Definition plan_install (o : InstallOptions) (cwd : string) : command Planned :=
  p ← install_project o;
  trusted ← trusted_deps p;
  pg ← install_graph o cwd p;
  s ← panic_unless (settled o p pg.2);
  let '(manifest, deps, dev_deps) := s in
  let l := from_graph_with_manifest pg.2 (pr_name p) (pr_version p) deps dev_deps in
  _ ← check_frozen (o_frozen o) l;
  mret {| pl_plan := pg.1; pl_graph := pg.2; pl_lock := l; pl_manifest := manifest; pl_trusted := trusted |}.
Definition apply_install (o : InstallOptions) (p : Planned) : command unit :=
  let own := bool_decide (o_packages o = []) && negb (o_ignore_scripts o) in
  _ ← when own (run_root_lifecycle "preinstall");
  root ← try OpenStore;
  _ ← try NewClient;
  m ← missing_store_nodes (pl_graph p);
  _ ← check_min_age (o_min_age o) m.1;
  done ← download_missing_nodes m.1;
  cwd ← try CurrentDir;
  _ ← link (pl_plan p) (pl_graph p) cwd;
  _ ← write_results (o_frozen o) (pl_lock p) (pl_manifest p);
  _ ← scripts o (pl_trusted p) root cwd (pl_graph p);
  _ ← (if o_audit o && (0 <? done.1) then audit root (pl_graph p) else mret ([], []));
  _ ← when own (each run_root_lifecycle ["install"; "postinstall"; "prepare"]);
  dir ← act CurrentDir;
  act (LogInstall (match dir with Ok d => d | Err _ => "" end) (log_entries (pl_graph p))).
Context {MC : Machine}.
(** The install of a workspace. *)
Definition cmd_install_workspace (ws : WorkspaceRoot) (dry_run : bool) : command unit :=
  let deps := collect_external_deps ws true in
  if decide (deps.1 = ∅ ∧ deps.2 = []) then mret tt
  else if dry_run then mret tt
  else
    plan ← plan_dir (w_root ws) default_request;
    g ← lift (to_dep_graph plan);
    _ ← try OpenStore;
    _ ← try NewClient;
    m ← missing_store_nodes g;
    _ ← download_missing_nodes m.1;
    _ ← link (Some plan) g (w_root ws);
    _ ← try (WriteLock (pjoin (w_root ws) "oath-lock.json")
                       (from_graph_with_manifest g "workspace" "0.0.0" deps.1 ∅));
    act (LogInstall (w_root ws) (log_entries g)).

(** Global packages: the directories, the manifest, and the links to their binaries. *)
Definition global_manifest (deps : gmap string string) : Json :=
  JObject [("dependencies", JObject (prod_map id JString <$> btree_iter deps)); ("name", JString "oath-global");
           ("private", JBool true); ("version", JString "0.0.0")].
Definition global_deps (packages : list string) : gmap string string :=
  foldl (λ deps spec, let '(n, v) := parse_package_spec spec in <[n := v]> deps) ∅ packages.
Definition link_bin (nm_dir bin_dir pkg_name : string) (bin : string * list string) : command unit :=
  let rel := RustStr.join "/" bin.2 in
  let actual := pjoin (pjoin nm_dir pkg_name) rel in
  let link := pjoin bin_dir bin.1 in
  there ← act (Exists actual);
  _ ← when there (act (MakeExecutable actual));
  old ← act (IsThere link);
  _ ← when old (_ ← act (RemovePath link); mret tt);
  try (Symlink (pjoin (pjoin "../node_modules" pkg_name) rel) link).
Definition link_bins (nm_dir bin_dir : string) (g : DepGraph) (pkg_name : string) : command unit :=
  match filter (λ n, name n = pkg_name) (graph_nodes g) with
  | [] => mret tt
  | _ =>
      let pkg_json := pjoin (pjoin nm_dir pkg_name) "package.json" in
      dir ← act (Exists (pjoin nm_dir pkg_name));
      if negb dir then mret tt
      else
        file ← act (Exists pkg_json);
        if negb file then mret tt
        else
          j ← try (ReadJson pkg_json);
          each (link_bin nm_dir bin_dir pkg_name) (safe_bin_entries j pkg_name)
  end.
Definition cmd_install_global (packages : list string) (dry_run : bool) : command unit :=
  _ ← demand (bool_decide (packages ≠ [])) "please specify at least one package to install globally";
  home ← act Home;
  home ← need home "HOME or USERPROFILE not set";
  let global_dir := pjoin home ".oath/global" in
  let nm_dir := pjoin global_dir "node_modules" in
  let bin_dir := pjoin global_dir "bin" in
  if dry_run then mret tt
  else
    _ ← try (CreateDirs nm_dir);
    _ ← try (CreateDirs bin_dir);
    let deps := global_deps packages in
    _ ← try (WriteJson (pjoin global_dir "package.json") (global_manifest deps));
    plan ← plan_dir global_dir default_request;
    g ← lift (to_dep_graph plan);
    _ ← try OpenStore;
    _ ← try NewClient;
    m ← missing_store_nodes g;
    _ ← download_missing_nodes m.1;
    _ ← link (Some plan) g global_dir;
    each (link_bins nm_dir bin_dir g) (hash_iter deps).*1.

Definition cmd_install (o : InstallOptions) : command unit :=
  if o_global o then cmd_install_global (o_packages o) (o_dry_run o)
  else
    _ ← demand (negb (o_frozen o && bool_decide (o_packages o ≠ [])))
          "cannot add packages with --frozen-lockfile/--ci";
    _ ← when (o_frozen o) (
          there ← act (Exists "oath-lock.json");
          demand there "no lockfile found, run oath install first");
    cwd ← try CanonicalDir;
    ws ← act (DetectWorkspace cwd);
    match ws, o_packages o with
    | Some ws, [] => cmd_install_workspace ws (o_dry_run o)
    | _, _ =>
        p ← plan_install o cwd;
        if o_dry_run o then mret tt else apply_install o p
    end.
Definition add_options (package : string) (dev yes : bool) : InstallOptions := {|
  o_packages := [package]; o_dev := dev; o_dry_run := false; o_audit := true; o_yes := yes;
  o_run_scripts := false; o_ignore_scripts := false; o_global := false; o_frozen := false;
  o_min_age := None |}.
Definition cmd_add (package : string) (dev yes : bool) : command unit :=
  cmd_install (add_options package dev yes).

(** ** [cmd_ci], [cmd_update], [cmd_remove] *)

Definition cmd_ci : command unit :=
  there ← act (Exists "oath-lock.json");
  _ ← demand there "no lockfile found, run oath install first";
  pkg ← read_package_json;
  let deps := extract_deps pkg "dependencies" in
  let dev_deps := extract_deps pkg "devDependencies" in
  l ← try (ReadLock "oath-lock.json");
  _ ← demand (matches_manifest l deps dev_deps) "package.json does not match oath-lock.json";
  cwd ← try CanonicalDir;
  planned ← act (Exists (plan_path cwd));
  plan ← try (if planned : bool then ReadPlan (plan_path cwd) else Plan cwd default_request);
  plan ← hydrate_missing_registry_metadata plan;
  g ← lift (to_dep_graph plan);
  _ ← demand (lockfiles_match_for_frozen l
                (from_graph_with_manifest g (project_name l) (project_version l) deps dev_deps))
        "placement plan does not match oath-lock.json";
  _ ← try OpenStore;
  _ ← try NewClient;
  m ← missing_store_nodes g;
  _ ← download_missing_nodes m.1;
  _ ← try (LinkPlanClean plan cwd);
  _ ← try (WritePlan (plan_path cwd) plan);
  act (LogInstall cwd (log_entries g)).
(** What update and remove share: a plan that is downloaded, linked and written. *)
Definition carry_out (cwd : string) (request : PlacementRequest) : command DepGraph :=
  plan ← plan_dir cwd request;
  g ← lift (to_dep_graph plan);
  _ ← try OpenStore;
  _ ← try NewClient;
  m ← missing_store_nodes g;
  _ ← download_missing_nodes m.1;
  _ ← link (Some plan) g cwd;
  mret g.
Definition lock_of (dflt : string) (pkg : Json) (g : DepGraph) : Lockfile :=
  from_graph_with_manifest g (string_field "name" dflt pkg) (string_field "version" "0.0.0" pkg)
    (extract_deps pkg "dependencies") (extract_deps pkg "devDependencies").
Definition cmd_update (packages : list string) : command unit :=
  cwd ← try CanonicalDir;
  pkg ← read_package_json;
  g ← carry_out cwd (request_update ((λ s, (parse_package_spec s).1) <$> packages));
  try (WriteLock (pjoin cwd "oath-lock.json") (lock_of "project" pkg g)).

Definition without_field (k : string) (m : list (string * Json)) : list (string * Json) :=
  filter (λ e, e.1 ≠ k) m.
(** [pkg.get_mut(dep_key)..remove(name)]: whether it was there, and the manifest without. *)
Definition remove_dep (n : string) (acc : bool * Json) (dep_key : string) : bool * Json :=
  match acc.2, jget dep_key acc.2 with
  | JObject m, Some (JObject deps) =>
      if alist_get n deps
      then (true, JObject (obj_insert dep_key (JObject (without_field n deps)) m))
      else acc
  | _, _ => acc
  end.
Definition remove_package (acc : list string * Json) (spec : string) : list string * Json :=
  let n := (parse_package_spec spec).1 in
  let '(removed, pkg) := foldl (remove_dep n) (false, acc.2) ["dependencies"; "devDependencies"] in
  if removed : bool then (acc.1 ++ [n], pkg) else (acc.1, pkg).
Definition remove_last (pkg : Json) : command unit :=
  there ← act (IsThere "node_modules");
  _ ← when there (try (RemovePath "node_modules"));
  _ ← try (WriteJson "package.json" pkg);
  _ ← try (WriteLock "oath-lock.json" (lock_of "project" pkg new_graph));
  planned ← act (Exists ".oath/placement-plan.json");
  when planned (try (RemovePath ".oath/placement-plan.json")).
Definition cmd_remove (packages : list string) : command unit :=
  if decide (packages = []) then mret tt
  else
    there ← act (Exists "package.json");
    _ ← demand there "no package.json found";
    pkg ← read_package_json;
    let '(removed_names, pkg) := foldl remove_package ([], pkg) packages in
    if decide (removed_names = []) then mret tt
    else if decide (extract_deps pkg "dependencies" = ∅ ∧ extract_deps pkg "devDependencies" = ∅) then
      remove_last pkg
    else
      cwd ← try CanonicalDir;
      g ← carry_out cwd (request_remove removed_names);
      _ ← try (WriteJson "package.json" pkg);
      try (WriteLock "oath-lock.json" (lock_of "project" pkg g)).

(** The graph, if it comes from a plan, is the plan's. *)
Definition made (plan : option PlacementPlan) (g : DepGraph) : Prop :=
  match plan with Some p => to_dep_graph p = Ok g | None => True end.

(** The commands that install, from the command line. *)
Inductive InstallCommand :=
  | Install (o : InstallOptions) | Add (package : string) (dev yes : bool)
  | Update (packages : list string) | Ci | Remove (packages : list string).
Definition install_command (c : InstallCommand) : command unit :=
  match c with
  | Install o => cmd_install o
  | Add package dev yes => cmd_add package dev yes
  | Update packages => cmd_update packages
  | Ci => cmd_ci
  | Remove packages => cmd_remove packages
  end.

(** What is planned is made of one graph. *)
Lemma install_graph_made o cwd p : returns (λ pg, made pg.1 pg.2) (install_graph o cwd p).
Proof.
  apply returns_after. intros resolver. case_decide.
  - by apply returns_after.
  - apply returns_after. intros plan. by destruct (to_dep_graph plan) eqn:Hg.
Qed.
Lemma plan_install_made o cwd : returns (λ p, made (pl_plan p) (pl_graph p)) (plan_install o cwd).
Proof.
  unfold plan_install. do 2 (apply returns_after; intros ?).
  eapply returns_bind; [apply install_graph_made|]. intros [plan g] Hm.
  apply returns_after. intros [[manifest deps] dev_deps]. by apply returns_after.
Qed.
End install.

(** ** A world to run commands in

    A project with this manifest, lockfile and plan, a registry that has everything and a
    store that has nothing; someone types these lines at prompts. *)
Record Scene := {
  sc_manifest : Json; sc_lock : Lockfile; sc_plan : PlacementPlan; sc_full : Json;
  sc_typed : list string; sc_files : list string; sc_package : Json }.
Definition scene_world (w : Scene) X (e : Act X) : X :=
  match e in Act X return X with
  | Exists path => bool_decide (path ∈ sc_files w)
  | IsThere path => bool_decide (path ∈ sc_files w)
  | IsDir _ => false | IsFile _ => true
  | ReadText _ => Ok "" | WriteText _ _ => Ok tt
  | ReadJson path => Ok (if decide (path = "package.json") then sc_manifest w else sc_package w)
  | WriteJson _ _ => Ok tt | CreateDirs _ => Ok tt | RemovePath _ => Ok tt
  | MakeExecutable _ => tt | Symlink _ _ => Ok tt
  | GetEnv _ => None | Home => Some "/home/me" | TempDir => "/tmp"
  | CurrentDir => Ok "/p" | CanonicalDir => Ok "/p" | Now => Some 1770000000%Z
  | Answers => sc_typed w | Sh _ _ _ => Some 0%Z
  | DetectWorkspace _ => None
  | Plan _ _ => Ok (sc_plan w) | ReadPlan _ => Ok (sc_plan w) | WritePlan _ _ => Ok tt
  | ResolveGraph _ _ => Ok new_graph | ImportNpm _ => Ok new_graph
  | ReadLock _ => Ok (sc_lock w) | WriteLock _ _ => Ok tt
  | NewClient => Ok tt
  | FetchPackument _ => Err "offline" | FetchFull _ => Ok (sc_full w)
  | OpenStore => Ok "/home/me/.oath/store"
  | VerifyVariant _ _ _ _ => Missing | StorePackage _ _ _ _ _ => Ok tt
  | ReadLimits => Ok default_limits | NextDone n => n
  | FetchTarball _ _ _ _ => Ok 100%Z | FileUrlPath _ => Ok "/src/local.tgz"
  | PackLocal _ => Ok 100%Z | WritePacked _ _ => Ok tt | FileLength _ => Ok 100%Z
  | CopyFile _ _ => Ok tt | FetchGit _ => Ok 100%Z | CacheGit _ => Ok tt | Extract _ _ => Ok tt
  | LinkPlan _ _ => Ok 1 | LinkPlanClean _ _ => Ok 1 | LinkAll _ _ => Ok 1
  | LoadPolicy => Policy.default_policy
  | Scan n v _ => Ok {| package_name := n; package_version := v; overall_risk := Clean; findings := [];
                        files_scanned := 1; lines_scanned := 1; capabilities := no_capabilities;
                        verdict_reasons := [] |}
  | LogInstall _ _ => tt
  end.
Definition located (loc n url : string) (script : bool) : PlacementNode := {|
  location := loc; place_name := n; node_name := n; node_version := "1.0.0";
  node_resolved := Some url; node_integrity := Some "sha512-AA=="; node_dev := false; node_optional := false;
  node_has_install_script := script; reuse_existing := false; Placement.link := false; target := None;
  edges := [] |}.
Definition scene (trusted typed : list string) : Scene := {|
  sc_manifest := JObject [("dependencies", JObject [("a", JString "^1.0.0")]); ("name", JString "p");
                          ("trustedDependencies", JArray (JString <$> trusted))];
  sc_lock := from_graph_with_manifest new_graph "p" "0.0.0" ∅ ∅;
  sc_plan := {|
    schema_version := 2; planner := {| planner_name := "arborist"; npm := "11" |}; project := ".";
    plan_nodes := [located "node_modules/a" "a" "https://r.example/a.tgz" true;
                   located "node_modules/g" "g" "github:x/g#abc" false;
                   located "node_modules/l" "l" "file:///src/local.tgz" false];
    removed_locations := []; invalid_edges := [] |};
  sc_full := JObject [("time", JObject [("1.0.0", JString "2020-01-01T00:00:00.000Z")])];
  sc_typed := typed; sc_files := ["/src/local.tgz"; "/p/node_modules/a"];
  sc_package := JObject [("scripts", JObject [("postinstall", JString "node install.js")])] |}.
Definition plain_options : InstallOptions := {|
  o_packages := []; o_dev := false; o_dry_run := false; o_audit := true; o_yes := false;
  o_run_scripts := false; o_ignore_scripts := false; o_global := false; o_frozen := false;
  o_min_age := None |}.
#[export] Instance demo_sha : Sha256Hex := {| sha256_hex _ := "00" |}.
Definition demo_command (c : InstallCommand) : command unit :=
  @install_command demo_sha default_iter sample_lib demo c.
