(* ===== verification/Supply.v ===== *)
(** * What is linked was verified ([main.rs], the commands that install)

    A monitor of the path of a package into [node_modules]: bytes come into a temporary
    file from the URL and with the integrity of a package, or from the path or the git
    repository its URL names; what is unpacked goes into the store under that URL and
    integrity; and a tree is linked from packages that were stored so or that the store
    says are verified. *)
From S2P Require Import Store Core Report Versions Tarball Git Workspace Placement Cli Command Install.

(** Where the bytes of a temporary file came from. *)
Inductive Origin := FromUrl (url : string) (integ : option string) | FromFile (path : string).
#[export] Instance Origin_eq_dec : EqDecision Origin.
Proof. solve_decision. Defined.
Record Supply := {
  good : list (string * string * string * option string);   (* in the store *)
  places : list (string * string);                          (* file URLs and their paths *)
  fetched : list (nat * Origin);                            (* temporary files *)
  unpacked : list nat }.
Definition no_supply : Supply := {| good := []; places := []; fetched := []; unpacked := [] |}.
Definition see_good i (s : Supply) : Supply :=
  {| good := i :: good s; places := places s; fetched := fetched s; unpacked := unpacked s |}.
Definition see_place p (s : Supply) : Supply :=
  {| good := good s; places := p :: places s; fetched := fetched s; unpacked := unpacked s |}.
Definition see_fetched t (s : Supply) : Supply :=
  {| good := good s; places := places s; fetched := t :: fetched s;
     unpacked := filter (λ t', t' ≠ t.1) (unpacked s) |}.
Definition see_unpacked t (s : Supply) : Supply :=
  {| good := good s; places := places s; fetched := fetched s; unpacked := t :: unpacked s |}.

Section supply.
Context {SH : Sha256Hex} {HI : HashIter} {SL : StoreLib} {MC : Machine}.

(** What a temporary file holds: the last that was written to it. *)
Definition origin_of (s : Supply) (t : nat) : option Origin := snd <$> head (filter (λ o, o.1 = t) (fetched s)).
(** The bytes that are right for a package. *)
Definition fits (s : Supply) (name version url : string) (integ : option string) (o : Origin) : bool :=
  match o with
  | FromUrl u i => bool_decide (u = url ∧ i = integ) && negb (is_git_spec url)
  | FromFile path =>
      bool_decide ((url, path) ∈ places s)
      || (is_git_spec url && ends_with (git_cache_file_name name version url) path)
  end.
Definition linkable (s : Supply) (g : DepGraph) : bool :=
  forallb (λ n, bool_decide (identity_of n ∈ good s)) (graph_nodes g).
Definition plan_linkable (s : Supply) (plan : PlacementPlan) : bool :=
  match to_dep_graph plan with Ok g => linkable s g | Err _ => false end.
Definition allow {S} (b : bool) (s : S) : option S := if b then Some s else None.
Definition on_ok {A S} (r : result string A) (s s' : S) : S := match r with Ok _ => s' | Err _ => s end.
Definition supply (s : Supply) X (e : Act X) : X → option Supply :=
  match e in Act X return X → option Supply with
  | VerifyVariant n v u i => λ x, Some (if is_verified x then see_good (n, v, u, i) s else s)
  | FileUrlPath u => λ x, Some (match x with Ok path => see_place (u, path) s | Err _ => s end)
  | FetchTarball u i _ t => λ x, Some (on_ok x s (see_fetched (t, FromUrl u i) s))
  | WritePacked path t => λ x, Some (on_ok x s (see_fetched (t, FromFile path) s))
  | CopyFile path t => λ x, Some (on_ok x s (see_fetched (t, FromFile path) s))
  | Extract _ t => λ x, Some (on_ok x s (see_unpacked t s))
  | StorePackage n v u i t => λ x,
      allow (bool_decide (t ∈ unpacked s)
             && from_option (fits s n v u i) false (origin_of s t))
            (on_ok x s (see_good (n, v, u, i) s))
  | LinkPlan plan _ => λ _, allow (plan_linkable s plan) s
  | LinkPlanClean plan _ => λ _, allow (plan_linkable s plan) s
  | LinkAll g _ => λ _, allow (linkable s g) s
  | _ => λ _, Some s
  end.

(** ** The components *)

Notation accepted p s := (safe supply p (λ _ _, True) s).
Definition allowed X (e : Act X) : Prop := ∀ s x, is_Some (supply s X e x).
Lemma accepted_only {A} (p : command A) s : only allowed p → accepted p s.
Proof.
  intros Hp. apply (only_safe allowed supply (λ _, True)); try done.
  intros X e x t He _. destruct (He t x) as [s' ?]. eauto.
Qed.
Lemma allowed_after {A B} (p : command A) (f : A → command B) Q s :
  only allowed p → (∀ a s', safe supply (f a) Q s') → (∀ e s', Q (Err e) s') → safe supply (p ≫= f) Q s.
Proof.
  intros Hp Hf HQ. apply (safe_after allowed supply (λ _, True)); try done.
  intros X e x t He _. destruct (He t x) as [s' ?]. eauto.
Qed.
Lemma accepted_after {A B} (p : command A) (f : A → command B) s :
  only allowed p → (∀ a s', accepted (f a) s') → accepted (p ≫= f) s.
Proof. intros Hp Hf. by apply allowed_after. Qed.
Lemma see_good_spec i s : i ∈ good (see_good i s) ∧ good s ⊆ good (see_good i s).
Proof. simpl. split; [by left|]. intros j Hj. by right. Qed.

(** A step of the store check covers its node. *)
Definition covered (s : Supply) (acc : list DepNode) (n : DepNode) : Prop :=
  identity_of n ∈ good s ∨ identity_of n ∈ identity_of <$> acc.
Lemma missing_step_covers acc n s :
  safe supply (missing_step acc n) (λ r s', match r with
    | Ok acc' => covered s' acc'.1 n ∧ ∀ m, covered s acc.1 m → covered s' acc'.1 m
    | Err _ => True end) s.
Proof.
  intros v. eexists. split; [reflexivity|]. simpl. unfold covered.
  assert (Hadd : identity_of n ∈ good s ∨ identity_of n ∈ identity_of <$>
    (if decide (identity_of n ∈ identity_of <$> acc.1) then acc else (acc.1 ++ [n], acc.2)).1).
  { case_decide; [by right|]. right. simpl. rewrite fmap_app. apply elem_of_app. right. by left. }
  assert (Hkeep : ∀ m, identity_of m ∈ identity_of <$> acc.1 → identity_of m ∈ identity_of <$>
    (if decide (identity_of n ∈ identity_of <$> acc.1) then acc else (acc.1 ++ [n], acc.2)).1).
  { intros m Hm. case_decide; [done|]. simpl. rewrite fmap_app. apply elem_of_app. by left. }
  destruct v as [root| |why]; simpl.
  - split; [left; by left|]. intros m' [Hm|Hm]; [left; by right|by right].
  - split; [done|]. intros m' [Hm|Hm]; auto.
  - split; [done|]. intros m' [Hm|Hm]; auto.
Qed.
Lemma missing_store_nodes_covers g s :
  safe supply (missing_store_nodes g) (λ r s', match r with
    | Ok m => ∀ n, n ∈ graph_nodes g → covered s' m.1 n
    | Err _ => True end) s.
Proof.
  unfold missing_store_nodes.
  assert (H : ∀ l acc s, safe supply (fold_cmd missing_step acc l) (λ r s', match r with
    | Ok m => ∀ n, n ∈ l ∨ covered s acc.1 n → covered s' m.1 n
    | Err _ => True end) s).
  2:{ eapply watch_mono; [apply H|]. intros [m|] s'; [|done]. eauto. }
  clear s. induction l as [|n l IH]; intros acc s; [intros m [Hm|Hm]; [by apply not_elem_of_nil in Hm|done]|].
  cbn [fold_cmd]. apply watch_bind. eapply watch_mono; [apply missing_step_covers|]. intros [acc'|e] s' H'; [|done].
  destruct H' as [Hn Hk]. eapply watch_mono; [apply IH|]. intros [m|e] s'' Hm; [|done].
  intros x [Hx|Hx]; [|by auto]. apply elem_of_cons in Hx as [->|Hx]; auto.
Qed.

Definition neutral X (e : Act X) : Prop := ∀ s x, supply s X e x = Some s.
Lemma neutral_after {A B} (p : command A) (f : A → command B) Q s :
  only neutral p → (∀ a, safe supply (f a) Q s) → (∀ e, Q (Err e) s) → safe supply (p ≫= f) Q s.
Proof.
  intros Hp Hf HQ. apply (safe_after neutral supply (eq s)); try done.
  - intros X e x t He <-. exists s. by split; [apply He|].
  - by intros a ? <-.
  - by intros e ? <-.
Qed.
(** The temporary file holds what is right for the package. *)
Definition supplied (s : Supply) (n : DepNode) (t : nat) : Prop :=
  from_option (fits s (name n) (version n) (resolved n) (integrity n)) false (origin_of s t) = true.
Lemma origin_of_fetched t o s : origin_of (see_fetched (t, o) s) t = Some o.
Proof. unfold origin_of. cbn [fetched see_fetched]. by rewrite filter_cons_True. Qed.
Definition fetches (n : DepNode) (t : nat) {A} (s : Supply) (r : result Stop A) (s' : Supply) : Prop :=
  match r with Ok _ => good s ⊆ good s' ∧ supplied s' n t | Err _ => True end.
Lemma materialize_supplied n t limits path s :
  (resolved n, path) ∈ places s →
  safe supply (materialize_file_dependency path t limits) (fetches n t s) s.
Proof.
  intros Hp. assert (Hfits : supplied (see_fetched (t, FromFile path) s) n t).
  { unfold supplied. rewrite origin_of_fetched. simpl. by rewrite bool_decide_eq_true_2. }
  intros [|]; (eexists; split; [reflexivity|]).
  - apply neutral_after; [by apply only_try|intros len|done].
    apply neutral_after; [done|intros _|done]. apply safe_try. intros [x|e]; (eexists; split; [reflexivity|]); [|done].
    by split.
  - intros [|]; (eexists; split; [reflexivity|]); [|done].
    apply neutral_after; [done|intros _|done].
    apply neutral_after; [by apply only_try|intros len|done].
    apply neutral_after; [done|intros _|done]. apply safe_try. intros [x|e]; (eexists; split; [reflexivity|]); [|done].
    by split.
Qed.
Lemma pjoin_suffix dir pre x : ends_with x (pjoin dir (pre +:+ x)) = true.
Proof.
  assert (H : ∀ r, ends_with x (r +:+ pre +:+ x) = true).
  { intros r. apply ends_with_true. exists (r +:+ pre). by rewrite str_app_assoc. }
  unfold pjoin. destruct (starts_with _ _); [apply (H "")|]. case_decide; [apply (H "")|].
  destruct (ends_with "/" dir); [apply H|]. rewrite (str_app_assoc dir "/"). apply H.
Qed.
Lemma git_cache_path_suffix n v u s :
  safe supply (git_cache_path n v u) (λ r s', s' = s ∧
    match r with Ok path => ends_with (git_cache_file_name n v u) path = true | Err _ => True end) s.
Proof.
  intros [dir|]; (eexists; split; [reflexivity|]); [by split; [|apply pjoin_suffix]|].
  intros dir; (eexists; split; [reflexivity|]). by split; [|apply pjoin_suffix].
Qed.
Lemma copy_cached_supplied n t limits path s :
  is_git_spec (resolved n) = true →
  ends_with (git_cache_file_name (name n) (version n) (resolved n)) path = true →
  safe supply (copy_cached path t limits) (fetches n t s) s.
Proof.
  intros Hg Hpath. unfold copy_cached.
  apply neutral_after; [by apply only_try|intros len|done].
  apply neutral_after; [done|intros _|done]. apply safe_try. intros [x|e]; (eexists; split; [reflexivity|]); [|done].
  split; [done|]. unfold supplied. cbn [on_ok]. rewrite origin_of_fetched.
  cbn [from_option fits]. rewrite Hg, Hpath. apply orb_true_r.
Qed.
Lemma file_dependency_path_place url s :
  safe supply (file_dependency_path url) (λ r s', good s ⊆ good s' ∧
    match r with Ok (Some path) => (url, path) ∈ places s' | _ => True end) s.
Proof.
  unfold file_dependency_path. destruct (negb _); [done|].
  intros [path|e]; (eexists; split; [reflexivity|]); [|done].
  intros [|]; (eexists; split; [reflexivity|]); [|done]. split; [done|by left].
Qed.
Lemma tarball_bytes_supplied miss limits n t s :
  (∀ p, only neutral (miss p)) →
  safe supply (tarball_bytes miss limits n t) (fetches n t s) s.
Proof.
  intros Hmiss. unfold tarball_bytes. apply watch_bind.
  eapply watch_mono; [apply file_dependency_path_place|]. intros [[path|]|e] s' [Hg Hp]; [..|done].
  - eapply watch_mono; [by apply materialize_supplied|]. intros [] s'' H; [|done].
    destruct H as [Hs H]. split; [by etrans|done].
  - apply (watch_mono _ _ (fetches n t s')); [|intros [] s'' H; [|done]; destruct H as [Hs H]; split; [by etrans|done]].
    destruct (is_git_spec (resolved n)) eqn:Hgit.
    + apply watch_bind. eapply watch_mono; [apply git_cache_path_suffix|]. intros [path|e] ? [-> Hpath]; [|done].
      apply (neutral_after (act (Exists path))); [by repeat split|intros there|done].
      apply neutral_after; [apply only_when, Hmiss|intros _|done]. by apply copy_cached_supplied.
    + intros [x|e]; (eexists; split; [reflexivity|]); [|done]. split; [done|].
      unfold supplied. cbn [on_ok]. rewrite origin_of_fetched. cbn [from_option fits].
      by rewrite Hgit, bool_decide_eq_true_2.
Qed.

Lemma extract_and_store_good limits n t s :
  supplied s n t →
  safe supply (extract_and_store limits n t) (λ r s',
    match r with Ok _ => good s ⊆ good s' ∧ identity_of n ∈ good s' | Err _ => True end) s.
Proof.
  intros Hs. unfold extract_and_store. apply safe_try. intros [[]|e]; (eexists; split; [reflexivity|]); [|done].
  intros x. cbn [on_ok supply]. rewrite bool_decide_eq_true_2 by (by left).
  change (origin_of (see_unpacked t s) t) with (origin_of s t).
  unfold supplied in Hs. change (fits (see_unpacked t s)) with (fits s). rewrite Hs.
  eexists. split; [reflexivity|]. destruct x as [[]|e]; [|done].
  split; [intros j Hj; by right|by left].
Qed.
Lemma same_key (l : list (nat * DepNode)) t m n :
  NoDup l.*1 → (t, m) ∈ l → (t, n) ∈ l → m = n.
Proof.
  rewrite !list_elem_of_lookup. intros Hnd [i Hi] [j Hj].
  assert (i = j) as ->; [|congruence].
  eapply (NoDup_lookup l.*1); [done|..]; rewrite list_lookup_fmap; [by rewrite Hi|by rewrite Hj].
Qed.
Lemma filter_keys (P : nat * DepNode → Prop) `{!∀ x, Decision (P x)} (l : list (nat * DepNode)) :
  NoDup l.*1 → NoDup (filter P l).*1.
Proof.
  induction l as [|x l IH]; intros Hnd; [constructor|]. inversion Hnd as [|? ? Hx Hl]; subst.
  destruct (decide (P x)); [rewrite filter_cons_True by done|rewrite filter_cons_False by done; auto].
  constructor; [|by apply IH]. intros Hin. apply Hx. apply list_elem_of_fmap in Hin as (y & -> & Hy).
  apply list_elem_of_fmap. exists y. by apply list_elem_of_filter in Hy as [_ ?].
Qed.
Lemma filter_shorter (pending : list (nat * DepNode)) p :
  p ∈ pending → length (filter (λ q, q.1 ≠ p.1) pending) < length pending.
Proof.
  induction pending as [|q l IH]; intros Hp; [by apply not_elem_of_nil in Hp|]. simpl.
  pose proof (length_filter (λ q, q.1 ≠ p.1) l) as Hl.
  destruct (decide (q.1 ≠ p.1)) as [Hq|Hq].
  - rewrite filter_cons_True by done. simpl. apply elem_of_cons in Hp as [->|Hp]; [done|]. apply IH in Hp. lia.
  - rewrite filter_cons_False by done. lia.
Qed.
Lemma join_all_good limits tasks pending done s :
  NoDup pending.*1 → length pending ≤ tasks →
  safe supply (join_all limits tasks pending done) (λ r s',
    match r with Ok _ => good s ⊆ good s' ∧ ∀ p, p ∈ pending → identity_of p.2 ∈ good s' | Err _ => True end) s.
Proof.
  revert pending done s. induction tasks as [|tasks IH]; intros [|first rest] done s Hnd Hlen;
    [by split; [|intros p Hp; apply not_elem_of_nil in Hp]|simpl in Hlen; lia|
     by split; [|intros p Hp; apply not_elem_of_nil in Hp]|].
  set (pending := first :: rest) in *. cbn [join_all]. fold pending.
  apply (safe_act supply (NextDone (length pending))). intros i. eexists. split; [reflexivity|].
  destruct (default first (pending !! i)) as [t n] eqn:Hi.
  assert (Hin : (t, n) ∈ pending).
  { rewrite <- Hi. destruct (pending !! i) as [p|] eqn:Hp; [by eapply list_elem_of_lookup_2|by left]. }
  apply watch_bind. eapply watch_mono; [apply tarball_bytes_supplied|].
  { intros p. unfold fetch_git. only_tac; intros ? ?; done. }
  intros [len|e] s1 H1; [destruct H1 as [H1 Hs1]|done].
  apply watch_bind. eapply watch_mono; [by apply extract_and_store_good|].
  intros [u|e] s2 H2; [destruct H2 as [H2 Hs2]|done].
  eapply watch_mono; [apply IH|].
  - by apply filter_keys.
  - apply Nat.lt_succ_r. eapply Nat.lt_le_trans; [apply (filter_shorter pending (t, n) Hin)|exact Hlen].
  - intros [d|e] s3 H3; [destruct H3 as [H3 Hs3]|done]. split; [by do 2 (etrans; [eassumption|])|].
    intros p Hp. destruct (decide (p.1 = t)) as [Ht|Ht].
    + assert (p = (t, n)) as ->; [|by apply H3].
      destruct p as [t' m]. simpl in Ht. subst t'. f_equal. by eapply (same_key pending).
    + apply Hs3. by apply list_elem_of_filter.
Qed.

Lemma download_good l s :
  safe supply (download_missing_nodes l) (λ r s',
    match r with Ok _ => good s ⊆ good s' ∧ ∀ n, n ∈ l → identity_of n ∈ good s' | Err _ => True end) s.
Proof.
  unfold download_missing_nodes. case_decide as Hl; [subst; by split; [|intros n Hn; apply not_elem_of_nil in Hn]|].
  apply safe_try. intros [limits|e]; (eexists; split; [reflexivity|]); [|done].
  assert (Hkeys : (imap (@pair nat DepNode) l).*1 = seq 0 (length l)).
  { rewrite fmap_imap, <- (list_fmap_id (seq 0 _)). apply (imap_seq_0 l id). }
  eapply watch_mono; [apply join_all_good; [rewrite Hkeys; apply NoDup_seq|by rewrite length_imap]|].
  intros [d|e] s'; [|done]. intros [Hg Hin]. split; [done|]. intros n Hn.
  apply list_elem_of_lookup in Hn as [i Hi]. apply (Hin (i, n)). apply list_elem_of_lookup. exists i.
  by rewrite list_lookup_imap, Hi.
Qed.
Lemma linkable_iff s g : linkable s g = true ↔ ∀ n, n ∈ graph_nodes g → identity_of n ∈ good s.
Proof.
  unfold linkable. rewrite forallb_forall. setoid_rewrite <- list_elem_of_In. by setoid_rewrite bool_decide_eq_true.
Qed.
(** The packages of a graph are had; what is done between looking and downloading does
    not matter. *)
Lemma obtained {B} g (check : list DepNode → command unit) (f : nat * Z → command B) s :
  (∀ l, only neutral (check l)) → (∀ d s', linkable s' g = true → accepted (f d) s') →
  accepted (m ← missing_store_nodes g; _ ← check m.1; d ← download_missing_nodes m.1; f d) s.
Proof.
  intros Hc Hf. apply watch_bind. eapply watch_mono; [apply missing_store_nodes_covers|].
  intros [m|e] s' Hm; [|done]. apply neutral_after; [apply Hc|intros _|done].
  apply watch_bind. eapply watch_mono; [apply download_good|]. intros [d|e] s'' H; [|done].
  destruct H as [Hg Hd]. apply Hf, linkable_iff. intros n Hn. destruct (Hm n Hn) as [H|H]; [by apply Hg|].
  apply list_elem_of_fmap in H as (n' & -> & Hn'). by apply Hd.
Qed.
Lemma obtained_at_once {B} g (f : nat * Z → command B) s :
  (∀ d s', linkable s' g = true → accepted (f d) s') →
  accepted (m ← missing_store_nodes g; d ← download_missing_nodes m.1; f d) s.
Proof. intros Hf. pose proof (obtained g (λ _, mret tt) f s) as H. apply H; [by intros l|done]. Qed.
Lemma linked {B} plan g dir (f : unit → command B) s :
  made plan g → linkable s g = true → (∀ u s', accepted (f u) s') → accepted (link plan g dir ≫= f) s.
Proof.
  intros Hm Hl Hf. unfold link. destruct plan as [p|]; simpl in Hm.
  - apply watch_bind. apply safe_try. intros r. exists s. simpl. unfold plan_linkable. rewrite Hm, Hl.
    split; [done|]. destruct r as [k|e]; [|done]. intros [[]|e]; (eexists; split; [reflexivity|]); [apply Hf|done].
  - apply watch_bind. apply safe_try. intros r. exists s. simpl. rewrite Hl. split; [done|].
    destruct r as [k|e]; [|done]. apply Hf.
Qed.

(** ** The commands *)

Ltac allowed_tac := only_tac; intros ? ?; eexists; reflexivity.
Lemma hydrate_allowed plan : only allowed (hydrate_missing_registry_metadata plan).
Proof. unfold hydrate_missing_registry_metadata. allowed_tac. Qed.
Lemma plan_dir_allowed dir request : only allowed (plan_dir dir request).
Proof. unfold plan_dir. apply only_bind; [allowed_tac|intros plan; apply hydrate_allowed]. Qed.
Lemma lockfile_all_cached_allowed l : only allowed (lockfile_all_cached l).
Proof.
  unfold lockfile_all_cached. induction (hash_iter (Lockfile.packages l)) as [|[k e] es IH]; [done|].
  cbn [all_verified]. apply only_bind; [allowed_tac|]. intros v. by destruct (is_verified v).
Qed.
Lemma legacy_graph_allowed o p : only allowed (legacy_graph o p).
Proof.
  unfold legacy_graph, resolve_graph. only_tac; try (intros ? ?; eexists; reflexivity).
  apply lockfile_all_cached_allowed.
Qed.
Lemma install_project_allowed o : only allowed (install_project o).
Proof. unfold install_project, read_package_json, panic_unless. allowed_tac. Qed.
Lemma trusted_deps_allowed p : only allowed (trusted_deps p).
Proof. unfold trusted_deps. allowed_tac. Qed.
Lemma check_frozen_allowed b l : only allowed (check_frozen b l).
Proof. unfold check_frozen. allowed_tac. Qed.
Lemma check_min_age_neutral a l : only neutral (check_min_age a l).
Proof. unfold check_min_age, too_recent, release_age. only_tac; intros ? ?; reflexivity. Qed.
Lemma write_results_allowed b l m : only allowed (write_results b l m).
Proof. unfold write_results. allowed_tac. Qed.
Lemma root_lifecycle_allowed event : only allowed (run_root_lifecycle event).
Proof. unfold run_root_lifecycle, bin_first_path. allowed_tac. Qed.
Lemma install_script_allowed dir : only allowed (run_install_script dir).
Proof. unfold run_install_script. allowed_tac. Qed.
Lemma scripts_allowed o trusted root cwd g : only allowed (scripts o trusted root cwd g).
Proof.
  unfold scripts, consider_script, detect_install_script, prompt_install_script, append_to_policy_allowlist.
  only_tac; try apply install_script_allowed; intros ? ?; eexists; reflexivity.
Qed.
Lemma audit_allowed root g : only allowed (audit root g).
Proof. unfold audit, scan_node. allowed_tac. Qed.

Lemma plan_install_allowed o cwd : only allowed (plan_install o cwd).
Proof.
  unfold plan_install, install_graph. only_tac;
    try (apply install_project_allowed || apply trusted_deps_allowed || apply legacy_graph_allowed ||
         apply plan_dir_allowed || apply check_frozen_allowed || by destruct (settled _ _ _)).
  intros ? ?; eexists; reflexivity.
Qed.
Lemma apply_install_accepted o p s : made (pl_plan p) (pl_graph p) → accepted (apply_install o p) s.
Proof.
  intros Hm. unfold apply_install.
  apply accepted_after; [apply only_when, root_lifecycle_allowed|intros _ s1].
  apply accepted_after; [allowed_tac|intros root s2].
  apply accepted_after; [allowed_tac|intros _ s3].
  apply (obtained _ (check_min_age (o_min_age o))); [apply check_min_age_neutral|intros d s4 Hl].
  apply safe_try. intros [cwd|e]; (eexists; split; [reflexivity|]); [|done].
  apply linked; [done..|intros _ s5].
  apply accepted_after; [apply write_results_allowed|intros _ s6].
  apply accepted_after; [apply scripts_allowed|intros blocked s7].
  apply accepted_after; [destruct (o_audit o && _); [apply audit_allowed|done]|intros found s8].
  apply accepted_only. only_tac; try apply root_lifecycle_allowed; intros ? ?; eexists; reflexivity.
Qed.
Lemma planned_accepted {B} dir request (f : PlacementPlan → DepGraph → command B) s :
  (∀ plan g s', to_dep_graph plan = Ok g → accepted (f plan g) s') →
  accepted (plan ← plan_dir dir request; g ← lift (to_dep_graph plan); f plan g) s.
Proof.
  intros Hf. apply accepted_after; [apply plan_dir_allowed|intros plan s'].
  apply watch_lift. destruct (to_dep_graph plan) as [g|e] eqn:Hg; [by apply Hf|done].
Qed.
Lemma stored_accepted {B} g (f : nat * Z → command B) s :
  (∀ d s', linkable s' g = true → accepted (f d) s') →
  accepted (_ ← try OpenStore; _ ← try NewClient; m ← missing_store_nodes g;
            d ← download_missing_nodes m.1; f d) s.
Proof.
  intros Hf. apply accepted_after; [allowed_tac|intros _ s1]. apply accepted_after; [allowed_tac|intros _ s2].
  by apply obtained_at_once.
Qed.
Lemma workspace_accepted ws dry_run s : accepted (cmd_install_workspace ws dry_run) s.
Proof.
  unfold cmd_install_workspace. cbv zeta. case_decide; [done|]. destruct dry_run; [done|].
  apply planned_accepted. intros plan g s1 Hg. apply stored_accepted. intros d s2 Hl.
  apply linked; [done..|intros _ s3]. apply accepted_only. allowed_tac.
Qed.
Lemma global_accepted packages dry_run s : accepted (cmd_install_global packages dry_run) s.
Proof.
  unfold cmd_install_global. apply accepted_after; [done|intros _ s1].
  apply accepted_after; [allowed_tac|intros home s2]. apply accepted_after; [done|intros dir s3].
  cbv zeta. destruct dry_run; [done|]. do 3 (apply accepted_after; [allowed_tac|intros _ ?]).
  apply planned_accepted. intros plan g s4 Hg. apply stored_accepted. intros d s5 Hl.
  apply linked; [done..|intros _ s6]. apply accepted_only. unfold link_bins, link_bin. allowed_tac.
Qed.
Lemma install_accepted o s : accepted (cmd_install o) s.
Proof.
  unfold cmd_install. destruct (o_global o); [apply global_accepted|].
  apply accepted_after; [done|intros _ s1]. apply accepted_after; [allowed_tac|intros _ s2].
  apply accepted_after; [allowed_tac|intros cwd s3]. apply accepted_after; [allowed_tac|intros ws s4].
  assert (H : accepted (p ← plan_install o cwd; if o_dry_run o then mret tt else apply_install o p) s4).
  { apply watch_bind. eapply watch_mono.
    { eapply safe_returns; [apply plan_install_made|apply accepted_only, plan_install_allowed]. }
    intros [p|e] s5 [_ Hm]; [|done]. destruct (o_dry_run o); [done|]. by apply apply_install_accepted. }
  destruct ws as [ws|]; [|done]. destruct (o_packages o); [apply workspace_accepted|done].
Qed.
Lemma ci_accepted s : accepted cmd_ci s.
Proof.
  unfold cmd_ci, read_package_json. cbv zeta. apply accepted_after; [allowed_tac|intros there s1].
  apply accepted_after; [done|intros _ s2]. apply accepted_after; [allowed_tac|intros pkg s3].
  apply accepted_after; [allowed_tac|intros l s4]. apply accepted_after; [done|intros _ s5].
  apply accepted_after; [allowed_tac|intros cwd s6]. apply accepted_after; [allowed_tac|intros planned s7].
  apply accepted_after; [destruct planned; allowed_tac|intros read s8].
  apply accepted_after; [apply hydrate_allowed|intros plan s9].
  apply watch_lift. destruct (to_dep_graph plan) as [g|e] eqn:Hg; [|done].
  apply accepted_after; [done|intros _ s10]. apply stored_accepted. intros d s11 Hl.
  apply safe_try. intros r. exists s11. cbn [supply]. unfold plan_linkable. rewrite Hg, Hl. split; [done|].
  destruct r; [|done]. apply accepted_only. allowed_tac.
Qed.
Lemma carry_out_accepted cwd request s : accepted (carry_out cwd request) s.
Proof.
  unfold carry_out. apply planned_accepted. intros plan g s1 Hg. apply stored_accepted. intros d s2 Hl.
  by apply linked.
Qed.
Lemma carried_out {B} cwd request (f : DepGraph → command B) s :
  (∀ g s', accepted (f g) s') → accepted (carry_out cwd request ≫= f) s.
Proof.
  intros Hf. apply watch_bind. eapply watch_mono; [apply carry_out_accepted|]. intros [g|e] s' _; [apply Hf|done].
Qed.
Lemma update_accepted packages s : accepted (cmd_update packages) s.
Proof.
  unfold cmd_update, read_package_json. do 2 (apply accepted_after; [allowed_tac|intros ? ?]).
  apply carried_out. intros g s1. apply accepted_only. allowed_tac.
Qed.
Lemma remove_accepted packages s : accepted (cmd_remove packages) s.
Proof.
  unfold cmd_remove, read_package_json. case_decide; [done|]. apply accepted_after; [allowed_tac|intros there s1].
  apply accepted_after; [done|intros _ s2]. apply accepted_after; [allowed_tac|intros pkg s3].
  destruct (foldl remove_package _ _) as [removed pkg']. case_decide; [done|]. case_decide.
  - apply accepted_only. unfold remove_last. allowed_tac.
  - apply accepted_after; [allowed_tac|intros cwd s4]. apply carried_out. intros g s5.
    apply accepted_only. allowed_tac.
Qed.

(** (C11) Whatever an installing command does, up to any point where it is cut short and in
    any world, it keeps to the path of the packages: it unpacks only what it fetched, stores
    it only under the name, URL and integrity it was fetched with (or, for packages of
    files and of git, under the URL that names the path or the cached archive), and links
    only graphs all of whose packages are in the store: stored on this path, or found
    there and verified. *)
Theorem links_what_it_verified (c : InstallCommand) tr o :
  performs (install_command c) tr o → is_Some (watch supply no_supply tr).
Proof.
  intros Hp. assert (H : accepted (install_command c) no_supply).
  { destruct c; [apply install_accepted|apply install_accepted|apply update_accepted|apply ci_accepted|
      apply remove_accepted]. }
  destruct (safe_sound supply _ _ _ _ _ H Hp) as (s' & Hw & _). eauto.
Qed.
End supply.

Definition links (ev : event Act) : bool :=
  match action ev with LinkPlan _ _ | LinkPlanClean _ _ | LinkAll _ _ => true | _ => false end.
Lemma links_what_it_verified_witness :
  let r := run (scene_world (scene ["a"] [])) (demo_command (Install plain_options)) in
  r.2 = Ok tt ∧ existsb links r.1 = true ∧
  is_Some (watch (@supply demo_sha default_iter) no_supply r.1).
Proof.
  split; [vm_compute; reflexivity|]. split; [vm_compute; reflexivity|].
  exact (@links_what_it_verified demo_sha default_iter sample_lib demo (Install plain_options) _ _ (run_performs _ _)).
Defined.
