(* ===== verification/Consent.v ===== *)
(** * What runs was consented to ([main.rs], the scripts of an install)

    A monitor of the shell commands of an install: scripts of the project itself, and
    scripts of a linked package that says it has one, unless the policy bans it, that the
    manifest trusts by name, that [--yes] covers, or that policy or prompt allowed under
    [--run-scripts]. *)
From S2P Require Import Store Core Report Versions Tarball Git Workspace Placement Cli Command Install.

(** What stays known from when it is learned: the manifest as it was before planning, the
    graph that was linked, the store, the directory, the policy. *)
Record Known := {
  planning : bool; k_manifest : Json; k_graph : option DepGraph;
  k_store : string; k_dir : string; k_policy : option Policy.OathPolicy }.
(** And of the moment: the file that was read last, the package that was scanned for a
    prompt, and what was typed since. *)
Record Consent := {
  known : Known; file : option (string * Json);
  asked : option (string * string * string); typed : list string }.
Definition nothing_known : Consent := {|
  known := {| planning := false; k_manifest := JNull; k_graph := None; k_store := ""; k_dir := "";
              k_policy := None |};
  file := None; asked := None; typed := [] |}.
Definition learn (f : Known → Known) (s : Consent) : Consent :=
  {| known := f (known s); file := file s; asked := asked s; typed := typed s |}.
Definition learn_manifest (x : result string Json) (k : Known) : Known :=
  if planning k then k else
  {| planning := false; k_manifest := match x with Ok j => j | Err _ => JNull end; k_graph := k_graph k;
     k_store := k_store k; k_dir := k_dir k; k_policy := k_policy k |}.
Definition learn_planning (k : Known) : Known :=
  {| planning := true; k_manifest := k_manifest k; k_graph := k_graph k; k_store := k_store k;
     k_dir := k_dir k; k_policy := k_policy k |}.
Definition learn_graph (g : option DepGraph) (k : Known) : Known :=
  {| planning := planning k; k_manifest := k_manifest k; k_graph := g; k_store := k_store k;
     k_dir := k_dir k; k_policy := k_policy k |}.
Definition learn_store (d : string) (k : Known) : Known :=
  {| planning := planning k; k_manifest := k_manifest k; k_graph := k_graph k; k_store := d;
     k_dir := k_dir k; k_policy := k_policy k |}.
Definition learn_dir (d : string) (k : Known) : Known :=
  {| planning := planning k; k_manifest := k_manifest k; k_graph := k_graph k; k_store := k_store k;
     k_dir := d; k_policy := k_policy k |}.
Definition learn_policy (p : Policy.OathPolicy) (k : Known) : Known :=
  {| planning := planning k; k_manifest := k_manifest k; k_graph := k_graph k; k_store := k_store k;
     k_dir := k_dir k; k_policy := Some p |}.

Section consent.
Context {SH : Sha256Hex} {HI : HashIter} {SL : StoreLib} {MC : Machine}.
Variable o : InstallOptions.

(** The script of a package may run in a directory. *)
Definition trusts (s : Consent) (policy : Policy.OathPolicy) (dir : string) (n : DepNode) : bool :=
  bool_decide (name n ∈ trusted_list (k_manifest (known s))) || o_yes o
  || (o_run_scripts o
      && (Policy.allows_install_script policy (name n)
          || (bool_decide (asked s = Some (name n, version n, dir))
              && match read_answer (typed s) with Deny => false | _ => true end))).
Definition may_run (s : Consent) (policy : Policy.OathPolicy) (dir : string) (n : DepNode) : bool :=
  has_install_script n && negb (o_ignore_scripts o) && negb (Policy.is_package_banned policy (name n))
  && bool_decide (dir = pjoin (k_dir (known s)) ("node_modules/" +:+ install_name n)
                  ∨ dir = store_dir (k_store (known s)) n)
  && trusts s policy dir n.
Definition dependency_may_run (s : Consent) (dir : string) : bool :=
  match k_graph (known s), k_policy (known s) with
  | Some g, Some policy => existsb (may_run s policy dir) (graph_nodes g)
  | _, _ => false
  end.
(** The text is a script that the file that was read last gives for one of the events. *)
Definition is_script (s : Consent) (path : string) (events : list string) (script : string) : bool :=
  match file s with
  | Some (p, j) =>
      bool_decide (p = path)
      && existsb (λ ev, bool_decide ((jget "scripts" j ≫= jget ev) ≫= as_str = Some script)) events
  | None => false
  end.
Definition own_script (s : Consent) (dir script : string) : bool :=
  bool_decide (o_packages o = []) && negb (o_ignore_scripts o) && bool_decide (dir = ".")
  && is_script s "package.json" ["preinstall"; "install"; "postinstall"; "prepare"] script.
Definition consented (s : Consent) (dir script : string) : bool :=
  own_script s dir script
  || (dependency_may_run s dir && is_script s (pjoin dir "package.json") install_hooks script).
Definition consent (s : Consent) X (e : Act X) : X → option Consent :=
  match e in Act X return X → option Consent with
  | Sh dir script _ => λ _, if consented s dir script then Some s else None
  | ReadJson path => λ x, Some
      {| known := if decide (path = "package.json") then learn_manifest x (known s) else known s;
         file := match x with Ok j => Some (path, j) | Err _ => file s end;
         asked := asked s; typed := typed s |}
  | GetEnv v => λ _, Some (if decide (v = "OATH_RESOLVER") then learn learn_planning s else s)
  | LinkPlan plan _ => λ _, Some
      (learn (learn_graph match to_dep_graph plan with Ok g => Some g | Err _ => None end) s)
  | LinkAll g _ => λ _, Some (learn (learn_graph (Some g)) s)
  | OpenStore => λ x, Some match x with Ok d => learn (learn_store d) s | Err _ => s end
  | CurrentDir => λ x, Some match x with Ok d => learn (learn_dir d) s | Err _ => s end
  | LoadPolicy => λ x, Some (learn (learn_policy x) s)
  | Scan n v dir => λ _, Some
      {| known := known s; file := file s; asked := Some (n, v, dir); typed := [] |}
  | Answers => λ x, Some {| known := known s; file := file s; asked := asked s; typed := x |}
  | _ => λ _, Some s
  end.

(** ** The components *)

(** Actions that change nothing that is known. *)
Definition steady X (e : Act X) : Prop :=
  match e with
  | Sh _ _ _ | LinkPlan _ _ | LinkAll _ _ | OpenStore | CurrentDir | LoadPolicy => False
  | _ => True
  end.
Lemma steady_step X (e : Act X) x s k :
  steady X e → planning k = true ∧ known s = k → ∃ s', consent s X e x = Some s' ∧ planning k = true ∧ known s' = k.
Proof.
  intros He [Hp <-]. destruct s as [k fl a t]. simpl in Hp.
  destruct e; try done; (eexists; split; [reflexivity|]); split; try done; cbn.
  - case_decide; [|done]. unfold learn_manifest. by rewrite Hp.
  - case_decide; [|done]. simpl. unfold learn_planning. by destruct k; simpl in Hp; subst.
Qed.
Lemma steady_after {A B} (p : command A) (f : A → command B) Q s k :
  only steady p → planning k = true → known s = k →
  (∀ a s', known s' = k → safe consent (f a) Q s') → (∀ e s', known s' = k → Q (Err e) s') →
  safe consent (p ≫= f) Q s.
Proof.
  intros Hp Hk Hs Hf HQ.
  apply (safe_after steady consent (λ s, planning k = true ∧ known s = k)); [|done|done|..].
  - intros X e x t He Ht. by apply steady_step.
  - intros a s' [_ H]. by apply Hf.
  - intros e s' [_ H]. by apply HQ.
Qed.
Definition keeps {A} (k : Known) (r : result Stop A) (s : Consent) : Prop := known s = k.
Lemma steady_keeps {A} (p : command A) k s :
  only steady p → planning k = true → known s = k → safe consent p (keeps k) s.
Proof.
  intros Hp Hk Hs. apply (only_safe steady consent (λ s, planning k = true ∧ known s = k)); [|done|done|].
  - intros X e x t He Ht. by apply steady_step.
  - by intros r s' [_ H].
Qed.

(** Scripts of the project. *)
Lemma path_env s x : consent s _ (GetEnv "PATH") x = Some s.
Proof. done. Qed.
Lemma root_lifecycle_keeps event k s :
  o_packages o = [] → o_ignore_scripts o = false →
  event ∈ ["preinstall"; "install"; "postinstall"; "prepare"] →
  planning k = true → known s = k → safe consent (run_root_lifecycle event) (keeps k) s.
Proof.
  intros Ho Hi Hev Hk Hs. unfold run_root_lifecycle.
  apply (safe_act consent (ReadJson "package.json")). intros r. eexists. split; [reflexivity|].
  assert (Hl : learn_manifest r (known s) = k).
  { unfold learn_manifest. by rewrite Hs, Hk. }
  destruct r as [pkg|e]; [|done].
  destruct ((jget "scripts" pkg ≫= jget event) ≫= as_str) as [script|] eqn:Hscript; [|done].
  set (s1 := {| known := learn_manifest (Ok pkg) (known s); file := Some ("package.json", pkg);
                asked := asked s; typed := typed s |}).
  assert (Hown : own_script s1 "." script = true).
  { unfold own_script, is_script. simpl file. rewrite Ho, Hi. rewrite !bool_decide_eq_true_2 by done. simpl.
    apply (existsb_exists (λ ev, bool_decide ((jget "scripts" pkg ≫= jget ev) ≫= as_str = Some script))
      ["preinstall"; "install"; "postinstall"; "prepare"]). exists event.
    split; [by apply list_elem_of_In|]. by apply bool_decide_eq_true_2. }
  intros path. exists s1. split; [apply path_env|]. intros status. exists s1. split; [|done].
  cbn [consent]. unfold consented. by rewrite Hown.
Qed.

(** Scripts of packages. *)
Definition same (s s' : Consent) : Prop := known s' = known s ∧ asked s' = asked s ∧ typed s' = typed s.
Lemma dependency_may_run_same s s' dir : same s s' → dependency_may_run s' dir = dependency_may_run s dir.
Proof. intros (H1 & H2 & H3). unfold dependency_may_run, may_run, trusts. by rewrite H1, H2, H3. Qed.
Lemma script_of_found v hook script :
  script_of v hook = Some script → (jget "scripts" v ≫= jget hook) ≫= as_str = Some script.
Proof.
  unfold script_of. destruct (jget "scripts" v) as [j|]; [|done]. simpl.
  by destruct j.
Qed.
Lemma run_install_script_keeps k dir s :
  planning k = true → known s = k → dependency_may_run s dir = true →
  safe consent (run_install_script dir) (keeps k) s.
Proof.
  intros Hk Hs Hmay. unfold run_install_script.
  apply (safe_act consent (ReadJson (pjoin dir "package.json"))). intros [v|e]; cycle 1.
  { eexists. split; [reflexivity|]. change (keeps k (Ok tt) (learn (λ k, if decide (pjoin dir "package.json" = "package.json") then learn_manifest (Err e) k else k) s)).
    unfold keeps. simpl. case_decide; [|done]. unfold learn_manifest. by rewrite Hs, Hk. }
  set (s1 := {| known := known s; file := Some (pjoin dir "package.json", v); asked := asked s; typed := typed s |}).
  exists s1. split.
  { cbn [consent]. case_decide; [|done]. unfold learn_manifest. by rewrite Hs, Hk, <- Hs. }
  apply (safe_each consent _ _ (eq s1)); [done| |by intros ? <-].
  intros hook ? <- Hin. destruct (script_of v hook) as [script|] eqn:Hscript; [|done].
  intros status. exists s1. split; [|done]. cbn [consent].
  assert (H : consented s1 dir script = true); [|by rewrite H].
  unfold consented. rewrite (dependency_may_run_same s s1 dir) by done. rewrite Hmay. apply orb_true_iff. right.
  unfold is_script. simpl file. cbv beta iota. rewrite bool_decide_eq_true_2 by done. simpl andb.
  apply (existsb_exists (λ ev, bool_decide ((jget "scripts" v ≫= jget ev) ≫= as_str = Some script)) install_hooks).
  exists hook. split; [by apply list_elem_of_In|]. apply bool_decide_eq_true_2. by apply script_of_found.
Qed.
Lemma prompt_keeps n policy s :
  safe consent (prompt_install_script n false policy)
    (λ r s', known s' = known s ∧ asked s' = asked s ∧
       match r with
       | Ok Deny | Err _ => True
       | Ok _ => Policy.allows_install_script policy n = true ∨ match read_answer (typed s') with Deny => false | _ => true end = true
       end) s.
Proof.
  unfold prompt_install_script. destruct (Policy.allows_install_script policy n); [by split_and!; [..|left]|].
  apply (safe_act consent Answers). intros answers. eexists. split; [reflexivity|].
  destruct (read_answer answers) eqn:Ha; [| |done].
  - split_and!; [done..|]. right. simpl. by rewrite Ha.
  - unfold append_to_policy_allowlist. intros text. eexists. split; [reflexivity|]. simpl.
    destruct (amended_policy _ n); simpl; [intros w; eexists; split; [reflexivity|]|];
      (split_and!; [done..|right; simpl; by rewrite Ha]).
Qed.

Definition at_scripts (m : Json) (g : DepGraph) (root cwd : string) (policy : Policy.OathPolicy) : Known := {|
  planning := true; k_manifest := m; k_graph := Some g; k_store := root; k_dir := cwd; k_policy := Some policy |}.
Lemma may_run_intro m g root cwd policy dir n s :
  known s = at_scripts m g root cwd policy → n ∈ graph_nodes g →
  o_ignore_scripts o || negb (has_install_script n) = false → Policy.is_package_banned policy (name n) = false →
  dir = pjoin cwd ("node_modules/" +:+ install_name n) ∨ dir = store_dir root n →
  trusts s policy dir n = true → dependency_may_run s dir = true.
Proof.
  intros Hs Hn [Hi Hh]%orb_false_iff Hb Hdir Ht. unfold dependency_may_run. rewrite Hs. simpl.
  apply existsb_exists. exists n. split; [by apply list_elem_of_In|].
  unfold may_run. rewrite Ht, Hi, Hb. apply negb_false_iff in Hh. rewrite Hh, Hs. simpl.
  by rewrite bool_decide_eq_true_2.
Qed.
Lemma consider_script_keeps m g root cwd policy n s :
  known s = at_scripts m g root cwd policy → n ∈ graph_nodes g →
  safe consent (consider_script o (trusted_list m) policy root cwd n)
    (keeps (at_scripts m g root cwd policy)) s.
Proof.
  intros Hs Hn. unfold consider_script.
  destruct (o_ignore_scripts o || negb (has_install_script n)) eqn:Hskip; [done|].
  destruct (Policy.is_package_banned policy (name n)) eqn:Hban; [done|]. cbv zeta.
  set (linked := pjoin cwd ("node_modules/" +:+ install_name n)).
  apply (safe_act consent (Exists linked)). intros is_linked. exists s. split; [done|].
  set (dir := if is_linked : bool then linked else store_dir root n).
  assert (Hdir : dir = linked ∨ dir = store_dir root n) by (destruct is_linked; auto).
  assert (Hrun : ∀ s', known s' = at_scripts m g root cwd policy → trusts s' policy dir n = true →
    safe consent (run_install_script dir) (keeps (at_scripts m g root cwd policy)) s').
  { intros s' Hs' Ht. apply run_install_script_keeps; [done..|]. by eapply may_run_intro. }
  destruct (bool_decide (name n ∈ trusted_list m) || o_yes o) eqn:Htrust.
  - apply (safe_act consent (Exists dir)). intros there. exists s. split; [done|]. apply watch_bind.
    destruct there; [|done]. eapply watch_mono; [apply Hrun; [done|]|by intros []].
    unfold trusts. rewrite Hs. simpl k_manifest. by rewrite Htrust.
  - destruct (o_run_scripts o) eqn:Hr; [|done].
    apply (safe_act consent (Exists dir)). intros there. exists s. split; [done|]. destruct there; [|done].
    apply (safe_act consent (Scan (name n) (version n) dir)). intros report. eexists. split; [reflexivity|].
    destruct report as [report|e]; [|done].
    unfold detect_install_script. apply watch_bind.
    apply (safe_act consent (ReadJson (pjoin dir "package.json"))). intros read. eexists. split; [reflexivity|].
    apply watch_bind. eapply watch_mono; [apply prompt_keeps|].
    intros [decision|e] s' (Hk & Ha & Hd); simpl in Hk, Ha.
    + assert (Hs' : known s' = at_scripts m g root cwd policy).
      { rewrite Hk. case_decide; [|done]. unfold learn_manifest. by rewrite Hs. }
      apply watch_bind. destruct decision; [| |done].
      all: eapply watch_mono; [apply Hrun; [done|]|by intros []].
      all: unfold trusts; rewrite Hs', Ha, Hr; simpl k_manifest; rewrite Htrust; simpl;
        rewrite bool_decide_eq_true_2 by done; apply orb_true_iff; tauto.
    + unfold keeps. rewrite Hk. case_decide; [|done]. unfold learn_manifest. by rewrite Hs.
Qed.
Lemma scripts_keep m g root cwd s :
  (∃ p, known s = {| planning := true; k_manifest := m; k_graph := Some g; k_store := root; k_dir := cwd; k_policy := p |}) →
  safe consent (scripts o (trusted_list m) root cwd g) (λ r s', ∃ p, known s' = at_scripts m g root cwd p) s.
Proof.
  intros [p Hs]. unfold scripts. apply (safe_act consent LoadPolicy). intros policy. eexists. split; [reflexivity|].
  apply (safe_fold consent _ _ _ (λ _ _ s, known s = at_scripts m g root cwd policy)); [simpl; by rewrite Hs| |by eauto].
  intros n l' blocked t Ht Hin. apply watch_bind. eapply watch_mono; [by apply consider_script_keeps|].
  intros [b|e] s' H; [exact H|by eexists].
Qed.

(** What is trusted is what the manifest said before the plan was made. *)
Lemma alist_get_obj_insert k k' v m : k ≠ k' → alist_get k (obj_insert k' v m) = alist_get k m.
Proof.
  intros Hk. induction m as [|[k2 v2] m IH]; simpl; [by rewrite decide_False|].
  repeat case_decide; subst; simpl; repeat case_decide; try done; subst; try done.
Qed.
Lemma jget_index_set k k' v j j' : k ≠ k' → index_set k' v j = Some j' → jget k j' = jget k j.
Proof.
  intros Hk. destruct j; try done; simpl; intros [= <-]; simpl; [by rewrite decide_False|].
  by apply alist_get_obj_insert.
Qed.
Lemma jget_index_set2 k k1 k2 v j j' : k ≠ k1 → index_set2 k1 k2 v j = Some j' → jget k j' = jget k j.
Proof.
  unfold index_set2. destruct (index_set k2 v _) as [inner|]; [|done]. simpl. by apply jget_index_set.
Qed.
Lemma trusted_list_eq j j' : jget "trustedDependencies" j' = jget "trustedDependencies" j → trusted_list j' = trusted_list j.
Proof. unfold trusted_list. by intros ->. Qed.
Lemma add_requests_trusted dev pkg l pkg' : add_requests dev pkg l = Some pkg' → trusted_list pkg' = trusted_list pkg.
Proof.
  assert (Hk : "trustedDependencies" ≠ dep_key dev) by by destruct dev.
  assert (Hl : ∀ l a, foldl (λ pkg spec, pkg ← pkg; let '(n, v) := parse_package_spec spec in
      index_set2 (dep_key dev) n (JString v) pkg) a l = Some pkg' →
    ∃ a', a = Some a' ∧ trusted_list pkg' = trusted_list a').
  { clear l. induction l as [|spec l IH]; intros a; simpl; [by eauto|]. intros H.
    apply IH in H as (b & Hb & ->). destruct a as [a|]; [|done]. exists a. split; [done|].
    simpl in Hb. destruct (parse_package_spec spec) as [n v]. apply trusted_list_eq. by eapply jget_index_set2. }
  unfold add_requests. destruct (jget (dep_key dev) pkg).
  - simpl. intros H. by apply Hl in H as (a & [= <-] & ->).
  - destruct (index_set _ _ pkg) as [pkg0|] eqn:H0; [|done]. simpl. intros H. apply Hl in H as (a & [= <-] & ->).
    apply trusted_list_eq. by eapply jget_index_set.
Qed.
Definition before_planning (s : Consent) : Prop := planning (known s) = false.
Definition pending_trust (m : Json) (p : Project) : Prop :=
  match pending p with Some pkg => trusted_list pkg = trusted_list m | None => True end.
Lemma install_project_trust s :
  before_planning s → k_manifest (known s) = JNull →
  safe consent (install_project o) (λ r s', before_planning s' ∧
    match r with Ok p => pending_trust (k_manifest (known s')) p | Err _ => True end) s.
Proof.
  intros Hs Hm. unfold install_project. case_decide.
  - intros r. eexists. split; [reflexivity|]. cbn. unfold learn_manifest. rewrite Hs. by destruct r.
  - intros there. exists s. split; [done|].
    assert (Hpend : ∀ pkg s', before_planning s' → trusted_list pkg = trusted_list (k_manifest (known s')) →
      safe consent (pkg' ← panic_unless (add_requests (o_dev o) pkg (o_packages o));
        mret (project_of "project" pkg' (Some pkg') ((λ s, (parse_package_spec s).1) <$> o_packages o)))
        (λ r s', before_planning s' ∧ match r with Ok p => pending_trust (k_manifest (known s')) p | Err _ => True end) s').
    { intros pkg s' Hs' Ht. destruct (add_requests _ _ _) as [pkg'|] eqn:Hadd; [|done]. split; [done|].
      unfold pending_trust. simpl. rewrite <- Ht. by eapply add_requests_trusted. }
    destruct there.
    + intros r. eexists. split; [reflexivity|].
      destruct r as [pkg|e]; cbn; unfold learn_manifest; rewrite Hs; [|done]. apply Hpend; [done|]. done.
    + apply Hpend; [done|]. by rewrite Hm.
Qed.
Lemma trusted_deps_trust p s :
  before_planning s → pending_trust (k_manifest (known s)) p →
  safe consent (trusted_deps p) (λ r s',
    match r with Ok t => trusted_list (k_manifest (known s')) = t | Err _ => True end) s.
Proof.
  unfold trusted_deps, pending_trust. intros Hs. destruct (pending p) as [pkg|]; [by intros ->|]. intros _ r.
  eexists. split; [reflexivity|]. cbn. unfold learn_manifest. rewrite Hs. by destruct r.
Qed.

(** From planning on, the manifest that counts does not change. *)
Definition silent X (e : Act X) : Prop := match e with Sh _ _ _ => False | _ => True end.
Definition planned (m : Json) (s : Consent) : Prop := planning (known s) = true ∧ k_manifest (known s) = m.
Lemma silent_step m X (e : Act X) x s :
  silent X e → planned m s → ∃ s', consent s X e x = Some s' ∧ planned m s'.
Proof.
  intros He [Hp Hm]. destruct s as [k fl a t]. simpl in *.
  destruct e; try done; (eexists; split; [reflexivity|]); try done; unfold planned; cbn.
  - case_decide; [|done]. unfold learn_manifest. by rewrite Hp.
  - by case_decide.
  - by destruct x.
  - by destruct x.
Qed.
Lemma silent_after {A B} (p : command A) (f : A → command B) Q s m :
  only silent p → planned m s → (∀ a s', planned m s' → safe consent (f a) Q s') →
  (∀ e s', Q (Err e) s') → safe consent (p ≫= f) Q s.
Proof.
  intros Hp Hs Hf HQ. apply (safe_after silent consent (planned m)); auto.
  intros X e x t He Ht. by apply silent_step.
Qed.
Lemma silent_planned {A} (p : command A) s m (Q : result Stop A → Consent → Prop) :
  only silent p → planned m s → (∀ r s', planned m s' → Q r s') → safe consent p Q s.
Proof.
  intros Hp Hs HQ. apply (only_safe silent consent (planned m)); auto.
  intros X e x t He Ht. by apply silent_step.
Qed.
Ltac silent_tac := only_tac; try exact I.
Lemma hydrate_silent plan : only silent (hydrate_missing_registry_metadata plan).
Proof. unfold hydrate_missing_registry_metadata. silent_tac. Qed.
Lemma all_verified_silent l : only silent (all_verified l).
Proof. induction l as [|[k e] es IH]; [done|]. split; [done|]. intros v. simpl. by destruct (is_verified v). Qed.
Lemma legacy_graph_silent p : only silent (legacy_graph o p).
Proof.
  unfold legacy_graph, resolve_graph, lockfile_all_cached. silent_tac. apply all_verified_silent.
Qed.
Lemma plan_dir_silent dir request : only silent (plan_dir dir request).
Proof. unfold plan_dir. apply only_bind; [by apply only_try|intros plan; apply hydrate_silent]. Qed.
Lemma install_graph_planned cwd p s :
  safe consent (install_graph o cwd p) (λ r s', match r with
    | Ok pg => planned (k_manifest (known s)) s' | Err _ => True end) s.
Proof.
  unfold install_graph. apply (safe_act consent (GetEnv "OATH_RESOLVER")). intros resolver.
  exists (learn learn_planning s). split; [done|].
  assert (Hp : planned (k_manifest (known s)) (learn learn_planning s)) by done.
  case_decide.
  - by eapply silent_after; [apply legacy_graph_silent|done|..].
  - eapply silent_after; [apply plan_dir_silent|done|intros plan s' Hs'|done].
    apply watch_lift. by destruct (to_dep_graph plan).
Qed.
Lemma plan_install_trust cwd s :
  before_planning s → k_manifest (known s) = JNull →
  safe consent (plan_install o cwd) (λ r s', match r with
    | Ok p => ∃ m, planned m s' ∧ pl_trusted p = trusted_list m
    | Err _ => True end) s.
Proof.
  intros Hs Hm. unfold plan_install. apply watch_bind. eapply watch_mono; [by apply install_project_trust|].
  intros [p|e] s1 [Hs1 Hp]; [|done].
  apply watch_bind. eapply watch_mono; [by apply trusted_deps_trust|]. intros [t|e] s2 Ht; [|done].
  apply watch_bind. eapply watch_mono; [apply install_graph_planned|]. intros [[plan g]|e] s3 Hg; [|done].
  destruct Hg as [Hpl Hg].
  eapply silent_after; [by destruct (settled o p _)|done|intros [[manifest deps] dev_deps] s4 Hs4|done].
  eapply silent_after; [unfold check_frozen; silent_tac|done|intros _ s5 Hs5|done].
  simpl. by eexists.
Qed.

(** From the plan to the scripts. *)
Definition stored (m : Json) (root : string) (s : Consent) : Prop :=
  planned m s ∧ k_store (known s) = root.
Definition in_store X (e : Act X) : Prop := match e with Sh _ _ _ | OpenStore => False | _ => True end.
Lemma in_store_step m root X (e : Act X) x s :
  in_store X e → stored m root s → ∃ s', consent s X e x = Some s' ∧ stored m root s'.
Proof.
  intros He [[Hp Hm] Hr]. destruct s as [k fl a t]. simpl in *.
  destruct e; try done; (eexists; split; [reflexivity|]); try done; unfold stored, planned; cbn.
  - case_decide; [|done]. unfold learn_manifest. by rewrite Hp.
  - by case_decide.
  - by destruct x.
Qed.
Lemma in_store_after {A B} (p : command A) (f : A → command B) Q s m root :
  only in_store p → stored m root s → (∀ a s', stored m root s' → safe consent (f a) Q s') →
  (∀ e s', Q (Err e) s') → safe consent (p ≫= f) Q s.
Proof.
  intros Hp Hs Hf HQ. apply (safe_after in_store consent (stored m root)); auto.
  intros X e x t He Ht. by apply in_store_step.
Qed.
Lemma join_all_in_store limits tasks pending acc : only in_store (join_all limits tasks pending acc).
Proof.
  revert pending acc. induction tasks as [|tasks IH]; intros pending acc; [done|]. destruct pending as [|p l]; [done|].
  cbn [join_all]. unfold download_tarball_to_temp, tarball_bytes, file_dependency_path, materialize_file_dependency,
    git_cache_path, fetch_git, copy_cached, extract_and_store, store_node.
  only_tac.
Qed.
Lemma download_in_store l : only in_store (download_missing_nodes l).
Proof. unfold download_missing_nodes. only_tac; apply join_all_in_store. Qed.
Lemma missing_in_store g : only in_store (missing_store_nodes g).
Proof. unfold missing_store_nodes, missing_step. only_tac. Qed.
Lemma min_age_in_store a l : only in_store (check_min_age a l).
Proof. unfold check_min_age, too_recent, release_age. only_tac. Qed.
Lemma link_known {B} plan g dir (f : unit → command B) Q s k :
  made plan g → known s = k → planning k = true →
  (∀ u s', known s' = learn_graph (Some g) k → safe consent (f u) Q s') → (∀ e s', Q (Err e) s') →
  safe consent (link plan g dir ≫= f) Q s.
Proof.
  intros Hm Hk Hp Hf HQ. apply watch_bind. unfold link. destruct plan as [p|]; simpl in Hm.
  - apply safe_try. intros r. eexists. split; [reflexivity|]. rewrite Hm. destruct r; [|apply HQ].
    intros [[]|e]; (eexists; split; [reflexivity|]); [|apply HQ]. apply Hf. simpl. by rewrite Hk.
  - apply safe_try. intros r. eexists. split; [reflexivity|]. destruct r; [|apply HQ]. apply Hf. simpl. by rewrite Hk.
Qed.

Lemma own_keeps (p : command unit) k s :
  known s = k → (o_packages o = [] → o_ignore_scripts o = false → safe consent p (keeps k) s) →
  safe consent (when (bool_decide (o_packages o = []) && negb (o_ignore_scripts o)) p) (keeps k) s.
Proof.
  intros Hs Hp. destruct (bool_decide (o_packages o = [])) eqn:Ho; [|done].
  destruct (o_ignore_scripts o) eqn:Hi; [done|]. apply bool_decide_eq_true_1 in Ho. by apply Hp.
Qed.
Lemma lifecycle_keeps k events s :
  (∀ ev, ev ∈ events → ev ∈ ["preinstall"; "install"; "postinstall"; "prepare"]) →
  planning k = true → known s = k →
  safe consent (when (bool_decide (o_packages o = []) && negb (o_ignore_scripts o)) (each run_root_lifecycle events))
    (keeps k) s.
Proof.
  intros Hev Hk Hs. apply own_keeps; [done|intros Ho Hi].
  apply (safe_each consent _ _ (λ s, known s = k)); [done| |done].
  intros ev s' Hs' Hin. eapply watch_mono; [apply root_lifecycle_keeps; [done|done|by apply Hev|done|done]|]. by intros [] s'' H.
Qed.
Lemma apply_install_safe p m s :
  planned m s → pl_trusted p = trusted_list m → made (pl_plan p) (pl_graph p) →
  safe consent (apply_install o p) (λ _ _, True) s.
Proof.
  intros Hs Ht Hm. unfold apply_install. cbv zeta. rewrite Ht. apply watch_bind. eapply watch_mono.
  { apply (own_keeps _ (known s)); [done|intros Ho Hi]. apply root_lifecycle_keeps; [done..| |apply Hs|done]. left. }
  intros [u|e] s1 Hs1; [|done]. assert (Hs' : planned m s1) by (unfold planned; by rewrite Hs1).
  apply safe_try. intros [root|e]; (eexists; split; [reflexivity|]); [|done].
  eapply (in_store_after _ _ _ _ m root); [by apply only_try|done|intros _ s2 Hs2|done].
  eapply in_store_after; [apply missing_in_store|done|intros found s3 Hs3|done].
  eapply in_store_after; [apply min_age_in_store|done|intros _ s4 Hs4|done].
  eapply in_store_after; [apply download_in_store|done|intros d s5 [Hs5 Hr5]|done].
  apply safe_try. intros [cwd|e]; (eexists; split; [reflexivity|]); [|done].
  eapply link_known; [done|reflexivity|apply Hs5|intros _ s6 Hs6|done].
  assert (H6 : known s6 = {| planning := true; k_manifest := m; k_graph := Some (pl_graph p); k_store := root;
                             k_dir := cwd; k_policy := k_policy (known s5) |}).
  { rewrite Hs6. destruct s5 as [k ? ? ?], k, Hs5 as [Hp5 Hm5]. simpl in *. by subst. }
  refine (steady_after _ _ _ _ _ _ _ H6 _ _); [unfold write_results; only_tac|done|intros _ s7 Hs7|done].
  apply watch_bind. eapply watch_mono; [apply (scripts_keep m (pl_graph p) root cwd); by eexists|].
  intros [blocked|e] s8 Hs8; [destruct Hs8 as [policy Hs8]|done].
  refine (steady_after _ _ _ _ _ _ _ Hs8 _ _); [unfold audit, scan_node; only_tac|done|intros reports s9 Hs9|done].
  apply watch_bind. eapply watch_mono; [refine (lifecycle_keeps _ _ _ _ _ Hs9); [by right|done]|].
  intros [u9|e] s10 Hs10; [|done].
  intros dir. destruct dir; eexists; (split; [reflexivity|]); intros ?; eexists; by split.
Qed.

(** ** The command *)

Lemma join_all_silent limits tasks pending acc : only silent (join_all limits tasks pending acc).
Proof.
  apply (only_mono in_store); [|apply join_all_in_store]. intros X e. by destruct e.
Qed.
Lemma workspace_silent ws dry_run : only silent (cmd_install_workspace ws dry_run).
Proof.
  unfold cmd_install_workspace, download_missing_nodes, missing_store_nodes, missing_step, Install.link.
  only_tac; try (apply plan_dir_silent || apply join_all_silent).
Qed.
Lemma global_silent packages dry_run : only silent (cmd_install_global packages dry_run).
Proof.
  unfold cmd_install_global, download_missing_nodes, missing_store_nodes, missing_step, Install.link, link_bins, link_bin.
  only_tac; try (apply plan_dir_silent || apply join_all_silent).
Qed.
Lemma silent_accepted {A} (p : command A) s : only silent p → safe consent p (λ _ _, True) s.
Proof.
  intros Hp. apply (only_safe silent consent (λ _, True)); try done.
  intros X e x t He _. destruct e; try done; eexists; by split.
Qed.

(** (C12) Up to any point, in any world, every shell command of an install is a script of the
    project itself, unless packages are added or scripts are ignored, or the script that
    the package.json in the directory gives, where the directory is that of a package of
    the graph that was linked which has an install script, no policy bans, and which
    the manifest trusted by name before planning, or [--yes] covers, or, with
    [--run-scripts], the policy allows or the user agreed to after being shown that very
    package. *)
Theorem scripts_need_consent tr r :
  performs (cmd_install o) tr r → is_Some (watch consent nothing_known tr).
Proof.
  intros Hp. assert (H : safe consent (cmd_install o) (λ _ _, True) nothing_known).
  { unfold cmd_install. destruct (o_global o); [apply silent_accepted, global_silent|].
    apply watch_bind. destruct (negb (o_frozen o && _)); [|done].
    assert (Hrest : safe consent (cwd ← try CanonicalDir; ws ← act (DetectWorkspace cwd);
        match ws, o_packages o with
        | Some ws, [] => cmd_install_workspace ws (o_dry_run o)
        | _, _ => p ← plan_install o cwd; if o_dry_run o then mret tt else apply_install o p
        end) (λ _ _, True) nothing_known).
    { intros [cwd|e]; (eexists; split; [reflexivity|]); [|done]. intros ws. eexists. split; [reflexivity|].
      assert (Hplan : safe consent (p ← plan_install o cwd; if o_dry_run o then mret tt else apply_install o p)
        (λ _ _, True) nothing_known).
      { apply watch_bind. eapply watch_mono.
        { eapply safe_returns; [apply plan_install_made|by apply plan_install_trust]. }
        intros [p|e] s [Hm Hg]; [|done]. destruct Hm as (m & Hs & Ht). destruct (o_dry_run o); [done|]. by eapply apply_install_safe. }
      destruct ws as [ws|]; [|exact Hplan].
      destruct (o_packages o); [apply silent_accepted, workspace_silent|exact Hplan]. }
    destruct (o_frozen o); [|exact Hrest]. intros [|]; (eexists; split; [reflexivity|]); [exact Hrest|done]. }
  destruct (safe_sound consent _ _ _ _ _ H Hp) as (s & Hw & _). eauto.
Qed.
End consent.

Definition runs (ev : event Act) : bool := match action ev with Sh _ _ _ => true | _ => false end.
Lemma scripts_need_consent_witness :
  let trusted := run (scene_world (scene ["a"] [])) (demo_command (Install plain_options)) in
  let untrusted := run (scene_world (scene [] [])) (demo_command (Install plain_options)) in
  existsb runs trusted.1 = true ∧ existsb runs untrusted.1 = false ∧
  is_Some (watch (@consent default_iter sample_lib plain_options) nothing_known trusted.1).
Proof.
  split; [vm_compute; reflexivity|]. split; [vm_compute; reflexivity|].
  exact (@scripts_need_consent demo_sha default_iter sample_lib demo plain_options _ _ (run_performs _ _)).
Defined.
