(* ===== verification/Flags.v ===== *)
(** * What the options of an install promise ([main.rs])

    A monitor of [--dry-run], [--frozen-lockfile] and [--min-age]: there is only planning; the
    tree that is linked is the one the lockfile has and the manifest asks for, and neither
    file is written; nothing goes into the store that is known to be too young. The last
    two are not kept for workspaces and global packages, which ignore the options. *)
From S2P Require Import Store Core Report Versions Tarball Git Workspace Placement Cli Command Install.

(** [checked] are the packages the registry was asked about, what it said, and the clock. *)
Notation Checked := (string * result string Json * option (option Z))%type.
Record Flags := {
  elsewhere : bool; first_manifest : option Json; last_lock : option Lockfile; checked : list Checked }.
Definition no_flags (global : bool) : Flags :=
  {| elsewhere := global; first_manifest := None; last_lock := None; checked := [] |}.
Definition publish_time (full : result string Json) (v : string) : option string :=
  match full with Ok j => jget "time" j ≫= jget v | Err _ => None end ≫= as_str.
(** Nothing the registry said makes the release younger than the limit. *)
Definition old_enough (limit : Z) (n v : string) (c : Checked) : bool :=
  bool_decide (c.1.1 = n)
  && match publish_time c.1.2 v, c.2 with
     | None, _ => true
     | Some _, None => false
     | Some iso, Some now =>
         match parse_iso_age_secs now iso with Ok age => negb (age <? limit)%Z | Err Absent => true | Err Panic => false end
     end.
Definition at_clock (now : option Z) (l : list Checked) : list Checked :=
  match l with (n, full, None) :: l => (n, full, Some now) :: l | _ => l end.
(** Actions that only read. *)
Definition reads X (e : Act X) : bool :=
  match e with
  | Exists _ | IsThere _ | IsDir _ | IsFile _ | ReadText _ | ReadJson _ | GetEnv _ | Home | TempDir | CurrentDir
  | CanonicalDir | Now | Answers | DetectWorkspace _ | ReadPlan _ | ImportNpm _
  | ReadLock _ | FetchFull _ | VerifyVariant _ _ _ _ | ReadLimits
  | FileUrlPath _ | FileLength _ | LoadPolicy | Scan _ _ _ => true
  | _ => false
  end.
(** Actions that leave traces beside the project: the directories of the store and of the
    cache are made if they are not there, the registry's answers are cached, npm's planner
    is run on the project. They write nothing into the project and no package into the
    store. *)
Definition prepares X (e : Act X) : bool :=
  match e with
  | Plan _ _ | ResolveGraph _ _ | NewClient | FetchPackument _ | OpenStore => true
  | _ => false
  end.
Definition planning X (e : Act X) : bool := reads X e || prepares X e.

Section flags.
Context {SH : Sha256Hex} {HI : HashIter} {SL : StoreLib} {MC : Machine}.
Variable o : InstallOptions.
Definition expected_lock (m : Json) (g : DepGraph) : Lockfile :=
  from_graph_with_manifest g (string_field "name" "unnamed" m) (string_field "version" "0.0.0" m)
    (extract_deps m "dependencies") (extract_deps m "devDependencies").
Definition frozen_as (s : Flags) (g : DepGraph) : bool :=
  match first_manifest s, last_lock s with
  | Some m, Some l => lockfiles_match_for_frozen l (expected_lock m g)
  | _, _ => false
  end.
Definition may_link (s : Flags) (g : DepGraph) : bool := elsewhere s || negb (o_frozen o) || frozen_as s g.
Definition may_link_plan (s : Flags) (plan : PlacementPlan) : bool :=
  elsewhere s || match to_dep_graph plan with Ok g => may_link s g | Err _ => false end.
Definition min_age_limit : option Z := o_min_age o ≫= parse_duration_secs.
Definition is_from_registry (url : string) : bool :=
  negb (starts_with "git+" url || starts_with "github:" url || starts_with "gitlab:" url || starts_with "bitbucket:" url).
Definition may_store (s : Flags) (n v url : string) : bool :=
  elsewhere s || negb (is_from_registry url)
  || match min_age_limit with Some limit => existsb (old_enough limit n v) (checked s) | None => true end.
Definition may_do (s : Flags) X (e : Act X) : bool :=
  (planning X e || negb (o_dry_run o))
  && match e with
     | WriteLock _ _ | WriteJson _ _ => elsewhere s || negb (o_frozen o)
     | LinkPlan plan _ => may_link_plan s plan
     | LinkAll g _ => may_link s g
     | StorePackage n v url _ _ => may_store s n v url
     | _ => true
     end.
Definition note_flags (s : Flags) X (e : Act X) : X → Flags :=
  match e in Act X return X → Flags with
  | DetectWorkspace _ => λ x,
      {| elsewhere := match x, o_packages o with Some _, [] => true | _, _ => elsewhere s end;
         first_manifest := first_manifest s; last_lock := last_lock s; checked := checked s |}
  | ReadJson path => λ x,
      {| elsewhere := elsewhere s;
         first_manifest := match first_manifest s, x with
                           | None, Ok j => if decide (path = "package.json") then Some j else None
                           | m, _ => m end;
         last_lock := last_lock s; checked := checked s |}
  | ReadLock _ => λ x,
      {| elsewhere := elsewhere s; first_manifest := first_manifest s;
         last_lock := match x with Ok l => Some l | Err _ => last_lock s end; checked := checked s |}
  | FetchFull n => λ x,
      {| elsewhere := elsewhere s; first_manifest := first_manifest s; last_lock := last_lock s;
         checked := (n, x, None) :: checked s |}
  | Now => λ x,
      {| elsewhere := elsewhere s; first_manifest := first_manifest s; last_lock := last_lock s;
         checked := at_clock x (checked s) |}
  | _ => λ _, s
  end.
Definition flags (s : Flags) X (e : Act X) (x : X) : option Flags :=
  if may_do s X e then Some (note_flags s X e x) else None.

(** ** Dry runs *)

Definition is_planning X (e : Act X) : Prop := planning X e = true.
Ltac planning_tac := only_tac; try reflexivity.
Lemma hydrate_planning plan : only is_planning (hydrate_missing_registry_metadata plan).
Proof. unfold hydrate_missing_registry_metadata. planning_tac. Qed.
Lemma plan_dir_planning dir request : only is_planning (plan_dir dir request).
Proof. unfold plan_dir. apply only_bind; [by apply only_try|intros plan; apply hydrate_planning]. Qed.
Lemma all_verified_planning l : only is_planning (all_verified l).
Proof. induction l as [|[k e] es IH]; [done|]. split; [done|]. intros v. simpl. by destruct (is_verified v). Qed.
Lemma legacy_graph_planning p : only is_planning (legacy_graph o p).
Proof. unfold legacy_graph, resolve_graph, lockfile_all_cached. planning_tac. apply all_verified_planning. Qed.
Lemma install_graph_planning cwd p : only is_planning (install_graph o cwd p).
Proof. unfold install_graph. planning_tac; [apply legacy_graph_planning|apply plan_dir_planning..]. Qed.
Lemma plan_install_planning cwd : only is_planning (plan_install o cwd).
Proof.
  unfold plan_install, install_project, read_package_json, trusted_deps, panic_unless, check_frozen.
  planning_tac; apply install_graph_planning.
Qed.
Lemma may_do_planning s X (e : Act X) : is_planning X e → may_do s X e = true.
Proof. unfold is_planning, may_do. intros H. rewrite H. by destruct e. Qed.
Lemma planning_accepted {A} (p : command A) s : only is_planning p → safe flags p (λ _ _, True) s.
Proof.
  intros Hp. apply (only_safe is_planning flags (λ _, True)); try done.
  intros X e x t He _. unfold flags. rewrite may_do_planning by done. eexists. by split.
Qed.
Lemma dry_run_accepted s : o_dry_run o = true → safe flags (cmd_install o) (λ _ _, True) s.
Proof.
  intros Hd. apply planning_accepted. unfold cmd_install, cmd_install_global, cmd_install_workspace. rewrite Hd.
  cbv zeta. planning_tac; apply plan_install_planning.
Qed.

(** ** What lasts *)

Definition cleared (limit : Z) (n v : string) (s : Flags) : bool := existsb (old_enough limit n v) (checked s).
Definition kept (s s' : Flags) : Prop :=
  (elsewhere s = true → elsewhere s' = true) ∧
  (∀ m, first_manifest s = Some m → first_manifest s' = Some m) ∧ last_lock s' = last_lock s ∧
  (∀ limit n v, cleared limit n v s = true → cleared limit n v s' = true).
#[local] Instance kept_preorder : PreOrder kept.
Proof.
  split; [by intros s|]. intros a b c (H1 & H2 & H3 & H4) (K1 & K2 & K3 & K4).
  split_and!; [auto..|by rewrite K3|auto].
Qed.
Lemma old_enough_at_clock limit n v now l :
  existsb (old_enough limit n v) l = true → existsb (old_enough limit n v) (at_clock now l) = true.
Proof.
  destruct l as [|[[n' full] [t|]] l]; [done..|]. simpl. intros [H|H]%orb_true_iff; apply orb_true_iff; [left|by right].
  unfold old_enough in *. simpl in *. by destruct (publish_time full v); [rewrite andb_false_r in H|].
Qed.
Definition calm X (e : Act X) : Prop :=
  match e with
  | ReadLock _ | WriteLock _ _ | WriteJson _ _ | LinkPlan _ _ | LinkAll _ _ | StorePackage _ _ _ _ _ => False
  | _ => True
  end.
Lemma calm_step X (e : Act X) x s :
  o_dry_run o = false → calm X e → ∃ s', flags s X e x = Some s' ∧ kept s s'.
Proof.
  intros Hd He. unfold flags, may_do. rewrite Hd, orb_true_r.
  destruct e; try done; (eexists; split; [reflexivity|]); try reflexivity; destruct s as [w m l c]; split_and!; try done.
  - intros m' Hm. simpl in *. by rewrite Hm.
  - intros limit n v. apply old_enough_at_clock.
  - simpl. intros ->. by destruct x, (o_packages o).
  - intros limit n v H. apply orb_true_iff. by right.
Qed.
Lemma calm_after {A B} (p : command A) (f : A → command B) Q s :
  o_dry_run o = false → only calm p → (∀ a s', kept s s' → safe flags (f a) Q s') → (∀ e s', kept s s' → Q (Err e) s') →
  safe flags (p ≫= f) Q s.
Proof.
  intros Hd Hp Hf HQ. apply (safe_after calm flags (kept s)); auto; [|reflexivity].
  intros X e x t He Ht. destruct (calm_step X e x t Hd He) as (s' & ? & ?). exists s'. split; [done|]. by etrans.
Qed.
Lemma calm_kept {A} (p : command A) s :
  o_dry_run o = false → only calm p → safe flags p (λ _ s', kept s s') s.
Proof.
  intros Hd Hp. apply (only_safe calm flags (kept s)); auto; [|reflexivity].
  intros X e x t He Ht. destruct (calm_step X e x t Hd He) as (s' & ? & ?). exists s'. split; [done|]. by etrans.
Qed.

(** ** Frozen lockfiles *)

Definition as_frozen (s : Flags) (g : DepGraph) : Prop := o_frozen o = true → frozen_as s g = true.
Lemma as_frozen_kept s s' g : kept s s' → as_frozen s g → as_frozen s' g.
Proof.
  unfold as_frozen, frozen_as. intros (_ & Hm & Hl & _) H Hf. specialize (H Hf).
  destruct (first_manifest s) as [m|]; [|done]. by rewrite (Hm m), Hl.
Qed.
Lemma may_link_frozen s g : as_frozen s g → may_link s g = true.
Proof.
  unfold may_link, as_frozen. intros H. destruct (o_frozen o); [|by rewrite orb_true_r].
  rewrite H by done. apply orb_true_r.
Qed.
Definition first_is (m : Json) (s : Flags) : Prop := first_manifest s = Some m.
Lemma first_after {A B} (p : command A) (f : A → command B) Q s m :
  only is_planning p → first_is m s → (∀ a s', first_is m s' → safe flags (f a) Q s') → (∀ e s', Q (Err e) s') →
  safe flags (p ≫= f) Q s.
Proof.
  intros Hp Hs Hf HQ. apply (safe_after is_planning flags (first_is m)); auto.
  intros X e x t He Ht. unfold flags. rewrite may_do_planning by done. eexists. split; [done|].
  destruct e; try done. unfold first_is in *. simpl. by rewrite Ht.
Qed.
Lemma planning_safe {A} (p : command A) Q s : only is_planning p → (∀ r s', Q r s') → safe flags p Q s.
Proof. intros Hp HQ. eapply watch_mono; [by apply planning_accepted|]. auto. Qed.
Lemma plan_install_frozen cwd s :
  first_manifest s = None → (o_frozen o = true → o_packages o = []) →
  safe flags (plan_install o cwd) (λ r s', match r with Ok p => as_frozen s' (pl_graph p) | Err _ => True end) s.
Proof.
  intros Hs Hf. destruct (o_frozen o) eqn:Hfr; cycle 1.
  { apply planning_safe; [apply plan_install_planning|]. intros [p|e] s'; [|done]. unfold as_frozen. by rewrite Hfr. }
  unfold plan_install, install_project. rewrite decide_True by auto. unfold read_package_json.
  apply watch_bind. apply safe_try. intros r. unfold flags at 1. rewrite may_do_planning by done. eexists. split; [reflexivity|].
  destruct r as [pkg|e]; [|done]. apply watch_ret. cbv beta iota.
  apply (first_after _ _ _ _ pkg); [by split|unfold first_is; simpl; by rewrite Hs|intros trusted s1 Hs1|done].
  apply (first_after _ _ _ _ pkg); [apply install_graph_planning|done|intros [plan g] s2 Hs2|done].
  unfold settled. simpl pending. cbn [panic_unless snd]. unfold panic_unless. apply watch_bind, watch_ret. cbv beta iota zeta.
  unfold check_frozen, when. rewrite Hfr. apply watch_bind.
  apply safe_try. intros r. unfold flags at 1. rewrite may_do_planning by done. eexists. split; [reflexivity|].
  destruct r as [existing|e]; [|done].
  unfold demand. change (from_graph_with_manifest g _ _ _ _) with (expected_lock pkg g).
  destruct (lockfiles_match_for_frozen existing (expected_lock pkg g)) eqn:Hmatch; [|done].
  intros _. unfold frozen_as. cbn [first_manifest last_lock note_flags]. by rewrite Hs2.
Qed.

(** ** Release ages *)

Definition passed (s : Flags) (n : DepNode) : Prop := may_store s (name n) (version n) (resolved n) = true.
Lemma passed_kept s s' n : kept s s' → passed s n → passed s' n.
Proof.
  intros (Hw & _ & _ & Hc). unfold passed, may_store. rewrite !orb_true_iff. intros [[H|H]|H]; auto.
  right. destruct min_age_limit as [limit|]; [by apply Hc|done].
Qed.
Lemma just_checked limit n s full t l :
  min_age_limit = Some limit → checked s = (name n, full, t) :: l →
  old_enough limit (name n) (version n) (name n, full, t) = true → passed s n.
Proof.
  intros Hl Hc H. unfold passed, may_store. rewrite Hl, Hc. apply orb_true_iff. right. simpl existsb. by rewrite H.
Qed.
Lemma release_age_judged limit n s :
  o_dry_run o = false → min_age_limit = Some limit →
  safe flags (release_age n) (λ r s', kept s s' ∧ match r with
    | Ok (Some a) => (a <? limit)%Z = false → passed s' n | Ok None => passed s' n | Err _ => True end) s.
Proof.
  intros Hd Hl. unfold release_age. apply (safe_act flags (FetchFull (name n))). intros full.
  destruct (calm_step _ (FetchFull (name n)) full s Hd I) as (s1 & Hs1 & Hk). exists s1. split; [done|].
  injection Hs1 as Hs1. fold (publish_time full (version n)).
  assert (Hc : checked s1 = (name n, full, None) :: checked s) by by rewrite <- Hs1.
  destruct (publish_time full (version n)) as [iso|] eqn:Hiso.
  - apply (safe_act flags Now). intros now.
    destruct (calm_step _ Now now s1 Hd I) as (s2 & Hs2 & Hk2). exists s2. split; [done|].
    injection Hs2 as Hs2.
    assert (Hc2 : checked s2 = (name n, full, Some now) :: checked s) by by rewrite <- Hs2; simpl; rewrite Hc.
    assert (Hkept : kept s s2) by by etrans.
    assert (H : ∀ b, match parse_iso_age_secs now iso with
        | Ok age => negb (age <? limit)%Z | Err Absent => true | Err Panic => false end = b →
      old_enough limit (name n) (version n) (name n, full, Some now) = b).
    { intros b <-. unfold old_enough. simpl. by rewrite bool_decide_eq_true_2, Hiso. }
    destruct (parse_iso_age_secs now iso) as [age|[|]]; (split; [done|]); [|done|].
    + intros Ha. eapply just_checked; [done|exact Hc2|]. apply H. by rewrite Ha.
    + eapply just_checked; [done|exact Hc2|]. by apply H.
  - split; [done|]. eapply just_checked; [done|exact Hc|]. unfold old_enough. simpl.
    by rewrite bool_decide_eq_true_2, Hiso.
Qed.
Lemma from_registry_eq n : from_registry n = is_from_registry (resolved n).
Proof. done. Qed.
Lemma check_min_age_passes l s :
  o_dry_run o = false →
  safe flags (check_min_age (o_min_age o) l) (λ r s', kept s s' ∧
    match r with Ok _ => ∀ n, n ∈ l → passed s' n | Err _ => True end) s.
Proof.
  intros Hd. unfold check_min_age. fold min_age_limit.
  destruct min_age_limit as [limit|] eqn:Hl; cycle 1.
  { split; [done|]. intros n _. unfold passed, may_store. rewrite Hl. apply orb_true_r. }
  case_decide as He; [subst; by split; [|intros n Hn; apply not_elem_of_nil in Hn]|].
  apply watch_bind. apply (safe_fold flags _ _ _ (λ rest found t, kept s t ∧
    ∀ n, n ∈ l → n ∈ rest ∨ found ≠ [] ∨ passed t n)).
  - split; [done|auto].
  - intros x rest found t [Hk Ht] Hin. unfold too_recent. destruct (from_registry x) eqn:Hreg; simpl negb; cbv iota.
    + apply watch_bind. eapply watch_mono; [by apply release_age_judged|]. intros [age|e] t' [Hk' Hage]; [|split; [by etrans|done]].
      apply watch_ret. split; [by etrans|]. intros n Hn. destruct (Ht n Hn) as [H|[H|H]].
      * apply elem_of_cons in H as [->|H]; [|by left]. right.
        destruct age as [a|]; [destruct (a <? limit)%Z; [left; by destruct found|]|]; right; by apply Hage.
      * right. left. destruct age as [a|]; [destruct (a <? limit)%Z|]; try done. by destruct found.
      * right. right. by eapply passed_kept.
    + split; [done|]. intros n Hn. destruct (Ht n Hn) as [H|[H|H]]; auto. apply elem_of_cons in H as [->|H]; [|auto].
      right. right. unfold passed, may_store. rewrite <- from_registry_eq, Hreg. simpl. by rewrite orb_true_r.
  - intros found t [Hk Ht]. unfold demand. destruct (bool_decide (found = [])) eqn:Hf; [|by split].
    apply bool_decide_eq_true_1 in Hf. split; [done|]. intros n Hn.
    destruct (Ht n Hn) as [H|[H|H]]; [by apply not_elem_of_nil in H|done|done].
Qed.

Lemma tarball_bytes_calm limits n t : only calm (download_tarball_to_temp limits n t).
Proof.
  unfold download_tarball_to_temp, tarball_bytes, file_dependency_path, materialize_file_dependency, git_cache_path,
    fetch_git, copy_cached. only_tac.
Qed.
Lemma extract_and_store_kept limits n t s :
  o_dry_run o = false → passed s n → safe flags (extract_and_store limits n t) (λ _ s', kept s s') s.
Proof.
  intros Hd Hp. unfold extract_and_store. apply calm_after; [done|by apply only_try|intros _ s1 Hk|done].
  apply (passed_kept _ _ _ Hk) in Hp. intros x. exists s1. split; [|by destruct x].
  unfold flags, may_do. rewrite Hd, orb_true_r. unfold passed in Hp. by rewrite Hp.
Qed.
Lemma join_all_kept limits tasks pending acc s :
  o_dry_run o = false → (∀ p, p ∈ pending → passed s p.2) →
  safe flags (join_all limits tasks pending acc) (λ _ s', kept s s') s.
Proof.
  intros Hd. revert pending acc s. induction tasks as [|tasks IH]; intros pending acc s Hp; [done|].
  destruct pending as [|first rest]; [done|]. set (pending := first :: rest) in *. cbn [join_all]. fold pending.
  apply calm_after; [done|done|intros i s1 Hk1|done].
  assert (Hin : default first (pending !! i) ∈ pending).
  { destruct (pending !! i) as [p|] eqn:Hi; [by eapply list_elem_of_lookup_2|by left]. }
  destruct (default first (pending !! i)) as [t n].
  apply calm_after; [done|apply tarball_bytes_calm|intros len s2 Hk2|by intros; etrans].
  assert (Hk : kept s s2) by by etrans.
  apply watch_bind. eapply watch_mono; [apply extract_and_store_kept; [done|]|].
  { eapply passed_kept; [done|]. by apply (Hp (t, n)). }
  intros [u|e] s3 Hk3; [|by etrans]. eapply watch_mono; [apply IH|intros; do 2 (etrans; [eassumption|]); done].
  intros p Hq. apply list_elem_of_filter in Hq as [_ Hq]. eapply passed_kept; [|by apply Hp]. by etrans.
Qed.
Lemma download_kept l s :
  o_dry_run o = false → (∀ n, n ∈ l → passed s n) → safe flags (download_missing_nodes l) (λ _ s', kept s s') s.
Proof.
  intros Hd Hp. unfold download_missing_nodes. case_decide; [done|].
  apply calm_after; [done|done|intros limits s1 Hk|done].
  eapply watch_mono; [apply join_all_kept; [done|]|by intros; etrans].
  intros [i n] Hin. eapply passed_kept; [done|]. apply Hp.
  apply elem_of_lookup_imap in Hin as (j & n' & [= _ ->] & Hj). by eapply list_elem_of_lookup_2.
Qed.
Lemma missing_calm g : only calm (missing_store_nodes g).
Proof. unfold missing_store_nodes, missing_step. only_tac. Qed.
Lemma root_lifecycle_calm ev : only calm (run_root_lifecycle ev).
Proof. unfold run_root_lifecycle, bin_first_path. only_tac. Qed.
Lemma scripts_calm trusted root cwd g : only calm (scripts o trusted root cwd g).
Proof.
  unfold scripts, consider_script, detect_install_script, prompt_install_script, append_to_policy_allowlist,
    run_install_script. only_tac.
Qed.
Lemma audit_calm root g : only calm (audit root g).
Proof. unfold audit, scan_node. only_tac. Qed.
Lemma calm_accepted {A} (p : command A) s : o_dry_run o = false → only calm p → safe flags p (λ _ _, True) s.
Proof. intros Hd Hp. eapply watch_mono; [by apply calm_kept|done]. Qed.
Lemma flags_may X (e : Act X) x s : may_do s X e = true → flags s X e x = Some (note_flags s X e x).
Proof. unfold flags. by intros ->. Qed.
Lemma may_do_wet X (e : Act X) : o_dry_run o = false → planning X e || negb (o_dry_run o) = true.
Proof. intros ->. apply orb_true_r. Qed.
Lemma link_flags {B} plan g dir (f : unit → command B) s :
  o_dry_run o = false → made plan g → may_link s g = true → (∀ u, safe flags (f u) (λ _ _, True) s) →
  safe flags (link plan g dir ≫= f) (λ _ _, True) s.
Proof.
  intros Hd Hm Hl Hf. apply watch_bind. unfold link. destruct plan as [p|]; simpl in Hm; apply safe_try; intros r;
    exists s; (split; [apply flags_may; unfold may_do, may_link_plan; rewrite may_do_wet by done|]).
  - by rewrite Hm, Hl, orb_true_r.
  - destruct r; [|done]. intros x. exists s. split; [apply flags_may; unfold may_do; by rewrite may_do_wet|].
    destruct x; [apply Hf|done].
  - by rewrite Hl.
  - destruct r; [apply Hf|done].
Qed.
Lemma write_results_flags {B} l m (f : unit → command B) s :
  o_dry_run o = false → (o_frozen o = true → m = None) → (∀ u s', kept s s' → safe flags (f u) (λ _ _, True) s') →
  safe flags (write_results (o_frozen o) l m ≫= f) (λ _ _, True) s.
Proof.
  intros Hd Hm Hf. unfold write_results. apply watch_bind, watch_bind.
  assert (Hjson : o_frozen o = false → ∀ X (e : Act X) x, match e with WriteLock _ _ | WriteJson _ _ => True | _ => False end →
    flags s X e x = Some s).
  { intros Hfr X e x He. unfold flags, may_do. rewrite may_do_wet, Hfr by done. by destruct e; try done; rewrite orb_true_r. }
  destruct (o_frozen o); simpl when.
  - apply watch_ret. rewrite Hm by done. by apply Hf.
  - intros x. exists s. split; [by apply Hjson|]. destruct x; [|done]. destruct m as [pkg|]; [|by apply Hf].
    intros x. exists s. split; [by apply Hjson|]. destruct x; [by apply Hf|done].
Qed.
Lemma apply_install_flags p s :
  o_dry_run o = false → (o_frozen o = true → pl_manifest p = None) →
  made (pl_plan p) (pl_graph p) → as_frozen s (pl_graph p) → safe flags (apply_install o p) (λ _ _, True) s.
Proof.
  intros Hd Hman Hm Hfr. unfold apply_install. cbv zeta.
  apply calm_after; [done|apply only_when, root_lifecycle_calm|intros _ s1 Hk1|done].
  apply calm_after; [done|done|intros root s2 Hk2|done].
  apply calm_after; [done|done|intros _ s3 Hk3|done].
  apply calm_after; [done|apply missing_calm|intros m s4 Hk4|done].
  apply watch_bind. eapply watch_mono; [by apply check_min_age_passes|]. intros [u|e] s5 [Hk5 Hp]; [|done].
  apply watch_bind. eapply watch_mono; [by apply download_kept|]. intros [d|e] s6 Hk6; [|done].
  apply calm_after; [done|done|intros cwd s7 Hk7|done].
  apply link_flags; [done..| |].
  { apply may_link_frozen. eapply as_frozen_kept; [|done]. by repeat (etrans; [eassumption|]). }
  intros _. apply write_results_flags; [done..|intros _ s8 Hk8].
  apply calm_accepted; [done|]. only_tac; try (apply scripts_calm || apply audit_calm || apply root_lifecycle_calm).
Qed.

(** ** The command *)

Lemma elsewhere_accepted {A} (p : command A) s :
  o_dry_run o = false → elsewhere s = true → safe flags p (λ _ _, True) s.
Proof.
  intros Hd. revert s. induction p as [r|X e k IH]; intros s Hs; [done|]. intros x.
  assert (H : may_do s X e = true).
  { unfold may_do, may_link_plan, may_link, may_store. rewrite may_do_wet, Hs by done. by destruct e. }
  exists (note_flags s X e x). split; [by apply flags_may|]. apply IH.
  destruct e; try done. simpl. by destruct x, (o_packages o).
Qed.
Lemma plan_install_writes cwd :
  o_packages o = [] → returns (λ p, pl_manifest p = None) (plan_install o cwd).
Proof.
  intros Ho. unfold plan_install.
  apply (returns_bind (λ p, pending p = None)).
  { unfold install_project. rewrite decide_True by done. by apply returns_after. }
  intros p Hp. do 2 (apply returns_after; intros ?).
  apply (returns_bind (λ s, s.1.1 = None)).
  { unfold settled. by rewrite Hp. }
  intros [[manifest deps] dev_deps] Hm. by apply returns_after.
Qed.
Lemma planned_flags cwd s :
  o_dry_run o = false → first_manifest s = None → (o_frozen o = true → o_packages o = []) →
  safe flags (p ← plan_install o cwd; if o_dry_run o then mret tt else apply_install o p) (λ _ _, True) s.
Proof.
  intros Hd Hs Hf. apply watch_bind. eapply watch_mono.
  { eapply safe_returns; [apply plan_install_made|].
    eapply (safe_returns _ (λ p, o_frozen o = true → pl_manifest p = None)); [|by apply plan_install_frozen].
    destruct (o_frozen o).
    - eapply (returns_mono (λ p, pl_manifest p = None)); [by auto|by apply plan_install_writes; auto].
    - eapply (returns_mono (λ _, True)); [done|apply returns_any]. }
  intros [p|e] s' [[Hfr Hman] Hm]; [|done]. rewrite Hd. by apply apply_install_flags.
Qed.

End flags.

Definition stores (ev : event Act) : bool := match action ev with StorePackage _ _ _ _ _ => true | _ => false end.
Definition young_options (age : string) : InstallOptions := {|
  o_packages := []; o_dev := false; o_dry_run := false; o_audit := true; o_yes := false;
  o_run_scripts := false; o_ignore_scripts := false; o_global := false; o_frozen := false;
  o_min_age := Some age |}.
