(* ===== verification/Inspect.v ===== *)
(** * oath-cli: commands that run scripts and show what is there ([main.rs])

    [oath run], [init], [verify], [why], [graph], [licenses], [scan] and [perms], with the
    lines they print. *)
From S2P Require Export Install Scanner.
From S2P Require Import Import Cli Store Lockfile Command.
From stdpp Require Import fin_sets.

(** ** [oath why] *)

(** The dependencies of an entry, in the order of the map; what is not a string is empty. *)
Definition entry_deps (node : Json) : option (list (string * Json)) := jget "dependencies" node ≫= object_of.
Definition dep_entry_key (d : string * Json) : string := d.1 +:+ "@" +:+ default "" (as_str d.2).
(** [rdeps.entry(key).or_default().push(parent)] *)
Definition push_parent (parent : string) (rdeps : gmap string (list string)) (d : string * Json) :
    gmap string (list string) :=
  <[dep_entry_key d := default [] (rdeps !! dep_entry_key d) ++ [parent]]> rdeps.
Definition reverse_deps (packages : list (string * Json)) : gmap string (list string) :=
  foldl (λ rdeps '(k, node), foldl (push_parent k) rdeps (default [] (entry_deps node))) ∅ packages.

Section find_dep_path.
Context (rdeps : gmap string (list string)).
Definition has_parents (k : string) : bool :=
  match rdeps !! k with Some (_ :: _) => true | _ => false end.
(** The parents of the key that was taken from the queue: a path that ends at a root, or the
    queue and what was visited. *)
Fixpoint climb (path : list string) (parents : list string) (queue : list (string * list string))
    (visited : gset string) : list string + list (string * list string) * gset string :=
  match parents with
  | [] => inr (queue, visited)
  | parent :: parents =>
      if decide (parent ∈ visited) then climb path parents queue visited
      else if has_parents parent
      then climb path parents (queue ++ [(parent, parent :: path)]) ({[parent]} ∪ visited)
      else inl (parent :: path)
  end.
(** The loop; [None] when the fuel is spent. *)
Fixpoint search_roots (fuel : nat) (queue : list (string * list string)) (visited : gset string) :
    option (list string) :=
  match fuel with
  | 0 => None
  | S fuel =>
      match queue with
      | [] => Some []
      | (current, path) :: queue =>
          match rdeps !! current with
          | None => Some path
          | Some parents =>
              match climb path parents queue visited with
              | inl found => Some found
              | inr (queue, visited) => search_roots fuel queue visited
              end
          end
      end
  end.
(** Every key is taken from the queue at most once. *)
Definition search_fuel : nat := S (S (size (list_to_set (C := gset string) (concat (map_to_list rdeps).*2)))).
Definition find_dep_path (start : string) : option (list string) :=
  search_roots search_fuel [(start, [])] {[start]}.
End find_dep_path.

(** *** The path is a shortest one *)

Section find_dep_path_proofs.
Context (rdeps : gmap string (list string)) (start : string).
Notation parents k := (default [] (rdeps !! k)).
Notation entry := (string * list string)%type.
Definition top (path : list string) : string := default start (head path).
(** Paths from [start] to keys that depend on it, the highest first. *)
Inductive climbs : list string → Prop :=
  | climbs_nil : climbs []
  | climbs_up parent path : climbs path → parent ∈ parents (top path) → climbs (parent :: path).
Definition root (k : string) : Prop := has_parents rdeps k = false.
Definition later_in_queue (a b : entry) : Prop := length a.2 ≤ length b.2 ≤ S (length a.2).

Record frontier (except : string → Prop) (queue : list entry) (visited : gset string) : Prop := {
  f_start : start ∈ visited;
  f_path k p : (k, p) ∈ queue → climbs p ∧ top p = k ∧ k ∈ visited;
  f_short k p s : (k, p) ∈ queue → climbs s → top s = k → length p ≤ length s;
  f_done k : k ∈ visited → ¬ except k → (∀ p, (k, p) ∉ queue) → ∀ x, x ∈ parents k → x ∈ visited;
  f_roots k : k ∈ visited → has_parents rdeps k = true;
  f_sorted : StronglySorted later_in_queue queue;
}.
Lemma frontier_cut queue visited s : frontier (λ _, False) queue visited → climbs s → top s ∉ visited →
  ∃ k p, (k, p) ∈ queue ∧ length p < length s.
Proof.
  intros Hf Hs. induction Hs as [|parent path Hs IH Hp]; intros Hn; [by destruct Hn; apply Hf|].
  destruct (decide (top path ∈ visited)) as [Hv|Hv]; [|destruct (IH Hv) as (k & p & Hin & Hl); exists k, p; simpl; split; [done|lia]].
  destruct (decide (Exists (λ e, e.1 = top path) queue)) as [He|He].
  - apply list.Exists_exists in He as ([k p] & Hin & Hk). exists k, p. split; [done|]. simpl in *.
    pose proof (f_short _ _ _ Hf k p path Hin Hs (eq_sym Hk)). lia.
  - destruct Hn. eapply (f_done _ _ _ Hf); [done|tauto| |exact Hp].
    intros p Hin. apply He, list.Exists_exists. by exists (top path, p).
Qed.
Lemma sorted_snoc {A} (R : A → A → Prop) l x : StronglySorted R l → (∀ a, a ∈ l → R a x) → StronglySorted R (l ++ [x]).
Proof.
  induction 1 as [|a l Hl IH Ha]; intros Hx; simpl; [by repeat constructor|].
  constructor; [apply IH; intros; apply Hx; by right|]. apply Forall_app. split; [done|].
  constructor; [apply Hx; left|done].
Qed.
(** The parents of an entry at the front. *)
Record climbing (k : string) (p : list string) (seen : list string) (queue : list entry) (visited : gset string) : Prop := {
  c_frontier :> frontier (λ x, x = k) queue visited;
  c_seen x : x ∈ seen → x ∈ visited;
  c_near e : e ∈ queue → length p ≤ length e.2 ≤ S (length p);
  c_far s : climbs s → top s ∉ visited → length p < length s;
  c_here : climbs p ∧ top p = k;
}.
Definition found_path (l : list string) : Prop :=
  l ≠ [] ∧ climbs l ∧ root (top l) ∧ ∀ s, climbs s → root (top s) → length l ≤ length s.
Lemma climbing_push k p seen x queue visited : climbing k p seen queue visited →
  x ∈ parents k → x ∉ visited → has_parents rdeps x = true →
  climbing k p (x :: seen) (queue ++ [(x, x :: p)]) ({[x]} ∪ visited).
Proof.
  intros Hc Hx Hn Hr. destruct (c_here _ _ _ _ _ Hc) as [Hp Hk].
  assert (climbs (x :: p)) as Hxp by (constructor; [done|by rewrite Hk]).
  split.
  - split.
    + apply elem_of_union_r, Hc.
    + intros k' p' [Hin|Hin%list_elem_of_singleton]%elem_of_app.
      * apply (f_path _ _ _ Hc) in Hin as (? & ? & ?). split_and!; [done..|by apply elem_of_union_r].
      * injection Hin as -> ->. split_and!; [done..|]. by apply elem_of_union_l, elem_of_singleton.
    + intros k' p' s [Hin|Hin%list_elem_of_singleton]%elem_of_app Hs Ht; [by eapply (f_short _ _ _ Hc)|].
      injection Hin as -> ->. subst x. apply (c_far _ _ _ _ _ Hc) in Hn; [simpl; lia|done].
    + intros k' [->%elem_of_singleton|Hk']%elem_of_union He Hq y Hy.
      * exfalso. apply (Hq (x :: p)), elem_of_app. right. by left.
      * apply elem_of_union_r. eapply (f_done _ _ _ Hc); [done|done| |done].
        intros p' Hin. apply (Hq p'), elem_of_app. by left.
    + intros k' [->%elem_of_singleton|Hk']%elem_of_union; [done|by apply (f_roots _ _ _ Hc)].
    + apply sorted_snoc; [apply Hc|]. intros a Ha. apply (c_near _ _ _ _ _ Hc) in Ha. unfold later_in_queue. simpl. lia.
  - intros y [->|Hy]%elem_of_cons; [by apply elem_of_union_l, elem_of_singleton|by apply elem_of_union_r, Hc].
  - intros e [Hin|Hin%list_elem_of_singleton]%elem_of_app; [by apply Hc|subst e; simpl; lia].
  - intros s Hs Ht. apply (c_far _ _ _ _ _ Hc); [done|]. intros Hv. by apply Ht, elem_of_union_r.
  - done.
Qed.
Lemma climb_spec k p ps : ∀ seen queue visited, climbing k p seen queue visited → (∀ x, x ∈ ps → x ∈ parents k) →
  match climb rdeps p ps queue visited with
  | inl l => found_path l
  | inr (queue', visited') => climbing k p (reverse ps ++ seen) queue' visited'
  end.
Proof.
  induction ps as [|x ps IH]; intros seen queue visited Hc Hps; simpl; [done|].
  rewrite reverse_cons, <- (assoc_L app). assert (x ∈ parents k) as Hx by (apply Hps; left).
  assert (∀ y, y ∈ ps → y ∈ parents k) as Hps' by (intros; apply Hps; by right).
  case_decide as Hv.
  - apply IH; [|done]. destruct Hc as [Hc1 Hc2 Hc3 Hc4 Hc5]. split; [done| |done..]. intros y [->|Hy]%elem_of_cons; auto.
  - destruct (has_parents rdeps x) eqn:Hr; [by apply IH; [apply climbing_push|]|].
    destruct (c_here _ _ _ _ _ Hc) as [Hp Hk]. split_and!; [done|constructor; [done|by rewrite Hk]|done|].
    intros s Hs Hroot. simpl. apply (c_far _ _ _ _ _ Hc); [done|]. intros Hin.
    apply (f_roots _ _ _ Hc) in Hin. unfold root in Hroot. congruence.
Qed.
Lemma frontier_pop k p queue visited : frontier (λ _, False) ((k, p) :: queue) visited →
  climbing k p [] queue visited.
Proof.
  intros Hf. pose proof (f_sorted _ _ _ Hf) as Hs. apply StronglySorted_inv in Hs as [Hs Hk].
  rewrite Forall_forall in Hk. split.
  - split; [apply Hf| | | |apply Hf|done].
    + intros k' p' Hin. apply (f_path _ _ _ Hf). by right.
    + intros k' p' s Hin. apply (f_short _ _ _ Hf). by right.
    + intros k' Hv Hne Hq. apply (f_done _ _ _ Hf); [done|tauto|]. intros p' [[= -> ->]|Hin]%elem_of_cons; [done|by apply (Hq p')].
  - by intros x ?%elem_of_nil.
  - intros e He. apply (Hk e He).
  - intros s Hcl Ht. destruct (frontier_cut _ _ _ Hf Hcl Ht) as (k' & p' & Hin & Hl).
    apply elem_of_cons in Hin as [[= -> ->]|Hin]; [done|]. pose proof (Hk _ Hin) as Hd. unfold later_in_queue in Hd. simpl in Hd. lia.
  - destruct (f_path _ _ _ Hf k p) as (? & ? & _); [left|done].
Qed.
Lemma frontier_push k p seen queue visited : climbing k p seen queue visited → (∀ x, x ∈ parents k → x ∈ seen) →
  frontier (λ _, False) queue visited.
Proof.
  intros [Hf Hseen _ _ _] Hall. destruct Hf as [H1 H2 H3 H4 H5 H6]. split; [done..| |done|done].
  intros k' Hv _ Hq x Hx. destruct (decide (k' = k)) as [->|]; [by apply Hseen, Hall|]. by eapply (H4 k').
Qed.
Definition known : gset string := {[start]} ∪ list_to_set (concat (map_to_list rdeps).*2).
Lemma parents_known k x : x ∈ parents k → x ∈ known.
Proof.
  destruct (rdeps !! k) as [ps|] eqn:Hk; [|by intros ?%elem_of_nil]. simpl. intros Hx.
  apply elem_of_union_r, elem_of_list_to_set, list_elem_of_In, in_concat. exists ps.
  rewrite <- !list_elem_of_In. split; [|done]. apply list_elem_of_fmap. exists (k, ps). split; [done|]. by apply elem_of_map_to_list.
Qed.
(** What is left to do. *)
Definition work (queue : list entry) (visited : gset string) : nat := length queue + size (known ∖ visited).
Lemma climb_work p ps : ∀ queue visited, (∀ x, x ∈ ps → x ∈ known) →
  match climb rdeps p ps queue visited with
  | inl _ => True
  | inr (queue', visited') => work queue' visited' = work queue visited
  end.
Proof.
  induction ps as [|x ps IH]; intros queue visited Hps; simpl; [done|].
  assert (∀ y, y ∈ ps → y ∈ known) as Hps' by (intros; apply Hps; by right).
  case_decide as Hv; [by apply IH|]. destruct (has_parents rdeps x); [|done].
  specialize (IH (queue ++ [(x, x :: p)]) ({[x]} ∪ visited) Hps').
  destruct (climb _ _ _ _ _) as [|[queue' visited']]; [done|]. rewrite IH. unfold work. rewrite length_app. simpl.
  assert (known ∖ visited = {[x]} ∪ known ∖ ({[x]} ∪ visited)) as ->.
  { apply set_eq. intros y. rewrite !elem_of_union, !elem_of_difference, elem_of_union, elem_of_singleton.
    destruct (decide (y = x)) as [->|]; [|tauto]. split; [by left|]. intros _. split; [apply Hps; left|done]. }
  rewrite (size_union {[x]} (known ∖ ({[x]} ∪ visited))), size_singleton; [lia|]. intros y. rewrite elem_of_singleton, elem_of_difference, elem_of_union, elem_of_singleton. tauto.
Qed.
Lemma search_roots_spec fuel : ∀ queue visited, frontier (λ _, False) queue visited → work queue visited < fuel →
  ∃ l, search_roots rdeps fuel queue visited = Some l ∧
    ((l = [] ∧ ∀ s, climbs s → ¬ root (top s)) ∨ found_path l).
Proof.
  induction fuel as [|fuel IH]; intros queue visited Hf Hw; [lia|]. simpl.
  destruct queue as [|[k p] queue].
  - exists []. split; [done|]. left. split; [done|]. intros s Hs Hroot.
    destruct (decide (top s ∈ visited)) as [Hv|Hv]; [apply (f_roots _ _ _ Hf) in Hv; unfold root in Hroot; congruence|].
    by destruct (frontier_cut _ _ _ Hf Hs Hv) as (? & ? & ?%elem_of_nil & _).
  - destruct (f_path _ _ _ Hf k p) as (Hp & Hk & Hv); [left|]. pose proof (f_roots _ _ _ Hf k Hv) as Hr.
    unfold has_parents in Hr. destruct (rdeps !! k) as [ps|] eqn:Hps; [|done].
    pose proof (climb_spec k p ps [] queue visited (frontier_pop _ _ _ _ Hf)) as Hc.
    rewrite Hps in Hc. specialize (Hc (λ x Hx, Hx)).
    pose proof (climb_work p ps queue visited) as Hwork.
    destruct (climb rdeps p ps queue visited) as [l|[queue' visited']]; [by exists l; split; [|right]|].
    apply IH.
    + eapply frontier_push; [exact Hc|]. rewrite Hps. intros x Hx. apply elem_of_app. left. by rewrite elem_of_reverse.
    + rewrite Hwork; [unfold work in *; simpl in *; lia|]. intros x Hx. apply (parents_known k). by rewrite Hps.
Qed.
Theorem find_dep_path_spec : ∃ l, find_dep_path rdeps start = Some l ∧
  (l = [] ↔ root start ∨ ∀ s, climbs s → ¬ root (top s)) ∧
  (l ≠ [] → climbs l ∧ root (top l) ∧ ∀ s, climbs s → root (top s) → length l ≤ length s).
Proof.
  unfold find_dep_path. destruct (has_parents rdeps start) eqn:Hr.
  - destruct (search_roots_spec (search_fuel rdeps) [(start, [])] {[start]}) as (l & Hl & Hs).
    + split.
      * by apply elem_of_singleton.
      * intros k p [= -> ->]%list_elem_of_singleton. split_and!; [constructor|done|by apply elem_of_singleton].
      * intros k p s [= -> ->]%list_elem_of_singleton _ _. simpl. lia.
      * intros k ->%elem_of_singleton _ Hq. destruct (Hq []). left.
      * by intros k ->%elem_of_singleton.
      * repeat constructor.
    + unfold work, search_fuel, known. simpl. apply le_n_S, le_n_S, subseteq_size. intros x. set_solver.
    + exists l. split; [done|]. destruct Hs as [[-> Hs]|(Hne & Hc & Hroot & Hmin)].
      * split; [|done]. split; [by right|done].
      * split; [|done]. split; [done|]. intros [Hst|Hst]; [unfold root in Hst; congruence|by destruct (Hst l)].
  - exists []. split; [|by split; [split; [by left|]|]]. unfold search_fuel, has_parents in *. simpl.
    destruct (rdeps !! start) as [[|x ps]|]; by simpl in *.
Qed.
End find_dep_path_proofs.

(** *** What is printed *)

Definition yn (b : bool) : string := if b then "yes" else "no".
Definition fmt_capabilities (c : Capabilities) : string :=
  let parts := concat [
    if network c then ["network"] else []; if filesystem c then ["filesystem"] else [];
    if env_access c then ["env"] else []; if subprocess c then ["subprocess"] else [];
    if dynamic_exec c then ["eval/dynamic"] else [];
    if has_install_scripts c then ["install-scripts"] else []] in
  if decide (parts = []) then "none" else RustStr.join ", " parts.
Definition keys_of_package (package : string) (packages : list (string * Json)) : list (string * Json) :=
  filter (λ e, e.1 = package ∨ starts_with (package +:+ "@") e.1 = true) packages.
Definition key_le (a b : string * Json) : Prop := String.le a.1 b.1.
#[export] Instance key_le_dec : RelDecision key_le := λ a b, decide (String.le a.1 b.1).
Definition why_reason (direct : bool) (path : list string) : string :=
  if direct then "    why: required by your package.json (direct dependency)"
  else if decide (path = []) then "    why: required by (unknown)"
  else "    why: required by " +:+ RustStr.join " -> " path +:+ " -> root".
Definition has_install (node : Json) : bool :=
  default false (match jget "hasInstallScript" node with Some v => Some v | None => jget "has_install_script" node end ≫= as_bool).

Section why.
Context {SL : StoreLib}.
Definition why_package (package : string) (rdeps : gmap string (list string)) (direct_deps : gset string)
    (e : string * Json) : command (list string) :=
  let '(key, node) := e in
  let nm := default package (jget "name" node ≫= as_str) in
  let ver := default "?" (jget "version" node ≫= as_str) in
  let path := default [] (find_dep_path rdeps key) in
  root ← try OpenStore;
  let pkg_dir := pjoin root (RustStr.join "/" (package_dir_for nm ver (jget "resolved" node ≫= as_str) (jget "integrity" node ≫= as_str))) in
  there ← act (Install.Exists pkg_dir);
  scanned ← (if (there : bool) then
      r ← act (Scan nm ver pkg_dir);
      mret match r with
           | Ok report =>
               ["    risk: " +:+ risk_display (overall_risk report);
                "    capabilities: " +:+ fmt_capabilities (capabilities report);
                "    install script: " +:+ yn (has_install_scripts (capabilities report) || has_install node)]
           | Err _ => ["    (could not scan package)"; "    install script: " +:+ yn (has_install node)]
           end
    else mret ["    (package not found in store -- run `oath install`)"; "    install script: " +:+ yn (has_install node)]);
  mret (["  " +:+ nm +:+ "@" +:+ ver; why_reason (bool_decide (nm ∈ direct_deps)) path] ++ scanned ++ [""]).
Definition read_direct_deps : command (gset string) :=
  there ← act (Install.Exists "package.json");
  if negb there then mret ∅
  else
    read ← act (ReadJson "package.json");
    let pkg := match read with Ok pkg => pkg | Err _ => JObject [] end in
    mret (dom (extract_deps pkg "dependencies") ∪ dom (extract_deps pkg "devDependencies")).
Definition cmd_why (package : string) : command (list string) :=
  there ← act (Install.Exists "oath-lock.json");
  if negb there then mret ["oath why: no oath-lock.json found (run `oath install` first)"]
  else
    lock ← try (ReadJson "oath-lock.json");
    match jget "packages" lock ≫= object_of with
    | None => mret ["oath why: oath-lock.json has no packages"]
    | Some packages =>
        let matches := stable_sort key_le (keys_of_package package packages) in
        if decide (matches = []) then mret ["oath why: '" +:+ package +:+ "' not found in oath-lock.json"]
        else
          let rdeps := reverse_deps packages in
          direct_deps ← read_direct_deps;
          fold_cmd (λ lines e, more ← why_package package rdeps direct_deps e; mret (lines ++ more)) [] matches
    end.
End why.

(** ** [oath graph] *)

Definition dep_keys (node : Json) : option (list string) :=
  (λ deps, sort_strings (dep_entry_key <$> deps)) <$> entry_deps node.
Section graph.
Context (packages : list (string * Json)).
(** [for (i, child) in children.iter().enumerate()] with [i == count - 1] *)
Fixpoint each_child (f : bool → string → list string) (children : list string) : list string :=
  match children with
  | [] => []
  | child :: children => f (bool_decide (children = [])) child ++ each_child f children
  end.
(** [print_graph_children] with [levels] levels below. *)
Fixpoint print_graph_children (levels : nat) (visited : gset string) (prefix : string) (children : list string) : list string :=
  each_child (λ is_last child,
    let child_prefix := prefix +:+ (if is_last then "    " else "|   ") in
    let deps := alist_get child packages ≫= dep_keys in
    ("  " +:+ prefix +:+ "+-- " +:+ child) ::
    match levels with
    | 0 =>
        match deps with
        | Some ((_ :: _) as deps) =>
            ["  " +:+ child_prefix +:+ "... (" +:+ pretty (length deps) +:+ " more deps, use --depth to show)"]
        | _ => []
        end
    | S levels =>
        if decide (child ∈ visited) then ["  " +:+ child_prefix +:+ "(circular)"]
        else
          match deps with
          | Some deps => print_graph_children levels ({[child]} ∪ visited) child_prefix deps
          | None => []
          end
    end) children.
Definition is_key_of (dep_name k : string) : bool :=
  bool_decide (k = dep_name) || starts_with (dep_name +:+ "@") k.
(** The keys another entry depends on. *)
Definition with_parent : gset string :=
  list_to_set (filter (λ k, is_Some (alist_get k packages)) (concat ((λ e, default [] (dep_keys e.2)) <$> packages))).
Definition print_root (max_depth : nat) (root_key : string) : list string :=
  ("  " +:+ root_key) ::
  match alist_get root_key packages ≫= dep_keys with
  | Some deps => print_graph_children (max_depth - 1) ∅ "" deps
  | None => []
  end.
Definition print_roots (max_depth : nat) (roots : list string) : list string :=
  if decide (roots = []) then ["  (no root packages found)"]
  else concat (print_root max_depth <$> roots) ++ [""].
Definition print_project (max_depth : nat) (pkg : Json) : list string :=
  let direct := (btree_iter (extract_deps pkg "dependencies")).*1 ++ (btree_iter (extract_deps pkg "devDependencies")).*1 in
  let children := omap (λ dep_name, list_find (λ k, is_key_of dep_name k = true) packages.*1 ≫= λ r, Some r.2) (sort_strings direct) in
  ["  " +:+ string_field "name" "project" pkg +:+ "@" +:+ string_field "version" "0.0.0" pkg] ++
  print_graph_children (max_depth - 1) ∅ "" children ++ [""].
End graph.
Definition cmd_graph (max_depth : nat) : command (list string) :=
  there ← act (Install.Exists "oath-lock.json");
  if negb there then mret ["oath graph: no oath-lock.json found (run `oath install` first)"]
  else
    lock ← try (ReadJson "oath-lock.json");
    match jget "packages" lock ≫= object_of with
    | None => mret ["oath graph: oath-lock.json has no packages"]
    | Some packages =>
        match jget "roots" lock ≫= as_array with
        | Some roots => mret (print_roots packages max_depth (omap as_str roots))
        | None =>
            manifest ← act (Install.Exists "package.json");
            if (manifest : bool) then
              read ← act (ReadJson "package.json");
              mret (print_project packages max_depth (match read with Ok pkg => pkg | Err _ => JObject [] end))
            else
              mret (print_roots packages max_depth
                (filter (λ k, k ∉ with_parent packages) packages.*1))
        end
    end.

(** A lockfile as [oath install] writes it: a dependency is the key of its package. *)
Definition written_lock : Json := JObject [
  ("packages", JObject [
     ("a@1.0.0", JObject [("dependencies", JObject [("b", JString "b@2.0.0")]); ("version", JString "1.0.0")]);
     ("b@2.0.0", JObject [("version", JString "2.0.0")])]);
  ("roots", JArray [JString "a@1.0.0"])].
Definition written_world (X : Type) (e : Act X) : X :=
  match e in Act X return X with
  | Install.Exists path => bool_decide (path = "oath-lock.json")
  | ReadJson path => Ok written_lock
  | e => scene_world (scene [] []) _ e
  end.
Definition text_store : StoreLib :=
  {| blake3_hex s := s; parse_json _ := None; manifest_to_vec _ := ""; manifest_from_slice _ := None |}.
(** No package of such a lockfile is explained, and none below the roots is expanded: the
    keys that are looked up have the name twice. *)
Example why_is_unknown : (run written_world (@cmd_why text_store "b")).2 =
  Ok ["  b@2.0.0"; "    why: required by (unknown)";
      "    (package not found in store -- run `oath install`)"; "    install script: no"; ""].
Proof. vm_compute. reflexivity. Qed.
Example graph_names_twice : (run written_world (cmd_graph 5)).2 = Ok ["  a@1.0.0"; "  +-- b@b@2.0.0"; ""].
Proof. vm_compute. reflexivity. Qed.

(** ** [oath verify] *)

Record Counts := { missing : nat; tampered : nat; ok : nat }.
(** Entries by key. *)
Definition sorted_entries (lock : Lockfile) : list (string * LockEntry) := btree_iter (packages lock).
Definition verify_entry (c : Counts) (e : string * LockEntry) : command Counts :=
  let '(key, entry) := e in
  let nm := package_name_for_key entry key in
  if bool_decide (nm = "") || bool_decide (entry_version entry = "") then mret c
  else
    v ← act (VerifyVariant nm (entry_version entry) (entry_resolved entry) (entry_integrity entry));
    mret match v with
         | Verified _ => {| missing := missing c; tampered := tampered c; ok := S (ok c) |}
         | Missing => {| missing := S (missing c); tampered := tampered c; ok := ok c |}
         | Corrupt _ => {| missing := missing c; tampered := S (tampered c); ok := ok c |}
         end.
(** The answer is how many packages were verified; [None] without a lockfile. *)
Definition cmd_verify : command (option nat) :=
  there ← act (Install.Exists "oath-lock.json");
  if negb there then mret None
  else
    lock ← try (ReadLock "oath-lock.json");
    _ ← try OpenStore;
    c ← fold_cmd verify_entry {| missing := 0; tampered := 0; ok := 0 |} (sorted_entries lock);
    if bool_decide (0 < missing c) || bool_decide (0 < tampered c) then exit_with 1 else mret (Some (ok c)).

(** What was read and asked, in a run. *)
Definition query : Type := string * string * string * option string.
Record Seen := { seen_lock : option Lockfile; asked : list (query * PackageVerification) }.
Definition note (s : Seen) (ev : event Act) : Seen :=
  match ev with
  | {| action := a; answer := x |} =>
      match a in Act X return X → Seen with
      | ReadLock _ => λ r, {| seen_lock := match r with Ok l => Some l | Err _ => seen_lock s end; asked := asked s |}
      | VerifyVariant n v url integrity => λ x, {| seen_lock := seen_lock s; asked := asked s ++ [(n, v, url, integrity, x)] |}
      | _ => λ _, s
      end x
  end.
Definition seen_in (tr : list (event Act)) : Seen := foldl note {| seen_lock := None; asked := [] |} tr.
(** What has to be asked. *)
Definition checked (e : string * LockEntry) : list query :=
  let nm := package_name_for_key e.2 e.1 in
  if bool_decide (nm = "") || bool_decide (entry_version e.2 = "") then []
  else [(nm, entry_version e.2, entry_resolved e.2, entry_integrity e.2)].
Definition all_verified (answers : list (query * PackageVerification)) : Prop := Forall (λ q, is_verified q.2 = true) answers.

Definition recorder (s : Seen) X (e : Act X) (x : X) : option Seen := Some (note s (Event e x)).
Lemma watch_recorder tr : ∀ s, watch recorder s tr = Some (foldl note s tr).
Proof. induction tr as [|[X e x] tr IH]; intros s; [done|]. apply IH. Qed.
Definition unverified (answers : list (query * PackageVerification)) : nat := length (filter (λ q, is_verified q.2 = false) answers).
Lemma unverified_one q v : unverified [(q, v)] = if is_verified v then 0 else 1.
Proof. unfold unverified. rewrite filter_cons, filter_nil. simpl. by destruct v. Qed.
Lemma safe_verify_entry e c s (Q : result Stop Counts → Seen → Prop) :
  (∀ answers c', answers.*1 = checked e → ok c' + unverified answers = ok c + length answers →
     missing c' + tampered c' = missing c + tampered c + unverified answers →
     Q (Ok c') {| seen_lock := seen_lock s; asked := asked s ++ answers |}) →
  safe recorder (verify_entry c e) Q s.
Proof.
  destruct e as [key entry]. unfold verify_entry, checked. cbn [fst snd]. intros HQ.
  destruct (_ || _).
  - apply watch_ret. specialize (HQ [] c). rewrite app_nil_r in HQ. destruct s. apply HQ; simpl; lia || done.
  - apply safe_act. intros v. eexists. split; [done|]. apply watch_ret.
    apply (HQ [(package_name_for_key entry key, entry_version entry, entry_resolved entry, entry_integrity entry, v)]);
      [done|rewrite unverified_one; by destruct v; simpl; lia..].
Qed.
Lemma safe_verify_entries l : ∀ c s (Q : result Stop Counts → Seen → Prop),
  (∀ answers c', answers.*1 = concat (checked <$> l) → ok c' + unverified answers = ok c + length answers →
     missing c' + tampered c' = missing c + tampered c + unverified answers →
     Q (Ok c') {| seen_lock := seen_lock s; asked := asked s ++ answers |}) →
  safe recorder (fold_cmd verify_entry c l) Q s.
Proof.
  induction l as [|e l IH]; intros c s Q HQ; simpl.
  - specialize (HQ [] c). rewrite app_nil_r in HQ. destruct s. apply HQ; simpl; lia || done.
  - apply watch_bind, safe_verify_entry. intros a1 c1 Ha1 Hok1 Hbad1. apply IH. intros a2 c2 Ha2 Hok2 Hbad2.
    simpl. rewrite <- (assoc_L app). assert (unverified (a1 ++ a2) = unverified a1 + unverified a2) as Hu
      by (unfold unverified; by rewrite filter_app, length_app).
    apply HQ; [by rewrite fmap_app, Ha1, Ha2|rewrite length_app; lia|lia].
Qed.
Lemma unverified_none answers : unverified answers = 0 ↔ all_verified answers.
Proof.
  unfold unverified, all_verified. rewrite length_zero_iff_nil. split.
  - intros Hf. apply Forall_forall. intros q Hq. destruct (is_verified q.2) eqn:E; [done|].
    assert (q ∈ filter (λ q, is_verified q.2 = false) answers) as Hin by (by apply list_elem_of_filter).
    rewrite Hf in Hin. by apply elem_of_nil in Hin.
  - intros Hv. apply list_filter_none. eapply Forall_impl; [exact Hv|]. intros q ->. done.
Qed.

(** [oath verify] asks the store about every entry of the lockfile that has a name and a
    version, with its URL and integrity, and about nothing else; it succeeds, with their
    number, exactly when all of them are there and unchanged, and otherwise exits with 1. *)
Theorem verify_spec tr r : performs cmd_verify tr (Some r) →
  let s := seen_in tr in
  match r with
  | Ok None => asked s = []
  | Ok (Some n) => ∃ lock, seen_lock s = Some lock ∧ (asked s).*1 = concat (checked <$> sorted_entries lock) ∧
      all_verified (asked s) ∧ n = length (asked s)
  | Err (Exit c) => c = 1%Z ∧ ∃ lock, seen_lock s = Some lock ∧
      (asked s).*1 = concat (checked <$> sorted_entries lock) ∧ ¬ all_verified (asked s)
  | Err (Bail _) => asked s = []
  end.
Proof.
  intros Hp s. pose (Q := λ (r : result Stop (option nat)) (s : Seen), match r with
  | Ok None => asked s = []
  | Ok (Some n) => ∃ lock, seen_lock s = Some lock ∧ (asked s).*1 = concat (checked <$> sorted_entries lock) ∧
      all_verified (asked s) ∧ n = length (asked s)
  | Err (Exit c) => c = 1%Z ∧ ∃ lock, seen_lock s = Some lock ∧
      (asked s).*1 = concat (checked <$> sorted_entries lock) ∧ ¬ all_verified (asked s)
  | Err (Bail _) => asked s = []
  end).
  assert (safe recorder cmd_verify Q {| seen_lock := None; asked := [] |}) as Hs.
  { apply safe_act. intros there. eexists. split; [done|]. destruct there; [|by apply watch_ret].
    apply safe_try. intros [lock|e]; (eexists; split; [done|]); [|done].
    apply safe_try. intros [root|e]; (eexists; split; [done|]); [|done].
    apply watch_bind, safe_verify_entries. intros answers c Ha Hok Hbad. simpl in *.
    destruct (decide (unverified answers = 0)) as [Hu|Hu].
    - rewrite !bool_decide_eq_false_2 by lia. apply watch_ret. exists lock.
      split_and!; [done..|by apply unverified_none|simpl; lia].
    - assert (bool_decide (0 < missing c) || bool_decide (0 < tampered c) = true) as ->
        by (rewrite orb_true_iff, !bool_decide_eq_true; lia).
      simpl. split; [done|]. exists lock. split_and!; [done..|]. by rewrite <- unverified_none. }
  destruct (safe_sound _ _ _ _ _ _ Hs Hp) as (s' & Hw & HQ). rewrite watch_recorder in Hw. injection Hw as <-.
  by apply HQ.
Qed.

(** ** [oath run] *)

Section run_script.
Context (pkg : Json) (path : string).
(** [status.code().unwrap_or(1)]; a negative number stands for a signal. *)
Definition exit_code (code : Z) : Z := if decide (code < 0)%Z then 1%Z else code.
(** A script under its name, in the environment that names it. *)
Definition run_script (script_name script_cmd : string) : command unit :=
  status ← act (Sh "." script_cmd ([("PATH", path); ("npm_lifecycle_event", script_name); ("npm_lifecycle_script", script_cmd)]
                                   ++ npm_package_env pkg));
  match status with
  | None => bail ("failed to execute script '" +:+ script_name +:+ "'")
  | Some code => if decide (code = 0%Z) then mret tt else exit_with (exit_code code)
  end.
Definition script_text (scripts : list (string * Json)) (name : string) : option string :=
  alist_get name scripts ≫= as_str.
Definition run_hook (scripts : list (string * Json)) (name : string) : command unit :=
  match script_text scripts name with
  | Some script_cmd => run_script name script_cmd
  | None => mret tt
  end.
Definition full_command (script_cmd : string) (args : list string) : string :=
  if decide (args = []) then script_cmd else script_cmd +:+ " " +:+ shell_quote_args args.
End run_script.
(** What is listed when no script is named. *)
Definition script_lines (scripts : option (list (string * Json))) : list string :=
  match scripts with
  | None | Some [] => ["oath run: no scripts defined in package.json"]
  | Some scripts => "Available scripts:" :: ((λ e, "  " +:+ e.1 +:+ " - " +:+ default "" (as_str e.2)) <$> scripts)
  end.
Definition run_named (pkg : Json) (script : string) (args : list string) : command (list string) :=
  scripts ← need (jget "scripts" pkg ≫= object_of) "no scripts defined in package.json";
  script_cmd ← need (script_text scripts script) ("script '" +:+ script +:+ "' not found");
  path ← bin_first_path;
  _ ← run_hook pkg path scripts ("pre" +:+ script);
  _ ← run_script pkg path script (full_command script_cmd args);
  _ ← run_hook pkg path scripts ("post" +:+ script);
  mret [].
Definition cmd_run (script : option string) (args : list string) : command (list string) :=
  pkg ← read_package_json;
  match script with
  | None => mret (script_lines (jget "scripts" pkg ≫= object_of))
  | Some script => run_named pkg script args
  end.

(** The commands of a run, with how they ended. *)
Definition shell_of (ev : event Act) : list (string * option Z) :=
  match ev with
  | {| action := a; answer := x |} =>
      match a in Act X return X → _ with
      | Sh _ script_cmd _ => λ x, [(script_cmd, x)]
      | _ => λ _, []
      end x
  end.
Definition shell_in (tr : list (event Act)) : list (string * option Z) := concat (shell_of <$> tr).
(** What a named script comes to: its hook before, itself with the arguments, its hook after. *)
Definition script_commands (scripts : list (string * Json)) (script : string) (args : list string) : option (list string) :=
  (λ script_cmd, option_list (script_text scripts ("pre" +:+ script)) ++ [full_command script_cmd args]
     ++ option_list (script_text scripts ("post" +:+ script))) <$> script_text scripts script.
Definition succeeded (r : string * option Z) : Prop := r.2 = Some 0%Z.

Definition shell_recorder (s : list (string * option Z)) X (e : Act X) (x : X) : option (list (string * option Z)) :=
  Some (s ++ shell_of (Event e x)).
Lemma watch_shell_recorder tr : ∀ s, watch shell_recorder s tr = Some (s ++ shell_in tr).
Proof.
  induction tr as [|[X e x] tr IH]; intros s; [by rewrite app_nil_r|]. simpl.
  rewrite IH. unfold shell_in. simpl. by rewrite (assoc_L app).
Qed.
Lemma safe_run_script pkg path name script_cmd s (Q : result Stop unit → list (string * option Z) → Prop) :
  Q (Ok tt) (s ++ [(script_cmd, Some 0%Z)]) →
  (∀ code, code ≠ Some 0%Z → Q (Err (match code with None => Bail ("failed to execute script '" +:+ name +:+ "'") | Some c => Exit (exit_code c) end))
     (s ++ [(script_cmd, code)])) →
  safe shell_recorder (run_script pkg path name script_cmd) Q s.
Proof.
  intros Hok Hfail. apply safe_act. intros code. eexists. split; [done|]. simpl.
  destruct code as [code|]; [case_decide as Hc; [by subst|apply (Hfail (Some code)); congruence]|by apply (Hfail None)].
Qed.
Lemma safe_run_hook pkg path scripts name s (Q : result Stop unit → list (string * option Z) → Prop) :
  Q (Ok tt) (s ++ ((λ c, (c, Some 0%Z)) <$> option_list (script_text scripts name))) →
  (∀ script_cmd code, script_text scripts name = Some script_cmd → code ≠ Some 0%Z →
     Q (Err (match code with None => Bail ("failed to execute script '" +:+ name +:+ "'") | Some c => Exit (exit_code c) end))
       (s ++ [(script_cmd, code)])) →
  safe shell_recorder (run_hook pkg path scripts name) Q s.
Proof.
  unfold run_hook. destruct (script_text scripts name) as [script_cmd|]; simpl; intros Hok Hfail.
  - apply safe_run_script; [done|]. intros code. by apply Hfail.
  - by rewrite app_nil_r in Hok.
Qed.
(** [oath run] of a script runs its hook before, the script with the words of the command
    line as its arguments, and the hook after, each only when the one before succeeded. It
    succeeds when they all do, and otherwise ends as the first one that did not. *)
Definition run_outcome (scripts : list (string * Json)) (script : string) (args : list string)
    (r : result Stop (list string)) (ran : list (string * option Z)) : Prop :=
  match script_commands scripts script args with
  | None => ran = [] ∧ is_ok r = false
  | Some commands =>
      (r = Ok [] ∧ ran = (λ c, (c, Some 0%Z)) <$> commands) ∨
      (∃ done_ c code rest, commands = done_ ++ c :: rest ∧ code ≠ Some 0%Z ∧
         ran = ((λ c, (c, Some 0%Z)) <$> done_) ++ [(c, code)] ∧
         match code with Some n => r = Err (Exit (exit_code n)) | None => ∃ m, r = Err (Bail m) end)
  end.
Theorem run_spec pkg script args tr r : performs (run_named pkg script args) tr (Some r) →
  match jget "scripts" pkg ≫= object_of with
  | None => shell_in tr = [] ∧ is_ok r = false
  | Some scripts => run_outcome scripts script args r (shell_in tr)
  end.
Proof.
  intros Hp. pose (Q := λ (r : result Stop (list string)) ran, match jget "scripts" pkg ≫= object_of with
    | None => ran = [] ∧ is_ok r = false
    | Some scripts => run_outcome scripts script args r ran
    end).
  assert (safe shell_recorder (run_named pkg script args) Q []) as Hs.
  { unfold run_named, Q. destruct (jget "scripts" pkg ≫= object_of) as [scripts|]; [|done]. apply watch_bind, watch_ret.
    unfold run_outcome, script_commands. destruct (script_text scripts script) as [script_cmd|]; [|done].
    apply watch_bind, watch_ret. apply watch_bind, safe_act. intros path. eexists. split; [done|]. apply watch_ret.
    apply watch_bind, safe_run_hook.
    2: { intros c code Hc Hcode. right. exists [], c, code. eexists. rewrite Hc. split_and!; [done..|]. by destruct code; [|eexists]. }
    apply watch_bind, safe_run_script.
    2: { intros code Hcode. right. exists (option_list (script_text scripts ("pre" +:+ script))), (full_command script_cmd args), code.
         eexists. split_and!; [done..|]. by destruct code; [|eexists]. }
    apply watch_bind, safe_run_hook.
    2: { intros c code Hc Hcode. right.
         exists (option_list (script_text scripts ("pre" +:+ script)) ++ [full_command script_cmd args]), c, code. eexists. rewrite Hc.
         split_and!; [by rewrite <- (assoc_L app)|done|by rewrite fmap_app|]. by destruct code; [|eexists]. }
    apply watch_ret. left. split; [done|]. by rewrite !fmap_app, <- !(assoc_L app). }
  destruct (safe_sound _ _ _ _ _ _ Hs Hp) as (s' & Hw & HQ). rewrite watch_shell_recorder in Hw. injection Hw as <-.
  by apply HQ.
Qed.
(** What the shell makes of the arguments: the words that were given. *)
Lemma full_command_words script_cmd args : args ≠ [] →
  ∃ text, full_command script_cmd args = script_cmd +:+ " " +:+ text ∧ sh_words false None text = Some args.
Proof.
  intros Hargs. unfold full_command. rewrite decide_False by done. eexists. split; [done|]. apply shell_quote_roundtrip.
Qed.

(** ** The store as a directory: [licenses], [scan], [perms] *)

(** [{:<width$}] counts characters. *)
Definition char_count (s : string) : nat :=
  length (filter (λ a, (N_of_ascii a < 128 ∨ 192 ≤ N_of_ascii a)%N) (chars s)).
Fixpoint spaces (n : nat) : string := match n with 0 => "" | S n => String " " (spaces n) end.
Definition pad_right (width : nat) (s : string) : string := s +:+ spaces (width - char_count s).
(** What [read_dir] gives, and the directories among it. *)
Definition read_dir (t : Tree) : option (list (string * Tree)) := match t with Dir es => Some es | _ => None end.
Definition subdirs (t : Tree) : list (string * Tree) :=
  filter (λ e, is_Some (read_dir e.2)) (default [] (read_dir t)).
(** The directories two levels down, which are taken for a package and its version. *)
Definition store_packages (store : Tree) : list (string * string * Tree) :=
  '(n, versions) ← subdirs store; '(v, t) ← subdirs versions; [(n, v, t)].
Definition child (n : string) (t : Tree) : option Tree := read_dir t ≫= alist_get n.

Section store_dirs.
Context `{!Regex, !Oxc} {SL : StoreLib}.
(** The walk of a directory by walkdir, with what is read of its files. *)
Context (walk_dir : Tree → PkgJson * list Entry).
Definition scan_dir (name version : string) (t : Tree) : result string AnalysisReport :=
  let '(pkg_json, walk) := walk_dir t in Scanner.scan parse_json name version pkg_json walk.

Definition license_of (t : Tree) : string :=
  default "UNKNOWN" (
    json ← (t' ← child "package.json" t; match t' with File content => parse_json content | _ => None end);
    l ← jget "license" json;
    match as_str l with Some s => Some s | None => jget "type" l ≫= as_str end).
Definition count_license (counts : gmap string nat) (l : string) : gmap string nat :=
  <[l := S (default 0 (counts !! l))]> counts.
Definition license_counts (store : Tree) : gmap string nat :=
  foldl count_license ∅ ((λ e, license_of e.2) <$> store_packages store).
(** By count, the highest first, and by name. *)
Definition count_le (a b : string * nat) : Prop := b.2 < a.2 ∨ (a.2 = b.2 ∧ String.le a.1 b.1).
#[export] Instance count_le_dec : RelDecision count_le.
Proof. unfold RelDecision, count_le. apply _. Defined.
Definition license_flag (license : string) : string :=
  if decide (license = "UNKNOWN") then " [review recommended]"
  else if starts_with "GPL" license || starts_with "AGPL" license || starts_with "LGPL" license
  then " [COPYLEFT - review required]" else "".
Definition license_line (width : nat) (e : string * nat) : string :=
  "  " +:+ pad_right width e.1 +:+ "  " +:+ pretty e.2 +:+ " " +:+ (if decide (e.2 = 1) then "package " else "packages")
    +:+ license_flag e.1.
Definition cmd_licenses (store : Tree) : list string :=
  match read_dir store with
  | None => ["oath licenses: nothing installed yet (run `oath install` first)"]
  | Some _ =>
      let counts := stable_sort count_le (btree_iter (license_counts store)) in
      if decide (counts = []) then ["oath licenses: no packages found"]
      else license_line (max_list (String.length ∘ fst <$> counts)) <$> counts
  end.

Record ScanTotals := { total : nat; critical : nat; high : nat; medium : nat }.
Definition is_shown (verbose : bool) (r : RiskLevel) : bool :=
  match r with Critical | High => true | _ => verbose end.
Definition risk_label (r : RiskLevel) : string :=
  match r with Critical => "CRITICAL" | High => "HIGH    " | Medium => "MEDIUM  " | _ => "INFO    " end.
Definition is_serious (r : RiskLevel) : bool := match r with High | Critical => true | _ => false end.
Definition risk_name (r : RiskLevel) : string :=
  match r with Clean => "Clean" | Info => "Info" | Low => "Low" | Medium => "Medium" | High => "High" | Critical => "Critical" end.
Definition finding_lines (f : Finding) : list string :=
  ("  - [" +:+ risk_name (risk f) +:+ "] L" +:+ pretty (line f) +:+ " " +:+ Report.file f +:+ " -- " +:+ message f) ::
  match snippet f with Some s => ["    > " +:+ s] | None => [] end.
Definition report_lines (verbose : bool) (name version : string) (report : AnalysisReport) : list string :=
  ["";
   "[" +:+ risk_label (overall_risk report) +:+ "] " +:+ name +:+ "@" +:+ version;
   "  files: " +:+ pretty (files_scanned report) +:+ "  lines: " +:+ pretty (lines_scanned report);
   "  capabilities: " +:+ fmt_capabilities (capabilities report)] ++
  concat (finding_lines <$> filter (λ f, verbose || is_serious (risk f) = true) (findings report)).
Definition count_report (r : RiskLevel) (c : ScanTotals) : ScanTotals := {|
  total := S (total c);
  critical := if decide (r = Critical) then S (critical c) else critical c;
  high := if decide (r = High) then S (high c) else high c;
  medium := if decide (r = Medium) then S (medium c) else medium c |}.
Definition scan_package (verbose : bool) (acc : ScanTotals * list string) (e : string * string * Tree) : ScanTotals * list string :=
  let '(n, v, t) := e in
  let name := replace_char "+" "/" n in
  match scan_dir name v t with
  | Err _ => acc
  | Ok report =>
      (count_report (overall_risk report) acc.1,
       acc.2 ++ if is_shown verbose (overall_risk report) then report_lines verbose name v report else [])
  end.
(** The lines, and the exit code. *)
Definition scan_store (verbose : bool) (store : Tree) : list string * Z :=
  match read_dir store with
  | None => (["oath scan: nothing installed yet (run `oath install` first)"], 0%Z)
  | Some _ =>
      let '(c, lines) := foldl (scan_package verbose) ({| total := 0; critical := 0; high := 0; medium := 0 |}, []) (store_packages store) in
      (lines ++ ["";
        "oath scan: " +:+ pretty (total c) +:+ " packages scanned -- " +:+ pretty (critical c) +:+ " critical, "
          +:+ pretty (high c) +:+ " high, " +:+ pretty (medium c) +:+ " medium"],
       if decide (critical c = 0) then 0%Z else 1%Z)
  end.
Definition cmd_scan (production verbose : bool) (pkg : Json) (store : Tree) : list string * Z :=
  let deps := extract_deps pkg "dependencies" in
  let all_deps := if production then deps else extract_deps pkg "devDependencies" ∪ deps in
  if decide (all_deps = ∅) then (["oath scan: no dependencies found"], 0%Z)
  else
    let '(lines, code) := scan_store verbose store in
    (("oath scan: scanning " +:+ pretty (size all_deps) +:+ " direct deps (+ transitive)...") :: lines, code).

Definition verdict_label (r : RiskLevel) : string :=
  match r with
  | Critical => utf8 [226; 155; 148]%N +:+ " flagged -- dangerous behavior combination"
  | High => utf8 [226; 154; 160]%N +:+ " warning -- review recommended"
  | _ => "ok -- capabilities only, no dangerous combination"
  end.
Definition perms_lines (package version : string) (report : AnalysisReport) : list string :=
  let c := capabilities report in
  [package +:+ "@" +:+ version; "  verdict: " +:+ verdict_label (overall_risk report)] ++
  ((λ r, "    - " +:+ r) <$> verdict_reasons report) ++
  ["  files:   " +:+ pretty (files_scanned report) +:+ " (" +:+ pretty (lines_scanned report) +:+ " lines)"; "";
   "  CAPABILITIES (neutral -- what the package can do):";
   "    network:         " +:+ yn (network c); "    filesystem:      " +:+ yn (filesystem c);
   "    env vars:        " +:+ yn (env_access c); "    subprocess:      " +:+ yn (subprocess c);
   "    dynamic exec:    " +:+ yn (dynamic_exec c); "    install scripts: " +:+ yn (has_install_scripts c)].
Definition cmd_perms (package : string) (store : Tree) : result string (list string) :=
  match read_dir store ≫= alist_get (default "" (head (package_name_dir package))) with
  | None => Ok ["oath: package '" +:+ package +:+ "' not found in store (run `oath install` first)"]
  | Some name_dir =>
      _ ← ok_or (read_dir name_dir) "Not a directory";
      lines ← mapM (λ e, perms_lines package e.1 <$> scan_dir package e.1 e.2) (subdirs name_dir);
      Ok (concat lines)
  end.
End store_dirs.

(** ** [oath init] *)

Definition quoted (s : string) : string := String (Ascii.ascii_of_nat 34) s +:+ String (Ascii.ascii_of_nat 34) "".
Definition init_json (project_name : string) : Json := JObject [
  ("description", JString ""); ("keywords", JArray []); ("license", JString "UNLICENSED"); ("main", JString "index.js");
  ("name", JString project_name);
  ("scripts", JObject [("test", JString ("echo " +:+ quoted "Error: no test specified" +:+ " && exit 1"))]);
  ("version", JString "1.0.0")].
(** The name of the directory, when none is given. *)
Definition cmd_init (name : option string) : command Json :=
  project_name ← match name with
    | Some n => mret n
    | None =>
        cwd ← act CurrentDir;
        mret (match cwd with
              | Ok dir => match last (components dir) with Some (Normal n) => n | _ => "project" end
              | Err _ => "project"
              end)
    end;
  let pkg := init_json project_name in
  _ ← try (WriteJson "package.json" pkg);
  mret pkg.

(** *** What is read of a store

    [oath install] stores every package under its URL and integrity. *)
Definition variant_store (entries : list (string * string * list (string * Tree))) : Tree :=
  Dir [(".variants", Dir ((λ '(n, v, files), (n, Dir [(v, Dir [("digest", Dir files)])])) <$> entries))].
Definition licensed (license : string) : list (string * Tree) := [("package.json", File license)].
Definition licence_lib : StoreLib := {|
  blake3_hex s := s; parse_json s := Some (JObject [("license", JString s)]);
  manifest_to_vec _ := ""; manifest_from_slice _ := None |}.
(** The licenses of such a store are not seen, not even a copyleft one, and a package that
    is in it is not found. *)
Example licenses_not_seen :
  @cmd_licenses licence_lib (variant_store [("a", "1.0.0", licensed "GPL-3.0"); ("b", "1.0.0", licensed "MIT")]) =
  ["  UNKNOWN  2 packages [review recommended]"] ∧
  @cmd_licenses licence_lib (Dir [("a", Dir [("1.0.0", Dir (licensed "GPL-3.0"))])]) =
  ["  GPL-3.0  1 package  [COPYLEFT - review required]"].
Proof. vm_compute. done. Qed.
Example perms_not_found `{!Regex, !Oxc} {SL : StoreLib} (walk_dir : Tree → PkgJson * list Entry) :
  cmd_perms walk_dir "a" (variant_store [("a", "1.0.0", licensed "MIT")]) =
  Ok ["oath: package 'a' not found in store (run `oath install` first)"].
Proof. reflexivity. Qed.

(** [ContentStore::list_packages] *)
Definition list_packages (store : Tree) : list (string * string) :=
  '(n, versions) ← default [] (read_dir store);
  let name := replace_char "+" "/" n in
  if starts_with "." name then []
  else '(v, _) ← default [] (read_dir versions); if starts_with "." v then [] else [(name, v)].
