(* ===== verification/Sandbox.v ===== *)
(** * oath-sandbox: policies and native backends ([policy.rs], [linux.rs], [macos.rs])

    What a policy allows, the plan made from it, and what the plan becomes: the
    arguments of bubblewrap and the system call filter on Linux, the Seatbelt
    profile on macOS. Enforcing them is the kernel's work. *)
From S2P Require Export Paths.

(** ** Policies and plans *)

Inductive NetworkMode := Deny | Inherit.
#[export] Instance NetworkMode_eq_dec : EqDecision NetworkMode.
Proof. solve_decision. Defined.
Record ResourceLimits := {
  limit_timeout_secs : Z;
  max_processes : Z;
  max_open_files : Z;
  max_file_bytes : Z;
  max_memory_bytes : Z;
}.
Definition default_limits : ResourceLimits := {|
  limit_timeout_secs := 30; max_processes := 64; max_open_files := 256;
  max_file_bytes := 512 * 1024 * 1024; max_memory_bytes := 1024 * 1024 * 1024 |}.

Definition SANDBOX_PLAN_VERSION : Z := 1.
Record SandboxPlan := {
  plan_version : Z;
  plan_package : string;
  plan_workdir : string;
  read_only_paths : list string;
  writable_paths : list string;
  environment_allowlist : list string;
  network : NetworkMode;
  allow_subprocesses : bool;
  limits : ResourceLimits;
}.
(** Unix only, as everything here. *)
Definition strict (package workdir : string) : SandboxPlan := {|
  plan_version := SANDBOX_PLAN_VERSION; plan_package := package; plan_workdir := workdir;
  read_only_paths := [workdir]; writable_paths := [workdir];
  environment_allowlist := ["PATH"; "TERM"]; network := Deny; allow_subprocesses := true;
  limits := default_limits |}.

Inductive Permission :=
  | Network (hosts : list string)
  | Read (paths : list string)
  | Write (paths : list string)
  | Env (names : list string)
  | Subprocess (commands : list string)
  | Unrestricted.
Record SandboxPolicy := {
  package : string;
  workdir : string;
  permissions : list Permission;
  timeout_secs : Z;
}.
Definition minimal (package workdir : string) : SandboxPolicy :=
  {| package := package; workdir := workdir; permissions := []; timeout_secs := 30 |}.

(** [Path::starts_with] *)
Definition path_starts_with (p base : string) : bool :=
  bool_decide (components base `prefix_of` components p).

Definition is_unrestricted (self : SandboxPolicy) : bool :=
  existsb (λ p, match p with Unrestricted => true | _ => false end) (permissions self).
Definition allows_network (self : SandboxPolicy) : bool :=
  existsb (λ p, match p with Network _ | Unrestricted => true | _ => false end) (permissions self).
Definition allows_read (self : SandboxPolicy) (path : string) : bool :=
  is_unrestricted self || path_starts_with path (workdir self)
  || existsb (λ p, match p with
                   | Read paths => existsb (path_starts_with path) paths
                   | _ => false
                   end) (permissions self).
Definition allows_write (self : SandboxPolicy) (path : string) : bool :=
  is_unrestricted self
  || existsb (λ p, match p with
                   | Write paths => existsb (path_starts_with path) paths
                   | _ => false
                   end) (permissions self).
Definition allows_env (self : SandboxPolicy) (name : string) : bool :=
  is_unrestricted self
  || existsb (λ p, match p with Env names => bool_decide (name ∈ names) | _ => false end)
       (permissions self).
Definition allows_subprocess (self : SandboxPolicy) (command : string) : bool :=
  is_unrestricted self
  || existsb (λ p, match p with Subprocess cs => bool_decide (command ∈ cs) | _ => false end)
       (permissions self).

(** [vars] is the environment of oath, in its order. *)
Definition allowed_env_names (vars : list (string * string)) (self : SandboxPolicy) : list string :=
  if is_unrestricted self then vars.*1
  else foldl (λ names p, match p with Env allowed => foldl push_new names allowed | _ => names end)
         [] (permissions self).
Definition declared_reads (self : SandboxPolicy) : list string :=
  p ← permissions self; match p with Read paths => paths | _ => [] end.
Definition declared_writes (self : SandboxPolicy) : list string :=
  p ← permissions self; match p with Write paths => paths | _ => [] end.
Definition to_plan (vars : list (string * string)) (self : SandboxPolicy) : SandboxPlan :=
  let plan := strict (package self) (workdir self) in {|
    plan_version := plan_version plan; plan_package := plan_package plan;
    plan_workdir := plan_workdir plan;
    read_only_paths := read_only_paths plan ++ declared_reads self;
    writable_paths := writable_paths plan ++ declared_writes self;
    environment_allowlist := allowed_env_names vars self;
    network := if allows_network self then Inherit else Deny;
    allow_subprocesses := allow_subprocesses plan;
    limits := {| limit_timeout_secs := timeout_secs self;
                 max_processes := max_processes (limits plan);
                 max_open_files := max_open_files (limits plan);
                 max_file_bytes := max_file_bytes (limits plan);
                 max_memory_bytes := max_memory_bytes (limits plan) |} |}.

(** ** Linux *)

(** The order of paths: by components, then the shorter first. *)
Definition component_rank (c : Component) : nat :=
  match c with RootDir => 0 | CurDir => 1 | ParentDir => 2 | Normal _ => 3 end.
Definition component_lt (a b : Component) : bool :=
  match a, b with
  | Normal x, Normal y => bool_decide (String.le x y ∧ x ≠ y)
  | _, _ => component_rank a <? component_rank b
  end.
Fixpoint path_le (p q : list Component) : bool :=
  match p, q with
  | [], _ => true
  | _, [] => false
  | a :: p, b :: q => component_lt a b || (bool_decide (a = b) && path_le p q)
  end.

(** The path a path is below of, as text: what is left of it once the last
    components and the separators before them are cut off. *)
Definition prefix_text (p : string) (cs : list Component) : string :=
  match filter (λ n, components (take_str n p) = cs) (seq 0 (String.length p)) with
  | n :: _ => take_str n p
  | [] => p
  end.
(** [Path::ancestors] without the path itself. *)
Definition ancestors (p : string) : list string :=
  let cs := components p in
  let root := if starts_with "/" p then 1 else 0 in
  (λ n, prefix_text p (take n cs)) <$> seq root (length cs - root).
(** A [BTreeSet] of paths: of equal paths the first stays. *)
Definition insert_path (set : list string) (p : string) : list string :=
  if decide (components p ∈ components <$> set) then set else set ++ [p].
Definition path_order (p q : string) : Prop := path_le (components p) (components q) = true.
#[export] Instance path_order_dec : RelDecision path_order.
Proof. intros p q. unfold path_order. apply _. Defined.

Definition system_dirs : list string := ["/usr"; "/bin"; "/lib"; "/lib64"; "/proc"; "/dev"].
Definition mount_parents (paths : list string) : list string :=
  merge_sort path_order
    (foldl insert_path [] (filter (λ a, components a ≠ [RootDir]) (paths ≫= ancestors))).
Definition created_dirs (paths : list string) : list string :=
  filter (λ a, components a ∉ components <$> system_dirs) (mount_parents paths).
Definition create_mount_parents (paths : list string) : list string :=
  parent ← created_dirs paths; ["--dir"; parent].

(** What [run] takes from its surroundings; [plan_file] is the temporary file
    the plan is written to. *)
Record Host := {
  bubblewrap : option string;
  path_exists : string → bool;
  env_var : string → option string;
  current_exe : result string string;
  plan_file : result string string;
}.
Definition namespace_args : list string :=
  ["--die-with-parent"; "--new-session"; "--unshare-user"; "--unshare-pid"; "--unshare-ipc";
   "--unshare-uts"; "--unshare-cgroup"; "--proc"; "/proc"; "--dev"; "/dev"].
Definition bwrap_args (h : Host) (executable plan_path : string) (plan : SandboxPlan)
    (program : string) (args : list string) : list string :=
  namespace_args
  ++ (if decide (network plan = Deny) then ["--unshare-net"] else [])
  ++ create_mount_parents (read_only_paths plan ++ writable_paths plan)
  ++ (p ← filter (λ p, path_exists h p = true) ["/usr"; "/bin"; "/lib"; "/lib64"];
      ["--ro-bind"; p; p])
  ++ (p ← read_only_paths plan; ["--ro-bind"; p; p])
  ++ (p ← writable_paths plan; ["--bind"; p; p])
  ++ ["--chdir"; plan_workdir plan; "--clearenv"]
  ++ (n ← environment_allowlist plan;
      match env_var h n with Some v => ["--setenv"; n; v] | None => [] end)
  ++ ["--dir"; "/oath"; "--ro-bind"; executable; "/oath/oath";
      "--ro-bind"; plan_path; "/oath/plan.json";
      "/oath/oath"; "__sandbox-launch"; "--plan"; "/oath/plan.json"; "--program"; program; "--"]
  ++ args.
(** The command [run] starts: program and arguments. *)
Definition run (h : Host) (plan : SandboxPlan) (program : string) (args : list string) :
    result string (string * list string) :=
  bwrap ← ok_or (bubblewrap h)
    "native Linux sandbox unavailable: install bubblewrap; Oath will not silently fall back";
  executable ← current_exe h;
  plan_path ← plan_file h;
  Ok (bwrap, bwrap_args h executable plan_path plan program args).

(** The limits set before the command starts, by resource; [count] is the number
    of processes the user has already. *)
Definition rlimits (count : Z) (plan : SandboxPlan) : list (string * Z) :=
  [("NPROC", saturating_add_u64 count (max_processes (limits plan)));
   ("NOFILE", max_open_files (limits plan));
   ("FSIZE", max_file_bytes (limits plan));
   ("AS", max_memory_bytes (limits plan));
   ("CPU", limit_timeout_secs (limits plan) `max` 1)]%Z.

(** The system calls [apply_seccomp] allows, those the library knows. *)
Definition ALLOWED : list string :=
  [
    "read"; "write"; "readv"; "writev"; "pread64"; "pwrite64"; "close"; "close_range"; "fstat";
    "newfstatat"; "statx"; "lseek"; "mmap"; "mprotect"; "munmap"; "mremap"; "madvise"; "brk";
    "rt_sigaction"; "rt_sigprocmask"; "rt_sigreturn"; "sigaltstack"; "ioctl"; "fcntl"; "dup";
    "dup2"; "dup3"; "pipe"; "pipe2"; "poll"; "ppoll"; "select"; "pselect6"; "epoll_create1";
    "epoll_ctl"; "epoll_wait"; "epoll_pwait"; "eventfd2"; "timerfd_create"; "timerfd_settime";
    "timerfd_gettime"; "clock_gettime"; "clock_nanosleep"; "nanosleep"; "gettimeofday";
    "getpid"; "getppid"; "gettid"; "getuid"; "geteuid"; "getgid"; "getegid"; "getgroups";
    "uname"; "sysinfo"; "getrandom"; "arch_prctl"; "prctl"; "getrlimit"; "setrlimit"; "getcpu";
    "restart_syscall"; "membarrier"; "openat"; "openat2"; "access"; "faccessat2"; "readlink";
    "readlinkat"; "getcwd"; "chdir"; "fchdir"; "getdents64"; "mkdirat"; "unlinkat"; "renameat2";
    "linkat"; "symlinkat"; "ftruncate"; "fsync"; "fdatasync"; "execve"; "execveat"; "wait4";
    "waitid"; "exit"; "exit_group"; "kill"; "tgkill"; "set_tid_address"; "set_robust_list";
    "rseq"; "futex"; "sched_yield"; "sched_getaffinity"; "sched_getparam"; "sched_getscheduler";
    "prlimit64"].
Definition process_syscalls : list string := ["clone"; "clone3"; "fork"; "vfork"].
Definition network_syscalls : list string :=
  [
    "socket"; "socketpair"; "connect"; "bind"; "listen"; "accept"; "accept4"; "getsockname";
    "getpeername"; "sendto"; "recvfrom"; "sendmsg"; "recvmsg"; "shutdown"; "setsockopt";
    "getsockopt"].
Definition seccomp_allowed (known : string → bool) (plan : SandboxPlan) : list string :=
  filter (λ n, known n = true)
    (ALLOWED
     ++ (if allow_subprocesses plan then process_syscalls else [])
     ++ (if decide (network plan = Inherit) then network_syscalls else [])).

(** What Landlock lets the command do below a path: [true] for every access,
    [false] for reading. *)
Definition landlock_rules (h : Host) (plan : SandboxPlan) : list (string * bool) :=
  ((λ p, (p, false)) <$> filter (λ p, path_exists h p = true)
     (["/usr"; "/bin"; "/lib"; "/lib64"] ++ read_only_paths plan))
  ++ ((λ p, (p, true)) <$> filter (λ p, path_exists h p = true) (writable_paths plan)).

(** ** macOS *)

(** [char::is_control], on the bytes of UTF-8: U+0000 to U+001F and U+007F to U+009F. *)
Fixpoint has_control (s : string) : bool :=
  match s with
  | EmptyString => false
  | String a s =>
      between 0 31 a || between 127 127 a
      || (between 194 194 a && match s with String b _ => between 128 159 b | _ => false end)
      || has_control s
  end.
Definition seatbelt_string (path : string) : result string string :=
  _ ← ensure (negb (has_control path))
        "sandbox paths containing control characters are unsupported";
  Ok (replace_char dquote (of_chars [backslash; dquote])
        (replace_char backslash (of_chars [backslash; backslash]) path)).

(** [canonicalize] is [std::fs::canonicalize]. *)
Definition canonical_paths (canonicalize : string → option string) (paths : list string) :
    result string (list string) :=
  canonical ← mapM (λ p,
    c ← ok_or (canonicalize p) ("sandbox path does not exist: " +:+ p);
    _ ← ensure (valid_utf8 c) ("sandbox path is not valid UTF-8: " +:+ p);
    Ok c) paths;
  Ok (sort_strings (foldl push_new [] canonical)).

Definition quoted (p : string) : string := String dquote (p +:+ String dquote "").
Definition literal (p : string) : string := "(literal " +:+ quoted p +:+ ")".
Definition subpath (p : string) : string := "(subpath " +:+ quoted p +:+ ")".
Definition global_name (p : string) : string := "(global-name " +:+ quoted p +:+ ")".
Definition rule (action operation : string) (operands : list string) : string :=
  "(" +:+ join " " (action :: operation :: operands) +:+ ")".

Definition fixed_rules : list string :=
  [ "(version 1)";
    "(allow default)";
    "(deny file-write*)";
    "(deny file-read-data)";
    "(deny process-exec)";
    "(allow file-read-metadata)";
    rule "allow" "file-read-data"
      (literal "/" :: (subpath <$> ["/System"; "/usr"; "/bin"; "/sbin"; "/dev";
                                    "/private/var/db/dyld"; "/opt/homebrew"; "/usr/local"]));
    rule "allow" "process-exec"
      (subpath <$> ["/System"; "/usr"; "/bin"; "/sbin"; "/opt/homebrew"; "/usr/local"]);
    rule "deny" "process-exec"
      (literal <$> ["/usr/bin/security"; "/usr/bin/osascript"; "/usr/bin/open";
                    "/usr/bin/pbcopy"; "/usr/bin/pbpaste"]);
    rule "deny" "mach-lookup"
      (global_name <$> ["com.apple.securityd"; "com.apple.security.agent";
                        "com.apple.security.authhost"; "com.apple.pboard";
                        "com.apple.trustd.agent"]);
    rule "allow" "file-write-data" (literal <$> ["/dev/null"; "/dev/tty"]) ].
Definition network_rules (mode : NetworkMode) : list string :=
  match mode with
  | Deny => ["(deny network*)"]
  | Inherit =>
      [rule "allow" "file-read-data"
         ((literal <$> ["/private/etc/hosts"; "/private/etc/resolv.conf";
                        "/private/etc/localtime"]) ++ [subpath "/private/etc/ssl"])]
  end.
Definition parent_rules (path : string) : result string (list string) :=
  path ← seatbelt_string path;
  Ok [rule "allow" "file-read-metadata" [literal path]; rule "allow" "file-read-data" [literal path]].
Definition read_rules (path : string) : result string (list string) :=
  path ← seatbelt_string path;
  Ok [rule "allow" "file-read-data" [subpath path]; rule "allow" "process-exec" [subpath path]].
Definition write_rules (path : string) : result string (list string) :=
  path ← seatbelt_string path;
  Ok [rule "allow" "file-read-data" [subpath path]; rule "allow" "file-write*" [subpath path];
      rule "allow" "process-exec" [subpath path]].
Definition profile_lines (canonicalize : string → option string) (plan : SandboxPlan) :
    result string (list string) :=
  _ ← ensure (bool_decide (plan_version plan = SANDBOX_PLAN_VERSION))
        ("unsupported sandbox plan version " +:+ pretty (plan_version plan));
  read_only ← canonical_paths canonicalize (read_only_paths plan);
  writable ← canonical_paths canonicalize (writable_paths plan);
  parents ← mapM parent_rules (mount_parents (read_only ++ writable));
  reads ← mapM read_rules read_only;
  writes ← mapM write_rules writable;
  Ok (fixed_rules ++ network_rules (network plan)
      ++ (if allow_subprocesses plan then [] else ["(deny process-fork)"])
      ++ mjoin parents ++ mjoin reads ++ mjoin writes).
Definition profile (canonicalize : string → option string) (plan : SandboxPlan) :
    result string string :=
  lines ← profile_lines canonicalize plan;
  Ok (join (String newline "") lines +:+ String newline "").

(** The profile of the policy itself; the path is not quoted. *)
Definition to_sandbox_profile (self : SandboxPolicy) : string :=
  let nl := String newline "" in
  "(version 1)" +:+ nl +:+ "(deny default)" +:+ nl
  +:+ "(allow file-read* " +:+ subpath (workdir self) +:+ ")" +:+ nl
  +:+ (if allows_network self then "(allow network*)" +:+ nl else "")
  +:+ (if is_unrestricted self then "(allow default)" +:+ nl else "").

(** ** Policies and their plans *)

Lemma elem_of_allowed_from ps acc n :
  n ∈ foldl (λ names p, match p with Env allowed => foldl push_new names allowed | _ => names end)
        acc ps ↔
  n ∈ acc ∨ existsb (λ p, match p with Env names => bool_decide (n ∈ names) | _ => false end) ps = true.
Proof.
  revert acc. induction ps as [|p ps IH]; intros acc; simpl; [naive_solver|].
  rewrite IH. destruct p; simpl; try done.
  rewrite elem_of_push_all, orb_true_iff, bool_decide_eq_true. tauto.
Qed.
Lemma NoDup_allowed_from ps acc :
  NoDup acc →
  NoDup (foldl (λ names p, match p with Env allowed => foldl push_new names allowed | _ => names end)
           acc ps).
Proof.
  revert acc. induction ps as [|p ps IH]; intros acc H; simpl; [done|].
  apply IH. destruct p; try done. by apply NoDup_push_all.
Qed.
Lemma existsb_bind {A B} (f : B → bool) (g : A → list B) l :
  existsb f (l ≫= g) = existsb (λ a, existsb f (g a)) l.
Proof. induction l as [|a l IH]; [done|]. csimpl. by rewrite existsb_app, IH. Qed.
Lemma existsb_ext_in {A} (f g : A → bool) l : (∀ a, f a = g a) → existsb f l = existsb g l.
Proof. intros H. induction l as [|a l IH]; [done|]. simpl. by rewrite H, IH. Qed.
Lemma declared_reads_spec self path :
  existsb (path_starts_with path) (declared_reads self) =
  existsb (λ p, match p with Read paths => existsb (path_starts_with path) paths | _ => false end)
    (permissions self).
Proof. unfold declared_reads. rewrite existsb_bind. apply existsb_ext_in. by intros []. Qed.
Lemma declared_writes_spec self path :
  existsb (path_starts_with path) (declared_writes self) =
  existsb (λ p, match p with Write paths => existsb (path_starts_with path) paths | _ => false end)
    (permissions self).
Proof. unfold declared_writes. rewrite existsb_bind. apply existsb_ext_in. by intros []. Qed.
Lemma unrestricted_network self : is_unrestricted self = true → allows_network self = true.
Proof.
  unfold is_unrestricted, allows_network. rewrite !existsb_exists. intros ([]&?&?); try done.
  by eexists (Unrestricted).
Qed.

(** What a plan lets its command see: the environment, the paths it can read and
    write below. *)
Definition plan_reads (plan : SandboxPlan) (path : string) : bool :=
  existsb (path_starts_with path) (read_only_paths plan).
Definition plan_writes (plan : SandboxPlan) (path : string) : bool :=
  existsb (path_starts_with path) (writable_paths plan).

(** The plan made from a policy and what the policy says it allows. The plan
    has network exactly when the policy allows any, whatever hosts are named. For
    a policy that is not unrestricted it reads exactly where [allows_read] says,
    passes exactly the variables [allows_env] names, each once, and writes where
    [allows_write] says or below the working directory, which [allows_write] on its
    own denies. An unrestricted policy gets the whole environment but reads and
    writes only what it declares and the working directory. Starting processes is
    allowed in every plan, whatever [allows_subprocess] says. *)
Theorem sandbox_plan_spec vars self path name :
  let plan := to_plan vars self in
  (network plan = Inherit ↔ allows_network self = true)
  ∧ plan_writes plan path =
      path_starts_with path (workdir self)
      || existsb (path_starts_with path) (declared_writes self)
  ∧ (if is_unrestricted self
     then environment_allowlist plan = vars.*1
          ∧ allows_read self path = true ∧ allows_write self path = true
          ∧ plan_reads plan path =
              path_starts_with path (workdir self)
              || existsb (path_starts_with path) (declared_reads self)
     else (name ∈ environment_allowlist plan ↔ allows_env self name = true)
          ∧ NoDup (environment_allowlist plan)
          ∧ plan_reads plan path = allows_read self path
          ∧ plan_writes plan path = path_starts_with path (workdir self) || allows_write self path)
  ∧ allow_subprocesses plan = true
  ∧ limits plan = {| limit_timeout_secs := timeout_secs self; max_processes := 64;
                     max_open_files := 256; max_file_bytes := 512 * 1024 * 1024;
                     max_memory_bytes := 1024 * 1024 * 1024 |}.
Proof.
  split; [|split; [done|split; [|done]]].
  - simpl. destruct (allows_network self); naive_solver.
  - unfold allows_read, allows_write, allows_env, plan_reads, plan_writes, to_plan, allowed_env_names.
    cbn [environment_allowlist read_only_paths writable_paths strict app existsb].
    rewrite declared_reads_spec, declared_writes_spec.
    destruct (is_unrestricted self); [done|].
    split; [|split; [apply NoDup_allowed_from, NoDup_nil_2|done]].
    rewrite elem_of_allowed_from. simpl. set_solver.
Qed.

(** ** The arguments of bubblewrap

    How bubblewrap reads its arguments: options, each with the number of operands
    [arity] gives it, up to the first argument that is no option: the command. *)
Inductive parses (arity : string → option nat) :
    list string → list (string * list string) → list string → Prop :=
  | parses_command a rest : arity a = None → parses arity (a :: rest) [] (a :: rest)
  | parses_option a xs rest ops cmd :
      arity a = Some (length xs) → parses arity rest ops cmd →
      parses arity (a :: xs ++ rest) ((a, xs) :: ops) cmd.

Lemma parses_det arity l ops cmd ops' cmd' :
  parses arity l ops cmd → parses arity l ops' cmd' → ops = ops' ∧ cmd = cmd'.
Proof.
  intros H. revert ops' cmd'. induction H as [a rest Ha|a xs rest ops cmd Ha _ IH]; intros ops' cmd' H'.
  - inversion H'; subst; [done|congruence].
  - inversion H' as [?? Hb|? ys rest' ?? Hb]; subst; [congruence|].
    assert (Hl : length xs = length ys) by congruence.
    match goal with E : _ ++ _ = _ ++ _ |- _ => destruct (app_inj_1 _ _ _ _ (eq_sym Hl) E) as [-> ->] end.
    match goal with P : parses _ rest _ _ |- _ => by destruct (IH _ _ P) as [-> ->] end.
Qed.
(** A group of arguments made of whole options. *)
Definition flat (ops : list (string * list string)) : list string :=
  o ← ops; o.1 :: o.2.
Lemma parses_flat arity ops rest ops' cmd :
  Forall (λ o, arity o.1 = Some (length o.2)) ops → parses arity rest ops' cmd →
  parses arity (flat ops ++ rest) (ops ++ ops') cmd.
Proof.
  intros H ?. induction H as [|[a xs] ops Ha _ IH]; [done|].
  unfold flat in *. csimpl. rewrite <- app_assoc. by apply parses_option.
Qed.

(** The options [run] passes, in order. *)
Definition options (h : Host) (executable plan_path : string) (plan : SandboxPlan) :
    list (string * list string) :=
  [("--die-with-parent", []); ("--new-session", []); ("--unshare-user", []); ("--unshare-pid", []);
   ("--unshare-ipc", []); ("--unshare-uts", []); ("--unshare-cgroup", []); ("--proc", ["/proc"]);
   ("--dev", ["/dev"])]
  ++ (if decide (network plan = Deny) then [("--unshare-net", [])] else [])
  ++ ((λ d, ("--dir", [d])) <$> created_dirs (read_only_paths plan ++ writable_paths plan))
  ++ ((λ p, ("--ro-bind", [p; p]))
        <$> filter (λ p, path_exists h p = true) ["/usr"; "/bin"; "/lib"; "/lib64"])
  ++ ((λ p, ("--ro-bind", [p; p])) <$> read_only_paths plan)
  ++ ((λ p, ("--bind", [p; p])) <$> writable_paths plan)
  ++ [("--chdir", [plan_workdir plan]); ("--clearenv", [])]
  ++ omap (λ n, (λ v, ("--setenv", [n; v])) <$> env_var h n) (environment_allowlist plan)
  ++ [("--dir", ["/oath"]); ("--ro-bind", [executable; "/oath/oath"]);
      ("--ro-bind", [plan_path; "/oath/plan.json"])].
Definition launcher (program : string) (args : list string) : list string :=
  ["/oath/oath"; "__sandbox-launch"; "--plan"; "/oath/plan.json"; "--program"; program; "--"] ++ args.

Lemma flat_app a b : flat (a ++ b) = flat a ++ flat b.
Proof. apply bind_app. Qed.
Lemma flat_fmap {A} (f : A → string * list string) l : flat (f <$> l) = l ≫= λ a, (f a).1 :: (f a).2.
Proof. unfold flat. induction l as [|a l IH]; [done|]. csimpl. by rewrite IH. Qed.
Lemma flat_setenv h names :
  flat (omap (λ n, (λ v, ("--setenv", [n; v])) <$> env_var h n) names) =
  names ≫= λ n, match env_var h n with Some v => ["--setenv"; n; v] | None => [] end.
Proof.
  unfold flat. induction names as [|n names IH]; [done|].
  csimpl. destruct (env_var h n); csimpl; by rewrite IH.
Qed.
Lemma bwrap_args_options h executable plan_path plan program args :
  bwrap_args h executable plan_path plan program args =
  flat (options h executable plan_path plan) ++ launcher program args.
Proof.
  unfold options. rewrite !flat_app, !flat_fmap, flat_setenv.
  unfold bwrap_args, launcher, create_mount_parents. rewrite <- !app_assoc.
  by case_decide.
Qed.

Lemma foldl_insert_path_sub l set a :
  a ∈ foldl insert_path set l → a ∈ set ∨ a ∈ l.
Proof.
  revert set. induction l as [|x l IH]; intros set H; simpl in H; [by left|].
  apply IH in H as [H|H]; [|right; by apply elem_of_cons; right].
  unfold insert_path in H. case_decide; [by left|].
  apply elem_of_app in H as [H|H]; [by left|]. apply list_elem_of_singleton in H as ->. set_solver.
Qed.
Lemma foldl_insert_path_keys l set k :
  k ∈ components <$> foldl insert_path set l ↔ k ∈ components <$> set ∨ k ∈ components <$> l.
Proof.
  revert set. induction l as [|x l IH]; intros set; simpl; [set_solver|].
  rewrite IH. unfold insert_path. case_decide; [|rewrite fmap_app]; csimpl; set_solver.
Qed.
Lemma foldl_insert_path_NoDup l set :
  NoDup (components <$> set) → NoDup (components <$> foldl insert_path set l).
Proof.
  revert set. induction l as [|x l IH]; intros set H; simpl; [done|].
  apply IH. unfold insert_path. case_decide as Hx; [done|].
  rewrite fmap_app. apply NoDup_app. split; [done|]. split; [|apply NoDup_singleton]. set_solver.
Qed.

(** The order of paths is total and transitive. *)
Lemma component_lt_trans a b c : component_lt a b = true → component_lt b c = true → component_lt a c = true.
Proof.
  destruct a, b, c; simpl; try done. rewrite !bool_decide_eq_true.
  intros [H1 N1] [H2 N2]. split; [by etrans|]. intros ->. by apply N1, (anti_symm String.le).
Qed.
Lemma component_lt_total a b : component_lt a b = true ∨ a = b ∨ component_lt b a = true.
Proof.
  destruct a as [| | |x], b as [| | |y]; simpl; try by auto.
  rewrite !bool_decide_eq_true. destruct (decide (x = y)) as [->|]; [by auto|].
  destruct (total String.le x y); naive_solver.
Qed.
Lemma path_le_trans p q r : path_le p q = true → path_le q r = true → path_le p r = true.
Proof.
  revert q r. induction p as [|a p IH]; intros [|b q] [|c r]; simpl; try done.
  rewrite !orb_true_iff, !andb_true_iff, !bool_decide_eq_true.
  intros [H1|[-> H1]] [H2|[-> H2]]; eauto using component_lt_trans.
Qed.
Lemma path_le_total p q : path_le p q = true ∨ path_le q p = true.
Proof.
  revert q. induction p as [|a p IH]; intros [|b q]; simpl; auto.
  rewrite !orb_true_iff, !andb_true_iff, !bool_decide_eq_true.
  destruct (component_lt_total a b) as [|[->|]]; auto.
  destruct (IH q); auto.
Qed.
#[export] Instance path_order_trans : Transitive path_order.
Proof. intros p q r. apply path_le_trans. Qed.
#[export] Instance path_order_total : Total path_order.
Proof. intros p q. apply path_le_total. Qed.
Lemma path_le_app p q : path_le p (p ++ q) = true.
Proof. induction p as [|a p IH]; [done|]. simpl. rewrite bool_decide_true, IH; [|done]. by destruct (component_lt a a). Qed.
Lemma component_lt_irrefl a : component_lt a a = false.
Proof. destruct a; simpl; try done. rewrite bool_decide_false; [done|]. naive_solver. Qed.
Lemma path_le_antisym p q : path_le p q = true → path_le q p = true → p = q.
Proof.
  revert q. induction p as [|a p IH]; intros [|b q]; simpl; try done.
  rewrite !orb_true_iff, !andb_true_iff, !bool_decide_eq_true.
  intros [H1|[-> H1]] [H2|[E2 H2]]; subst; try (by rewrite component_lt_irrefl in *).
  - pose proof (component_lt_trans _ _ _ H1 H2) as E. by rewrite component_lt_irrefl in E.
  - by rewrite (IH q).
Qed.

Lemma prefix_text_components p k :
  (starts_with "/" p = true → 1 ≤ k) → k < length (components p) →
  components (prefix_text p (take k (components p))) = take k (components p).
Proof.
  intros H1 Hk. unfold prefix_text.
  destruct (prefix_exists p k) as (a & b & Hp & Ha); [done|lia|].
  destruct (filter _ _) as [|n ns] eqn:E.
  - exfalso. assert (String.length a ∈ (@nil nat)) as []%not_elem_of_nil.
    rewrite <- E. apply list_elem_of_filter. split.
    { rewrite Hp at 1. by rewrite take_str_app. }
    apply elem_of_seq. rewrite Hp. rewrite str_length_app.
    destruct b; [|simpl; lia]. rewrite str_app_nil_r in Hp. subst a.
    rewrite Ha, length_take in Hk. lia.
  - assert (n ∈ n :: ns) as Hn by by left. rewrite <- E in Hn.
    by apply list_elem_of_filter in Hn as [??].
Qed.
(** The components of the ancestors: the initial parts, without the path itself,
    and not the empty one when the path is absolute. *)
Lemma ancestors_components p :
  components <$> ancestors p =
  (λ n, take n (components p)) <$>
    (let root := if starts_with "/" p then 1 else 0 in seq root (length (components p) - root)).
Proof.
  unfold ancestors. rewrite <- list_fmap_compose. apply list_fmap_ext. intros i k Hk. simpl.
  apply prefix_text_components.
  - intros E. rewrite E in Hk. apply lookup_seq in Hk. lia.
  - apply lookup_seq in Hk. destruct (starts_with "/" p); lia.
Qed.

(** The directories made for the mounts, by their components: the proper initial
    parts of the mounted paths but for the root, the empty path of absolute ones,
    and the system directories; each once, and no directory before its parent. *)
Definition mount_dir (paths : list string) (cs : list Component) : Prop :=
  ∃ p n, p ∈ paths ∧ cs = take n (components p) ∧ n < length (components p)
         ∧ (starts_with "/" p = true → n ≠ 0) ∧ cs ≠ [RootDir].

Lemma mount_parents_keys paths cs :
  cs ∈ components <$> mount_parents paths ↔ mount_dir paths cs.
Proof.
  assert (Hk : cs ∈ components <$> mount_parents paths ↔
               cs ≠ [RootDir] ∧ ∃ p, p ∈ paths ∧ cs ∈ components <$> ancestors p).
  { unfold mount_parents. rewrite merge_sort_Permutation, foldl_insert_path_keys.
    rewrite !list_elem_of_fmap. split.
    - intros [(?&_&?%not_elem_of_nil)|(a&->&[Ha H]%list_elem_of_filter)]; [done|]. split; [done|].
      apply list_elem_of_bind in H as (p & Hp & H). exists p. split; [done|].
      by apply list_elem_of_fmap_2.
    - intros (Hcs & p & Hp & (a & -> & Ha)%list_elem_of_fmap). right. exists a. split; [done|].
      apply list_elem_of_filter. split; [done|]. apply list_elem_of_bind. by exists p. }
  rewrite Hk. unfold mount_dir. split.
  - intros (Hr & p & Hp & H). rewrite ancestors_components in H.
    apply list_elem_of_fmap in H as (n & -> & [H1 H2]%elem_of_seq). exists p, n. split; [done|].
    split; [done|]. destruct (starts_with "/" p); naive_solver lia.
  - intros (p & n & Hp & -> & Hn & H1 & Hr). split; [done|]. exists p. split; [done|].
    rewrite ancestors_components. apply list_elem_of_fmap. exists n. split; [done|]. apply elem_of_seq.
    destruct (starts_with "/" p); [specialize (H1 eq_refl)|]; lia.
Qed.
Lemma created_dirs_keys paths cs :
  cs ∈ components <$> created_dirs paths ↔
  mount_dir paths cs ∧ cs ∉ components <$> system_dirs.
Proof.
  rewrite <- mount_parents_keys. unfold created_dirs. split.
  - intros (a & -> & [H1 H2]%list_elem_of_filter)%list_elem_of_fmap.
    split; [by apply list_elem_of_fmap_2|done].
  - intros [(a & -> & Ha)%list_elem_of_fmap Hs]. apply list_elem_of_fmap_2, list_elem_of_filter.
    by split.
Qed.
Lemma StronglySorted_earlier {A} (R : relation A) l i j x y :
  StronglySorted R l → l !! i = Some x → l !! j = Some y → i < j → R x y.
Proof.
  intros Hs Hi Hj Hlt. apply list_elem_of_split_length in Hj as (l1 & l2 & -> & ->).
  apply (StronglySorted_app_1_elem_of R l1 (y :: l2)); [done| |by left].
  rewrite lookup_app_l in Hi by done. by eapply list_elem_of_lookup_2.
Qed.
Lemma StronglySorted_sub {A} (R : relation A) (P : A → Prop) `{!∀ x, Decision (P x)} l :
  StronglySorted R l → StronglySorted R (filter P l).
Proof.
  induction 1 as [|x l _ IH Hx]; [constructor|]. rewrite filter_cons. case_decide; [|done].
  constructor; [done|]. rewrite Forall_forall in *. intros y [_ Hy]%list_elem_of_filter. by apply Hx.
Qed.
Lemma created_dirs_order paths i j d e :
  created_dirs paths !! i = Some d → created_dirs paths !! j = Some e →
  components d `prefix_of` components e → i ≤ j.
Proof.
  intros Hi Hj Hp. destruct (decide (i ≤ j)) as [|Hlt]; [done|exfalso].
  assert (Hsub : created_dirs paths `sublist_of` mount_parents paths)
    by (unfold created_dirs; apply sublist_filter).
  assert (Hn : NoDup (components <$> created_dirs paths)).
  { apply (sublist_NoDup _ (components <$> mount_parents paths)); [|by apply fmap_sublist].
    unfold mount_parents. rewrite merge_sort_Permutation.
    apply foldl_insert_path_NoDup, NoDup_nil_2. }
  assert (H1 : path_order e d).
  { eapply StronglySorted_earlier; [|exact Hj|exact Hi|lia].
    unfold created_dirs. apply StronglySorted_sub.
    unfold mount_parents. apply StronglySorted_merge_sort; apply _. }
  destruct Hp as [r Hr]. assert (H2 : path_le (components d) (components e) = true).
  { rewrite Hr. apply path_le_app. }
  assert (components d = components e) as E by by apply path_le_antisym.
  assert (i = j); [|lia]. apply (NoDup_lookup _ _ _ (components d) Hn); rewrite list_lookup_fmap.
  - by rewrite Hi.
  - by rewrite Hj, E.
Qed.

(** The operands of an option, at each of its occurrences. *)
Definition operands (opt : string) (ops : list (string * list string)) : list (list string) :=
  omap (λ o, if decide (o.1 = opt) then Some o.2 else None) ops.
Lemma operands_app opt a b : operands opt (a ++ b) = operands opt a ++ operands opt b.
Proof. apply omap_app. Qed.
Lemma operands_fmap {A} opt t (f : A → list string) l :
  operands opt ((λ a, (t, f a)) <$> l) = if decide (t = opt) then f <$> l else [].
Proof.
  unfold operands. induction l as [|a l IH]; csimpl; [by case_decide|].
  rewrite IH. by case_decide.
Qed.
Lemma operands_setenv opt h names :
  operands opt (omap (λ n, (λ v, ("--setenv", [n; v])) <$> env_var h n) names) =
  if decide ("--setenv" = opt) then omap (λ n, (λ v, [n; v]) <$> env_var h n) names else [].
Proof.
  unfold operands. induction names as [|n names IH]; csimpl; [by case_decide|].
  destruct (env_var h n); csimpl; rewrite IH; by case_decide.
Qed.

(** The mounts and the directories for them, in their order: a later one hides an earlier
    one at and below its place. *)
Definition mount_options : list string := ["--proc"; "--dev"; "--dir"; "--ro-bind"; "--bind"].
Definition mounts (ops : list (string * list string)) : list (string * list string) :=
  filter (λ o, o.1 ∈ mount_options) ops.
Lemma mounts_app a b : mounts (a ++ b) = mounts a ++ mounts b.
Proof. apply filter_app. Qed.
Lemma mounts_all t {A} (f : A → list string) l :
  t ∈ mount_options → mounts ((λ a, (t, f a)) <$> l) = (λ a, (t, f a)) <$> l.
Proof.
  intros Ht. unfold mounts. induction l as [|a l IH]; [done|]. csimpl. rewrite filter_cons, decide_True by done.
  by rewrite IH.
Qed.
Lemma mounts_setenv h names :
  mounts (omap (λ n, (λ v, ("--setenv", [n; v])) <$> env_var h n) names) = [].
Proof.
  unfold mounts. induction names as [|n names IH]; csimpl; [done|].
  destruct (env_var h n); csimpl; [|done]. rewrite filter_cons, decide_False; [done|].
  apply (bool_decide_unpack _). by vm_compute.
Qed.

(** What the options amount to: what is mounted, the environment, the network. *)
Record confined (h : Host) (executable plan_path : string) (plan : SandboxPlan)
    (ops : list (string * list string)) : Prop := {
  confined_net : operands "--unshare-net" ops = if decide (network plan = Deny) then [[]] else [];
  confined_namespaces :
    Forall (λ o, operands o ops = [[]])
      ["--die-with-parent"; "--new-session"; "--unshare-user"; "--unshare-pid"; "--unshare-ipc";
       "--unshare-uts"; "--unshare-cgroup"; "--clearenv"];
  confined_read : operands "--ro-bind" ops =
    ((λ p, [p; p]) <$> (filter (λ p, path_exists h p = true) ["/usr"; "/bin"; "/lib"; "/lib64"]
                        ++ read_only_paths plan))
    ++ [[executable; "/oath/oath"]; [plan_path; "/oath/plan.json"]];
  confined_write : operands "--bind" ops = (λ p, [p; p]) <$> writable_paths plan;
  confined_env : operands "--setenv" ops =
    omap (λ n, (λ v, [n; v]) <$> env_var h n) (environment_allowlist plan);
  confined_cleared : ∃ pre post, ops = pre ++ ("--clearenv", []) :: post ∧ operands "--setenv" pre = [];
  confined_dirs : operands "--dir" ops =
    ((λ d, [d]) <$> created_dirs (read_only_paths plan ++ writable_paths plan)) ++ [["/oath"]];
  confined_start : operands "--chdir" ops = [[plan_workdir plan]];
  confined_mounts : mounts ops =
    [("--proc", ["/proc"]); ("--dev", ["/dev"])]
    ++ ((λ d, ("--dir", [d])) <$> created_dirs (read_only_paths plan ++ writable_paths plan))
    ++ ((λ p, ("--ro-bind", [p; p])) <$> (filter (λ p, path_exists h p = true) ["/usr"; "/bin"; "/lib"; "/lib64"]
                                          ++ read_only_paths plan))
    ++ ((λ p, ("--bind", [p; p])) <$> writable_paths plan)
    ++ [("--dir", ["/oath"]); ("--ro-bind", [executable; "/oath/oath"]);
        ("--ro-bind", [plan_path; "/oath/plan.json"])];
}.
Lemma operands_net opt plan :
  operands opt (if decide (network plan = Deny) then [("--unshare-net", [])] else []) =
  if decide (network plan = Deny)
  then (if decide ("--unshare-net" = opt) then [[]] else []) else [].
Proof. destruct (decide (network plan = Deny)); [|done]. unfold operands. simpl. by case_decide. Qed.
Lemma cut_options {A} (a b c d e f : list A) x y r :
  a ++ b ++ c ++ d ++ e ++ f ++ [x; y] ++ r = (a ++ b ++ c ++ d ++ e ++ f ++ [x]) ++ y :: r.
Proof. by rewrite <- !app_assoc. Qed.
(** The operands of an option, segment by segment. *)
Ltac segments :=
  rewrite ?operands_app, ?operands_net, ?operands_fmap, ?operands_setenv, ?fmap_app; simpl;
  rewrite <- ?app_assoc, ?app_nil_r; repeat case_decide; try reflexivity; try congruence.
Lemma options_confined h executable plan_path plan :
  confined h executable plan_path plan (options h executable plan_path plan).
Proof.
  split; unfold options.
  - destruct (network plan); segments.
  - repeat constructor; destruct (network plan); segments.
  - segments.
  - segments.
  - segments.
  - eexists _, _. split; [apply cut_options|]. segments.
  - segments.
  - segments.
  - rewrite !mounts_app, !mounts_all, mounts_setenv by (apply (bool_decide_unpack _); by vm_compute).
    rewrite fmap_app, <- !app_assoc. by case_decide.
Qed.

Lemma elem_of_seccomp known plan n :
  n ∈ seccomp_allowed known plan ↔
  known n = true ∧ (n ∈ ALLOWED ∨ allow_subprocesses plan = true ∧ n ∈ process_syscalls
                    ∨ network plan = Inherit ∧ n ∈ network_syscalls).
Proof.
  unfold seccomp_allowed. rewrite list_elem_of_filter, !elem_of_app.
  destruct (allow_subprocesses plan), (network plan); simpl; rewrite ?elem_of_nil; naive_solver.
Qed.
(** The system calls every command may make, by what they are for. *)
Definition call_purposes : list (string * list string) :=
  [("input and output",
     ["read"; "write"; "readv"; "writev"; "pread64"; "pwrite64"; "close"; "close_range"; "lseek"; "ioctl"; "fcntl";
      "dup"; "dup2"; "dup3"; "pipe"; "pipe2"; "poll"; "ppoll"; "select"; "pselect6"; "epoll_create1"; "epoll_ctl";
      "epoll_wait"; "epoll_pwait"; "eventfd2"; "ftruncate"; "fsync"; "fdatasync"]);
   ("files below what is mounted",
     ["openat"; "openat2"; "access"; "faccessat2"; "fstat"; "newfstatat"; "statx"; "readlink"; "readlinkat"; "getcwd";
      "chdir"; "fchdir"; "getdents64"; "mkdirat"; "unlinkat"; "renameat2"; "linkat"; "symlinkat"]);
   ("memory", ["mmap"; "mprotect"; "munmap"; "mremap"; "madvise"; "brk"; "membarrier"]);
   ("time", ["timerfd_create"; "timerfd_settime"; "timerfd_gettime"; "clock_gettime"; "clock_nanosleep"; "nanosleep";
             "gettimeofday"]);
   ("what it is and where",
     ["getpid"; "getppid"; "gettid"; "getuid"; "geteuid"; "getgid"; "getegid"; "getgroups"; "uname"; "sysinfo";
      "getrandom"; "getcpu"; "getrlimit"; "sched_getaffinity"; "sched_getparam"; "sched_getscheduler"]);
   ("itself", ["arch_prctl"; "prctl"; "setrlimit"; "prlimit64"; "set_tid_address"; "set_robust_list"; "rseq"; "futex";
               "sched_yield"; "restart_syscall"; "execve"; "execveat"; "exit"; "exit_group"]);
   ("signals and children", ["rt_sigaction"; "rt_sigprocmask"; "rt_sigreturn"; "sigaltstack"; "kill"; "tgkill"; "wait4";
                             "waitid"])].
Definition base_calls : list string := call_purposes ≫= snd.
Lemma base_calls_allowed n : n ∈ ALLOWED ↔ n ∈ base_calls.
Proof.
  assert (Forall (λ n, n ∈ base_calls) ALLOWED ∧ Forall (λ n, n ∈ ALLOWED) base_calls) as [H1 H2]
    by (apply (bool_decide_unpack _); by vm_compute).
  rewrite Forall_forall in H1, H2. split; auto.
Qed.
(** Calls with which a confinement is left or the kernel is reached. *)
Definition escaping_calls : list string :=
  ["ptrace"; "process_vm_readv"; "process_vm_writev"; "pidfd_getfd"; "mount"; "umount2"; "pivot_root"; "chroot";
   "open_tree"; "move_mount"; "fsopen"; "fsmount"; "unshare"; "setns"; "bpf"; "perf_event_open"; "userfaultfd";
   "io_uring_setup"; "io_uring_enter"; "io_uring_register"; "keyctl"; "add_key"; "request_key"; "init_module";
   "finit_module"; "delete_module"; "kexec_load"; "reboot"; "swapon"; "open_by_handle_at"; "personality"; "seccomp";
   "setuid"; "setgid"; "setresuid"; "setresgid"; "capset"; "mknodat"; "fchmodat"; "fchownat"; "setxattr"].
Lemma escaping_refused known plan : Forall (λ n, n ∉ seccomp_allowed known plan) escaping_calls.
Proof.
  assert (Forall (λ n, n ∉ ALLOWED ∧ n ∉ process_syscalls ∧ n ∉ network_syscalls) escaping_calls) as H
    by (apply (bool_decide_unpack _); by vm_compute).
  eapply Forall_impl; [exact H|]. cbv beta. intros n (H1 & H2 & H3). rewrite elem_of_seccomp. tauto.
Qed.
Lemma syscalls_disjoint :
  Forall (λ n, n ∉ ALLOWED ∧ n ∉ process_syscalls) network_syscalls
  ∧ Forall (λ n, n ∉ ALLOWED ∧ n ∉ network_syscalls) process_syscalls.
Proof. apply (bool_decide_eq_true_1 _). vm_compute. reflexivity. Qed.
(** Which system calls and paths the two inner filters let through. *)
Lemma seccomp_spec known plan :
  Forall (λ n, n ∈ seccomp_allowed known plan ↔ known n = true ∧ network plan = Inherit)
    network_syscalls
  ∧ Forall (λ n, n ∈ seccomp_allowed known plan ↔ known n = true ∧ allow_subprocesses plan = true)
      process_syscalls
  ∧ (∀ n, n ∉ network_syscalls → n ∉ process_syscalls →
       n ∈ seccomp_allowed known plan ↔ known n = true ∧ n ∈ base_calls).
Proof.
  destruct syscalls_disjoint as [Hnet Hproc].
  rewrite Forall_forall in Hnet, Hproc.
  split; [|split]; [apply Forall_forall; intros n Hn..|intros n Hn Hp]; rewrite elem_of_seccomp.
  - destruct (Hnet n Hn). tauto.
  - destruct (Hproc n Hn). tauto.
  - rewrite <- base_calls_allowed. tauto.
Qed.
Lemma landlock_spec h plan p full :
  (p, full) ∈ landlock_rules h plan ↔
  path_exists h p = true ∧
  p ∈ if full : bool then writable_paths plan
      else ["/usr"; "/bin"; "/lib"; "/lib64"] ++ read_only_paths plan.
Proof.
  unfold landlock_rules. rewrite elem_of_app, !list_elem_of_fmap.
  setoid_rewrite list_elem_of_filter. destruct full; naive_solver.
Qed.

(** The options [run] uses with their numbers of operands, as bubblewrap documents
    them. *)
Definition bubblewrap_options : list (string * nat) :=
  [("--die-with-parent", 0); ("--new-session", 0); ("--unshare-user", 0); ("--unshare-pid", 0);
   ("--unshare-ipc", 0); ("--unshare-uts", 0); ("--unshare-cgroup", 0); ("--unshare-net", 0);
   ("--proc", 1); ("--dev", 1); ("--dir", 1); ("--ro-bind", 2); ("--bind", 2); ("--chdir", 1);
   ("--clearenv", 0); ("--setenv", 2)].
Lemma options_arity arity h executable plan_path plan :
  Forall (λ o, arity o.1 = Some o.2) bubblewrap_options →
  Forall (λ o, arity o.1 = Some (length o.2)) (options h executable plan_path plan).
Proof.
  unfold bubblewrap_options. rewrite !Forall_cons. simpl. intros H. destruct_and! H.
  unfold options. rewrite !Forall_app, !Forall_fmap.
  repeat match goal with
  | |- _ ∧ _ => split
  | |- Forall _ (if ?c then _ else _) => destruct c
  | |- Forall _ [] => constructor
  | |- Forall _ (_ :: _) => constructor
  | |- Forall _ (_ <$> _) => apply Forall_true; intros ?
  | |- Forall _ (omap _ _) => apply Forall_forall; intros o (n & _ & Ho)%list_elem_of_omap;
      destruct (env_var h n); simplify_eq/=; assumption
  | |- (_ ∘ _) _ => simpl
  | |- arity _ = _ => simpl; assumption
  | |- Forall _ _ => apply Forall_true; intros ?
  end.
Qed.

(** (C28) What the command is confined to on Linux. Whatever strings the plan holds,
    bubblewrap, reading its arguments with the documented numbers of operands,
    takes them as operands and never as options, and the command it starts is the
    launcher with the program and its arguments. It gets no network exactly when
    the plan denies it. What is mounted, in this order and nothing else, are the
    directories for the mounts, the system directories that exist and the plan's
    read-only paths, read-only, then the plan's writable ones, then the launcher and
    its plan; it starts in the working directory, and the environment is cleared
    first and holds then the listed variables that are set. The directories made for
    the mounts are exactly their proper ancestors that are neither the root nor
    system directories, no directory before its parent. Inside, network and process
    system calls are allowed exactly as the plan says, of the others exactly those
    listed by purpose, which leaves out those that could leave the confinement, and
    Landlock gives full access below the writable paths only. Without bubblewrap
    nothing is started. *)
Theorem linux_sandbox_spec arity known h plan program args
    (Hcommand : arity "/oath/oath" = None)
    (Hoptions : Forall (λ o, arity o.1 = Some o.2) bubblewrap_options) :
  let paths := read_only_paths plan ++ writable_paths plan in
  match bubblewrap h, current_exe h, plan_file h with
  | Some bwrap, Ok executable, Ok plan_path =>
      ∃ argv ops,
        run h plan program args = Ok (bwrap, argv)
        ∧ parses arity argv ops (launcher program args)
        ∧ confined h executable plan_path plan ops
  | _, _, _ => is_ok (run h plan program args) = false
  end
  ∧ (∀ cs, cs ∈ components <$> created_dirs paths ↔
           mount_dir paths cs ∧ cs ∉ components <$> system_dirs)
  ∧ (∀ i j d e, created_dirs paths !! i = Some d → created_dirs paths !! j = Some e →
                components d `prefix_of` components e → i ≤ j)
  ∧ (Forall (λ n, n ∈ seccomp_allowed known plan ↔ known n = true ∧ network plan = Inherit)
       network_syscalls
     ∧ Forall (λ n, n ∈ seccomp_allowed known plan ↔
                    known n = true ∧ allow_subprocesses plan = true) process_syscalls
     ∧ (∀ n, n ∉ network_syscalls → n ∉ process_syscalls →
          n ∈ seccomp_allowed known plan ↔ known n = true ∧ n ∈ base_calls)
     ∧ Forall (λ n, n ∉ seccomp_allowed known plan) escaping_calls)
  ∧ (∀ p full, (p, full) ∈ landlock_rules h plan ↔
       path_exists h p = true ∧
       p ∈ if full : bool then writable_paths plan
           else ["/usr"; "/bin"; "/lib"; "/lib64"] ++ read_only_paths plan).
Proof.
  intros paths. split.
  { unfold run. destruct (bubblewrap h) as [bwrap|]; simpl; [|done].
    destruct (current_exe h) as [executable|]; simpl; [|done].
    destruct (plan_file h) as [plan_path|]; simpl; [|done]. eexists _, _. split; [done|].
    split; [|apply options_confined]. rewrite bwrap_args_options, <- (app_nil_r (options _ _ _ _)).
    rewrite app_nil_r at 1.
    apply parses_flat; [by apply options_arity|]. by apply parses_command. }
  split; [apply created_dirs_keys|]. split; [apply created_dirs_order|].
  split; [|apply landlock_spec]. destruct (seccomp_spec known plan) as (? & ? & ?).
  split_and!; [done..|apply escaping_refused].
Qed.
Lemma linux_sandbox_spec_witness :
  let arity o := snd <$> head (filter (λ e, e.1 = o) bubblewrap_options) in
  let h := {| bubblewrap := Some "bwrap"; path_exists := λ _, true;
              env_var := λ n, if decide (n = "HOME") then Some "/root" else None;
              current_exe := Ok "/usr/bin/oath"; plan_file := Ok "/tmp/plan" |} in
  arity "/oath/oath" = None
  ∧ match run h (strict "demo" "/work/demo") "node" ["--bind"] with
    | Ok (_, argv) => ∃ ops, parses arity argv ops (launcher "node" ["--bind"])
                             ∧ operands "--bind" ops = [["/work/demo"; "/work/demo"]]
    | Err _ => False
    end.
Proof.
  intros arity h. split; [reflexivity|].
  destruct (linux_sandbox_spec arity (λ _, true) h (strict "demo" "/work/demo") "node" ["--bind"]
              eq_refl ltac:(repeat constructor)) as [(argv & ops & -> & Hp & Hc) _].
  exists ops. split; [exact Hp|]. apply (confined_write _ _ _ _ _ Hc).
Defined.

(** Below its working directory a command may write, which [allows_write] denies;
    and an unrestricted policy may not write elsewhere, which it allows. *)
Example workdir_is_written :
  let p := minimal "demo" "/work" in
  allows_write p "/work/src/index.js" = false
  ∧ plan_writes (to_plan [] p) "/work/src/index.js" = true.
Proof. split; reflexivity. Qed.
Example unrestricted_is_confined :
  let p := {| package := "demo"; workdir := "/work"; permissions := [Unrestricted];
              timeout_secs := 30 |} in
  allows_write p "/etc/passwd" = true ∧ plan_writes (to_plan [] p) "/etc/passwd" = false.
Proof. split; reflexivity. Qed.

(** ** The Seatbelt profile *)

Lemma seatbelt_string_Ok p q :
  seatbelt_string p = Ok q →
  has_control p = false ∧ ∀ rest, read_literal (q +:+ String dquote rest) = Some (p, rest).
Proof.
  unfold seatbelt_string. rewrite bind_Ok. intros (_ & H%ensure_Ok & [= <-]).
  split; [by apply negb_true_iff|]. intros rest. apply read_escaped.
Qed.

Lemma has_control_newline p : has_control p = false → has newline p = false.
Proof.
  induction p as [|x p IH]; [done|]. simpl. rewrite !orb_false_iff.
  intros [[[H _] _] Hp]. rewrite has_cons, IH by done. rewrite orb_false_r.
  apply bool_decide_eq_false. intros <-. done.
Qed.
Lemma has_replace_char c a r s :
  has c r = false → has c s = false → has c (replace_char a r s) = false.
Proof.
  intros Hr. induction s as [|x s IH]; [done|]. rewrite has_cons, orb_false_iff. intros [Hx Hs].
  simpl. rewrite has_app, IH by done. rewrite orb_false_r.
  destruct (decide (x = a)); [done|]. by rewrite has_cons, Hx.
Qed.
Lemma seatbelt_string_line p q : seatbelt_string p = Ok q → has newline q = false.
Proof.
  intros H. pose proof (seatbelt_string_Ok _ _ H) as [Hp%has_control_newline _].
  unfold seatbelt_string in H. rewrite bind_Ok in H. destruct H as (_ & _ & [= <-]).
  by repeat (apply has_replace_char; [reflexivity|]).
Qed.

Lemma canonical_paths_Ok canonicalize paths cs w :
  canonical_paths canonicalize paths = Ok cs →
  w ∈ cs ↔ ∃ p, p ∈ paths ∧ canonicalize p = Some w.
Proof.
  unfold canonical_paths. rewrite bind_Ok. intros (l & Hl%mapM_Ok & [= <-]).
  rewrite sort_strings_perm, elem_of_push_all.
  assert (Hf : ∀ x y, (c ← ok_or (canonicalize x) ("sandbox path does not exist: " +:+ x);
                       _ ← ensure (valid_utf8 c) ("sandbox path is not valid UTF-8: " +:+ x);
                       Ok c) = Ok y → canonicalize x = Some y).
  { intros x y. rewrite bind_Ok. intros (c & Hc%ok_or_Ok & H). rewrite bind_Ok in H.
    destruct H as (_ & _ & [= ->]). done. }
  split.
  - intros [[]%not_elem_of_nil|Hw]. apply list_elem_of_lookup in Hw as [i Hw].
    destruct (Forall2_lookup_r _ _ _ _ _ Hl Hw) as (x & Hx & E).
    exists x. split; [by eapply list_elem_of_lookup_2|by apply Hf].
  - intros (p & Hp & Hc). right. apply list_elem_of_lookup in Hp as [i Hp].
    destruct (Forall2_lookup_l _ _ _ _ _ Hl Hp) as (y & Hy & E).
    apply Hf in E. simplify_eq. by eapply list_elem_of_lookup_2.
Qed.

Definition write_prefix : string := "(allow file-write* ".
Definition write_line (q : string) : string := rule "allow" "file-write*" [subpath q].
(** A line that is neither a denial of network or processes nor lets anything be
    written. *)
Definition harmless (l : string) : Prop :=
  l ≠ "(deny network*)" ∧ l ≠ "(deny process-fork)" ∧ starts_with write_prefix l = false.
Lemma has_rule a o operands :
  has newline a = false → has newline o = false → Forall (λ p, has newline p = false) operands →
  has newline (rule a o operands) = false.
Proof.
  intros Ha Ho Hs. unfold rule. rewrite !has_app.
  assert (Hj : has newline (join " " (a :: o :: operands)) = false); [|by rewrite Hj].
  assert (Hall : Forall (λ p, has newline p = false) (a :: o :: operands)) by by repeat constructor.
  clear -Hall. induction Hall as [|x l Hx H IH]; [done|].
  destruct l as [|y l]; [done|]. rewrite join_cons, !has_app, Hx, IH. done.
Qed.
Lemma has_quoted pre q : has newline pre = false → has newline q = false →
  has newline (pre +:+ quoted q +:+ ")") = false.
Proof. intros Hp Hq. unfold quoted. by rewrite !has_app, has_cons, has_app, Hp, Hq. Qed.

Lemma path_rules_spec p q :
  seatbelt_string p = Ok q →
  Forall (λ l, has newline l = false)
    [rule "allow" "file-read-metadata" [literal q]; rule "allow" "file-read-data" [literal q];
     rule "allow" "file-read-data" [subpath q]; rule "allow" "process-exec" [subpath q];
     rule "allow" "file-write*" [subpath q]].
Proof.
  intros H%seatbelt_string_line.
  repeat constructor; (apply has_rule; [reflexivity..|]); repeat constructor;
    by apply has_quoted.
Qed.
(** The lines before those of the paths. *)
Lemma head_lines_spec plan :
  let head := fixed_rules ++ network_rules (network plan)
              ++ (if allow_subprocesses plan then [] else ["(deny process-fork)"]) in
  Forall (λ l, has newline l = false ∧ starts_with write_prefix l = false) head
  ∧ ("(deny network*)" ∈ head ↔ network plan = Deny)
  ∧ ("(deny process-fork)" ∈ head ↔ allow_subprocesses plan = false).
Proof.
  destruct (network plan), (allow_subprocesses plan); intros head; (split; [|split; split]);
    try done;
    try (intros _; apply (bool_decide_eq_true_1 _); vm_compute; reflexivity);
    try (intros H; exfalso; revert H; apply (bool_decide_eq_true_1 _); vm_compute; reflexivity);
    apply (bool_decide_eq_true_1 _); vm_compute; reflexivity.
Qed.

Lemma mapM_lines (f : string → result string (list string)) (paths : list string)
    (groups : list (list string)) l :
  mapM f paths = Ok groups →
  l ∈ mjoin groups ↔ ∃ p ls, p ∈ paths ∧ f p = Ok ls ∧ l ∈ ls.
Proof.
  intros H%mapM_Ok. rewrite list_elem_of_join. split.
  - intros (ls & Hl & Hls). apply list_elem_of_lookup in Hls as [i Hi].
    destruct (Forall2_lookup_r _ _ _ _ _ H Hi) as (p & Hp & E).
    exists p, ls. split; [by eapply list_elem_of_lookup_2|done].
  - intros (p & ls & Hp & E & Hl). apply list_elem_of_lookup in Hp as [i Hi].
    destruct (Forall2_lookup_l _ _ _ _ _ H Hi) as (ls' & Hls & E').
    assert (ls' = ls) as -> by congruence. exists ls.
    split; [done|by eapply list_elem_of_lookup_2].
Qed.
Lemma path_lines_spec l :
  (∃ p ls, parent_rules p = Ok ls ∧ l ∈ ls) ∨ (∃ p ls, read_rules p = Ok ls ∧ l ∈ ls)
  ∨ (∃ p ls, write_rules p = Ok ls ∧ l ∈ ls) →
  has newline l = false ∧ l ≠ "(deny network*)" ∧ l ≠ "(deny process-fork)".
Proof.
  assert (Hc : ∀ a o q, a = "allow" → rule a o [q] ≠ "(deny network*)" ∧ rule a o [q] ≠ "(deny process-fork)").
  { intros a o q ->. split; intros H; apply (f_equal (String.get 1)) in H; vm_compute in H; congruence. }
  unfold parent_rules, read_rules, write_rules. setoid_rewrite bind_Ok.
  intros [(p & ls & (q & Hq & [= <-]) & Hl)|[(p & ls & (q & Hq & [= <-]) & Hl)
         |(p & ls & (q & Hq & [= <-]) & Hl)]];
    (split; [|rewrite !elem_of_cons, elem_of_nil in Hl; naive_solver]);
    pose proof (path_rules_spec _ _ Hq) as H; rewrite Forall_forall in H; apply H; set_solver.
Qed.
Lemma write_lines_only l :
  (∃ p ls, parent_rules p = Ok ls ∧ l ∈ ls) ∨ (∃ p ls, read_rules p = Ok ls ∧ l ∈ ls) →
  starts_with write_prefix l = false.
Proof.
  unfold parent_rules, read_rules. setoid_rewrite bind_Ok.
  intros [(p & ls & (q & Hq & [= <-]) & Hl)|(p & ls & (q & Hq & [= <-]) & Hl)];
    rewrite !elem_of_cons, elem_of_nil in Hl; destruct_or! Hl; subst; try done; reflexivity.
Qed.
Lemma write_rules_line p l :
  (∃ ls, write_rules p = Ok ls ∧ l ∈ ls) ∧ starts_with write_prefix l = true ↔
  ∃ q, seatbelt_string p = Ok q ∧ l = write_line q.
Proof.
  unfold write_rules. destruct (seatbelt_string p) as [q|e]; simpl.
  - split.
    + intros [(ls & [= <-] & Hl) Hs]. exists q. split; [done|].
      rewrite !elem_of_cons, elem_of_nil in Hl.
      destruct_or! Hl; subst; try done; vm_compute in Hs; done.
    + intros (? & [= <-] & ->). split; [|done]. eexists. split; [reflexivity|]. right. by left.
  - split; [by intros [(?&?&?) _]|by intros (?&?&?)].
Qed.

Lemma join_nl (ls : list string) :
  ls ≠ [] → join (String newline "") (ls ++ [""]) = join (String newline "") ls +:+ String newline "".
Proof.
  induction ls as [|x ls IH]; [done|]. intros _. destruct ls as [|y ls].
  - simpl. by rewrite str_app_nil_r.
  - change ((x :: y :: ls) ++ [""]) with (x :: y :: (ls ++ [""])). rewrite !join_cons.
    change (y :: ls ++ [""]) with ((y :: ls) ++ [""]). rewrite IH by done.
    by rewrite !str_app_assoc.
Qed.

(** The Seatbelt profile of a plan. Its lines are the rules: no path breaks
    one. The network and forking are denied by a rule of their own exactly when the
    plan denies them. Writing is allowed below the canonical form of each writable
    path and by no other rule for subtrees, after the rule that denies all of it;
    and each path is quoted so that reading the literal gives the path back,
    whatever quotes and backslashes it holds. *)
Theorem seatbelt_profile_spec canonicalize plan text :
  profile canonicalize plan = Ok text →
  ∃ lines,
    split_char newline text = lines ++ [""]
    ∧ ("(deny network*)" ∈ lines ↔ network plan = Deny)
    ∧ ("(deny process-fork)" ∈ lines ↔ allow_subprocesses plan = false)
    ∧ fixed_rules `prefix_of` lines
    ∧ (∀ l, l ∈ lines ∧ starts_with write_prefix l = true ↔
         ∃ p w q, p ∈ writable_paths plan ∧ canonicalize p = Some w
                  ∧ seatbelt_string w = Ok q ∧ l = write_line q)
    ∧ ∀ w q rest, seatbelt_string w = Ok q →
         read_literal (q +:+ String dquote rest) = Some (w, rest).
Proof.
  unfold profile. rewrite bind_Ok. intros (lines & Hlines & [= <-]). exists lines.
  unfold profile_lines in Hlines. rewrite bind_Ok in Hlines. destruct Hlines as (_ & _ & Hlines).
  rewrite bind_Ok in Hlines. destruct Hlines as (ro & Hro & Hlines).
  rewrite bind_Ok in Hlines. destruct Hlines as (rw & Hrw & Hlines).
  rewrite bind_Ok in Hlines. destruct Hlines as (ps & Hps & Hlines).
  rewrite bind_Ok in Hlines. destruct Hlines as (rs & Hrs & Hlines).
  rewrite bind_Ok in Hlines. destruct Hlines as (ws & Hws & [= Elines]).
  destruct (head_lines_spec plan) as (Hhead & Hnet & Hfork).
  set (tail := mjoin ps ++ mjoin rs ++ mjoin ws) in *.
  assert (Hmem : ∀ l, l ∈ tail → has newline l = false ∧ l ≠ "(deny network*)"
                                ∧ l ≠ "(deny process-fork)").
  { intros l Hl. apply path_lines_spec. unfold tail in Hl.
    rewrite !elem_of_app, (mapM_lines _ _ _ _ Hps), (mapM_lines _ _ _ _ Hrs),
      (mapM_lines _ _ _ _ Hws) in Hl.
    destruct Hl as [(p&ls&_&?&?)|[(p&ls&_&?&?)|(p&ls&_&?&?)]]; eauto 6. }
  assert (Hw : ∀ l, l ∈ tail ∧ starts_with write_prefix l = true ↔
     ∃ w q, w ∈ rw ∧ seatbelt_string w = Ok q ∧ l = write_line q).
  { intros l. unfold tail. rewrite !elem_of_app, (mapM_lines _ _ _ _ Hps),
      (mapM_lines _ _ _ _ Hrs), (mapM_lines _ _ _ _ Hws). split.
    - intros [Hl Hs]. destruct Hl as [(p&ls&_&?&?)|[(p&ls&_&?&?)|(p&ls&?&?&?)]].
      + rewrite write_lines_only in Hs by eauto 6. done.
      + rewrite write_lines_only in Hs by eauto 6. done.
      + destruct (proj1 (write_rules_line p l)) as (q & ? & ?); eauto 6.
    - intros (w & q & Hin & Hq & ->).
      destruct (proj2 (write_rules_line w (write_line q))) as [(ls & ? & ?) ?]; eauto 9. }
  assert (El : lines = (fixed_rules ++ network_rules (network plan)
    ++ (if allow_subprocesses plan then [] else ["(deny process-fork)"])) ++ tail).
  { by rewrite <- Elines, <- !app_assoc. }
  set (head := fixed_rules ++ _) in *. clearbody tail. rewrite Forall_forall in Hhead.
  split; [|split; [|split; [|split; [|split]]]].
  - rewrite <- join_nl by (rewrite El; unfold head; done).
    rewrite split_join; [done|by intros []%app_nil|].
    rewrite El. apply Forall_app. split; [|by repeat constructor].
    apply Forall_forall. intros l [Hl|Hl]%elem_of_app; [by apply Hhead|by apply Hmem].
  - rewrite El, elem_of_app, Hnet. naive_solver.
  - rewrite El, elem_of_app, Hfork. naive_solver.
  - rewrite El. unfold head. rewrite <- app_assoc. by eexists.
  - intros l. rewrite El, elem_of_app. setoid_rewrite (canonical_paths_Ok _ _ _ _ Hrw) in Hw.
    specialize (Hw l). split.
    + intros [[Hl|Hl] Hs]; [apply Hhead in Hl as [_ Hl]; congruence|].
      destruct (proj1 Hw) as (w & q & (p & ? & ?) & ? & ?); eauto 8.
    + intros (p & w & q & ? & ? & ? & ?). destruct (proj2 Hw) as [? ?]; eauto 10.
  - intros w q rest H. by apply seatbelt_string_Ok.
Qed.
Lemma seatbelt_profile_spec_witness :
  let canonicalize := Some in
  let plan := strict "demo" "/work/demo" in
  is_ok (profile canonicalize plan) = true
  ∧ match profile canonicalize plan with
    | Ok text => "(deny network*)" ∈ split_char newline text
    | Err _ => False
    end.
Proof.
  intros canonicalize plan. split; [vm_compute; reflexivity|].
  destruct (profile canonicalize plan) as [text|e] eqn:E.
  - destruct (seatbelt_profile_spec canonicalize plan text E) as (ls & -> & Hnet & _).
    apply elem_of_app. left. by apply Hnet.
  - assert (is_ok (profile canonicalize plan) = true) as H by (vm_compute; reflexivity).
    rewrite E in H. discriminate.
Defined.
