(* ===== verification/Windows.v ===== *)
(** * oath-sandbox: the Windows backend ([windows.rs])

    The command line that a program in an AppContainer is given, and the launch: its
    profile, its grants, its job, its handles, and what of them is left. *)
From S2P Require Export Sandbox.
From S2P Require Import Command.

(** ** The command line *)

(** [backslashes] are seen and not written yet. *)
Fixpoint quote_chars (backslashes : nat) (l : list ascii) : list ascii :=
  match l with
  | [] => replicate (backslashes * 2) backslash
  | c :: l =>
      if decide (c = backslash) then quote_chars (S backslashes) l
      else if decide (c = dquote) then replicate (backslashes * 2 + 1) backslash ++ dquote :: quote_chars 0 l
      else replicate backslashes backslash ++ c :: quote_chars 0 l
  end.
(** [char::is_whitespace] of a character, or a quotation mark. *)
Definition needs_quotes (value : string) : bool :=
  existsb (λ w, contains w value) (String dquote "" :: white_space).
Definition quote (value : string) : string :=
  if negb (bool_decide (value = "")) && negb (needs_quotes value) then value
  else of_chars (dquote :: quote_chars 0 (chars value) ++ [dquote]).
Definition command_line (program : string) (args : list string) : string :=
  foldl (λ command arg, command +:+ " " +:+ quote arg) (quote program) args.
(** [wide], and what the system reads of it: the characters before the first NUL. *)
Definition nul : ascii := byte 0.
Definition wide (value : string) : list ascii := chars value ++ [nul].
Fixpoint before_nul (l : list ascii) : list ascii :=
  match l with [] => [] | c :: l => if decide (c = nul) then [] else c :: before_nul l end.
Definition c_string (value : string) : string := of_chars (before_nul (wide value)).
Lemma before_nul_plain l : nul ∉ l → before_nul (l ++ [nul]) = l.
Proof.
  induction l as [|c l IH]; intros H; cbn [app before_nul].
  - by rewrite decide_True.
  - apply not_elem_of_cons in H as [Hc Hl]. rewrite decide_False by done. by rewrite IH.
Qed.
Lemma c_string_plain value : nul ∉ chars value → c_string value = value.
Proof.
  intros H. unfold c_string, wide. rewrite (before_nul_plain (chars value) H). apply of_chars_chars.
Qed.

Example quote_examples :
  quote "/C" = "/C" ∧ quote "exit 0" = of_chars (dquote :: chars "exit 0" ++ [dquote]) ∧
  quote (of_chars (chars "say " ++ dquote :: chars "hi" ++ [dquote])) =
    of_chars (dquote :: chars "say " ++ [backslash; dquote] ++ chars "hi" ++ [backslash; dquote; dquote]).
Proof. by vm_compute. Qed.

(** ** How Windows reads it

    The documented rules of [CommandLineToArgvW] and of the C runtime for what follows the
    name of the program: blanks separate arguments outside quotation marks; 2n backslashes
    before a quotation mark are n backslashes, and one more makes the mark a character;
    other backslashes are characters. [spells q text value]: a text spells a value, from
    within quotation marks if [q]. Two marks in a row within marks, and marks that are not
    closed, are left open. *)
Definition blank (c : ascii) : bool := bool_decide (c = byte 32) || bool_decide (c = byte 9).
Definition backslashes (n : nat) : list ascii := replicate n backslash.
Inductive spells : bool → list ascii → list ascii → Prop :=
  | spells_end : spells false [] []
  | spells_char q c t v : c ≠ dquote → c ≠ backslash → c ≠ nul → q = true ∨ blank c = false →
      spells q t v → spells q (c :: t) (c :: v)
  | spells_backslashes q n t v : head t ≠ Some backslash → head t ≠ Some dquote →
      spells q t v → spells q (backslashes n ++ t) (backslashes n ++ v)
  | spells_mark q n t v : (q = true → head t ≠ Some dquote) →
      spells (negb q) t v → spells q (backslashes (n * 2) ++ dquote :: t) (backslashes n ++ v)
  | spells_literal q n t v :
      spells q t v → spells q (backslashes (n * 2 + 1) ++ dquote :: t) (backslashes n ++ dquote :: v).
(** The name of the program, within marks or without blanks and marks. *)
Inductive names : list ascii → list ascii → Prop :=
  | names_marked p : dquote ∉ p → nul ∉ p → names (dquote :: p ++ [dquote]) p
  | names_plain p : p ≠ [] → dquote ∉ p → nul ∉ p → Forall (λ c, blank c = false) p → names p p.
Class WindowsArguments := {
  CommandLineToArgvW : string → list string;
  splits_spelled pt p ts vs :
    names pt p → Forall2 (λ t v, t ≠ [] ∧ spells false t v) ts vs →
    CommandLineToArgvW (of_chars (pt ++ (ts ≫= λ t, byte 32 :: t))) = of_chars p :: (of_chars <$> vs) }.

(** ** Every argument arrives as it was given *)

Lemma spells_quoted k v : nul ∉ v → spells true (quote_chars k v ++ [dquote]) (backslashes k ++ v).
Proof.
  revert k. induction v as [|c v IH]; intros k Hn; cbn [quote_chars].
  - apply (spells_mark true k [] []); [done|constructor].
  - apply not_elem_of_cons in Hn as [Hc Hn]. case_decide as Hb; [subst c|case_decide as Hq; [subst c|]].
    + replace (backslashes k ++ backslash :: v) with (backslashes (S k) ++ v); [by apply IH|].
      unfold backslashes. by rewrite replicate_S_end, <- app_assoc.
    + rewrite <- app_assoc. apply (spells_literal true k). by apply (IH 0).
    + rewrite <- app_assoc. apply spells_backslashes; [by intros [= ->]..|].
      apply spells_char; [done..|by left|by apply (IH 0)].
Qed.
Lemma spells_plain v : Forall (λ c, c ≠ dquote ∧ c ≠ nul ∧ blank c = false) v → spells false v v.
Proof.
  enough (H : ∀ k, Forall (λ c, c ≠ dquote ∧ c ≠ nul ∧ blank c = false) v →
    spells false (backslashes k ++ v) (backslashes k ++ v)) by apply (H 0).
  induction v as [|c v IH]; intros k Hv; [by apply spells_backslashes; try constructor|].
  apply Forall_cons in Hv as [(Hq & Hn & Hb) Hv]. destruct (decide (c = backslash)) as [->|Hc].
  - replace (backslashes k ++ backslash :: v) with (backslashes (S k) ++ v); [by apply IH|].
    unfold backslashes. by rewrite replicate_S_end, <- app_assoc.
  - apply spells_backslashes; [by intros [= ->]..|].
    apply spells_char; [done..|by right|by apply (IH 0)].
Qed.
Lemma needs_quotes_plain value : needs_quotes value = false → Forall (λ c, c ≠ dquote ∧ blank c = false) (chars value).
Proof.
  intros H. apply Forall_forall. intros c Hc.
  assert (Hn : ∀ w, w ∈ String dquote "" :: white_space → contains w value = false).
  { intros w Hw. unfold needs_quotes in H. rewrite <- not_true_iff_false, existsb_exists in H.
    apply not_true_iff_false. intros Hcw. apply H. exists w. split; [by apply list_elem_of_In|done]. }
  assert (Hsingle : ∀ d, String d "" ∈ String dquote "" :: white_space → c ≠ d).
  { intros d Hd ->. specialize (Hn _ Hd). apply list_elem_of_split in Hc as (l1 & l2 & Hl).
    rewrite <- not_true_iff_false in Hn. apply Hn. apply contains_true. exists (of_chars l1), (of_chars l2).
    apply chars_inj. rewrite !chars_app, !chars_of_chars, Hl. done. }
  split; [apply Hsingle; by left|].
  unfold blank. rewrite !bool_decide_eq_false_2; [done|apply Hsingle, (bool_decide_unpack _); by vm_compute..].
Qed.
Lemma chars_quote value :
  (chars (quote value) = dquote :: quote_chars 0 (chars value) ++ [dquote]) ∨
  (chars (quote value) = chars value ∧ chars value ≠ [] ∧ Forall (λ c, c ≠ dquote ∧ blank c = false) (chars value)).
Proof.
  unfold quote. destruct (needs_quotes value) eqn:Hn; [rewrite andb_false_r|].
  { left. apply chars_of_chars. }
  case_bool_decide as He; [left; apply chars_of_chars|right].
  split; [done|]. split; [by destruct value|by apply needs_quotes_plain].
Qed.
Definition arguments (args : list string) : list ascii := args ≫= λ a, byte 32 :: chars (quote a).
Lemma arguments_quoted args :
  arguments args = ((λ a, chars (quote a)) <$> args) ≫= λ t, byte 32 :: t.
Proof.
  induction args as [|a args IH]; [done|].
  change (arguments (a :: args)) with ((byte 32 :: chars (quote a)) ++ arguments args). by rewrite IH.
Qed.
Lemma command_line_chars program args :
  chars (command_line program args) = chars (quote program) ++ arguments args.
Proof.
  unfold command_line. generalize (quote program). induction args as [|a args IH]; intros s; [by rewrite app_nil_r|].
  cbn [foldl]. rewrite IH. rewrite !chars_app, <- !app_assoc. done.
Qed.
(** A name of a program has no quotation marks and ends in no backslash. *)
Lemma quote_chars_plain k v :
  dquote ∉ v → last v ≠ Some backslash → v ≠ [] ∨ k = 0 → quote_chars k v = replicate k backslash ++ v.
Proof.
  revert k. induction v as [|c v IH]; intros k Hq Hl Hk; [by destruct Hk as [Hk|Hk]; [|subst k]|].
  apply not_elem_of_cons in Hq as [Hc Hq]. cbn [quote_chars]. case_decide as Hb.
  - subst c. destruct v as [|d v]; [done|]. rewrite IH by (auto; by left). rewrite replicate_S_end. by rewrite <- app_assoc.
  - rewrite decide_False by done. destruct v as [|d v]; [done|]. by rewrite IH by auto.
Qed.
Lemma names_quoted program :
  dquote ∉ chars program → nul ∉ chars program → last (chars program) ≠ Some backslash →
  names (chars (quote program)) (chars program).
Proof.
  intros Hq Hn Hl. destruct (chars_quote program) as [-> |(-> & Hne & Hp)].
  - rewrite quote_chars_plain by auto. by apply names_marked.
  - apply names_plain; [done..|]. eapply Forall_impl; [exact Hp|]. by intros c [_ ?].
Qed.
Lemma quote_spells value :
  nul ∉ chars value → chars (quote value) ≠ [] ∧ spells false (chars (quote value)) (chars value).
Proof.
  intros Hn. destruct (chars_quote value) as [-> |(-> & Hne & Hp)]; (split; [done|]).
  - apply (spells_mark false 0 _ (chars value)); [done|]. by apply (spells_quoted 0).
  - apply spells_plain, Forall_forall. intros c Hc. rewrite Forall_forall in Hp.
    destruct (Hp c Hc) as [? ?]. split_and!; [done| |done]. by intros ->.
Qed.
Lemma not_nul_backslashes n : nul ∉ replicate n backslash.
Proof. intros [? _]%elem_of_replicate. done. Qed.
Lemma not_nul_quote_chars k v : nul ∉ v → nul ∉ quote_chars k v.
Proof.
  revert k. induction v as [|c v IH]; intros k Hn; cbn [quote_chars]; [apply not_nul_backslashes|].
  apply not_elem_of_cons in Hn as [Hc Hn]. repeat case_decide; [by apply IH|..];
    (apply not_elem_of_app; split; [apply not_nul_backslashes|]; apply not_elem_of_cons; split; [done|by apply IH]).
Qed.
Lemma not_nul_quote value : nul ∉ chars value → nul ∉ chars (quote value).
Proof.
  intros Hn. destruct (chars_quote value) as [-> |(-> & _ & _)]; [|done].
  apply not_elem_of_cons; split; [done|]. apply not_elem_of_app. split; [by apply not_nul_quote_chars|].
  by intros ?%list_elem_of_singleton.
Qed.
Lemma not_nul_command_line program args :
  Forall (λ a, nul ∉ chars a) (program :: args) → nul ∉ chars (command_line program args).
Proof.
  intros [Hp Ha]%Forall_cons. rewrite command_line_chars. apply not_elem_of_app. split; [by apply not_nul_quote|].
  unfold arguments. intros (a & Hc & Hin)%list_elem_of_bind. rewrite Forall_forall in Ha.
  apply elem_of_cons in Hc as [Hc|Hc]; [done|]. by apply (not_nul_quote a (Ha a Hin)).
Qed.

Section roundtrip.
Context `{!WindowsArguments}.
(** (C33) Whatever the arguments are, with blanks, quotation marks, backslashes or nothing in
    them, the command line that the sandboxed program is started with is split by any
    reader that follows the documented rules into the program and exactly these arguments:
    none is split, joined, dropped or changed. The arguments have no NUL, at which the
    system stops to read; the name of the program has no NUL and no quotation mark, which
    no path of Windows has, and does not end in a backslash, as a directory would. *)
Theorem command_line_roundtrip program args :
  Forall (λ a, nul ∉ chars a) (program :: args) →
  dquote ∉ chars program → last (chars program) ≠ Some backslash →
  CommandLineToArgvW (c_string (command_line program args)) = program :: args.
Proof.
  intros Hn Hq Hl. rewrite c_string_plain by by apply not_nul_command_line.
  rewrite <- (of_chars_chars (command_line program args)), command_line_chars.
  rewrite arguments_quoted.
  apply Forall_cons in Hn as [Hp Ha].
  rewrite (splits_spelled _ (chars program) _ (chars <$> args)); [|by apply names_quoted|].
  - rewrite of_chars_chars. f_equal. clear. induction args as [|a args IH]; [done|].
    cbn [fmap list_fmap]. rewrite of_chars_chars. by f_equal.
  - induction Ha as [|a args Hna Ha IH]; cbn [fmap list_fmap]; constructor; [by apply quote_spells|done].
Qed.
End roundtrip.

(** ** A reader

    One that follows the rules, and takes two marks within marks for one. *)
Record Reader := { in_marks : bool; held : nat; text : list ascii; started : bool }.
Definition fresh : Reader := {| in_marks := false; held := 0; text := []; started := false |}.
Definition finish (r : Reader) : list (list ascii) :=
  if started r then [text r ++ replicate (held r) backslash] else [].
Definition literal_char (c : ascii) (r : Reader) : Reader :=
  {| in_marks := in_marks r; held := 0; text := text r ++ replicate (held r) backslash ++ [c]; started := true |}.
Fixpoint read_args (r : Reader) (l : list ascii) : list (list ascii) :=
  match l with
  | [] => finish r
  | c :: l =>
      if decide (c = backslash) then
        read_args {| in_marks := in_marks r; held := S (held r); text := text r; started := true |} l
      else if decide (c = dquote) then
        let text' := text r ++ replicate (Nat.div2 (held r)) backslash in
        if Nat.odd (held r) then
          read_args {| in_marks := in_marks r; held := 0; text := text' ++ [dquote]; started := true |} l
        else
          let toggled := {| in_marks := negb (in_marks r); held := 0; text := text'; started := true |} in
          match l with
          | d :: l' =>
              if in_marks r && bool_decide (d = dquote) then
                read_args {| in_marks := true; held := 0; text := text' ++ [dquote]; started := true |} l'
              else read_args toggled l
          | [] => finish toggled
          end
      else if negb (in_marks r) && blank c then finish r ++ read_args fresh l
      else read_args (literal_char c r) l
  end.
(** The name of the program reaches to the next mark, or to the first blank. *)
Fixpoint read_until (stop : ascii → bool) (l : list ascii) : list ascii * list ascii :=
  match l with
  | [] => ([], [])
  | c :: l => if stop c then ([], c :: l) else let '(a, b) := read_until stop l in (c :: a, b)
  end.
Definition read_program (l : list ascii) : list ascii * list ascii :=
  match l with
  | c :: l' =>
      if decide (c = dquote) then
        let '(p, rest) := read_until (λ d, bool_decide (d = dquote)) l' in (p, tail rest)
      else read_until blank l
  | [] => ([], [])
  end.
Definition split_command (command : string) : list string :=
  let '(p, rest) := read_program (chars command) in of_chars p :: (of_chars <$> read_args fresh rest).

Lemma read_backslashes k r l :
  read_args r (replicate k backslash ++ l) =
  if decide (k = 0) then read_args r l
  else read_args {| in_marks := in_marks r; held := k + held r; text := text r; started := true |} l.
Proof.
  revert r. induction k as [|k IH]; intros r; [done|]. cbn [replicate app read_args].
  rewrite decide_True by done. rewrite IH. cbn [held in_marks text]. destruct (decide (k = 0)) as [->|]; [done|].
  rewrite decide_False by done. do 2 f_equal. lia.
Qed.
(** Nothing follows, or a blank does. *)
Definition parted (rest : list ascii) : Prop := match rest with [] => True | c :: _ => blank c = true end.
Lemma blank_spec c : blank c = true → c ≠ backslash ∧ c ≠ dquote.
Proof. unfold blank. rewrite orb_true_iff, !bool_decide_eq_true. by intros [-> | ->]. Qed.
Notation reading q k t st := {| in_marks := q; held := k; text := t; started := st |}.
Lemma read_held q k t l :
  head l ≠ Some backslash → head l ≠ Some dquote →
  read_args (reading q k t true) l = read_args (reading q 0 (t ++ backslashes k) true) l.
Proof.
  intros Hb Hq. destruct l as [|c l]; cbn [read_args].
  - unfold finish. cbn. by rewrite app_nil_r.
  - rewrite !decide_False by (intros ->; done). cbn [in_marks]. destruct (negb q && blank c).
    + unfold finish. cbn. by rewrite app_nil_r.
    + unfold literal_char. cbn [in_marks held text replicate app]. by rewrite <- app_assoc.
Qed.
Lemma head_app_parted (t rest : list ascii) c :
  parted rest → c = backslash ∨ c = dquote → head t ≠ Some c → head (t ++ rest) ≠ Some c.
Proof.
  intros Hr Hc Ht. destruct t; [|done]. destruct rest as [|d rest]; [done|]. cbn. intros [= ->].
  apply blank_spec in Hr as [? ?]. by destruct Hc.
Qed.
Lemma read_spelled q t v tx st rest :
  spells q t v → parted rest → st = true ∨ t ≠ [] →
  read_args (reading q 0 tx st) (t ++ rest) = (tx ++ v) :: read_args fresh (tail rest).
Proof.
  intros Hsp Hr. revert tx st. induction Hsp as [|q c t v Hq Hb _ Hp _ IH|q n t v Hb Hq _ IH|q n t v Hm _ IH|q n t v _ IH];
    intros tx st Hst.
  - destruct Hst as [->|]; [|done]. rewrite app_nil_r. destruct rest as [|c rest]; simpl.
    + unfold finish. cbn. by rewrite app_nil_r.
    + destruct (blank_spec c Hr) as [Hb Hq]. rewrite !decide_False by done. simpl in Hr. rewrite Hr.
      unfold finish. cbn. by rewrite app_nil_r.
  - cbn [app read_args]. rewrite !decide_False by done. cbn [in_marks].
    replace (negb q && blank c) with false by (destruct Hp as [-> | ->]; [done|by rewrite andb_false_r]).
    unfold literal_char. cbn [in_marks held text replicate app]. rewrite IH by auto. by rewrite <- app_assoc.
  - rewrite <- app_assoc. unfold backslashes. rewrite read_backslashes. destruct (decide (n = 0)) as [->|Hn].
    + apply IH. destruct Hst as [?|Hst]; [by left|by right].
    + cbn [in_marks held text]. rewrite Nat.add_0_r, read_held by (apply head_app_parted; auto).
      rewrite IH by auto. by rewrite <- app_assoc.
  - rewrite <- app_assoc. unfold backslashes. rewrite read_backslashes.
    assert (Hd : ∀ st', read_args (reading q (n * 2) tx st') (dquote :: t ++ rest)
                 = (tx ++ backslashes n ++ v) :: read_args fresh (tail rest)).
    { intros st'. cbn [read_args]. rewrite decide_False, decide_True by done. cbn [held in_marks text].
      replace (Nat.odd (n * 2)) with false by (rewrite Nat.mul_comm, Nat.odd_mul; done).
      replace (Nat.div2 (n * 2)) with n by (rewrite Nat.mul_comm, Nat.div2_double; done).
      specialize (IH (tx ++ backslashes n) true (or_introl eq_refl)). rewrite <- app_assoc in IH. rewrite <- IH.
      destruct (t ++ rest) as [|d l] eqn:Htr; [done|].
      assert (q && bool_decide (d = dquote) = false) as ->; [|done].
      destruct q; [|done]. apply bool_decide_eq_false_2. intros ->.
      apply (head_app_parted t rest dquote Hr); [by right|by apply Hm|by rewrite Htr]. }
    case_decide as Hn; cbn [app in_marks held text]; [replace 0 with (n * 2) at 1 by done; apply Hd|].
    rewrite Nat.add_0_r. apply Hd.
  - rewrite <- app_assoc. unfold backslashes. rewrite read_backslashes. rewrite decide_False by lia.
    cbn [app in_marks held text read_args]. rewrite decide_False, decide_True by done. cbn [held in_marks text].
    replace (Nat.odd (n * 2 + 1 + 0)) with true by (rewrite Nat.add_0_r, Nat.odd_add, Nat.mul_comm, Nat.odd_mul; done).
    replace (Nat.div2 (n * 2 + 1 + 0)) with n by (rewrite Nat.add_0_r, Nat.mul_comm, Nat.add_1_r, Nat.div2_succ_double; done).
    rewrite IH by auto. by rewrite <- !app_assoc.
Qed.
Lemma read_until_all stop v rest :
  Forall (λ c, stop c = false) v → match rest with [] => True | c :: _ => stop c = true end →
  read_until stop (v ++ rest) = (v, rest).
Proof.
  intros Hv Hr. induction Hv as [|c v Hc Hv IH]; simpl.
  - destruct rest as [|c rest]; [done|]. simpl. by rewrite Hr.
  - by rewrite Hc, IH.
Qed.
Lemma read_name pt p rest : names pt p → parted rest → read_program (pt ++ rest) = (p, rest).
Proof.
  intros Hn Hr. destruct Hn as [p Hq _|p Hne Hq _ Hb].
  - unfold read_program. cbn [app]. rewrite decide_True by done. rewrite <- app_assoc.
    rewrite (read_until_all _ _ (dquote :: rest)); [done|..].
    + apply Forall_forall. intros c Hc. apply bool_decide_eq_false_2. by intros ->.
    + by apply bool_decide_eq_true_2.
  - destruct p as [|c p]; [done|]. unfold read_program. cbn [app].
    apply not_elem_of_cons in Hq as [Hq _]. rewrite decide_False by done.
    rewrite app_comm_cons, read_until_all; [done..|]. by destruct rest.
Qed.
Lemma read_spelled_all ts vs :
  Forall2 (λ t v, t ≠ [] ∧ spells false t v) ts vs →
  read_args fresh (ts ≫= λ t, byte 32 :: t) = vs ∧ parted (ts ≫= λ t, byte 32 :: t)
  ∧ read_args fresh (tail (ts ≫= λ t, byte 32 :: t)) = vs.
Proof.
  induction 1 as [|t v ts vs [Hne Hsp] _ (IH & Hpa & Htl)]; [done|].
  change ((t :: ts) ≫= λ t, byte 32 :: t) with (byte 32 :: t ++ (ts ≫= λ t, byte 32 :: t)).
  assert (read_args fresh (t ++ (ts ≫= λ t, byte 32 :: t)) = v :: vs) as Ht.
  { etrans; [apply (read_spelled false t v [] false); auto|]. by rewrite Htl. }
  split_and!; [exact Ht|done|exact Ht].
Qed.
#[export] Program Instance split_reader : WindowsArguments := {| CommandLineToArgvW := split_command |}.
Next Obligation.
  intros pt p ts vs Hn Hts. apply read_spelled_all in Hts as (Hr & Hp & _). unfold split_command.
  rewrite chars_of_chars, (read_name _ p) by done. by rewrite Hr.
Qed.
Lemma command_line_roundtrip_witness :
  let args := ["/C"; ""; of_chars [backslash; dquote; byte 32; backslash]] in
  CommandLineToArgvW (c_string (command_line "C:\Program Files\node.exe" args)) = "C:\Program Files\node.exe" :: args.
Proof.
  intros args. apply command_line_roundtrip; [..|by vm_compute];
    apply (bool_decide_unpack _); by vm_compute.
Defined.
(** What follows a NUL never arrives. *)
Example nul_cuts :
  split_command (c_string (command_line "node" [of_chars [byte 97; nul; byte 98]; "--safe"])) = ["node"; "a"].
Proof. by vm_compute. Qed.

(** ** Launching

    The system calls of the launch. A profile, its SID, the text of the SID, a folder name,
    the attribute list, the job and the handles of the process are had one at a time, so
    that an action need not name which. A release that can fail answers whether it did. *)
Inductive WinAct : Type → Type :=
  | NowNanos : WinAct Z
  | ProcessId : WinAct Z
  | CreateAppContainerProfile (moniker : string) : WinAct (result Z unit)
  | DeleteAppContainerProfile : WinAct bool
  | FreeSid : WinAct bool
  | ConvertSidToStringSid : WinAct bool
  | DecodeSid : WinAct (result string string)
  | FreeSidText : WinAct bool
  | Icacls (path : string) (operation : list string) : WinAct (result string bool)
  | GetAppContainerFolderPath (sid_text : string) : WinAct (result Z unit)
  | DecodeFolder : WinAct (result string string)
  | FreeFolder : WinAct unit
  | CreateDirAll (path : string) : WinAct (result string unit)
  | InitializeAttributeList : WinAct bool
  | SetSecurityAttribute : WinAct bool
  | DeleteAttributeList : WinAct unit
  | CreateJobObject : WinAct bool
  | SetJobLimits (kill_on_close : bool) (active_processes memory : Z) : WinAct bool
  | CloseJob : WinAct bool
  | GetVar (name : string) : WinAct (option string)
  | CreateProcess (suspended : bool) (application command directory : string) (environment : list ascii) : WinAct (result string unit)
  | AssignProcessToJob : WinAct bool
  | ResumeThread : WinAct bool
  | WaitForProcess : WinAct bool
  | GetExitCode : WinAct (option Z)
  | CloseThread : WinAct bool
  | CloseProcess : WinAct bool.
Notation win := (cmd WinAct).
(** [let _ = f()], and a call whose result is not looked at. *)
Definition ignore {X} (e : WinAct X) : win unit := _ ← act e; mret tt.

Definition remove_acl_grant (sid_text path : string) : win unit :=
  ignore (Icacls path ["/remove"; "*" +:+ sid_text; "/T"; "/Q"]).
(** [granted] are the paths that are done. *)
Fixpoint grant_paths (sid_text : string) (granted paths : list string) : win unit :=
  match paths with
  | [] => mret tt
  | path :: paths =>
      ok ← try (Icacls path ["/grant"; "*" +:+ sid_text +:+ ":(OI)(CI)M"; "/T"; "/Q"]);
      if ok : bool then grant_paths sid_text (granted ++ [path]) paths
      else
        _ ← each (remove_acl_grant sid_text) (granted ++ [path]);
        bail "failed to grant AppContainer access"
  end.
Definition grant_workdir (paths : list string) : win string :=
  converted ← act ConvertSidToStringSid;
  _ ← demand converted "ConvertSidToStringSidW failed";
  sid_text ← try DecodeSid;
  _ ← ignore FreeSidText;
  _ ← grant_paths sid_text [] paths;
  mret sid_text.
Definition appcontainer_folder (sid_text : string) : win string :=
  r ← act (GetAppContainerFolderPath sid_text);
  match r with
  | Err _ => bail "GetAppContainerFolderPath failed"
  | Ok _ => path ← act DecodeFolder; _ ← act FreeFolder; lift path
  end.

(** Code that runs when a value goes out of scope, however that happens. *)
Fixpoint finally {E A} (p : cmd E A) (cleanup : cmd E unit) : cmd E A :=
  match p with
  | Return r => match r with Ok a => _ ← cleanup; mret a | Err e => _ ← cleanup; Return (Err e) end
  | Do e k => Do e (λ x, finally (k x) cleanup)
  end.
(** [match p { Ok(a) => a, Err(error) => { undo; return Err(error) } }] *)
Fixpoint or_else {E A} (p : cmd E A) (undo : cmd E unit) : cmd E A :=
  match p with
  | Return r => match r with Ok a => mret a | Err e => _ ← undo; Return (Err e) end
  | Do e k => Do e (λ x, or_else (k x) undo)
  end.
(** [AppContainerProfileGuard::drop] *)
Definition drop_guard (sid_text : string) (paths : list string) : win unit :=
  _ ← each (remove_acl_grant sid_text) paths;
  ignore DeleteAppContainerProfile.

Definition lower_le (a b : string) : Prop := String.le (to_ascii_lowercase a) (to_ascii_lowercase b).
#[export] Instance lower_le_dec : RelDecision lower_le.
Proof. intros a b. unfold lower_le. apply _. Defined.
Definition env_value (home temp name : string) : win (option string) :=
  let n := to_ascii_uppercase name in
  if decide (n = "LOCALAPPDATA") then mret (Some home)
  else if decide (n = "TEMP" ∨ n = "TMP") then mret (Some temp)
  else act (GetVar name).
Definition environment_entries (home temp : string) (names : list string) : win (list string) :=
  fold_cmd (λ entries name,
    value ← env_value home temp name;
    mret match value with Some v => entries ++ [name +:+ "=" +:+ v] | None => entries end) [] names.
Definition environment_block (entries : list string) : list ascii :=
  (stable_sort lower_le entries ≫= wide) ++ (if decide (entries = []) then [byte 0] else []) ++ [byte 0].
Definition active_process_limit (plan : SandboxPlan) : Z :=
  if allow_subprocesses plan then (if (max_processes (limits plan) <? 2 ^ 32)%Z then max_processes (limits plan) else 2 ^ 32 - 1)%Z
  else 1%Z.
(** On a system of 64 bits every u64 is a size. *)
Definition job_memory_limit (plan : SandboxPlan) : Z := max_memory_bytes (limits plan).

(** The process in the job, from its creation on; nothing of the list of attributes and of
    the SID is needed after it. *)
Definition run_in_job (plan : SandboxPlan) (program : string) (args : list string) (environment : list ascii) : win Z :=
  created ← act (CreateProcess true (c_string program) (c_string (command_line program args))
                   (c_string (plan_workdir plan)) environment);
  _ ← act DeleteAttributeList;
  _ ← ignore FreeSid;
  match created with
  | Err _ => _ ← ignore CloseJob; bail "CreateProcessW AppContainer launch failed"
  | Ok _ =>
      let close := _ ← ignore CloseThread; _ ← ignore CloseProcess; ignore CloseJob in
      assigned ← act AssignProcessToJob;
      if negb assigned then _ ← close; bail "AssignProcessToJobObject failed"
      else
        resumed ← act ResumeThread;
        if negb resumed then _ ← close; bail "ResumeThread failed"
        else
          _ ← ignore WaitForProcess;
          code ← act GetExitCode;
          _ ← close;
          mret (default 1%Z code)
  end.
(** [Path::join] of a relative name, on Windows. *)
Definition win_join (dir name : string) : string :=
  if decide (dir = "") then name
  else if ends_with "\" dir || ends_with "/" dir then dir +:+ name
  else dir +:+ "\" +:+ name.
Definition launch (plan : SandboxPlan) (program : string) (args : list string) (sid_text : string) : win Z :=
  home ← or_else (appcontainer_folder sid_text) (ignore FreeSid);
  let temp := win_join home "Temp" in
  _ ← try (CreateDirAll temp);
  ready ← act InitializeAttributeList;
  if negb ready then _ ← ignore FreeSid; bail "InitializeProcThreadAttributeList failed"
  else
    secured ← act SetSecurityAttribute;
    if negb secured then _ ← act DeleteAttributeList; _ ← ignore FreeSid; bail "AppContainer security attribute failed"
    else
      job ← act CreateJobObject;
      if negb job then _ ← act DeleteAttributeList; _ ← ignore FreeSid; bail "CreateJobObjectW failed"
      else
        limited ← act (SetJobLimits true (active_process_limit plan) (job_memory_limit plan));
        if negb limited then
          _ ← ignore CloseJob; _ ← act DeleteAttributeList; _ ← ignore FreeSid; bail "SetInformationJobObject failed"
        else
          entries ← environment_entries home temp (environment_allowlist plan);
          run_in_job plan program args (environment_block entries).
Definition win_run (plan : SandboxPlan) (program : string) (args : list string) : win Z :=
  _ ← demand (bool_decide (network plan = Deny)) "Windows AppContainer outbound network grants are not implemented";
  nonce ← act NowNanos;
  pid ← act ProcessId;
  created ← act (CreateAppContainerProfile ("Oath.PackageSandbox." +:+ pretty pid +:+ "." +:+ pretty nonce));
  match created with
  | Err _ => bail "AppContainer profile unavailable"
  | Ok _ =>
      sid_text ← or_else (grant_workdir (writable_paths plan))
        (_ ← ignore FreeSid; ignore DeleteAppContainerProfile);
      finally (launch plan program args sid_text) (drop_guard sid_text (writable_paths plan))
  end.

(** ** What is held, and what is left *)

(** What can fail so that something stays: the text of the SID cannot be read, the temporary
    directory cannot be made, the tool cannot be started to make a grant, the process cannot
    be assigned to the job; a grant cannot be taken back; what is released is kept by the
    system. *)
Inductive Failure :=
  | TextUnread | NoTemporary | ToolMissing | NotAssigned | GrantKept (path : string)
  | ProfileKept | SidKept | TextKept | JobKept | ThreadKept | ProcessKept | NotWaited.
Definition note (done : bool) (x : Failure) (l : list Failure) : list Failure :=
  if done then l else x :: l.
Record Win := {
  w_profile : bool; w_sid : bool; w_text : bool; w_folder : bool; w_attributes : bool; w_secured : bool;
  w_job : bool; w_limited : bool; w_process : bool; w_thread : bool; w_assigned : bool; w_running : bool;
  w_exited : bool; w_stopped : bool; w_grants : list string; w_failures : list Failure }.
Definition nothing_held : Win := {|
  w_profile := false; w_sid := false; w_text := false; w_folder := false; w_attributes := false; w_secured := false;
  w_job := false; w_limited := false; w_process := false; w_thread := false; w_assigned := false;
  w_running := false; w_exited := false; w_stopped := false; w_grants := []; w_failures := [] |}.
Definition require {A} (b : bool) (a : A) : option A := if b then Some a else None.
(** The launch of [program] under a plan: everything is had before it is used and released
    at most once, and a process is made suspended, with the container's SID, and runs only
    in a job that has the limits of the plan. *)
Section monitor.
Context (plan : SandboxPlan) (program : string) (args : list string).
Definition container (s : Win) (profile sid text : bool) (r : list Failure) : Win := {|
  w_profile := profile; w_sid := sid; w_text := text; w_folder := w_folder s; w_attributes := w_attributes s;
  w_secured := w_secured s; w_job := w_job s; w_limited := w_limited s; w_process := w_process s;
  w_thread := w_thread s; w_assigned := w_assigned s; w_running := w_running s; w_exited := w_exited s;
  w_stopped := w_stopped s; w_grants := w_grants s; w_failures := r |}.
Definition granting (s : Win) (g : list string) (r : list Failure) : Win := {|
  w_profile := w_profile s; w_sid := w_sid s; w_text := w_text s; w_folder := w_folder s;
  w_attributes := w_attributes s; w_secured := w_secured s; w_job := w_job s; w_limited := w_limited s;
  w_process := w_process s; w_thread := w_thread s; w_assigned := w_assigned s; w_running := w_running s;
  w_exited := w_exited s; w_stopped := w_stopped s; w_grants := g; w_failures := r |}.
Definition confining (s : Win) (folder attributes secured job limited : bool) : Win := {|
  w_profile := w_profile s; w_sid := w_sid s; w_text := w_text s; w_folder := folder; w_attributes := attributes;
  w_secured := secured; w_job := job; w_limited := limited; w_process := w_process s; w_thread := w_thread s;
  w_assigned := w_assigned s; w_running := w_running s; w_exited := w_exited s; w_stopped := w_stopped s;
  w_grants := w_grants s; w_failures := w_failures s |}.
Definition processing (s : Win) (process thread assigned running exited stopped : bool) (r : list Failure) : Win := {|
  w_profile := w_profile s; w_sid := w_sid s; w_text := w_text s; w_folder := w_folder s;
  w_attributes := w_attributes s; w_secured := w_secured s; w_job := w_job s; w_limited := w_limited s;
  w_process := process; w_thread := thread; w_assigned := assigned; w_running := running; w_exited := exited;
  w_stopped := stopped; w_grants := w_grants s; w_failures := r |}.
Definition closing (s : Win) (r : list Failure) : Win := granting s (w_grants s) r.
Definition grant_step (s : Win) (path : string) (op : list string) (x : result string bool) : option Win :=
  match op with
  | "/grant" :: _ =>
      require (w_profile s && bool_decide (path ∈ writable_paths plan))
        match x with
        | Ok _ => granting s (path :: w_grants s) (w_failures s)
        | Err _ => granting s (w_grants s) (note false ToolMissing (w_failures s))
        end
  | _ => require (w_profile s)
      match x with
      | Ok true => granting s (filter (λ p, p ≠ path) (w_grants s)) (w_failures s)
      | _ => granting s (w_grants s) (note false (GrantKept path) (w_failures s))
      end
  end.
Definition process_step (s : Win) X (e : WinAct X) : X → option Win :=
  match e in WinAct X return X → option Win with
  | CreateProcess suspended application command directory _ => λ x,
      require (suspended && w_attributes s && w_secured s && w_sid s && w_job s && w_limited s && negb (w_process s)
               && bool_decide (application = c_string program ∧ command = c_string (command_line program args)
                               ∧ directory = c_string (plan_workdir plan)))
        match x with Ok _ => processing s true true false false false true (w_failures s) | Err _ => s end
  | AssignProcessToJob => λ x,
      require (w_process s && w_job s && w_limited s)
        (if x : bool then processing s true (w_thread s) true false false false (w_failures s)
         else processing s true (w_thread s) false false false true (note false NotAssigned (w_failures s)))
  | ResumeThread => λ x,
      require (w_thread s && w_assigned s && w_job s) (processing s (w_process s) true true x false false (w_failures s))
  | WaitForProcess => λ x,
      require (w_process s && w_running s)
        (processing s true (w_thread s) true true x false (note x NotWaited (w_failures s)))
  | GetExitCode => λ _, require (w_process s && w_running s) s
  | CloseThread => λ x,
      require (w_thread s)
        (processing s (w_process s) false (w_assigned s) (w_running s) (w_exited s) (w_stopped s)
           (note x ThreadKept (w_failures s)))
  | CloseProcess => λ x,
      require (w_process s)
        (processing s false (w_thread s) (w_assigned s) (w_running s) (w_exited s) (w_stopped s)
           (note x ProcessKept (w_failures s)))
  | _ => λ _, Some s
  end.
Definition win_step (s : Win) X (e : WinAct X) : X → option Win :=
  match e in WinAct X return X → option Win with
  | CreateAppContainerProfile _ => λ x,
      require (negb (w_profile s) && negb (w_sid s))
        match x with Ok _ => container s true true (w_text s) (w_failures s) | Err _ => s end
  | DeleteAppContainerProfile => λ x,
      require (w_profile s) (container s false (w_sid s) (w_text s) (note x ProfileKept (w_failures s)))
  | FreeSid => λ x,
      require (w_sid s && negb (w_attributes s))
        (container s (w_profile s) false (w_text s) (note x SidKept (w_failures s)))
  | ConvertSidToStringSid => λ x,
      require (w_sid s && negb (w_text s)) (container s (w_profile s) (w_sid s) x (w_failures s))
  | DecodeSid => λ x,
      require (w_text s) (container s (w_profile s) (w_sid s) true (note (is_ok x) TextUnread (w_failures s)))
  | FreeSidText => λ x,
      require (w_text s) (container s (w_profile s) (w_sid s) false (note x TextKept (w_failures s)))
  | Icacls path op => λ x, grant_step s path op x
  | GetAppContainerFolderPath _ => λ x,
      require (w_profile s && negb (w_folder s))
        (confining s (match x with Ok _ => true | Err _ => false end) (w_attributes s) (w_secured s) (w_job s) (w_limited s))
  | DecodeFolder => λ _, require (w_folder s) s
  | FreeFolder => λ _,
      require (w_folder s) (confining s false (w_attributes s) (w_secured s) (w_job s) (w_limited s))
  | CreateDirAll _ => λ x,
      Some (container s (w_profile s) (w_sid s) (w_text s) (note (is_ok x) NoTemporary (w_failures s)))
  | InitializeAttributeList => λ x,
      require (negb (w_attributes s)) (confining s (w_folder s) x false (w_job s) (w_limited s))
  | SetSecurityAttribute => λ x,
      require (w_attributes s && w_sid s) (confining s (w_folder s) true x (w_job s) (w_limited s))
  | DeleteAttributeList => λ _,
      require (w_attributes s) (confining s (w_folder s) false false (w_job s) (w_limited s))
  | CreateJobObject => λ x,
      require (negb (w_job s)) (confining s (w_folder s) (w_attributes s) (w_secured s) x false)
  | SetJobLimits kill active memory => λ x,
      require (w_job s && kill && bool_decide (active = active_process_limit plan ∧ memory = job_memory_limit plan))
        (confining s (w_folder s) (w_attributes s) (w_secured s) true x)
  | CloseJob => λ x,
      require (w_job s && negb (w_process s))
        (closing (confining s (w_folder s) (w_attributes s) (w_secured s) false false) (note x JobKept (w_failures s)))
  | e => process_step s _ e
  end.
(** At the end everything was given back, but for what a failure is recorded for. *)
Definition released (r : result Stop Z) (s : Win) : Prop :=
  w_profile s = false ∧ w_folder s = false ∧ w_attributes s = false ∧ w_job s = false ∧ w_process s = false
  ∧ w_thread s = false
  ∧ (w_text s = true → TextUnread ∈ w_failures s)
  ∧ (w_sid s = true → NoTemporary ∈ w_failures s)
  ∧ (w_stopped s = true → NotAssigned ∈ w_failures s)
  ∧ (∀ p, p ∈ w_grants s → p ∈ writable_paths plan ∧ (ToolMissing ∈ w_failures s ∨ GrantKept p ∈ w_failures s))
  ∧ match r with
    | Ok _ => w_running s = true ∧ w_text s = false ∧ w_sid s = false ∧ w_stopped s = false
        ∧ (w_exited s = true ∨ NotWaited ∈ w_failures s)
        ∧ ∀ p, p ∈ w_grants s → GrantKept p ∈ w_failures s
    | Err _ => True
    end.
End monitor.

(** ** Every launch releases what it had *)

Section launch.
Context (plan : SandboxPlan) (program : string) (args : list string).
Notation safely p Q s := (safe (win_step plan program args) p Q s).

Lemma safe_finally {A} (p : win A) c (Q : result Stop A → Win → Prop) s :
  safely p (λ r s', safely c (λ rc s'', match rc with Ok _ => Q r s'' | Err e => Q (Err e) s'' end) s') s →
  safely (finally p c) Q s.
Proof.
  revert s. induction p as [[a|e]|X e k IH]; intros s H; cbn [finally safe] in *.
  - apply watch_bind. eapply watch_mono; [exact H|]. by intros [[]|e] s'.
  - apply watch_bind. eapply watch_mono; [exact H|]. by intros [[]|e'] s'.
  - intros x. destruct (H x) as (s' & ? & ?). exists s'. split; [done|]. by apply IH.
Qed.
Lemma safe_or_else {A} (p : win A) c (Q : result Stop A → Win → Prop) s :
  safely p (λ r s', match r with Ok a => Q (Ok a) s'
    | Err e => safely c (λ rc s'', match rc with Ok _ => Q (Err e) s'' | Err e' => Q (Err e') s'' end) s' end) s →
  safely (or_else p c) Q s.
Proof.
  revert s. induction p as [[a|e]|X e k IH]; intros s H; cbn [or_else safe] in *.
  - exact H.
  - apply watch_bind. eapply watch_mono; [exact H|]. by intros [[]|e'] s'.
  - intros x. destruct (H x) as (s' & ? & ?). exists s'. split; [done|]. by apply IH.
Qed.

(** The container with its grants, and nothing else. *)
Definition contained (sid text : bool) (g : list string) (r : list Failure) : Win := {|
  w_profile := true; w_sid := sid; w_text := text; w_folder := false; w_attributes := false; w_secured := false;
  w_job := false; w_limited := false; w_process := false; w_thread := false; w_assigned := false;
  w_running := false; w_exited := false; w_stopped := false; w_grants := g; w_failures := r |}.
Lemma elem_of_note y ok x l : y ∈ l → y ∈ note ok x l.
Proof. destruct ok; [done|by right]. Qed.
Lemma note_failed x l : x ∈ note false x l.
Proof. by left. Qed.
Ltac noted := repeat first [assumption | apply note_failed | apply elem_of_note].
(** Every grant on the paths is taken back, or recorded as kept. *)
Lemma removals sid_text paths s :
  w_profile s = true →
  safely (each (remove_acl_grant sid_text) paths) (λ r s', r = Ok tt ∧ ∃ g f, s' = granting s g f
    ∧ (∀ x, x ∈ w_failures s → x ∈ f)
    ∧ ∀ p, p ∈ g → p ∈ w_grants s ∧ (p ∉ paths ∨ GrantKept p ∈ f)) s.
Proof.
  revert s. induction paths as [|path paths IH]; intros s Hs.
  - split; [done|]. exists (w_grants s), (w_failures s). split; [by destruct s|]. split; [done|].
    intros p Hp. split; [done|]. left. apply not_elem_of_nil.
  - change (each (remove_acl_grant sid_text) (path :: paths)) with
      (u ← remove_acl_grant sid_text path; each (remove_acl_grant sid_text) paths).
    intros x. eexists. split; [cbn [win_step grant_step]; by rewrite Hs|].
    assert (Hrest : ∀ g1 f1, (∀ x, x ∈ w_failures s → x ∈ f1) →
      (∀ p, p ∈ g1 → p ∈ w_grants s ∧ (p ≠ path ∨ GrantKept p ∈ f1)) →
      safely (each (remove_acl_grant sid_text) paths) (λ r s', r = Ok tt ∧ ∃ g f, s' = granting s g f
        ∧ (∀ x, x ∈ w_failures s → x ∈ f)
        ∧ ∀ p, p ∈ g → p ∈ w_grants s ∧ (p ∉ path :: paths ∨ GrantKept p ∈ f)) (granting s g1 f1)).
    { intros g1 f1 Hf1 Hg1. eapply watch_mono; [by apply IH|]. intros r s' [-> (g & f & -> & Hf & Hg)].
      split; [done|]. exists g, f. split; [done|]. split; [by auto|]. intros p Hp.
      destruct (Hg p Hp) as [Hp1 Hk]. destruct (Hg1 p Hp1) as [Hps Hk1]. split; [done|].
      rewrite not_elem_of_cons. destruct Hk1 as [Hne|Hk1]; [|right; by apply Hf].
      destruct Hk; [left; by split|by right]. }
    destruct x as [[|]|e]; apply Hrest; try (by intros; noted); intros p Hp.
    + apply list_elem_of_filter in Hp as [Hne Hp]. by split; [|left].
    + split; [done|]. destruct (decide (p = path)) as [->|]; [right; noted|by left].
    + split; [done|]. destruct (decide (p = path)) as [->|]; [right; noted|by left].
Qed.
(** A grant that stays when something failed is explained. *)
Definition explained (g : list string) (f : list Failure) : Prop :=
  ∀ p, p ∈ g → ToolMissing ∈ f ∨ GrantKept p ∈ f.
Lemma grants_safe sid_text granted paths g f :
  (∀ p, p ∈ g → p ∈ granted) → (∀ p, p ∈ paths → p ∈ writable_paths plan) →
  safely (grant_paths sid_text granted paths) (λ r s', ∃ g' f', s' = contained true false g' f' ∧
    (∀ p, p ∈ g' → p ∈ granted ++ paths) ∧
    match r with Ok _ => True | Err _ => explained g' f' end) (contained true false g f).
Proof.
  revert granted g f. induction paths as [|path paths IH]; intros granted g f Hg Hp.
  - exists g, f. split; [done|]. split; [|done]. intros p Hin. rewrite app_nil_r. auto.
  - intros x. eexists. split.
    { cbn [win_step grant_step contained w_profile]. rewrite bool_decide_eq_true_2 by (apply Hp; by left). reflexivity. }
    destruct x as [[|]|e].
    + eapply watch_mono; [apply (IH (granted ++ [path]) (path :: g) f)|].
      * intros p [-> |Hin]%elem_of_cons; apply elem_of_app; [by right; left|left; auto].
      * intros p Hin. apply Hp. by right.
      * intros r s' (g' & f' & -> & Hg' & Hr). exists g', f'. split; [done|]. split; [|done].
        intros p Hin. apply Hg' in Hin. by rewrite <- app_assoc in Hin.
    + apply watch_bind. eapply watch_mono; [by apply removals|].
      intros r s' [-> (g' & f' & -> & Hf & Hg')]. exists g', f'. split; [done|].
      assert (Hall : ∀ p, p ∈ g' → p ∈ granted ++ [path]).
      { intros p Hin. apply Hg' in Hin as [Hin _]. cbn [granting w_grants contained] in Hin.
        apply elem_of_cons in Hin as [-> |Hin]; apply elem_of_app; [by right; left|left; auto]. }
      split.
      * intros p Hin. apply Hall in Hin as [Hin|Hin]%elem_of_app; apply elem_of_app; [by left|right].
        apply list_elem_of_singleton in Hin as ->. by left.
      * intros p Hin. right. destruct (Hg' p Hin) as [_ [Hn|Hk]]; [|done]. by destruct Hn; apply Hall.
    + exists g, (note false ToolMissing f). split; [done|]. split; [|intros p _; left; noted].
      intros p Hin. apply elem_of_app. left. auto.
Qed.
Lemma workdir_safe :
  safely (grant_workdir (writable_paths plan)) (λ r s', ∃ text g f, s' = contained true text g f ∧
    (∀ p, p ∈ g → p ∈ writable_paths plan) ∧
    match r with Ok _ => text = false
    | Err _ => (text = true → TextUnread ∈ f) ∧ explained g f end) (contained true false [] []).
Proof.
  intros [|]; (eexists; split; [reflexivity|]).
  2:{ exists false, [], []. repeat split; try done; intros p Hp; by apply not_elem_of_nil in Hp. }
  intros [sid_text|e]; (eexists; split; [reflexivity|]).
  2:{ exists true, [], (note false TextUnread []). split; [done|].
      split; [|split; [intros; noted|]]; intros p Hp; by apply not_elem_of_nil in Hp. }
  intros freed. eexists. split; [reflexivity|].
  apply watch_bind. eapply watch_mono;
    [apply (grants_safe sid_text [] (writable_paths plan) [] (note freed TextKept []))|]; [done..|].
  intros r s' (g & f & -> & Hg & Hr). by destruct r as [u|e]; exists false, g, f; split_and!.
Qed.
(** A step of the monitor, its state computed. *)
Ltac compute_step :=
  cbv beta iota zeta delta [win_step process_step grant_step require container granting confining processing contained
    nothing_held w_profile w_sid w_text w_folder w_attributes w_secured w_job w_limited w_process w_thread w_assigned
    w_running w_exited w_stopped w_grants w_failures closing negb andb].
Ltac win := eexists; split; [compute_step; reflexivity|].
Definition over (g : list string) (r : result Stop Z) (s : Win) : Prop :=
  w_profile s = true ∧ w_text s = false ∧ w_folder s = false ∧ w_attributes s = false ∧ w_job s = false ∧
  w_process s = false ∧ w_thread s = false ∧ w_grants s = g ∧
  (w_sid s = true → NoTemporary ∈ w_failures s) ∧ (w_stopped s = true → NotAssigned ∈ w_failures s) ∧
  match r with
  | Ok _ => w_running s = true ∧ w_sid s = false ∧ w_stopped s = false
            ∧ (w_exited s = true ∨ NotWaited ∈ w_failures s)
  | Err _ => True
  end.
Ltac ended := split_and!; try done; intros; noted.
Lemma folder_safe sid_text g f :
  safely (appcontainer_folder sid_text) (λ _ s', s' = contained true false g f) (contained true false g f).
Proof.
  intros [u|e]; win; [|done]. intros path. win.
  intros []. win. by destruct path.
Qed.
Lemma environment_safe home temp names s :
  safely (environment_entries home temp names) (λ r s', s' = s ∧ ∃ l, r = Ok l) s.
Proof.
  unfold environment_entries. match goal with |- safe _ (fold_cmd ?f _ _) ?Q _ => set (step := f);
    enough (H : ∀ l, safely (fold_cmd step l names) Q s) by apply H end.
  induction names as [|name names IH]; intros l; [by split; [|exists l]|].
  cbn [fold_cmd]. apply watch_bind. unfold step at 1, env_value.
  case_decide; [apply (IH (l ++ [name +:+ "=" +:+ home]))|]. case_decide; [apply (IH (l ++ [name +:+ "=" +:+ temp]))|].
  intros v. exists s. split; [done|]. cbn [safe mret cmd_ret]. destruct v; apply IH.
Qed.
Lemma in_job_safe environment g f :
  safely (run_in_job plan program args environment) (over g) (confining (contained true false g f) false true true true true).
Proof.
  intros created. eexists. split; [compute_step; rewrite bool_decide_eq_true_2 by done; reflexivity|].
  destruct created as [[]|e].
  2:{ intros []; win. intros freed; win.
      intros closed; win. ended. }
  intros []; win. intros freed; win.
  intros [|]; win.
  2:{ intros thread; win. intros process; win. intros job; win. ended. }
  intros [|]; win.
  - intros waited; win. intros code; win.
    intros thread; win. intros process; win. intros job; win. ended.
    destruct waited; [by left|right; noted].
  - intros thread; win. intros process; win. intros job; win. ended.
Qed.
Lemma launch_safe sid_text g f :
  safely (launch plan program args sid_text) (over g) (contained true false g f).
Proof.
  unfold launch. apply watch_bind, safe_or_else. eapply watch_mono; [apply folder_safe|].
  intros [home|e] s ->; [|intros freed; win; ended].
  intros x. win. destruct x as [[]|e]; [|ended].
  intros [|]; win.
  2:{ intros freed; win. ended. }
  intros [|]; win.
  2:{ intros []; win. intros freed; win. ended. }
  intros [|]; win.
  2:{ intros []; win. intros freed; win. ended. }
  intros limited. eexists. split; [compute_step; rewrite bool_decide_eq_true_2 by done; reflexivity|].
  destruct limited.
  2:{ intros closed; win. intros []; win. intros freed; win. ended. }
  apply watch_bind. eapply watch_mono; [apply environment_safe|]. intros r s [-> [entries ->]].
  apply in_job_safe.
Qed.
Lemma nothing_released e : released plan (Err e) nothing_held.
Proof. unfold released. split_and!; try done. intros p Hp. by apply not_elem_of_nil in Hp. Qed.
(** (C26) A launch on Windows, for any answers of the system, refusals to release included,
    and however far it comes: a plan that inherits the network starts nothing; the
    container, its SID, the attribute list, the job and the handles are used only while
    they are had and given back at most once; grants are only made on the writable paths;
    the process is created suspended with the attributes of the container, in the directory
    and with the command line asked for, and resumed only in a job that kills on close and
    has the limits of the plan. If it ends, everything was given back except the text of the
    SID when it cannot be read, the SID when the temporary directory cannot be made, and a
    process that was never resumed when it cannot be assigned to the job, although the code
    says that each is released; a grant stays only where taking it back failed, which is not
    looked at, or when the tool that makes the grants could not be started. An exit code is
    only that of a launch whose process ran in the job, and was waited for unless the wait
    itself failed. *)
Theorem windows_launch_spec tr o :
  performs (win_run plan program args) tr o →
  (network plan ≠ Deny → tr = []) ∧
  ∃ s, watch (win_step plan program args) nothing_held tr = Some s ∧ ∀ r, o = Some r → released plan r s.
Proof.
  intros Hp. split.
  { intros Hn. unfold win_run in Hp. rewrite bool_decide_eq_false_2 in Hp by done. by inversion Hp. }
  apply (safe_sound _ (win_run plan program args) (λ r s, released plan r s) nothing_held tr o); [|done]. clear Hp tr o.
  unfold win_run. apply watch_lift. unfold ensure. destruct (bool_decide _); [|apply nothing_released].
  intros nonce. win. intros pid. win.
  intros [[]|e]; win; [|apply nothing_released].
  apply watch_bind, safe_or_else. eapply watch_mono; [apply workdir_safe|].
  intros [sid_text|e] s (text & g & f & -> & Hg & Hr).
  - subst text. apply safe_finally. eapply watch_mono; [apply launch_safe|].
    intros r s (Hpr & Ht & Hf & Ha & Hj & Hpc & Hth & Hgr & Hs & Hst & Hok). unfold drop_guard.
    apply watch_bind. eapply watch_mono; [by apply removals|]. intros rc s' [-> (g' & f' & -> & Hf' & Hg')].
    intros kept. eexists. split; [cbn [win_step granting w_profile]; by rewrite Hpr|].
    assert (Hk : ∀ p, p ∈ g' → GrantKept p ∈ f' ∧ p ∈ writable_paths plan).
    { intros p Hin. destruct (Hg' p Hin) as [Hin' [Hn|Hk]]; rewrite Hgr in Hin'; [|by auto]. by destruct Hn; auto. }
    assert (Hrel : ∀ r, match r with Ok _ => over g (Ok 0%Z) s | Err _ => True end →
      released plan r (container (granting s g' f') false (w_sid s) (w_text s) (note kept ProfileKept f'))).
    { intros r' Hr'. unfold released. cbn [container granting w_profile w_folder w_attributes w_job w_process w_thread
        w_text w_sid w_stopped w_grants w_failures w_running w_exited].
      split_and!; try done; [by rewrite Ht|intros; apply elem_of_note; auto|intros; apply elem_of_note; auto| |].
      - intros p Hin. destruct (Hk p Hin). split; [done|]. right. by apply elem_of_note.
      - destruct r'; [|done]. destruct Hr' as (_ & _ & _ & _ & _ & _ & _ & _ & _ & _ & ? & ? & ? & Hw).
        split_and!; [done..| |].
        + destruct Hw; [by left|right; apply elem_of_note; auto].
        + intros p Hin. apply elem_of_note. by apply Hk. }
    destruct r as [code|e]; apply Hrel; [|done]. by do 10 (split; [done|]).
  - destruct Hr as [Ht Hgr]. intros freed. win. intros kept. win.
    unfold released. cbn [w_profile w_folder w_attributes w_job w_process w_thread
        w_text w_sid w_stopped w_grants w_failures w_running w_exited].
    split_and!; try done; [intros; noted; by apply Ht|].
    intros p Hin. split; [by apply Hg|]. destruct (Hgr p Hin); [left|right]; by noted.
Qed.
End launch.

(** ** Launches *)

Definition all_well (dir_made removable : bool) (X : Type) (e : WinAct X) : X :=
  match e in WinAct X return X with
  | NowNanos => 7%Z
  | ProcessId => 42%Z
  | CreateAppContainerProfile _ => Ok tt
  | ConvertSidToStringSid | InitializeAttributeList | SetSecurityAttribute | CreateJobObject | SetJobLimits _ _ _
  | AssignProcessToJob | ResumeThread => true
  | DecodeSid => Ok "S-1-15-2-1"
  | Icacls _ op => Ok (removable || negb (bool_decide (head op = Some "/remove")))
  | GetAppContainerFolderPath _ => Ok tt
  | DecodeFolder => Ok "C:\Packages\Oath"
  | CreateDirAll _ => if dir_made then Ok tt else Err "denied"
  | GetVar _ => Some "C:\Windows"
  | CreateProcess _ _ _ _ _ => Ok tt
  | GetExitCode => Some 3%Z
  | FreeFolder | DeleteAttributeList => tt
  | DeleteAppContainerProfile | FreeSid | FreeSidText | CloseJob | WaitForProcess | CloseThread
  | CloseProcess => true
  end.
Definition demo_launch (dir_made : bool) : list (event WinAct) * result Stop Z :=
  Command.run (all_well dir_made true) (win_run (Sandbox.strict "pkg" "C:\work") "C:\node.exe" ["a b"]).
Lemma windows_launch_spec_witness :
  (demo_launch true).2 = Ok 3%Z ∧
  ∃ s, watch (win_step (Sandbox.strict "pkg" "C:\work") "C:\node.exe" ["a b"]) nothing_held (demo_launch true).1 = Some s ∧
    w_exited s = true ∧ w_sid s = false ∧ w_grants s = [].
Proof.
  split; [by vm_compute|].
  destruct (windows_launch_spec (Sandbox.strict "pkg" "C:\work") "C:\node.exe" ["a b"] (demo_launch true).1
              (Some (demo_launch true).2) (run_performs _ _)) as [_ (s & Hs & Hr)].
  exists s. split; [done|]. specialize (Hr _ eq_refl).
  destruct (demo_launch true).2 as [code|e] eqn:Hd; [|by vm_compute in Hd].
  destruct Hr as (_ & _ & _ & _ & _ & _ & _ & _ & _ & _ & _ & _ & Hsid & _ & Hw & Hk).
  assert (w_failures s = [] ∧ w_exited s = true) as [Hf He].
  { vm_compute in Hs. by injection Hs as <-. }
  split_and!; [done..|]. rewrite Hf in Hk. destruct (w_grants s) as [|p g]; [done|].
  destruct (not_elem_of_nil (GrantKept p)). apply Hk. by left.
Defined.
(** The SID is not freed when the temporary directory cannot be made, though every launch
    is meant to release what it had. *)
Example sid_is_left :
  let '(tr, r) := demo_launch false in
  r = Err (Bail "denied") ∧
  w_sid <$> watch (win_step (Sandbox.strict "pkg" "C:\work") "C:\node.exe" ["a b"]) nothing_held tr = Some true.
Proof. by vm_compute. Qed.
(** When grants cannot be taken back they stay, and the launch still succeeds. *)
Example grants_are_left :
  let '(tr, r) := Command.run (all_well true false)
                    (win_run (Sandbox.strict "pkg" "C:\work") "C:\node.exe" ["a b"]) in
  r = Ok 3%Z ∧
  w_grants <$> watch (win_step (Sandbox.strict "pkg" "C:\work") "C:\node.exe" ["a b"]) nothing_held tr
  = Some (writable_paths (Sandbox.strict "pkg" "C:\work")).
Proof. by vm_compute. Qed.
