(* ===== verification/Merkle.v ===== *)
(** * oath-registry: the Merkle tree of the transparency log ([lib.rs])

    The tree over the event hashes, inclusion proofs, and consistency proofs: two
    lists of aligned blocks whose hashes give the old root and the new one. SHA-256
    is the interface [Digest]. *)
From S2P Require Export Transparency.

(** ** Definitions *)

Definition usize_max : Z := u64_max.
Definition checked_add_usize (a b : nat) : option nat :=
  if decide (Z.of_nat (a + b) ≤ usize_max)%Z then Some (a + b) else None.

(** The largest power of two below [length]; the loop ends after at most [length]
    rounds. *)
Fixpoint split_loop (fuel power length : nat) : nat :=
  match fuel with
  | O => power
  | S fuel => if 2 * power <? length then split_loop fuel (2 * power) length else power
  end.
Definition split_point (length : nat) : nat := split_loop length 1 length.

(** [usize::trailing_zeros] of a number that is not zero, and the largest power of
    two up to a number, [1 << (BITS - 1 - leading_zeros)]. *)
Fixpoint pos_trailing_zeros (p : positive) : nat :=
  match p with xO p => S (pos_trailing_zeros p) | _ => 0 end.
Definition trailing_zeros (n : nat) : nat :=
  match N.of_nat n with N0 => 0 | Npos p => pos_trailing_zeros p end.
Definition highest_power (n : nat) : nat := 2 ^ Nat.log2 n.
Definition is_power_of_two (n : nat) : bool := negb (n =? 0) && (highest_power n =? n).

Record MerkleRangeNode := { start : nat; size : nat; hash : string }.
#[export] Instance MerkleRangeNode_eq_dec : EqDecision MerkleRangeNode.
Proof. solve_decision. Defined.
Record MerkleConsistencyProof := {
  from_size : nat;
  to_size : nat;
  prefix : list MerkleRangeNode;
  suffix : list MerkleRangeNode;
}.

Section tree.
Context {SHA : Digest}.

Definition leaf_input (leaf : string) : string := String (byte 0) leaf.
Definition children_input (left right : string) : string := String (byte 1) (left +:+ right).
Definition hash_leaf (leaf : string) : string := sha256_hex (leaf_input leaf).
Definition hash_children (left right : string) : string := sha256_hex (children_input left right).

(** The recursion halves the list; the fuel is its length. *)
Fixpoint subtree_from (fuel : nat) (hashes : list string) : string :=
  match hashes with
  | [] => sha256_hex ""
  | [leaf] => hash_leaf leaf
  | _ =>
      let split := split_point (length hashes) in
      match fuel with
      | O => ""
      | S fuel => hash_children (subtree_from fuel (take split hashes))
                                (subtree_from fuel (drop split hashes))
      end
  end.
Definition subtree_root (hashes : list string) : string := subtree_from (length hashes) hashes.
Definition merkle_root (hashes : list string) : string := subtree_root hashes.

Fixpoint inclusion_path (fuel : nat) (hashes : list string) (index : nat) : list string :=
  if length hashes <=? 1 then []
  else
    let split := split_point (length hashes) in
    match fuel with
    | O => []
    | S fuel =>
        if index <? split
        then inclusion_path fuel (take split hashes) index ++ [subtree_root (drop split hashes)]
        else inclusion_path fuel (drop split hashes) (index - split)
               ++ [subtree_root (take split hashes)]
    end.
Definition merkle_inclusion_proof (hashes : list string) (index : nat) : option (list string) :=
  if decide (index < length hashes) then Some (inclusion_path (length hashes) hashes index) else None.

(** The hash and the cursor after it. *)
Fixpoint reconstruct (fuel : nat) (current : string) (index tree_size : nat)
    (proof : list string) (cursor : nat) : option (string * nat) :=
  if tree_size =? 1 then Some (current, cursor)
  else
    let split := split_point tree_size in
    match fuel with
    | O => None
    | S fuel =>
        '(child, cursor) ←
          if index <? split then reconstruct fuel current index split proof cursor
          else reconstruct fuel current (index - split) (tree_size - split) proof cursor;
        sibling ← proof !! cursor;
        Some (if index <? split then hash_children child sibling else hash_children sibling child,
              S cursor)
    end.
Definition verify_merkle_inclusion (leaf : string) (index tree_size : nat)
    (proof : list string) (root : string) : bool :=
  if bool_decide (tree_size = 0 ∨ tree_size ≤ index) then false
  else
    match reconstruct tree_size (hash_leaf leaf) index tree_size proof 0 with
    | Some (candidate, cursor) => bool_decide (candidate = root ∧ cursor = length proof)
    | None => false
    end.

(** [while cursor + size > end { size >>= 1 }] *)
Fixpoint shrink (fuel size cursor stop : nat) : nat :=
  match fuel with
  | O => size
  | S fuel => if stop <? cursor + size then shrink fuel (size / 2) cursor stop else size
  end.
Definition range_size (cursor stop : nat) : nat :=
  let remaining := stop - cursor in
  let alignment :=
    if cursor =? 0 then highest_power remaining else 2 ^ trailing_zeros cursor in
  let size := alignment `min` highest_power remaining in
  shrink size size cursor stop.
(** The blocks of a range; each has at least one element, so that the length of
    the range is enough fuel. *)
Fixpoint compact_loop (fuel : nat) (hashes : list string) (cursor stop : nat) :
    list MerkleRangeNode :=
  match fuel with
  | O => []
  | S fuel =>
      if cursor <? stop then
        let size := range_size cursor stop in
        {| start := cursor; size := size; hash := subtree_root (take size (drop cursor hashes)) |}
        :: compact_loop fuel hashes (cursor + size) stop
      else []
  end.
Definition compact_range (hashes : list string) (start stop : nat) : list MerkleRangeNode :=
  compact_loop (stop - start) hashes start stop.

Definition merkle_consistency_proof (hashes : list string) (from : nat) :
    option MerkleConsistencyProof :=
  if decide (length hashes < from) then None
  else Some {| from_size := from; to_size := length hashes;
               prefix := compact_range hashes 0 from;
               suffix := compact_range hashes from (length hashes) |}.

(** Merging the top of the stack, its head here, while two blocks are the halves of
    an aligned one. *)
Fixpoint merge_top (stack : list MerkleRangeNode) (rnode : MerkleRangeNode) :
    list MerkleRangeNode :=
  match stack with
  | [] => [rnode]
  | lnode :: rest =>
      if bool_decide (size lnode ≠ size rnode ∨ start lnode + size lnode ≠ start rnode
                      ∨ start lnode mod (size lnode * 2) ≠ 0)
      then rnode :: stack
      else merge_top rest {| start := start lnode; size := size lnode * 2;
                             hash := hash_children (hash lnode) (hash rnode) |}
  end.
Fixpoint frontier_loop (nodes : list MerkleRangeNode) (cursor : nat)
    (stack : list MerkleRangeNode) : option (nat * list MerkleRangeNode) :=
  match nodes with
  | [] => Some (cursor, stack)
  | node :: nodes =>
      if bool_decide (start node ≠ cursor ∨ size node = 0) || negb (is_power_of_two (size node))
      then None
      else
        cursor ← checked_add_usize cursor (size node);
        frontier_loop nodes cursor (merge_top stack node)
  end.
Definition fold_stack (stack : list MerkleRangeNode) : option string :=
  match stack with
  | [] => None
  | top :: rest => Some (foldl (λ root node, hash_children (hash node) root) (hash top) rest)
  end.
Definition root_from_frontier (nodes : list MerkleRangeNode) (expected_size : nat) :
    option string :=
  if decide (expected_size = 0) then
    (if decide (nodes = []) then Some (sha256_hex "") else None)
  else
    '(cursor, stack) ← frontier_loop nodes 0 [];
    if decide (cursor = expected_size) then fold_stack stack else None.

Definition verify_merkle_consistency (proof : MerkleConsistencyProof)
    (from_root to_root : string) : bool :=
  if to_size proof <? from_size proof then false
  else
    let prefix_root := root_from_frontier (prefix proof) (from_size proof) in
    let full := prefix proof ++ suffix proof in
    bool_decide (prefix_root = Some from_root)
    && bool_decide (root_from_frontier full (to_size proof) = Some to_root).
End tree.

(** ** The split point *)

Lemma split_loop_spec fuel i k n :
  i ≤ k → 2 ^ k < n ≤ 2 ^ S k → k < fuel + i → split_loop fuel (2 ^ i) n = 2 ^ k.
Proof.
  revert i. induction fuel as [|fuel IH]; intros i Hik Hn Hf; [lia|]. cbn [split_loop].
  rewrite <- Nat.pow_succ_r'. destruct (Nat.ltb_spec (2 ^ S i) n) as [H|H].
  - apply IH; [|done|lia]. destruct (decide (i = k)) as [->|]; [|lia].
    simpl in Hn, H. lia.
  - f_equal. destruct (decide (i = k)) as [->|]; [done|].
    assert (2 ^ S i ≤ 2 ^ k) by (apply Nat.pow_le_mono_r; lia). lia.
Qed.
Lemma split_point_pow k n : 2 ^ k < n ≤ 2 ^ S k → split_point n = 2 ^ k.
Proof.
  intros Hn. apply (split_loop_spec n 0 k); [lia|done|].
  pose proof (Nat.pow_gt_lin_r 2 k). lia.
Qed.
Lemma between_powers n : 2 ≤ n → ∃ k, 2 ^ k < n ≤ 2 ^ S k.
Proof.
  intros Hn. exists (Nat.log2 (n - 1)).
  destruct (Nat.log2_spec (n - 1)) as [H1 H2]; [lia|]. lia.
Qed.
Lemma split_point_bounds n : 2 ≤ n → 0 < split_point n < n.
Proof.
  intros Hn. destruct (between_powers n Hn) as [k Hk]. rewrite (split_point_pow k) by done.
  pose proof (Nat.pow_nonzero 2 k). lia.
Qed.

(** ** What is hashed *)
Section inputs.
Context {SHA : Digest}.

(** For the root of a list. *)
Fixpoint subtree_inputs (fuel : nat) (hashes : list string) : list string :=
  match hashes with
  | [] => [""]
  | [leaf] => [leaf_input leaf]
  | _ =>
      let split := split_point (length hashes) in
      match fuel with
      | O => []
      | S fuel => children_input (subtree_from fuel (take split hashes)) (subtree_from fuel (drop split hashes))
                  :: subtree_inputs fuel (take split hashes) ++ subtree_inputs fuel (drop split hashes)
      end
  end.
Definition root_inputs (hashes : list string) : list string := subtree_inputs (length hashes) hashes.
(** For an inclusion proof. *)
Fixpoint reconstruct_inputs (fuel : nat) (current : string) (index tree_size : nat)
    (proof : list string) (cursor : nat) : list string :=
  if tree_size =? 1 then []
  else
    let split := split_point tree_size in
    match fuel with
    | O => []
    | S fuel =>
        let '(index', size) := if index <? split then (index, split) else (index - split, tree_size - split) in
        reconstruct_inputs fuel current index' size proof cursor
        ++ match reconstruct fuel current index' size proof cursor with
           | Some (child, cursor) =>
               match proof !! cursor with
               | Some sibling => [if index <? split then children_input child sibling
                                  else children_input sibling child]
               | None => []
               end
           | None => []
           end
    end.
Definition inclusion_inputs (leaf : string) (index tree_size : nat) (proof : list string) : list string :=
  leaf_input leaf :: reconstruct_inputs tree_size (hash_leaf leaf) index tree_size proof 0.
(** For a frontier. *)
Fixpoint merge_inputs (stack : list MerkleRangeNode) (rnode : MerkleRangeNode) : list string :=
  match stack with
  | [] => []
  | lnode :: rest =>
      if bool_decide (size lnode ≠ size rnode ∨ start lnode + size lnode ≠ start rnode
                      ∨ start lnode mod (size lnode * 2) ≠ 0)
      then []
      else children_input (hash lnode) (hash rnode)
           :: merge_inputs rest {| start := start lnode; size := size lnode * 2;
                                   hash := hash_children (hash lnode) (hash rnode) |}
  end.
Fixpoint frontier_inputs (nodes stack : list MerkleRangeNode) : list string :=
  match nodes with
  | [] => []
  | node :: nodes => merge_inputs stack node ++ frontier_inputs nodes (merge_top stack node)
  end.
Fixpoint fold_inputs (root : string) (rest : list MerkleRangeNode) : list string :=
  match rest with
  | [] => []
  | node :: rest => children_input (hash node) root :: fold_inputs (hash_children (hash node) root) rest
  end.
Definition stack_inputs (stack : list MerkleRangeNode) : list string :=
  match stack with [] => [] | top :: rest => fold_inputs (hash top) rest end.
Definition verify_inputs (nodes : list MerkleRangeNode) : list string :=
  "" :: frontier_inputs nodes [] ++ stack_inputs (foldl merge_top [] nodes).
Definition consistency_inputs (proof : MerkleConsistencyProof) : list string :=
  verify_inputs (prefix proof) ++ verify_inputs (prefix proof ++ suffix proof).
End inputs.

Section tree_facts.
Context {SHA : Digest}.

Lemma subtree_from_fuel fuel fuel' l :
  length l ≤ fuel → length l ≤ fuel' → subtree_from fuel l = subtree_from fuel' l.
Proof.
  revert fuel' l. induction fuel as [|fuel IH]; intros fuel' l Hf Hf'.
  { destruct l; [|simpl in *; lia]. by destruct fuel'. }
  destruct l as [|a [|b l]]; [by destruct fuel'..|].
  destruct fuel' as [|fuel']; [simpl in *; lia|].
  cbn [subtree_from]. set (s := split_point _).
  pose proof (split_point_bounds (length (a :: b :: l))) as Hs. simpl in Hs.
  f_equal; apply IH; rewrite ?length_take, ?length_drop; simpl in *; lia.
Qed.
Lemma subtree_inputs_fuel fuel fuel' l :
  length l ≤ fuel → length l ≤ fuel' → subtree_inputs fuel l = subtree_inputs fuel' l.
Proof.
  revert fuel' l. induction fuel as [|fuel IH]; intros fuel' l Hf Hf'.
  { destruct l; [|simpl in *; lia]. by destruct fuel'. }
  destruct l as [|a [|b l]]; [by destruct fuel'..|].
  destruct fuel' as [|fuel']; [simpl in *; lia|].
  cbn [subtree_inputs]. set (s := split_point _).
  pose proof (split_point_bounds (length (a :: b :: l))) as Hs. simpl in Hs.
  f_equal; f_equal; (apply IH || apply subtree_from_fuel); rewrite ?length_take, ?length_drop;
    simpl in *; lia.
Qed.
Lemma subtree_root_split l :
  2 ≤ length l →
  subtree_root l = hash_children (subtree_root (take (split_point (length l)) l))
                                 (subtree_root (drop (split_point (length l)) l)).
Proof.
  intros Hl. pose proof (split_point_bounds _ Hl) as Hs. unfold subtree_root at 1.
  destruct l as [|a [|b l]]; [simpl in *; lia..|].
  set (m := a :: b :: l) in *. change (length m) with (S (length (b :: l))) at 1.
  unfold m at 2. cbn [subtree_from]. fold m. unfold subtree_root.
  f_equal; apply subtree_from_fuel; rewrite ?length_take, ?length_drop;
    unfold m in *; simpl length in *; lia.
Qed.

Lemma root_inputs_split l :
  2 ≤ length l →
  let s := split_point (length l) in
  root_inputs l = children_input (subtree_root (take s l)) (subtree_root (drop s l))
                  :: root_inputs (take s l) ++ root_inputs (drop s l).
Proof.
  intros Hl s. pose proof (split_point_bounds _ Hl) as Hs. unfold root_inputs at 1.
  destruct l as [|a [|b l]]; [simpl in *; lia..|].
  set (m := a :: b :: l) in *. change (length m) with (S (length (b :: l))) at 1.
  unfold m at 2. cbn [subtree_inputs]. fold m. fold s. unfold subtree_root, root_inputs.
  f_equal; f_equal; (apply subtree_from_fuel || apply subtree_inputs_fuel);
    rewrite ?length_take, ?length_drop; unfold s, m in *; simpl length in *; lia.
Qed.

(** *** The tree behind a root *)

Inductive tree := Leaf (s : string) | Node (l r : tree).
Fixpoint tree_hash (t : tree) : string :=
  match t with
  | Leaf s => hash_leaf s
  | Node l r => hash_children (tree_hash l) (tree_hash r)
  end.
Fixpoint leaves (t : tree) : list string :=
  match t with Leaf s => [s] | Node l r => leaves l ++ leaves r end.

Fixpoint tree_inputs (t : tree) : list string :=
  match t with
  | Leaf s => [leaf_input s]
  | Node l r => children_input (tree_hash l) (tree_hash r) :: tree_inputs l ++ tree_inputs r
  end.

Lemma tree_of l :
  l ≠ [] → ∃ t, tree_hash t = subtree_root l ∧ leaves t = l ∧ tree_inputs t = root_inputs l.
Proof.
  remember (length l) as n eqn:Hn. revert l Hn.
  induction n as [n IH] using lt_wf_ind. intros l -> Hne.
  destruct l as [|a [|b l]]; [done|by exists (Leaf a)|].
  set (m := a :: b :: l) in *. assert (2 ≤ length m) as Hm by (simpl; lia).
  pose proof (split_point_bounds _ Hm) as Hs.
  destruct (IH (split_point (length m))) with (l := take (split_point (length m)) m)
    as (t1 & H1 & L1 & I1); [lia|rewrite length_take; lia| |].
  { intros E%(f_equal length). rewrite length_take in E. simpl in *. lia. }
  destruct (IH (length m - split_point (length m))) with (l := drop (split_point (length m)) m)
    as (t2 & H2 & L2 & I2); [lia|by rewrite length_drop| |].
  { intros E%(f_equal length). rewrite length_drop in E. simpl in *. lia. }
  exists (Node t1 t2). cbn [tree_hash leaves tree_inputs]. rewrite H1, H2, L1, L2, I1, I2, take_drop.
  split; [|split; [done|]]; symmetry; [by apply subtree_root_split|by apply root_inputs_split].
Qed.

Lemma hash_children_inj a b c d :
  String.length a = String.length c ∨ String.length b = String.length d →
  hash_children a b = hash_children c d →
  (a = c ∧ b = d) ∨ collision [children_input a b; children_input c d].
Proof.
  intros Hl H. apply sha256_inj in H as [[= H]|]; [left|by right].
  assert (String.length a = String.length c) as Hac.
  { apply (f_equal String.length) in H. rewrite !str_length_app in H. lia. }
  by apply str_app_inj_len in H.
Qed.
Lemma tree_hash_length t : String.length (tree_hash t) = 64.
Proof. destruct t; apply sha256_hex_length. Qed.
Lemma subtree_root_length l : String.length (subtree_root l) = 64.
Proof.
  destruct (decide (l = [])) as [->|Hl]; [apply sha256_hex_length|].
  destruct (tree_of l Hl) as (t & <- & _ & _). apply tree_hash_length.
Qed.
(** A node's hash is the hash of no leaf and not that of the empty list. *)
Lemma children_not_leaf a b s :
  hash_children a b = hash_leaf s → collision [children_input a b; leaf_input s].
Proof. by intros [|]%sha256_inj. Qed.
Lemma tree_not_empty t : tree_hash t = sha256_hex "" → collision (tree_inputs t ++ [""]).
Proof.
  destruct t; simpl; intros [|]%sha256_inj; try done; (eapply collision_mono; [|done]); set_solver.
Qed.

Lemma tree_hash_inj t u : tree_hash t = tree_hash u → t = u ∨ collision (tree_inputs t ++ tree_inputs u).
Proof.
  revert u. induction t as [s|l1 IH1 r1 IH2]; intros [s'|l2 r2]; simpl; intros H.
  - by apply sha256_inj in H as [[= ->]|]; [left|right].
  - right. symmetry in H. eapply collision_mono; [|by eapply children_not_leaf]. set_solver.
  - right. eapply collision_mono; [|by eapply children_not_leaf]. set_solver.
  - apply hash_children_inj in H as [[H1 H2]|]; [|wider|left; by rewrite !tree_hash_length].
    apply IH1 in H1 as [->|]; [|wider]. apply IH2 in H2 as [->|]; [by left|wider].
Qed.
End tree_facts.

(** ** Inclusion proofs *)
Section inclusion.
Context {SHA : Digest}.

Lemma inclusion_path_short fuel l i : length l ≤ 1 → inclusion_path fuel l i = [].
Proof. intros H. destruct fuel; simpl; by rewrite (proj2 (Nat.leb_le _ _)). Qed.
Lemma inclusion_path_split fuel l i :
  2 ≤ length l →
  inclusion_path (S fuel) l i =
  let split := split_point (length l) in
  if i <? split then inclusion_path fuel (take split l) i ++ [subtree_root (drop split l)]
  else inclusion_path fuel (drop split l) (i - split) ++ [subtree_root (take split l)].
Proof. intros H. cbn [inclusion_path]. by rewrite (proj2 (Nat.leb_gt _ _)) by lia. Qed.
Lemma reconstruct_split fuel x i n proof cursor :
  2 ≤ n →
  reconstruct (S fuel) x i n proof cursor =
  let split := split_point n in
  '(child, cursor) ← (if i <? split then reconstruct fuel x i split proof cursor
                      else reconstruct fuel x (i - split) (n - split) proof cursor);
  sibling ← proof !! cursor;
  Some (if i <? split then hash_children child sibling else hash_children sibling child, S cursor).
Proof. intros H. cbn [reconstruct]. by rewrite (proj2 (Nat.eqb_neq _ _)) by lia. Qed.

Lemma reconstruct_inputs_split fuel x i n proof cursor :
  2 ≤ n →
  reconstruct_inputs (S fuel) x i n proof cursor =
  let split := split_point n in
  let '(i', size) := if i <? split then (i, split) else (i - split, n - split) in
  reconstruct_inputs fuel x i' size proof cursor
  ++ match reconstruct fuel x i' size proof cursor with
     | Some (child, cursor) =>
         match proof !! cursor with
         | Some sibling => [if i <? split then children_input child sibling
                            else children_input sibling child]
         | None => []
         end
     | None => []
     end.
Proof. intros H. cbn [reconstruct_inputs]. by rewrite (proj2 (Nat.eqb_neq _ _)) by lia. Qed.

Lemma reconstruct_path fuel fuel' l i leaf pre post :
  l !! i = Some leaf → length l ≤ fuel → length l ≤ fuel' →
  reconstruct fuel (hash_leaf leaf) i (length l) (pre ++ inclusion_path fuel' l i ++ post)
    (length pre) =
  Some (subtree_root l, length pre + length (inclusion_path fuel' l i)).
Proof.
  revert fuel' l i pre post.
  induction fuel as [|fuel IH]; intros fuel' l i pre post Hi Hf Hf'.
  { apply lookup_lt_Some in Hi. lia. }
  destruct (decide (length l ≤ 1)) as [Hl|Hl].
  - rewrite inclusion_path_short by done. apply lookup_lt_Some in Hi as Hlt.
    destruct l as [|a [|]]; simpl in *; try lia. destruct i; [|lia].
    injection Hi as ->. by rewrite Nat.add_0_r.
  - destruct fuel' as [|fuel']; [lia|].
    rewrite reconstruct_split, inclusion_path_split, subtree_root_split by lia. cbv zeta.
    set (s := split_point (length l)). pose proof (split_point_bounds (length l)) as Hs.
    fold s in Hs. apply lookup_lt_Some in Hi as Hlt.
    destruct (Nat.ltb_spec i s) as [His|His].
    + pose proof (IH fuel' (take s l) i pre ([subtree_root (drop s l)] ++ post)) as IH'.
      rewrite length_take_le in IH' by lia. rewrite <- app_assoc.
      rewrite IH' by (rewrite ?lookup_take_lt by lia; done || lia). cbn [mbind option_bind].
      rewrite app_assoc, lookup_app_r, length_app, Nat.sub_diag by (rewrite length_app; lia).
      cbn. do 2 f_equal. rewrite length_app. simpl. lia.
    + pose proof (IH fuel' (drop s l) (i - s) pre ([subtree_root (take s l)] ++ post)) as IH'.
      rewrite length_drop in IH'. rewrite <- app_assoc.
      rewrite IH'; [|rewrite lookup_drop, <- Hi; f_equal; lia|lia..]. cbn [mbind option_bind].
      rewrite app_assoc, lookup_app_r, length_app, Nat.sub_diag by (rewrite length_app; lia).
      cbn. do 2 f_equal. rewrite length_app. simpl. lia.
Qed.

Lemma reconstruct_digest fuel leaf i n proof cursor h cursor' :
  reconstruct fuel (hash_leaf leaf) i n proof cursor = Some (h, cursor') → String.length h = 64.
Proof.
  destruct fuel; simpl; destruct (n =? 1).
  - intros [= <- _]. apply sha256_hex_length.
  - done.
  - intros [= <- _]. apply sha256_hex_length.
  - intros H. destruct (if i <? split_point n then _ else _) as [[c k]|]; [|done]. simpl in H.
    destruct (proof !! k); [|done]. simpl in H. injection H as <- _.
    destruct (i <? split_point n); apply sha256_hex_length.
Qed.
Lemma reconstruct_sound fuel leaf l i proof cursor cursor' :
  i < length l → length l ≤ fuel →
  reconstruct fuel (hash_leaf leaf) i (length l) proof cursor = Some (subtree_root l, cursor') →
  l !! i = Some leaf
  ∨ collision (root_inputs l ++ leaf_input leaf :: reconstruct_inputs fuel (hash_leaf leaf) i (length l) proof cursor).
Proof.
  revert l i cursor cursor'. induction fuel as [|fuel IH]; intros l i cursor cursor' Hi Hf H; [lia|].
  destruct (decide (length l ≤ 1)) as [Hl|Hl].
  - destruct l as [|a [|]]; simpl in *; try lia. destruct i; [|lia].
    injection H as H _. apply sha256_inj in H as [[= ->]|]; [by left|wider].
  - rewrite reconstruct_split, subtree_root_split in H by lia. cbv zeta in H.
    set (s := split_point (length l)) in *. pose proof (split_point_bounds (length l)) as Hs.
    fold s in Hs. rewrite root_inputs_split, reconstruct_inputs_split by lia. cbv zeta. fold s.
    destruct (Nat.ltb_spec i s) as [His|His].
    + destruct (reconstruct _ _ _ _ _ _) as [[c k]|] eqn:E; [|done]. simpl in H.
      destruct (proof !! k) as [sib|]; [|done]. simpl in H. injection H as H _.
      apply hash_children_inj in H as [[-> _]|]; [|wider|].
      * pose proof (IH (take s l) i) as IH'. rewrite length_take_le in IH' by lia.
        destruct (IH' cursor k) as [Hlk|]; [lia..|done| |wider].
        rewrite lookup_take_lt in Hlk by lia. by left.
      * left. by rewrite (reconstruct_digest _ _ _ _ _ _ _ _ E), subtree_root_length.
    + destruct (reconstruct _ _ _ _ _ _) as [[c k]|] eqn:E; [|done]. simpl in H.
      destruct (proof !! k) as [sib|]; [|done]. simpl in H. injection H as H _.
      apply hash_children_inj in H as [[_ ->]|]; [|wider|].
      * pose proof (IH (drop s l) (i - s)) as IH'. rewrite length_drop in IH'.
        destruct (IH' cursor k) as [Hlk|]; [lia..|done| |wider].
        rewrite lookup_drop in Hlk. left. rewrite <- Hlk. f_equal. lia.
      * right. by rewrite (reconstruct_digest _ _ _ _ _ _ _ _ E), subtree_root_length.
Qed.
Lemma inclusion_path_log fuel l i k :
  length l ≤ fuel → length l ≤ 2 ^ k → length (inclusion_path fuel l i) ≤ k.
Proof.
  revert l i k. induction fuel as [|fuel IH]; intros l i k Hf Hk.
  { rewrite inclusion_path_short by lia. simpl. lia. }
  destruct (decide (length l ≤ 1)); [rewrite inclusion_path_short by lia; simpl; lia|].
  rewrite inclusion_path_split by lia. cbv zeta.
  destruct (between_powers (length l)) as [j Hj]; [lia|].
  rewrite (split_point_pow j) by done. pose proof (Nat.pow_nonzero 2 j).
  destruct k as [|k]; [simpl in Hk; lia|].
  assert (j ≤ k). { apply Nat.lt_succ_r, (Nat.pow_lt_mono_r_iff 2); lia. }
  assert (2 ^ j ≤ 2 ^ k) by (apply Nat.pow_le_mono_r; lia). simpl in Hj, Hk.
  destruct (i <? 2 ^ j); rewrite length_app; simpl;
    rewrite Nat.add_1_r; apply le_n_S, IH; rewrite ?length_take, ?length_drop; lia.
Qed.

(** Inclusion proofs. A proof exists for every position of the log and for no
    other, has at most as many hashes as the tree is deep, and verifies with the
    leaf at that position. Conversely whatever list of strings verifies a leaf at a
    position against the root of a log, the log holds that leaf there, unless two of
    the inputs hashed for the root and for the proof have one SHA-256 digest. *)
Theorem merkle_inclusion_spec hashes index leaf :
  (is_Some (merkle_inclusion_proof hashes index) ↔ index < length hashes)
  ∧ (∀ proof, merkle_inclusion_proof hashes index = Some proof → hashes !! index = Some leaf →
       length proof ≤ Nat.log2_up (length hashes)
       ∧ verify_merkle_inclusion leaf index (length hashes) proof (merkle_root hashes) = true)
  ∧ (∀ proof, verify_merkle_inclusion leaf index (length hashes) proof (merkle_root hashes) = true →
       hashes !! index = Some leaf
       ∨ collision (root_inputs hashes ++ inclusion_inputs leaf index (length hashes) proof)).
Proof.
  unfold merkle_inclusion_proof. split; [|split].
  - case_decide; [by split|]. split; [by intros []|lia].
  - intros proof. case_decide as Hi; [|done]. intros [= <-] Hl. split.
    { apply inclusion_path_log; [done|]. destruct (decide (length hashes = 1)) as [->|]; [done|].
      apply Nat.log2_up_spec. lia. }
    unfold verify_merkle_inclusion. rewrite bool_decide_false by lia.
    pose proof (reconstruct_path (length hashes) (length hashes) hashes index leaf [] [] Hl) as H.
    rewrite app_nil_r in H. simpl in H. rewrite H by done. by apply bool_decide_true.
  - intros proof. unfold verify_merkle_inclusion. case_bool_decide as Hb; [done|].
    destruct (reconstruct _ _ _ _ _ _) as [[c k]|] eqn:E; [|done].
    intros [-> _]%bool_decide_eq_true. eapply reconstruct_sound, E; lia.
Qed.
End inclusion.

(** ** Consistency proofs: soundness *)
Ltac found :=
  match goal with
  | Hno : ¬ collision _, H : collision _ |- _ =>
      exfalso; apply Hno; eapply collision_mono; [|exact H]; set_solver
  end.
Section soundness.
Context {SHA : Digest}.

(** What the frontier computes, with the hashes it was given as leaves. *)
Inductive expr := Raw (h : string) | Join (l r : expr).
Fixpoint eval (e : expr) : string :=
  match e with Raw h => h | Join l r => hash_children (eval l) (eval r) end.
Fixpoint raws (e : expr) : list string :=
  match e with Raw h => [h] | Join l r => raws l ++ raws r end.
Fixpoint expr_inputs (e : expr) : list string :=
  match e with
  | Raw _ => []
  | Join l r => children_input (eval l) (eval r) :: expr_inputs l ++ expr_inputs r
  end.
Notation all_inputs es := (mjoin (expr_inputs <$> es)).
(** A stack, its top first, and the expressions of its blocks in log order. *)
Definition explains (stack : list MerkleRangeNode) (es : list expr) : Prop :=
  hash <$> stack = eval <$> rev es.

Lemma merge_top_explains stack es rnode e :
  explains stack es → hash rnode = eval e →
  ∃ es', explains (merge_top stack rnode) es' ∧ mjoin (raws <$> es') = mjoin (raws <$> es) ++ raws e
    ∧ all_inputs es' ⊆ all_inputs es ++ expr_inputs e ++ merge_inputs stack rnode.
Proof.
  revert es rnode e. induction stack as [|lnode stack IH]; intros es rnode e Hs He.
  - exists (es ++ [e]). split; [|split].
    + unfold explains in *. rewrite rev_app_distr. csimpl. by rewrite <- Hs, He.
    + rewrite fmap_app, join_app. csimpl. by rewrite app_nil_r.
    + rewrite fmap_app, join_app. csimpl. set_solver.
  - cbn [merge_top merge_inputs]. case_bool_decide.
    + exists (es ++ [e]). split; [|split].
      * unfold explains in *. rewrite rev_app_distr. csimpl. by rewrite <- Hs, He.
      * rewrite fmap_app, join_app. csimpl. by rewrite app_nil_r.
      * rewrite fmap_app, join_app. csimpl. set_solver.
    + destruct es as [|el es _] using rev_ind; [done|].
      unfold explains in Hs. rewrite rev_app_distr in Hs. csimpl in Hs. injection Hs as Hl Hs.
      destruct (IH es {| start := start lnode; size := size lnode * 2;
                         hash := hash_children (hash lnode) (hash rnode) |} (Join el e))
        as (es' & H1 & H2 & H3); [done|simpl; by rewrite Hl, He|].
      exists es'. split; [done|]. split.
      * rewrite H2. simpl. rewrite fmap_app, join_app. csimpl. by rewrite app_nil_r, app_assoc.
      * etrans; [exact H3|]. rewrite fmap_app, join_app. csimpl. rewrite Hl, He. set_solver.
Qed.
Lemma frontier_loop_explains nodes cursor stack es c' stack' :
  explains stack es → frontier_loop nodes cursor stack = Some (c', stack') →
  ∃ es', explains stack' es' ∧ mjoin (raws <$> es') = mjoin (raws <$> es) ++ (hash <$> nodes)
    ∧ all_inputs es' ⊆ all_inputs es ++ frontier_inputs nodes stack
    ∧ stack' = foldl merge_top stack nodes.
Proof.
  revert cursor stack es. induction nodes as [|node nodes IH]; intros cursor stack es Hs H.
  - injection H as _ <-. exists es. csimpl. rewrite !app_nil_r. done.
  - cbn [frontier_loop] in H. destruct (_ || _); [done|].
    destruct (checked_add_usize _ _) as [c|]; [|done]. simpl in H.
    destruct (merge_top_explains stack es node (Raw (hash node))) as (es1 & H1 & E1 & I1); [done..|].
    destruct (IH _ _ _ H1 H) as (es2 & H2 & E2 & I2 & ->).
    exists es2. split; [done|]. split; [by rewrite E2, E1, <- app_assoc|]. split; [|done].
    cbn [frontier_inputs expr_inputs app] in *. set_solver.
Qed.
Lemma fold_stack_explains stack es root :
  explains stack es → fold_stack stack = Some root →
  ∃ e, eval e = root ∧ raws e = mjoin (raws <$> es) ∧ expr_inputs e ⊆ all_inputs es ++ stack_inputs stack.
Proof.
  unfold explains, fold_stack. destruct stack as [|top rest]; [done|]. intros Hs [= <-]. cbn [stack_inputs].
  destruct es as [|e es _] using rev_ind; [done|].
  rewrite rev_app_distr in Hs. csimpl in Hs. injection Hs as -> Hs.
  rewrite !fmap_app, !join_app. csimpl. rewrite !app_nil_r.
  revert e rest Hs. induction es as [|e' es IH] using rev_ind; intros e rest Hs.
  - destruct rest; [|done]. exists e. split_and!; [done|done|]. csimpl. set_solver.
  - rewrite rev_app_distr in Hs. csimpl in Hs. destruct rest as [|r rest]; [done|].
    csimpl in Hs. injection Hs as Hr Hs. cbn [foldl fold_inputs].
    destruct (IH (Join e' e) rest Hs) as (x & Hx & Hx' & Hi).
    exists x. split_and!; [simpl in Hx; by rewrite Hx, Hr| |].
    + rewrite Hx', fmap_app, join_app. csimpl. by rewrite app_nil_r, app_assoc.
    + etrans; [exact Hi|]. rewrite !fmap_app, !join_app. csimpl. rewrite Hr. clear. set_solver.
Qed.
Lemma root_from_frontier_explains nodes n root :
  root_from_frontier nodes n = Some root →
  (nodes = [] ∧ root = sha256_hex "")
  ∨ ∃ e, eval e = root ∧ raws e = hash <$> nodes ∧ expr_inputs e ⊆ verify_inputs nodes.
Proof.
  unfold root_from_frontier. case_decide.
  - case_decide; [|done]. intros [= <-]. by left.
  - destruct (frontier_loop nodes 0 []) as [[c stack]|] eqn:E; [|done]. simpl.
    case_decide; [|done]. intros Hf. right.
    destruct (frontier_loop_explains nodes 0 [] [] c stack) as (es & H1 & H2 & H3 & ->); [reflexivity|done|].
    destruct (fold_stack_explains _ _ _ H1 Hf) as (e & He & Hr & Hi).
    exists e. split; [done|]. split; [by rewrite Hr, H2|]. unfold verify_inputs. set_solver.
Qed.

Lemma raws_not_nil e : raws e ≠ [].
Proof. induction e as [|l IH r _]; simpl; [done|]. by intros [? _]%app_nil. Qed.

(** An expression over digests with the root of a tree cuts the tree into subtrees. *)
Lemma eval_length e : Forall (λ h, String.length h = 64) (raws e) → String.length (eval e) = 64.
Proof.
  destruct e; simpl; [by inversion 1|intros _; apply sha256_hex_length].
Qed.
Lemma expr_subtrees e t :
  Forall (λ h, String.length h = 64) (raws e) → eval e = tree_hash t →
  (∃ ts, tree_hash <$> ts = raws e ∧ mjoin (leaves <$> ts) = leaves t
         ∧ mjoin (tree_inputs <$> ts) ⊆ tree_inputs t)
  ∨ collision (expr_inputs e ++ tree_inputs t).
Proof.
  revert t. induction e as [h|l IHl r IHr]; simpl; intros t Hd He.
  - left. exists [t]. csimpl. by rewrite He, !app_nil_r.
  - apply Forall_app in Hd as [Hl Hr]. destruct t as [s|t1 t2]; simpl in He.
    { right. eapply collision_mono; [|by eapply children_not_leaf]. set_solver. }
    apply hash_children_inj in He as [[H1 H2]|]; [|wider|].
    2: { left. by rewrite eval_length, tree_hash_length. }
    destruct (IHl t1 Hl H1) as [(ts1 & E1 & L1 & I1)|]; [|wider].
    destruct (IHr t2 Hr H2) as [(ts2 & E2 & L2 & I2)|]; [|wider].
    left. exists (ts1 ++ ts2). rewrite !fmap_app, !join_app, E1, E2, L1, L2. split_and!; [done|done|].
    simpl. set_solver.
Qed.
Lemma tree_hashes_inj (ts us : list tree) :
  tree_hash <$> ts = tree_hash <$> us →
  ts = us ∨ collision (mjoin (tree_inputs <$> ts) ++ mjoin (tree_inputs <$> us)).
Proof.
  revert us. induction ts as [|t ts IH]; intros [|u us]; csimpl; try done; [by left|].
  intros [= Ht Hts]. apply tree_hash_inj in Ht as [->|]; [|wider].
  apply IH in Hts as [->|]; [by left|wider].
Qed.
Lemma frontier_subtrees nodes n l :
  l ≠ [] → Forall (λ node, String.length (hash node) = 64) nodes →
  root_from_frontier nodes n = Some (merkle_root l) →
  (∃ ts, tree_hash <$> ts = hash <$> nodes ∧ mjoin (leaves <$> ts) = l
         ∧ mjoin (tree_inputs <$> ts) ⊆ root_inputs l)
  ∨ collision (root_inputs l ++ verify_inputs nodes).
Proof.
  intros Hl Hd H. destruct (tree_of l Hl) as (t & Ht & Hlv & Hi).
  apply root_from_frontier_explains in H as [[-> Hr]|(e & He & Hr & Hie)].
  - right. rewrite <- Hi. eapply collision_mono; [|apply (tree_not_empty t); by rewrite Ht].
    unfold verify_inputs. set_solver.
  - unfold merkle_root in He. rewrite <- Ht in He.
    destruct (expr_subtrees e t) as [(ts & E & L & I)|]; [|done| |].
    + by rewrite Hr, Forall_fmap.
    + left. exists ts. by rewrite E, L, Hr, <- Hi.
    + rewrite <- Hi. wider.
Qed.
Lemma merkle_root_empty l : merkle_root l = sha256_hex "" → l = [] ∨ collision (root_inputs l ++ [""]).
Proof.
  intros H. destruct (decide (l = [])) as [->|Hl]; [by left|right].
  destruct (tree_of l Hl) as (t & Ht & _ & <-). apply (tree_not_empty t). by rewrite Ht.
Qed.
Lemma frontier_empty nodes n :
  root_from_frontier nodes n = Some (merkle_root []) →
  nodes = [] ∨ (∃ node, nodes = [node] ∧ hash node = sha256_hex "") ∨ collision (verify_inputs nodes).
Proof.
  intros [[-> _]|(e & He & Hr & Hi)]%root_from_frontier_explains; [by left|right].
  destruct e as [h|el er].
  - left. destruct nodes as [|node [|]]; try done. injection Hr as Hr.
    exists node. split; [done|]. by rewrite <- Hr.
  - right. apply sha256_inj in He as [|]; [done|]. eapply collision_mono; [|done].
    unfold verify_inputs in *. simpl in Hi. set_solver.
Qed.

(** (C29) Consistency proofs are sound: when a proof whose hashes have the 64
    characters of digests, which the verifier does not check, verifies against the
    roots of two logs, the first log is an initial part of the second, whatever sizes
    and positions the proof claims, unless two of the inputs that were hashed for the
    two roots and for the verification have one SHA-256 digest. The log can therefore
    not be rewritten between two checkpoints for which such a proof is given. *)
Theorem merkle_consistency_sound proof older newer :
  Forall (λ node, String.length (hash node) = 64) (prefix proof ++ suffix proof) →
  ¬ collision (root_inputs older ++ root_inputs newer ++ consistency_inputs proof) →
  verify_merkle_consistency proof (merkle_root older) (merkle_root newer) = true →
  older `prefix_of` newer.
Proof.
  intros Hd Hno. unfold verify_merkle_consistency. destruct (_ <? _); [done|].
  intros [H1%bool_decide_eq_true H2%bool_decide_eq_true]%andb_true_iff.
  destruct (decide (older = [])) as [->|Ho]; [apply prefix_nil|].
  unfold consistency_inputs in Hno.
  destruct (decide (newer = [])) as [->|Hn].
  - assert (merkle_root older = sha256_hex "") as Hroot.
    { apply root_from_frontier_explains in H1 as [[_ H1]|(e & He & Hr & Hi)]; [done|].
      assert (prefix proof ≠ []) as Hne.
      { intros E. rewrite E in Hr. by apply raws_not_nil in Hr. }
      apply frontier_empty in H2 as [[E _]%app_nil|[(node & E & Hh)|]]; [done| |found].
      destruct (prefix proof) as [|node' [|]]; try done. injection E as -> _.
      rewrite <- He. destruct e as [h|l r]; [by injection Hr as ->|].
      simpl in Hr. pose proof (raws_not_nil l). pose proof (raws_not_nil r).
      by destruct (raws l) as [|? []], (raws r). }
    apply merkle_root_empty in Hroot as [->|]; [apply prefix_nil|].
    unfold verify_inputs in Hno. found.
  - apply Forall_app in Hd as Hd'. destruct Hd' as [Hdp _].
    apply frontier_subtrees in H1 as [(ts & E1 & L1 & I1)|]; [|found|done..].
    apply frontier_subtrees in H2 as [(us & E2 & L2 & I2)|]; [|found|done..].
    rewrite fmap_app in E2.
    assert (tree_hash <$> take (length ts) us = tree_hash <$> ts) as E.
    { rewrite fmap_take, E2, E1. apply take_app_length'. rewrite <- E1. by rewrite length_fmap. }
    rewrite <- (take_drop (length ts) us), fmap_app, join_app in I2.
    apply tree_hashes_inj in E as [E|]; [|found].
    rewrite <- L1, <- L2, <- (take_drop (length ts) us), E, fmap_app, join_app. by eexists.
Qed.
End soundness.

(** ** Consistency proofs: completeness *)
Section completeness.
Context {SHA : Digest}.

Lemma pow2_divide j k : j ≤ k → (2 ^ j | 2 ^ k).
Proof. intros H. exists (2 ^ (k - j)). rewrite <- Nat.pow_add_r. f_equal. lia. Qed.
Lemma pow2_pos k : 0 < 2 ^ k.
Proof. pose proof (Nat.pow_nonzero 2 k). lia. Qed.
Lemma highest_power_spec n : 0 < n → ∃ k, highest_power n = 2 ^ k ∧ 2 ^ k ≤ n.
Proof. intros H. exists (Nat.log2 n). split; [done|]. by apply Nat.log2_spec. Qed.
Lemma is_power_of_two_pow k : is_power_of_two (2 ^ k) = true.
Proof.
  unfold is_power_of_two, highest_power. pose proof (pow2_pos k).
  rewrite (proj2 (Nat.eqb_neq _ _)) by lia. rewrite Nat.log2_pow2 by lia. by rewrite Nat.eqb_refl.
Qed.
Lemma trailing_zeros_divide n : 0 < n → (2 ^ trailing_zeros n | n).
Proof.
  intros Hn. unfold trailing_zeros. destruct (N.of_nat n) as [|p] eqn:E; [lia|].
  assert (n = Pos.to_nat p) as -> by lia. clear.
  induction p as [p IH|p [q Hq]|]; simpl pos_trailing_zeros; [apply Nat.divide_1_l| |by exists 1].
  exists q. rewrite Pos2Nat.inj_xO, Hq, Nat.pow_succ_r'. lia.
Qed.
Lemma shrink_id fuel size cursor stop : cursor + size ≤ stop → shrink fuel size cursor stop = size.
Proof. intros H. destruct fuel; [done|]. cbn [shrink]. by rewrite (proj2 (Nat.ltb_ge _ _)). Qed.
Lemma range_size_spec cursor stop :
  cursor < stop →
  ∃ k, range_size cursor stop = 2 ^ k ∧ (2 ^ k | cursor) ∧ cursor + 2 ^ k ≤ stop.
Proof.
  intros H. unfold range_size.
  destruct (highest_power_spec (stop - cursor)) as (h & Eh & Hh); [lia|]. rewrite Eh.
  destruct (Nat.eqb_spec cursor 0) as [->|Hc].
  - exists h. rewrite Nat.min_id, shrink_id by lia. split; [done|]. split; [apply Nat.divide_0_r|lia].
  - set (t := trailing_zeros cursor).
    assert (2 ^ t `min` 2 ^ h = 2 ^ (t `min` h)) as ->.
    { destruct (Nat.le_ge_cases t h).
      - rewrite !Nat.min_l; [done|done|by apply Nat.pow_le_mono_r].
      - rewrite !Nat.min_r; [done|done|by apply Nat.pow_le_mono_r]. }
    assert (2 ^ (t `min` h) ≤ 2 ^ h) by (apply Nat.pow_le_mono_r; lia).
    exists (t `min` h). rewrite shrink_id by lia. split; [done|]. split; [|lia].
    etrans; [apply pow2_divide, Nat.le_min_l|]. apply trailing_zeros_divide. lia.
Qed.

Context (hashes : list string).
Definition slice (a b : nat) : list string := take (b - a) (drop a hashes).
Definition block (a k : nat) : MerkleRangeNode :=
  {| start := a; size := 2 ^ k; hash := subtree_root (slice a (a + 2 ^ k)) |}.

Lemma length_slice a b : a ≤ b → b ≤ length hashes → length (slice a b) = b - a.
Proof. intros. unfold slice. rewrite length_take, length_drop. lia. Qed.
Lemma slice_app a b c : a ≤ b → b ≤ c → slice a c = slice a b ++ slice b c.
Proof.
  intros. unfold slice. rewrite <- (take_drop (b - a) (take (c - a) (drop a hashes))).
  rewrite take_take, skipn_firstn_comm, drop_drop.
  replace ((b - a) `min` (c - a)) with (b - a) by lia.
  replace (a + (b - a)) with b by lia. by replace (c - a - (b - a)) with (c - b) by lia.
Qed.

(** A range as aligned blocks whose sizes are powers of two. *)
Inductive blocks : nat → nat → list MerkleRangeNode → Prop :=
  | blocks_nil a : blocks a a []
  | blocks_cons a k b l :
      (2 ^ k | a) → a + 2 ^ k ≤ b → blocks (a + 2 ^ k) b l → blocks a b (block a k :: l).

Lemma blocks_app a b c l1 l2 : blocks a b l1 → blocks b c l2 → b ≤ c → blocks a c (l1 ++ l2).
Proof.
  intros H ? ?. induction H as [|a k b l1 Hd Hle _ IH]; [done|]. simpl.
  apply blocks_cons; [done|lia|]. by apply IH.
Qed.
Lemma compact_loop_blocks fuel a b :
  a ≤ b → b - a ≤ fuel → blocks a b (compact_loop fuel hashes a b).
Proof.
  revert a. induction fuel as [|fuel IH]; intros a Hab Hf.
  { assert (a = b) as -> by lia. apply blocks_nil. }
  cbn [compact_loop]. destruct (Nat.ltb_spec a b) as [Hlt|].
  - destruct (range_size_spec a b Hlt) as (k & -> & Hd & Hle). pose proof (pow2_pos k).
    replace (take (2 ^ k) (drop a hashes)) with (slice a (a + 2 ^ k))
      by (unfold slice; f_equal; lia).
    apply (blocks_cons a k); [done|done|]. apply IH; lia.
  - assert (a = b) as -> by lia. apply blocks_nil.
Qed.

(** The stack after a cursor: blocks of falling sizes, the smallest on top. *)
Inductive stacked : nat → list MerkleRangeNode → Prop :=
  | stacked_nil : stacked 0 []
  | stacked_cons s k st : stacked s st → (2 ^ S k | s) → stacked (s + 2 ^ k) (block s k :: st).

Lemma divide_le_exp j k s : (2 ^ j | s + 2 ^ k) → (2 ^ S k | s) → j ≤ k.
Proof.
  intros Hj Hk. destruct (decide (j ≤ k)) as [|Hlt]; [done|exfalso].
  assert (2 ^ S k | s + 2 ^ k) as H.
  { etrans; [|exact Hj]. apply pow2_divide. lia. }
  apply Nat.divide_add_cancel_r in H; [|done]. apply Nat.divide_pos_le in H; [|apply pow2_pos].
  rewrite Nat.pow_succ_r' in H. pose proof (pow2_pos k). lia.
Qed.
Lemma subtree_root_join a k :
  a + 2 ^ S k ≤ length hashes →
  hash_children (subtree_root (slice a (a + 2 ^ k)))
    (subtree_root (slice (a + 2 ^ k) (a + 2 ^ k + 2 ^ k))) = subtree_root (slice a (a + 2 ^ S k)).
Proof.
  intros H. rewrite Nat.pow_succ_r' in *. pose proof (pow2_pos k).
  rewrite (subtree_root_split (slice a (a + 2 * 2 ^ k))) by (rewrite length_slice; lia).
  rewrite length_slice by lia. replace (a + 2 * 2 ^ k - a) with (2 * 2 ^ k) by lia.
  rewrite (split_point_pow k) by (rewrite Nat.pow_succ_r'; lia).
  rewrite (slice_app a (a + 2 ^ k) (a + 2 * 2 ^ k)) by lia.
  assert (length (slice a (a + 2 ^ k)) = 2 ^ k) as Hl by (rewrite length_slice; lia).
  rewrite take_app_length', drop_app_length' by done.
  by replace (a + 2 ^ k + 2 ^ k) with (a + 2 * 2 ^ k) by lia.
Qed.
Lemma merge_top_stacked st s k :
  stacked s st → (2 ^ k | s) → s + 2 ^ k ≤ length hashes →
  stacked (s + 2 ^ k) (merge_top st (block s k)).
Proof.
  intros H. revert k. induction H as [|s j st Hst IH Hj]; intros k Hk Hlen.
  - apply (stacked_cons 0 k []); [constructor|apply Nat.divide_0_r].
  - cbn [merge_top start size block]. apply divide_le_exp in Hk as Hle; [|done].
    pose proof (pow2_pos j). pose proof (pow2_pos k).
    destruct (decide (j = k)) as [->|Hne].
    + rewrite bool_decide_false.
      2: { intros [Hn|[Hn|Hn]]; [done|done|]. apply Hn.
           apply Nat.Lcm0.mod_divide. by rewrite Nat.mul_comm, <- Nat.pow_succ_r'. }
      assert (Hlen' : s + 2 ^ S k ≤ length hashes) by (rewrite Nat.pow_succ_r'; lia).
      assert (E : {| start := s; size := 2 ^ k * 2;
                     hash := hash_children (hash (block s k)) (hash (block (s + 2 ^ k) k)) |}
                  = block s (S k)).
      { unfold block. f_equal; [rewrite Nat.pow_succ_r'; lia|]. simpl hash.
        by apply subtree_root_join. }
      cbn [hash block] in E |- *. rewrite E.
      replace (s + 2 ^ k + 2 ^ k) with (s + 2 ^ S k) by (rewrite Nat.pow_succ_r'; lia).
      by apply IH.
    + rewrite bool_decide_true.
      2: { left. intros E%Nat.pow_inj_r; [done|lia]. }
      apply stacked_cons; [by apply stacked_cons|].
      apply Nat.divide_add_r; [etrans; [|exact Hj]|]; apply pow2_divide; lia.
Qed.
Lemma frontier_loop_stacked nodes a b st :
  blocks a b nodes → stacked a st → b ≤ length hashes → (Z.of_nat (length hashes) ≤ usize_max)%Z →
  ∃ st', frontier_loop nodes a st = Some (b, st') ∧ stacked b st'.
Proof.
  intros H. revert st. induction H as [a|a k b l Hd Hle _ IH]; intros st Hst Hb Hu; [by exists st|].
  cbn [frontier_loop]. pose proof (pow2_pos k).
  rewrite bool_decide_false by (cbn [start size block]; lia).
  cbn [start size block]. rewrite is_power_of_two_pow. simpl orb.
  unfold checked_add_usize. rewrite decide_True by lia. simpl mbind.
  apply IH; [|done|done]. apply merge_top_stacked; [done|done|lia].
Qed.

Lemma fold_from_stacked s st c m :
  stacked s st → s < c → c ≤ length hashes → c - s < 2 ^ m → (2 ^ m | s) →
  foldl (λ root node, hash_children (hash node) root) (subtree_root (slice s c)) st =
  subtree_root (slice 0 c).
Proof.
  intros H. revert m. induction H as [|s k st Hst IH Hk]; intros m Hc Hlen Hm Hd; [done|].
  apply divide_le_exp in Hd as Hle; [|done]. pose proof (pow2_pos k).
  assert (2 ^ m ≤ 2 ^ k) by (by apply Nat.pow_le_mono_r).
  cbn [foldl hash block].
  assert (E : hash_children (subtree_root (slice s (s + 2 ^ k))) (subtree_root (slice (s + 2 ^ k) c))
              = subtree_root (slice s c)).
  { rewrite (subtree_root_split (slice s c)) by (rewrite length_slice; lia).
    rewrite length_slice by lia. rewrite (split_point_pow k) by (rewrite Nat.pow_succ_r'; lia).
    rewrite (slice_app s (s + 2 ^ k) c) by lia.
    assert (length (slice s (s + 2 ^ k)) = 2 ^ k) as Hl by (rewrite length_slice; lia).
    by rewrite take_app_length', drop_app_length' by done. }
  rewrite E. apply (IH (S k)); [lia|done| |done]. rewrite Nat.pow_succ_r'. lia.
Qed.
Lemma fold_stack_stacked c st :
  stacked c st → 0 < c → c ≤ length hashes → fold_stack st = Some (subtree_root (take c hashes)).
Proof.
  intros [|s k st' Hst Hk] Hc Hlen; [lia|]. cbn [fold_stack hash block]. f_equal.
  pose proof (pow2_pos k).
  rewrite (fold_from_stacked s st' (s + 2 ^ k) (S k)); [|done|lia|done|rewrite Nat.pow_succ_r'; lia|done].
  unfold slice. by rewrite Nat.sub_0_r, drop_0.
Qed.
Lemma root_from_frontier_blocks b nodes :
  blocks 0 b nodes → b ≤ length hashes → (Z.of_nat (length hashes) ≤ usize_max)%Z →
  root_from_frontier nodes b = Some (merkle_root (take b hashes)).
Proof.
  intros H Hb Hu. unfold root_from_frontier. destruct (decide (b = 0)) as [->|Hne].
  - assert (nodes = []) as -> by (inversion H as [|? k]; [done|pose proof (pow2_pos k); lia]).
    by rewrite decide_True.
  - destruct (frontier_loop_stacked nodes 0 b []) as (st & -> & Hst); [done|constructor|done..|].
    simpl. rewrite decide_True by done. apply fold_stack_stacked; [done|lia|done].
Qed.

Lemma compact_range_digests a b :
  Forall (λ node, String.length (hash node) = 64) (compact_range hashes a b).
Proof.
  unfold compact_range. generalize (b - a). intros fuel. revert a.
  induction fuel as [|fuel IH]; intros a; simpl; [constructor|].
  destruct (a <? b); [|constructor]. constructor; [apply subtree_root_length|apply IH].
Qed.

(** Consistency proofs are complete: for every earlier size of a log the proof
    exists and verifies against the roots at that size and now; for a later size there
    is none. *)
Theorem merkle_consistency_complete from :
  (Z.of_nat (length hashes) ≤ usize_max)%Z →
  match merkle_consistency_proof hashes from with
  | Some proof =>
      from ≤ length hashes
      ∧ from_size proof = from ∧ to_size proof = length hashes
      ∧ verify_merkle_consistency proof (merkle_root (take from hashes)) (merkle_root hashes) = true
  | None => length hashes < from
  end.
Proof.
  intros Hu. unfold merkle_consistency_proof. case_decide as Hf; [done|].
  split; [lia|]. split; [done|]. split; [done|]. unfold verify_merkle_consistency. simpl.
  rewrite (proj2 (Nat.ltb_ge _ _)) by lia.
  assert (H1 : blocks 0 from (compact_range hashes 0 from)) by (apply compact_loop_blocks; lia).
  assert (H2 : blocks from (length hashes) (compact_range hashes from (length hashes)))
    by (apply compact_loop_blocks; lia).
  rewrite (root_from_frontier_blocks from) by (done || lia).
  rewrite (root_from_frontier_blocks (length hashes)); [|eapply blocks_app; [done|done|lia]|done|done].
  rewrite firstn_all. by rewrite !bool_decide_true.
Qed.
End completeness.

(** ** Instances *)
Section example.
#[local] Existing Instance sum_digest.
Definition events : list string := ["e0"; "e1"; "e2"; "e3"; "e4"].

Lemma merkle_inclusion_spec_witness :
  let proof := inclusion_path 5 events 3 in
  merkle_inclusion_proof events 3 = Some proof ∧ events !! 3 = Some "e3"
  ∧ verify_merkle_inclusion "e3" 3 5 proof (merkle_root events) = true.
Proof.
  intros proof. split; [reflexivity|]. split; [reflexivity|].
  exact (proj2 (proj1 (proj2 (merkle_inclusion_spec events 3 "e3")) proof eq_refl eq_refl)).
Defined.
Lemma merkle_consistency_complete_witness :
  (Z.of_nat (length events) ≤ usize_max)%Z
  ∧ match merkle_consistency_proof events 3 with
    | Some proof =>
        length (prefix proof ++ suffix proof) = 4
        ∧ verify_merkle_consistency proof (merkle_root (take 3 events)) (merkle_root events) = true
    | None => False
    end.
Proof.
  assert (Z.of_nat (length events) ≤ usize_max)%Z as Hu by (vm_compute; discriminate).
  split; [exact Hu|]. pose proof (merkle_consistency_complete events 3 Hu) as H.
  unfold merkle_consistency_proof in *. rewrite decide_False in * by (simpl; lia).
  split; [reflexivity|]. exact (proj2 (proj2 (proj2 H))).
Defined.
Lemma merkle_consistency_sound_witness :
  match merkle_consistency_proof events 3 with
  | Some proof =>
      ¬ collision (root_inputs (take 3 events) ++ root_inputs events ++ consistency_inputs proof)
      ∧ verify_merkle_consistency proof (merkle_root (take 3 events)) (merkle_root events) = true
      ∧ take 3 events `prefix_of` events
  | None => False
  end.
Proof.
  pose proof (merkle_consistency_complete events 3 ltac:(vm_compute; discriminate)) as H.
  destruct (merkle_consistency_proof events 3) as [proof|] eqn:E; [|simpl in H; lia].
  assert (¬ collision (root_inputs (take 3 events) ++ root_inputs events ++ consistency_inputs proof)) as Hno.
  { vm_compute in E. injection E as <-. apply (bool_decide_unpack _). by vm_compute. }
  split; [exact Hno|]. split; [apply H|].
  apply (merkle_consistency_sound proof); [|exact Hno|apply H].
  unfold merkle_consistency_proof in E. rewrite decide_False in E by (simpl; lia).
  injection E as <-. apply Forall_app. split; apply compact_range_digests.
Defined.
End example.
