(* ===== verification/Contracts.v ===== *)
(** * oath-contracts

    The signed documents oath exchanges ([crates/oath-contracts/src/lib.rs]): their
    JSON, the canonical encoding that is hashed and signed, and the verification of
    a detached signature. The text of a JSON string, Ed25519 and base64 are library
    code and enter as the interfaces [JsonText], [Ed25519] and [Base64]. *)
From S2P Require Export Json Transparency.

(** ** Data *)

Definition EXEC_ASSESSMENT_VERSION : Z := 3.
Definition PUBLISH_ASSESSMENT_VERSION : Z := 2.
Definition REGISTRY_VERDICT_VERSION : Z := 1.

Inductive Decision := Allow | Deny | Review | Unknown.
#[export] Instance Decision_eq_dec : EqDecision Decision.
Proof. solve_decision. Defined.
Definition decision_str (d : Decision) : string :=
  match d with Allow => "allow" | Deny => "deny" | Review => "review" | Unknown => "unknown" end.

Inductive ReasonCode :=
  | ExecAllowed | ExecGradeBelowRequired | ExecReleaseTooNew | PublishAllowed
  | PublishSecretDetected | RegistryAllowed | RegistryCriticalBehavior
  | RegistryReviewRequired | RegistrySecretDetected | RegistryUnknown.
#[export] Instance ReasonCode_eq_dec : EqDecision ReasonCode.
Proof. solve_decision. Defined.
Definition reason_str (r : ReasonCode) : string :=
  match r with
  | ExecAllowed => "OATH_EXEC_ALLOWED"
  | ExecGradeBelowRequired => "OATH_EXEC_GRADE_BELOW_REQUIRED"
  | ExecReleaseTooNew => "OATH_EXEC_RELEASE_TOO_NEW"
  | PublishAllowed => "OATH_PUBLISH_ALLOWED"
  | PublishSecretDetected => "OATH_PUBLISH_SECRET_DETECTED"
  | RegistryAllowed => "OATH_REGISTRY_ALLOWED"
  | RegistryCriticalBehavior => "OATH_REGISTRY_CRITICAL_BEHAVIOR"
  | RegistryReviewRequired => "OATH_REGISTRY_REVIEW_REQUIRED"
  | RegistrySecretDetected => "OATH_REGISTRY_SECRET_DETECTED"
  | RegistryUnknown => "OATH_REGISTRY_UNKNOWN"
  end.

Record DetachedSignature := {
  algorithm : string;
  canonicalization : string;
  public_key : string;
  signature : string;
}.
Record PackageIdentity := {
  id_name : string;
  id_version : string;
  id_registry : string;
  id_integrity : option string;
  id_publisher : option string;
  id_publish_age_days : option N;
  id_repository : option string;
}.
Record VersionDiff := {
  vd_previous_version : string;
  vd_previous_integrity : option string;
  vd_publisher_changed : option bool;
  vd_lifecycle_hooks_changed : bool;
}.
Record PackageEvidence := {
  ev_unpacked_bytes : N;
  ev_dependency_count : N;
  ev_readable_source : bool;
  ev_obfuscated : bool;
  ev_native_code : bool;
  ev_lifecycle_hooks : bool;
  ev_capabilities : list string;
  ev_findings : list string;
  ev_limitations : list string;
  ev_version_diff : option VersionDiff;
}.
Record PolicyDecision := {
  pd_decision : Decision;
  pd_reason_code : ReasonCode;
  pd_grade : string;
  pd_score : N;
}.
Record SandboxEvidence := {
  sb_backend : string;
  sb_available : bool;
  sb_filesystem_isolation : bool;
  sb_network_isolation : bool;
  sb_process_isolation : bool;
  sb_resource_limits : bool;
  sb_degraded_reason : option string;
}.
Record ExecAssessmentV3 := {
  ea_schema_version : N;
  ea_generated_at : N;
  ea_expires_at : N;
  ea_identity : PackageIdentity;
  ea_evidence : PackageEvidence;
  ea_policy : PolicyDecision;
  ea_sandbox : SandboxEvidence;
  ea_policy_digest : string;
  ea_evidence_digest : string;
  ea_rule_bundle_version : string;
  ea_signature : option DetachedSignature;
}.
Record PublishFile := { pf_path : string; pf_bytes : N; pf_sha256 : string }.
Record PublishDiff := {
  df_previous_version : string;
  df_added_files : list string;
  df_removed_files : list string;
  df_changed_files : list string;
  df_capabilities_added : list string;
  df_capabilities_removed : list string;
}.
Record PublishAssessmentV2 := {
  pa_schema_version : N;
  pa_generated_at : N;
  pa_expires_at : N;
  pa_name : string;
  pa_version : string;
  pa_tag : string;
  pa_access : option string;
  pa_package_digest : string;
  pa_unpacked_bytes : N;
  pa_files : list PublishFile;
  pa_dependency_count : N;
  pa_lifecycle_hooks : list string;
  pa_capabilities : list string;
  pa_source_available : bool;
  pa_secret_findings : list string;
  pa_decision : Decision;
  pa_reason_code : ReasonCode;
  pa_previous_release : option PublishDiff;
  pa_policy_digest : string;
  pa_evidence_digest : string;
  pa_rule_bundle_version : string;
  pa_limitations : list string;
  pa_signature : option DetachedSignature;
}.
Record RegistryVerdictV1 := {
  rv_schema_version : N;
  rv_generated_at : N;
  rv_expires_at : N;
  rv_package : PackageIdentity;
  rv_decision : Decision;
  rv_reason_code : ReasonCode;
  rv_risk_score : N;
  rv_package_digest : string;
  rv_assessment_digest : string;
  rv_policy_digest : string;
  rv_rule_bundle_version : string;
  rv_limitations : list string;
  rv_signature : option DetachedSignature;
}.

(** ** Their JSON: the fields by name, an absent option as [null] *)

Definition jnat (n : N) : Json := JNumber (pretty n).
Definition jopt {A} (f : A → Json) (o : option A) : Json :=
  match o with Some a => f a | None => JNull end.
Definition jstrings (l : list string) : Json := JArray (JString <$> l).

Definition signature_json (s : DetachedSignature) : Json := JObject
  [("algorithm", JString (algorithm s)); ("canonicalization", JString (canonicalization s));
   ("public_key", JString (public_key s)); ("signature", JString (signature s))].
Definition identity_json (p : PackageIdentity) : Json := JObject
  [("name", JString (id_name p)); ("version", JString (id_version p));
   ("registry", JString (id_registry p)); ("integrity", jopt JString (id_integrity p));
   ("publisher", jopt JString (id_publisher p));
   ("publish_age_days", jopt jnat (id_publish_age_days p));
   ("repository", jopt JString (id_repository p))].
Definition version_diff_json (d : VersionDiff) : Json := JObject
  [("previous_version", JString (vd_previous_version d));
   ("previous_integrity", jopt JString (vd_previous_integrity d));
   ("publisher_changed", jopt JBool (vd_publisher_changed d));
   ("lifecycle_hooks_changed", JBool (vd_lifecycle_hooks_changed d))].
Definition evidence_json (e : PackageEvidence) : Json := JObject
  [("unpacked_bytes", jnat (ev_unpacked_bytes e));
   ("dependency_count", jnat (ev_dependency_count e));
   ("readable_source", JBool (ev_readable_source e)); ("obfuscated", JBool (ev_obfuscated e));
   ("native_code", JBool (ev_native_code e)); ("lifecycle_hooks", JBool (ev_lifecycle_hooks e));
   ("capabilities", jstrings (ev_capabilities e)); ("findings", jstrings (ev_findings e));
   ("limitations", jstrings (ev_limitations e));
   ("version_diff", jopt version_diff_json (ev_version_diff e))].
Definition policy_json (p : PolicyDecision) : Json := JObject
  [("decision", JString (decision_str (pd_decision p)));
   ("reason_code", JString (reason_str (pd_reason_code p)));
   ("grade", JString (pd_grade p)); ("score", jnat (pd_score p))].
Definition sandbox_json (s : SandboxEvidence) : Json := JObject
  [("backend", JString (sb_backend s)); ("available", JBool (sb_available s));
   ("filesystem_isolation", JBool (sb_filesystem_isolation s));
   ("network_isolation", JBool (sb_network_isolation s));
   ("process_isolation", JBool (sb_process_isolation s));
   ("resource_limits", JBool (sb_resource_limits s));
   ("degraded_reason", jopt JString (sb_degraded_reason s))].
Definition exec_json (a : ExecAssessmentV3) : Json := JObject
  [("schema_version", jnat (ea_schema_version a)); ("generated_at", jnat (ea_generated_at a));
   ("expires_at", jnat (ea_expires_at a)); ("identity", identity_json (ea_identity a));
   ("evidence", evidence_json (ea_evidence a)); ("policy", policy_json (ea_policy a));
   ("sandbox", sandbox_json (ea_sandbox a)); ("policy_digest", JString (ea_policy_digest a));
   ("evidence_digest", JString (ea_evidence_digest a));
   ("rule_bundle_version", JString (ea_rule_bundle_version a));
   ("signature", jopt signature_json (ea_signature a))].
Definition file_json (f : PublishFile) : Json := JObject
  [("path", JString (pf_path f)); ("bytes", jnat (pf_bytes f)); ("sha256", JString (pf_sha256 f))].
Definition publish_diff_json (d : PublishDiff) : Json := JObject
  [("previous_version", JString (df_previous_version d));
   ("added_files", jstrings (df_added_files d)); ("removed_files", jstrings (df_removed_files d));
   ("changed_files", jstrings (df_changed_files d));
   ("capabilities_added", jstrings (df_capabilities_added d));
   ("capabilities_removed", jstrings (df_capabilities_removed d))].
Definition publish_json (a : PublishAssessmentV2) : Json := JObject
  [("schema_version", jnat (pa_schema_version a)); ("generated_at", jnat (pa_generated_at a));
   ("expires_at", jnat (pa_expires_at a)); ("name", JString (pa_name a));
   ("version", JString (pa_version a)); ("tag", JString (pa_tag a));
   ("access", jopt JString (pa_access a)); ("package_digest", JString (pa_package_digest a));
   ("unpacked_bytes", jnat (pa_unpacked_bytes a)); ("files", JArray (file_json <$> pa_files a));
   ("dependency_count", jnat (pa_dependency_count a));
   ("lifecycle_hooks", jstrings (pa_lifecycle_hooks a));
   ("capabilities", jstrings (pa_capabilities a));
   ("source_available", JBool (pa_source_available a));
   ("secret_findings", jstrings (pa_secret_findings a));
   ("decision", JString (decision_str (pa_decision a)));
   ("reason_code", JString (reason_str (pa_reason_code a)));
   ("previous_release", jopt publish_diff_json (pa_previous_release a));
   ("policy_digest", JString (pa_policy_digest a));
   ("evidence_digest", JString (pa_evidence_digest a));
   ("rule_bundle_version", JString (pa_rule_bundle_version a));
   ("limitations", jstrings (pa_limitations a));
   ("signature", jopt signature_json (pa_signature a))].
Definition verdict_json (v : RegistryVerdictV1) : Json := JObject
  [("schema_version", jnat (rv_schema_version v)); ("generated_at", jnat (rv_generated_at v));
   ("expires_at", jnat (rv_expires_at v)); ("package", identity_json (rv_package v));
   ("decision", JString (decision_str (rv_decision v)));
   ("reason_code", JString (reason_str (rv_reason_code v)));
   ("risk_score", jnat (rv_risk_score v)); ("package_digest", JString (rv_package_digest v));
   ("assessment_digest", JString (rv_assessment_digest v));
   ("policy_digest", JString (rv_policy_digest v));
   ("rule_bundle_version", JString (rv_rule_bundle_version v));
   ("limitations", jstrings (rv_limitations v));
   ("signature", jopt signature_json (rv_signature v))].

(** ** Interfaces of the library code *)

(** [serde_json::to_writer] of a string: a literal that begins with a quote and can
    be told apart from what follows it. *)
Class JsonText := {
  json_string : string → string;
  json_string_quote s : ∃ r, json_string s = String dquote r;
  json_string_read s t r r' :
    json_string s +:+ r = json_string t +:+ r' → s = t ∧ r = r';
}.
(** [base64]'s standard engine. *)
Class Base64 := {
  b64_encode : string → string;
  b64_decode : string → option string;
  b64_round_trip s : b64_decode (b64_encode s) = Some s;
}.
(** [ed25519_dalek]; keys and signatures as their bytes. *)
Class Ed25519 := {
  SigningKey : Type;
  verifying_key : SigningKey → string;
  ed_sign : SigningKey → string → string;
  valid_point : string → bool;
  ed_verify : string → string → string → bool;
  verifying_key_length k : String.length (verifying_key k) = 32;
  ed_sign_length k m : String.length (ed_sign k m) = 64;
  verifying_key_valid k : valid_point (verifying_key k) = true;
  ed_sign_verifies k m : ed_verify (verifying_key k) m (ed_sign k m) = true;
}.

Inductive ContractError :=
  | InvalidPublicKey
  | InvalidSignature
  | UnsupportedAlgorithm (name : string)
  | UnsupportedCanonicalization (name : string)
  | Base64Error.

(** ** The canonical encoding *)

(** [entries.sort_by_key(|(key, _)| *key)]: a stable sort. *)
Fixpoint insert_by_key {A} (e : string * A) (l : list (string * A)) : list (string * A) :=
  match l with
  | [] => [e]
  | f :: l' => if decide (String.le e.1 f.1) then e :: l else f :: insert_by_key e l'
  end.
Definition sort_by_key {A} (l : list (string * A)) : list (string * A) := foldr insert_by_key [] l.

Section contracts.
Context {SHA : Digest} {JT : JsonText} {B64 : Base64} {ED : Ed25519}.

Definition entry_text (e : string * string) : string := json_string e.1 +:+ ":" +:+ e.2.
Fixpoint write (value : Json) : string :=
  match value with
  | JNull => "null"
  | JBool b => if b then "true" else "false"
  | JNumber text => text
  | JString s => json_string s
  | JArray values => "[" +:+ join "," (write <$> values) +:+ "]"
  | JObject values =>
      "{" +:+ join "," (entry_text <$> sort_by_key ((λ '(k, v), (k, write v)) <$> values)) +:+ "}"
  end.
Definition canonical_json_bytes (value : Json) : string := write value.
Definition digest_json (value : Json) : string :=
  "sha256:" +:+ sha256_hex (canonical_json_bytes value).

Definition sign_json (value : Json) (key : SigningKey) : DetachedSignature := {|
  algorithm := "ed25519";
  canonicalization := "oath-json-v1";
  public_key := b64_encode (verifying_key key);
  signature := b64_encode (ed_sign key (canonical_json_bytes value)) |}.

(** [try_into] an array of [n] bytes *)
Definition array_of {E} (n : nat) (e : E) (s : string) : result E string :=
  if decide (String.length s = n) then Ok s else Err e.
Definition verify_json (value : Json) (detached : DetachedSignature) :
    result ContractError unit :=
  _ ← ensure (bool_decide (algorithm detached = "ed25519"))
        (UnsupportedAlgorithm (algorithm detached));
  _ ← ensure (bool_decide (canonicalization detached = "oath-json-v1"))
        (UnsupportedCanonicalization (canonicalization detached));
  key ← ok_or (b64_decode (public_key detached)) Base64Error;
  key ← array_of 32 InvalidPublicKey key;
  sig ← ok_or (b64_decode (signature detached)) Base64Error;
  sig ← array_of 64 InvalidSignature sig;
  _ ← ensure (valid_point key) InvalidPublicKey;
  ensure (ed_verify key (canonical_json_bytes value) sig) InvalidSignature.

Definition unsigned_exec (a : ExecAssessmentV3) : ExecAssessmentV3 :=
  let 'Build_ExecAssessmentV3 v g e i ev p s pd ed r _ := a in
  Build_ExecAssessmentV3 v g e i ev p s pd ed r None.
Definition verify_exec_assessment (a : ExecAssessmentV3) : result ContractError unit :=
  sig ← ok_or (ea_signature a) InvalidSignature;
  verify_json (exec_json (unsigned_exec a)) sig.
Definition unsigned_publish (a : PublishAssessmentV2) : PublishAssessmentV2 :=
  let 'Build_PublishAssessmentV2 v g e n ve t ac d u f dc lh c sa sf de rc pr pd ed rb l _ := a in
  Build_PublishAssessmentV2 v g e n ve t ac d u f dc lh c sa sf de rc pr pd ed rb l None.
Definition verify_publish_assessment (a : PublishAssessmentV2) : result ContractError unit :=
  sig ← ok_or (pa_signature a) InvalidSignature;
  verify_json (publish_json (unsigned_publish a)) sig.
Definition unsigned_verdict (a : RegistryVerdictV1) : RegistryVerdictV1 :=
  let 'Build_RegistryVerdictV1 v g e p d r s pd ad po rb l _ := a in
  Build_RegistryVerdictV1 v g e p d r s pd ad po rb l None.
Definition verify_registry_verdict (a : RegistryVerdictV1) : result ContractError unit :=
  sig ← ok_or (rv_signature a) InvalidSignature;
  verify_json (verdict_json (unsigned_verdict a)) sig.
End contracts.

(** ** Sorting by key *)

Lemma insert_by_key_map {A B} (f : A → B) e l :
  insert_by_key (prod_map id f e) (prod_map id f <$> l) = prod_map id f <$> insert_by_key e l.
Proof.
  induction l as [|x l IH]; [done|]. csimpl. destruct (decide (String.le e.1 x.1)) as [H|H]; csimpl;
    [done|by rewrite IH].
Qed.
Lemma sort_by_key_map {A B} (f : A → B) l :
  sort_by_key (prod_map id f <$> l) = prod_map id f <$> sort_by_key l.
Proof.
  induction l as [|e l IH]; [done|]. csimpl. unfold sort_by_key in *. rewrite IH.
  apply insert_by_key_map.
Qed.
Lemma insert_by_key_perm {A} (e : string * A) l : insert_by_key e l ≡ₚ e :: l.
Proof.
  induction l as [|x l IH]; [done|]. simpl. case_decide; [done|]. rewrite IH. constructor.
Qed.
Lemma sort_by_key_perm {A} (l : list (string * A)) : sort_by_key l ≡ₚ l.
Proof. induction l as [|e l IH]; [done|]. simpl. by rewrite insert_by_key_perm, IH. Qed.
Lemma sort_by_key_sorted {A} (l : list (string * A)) : Sorted String.le (sort_by_key l).*1.
Proof.
  induction l as [|e l IH]; [constructor|]. cbn [sort_by_key foldr]. fold (sort_by_key l).
  induction (sort_by_key l) as [|x m IHm]; [by repeat constructor|].
  cbn [insert_by_key]. destruct (decide (String.le e.1 x.1)) as [He|He].
  - csimpl. constructor; [done|]. by constructor.
  - csimpl in *. apply Sorted_inv in IH as [Hm Hh]. specialize (IHm Hm). csimpl.
    constructor; [done|]. destruct (total String.le e.1 x.1) as [|Hx]; [done|].
    destruct m as [|y m]; [by constructor|]. cbn [insert_by_key].
    case_decide; csimpl; constructor; [done|]. csimpl in Hh. by inversion Hh.
Qed.
(** The order of entries with distinct keys does not matter. *)
Lemma sort_by_key_ext {A} (l k : list (string * A)) :
  NoDup l.*1 → l ≡ₚ k → sort_by_key l = sort_by_key k.
Proof.
  intros Hn Hp. apply sorted_keys_unique.
  - by rewrite sort_by_key_perm.
  - by rewrite !sort_by_key_perm.
  - apply sort_by_key_sorted.
  - apply sort_by_key_sorted.
Qed.
Lemma sort_by_key_keys {A} (l : list (string * A)) :
  NoDup l.*1 → sort_by_key (sort_by_key l) = sort_by_key l.
Proof.
  intros H. apply sort_by_key_ext; [|apply sort_by_key_perm]. by rewrite sort_by_key_perm.
Qed.
Lemma alist_get_sort {A} k (l : list (string * A)) :
  NoDup l.*1 → alist_get k (sort_by_key l) = alist_get k l.
Proof.
  assert (H : ∀ (l : list (string * A)) a, NoDup l.*1 → alist_get k l = Some a ↔ (k, a) ∈ l).
  { clear. intros l a Hn. induction l as [|[k' b] l IH]; [set_solver|]. csimpl in *.
    apply NoDup_cons in Hn as [Hk Hn]. rewrite elem_of_cons. case_decide as E.
    - subst k'. split; [intros [= ->]; by left|]. intros [[= ->]|Hin]; [done|].
      exfalso. apply Hk. by apply (list_elem_of_fmap_2 fst) in Hin.
    - rewrite IH by done. naive_solver. }
  intros Hn. apply option_eq. intros a. rewrite !H by (rewrite ?sort_by_key_perm; done).
  by rewrite sort_by_key_perm.
Qed.

(** ** What the encoding determines *)

(** A value with the entries of every object in order. *)
Fixpoint canon (j : Json) : Json :=
  match j with
  | JArray l => JArray (canon <$> l)
  | JObject m => JObject (sort_by_key ((λ '(k, v), (k, canon v)) <$> m))
  | _ => j
  end.
(** Values that differ in the order of entries only. *)
Definition json_equiv (j k : Json) : Prop := canon j = canon k.
#[export] Instance json_equiv_equivalence : Equivalence json_equiv.
Proof. split; [done|by intros ??|by intros ??? ?%eq_sym; unfold json_equiv in *; congruence]. Qed.

(** The texts of numbers are not empty and made of the characters of numbers. *)
Definition number_char (c : ascii) : bool :=
  is_digit c || bool_decide (c ∈ ["-"; "+"; "."; "e"; "E"]%char).
Definition number_text (t : string) : bool :=
  bool_decide (t ≠ "") && forallb number_char (chars t).
Fixpoint numbers_ok (j : Json) : bool :=
  match j with
  | JNumber t => number_text t
  | JArray l => forallb numbers_ok l
  | JObject m => forallb (λ e, numbers_ok e.2) m
  | _ => true
  end.

Section encoding.
Context {JT : JsonText}.

Fixpoint render (j : Json) : string :=
  match j with
  | JNull => "null"
  | JBool b => if b then "true" else "false"
  | JNumber text => text
  | JString s => json_string s
  | JArray l => "[" +:+ join "," (render <$> l) +:+ "]"
  | JObject m => "{" +:+ join "," ((λ '(k, v), entry_text (k, render v)) <$> m) +:+ "}"
  end.
Lemma write_render j : write j = render (canon j).
Proof.
  induction j as [| | | |l IH|m IH] using Json_nested_ind; try done.
  - simpl. do 3 f_equal. induction IH as [|j l Hj _ IH]; [done|]. csimpl. by rewrite Hj, IH.
  - cbn [write canon render]. do 3 f_equal.
    assert (E : (λ '(k, v), (k, write v)) <$> m =
                prod_map id render <$> ((λ '(k, v), (k, canon v)) <$> m)).
    { induction IH as [|[k v] m Hv _ IH]; [done|]. csimpl in *. by rewrite Hv, IH. }
    rewrite E, sort_by_key_map, <- list_fmap_compose. apply list_fmap_ext. by intros ? [].
Qed.
#[export] Instance write_proper : Proper (json_equiv ==> eq) write.
Proof. intros j k H. by rewrite !write_render, H. Qed.

(** Text that cannot go on a number. *)
Definition ends_number (r : string) : Prop :=
  match r with EmptyString => True | String c _ => number_char c = false end.
Lemma number_text_inj t u r r' :
  number_text t = true → number_text u = true → ends_number r → ends_number r' →
  t +:+ r = u +:+ r' → t = u ∧ r = r'.
Proof.
  unfold number_text. rewrite !andb_true_iff. intros [_ Ht] [_ Hu] Hr Hr'. revert u Hu.
  induction t as [|c t IH]; intros [|d u]; simpl; intros Hu E.
  - by rewrite !str_app_nil_l in E.
  - rewrite str_app_nil_l, str_app_cons in E. subst r. simpl in Hr, Hu. by rewrite Hr in Hu.
  - rewrite str_app_nil_l, str_app_cons in E. subst r'. simpl in Hr', Ht. by rewrite Hr' in Ht.
  - rewrite !str_app_cons in E. injection E as -> E. simpl in Ht.
    apply andb_true_iff in Ht as [_ Ht], Hu as [_ Hu]. destruct (IH Ht u Hu E) as [-> ->]. done.
Qed.

(** The first character of a value. *)
Definition first_char (j : Json) (c : ascii) : Prop :=
  match j with
  | JNull => c = "n"%char
  | JBool b => c = if b then "t"%char else "f"%char
  | JNumber _ => number_char c = true
  | JString _ => c = dquote
  | JArray _ => c = "["%char
  | JObject _ => c = "{"%char
  end.
Lemma render_first j : numbers_ok j = true → ∃ c s, render j = String c s ∧ first_char j c.
Proof.
  destruct j as [|[]|t|s|l|m]; simpl; intros H; try (by eexists _, _; split).
  - apply andb_true_iff in H as [Hne Ht]. destruct t as [|c t]; [done|].
    simpl in Ht. apply andb_true_iff in Ht as [Hc _]. by exists c, t.
  - destruct (json_string_quote s) as [r Hr]. by exists dquote, r.
Qed.

(** Items between commas, up to a closing bracket. *)
Lemma join_inj {A} (f : A → string) (P : A → Prop) (close : ascii) l l' r r' :
  close ≠ ","%char → number_char close = false →
  (∀ x s s', P x → f x +:+ s ≠ String close s') →
  (∀ x y s s', x ∈ l → P x → P y → ends_number s → ends_number s' →
     f x +:+ s = f y +:+ s' → x = y ∧ s = s') →
  Forall P l → Forall P l' →
  join "," (f <$> l) +:+ String close r = join "," (f <$> l') +:+ String close r' →
  l = l' ∧ r = r'.
Proof.
  intros Hcomma Hclose Hfirst Hinj Hl. revert l'. induction Hl as [|x l Hx Hl IH]; intros l' Hl' E.
  - destruct Hl' as [|y l' Hy Hl']; [by injection E|]. exfalso.
    csimpl in E. rewrite str_app_nil_l in E. destruct (f <$> l') as [|z zs]; csimpl in E.
    + symmetry in E. by apply Hfirst in E.
    + rewrite <- !str_app_assoc in E. symmetry in E. by apply Hfirst in E.
  - destruct Hl' as [|y l' Hy Hl'].
    { exfalso. csimpl in E. rewrite str_app_nil_l in E. destruct (f <$> l) as [|z zs]; csimpl in E.
      - by apply Hfirst in E.
      - rewrite <- !str_app_assoc in E. by apply Hfirst in E. }
    assert (Hsplit : ∀ a (m : list A) q, join "," (f <$> a :: m) +:+ String close q =
      f a +:+ match m with [] => String close q
              | _ => String "," (join "," (f <$> m) +:+ String close q) end).
    { intros a [|b m] q; [done|]. rewrite !fmap_cons, join_cons, <- !str_app_assoc. done. }
    rewrite !Hsplit in E. apply Hinj in E as [-> E]; [|by left|done..| |].
    + destruct l as [|x' l], l' as [|y' l']; [by injection E as ->|by injection E as ?|by injection E as ?|].
      injection E as E. destruct (IH ltac:(intros; eapply Hinj; eauto; by right) (y' :: l')) as [-> ->];
        done.
    + by destruct l.
    + by destruct l'.
Qed.

Lemma same_shape j k r r' :
  numbers_ok j = true → numbers_ok k = true → render j +:+ r = render k +:+ r' →
  match j, k with
  | JNull, JNull | JNumber _, JNumber _ | JString _, JString _ | JArray _, JArray _
  | JObject _, JObject _ => True
  | JBool b, JBool c => b = c
  | _, _ => False
  end.
Proof.
  intros Hj Hk E. destruct (render_first j Hj) as (c & s & Ej & Fj).
  destruct (render_first k Hk) as (d & t & Ek & Fk).
  rewrite Ej, Ek, !str_app_cons in E. injection E as -> _. clear Ej Ek.
  destruct j as [|[]| | | |], k as [|[]| | | |]; simpl in *; subst; done.
Qed.
Lemma render_inj j k r r' :
  numbers_ok j = true → numbers_ok k = true → ends_number r → ends_number r' →
  render j +:+ r = render k +:+ r' → j = k ∧ r = r'.
Proof.
  revert k r r'. induction j as [|b|t|s|l IH|m IH] using Json_nested_ind;
    intros k r r' Hj Hk Hr Hr' E; pose proof (same_shape _ _ _ _ Hj Hk E) as Hs;
    destruct k as [|b'|t'|s'|l'|m']; try done.
  - by apply str_app_inj_l in E.
  - subst b'. by apply str_app_inj_l in E.
  - simpl in *. by apply number_text_inj in E as [-> ->].
  - simpl in E. by apply json_string_read in E as [-> ->].
  - simpl in Hj, Hk, E. rewrite <- !str_app_assoc, !str_app_cons, !str_app_nil_l in E.
    injection E as E.
    apply (join_inj render (λ j, numbers_ok j = true)) in E as [-> ->]; try done.
    + intros x a a' Hx Hc. destruct (render_first x Hx) as (c & q & Ex & Fx).
      rewrite Ex, str_app_cons in Hc. injection Hc as -> _. by destruct x as [|[]| | | |].
    + intros x y a a' Hx Px Py Ha Ha'. rewrite Forall_forall in IH. by apply IH.
    + apply Forall_forall. intros x Hx. rewrite forallb_forall in Hj. by apply Hj, list_elem_of_In.
    + apply Forall_forall. intros x Hx. rewrite forallb_forall in Hk. by apply Hk, list_elem_of_In.
  - simpl in Hj, Hk, E. rewrite <- !str_app_assoc, !str_app_cons, !str_app_nil_l in E.
    injection E as E.
    apply (join_inj (λ '(k, v), entry_text (k, render v)) (λ e, numbers_ok e.2 = true)) in E
      as [-> ->]; try done.
    + intros [x v] a a' _ Hc. unfold entry_text in Hc. simpl in Hc.
      destruct (json_string_quote x) as [q Hq]. rewrite Hq, !str_app_cons in Hc. by injection Hc.
    + intros [x v] [y w] a a' Hx Px Py Ha Ha'. unfold entry_text. simpl in *.
      rewrite <- !str_app_assoc. intros Hxy.
      apply json_string_read in Hxy as [-> Hxy]. rewrite !str_app_cons, !str_app_nil_l in Hxy.
      injection Hxy as Hxy. rewrite Forall_forall in IH.
      destruct (IH _ Hx w a a' Px Py Ha Ha' Hxy) as [E1 E2]. simpl in E1. by subst.
    + apply Forall_forall. intros x Hx. rewrite forallb_forall in Hj. by apply Hj, list_elem_of_In.
    + apply Forall_forall. intros x Hx. rewrite forallb_forall in Hk. by apply Hk, list_elem_of_In.
Qed.
Lemma numbers_ok_canon j : numbers_ok (canon j) = numbers_ok j.
Proof.
  induction j as [| | | |l IH|m IH] using Json_nested_ind; try done; cbn [numbers_ok canon].
  - induction IH as [|j l Hj _ IH]; [done|]. csimpl. by rewrite Hj, IH.
  - assert (Hp : ∀ a b : list (string * Json), a ≡ₚ b →
      forallb (λ e, numbers_ok e.2) a = forallb (λ e, numbers_ok e.2) b).
    { induction 1; simpl; try congruence. by rewrite !andb_assoc, (andb_comm (numbers_ok y.2)). }
    rewrite (Hp _ _ (sort_by_key_perm _)).
    induction IH as [|[k v] m Hv _ IH]; [done|]. csimpl in *. by rewrite Hv, IH.
Qed.
Lemma write_inj j k :
  numbers_ok j = true → numbers_ok k = true → write j = write k → json_equiv j k.
Proof.
  intros Hj Hk H. rewrite !write_render in H.
  assert (render (canon j) +:+ "" = render (canon k) +:+ "") as E by (by rewrite !str_app_nil_r).
  by apply render_inj in E as [E _]; rewrite ?numbers_ok_canon.
Qed.
Lemma object_perm m m' :
  NoDup m.*1 → m ≡ₚ m' → json_equiv (JObject m) (JObject m').
Proof.
  intros Hn Hp. unfold json_equiv. cbn [canon]. f_equal. apply sort_by_key_ext.
  - rewrite <- list_fmap_compose.
    assert (E : (fst ∘ (λ '(k, v), (k, canon v))) <$> m = m.*1)
      by (apply list_fmap_ext; by intros ? []).
    by rewrite E.
  - by rewrite Hp.
Qed.
End encoding.

(** Oath JSON v1. Two values have the same canonical bytes exactly when they
    differ in the order of the entries of their objects only; so what is signed or
    hashed is the value itself. Digests agree only then, unless the two canonical
    texts have one SHA-256 digest. Numbers are those whose text JSON allows; any entry
    order of an object with distinct keys gives the same bytes. *)
Theorem canonical_json_spec {SHA : Digest} {JT : JsonText} j k :
  numbers_ok j = true → numbers_ok k = true →
  (canonical_json_bytes j = canonical_json_bytes k ↔ json_equiv j k)
  ∧ (digest_json j = digest_json k →
     json_equiv j k ∨ collision [canonical_json_bytes j; canonical_json_bytes k])
  ∧ (∀ m m', j = JObject m → k = JObject m' → NoDup m.*1 → m ≡ₚ m' →
       canonical_json_bytes j = canonical_json_bytes k).
Proof.
  intros Hj Hk. split; [split; [by apply write_inj|by intros ->]|]. split.
  - intros [E|]%str_app_inj_l%sha256_inj; [left; by apply write_inj|by right].
  - intros m m' -> -> Hn Hp. unfold canonical_json_bytes. by rewrite (object_perm m m').
Qed.

(** ** The contracts are what their JSON says *)

Lemma jget_canon key m :
  NoDup m.*1 → jget key (canon (JObject m)) = canon <$> alist_get key m.
Proof.
  intros Hn. cbn [canon jget]. rewrite alist_get_sort.
  - clear Hn. induction m as [|[k v] m IH]; [done|]. csimpl. by case_decide.
  - rewrite <- list_fmap_compose.
    assert (E : (fst ∘ (λ '(k, v), (k, canon v))) <$> m = m.*1)
      by (apply list_fmap_ext; by intros ? []).
    by rewrite E.
Qed.
(** What [field] needs of a part: its JSON, entries sorted, determines it. *)
Class Determined {A} (f : A → Json) := determined a b : canon (f a) = canon (f b) → a = b.
#[export] Instance determined_string : Determined JString.
Proof. by intros a b [= ->]. Qed.
#[export] Instance determined_bool : Determined JBool.
Proof. by intros a b [= ->]. Qed.
#[export] Instance determined_nat : Determined jnat.
Proof. intros a b [= H]. by apply (inj pretty) in H. Qed.
#[export] Instance determined_decision : Determined (λ d, JString (decision_str d)).
Proof. by intros [] [] [=]. Qed.
#[export] Instance determined_reason : Determined (λ r, JString (reason_str r)).
Proof. by intros [] [] [=]. Qed.
Lemma determined_array {A} (f : A → Json) `{!Determined f} : Determined (λ l, JArray (f <$> l)).
Proof.
  intros l. induction l as [|a l IH]; intros [|b l'] H; cbn in H; try done.
  injection H as H Hl. f_equal; [by apply (determined (f := f))|]. apply IH. cbn. by f_equal.
Qed.
#[export] Instance determined_strings : Determined jstrings.
Proof. intros a b. apply (determined_array JString). Qed.
Lemma determined_opt {A} (f : A → Json) `{!Determined f} :
  (∀ a, canon (f a) ≠ JNull) → Determined (jopt f).
Proof.
  intros Hf [a|] [b|] H; simpl in H; [f_equal; by apply (determined (f := f))| | |done].
  - by apply Hf in H.
  - symmetry in H. by apply Hf in H.
Qed.
#[export] Instance determined_opt_string : Determined (jopt JString).
Proof. by apply (determined_opt JString). Qed.
#[export] Instance determined_opt_bool : Determined (jopt JBool).
Proof. by apply (determined_opt JBool). Qed.
#[export] Instance determined_opt_nat : Determined (jopt jnat).
Proof. by apply (determined_opt jnat). Qed.

(** The equation between two records' fields of one name, with the function that
    gives the field's JSON. *)
Ltac field H key f :=
  let E := fresh "E" in
  pose proof (f_equal (jget key) H) as E;
  rewrite !jget_canon in E by (apply (bool_decide_eq_true_1 _); reflexivity);
  cbn -[canon jopt jnat jstrings] in E; apply (inj Some) in E;
  apply (determined (f := f)) in E.

#[export] Instance determined_identity : Determined identity_json.
Proof.
  intros a b H. unfold identity_json in H.
  field H "name" JString. field H "version" JString. field H "registry" JString.
  field H "integrity" (jopt JString). field H "publisher" (jopt JString).
  field H "publish_age_days" (jopt jnat). field H "repository" (jopt JString).
  clear H; destruct a, b; simpl in *; by subst.
Qed.
#[export] Instance determined_version_diff : Determined version_diff_json.
Proof.
  intros a b H. unfold version_diff_json in H.
  field H "previous_version" JString. field H "previous_integrity" (jopt JString).
  field H "publisher_changed" (jopt JBool). field H "lifecycle_hooks_changed" JBool.
  clear H; destruct a, b; simpl in *; by subst.
Qed.
#[export] Instance determined_opt_version_diff : Determined (jopt version_diff_json).
Proof. by apply (determined_opt version_diff_json). Qed.
#[export] Instance determined_evidence : Determined evidence_json.
Proof.
  intros a b H. unfold evidence_json in H.
  field H "unpacked_bytes" jnat. field H "dependency_count" jnat.
  field H "readable_source" JBool. field H "obfuscated" JBool. field H "native_code" JBool.
  field H "lifecycle_hooks" JBool. field H "capabilities" jstrings. field H "findings" jstrings.
  field H "limitations" jstrings. field H "version_diff" (jopt version_diff_json).
  clear H; destruct a, b; simpl in *; by subst.
Qed.
#[export] Instance determined_policy : Determined policy_json.
Proof.
  intros a b H. unfold policy_json in H.
  field H "decision" (λ d, JString (decision_str d)).
  field H "reason_code" (λ r, JString (reason_str r)). field H "grade" JString. field H "score" jnat.
  clear H; destruct a, b; simpl in *; by subst.
Qed.
#[export] Instance determined_sandbox : Determined sandbox_json.
Proof.
  intros a b H. unfold sandbox_json in H.
  field H "backend" JString. field H "available" JBool. field H "filesystem_isolation" JBool.
  field H "network_isolation" JBool. field H "process_isolation" JBool.
  field H "resource_limits" JBool. field H "degraded_reason" (jopt JString).
  clear H; destruct a, b; simpl in *; by subst.
Qed.
#[export] Instance determined_signature : Determined signature_json.
Proof.
  intros a b H. unfold signature_json in H.
  field H "algorithm" JString. field H "canonicalization" JString. field H "public_key" JString.
  field H "signature" JString. clear H; destruct a, b; simpl in *; by subst.
Qed.
#[export] Instance determined_opt_signature : Determined (jopt signature_json).
Proof. by apply (determined_opt signature_json). Qed.
#[export] Instance determined_exec : Determined exec_json.
Proof.
  intros a b H. unfold exec_json in H.
  field H "schema_version" jnat. field H "generated_at" jnat. field H "expires_at" jnat.
  field H "identity" identity_json. field H "evidence" evidence_json. field H "policy" policy_json.
  field H "sandbox" sandbox_json. field H "policy_digest" JString.
  field H "evidence_digest" JString. field H "rule_bundle_version" JString.
  field H "signature" (jopt signature_json). clear H; destruct a, b; simpl in *; by subst.
Qed.
#[export] Instance determined_file : Determined file_json.
Proof.
  intros a b H. unfold file_json in H. field H "path" JString. field H "bytes" jnat.
  field H "sha256" JString. clear H; destruct a, b; simpl in *; by subst.
Qed.
#[export] Instance determined_files : Determined (λ l, JArray (file_json <$> l)).
Proof. apply determined_array, _. Qed.
#[export] Instance determined_publish_diff : Determined publish_diff_json.
Proof.
  intros a b H. unfold publish_diff_json in H. field H "previous_version" JString.
  field H "added_files" jstrings. field H "removed_files" jstrings.
  field H "changed_files" jstrings. field H "capabilities_added" jstrings.
  field H "capabilities_removed" jstrings. clear H; destruct a, b; simpl in *; by subst.
Qed.
#[export] Instance determined_opt_publish_diff : Determined (jopt publish_diff_json).
Proof. by apply (determined_opt publish_diff_json). Qed.
#[export] Instance determined_publish : Determined publish_json.
Proof.
  intros a b H. unfold publish_json in H.
  field H "schema_version" jnat. field H "generated_at" jnat. field H "expires_at" jnat.
  field H "name" JString. field H "version" JString. field H "tag" JString.
  field H "access" (jopt JString). field H "package_digest" JString.
  field H "unpacked_bytes" jnat. field H "files" (λ l, JArray (file_json <$> l)).
  field H "dependency_count" jnat. field H "lifecycle_hooks" jstrings.
  field H "capabilities" jstrings. field H "source_available" JBool.
  field H "secret_findings" jstrings. field H "decision" (λ d, JString (decision_str d)).
  field H "reason_code" (λ r, JString (reason_str r)).
  field H "previous_release" (jopt publish_diff_json). field H "policy_digest" JString.
  field H "evidence_digest" JString. field H "rule_bundle_version" JString.
  field H "limitations" jstrings. field H "signature" (jopt signature_json).
  clear H; destruct a, b; simpl in *; by subst.
Qed.
#[export] Instance determined_verdict : Determined verdict_json.
Proof.
  intros a b H. unfold verdict_json in H.
  field H "schema_version" jnat. field H "generated_at" jnat. field H "expires_at" jnat.
  field H "package" identity_json. field H "decision" (λ d, JString (decision_str d)).
  field H "reason_code" (λ r, JString (reason_str r)). field H "risk_score" jnat.
  field H "package_digest" JString. field H "assessment_digest" JString.
  field H "policy_digest" JString. field H "rule_bundle_version" JString.
  field H "limitations" jstrings. field H "signature" (jopt signature_json).
  clear H; destruct a, b; simpl in *; by subst.
Qed.

(** *** Numbers of contracts *)

Lemma pretty_N_go_digits x s :
  forallb is_digit (chars s) = true → forallb is_digit (chars (pretty_N_go x s)) = true.
Proof.
  revert s. induction (N.lt_wf_0 x) as [x _ IH]; intros s Hs.
  assert (x = 0 ∨ 0 < x)%N as [->|Hx] by lia; [by rewrite pretty_N_go_0|].
  rewrite pretty_N_go_step by done. apply IH; [by apply N.div_lt|].
  simpl. rewrite Hs, andb_true_r. unfold pretty_N_char. by repeat case_match.
Qed.
Lemma pretty_N_go_not_empty x s : s ≠ "" → pretty_N_go x s ≠ "".
Proof.
  revert s. induction (N.lt_wf_0 x) as [x _ IH]; intros s Hs.
  assert (x = 0 ∨ 0 < x)%N as [->|Hx] by lia; [by rewrite pretty_N_go_0|].
  rewrite pretty_N_go_step by done. apply IH; [by apply N.div_lt|done].
Qed.
Lemma number_text_pretty (n : N) : number_text (pretty n) = true.
Proof.
  unfold number_text. apply andb_true_iff. split.
  - apply bool_decide_eq_true. unfold pretty, pretty_N. case_decide; [done|].
    rewrite pretty_N_go_step by lia. by apply pretty_N_go_not_empty.
  - assert (H : forallb is_digit (chars (pretty n)) = true).
    { unfold pretty, pretty_N. case_decide; [done|]. by apply pretty_N_go_digits. }
    rewrite !forallb_forall in *. intros c Hc%H. unfold number_char. by rewrite Hc.
Qed.
Lemma numbers_ok_strings l : numbers_ok (jstrings l) = true.
Proof. induction l as [|s l IH]; [done|]. cbn in *. done. Qed.
Lemma numbers_ok_opt {A} (f : A → Json) o :
  (∀ a, numbers_ok (f a) = true) → numbers_ok (jopt f o) = true.
Proof. intros H. by destruct o; simpl. Qed.
Lemma numbers_ok_nat n : numbers_ok (jnat n) = true.
Proof. apply number_text_pretty. Qed.
Create HintDb numbers.
(** Every field in turn. *)
Ltac numbers :=
  cbn [numbers_ok forallb fst snd]; rewrite ?numbers_ok_nat, ?numbers_ok_strings;
  repeat (rewrite numbers_ok_opt; [|intros; first [done|apply numbers_ok_nat|by auto with numbers]]);
  auto with numbers.
Lemma identity_numbers p : numbers_ok (identity_json p) = true.
Proof. unfold identity_json. numbers. Qed.
Lemma version_diff_numbers d : numbers_ok (version_diff_json d) = true.
Proof. unfold version_diff_json. numbers. Qed.
#[export] Hint Resolve version_diff_numbers : numbers.
Lemma evidence_numbers e : numbers_ok (evidence_json e) = true.
Proof. unfold evidence_json. numbers. Qed.
Lemma policy_numbers p : numbers_ok (policy_json p) = true.
Proof. unfold policy_json. numbers. Qed.
Lemma sandbox_numbers p : numbers_ok (sandbox_json p) = true.
Proof. unfold sandbox_json. numbers. Qed.
Lemma signature_numbers p : numbers_ok (signature_json p) = true.
Proof. unfold signature_json. numbers. Qed.
#[export] Hint Resolve signature_numbers : numbers.
Lemma exec_numbers a : numbers_ok (exec_json a) = true.
Proof.
  unfold exec_json. numbers.
  by rewrite identity_numbers, evidence_numbers, policy_numbers, sandbox_numbers.
Qed.
Lemma files_numbers l : numbers_ok (JArray (file_json <$> l)) = true.
Proof. induction l as [|f l IH]; [done|]. cbn in *. by rewrite number_text_pretty, IH. Qed.
Lemma publish_diff_numbers d : numbers_ok (publish_diff_json d) = true.
Proof. unfold publish_diff_json. numbers. Qed.
#[export] Hint Resolve publish_diff_numbers : numbers.
Lemma publish_numbers a : numbers_ok (publish_json a) = true.
Proof.
  pose proof (files_numbers (pa_files a)) as Hf. cbn [numbers_ok] in Hf.
  unfold publish_json. numbers. by rewrite Hf.
Qed.
Lemma verdict_numbers v : numbers_ok (verdict_json v) = true.
Proof. unfold verdict_json. numbers. by rewrite identity_numbers. Qed.

(** ** Verification *)

Section verification.
Context {SHA : Digest} {JT : JsonText} {B64 : Base64} {ED : Ed25519}.

Lemma verify_json_Ok value s :
  verify_json value s = Ok tt ↔
  algorithm s = "ed25519" ∧ canonicalization s = "oath-json-v1"
  ∧ ∃ key bytes, b64_decode (public_key s) = Some key ∧ String.length key = 32
      ∧ b64_decode (signature s) = Some bytes ∧ String.length bytes = 64
      ∧ valid_point key = true ∧ ed_verify key (canonical_json_bytes value) bytes = true.
Proof.
  unfold verify_json, array_of. split.
  - intros H. apply bind_Ok in H as ([] & H1%ensure_Ok%bool_decide_eq_true & H).
    apply bind_Ok in H as ([] & H2%ensure_Ok%bool_decide_eq_true & H).
    apply bind_Ok in H as (key & H3%ok_or_Ok & H). case_decide as H4; [|done]. simpl in H.
    apply bind_Ok in H as (bytes & H5%ok_or_Ok & H). case_decide as H6; [|done]. simpl in H.
    apply bind_Ok in H as ([] & H7%ensure_Ok & H%ensure_Ok). eauto 12.
  - intros (-> & -> & key & bytes & H1 & H2 & H3 & H4 & H5 & H6).
    rewrite H1, H3. simpl. rewrite decide_True by done. simpl. rewrite decide_True by done. simpl.
    by rewrite H5, H6.
Qed.
Lemma sign_json_verifies value key : verify_json value (sign_json value key) = Ok tt.
Proof.
  apply verify_json_Ok. split; [done|]. split; [done|].
  exists (verifying_key key), (ed_sign key (canonical_json_bytes value)). simpl.
  rewrite !b64_round_trip, verifying_key_length, ed_sign_length, verifying_key_valid.
  by rewrite ed_sign_verifies.
Qed.

(** What holds of a kind of document with its JSON, its unsigned form and its check. *)
Definition signed_document {D} (json : D → Json) (unsigned : D → D)
    (sig_of : D → option DetachedSignature) (verify : D → result ContractError unit) : Prop :=
  (∀ d, verify d = Ok tt ↔
     ∃ s, sig_of d = Some s ∧ algorithm s = "ed25519" ∧ canonicalization s = "oath-json-v1"
     ∧ ∃ key bytes, b64_decode (public_key s) = Some key ∧ String.length key = 32
         ∧ b64_decode (signature s) = Some bytes ∧ String.length bytes = 64
         ∧ valid_point key = true
         ∧ ed_verify key (canonical_json_bytes (json (unsigned d))) bytes = true)
  ∧ (∀ d d', canonical_json_bytes (json (unsigned d)) = canonical_json_bytes (json (unsigned d')) →
       unsigned d = unsigned d')
  ∧ (∀ d key, ∃ d', unsigned d' = unsigned d ∧ verify d' = Ok tt
       ∧ sig_of d' = Some (sign_json (json (unsigned d)) key)).
Lemma signed_document_intro {D} json unsigned sig_of (sign_with : D → DetachedSignature → D) verify :
  Determined json → (∀ d, numbers_ok (json d) = true) →
  (∀ d, verify d = (s ← ok_or (sig_of d) InvalidSignature; verify_json (json (unsigned d)) s)) →
  (∀ d s, unsigned (sign_with d s) = unsigned d ∧ sig_of (sign_with d s) = Some s) →
  signed_document json unsigned sig_of verify.
Proof.
  intros Hdet Hnum Hver Hsign. split; [|split].
  - intros d. rewrite Hver, bind_Ok. setoid_rewrite ok_or_Ok. setoid_rewrite verify_json_Ok.
    naive_solver.
  - intros d d' H. apply Hdet, write_inj; [apply Hnum..|done].
  - intros d key. exists (sign_with d (sign_json (json (unsigned d)) key)).
    destruct (Hsign d (sign_json (json (unsigned d)) key)) as [Hu Hs].
    split; [done|]. split; [|done]. rewrite Hver, Hs, Hu. simpl. apply sign_json_verifies.
Qed.

(** (C25) The three signed documents. A document verifies exactly when it carries a
    signature of the supported algorithm and encoding whose key and signature decode
    to 32 and 64 bytes and whose Ed25519 check of the canonical bytes of the document
    without its signature succeeds. Those bytes determine every field, so a signature
    fits no other document. And the key is the document's own: whoever holds any key
    can sign any document so that it verifies; who signed is for the caller to check. *)
Theorem signed_contracts_spec :
  signed_document exec_json unsigned_exec ea_signature verify_exec_assessment
  ∧ signed_document publish_json unsigned_publish pa_signature verify_publish_assessment
  ∧ signed_document verdict_json unsigned_verdict rv_signature verify_registry_verdict.
Proof.
  split; [|split].
  - apply (signed_document_intro _ _ _ (λ a s,
      let 'Build_ExecAssessmentV3 v g e i ev p sb pd ed r _ := a in
      Build_ExecAssessmentV3 v g e i ev p sb pd ed r (Some s))); [apply _|apply exec_numbers|done|].
    by intros [] s.
  - apply (signed_document_intro _ _ _ (λ a s,
      let 'Build_PublishAssessmentV2 v g e n ve t ac d u f dc lh c sa sf de rc pr pd ed rb l _ := a in
      Build_PublishAssessmentV2 v g e n ve t ac d u f dc lh c sa sf de rc pr pd ed rb l (Some s)));
      [apply _|apply publish_numbers|done|]. by intros [] s.
  - apply (signed_document_intro _ _ _ (λ a s,
      let 'Build_RegistryVerdictV1 v g e p d r sc pd ad po rb l _ := a in
      Build_RegistryVerdictV1 v g e p d r sc pd ad po rb l (Some s))); [apply _|apply verdict_numbers|done|].
    by intros [] s.
Qed.
End verification.

(** ** An instance *)

(** Strings as literals that escape quotes and backslashes. *)
#[local] Program Instance toy_json_text : JsonText := {|
  json_string s := String dquote (escaped s +:+ String dquote "") |}.
Next Obligation. intros s. by eexists. Qed.
Next Obligation.
  intros s t r r' H. simpl in H.
  assert (Ha : ∀ a b, String dquote (escaped a +:+ String dquote "") +:+ b =
                      String dquote (escaped a +:+ String dquote b)).
  { intros a b. by rewrite str_app_cons, <- str_app_assoc. }
  rewrite !Ha in H. injection H as H. pose proof (read_escaped s r) as Hs. rewrite H, read_escaped in Hs.
  by injection Hs as -> ->.
Qed.
#[local] Existing Instance toy_digest.
(** Bytes as they are, and signatures that are digests. *)
Definition plain_base64 : Base64 :=
  {| b64_encode s := s; b64_decode s := Some s; b64_round_trip s := eq_refl |}.
Definition digest_ed25519 `{SHA : Digest} : Ed25519.
Proof.
  refine {| SigningKey := unit; verifying_key _ := of_chars (replicate 32 "k"%char);
            ed_sign _ m := sha256_hex m; valid_point _ := true;
            ed_verify _ m s := bool_decide (s = sha256_hex m) |}.
  - done.
  - intros _ m. apply sha256_hex_length.
  - done.
  - intros _ m. by apply bool_decide_eq_true.
Defined.

Lemma canonical_json_spec_witness :
  let j := JObject [("z", JNumber "1"); ("a", JNumber "2")] in
  let k := JObject [("a", JNumber "2"); ("z", JNumber "1")] in
  numbers_ok j = true ∧ numbers_ok k = true
  ∧ canonical_json_bytes j = canonical_json_bytes k
  ∧ (digest_json j = digest_json k →
     json_equiv j k ∨ collision [canonical_json_bytes j; canonical_json_bytes k]).
Proof.
  intros j k.
  destruct (canonical_json_spec j k eq_refl eq_refl) as (_ & Hd & Hp).
  split; [reflexivity|]. split; [reflexivity|]. split; [|exact Hd].
  apply (Hp _ _ eq_refl eq_refl); [|apply perm_swap].
  apply (bool_decide_eq_true_1 _). reflexivity.
Defined.
Example canonical_bytes :
  canonical_json_bytes (JObject [("z", JNumber "1"); ("a", JNumber "2")]) =
  of_chars (chars "{" ++ [dquote] ++ chars "a" ++ [dquote] ++ chars ":2," ++ [dquote] ++ chars "z"
            ++ [dquote] ++ chars ":1}").
Proof. reflexivity. Qed.
