(* ===== verification/ExecAssessment.v ===== *)
(** * oath-cli: the assessment of what is executed ([exec_assessment.rs], [approvals.rs])

    The sandbox an execution gets, from what is asked and what the machine can prove
    ([oath-sandbox/src/lib.rs]); the comparison with the release before; the assessment in
    its two versions, the second of which is signed; the file of remembered approvals. *)
From S2P Require Export Sandbox Contracts Versions.
From S2P Require Import Cli.

(** ** What the native sandbox can do ([oath-sandbox/src/lib.rs]) *)

Record BackendCapabilities := {
  backend : string; available : bool; filesystem_isolation : bool; network_isolation : bool;
  process_isolation : bool; resource_limits : bool; degraded_reason : option string }.
Definition nothing_isolated (name : string) (avail : bool) (reason : string) : BackendCapabilities := {|
  backend := name; available := avail; filesystem_isolation := false; network_isolation := false;
  process_isolation := false; resource_limits := false; degraded_reason := Some reason |}.
Definition no_backend : BackendCapabilities :=
  nothing_isolated "unavailable" false "no native sandbox backend for this platform".
(** How the probe of a strict plan ended, with the text of the status or the error. *)
Inductive Probe := NoRoot (e : string) | Exited (success : bool) (status : string) | ProbeFailed (e : string).
Definition verify_native_capabilities (advertised : BackendCapabilities) (probe : Probe) : BackendCapabilities :=
  if negb (available advertised) then advertised
  else
    match probe with
    | NoRoot e => {|
        backend := backend advertised; available := false;
        filesystem_isolation := filesystem_isolation advertised;
        network_isolation := network_isolation advertised;
        process_isolation := process_isolation advertised; resource_limits := resource_limits advertised;
        degraded_reason := Some ("sandbox probe setup failed: " +:+ e) |}
    | Exited true _ => advertised
    | Exited false status =>
        nothing_isolated (backend advertised) false ("native sandbox probe exited with " +:+ status)
    | ProbeFailed e => nothing_isolated (backend advertised) false ("native sandbox probe failed: " +:+ e)
    end.

(** ** Which sandbox is used ([main.rs]) *)

Inductive ExecSandboxMode := Off | Node | Native | Auto.
#[export] Instance ExecSandboxMode_eq_dec : EqDecision ExecSandboxMode.
Proof. solve_decision. Defined.
Definition mode_str (m : ExecSandboxMode) : string :=
  match m with Off => "off" | Node => "node" | Native => "native" | Auto => "auto" end.
Record ExecSandboxDecision := {
  requested_mode : ExecSandboxMode; effective_mode : ExecSandboxMode; agent_mode : bool }.
Definition native_complete (c : BackendCapabilities) : bool :=
  available c && filesystem_isolation c && network_isolation c && process_isolation c && resource_limits c.
Definition resolve_exec_sandbox_capabilities (requested : ExecSandboxMode) (allow_degraded : bool)
    (node_permissions : bool) (native : BackendCapabilities) : result string ExecSandboxMode :=
  match requested with
  | Off => Ok Off
  | Native =>
      _ ← ensure (native_complete native) ("native sandbox unavailable or incomplete: " +:+
            default "required controls did not pass the runtime probe" (degraded_reason native));
      Ok Native
  | Node =>
      _ ← ensure allow_degraded
            "Node permissions do not provide process or resource isolation; pass --allow-degraded-sandbox only when policy explicitly accepts that limitation";
      _ ← ensure node_permissions "Node permission sandbox is unavailable on this Node runtime";
      Ok Node
  | Auto =>
      if native_complete native then Ok Native
      else if allow_degraded && node_permissions then Ok Node
      else Err ("verified native containment is unavailable: " +:+
        default "required controls did not pass the runtime probe" (degraded_reason native) +:+
        "; Oath refused to downgrade automatically" +:+
        if node_permissions
        then "; pass --allow-degraded-sandbox only when policy accepts Node's missing process and resource isolation"
        else "")
  end.
(** OATH_AGENT_MODE, and the mode that is asked for. *)
Definition is_agent_mode (v : option string) : bool :=
  match v with Some v => bool_decide (to_ascii_lowercase v ∈ ["1"; "true"; "yes"; "on"]) | None => false end.
Definition requested_sandbox (sandbox agent : bool) (mode : ExecSandboxMode) : ExecSandboxMode :=
  if sandbox then (if decide (mode = Off) then Auto else mode)
  else if agent && bool_decide (mode = Off) then Auto
  else mode.
(** Node's permission flag, from the text of its help. *)
Definition permission_flag (help : option string) : option string :=
  text ← help;
  if contains "--permission" text then Some "--permission"
  else if contains "--experimental-permission" text then Some "--experimental-permission"
  else None.
Definition grade_rank (g : ascii) : nat :=
  let g := ascii_upper g in
  if decide (g = "A"%char) then 5 else if decide (g = "B"%char) then 4
  else if decide (g = "C"%char) then 3 else if decide (g = "D"%char) then 2
  else if decide (g = "F"%char) then 1 else 0.

(** ** The release before ([main.rs]) *)

Section diff.
Context {SV : Semver}.
(** [versions.iter().filter_map(..).max_by(cmp)]: the last of the greatest. *)
Definition earlier_releases (current : Version) (versions : list (string * Json)) :
    list (Version * (string * Json)) :=
  omap (λ e, parsed ← parse_version e.1;
             if decide (version_le current parsed) then None else Some (parsed, e)) versions.
Fixpoint max_version {A} (best : Version * A) (l : list (Version * A)) : Version * A :=
  match l with
  | [] => best
  | x :: l => max_version (if decide (version_le best.1 x.1) then x else best) l
  end.
Definition previous_release (current : Version) (versions : list (string * Json)) : option (string * Json) :=
  match earlier_releases current versions with
  | [] => None
  | x :: l => Some (max_version x l).2
  end.
Definition has_hooks (metadata : Json) : bool :=
  match jget "scripts" metadata ≫= object_of with
  | Some m => existsb (λ e, bool_decide (e.1 ∈ ["preinstall"; "install"; "postinstall"])) m
  | None => false
  end.
Definition previous_release_diff (packument : Json) (current_version : string)
    (current_publisher : option string) (current_has_install_script : bool) : option VersionDiff :=
  current ← parse_version current_version;
  versions ← jget "versions" packument ≫= object_of;
  '(v, previous) ← previous_release current versions;
  let previous_publisher := (jget "_npmUser" previous ≫= jget "name") ≫= as_str in
  Some {|
    vd_previous_version := v;
    vd_previous_integrity := (jget "dist" previous ≫= jget "integrity") ≫= as_str;
    vd_publisher_changed :=
      match previous_publisher, current_publisher with
      | Some p, Some c => Some (bool_decide (p ≠ c))
      | _, _ => None
      end;
    vd_lifecycle_hooks_changed := xorb (has_hooks previous) current_has_install_script |}.
End diff.

(** ** Version 2 of the assessment ([exec_assessment.rs]) *)

Definition EXEC_ASSESSMENT_V2 : N := 2.
Record ExecIdentity := {
  x_name : string; x_version : string; x_binary : option string; x_registry : string;
  x_integrity : option string; x_publisher : option string; x_publish_age_days : option N;
  x_repository : option string }.
Record ExecPolicy := { xp_decision : string; xp_reason_code : ReasonCode; xp_grade : string; xp_score : N }.
Record ExecAssessment := {
  xa_schema_version : N; xa_identity : ExecIdentity; xa_evidence : PackageEvidence; xa_policy : ExecPolicy;
  xa_sandbox : BackendCapabilities; xa_sandbox_plan : option SandboxPlan }.

Section signed.
Context {SHA : Digest} {JT : JsonText} {B64 : Base64} {ED : Ed25519}.
(** The version of the command line. *)
Variable cargo_version : string.
Definition sandbox_evidence (c : BackendCapabilities) : SandboxEvidence := {|
  sb_backend := backend c; sb_available := available c; sb_filesystem_isolation := filesystem_isolation c;
  sb_network_isolation := network_isolation c; sb_process_isolation := process_isolation c;
  sb_resource_limits := resource_limits c; sb_degraded_reason := degraded_reason c |}.
Definition unsigned_v3 (a : ExecAssessment) (generated_at : N) (policy_digest : string) : ExecAssessmentV3 := {|
  ea_schema_version := Z.to_N EXEC_ASSESSMENT_VERSION;
  ea_generated_at := generated_at;
  ea_expires_at := Z.to_N (saturating_add_u64 (Z.of_N generated_at) 3600);
  ea_identity := {|
    id_name := x_name (xa_identity a); id_version := x_version (xa_identity a);
    id_registry := x_registry (xa_identity a); id_integrity := x_integrity (xa_identity a);
    id_publisher := x_publisher (xa_identity a); id_publish_age_days := x_publish_age_days (xa_identity a);
    id_repository := x_repository (xa_identity a) |};
  ea_evidence := xa_evidence a;
  ea_policy := {|
    pd_decision := if decide (xp_decision (xa_policy a) = "allow") then Allow else Contracts.Deny;
    pd_reason_code := xp_reason_code (xa_policy a); pd_grade := xp_grade (xa_policy a);
    pd_score := xp_score (xa_policy a) |};
  ea_sandbox := sandbox_evidence (xa_sandbox a);
  ea_policy_digest := policy_digest;
  ea_evidence_digest := digest_json (evidence_json (xa_evidence a));
  ea_rule_bundle_version := "oath-rules/" +:+ cargo_version;
  ea_signature := None |}.
Definition with_signature (a : ExecAssessmentV3) (s : DetachedSignature) : ExecAssessmentV3 :=
  let 'Build_ExecAssessmentV3 v g e i ev p sb pd ed r _ := a in
  Build_ExecAssessmentV3 v g e i ev p sb pd ed r (Some s).
Definition signed_v3 (key : SigningKey) (a : ExecAssessment) (generated_at : N) (policy_digest : string) :
    ExecAssessmentV3 :=
  let r := unsigned_v3 a generated_at policy_digest in
  with_signature r (sign_json (exec_json r) key).
End signed.

(** ** Approvals that are remembered ([approvals.rs]) *)

Record ExecApproval := {
  ap_package : string; ap_version : string; ap_integrity : string; ap_capabilities : list string;
  ap_sandbox_backend : string; ap_deny_network : bool }.
#[export] Instance ExecApproval_eq_dec : EqDecision ExecApproval.
Proof. solve_decision. Defined.
Record ApprovalFile := { af_schema_version : N; af_approvals : list ExecApproval }.
(** The file as it is read: absent, or parsed, or not. *)
Definition load_approvals (file : option (result string ApprovalFile)) : result string ApprovalFile :=
  match file with
  | None => Ok {| af_schema_version := 1; af_approvals := [] |}
  | Some r => r
  end.
Definition is_approved (file : option (result string ApprovalFile)) (a : ExecApproval) : result string bool :=
  f ← load_approvals file; Ok (bool_decide (a ∈ af_approvals f)).
Definition approval_key (a : ExecApproval) : string * string * string :=
  (ap_package a, ap_version a, ap_integrity a).
Definition approval_le (a b : ExecApproval) : Prop := triple_le (approval_key a) (approval_key b).
#[export] Instance approval_le_dec : RelDecision approval_le := λ a b, decide (triple_le _ _).
Definition remembered (file : option (result string ApprovalFile)) (a : ExecApproval) : result string ApprovalFile :=
  f ← load_approvals file;
  Ok {| af_schema_version := af_schema_version f;
        af_approvals := stable_sort approval_le
          (if decide (a ∈ af_approvals f) then af_approvals f else af_approvals f ++ [a]) |}.

(** ** Lemmas *)

#[export] Instance approval_le_total : Total approval_le.
Proof. intros a b. apply triple_le_total. Qed.
#[export] Instance approval_le_trans : Transitive approval_le.
Proof. intros a b c. apply triple_le_trans. Qed.

Lemma verified_complete advertised probe :
  native_complete (verify_native_capabilities advertised probe) = true ↔
  native_complete advertised = true ∧ ∃ status, probe = Exited true status.
Proof.
  unfold verify_native_capabilities. destruct (available advertised) eqn:Ha; simpl.
  - destruct probe as [e|[] status|e]; unfold native_complete; simpl; naive_solver.
  - unfold native_complete. rewrite Ha. naive_solver.
Qed.
(** (C39) The sandbox of an execution: off only if nothing asks for one; native only when
    every control is advertised and a process under a strict plan was run and succeeded;
    Node's permissions only if the degraded sandbox was accepted, Node has them, and
    they were asked for or the native sandbox is not complete. Otherwise there is no
    execution. *)
Theorem sandbox_is_not_downgraded requested allow_degraded node advertised probe m :
  let complete := native_complete advertised = true ∧ ∃ status, probe = Exited true status in
  resolve_exec_sandbox_capabilities requested allow_degraded node (verify_native_capabilities advertised probe) = Ok m ↔
  match m with
  | Off => requested = Off
  | Native => (requested = Native ∨ requested = Auto) ∧ complete
  | Node => allow_degraded = true ∧ node = true ∧ (requested = Node ∨ (requested = Auto ∧ ¬ complete))
  | Auto => False
  end.
Proof.
  intros complete. assert (H : native_complete (verify_native_capabilities advertised probe) = true ↔ complete)
    by apply verified_complete.
  unfold resolve_exec_sandbox_capabilities. revert H. generalize complete. clear complete.
  generalize (native_complete (verify_native_capabilities advertised probe)). intros c P H.
  destruct requested, allow_degraded, node, c, m; simpl; naive_solver.
Qed.

Section releases.
Context {SV : Semver}.
Lemma version_le_refl (v : Version) : version_le v v.
Proof. by destruct (total version_le v v). Qed.
Lemma max_version_spec {A} (best : Version * A) l :
  max_version best l ∈ best :: l ∧ ∀ x, x ∈ best :: l → version_le x.1 (max_version best l).1.
Proof.
  revert best. induction l as [|x l IH]; intros best; simpl.
  { split; [left|]. intros x Hx. apply elem_of_cons in Hx as [->|Hx]; [apply version_le_refl|by apply not_elem_of_nil in Hx]. }
  set (b := if decide (version_le best.1 x.1) then x else best).
  assert (Hb : (b = x ∨ b = best) ∧ version_le best.1 b.1 ∧ version_le x.1 b.1).
  { unfold b. case_decide as H; (split; [tauto|split; [done || apply version_le_refl|]]); [apply version_le_refl|].
    by destruct (total version_le best.1 x.1). }
  destruct Hb as (Hb & Hbest & Hx), (IH b) as [Hin Hle]. split.
  - apply elem_of_cons in Hin as [Hin|Hin]; [|by do 2 right]. rewrite Hin. destruct Hb as [->| ->]; [right; left|left].
  - intros y Hy. assert (Hm : version_le b.1 (max_version b l).1) by (apply Hle; left).
    apply elem_of_cons in Hy as [->|Hy]; [by etrans|]. apply elem_of_cons in Hy as [->|Hy]; [by etrans|].
    apply Hle. by right.
Qed.
(** The release an execution is compared with: of the releases the registry lists whose
    version comes before the current one, one with the greatest; nothing is compared if
    there is none. The publisher changed only if both are known; the hooks changed if one
    of the two has a script that is run on install. *)
Theorem previous_release_diff_spec packument v publisher hooks current versions :
  parse_version v = Some current → jget "versions" packument = Some (JObject versions) →
  match previous_release_diff packument v publisher hooks with
  | None => ∀ e p, e ∈ versions → parse_version e.1 = Some p → version_le current p
  | Some d => ∃ previous p,
      (vd_previous_version d, previous) ∈ versions ∧
      parse_version (vd_previous_version d) = Some p ∧ ¬ version_le current p ∧
      (∀ e q, e ∈ versions → parse_version e.1 = Some q → version_le current q ∨ version_le q p) ∧
      vd_lifecycle_hooks_changed d = negb (eqb (has_hooks previous) hooks) ∧
      (∀ b, vd_publisher_changed d = Some b ↔ ∃ old new,
         (jget "_npmUser" previous ≫= jget "name") ≫= as_str = Some old ∧ publisher = Some new ∧
         b = bool_decide (old ≠ new))
  end.
Proof.
  intros Hv Hvs. unfold previous_release_diff. rewrite Hv, Hvs. simpl. unfold previous_release.
  assert (Hin : ∀ p e, (p, e) ∈ earlier_releases current versions ↔
    e ∈ versions ∧ parse_version e.1 = Some p ∧ ¬ version_le current p).
  { intros p e. unfold earlier_releases. rewrite list_elem_of_omap. split.
    - intros (e' & He & H). destruct (parse_version e'.1) as [q|] eqn:Hq; [|done]. simpl in H.
      case_decide; [done|]. by injection H as -> ->.
    - intros (He & Hp & Hle). exists e. rewrite Hp. simpl. by rewrite decide_False. }
  destruct (earlier_releases current versions) as [|x l] eqn:Hl; simpl.
  - intros e p He Hp. destruct (decide (version_le current p)) as [|Hle]; [done|].
    by assert (Hn : (p, e) ∈ []) by (by apply Hin); apply not_elem_of_nil in Hn.
  - destruct (max_version_spec x l) as [Hm Hle]. destruct (max_version x l) as [p [w previous]]. simpl.
    apply Hin in Hm as (He & Hp & Hc). exists previous, p. split_and!; try done.
    + intros e q Heq Hq. destruct (decide (version_le current q)) as [|Hn]; [by left|right].
      apply (Hle (q, e)). by apply Hin.
    + by destruct (has_hooks previous), hooks.
    + intros b. destruct ((jget "_npmUser" previous ≫= jget "name") ≫= as_str), publisher; naive_solver.
Qed.
End releases.

Section signing.
Context {SHA : Digest} {JT : JsonText} {B64 : Base64} {ED : Ed25519}.
(** What is signed is the whole assessment: the document verifies under the key it
    carries, expires an hour after it was made, has the digest of its own evidence, and
    allows only if the policy said so. *)
Theorem signed_v3_spec cargo key a generated_at policy_digest :
  let d := signed_v3 cargo key a generated_at policy_digest in
  verify_exec_assessment d = Ok tt ∧
  unsigned_exec d = unsigned_v3 cargo a generated_at policy_digest ∧
  ea_evidence_digest d = digest_json (evidence_json (ea_evidence d)) ∧
  (Z.of_N (ea_expires_at d) = (Z.of_N generated_at + 3600) `min` u64_max)%Z ∧
  (pd_decision (ea_policy d) = Allow ↔ xp_decision (xa_policy a) = "allow").
Proof.
  intros d. unfold d. split_and!; try done.
  - apply sign_json_verifies.
  - simpl. unfold saturating_add_u64, u64_max. rewrite Z2N.id by lia. done.
  - simpl. case_decide; naive_solver.
Qed.
End signing.

(** Remembering an approval: the file then has it and all it had before, once each if
    they were there once, in the order of package, version and integrity; an approval is
    found only if it was remembered for the same bytes, capabilities and sandbox. A file
    that cannot be read is not overwritten. *)
Theorem remembered_spec file a :
  match load_approvals file with
  | Err e => remembered file a = Err e ∧ ∀ b, is_approved file b = Err e
  | Ok old => ∃ new, remembered file a = Ok new ∧
      af_schema_version new = af_schema_version old ∧
      (∀ b, is_approved (Some (Ok new)) b = Ok (bool_decide (b = a ∨ b ∈ af_approvals old))) ∧
      (NoDup (af_approvals old) → NoDup (af_approvals new)) ∧
      StronglySorted approval_le (af_approvals new)
  end.
Proof.
  unfold remembered, is_approved. destruct (load_approvals file) as [old|e]; [|done]. simpl.
  eexists. split; [reflexivity|]. split; [done|].
  set (l := if decide (a ∈ af_approvals old) then af_approvals old else af_approvals old ++ [a]).
  assert (Hperm : stable_sort approval_le l ≡ₚ l) by apply stable_sort_perm. split_and!.
  - intros b. simpl. f_equal. apply bool_decide_ext. rewrite Hperm. unfold l. case_decide; set_solver.
  - intros Hnd. cbn [af_approvals]. rewrite Hperm. unfold l. case_decide; [done|]. apply NoDup_app. split; [done|].
    split; [set_solver|apply NoDup_singleton].
  - cbn [af_approvals]. by apply stable_sort_sorted; apply _.
Qed.
