(* ===== verification/Supervise.v ===== *)
(** * oath-sandbox: starting processes and watching them ([executor.rs], [macos.rs],
    [linux.rs])

    The portable executor and the Seatbelt launcher poll the process that they started: for
    its end, for the memory of its group, for the time. *)
From S2P Require Export Sandbox ExecAssessment.
From S2P Require Import Command.

(** ** Processes *)

(** The action that a program asks for after a trace, and that has not answered. *)
Inductive stands_at {E A} : cmd E A → list (event E) → ∀ X, E X → Prop :=
  | stands_here X (e : E X) k : stands_at (Do e k) [] X e
  | stands_later X (e : E X) k x tr Y f : stands_at (k x) tr Y f → stands_at (Do e k) (Event e x :: tr) Y f.
Lemma performs_stands {E A} (p : cmd E A) tr :
  performs p tr None → (∃ r, performs p tr (Some r)) ∨ ∃ X e, stands_at p tr X e.
Proof.
  intros Hp. remember None as o eqn:Ho. induction Hp as [p|r|X e k x tr o Hp IH]; [|done|].
  - destruct p as [r|X e k]; [left; exists r; constructor|right; exists X, e; constructor].
  - destruct (IH Ho) as [[r Hr]|(Y & f & Hf)]; [left; exists r|right; exists Y, f]; by constructor.
Qed.
Lemma safe_stands {E S A} (mon : S → ∀ X, E X → X → option S) (p : cmd E A) Q s tr X e :
  safe mon p Q s → stands_at p tr X e →
  ∃ s', watch mon s tr = Some s' ∧ ∀ x, is_Some (mon s' X e x).
Proof.
  intros Hs Ht. revert s Hs. induction Ht as [X e k|X e k x tr Y f Ht IH]; intros s Hs; simpl in *.
  - exists s. split; [done|]. intros x. destruct (Hs x) as (s' & -> & _). done.
  - destruct (Hs x) as (s' & -> & Hk). by apply IH.
Qed.

(** The code of an exit status; a signal has none. *)
Definition Status : Type := option Z.
Definition success (s : Status) : bool := bool_decide (s = Some 0%Z).
(** [Output] and [Wait] may never answer: a run can stop before any action. *)
Record Launch := {
  l_program : string; l_args : list string; l_dir : string; l_env : gmap string string;
  l_limits : option (Z * ResourceLimits) }.
Record SandboxResult := { r_exit_code : Z; r_stdout : string; r_stderr : string }.
Inductive RunAct : Type → Type :=
  | GetVar (name : string) : RunAct (option string)
  | IsFile (path : string) : RunAct bool
  | Canonical (paths : list string) : RunAct (list (string * string))
  | Ps : RunAct (option (bool * string))
  | Spawn (l : Launch) : RunAct (result string unit)
  | TryWait : RunAct (result string (option Status))
  | Output : RunAct (result string (Status * string * string))   (* wait_with_output *)
  | ListPids (capacity : Z) : RunAct (Z * list Z)
  | Footprint (pid : Z) : RunAct (option Z)
  | Elapsed : RunAct Z                                          (* nanoseconds *)
  | Kill : RunAct bool
  | KillGroup : RunAct bool
  | Wait : RunAct (result string unit)
  | Sleep (ms : Z) : RunAct unit.
Notation running := (cmd RunAct).

Definition NANOS : Z := 1000000000.
(** A loop that is out of fuel has no result; that never happens with the fuel of
    [polls]. *)
Definition no_fuel {A} : running (option A) := mret None.
Definition env_of (names : list string) : running (gmap string string) :=
  fold_cmd (λ env name,
    v ← act (GetVar name);
    mret match v with Some v => <[name := v]> env | None => env end) ∅ names.

(** ** [SandboxExecutor] *)

Fixpoint watch_child (fuel : nat) (timeout_secs : Z) : running (option SandboxResult) :=
  match fuel with
  | 0 => no_fuel
  | S fuel =>
      ended ← try TryWait;
      match ended with
      | Some _ =>
          '(status, out, err) ← try Output;
          mret (Some {| r_exit_code := default (-1)%Z status; r_stdout := out; r_stderr := err |})
      | None =>
          elapsed ← act Elapsed;
          if (timeout_secs * NANOS <? elapsed)%Z then
            _ ← act Kill; _ ← act Wait; bail "sandboxed command timed out"
          else _ ← act (Sleep 25); watch_child fuel timeout_secs
      end
  end.
Definition run_with_env (fuel : nat) (command : string) (args : list string) (policy : SandboxPolicy)
    (envs : gmap string string) : running (option SandboxResult) :=
  _ ← try (Spawn {| l_program := command; l_args := args; l_dir := workdir policy; l_env := envs; l_limits := None |});
  watch_child fuel (timeout_secs policy).
Definition execute (fuel : nat) (vars : list (string * string)) (command : string) (args : list string)
    (policy : SandboxPolicy) : running (option SandboxResult) :=
  envs ← env_of (allowed_env_names vars policy);
  run_with_env fuel command args policy envs.

(** ** macOS *)

Definition SANDBOX_EXEC : string := "/usr/bin/sandbox-exec".
Definition macos_capabilities (sandbox_exec_is_file : bool) : BackendCapabilities := {|
  backend := "macos-seatbelt-v1"; available := sandbox_exec_is_file;
  filesystem_isolation := sandbox_exec_is_file; network_isolation := sandbox_exec_is_file;
  process_isolation := sandbox_exec_is_file; resource_limits := sandbox_exec_is_file;
  degraded_reason := if sandbox_exec_is_file then None
    else Some "macOS Seatbelt launcher is unavailable; Oath will not silently downgrade" |}.
Definition macos_process_count : running Z :=
  out ← act Ps;
  mret match out with Some (true, text) => Z.of_nat (length (lines text)) | _ => 0%Z end.
(** The limits of the process, in the child before it starts; [hard] is what getrlimit says
    of the hard limit, [set] whether setrlimit takes it. *)
Definition macos_limits (existing_processes : Z) (l : ResourceLimits) : list (string * Z) :=
  [("RLIMIT_NPROC", saturating_add_u64 existing_processes (max_processes l)); ("RLIMIT_NOFILE", max_open_files l);
   ("RLIMIT_FSIZE", max_file_bytes l); ("RLIMIT_CPU", (limit_timeout_secs l `max` 1)%Z)].
Definition apply_limits (hard : string → option Z) (set : string → Z → bool) (existing_processes : Z)
    (l : ResourceLimits) : result string (list (string * Z)) :=
  mapM (λ '(name, value),
    h ← ok_or (hard name) (name +:+ " limit failed");
    let soft := (value `min` h)%Z in
    _ ← ensure (set name soft) (name +:+ " limit failed");
    Ok (name, soft)) (macos_limits existing_processes l).

Definition process_group_memory_bytes (max_processes : Z) : running Z :=
  let capacity := ((max_processes `max` 1) `min` 4096 + 8)%Z in
  '(bytes, pids) ← act (ListPids capacity);
  _ ← demand (0 <=? bytes)%Z "failed to enumerate sandbox process group";
  let count := Z.to_nat ((bytes / 4) `min` capacity) in
  fold_cmd (λ total pid,
    usage ← act (Footprint pid);
    mret match usage with Some u => saturating_add_u64 total u | None => total end)
    0%Z (filter (λ pid, (0 < pid)%Z) (take count pids)).
Fixpoint watch_group (fuel : nat) (l : ResourceLimits) : running (option Status) :=
  match fuel with
  | 0 => no_fuel
  | S fuel =>
      ended ← try TryWait;
      match ended with
      | Some status => mret (Some status)
      | None =>
          memory ← process_group_memory_bytes (max_processes l);
          if (max_memory_bytes l <? memory)%Z then
            _ ← act KillGroup; _ ← act Wait; bail "sandboxed process group exceeded memory limit"
          else
            elapsed ← act Elapsed;
            if ((limit_timeout_secs l `max` 1) * NANOS <? elapsed)%Z then
              _ ← act KillGroup; _ ← act Wait; bail "sandboxed command timed out"
            else _ ← act (Sleep 20); watch_group fuel l
      end
  end.
Definition lookup_path (known : list (string * string)) (p : string) : option string :=
  snd <$> head (filter (λ e, e.1 = p) known).
Definition macos_run (fuel : nat) (plan : SandboxPlan) (program : string) (args : list string) :
    running (option Status) :=
  there ← act (IsFile SANDBOX_EXEC);
  _ ← demand there "native macOS sandbox unavailable";
  known ← act (Canonical (read_only_paths plan ++ writable_paths plan));
  text ← lift (profile (lookup_path known) plan);
  existing ← macos_process_count;
  env ← env_of (environment_allowlist plan);
  _ ← try (Spawn {| l_program := SANDBOX_EXEC; l_args := ["-p"; text; program] ++ args; l_dir := plan_workdir plan;
                    l_env := env ∪ <["HOME" := plan_workdir plan]> {["TMPDIR" := plan_workdir plan]};
                    l_limits := Some (existing, limits plan) |});
  watch_group fuel (limits plan).

(** The probe of every capability. [probe] runs a command under a plan; the rest is what is
    seen around the runs. [unwrap_err] of a run that succeeded panics. *)
Inductive VerifyEnd := VerifyFailed (e : string) | VerifyPanic.
Definition probe_script : string :=
  replace_char "~" (String dquote "")
    ("test -z ~$OATH_MACOS_PROBE_SECRET~ && printf inside > inside-write && test ~$(cat inside-write)~ = inside && ! cat ~$1~ >/dev/null 2>&1 && ! cat /etc/passwd >/dev/null 2>&1 && ! /usr/bin/security list-keychains >/dev/null 2>&1 && ! /usr/bin/sandbox-exec -p '(version 1) (allow default)' /bin/cat ~$1~ >/dev/null 2>&1 && ! { printf escape > ~$2~; } 2>/dev/null && ! /bin/sh -c 'printf child > ~$1~' oath-child ~$2~ 2>/dev/null").
Definition with_limits (plan : SandboxPlan) (subprocesses : bool) (file_bytes memory_bytes : Z) : SandboxPlan := {|
  plan_version := plan_version plan; plan_package := plan_package plan; plan_workdir := plan_workdir plan;
  read_only_paths := read_only_paths plan; writable_paths := writable_paths plan;
  environment_allowlist := environment_allowlist plan; network := network plan; allow_subprocesses := subprocesses;
  limits := {| limit_timeout_secs := limit_timeout_secs (limits plan); max_processes := max_processes (limits plan);
               max_open_files := max_open_files (limits plan); max_file_bytes := file_bytes;
               max_memory_bytes := memory_bytes |} |}.
Section verify.
Context (probe : SandboxPlan → string → list string → result string Status)
  (setup : result string unit) (escape_exists : bool) (listener : result string Z) (reached : bool).
Definition failing {A} (r : result string A) : result VerifyEnd A :=
  match r with Ok a => Ok a | Err e => Err (VerifyFailed e) end.
Definition macos_verify (root : string) : result VerifyEnd unit :=
  _ ← failing setup;
  let workdir := pjoin root "work" in
  let plan := Sandbox.strict "oath-capability-probe" workdir in
  let l := limits plan in
  status ← failing (probe plan "/bin/sh"
    ["-c"; probe_script; "oath-probe"; pjoin root "outside-secret"; pjoin root "outside-write"]);
  _ ← failing (ensure (success status) "filesystem, environment, or child probe failed");
  _ ← failing (ensure (negb escape_exists) "sandbox child wrote outside its plan");
  port ← failing listener;
  network ← failing (probe plan "/usr/bin/nc" ["-G"; "1"; "-z"; "127.0.0.1"; pretty port]);
  _ ← failing (ensure (negb (success network)) "sandbox unexpectedly opened a network connection");
  _ ← failing (ensure (negb reached) "sandbox network probe reached the listener");
  child ← failing (probe (with_limits plan false (max_file_bytes l) (max_memory_bytes l)) "/bin/sh"
    ["-c"; "exec 2>/dev/null; /usr/bin/true & wait"]);
  _ ← failing (ensure (negb (success child)) "sandbox unexpectedly created a child process");
  oversized ← failing (probe (with_limits plan true 1 (max_memory_bytes l)) "/bin/sh" ["-c"; "printf 1234 > oversized"]);
  _ ← failing (ensure (negb (success oversized)) "sandbox file-size resource limit was not enforced");
  match probe (with_limits (Sandbox.strict "memory-probe" workdir) true (max_file_bytes l) 1) "/bin/sh" ["-c"; "sleep 2"] with
  | Ok _ => Err VerifyPanic
  | Err e => failing (ensure (contains "exceeded memory limit" e) "sandbox memory resource limit was not enforced")
  end.
End verify.

(** ** Linux *)

Definition linux_capabilities (bwrap : option string) : BackendCapabilities :=
  let available := bool_decide (is_Some bwrap) in {|
  backend := "linux-bwrap-landlock-seccomp-v3"; available := available;
  filesystem_isolation := available; network_isolation := available; process_isolation := available;
  resource_limits := available;
  degraded_reason := if available then None else Some "bubblewrap is required for native mode" |}.
Definition windows_capabilities : BackendCapabilities := {|
  backend := "windows-appcontainer-job-v2"; available := true; filesystem_isolation := true; network_isolation := true;
  process_isolation := true; resource_limits := true; degraded_reason := None |}.
(** The entries of /proc with the user that owns them. *)
Definition linux_process_count (proc : list (string * option Z)) (uid : Z) : Z :=
  Z.of_nat (length (filter (λ e, forallb is_digit (chars e.1) = true ∧ e.2 = Some uid) proc)).
(** [find(|candidate| Command::new(candidate).arg("--version").output().is_ok())] *)
Definition find_bubblewrap (starts : string → bool) : option string :=
  head (filter (λ c, starts c = true) ["bwrap"; "/usr/bin/bwrap"]).

(** ** What is watched, and for how long *)

Inductive Proc := Unborn | Alive | Killed | Gone.
#[export] Instance Proc_eq_dec : EqDecision Proc.
Proof. solve_decision. Defined.
(** [Killed]: it was told to end, which may have been refused. How long the loop has slept,
    in nanoseconds, and whether the clock agreed; how often it polled; the process; whether
    a poll failed. *)
Record Watch := { slept : Z; in_step : bool; polls : nat; proc : Proc; lost : bool }.
Definition unborn : Watch := {| slept := 0; in_step := true; polls := 0; proc := Unborn; lost := false |}.
Definition seen (s : Watch) (p : Proc) (failed : bool) : Watch :=
  {| slept := slept s; in_step := in_step s; polls := polls s; proc := p; lost := failed |}.
Definition is_proc (s : Watch) (p : Proc) : bool := bool_decide (proc s = p).
Definition must_be {A} (b : bool) (a : A) : option A := if b then Some a else None.

Section watch.
(** The time a process has, and how long the loop sleeps. *)
Context (time interval : Z).
(** As long as the clock keeps up there are no more polls than this. *)
Definition max_polls : nat := Z.to_nat (time / interval) + 2.
Definition supervised (s : Watch) X (e : RunAct X) : X → option Watch :=
  match e in RunAct X return X → option Watch with
  | Spawn _ => λ x, must_be (is_proc s Unborn) match x with Ok _ => seen s Alive (lost s) | Err _ => s end
  | TryWait => λ x,
      must_be (is_proc s Alive && (negb (in_step s) || bool_decide (S (polls s) ≤ max_polls)))
        (let s := {| slept := slept s; in_step := in_step s; polls := S (polls s); proc := proc s; lost := lost s |} in
         match x with Ok (Some _) => seen s Gone (lost s) | Ok None => s | Err _ => seen s Alive true end)
  | Output => λ _, must_be (is_proc s Gone) s
  | ListPids _ => λ x, must_be (is_proc s Alive) (if (0 <=? x.1)%Z then s else seen s Alive true)
  | Footprint _ => λ _, must_be (is_proc s Alive) s
  | Elapsed => λ x,
      must_be (is_proc s Alive)
        {| slept := slept s; in_step := in_step s && (slept s <=? x)%Z; polls := polls s; proc := proc s; lost := lost s |}
  | Kill | KillGroup => λ _, must_be (is_proc s Alive) (seen s Killed (lost s))
  | Wait => λ x, must_be (is_proc s Killed) match x with Ok _ => seen s Gone (lost s) | Err _ => s end
  | Sleep ms => λ _,
      must_be (is_proc s Alive)
        {| slept := slept s + ms * 1000000; in_step := in_step s; polls := polls s; proc := proc s; lost := lost s |}
  | _ => λ _, Some s
  end.
Definition ended {A} (r : result Stop (option A)) (s : Watch) : Prop :=
  match r with
  | Ok (Some _) => proc s = Gone
  | Ok None => in_step s = false
  | Err _ => proc s = Unborn ∨ proc s = Gone ∨ proc s = Killed ∨ lost s = true
  end.
(** An action that may wait for ever, and when one is asked for. *)
Definition can_wait {X} (e : RunAct X) : bool := match e with Output | Wait => true | _ => false end.
Definition waits_for {X} (e : RunAct X) (s : Watch) : Prop :=
  match e with Output => proc s = Gone | Wait => proc s = Killed | _ => False end.
(** What holds of every run of a program, also of one that stands at an action. *)
Definition watched_over {A} (p : running (option A)) : Prop := ∀ tr o, performs p tr o →
  ∃ s, watch supervised unborn tr = Some s ∧ (∀ r, o = Some r → ended r s) ∧
    (o = None → (∃ r, performs p tr (Some r)) ∨
       ∃ X (e : RunAct X), stands_at p tr X e ∧ (can_wait e = true → waits_for e s)).
Notation watched p Q s := (safe supervised p Q s).

Lemma safe_watched_over {A} (p : running (option A)) : watched p ended unborn → watched_over p.
Proof.
  intros Hs tr o Hp. destruct (safe_sound _ _ _ _ _ _ Hs Hp) as (s & Hw & Hr). exists s.
  split; [done|]. split; [done|]. intros ->. destruct (performs_stands _ _ Hp) as [?|(X & e & He)]; [by left|right].
  exists X, e. split; [done|]. destruct (safe_stands _ _ _ _ _ _ _ Hs He) as (s' & Hw' & Hm).
  rewrite Hw in Hw'. injection Hw' as <-. intros Hc.
  assert (Hget : ∀ p (a : Watch), is_Some (must_be (is_proc s p) a) → proc s = p).
  { intros q a. unfold is_proc, must_be. destruct (bool_decide _) eqn:Hb; [by apply bool_decide_eq_true in Hb|].
    by intros [? ?]. }
  destruct e; try done; cbn [waits_for supervised] in *.
  - apply (Hget Gone s), (Hm (Err "")).
  - by eapply Hget, (Hm (Err "")).
Qed.
(** At the head of the loop. *)
Definition waiting (fuel : nat) (s : Watch) : Prop :=
  proc s = Alive ∧ (in_step s = true →
    slept s = (Z.of_nat (polls s) * interval)%Z ∧ (polls s = 0 ∨ ((Z.of_nat (polls s) - 1) * interval ≤ time)%Z) ∧
    max_polls ≤ fuel + polls s).
Context (Hinterval : (0 < interval)%Z) (Htime : (0 ≤ time)%Z).
Lemma waiting_polls fuel s : waiting fuel s → in_step s = true → S (polls s) ≤ max_polls ∧ fuel ≠ 0.
Proof.
  intros [_ Hw] Hh. destruct (Hw Hh) as (_ & Hp & Hf). unfold max_polls in *.
  pose proof (Z.div_pos time interval Htime Hinterval) as Hpos.
  assert (Z.of_nat (polls s) - 1 ≤ time / interval)%Z; [|lia].
  destruct Hp as [->|Hp]; [lia|]. apply Z.div_le_lower_bound; [done|]. lia.
Qed.
(** One round up to the question about the time, and on to the next round. *)
Lemma waiting_time fuel s x :
  waiting (S fuel) s → (time <? x)%Z = false →
  waiting fuel {| slept := slept s + interval; in_step := in_step s && (slept s <=? x)%Z; polls := S (polls s);
                  proc := proc s; lost := lost s |}.
Proof.
  intros [Ha Hw] Hx. split; [done|]. cbn [slept in_step polls]. intros [Hh Hs]%andb_true_iff.
  destruct (Hw Hh) as (Hsl & Hp & Hf). lia.
Qed.
Lemma safe_poll {A} fuel s (f : option Status → running A) Q :
  waiting (S fuel) s →
  (∀ status s', proc s' = Gone → watched (f (Some status)) Q s') →
  watched (f None) Q {| slept := slept s; in_step := in_step s; polls := S (polls s); proc := Alive; lost := lost s |} →
  (∀ e s', lost s' = true → Q (Err e) s') →
  watched (ended ← try TryWait; f ended) Q s.
Proof.
  intros Hw Hend Hnone Hlost. apply safe_try. intros x.
  assert (Hg : is_proc s Alive && (negb (in_step s) || bool_decide (S (polls s) ≤ max_polls)) = true).
  { unfold is_proc. rewrite bool_decide_eq_true_2 by apply Hw. destruct (in_step s) eqn:Hh; [|done]. simpl.
    apply bool_decide_eq_true. by apply (waiting_polls (S fuel)). }
  eexists. split; [cbn [supervised]; rewrite Hg; reflexivity|].
  destruct Hw as [Ha _]. rewrite Ha. destruct x as [[status|]|e]; [by apply Hend|done|by apply Hlost].
Qed.
End watch.

Definition EXECUTOR_SLEEP : Z := 25 * 1000000.
Definition SEATBELT_SLEEP : Z := 20 * 1000000.
Lemma waiting_honest time interval s :
  (0 < interval)%Z → (0 ≤ time)%Z → waiting time interval 0 s → in_step s = false.
Proof.
  intros Hi Ht Hw. destruct (in_step s) eqn:Hh; [|done].
  by destruct (waiting_polls time interval Hi Ht 0 s Hw Hh) as [_ []].
Qed.
Lemma kill_and_wait time interval {A} (kill : RunAct bool) e s :
  kill = Kill ∨ kill = KillGroup → proc s = Alive →
  safe (supervised time interval) (_ ← act kill; _ ← act Wait; bail e) (@ended A) s.
Proof.
  intros Hk Ha. assert (Hp : is_proc s Alive = true) by (unfold is_proc; by apply bool_decide_eq_true).
  intros x. exists (seen s Killed (lost s)). split; [destruct Hk as [-> | ->]; cbn [supervised]; by rewrite Hp|].
  intros y. eexists. split; [reflexivity|]. destruct y; [by right; left|by right; right; left].
Qed.
Lemma watch_child_ends fuel t s :
  (0 ≤ t)%Z → waiting (t * NANOS) EXECUTOR_SLEEP fuel s →
  safe (supervised (t * NANOS) EXECUTOR_SLEEP) (watch_child fuel t) ended s.
Proof.
  intros Ht. assert (Htime : (0 ≤ t * NANOS)%Z) by (unfold NANOS; lia).
  revert s. induction fuel as [|fuel IH]; intros s Hw; [by apply (waiting_honest _ _ s) in Hw|].
  apply (safe_poll (t * NANOS) EXECUTOR_SLEEP ltac:(done) Htime fuel); [done|..].
  - intros status s' Hg. apply safe_try. intros [[[c out] err]|e]; exists s';
      (split; [cbn [supervised]; unfold is_proc; by rewrite bool_decide_eq_true_2|]); [done|by right; left].
  - apply safe_act. intros x. eexists. split; [reflexivity|]. destruct (t * NANOS <? x)%Z eqn:Hx.
    + apply kill_and_wait; [by auto|done].
    + intros []; eexists; (split; [reflexivity|]). apply IH. destruct s as [sl h p pr lo].
      pose proof Hw as [Ha _]. cbn [proc] in Ha. subst pr.
      apply (waiting_time _ EXECUTOR_SLEEP Htime fuel _ x Hw Hx).
  - intros e s' Hl. by right; right; right.
Qed.
Definition same_or_lost {A} (s : Watch) (r : result Stop A) (s' : Watch) : Prop :=
  match r with Ok _ => s' = s | Err _ => lost s' = true end.
Lemma memory_watched time interval n s :
  proc s = Alive → safe (supervised time interval) (process_group_memory_bytes n) (same_or_lost s) s.
Proof.
  intros Ha. assert (Hp : is_proc s Alive = true) by (unfold is_proc; by apply bool_decide_eq_true).
  intros [bytes pids]. eexists. split; [cbn [supervised]; rewrite Hp; reflexivity|]. cbn [fst].
  apply watch_lift. unfold ensure. destruct (0 <=? bytes)%Z; [|done].
  match goal with |- safe _ (fold_cmd ?f _ _) ?Q _ => set (step := f);
    enough (H : ∀ l total, safe (supervised time interval) (fold_cmd step total l) Q s) by apply H end.
  intros l. induction l as [|pid l IH]; intros total; [exact eq_refl|]. cbn [fold_cmd]. apply watch_bind. unfold step at 1.
  intros usage. exists s. split; [cbn [supervised]; by rewrite Hp|]. destruct usage; apply IH.
Qed.
Definition group_time (l : ResourceLimits) : Z := (limit_timeout_secs l `max` 1) * NANOS.
Lemma watch_group_ends fuel l s :
  waiting (group_time l) SEATBELT_SLEEP fuel s →
  safe (supervised (group_time l) SEATBELT_SLEEP) (watch_group fuel l) ended s.
Proof.
  assert (Htime : (0 ≤ group_time l)%Z) by (unfold group_time, NANOS; lia).
  revert s. induction fuel as [|fuel IH]; intros s Hw; [by apply (waiting_honest _ _ s) in Hw|].
  apply (safe_poll (group_time l) SEATBELT_SLEEP ltac:(done) Htime fuel); [done|..].
  - intros status s' Hg. exact Hg.
  - apply watch_bind. eapply watch_mono; [by apply memory_watched|].
    intros [memory|e] s' Hs; [cbn in Hs; subst s'|by right; right; right].
    destruct (max_memory_bytes l <? memory)%Z.
    { apply kill_and_wait; [by auto|done]. }
    apply safe_act. intros x. eexists. split; [reflexivity|]. fold (group_time l). destruct (group_time l <? x)%Z eqn:Hx.
    + apply kill_and_wait; [by auto|done].
    + intros []; eexists; (split; [reflexivity|]). apply IH. destruct s as [sl h p pr lo].
      pose proof Hw as [Ha _]. cbn [proc] in Ha. subst pr.
      apply (waiting_time _ SEATBELT_SLEEP Htime fuel _ x Hw Hx).
  - intros e s' Hl. by right; right; right.
Qed.
(** What happens before the process is there. *)
Definition early X (e : RunAct X) : Prop :=
  match e with GetVar _ | IsFile _ | Canonical _ | Ps => True | _ => False end.
Lemma early_after time interval {A B} (p : running A) (f : A → running B) Q s :
  only early p → (∀ a, safe (supervised time interval) (f a) Q s) → (∀ e, Q (Err e) s) →
  safe (supervised time interval) (p ≫= f) Q s.
Proof.
  intros Hp Hf HQ. apply (safe_after early _ (eq s)); [|done|done|by intros a ? <-|by intros e ? <-].
  intros X e x t He <-. exists s. by destruct e.
Qed.
Lemma env_early names : only early (env_of names).
Proof. unfold env_of. only_tac. Qed.
Lemma spawned time interval fuel :
  max_polls time interval ≤ fuel → waiting time interval fuel (seen unborn Alive false).
Proof. intros Hf. split; [done|]. intros _. cbn. split; [lia|]. split; [by left|lia]. Qed.
(** (C31) A process that the executor or the macOS launcher starts is watched: as long as the
    clock moves on at least as far as the loop slept, there are no more polls than the time
    the process has allows, whatever the process does, and the fuel for these is never used
    up. A run that comes to a result leaves a process that ended, or that was told to end
    and whose wait failed, unless a poll itself failed; it is never asked about, killed or
    waited for when it is not there. A run that has no result stands at an action that has
    not answered; the only ones that can wait without a limit are reading the rest of the
    output, after the process ended, which its descendants can hold up, and waiting after
    the kill was sent, which can be refused: nothing looks at that answer. *)
Theorem supervision_spec fuel :
  (∀ vars command args policy, (0 ≤ timeout_secs policy)%Z →
     max_polls (timeout_secs policy * NANOS) EXECUTOR_SLEEP ≤ fuel →
     watched_over (timeout_secs policy * NANOS) EXECUTOR_SLEEP (execute fuel vars command args policy)) ∧
  (∀ plan program args,
     max_polls (group_time (limits plan)) SEATBELT_SLEEP ≤ fuel →
     watched_over (group_time (limits plan)) SEATBELT_SLEEP (macos_run fuel plan program args)).
Proof.
  split.
  - intros vars command args policy Ht Hf. apply safe_watched_over. unfold execute.
    apply early_after; [apply env_early|intros env|by left]. unfold run_with_env. apply safe_try.
    intros [[]|e]; (eexists; split; [reflexivity|]); [|by left]. apply watch_child_ends; [done|by apply spawned].
  - intros plan program args Hf. apply safe_watched_over. unfold macos_run.
    apply early_after; [by apply only_act|intros there|by left].
    apply early_after; [done|intros _|by left]. apply early_after; [by apply only_act|intros known|by left].
    apply early_after; [done|intros text|by left].
    apply early_after; [unfold macos_process_count; only_tac|intros n|by left].
    apply early_after; [apply env_early|intros env|by left]. apply safe_try.
    intros [[]|e]; (eexists; split; [reflexivity|]); [|by left]. apply watch_group_ends. by apply spawned.
Qed.

(** ** A process that does not end *)

Definition stuck (X : Type) (e : RunAct X) : X :=
  match e in RunAct X return X with
  | GetVar _ => Some "v"
  | IsFile _ => true
  | Canonical ps => (λ p, (p, p)) <$> ps
  | Ps => Some (true, "1")
  | Spawn _ => Ok tt
  | TryWait => Ok None
  | Output => Err "no output"
  | ListPids _ => (8%Z, [7; 0]%Z)
  | Footprint _ => Some 4096%Z
  | Elapsed => (31 * NANOS)%Z
  | Kill | KillGroup => true
  | Wait => Ok tt
  | Sleep _ => tt
  end.
Definition demo_policy : SandboxPolicy := Sandbox.minimal "pkg" "/work".
Definition demo_run : list (event RunAct) * result Stop (option SandboxResult) :=
  run stuck (execute 2000 [] "/bin/true" [] demo_policy).
Lemma supervision_spec_witness :
  demo_run.2 = Err (Bail "sandboxed command timed out") ∧
  ∃ s, watch (supervised (timeout_secs demo_policy * NANOS) EXECUTOR_SLEEP) unborn demo_run.1 = Some s ∧ proc s = Gone.
Proof.
  split; [by vm_compute|].
  destruct (supervision_spec 2000) as [H _].
  destruct (H [] "/bin/true" [] demo_policy ltac:(done)) with demo_run.1 (Some demo_run.2) as (s & Hs & Hr & _); [|apply run_performs|].
  { apply (bool_decide_unpack _). by vm_compute. }
  exists s. split; [done|]. specialize (Hr _ eq_refl).
  assert (watch (supervised (timeout_secs demo_policy * NANOS) EXECUTOR_SLEEP) unborn demo_run.1 =
    Some {| slept := 0; in_step := true; polls := 1; proc := Gone; lost := false |}) as Hc by (by vm_compute).
  rewrite Hc in Hs. by injection Hs as <-.
Defined.
(** macOS: a listing of the group that fails ends the watch and leaves the process alone. *)
Definition no_listing (X : Type) (e : RunAct X) : X :=
  match e in RunAct X return X with ListPids c => ((-1)%Z, []) | e => stuck _ e end.
Example unwatched_process :
  let '(tr, r) := run no_listing (macos_run 2000 (Sandbox.strict "pkg" "/work") "/bin/sh" []) in
  r = Err (Bail "failed to enumerate sandbox process group") ∧
  proc <$> watch (supervised (group_time default_limits) SEATBELT_SLEEP) unborn tr = Some Alive.
Proof. by vm_compute. Qed.
(** The process ended, and its output is waited for. *)
Example held_up_output :
  let p := execute 2000 [] "/bin/sh" [] demo_policy in
  let tr := [Event (Spawn {| l_program := "/bin/sh"; l_args := []; l_dir := workdir demo_policy;
                             l_env := ∅; l_limits := None |}) (Ok tt);
             Event TryWait (Ok (Some (Some 0%Z)))] in
  stands_at p tr _ Output.
Proof.
  intros p tr. subst p tr. unfold execute. replace (allowed_env_names [] demo_policy) with (@nil string) by by vm_compute.
  repeat constructor.
Qed.
