(* ===== verification/Exec.v ===== *)
(** * oath-cli: executing a package ([main.rs], [cmd_exec])

    What [oath exec] does: choose the sandbox, look the release up, refuse one that is too
    young, install it aside, scan and score it, refuse a grade that is too low, show the
    verdict or ask, and run its binary in the sandbox. *)
From S2P Require Import Store Core Score Report Versions Tarball Git Workspace Placement Cli Command Install.
From S2P Require Import ExecAssessment.

(** ** Actions *)

Section actions.
Context {ED : Ed25519}.
(** Lengths of the files of a directory; one that cannot be listed has none. *)
Inductive Sizes := FileOf (len : Z) | DirOf (entries : list (string * Sizes)).
Inductive ExecAct : Type → Type :=
  | Base {X} (e : Act X) : ExecAct X
  | NodeHelp : ExecAct (option string)
  | MakeTempDir : ExecAct (result string string)
  | ReadMetadata (name : string) : ExecAct (option (option Z * option Z))
  | ReadPackageDir (dir : string) : ExecAct PackageDir
  | ReadSizes (dir : string) : ExecAct Sizes
  | ReadApprovals (path : string) : ExecAct (option (result string ApprovalFile))
  | WriteApprovals (path : string) (f : ApprovalFile) : ExecAct (result string unit)
  | DecisionKey : ExecAct (result string SigningKey)
  | PrintJson (j : Json) : ExecAct unit
  | ReadLine : ExecAct (result string string)
  | RunPlain (program : string) (args : list string) : ExecAct (result string (option Z))
  | NodeExecutable : ExecAct (result string string)
  | RunSandboxed (plan : SandboxPlan) (program : string) (args : list string) : ExecAct (result string (option Z)).
End actions.

Section exec.
Context {SV : Semver} {SH : Sha256Hex} {HI : HashIter} {SHA : Digest} {JT : JsonText} {B64 : Base64} {ED : Ed25519}.
Notation excmd := (cmd ExecAct).
Definition base {A} (p : command A) : excmd A := embed (@Base ED) p.
Definition ask {X} (e : Act X) : excmd X := act (Base e).
Definition must {A} (e : Act (result string A)) : excmd A := try (Base e).

Record ExecOptions := {
  e_package : string; e_args : list string; e_yes : bool; e_min_age : option string; e_json : bool;
  e_schema_version : N; e_require_grade : option string; e_dry_run : bool; e_sandbox : bool;
  e_sandbox_mode : ExecSandboxMode; e_deny_network : bool; e_allow_degraded : bool; e_remember : bool }.
(** The system the command line is built for. *)
Inductive Platform := Linux | Windows | MacOs | OtherPlatform.
Variables (platform : Platform) (cargo_version : string).
(** [verified_native_capabilities()]: the probe runs once, its result is kept. *)
Variable verified_native : BackendCapabilities.
Variable o : ExecOptions.

Definition EXEC_EXIT_GRADE : Z := 10.
Definition EXEC_EXIT_AGE : Z := 11.
Definition EXEC_EXIT_USER : Z := 13.
(** [std::process::exit(status.code().unwrap_or(1))] *)
Definition exit_as {A} (status : option Z) : excmd A := exit_with (default 1%Z status).

(** ** The sandbox *)

Definition node_permission_flag : excmd (option string) :=
  help ← act NodeHelp; mret (permission_flag help).
Definition resolve_exec_sandbox : excmd ExecSandboxDecision :=
  v ← ask (GetEnv "OATH_AGENT_MODE");
  let agent := is_agent_mode v in
  let requested := requested_sandbox (e_sandbox o) agent (e_sandbox_mode o) in
  if decide (requested = Off) then
    mret {| requested_mode := requested; effective_mode := Off; agent_mode := agent |}
  else
    flag ← node_permission_flag;
    effective ← lift (resolve_exec_sandbox_capabilities requested (e_allow_degraded o)
                        (bool_decide (is_Some flag)) verified_native);
    mret {| requested_mode := requested; effective_mode := effective; agent_mode := agent |}.
Definition deny_network (d : ExecSandboxDecision) : bool := e_deny_network o || agent_mode d.
Definition node_capabilities : BackendCapabilities := {|
  backend := "node-permissions"; available := true; filesystem_isolation := true; network_isolation := true;
  process_isolation := false; resource_limits := false;
  degraded_reason := Some "Node permissions are not an OS process sandbox" |}.
Definition exec_sandbox_capabilities (m : ExecSandboxMode) : BackendCapabilities :=
  match m with
  | Native => verified_native
  | Node => node_capabilities
  | _ => nothing_isolated "off" true "sandbox disabled"
  end.
Definition run_node_binary (bin_path exec_path : string) (mode : ExecSandboxMode) (plan : option SandboxPlan) :
    excmd (option Z) :=
  let args := bin_path :: e_args o in
  let native (program : string) :=
    plan ← need plan "native sandbox requires a sandbox plan"; try (RunSandboxed plan program args) in
  let plain :=
    permissions ← (if decide (mode = Node) then
      flag ← node_permission_flag;
      flag ← need flag "Node permission sandbox is unavailable on this Node runtime";
      cwd ← must CurrentDir;
      tmp ← ask TempDir;
      mret [flag; "--allow-fs-read=" +:+ cwd; "--allow-fs-read=" +:+ exec_path; "--allow-fs-read=" +:+ tmp;
            "--allow-fs-write=" +:+ cwd; "--allow-fs-write=" +:+ tmp]
    else mret []);
    try (RunPlain "node" (permissions ++ args)) in
  if decide (mode = Native) then
    match platform with
    | Linux => native "/usr/bin/node"
    | Windows => native "node.exe"
    | MacOs =>
        plan ← need plan "native sandbox requires a sandbox plan";
        node ← try NodeExecutable;
        try (RunSandboxed
          {| plan_version := plan_version plan; plan_package := plan_package plan; plan_workdir := plan_workdir plan;
             read_only_paths := read_only_paths plan ++ [node]; writable_paths := writable_paths plan;
             environment_allowlist := environment_allowlist plan; Sandbox.network := Sandbox.network plan;
             allow_subprocesses := allow_subprocesses plan; limits := limits plan |} node args)
    | OtherPlatform => plain
    end
  else plain.

(** ** The release *)

Record Release := {
  r_name : string; r_version : string; r_integrity : option string; r_full : option Json;
  r_age_days : option N; r_publisher : option string; r_repository : option string }.
Definition path_str (ks : list string) (j : Json) : option string :=
  foldl (λ j k, j ≫= jget k) (Some j) ks ≫= as_str.
Definition first_of (j : Json) : option Json := match j with JArray (x :: _) => Some x | _ => None end.
Definition publisher_of (full : Json) (version : string) : option string :=
  match path_str ["versions"; version; "_npmUser"; "name"] full with
  | Some p => Some p
  | None => ((jget "maintainers" full ≫= first_of) ≫= jget "name") ≫= as_str
  end.
Definition repository_of (full : Json) : option string :=
  r ← jget "repository" full;
  match jget "url" r ≫= as_str with Some u => Some u | None => as_str r end.
Definition days_old (full : option Json) (version : string) : excmd (option N) :=
  match full ≫= path_str ["time"; version] with
  | None => mret None
  | Some iso =>
      now ← ask Now;
      match parse_iso_age_secs now iso with
      | Ok secs => mret (Some (Z.to_N (secs / 86400)))
      | Err Absent => mret None
      | Err Panic => exit_with 101
      end
  end.
Definition find_release : excmd Release :=
  let '(name, specifier) := parse_package_spec (e_package o) in
  _ ← must NewClient;
  packument ← must (FetchPackument name);
  '(version, info) ← lift (resolve_version packument specifier);
  fetched ← ask (FetchFull name);
  let full := match fetched with Ok j => Some j | Err _ => None end in
  age ← days_old full version;
  mret {| r_name := name; r_version := version; r_integrity := dist_integrity (dist info); r_full := full;
          r_age_days := age; r_publisher := full ≫= λ j, publisher_of j version;
          r_repository := full ≫= repository_of |}.
Definition identity_of_release (r : Release) (binary : option string) : ExecIdentity := {|
  x_name := r_name r; x_version := r_version r; x_binary := binary;
  x_registry := "https://registry.npmjs.org"; x_integrity := r_integrity r; x_publisher := r_publisher r;
  x_publish_age_days := r_age_days r; x_repository := r_repository r |}.

(** ** What is printed *)

Definition jz (n : Z) : Json := JNumber (pretty n).
Definition plan_json (p : SandboxPlan) : Json := JObject
  [("version", jz (plan_version p)); ("package", JString (plan_package p)); ("workdir", JString (plan_workdir p));
   ("read_only_paths", jstrings (read_only_paths p)); ("writable_paths", jstrings (writable_paths p));
   ("environment_allowlist", jstrings (environment_allowlist p));
   ("network", JString match Sandbox.network p with Sandbox.Deny => "deny" | Inherit => "inherit" end);
   ("allow_subprocesses", JBool (allow_subprocesses p));
   ("limits", JObject
     [("timeout_secs", jz (limit_timeout_secs (limits p))); ("max_processes", jz (max_processes (limits p)));
      ("max_open_files", jz (max_open_files (limits p))); ("max_file_bytes", jz (max_file_bytes (limits p)));
      ("max_memory_bytes", jz (max_memory_bytes (limits p)))])].
Definition exec_identity_json (i : ExecIdentity) : Json := JObject
  [("name", JString (x_name i)); ("version", JString (x_version i)); ("binary", jopt JString (x_binary i));
   ("registry", JString (x_registry i)); ("integrity", jopt JString (x_integrity i));
   ("publisher", jopt JString (x_publisher i)); ("publish_age_days", jopt jnat (x_publish_age_days i));
   ("repository", jopt JString (x_repository i))].
Definition exec_policy_json (p : ExecPolicy) : Json := JObject
  [("decision", JString (xp_decision p)); ("reason_code", JString (reason_str (xp_reason_code p)));
   ("grade", JString (xp_grade p)); ("score", jnat (xp_score p))].
Definition exec_assessment_json (a : ExecAssessment) : Json := JObject
  [("schema_version", jnat (xa_schema_version a)); ("identity", exec_identity_json (xa_identity a));
   ("evidence", evidence_json (xa_evidence a)); ("policy", exec_policy_json (xa_policy a));
   ("sandbox", sandbox_json (sandbox_evidence (xa_sandbox a))); ("sandbox_plan", jopt plan_json (xa_sandbox_plan a))].
(** The maps of serde_json are sorted. *)
Definition to_value (j : Json) : Json := canon j.
(** The digest of the flags a decision was made with. *)
Definition flags_digest (d : ExecSandboxDecision) (more : list (string * Json)) : string :=
  digest_json (to_value (JObject
    ([("require_grade", jopt JString (e_require_grade o)); ("min_age", jopt JString (e_min_age o))] ++ more
     ++ [("sandbox_mode", JString (mode_str (effective_mode d))); ("deny_network", JBool (deny_network d));
         ("allow_degraded_sandbox", JBool (e_allow_degraded o))]))).
Definition assessment_value (a : ExecAssessment) (policy_digest : string) : excmd Json :=
  if decide (e_schema_version o = 2%N) then mret (to_value (exec_assessment_json a))
  else
    now ← ask Now;
    key ← try DecisionKey;
    mret (to_value (exec_json (signed_v3 cargo_version key a (Z.to_N (default 0%Z now)) policy_digest))).

(** ** Release age *)

Definition too_young_evidence : PackageEvidence := {|
  ev_unpacked_bytes := 0; ev_dependency_count := 0; ev_readable_source := false; ev_obfuscated := false;
  ev_native_code := false; ev_lifecycle_hooks := false; ev_capabilities := []; ev_findings := [];
  ev_limitations :=
    ["Artifact analysis was skipped because release-age policy denied execution before download"];
  ev_version_diff := None |}.
Definition min_days : option N := (λ secs, Z.to_N ((secs / 86400) `max` 1)) <$> (e_min_age o ≫= parse_duration_secs).
Definition too_young (r : Release) : option (N * N) :=
  days ← r_age_days r; m ← min_days; if decide (days < m)%N then Some (days, m) else None.
Definition refuse_age (d : ExecSandboxDecision) (r : Release) (days m : N) : excmd unit :=
  _ ← when (e_json o) (
    value ← assessment_value
      {| xa_schema_version := EXEC_ASSESSMENT_V2; xa_identity := identity_of_release r None;
         xa_evidence := too_young_evidence;
         xa_policy := {| xp_decision := "block"; xp_reason_code := ExecReleaseTooNew; xp_grade := "unknown"; xp_score := 0 |};
         xa_sandbox := exec_sandbox_capabilities (effective_mode d); xa_sandbox_plan := None |}
      (flags_digest d [("minimum_age_days", jnat m)]);
    act (PrintJson (to_value (JObject
      [("assessment", value); ("name", JString (r_name r)); ("version", JString (r_version r));
       ("age_days", jnat days);
       ("decision", JString (if decide (e_schema_version o = 2%N) then "block" else "deny"));
       ("reason", JString "min-age")]))));
  exit_with EXEC_EXIT_AGE.
Definition age_gate (d : ExecSandboxDecision) (r : Release) : excmd unit :=
  match too_young r with Some (days, m) => refuse_age d r days m | None => mret tt end.

(** ** Inspection *)

Definition is_dir (t : Sizes) : bool := match t with DirOf _ => true | FileOf _ => false end.
Fixpoint total_size (t : Sizes) : Z :=
  match t with
  | FileOf len => len
  | DirOf entries => foldr Z.add 0%Z
      ((λ '(n, t), if is_dir t && bool_decide (n = "node_modules") then 0%Z else total_size t) <$> entries)
  end.
Definition dir_size (t : Sizes) : Z := if is_dir t then to_u64 (total_size t) else 0%Z.
(** Everything that is known before the decision. *)
Record Inspection := {
  i_dir : string; i_pkg_dir : string; i_report : AnalysisReport; i_score : SafetyScore; i_bytes : Z;
  i_dependencies : nat; i_binary : option (list string); i_native_code : bool }.
Definition exec_manifest (r : Release) : Json :=
  to_value (JObject [("name", JString "oath-exec-tmp"); ("version", JString "0.0.0");
                     ("dependencies", JObject [(r_name r, JString (r_version r))])]).
Definition install_aside (r : Release) : excmd (string * DepGraph) :=
  dir ← try MakeTempDir;
  _ ← must (WriteJson (pjoin dir "package.json") (exec_manifest r));
  base (
    plan ← plan_dir dir default_request;
    g ← lift (to_dep_graph plan);
    _ ← try OpenStore;
    _ ← try NewClient;
    m ← missing_store_nodes g;
    _ ← download_missing_nodes m.1;
    _ ← try (LinkPlan plan dir);
    mret (dir, g)).
Definition score_context (name : string) : excmd ScoreContext :=
  meta ← act (ReadMetadata name);
  mret {| is_dev := false; weekly_downloads := default 0%Z (meta ≫= fst);
          Score.age_days := wrap_u 32 (default 0%Z (meta ≫= snd)) |}.
Definition preferred_binary (pkg_dir name : string) : excmd (option (list string)) :=
  there ← ask (Install.Exists (pjoin pkg_dir "package.json"));
  if there : bool then j ← must (ReadJson (pjoin pkg_dir "package.json")); mret (preferred_bin_path j name)
  else mret None.
Definition any_there (dir : string) (names : list string) : excmd bool :=
  fold_cmd (λ found n, if found : bool then mret true else ask (Install.Exists (pjoin dir n))) false names.
Definition inspect (r : Release) : excmd Inspection :=
  '(dir, g) ← install_aside r;
  let pkg_dir := pjoin dir ("node_modules/" +:+ r_name r) in
  report ← must (Scan (r_name r) (r_version r) pkg_dir);
  ctx ← score_context (r_name r);
  files ← act (ReadPackageDir pkg_dir);
  sizes ← act (ReadSizes pkg_dir);
  binary ← preferred_binary pkg_dir (r_name r);
  native ← any_there pkg_dir ["binding.gyp"; "prebuilds"];
  mret {| i_dir := dir; i_pkg_dir := pkg_dir; i_report := report;
          i_score := compute_safety_score_contextual report files ctx;
          i_bytes := dir_size sizes; i_dependencies := size (nodes g); i_binary := binary; i_native_code := native |}.

(** ** The decision *)

Definition caps_of (i : Inspection) : Capabilities := capabilities (i_report i).
Definition perms (i : Inspection) : list string :=
  let c := caps_of i in
  (if Report.network c then ["network"] else []) ++ (if filesystem c then ["filesystem"] else [])
  ++ (if env_access c then ["env"] else []) ++ (if subprocess c then ["subprocess"] else [])
  ++ (if dynamic_exec c then ["eval"] else []) ++ (if has_install_scripts c then ["install-scripts"] else []).
Definition is_high (r : RiskLevel) : bool := match r with High | Critical => true | _ => false end.
Definition obfuscated (i : Inspection) : bool :=
  existsb (λ f, bool_decide (kind f = Obfuscation) && is_high (risk f)) (findings (i_report i)).
Definition serious (i : Inspection) : list string :=
  if is_high (overall_risk (i_report i)) then verdict_reasons (i_report i) else [].
Definition grade_text (i : Inspection) : string := String (grade (i_score i)) "".
Definition grade_blocked (i : Inspection) : bool :=
  match e_require_grade o with
  | Some g => grade_rank (grade (i_score i)) <? grade_rank (default "A"%char (head (chars g)))
  | None => false
  end.
Definition exec_plan (d : ExecSandboxDecision) (r : Release) (i : Inspection) : option SandboxPlan :=
  if decide (effective_mode d = Off) then None
  else
    let p := Sandbox.strict (r_name r) (i_dir i) in
    Some {| plan_version := plan_version p; plan_package := plan_package p; plan_workdir := plan_workdir p;
            read_only_paths := read_only_paths p; writable_paths := writable_paths p;
            environment_allowlist := environment_allowlist p;
            Sandbox.network := if negb (deny_network d) && Report.network (caps_of i) then Inherit else Sandbox.network p;
            allow_subprocesses := allow_subprocesses p; limits := limits p |}.
Definition exec_evidence (r : Release) (i : Inspection) : PackageEvidence := {|
  ev_unpacked_bytes := Z.to_N (i_bytes i); ev_dependency_count := N.of_nat (i_dependencies i);
  ev_readable_source := negb (obfuscated i); ev_obfuscated := obfuscated i; ev_native_code := i_native_code i;
  ev_lifecycle_hooks := has_install_scripts (caps_of i); ev_capabilities := perms i; ev_findings := serious i;
  ev_limitations := ["Static analysis cannot prove safety";
                     "Remote second-stage payloads and opaque binaries may evade inspection"];
  ev_version_diff := r_full r ≫= λ full,
    previous_release_diff full (r_version r) (r_publisher r) (has_install_scripts (caps_of i)) |}.
Definition exec_assessment (caps : BackendCapabilities) (d : ExecSandboxDecision) (r : Release) (i : Inspection) :
    ExecAssessment := {|
  xa_schema_version := EXEC_ASSESSMENT_V2;
  xa_identity := identity_of_release r (RustStr.join "/" <$> i_binary i);
  xa_evidence := exec_evidence r i;
  xa_policy := {|
    xp_decision := if grade_blocked i then "block" else "allow";
    xp_reason_code := if grade_blocked i then ExecGradeBelowRequired else ExecAllowed;
    xp_grade := grade_text i; xp_score := Z.to_N (score (i_score i)) |};
  xa_sandbox := caps; xa_sandbox_plan := exec_plan d r i |}.
Definition approval_of (caps : BackendCapabilities) (d : ExecSandboxDecision) (r : Release) (i : Inspection) :
    ExecApproval := {|
  ap_package := r_name r; ap_version := r_version r; ap_integrity := default "" (r_integrity r);
  ap_capabilities := perms i; ap_sandbox_backend := backend caps; ap_deny_network := deny_network d |}.
Definition approvals_path : excmd string :=
  home ← ask Home;
  home ← need home "HOME or USERPROFILE is required for approval storage";
  mret (pjoin home ".oath/exec-approvals.json").
Definition previously_approved (path : string) (a : ExecApproval) : excmd bool :=
  if decide (ap_integrity a = "") then mret false
  else file ← act (ReadApprovals path); lift (is_approved file a).
Definition risk_debug (r : RiskLevel) : string :=
  match r with
  | Clean => "Clean" | Info => "Info" | Low => "Low" | Medium => "Medium" | High => "High" | Critical => "Critical"
  end.
Definition verdict_json (d : ExecSandboxDecision) (r : Release) (i : Inspection) (approved : bool) (assessment : Json) :
    Json := JObject
  [("assessment", assessment);
   ("approval", JObject [("integrity_bound", JBool true); ("previously_approved", JBool approved)]);
   ("name", JString (r_name r)); ("version", JString (r_version r)); ("integrity", jopt JString (r_integrity r));
   ("grade", JString (grade_text i)); ("score", jz (score (i_score i))); ("age_days", jopt jnat (r_age_days r));
   ("last_publisher", jopt JString (r_publisher r)); ("open_source", JBool (bool_decide (is_Some (r_repository r))));
   ("repository", jopt JString (r_repository r)); ("obfuscated", JBool (obfuscated i));
   ("unpacked_kb", jz (i_bytes i / 1024)); ("permissions", jstrings (perms i));
   ("sandbox_mode", JString (mode_str (requested_mode d))); ("sandbox_effective", JString (mode_str (effective_mode d)));
   ("sandbox_degraded_allowed", JBool (e_allow_degraded o)); ("network_denied", JBool (deny_network d));
   ("verdict", JString (risk_debug (overall_risk (i_report i)))); ("findings", jstrings (serious i));
   ("decision", JString (if grade_blocked i then "block" else "allow"));
   ("reason", JString (if grade_blocked i then "require-grade" else ""))].
(** Whether to go on: the verdict for a program, or for someone who may be asked. *)
Definition decide_json (d : ExecSandboxDecision) (r : Release) (i : Inspection) (a : ExecAssessment)
    (approved : bool) : excmd bool :=
  value ← assessment_value a (flags_digest d []);
  _ ← act (PrintJson (to_value (verdict_json d r i approved value)));
  if grade_blocked i then exit_with EXEC_EXIT_GRADE else mret (negb (e_dry_run o)).
Definition decide_human (i : Inspection) (approved : bool) : excmd bool :=
  if grade_blocked i then exit_with EXEC_EXIT_GRADE
  else if e_dry_run o then mret false
  else if bool_decide (serious i = []) || e_yes o || approved then mret true
  else
    allow_all ← ask (GetEnv "OATH_ALLOW_ALL");
    match allow_all with
    | Some _ => mret true
    | None =>
        input ← try ReadLine;
        if eq_ignore_ascii_case (trim input) "y" then mret true else exit_with EXEC_EXIT_USER
    end.
Definition remember (path : string) (a : ExecApproval) : excmd unit :=
  when (e_remember o) (
    _ ← demand (bool_decide (ap_integrity a ≠ "")) "cannot remember an approval without registry integrity";
    file ← act (ReadApprovals path);
    f ← lift (remembered file a);
    try (WriteApprovals path f)).
Fixpoint first_there (dir : string) (names : list string) : excmd (option string) :=
  match names with
  | [] => mret None
  | n :: names =>
      there ← ask (Install.Exists (pjoin dir n));
      if there : bool then mret (Some (pjoin dir n)) else first_there dir names
  end.
Definition find_binary (i : Inspection) : excmd string :=
  match i_binary i with
  | Some rel => mret (pjoin (i_pkg_dir i) (RustStr.join "/" rel))
  | None =>
      found ← first_there (i_pkg_dir i) ["cli.js"; "bin/index.js"; "index.js"; "bin.js"];
      match found with Some p => mret p | None => exit_with 1 end
  end.
Definition assess_and_run (d : ExecSandboxDecision) (r : Release) (i : Inspection) : excmd unit :=
  let caps := exec_sandbox_capabilities (effective_mode d) in
  let a := exec_assessment caps d r i in
  path ← approvals_path;
  approved ← previously_approved path (approval_of caps d r i);
  go ← (if e_json o then decide_json d r i a approved else decide_human i approved);
  when go (
    _ ← remember path (approval_of caps d r i);
    bin ← find_binary i;
    status ← run_node_binary bin (i_dir i) (effective_mode d) (exec_plan d r i);
    exit_as status).
Definition cmd_exec : excmd unit :=
  _ ← demand (bool_decide (e_schema_version o = 2%N ∨ e_schema_version o = 3%N)) "unsupported exec assessment schema";
  let local := pjoin "node_modules/.bin" (parse_package_spec (e_package o)).1 in
  d ← resolve_exec_sandbox;
  there ← ask (Install.Exists local);
  if there && negb (e_dry_run o) && bool_decide (effective_mode d = Off) then
    status ← try (RunPlain local (e_args o)); exit_as status
  else
    r ← find_release;
    _ ← age_gate d r;
    i ← inspect r;
    assess_and_run d r i.
End exec.
