(* ===== verification/ExecSpec.v ===== *)
(** * What is executed was judged ([main.rs], [cmd_exec])

    A monitor of [oath exec]: from what the machine, the registry and the analyzer answered
    it knows the sandbox, the release and the inspection, and permits a process only as
    they allow. *)
From S2P Require Import Store Core Score Report Versions Tarball Git Resolver Workspace Placement Cli Command Install.
From S2P Require Import ExecAssessment Exec.

#[local] Instance ResourceLimits_eq_dec : EqDecision ResourceLimits.
Proof. solve_decision. Defined.
#[local] Instance SandboxPlan_eq_dec : EqDecision SandboxPlan.
Proof. solve_decision. Defined.

(** The first answer to each question. *)
Record Answers_ := {
  v_agent : option (option string); v_help : option (option string); v_local : option bool;
  v_packument : option (result string Packument); v_full : option (result string Json);
  v_now : option (option Z); v_dir : option (result string string);
  v_report : option (result string AnalysisReport); v_meta : option (option (option Z * option Z));
  v_files : option PackageDir; v_approvals : option (option (result string ApprovalFile));
  v_allow_all : option (option string); v_line : option (result string string) }.
Definition no_answers : Answers_ := {|
  v_agent := None; v_help := None; v_local := None; v_packument := None; v_full := None; v_now := None;
  v_dir := None; v_report := None; v_meta := None; v_files := None; v_approvals := None; v_allow_all := None;
  v_line := None |}.
Definition first {A} (old : option A) (x : A) : option A := match old with Some a => Some a | None => Some x end.
Definition option_of {E A} (r : result E A) : option A := match r with Ok a => Some a | Err _ => None end.

Section spec.
Context {SV : Semver} {SH : Sha256Hex} {HI : HashIter} {SHA : Digest} {JT : JsonText} {B64 : Base64} {ED : Ed25519}.
Variables (platform : Platform) (cargo_version : string) (verified_native : BackendCapabilities) (o : ExecOptions).

(** ** What is known *)

Definition local_bin : string := pjoin "node_modules/.bin" (parse_package_spec (e_package o)).1.
Definition known_sandbox (s : Answers_) : option ExecSandboxDecision :=
  agent ← v_agent s;
  let agent := is_agent_mode agent in
  let requested := requested_sandbox (e_sandbox o) agent (e_sandbox_mode o) in
  if decide (requested = Off) then Some {| requested_mode := requested; effective_mode := Off; agent_mode := agent |}
  else
    help ← v_help s;
    m ← option_of (resolve_exec_sandbox_capabilities requested (e_allow_degraded o)
                     (bool_decide (is_Some (permission_flag help))) verified_native);
    Some {| requested_mode := requested; effective_mode := m; agent_mode := agent |}.
Definition known_age (s : Answers_) (full : option Json) (version : string) : option (option N) :=
  match full ≫= path_str ["time"; version] with
  | None => Some None
  | Some iso =>
      now ← v_now s;
      match parse_iso_age_secs now iso with
      | Ok secs => Some (Some (Z.to_N (secs / 86400)))
      | Err Absent => Some None
      | Err Panic => None
      end
  end.
Definition known_release (s : Answers_) : option Release :=
  let '(name, specifier) := parse_package_spec (e_package o) in
  packument ← v_packument s ≫= option_of;
  '(version, info) ← option_of (resolve_version packument specifier);
  fetched ← v_full s;
  let full := option_of fetched in
  age ← known_age s full version;
  Some {| r_name := name; r_version := version; r_integrity := dist_integrity (dist info); r_full := full;
          r_age_days := age; r_publisher := full ≫= λ j, publisher_of j version;
          r_repository := full ≫= repository_of |}.
(** The directory, the report and the score; the rest does not matter for the decision. *)
Definition known_inspection (s : Answers_) : option Inspection :=
  dir ← v_dir s ≫= option_of; report ← v_report s ≫= option_of; meta ← v_meta s; files ← v_files s;
  Some {| i_dir := dir; i_pkg_dir := ""; i_report := report;
          i_score := compute_safety_score_contextual report files
            {| is_dev := false; weekly_downloads := default 0%Z (meta ≫= fst);
               Score.age_days := wrap_u 32 (default 0%Z (meta ≫= snd)) |};
          i_bytes := 0; i_dependencies := 0; i_binary := None; i_native_code := false |}.
(** An approval that was remembered for these bytes, capabilities and this sandbox. *)
Definition known_approval (s : Answers_) (d : ExecSandboxDecision) (r : Release) (i : Inspection) : bool :=
  let a := approval_of o (exec_sandbox_capabilities verified_native (effective_mode d)) d r i in
  bool_decide (ap_integrity a ≠ "") &&
  match v_approvals s with Some file => match is_approved file a with Ok b => b | Err _ => false end | None => false end.
Definition agreed (s : Answers_) : bool :=
  match v_allow_all s, v_line s with
  | Some (Some _), _ => true
  | _, Some (Ok input) => eq_ignore_ascii_case (trim input) "y"
  | _, _ => false
  end.
(** The package may be run. *)
Definition cleared (s : Answers_) (d : ExecSandboxDecision) (r : Release) (i : Inspection) : bool :=
  negb (e_dry_run o) && bool_decide (too_young o r = None) && negb (grade_blocked o i)
  && (e_json o || bool_decide (serious i = []) || e_yes o || known_approval s d r i || agreed s).
Definition judged (s : Answers_) (f : ExecSandboxDecision → Release → Inspection → bool) : bool :=
  match known_sandbox s, known_release s, known_inspection s with
  | Some d, Some r, Some i => cleared s d r i && f d r i
  | _, _, _ => false
  end.

(** ** The monitor *)

Definition more_paths (p : SandboxPlan) (l : list string) : SandboxPlan := {|
  plan_version := plan_version p; plan_package := plan_package p; plan_workdir := plan_workdir p;
  read_only_paths := read_only_paths p ++ l; writable_paths := writable_paths p;
  environment_allowlist := environment_allowlist p; Sandbox.network := Sandbox.network p;
  allow_subprocesses := allow_subprocesses p; limits := limits p |}.
(** A path to run and the arguments that were given. *)
Definition bin_args (args : list string) : bool :=
  match args with _ :: given => bool_decide (given = e_args o) | [] => false end.
(** In the native sandbox, the plan for the release, all of it; on macOS with node itself
    readable besides. *)
Definition may_sandbox (s : Answers_) (plan : SandboxPlan) (program : string) (args : list string) : bool :=
  judged s (λ d r i, bool_decide (effective_mode d = Native) && bin_args args &&
    match exec_plan o d r i, platform with
    | Some p, Linux => bool_decide (program = "/usr/bin/node" ∧ plan = p)
    | Some p, Windows => bool_decide (program = "node.exe" ∧ plan = p)
    | Some p, MacOs => bool_decide (plan = more_paths p [program])
    | _, _ => false
    end).
(** The permissions of Node: to read a directory, the package's and a third one, and to write
    the first and the third. *)
Definition node_permissions (dir : string) (args : list string) : bool :=
  match args with
  | [flag; r1; r2; r3; w1; w2] =>
      bool_decide (flag = "--permission" ∨ flag = "--experimental-permission")
      && bool_decide (r2 = "--allow-fs-read=" +:+ dir)
      && match strip_prefix "--allow-fs-read=" r1, strip_prefix "--allow-fs-read=" r3 with
         | Some cwd, Some tmp => bool_decide (w1 = "--allow-fs-write=" +:+ cwd ∧ w2 = "--allow-fs-write=" +:+ tmp)
         | _, _ => false
         end
  | _ => false
  end.
Definition may_run_plain (s : Answers_) (program : string) (args : list string) : bool :=
  (bool_decide (program = local_bin ∧ args = e_args o ∧ v_local s = Some true) && negb (e_dry_run o)
   && match known_sandbox s with Some d => bool_decide (effective_mode d = Off) | None => false end)
  || (bool_decide (program = "node") &&
      judged s (λ d r i,
        match effective_mode d with
        | Native => match platform with OtherPlatform => bin_args args | _ => false end
        | Node => node_permissions (i_dir i) (take 6 args) && bin_args (drop 6 args)
        | _ => bin_args args
        end)).
Definition note_answer (s : Answers_) X (e : ExecAct X) : X → Answers_ :=
  let '(Build_Answers_ ag he lo pk fu no di re me fi ap al li) := s in
  match e in ExecAct X return X → Answers_ with
  | Base e =>
      match e in Act X return X → Answers_ with
      | GetEnv v => λ x,
          Build_Answers_ (if decide (v = "OATH_AGENT_MODE") then first ag x else ag) he lo pk fu no di re me fi ap
            (if decide (v = "OATH_ALLOW_ALL") then first al x else al) li
      | Install.Exists path => λ x,
          Build_Answers_ ag he (if decide (path = local_bin) then first lo x else lo) pk fu no di re me fi ap al li
      | FetchPackument _ => λ x, Build_Answers_ ag he lo (first pk x) fu no di re me fi ap al li
      | FetchFull _ => λ x, Build_Answers_ ag he lo pk (first fu x) no di re me fi ap al li
      | Now => λ x, Build_Answers_ ag he lo pk fu (first no x) di re me fi ap al li
      | Scan _ _ _ => λ x, Build_Answers_ ag he lo pk fu no di (first re x) me fi ap al li
      | _ => λ _, s
      end
  | NodeHelp => λ x, Build_Answers_ ag (first he x) lo pk fu no di re me fi ap al li
  | MakeTempDir => λ x, Build_Answers_ ag he lo pk fu no (first di x) re me fi ap al li
  | ReadMetadata _ => λ x, Build_Answers_ ag he lo pk fu no di re (first me x) fi ap al li
  | ReadPackageDir _ => λ x, Build_Answers_ ag he lo pk fu no di re me (first fi x) ap al li
  | ReadApprovals _ => λ x, Build_Answers_ ag he lo pk fu no di re me fi (first ap x) al li
  | ReadLine => λ x, Build_Answers_ ag he lo pk fu no di re me fi ap al (first li x)
  | _ => λ _, s
  end.
Definition may_exec (s : Answers_) X (e : ExecAct X) : bool :=
  match e with
  | RunPlain program args => may_run_plain s program args
  | RunSandboxed plan program args => may_sandbox s plan program args
  | Base e => match e with Sh _ _ _ => false | _ => true end
  | _ => true
  end.
Definition exec_monitor (s : Answers_) X (e : ExecAct X) (x : X) : option Answers_ :=
  if may_exec s X e then Some (note_answer s X e x) else None.

(** ** What lasts *)

Definition stays {A} (a a' : option A) : Prop := ∀ x, a = Some x → a' = Some x.
Definition later (s s' : Answers_) : Prop :=
  stays (v_agent s) (v_agent s') ∧ stays (v_help s) (v_help s') ∧ stays (v_local s) (v_local s') ∧
  stays (v_packument s) (v_packument s') ∧ stays (v_full s) (v_full s') ∧ stays (v_now s) (v_now s') ∧
  stays (v_dir s) (v_dir s') ∧ stays (v_report s) (v_report s') ∧ stays (v_meta s) (v_meta s') ∧
  stays (v_files s) (v_files s') ∧ stays (v_approvals s) (v_approvals s') ∧
  stays (v_allow_all s) (v_allow_all s') ∧ stays (v_line s) (v_line s').
#[local] Instance later_preorder : PreOrder later.
Proof.
  split; [intros s; by unfold later, stays; split_and!|].
  intros a b c Hab Hbc. unfold later, stays in *. destruct_and!. split_and!; auto.
Qed.
Lemma stays_first {A} (a : option A) x : stays a (first a x).
Proof. by destruct a; intros ? [= ->]. Qed.
Definition no_run X (e : ExecAct X) : Prop :=
  match e with
  | RunPlain _ _ | RunSandboxed _ _ _ => False
  | Base (Sh _ _ _) => False
  | _ => True
  end.
(** What the inspection and the decision are made of is not asked for twice. *)
Definition inspected (s : Answers_) := (v_dir s, v_report s, v_meta s, v_files s).
Definition decision_known (s : Answers_) := (v_approvals s, v_allow_all s, v_line s).
Definition no_decision X (e : ExecAct X) : Prop :=
  match e with
  | RunPlain _ _ | RunSandboxed _ _ _ | ReadApprovals _ | ReadLine => False
  | Base (GetEnv v) => v ≠ "OATH_ALLOW_ALL"
  | Base (Sh _ _ _) => False
  | _ => True
  end.
Definition no_inspection X (e : ExecAct X) : Prop :=
  no_decision X e ∧
  match e with
  | MakeTempDir | ReadMetadata _ | ReadPackageDir _ | Base (Scan _ _ _) => False
  | _ => True
  end.
Notation monitor := exec_monitor.
Lemma no_run_step X (e : ExecAct X) x s : no_run X e → monitor s X e x = Some (note_answer s X e x).
Proof. unfold exec_monitor. destruct e as [X e| | | | | | | | | | | | |]; try done. by destruct e. Qed.
Lemma note_later X (e : ExecAct X) x s : later s (note_answer s X e x).
Proof.
  assert (Hr : ∀ s, later s s) by (intros t; reflexivity).
  destruct s. destruct e as [X e| | | | | | | | | | | | |]; try apply Hr; try destruct e; try apply Hr;
    unfold later; simpl; repeat split; try (by intros ? ?); try case_decide; try apply stays_first; by intros ? ?.
Qed.
Lemma note_decided X (e : ExecAct X) x s : no_decision X e → decision_known (note_answer s X e x) = decision_known s.
Proof.
  destruct s. destruct e as [X e| | | | | | | | | | | | |]; try done. destruct e; try done.
  simpl. intros H. unfold decision_known. simpl. by rewrite (decide_False _ _ H).
Qed.
Lemma note_inspected X (e : ExecAct X) x s : no_inspection X e → inspected (note_answer s X e x) = inspected s.
Proof.
  intros [_ He]. destruct s. destruct e as [X e| | | | | | | | | | | | |]; try done. by destruct e.
Qed.
Lemma no_decision_run X (e : ExecAct X) : no_decision X e → no_run X e.
Proof. destruct e as [X e| | | | | | | | | | | | |]; try done. by destruct e. Qed.

Definition same_decision (s s' : Answers_) : Prop := later s s' ∧ decision_known s' = decision_known s.
Definition same_inspection (s s' : Answers_) : Prop := same_decision s s' ∧ inspected s' = inspected s.
#[local] Instance same_decision_preorder : PreOrder same_decision.
Proof.
  split; [by intros s|]. intros a b c [H1 H2] [H3 H4]. split; [by etrans|congruence].
Qed.
#[local] Instance same_inspection_preorder : PreOrder same_inspection.
Proof.
  split; [by intros s|]. intros a b c [H1 H2] [H3 H4]. split; [by etrans|congruence].
Qed.
(** Phases by what they ask. *)
Section phase.
Context (P : ∀ X, ExecAct X → Prop) (R : relation Answers_) `{!PreOrder R}.
Hypothesis step : ∀ X (e : ExecAct X) x s, P X e → no_run X e ∧ R s (note_answer s X e x).
Lemma phase_after {A B} (p : cmd ExecAct A) (f : A → cmd ExecAct B) Q s :
  only P p → (∀ a s', R s s' → safe monitor (f a) Q s') → (∀ e s', R s s' → Q (Err e) s') →
  safe monitor (p ≫= f) Q s.
Proof.
  intros Hp Hf HQ. apply (safe_after P monitor (R s)); auto; [|reflexivity].
  intros X e x t He Ht. destruct (step X e x t He) as [Hr Hs]. exists (note_answer t X e x).
  split; [by apply no_run_step|by etrans].
Qed.
Lemma phase_safe {A} (p : cmd ExecAct A) s : only P p → safe monitor p (λ _ s', R s s') s.
Proof.
  intros Hp. apply (only_safe P monitor (R s)); auto; [|reflexivity].
  intros X e x t He Ht. destruct (step X e x t He) as [Hr Hs]. exists (note_answer t X e x).
  split; [by apply no_run_step|by etrans].
Qed.
End phase.
Lemma decision_step X (e : ExecAct X) x s :
  no_decision X e → no_run X e ∧ same_decision s (note_answer s X e x).
Proof. intros He. split; [by apply no_decision_run|]. split; [apply note_later|by apply note_decided]. Qed.
Lemma inspection_step X (e : ExecAct X) x s :
  no_inspection X e → no_run X e ∧ same_inspection s (note_answer s X e x).
Proof.
  intros He. destruct He as [Hd Hi]. destruct (decision_step X e x s Hd) as [Hr Hs].
  split; [done|]. split; [done|]. by apply note_inspected.
Qed.
Lemma later_step X (e : ExecAct X) x s : no_run X e → no_run X e ∧ later s (note_answer s X e x).
Proof. intros He. split; [done|apply note_later]. Qed.

(** What is known stays known. *)
Lemma known_sandbox_later s s' d : later s s' → known_sandbox s = Some d → known_sandbox s' = Some d.
Proof.
  unfold later, known_sandbox. intros (Ha & Hh & _). destruct (v_agent s) as [agent|] eqn:Hag; [|done].
  rewrite (Ha _ eq_refl). simpl. case_decide; [done|].
  destruct (v_help s) as [help|] eqn:Hhe; [|done]. by rewrite (Hh _ eq_refl).
Qed.
Lemma known_age_later s s' full v a : later s s' → known_age s full v = Some a → known_age s' full v = Some a.
Proof.
  unfold later, known_age. intros (_ & _ & _ & _ & _ & Hn & _). destruct (_ ≫= _); [|done].
  destruct (v_now s) as [now|] eqn:Hno; [|done]. by rewrite (Hn _ eq_refl).
Qed.
Lemma known_release_later s s' r : later s s' → known_release s = Some r → known_release s' = Some r.
Proof.
  intros Hl. pose proof Hl as (_ & _ & _ & Hp & Hf & _). unfold known_release.
  destruct (parse_package_spec (e_package o)) as [n spec].
  destruct (v_packument s) as [pk|] eqn:Hpk; [|done]. rewrite (Hp _ eq_refl). simpl.
  destruct (option_of pk) as [p|]; [|done]. simpl. destruct (option_of (resolve_version p spec)) as [[v info]|]; [|done].
  simpl. destruct (v_full s) as [full|] eqn:Hfu; [|done]. rewrite (Hf _ eq_refl). simpl.
  destruct (known_age s (option_of full) v) as [age|] eqn:Hage; [|done].
  by rewrite (known_age_later s s' _ _ _ Hl Hage).
Qed.
Lemma known_inspection_later s s' i : later s s' → known_inspection s = Some i → known_inspection s' = Some i.
Proof.
  intros Hl. pose proof Hl as (_ & _ & _ & _ & _ & _ & Hd & Hr & Hm & Hf & _). unfold known_inspection.
  destruct (v_dir s) as [dir|] eqn:Hdi; [|done]. rewrite (Hd _ eq_refl). simpl. destruct (option_of dir); [|done]. simpl.
  destruct (v_report s) as [rep|] eqn:Hre; [|done]. rewrite (Hr _ eq_refl). simpl. destruct (option_of rep); [|done]. simpl.
  destruct (v_meta s) as [meta|] eqn:Hme; [|done]. rewrite (Hm _ eq_refl). simpl.
  destruct (v_files s) as [files|] eqn:Hfi; [|done]. by rewrite (Hf _ eq_refl).
Qed.

(** ** The phases *)

Lemma resolve_exec_sandbox_known s :
  v_agent s = None → v_help s = None →
  safe monitor (resolve_exec_sandbox verified_native o) (λ r s', same_inspection s s' ∧
    v_packument s' = v_packument s ∧ v_full s' = v_full s ∧ v_now s' = v_now s ∧ v_local s' = v_local s ∧
    match r with Ok d => known_sandbox s' = Some d | Err _ => True end) s.
Proof.
  intros Hag Hhe. unfold resolve_exec_sandbox, ask.
  apply (safe_act monitor (Base (GetEnv "OATH_AGENT_MODE"))). intros v.
  exists (note_answer s _ (Base (GetEnv "OATH_AGENT_MODE")) v). split; [by apply no_run_step|]. cbv zeta.
  set (s1 := note_answer s _ _ v).
  assert (H1 : same_inspection s s1).
  { apply inspection_step. by split. }
  assert (Hs1 : v_agent s1 = Some v ∧ v_help s1 = None ∧ v_packument s1 = v_packument s ∧ v_full s1 = v_full s ∧
    v_now s1 = v_now s ∧ v_local s1 = v_local s).
  { unfold s1. destruct s. simpl in *. by subst. }
  destruct Hs1 as (Ha1 & Hh1 & Hrest). case_decide as Hoff.
  - apply watch_ret. split_and!; try apply Hrest; [done|]. unfold known_sandbox. rewrite Ha1. simpl.
    by rewrite decide_True.
  - unfold node_permission_flag. apply watch_bind.
    apply (safe_act monitor NodeHelp). intros help.
    exists (note_answer s1 _ NodeHelp help). split; [by apply no_run_step|]. apply watch_ret. cbv beta iota.
    set (s2 := note_answer s1 _ _ help).
    assert (H2 : same_inspection s1 s2) by (apply inspection_step; by split).
    assert (Hs2 : v_agent s2 = Some v ∧ v_help s2 = Some help ∧ v_packument s2 = v_packument s1 ∧ v_full s2 = v_full s1 ∧
      v_now s2 = v_now s1 ∧ v_local s2 = v_local s1).
    { unfold s2. destruct s1. simpl in *. by subst. }
    destruct Hs2 as (Ha2 & Hh2 & Hp2 & Hf2 & Hn2 & Hl2). destruct Hrest as (Hp1 & Hf1 & Hn1 & Hl1).
    assert (Hall : same_inspection s s2 ∧ v_packument s2 = v_packument s ∧ v_full s2 = v_full s ∧
      v_now s2 = v_now s ∧ v_local s2 = v_local s) by (split_and!; [by etrans|congruence..]).
    destruct Hall as (A1 & A2 & A3 & A4 & A5).
    apply watch_lift. destruct (resolve_exec_sandbox_capabilities _ _ _ _) as [m|e] eqn:Hm; [|by split_and!].
    apply watch_ret. split_and!; try done. unfold known_sandbox. rewrite Ha2. simpl. rewrite decide_False by done.
    rewrite Hh2. simpl. by rewrite Hm.
Qed.
(** One action, which leaves what came before it. *)
Lemma ask_step X B (e : ExecAct X) (f : X → cmd ExecAct B) Q s :
  no_inspection X e →
  (∀ x s', s' = note_answer s X e x → same_inspection s s' → safe monitor (f x) Q s') → safe monitor (act e ≫= f) Q s.
Proof.
  intros He Hf. apply safe_act. intros x. destruct (inspection_step X e x s He) as [Hr Hs].
  exists (note_answer s X e x). split; [by apply no_run_step|]. by apply Hf.
Qed.
Lemma try_step A B (e : ExecAct (result string A)) (f : A → cmd ExecAct B) Q s :
  no_inspection _ e →
  (∀ x s', s' = note_answer s _ e x → same_inspection s s' →
     match x with Ok a => safe monitor (f a) Q s' | Err m => Q (Err (Bail m)) s' end) →
  safe monitor (try e ≫= f) Q s.
Proof.
  intros He Hf. apply safe_try. intros x. destruct (inspection_step _ e x s He) as [Hr Hs].
  exists (note_answer s _ e x). split; [by apply no_run_step|]. by apply Hf.
Qed.
Lemma days_old_known full v s :
  v_now s = None →
  safe monitor (days_old full v) (λ r s', same_inspection s s' ∧ v_packument s' = v_packument s ∧
    v_full s' = v_full s ∧ match r with Ok age => known_age s' full v = Some age | Err _ => True end) s.
Proof.
  intros Hno. unfold days_old. destruct (full ≫= path_str ["time"; v]) as [iso|] eqn:Hiso.
  - apply ask_step; [by split|]. intros now s1 -> H1.
    assert (Hs1 : v_now (note_answer s _ (Base Now) now) = Some now ∧
      v_packument (note_answer s _ (Base Now) now) = v_packument s ∧ v_full (note_answer s _ (Base Now) now) = v_full s).
    { destruct s. simpl in *. by subst. }
    destruct Hs1 as (Hn & Hp & Hf).
    destruct (parse_iso_age_secs now iso) as [secs|[|]] eqn:Hage; (split_and!; [done..|]); try done;
      unfold known_age; rewrite Hiso, Hn; simpl; by rewrite Hage.
  - split_and!; try done. unfold known_age. by rewrite Hiso.
Qed.
Lemma find_release_known s :
  v_packument s = None → v_full s = None → v_now s = None →
  safe monitor (find_release o) (λ r s', same_inspection s s' ∧
    match r with Ok r => known_release s' = Some r | Err _ => True end) s.
Proof.
  intros Hpk Hfu Hno. unfold find_release, must, ask. destruct (parse_package_spec (e_package o)) as [n spec] eqn:Hspec.
  apply try_step; [by split|]. intros [u|e] s1 -> H1; [|done].
  assert (Hs1 : note_answer s _ (Base NewClient) (Ok u) = s) by by destruct s. rewrite Hs1 in *. clear Hs1 H1.
  apply try_step; [by split|]. intros pk s1 Hs1 H1.
  assert (Hv1 : v_packument s1 = Some pk ∧ v_full s1 = None ∧ v_now s1 = None).
  { subst s1. destruct s. simpl in *. by subst. }
  destruct Hv1 as (Hp1 & Hf1 & Hn1). clear Hs1. destruct pk as [p|e]; [|done].
  apply watch_lift. destruct (resolve_version p spec) as [[v info]|e] eqn:Hv; [|done].
  apply ask_step; [by split|]. intros full s2 Hs2 H2.
  assert (Hv2 : v_packument s2 = Some (Ok p) ∧ v_full s2 = Some full ∧ v_now s2 = None).
  { subst s2. destruct s1. simpl in *. by subst. }
  destruct Hv2 as (Hp2 & Hf2 & Hn2). clear Hs2. cbv zeta.
  apply watch_bind. eapply watch_mono; [by apply days_old_known|]. intros r s3 (H3 & Hp3 & Hf3 & Hage).
  assert (H : same_inspection s s3) by (by repeat (etrans; [eassumption|])).
  destruct r as [age|e]; [|done]. apply watch_ret. split; [done|]. unfold known_release.
  rewrite Hspec, Hp3, Hp2. simpl. rewrite Hv. simpl. rewrite Hf3, Hf2. simpl.
  change (option_of full) with (match full with Ok j => Some j | Err _ => None end). by rewrite Hage.
Qed.
Lemma refuse_age_safe d r days m s : safe monitor (refuse_age cargo_version verified_native o d r days m) (λ r s', same_inspection s s' ∧
  match r with Ok _ => False | Err _ => True end) s.
Proof.
  unfold refuse_age, assessment_value.
  apply (phase_after no_inspection same_inspection inspection_step); [|by intros|by intros].
  only_tac; by split.
Qed.
Lemma age_gate_passes d r s :
  safe monitor (age_gate cargo_version verified_native o d r) (λ res s', same_inspection s s' ∧
    match res with Ok _ => too_young o r = None | Err _ => True end) s.
Proof.
  unfold age_gate. destruct (too_young o r) as [[days m]|]; [|done].
  eapply watch_mono; [apply refuse_age_safe|]. by intros [] s' [H ?].
Qed.

Definition like (i i' : Inspection) : Prop :=
  i_dir i' = i_dir i ∧ i_report i' = i_report i ∧ i_score i' = i_score i.
Definition quiet X (e : Act X) : Prop :=
  match e with Sh _ _ _ | Scan _ _ _ | GetEnv _ => False | _ => True end.
Lemma quiet_base {A} (p : command A) : only quiet p → only no_inspection (base p).
Proof. apply only_embed. intros X e He. split; by destruct e. Qed.
Lemma plan_dir_quiet dir request : only quiet (plan_dir dir request).
Proof. unfold plan_dir, hydrate_missing_registry_metadata. only_tac. Qed.
Lemma download_quiet l : only quiet (download_missing_nodes l).
Proof.
  unfold download_missing_nodes. only_tac. generalize (imap pair l) (0, 0%Z). induction (length l) as [|k IH]; intros pend acc; [done|].
  destruct pend as [|p pend]; [done|]. cbn [join_all].
  unfold download_tarball_to_temp, tarball_bytes, file_dependency_path, materialize_file_dependency,
    git_cache_path, fetch_git, copy_cached, extract_and_store, store_node. only_tac.
Qed.
Lemma any_there_quiet dir l : only no_inspection (any_there dir l).
Proof. unfold any_there, ask. only_tac; by split. Qed.
(** The directory of an inspection, from when it is made. *)
Lemma install_aside_known r s :
  v_dir s = None →
  safe monitor (install_aside r) (λ res s', same_decision s s' ∧ v_report s' = v_report s ∧ v_meta s' = v_meta s ∧
    v_files s' = v_files s ∧ match res with Ok x => v_dir s' = Some (Ok x.1) | Err _ => True end) s.
Proof.
  intros Hdi. unfold install_aside, must.
  apply safe_try. intros dir. destruct (decision_step _ MakeTempDir dir s I) as [Hr Hs].
  exists (note_answer s _ MakeTempDir dir). split; [by apply no_run_step|].
  assert (Hs1 : v_dir (note_answer s _ MakeTempDir dir) = Some dir ∧ v_report (note_answer s _ MakeTempDir dir) = v_report s ∧
    v_meta (note_answer s _ MakeTempDir dir) = v_meta s ∧ v_files (note_answer s _ MakeTempDir dir) = v_files s).
  { destruct s. simpl in *. by subst. }
  destruct Hs1 as (Hd1 & Hr1 & Hm1 & Hf1). destruct dir as [dir|e]; [|by split_and!].
  eapply watch_mono.
  { eapply (safe_returns _ (λ x : string * DepGraph, x.1 = dir)).
    - apply returns_after. intros _. apply returns_embed. do 6 (apply returns_after; intros ?).
      by apply returns_after.
    - apply (phase_safe no_inspection same_inspection inspection_step).
      apply only_bind; [by repeat split|intros _]. apply quiet_base. apply only_bind; [apply plan_dir_quiet|intros plan].
      unfold missing_store_nodes, missing_step. only_tac; apply download_quiet. }
  intros res s2 [[H2 Hi] Hres]. unfold inspected in Hi. injection Hi as Hd2 Hr2 Hm2 Hf2.
  split_and!; [by etrans|congruence..|]. destruct res as [[d g]|e]; [|done]. simpl in *. congruence.
Qed.
Lemma known_inspection_intro s dir report meta files :
  v_dir s = Some (Ok dir) → v_report s = Some (Ok report) → v_meta s = Some meta → v_files s = Some files →
  known_inspection s = Some {| i_dir := dir; i_pkg_dir := ""; i_report := report;
    i_score := compute_safety_score_contextual report files
      {| is_dev := false; weekly_downloads := default 0%Z (meta ≫= fst);
         Score.age_days := wrap_u 32 (default 0%Z (meta ≫= snd)) |};
    i_bytes := 0; i_dependencies := 0; i_binary := None; i_native_code := false |}.
Proof. unfold known_inspection. by intros -> -> -> ->. Qed.
Lemma inspect_known r s :
  inspected s = (None, None, None, None) →
  safe monitor (inspect r) (λ res s', same_decision s s' ∧
    match res with Ok i => ∃ i', known_inspection s' = Some i' ∧ like i i' | Err _ => True end) s.
Proof.
  unfold inspected. intros [= Hdi Hre Hme Hfi]. unfold inspect, must, ask.
  apply watch_bind. eapply watch_mono; [by apply install_aside_known|].
  intros [[dir g]|e] s1 (H1 & Hr1 & Hm1 & Hf1 & Hd1); [|done]. cbv zeta. simpl in Hd1.
  rewrite Hre in Hr1. rewrite Hme in Hm1. rewrite Hfi in Hf1.
  apply safe_try. intros report.
  destruct (decision_step _ (Base (Scan (r_name r) (r_version r) (pjoin dir ("node_modules/" +:+ r_name r)))) report s1 I) as [Hrun H2].
  eexists. split; [by apply no_run_step|]. set (s2 := note_answer s1 _ _ report) in *.
  assert (Hs2 : v_dir s2 = Some (Ok dir) ∧ v_report s2 = Some report ∧ v_meta s2 = None ∧ v_files s2 = None).
  { unfold s2. destruct s1. simpl in *. by subst. }
  destruct Hs2 as (Hd2 & Hr2 & Hm2 & Hf2). destruct report as [report|e]; [|by split; [etrans|]].
  unfold score_context. apply watch_bind. apply safe_act. intros meta.
  destruct (decision_step _ (ReadMetadata (r_name r)) meta s2 I) as [_ H3].
  eexists. split; [by apply no_run_step|]. set (s3 := note_answer s2 _ _ meta) in *. apply watch_ret. cbv beta iota.
  assert (Hs3 : v_dir s3 = Some (Ok dir) ∧ v_report s3 = Some (Ok report) ∧ v_meta s3 = Some meta ∧ v_files s3 = None).
  { unfold s3. destruct s2. simpl in *. by subst. }
  destruct Hs3 as (Hd3 & Hr3 & Hm3 & Hf3).
  apply safe_act. intros files.
  destruct (decision_step _ (ReadPackageDir (pjoin dir ("node_modules/" +:+ r_name r))) files s3 I) as [_ H4].
  eexists. split; [by apply no_run_step|]. set (s4 := note_answer s3 _ _ files) in *.
  assert (Hs4 : v_dir s4 = Some (Ok dir) ∧ v_report s4 = Some (Ok report) ∧ v_meta s4 = Some meta ∧ v_files s4 = Some files).
  { unfold s4. destruct s3. simpl in *. by subst. }
  destruct Hs4 as (Hd4 & Hr4 & Hm4 & Hf4).
  assert (H : same_decision s s4) by (by repeat (etrans; [eassumption|])).
  pose proof (known_inspection_intro s4 dir report meta files Hd4 Hr4 Hm4 Hf4) as Hi.
  apply (phase_after no_inspection same_inspection inspection_step); [by apply only_act|intros sizes s5 [H5 _]|intros e s5 [H5 _]; by split; [etrans|]].
  apply (phase_after no_inspection same_inspection inspection_step);
    [unfold preferred_binary, must, ask; only_tac; by split|intros binary s6 [H6 _]|intros e s6 [H6 _]; by split; [do 2 (etrans; [eassumption|])|]].
  apply (phase_after no_inspection same_inspection inspection_step);
    [apply any_there_quiet|intros native s7 [H7 _]|intros e s7 [H7 _]; by split; [do 3 (etrans; [eassumption|])|]].
  assert (H47 : same_decision s4 s7) by (by repeat (etrans; [eassumption|])).
  apply watch_ret. split; [by etrans|]. eexists. split; [eapply known_inspection_later; [apply H47|exact Hi]|done].
Qed.

Lemma like_same d r caps i i' :
  like i i' → grade_blocked o i' = grade_blocked o i ∧ serious i' = serious i ∧
    exec_plan o d r i' = exec_plan o d r i ∧ approval_of o caps d r i' = approval_of o caps d r i.
Proof.
  intros (H1 & H2 & H3). unfold grade_blocked, serious, exec_plan, approval_of, perms, caps_of. by rewrite H1, H2, H3.
Qed.
Lemma known_approval_later s s' d r i : later s s' → known_approval s d r i = true → known_approval s' d r i = true.
Proof.
  intros (_ & _ & _ & _ & _ & _ & _ & _ & _ & _ & Ha & _). unfold known_approval. rewrite !andb_true_iff.
  intros [H1 H2]. split; [done|]. destruct (v_approvals s) as [f|] eqn:Hv; [|done]. by rewrite (Ha _ eq_refl).
Qed.
Lemma agreed_later s s' : later s s' → agreed s = true → agreed s' = true.
Proof.
  intros (_ & _ & _ & _ & _ & _ & _ & _ & _ & _ & _ & Ha & Hl). unfold agreed.
  destruct (v_allow_all s) as [[v|]|] eqn:Hv.
  - by rewrite (Ha _ eq_refl).
  - rewrite (Ha _ eq_refl). destruct (v_line s) as [x|] eqn:Hx; [|done]. by rewrite (Hl _ eq_refl).
  - destruct (v_line s) as [x|] eqn:Hx; [|done]. rewrite (Hl _ eq_refl). by destruct (v_allow_all s') as [[]|].
Qed.
Lemma cleared_later s s' d r i : later s s' → cleared s d r i = true → cleared s' d r i = true.
Proof.
  intros Hl. unfold cleared. rewrite !andb_true_iff, !orb_true_iff. intros [H [[[[?|?]|?]|?]|?]]; (split; [done|]); auto.
  - left. right. by eapply known_approval_later.
  - right. by eapply agreed_later.
Qed.
(** All that a run needs. *)
Definition ready (s : Answers_) (d : ExecSandboxDecision) (r : Release) (i : Inspection) : Prop :=
  known_sandbox s = Some d ∧ known_release s = Some r ∧ ∃ i', known_inspection s = Some i' ∧ like i i' ∧
    cleared s d r i' = true.
Lemma ready_later s s' d r i : later s s' → ready s d r i → ready s' d r i.
Proof.
  intros Hl (Hs & Hr & i' & Hi & Hlike & Hc). split_and!; [by eapply known_sandbox_later|by eapply known_release_later|].
  exists i'. split_and!; [by eapply known_inspection_later|done|by eapply cleared_later].
Qed.
Lemma ready_judged s d r i f :
  ready s d r i → (∀ i', like i i' → f d r i' = true) → judged s f = true.
Proof.
  intros (Hs & Hr & i' & Hi & Hlike & Hc) Hf. unfold judged. rewrite Hs, Hr, Hi, Hc. by apply Hf.
Qed.
Lemma run_step s A (e : ExecAct (result string A)) (Q : result Stop A → Answers_ → Prop) :
  may_exec s _ e = true → (∀ r s', Q r s') → safe monitor (try e) Q s.
Proof.
  intros Hm HQ x. exists (note_answer s _ e x). split; [unfold exec_monitor; by rewrite Hm|]. destruct x; apply HQ.
Qed.
Lemma permission_flag_cases help flag :
  permission_flag help = Some flag → flag = "--permission" ∨ flag = "--experimental-permission".
Proof.
  unfold permission_flag. destruct help as [text|]; [|done]. simpl.
  destruct (contains "--permission" text); [naive_solver|]. destruct (contains _ text); naive_solver.
Qed.
Lemma may_sandbox_ready s d r i p program bin :
  ready s d r i → effective_mode d = Native → exec_plan o d r i = Some p →
  match platform with
  | Linux => program = "/usr/bin/node" | Windows => program = "node.exe" | MacOs => True | OtherPlatform => False
  end →
  may_exec s _ (RunSandboxed (match platform with MacOs => more_paths p [program] | _ => p end)
                  program (bin :: e_args o)) = true.
Proof.
  intros Hr Hm Hp Hl. eapply ready_judged; [done|]. intros i' Hi.
  destruct (like_same d r verified_native i i' Hi) as (_ & _ & Hplan & _).
  rewrite Hplan, Hp, bool_decide_eq_true_2 by done. unfold bin_args. rewrite bool_decide_eq_true_2 by done. simpl.
  by destruct platform; try done; apply bool_decide_eq_true_2.
Qed.
Lemma run_node_binary_safe s d r i bin :
  ready s d r i →
  safe monitor (run_node_binary platform o bin (i_dir i) (effective_mode d) (exec_plan o d r i)) (λ _ _, True) s.
Proof.
  intros Hready. unfold run_node_binary, must, ask. cbv zeta.
  assert (Hplain : match effective_mode d with Native => platform = OtherPlatform | _ => True end →
    safe monitor (permissions ← (if decide (effective_mode d = Node) then
      flag ← node_permission_flag;
      flag ← need flag "Node permission sandbox is unavailable on this Node runtime";
      cwd ← try (Base CurrentDir); tmp ← act (Base TempDir);
      mret [flag; "--allow-fs-read=" +:+ cwd; "--allow-fs-read=" +:+ (i_dir i); "--allow-fs-read=" +:+ tmp;
            "--allow-fs-write=" +:+ cwd; "--allow-fs-write=" +:+ tmp]
      else mret []); try (RunPlain "node" (permissions ++ bin :: e_args o))) (λ _ _, True) s).
  { intros Hmode.
    assert (Hrun : ∀ perms s', ready s' d r i →
        (if decide (effective_mode d = Node) then node_permissions (i_dir i) perms = true ∧ length perms = 6 else perms = []) →
      safe monitor (try (RunPlain "node" (perms ++ bin :: e_args o))) (λ _ _, True) s').
    { intros perms s' Hr' Hperms. apply run_step; [|done]. simpl. unfold may_run_plain. apply orb_true_iff. right.
      apply andb_true_iff. split; [done|]. eapply ready_judged; [done|]. intros i' (Hdir & _).
      assert (Hbin : bin_args (bin :: e_args o) = true) by by apply bool_decide_eq_true_2.
      destruct (effective_mode d) eqn:Hd; simpl in Hperms; [by subst| |by subst|by subst].
      destruct Hperms as [Hperms Hlen]. rewrite Hdir, <- Hlen, take_app_length, drop_app_length, Hperms. exact Hbin. }
    apply watch_bind. eapply watch_mono.
    { eapply (safe_returns _ (λ perms, if decide (effective_mode d = Node)
        then node_permissions (i_dir i) perms = true ∧ length perms = 6 else perms = [])).
      - case_decide; [|done].
        apply (returns_bind (λ flag, ∃ help, flag = permission_flag help)); [by intros help; exists help|].
        intros flag' [help ->]. destruct (permission_flag help) as [flag|] eqn:Hf; [|exact I].
        apply (returns_after _ (try (Base CurrentDir))). intros cwd.
        apply (returns_after _ (act (Base TempDir))). intros tmp. split; [|done]. unfold node_permissions.
        rewrite !(proj2 (strip_prefix_Some _ _ _) eq_refl). apply permission_flag_cases in Hf.
        by rewrite !bool_decide_eq_true_2.
      - apply (phase_safe no_run later later_step). unfold node_permission_flag. only_tac. }
    intros [perms|e] s1 [H1 Hperms]; [|done]. apply Hrun; [by eapply ready_later|done]. }
  destruct (decide (effective_mode d = Native)) as [Hnat|Hnat]; [|apply Hplain; by destruct (effective_mode d)].
  assert (Hplan : ∃ plan, exec_plan o d r i = Some plan).
  { unfold exec_plan. rewrite decide_False by (by rewrite Hnat). by eexists. }
  destruct Hplan as [plan Hplan]. pose proof (may_sandbox_ready s d r i plan) as Hmay.
  pose proof (λ node, may_sandbox_ready (note_answer s _ NodeExecutable (Ok node)) d r i plan) as Hmay'.
  destruct platform eqn:Hpl; rewrite ?Hplan.
  - apply run_step; [|done]. by eapply Hmay.
  - apply run_step; [|done]. by eapply Hmay.
  - apply safe_try. intros node. exists (note_answer s _ NodeExecutable node). split; [by apply no_run_step|].
    destruct node as [node|e]; [|done]. apply run_step; [|done].
    apply (Hmay' node node bin); [eapply ready_later; [apply note_later|done]|done..].
  - apply Hplain. by rewrite Hnat.
Qed.

(** The decision, and then the run. *)
Lemma previously_approved_known path s d r i :
  v_approvals s = None →
  safe monitor (previously_approved path (approval_of o (exec_sandbox_capabilities verified_native (effective_mode d)) d r i))
    (λ res s', later s s' ∧ v_allow_all s' = v_allow_all s ∧ v_line s' = v_line s ∧
       match res with Ok b => b = true → known_approval s' d r i = true | Err _ => True end) s.
Proof.
  intros Hap. unfold previously_approved. set (a := approval_of _ _ _ _ _). case_decide as Ha; [done|].
  apply safe_act. intros file. exists (note_answer s _ (ReadApprovals path) file). split; [by apply no_run_step|].
  assert (Hs : v_approvals (note_answer s _ (ReadApprovals path) file) = Some file ∧
    v_allow_all (note_answer s _ (ReadApprovals path) file) = v_allow_all s ∧
    v_line (note_answer s _ (ReadApprovals path) file) = v_line s).
  { destruct s. simpl in *. by subst. }
  destruct Hs as (Hf & Hal & Hl).
  assert (H : safe monitor (lift (is_approved file a)) (λ res s', s' = note_answer s _ (ReadApprovals path) file ∧
    res = match is_approved file a with Ok b => Ok b | Err e => Err (Bail e) end) (note_answer s _ (ReadApprovals path) file)).
  { by destruct (is_approved file a). }
  eapply watch_mono; [exact H|]. intros res s' [-> ->]. split_and!; [apply note_later|done..|].
  destruct (is_approved file a) as [b|e] eqn:Hb; [|done]. intros ->. unfold known_approval. fold a.
  rewrite Hf, Hb. rewrite bool_decide_eq_true_2; done.
Qed.
Definition may_go (s : Answers_) (d : ExecSandboxDecision) (r : Release) (i' : Inspection) (res : result Stop bool) : Prop :=
  match res with Ok true => cleared s d r i' = true | _ => True end.
Lemma decide_json_go d r i a approved s :
  too_young o r = None → e_json o = true →
  safe monitor (decide_json cargo_version o d r i a approved) (λ res s', later s s' ∧ may_go s' d r i res) s.
Proof.
  intros Hy Hj. unfold decide_json, assessment_value.
  apply (phase_after no_run later later_step); [only_tac|intros value s1 H1|done].
  apply (phase_after no_run later later_step); [only_tac|intros u s2 H2|intros e s2 H2; by split; [etrans|]].
  assert (H : later s s2) by by etrans.
  destruct (grade_blocked o i) eqn:Hg; [by split|]. apply watch_ret. split; [done|].
  unfold may_go. destruct (e_dry_run o) eqn:Hd; [done|]. simpl. unfold cleared. rewrite Hd, Hg, Hj.
  by rewrite bool_decide_eq_true_2.
Qed.
Lemma decide_human_go d r i approved s :
  too_young o r = None → v_allow_all s = None → v_line s = None →
  (approved = true → known_approval s d r i = true) →
  safe monitor (decide_human o i approved) (λ res s', later s s' ∧ may_go s' d r i res) s.
Proof.
  intros Hy Hal Hl Hap. unfold decide_human, ask.
  destruct (grade_blocked o i) eqn:Hg; [done|]. destruct (e_dry_run o) eqn:Hd; [done|].
  assert (Hc : ∀ s', known_approval s' d r i || agreed s' = true ∨ bool_decide (serious i = []) || e_yes o = true →
    cleared s' d r i = true).
  { intros s' H. unfold cleared. rewrite Hd, Hg, bool_decide_eq_true_2 by done. simpl.
    rewrite !orb_true_iff in *. tauto. }
  destruct (bool_decide (serious i = []) || e_yes o || approved) eqn:Hq.
  - split; [done|]. apply Hc. apply orb_true_iff in Hq as [Hq|Hq]; [by right|left]. by rewrite Hap.
  - apply safe_act. intros allow. exists (note_answer s _ (Base (GetEnv "OATH_ALLOW_ALL")) allow).
    split; [by apply no_run_step|]. set (s1 := note_answer s _ _ allow).
    assert (H1 : later s s1) by apply note_later.
    assert (Hs1 : v_allow_all s1 = Some allow ∧ v_line s1 = None).
    { unfold s1. destruct s. simpl in *. by subst. }
    destruct Hs1 as [Ha1 Hl1]. destruct allow as [v|].
    + split; [done|]. apply Hc. left. unfold agreed. rewrite Ha1. apply orb_true_r.
    + apply safe_try. intros line. exists (note_answer s1 _ ReadLine line). split; [by apply no_run_step|].
      set (s2 := note_answer s1 _ ReadLine line). assert (H2 : later s s2) by (etrans; [done|apply note_later]).
      assert (Hs2 : v_allow_all s2 = Some None ∧ v_line s2 = Some line).
      { unfold s2. destruct s1. simpl in *. by subst. }
      destruct Hs2 as [Ha2 Hl2]. destruct line as [input|e]; [|done].
      destruct (eq_ignore_ascii_case (trim input) "y") eqn:Hy2; [|done].
      split; [done|]. apply Hc. left. unfold agreed. rewrite Ha2, Hl2, Hy2. apply orb_true_r.
Qed.
Lemma may_go_like s d r i i' res : like i i' → may_go s d r i res → may_go s d r i' res.
Proof.
  intros Hi. unfold may_go, cleared, known_approval.
  destruct (like_same d r (exec_sandbox_capabilities verified_native (effective_mode d)) i i' Hi) as (-> & -> & _ & ->). done.
Qed.
Lemma assess_and_run_safe d r i i' s :
  known_sandbox s = Some d → known_release s = Some r → known_inspection s = Some i' → like i i' →
  too_young o r = None → decision_known s = (None, None, None) →
  safe monitor (assess_and_run platform cargo_version verified_native o d r i) (λ _ _, True) s.
Proof.
  unfold decision_known. intros Hs Hr Hi Hlike Hy [= Hap Hal Hl]. unfold assess_and_run. cbv zeta.
  apply (phase_after no_inspection same_inspection inspection_step);
    [unfold approvals_path, ask; only_tac; by split|intros path s1 [[H1 Hd1] _]|done].
  unfold decision_known in Hd1. injection Hd1 as Hap1 Hal1 Hl1.
  apply watch_bind. eapply watch_mono; [apply previously_approved_known; congruence|].
  intros [approved|e] s2 (H2 & Hal2 & Hl2 & Happ); [|done].
  apply watch_bind. apply (watch_mono _ _ (λ res s', later s2 s' ∧ may_go s' d r i res)).
  { destruct (e_json o) eqn:Hj; [by apply decide_json_go|]. apply decide_human_go; [done|congruence..|done]. }
  intros [go|e] s3 [H3 Hgo]; [|done]. destruct go; [|done]. apply (may_go_like _ _ _ _ _ _ Hlike) in Hgo.
  assert (H : later s s3) by (by repeat (etrans; [eassumption|])).
  assert (Hready : ready s3 d r i).
  { split_and!; [by eapply known_sandbox_later|by eapply known_release_later|].
    exists i'. split_and!; [by eapply known_inspection_later|done|done]. }
  apply (phase_after no_run later later_step); [unfold remember; only_tac|intros _ s4 H4|done].
  apply (phase_after no_run later later_step).
  { unfold find_binary. destruct (i_binary i); [done|]. apply only_bind; [|intros found; by destruct found].
    generalize ["cli.js"; "bin/index.js"; "index.js"; "bin.js"]. intros l. induction l as [|n l IH]; [done|].
    split; [done|]. intros there. by destruct there. }
  2:{ done. }
  intros bin s5 H5. apply watch_bind. eapply watch_mono; [apply run_node_binary_safe|by intros []].
  eapply ready_later; [|exact Hready]. by etrans.
Qed.

(** (C14) Up to any point, in any world, what [oath exec] starts is one of two. The binary
    of the project itself, if there is one and no sandbox was asked for, with the given
    arguments. Or node, for the release that the registry resolves the specifier to, only
'    only if no dry run was asked for, the release is not known to be younger than it must be,
    the score of the directory that was scanned reaches the grade that is required (a letter
    that is no grade requires nothing), and its findings are not serious, or were agreed to:
    by a flag, by the environment, at the prompt, or by an approval that was remembered for
    these very bytes, capabilities and this sandbox. With [--json] nobody is asked: serious
    findings run without agreement. The sandbox is the one that was decided: if that is the
    native one, node runs under exactly the plan for the package (on macOS with node
    readable), whose network is denied unless the package uses it and nothing denies it; if it
    is Node's, with exactly the permissions for three directories; otherwise with the given
    arguments alone. *)
Theorem exec_is_judged tr res :
  performs (cmd_exec platform cargo_version verified_native o) tr res →
  is_Some (watch monitor no_answers tr).
Proof.
  intros Hp. assert (H : safe monitor (cmd_exec platform cargo_version verified_native o) (λ _ _, True) no_answers).
  { unfold cmd_exec, ask. apply watch_bind. destruct (bool_decide _); [|done]. apply watch_ret. cbv beta iota zeta.
    apply watch_bind. eapply watch_mono; [by apply resolve_exec_sandbox_known|].
    intros [d|e] s1 (H1 & Hpk1 & Hfu1 & Hno1 & Hlo1 & Hd); [|done].
    apply safe_act. intros there. fold local_bin.
    exists (note_answer s1 _ (Base (Install.Exists local_bin)) there). split; [by apply no_run_step|].
    set (s2 := note_answer s1 _ _ there). assert (H2 : same_inspection s1 s2) by (apply inspection_step; by split).
    assert (Hs2 : v_packument s2 = v_packument s1 ∧ v_full s2 = v_full s1 ∧ v_now s2 = v_now s1 ∧ v_local s2 = Some there).
    { unfold s2. destruct s1. simpl in *. subst. rewrite decide_True by done. done. }
    destruct Hs2 as (Hpk2 & Hfu2 & Hno2 & Hlo2).
    assert (Hd2 : known_sandbox s2 = Some d) by (eapply known_sandbox_later; [apply H2|done]).
    destruct (there && negb (e_dry_run o) && bool_decide (effective_mode d = Off)) eqn:Hlocal.
    - apply watch_bind. apply run_step; [|by intros []]. simpl. unfold may_run_plain.
      apply andb_true_iff in Hlocal as [[Ht Hdry]%andb_true_iff Hoff]. rewrite Hd2, Hoff, Hdry, Hlo2, Ht.
      by rewrite bool_decide_eq_true_2.
    - apply watch_bind. eapply watch_mono; [apply find_release_known; simpl in *; congruence|].
      intros [r|e] s3 [H3 Hr]; [|done].
      apply watch_bind. eapply watch_mono; [apply age_gate_passes|]. intros [u|e] s4 [H4 Hy]; [|done].
      assert (H14 : same_inspection no_answers s4) by (by repeat (etrans; [eassumption|])).
      destruct H14 as [[_ Hdec] Hins].
      apply watch_bind. eapply watch_mono; [apply inspect_known; by rewrite Hins|].
      intros [i|e] s5 [[H5 Hdec5] Hi]; [|done]. destruct Hi as (i' & Hi & Hlike).
      apply (assess_and_run_safe d r i i'); try done.
      + eapply known_sandbox_later; [|exact Hd2]. etrans; [apply H3|]. etrans; [apply H4|done].
      + eapply known_release_later; [|exact Hr]. etrans; [apply H4|done].
      + by rewrite Hdec5, Hdec. }
  destruct (safe_sound monitor _ _ _ _ _ H Hp) as (s & Hw & _). eauto.
Qed.
End spec.

(** ** A run *)

#[local] Existing Instance toy_digest.
#[local] Existing Instance Contracts.toy_json_text.
#[local] Existing Instance plain_base64.
#[local] Existing Instance digest_ed25519.
Definition demo_packument : Packument := {|
  packument_name := "a"; modified := None; dist_tags := {["latest" := "1"]};
  versions := {["1" := toy_info "a" ∅ ∅ []]}; Versions.time := ∅ |}.
(** The registry has one release of [a]; the analyzer finds [risk], the user types [line]. *)
Definition exec_world (risk : RiskLevel) (line : string) X (e : ExecAct X) : X :=
  match e in ExecAct X return X with
  | Base e =>
      match e in Act X return X → X with
      | FetchPackument _ => λ _, Ok demo_packument
      | Install.Exists path => λ _, bool_decide (path ≠ "node_modules/.bin/a")
      | Scan n v _ => λ _, Ok {|
          package_name := n; package_version := v; overall_risk := risk; findings := []; files_scanned := 1;
          lines_scanned := 1; capabilities := no_capabilities; verdict_reasons := ["it was found"] |}
      | _ => λ x, x
      end (scene_world (scene [] []) _ e)
  | NodeHelp => Some "--permission"
  | MakeTempDir => Ok "/tmp/x"
  | ReadMetadata _ => None
  | ReadPackageDir _ => {| exists_in _ := false; walk := [] |}
  | ReadSizes _ => DirOf []
  | ReadApprovals _ => None | WriteApprovals _ _ => Ok tt
  | DecisionKey => Err "no key" | PrintJson _ => tt | ReadLine => Ok line
  | RunPlain _ _ => Ok (Some 0%Z) | NodeExecutable => Ok "/usr/bin/node" | RunSandboxed _ _ _ => Ok (Some 0%Z)
  end.
Definition exec_options : ExecOptions := {|
  e_package := "a"; e_args := ["--help"]; e_yes := false; e_min_age := Some "7d"; e_json := false;
  e_schema_version := 3; e_require_grade := Some "F"; e_dry_run := false; e_sandbox := true; e_sandbox_mode := Auto;
  e_deny_network := false; e_allow_degraded := true; e_remember := false |}.
Definition demo_exec (risk : RiskLevel) (line : string) :=
  Command.run (exec_world risk line) (@cmd_exec toy_semver demo_sha default_iter toy_digest Contracts.toy_json_text
    plain_base64 digest_ed25519 Linux "0.1.0" (nothing_isolated "none" false "no probe") exec_options).
Definition starts (ev : event ExecAct) : bool :=
  match action ev with RunPlain _ _ | RunSandboxed _ _ _ => true | _ => false end.
Lemma exec_is_judged_witness :
  existsb starts (demo_exec Low "").1 = true ∧ existsb starts (demo_exec Critical "Y").1 = true ∧
  existsb starts (demo_exec Critical "n").1 = false ∧
  is_Some (watch (@exec_monitor toy_semver default_iter digest_ed25519 Linux (nothing_isolated "none" false "no probe") exec_options)
             no_answers (demo_exec Low "").1).
Proof.
  split; [vm_compute; reflexivity|]. split; [vm_compute; reflexivity|]. split; [vm_compute; reflexivity|].
  exact (@exec_is_judged toy_semver demo_sha default_iter toy_digest Contracts.toy_json_text plain_base64
    digest_ed25519 Linux "0.1.0" (nothing_isolated "none" false "no probe") exec_options _ _ (run_performs _ _)).
Defined.
