(* ===== verification/Display.v ===== *)
(** * oath-cli: [oath score] and [oath log] ([main.rs])

    The score of a package of the registry, from its verified entry in the store, and the
    last entries of the transparency log. *)
From S2P Require Import Transparency Store Core Score Report Versions Tarball Git Workspace Placement Cli Command Install Supply.
From S2P Require Import ExecAssessment Exec.

(** ** Lines *)

Definition escape (code : string) : string := String (Ascii.ascii_of_nat 27) ("[" +:+ code +:+ "m").
(** [format!("{:>3}", n)] *)
Fixpoint blanks (n : nat) : string := match n with 0 => "" | S n => String " " (blanks n) end.
Definition right_aligned (width : nat) (s : string) : string := blanks (width - String.length s) +:+ s.
Definition grade_color (g : ascii) : string :=
  escape (if decide (g = "A"%char) then "32" else if decide (g = "B"%char) then "36"
          else if decide (g = "C"%char) then "33" else if decide (g = "D"%char) then "33" else "31").
Definition factor_line (f : ScoreFactor) : string :=
  "    " +:+ (if (0 <=? weight f)%Z then "+" else "") +:+ right_aligned 3 (pretty (weight f)) +:+ "  "
  +:+ factor_description f.
Definition capability_lines (c : Capabilities) : list string :=
  let listed :=
    (if Report.network c then ["    network access"] else []) ++ (if filesystem c then ["    filesystem access"] else [])
    ++ (if env_access c then ["    env variable reads"] else []) ++ (if subprocess c then ["    subprocess spawn"] else [])
    ++ (if dynamic_exec c then ["    dynamic code eval"] else [])
    ++ (if has_install_scripts c then ["    install scripts"] else []) in
  if decide (listed = []) then [] else ["  capabilities:"] ++ listed ++ [""].
Definition score_lines (package version : string) (report : AnalysisReport) (score : SafetyScore) : list string :=
  [""; "  " +:+ package +:+ "@" +:+ version;
   "  safety score: " +:+ grade_color (grade score) +:+ pretty (Score.score score) +:+ "/100 (grade "
     +:+ String (grade score) ")" +:+ escape "0"; ""; "  factors:"]
  ++ (factor_line <$> factors score) ++ [""] ++ capability_lines (capabilities report) ++
  ["  files scanned: " +:+ pretty (files_scanned report) +:+ "  |  lines: " +:+ pretty (lines_scanned report);
   "  findings: " +:+ pretty (length (findings report)) +:+ " total ("
     +:+ pretty (length (filter (λ f, is_high (risk f)) (findings report))) +:+ " high/critical)"].

(** ** [oath score] *)

Section score.
Context {SV : Semver} {SH : Sha256Hex} {HI : HashIter} {SL : StoreLib} {ED : Ed25519}.
Notation excmd := (cmd ExecAct).
Definition release_node (name version : string) (info : VersionInfo) : DepNode := {|
  Graph.name := name; alias := None; Graph.version := version; resolved := tarball (dist info);
  integrity := dist_integrity (dist info); dependencies := ∅; has_install_script := false; dev := false; 
  optional := false; peer_dependencies := ∅; optional_peers := ∅; resolved_peers := ∅ |}.
(** The entry of the release in the store, which is filled if it does not verify. *)
Definition stored_entry (n : DepNode) : excmd string :=
  root ← must OpenStore;
  v ← ask (verify_node n);
  _ ← when (negb (is_verified v)) (_ ← base (download_and_store_package n); mret tt);
  mret (store_dir root n).
(** The release, its report, its score, and the lines. *)
Definition cmd_score (package : string) : excmd (list string) :=
  let '(pkg_name, pkg_version) := parse_package_spec package in
  _ ← must NewClient;
  packument ← must (FetchPackument pkg_name);
  '(version, info) ← lift (resolve_version packument pkg_version);
  pkg_dir ← stored_entry (release_node pkg_name version info);
  report ← must (Scan pkg_name version pkg_dir);
  ctx ← score_context pkg_name;
  files ← act (ReadPackageDir pkg_dir);
  mret (("oath score: analyzing " +:+ pkg_name +:+ "@" +:+ pkg_version +:+ "...")
        :: score_lines pkg_name version report (compute_safety_score_contextual report files ctx)).
End score.

(** ** [oath log] *)

(** [&int[..int.len().min(30)]], which panics inside a character. *)
Definition short_integrity (int : string) : result Fault string := slice 0 (String.length int `min` 30) int.
Definition logged_package (p : PackageEntry) : result Fault string :=
  match pe_integrity p with
  | Some int => (λ s, "      " +:+ pe_name p +:+ "@" +:+ pe_version p +:+ "  " +:+ s) <$> short_integrity int
  | None => Ok ("      " +:+ pe_name p +:+ "@" +:+ pe_version p)
  end.
(** [UNIX_EPOCH + Duration::from_secs(ts)] panics beyond the seconds of an i64, which is what
    a system of the Unix family has; the sum is not used. *)
Definition clock_sum (ts : Z) : result Fault unit := if (ts <? 2 ^ 63)%Z then Ok tt else Err Panic.
Definition logged_install (e : TransparencyEntry) : result Fault (list string) :=
  _ ← clock_sum (ts e);
  let show_count := length (Transparency.packages e) `min` 5 in
  shown ← mapM logged_package (take show_count (Transparency.packages e));
  Ok (["  --- " +:+ pretty (pkg_count e) +:+ " packages | " +:+ pretty (duration_ms e) +:+ "ms | " +:+ Transparency.project e;
       "      ts: " +:+ pretty (ts e)] ++ shown
      ++ (if decide (show_count < length (Transparency.packages e)) then
            ["      ... and " +:+ pretty (length (Transparency.packages e) - show_count) +:+ " more"] else []) ++ [""]).
Definition cmd_log {TC : Codec} (log_path : string) (file : option string) (tail : nat) : result Fault (list string) :=
  let entries := read_recent file tail in
  if decide (entries = []) then
    Ok ["oath log: no entries yet (run `oath install` to create entries)"; "  log path: " +:+ log_path]
  else
    shown ← mapM logged_install entries;
    Ok (["oath transparency log (last " +:+ pretty (length entries) +:+ " entries):"; ""] ++ concat shown
        ++ ["  log path: " +:+ log_path]).

(** ** What is scored was verified *)

Section scored.
Context {SV : Semver} {SH : Sha256Hex} {HI : HashIter} {SL : StoreLib} {MC : Machine} {ED : Ed25519}.
(** What came into the store, as for the commands that install, and where the store is. *)
Definition Scored : Type := Supply * option string.
Definition entry_at (s : Scored) (dir : string) (ok : string → string → bool) : bool :=
  existsb (λ '(n, v, u, i), ok n v &&
    bool_decide (Some dir = (λ root, pjoin root (RustStr.join "/" (package_dir_for n v (Some u) i))) <$> s.2)) (good s.1).
(** Nothing is run, linked or written but temporary files, caches and the store. *)
Definition quiet {X} (e : Act X) : bool :=
  match e with
  | Sh _ _ _ | WriteText _ _ | WriteJson _ _ | CreateDirs _ | RemovePath _ | MakeExecutable _ | Symlink _ _
  | WritePlan _ _ | WriteLock _ _ | LinkPlan _ _ | LinkPlanClean _ _ | LinkAll _ _ => false
  | _ => true
  end.
Definition score_act (s : Scored) X (e : Act X) : X → option Scored :=
  match e in Act X return X → option Scored with
  | OpenStore => λ x, Some (s.1, match x with Ok root => Some root | Err _ => s.2 end)
  | Scan n v dir => λ _, allow (entry_at s dir (λ n' v', bool_decide (n' = n ∧ v' = v))) s
  | e => λ x, s' ← supply s.1 _ e x; allow (quiet e) (s', s.2)
  end.
Definition scored (s : Scored) X (e : ExecAct X) : X → option Scored :=
  match e in ExecAct X return X → option Scored with
  | Base e => score_act s _ e
  | ReadMetadata _ => λ _, Some s
  | ReadPackageDir dir => λ _, allow (entry_at s dir (λ _ _, true)) s
  | _ => λ _, None
  end.
Definition supplying X (e : Act X) : Prop :=
  match e with OpenStore | Scan _ _ _ => False | e => quiet e = true end.
Lemma score_supplying {A} (p : command A) (Q : result Stop A → Supply → Prop) s :
  only supplying p → safe supply p Q s.1 → safe score_act p (λ r s', Q r s'.1 ∧ s'.2 = s.2) s.
Proof.
  revert s. induction p as [r|X e k IH]; intros s Hp Hs; [done|]. destruct Hp as [He Hp]. intros x.
  destruct (Hs x) as (s' & Hm & Hs'). exists (s', s.2).
  split; [|apply (IH x (s', s.2)); [apply Hp|done]].
  destruct e; try done; unfold score_act; rewrite Hm; done.
Qed.
Lemma tarball_bytes_supplying miss limits n t :
  (∀ p, only supplying (miss p)) → only supplying (tarball_bytes miss limits n t).
Proof.
  intros Hm. unfold tarball_bytes, file_dependency_path, materialize_file_dependency, git_cache_path, copy_cached.
  only_tac; apply Hm.
Qed.
Lemma download_and_store_supplying n : only supplying (download_and_store_package n).
Proof.
  unfold download_and_store_package, extract_and_store, store_node.
  apply only_bind; [by apply only_try|]. intros limits. apply only_bind; [by apply tarball_bytes_supplying|].
  only_tac.
Qed.
Lemma download_and_store_good n s :
  safe supply (download_and_store_package n) (λ r s',
    match r with Ok _ => identity_of n ∈ good s' | Err _ => True end) s.
Proof.
  unfold download_and_store_package. apply safe_try. intros [limits|e]; (eexists; split; [reflexivity|]); [|done].
  apply watch_bind. eapply watch_mono; [by apply tarball_bytes_supplied|]. intros [len|e] s1 H1; [|done].
  apply watch_bind. eapply watch_mono; [by apply extract_and_store_good; destruct H1|].
  intros [u|e] s2 H2; [by destruct H2|done].
Qed.
Lemma entry_at_dir s root n ok :
  s.2 = Some root → identity_of n ∈ good s.1 → ok (Graph.name n) (Graph.version n) = true →
  entry_at s (store_dir root n) ok = true.
Proof.
  intros Hr Hn Hok. unfold entry_at. rewrite existsb_exists. exists (identity_of n).
  split; [by apply list_elem_of_In|]. simpl. rewrite Hok, Hr. by apply bool_decide_eq_true.
Qed.
Lemma stored_entry_good n s :
  safe scored (stored_entry n) (λ r s', match r with
    | Ok dir => ∃ root, s'.2 = Some root ∧ identity_of n ∈ good s'.1 ∧ dir = store_dir root n
    | Err _ => True end) s.
Proof.
  unfold stored_entry, verify_node. apply safe_try. intros [root|e]; (eexists; split; [reflexivity|]); [|done].
  apply safe_act. intros v. eexists. split; [reflexivity|].
  destruct (is_verified v) eqn:Hv; [exists root; repeat split; by left|].
  cbn [when negb]. apply watch_bind, watch_bind. unfold base.
  apply (safe_embed _ score_act scored _ _ (s.1, Some root)); [done|].
  eapply watch_mono; [apply score_supplying; [apply download_and_store_supplying|apply download_and_store_good]|].
  intros [len|e] s' [Hg Hr]; [|done]. exists root. by repeat split.
Qed.
(** Whatever the answers and however far it comes, [oath score] starts no program and links
    and writes nothing but temporary files, the git cache and the store, where it only puts
    bytes that came from the URL of the package with its integrity; and what it analyzes and
    scores is the entry in the store of the name and version that it shows, after the store
    verified it or was given it. *)
Theorem score_shows_verified package tr o :
  performs (cmd_score package) tr o → ∃ s, watch scored (no_supply, None) tr = Some s.
Proof.
  intros Hp. assert (Hs : safe scored (cmd_score package) (λ _ _, True) (no_supply, None)).
  2:{ destruct (safe_sound scored _ _ _ _ _ Hs Hp) as (s & Hs' & _). by exists s. }
  clear Hp. unfold cmd_score. destruct (parse_package_spec package) as [name spec].
  apply safe_try. intros [u|e]; (eexists; split; [reflexivity|]); [|done].
  apply safe_try. intros [p|e]; (eexists; split; [reflexivity|]); [|done].
  apply watch_lift. destruct (resolve_version p spec) as [[version info]|e]; [|done].
  apply watch_bind. eapply watch_mono; [apply stored_entry_good|]. intros [dir|e] s Hd; [|done].
  destruct Hd as (root & Hr & Hg & ->). set (n := release_node name version info) in *.
  apply safe_try. intros x. exists s. split.
  { simpl. rewrite (entry_at_dir s root n); [done..|]. by apply bool_decide_eq_true. }
  destruct x as [report|e]; [|done]. unfold score_context.
  apply watch_bind. intros meta. exists s. split; [done|]. simpl.
  intros files. exists s. split; [|done]. simpl. by rewrite (entry_at_dir s root n).
Qed.
End scored.

(** A hash that ends inside a character after 30 bytes. *)
Example log_panics : short_integrity (blanks 29 +:+ utf8 [195; 169]%N) = Err Panic ∧
  short_integrity (blanks 30 +:+ utf8 [195; 169]%N) = Ok (blanks 30).
Proof. by vm_compute. Qed.
