(* ===== verification/Serde.v ===== *)
(** * Reading documents back ([oath-contracts/src/lib.rs], its [Deserialize] derives)

    How the documents that are exchanged between programs are decoded from JSON: a struct
    from an object or from an array of its fields, an absent or null option, numbers in
    their range, an enumeration by its name. What is written is read back. *)
From S2P Require Export Contracts.

(** ** The derives *)

(** The field [k], the [i]-th of a struct with [n] fields: [None] is an error. *)
Definition entries_of (k : string) (m : list (string * Json)) : list (string * Json) :=
  List.filter (λ e, String.eqb k e.1) m.
Definition field {A} (i : nat) (k : string) (d : Json → option A) (j : Json) : option A :=
  match j with
  | JObject m => match entries_of k m with [e] => d e.2 | _ => None end
  | JArray l => l !! i ≫= d
  | _ => None
  end.
Definition opt_field {A} (i : nat) (k : string) (d : Json → option (option A)) (j : Json) : option (option A) :=
  match j with
  | JObject m => match entries_of k m with [] => Some None | [e] => d e.2 | _ => None end
  | JArray l => l !! i ≫= d
  | _ => None
  end.
Definition struct_of (n : nat) (j : Json) : option unit :=
  match j with
  | JObject _ => Some tt
  | JArray l => if decide (length l = n) then Some tt else None
  | _ => None
  end.
Definition of_string : Json → option string := as_str.
Definition of_bool (j : Json) : option bool := match j with JBool b => Some b | _ => None end.
(** An integer without sign, of at most [w] bits. *)
Definition of_unsigned (w : Z) (j : Json) : option N :=
  match j with
  | JNumber text =>
      v ← (if decide (text = "") then None else parse_digits 0 (chars text));
      if (v <? 2 ^ w)%Z then Some (Z.to_N v) else None
  | _ => None
  end.
Definition of_list {A} (d : Json → option A) (j : Json) : option (list A) :=
  match j with JArray l => mapM d l | _ => None end.
Definition of_option {A} (d : Json → option A) (j : Json) : option (option A) :=
  match j with JNull => Some None | _ => Some <$> d j end.
(** A variant without data, by its name. *)
Definition of_variant {A} (name : A → string) (all : list A) (j : Json) : option A :=
  s ← match j with JString s => Some s | JObject [(s, JNull)] => Some s | _ => None end;
  first_some (λ a, if String.eqb (name a) s then Some a else None) all.

Definition of_decision : Json → option Decision := of_variant decision_str [Allow; Deny; Review; Unknown].
Definition ALL : list ReasonCode :=
  [ExecAllowed; ExecGradeBelowRequired; ExecReleaseTooNew; PublishAllowed; PublishSecretDetected; RegistryAllowed;
   RegistryCriticalBehavior; RegistryReviewRequired; RegistrySecretDetected; RegistryUnknown].
Definition of_reason : Json → option ReasonCode := of_variant reason_str ALL.
Definition of_signature (j : Json) : option DetachedSignature :=
  _ ← struct_of 4 j;
  a ← field 0 "algorithm" of_string j; c ← field 1 "canonicalization" of_string j;
  p ← field 2 "public_key" of_string j; s ← field 3 "signature" of_string j;
  Some {| algorithm := a; canonicalization := c; public_key := p; signature := s |}.
Definition of_file (j : Json) : option PublishFile :=
  _ ← struct_of 3 j;
  p ← field 0 "path" of_string j; b ← field 1 "bytes" (of_unsigned 64) j; s ← field 2 "sha256" of_string j;
  Some {| pf_path := p; pf_bytes := b; pf_sha256 := s |}.
Definition of_strings : Json → option (list string) := of_list of_string.
Definition of_diff (j : Json) : option PublishDiff :=
  _ ← struct_of 6 j;
  v ← field 0 "previous_version" of_string j; a ← field 1 "added_files" of_strings j;
  r ← field 2 "removed_files" of_strings j; c ← field 3 "changed_files" of_strings j;
  ca ← field 4 "capabilities_added" of_strings j; cr ← field 5 "capabilities_removed" of_strings j;
  Some {| df_previous_version := v; df_added_files := a; df_removed_files := r; df_changed_files := c;
          df_capabilities_added := ca; df_capabilities_removed := cr |}.
Definition of_publish (j : Json) : option PublishAssessmentV2 :=
  _ ← struct_of 23 j;
  v ← field 0 "schema_version" (of_unsigned 32) j; g ← field 1 "generated_at" (of_unsigned 64) j;
  e ← field 2 "expires_at" (of_unsigned 64) j; n ← field 3 "name" of_string j;
  ve ← field 4 "version" of_string j; t ← field 5 "tag" of_string j;
  ac ← opt_field 6 "access" (of_option of_string) j; d ← field 7 "package_digest" of_string j;
  u ← field 8 "unpacked_bytes" (of_unsigned 64) j; f ← field 9 "files" (of_list of_file) j;
  dc ← field 10 "dependency_count" (of_unsigned 64) j; lh ← field 11 "lifecycle_hooks" of_strings j;
  c ← field 12 "capabilities" of_strings j; sa ← field 13 "source_available" of_bool j;
  sf ← field 14 "secret_findings" of_strings j; de ← field 15 "decision" of_decision j;
  rc ← field 16 "reason_code" of_reason j; pr ← opt_field 17 "previous_release" (of_option of_diff) j;
  pd ← field 18 "policy_digest" of_string j; ed ← field 19 "evidence_digest" of_string j;
  rb ← field 20 "rule_bundle_version" of_string j; l ← field 21 "limitations" of_strings j;
  s ← opt_field 22 "signature" (of_option of_signature) j;
  Some (Build_PublishAssessmentV2 v g e n ve t ac d u f dc lh c sa sf de rc pr pd ed rb l s).

(** ** What is written is read back *)

Section unsigned.
Lemma pretty_N_char_digit x :
  (x < 10)%N → is_digit (pretty_N_char x) = true ∧ Z.of_N (N_of_ascii (pretty_N_char x)) = (48 + Z.of_N x)%Z.
Proof.
  intros Hx. assert (H : (x = 0 ∨ x = 1 ∨ x = 2 ∨ x = 3 ∨ x = 4 ∨ x = 5 ∨ x = 6 ∨ x = 7 ∨ x = 8 ∨ x = 9)%N) by lia.
  by repeat destruct H as [->|H]; [..|subst x].
Qed.
Lemma parse_pretty_go x s :
  (Z.of_N x ≤ u64_max)%Z → parse_digits 0 (chars (pretty_N_go x s)) = parse_digits (Z.of_N x) (chars s).
Proof.
  revert s. induction (N.lt_wf_0 x) as [x _ IH]; intros s Hx.
  assert (x = 0 ∨ 0 < x)%N as [->|H0] by lia; [by rewrite pretty_N_go_0|].
  rewrite pretty_N_go_step by done. pose proof (N.div_lt x 10 H0 eq_refl) as Hlt.
  rewrite IH by (done || lia). cbn [chars parse_digits].
  destruct (pretty_N_char_digit (x `mod` 10)) as [-> ->]; [by apply N.mod_lt|].
  pose proof (N.div_mod x 10) as Hdm. replace (Z.of_N (x `div` 10) * 10 + (48 + Z.of_N (x `mod` 10) - 48))%Z with (Z.of_N x) by lia.
  by rewrite (proj2 (Z.leb_le _ _) Hx).
Qed.
Lemma of_unsigned_jnat w n : (Z.of_N n < 2 ^ w)%Z → (w ≤ 64)%Z → of_unsigned w (jnat n) = Some n.
Proof.
  intros Hn Hw. assert (Hx : (Z.of_N n ≤ u64_max)%Z).
  { unfold u64_max. pose proof (Z.pow_le_mono_r 2 w 64 eq_refl Hw). lia. }
  assert (Hp : parse_digits 0 (chars (pretty n)) = Some (Z.of_N n) ∧ pretty n ≠ "").
  { unfold pretty, pretty_N. case_decide as H0; [by subst n|]. rewrite parse_pretty_go by done. split; [done|].
    rewrite pretty_N_go_step by lia. by apply pretty_N_go_not_empty. }
  destruct Hp as [Hp Hne]. unfold of_unsigned, jnat. rewrite decide_False by done. rewrite Hp. simpl.
  rewrite (proj2 (Z.ltb_lt _ _) Hn). by rewrite N2Z.id.
Qed.
End unsigned.

(** A decoder [d] reads what [f] writes of a value with [P]. *)
Definition reads {A} (f : A → Json) (d : Json → option A) (P : A → Prop) : Prop := ∀ a, P a → d (f a) = Some a.
Lemma reads_list {A} (f : A → Json) d (P : A → Prop) :
  reads f d P → reads (λ l, JArray (f <$> l)) (of_list d) (Forall P).
Proof.
  intros H l Hl. unfold of_list. apply mapM_Some, Forall2_fmap_l, Forall_Forall2_diag.
  eapply Forall_impl; [exact Hl|]. intros a. apply H.
Qed.
Lemma reads_strings : reads jstrings of_strings (λ _, True).
Proof. intros l _. apply (reads_list JString of_string (λ _, True)); [done|by apply Forall_true]. Qed.
Lemma reads_decision : reads (λ d, JString (decision_str d)) of_decision (λ _, True).
Proof. by intros [] _. Qed.
Lemma reads_reason : reads (λ r, JString (reason_str r)) of_reason (λ _, True).
Proof. by intros [] _. Qed.
Create HintDb reads.
#[export] Hint Resolve reads_strings reads_decision reads_reason : reads.

(** A struct is read field by field. *)
Ltac read_fields :=
  cbn [struct_of field opt_field entries_of List.filter fst snd String.eqb Ascii.eqb Bool.eqb];
  repeat match goal with
  | |- context [of_unsigned ?w (jnat ?n)] => rewrite (of_unsigned_jnat w n) by (assumption || lia)
  | H : reads ?f ?d _ |- context [?d (?f ?a)] => rewrite (H a) by auto
  | |- context [of_bool (JBool ?b)] => change (of_bool (JBool b)) with (Some b)
  | |- context [of_string (JString ?s)] => change (of_string (JString s)) with (Some s)
  | |- context [of_strings (jstrings ?l)] => rewrite (reads_strings l I)
  | |- context [of_decision (JString (decision_str ?d))] => rewrite (reads_decision d I)
  | |- context [of_reason (JString (reason_str ?r))] => rewrite (reads_reason r I)
  end; cbn [mbind option_bind].

Lemma reads_signature : reads signature_json of_signature (λ _, True).
Proof. intros [] _. unfold of_signature, signature_json. read_fields. done. Qed.
Definition file_in_range (f : PublishFile) : Prop := (Z.of_N (pf_bytes f) < 2 ^ 64)%Z.
Lemma reads_file : reads file_json of_file file_in_range.
Proof. intros [] H. unfold file_in_range, of_file, file_json in *. simpl in H. read_fields. done. Qed.
Lemma reads_diff : reads publish_diff_json of_diff (λ _, True).
Proof. intros [] _. unfold of_diff, publish_diff_json. read_fields. done. Qed.
(** The numbers fit the integers of the struct. *)
Definition in_range (a : PublishAssessmentV2) : Prop :=
  (Z.of_N (pa_schema_version a) < 2 ^ 32 ∧ Z.of_N (pa_generated_at a) < 2 ^ 64 ∧ Z.of_N (pa_expires_at a) < 2 ^ 64 ∧
   Z.of_N (pa_unpacked_bytes a) < 2 ^ 64 ∧ Z.of_N (pa_dependency_count a) < 2 ^ 64)%Z ∧
  Forall file_in_range (pa_files a).
Lemma jopt_strings : reads (jopt JString) (of_option of_string) (λ _, True).
Proof. by intros [s|] _. Qed.
Lemma jopt_diff : reads (jopt publish_diff_json) (of_option of_diff) (λ _, True).
Proof. intros [d|] _; [|done]. unfold jopt, of_option. by rewrite (reads_diff d I). Qed.
Lemma jopt_signature : reads (jopt signature_json) (of_option of_signature) (λ _, True).
Proof. intros [s|] _; [|done]. unfold jopt, of_option. by rewrite (reads_signature s I). Qed.
Lemma reads_publish : reads publish_json of_publish in_range.
Proof.
  intros a [(Hv & Hg & He & Hu & Hd) Hf]. destruct a as [v g e n ve t ac d u f dc lh c sa sf de rc pr pd ed rb l s].
  cbn [pa_schema_version pa_generated_at pa_expires_at pa_unpacked_bytes pa_dependency_count pa_files] in *.
  pose proof (reads_list _ _ _ reads_file f Hf) as Hfiles. cbn beta in Hfiles.
  pose proof (jopt_strings ac I) as Hac. pose proof (jopt_diff pr I) as Hpr. pose proof (jopt_signature s I) as Hs.
  unfold of_publish, publish_json.
  cbn [pa_schema_version pa_generated_at pa_expires_at pa_name pa_version pa_tag pa_access pa_package_digest
    pa_unpacked_bytes pa_files pa_dependency_count pa_lifecycle_hooks pa_capabilities pa_source_available
    pa_secret_findings pa_decision pa_reason_code pa_previous_release pa_policy_digest pa_evidence_digest
    pa_rule_bundle_version pa_limitations pa_signature].
  read_fields. rewrite Hac, Hfiles, Hpr, Hs. done.
Qed.

(** [serde_json::to_vec_pretty] and [from_slice], up to the value a text stands for: the
    entries of an object in the order of the text. *)
Class JsonFile := {
  to_vec_pretty : Json → string;
  from_slice : string → option Json;
  from_slice_pretty j : numbers_ok j = true → from_slice (to_vec_pretty j) = Some j;
}.
