(* ===== verification/Metadata.v ===== *)
(** * oath-fetch: what the registry says about a package ([metadata.rs]), and [oath info]
    ([main.rs])

    The full packument and the weekly downloads, the age of a release in days. *)
From S2P Require Export Serde.
From S2P Require Import Cli Scanner.

(** ** Dates *)

Definition i64 : Z → Z := wrap_s 64.
(** [str::parse::<i64>] *)
Definition parse_i64 (s : string) : option Z :=
  match strip_prefix "-" s with
  | Some digits =>
      n ← (if decide (digits = "") then None else parse_digits 0 (chars digits));
      if (n <=? 2 ^ 63)%Z then Some (- n)%Z else None
  | None => n ← parse_u64 s; if (n <? 2 ^ 63)%Z then Some n else None
  end.
(** A division truncates; the other operations wrap, as in the release profile. *)
Definition days_from_date (year month day : Z) : Z :=
  let '(y, m) := if (month <=? 2)%Z then (i64 (year - 1), i64 (month + 12)) else (year, month) in
  let era := Z.quot y 400 in
  let yoe := i64 (y - i64 (era * 400)) in
  let doy := i64 (i64 (Z.quot (i64 (i64 (153 * i64 (m - 3)) + 2)) 5 + day) - 1) in
  let doe := i64 (i64 (i64 (i64 (yoe * 365) + Z.quot yoe 4) - Z.quot yoe 100) + doy) in
  i64 (i64 (i64 (era * 146097) + doe) - 719468).
(** [now] is the system time in seconds, if it is after the epoch. *)
Definition parse_age_days (now : option Z) (iso_date : string) : option Z :=
  date_part ← head (split_char "T" iso_date);
  match split_char "-" date_part with
  | y :: m :: d :: _ =>
      year ← parse_i64 y; month ← parse_i64 m; day ← parse_i64 d;
      let publish_days := days_from_date year month day in
      now ← now;
      let now_days := i64 (now / 86400) in
      Some (if (publish_days <? now_days)%Z then (i64 (now_days - publish_days) mod 2 ^ 64)%Z else 0%Z)
  | _ => None
  end.

(** ** Metadata *)

Record Maintainer := { maintainer_name : string; email : option string }.
Record PackageMetadata := {
  meta_name : string; latest_version : string; published_at : option string; maintainers : list Maintainer;
  total_versions : nat; weekly_downloads : option N; has_readme : bool; license : option string;
  repository : option string; last_publish_age_days : option Z }.
Definition of_maintainer (j : Json) : option Maintainer :=
  _ ← struct_of 2 j;
  n ← field 0 "name" of_string j; e ← opt_field 1 "email" (of_option of_string) j;
  Some {| maintainer_name := n; email := e |}.
Definition of_downloads (j : Json) : option (option N) :=
  _ ← struct_of 1 j; opt_field 0 "downloads" (of_option (of_unsigned 64)) j.
Definition str_at (k : string) (j : Json) : option string := jget k j ≫= as_str.
Definition metadata_of (now : option Z) (package_name : string) (packument : Json) (downloads : option N) : PackageMetadata :=
  let latest := default "" (jget "dist-tags" packument ≫= str_at "latest") in
  let published := jget "time" packument ≫= str_at latest in
  {| meta_name := package_name; latest_version := latest; published_at := published;
     maintainers := default [] (jget "maintainers" packument ≫= of_list of_maintainer);
     total_versions := from_option length 0 (jget "versions" packument ≫= object_of);
     weekly_downloads := downloads;
     has_readme := from_option (λ s, negb (bool_decide (s = ""))) false (str_at "readme" packument);
     license := (jget "versions" packument ≫= jget latest) ≫= str_at "license";
     repository := jget "repository" packument ≫= λ r, match str_at "url" r with Some u => Some u | None => as_str r end;
     last_publish_age_days := published ≫= parse_age_days now |}.
(** Two requests; [get] is a request whose status and body are good, or its failure. *)
Section fetch.
Context (get : string → result string Json) (now : option Z).
Definition fetch_weekly_downloads (package_name : string) : result string (option N) :=
  j ← get ("https://api.npmjs.org/downloads/point/last-week/" +:+ package_name);
  ok_or (of_downloads j) "Failed to parse downloads JSON".
Definition fetch_package_metadata (package_name : string) : result string PackageMetadata :=
  packument ← get ("https://registry.npmjs.org/" +:+ package_name);
  Ok (metadata_of now package_name packument
        (match fetch_weekly_downloads package_name with Ok d => d | Err _ => None end)).
End fetch.

(** ** [oath info] *)

(** [format!("{:.0}", x)] *)
Definition fixed0 (x : F64.F64) : string := let '(a, b) := F64.frac x in pretty (F64.div_half_even a b).
Definition format_downloads (n : N) : string :=
  let f k := F64.div (F64.round (Z.of_N n) 1) (F64.round k 1) in
  if (1000000 <=? n)%N then F64.fixed1 (f 1000000%Z) +:+ "M"
  else if (1000 <=? n)%N then fixed0 (f 1000%Z) +:+ "K"
  else pretty n.
Definition info_lines (m : PackageMetadata) : list string :=
  [""; "  " +:+ meta_name m +:+ "@" +:+ latest_version m; ""; "  maintainers:"] ++
  ((λ p, "    " +:+ maintainer_name p +:+ match email p with Some e => " <" +:+ e +:+ ">" | None => "" end) <$> maintainers m) ++
  [""] ++ option_list ((λ d, "  weekly downloads: " +:+ format_downloads d) <$> weekly_downloads m) ++
  ["  total versions:   " +:+ pretty (total_versions m)] ++
  option_list ((λ p, "  latest published: " +:+ p) <$> published_at m) ++
  option_list ((λ a, "  publish age:      " +:+ pretty a +:+ " days ago") <$> last_publish_age_days m) ++ [""] ++
  option_list ((λ l, "  license:    " +:+ l) <$> license m) ++
  option_list ((λ r, "  repository: " +:+ r) <$> repository m) ++
  ["  has readme: " +:+ if has_readme m then "yes" else "no"].
Definition cmd_info (get : string → result string Json) (now : option Z) (package : string) : list string * result string unit :=
  let pkg_name := (parse_package_spec package).1 in
  let first := "oath info: fetching metadata for " +:+ pkg_name +:+ "..." in
  match fetch_package_metadata get now pkg_name with
  | Ok meta => (first :: info_lines meta, Ok tt)
  | Err e => ([first], Err e)
  end.

(** ** The calendar *)

Lemma i64_id x : (- 2 ^ 63 ≤ x < 2 ^ 63)%Z → i64 x = x.
Proof. intros Hx. unfold i64. by apply wrap_s_id. Qed.
(** Days of the years up to [n], from the year 1 on. *)
Definition days_to (n : Z) : Z := (n / 400 * 146097 + (n mod 400 * 365 + n mod 400 / 4 - n mod 400 / 100))%Z.
Lemma year_mod n : (1 ≤ n)%Z → (n mod 400 = 0 ∧ (n - 1) mod 400 = 399 ∧ n / 400 = (n - 1) / 400 + 1)%Z ∨
  (n mod 400 = (n - 1) mod 400 + 1 ∧ n / 400 = (n - 1) / 400)%Z.
Proof.
  intros Hn. pose proof (Z.div_mod (n - 1) 400 ltac:(lia)) as Hd. pose proof (Z.mod_pos_bound (n - 1) 400 ltac:(lia)) as Hb.
  destruct (decide ((n - 1) mod 400 = 399)%Z) as [He|He]; [left|right].
  - pose proof (Z.div_unique n 400 ((n - 1) / 400 + 1) 0 ltac:(lia) ltac:(lia)).
    pose proof (Z.mod_unique n 400 ((n - 1) / 400 + 1) 0 ltac:(lia) ltac:(lia)). lia.
  - pose proof (Z.div_unique n 400 ((n - 1) / 400) ((n - 1) mod 400 + 1) ltac:(lia) ltac:(lia)).
    pose proof (Z.mod_unique n 400 ((n - 1) / 400) ((n - 1) mod 400 + 1) ltac:(lia) ltac:(lia)). lia.
Qed.
Lemma year_table r : (1 ≤ r < 400)%Z →
  (r * 365 + r / 4 - r / 100 = (r - 1) * 365 + (r - 1) / 4 - (r - 1) / 100 +
    (if (r mod 4 =? 0) && (negb (r mod 100 =? 0) || (r =? 0)) then 366 else 365))%Z.
Proof.
  intros Hr. assert (r ∈ seqZ 1 399) as Hin by (apply elem_of_seqZ; lia). clear Hr. revert r Hin.
  apply Forall_forall, (bool_decide_unpack _). by vm_compute.
Qed.
Lemma days_to_step n : (1 ≤ n)%Z → days_to n = (days_to (n - 1) + year_days n)%Z.
Proof.
  intros Hn. unfold days_to, year_days, is_leap.
  assert (n mod 4 = (n mod 400) mod 4)%Z as -> by (rewrite <- (Znumtheory.Zmod_div_mod 4 400); [done|lia|lia|by exists 100%Z]).
  assert (n mod 100 = (n mod 400) mod 100)%Z as -> by (rewrite <- (Znumtheory.Zmod_div_mod 100 400); [done|lia|lia|by exists 4%Z]).
  pose proof (Z.mod_pos_bound n 400 ltac:(lia)) as Hb.
  destruct (year_mod n Hn) as [(-> & -> & ->)|[Hm ->]]; [generalize ((n - 1) / 400)%Z as q; intros q; match goal with |- context [if ?b then 366%Z else 365%Z] => change b with true end; cbv iota; change (0 / 4)%Z with 0%Z; change (0 / 100)%Z with 0%Z; change (399 / 4)%Z with 99%Z; change (399 / 100)%Z with 3%Z; lia|].
  assert ((n - 1) mod 400 = n mod 400 - 1)%Z as -> by lia. revert Hb Hm. generalize (n mod 400)%Z as r. intros r Hb Hm.
  assert (1 ≤ r < 400)%Z as Hr by (pose proof (Z.mod_pos_bound (n - 1) 400 ltac:(lia)); lia). clear Hm Hb.
  rewrite (year_table r) by lia. ring.
Qed.
Lemma days_to_years k : sum_Z (year_days <$> seqZ 1970 (Z.of_nat k)) = (days_to (1969 + Z.of_nat k) - 719162)%Z.
Proof.
  induction k as [|k IH]; [by vm_compute|].
  assert (∀ l, sum_Z (l ++ [year_days (1970 + Z.of_nat k)]) = sum_Z l + year_days (1970 + Z.of_nat k))%Z as Hsnoc
    by (intros l; induction l as [|x l IHl]; simpl in *; lia).
  assert (seqZ 1970 (Z.of_nat (S k)) = seqZ 1970 (Z.of_nat k) ++ [1970 + Z.of_nat k]%Z) as ->.
  { rewrite Nat2Z.inj_succ, <- Z.add_1_r, seqZ_app by lia. done. }
  rewrite fmap_app, Hsnoc, IH. rewrite (days_to_step (1969 + Z.of_nat (S k))) by lia.
  replace (1969 + Z.of_nat (S k) - 1)%Z with (1969 + Z.of_nat k)%Z by lia.
  replace (1969 + Z.of_nat (S k))%Z with (1970 + Z.of_nat k)%Z by lia. lia.
Qed.
Lemma days_from_date_plain year month day : (1 ≤ year < 2 ^ 40)%Z → (1 ≤ month ≤ 12)%Z → (1 ≤ day ≤ 31)%Z →
  days_from_date year month day =
    ((if (month <=? 2)%Z then days_to (year - 1) + (153 * (month + 9) + 2) / 5 else days_to year + (153 * (month - 3) + 2) / 5)
     + (day - 1) - 719468)%Z.
Proof.
  intros Hy Hm Hd. assert (∀ y m, (0 ≤ y < 2 ^ 40)%Z → (3 ≤ m ≤ 14)%Z →
    (let era := Z.quot y 400 in let yoe := i64 (y - i64 (era * 400)) in
     let doy := i64 (i64 (Z.quot (i64 (i64 (153 * i64 (m - 3)) + 2)) 5 + day) - 1) in
     let doe := i64 (i64 (i64 (i64 (yoe * 365) + Z.quot yoe 4) - Z.quot yoe 100) + doy) in
     i64 (i64 (i64 (era * 146097) + doe) - 719468)) = (days_to y + (153 * (m - 3) + 2) / 5 + (day - 1) - 719468)%Z) as Hgen.
  { intros y m Hy' Hm'. cbv zeta. rewrite (Z.quot_div_nonneg y) by lia. pose proof (Z.mod_pos_bound y 400 ltac:(lia)) as Hr.
    assert (0 ≤ y / 400 < 2 ^ 40)%Z as Hera by (split; [by apply Z.div_pos; lia|apply Z.div_lt_upper_bound; lia]).
    rewrite (i64_id (y / 400 * 400)) by lia. assert (y - y / 400 * 400 = y mod 400)%Z as -> by (rewrite Z.mod_eq; lia).
    unfold days_to. revert Hr Hera. generalize (y mod 400)%Z (y / 400)%Z. intros r e Hr Hera.
    rewrite (i64_id r), (i64_id (m - 3)), (i64_id (153 * _)), (i64_id (153 * (m - 3) + 2)) by lia.
    rewrite !Z.quot_div_nonneg by lia.
    assert (0 ≤ r / 4 < 100 ∧ 0 ≤ r / 100 < 4 ∧ 0 ≤ (153 * (m - 3) + 2) / 5 < 400)%Z as (Ha & Hb & Hc) by
      (repeat split; first [apply Z.div_pos; lia|apply Z.div_lt_upper_bound; lia]).
    revert Ha Hb Hc. generalize (r / 4)%Z (r / 100)%Z ((153 * (m - 3) + 2) / 5)%Z. intros a b c Ha Hb Hc.
    rewrite (i64_id (r * 365)), (i64_id (_ + day)) by lia. rewrite (i64_id (_ - 1)) by lia.
    rewrite (i64_id (r * 365 + a)) by lia. rewrite (i64_id (r * 365 + a - b)) by lia.
    rewrite (i64_id (_ + (_ + day - 1))) by lia. rewrite (i64_id (e * 146097)) by lia.
    rewrite (i64_id (e * 146097 + _)) by lia. rewrite i64_id by lia. lia. }
  unfold days_from_date. destruct (month <=? 2)%Z eqn:Em.
  - rewrite (i64_id (year - 1)), (i64_id (month + 12)) by lia. rewrite Hgen by lia.
    replace (month + 12 - 3)%Z with (month + 9)%Z by lia. done.
  - rewrite Hgen by lia. done.
Qed.
(** The age of a release: its date is turned into the days that the calendar counts from
    1970, with its leap years, for every date in the next trillion years. *)
Theorem days_from_date_exact year month day :
  (1970 ≤ year < 2 ^ 40)%Z → (1 ≤ month ≤ 12)%Z → (1 ≤ day ≤ 31)%Z →
  days_from_date year month day = civil_days year month day.
Proof.
  intros Hy Hm Hd. rewrite days_from_date_plain by lia. unfold civil_days.
  replace (year - 1970)%Z with (Z.of_nat (Z.to_nat (year - 1970))) by lia. rewrite days_to_years.
  replace (1969 + Z.of_nat (Z.to_nat (year - 1970)))%Z with (year - 1)%Z by lia.
  pose proof (days_to_step year ltac:(lia)) as Hs. unfold month_days, year_days in *.
  revert Hs. generalize (days_to year) (days_to (year - 1)). intros u v Hs.
  assert (month = 1 ∨ month = 2 ∨ month = 3 ∨ month = 4 ∨ month = 5 ∨ month = 6 ∨ month = 7 ∨ month = 8 ∨ month = 9 ∨
    month = 10 ∨ month = 11 ∨ month = 12)%Z as Hcases by lia.
  destruct_or! Hcases; subst month; simpl; destruct (is_leap year); simpl;
    match goal with |- context [(?a / 5)%Z] => let v := eval vm_compute in (a / 5)%Z in change (a / 5)%Z with v end; lia.
Qed.
Lemma days_from_date_exact_witness :
  days_from_date 2400 2 29 = civil_days 2400 2 29 ∧ days_from_date 2400 2 29 = 157113%Z.
Proof. split; [apply days_from_date_exact; lia|by vm_compute]. Defined.
