(* ===== verification/Manifest.v ===== *)
(** * oath-core and oath-fetch: configuration, manifests, the disk cache ([config.rs],
    [manifest.rs], [lib.rs]; [cache.rs]; [layout.rs] of oath-store)

    The documents of a project with what Oath adds to them, written and read back, and the
    files that a cache keeps. *)
From S2P Require Export Serde.
From S2P Require Import Core Paths Cli.

(** ** Fields with a default *)

(** [#[serde(default)]]: such a field may be missing, and an array may be shorter. *)
Definition default_field {A} (i : nat) (k : string) (dflt : A) (d : Json → option A) (j : Json) : option A :=
  match j with
  | JObject m => match entries_of k m with [] => Some dflt | [e] => d e.2 | _ => None end
  | JArray l => match l !! i with Some x => d x | None => Some dflt end
  | _ => None
  end.
Definition struct_upto (n : nat) (j : Json) : option unit :=
  match j with
  | JObject _ => Some tt
  | JArray l => if decide (length l ≤ n) then Some tt else None
  | _ => None
  end.
(** A map takes the last value of a key. *)
Definition of_map {A} (d : Json → option A) (j : Json) : option (gmap string A) :=
  match j with
  | JObject m => foldl (λ acc e, m ← acc; v ← d e.2; Some (<[e.1 := v]> m)) (Some ∅) m
  | _ => None
  end.

(** ** [lib.rs], [config.rs], [layout.rs] *)

Definition home_dir (env_var : string → option string) : option string :=
  match env_var "HOME" with Some h => Some h | None => env_var "USERPROFILE" end.
Inductive OathError :=
  | PackageNotFound (name : string)
  | IntegrityMismatch (package expected actual : string)
  | PermissionDenied (what needs : string)
  | TransparencyVerificationFailed (why : string)
  | SandboxViolation (package action : string)
  | PublishRejected (why : string)
  | Transparent (message : string).
Definition error_text (e : OathError) : string :=
  match e with
  | PackageNotFound n => "package not found: " +:+ n
  | IntegrityMismatch p e a => "integrity check failed for " +:+ p +:+ ": expected " +:+ e +:+ ", got " +:+ a
  | PermissionDenied w n => "permission denied: " +:+ w +:+ " requires " +:+ n
  | TransparencyVerificationFailed w => "transparency log verification failed: " +:+ w
  | SandboxViolation p a => "sandbox violation: " +:+ p +:+ " attempted " +:+ a
  | PublishRejected w => "publish rejected: " +:+ w
  | Transparent m => m
  end.

Inductive PermissionPolicy := Prompt | TrustLowRisk | Strict | Permissive.
Definition policy_name (p : PermissionPolicy) : string :=
  match p with Prompt => "Prompt" | TrustLowRisk => "TrustLowRisk" | Strict => "Strict" | Permissive => "Permissive" end.
Record OathConfig := { registry : string; transparency_log : string; store : string; policy : PermissionPolicy }.
Definition default_registry : string := "https://registry.oath.dev".
Definition default_log : string := "https://log.oath.dev".
Definition default_store (env_var : string → option string) : string :=
  from_option (λ home, pjoin home ".oath/store") "~/.oath/store" (home_dir env_var).
Definition default_config (env_var : string → option string) : OathConfig := {|
  registry := default_registry; transparency_log := default_log; store := default_store env_var; policy := Prompt |}.
Definition of_policy : Json → option PermissionPolicy := of_variant policy_name [Prompt; TrustLowRisk; Strict; Permissive].
Definition of_config (env_var : string → option string) (j : Json) : option OathConfig :=
  _ ← struct_upto 4 j;
  r ← default_field 0 "registry" default_registry of_string j;
  t ← default_field 1 "transparency_log" default_log of_string j;
  s ← default_field 2 "store" (default_store env_var) of_string j;
  p ← default_field 3 "policy" Prompt of_policy j;
  Some {| registry := r; transparency_log := t; store := s; policy := p |}.
Definition config_json (c : OathConfig) : Json := JObject
  [("registry", JString (registry c)); ("transparency_log", JString (transparency_log c));
   ("store", JString (store c)); ("policy", JString (policy_name (policy c)))].

Inductive NodeModulesLayout := StrictLayout | Hoisted.
Definition description (l : NodeModulesLayout) : string :=
  match l with
  | StrictLayout => "strict (pnpm-style, no phantom deps)"
  | Hoisted => "hoisted (npm-style, flat)"
  end.

(** ** [manifest.rs] *)

Inductive BinField := Single (path : string) | Map (paths : gmap string string).
Record Provenance := {
  identity : string; builder : string; commit : string; timestamp : string; pv_signature : option string }.
Record OathSection := {
  sec_permissions : Permissions.Permissions; sec_integrity : option string; provenance : option Provenance }.
Record PackageManifest := {
  m_name : string; m_version : string; m_description : string; main : option string; module : option string;
  types : option string; bin : option BinField; scripts : gmap string string; m_dependencies : gmap string string;
  dev_dependencies : gmap string string; m_peer_dependencies : gmap string string; oath : option OathSection }.

Definition no_permissions : Permissions.Permissions := Permissions.Build_Permissions [] [] [] [] [] false false.
Definition of_permissions (j : Json) : option Permissions.Permissions :=
  _ ← struct_upto 7 j;
  n ← default_field 0 "net" [] of_strings j; r ← default_field 1 "fs_read" [] of_strings j;
  w ← default_field 2 "fs_write" [] of_strings j; e ← default_field 3 "env" [] of_strings j;
  x ← default_field 4 "run" [] of_strings j; f ← default_field 5 "ffi" false of_bool j;
  i ← default_field 6 "install_scripts" false of_bool j;
  Some (Permissions.Build_Permissions n r w e x f i).
Definition of_provenance (j : Json) : option Provenance :=
  _ ← struct_of 5 j;
  i ← field 0 "identity" of_string j; b ← field 1 "builder" of_string j; c ← field 2 "commit" of_string j;
  t ← field 3 "timestamp" of_string j; s ← opt_field 4 "signature" (of_option of_string) j;
  Some {| identity := i; builder := b; commit := c; timestamp := t; pv_signature := s |}.
Definition of_section (j : Json) : option OathSection :=
  _ ← struct_upto 3 j;
  p ← default_field 0 "permissions" no_permissions of_permissions j;
  i ← default_field 1 "integrity" None (of_option of_string) j;
  v ← default_field 2 "provenance" None (of_option of_provenance) j;
  Some {| sec_permissions := p; sec_integrity := i; provenance := v |}.
(** Untagged: the first variant that fits. *)
Definition of_bin (j : Json) : option BinField :=
  match of_string j with Some s => Some (Single s) | None => Map <$> of_map of_string j end.
Definition of_manifest (j : Json) : option PackageManifest :=
  _ ← struct_upto 12 j;
  n ← field 0 "name" of_string j; v ← default_field 1 "version" "" of_string j;
  d ← default_field 2 "description" "" of_string j; ma ← default_field 3 "main" None (of_option of_string) j;
  mo ← default_field 4 "module" None (of_option of_string) j; ty ← default_field 5 "types" None (of_option of_string) j;
  b ← default_field 6 "bin" None (of_option of_bin) j; s ← default_field 7 "scripts" ∅ (of_map of_string) j;
  de ← default_field 8 "dependencies" ∅ (of_map of_string) j;
  dv ← default_field 9 "devDependencies" ∅ (of_map of_string) j;
  pe ← default_field 10 "peerDependencies" ∅ (of_map of_string) j;
  o ← default_field 11 "oath" None (of_option of_section) j;
  Some (Build_PackageManifest n v d ma mo ty b s de dv pe o).
Section write.
Context {HI : HashIter}.
Definition map_json (m : gmap string string) : Json := JObject ((λ e, (e.1, JString e.2)) <$> hash_iter m).
Definition bin_json (b : BinField) : Json := match b with Single s => JString s | Map m => map_json m end.
Definition permissions_json (p : Permissions.Permissions) : Json := JObject
  [("net", jstrings (Permissions.net p)); ("fs_read", jstrings (Permissions.fs_read p));
   ("fs_write", jstrings (Permissions.fs_write p)); ("env", jstrings (Permissions.env p));
   ("run", jstrings (Permissions.run p)); ("ffi", JBool (Permissions.ffi p));
   ("install_scripts", JBool (Permissions.install_scripts p))].
Definition provenance_json (p : Provenance) : Json := JObject
  [("identity", JString (identity p)); ("builder", JString (builder p)); ("commit", JString (commit p));
   ("timestamp", JString (timestamp p)); ("signature", jopt JString (pv_signature p))].
Definition section_json (s : OathSection) : Json := JObject
  [("permissions", permissions_json (sec_permissions s)); ("integrity", jopt JString (sec_integrity s));
   ("provenance", jopt provenance_json (provenance s))].
Definition manifest_json (m : PackageManifest) : Json := JObject
  [("name", JString (m_name m)); ("version", JString (m_version m)); ("description", JString (m_description m));
   ("main", jopt JString (main m)); ("module", jopt JString (module m)); ("types", jopt JString (types m));
   ("bin", jopt bin_json (bin m)); ("scripts", map_json (scripts m)); ("dependencies", map_json (m_dependencies m));
   ("devDependencies", map_json (dev_dependencies m)); ("peerDependencies", map_json (m_peer_dependencies m));
   ("oath", jopt section_json (oath m))].
End write.

(** ** [DiskCache]

    The files of the cache directory by their paths; [writable] is whether the disk takes
    them. *)
Definition safe_integrity (integrity : string) : string :=
  replace_char "="%char "_" (replace_char "+"%char "_" (replace_char "/"%char "_" integrity)).
Definition tarball_path (root integrity : string) : result Fault string :=
  let safe := safe_integrity integrity in
  let '(algo, hash) := default ("unknown", safe) (split_once "-"%char safe) in
  prefix ← slice 0 (2 `min` String.length hash) hash;
  Ok (pjoin (pjoin (pjoin (pjoin root "tarballs") algo) prefix) (hash +:+ ".tgz")).
Definition cached_packument_path (root name : string) : string :=
  pjoin (pjoin root "packuments") (replace_char "/"%char "__" name +:+ ".json").
Section cache.
Context (root : string).
Definition get_tarball (files : gmap string string) (integrity : string) : result Fault (option string) :=
  p ← tarball_path root integrity; Ok (files !! p).
Definition put_tarball (writable : bool) (files : gmap string string) (integrity data : string) :
    result Fault (result string string * gmap string string) :=
  p ← tarball_path root integrity;
  Ok (if writable then (Ok p, <[p := data]> files) else (Err "failed to write cache", files)).
Definition has_tarball (files : gmap string string) (integrity : string) : result Fault bool :=
  p ← tarball_path root integrity; Ok (bool_decide (is_Some (files !! p))).
Definition get_packument (files : gmap string string) (name : string) : option string :=
  files !! cached_packument_path root name.
Definition put_packument (writable : bool) (files : gmap string string) (name data : string) :
    result string unit * gmap string string :=
  if writable then (Ok tt, <[cached_packument_path root name := data]> files) else (Err "failed to cache packument", files).
End cache.

(** ** What is written is read back *)

Section read.
Context {HI : HashIter}.
Lemma reads_map : reads map_json (of_map of_string) (λ _, True).
Proof.
  intros m _. unfold map_json, of_map.
  assert (H : ∀ l (acc : gmap string string),
    foldl (λ (acc : option (gmap string string)) (e : string * Json), m ← acc; v ← of_string e.2; Some (<[e.1 := v]> m))
      (Some acc) ((λ e, (e.1, JString e.2)) <$> l)
    = Some (foldl (λ m e, <[e.1 := e.2]> m) acc l)).
  { induction l as [|e l IH]; intros acc; [done|]. simpl. apply IH. }
  rewrite H. f_equal. pose proof (hash_iter_perm m) as Hp.
  assert (Hnd : NoDup (hash_iter m).*1) by (rewrite Hp; apply NoDup_fst_map_to_list).
  assert (Hfold : ∀ l (acc : gmap string string), NoDup l.*1 →
    foldl (λ m e, <[e.1 := e.2]> m) acc l = list_to_map l ∪ acc).
  { induction l as [|[k v] l IH]; intros acc Hl; [simpl; by rewrite (left_id_L ∅ (∪))|]. simpl in *.
    inversion Hl as [|? ? Hk Hl']; subst. rewrite IH by done. rewrite <- insert_union_l, insert_union_r; [done|].
    by apply not_elem_of_list_to_map_1. }
  rewrite Hfold by done. rewrite (right_id_L ∅ (∪)).
  rewrite <- (list_to_map_to_list m) at 2. by apply list_to_map_proper.
Qed.
Lemma reads_opt {A} (f : A → Json) d :
  (∀ a, f a ≠ JNull) → reads f d (λ _, True) → reads (jopt f) (of_option d) (λ _, True).
Proof.
  intros Hn H [a|] _; [|done]. specialize (H a I). unfold jopt, of_option. specialize (Hn a).
  destruct (f a); [done|by rewrite H..].
Qed.
Lemma reads_bin : reads bin_json of_bin (λ _, True).
Proof. intros [s|m] _; [done|]. unfold of_bin, bin_json. change (of_string (map_json m)) with (@None string). by rewrite reads_map. Qed.
Lemma reads_permissions : reads permissions_json of_permissions (λ _, True).
Proof.
  intros [n r w e x f i] _. unfold of_permissions, permissions_json.
  cbn [struct_upto default_field entries_of List.filter fst snd String.eqb Ascii.eqb Bool.eqb Permissions.net
    Permissions.fs_read Permissions.fs_write Permissions.env Permissions.run Permissions.ffi Permissions.install_scripts mbind option_bind].
  by rewrite !(reads_strings _ I).
Qed.
Lemma reads_provenance : reads provenance_json of_provenance (λ _, True).
Proof. intros [i b c t [s|]] _; unfold of_provenance, provenance_json; cbn [identity builder commit timestamp pv_signature]; read_fields; done. Qed.
Lemma reads_section : reads section_json of_section (λ _, True).
Proof.
  intros [p i v] _. unfold of_section, section_json.
  cbn [struct_upto default_field entries_of List.filter fst snd String.eqb Ascii.eqb Bool.eqb sec_permissions sec_integrity provenance mbind option_bind].
  rewrite (reads_permissions p I). cbn [mbind option_bind].
  rewrite (reads_opt JString of_string) by done. cbn [mbind option_bind].
  by rewrite (reads_opt provenance_json of_provenance) by (done || apply reads_provenance).
Qed.
(** A configuration and a manifest are read back as they were written, whatever is in them
    and in whatever order the maps are written. *)
Theorem documents_roundtrip env_var :
  reads config_json (of_config env_var) (λ _, True) ∧ reads manifest_json of_manifest (λ _, True).
Proof.
  split; [by intros [r t s []] _|].
  intros [n v d ma mo ty b s de dv pe o] _. unfold of_manifest, manifest_json.
  cbn [struct_upto default_field field entries_of List.filter fst snd String.eqb Ascii.eqb Bool.eqb m_name m_version
    m_description main module types bin scripts m_dependencies dev_dependencies m_peer_dependencies oath mbind option_bind].
  repeat match goal with |- context [of_string (JString ?x)] => change (of_string (JString x)) with (Some x) end.
  cbn [mbind option_bind].
  rewrite !(reads_opt JString of_string) by done. cbn [mbind option_bind].
  rewrite (reads_opt bin_json of_bin) by (done || apply reads_bin || by intros []). cbn [mbind option_bind].
  rewrite !reads_map by done. cbn [mbind option_bind].
  by rewrite (reads_opt section_json of_section) by (done || apply reads_section).
Qed.
End read.

(** The cache gives back what was put, and leaves the rest. *)
Theorem cache_spec root files i j data path :
  tarball_path root i = Ok path →
  ∃ files', put_tarball root true files i data = Ok (Ok path, files') ∧
    get_tarball root files' i = Ok (Some data) ∧ has_tarball root files' i = Ok true ∧
    (∀ q, tarball_path root j = Ok q → q ≠ path → get_tarball root files' j = get_tarball root files j) ∧
    put_tarball root false files i data = Ok (Err "failed to write cache", files).
Proof.
  intros Hp. unfold put_tarball, get_tarball, has_tarball. rewrite Hp. exists (<[path := data]> files).
  cbn [mbind result_bind]. rewrite lookup_insert. rewrite decide_True by done. rewrite bool_decide_eq_true_2 by eauto.
  repeat split; try done. intros q -> Hq. cbn [mbind result_bind]. by rewrite lookup_insert_ne by done.
Qed.
(** Two integrity strings that differ in a slash and a plus share a file, and a hash that
    begins with a character of three bytes panics. *)
Example cache_collides : tarball_path "/c" "sha512-a/b" = tarball_path "/c" "sha512-a+b".
Proof. by vm_compute. Qed.
Example cache_panics : tarball_path "/c" ("x-" +:+ utf8 [226; 130; 172]%N) = Err Panic.
Proof. by vm_compute. Qed.
