(* ===== verification/Transfer.v ===== *)
(** * oath-cli: capsules ([package_transfer.rs])

    A package is handed over as a directory: the tarball, the evidence, and a signed
    manifest of both. Making one from an assessment, and verifying one. *)
From S2P Require Import Publish.
From S2P Require Export Serde Files.

(** ** Data *)

Definition TRANSFER_SCHEMA_VERSION : N := 1.
Record TransferAsset := { asset_path : string; asset_bytes : N; asset_sha256 : string }.
Record TransferTarball := { tb_path : string; tb_bytes : N; tb_sha256 : string; tb_sha512 : string }.
Record TransferManifest := {
  tm_schema_version : N; tm_format : string; tm_name : string; tm_version : string; tm_package_digest : string;
  tm_assessment_decision : string; tm_assessment_reason_code : string; tm_capabilities : list string;
  tm_signing_public_key : string; tm_tarball : TransferTarball; tm_evidence : list TransferAsset;
  tm_consumer_decision : string; tm_limitations : list string }.
Record TransferVerification := {
  tv_schema_version : N; tv_name : string; tv_version : string; tv_verified : bool; tv_integrity_verified : bool;
  tv_package_sha512 : string; tv_signature_valid : bool; tv_signature_trusted : bool; tv_signature_trust : string;
  tv_signing_public_key : string; tv_consumer_decision : string; tv_limitations : list string }.
(** What [persist_signed] left, as far as a capsule uses it ([publish_assessment.rs]). *)
Record PersistedEvidence := {
  pe_directory : string; pe_assessment_signature : string; pe_signing_public_key : string; pe_sbom_path : string;
  pe_provenance_path : string }.

Definition asset_json (a : TransferAsset) : Json := JObject
  [("path", JString (asset_path a)); ("bytes", jnat (asset_bytes a)); ("sha256", JString (asset_sha256 a))].
Definition tarball_json (t : TransferTarball) : Json := JObject
  [("path", JString (tb_path t)); ("bytes", jnat (tb_bytes t)); ("sha256", JString (tb_sha256 t));
   ("sha512", JString (tb_sha512 t))].
Definition transfer_json (m : TransferManifest) : Json := JObject
  [("schema_version", jnat (tm_schema_version m)); ("format", JString (tm_format m)); ("name", JString (tm_name m));
   ("version", JString (tm_version m)); ("package_digest", JString (tm_package_digest m));
   ("assessment_decision", JString (tm_assessment_decision m));
   ("assessment_reason_code", JString (tm_assessment_reason_code m)); ("capabilities", jstrings (tm_capabilities m));
   ("signing_public_key", JString (tm_signing_public_key m)); ("tarball", tarball_json (tm_tarball m));
   ("evidence", JArray (asset_json <$> tm_evidence m)); ("consumer_decision", JString (tm_consumer_decision m));
   ("limitations", jstrings (tm_limitations m))].
Definition of_asset (j : Json) : option TransferAsset :=
  _ ← struct_of 3 j;
  p ← field 0 "path" of_string j; b ← field 1 "bytes" (of_unsigned 64) j; s ← field 2 "sha256" of_string j;
  Some {| asset_path := p; asset_bytes := b; asset_sha256 := s |}.
Definition of_tarball (j : Json) : option TransferTarball :=
  _ ← struct_of 4 j;
  p ← field 0 "path" of_string j; b ← field 1 "bytes" (of_unsigned 64) j; s ← field 2 "sha256" of_string j;
  l ← field 3 "sha512" of_string j;
  Some {| tb_path := p; tb_bytes := b; tb_sha256 := s; tb_sha512 := l |}.
Definition of_transfer (j : Json) : option TransferManifest :=
  _ ← struct_of 13 j;
  v ← field 0 "schema_version" (of_unsigned 32) j; f ← field 1 "format" of_string j; n ← field 2 "name" of_string j;
  ve ← field 3 "version" of_string j; d ← field 4 "package_digest" of_string j;
  ad ← field 5 "assessment_decision" of_string j; ar ← field 6 "assessment_reason_code" of_string j;
  c ← field 7 "capabilities" of_strings j; k ← field 8 "signing_public_key" of_string j;
  t ← field 9 "tarball" of_tarball j; e ← field 10 "evidence" (of_list of_asset) j;
  cd ← field 11 "consumer_decision" of_string j; l ← field 12 "limitations" of_strings j;
  Some (Build_TransferManifest v f n ve d ad ar c k t e cd l).

(** ** Files *)

Definition loc (p : string) : list string := resolve [] (components p).
Definition read_file (p : string) (fs : Fs) : result string string :=
  if directory_path p then Err "Is a directory" else ok_or (fs_files fs !! loc p) "No such file or directory".
Definition is_file (p : string) (fs : Fs) : bool :=
  negb (directory_path p) && bool_decide (is_Some (fs_files fs !! loc p)).
Definition path_exists (p : string) (fs : Fs) : bool := is_file p fs || bool_decide (loc p ∈ fs_dirs fs).

(** Effects on files; what was done before an error stays. *)
Definition io (A : Type) : Type := Fs → result string A * Fs.
#[global] Instance io_ret : MRet io := λ A a fs, (Ok a, fs).
#[global] Instance io_bind : MBind io := λ A B f p fs,
  match p fs with (Ok a, fs) => f a fs | (Err e, fs) => (Err e, fs) end.
Definition reading {A} (f : Fs → result string A) : io A := λ fs, (f fs, fs).
Definition pure_io {A} (r : result string A) : io A := reading (λ _, r).
Definition create_dir_all (p : string) : io unit := λ fs,
  match create_dirs [] (components p) fs with Ok fs => (Ok tt, fs) | Err (e, fs) => (Err e, fs) end.
(** [std::fs::write], in a directory that is there. *)
Definition write_to (p bytes : string) : io unit := λ fs,
  if bool_decide (removelast (loc p) = [] ∨ removelast (loc p) ∈ fs_dirs fs) then
    match write_file p bytes fs with Ok fs => (Ok tt, fs) | Err e => (Err e, fs) end
  else (Err "No such file or directory", fs).
Definition copy (source target : string) : io unit := bytes ← reading (read_file source); write_to target bytes.
(** The directory of a path, if it has one. *)
Definition create_parent (p : string) : io unit := λ fs,
  match create_dirs [] (removelast (components p)) fs with Ok fs => (Ok tt, fs) | Err (e, fs) => (Err e, fs) end.
(** [tempfile::tempdir], which goes with its contents. *)
Definition with_tempdir {A} (name : string) (body : io A) : io A := λ fs,
  let '(r, fs) := body {| fs_files := fs_files fs; fs_dirs := {[loc name]} ∪ fs_dirs fs |} in
  (r, remove_tree (loc name) fs).

(** The path below [package/] as it stands in the archive: what [strip_prefix] leaves. *)
Definition no_part (p : string) : bool := bool_decide (p = "" ∨ p = ".").
Fixpoint drop_parts (l : list string) : list string :=
  match l with [] => [] | p :: l' => if no_part p then drop_parts l' else l end.
Definition below_package (path : string) : option string :=
  match components path, split_char "/" path with
  | Normal p :: _, _ :: parts =>
      if decide (p = "package") then Some (RustStr.join "/" (reverse (drop_parts (reverse (drop_parts parts))))) else None
  | _, _ => None
  end.

(** ** The tarball *)

(** What is left of [archive.entries()] in the loop, and the set of paths seen. *)
Definition all_normal (p : string) : bool := forallb is_normal (components p).
Definition find_file (a : PublishAssessmentV2) (p : string) : option PublishFile :=
  list_find (λ f, pf_path f = p) (reverse (pa_files a)) ≫= λ x, Some x.2.
Section transfer.
Context {SHA : Digest} {JT : JsonText} {B64 : Base64} {ED : Ed25519} {JF : JsonFile} {AR : Archives}.
(** The hexadecimal SHA-512; [npm pack] of a directory into another: whether it succeeded,
    and what it printed. *)
Variables (sha512_hex : string → string) (npm_pack : string → string → Fs → result string Json * Fs).

Definition check_entry (a : PublishAssessmentV2) (seen : gset string) (e : result string ArchiveEntry) :
    result string (gset string) :=
  e ← e;
  if decide (ae_type e = DirectoryEntry) then Ok seen
  else
    _ ← ensure (bool_decide (ae_type e = RegularFile)) "transfer tarball contains a non-regular entry";
    path ← ae_path e;
    rel ← ok_or (below_package path) "transfer tarball entry is outside package/";
    _ ← ensure (all_normal rel) "transfer tarball contains an unsafe path";
    let rel := replace_char backslash "/" (utf8_lossy rel) in
    f ← ok_or (find_file a rel) "tarball contains unassessed file";
    _ ← ensure (bool_decide (rel ∉ seen)) "duplicate tarball entry";
    bytes ← ae_bytes e;
    _ ← ensure (bool_decide (N.of_nat (String.length bytes) = pf_bytes f)) "tarball byte length changed after assessment";
    _ ← ensure (bool_decide (sha256_hex bytes = pf_sha256 f)) "tarball bytes changed after assessment";
    Ok ({[rel]} ∪ seen).
Fixpoint check_entries (a : PublishAssessmentV2) (seen : gset string) (es : list (result string ArchiveEntry)) :
    result string (gset string) :=
  match es with
  | [] => Ok seen
  | e :: es => seen ← check_entry a seen e; check_entries a seen es
  end.
Definition expected_paths (a : PublishAssessmentV2) : gset string := list_to_set (pf_path <$> pa_files a).
Definition verify_tarball_matches_assessment (tarball : string) (a : PublishAssessmentV2) : result string unit :=
  es ← read_archive tarball;
  seen ← check_entries a ∅ es;
  _ ← ensure (bool_decide (size seen = size (expected_paths a))) "tarball does not contain the assessed files";
  ensure (bool_decide (expected_paths a ⊆ seen)) "tarball omitted assessed file".

(** ** Making a capsule *)

Definition sha256_of (bytes : string) : string := "sha256:" +:+ sha256_hex bytes.
Definition sha512_of (bytes : string) : string := "sha512:" +:+ sha512_hex bytes.
Definition stage_file (root staged : string) (f : PublishFile) : io unit :=
  _ ← pure_io (ensure (all_normal (pf_path f)) "assessed package contains an unsafe path");
  let target := pjoin staged (pf_path f) in
  _ ← create_parent target;
  copy (pjoin root (pf_path f)) target.
Fixpoint stage_assessed_files (root staged : string) (files : list PublishFile) : io unit :=
  match files with
  | [] => mret tt
  | f :: files => _ ← stage_file root staged f; stage_assessed_files root staged files
  end.
Definition filename_of (report : Json) : option string :=
  match report with JArray (item :: _) => jget "filename" item ≫= as_str | _ => None end.
Definition pack_without_scripts (root destination : string) : io string :=
  report ← npm_pack root destination;
  filename ← pure_io (ok_or (filename_of report) "npm pack output did not contain filename");
  let tarball := pjoin destination filename in
  there ← (λ fs, (Ok (is_file tarball fs), fs)) : io bool;
  _ ← pure_io (ensure there "npm pack did not create the tarball");
  mret tarball.
(** [Path::file_name] *)
Definition file_name (p : string) : option string :=
  match last (components p) with Some (Normal n) => Some n | _ => None end.
Definition asset_of (path bytes : string) : TransferAsset :=
  {| asset_path := path; asset_bytes := N.of_nat (String.length bytes); asset_sha256 := sha256_of bytes |}.
Definition copy_asset (source capsule relative : string) : io TransferAsset :=
  let target := pjoin capsule relative in
  _ ← create_parent target;
  _ ← copy source target;
  bytes ← reading (read_file target);
  mret (asset_of relative bytes).
Fixpoint copy_assets (from capsule : string) (names : list string) : io (list TransferAsset) :=
  match names with
  | [] => mret []
  | n :: names =>
      a ← copy_asset (pjoin from n) capsule ("evidence/" +:+ n);
      l ← copy_assets from capsule names; mret (a :: l)
  end.
Definition EVIDENCE : list string :=
  ["assessment.json"; "signature.json"; "sbom.spdx.json"; "provenance.intoto.json"].
Definition transfer_limitations : list string :=
  ["Hash and signature verification proves integrity; signer identity is established only when the public key is anchored through a separate trusted channel.";
   "Lifecycle scripts are disabled while packing; build artifacts must already exist.";
   "Run an Oath execution assessment and enforce an OS sandbox before executing transferred code."].
Definition capsule_manifest (a : PublishAssessmentV2) (persisted : PersistedEvidence) (tarball bytes : string)
    (evidence : list TransferAsset) : TransferManifest := {|
  tm_schema_version := TRANSFER_SCHEMA_VERSION; tm_format := "oath-package-transfer"; tm_name := pa_name a;
  tm_version := pa_version a; tm_package_digest := pa_package_digest a;
  tm_assessment_decision := decision_str (pa_decision a); tm_assessment_reason_code := reason_str (pa_reason_code a);
  tm_capabilities := pa_capabilities a; tm_signing_public_key := pe_signing_public_key persisted;
  tm_tarball := {| tb_path := tarball; tb_bytes := N.of_nat (String.length bytes); tb_sha256 := sha256_of bytes;
                   tb_sha512 := sha512_of bytes |};
  tm_evidence := evidence; tm_consumer_decision := "review-required"; tm_limitations := transfer_limitations |}.
(** The names of the two temporary directories; the signing key if there is one. *)
Definition create_capsule (staging assessed root output : string) (a : PublishAssessmentV2)
    (persisted : PersistedEvidence) (key : result string SigningKey) : io TransferManifest :=
  let output := pjoin root output in
  _ ← pure_io (ensure (bool_decide (components output ≠ components root)) "transfer output cannot be the package root");
  _ ← reading (λ fs, ensure (negb (path_exists output fs)) "transfer output already exists; refusing to overwrite");
  with_tempdir staging (with_tempdir assessed (
    _ ← stage_assessed_files root assessed (pa_files a);
    packed ← pack_without_scripts assessed staging;
    tarball ← reading (read_file packed);
    _ ← pure_io (verify_tarball_matches_assessment tarball a);
    _ ← create_dir_all output;
    name ← pure_io (ok_or (file_name packed) "npm produced a non-UTF-8 tarball name");
    let relative := "package/" +:+ name in
    let target := pjoin output relative in
    _ ← create_parent target;
    _ ← copy packed target;
    evidence ← copy_assets (pe_directory persisted) output EVIDENCE;
    bytes ← reading (read_file target);
    let manifest := capsule_manifest a persisted relative bytes evidence in
    key ← pure_io key;
    _ ← write_to (pjoin output "transfer.json") (to_vec_pretty (transfer_json manifest));
    _ ← write_to (pjoin output "transfer.signature.json")
          (to_vec_pretty (signature_json (sign_json (transfer_json manifest) key)));
    mret manifest)).

(** ** Verifying a capsule *)

Definition decode {A} (d : Json → option A) (bytes : string) : result string A :=
  ok_or (from_slice bytes ≫= d) "invalid JSON".
(** [value[key].as_str().unwrap_or_default()]; of entries with one key the map has the last. *)
Definition text_at (k : string) (j : Json) : string :=
  match j with JObject m => default "" (alist_get k (reverse m) ≫= as_str) | _ => "" end.
Definition verify_signature {A} (f : A → Json) (value : A) (s : DetachedSignature) : result string unit :=
  match verify_json (f value) s with Ok _ => Ok tt | Err _ => Err "Ed25519 signature verification failed" end.
Definition check_tarball (bytes : string) (t : TransferTarball) : result string unit :=
  _ ← ensure (bool_decide (N.of_nat (String.length bytes) = tb_bytes t)) "tarball length does not match transfer manifest";
  _ ← ensure (bool_decide (sha256_of bytes = tb_sha256 t)) "tarball SHA-256 does not match transfer manifest";
  ensure (bool_decide (sha512_of bytes = tb_sha512 t)) "tarball SHA-512 does not match transfer manifest".
Definition check_asset (capsule : string) (fs : Fs) (a : TransferAsset) : result string unit :=
  bytes ← read_file (pjoin capsule (asset_path a)) fs;
  _ ← ensure (bool_decide (N.of_nat (String.length bytes) = asset_bytes a)) "length does not match transfer manifest";
  ensure (bool_decide (sha256_of bytes = asset_sha256 a)) "SHA-256 does not match transfer manifest".
Definition check_assets (capsule : string) (fs : Fs) (l : list TransferAsset) : result string unit :=
  foldl (λ acc a, _ ← acc; check_asset capsule fs a) (Ok tt) l.
Definition read_detached (j : Json) : DetachedSignature := {|
  algorithm := text_at "algorithm" j; canonicalization := text_at "canonicalization" j;
  public_key := text_at "public_key" j; signature := text_at "signature" j |}.
Definition verification (trusted : option string) (m : TransferManifest) : TransferVerification :=
  let ok := bool_decide (trusted = Some (tm_signing_public_key m)) in {|
  tv_schema_version := TRANSFER_SCHEMA_VERSION; tv_name := tm_name m; tv_version := tm_version m; tv_verified := ok;
  tv_integrity_verified := true; tv_package_sha512 := tb_sha512 (tm_tarball m); tv_signature_valid := true;
  tv_signature_trusted := ok; tv_signature_trust := if ok then "anchored" else "unanchored";
  tv_signing_public_key := tm_signing_public_key m;
  tv_consumer_decision := if ok then "review-required" else "abstain"; tv_limitations := tm_limitations m |}.
Definition verify_capsule (capsule : string) (trusted_public_key : option string) (fs : Fs) :
    result string TransferVerification :=
  text ← read_file (pjoin capsule "transfer.json") fs;
  manifest ← decode of_transfer text;
  _ ← ensure (bool_decide (tm_schema_version manifest = TRANSFER_SCHEMA_VERSION ∧
                           tm_format manifest = "oath-package-transfer")) "unsupported Oath transfer format";
  text ← read_file (pjoin capsule "transfer.signature.json") fs;
  transfer_signature ← decode of_signature text;
  _ ← verify_signature transfer_json manifest transfer_signature;
  _ ← ensure (bool_decide (public_key transfer_signature = tm_signing_public_key manifest))
        "transfer signature key does not match the signed manifest";
  tarball ← read_file (pjoin capsule (tb_path (tm_tarball manifest))) fs;
  _ ← check_tarball tarball (tm_tarball manifest);
  _ ← check_assets capsule fs (tm_evidence manifest);
  text ← read_file (pjoin capsule "evidence/assessment.json") fs;
  assessment ← decode of_publish text;
  _ ← verify_tarball_matches_assessment tarball assessment;
  text ← read_file (pjoin capsule "evidence/signature.json") fs;
  j ← decode Some text;
  let detached := read_detached j in
  _ ← verify_signature publish_json assessment detached;
  _ ← ensure (bool_decide (public_key detached = tm_signing_public_key manifest))
        "assessment and transfer manifest were signed by different keys";
  _ ← ensure (bool_decide (pa_name assessment = tm_name manifest ∧ pa_version assessment = tm_version manifest ∧
                           pa_package_digest assessment = tm_package_digest manifest))
        "signed assessment identity does not match transfer manifest";
  _ ← ensure (bool_decide (trusted_public_key = None ∨ trusted_public_key = Some (tm_signing_public_key manifest)))
        "transfer signing key does not match --trusted-public-key";
  Ok (verification trusted_public_key manifest).
End transfer.

(** ** What a tarball that matches carries *)

Section verified.
Context {SHA : Digest} {JT : JsonText} {B64 : Base64} {ED : Ed25519} {JF : JsonFile} {AR : Archives}.
Variables (sha512_hex : string → string).

(** The files of an archive, by the path and the bytes of their entries. *)
Definition entry_file (e : ArchiveEntry) : option (string * string) :=
  if decide (ae_type e = DirectoryEntry) then None
  else match ae_path e, ae_bytes e with
       | Ok path, Ok bytes =>
           (λ rel, (replace_char backslash "/" (utf8_lossy rel), bytes)) <$> below_package path
       | _, _ => None
       end.
(** Every entry is readable and a directory or one of the files, which are of different
    paths, below [package/], and exactly those that were assessed, with their bytes. *)
Record carries (tarball : string) (a : PublishAssessmentV2) (files : Snapshot) : Prop := {
  carries_entries : ∃ es, read_archive tarball = Ok (Ok <$> es) ∧ files = omap entry_file es ∧
    ∀ e, e ∈ es → ae_type e = DirectoryEntry ∨
      (ae_type e = RegularFile ∧ is_Some (entry_file e) ∧
       ∃ path rel, ae_path e = Ok path ∧ below_package path = Some rel ∧ all_normal rel = true);
  carries_once : NoDup files.*1;
  carries_all p : p ∈ files.*1 ↔ p ∈ pf_path <$> pa_files a;
  carries_bytes p b : (p, b) ∈ files → ∃ f, f ∈ pa_files a ∧ pf_path f = p ∧
    N.of_nat (String.length b) = pf_bytes f ∧ sha256_hex b = pf_sha256 f }.

Lemma find_file_Some a p f : find_file a p = Some f → f ∈ pa_files a ∧ pf_path f = p.
Proof.
  unfold find_file. destruct (list_find _ _) as [[i g]|] eqn:E; [|done]. intros [= <-].
  apply list_find_Some in E as (Hi & Hp & _). split; [|done]. apply elem_of_reverse. by eapply list_elem_of_lookup_2.
Qed.
Lemma check_entry_Ok a seen e seen' :
  check_entry a seen e = Ok seen' →
  ∃ x, e = Ok x ∧
    ((ae_type x = DirectoryEntry ∧ entry_file x = None ∧ seen' = seen) ∨
     ∃ p b path rel f, ae_type x = RegularFile ∧ entry_file x = Some (p, b) ∧ ae_path x = Ok path ∧
       below_package path = Some rel ∧ all_normal rel = true ∧ seen' = {[p]} ∪ seen ∧ p ∉ seen ∧
       f ∈ pa_files a ∧ pf_path f = p ∧ N.of_nat (String.length b) = pf_bytes f ∧ sha256_hex b = pf_sha256 f).
Proof.
  unfold check_entry, entry_file. intros (x & -> & H)%bind_Ok. exists x. split; [done|].
  case_decide as Hd; [injection H as <-; by left|]. right.
  apply bind_Ok in H as ([] & Ht%ensure_Ok%bool_decide_eq_true & H).
  apply bind_Ok in H as (path & Hp & H). rewrite Hp. apply bind_Ok in H as (rel & Hr%ok_or_Ok & H).
  apply bind_Ok in H as ([] & Hn%ensure_Ok & H). apply bind_Ok in H as (f & Hf%ok_or_Ok & H).
  apply bind_Ok in H as ([] & Hs%ensure_Ok%bool_decide_eq_true & H). apply bind_Ok in H as (b & Hb & H). rewrite Hb, Hr.
  apply bind_Ok in H as ([] & Hl%ensure_Ok%bool_decide_eq_true & H).
  apply bind_Ok in H as ([] & Hh%ensure_Ok%bool_decide_eq_true & [= <-]).
  apply find_file_Some in Hf as [Hf Hfp]. exists (replace_char backslash "/" (utf8_lossy rel)), b, path, rel, f.
  split_and!; done.
Qed.
Lemma check_entries_Ok a seen es seen' :
  check_entries a seen es = Ok seen' →
  ∃ xs, es = Ok <$> xs ∧ NoDup (omap entry_file xs).*1 ∧
    (∀ p, p ∈ (omap entry_file xs).*1 → p ∉ seen) ∧ seen' = list_to_set (omap entry_file xs).*1 ∪ seen ∧
    (∀ p b, (p, b) ∈ omap entry_file xs → ∃ f, f ∈ pa_files a ∧ pf_path f = p ∧
       N.of_nat (String.length b) = pf_bytes f ∧ sha256_hex b = pf_sha256 f) ∧
    ∀ x, x ∈ xs → ae_type x = DirectoryEntry ∨
      (ae_type x = RegularFile ∧ is_Some (entry_file x) ∧
       ∃ path rel, ae_path x = Ok path ∧ below_package path = Some rel ∧ all_normal rel = true).
Proof.
  revert seen. induction es as [|e es IH]; intros seen H; simpl in H.
  { injection H as <-. exists []. simpl. split_and!; try done; [constructor|set_solver..]. }
  apply bind_Ok in H as (seen1 & (x & -> & Hx)%check_entry_Ok & (xs & -> & Hn & Hs & -> & Hb & Ht)%IH).
  exists (x :: xs). split; [done|].
  destruct Hx as [(Hd & He & ->)|(p & b & path & rel & f & Hr & He & Hp & Hrel & Hno & -> & Hps & Hf & Hfp & Hl & Hh)];
    csimpl; rewrite He; csimpl.
  - split_and!; [done..|]. intros y [->|Hy]%elem_of_cons; [by left|by apply Ht].
  - split_and!.
    + constructor; [|done]. intros Hin. apply Hs in Hin. set_solver.
    + intros q [->|Hq]%elem_of_cons; [done|]. apply Hs in Hq. set_solver.
    + set_solver.
    + intros q c [[= -> ->]|Hq]%elem_of_cons; [by exists f|by apply Hb].
    + intros y [->|Hy]%elem_of_cons; [right|by apply Ht]. rewrite He. split_and!; [done..|by eexists _, _].
Qed.
Lemma verify_tarball_carries tarball a :
  verify_tarball_matches_assessment tarball a = Ok tt → ∃ files, carries tarball a files.
Proof.
  unfold verify_tarball_matches_assessment, expected_paths. intros (es & Hes & H)%bind_Ok.
  apply bind_Ok in H as (seen & (xs & -> & Hn & _ & -> & Hb & Ht)%check_entries_Ok & H).
  apply bind_Ok in H as ([] & Hsz%ensure_Ok%bool_decide_eq_true & Hsub%ensure_Ok%bool_decide_eq_true).
  exists (omap entry_file xs). split; [by exists xs|done| |done].
  intros p. split.
  - intros Hp. apply list_elem_of_fmap in Hp as ([q b] & -> & Hp). apply Hb in Hp as (f & Hf & Hq & _).
    apply list_elem_of_fmap. by exists f.
  - intros Hp. assert (Hin : p ∈ list_to_set (C := gset string) (omap entry_file xs).*1 ∪ ∅); [|set_solver].
    apply Hsub. by apply elem_of_list_to_set.
Qed.
End verified.

(** ** What a verified capsule is *)

Section capsule.
Context {SHA : Digest} {JT : JsonText} {B64 : Base64} {ED : Ed25519} {JF : JsonFile} {AR : Archives}.

Lemma check_assets_Ok capsule fs l :
  check_assets capsule fs l = Ok tt ↔ Forall (λ a, check_asset capsule fs a = Ok tt) l.
Proof.
  unfold check_assets. assert (Herr : ∀ l e, foldl (λ acc a, _ ← acc; check_asset capsule fs a) (Err e) l = Err e).
  { intros l' e. induction l' as [|a l' IH]; [done|]. apply IH. }
  induction l as [|a l IH]; simpl; [by rewrite Forall_nil|]. rewrite Forall_cons.
  destruct (check_asset capsule fs a) as [[]|e].
  - rewrite IH. naive_solver.
  - rewrite Herr. naive_solver.
Qed.
Lemma check_asset_Ok capsule fs a :
  check_asset capsule fs a = Ok tt ↔ ∃ bytes, read_file (pjoin capsule (asset_path a)) fs = Ok bytes ∧
    N.of_nat (String.length bytes) = asset_bytes a ∧ sha256_of bytes = asset_sha256 a.
Proof.
  unfold check_asset. split.
  - intros (b & -> & ([] & H1%ensure_Ok%bool_decide_eq_true & H2%ensure_Ok%bool_decide_eq_true)%bind_Ok)%bind_Ok. eauto.
  - intros (b & -> & H1 & H2). simpl. rewrite !bool_decide_eq_true_2 by done. done.
Qed.
Lemma verify_signature_Ok {A} (f : A → Json) a s : verify_signature f a s = Ok tt ↔ verify_json (f a) s = Ok tt.
Proof. unfold verify_signature. destruct (verify_json _ _) as [[]|]; done. Qed.
(** The same bytes, or two different ones with one digest. *)
Lemma same_sha256 x y : sha256_of x = sha256_of y → x = y ∨ collision [x; y].
Proof. unfold sha256_of. by intros H%str_app_inj_l%sha256_inj. Qed.

Variables (sha512_hex : string → string).
(** Everything a capsule vouches for, under the manifest [m] and the assessment [a]. *)
Record vouched (capsule : string) (fs : Fs) (m : TransferManifest) (a : PublishAssessmentV2) (tarball : string) : Prop := {
  vouched_manifest : ∃ text, read_file (pjoin capsule "transfer.json") fs = Ok text ∧ decode of_transfer text = Ok m;
  vouched_format : tm_schema_version m = TRANSFER_SCHEMA_VERSION ∧ tm_format m = "oath-package-transfer";
  vouched_signed : ∃ s, verify_json (transfer_json m) s = Ok tt ∧ public_key s = tm_signing_public_key m;
  vouched_tarball : read_file (pjoin capsule (tb_path (tm_tarball m))) fs = Ok tarball ∧
    N.of_nat (String.length tarball) = tb_bytes (tm_tarball m) ∧ sha256_of tarball = tb_sha256 (tm_tarball m) ∧
    sha512_of sha512_hex tarball = tb_sha512 (tm_tarball m);
  vouched_evidence : Forall (λ e, ∃ bytes, read_file (pjoin capsule (asset_path e)) fs = Ok bytes ∧
    N.of_nat (String.length bytes) = asset_bytes e ∧ sha256_of bytes = asset_sha256 e) (tm_evidence m);
  vouched_assessment : ∃ text, read_file (pjoin capsule "evidence/assessment.json") fs = Ok text ∧
    decode of_publish text = Ok a;
  vouched_assessed : ∃ s, verify_json (publish_json a) s = Ok tt ∧ public_key s = tm_signing_public_key m;
  vouched_identity : pa_name a = tm_name m ∧ pa_version a = tm_version m ∧ pa_package_digest a = tm_package_digest m;
  vouched_files : ∃ files, carries tarball a files }.
Lemma verify_capsule_vouched capsule trusted fs v :
  verify_capsule sha512_hex capsule trusted fs = Ok v →
  ∃ m a tarball, vouched capsule fs m a tarball ∧
    (trusted = None ∨ trusted = Some (tm_signing_public_key m)) ∧ v = verification trusted m.
Proof.
  unfold verify_capsule. intros H.
  apply bind_Ok in H as (text & Ht & H). apply bind_Ok in H as (m & Hm & H).
  apply bind_Ok in H as ([] & Hf%ensure_Ok%bool_decide_eq_true & H).
  apply bind_Ok in H as (stext & _ & H). apply bind_Ok in H as (s & _ & H).
  apply bind_Ok in H as ([] & Hs%verify_signature_Ok & H).
  apply bind_Ok in H as ([] & Hk%ensure_Ok%bool_decide_eq_true & H).
  apply bind_Ok in H as (tarball & Htar & H). apply bind_Ok in H as ([] & Hct & H).
  apply bind_Ok in H as ([] & Hev%check_assets_Ok & H).
  apply bind_Ok in H as (atext & Hat & H). apply bind_Ok in H as (a & Ha & H).
  apply bind_Ok in H as ([] & Hmatch & H). apply bind_Ok in H as (jtext & _ & H).
  apply bind_Ok in H as (j & _ & H). apply bind_Ok in H as ([] & Has%verify_signature_Ok & H).
  apply bind_Ok in H as ([] & Hak%ensure_Ok%bool_decide_eq_true & H).
  apply bind_Ok in H as ([] & Hid%ensure_Ok%bool_decide_eq_true & H).
  apply bind_Ok in H as ([] & Htr%ensure_Ok%bool_decide_eq_true & [= <-]).
  exists m, a, tarball. split; [|done].
  split; [by exists text|done|by exists s| | |by exists atext|by eexists|done|].
  - split; [done|]. unfold check_tarball in Hct. apply bind_Ok in Hct as ([] & H1%ensure_Ok%bool_decide_eq_true & Hct).
    apply bind_Ok in Hct as ([] & H2%ensure_Ok%bool_decide_eq_true & H3%ensure_Ok%bool_decide_eq_true). done.
  - eapply Forall_impl; [exact Hev|]. intros e. apply check_asset_Ok.
  - by apply verify_tarball_carries.
Qed.

(** (C18) A capsule that verifies: the manifest and the assessment in it are signed by the
    key the manifest names, which is the trusted one if one is given; they are of the same
    name, version and package digest; the tarball and all evidence have the lengths and
    digests of the manifest; the tarball carries exactly the files of the assessment,
    below [package/] by plain names, with their bytes. It is called verified, and for review,
    only under a trusted key. Two capsules with one manifest hold the same bytes, or
    two different files with one SHA-256 digest. *)
Theorem verified_capsule_spec capsule trusted fs v :
  verify_capsule sha512_hex capsule trusted fs = Ok v →
  ∃ m a tarball, vouched capsule fs m a tarball ∧ v = verification trusted m ∧
    (∀ key, trusted = Some key → tm_signing_public_key m = key) ∧
    (tv_verified v = true ↔ is_Some trusted) ∧
    (tv_consumer_decision v = "review-required" ↔ is_Some trusted) ∧
    ∀ fs' trusted' v', verify_capsule sha512_hex capsule trusted' fs' = Ok v' →
      read_file (pjoin capsule "transfer.json") fs' = read_file (pjoin capsule "transfer.json") fs →
      ∀ path, path = tb_path (tm_tarball m) ∨ path ∈ asset_path <$> tm_evidence m →
        read_file (pjoin capsule path) fs' = read_file (pjoin capsule path) fs
        ∨ ∃ x y, read_file (pjoin capsule path) fs' = Ok x ∧ read_file (pjoin capsule path) fs = Ok y
                 ∧ collision [x; y].
Proof.
  intros (m & a & tarball & Hv & Htr & ->)%verify_capsule_vouched. exists m, a, tarball.
  assert (Hok : bool_decide (trusted = Some (tm_signing_public_key m)) = true ↔ is_Some trusted).
  { rewrite bool_decide_eq_true. destruct Htr as [->| ->]; [|naive_solver]. split; [done|by intros []]. }
  split_and!; [done|done|intros key ->; naive_solver|exact Hok| |].
  { simpl. destruct (bool_decide _); rewrite <- Hok; naive_solver. }
  intros fs' trusted' v' (m' & a' & tarball' & Hv' & _ & _)%verify_capsule_vouched Htext path Hpath.
  destruct (vouched_manifest _ _ _ _ _ Hv) as (text & Ht & Hm), (vouched_manifest _ _ _ _ _ Hv') as (text' & Ht' & Hm').
  rewrite Ht, Ht' in Htext. injection Htext as ->. rewrite Hm in Hm'. injection Hm' as <-.
  destruct Hpath as [->|Hin].
  - destruct (vouched_tarball _ _ _ _ _ Hv) as (-> & _ & H1 & _), (vouched_tarball _ _ _ _ _ Hv') as (-> & _ & H2 & _).
    destruct (same_sha256 tarball' tarball) as [->|]; [congruence|by left|right; eauto].
  - apply list_elem_of_fmap in Hin as (e & -> & He).
    pose proof (vouched_evidence _ _ _ _ _ Hv) as Hev. pose proof (vouched_evidence _ _ _ _ _ Hv') as Hev'.
    rewrite Forall_forall in Hev, Hev'. destruct (Hev e He) as (b & -> & _ & H1), (Hev' e He) as (b' & -> & _ & H2).
    destruct (same_sha256 b' b) as [->|]; [congruence|by left|right; eauto].
Qed.
End capsule.
