(* ===== verification/Capsule.v ===== *)
(** * A capsule that was made verifies ([package_transfer.rs])

    What making a capsule leaves on the disk, and that verifying it there succeeds. *)
From S2P Require Import Publish.
From S2P Require Import Transfer.

(** ** What effects leave alone *)

Definition touches {A} (P : list string → Prop) (p : io A) : Prop :=
  ∀ fs q, ¬ P q → fs_files (p fs).2 !! q = fs_files fs !! q.
Lemma io_bind_Ok {A B} (p : io A) (f : A → io B) fs b fs' :
  (p ≫= f) fs = (Ok b, fs') → ∃ a fs1, p fs = (Ok a, fs1) ∧ f a fs1 = (Ok b, fs').
Proof. unfold mbind, io_bind. destruct (p fs) as [[a|e] fs1]; [|done]. eauto. Qed.
Lemma reading_Ok {A} (f : Fs → result string A) fs a fs' : reading f fs = (Ok a, fs') → f fs = Ok a ∧ fs' = fs.
Proof. unfold reading. intros [= ? ?]. by subst. Qed.
Lemma touches_bind {A B} P (p : io A) (f : A → io B) : touches P p → (∀ a, touches P (f a)) → touches P (p ≫= f).
Proof.
  intros Hp Hf fs q Hq. specialize (Hp fs q Hq). unfold mbind, io_bind.
  destruct (p fs) as [[a|e] fs1]; [|exact Hp]. simpl in Hp. rewrite <- Hp. by apply Hf.
Qed.
Lemma touches_ret {A} P (a : A) : touches P (mret a).
Proof. done. Qed.
Lemma touches_reading {A} P (f : Fs → result string A) : touches P (reading f).
Proof. done. Qed.
Lemma touches_pure {A} P (r : result string A) : touches P (pure_io r).
Proof. done. Qed.
Lemma create_dirs_keep cwd cs fs :
  match create_dirs cwd cs fs with Ok fs' => fs_files fs' | Err (_, fs') => fs_files fs' end = fs_files fs.
Proof.
  revert cwd fs. induction cs as [|c cs IH]; intros cwd fs; [done|]. simpl.
  destruct (fs_files fs !! _); [done|]. by rewrite IH.
Qed.
Lemma create_dir_all_keeps p fs : fs_files (create_dir_all p fs).2 = fs_files fs.
Proof.
  unfold create_dir_all. pose proof (create_dirs_keep [] (components p) fs). by destruct (create_dirs _ _ _) as [|[]].
Qed.
Lemma create_parent_keeps p fs : fs_files (create_parent p fs).2 = fs_files fs.
Proof.
  unfold create_parent. pose proof (create_dirs_keep [] (removelast (components p)) fs).
  by destruct (create_dirs _ _ _) as [|[]].
Qed.
Lemma touches_create_dir_all P p : touches P (create_dir_all p).
Proof. intros fs q _. by rewrite create_dir_all_keeps. Qed.
Lemma touches_create_parent P p : touches P (create_parent p).
Proof. intros fs q _. by rewrite create_parent_keeps. Qed.
Lemma write_to_Ok p b fs fs' :
  write_to p b fs = (Ok tt, fs') → directory_path p = false ∧ fs_files fs' = <[loc p := b]> (fs_files fs).
Proof.
  unfold write_to, write_file. case_bool_decide; [|done]. destruct (directory_path p); simpl; [done|].
  case_bool_decide; [done|]. by intros [= <-].
Qed.
Lemma touches_write_to (P : list string → Prop) p b : P (loc p) → touches P (write_to p b).
Proof.
  intros HP fs q Hq. unfold write_to, write_file. case_bool_decide; [|done].
  destruct (directory_path p || _); simpl; [done|]. apply lookup_insert_ne. by intros <-.
Qed.
Lemma touches_copy (P : list string → Prop) s t : P (loc t) → touches P (copy s t).
Proof. intros HP. apply touches_bind; [done|]. intros b. by apply touches_write_to. Qed.
Lemma copy_Ok s t fs fs' :
  copy s t fs = (Ok tt, fs') →
  ∃ b, read_file s fs = Ok b ∧ directory_path t = false ∧ fs_files fs' = <[loc t := b]> (fs_files fs).
Proof. intros (b & fs1 & [Hb ->]%reading_Ok & H%write_to_Ok)%io_bind_Ok. by exists b. Qed.
Lemma read_file_Ok p fs b : read_file p fs = Ok b ↔ directory_path p = false ∧ fs_files fs !! loc p = Some b.
Proof.
  unfold read_file. destruct (directory_path p); [naive_solver|]. unfold ok_or.
  destruct (fs_files fs !! loc p); naive_solver.
Qed.
Lemma with_tempdir_Ok {A} name (body : io A) fs a fs' :
  with_tempdir name body fs = (Ok a, fs') →
  ∃ fs1 fs2, fs_files fs1 = fs_files fs ∧ body fs1 = (Ok a, fs2) ∧
    ∀ q, ¬ loc name `prefix_of` q → fs_files fs' !! q = fs_files fs2 !! q.
Proof.
  unfold with_tempdir. destruct (body _) as [r fs2] eqn:E. intros [= -> <-].
  eexists _, fs2. split; [|split; [exact E|]]; [done|]. intros q Hq. simpl. rewrite map_lookup_filter.
  destruct (fs_files fs2 !! q); [|done]. simpl. by rewrite option_guard_True.
Qed.

(** ** Where a capsule's files are *)

Lemma normal_components p : all_normal p = true → components p = Normal <$> names (components p).
Proof.
  unfold all_normal. generalize (components p). intros cs. induction cs as [|c cs IH]; [done|]. simpl.
  intros [Hc Hcs]%andb_true_iff. destruct c; try done. simpl. f_equal. by apply IH.
Qed.
Lemma normal_relative p : all_normal p = true → relative p.
Proof.
  intros H. split.
  - destruct (starts_with "/" p) eqn:E; [|done]. exfalso. unfold all_normal, components in H. rewrite E in H.
    by destruct (split_char_cons "/" p) as (f & ps & Hs); rewrite Hs in H.
  - unfold all_normal in H. destruct (components p) as [|c cs]; [done|]. simpl in *.
    apply andb_true_iff in H as [H _]. by destruct c.
Qed.
Lemma loc_below dir p : all_normal p = true → loc (pjoin dir p) = loc dir ++ names (components p).
Proof.
  intros H. unfold loc. rewrite resolve_pjoin by by apply normal_relative.
  by rewrite (normal_components p H) at 1; rewrite resolve_normal.
Qed.

(** ** What is made *)

Section made.
Context {SHA : Digest} {JT : JsonText} {B64 : Base64} {ED : Ed25519} {JF : JsonFile} {AR : Archives}.
Variables (sha512_hex : string → string) (npm_pack : string → string → Fs → result string Json * Fs).
(** [npm pack] writes below the directory it is given only. *)
Hypothesis npm_pack_below : ∀ root dest, touches (λ q, loc dest `prefix_of` q) (npm_pack root dest).

Lemma touches_mono {A} (P Q : list string → Prop) (p : io A) : (∀ q, P q → Q q) → touches P p → touches Q p.
Proof. intros HPQ Hp fs q Hq. apply Hp. auto. Qed.
Lemma touches_stage root staged files :
  touches (λ q, loc staged `prefix_of` q) (stage_assessed_files root staged files).
Proof.
  induction files as [|f files IH]; [done|]. simpl. apply touches_bind; [|done]. unfold stage_file.
  intros fs q Hq. unfold mbind at 1, io_bind at 1. unfold pure_io, reading, ensure.
  destruct (all_normal (pf_path f)) eqn:Hn; [|done]. cbv zeta.
  apply (touches_bind (λ q, loc staged `prefix_of` q)); [apply touches_create_parent| |done].
  intros _. apply touches_copy. rewrite loc_below by done. by apply prefix_app_r.
Qed.
Lemma pack_Ok root dest fs p fs' :
  pack_without_scripts npm_pack root dest fs = (Ok p, fs') → 
  ∀ q, ¬ loc dest `prefix_of` q → fs_files fs' !! q = fs_files fs !! q.
Proof.
  intros H q Hq. assert (Ht : touches (λ q, loc dest `prefix_of` q) (pack_without_scripts npm_pack root dest)).
  { unfold pack_without_scripts. apply touches_bind; [apply npm_pack_below|]. intros report.
    apply touches_bind; [done|]. intros n. apply touches_bind; [done|]. intros there.
    by apply touches_bind. }
  specialize (Ht fs q Hq). by rewrite H in Ht.
Qed.

Lemma Forall2_impl_in {A B} (P Q : A → B → Prop) l k :
  Forall2 P l k → (∀ x y, x ∈ l → P x y → Q x y) → Forall2 Q l k.
Proof.
  induction 1 as [|x y l k Hxy _ IH]; intros H; [done|]. constructor; [apply H; [by left|done]|].
  apply IH. intros a b Ha. apply H. by right.
Qed.
(** The evidence of a capsule in a directory, and what it was copied from. *)
Definition evidence_path (capsule n : string) : list string := loc capsule ++ ["evidence"; n].
Lemma evidence_loc capsule n : safe_name n → loc (pjoin capsule ("evidence/" +:+ n)) = evidence_path capsule n.
Proof.
  intros Hn. change ("evidence/" +:+ n) with ("evidence" +:+ String "/" n).
  assert (Hc : components ("evidence" +:+ String "/" n) = [Normal "evidence"; Normal n]).
  { rewrite components_app_slash; [by rewrite (components_name n Hn)|done| |by rewrite (components_name n Hn)].
    destruct (starts_with "/" n) eqn:E; [|done]. apply starts_with_true in E as [r ->]. by destruct Hn as (_ & _ & _ & Hn). }
  rewrite loc_below; unfold all_normal; by rewrite Hc.
Qed.
Lemma copy_assets_Ok from capsule names fs l fs' :
  NoDup names → Forall safe_name names →
  copy_assets from capsule names fs = (Ok l, fs') →
  (∀ n, n ∈ names → loc (pjoin from n) ∉ evidence_path capsule <$> names) →
  (∀ q, q ∉ evidence_path capsule <$> names → fs_files fs' !! q = fs_files fs !! q) ∧
  Forall2 (λ n a, ∃ b, read_file (pjoin from n) fs = Ok b ∧ a = asset_of ("evidence/" +:+ n) b ∧
    read_file (pjoin capsule ("evidence/" +:+ n)) fs' = Ok b) names l.
Proof.
  revert fs l. induction names as [|n names IH]; intros fs l Hnd Hsafe H Hfrom; simpl in H.
  { injection H as <- <-. split; [done|constructor]. }
  apply NoDup_cons in Hnd as [Hn Hnd]. apply Forall_cons in Hsafe as [Hsn Hsafe].
  apply io_bind_Ok in H as (a & fs3 & Ha & H). apply io_bind_Ok in H as (l' & fs4 & Hl & [= <- <-]).
  unfold copy_asset in Ha. apply io_bind_Ok in Ha as ([] & fs1 & Hp & Ha).
  apply io_bind_Ok in Ha as ([] & fs2 & (b & Hb & Hd & Hf)%copy_Ok & Ha).
  apply io_bind_Ok in Ha as (b' & fs2' & [Hb' ->]%reading_Ok & [= <- <-]).
  assert (Hfs1 : fs_files fs1 = fs_files fs).
  { pose proof (create_parent_keeps (pjoin capsule ("evidence/" +:+ n)) fs) as Hk. by rewrite Hp in Hk. }
  rewrite evidence_loc in Hf by done.
  assert (Hother : ∀ q, q ≠ evidence_path capsule n → fs_files fs2 !! q = fs_files fs !! q).
  { intros q Hq. rewrite Hf, lookup_insert_ne by done. by rewrite Hfs1. }
  destruct (IH fs2 l' Hnd Hsafe Hl) as [IH1 IH2].
  { intros m Hm Hin. apply (Hfrom m); [by right|]. csimpl. by right. }
  assert (Hinj : ∀ m, evidence_path capsule m = evidence_path capsule n → m = n).
  { unfold evidence_path. intros m E. apply app_inv_head in E. by injection E. }
  split.
  - intros q Hq. csimpl in Hq. apply not_elem_of_cons in Hq as [Hq1 Hq2]. rewrite IH1 by done. by apply Hother.
  - assert (Hkeep : ∀ m, m ∈ n :: names → ∀ c, read_file (pjoin from m) fs2 = Ok c ↔ read_file (pjoin from m) fs = Ok c).
    { intros m Hm c. rewrite !read_file_Ok, Hother; [done|]. intros E. apply (Hfrom m Hm). rewrite E. csimpl. by left. }
    apply read_file_Ok in Hb' as [_ Hb']. rewrite evidence_loc, Hf, lookup_insert_eq in Hb' by done. injection Hb' as <-.
    constructor.
    + exists b. split_and!; [by rewrite <- Hb; unfold read_file; rewrite Hfs1|done|].
      apply read_file_Ok. split; [done|]. rewrite evidence_loc by done. rewrite IH1.
      * by rewrite Hf, lookup_insert_eq.
      * intros (m & Hm & Hin)%list_elem_of_fmap. apply eq_sym, Hinj in Hm as ->. done.
    + eapply Forall2_impl_in; [exact IH2|]. intros m a Hm (c & Hc & -> & Hr). exists c.
      split_and!; [apply Hkeep; [by right|done]|done..].
Qed.

(** What verification needs of the manifest and of the files of a capsule. *)
Lemma transfer_numbers m : numbers_ok (transfer_json m) = true.
Proof.
  assert (Ha : numbers_ok (JArray (asset_json <$> tm_evidence m)) = true).
  { induction (tm_evidence m) as [|a l IH]; [done|]. cbn in *. by rewrite number_text_pretty, IH. }
  cbn [numbers_ok] in Ha. unfold transfer_json, tarball_json. numbers. by rewrite Ha.
Qed.
Definition asset_in_range (a : TransferAsset) : Prop := (Z.of_N (asset_bytes a) < 2 ^ 64)%Z.
Lemma reads_asset : reads asset_json of_asset asset_in_range.
Proof. intros [] H. unfold asset_in_range, of_asset, asset_json in *. simpl in H. read_fields. done. Qed.
Lemma reads_tarball t : (Z.of_N (tb_bytes t) < 2 ^ 64)%Z → of_tarball (tarball_json t) = Some t.
Proof. destruct t. intros H. unfold of_tarball, tarball_json. simpl in H. read_fields. done. Qed.
Lemma reads_transfer m :
  tm_schema_version m = TRANSFER_SCHEMA_VERSION → (Z.of_N (tb_bytes (tm_tarball m)) < 2 ^ 64)%Z →
  Forall asset_in_range (tm_evidence m) → of_transfer (transfer_json m) = Some m.
Proof.
  destruct m as [v f n ve d ad ar c k t e cd l]. cbn [tm_schema_version tm_tarball tm_evidence]. intros -> Ht He.
  pose proof (reads_list _ _ _ reads_asset e He) as Hes. cbn beta in Hes. pose proof (reads_tarball t Ht) as Htar.
  assert (Hv : (Z.of_N TRANSFER_SCHEMA_VERSION < 2 ^ 32)%Z) by done.
  unfold of_transfer, transfer_json.
  cbn [tm_schema_version tm_format tm_name tm_version tm_package_digest tm_assessment_decision
    tm_assessment_reason_code tm_capabilities tm_signing_public_key tm_tarball tm_evidence tm_consumer_decision
    tm_limitations].
  read_fields. rewrite Htar, Hes. done.
Qed.
Lemma read_signature_file s : read_detached (signature_file s) = s.
Proof. by destruct s. Qed.
Lemma signature_file_numbers s : numbers_ok (signature_file s) = true.
Proof. by destruct s. Qed.

(** Two directories neither of which is below the other. *)
Definition apart (p q : list string) : Prop := ¬ p `prefix_of` q ∧ ¬ q `prefix_of` p.
Lemma apart_below p q x : apart p q → ¬ p `prefix_of` q ++ x.
Proof.
  intros [Hpq Hqp] H. destruct (prefix_weak_total p q (q ++ x)); [done|by eexists|done|done].
Qed.
(** The evidence that [persist_signed] leaves, apart from the temporary directories and
    from the capsule. *)
Record ready (staging assessed out : string) (a : PublishAssessmentV2) (persisted : PersistedEvidence)
    (key : SigningKey) (fs : Fs) : Prop := {
  ready_key : pe_signing_public_key persisted = b64_encode (verifying_key key);
  ready_assessment : read_file (pjoin (pe_directory persisted) "assessment.json") fs = Ok (to_vec_pretty (publish_json a));
  ready_signature : read_file (pjoin (pe_directory persisted) "signature.json") fs =
    Ok (to_vec_pretty (signature_file (sign_json (publish_json a) key)));
  ready_range : in_range a;
  ready_staging : apart (loc staging) (loc out) ∧ apart (loc staging) (loc (pe_directory persisted));
  ready_assessed : apart (loc assessed) (loc out) ∧ apart (loc assessed) (loc (pe_directory persisted));
  ready_out : ¬ loc out `prefix_of` loc (pe_directory persisted) }.
Lemma plain_loc dir n : safe_name n → loc (pjoin dir n) = loc dir ++ [n].
Proof. intros Hn. by rewrite loc_below; unfold all_normal; rewrite (components_name n Hn). Qed.
(** A file of the capsule, by the name below its directory. *)
Definition in_capsule (out : string) (l : list string) : list string := loc out ++ l.
Lemma package_loc out n : safe_name n → loc (pjoin out ("package/" +:+ n)) = loc out ++ ["package"; n].
Proof.
  intros Hn. change ("package/" +:+ n) with ("package" +:+ String "/" n).
  assert (Hc : components ("package" +:+ String "/" n) = [Normal "package"; Normal n]).
  { rewrite components_app_slash; [by rewrite (components_name n Hn)|done| |by rewrite (components_name n Hn)].
    destruct (starts_with "/" n) eqn:E; [|done]. apply starts_with_true in E as [r ->]. by destruct Hn as (_ & _ & _ & Hn). }
  rewrite loc_below; unfold all_normal; by rewrite Hc.
Qed.
Lemma file_name_safe p n : file_name p = Some n → safe_name n.
Proof.
  unfold file_name. destruct (last (components p)) as [[| | |m]|] eqn:E; try done. intros [= ->].
  apply (components_normal_safe p). by apply last_Some_elem_of.
Qed.
Lemma evidence_safe : Forall safe_name EVIDENCE ∧ NoDup EVIDENCE.
Proof. split; [repeat constructor; done|]. apply (bool_decide_eq_true_1 _). reflexivity. Qed.
(** The files of a capsule and of the evidence through the steps: up to the tarball's copy
    only temporary directories changed, then the evidence is copied, then the manifest and
    its signature are written; the temporary directories go. *)
Record made_of (out : string) (a : PublishAssessmentV2) (persisted : PersistedEvidence) (key : SigningKey)
    (fs fs1 fs2 fs' : Fs) (tarball n : string) (evidence : list TransferAsset) (m : TransferManifest) : Prop := {
  made_match : verify_tarball_matches_assessment tarball a = Ok tt;
  made_name : safe_name n ∧ directory_path (pjoin out ("package/" +:+ n)) = false;
  made_before x : safe_name x → fs_files fs1 !! (loc (pe_directory persisted) ++ [x]) =
                                fs_files fs !! (loc (pe_directory persisted) ++ [x]);
  made_tarball : fs_files fs1 !! (loc out ++ ["package"; n]) = Some tarball;
  made_copied : copy_assets (pe_directory persisted) out EVIDENCE fs1 = (Ok evidence, fs2);
  made_bytes : ∃ bytes, read_file (pjoin out ("package/" +:+ n)) fs2 = Ok bytes ∧
    m = capsule_manifest sha512_hex a persisted ("package/" +:+ n) bytes evidence;
  made_plain : directory_path (pjoin out "transfer.json") = false ∧
               directory_path (pjoin out "transfer.signature.json") = false;
  made_end l : fs_files fs' !! (loc out ++ l) =
    (<[loc out ++ ["transfer.signature.json"] := to_vec_pretty (signature_json (sign_json (transfer_json m) key))]>
      (<[loc out ++ ["transfer.json"] := to_vec_pretty (transfer_json m)]> (fs_files fs2))) !! (loc out ++ l) }.
Lemma not_package out dir n x y : ¬ loc out `prefix_of` loc dir → loc dir ++ [x] ≠ loc out ++ [y; n].
Proof.
  intros Hod E. change [y; n] with ([y] ++ [n]) in E. rewrite app_assoc in E. apply app_inj_tail in E as [E _].
  apply Hod. rewrite E. by eexists.
Qed.
Lemma create_steps staging assessed root output a persisted key fs m fs' :
  create_capsule sha512_hex npm_pack staging assessed root output a persisted (Ok key) fs = (Ok m, fs') →
  ready staging assessed (pjoin root output) a persisted key fs →
  ∃ fs1 fs2 tarball n evidence, made_of (pjoin root output) a persisted key fs fs1 fs2 fs' tarball n evidence m.
Proof.
  intros H Hr. unfold create_capsule in H. set (out := pjoin root output) in *.
  apply io_bind_Ok in H as ([] & fs0 & [_ ->]%reading_Ok & H).
  apply io_bind_Ok in H as ([] & fs1 & [_ ->]%reading_Ok & H).
  apply with_tempdir_Ok in H as (fs1 & fs9 & Hfs1 & H & Hout1).
  apply with_tempdir_Ok in H as (fs2 & fs8 & Hfs2 & H & Hout2).
  apply io_bind_Ok in H as ([] & fs3 & Hstage & H). apply io_bind_Ok in H as (packed & fs4 & Hpack & H).
  apply io_bind_Ok in H as (tarball & x & [Htar ->]%reading_Ok & H).
  apply io_bind_Ok in H as ([] & x & [Hmatch ->]%reading_Ok & H).
  apply io_bind_Ok in H as ([] & fs5 & Hdir & H). apply io_bind_Ok in H as (n & x & [Hn ->]%reading_Ok & H).
  apply ok_or_Ok, file_name_safe in Hn. cbv zeta in H.
  apply io_bind_Ok in H as ([] & fs6 & Hpar & H). apply io_bind_Ok in H as ([] & fs7 & (b & Hb & Htd & Hf7)%copy_Ok & H).
  apply io_bind_Ok in H as (evidence & fs10 & Hev & H). apply io_bind_Ok in H as (bytes & x & [Hbytes ->]%reading_Ok & H).
  apply io_bind_Ok in H as (k & x & [[= <-] ->]%reading_Ok & H).
  apply io_bind_Ok in H as ([] & fs11 & [Hd11 Hf11]%write_to_Ok & H).
  apply io_bind_Ok in H as ([] & fs12 & [Hd12 Hf12]%write_to_Ok & [= <- <-]).
  destruct (ready_staging _ _ _ _ _ _ _ Hr) as [Hso Hsd], (ready_assessed _ _ _ _ _ _ _ Hr) as [Hao Had].
  assert (Hb' : fs_files fs6 = fs_files fs4).
  { pose proof (create_dir_all_keeps out fs4) as H1. rewrite Hdir in H1.
    pose proof (create_parent_keeps (pjoin out ("package/" +:+ n)) fs5) as H2. rewrite Hpar in H2. simpl in *. congruence. }
  assert (b = tarball) as ->.
  { apply read_file_Ok in Hb as [_ Hb]. apply read_file_Ok in Htar as [_ Htar]. congruence. }
  rewrite package_loc in Hf7 by done. rewrite plain_loc in Hf11, Hf12 by done.
  exists fs7, fs10, tarball, n, evidence. split; try done; [| |by exists bytes|].
  - intros x Hx. rewrite Hf7, lookup_insert_ne by (apply not_eq_sym, not_package, (ready_out _ _ _ _ _ _ _ Hr)).
    rewrite Hb', (pack_Ok _ _ _ _ _ Hpack) by by apply apart_below.
    pose proof (touches_stage root assessed (pa_files a) fs2 (loc (pe_directory persisted) ++ [x])) as Ht.
    rewrite Hstage in Ht. simpl in Ht. rewrite Ht by by apply apart_below. by rewrite Hfs2, Hfs1.
  - by rewrite Hf7, lookup_insert_eq.
  - intros l. rewrite Hout1, Hout2 by by apply apart_below. by rewrite Hf12, Hf11.
Qed.
Lemma create_leaves staging assessed root output a persisted key fs m fs' :
  create_capsule sha512_hex npm_pack staging assessed root output a persisted (Ok key) fs = (Ok m, fs') →
  ready staging assessed (pjoin root output) a persisted key fs →
  let out := pjoin root output in
  ∃ tarball n bytes_a bytes_s sbom provenance,
    verify_tarball_matches_assessment tarball a = Ok tt ∧
    m = capsule_manifest sha512_hex a persisted ("package/" +:+ n) tarball
          (zip_with (λ n b, asset_of ("evidence/" +:+ n) b) EVIDENCE [bytes_a; bytes_s; sbom; provenance]) ∧
    read_file (pjoin out ("package/" +:+ n)) fs' = Ok tarball ∧
    read_file (pjoin out "transfer.json") fs' = Ok (to_vec_pretty (transfer_json m)) ∧
    read_file (pjoin out "transfer.signature.json") fs' =
      Ok (to_vec_pretty (signature_json (sign_json (transfer_json m) key))) ∧
    read_file (pjoin (pe_directory persisted) "assessment.json") fs = Ok bytes_a ∧
    read_file (pjoin (pe_directory persisted) "signature.json") fs = Ok bytes_s ∧
    Forall2 (λ n b, read_file (pjoin out ("evidence/" +:+ n)) fs' = Ok b) EVIDENCE [bytes_a; bytes_s; sbom; provenance].
Proof.
  intros H Hr out. pose proof (ready_out _ _ _ _ _ _ _ Hr) as Hod.
  apply create_steps in H as (fs1 & fs2 & tarball & n & evidence & []); [|done]. destruct evidence_safe as [Hsafe Hnd].
  destruct made_name0 as [Hn Htd], made_bytes0 as (bytes & Hbytes & Hm), made_plain0 as [Hd1 Hd2].
  apply copy_assets_Ok in made_copied0 as [Hkeep Hev]; [|done|done|].
  2:{ intros x Hx (y & E & Hy)%list_elem_of_fmap. rewrite Forall_forall in Hsafe.
      rewrite plain_loc in E by auto. by apply not_package in E. }
  assert (Hold : ∀ x y, fs_files fs' !! (loc out ++ [x; y]) = fs_files fs2 !! (loc out ++ [x; y])).
  { intros x y. fold out in made_end0. rewrite made_end0, !lookup_insert_ne; [done|..]; by intros E%app_inv_head. }
  assert (Htarget : fs_files fs2 !! (loc out ++ ["package"; n]) = Some tarball).
  { rewrite Hkeep; [done|]. intros (y & E & _)%list_elem_of_fmap. by apply app_inv_head in E. }
  assert (bytes = tarball) as ->.
  { apply read_file_Ok in Hbytes as [_ Hbytes]. rewrite package_loc in Hbytes by done. fold out in Hbytes. congruence. }
  assert (Hread : ∀ x c, safe_name x → read_file (pjoin out ("evidence/" +:+ x)) fs2 = Ok c →
                         read_file (pjoin out ("evidence/" +:+ x)) fs' = Ok c).
  { intros x c Hx. rewrite !read_file_Ok, evidence_loc by done. unfold evidence_path. by rewrite Hold. }
  assert (Hfrom : ∀ x c, safe_name x → read_file (pjoin (pe_directory persisted) x) fs1 = Ok c →
                         read_file (pjoin (pe_directory persisted) x) fs = Ok c).
  { intros x c Hx. rewrite !read_file_Ok, !plain_loc by done. by rewrite made_before0. }
  apply Forall2_cons_inv_l in Hev as (e1 & ? & (b1 & Hb1 & -> & Hr1) & Hev & ->).
  apply Forall2_cons_inv_l in Hev as (e2 & ? & (b2 & Hb2 & -> & Hr2) & Hev & ->).
  apply Forall2_cons_inv_l in Hev as (e3 & ? & (b3 & Hb3 & -> & Hr3) & Hev & ->).
  apply Forall2_cons_inv_l in Hev as (e4 & ? & (b4 & Hb4 & -> & Hr4) & ->%Forall2_nil_inv_l & ->).
  exists tarball, n, b1, b2, b3, b4. split_and!; [done|done| | | |by apply Hfrom|by apply Hfrom|repeat constructor; by apply Hread].
  - apply read_file_Ok. split; [done|]. by rewrite package_loc, Hold.
  - apply read_file_Ok. split; [done|]. rewrite plain_loc, made_end0 by done.
    by rewrite lookup_insert_ne, lookup_insert_eq by by intros E%app_inv_head.
  - apply read_file_Ok. split; [done|]. by rewrite plain_loc, made_end0, lookup_insert_eq.
Qed.
Lemma decode_pretty {A} (d : Json → option A) j a : numbers_ok j = true → d j = Some a → decode d (to_vec_pretty j) = Ok a.
Proof. intros Hn Hd. unfold decode. rewrite from_slice_pretty by done. simpl. by rewrite Hd. Qed.
Lemma signature_json_numbers s : numbers_ok (signature_json s) = true.
Proof. by destruct s. Qed.

(** (C19) Making a capsule from evidence that was persisted, then verifying it where it was
    made: the manifest that was returned verifies, without a trusted key as integrity only,
    and under the key it was signed with as verified. It is for packages whose files are
    shorter than 2^64 bytes, with the directories apart, and for an npm that writes only
    where it is told to. *)
Theorem capsule_roundtrip staging assessed root output a persisted key fs m fs' trusted :
  create_capsule sha512_hex npm_pack staging assessed root output a persisted (Ok key) fs = (Ok m, fs') →
  ready staging assessed (pjoin root output) a persisted key fs →
  (∀ q b, fs_files fs' !! q = Some b → (Z.of_nat (String.length b) < 2 ^ 64)%Z) →
  trusted = None ∨ trusted = Some (pe_signing_public_key persisted) →
  verify_capsule sha512_hex (pjoin root output) trusted fs' = Ok (verification trusted m).
Proof.
  intros H Hr Hlen Htr.
  destruct (create_leaves _ _ _ _ _ _ _ _ _ _ H Hr)
    as (tarball & n & ba & bs & sbom & prov & Hmatch & Hm & Htar & Htj & Hsj & Hba & Hbs & Hev).
  rewrite (ready_assessment _ _ _ _ _ _ _ Hr) in Hba. rewrite (ready_signature _ _ _ _ _ _ _ Hr) in Hbs.
  injection Hba as <-. injection Hbs as <-.
  assert (Hsize : ∀ p b, read_file p fs' = Ok b → (Z.of_N (N.of_nat (String.length b)) < 2 ^ 64)%Z).
  { intros p b [_ Hb]%read_file_Ok. rewrite nat_N_Z. by apply (Hlen _ _ Hb). }
  apply Forall2_cons in Hev as [He1 [He2 [He3 [He4 _]%Forall2_cons]%Forall2_cons]%Forall2_cons].
  cbv beta in He1, He2, He3, He4.
  assert (Hfmt : tm_schema_version m = TRANSFER_SCHEMA_VERSION ∧ tm_format m = "oath-package-transfer") by by rewrite Hm.
  assert (Hkey : public_key (sign_json (transfer_json m) key) = tm_signing_public_key m).
  { transitivity (pe_signing_public_key persisted); [by rewrite (ready_key _ _ _ _ _ _ _ Hr)|by rewrite Hm]. }
  assert (Hid : pa_name a = tm_name m ∧ pa_version a = tm_version m ∧ pa_package_digest a = tm_package_digest m) by by rewrite Hm.
  assert (Htr' : trusted = None ∨ trusted = Some (tm_signing_public_key m)) by by rewrite Hm.
  unfold verify_capsule. rewrite Htj. simpl.
  rewrite (decode_pretty of_transfer _ m); [|apply transfer_numbers|].
  2:{ rewrite Hm. apply reads_transfer; [done|by apply (Hsize _ _ Htar)|]. unfold asset_in_range.
      unfold EVIDENCE. simpl.
    repeat apply Forall_cons_2; [by apply (Hsize _ _ He1)|by apply (Hsize _ _ He2)|
      by apply (Hsize _ _ He3)|by apply (Hsize _ _ He4)|done]. }
  cbn [mbind result_bind]. rewrite (bool_decide_eq_true_2 _ Hfmt). simpl. rewrite Hsj. cbn [mbind result_bind].
  rewrite (decode_pretty of_signature _ (sign_json (transfer_json m) key)); [|apply signature_json_numbers|by apply reads_signature].
  cbn [mbind result_bind]. rewrite (proj2 (verify_signature_Ok transfer_json m _) (sign_json_verifies _ _)).
  cbn [mbind result_bind]. rewrite (bool_decide_eq_true_2 _ Hkey). cbn [mbind result_bind ensure].
  replace (tb_path (tm_tarball m)) with ("package/" +:+ n) by by rewrite Hm. rewrite Htar. simpl.
  assert (Hct : check_tarball sha512_hex tarball (tm_tarball m) = Ok tt).
  { rewrite Hm. unfold check_tarball. simpl. by rewrite !bool_decide_eq_true_2. }
  rewrite Hct. simpl.
  assert (Hca : check_assets (pjoin root output) fs' (tm_evidence m) = Ok tt).
  { rewrite Hm. apply check_assets_Ok. unfold EVIDENCE. simpl.
    repeat apply Forall_cons_2; try apply check_asset_Ok; [by exists (to_vec_pretty (publish_json a))|by eexists|by exists sbom|by exists prov|done]. }
  rewrite Hca. simpl.
  replace (pjoin (pjoin root output) "evidence/assessment.json") with (pjoin (pjoin root output) ("evidence/" +:+ "assessment.json")) by done.
  rewrite He1. simpl. rewrite (decode_pretty of_publish _ a); [|apply publish_numbers|by apply reads_publish, (ready_range _ _ _ _ _ _ _ Hr)].
  simpl. rewrite Hmatch. simpl.
  replace (pjoin (pjoin root output) "evidence/signature.json") with (pjoin (pjoin root output) ("evidence/" +:+ "signature.json")) by done.
  rewrite He2. simpl. rewrite (decode_pretty Some _ _ (signature_file_numbers _) eq_refl). cbn [mbind result_bind].
  rewrite read_signature_file, (proj2 (verify_signature_Ok publish_json a _) (sign_json_verifies _ _)). cbn [mbind result_bind].
  change (public_key (sign_json (publish_json a) key)) with (public_key (sign_json (transfer_json m) key)).
  rewrite (bool_decide_eq_true_2 _ Hkey). cbn [mbind result_bind ensure]. rewrite (bool_decide_eq_true_2 _ Hid).
  cbn [mbind result_bind ensure]. by rewrite (bool_decide_eq_true_2 _ Htr').
Qed.
End made.

(** ** A capsule *)

#[local] Program Instance toy_json_file : JsonFile := {|
  to_vec_pretty := Transparency.print; from_slice := Transparency.parse |}.
Next Obligation. intros j _. apply Transparency.parse_print. Qed.
(** Archives of one file, whose bytes they are. *)
#[local] Program Instance demo_archives : Archives := {|
  read_archive t := Ok [Ok {| ae_type := RegularFile; ae_path := Ok "package/index.js"; ae_size := 0; ae_bytes := Ok t |}];
  unpack_in _ _ fs := Ok (false, fs); lossy s := s |}.
Next Obligation. intros t es a [= <-] [[= ->]|Hin]%elem_of_cons; [done|by apply not_elem_of_nil in Hin]. Qed.
Next Obligation. done. Qed.
Definition demo_pack (root dest : string) : Fs → result string Json * Fs :=
  (_ ← copy (pjoin root "index.js") (pjoin dest "a-1.0.0.tgz");
   mret (JArray [JObject [("filename", JString "a-1.0.0.tgz")]])) : io Json.
Lemma demo_pack_below root dest : touches (λ q, loc dest `prefix_of` q) (demo_pack root dest).
Proof.
  apply (touches_bind (λ q, loc dest `prefix_of` q)); [|done]. apply touches_copy. rewrite plain_loc by done. by apply prefix_app_r.
Qed.
#[local] Existing Instance toy_digest.
#[local] Existing Instance Contracts.toy_json_text.
#[local] Existing Instance plain_base64.
#[local] Existing Instance digest_ed25519.
Definition demo_signing_key : @SigningKey digest_ed25519 := tt.
Definition demo_assessment : PublishAssessmentV2 :=
  match assess_with_signing_key "0.1.0" [("index.js", "1")] demo_package "latest" None 100 demo_signing_key with
  | Ok a => a
  | Err _ => Build_PublishAssessmentV2 0 0 0 "" "" "" None "" 0 [] 0 [] [] false [] Deny PublishSecretDetected None "" "" "" [] None
  end.
Definition demo_persisted : PersistedEvidence := {|
  pe_directory := "/h/e"; pe_assessment_signature := ""; pe_signing_public_key := b64_encode (verifying_key demo_signing_key);
  pe_sbom_path := "/h/e/sbom.spdx.json"; pe_provenance_path := "/h/e/provenance.intoto.json" |}.
Definition demo_disk : Fs := {|
  fs_files := list_to_map
    [(["p"; "index.js"], "1");
     (["h"; "e"; "assessment.json"], to_vec_pretty (publish_json demo_assessment));
     (["h"; "e"; "signature.json"], to_vec_pretty (signature_file (sign_json (publish_json demo_assessment) demo_signing_key)));
     (["h"; "e"; "sbom.spdx.json"], "{}"); (["h"; "e"; "provenance.intoto.json"], "{}")];
  fs_dirs := list_to_set [["p"]; ["h"]; ["h"; "e"]] |}.
Definition demo_capsule : result string TransferManifest * Fs :=
  create_capsule (λ s, s) demo_pack "/tmp/s" "/tmp/a" "/p" "out" demo_assessment demo_persisted (Ok demo_signing_key) demo_disk.
#[local] Instance file_in_range_dec f : Decision (file_in_range f).
Proof. unfold file_in_range. apply _. Defined.
Lemma demo_ready : ready "/tmp/s" "/tmp/a" (pjoin "/p" "out") demo_assessment demo_persisted demo_signing_key demo_disk.
Proof.
  split.
  - done.
  - apply read_file_Ok. split; [done|].
    change (loc (pjoin (pe_directory demo_persisted) "assessment.json")) with ["h"; "e"; "assessment.json"].
    unfold demo_disk. cbn [fs_files list_to_map foldr curry uncurry fst snd].
    rewrite lookup_insert_ne by done. by rewrite lookup_insert_eq.
  - apply read_file_Ok. split; [done|].
    change (loc (pjoin (pe_directory demo_persisted) "signature.json")) with ["h"; "e"; "signature.json"].
    unfold demo_disk. cbn [fs_files list_to_map foldr curry uncurry fst snd].
    rewrite !lookup_insert_ne by done. by rewrite lookup_insert_eq.
  - split; [vm_compute; split_and!; reflexivity|].
    apply (bool_decide_eq_true_1 (Forall _ _)). vm_compute. reflexivity.
  - unfold apart. apply (bool_decide_eq_true_1 _). vm_compute. reflexivity.
  - unfold apart. apply (bool_decide_eq_true_1 _). vm_compute. reflexivity.
  - apply (bool_decide_eq_true_1 _). vm_compute. reflexivity.
Qed.
Lemma capsule_roundtrip_witness :
  match demo_capsule with
  | (Ok m, fs) => verify_capsule (λ s, s) (pjoin "/p" "out") None fs = Ok (verification None m)
  | (Err _, _) => False
  end.
Proof.
  assert (Hok : is_ok demo_capsule.1 = true) by (vm_compute; reflexivity).
  assert (Hlen : bool_decide (map_Forall (λ _ b, (Z.of_nat (String.length b) < 2 ^ 64)%Z) (fs_files demo_capsule.2)) = true)
    by (vm_compute; reflexivity).
  destruct demo_capsule as [[m|e] fs] eqn:E; [|done].
  apply (capsule_roundtrip (λ s, s) demo_pack demo_pack_below "/tmp/s" "/tmp/a" "/p" "out" demo_assessment demo_persisted
    demo_signing_key demo_disk m fs None E demo_ready); [|by left].
  intros q b. exact (bool_decide_eq_true_1 _ Hlen q b).
Defined.
Lemma verified_capsule_spec_witness :
  match verify_capsule (λ s, s) "/p/out" None demo_capsule.2 with
  | Ok v => tv_verified v = false ∧ ∃ m a tarball, vouched (λ s, s) "/p/out" demo_capsule.2 m a tarball
  | Err _ => False
  end.
Proof.
  assert (Hok : is_ok (verify_capsule (λ s, s) "/p/out" None demo_capsule.2) = true) by (vm_compute; reflexivity).
  destruct (verify_capsule _ _ _ _) as [v|e] eqn:E; [|done].
  destruct (verified_capsule_spec (λ s, s) "/p/out" None demo_capsule.2 v E) as (m & a & tarball & Hv & -> & _).
  split; [done|]. by exists m, a, tarball.
Defined.
