(* ===== verification/ControlPlane.v ===== *)
(** * oath-registry: the control plane ([control_plane.rs])

    The registry's database and the operations on it. A table is a map from its
    primary key (the outbox and the event log are lists in the order of their
    serial numbers); an operation is one transaction: it ends with a result and the
    new database, or with an error and no change. The constraints are those of the
    migrations. Transactions are atomic, as the row and advisory locks they take
    make them. *)
From S2P Require Export Json Versions.

(** ** Tables *)

Definition to_i64 : Z → Z := wrap_s 64.

Record Principal := {
  pr_organization : string;
  pr_role : string;
  pr_kind : string;
}.
Record StageRecord := {
  st_id : string;
  st_organization : string;
  st_name : string;
  st_version : string;
  st_tag : string;
  st_digest : string;
  st_status : string;
  st_private : bool;
  st_manifest : Json;
  st_publisher_assessment : Json;
  st_assessment : Json;
  st_server_evidence : Json;
  st_sbom : Json;
  st_provenance : Json;
  st_created_at : Z;
}.
(** A row of [stages]: the record and the reason of the decision. *)
Record StageRow := { stage : StageRecord; decision_reason : option string }.
Record TokenRow := {
  tk_organization : string;
  tk_role : string;
  tk_expires_at : option Z;
  tk_kind : string;
}.
Record PackageRow := { pk_organization : string; pk_private : bool; pk_created_at : Z }.
Record VersionRow := {
  vr_organization : string;
  vr_digest : string;
  vr_status : string;
  vr_private : bool;
  vr_manifest : Json;
  vr_publisher_assessment : Json;
  vr_assessment : Json;
  vr_server_evidence : Json;
  vr_sbom : Json;
  vr_provenance : Json;
  vr_published_at : Z;
  vr_download_count : Z;
}.
Record TombstoneRow := {
  ts_status : string;
  ts_reason : string;
  ts_actor_org : string;
  ts_created_at : Z;
  ts_signature : string;
  ts_public_key : string;
}.
Record InvitationRow := {
  in_organization : string;
  in_email : string;
  in_role : string;
  in_expires_at : Z;
  in_accepted_at : option Z;
  in_revoked_at : option Z;
}.
Record MemberRow := { mb_email : string; mb_role : string; mb_created_at : Z }.
Record OutboxRow := {
  ob_id : nat;
  ob_event_key : string;
  ob_event : Json;
  ob_attempts : Z;
  ob_available_at : Z;
  ob_created_at : Z;
  ob_delivered_at : option Z;
}.
Record EventRow := {
  er_event_key : string;
  er_event_json : string;
  er_previous_hash : string;
  er_event_hash : string;
  er_signature : string;
  er_created_at : Z;
}.
Record DB := {
  organizations : gmap string Z;
  tokens : gmap string TokenRow;
  packages : gmap string PackageRow;
  package_roles : gmap (string * string) (string * string);
  invitations : gmap string InvitationRow;
  members : gmap (string * string) MemberRow;
  stages : gmap string StageRow;
  versions : gmap (string * string) VersionRow;
  dist_tags : gmap (string * string) string;
  tombstones : gmap (string * string) TombstoneRow;
  outbox : list OutboxRow;
  events : list EventRow;
  billing_events : gmap string (string * Json * Z);
  rate_limits : gmap (string * string * Z) Z;
}.
Definition empty_db : DB :=
  Build_DB ∅ ∅ ∅ ∅ ∅ ∅ ∅ ∅ ∅ ∅ [] [] ∅ ∅.

(** Replacing one table. *)
Definition set_organizations t (d : DB) : DB :=
  Build_DB t (tokens d) (packages d) (package_roles d) (invitations d) (members d) (stages d)
    (versions d) (dist_tags d) (tombstones d) (outbox d) (events d) (billing_events d)
    (rate_limits d).
Definition set_tokens t (d : DB) : DB :=
  Build_DB (organizations d) t (packages d) (package_roles d) (invitations d) (members d)
    (stages d) (versions d) (dist_tags d) (tombstones d) (outbox d) (events d) (billing_events d)
    (rate_limits d).
Definition set_packages t (d : DB) : DB :=
  Build_DB (organizations d) (tokens d) t (package_roles d) (invitations d) (members d) (stages d)
    (versions d) (dist_tags d) (tombstones d) (outbox d) (events d) (billing_events d)
    (rate_limits d).
Definition set_package_roles t (d : DB) : DB :=
  Build_DB (organizations d) (tokens d) (packages d) t (invitations d) (members d) (stages d)
    (versions d) (dist_tags d) (tombstones d) (outbox d) (events d) (billing_events d)
    (rate_limits d).
Definition set_invitations t (d : DB) : DB :=
  Build_DB (organizations d) (tokens d) (packages d) (package_roles d) t (members d) (stages d)
    (versions d) (dist_tags d) (tombstones d) (outbox d) (events d) (billing_events d)
    (rate_limits d).
Definition set_members t (d : DB) : DB :=
  Build_DB (organizations d) (tokens d) (packages d) (package_roles d) (invitations d) t
    (stages d) (versions d) (dist_tags d) (tombstones d) (outbox d) (events d) (billing_events d)
    (rate_limits d).
Definition set_stages t (d : DB) : DB :=
  Build_DB (organizations d) (tokens d) (packages d) (package_roles d) (invitations d) (members d)
    t (versions d) (dist_tags d) (tombstones d) (outbox d) (events d) (billing_events d)
    (rate_limits d).
Definition set_versions t (d : DB) : DB :=
  Build_DB (organizations d) (tokens d) (packages d) (package_roles d) (invitations d) (members d)
    (stages d) t (dist_tags d) (tombstones d) (outbox d) (events d) (billing_events d)
    (rate_limits d).
Definition set_dist_tags t (d : DB) : DB :=
  Build_DB (organizations d) (tokens d) (packages d) (package_roles d) (invitations d) (members d)
    (stages d) (versions d) t (tombstones d) (outbox d) (events d) (billing_events d)
    (rate_limits d).
Definition set_tombstones t (d : DB) : DB :=
  Build_DB (organizations d) (tokens d) (packages d) (package_roles d) (invitations d) (members d)
    (stages d) (versions d) (dist_tags d) t (outbox d) (events d) (billing_events d)
    (rate_limits d).
Definition set_outbox t (d : DB) : DB :=
  Build_DB (organizations d) (tokens d) (packages d) (package_roles d) (invitations d) (members d)
    (stages d) (versions d) (dist_tags d) (tombstones d) t (events d) (billing_events d)
    (rate_limits d).
Definition set_events t (d : DB) : DB :=
  Build_DB (organizations d) (tokens d) (packages d) (package_roles d) (invitations d) (members d)
    (stages d) (versions d) (dist_tags d) (tombstones d) (outbox d) t (billing_events d)
    (rate_limits d).
Definition set_billing_events t (d : DB) : DB :=
  Build_DB (organizations d) (tokens d) (packages d) (package_roles d) (invitations d) (members d)
    (stages d) (versions d) (dist_tags d) (tombstones d) (outbox d) (events d) t (rate_limits d).
Definition set_rate_limits t (d : DB) : DB :=
  Build_DB (organizations d) (tokens d) (packages d) (package_roles d) (invitations d) (members d)
    (stages d) (versions d) (dist_tags d) (tombstones d) (outbox d) (events d) (billing_events d)
    t.
Definition set_status (status : string) (s : StageRecord) : StageRecord :=
  Build_StageRecord (st_id s) (st_organization s) (st_name s) (st_version s) (st_tag s)
    (st_digest s) status (st_private s) (st_manifest s) (st_publisher_assessment s)
    (st_assessment s) (st_server_evidence s) (st_sbom s) (st_provenance s) (st_created_at s).
Definition set_version_status (status : string) (r : VersionRow) : VersionRow :=
  Build_VersionRow (vr_organization r) (vr_digest r) status (vr_private r) (vr_manifest r)
    (vr_publisher_assessment r) (vr_assessment r) (vr_server_evidence r) (vr_sbom r)
    (vr_provenance r) (vr_published_at r) (vr_download_count r).
Definition set_download_count (n : Z) (r : VersionRow) : VersionRow :=
  Build_VersionRow (vr_organization r) (vr_digest r) (vr_status r) (vr_private r) (vr_manifest r)
    (vr_publisher_assessment r) (vr_assessment r) (vr_server_evidence r) (vr_sbom r)
    (vr_provenance r) (vr_published_at r) n.

(** ** Errors and rows *)

Inductive db_error :=
  | UniqueViolation (table : string)
  | ForeignKeyViolation (table : string)
  | NumericOverflow
  | Failed (message : string).

(** Rows come in no particular order unless a query asks for one. *)
Class RowOrder := {
  rows {A} : list A → list A;
  rows_perm {A} (l : list A) : rows l ≡ₚ l;
}.
Definition table_rows `{!RowOrder} `{Countable K} {A} (t : gmap K A) : list (K * A) :=
  rows (map_to_list t).
(** [ORDER BY] a number. *)
Definition ordered {A} (f : A → Z) (a b : A) : Prop := (f a ≤ f b)%Z.
#[export] Instance ordered_dec {A} (f : A → Z) : RelDecision (ordered f).
Proof. intros a b. unfold ordered. apply _. Defined.
Definition order_by {A} (f : A → Z) : list A → list A := merge_sort (ordered f).

(** A foreign key to [organizations(name)]. *)
Definition check_organization (table name : string) (d : DB) : result db_error unit :=
  ensure (bool_decide (is_Some (organizations d !! name))) (ForeignKeyViolation table).
(** [INSERT] into a table with a primary key. *)
Definition insert_new `{Countable K} {A} (table : string) (k : K) (a : A) (t : gmap K A) :
    result db_error (gmap K A) :=
  match t !! k with
  | Some _ => Err (UniqueViolation table)
  | None => Ok (<[k := a]> t)
  end.

Section control_plane.
Context {SV : Semver} {RO : RowOrder}.
(** [crate::now()], in seconds. *)
Context (now : Z).

(** ** Tokens *)

Definition bootstrap_token (organization hash role : string) (d : DB) : result db_error DB :=
  let orgs := match organizations d !! organization with
              | Some _ => organizations d
              | None => <[organization := to_i64 now]> (organizations d)
              end in
  Ok (set_tokens (<[hash := Build_TokenRow organization role None "bootstrap"]> (tokens d))
        (set_organizations orgs d)).
Definition insert_token (hash organization role : string) (expires_at : Z) (kind : string) (d : DB) :
    result db_error DB :=
  t ← insert_new "tokens" hash (Build_TokenRow organization role (Some expires_at) kind) (tokens d);
  _ ← check_organization "tokens" organization d;
  Ok (set_tokens t d).
Definition authenticate (hash : string) (d : DB) : option Principal :=
  t ← tokens d !! hash;
  if match tk_expires_at t with Some e => bool_decide (e > to_i64 now)%Z | None => true end
  then Some (Build_Principal (tk_organization t) (tk_role t) (tk_kind t)) else None.

(** ** Packages *)

Definition package_role (name organization : string) (d : DB) : option string :=
  snd <$> package_roles d !! (name, organization).
Definition package (name : string) (d : DB) : option PackageRow := packages d !! name.

(** ** Stages *)

Definition pending_stages (organization : string) (d : DB) : nat :=
  size (filter (λ '(_, r), st_organization (stage r) = organization ∧ st_status (stage r) = "staged")
          (stages d)).
Definition push_outbox (event_key : string) (event : Json) (d : DB) : result db_error DB :=
  if decide (event_key ∈ ob_event_key <$> outbox d) then Err (UniqueViolation "registry_outbox")
  else Ok (set_outbox (outbox d ++ [Build_OutboxRow (S (length (outbox d))) event_key event 0
                                      (to_i64 now) (to_i64 now) None]) d).
(** [INSERT INTO packages .. ON CONFLICT (name) DO NOTHING] *)
Definition ensure_package (s : StageRecord) (d : DB) : result db_error DB :=
  match packages d !! st_name s with
  | Some _ => Ok d
  | None =>
      _ ← check_organization "packages" (st_organization s) d;
      Ok (set_packages (<[st_name s := Build_PackageRow (st_organization s) (st_private s)
                                         (to_i64 (st_created_at s))]> (packages d)) d)
  end.
(** [INSERT INTO stages]; a name and version is staged once. *)
Definition insert_stage (s : StageRecord) (d : DB) : result db_error DB :=
  _ ← ensure (bool_decide (map_Forall (λ _ r,
        ¬ (st_name (stage r) = st_name s ∧ st_version (stage r) = st_version s)) (stages d)))
        (UniqueViolation "stages");
  t ← insert_new "stages" (st_id s) {| stage := s; decision_reason := None |} (stages d);
  _ ← check_organization "stages" (st_organization s) d;
  Ok (set_stages t d).
Definition create_stage (s : StageRecord) (event_key : string) (event : Json)
    (maximum_pending_stages : Z) (d : DB) : result db_error (bool * DB) :=
  if decide (maximum_pending_stages ≤ Z.of_nat (pending_stages (st_organization s) d))%Z
  then Ok (false, d)
  else
    d1 ← ensure_package s d;
    p ← ok_or (packages d1 !! st_name s) (Failed "no rows");
    _ ← ensure (bool_decide (pk_organization p = st_organization s))
          (Failed "package belongs to another organization");
    _ ← ensure (bool_decide (pk_private p = st_private s))
          (Failed "package visibility cannot change between versions");
    d2 ← insert_stage s d1;
    d3 ← push_outbox event_key event d2;
    Ok (true, d3).

(** [window_seconds] is positive. *)
Definition consume_rate_limit (subject_hash bucket : string) (maximum window_seconds : Z) (d : DB) :
    result db_error (bool * DB) :=
  let now := to_i64 now in
  let window_start := (now - now mod window_seconds)%Z in
  let key := (subject_hash, bucket, window_start) in
  let count := (default 0 (rate_limits d !! key) + 1)%Z in
  _ ← ensure (bool_decide (count < 2 ^ 63)%Z) NumericOverflow;
  Ok (bool_decide (count ≤ maximum)%Z, set_rate_limits (<[key := count]> (rate_limits d)) d).
Definition prune_rate_limits_before (cutoff : Z) (d : DB) : nat * DB :=
  let keep := filter (λ '((_, _, w), _), ¬ (w < cutoff)%Z) (rate_limits d) in
  (size (rate_limits d) - size keep, set_rate_limits keep d).

Definition read_stage (id : string) (d : DB) : option StageRecord := stage <$> stages d !! id.
Definition list_stages (organization : string) (d : DB) : list StageRecord :=
  order_by (λ s, - to_i64 (st_created_at s))%Z
    (filter (λ s, st_organization s = organization
                  ∨ is_Some (package_roles d !! (st_name s, organization)))
       (stage ∘ snd <$> table_rows (stages d))).

Definition new_version (s : StageRecord) : VersionRow := {|
  vr_organization := st_organization s; vr_digest := st_digest s; vr_status := "active";
  vr_private := st_private s; vr_manifest := st_manifest s;
  vr_publisher_assessment := st_publisher_assessment s; vr_assessment := st_assessment s;
  vr_server_evidence := st_server_evidence s; vr_sbom := st_sbom s;
  vr_provenance := st_provenance s; vr_published_at := to_i64 now; vr_download_count := 0 |}.
Definition decided (status : string) (reason : option string) (r : StageRow) : StageRow :=
  {| stage := set_status status (stage r); decision_reason := reason |}.
Definition decide_stage (s : StageRecord) (approve : bool) (reason : option string)
    (event_key : string) (event : Json) (d : DB) : result db_error (bool * DB) :=
  match stages d !! st_id s with
  | Some r =>
      if decide (st_status (stage r) = "staged") then
        d1 ← (if approve then
                let d1 := set_stages (<[st_id s := decided "approved" reason r]> (stages d)) d in
                v ← insert_new "versions" (st_name s, st_version s) (new_version s) (versions d1);
                _ ← check_organization "versions" (st_organization s) d1;
                Ok (set_dist_tags (<[(st_name s, st_tag s) := st_version s]> (dist_tags d1))
                      (set_versions v d1))
              else Ok (set_stages (<[st_id s := decided "rejected" reason r]> (stages d)) d));
        d2 ← push_outbox event_key event d1;
        Ok (true, d2)
      else Ok (false, d)
  | None => Ok (false, d)
  end.

(** ** Versions *)

Definition event_hashes (d : DB) : list string := er_event_hash <$> events d.
Definition version (name ver : string) (d : DB) : option VersionRow := versions d !! (name, ver).
Definition version_bundle (name ver : string) (d : DB) :
    option (VersionRow * option TombstoneRow) :=
  r ← versions d !! (name, ver); Some (r, tombstones d !! (name, ver)).
(** Name, version, reason and time of the quarantined versions of public packages. *)
Definition public_quarantines (d : DB) : list (string * string * string * Z) :=
  (λ '((n, v), t), (n, v, ts_reason t, ts_created_at t)) <$>
    order_by (λ e, ts_created_at e.2)
      (filter (λ '((n, _), t), ts_status t = "quarantined"
                               ∧ (pk_private <$> packages d !! n) = Some false)
         (table_rows (tombstones d))).
Definition package_versions (name : string) (d : DB) : list (string * VersionRow) :=
  order_by (λ e, vr_published_at e.2)
    ((λ '((_, v), r), (v, r)) <$>
       filter (λ '((n, _), r), n = name ∧ vr_status r = "active") (table_rows (versions d))).
Definition record_download (name ver : string) (d : DB) : result db_error DB :=
  match versions d !! (name, ver) with
  | Some r =>
      _ ← ensure (bool_decide (vr_download_count r + 1 < 2 ^ 63)%Z) NumericOverflow;
      Ok (set_versions (<[(name, ver) := set_download_count (vr_download_count r + 1) r]> (versions d)) d)
  | None => Ok d
  end.
Definition package_tags (name : string) (d : DB) : list (string * string) :=
  (λ '((_, t), v), (t, v)) <$> filter (λ '((n, _), _), n = name) (table_rows (dist_tags d)).

(** [max_by]: of equal versions the last. *)
Definition newest (best : Version * string) (e : Version * string) : Version * string :=
  if decide (version_le best.1 e.1) then e else best.
Definition max_version (l : list (Version * string)) : option (Version * string) :=
  match l with [] => None | e :: l => Some (foldl newest e l) end.
(** The versions of a package that are active, as revocation reads them. *)
Definition active_versions (name : string) (d : DB) : list string :=
  (λ '((_, v), _), v) <$>
    filter (λ '((n, _), r), n = name ∧ vr_status r = "active") (table_rows (versions d)).
Definition rollback_version (name : string) (d : DB) : option string :=
  snd <$> max_version (omap (λ v, (λ p, (p, v)) <$> parse_version v) (active_versions name d)).
(** [UPDATE dist_tags … WHERE version=$3], or its [DELETE]: the rows [found] when the
    statement started, of which those are changed that still name the version when
    their lock is held. *)
Definition retag (name ver : string) (rollback : option string)
    (found tags : gmap (string * string) string) : gmap (string * string) string :=
  map_imap (λ '(n, t) v,
    if decide (n = name ∧ v = ver ∧ found !! (n, t) = Some ver) then rollback else Some v) tags.
(** The transaction runs at [READ COMMITTED] and locks no package: between its
    statements others commit. [seen] is the database its [SELECT] of the active
    versions sees, but for its own change, [tagged] the one its [UPDATE] of the tags
    sees, and [d] the one it commits to. The rows it has written stay locked until
    then. *)
Definition revoke_version (name ver status reason actor_org : string) (created_at : Z)
    (signature public_key event_key : string) (event : Json) (seen tagged d : DB) :
    result db_error (bool * DB) :=
  match versions d !! (name, ver) with
  | None => Ok (false, d)
  | Some r =>
      let d1 := set_versions (<[(name, ver) := set_version_status status r]> (versions d)) d in
      let d2 := set_tombstones (<[(name, ver) :=
                  Build_TombstoneRow status reason actor_org created_at signature public_key]>
                  (tombstones d1)) d1 in
      let seen1 := set_versions (<[(name, ver) := set_version_status status r]> (versions seen)) seen in
      let d3 := set_dist_tags (retag name ver (rollback_version name seen1) (dist_tags tagged)
                                 (dist_tags d2)) d2 in
      d4 ← push_outbox event_key event d3;
      Ok (true, d4)
  end.

(** ** Roles, invitations, members *)

Definition grant_package_role (name owner_org principal_org role : string) (d : DB) :
    result db_error DB :=
  p ← ok_or (package name d) (Failed "package not found");
  _ ← ensure (bool_decide (pk_organization p = owner_org))
        (Failed "only the package-owning organization may grant roles");
  Ok (set_package_roles (<[(name, principal_org) := (owner_org, role)]> (package_roles d)) d).
Definition create_invitation (token_hash organization email role : string) (expires_at : Z)
    (d : DB) : result db_error DB :=
  t ← insert_new "invitations" token_hash
        (Build_InvitationRow organization email role expires_at None None) (invitations d);
  _ ← check_organization "invitations" organization d;
  Ok (set_invitations t d).
Definition revoke_invitation (token_hash organization : string) (d : DB) : bool * DB :=
  match invitations d !! token_hash with
  | Some i =>
      if decide (in_organization i = organization ∧ in_accepted_at i = None ∧ in_revoked_at i = None)
      then (true, set_invitations (<[token_hash := Build_InvitationRow (in_organization i) (in_email i)
              (in_role i) (in_expires_at i) (in_accepted_at i) (Some (to_i64 now))]> (invitations d)) d)
      else (false, d)
  | None => (false, d)
  end.
Definition accept_invitation (token_hash subject email : string) (d : DB) :
    result db_error (option InvitationRow * DB) :=
  match invitations d !! token_hash with
  | Some i =>
      if decide (in_accepted_at i = None ∧ in_revoked_at i = None ∧ (in_expires_at i > to_i64 now)%Z)
      then
        _ ← ensure (eq_ignore_ascii_case (in_email i) email)
              (Failed "invitation email does not match verified identity");
        _ ← check_organization "organization_members" (in_organization i) d;
        let key := (in_organization i, subject) in
        let row := match members d !! key with
                   | Some m => Build_MemberRow email (in_role i) (mb_created_at m)
                   | None => Build_MemberRow email (in_role i) (to_i64 now)
                   end in
        let used := Build_InvitationRow (in_organization i) (in_email i) (in_role i)
                      (in_expires_at i) (Some (to_i64 now)) (in_revoked_at i) in
        Ok (Some i, set_invitations (<[token_hash := used]> (invitations d))
                      (set_members (<[key := row]> (members d)) d))
      else Ok (None, d)
  | None => Ok (None, d)
  end.
(** Organization and role; of several memberships the oldest. *)
Definition membership (subject : string) (d : DB) : option (string * string) :=
  (λ '((o, _), m), (o, mb_role m)) <$>
    head (order_by (λ e, mb_created_at e.2)
            (filter (λ '((_, s), _), s = subject) (table_rows (members d)))).
Definition record_billing_event (event_id event_type : string) (payload : Json) (d : DB) : bool * DB :=
  match billing_events d !! event_id with
  | Some _ => (false, d)
  | None => (true, set_billing_events
                     (<[event_id := (event_type, payload, to_i64 now)]> (billing_events d)) d)
  end.

(** ** The outbox *)

Definition pending_outbox (limit : nat) (d : DB) : list OutboxRow :=
  take limit (filter (λ r, ob_delivered_at r = None ∧ (ob_available_at r ≤ to_i64 now)%Z) (outbox d)).
Definition update_outbox (id : nat) (f : OutboxRow → OutboxRow) (d : DB) : DB :=
  set_outbox ((λ r, if decide (ob_id r = id) then f r else r) <$> outbox d) d.
Definition mark_outbox_delivered (id : nat) (d : DB) : DB :=
  update_outbox id (λ r, Build_OutboxRow (ob_id r) (ob_event_key r) (ob_event r) (ob_attempts r)
    (ob_available_at r) (ob_created_at r) (Some (to_i64 now))) d.
(** [attempts] is a 32-bit integer. *)
Definition retry_outbox (id : nat) (d : DB) : result db_error DB :=
  _ ← ensure (bool_decide (Forall (λ r, ob_id r = id → (ob_attempts r + 1 < 2 ^ 31)%Z) (outbox d)))
        NumericOverflow;
  Ok (update_outbox id (λ r, Build_OutboxRow (ob_id r) (ob_event_key r) (ob_event r)
        (ob_attempts r + 1) (to_i64 (saturating_add_u64 now 5)) (ob_created_at r)
        (ob_delivered_at r)) d).
End control_plane.

(** ** What the operations that release packages do *)
Section releases.
Context {SV : Semver} {RO : RowOrder}.
Implicit Types d : DB.

Lemma push_outbox_Ok now k e d d' :
  push_outbox now k e d = Ok d' →
  k ∉ ob_event_key <$> outbox d ∧ ∃ row, ob_event_key row = k ∧ ob_id row = S (length (outbox d))
    ∧ d' = set_outbox (outbox d ++ [row]) d.
Proof. unfold push_outbox. case_decide; [done|]. intros [= <-]. split; [done|].
  eexists. split_and!; [| |reflexivity]; done.
Qed.
Lemma insert_new_Ok `{Countable K} {A} table (k : K) (a : A) t t' :
  insert_new table k a t = Ok t' ↔ t !! k = None ∧ t' = <[k := a]> t.
Proof. unfold insert_new. destruct (t !! k); naive_solver. Qed.

Definition names_of (r : StageRow) : string * string := (st_name (stage r), st_version (stage r)).

Lemma create_stage_Ok now s k e maximum d d' :
  create_stage now s k e maximum d = Ok (true, d') →
  (Z.of_nat (pending_stages (st_organization s) d) < maximum)%Z
  ∧ k ∉ ob_event_key <$> outbox d
  ∧ stages d !! st_id s = None
  ∧ (∀ id r, stages d !! id = Some r → names_of r ≠ (st_name s, st_version s))
  ∧ (∃ p, packages d' !! st_name s = Some p ∧ pk_organization p = st_organization s
          ∧ pk_private p = st_private s)
  ∧ packages d ⊆ packages d'
  ∧ stages d' = <[st_id s := {| stage := s; decision_reason := None |}]> (stages d)
  ∧ versions d' = versions d ∧ dist_tags d' = dist_tags d ∧ tombstones d' = tombstones d
  ∧ ob_event_key <$> outbox d' = (ob_event_key <$> outbox d) ++ [k].
Proof.
  unfold create_stage. case_decide as Hq; [done|]. intros H.
  apply bind_Ok in H as (d1 & H1 & H). apply bind_Ok in H as (p & Hp%ok_or_Ok & H).
  apply bind_Ok in H as (_ & Ho%ensure_Ok%bool_decide_eq_true & H).
  apply bind_Ok in H as (_ & Hv%ensure_Ok%bool_decide_eq_true & H).
  apply bind_Ok in H as (d2 & H2 & H). apply bind_Ok in H as (d3 & H3 & [= <-]).
  assert (Hd1 : packages d ⊆ packages d1 ∧ stages d1 = stages d ∧ versions d1 = versions d
                ∧ dist_tags d1 = dist_tags d ∧ tombstones d1 = tombstones d ∧ outbox d1 = outbox d).
  { unfold ensure_package in H1. destruct (packages d !! st_name s) eqn:E; [by injection H1 as <-|].
    apply bind_Ok in H1 as (_ & _ & [= <-]). simpl. split; [|done]. by apply insert_subseteq. }
  destruct Hd1 as (Hsub & Es & Ev & Et & Etm & Eo).
  unfold insert_stage in H2.
  apply bind_Ok in H2 as (_ & Hu%ensure_Ok%bool_decide_eq_true & H2).
  apply bind_Ok in H2 as (t & [Hn ->]%insert_new_Ok & H2).
  apply bind_Ok in H2 as (_ & _ & [= <-]).
  apply push_outbox_Ok in H3 as (Hk & row & Hrk & _ & ->). simpl in *.
  rewrite Es, Eo in *.
  repeat split; try done; try lia; try congruence.
  - intros id r Hr [= E1 E2]. by apply (Hu id r Hr).
  - by exists p.
  - rewrite fmap_app. csimpl. by rewrite Hrk.
Qed.
Lemma create_stage_false now s k e maximum d d' :
  create_stage now s k e maximum d = Ok (false, d') → d' = d.
Proof.
  unfold create_stage. case_decide; [by intros [= <-]|]. intros Hc.
  repeat (apply bind_Ok in Hc as (? & _ & Hc)). done.
Qed.

Lemma decide_stage_Ok now s approve reason k e d d' :
  decide_stage now s approve reason k e d = Ok (true, d') →
  ∃ r, stages d !! st_id s = Some r ∧ st_status (stage r) = "staged"
  ∧ k ∉ ob_event_key <$> outbox d
  ∧ ob_event_key <$> outbox d' = (ob_event_key <$> outbox d) ++ [k]
  ∧ packages d' = packages d ∧ tombstones d' = tombstones d
  ∧ (if approve
     then versions d !! (st_name s, st_version s) = None
          ∧ stages d' = <[st_id s := decided "approved" reason r]> (stages d)
          ∧ versions d' = <[(st_name s, st_version s) := new_version now s]> (versions d)
          ∧ dist_tags d' = <[(st_name s, st_tag s) := st_version s]> (dist_tags d)
     else stages d' = <[st_id s := decided "rejected" reason r]> (stages d)
          ∧ versions d' = versions d ∧ dist_tags d' = dist_tags d).
Proof.
  unfold decide_stage. destruct (stages d !! st_id s) as [r|] eqn:Er; [|done].
  case_decide as Hst; [|done]. intros H. exists r.
  apply bind_Ok in H as (d1 & H1 & H). apply bind_Ok in H as (d2 & H2 & [= <-]).
  apply push_outbox_Ok in H2 as (Hk & row & Hrk & _ & ->). simpl in *.
  rewrite fmap_app. csimpl. rewrite Hrk.
  destruct approve; simpl in H1.
  - apply bind_Ok in H1 as (v & [Hn ->]%insert_new_Ok & H1).
    apply bind_Ok in H1 as (_ & _ & [= <-]). by simpl in *.
  - by injection H1 as <-.
Qed.
Lemma decide_stage_false now s approve reason k e d d' :
  decide_stage now s approve reason k e d = Ok (false, d') → d' = d.
Proof.
  unfold decide_stage. destruct (stages d !! st_id s); [|by intros [= <-]].
  case_decide; [|by intros [= <-]]. intros Hc. by repeat (apply bind_Ok in Hc as (? & _ & Hc)).
Qed.

Lemma revoke_version_Ok now name ver status reason actor at_ sig key k e seen tagged d d' :
  revoke_version now name ver status reason actor at_ sig key k e seen tagged d = Ok (true, d') →
  ∃ r, versions d !! (name, ver) = Some r
  ∧ k ∉ ob_event_key <$> outbox d
  ∧ ob_event_key <$> outbox d' = (ob_event_key <$> outbox d) ++ [k]
  ∧ packages d' = packages d ∧ stages d' = stages d
  ∧ versions d' = <[(name, ver) := set_version_status status r]> (versions d)
  ∧ tombstones d' = <[(name, ver) := Build_TombstoneRow status reason actor at_ sig key]> (tombstones d)
  ∧ dist_tags d' = retag name ver
      (rollback_version name (set_versions (<[(name, ver) := set_version_status status r]> (versions seen)) seen))
      (dist_tags tagged) (dist_tags d).
Proof.
  unfold revoke_version. destruct (versions d !! (name, ver)) as [r|] eqn:Er; [|done].
  intros H. exists r. apply bind_Ok in H as (d4 & H & [= <-]).
  apply push_outbox_Ok in H as (Hk & row & Hrk & _ & ->). simpl in *.
  rewrite fmap_app. csimpl. by rewrite Hrk.
Qed.
Lemma revoke_version_false now name ver status reason actor at_ sig key k e seen tagged d d' :
  revoke_version now name ver status reason actor at_ sig key k e seen tagged d = Ok (false, d') → d' = d.
Proof.
  unfold revoke_version. destruct (versions d !! (name, ver)); [|by intros [= <-]].
  intros H. by apply bind_Ok in H as (? & _ & H).
Qed.

(** The version a tag falls back to is active. *)
Lemma newest_in l best : foldl newest best l = best ∨ foldl newest best l ∈ l.
Proof.
  revert best. induction l as [|e l IH]; intros best; [by left|]. simpl.
  destruct (IH (newest best e)) as [->|]; [|right; by right].
  unfold newest. case_decide; [right; by left|by left].
Qed.
Lemma elem_of_active_versions name v d :
  v ∈ active_versions name d ↔ ∃ r, versions d !! (name, v) = Some r ∧ vr_status r = "active".
Proof.
  unfold active_versions, table_rows. rewrite list_elem_of_fmap. split.
  - intros ([[n w] r] & -> & H). apply list_elem_of_filter in H as [[-> Ha] H].
    rewrite rows_perm, elem_of_map_to_list in H. eauto.
  - intros (r & Hr & Ha). exists ((name, v), r). split; [done|]. apply list_elem_of_filter.
    split; [done|]. by rewrite rows_perm, elem_of_map_to_list.
Qed.
Lemma rollback_version_active name v d :
  rollback_version name d = Some v →
  ∃ r, versions d !! (name, v) = Some r ∧ vr_status r = "active".
Proof.
  unfold rollback_version, max_version. intros H. apply elem_of_active_versions.
  assert (Hin : ∀ e, e ∈ omap (λ v, (λ p, (p, v)) <$> parse_version v) (active_versions name d) →
                     e.2 ∈ active_versions name d).
  { intros e (w & Hw & Hp)%list_elem_of_omap. destruct (parse_version w); [|done].
    by injection Hp as <-. }
  destruct (omap _ _) as [|e l]; [done|]. simpl in H. injection H as <-. apply Hin.
  destruct (newest_in l e) as [->|]; [by left|by right].
Qed.
Lemma retag_Some name ver rb found tags n t v :
  retag name ver rb found tags !! (n, t) = Some v ↔
  ∃ w, tags !! (n, t) = Some w ∧
       if decide (n = name ∧ w = ver ∧ found !! (n, t) = Some ver) then rb = Some v else w = v.
Proof.
  unfold retag. rewrite map_lookup_imap. destruct (tags !! (n, t)) as [w|]; simpl.
  - split.
    + intros Hv. exists w. split; [done|]. case_decide; congruence.
    + intros (w' & [= <-] & Hv). case_decide; congruence.
  - split; [done|]. by intros (? & ? & _).
Qed.
End releases.

(** ** Runs of the control plane *)

(** What is released: a stage's artifact and everything said about it. *)
Record Content := {
  c_organization : string; c_digest : string; c_private : bool; c_manifest : Json;
  c_publisher_assessment : Json; c_assessment : Json; c_server_evidence : Json;
  c_sbom : Json; c_provenance : Json }.
Definition stage_content (s : StageRecord) : Content :=
  Build_Content (st_organization s) (st_digest s) (st_private s) (st_manifest s)
    (st_publisher_assessment s) (st_assessment s) (st_server_evidence s) (st_sbom s)
    (st_provenance s).
Definition version_content (r : VersionRow) : Content :=
  Build_Content (vr_organization r) (vr_digest r) (vr_private r) (vr_manifest r)
    (vr_publisher_assessment r) (vr_assessment r) (vr_server_evidence r) (vr_sbom r)
    (vr_provenance r).

Section runs.
Context {SV : Semver} {RO : RowOrder}.
(** The limit on an organization's undecided stages. *)
Context (maximum : Z).

(** One transaction that commits. The stage a decision is made about has been read
    from the database before, so that it agrees with its row but for the status. A
    version is withdrawn in statements that may have seen earlier databases, of which
    all that is used is that no version is ever deleted. *)
Inductive transaction : DB → DB → Prop :=
  | step_create now s k e d b d' :
      st_status s = "staged" → create_stage now s k e maximum d = Ok (b, d') → transaction d d'
  | step_decide now s approve reason k e d b d' r :
      stages d !! st_id s = Some r → set_status "" (stage r) = set_status "" s →
      decide_stage now s approve reason k e d = Ok (b, d') → transaction d d'
  | step_revoke now name ver status reason actor at_ sig key k e seen tagged d b d' :
      status = "quarantined" ∨ status = "revoked" →
      dom (versions seen) ⊆ dom (versions d) →
      revoke_version now name ver status reason actor at_ sig key k e seen tagged d = Ok (b, d') →
      transaction d d'
  | step_download name ver d d' : record_download name ver d = Ok d' → transaction d d'
  | step_bootstrap now org hash role d d' :
      bootstrap_token now org hash role d = Ok d' → transaction d d'
  | step_token hash org role expires kind d d' :
      insert_token hash org role expires kind d = Ok d' → transaction d d'
  | step_rate now subject bucket most window d b d' :
      consume_rate_limit now subject bucket most window d = Ok (b, d') → transaction d d'
  | step_prune cutoff d : transaction d (prune_rate_limits_before cutoff d).2
  | step_grant name owner principal role d d' :
      grant_package_role name owner principal role d = Ok d' → transaction d d'
  | step_invite hash org email role expires d d' :
      create_invitation hash org email role expires d = Ok d' → transaction d d'
  | step_uninvite now hash org d : transaction d (revoke_invitation now hash org d).2
  | step_accept now hash subject email d o d' :
      accept_invitation now hash subject email d = Ok (o, d') → transaction d d'
  | step_billing now id type payload d : transaction d (record_billing_event now id type payload d).2
  | step_retry now id d d' : retry_outbox now id d = Ok d' → transaction d d'.
(** Or one that marks an event as delivered or writes the event log. *)
Inductive step : DB → DB → Prop :=
  | step_transaction d d' : transaction d d' → step d d'
  | step_delivered now id d : step d (mark_outbox_delivered now id d)
  | step_events t d : step d (set_events t d).

Record inv (d : DB) : Prop := {
  inv_id id r : stages d !! id = Some r → st_id (stage r) = id;
  inv_unique id id' r r' :
    stages d !! id = Some r → stages d !! id' = Some r' → names_of r = names_of r' → id = id';
  inv_package id r : stages d !! id = Some r →
    ∃ p, packages d !! st_name (stage r) = Some p
         ∧ pk_organization p = st_organization (stage r) ∧ pk_private p = st_private (stage r);
  inv_status id r : stages d !! id = Some r →
    st_status (stage r) ∈ ["staged"; "approved"; "rejected"];
  inv_version nv row : versions d !! nv = Some row →
    ∃ id r, stages d !! id = Some r ∧ names_of r = nv ∧ st_status (stage r) = "approved"
            ∧ stage_content (stage r) = version_content row;
  inv_approved id r : stages d !! id = Some r → st_status (stage r) = "approved" →
    is_Some (versions d !! names_of r);
  inv_tags n t v : dist_tags d !! (n, t) = Some v →
    is_Some (versions d !! (n, v));
  inv_tombstone nv row : versions d !! nv = Some row →
    match tombstones d !! nv with
    | None => vr_status row = "active"
    | Some t => vr_status row = ts_status t ∧ vr_status row ∈ ["quarantined"; "revoked"]
    end;
  inv_tombstoned nv t : tombstones d !! nv = Some t → is_Some (versions d !! nv);
  inv_outbox : NoDup (ob_event_key <$> outbox d);
  inv_quota org : 0 < pending_stages org d → (Z.of_nat (pending_stages org d) ≤ maximum)%Z;
}.

(** Transactions that do not touch releases. *)
Definition same_releases (d d' : DB) : Prop :=
  packages d' = packages d ∧ stages d' = stages d ∧ versions d' = versions d
  ∧ dist_tags d' = dist_tags d ∧ tombstones d' = tombstones d
  ∧ ob_event_key <$> outbox d' = ob_event_key <$> outbox d.
Lemma inv_same d d' : same_releases d d' → inv d → inv d'.
Proof.
  intros (Ep & Es & Ev & Et & Em & Eo) [].
  split; unfold pending_stages in *; rewrite ?Ep, ?Es, ?Ev, ?Et, ?Em, ?Eo; done.
Qed.
Lemma update_outbox_same id f d :
  (∀ r, ob_event_key (f r) = ob_event_key r) → same_releases d (update_outbox id f d).
Proof.
  intros Hf. unfold same_releases, update_outbox. simpl. repeat split.
  rewrite <- list_fmap_compose. apply list_fmap_ext. intros i r _. simpl. by case_decide.
Qed.
Lemma step_same d d' : step d d' →
  same_releases d d'
  ∨ (∃ name ver r, versions d !! (name, ver) = Some r
       ∧ d' = set_versions (<[(name, ver) := set_download_count (vr_download_count r + 1) r]> (versions d)) d)
  ∨ (∃ now s k e, st_status s = "staged" ∧ create_stage now s k e maximum d = Ok (true, d'))
  ∨ (∃ now s approve reason k e r, stages d !! st_id s = Some r
       ∧ set_status "" (stage r) = set_status "" s
       ∧ decide_stage now s approve reason k e d = Ok (true, d'))
  ∨ (∃ now name ver status reason actor at_ sig key k e seen tagged,
       ((status = "quarantined" ∨ status = "revoked") ∧ dom (versions seen) ⊆ dom (versions d))
       ∧ revoke_version now name ver status reason actor at_ sig key k e seen tagged d = Ok (true, d')).
Proof.
  assert (Hrefl : ∀ d, same_releases d d) by (by repeat split).
  intros H. destruct H as [d d' H|now id d|t d]; [|by left; apply update_outbox_same|by left].
  destruct H as
    [now s k e d b d' Hs H|now s ap reason k e d b d' r Hr Hs H
    |now name ver status reason actor at_ sig key k e seen tagged d b d' Hs Hsub H|name ver d d' H
    |now org hash role d d' H|hash org role expires kind d d' H|now su bu most window d b d' H
    |cutoff d|name owner principal role d d' H|hash org email role expires d d' H|now hash org d
    |now hash subject email d o d' H|now id type payload d|now id d d' H].
  - destruct b; [right; right; left; eauto 6|]. apply create_stage_false in H as ->. by left.
  - destruct b; [do 3 right; left; eauto 12|]. apply decide_stage_false in H as ->. by left.
  - destruct b; [do 4 right; eauto 22|]. apply revoke_version_false in H as ->. by left.
  - unfold record_download in H. destruct (versions d !! (name, ver)) as [r|] eqn:E.
    + apply bind_Ok in H as (_ & _ & [= <-]). right; left. eauto.
    + injection H as <-. by left.
  - left. by injection H as <-.
  - left. unfold insert_token in H. repeat (apply bind_Ok in H as (? & _ & H)). by injection H as <-.
  - left. unfold consume_rate_limit in H. apply bind_Ok in H as (? & _ & H). by injection H as _ <-.
  - by left.
  - left. unfold grant_package_role in H. repeat (apply bind_Ok in H as (? & _ & H)). by injection H as <-.
  - left. unfold create_invitation in H. repeat (apply bind_Ok in H as (? & _ & H)). by injection H as <-.
  - left. unfold revoke_invitation. destruct (invitations d !! hash); [|done]. by case_decide.
  - left. unfold accept_invitation in H. destruct (invitations d !! hash); [|by injection H as _ <-].
    case_decide; [|by injection H as _ <-]. repeat (apply bind_Ok in H as (? & _ & H)).
    by injection H as _ <-.
  - left. unfold record_billing_event. by destruct (billing_events d !! id).
  - left. unfold retry_outbox in H. apply bind_Ok in H as (? & _ & [= <-]). by apply update_outbox_same.
Qed.

(** *** The invariant is kept *)

Lemma pending_insert org id r (m : gmap string StageRow) :
  let P : string * StageRow → Prop :=
    λ '(_, r), st_organization (stage r) = org ∧ st_status (stage r) = "staged" in
  size (filter P (<[id := r]> m)) ≤
  (if decide (st_organization (stage r) = org ∧ st_status (stage r) = "staged") then 1 else 0)
  + size (filter P m).
Proof.
  intros P. rewrite map_filter_insert. change (P (id, r)) with
    (st_organization (stage r) = org ∧ st_status (stage r) = "staged").
  case_decide as H1; case_decide as H2; try done.
  - rewrite map_size_insert. destruct (filter P m !! id); cbn; lia.
  - simpl. apply map_subseteq_size. apply map_filter_subseteq_mono, delete_subseteq.
Qed.

Lemma inv_create now s k e d d' :
  st_status s = "staged" → create_stage now s k e maximum d = Ok (true, d') → inv d → inv d'.
Proof.
  intros Hst H I. apply create_stage_Ok in H as
    (Hq & Hk & Hid & Hnames & (p & Hp & Hpo & Hpv) & Hsub & Es & Ev & Et & Em & Eo).
  destruct I as [I1 I2 I3 I4 I5 I6 I7 I8 I9 I10 I11].
  split; rewrite ?Ev, ?Et, ?Em, ?Eo; try done.
  - intros id r. rewrite Es. intros [[<- <-]|[_ Hr]]%lookup_insert_Some; [done|by eapply I1].
  - intros id id' r r'. rewrite Es.
    intros [[<- <-]|[_ Hr]]%lookup_insert_Some [[<- <-]|[_ Hr']]%lookup_insert_Some Hn; try done.
    + exfalso. by eapply Hnames.
    + exfalso. by eapply Hnames.
    + by eapply I2.
  - intros id r. rewrite Es. intros [[<- <-]|[_ Hr]]%lookup_insert_Some; [by exists p|].
    destruct (I3 id r Hr) as (q & Hq' & ?). exists q. split; [|done]. by eapply lookup_weaken.
  - intros id r. rewrite Es. intros [[<- <-]|[_ Hr]]%lookup_insert_Some; [|by eapply I4].
    simpl. rewrite Hst. by left.
  - intros nv row Hrow. destruct (I5 nv row Hrow) as (id & r & Hr & ?). exists id, r.
    split; [|done]. rewrite Es, lookup_insert_ne; [done|]. congruence.
  - intros id r. rewrite Es. intros [[<- <-]|[_ Hr]]%lookup_insert_Some Ha; [|by eapply I6].
    simpl in Ha. congruence.
  - apply NoDup_app. split; [done|]. split; [set_solver|apply NoDup_singleton].
  - intros org Hpos.
    assert (Hle : pending_stages org d' ≤
      (if decide (st_organization s = org ∧ st_status s = "staged") then 1 else 0)
      + pending_stages org d).
    { unfold pending_stages. rewrite Es. apply pending_insert. }
    specialize (I11 org). case_decide as Ho; [destruct Ho as [<- _]; lia|lia].
Qed.
Lemma set_status_names status reason r : names_of (decided status reason r) = names_of r.
Proof. done. Qed.
Lemma set_status_content s s' : set_status "" s = set_status "" s' → stage_content s = stage_content s'.
Proof. intros H. exact (f_equal stage_content H). Qed.

Lemma inv_decide now s approve reason k e d d' r :
  stages d !! st_id s = Some r → set_status "" (stage r) = set_status "" s →
  decide_stage now s approve reason k e d = Ok (true, d') → inv d → inv d'.
Proof.
  intros Hr Hs H I. apply decide_stage_Ok in H as (r' & Hr' & Hst & Hk & Eo & Ep & Em & H).
  assert (r' = r) as -> by congruence. clear Hr'.
  assert (Hnm : names_of r = (st_name s, st_version s)).
  { exact (f_equal (λ x, (st_name x, st_version x)) Hs). }
  assert (Hc : stage_content s = stage_content (stage r)) by (symmetry; by apply set_status_content).
  set (status := if approve then "approved" else "rejected").
  assert (Es : stages d' = <[st_id s := decided status reason r]> (stages d)) by (by destruct approve; apply H).
  assert (Hlook : ∀ id q, stages d' !! id = Some q →
    (id = st_id s ∧ q = decided status reason r) ∨ (id ≠ st_id s ∧ stages d !! id = Some q)).
  { intros id q. rewrite Es. intros [[<- <-]|[? ?]]%lookup_insert_Some; auto. }
  destruct I as [I1 I2 I3 I4 I5 I6 I7 I8 I9 I10 I11].
  split.
  - intros id q [[-> ->]|[_ Hq]]%Hlook; [by apply (I1 _ _ Hr)|by eapply I1].
  - intros id id' q q' [[-> ->]|[Hn Hq]]%Hlook [[-> ->]|[Hn' Hq']]%Hlook; rewrite ?set_status_names;
      intros E; [done|exact (I2 _ _ _ _ Hr Hq' E)|exact (I2 _ _ _ _ Hq Hr E)|exact (I2 _ _ _ _ Hq Hq' E)].
  - rewrite Ep. intros id q [[-> ->]|[_ Hq]]%Hlook; [by apply (I3 _ _ Hr)|by eapply I3].
  - intros id q [[-> ->]|[_ Hq]]%Hlook; [|by eapply I4]. simpl.
    unfold status. destruct approve; set_solver.
  - intros nv row Hrow.
    assert (Hcase : (approve = true ∧ nv = (st_name s, st_version s) ∧ row = new_version now s)
                    ∨ versions d !! nv = Some row).
    { destruct approve; [|right; by rewrite <- (proj1 (proj2 H))]. destruct H as (_ & _ & Ev & _).
      rewrite Ev in Hrow. apply lookup_insert_Some in Hrow as [[<- <-]|[_ Hrow]]; auto. }
    destruct Hcase as [(-> & -> & ->)|Hold].
    + exists (st_id s), (decided status reason r). rewrite Es, lookup_insert_eq.
      split; [done|]. split; [done|]. split; [done|]. exact (eq_sym Hc).
    + destruct (I5 nv row Hold) as (id & q & Hq & ? & Ha & ?). exists id, q. split; [|done].
      rewrite Es, lookup_insert_ne; [done|]. intros <-. assert (q = r) as -> by congruence. congruence.
  - intros id q Hq Ha. assert (Hsub : ∀ nv, is_Some (versions d !! nv) → is_Some (versions d' !! nv)).
    { intros nv Hv. destruct approve.
      - destruct H as (_ & _ & -> & _). rewrite lookup_insert_is_Some'. by right.
      - by destruct H as (_ & -> & _). }
    apply Hlook in Hq as [[-> ->]|[_ Hq]]; [|by eapply Hsub, I6].
    destruct approve; [|done]. destruct H as (_ & _ & -> & _).
    rewrite set_status_names, Hnm, lookup_insert_eq. done.
  - intros n t v Hv. destruct approve.
    + destruct H as (Hnone & _ & Ev & Et). rewrite Ev. rewrite Et in Hv.
      apply lookup_insert_Some in Hv as [[[= <- <-] <-]|[_ Hv]].
      * rewrite lookup_insert_eq. by eexists.
      * rewrite lookup_insert_is_Some'. right. by eapply I7.
    + destruct H as (_ & -> & Et). rewrite Et in Hv. by eapply I7.
  - rewrite Em. intros nv row Hrow. destruct approve; [|by apply I8; rewrite <- (proj1 (proj2 H))].
    destruct H as (Hnone & _ & Ev & _). rewrite Ev in Hrow.
    apply lookup_insert_Some in Hrow as [[<- <-]|[_ Hrow]]; [|by apply I8].
    destruct (tombstones d !! (st_name s, st_version s)) as [t|] eqn:Et; [|done].
    apply I9 in Et as [? Et]. congruence.
  - rewrite Em. intros nv t Ht. apply I9 in Ht. destruct approve.
    + destruct H as (_ & _ & -> & _). rewrite lookup_insert_is_Some'. by right.
    + by destruct H as (_ & -> & _).
  - rewrite Eo. apply NoDup_app. split; [done|]. split; [set_solver|apply NoDup_singleton].
  - intros org Hpos. assert (Hle : pending_stages org d' ≤ pending_stages org d).
    { unfold pending_stages. rewrite Es.
      pose proof (pending_insert org (st_id s) (decided status reason r) (stages d)) as Hle.
      simpl in Hle. rewrite decide_False in Hle; [done|]. unfold status. by destruct approve; intros [_ ?]. }
    specialize (I11 org). lia.
Qed.
Lemma inv_revoke now name ver status reason actor at_ sig key k e seen tagged d d' :
  (status = "quarantined" ∨ status = "revoked") ∧ dom (versions seen) ⊆ dom (versions d) →
  revoke_version now name ver status reason actor at_ sig key k e seen tagged d = Ok (true, d') →
  inv d → inv d'.
Proof.
  intros [Hstatus Hsub] H I. apply revoke_version_Ok in H as (r & Hr & Hk & Eo & Ep & Es & Ev & Em & Et).
  assert (Hlook : ∀ nv row, versions d' !! nv = Some row →
    (nv = (name, ver) ∧ row = set_version_status status r) ∨ (nv ≠ (name, ver) ∧ versions d !! nv = Some row)).
  { intros nv row. rewrite Ev. intros [[<- <-]|[? ?]]%lookup_insert_Some; auto. }
  assert (Hsome : ∀ nv, is_Some (versions d !! nv) → is_Some (versions d' !! nv)).
  { intros nv Hv. rewrite Ev, lookup_insert_is_Some'. by right. }
  destruct I as [I1 I2 I3 I4 I5 I6 I7 I8 I9 I10 I11].
  split; unfold pending_stages in *; rewrite ?Es, ?Ep, ?Eo; try done.
  - intros nv row [[-> ->]|[_ Hrow]]%Hlook; [|by apply I5]. apply (I5 _ _ Hr).
  - intros id q Hq Ha. by eapply Hsome, I6.
  - intros n t v. rewrite Et, retag_Some. intros (w & Hw & Hrb).
    case_decide as Hd; [|subst w; by eapply Hsome, I7].
    apply rollback_version_active in Hrb as (row & Hrow & _). destruct Hd as [-> _]. simpl in Hrow.
    apply lookup_insert_Some in Hrow as [[[= <-] _]|[_ Hrow]]; [apply Hsome; by exists r|].
    apply Hsome, elem_of_dom, Hsub, elem_of_dom. by exists row.
  - intros nv row [[-> ->]|[Hne Hrow]]%Hlook; rewrite Em.
    + rewrite lookup_insert_eq. simpl. split; [done|]. destruct Hstatus as [->| ->]; set_solver.
    + rewrite lookup_insert_ne by done. by apply I8.
  - intros nv t. rewrite Em. intros [[<- _]|[_ Ht]]%lookup_insert_Some; apply Hsome; [by exists r|by eapply I9].
  - apply NoDup_app. split; [done|]. split; [set_solver|apply NoDup_singleton].
Qed.
Lemma inv_download name ver d r n :
  versions d !! (name, ver) = Some r → inv d →
  inv (set_versions (<[(name, ver) := set_download_count n r]> (versions d)) d).
Proof.
  intros Hr I. destruct I as [I1 I2 I3 I4 I5 I6 I7 I8 I9 I10 I11].
  assert (Hlook : ∀ nv row, (<[(name, ver) := set_download_count n r]> (versions d)) !! nv = Some row →
    ∃ row', versions d !! nv = Some row' ∧ version_content row' = version_content row
            ∧ vr_status row' = vr_status row).
  { intros nv row [[<- <-]|[? ?]]%lookup_insert_Some; [by exists r|by exists row]. }
  split; simpl; try done.
  - intros nv row (row' & Hrow & <- & _)%Hlook. by apply I5.
  - intros id q Hq Ha. rewrite lookup_insert_is_Some'. right. by eapply I6.
  - intros m t v Hv. rewrite lookup_insert_is_Some'. right. by eapply I7.
  - intros nv row (row' & Hrow & _ & <-)%Hlook. by apply I8.
  - intros nv t Ht. rewrite lookup_insert_is_Some'. right. by eapply I9.
Qed.
Lemma inv_step d d' : step d d' → inv d → inv d'.
Proof.
  intros [H|[(n & v & r & Hr & ->)|[(now & s & k & e & Hs & H)|[(now & s & ap & reason & k & e & r & Hr & Hs & H)
    |(now & n & v & st & re & a & t & sg & key & k & e & seen & tagged & Hs & H)]]]]%step_same I.
  - by eapply inv_same.
  - by apply inv_download.
  - by eapply inv_create.
  - by eapply inv_decide.
  - by eapply inv_revoke.
Qed.
(** A step in which nothing else commits while a version is withdrawn: its statements
    all see the database it commits to. Every other withdrawal writes a tombstone. *)
Inductive serial : DB → DB → Prop :=
  | serial_revoke now name ver status reason actor at_ sig key k e d b d' :
      status = "quarantined" ∨ status = "revoked" →
      revoke_version now name ver status reason actor at_ sig key k e d d d = Ok (b, d') → serial d d'
  | serial_step d d' : step d d' → tombstones d' = tombstones d → serial d d'.
Definition tags_active (d : DB) : Prop :=
  ∀ n t v, dist_tags d !! (n, t) = Some v →
    ∃ row, versions d !! (n, v) = Some row ∧ vr_status row = "active".
Lemma serial_is_step d d' : serial d d' → step d d'.
Proof. intros [now name ver st re ac at_ sig key k e d1 b d2 Hs H|]; [|done].
  by eapply step_transaction, step_revoke. Qed.
Lemma tags_revoke now name ver status reason actor at_ sig key k e seen tagged d d' :
  revoke_version now name ver status reason actor at_ sig key k e seen tagged d = Ok (true, d') →
  tags_active d → (seen = d ∧ tagged = d ∨ ∀ t, dist_tags d !! (name, t) ≠ Some ver) → tags_active d'.
Proof.
  intros H T Hcase n t v.
  apply revoke_version_Ok in H as (r & Hr & _ & _ & _ & _ & Ev & _ & Et). rewrite Et.
  rewrite retag_Some. intros (w & Hw & Hrb). case_decide as Hd.
  - destruct Hcase as [[-> ->]|Hno]; [|destruct Hd as (-> & -> & _); by destruct (Hno t)].
    destruct Hd as [-> _]. apply rollback_version_active in Hrb as (row & Hrow & Ha).
    exists row. by rewrite Ev.
  - subst w. destruct (T n t v Hw) as (row & Hrow & Hact). exists row. split; [|done].
    rewrite Ev, lookup_insert_ne; [done|]. intros [= <- <-].
    destruct Hcase as [[_ ->]|Hno]; [by apply Hd|by destruct (Hno t)].
Qed.
Lemma tags_step d d' : serial d d' → inv d → tags_active d → tags_active d'.
Proof.
  intros [now name ver st re ac at_ sig key k e d1 b d2 Hs H|d1 d2 Hstep Htomb] I T.
  { destruct b; [eapply tags_revoke; eauto|by apply revoke_version_false in H as ->]. }
  apply step_same in Hstep as [H|[(n & v & r & Hr & ->)|[(now & s & k & e & Hs & H)
    |[(now & s & ap & reason & k & e & r & Hr & Hs & H)
    |(now & n & v & st & re & a & t & sg & key & k & e & seen & tagged & Hs & H)]]]].
  - destruct H as (_ & _ & Ev & Et & _). unfold tags_active. by rewrite Ev, Et.
  - intros m t w Hw. simpl. destruct (T m t w Hw) as (row & Hrow & Ha).
    destruct (decide ((n, v) = (m, w))) as [E|Hne].
    + rewrite E in *. rewrite lookup_insert_eq. eexists. split; [done|]. simpl. congruence.
    + rewrite lookup_insert_ne by done. by exists row.
  - apply create_stage_Ok in H as (_ & _ & _ & _ & _ & _ & _ & Ev & Et & _).
    unfold tags_active. by rewrite Ev, Et.
  - apply decide_stage_Ok in H as (? & _ & _ & _ & _ & _ & _ & H). destruct ap.
    + destruct H as (Hnone & _ & Ev & Et). intros m t w. rewrite Ev, Et.
      intros [[[= <- <-] <-]|[_ Hw]]%lookup_insert_Some; [rewrite lookup_insert_eq; by eexists|].
      destruct (T m t w Hw) as (row & Hrow & Ha). exists row. split; [|done].
      rewrite lookup_insert_ne; [done|]. congruence.
    + destruct H as (_ & Ev & Et). unfold tags_active. by rewrite Ev, Et.
  - pose proof H as (r & Hr & _ & _ & _ & _ & _ & Em & _)%revoke_version_Ok.
    eapply tags_revoke; [exact H|done|right]. intros tag Htag.
    destruct (T _ _ _ Htag) as (row & Hrow & Ha). pose proof (inv_tombstone _ I _ _ Hrow) as Hts.
    rewrite <- Htomb, Em, lookup_insert_eq in Hts. destruct Hts as [_ Hin]. rewrite Ha in Hin.
    by apply (bool_decide_eq_true_2 _) in Hin.
Qed.
Lemma inv_empty : inv empty_db.
Proof.
  split; simpl; try (intros; exfalso;
    match goal with H : ∅ !! _ = Some _ |- _ => by rewrite lookup_empty in H end).
  - constructor.
  - intros org. unfold pending_stages. simpl. rewrite map_filter_empty, map_size_empty. lia.
Qed.
End runs.

(** ** The life of a release *)

(** What a name and version can be, and how it changes: once published its content
    is fixed, and once withdrawn or rejected it stays so. *)
Inductive Release :=
  | Unseen
  | Pending (c : Content)
  | Rejected (c : Content)
  | Published (c : Content)
  | Withdrawn (c : Content).
Inductive lifecycle : Release → Release → Prop :=
  | life_stage c : lifecycle Unseen (Pending c)
  | life_approve c : lifecycle (Pending c) (Published c)
  | life_reject c : lifecycle (Pending c) (Rejected c)
  | life_withdraw c : lifecycle (Published c) (Withdrawn c).

Definition stage_named (d : DB) (nv : string * string) : option StageRow :=
  snd <$> head (filter (λ '(_, r), names_of r = nv) (map_to_list (stages d))).
Definition release_of (d : DB) (nv : string * string) : Release :=
  match versions d !! nv with
  | Some row =>
      if decide (vr_status row = "active") then Published (version_content row)
      else Withdrawn (version_content row)
  | None =>
      match stage_named d nv with
      | Some r => if decide (st_status (stage r) = "rejected") then Rejected (stage_content (stage r))
                  else Pending (stage_content (stage r))
      | None => Unseen
      end
  end.

Section life.
Context {SV : Semver} {RO : RowOrder} (maximum : Z).

Lemma stage_named_Some d nv r :
  inv maximum d →
  stage_named d nv = Some r ↔ ∃ id, stages d !! id = Some r ∧ names_of r = nv.
Proof.
  intros I. unfold stage_named. split.
  - intros ([id r'] & Hh & ->)%fmap_Some. exists id. simpl.
    destruct (filter _ _) as [|e l] eqn:E; [done|]. simpl in Hh. injection Hh as ->.
    assert (Hin : (id, r') ∈ filter (λ '(_, r), names_of r = nv) (map_to_list (stages d))).
    { rewrite E. by left. }
    apply list_elem_of_filter in Hin as [? ?%elem_of_map_to_list]. done.
  - intros (id & Hr & Hn).
    assert (Hin : (id, r) ∈ filter (λ '(_, r), names_of r = nv) (map_to_list (stages d))).
    { apply list_elem_of_filter. by rewrite elem_of_map_to_list. }
    destruct (filter _ _) as [|[id' r'] l] eqn:E; [by apply not_elem_of_nil in Hin|].
    simpl. assert (Hin' : (id', r') ∈ filter (λ '(_, r), names_of r = nv) (map_to_list (stages d))).
    { rewrite E. by left. }
    apply list_elem_of_filter in Hin' as [Hn' Hr'%elem_of_map_to_list].
    assert (id' = id) as -> by (eapply (inv_unique _ _ I); [done..|congruence]). congruence.
Qed.
Lemma stage_named_ext d d' nv :
  inv maximum d → inv maximum d' →
  (∀ id r, names_of r = nv → stages d' !! id = Some r ↔ stages d !! id = Some r) →
  stage_named d' nv = stage_named d nv.
Proof.
  intros I I' H. apply option_eq. intros r. rewrite !stage_named_Some by done. naive_solver.
Qed.

Lemma release_create now s k e d d' :
  st_status s = "staged" → create_stage now s k e maximum d = Ok (true, d') → inv maximum d →
  let nv := (st_name s, st_version s) in
  lifecycle (release_of d nv) (release_of d' nv)
  ∧ ∀ nv', nv' ≠ nv → release_of d' nv' = release_of d nv'.
Proof.
  intros Hst H I nv. assert (I' : inv maximum d') by by eapply inv_create.
  apply create_stage_Ok in H as (_ & _ & Hid & Hnames & _ & _ & Es & Ev & _).
  assert (Hv : versions d !! nv = None).
  { destruct (versions d !! nv) eqn:E; [|done].
    destruct (inv_version _ _ I _ _ E) as (id & r & Hr & Hn & _). by destruct (Hnames id r Hr). }
  assert (Hold : stage_named d nv = None).
  { destruct (stage_named d nv) as [r|] eqn:E; [|done].
    apply stage_named_Some in E as (id & Hr & Hn); [|done]. by destruct (Hnames id r Hr). }
  assert (Hnew : stage_named d' nv = Some {| stage := s; decision_reason := None |}).
  { apply stage_named_Some; [done|]. exists (st_id s). by rewrite Es, lookup_insert_eq. }
  unfold release_of. rewrite Ev, Hv, Hold, Hnew. simpl. split.
  - rewrite decide_False by congruence. constructor.
  - intros nv' Hne. rewrite (stage_named_ext d d' nv') by (done || (intros id r Hn; rewrite Es,
      lookup_insert_Some; split; [intros [[<- <-]|[_ ?]]; [done|done]
                                 |intros Hr; right; split; [congruence|done]])). done.
Qed.
Lemma release_decide now s approve reason k e d d' r :
  stages d !! st_id s = Some r → set_status "" (stage r) = set_status "" s →
  decide_stage now s approve reason k e d = Ok (true, d') → inv maximum d →
  let nv := (st_name s, st_version s) in
  lifecycle (release_of d nv) (release_of d' nv)
  ∧ ∀ nv', nv' ≠ nv → release_of d' nv' = release_of d nv'.
Proof.
  intros Hr Hs H I nv. assert (I' : inv maximum d') by by eapply inv_decide.
  apply decide_stage_Ok in H as (r' & Hr' & Hst & _ & _ & _ & _ & H).
  assert (r' = r) as -> by congruence. clear Hr'.
  assert (Hnm : names_of r = nv) by exact (f_equal (λ x, (st_name x, st_version x)) Hs).
  assert (Hc : stage_content (stage r) = stage_content s) by (by apply set_status_content).
  assert (Hv : versions d !! nv = None).
  { destruct (versions d !! nv) eqn:E; [|done].
    destruct (inv_version _ _ I _ _ E) as (id & q & Hq & Hn & Ha & _).
    assert (id = st_id s) as -> by (eapply (inv_unique _ _ I); [done..|congruence]). congruence. }
  assert (Hold : stage_named d nv = Some r) by (apply stage_named_Some; eauto).
  assert (Hext : ∀ status, stages d' = <[st_id s := decided status reason r]> (stages d) →
    ∀ nv', nv' ≠ nv → stage_named d' nv' = stage_named d nv').
  { intros status Es nv' Hne. apply stage_named_ext; [done..|]. intros id q Hn.
    rewrite Es, lookup_insert_Some. split.
    - intros [[<- <-]|[_ ?]]; [|done]. destruct Hne. by rewrite <- Hn, set_status_names.
    - intros Hq. right. split; [|done]. intros <-. congruence. }
  unfold release_of. rewrite Hv, Hold, decide_False by congruence. destruct approve.
  - destruct H as (_ & Es & Ev & _). rewrite Ev. split.
    + rewrite lookup_insert_eq. simpl. rewrite Hc. constructor.
    + intros nv' Hne. rewrite lookup_insert_ne by done. by rewrite (Hext _ Es nv' Hne).
  - destruct H as (Es & Ev & _). rewrite Ev. split.
    + rewrite Hv. assert (stage_named d' nv = Some (decided "rejected" reason r)) as ->.
      { apply stage_named_Some; [done|]. exists (st_id s). by rewrite Es, lookup_insert_eq. }
      rewrite decide_True by done. constructor.
    + intros nv' Hne. by rewrite (Hext _ Es nv' Hne).
Qed.
Lemma release_revoke now name ver status reason actor at_ sig key k e seen tagged d d' :
  status = "quarantined" ∨ status = "revoked" →
  revoke_version now name ver status reason actor at_ sig key k e seen tagged d = Ok (true, d') →
  let nv := (name, ver) in
  (release_of d' nv = release_of d nv ∨ lifecycle (release_of d nv) (release_of d' nv))
  ∧ ∀ nv', nv' ≠ nv → release_of d' nv' = release_of d nv'.
Proof.
  intros Hstatus H nv. apply revoke_version_Ok in H as (r & Hr & _ & _ & _ & Es & Ev & _).
  unfold release_of, stage_named. rewrite Ev, Es. split.
  - unfold nv. rewrite lookup_insert_eq, Hr. simpl.
    rewrite (decide_False (P := status = "active")) by (by destruct Hstatus as [->| ->]).
    case_decide; [right; constructor|by left].
  - intros nv' Hne. by rewrite lookup_insert_ne.
Qed.
Lemma release_step d d' :
  step maximum d d' → inv maximum d →
  ∃ nv, (release_of d' nv = release_of d nv ∨ lifecycle (release_of d nv) (release_of d' nv))
        ∧ ∀ nv', nv' ≠ nv → release_of d' nv' = release_of d nv'.
Proof.
  intros [H|[(n & v & r & Hr & ->)|[(now & s & k & e & Hs & H)|[(now & s & ap & reason & k & e & r & Hr & Hs & H)
    |(now & n & v & st & re & a & t & sg & key & k & e & seen & tagged & Hs & H)]]]]%step_same I.
  - destruct H as (_ & Es & Ev & _).
    exists ("", ""). unfold release_of, stage_named. rewrite Es, Ev. by split; [left|].
  - exists (n, v). unfold release_of, stage_named. simpl. rewrite lookup_insert_eq, Hr.
    split; [by left|]. intros nv' Hne. by rewrite lookup_insert_ne.
  - exists (st_name s, st_version s). destruct (release_create _ _ _ _ _ _ Hs H I). auto.
  - exists (st_name s, st_version s). destruct (release_decide _ _ _ _ _ _ _ _ _ Hr Hs H I). auto.
  - exists (n, v). destruct Hs as [Hs _]. by eapply release_revoke.
Qed.

Lemma reachable_inv d d' : rtc (step maximum) d d' → inv maximum d → inv maximum d'.
Proof. induction 1 as [|? ? ? Hs _ IH]; [done|]. intros I. by eapply IH, inv_step. Qed.

(** (C7) The control plane implements the life of a release. In every database
    reached by committed transactions, whatever their order, their arguments and the
    clock, a further transaction leaves every name and version as it is but for at
    most one, which makes a step of its life: staged once, then approved or rejected
    with the content it was staged with, and withdrawn after it was published. So a
    published content never changes, and what was withdrawn is never published
    again. *)
Theorem control_plane_refines d d' :
  rtc (step maximum) empty_db d → step maximum d d' →
  ∃ nv, (release_of d' nv = release_of d nv ∨ lifecycle (release_of d nv) (release_of d' nv))
        ∧ ∀ nv', nv' ≠ nv → release_of d' nv' = release_of d nv'.
Proof.
  intros Hr Hs. eapply release_step; [done|]. eapply reachable_inv; [done|apply inv_empty].
Qed.

(** What the runs without an overlapped withdrawal reach is reached by steps, and
    keeps the tags on active versions. *)
Lemma serial_reachable d d' :
  rtc (serial maximum) d d' → inv maximum d → tags_active d → tags_active d'.
Proof.
  induction 1 as [|d d1 d' Hs _ IH]; [done|]. intros I T.
  apply IH; [eapply inv_step; [by apply serial_is_step|done]|by eapply tags_step].
Qed.

(** (C8) What holds of the database at all times. Every version is the content of a
    stage that was approved, under the organization and the visibility of its package;
    every tag names a version of its package; a version is active exactly when it has
    no tombstone, and the tombstone has its status; names and versions are staged once;
    no event key is in the outbox twice; and no organization has more undecided stages
    than the limit. As long as nothing else commits while a version is withdrawn, every
    tag names a version that is active; overlapping withdrawals can leave one on a
    version that is withdrawn ([overlapping_withdrawals]). *)
Theorem control_plane_invariant d :
  rtc (step maximum) empty_db d →
  (∀ n v row, versions d !! (n, v) = Some row →
     (∃ id r, stages d !! id = Some r ∧ names_of r = (n, v) ∧ st_status (stage r) = "approved"
              ∧ stage_content (stage r) = version_content row)
     ∧ (∃ p, packages d !! n = Some p ∧ pk_organization p = vr_organization row
             ∧ pk_private p = vr_private row)
     ∧ (vr_status row = "active" ↔ tombstones d !! (n, v) = None)
     ∧ (∀ t, tombstones d !! (n, v) = Some t → ts_status t = vr_status row))
  ∧ (∀ n t v, dist_tags d !! (n, t) = Some v → is_Some (versions d !! (n, v)))
  ∧ (∀ id id' r r', stages d !! id = Some r → stages d !! id' = Some r' →
       names_of r = names_of r' → id = id')
  ∧ NoDup (ob_event_key <$> outbox d)
  ∧ (∀ org, 0 < pending_stages org d → (Z.of_nat (pending_stages org d) ≤ maximum)%Z)
  ∧ (rtc (serial maximum) empty_db d →
     ∀ n t v, dist_tags d !! (n, t) = Some v →
       ∃ row, versions d !! (n, v) = Some row ∧ vr_status row = "active").
Proof.
  intros Hr. assert (I : inv maximum d) by (eapply reachable_inv; [done|apply inv_empty]).
  split; [|split; [apply I|split; [apply I|split; [apply I|split; [apply I|]]]]].
  2: { intros Hs. apply (serial_reachable _ _ Hs); [apply inv_empty|]. intros ? ? ? Ht. simpl in Ht. by rewrite lookup_empty in Ht. }
  intros n v row Hrow. pose proof (inv_version _ _ I _ _ Hrow) as (id & r & Hst & Hn & Ha & Hc).
  split; [eauto 10|]. split.
  - destruct (inv_package _ _ I _ _ Hst) as (p & Hp & Ho & Hv).
    injection Hn as Hn1 Hn2. exists p. rewrite <- Hn1. split; [done|].
    split; [rewrite Ho; exact (f_equal c_organization Hc)|rewrite Hv; exact (f_equal c_private Hc)].
  - pose proof (inv_tombstone _ _ I _ _ Hrow) as Ht.
    destruct (tombstones d !! (n, v)) as [t|]; [|by split; [|intros ? [=]]].
    destruct Ht as [Ht Hin]. split; [|intros ? [= <-]; done]. split; [|done].
    intros E. rewrite E in Hin. by apply (bool_decide_eq_true_2 _) in Hin.
Qed.
End life.

(** ** A run *)
Section example.
#[local] Instance list_order : RowOrder := {| rows A l := l; rows_perm A l := reflexivity l |}.
#[local] Existing Instance toy_semver.

Definition demo_stage : StageRecord :=
  Build_StageRecord "id1" "acme" "demo" "1.0.0" "latest" "abc" "staged" false (JObject []) JNull
    JNull JNull JNull JNull 100.
(** The organization is created, a release staged and approved. *)
Definition demo_org : DB := match bootstrap_token 1 "acme" "hash" "admin" empty_db with Ok d => d | Err _ => empty_db end.
Definition demo_staged : DB :=
  match create_stage 100 demo_stage "stage.created:id1" JNull 100 demo_org with
  | Ok (_, d) => d | Err _ => empty_db end.
Definition demo_published : DB :=
  match decide_stage 200 demo_stage true None "stage.approved:id1" JNull demo_staged with
  | Ok (_, d) => d | Err _ => empty_db end.
Lemma demo_step_org : step 100 empty_db demo_org.
Proof. apply step_transaction, (step_bootstrap _ 1 "acme" "hash" "admin"). reflexivity. Qed.
Lemma demo_step_stage : step 100 demo_org demo_staged.
Proof. apply step_transaction, (step_create _ 100 demo_stage "stage.created:id1" JNull _ true); vm_compute; reflexivity. Qed.
Lemma demo_step_approve : step 100 demo_staged demo_published.
Proof.
  apply step_transaction, (step_decide _ 200 demo_stage true None "stage.approved:id1" JNull _ true _
    {| stage := demo_stage; decision_reason := None |}); vm_compute; reflexivity.
Qed.

Lemma control_plane_refines_witness :
  rtc (step 100) empty_db demo_staged ∧ step 100 demo_staged demo_published
  ∧ release_of demo_published ("demo", "1.0.0") = Published (stage_content demo_stage)
  ∧ ∃ nv, (release_of demo_published nv = release_of demo_staged nv
           ∨ lifecycle (release_of demo_staged nv) (release_of demo_published nv))
          ∧ ∀ nv', nv' ≠ nv → release_of demo_published nv' = release_of demo_staged nv'.
Proof.
  assert (rtc (step 100) empty_db demo_staged) as Hr.
  { eapply rtc_l; [apply demo_step_org|]. apply rtc_once, demo_step_stage. }
  split; [exact Hr|]. split; [exact demo_step_approve|]. split; [reflexivity|].
  exact (control_plane_refines 100 demo_staged demo_published Hr demo_step_approve).
Defined.
Lemma demo_serial : rtc (serial 100) empty_db demo_published.
Proof.
  eapply rtc_l; [apply serial_step; [apply demo_step_org|done]|].
  eapply rtc_l; [apply serial_step; [apply demo_step_stage|done]|].
  apply rtc_once, serial_step; [apply demo_step_approve|done].
Qed.
Lemma control_plane_invariant_witness :
  rtc (step 100) empty_db demo_published ∧ rtc (serial 100) empty_db demo_published
  ∧ is_Some (versions demo_published !! ("demo", "1.0.0"))
  ∧ ∃ row, versions demo_published !! ("demo", "1.0.0") = Some row ∧ vr_status row = "active".
Proof.
  assert (rtc (step 100) empty_db demo_published) as Hr.
  { eapply rtc_l; [apply demo_step_org|]. eapply rtc_l; [apply demo_step_stage|].
    apply rtc_once, demo_step_approve. }
  split; [exact Hr|]. split; [exact demo_serial|].
  destruct (control_plane_invariant 100 demo_published Hr) as (_ & Hex & _ & _ & _ & Hact).
  split; [exact (Hex "demo" "latest" "1.0.0" eq_refl)|].
  exact (Hact demo_serial "demo" "latest" "1.0.0" eq_refl).
Defined.

(** Two versions of a package are withdrawn at once. The transaction that withdraws
    the newer one has read the active versions before the one that withdraws the older
    one commits, and points the tag at it: the tag is left on a withdrawn version. *)
Definition demo_stage2 : StageRecord :=
  Build_StageRecord "id2" "acme" "demo" "1.1.0" "latest" "abd" "staged" false (JObject []) JNull
    JNull JNull JNull JNull 210.
Definition demo_both : DB :=
  match create_stage 210 demo_stage2 "stage.created:id2" JNull 100 demo_published with
  | Ok (_, d) => match decide_stage 220 demo_stage2 true None "stage.approved:id2" JNull d with
                 | Ok (_, d) => d | Err _ => empty_db end
  | Err _ => empty_db end.
Definition demo_withdraw (ver : string) (seen tagged d : DB) : result db_error (bool * DB) :=
  revoke_version 300 "demo" ver "revoked" "stolen key" "acme" 300 "sig" "key"
    ("version.revoked:demo@" +:+ ver) JNull seen tagged d.
Example overlapping_withdrawals :
  match demo_withdraw "1.0.0" demo_both demo_both demo_both with
  | Ok (true, d) =>
      match demo_withdraw "1.1.0" demo_both d d with
      | Ok (true, d') =>
          dist_tags demo_both !! ("demo", "latest") = Some "1.1.0"
          ∧ dist_tags d' !! ("demo", "latest") = Some "1.0.0"
          ∧ vr_status <$> versions d' !! ("demo", "1.0.0") = Some "revoked"
      | _ => False
      end
  | _ => False
  end.
Proof. vm_compute. done. Qed.
(** One after the other, they leave no tag. *)
Example withdrawals_in_turn :
  match demo_withdraw "1.0.0" demo_both demo_both demo_both with
  | Ok (true, d) => match demo_withdraw "1.1.0" d d d with
                    | Ok (true, d') => dist_tags d' !! ("demo", "latest") = None
                    | _ => False end
  | _ => False
  end.
Proof. vm_compute. done. Qed.
(** A version is withdrawn with one status once: the second time its event key is
    in the outbox already, and the transaction fails. *)
Definition demo_revoke (d : DB) : result db_error (bool * DB) := demo_withdraw "1.0.0" d d d.
Example second_revocation_fails :
  match demo_revoke demo_published with
  | Ok (true, d) => demo_revoke d = Err (UniqueViolation "registry_outbox")
  | _ => False
  end.
Proof. vm_compute. reflexivity. Qed.
(** A rejected version cannot be staged again. *)
Example rejected_stays_rejected :
  match decide_stage 200 demo_stage false None "stage.rejected:id1" JNull demo_staged with
  | Ok (true, d) =>
      create_stage 300 (Build_StageRecord "id2" "acme" "demo" "1.0.0" "latest" "def" "staged" false
        (JObject []) JNull JNull JNull JNull JNull 300) "stage.created:id2" JNull 100 d
      = Err (UniqueViolation "stages")
  | _ => False
  end.
Proof. vm_compute. reflexivity. Qed.
End example.
