(* ===== verification/Objects.v ===== *)
(** * oath-registry: artifact storage ([object_backend.rs])

    Object stores as maps from paths to bytes with faults, the artifact store made of
    a primary and replicas, and its choice from the environment. The stores themselves
    (a directory, S3, GCS, Azure) are the [object_store] library's. *)
From S2P Require Export Transparency.

(** ** Stores

    What the registry uses of [object_store]: a conditional put and a get. A put that
    fails may have stored the object all the same. *)
Inductive PutFault := NotStored | StoredAnyway.
Record Store := {
  blobs : gmap string string;
  put_fault : string → option PutFault;
  get_fault : string → bool;
}.
Inductive StoreError := AlreadyExists | NotFound | Unavailable.
#[export] Instance StoreError_eq_dec : EqDecision StoreError.
Proof. solve_decision. Defined.

Definition with_blobs (s : Store) (b : gmap string string) : Store :=
  {| blobs := b; put_fault := put_fault s; get_fault := get_fault s |}.
(** [put_opts] with [PutMode::Create] *)
Definition put_create (s : Store) (path bytes : string) : result StoreError unit * Store :=
  let stored := match blobs s !! path with
                | Some _ => s
                | None => with_blobs s (<[path := bytes]> (blobs s))
                end in
  match put_fault s path with
  | Some NotStored => (Err Unavailable, s)
  | Some StoredAnyway => (Err Unavailable, stored)
  | None => (if decide (blobs s !! path = None) then Ok tt else Err AlreadyExists, stored)
  end.
Definition store_get (s : Store) (path : string) : result StoreError string :=
  if get_fault s path then Err Unavailable else ok_or (blobs s !! path) NotFound.

(** [ObjectPath::from] escapes some characters; a hexadecimal digest has none. *)
Class ObjectPaths := {
  object_path : string → string;
  object_path_hex s : Forall (λ a, is_hex a = true) (chars s) → object_path s = s;
}.

(** ** The artifact store *)

Record ArtifactStore := { primary : Store; replicas : list Store }.
Definition store_text (e : StoreError) : string :=
  match e with
  | AlreadyExists => "object already exists"
  | NotFound => "object not found"
  | Unavailable => "object store unavailable"
  end.

Definition put_one (s : Store) (path bytes : string) : result string unit * Store :=
  match put_create s path bytes with
  | (Ok _, s) => (Ok tt, s)
  | (Err AlreadyExists, s) =>
      match store_get s path with
      | Ok existing =>
          (ensure (bool_decide (existing = bytes)) "immutable object digest collision", s)
      | Err e => (Err (store_text e), s)
      end
  | (Err e, s) => (Err (store_text e), s)
  end.
(** The loop over the replicas; it stops at the first error. *)
Fixpoint put_replicas (l : list Store) (path bytes : string) : result string unit * list Store :=
  match l with
  | [] => (Ok tt, [])
  | s :: l =>
      match put_one s path bytes with
      | (Ok _, s) => let '(r, l) := put_replicas l path bytes in (r, s :: l)
      | (Err e, s) => (Err e, s :: l)
      end
  end.

Section artifacts.
Context {OP : ObjectPaths}.

Definition put_immutable (digest bytes : string) (a : ArtifactStore) :
    result string unit * ArtifactStore :=
  let path := object_path digest in
  match put_one (primary a) path bytes with
  | (Ok _, p) =>
      let '(r, l) := put_replicas (replicas a) path bytes in
      (r, {| primary := p; replicas := l |})
  | (Err e, p) => (Err e, {| primary := p; replicas := replicas a |})
  end.
(** The first replica that has the object. *)
Fixpoint find_replica (l : list Store) (path : string) : result string (option string) :=
  match l with
  | [] => Ok None
  | s :: l =>
      match store_get s path with
      | Ok bytes => Ok (Some bytes)
      | Err NotFound => find_replica l path
      | Err e => Err (store_text e)
      end
  end.
Definition fetch (digest : string) (a : ArtifactStore) : result string string * ArtifactStore :=
  let path := object_path digest in
  match store_get (primary a) path with
  | Ok bytes => (Ok bytes, a)
  | Err NotFound =>
      match find_replica (replicas a) path with
      | Ok (Some bytes) =>
          let '(r, p) := put_one (primary a) path bytes in
          ((λ _, bytes) <$> r, {| primary := p; replicas := replicas a |})
      | Ok None =>
          (Err ("artifact " +:+ digest +:+ " was not found in primary or replica stores"), a)
      | Err e => (Err e, a)
      end
  | Err e => (Err (store_text e), a)
  end.
End artifacts.

(** ** Configuration *)

Inductive ObjectBackendConfig :=
  | Local (root : string)
  | S3 (bucket : string) (endpoint : option string)
  | Gcs (bucket : string)
  | Azure (container : string).
#[export] Instance ObjectBackendConfig_eq_dec : EqDecision ObjectBackendConfig.
Proof. solve_decision. Defined.

Section config.
(** [std::env::var(name).ok()], and the path of the local replica when none is set
    ([with_extension]). *)
Context (env : string → option string) (replica_of : string → string).

Definition required (name : string) : result string string :=
  ok_or (env name) (name +:+ " is required").
Definition from_env (default_root : string) : result string ObjectBackendConfig :=
  let backend := default "local" (env "OATH_OBJECT_BACKEND") in
  if decide (backend = "local") then Ok (Local default_root)
  else if decide (backend = "s3" ∨ backend = "r2") then
    bucket ← required "OATH_OBJECT_BUCKET"; Ok (S3 bucket (env "OATH_OBJECT_ENDPOINT"))
  else if decide (backend = "gcs") then Gcs <$> required "OATH_OBJECT_BUCKET"
  else if decide (backend = "azure") then Azure <$> required "OATH_OBJECT_BUCKET"
  else Err ("unsupported object backend " +:+ backend).
(** The primary and the replica. *)
Definition artifact_store_from_env (default_root : string) :
    result string (ObjectBackendConfig * option ObjectBackendConfig) :=
  primary ← from_env default_root;
  match env "OATH_OBJECT_REPLICA_BACKEND" with
  | None => Ok (primary, None)
  | Some backend =>
      replica ←
        (if decide (backend = "local") then
           Ok (Local (default (replica_of default_root) (env "OATH_OBJECT_REPLICA_ROOT")))
         else if decide (backend = "s3" ∨ backend = "r2") then
           bucket ← required "OATH_OBJECT_REPLICA_BUCKET";
           Ok (S3 bucket (env "OATH_OBJECT_REPLICA_ENDPOINT"))
         else if decide (backend = "gcs") then Gcs <$> required "OATH_OBJECT_REPLICA_BUCKET"
         else if decide (backend = "azure") then Azure <$> required "OATH_OBJECT_REPLICA_BUCKET"
         else Err ("unsupported replica object backend " +:+ backend));
      Ok (primary, Some replica)
  end.
End config.

(** ** Stores only grow *)

Definition store_le (s t : Store) : Prop := blobs s ⊆ blobs t.
Definition artifacts_le (a b : ArtifactStore) : Prop :=
  store_le (primary a) (primary b) ∧ Forall2 store_le (replicas a) (replicas b).
#[export] Instance store_le_preorder : PreOrder store_le.
Proof. split; [intros s; by unfold store_le|intros s t u; unfold store_le; by etrans]. Qed.
#[export] Instance artifacts_le_preorder : PreOrder artifacts_le.
Proof.
  split; [intros a; by split|]. intros a b c [H1 H2] [H3 H4]. split; [by etrans|by etrans].
Qed.
(** All stores of an artifact store. *)
Definition stores (a : ArtifactStore) : list Store := primary a :: replicas a.
Definition no_fault (path : string) (s : Store) : Prop :=
  put_fault s path = None ∧ get_fault s path = false.
(** The store has no other content at the path. *)
Definition no_clash (path bytes : string) (s : Store) : Prop :=
  ∀ b, blobs s !! path = Some b → b = bytes.

Lemma put_create_spec s path bytes r s' :
  put_create s path bytes = (r, s') →
  store_le s s' ∧ (r = Ok tt → blobs s' !! path = Some bytes)
  ∧ (s' = s ∨ (blobs s !! path = None ∧ s' = with_blobs s (<[path := bytes]> (blobs s)))).
Proof.
  unfold put_create. destruct (blobs s !! path) as [b|] eqn:E.
  - destruct (put_fault s path) as [[]|]; intros [= <- <-]; (split; [done|split; [|by left]]);
      by rewrite ?decide_False by congruence.
  - assert (store_le s (with_blobs s (<[path := bytes]> (blobs s)))) by by apply insert_subseteq.
    destruct (put_fault s path) as [[]|]; intros [= <- <-]; (split; [done|]);
      (split; [|by auto]); try done.
    intros _. apply lookup_insert_eq.
Qed.
Lemma put_one_spec s path bytes r s' :
  put_one s path bytes = (r, s') →
  store_le s s' ∧ (r = Ok tt → blobs s' !! path = Some bytes)
  ∧ (s' = s ∨ (blobs s !! path = None ∧ s' = with_blobs s (<[path := bytes]> (blobs s))))
  ∧ (no_fault path s → no_clash path bytes s → r = Ok tt).
Proof.
  unfold put_one. destruct (put_create s path bytes) as [[u|e] s1] eqn:E;
    pose proof (put_create_spec _ _ _ _ _ E) as (Hle & Hok & Hs).
  - intros [= <- <-]. destruct u. naive_solver.
  - destruct e.
    + unfold store_get. destruct (get_fault s1 path) eqn:Eg.
      * intros [= <- <-]. split_and!; [done..|]. intros [Hp Hg] _.
        destruct Hs as [->|[_ ->]]; simpl in *; congruence.
      * destruct (blobs s1 !! path) as [b|] eqn:Eb; simpl; intros [= <- <-]; (split; [done|]).
        { split_and!; [|done|].
          - intros H%ensure_Ok%bool_decide_eq_true. by subst.
          - intros _ Hc. assert (s1 = s) as ->.
            { destruct Hs as [->|[Hn ->]]; [done|].
              unfold put_create in E. rewrite Hn in E. by destruct (put_fault s path) as [[]|]. }
            by rewrite bool_decide_eq_true_2 by auto. }
        { split_and!; [done..|]. intros _ _. exfalso.
          unfold put_create in E. destruct (blobs s !! path) eqn:Es.
          - destruct Hs as [->|[? _]]; congruence.
          - by destruct (put_fault s path) as [[]|]. }
    + intros [= <- <-]. split_and!; [done..|]. intros [Hp _] _. unfold put_create in E.
      rewrite Hp in E. by case_decide.
    + intros [= <- <-]. split_and!; [done..|]. intros [Hp _] _. unfold put_create in E.
      rewrite Hp in E. by case_decide.
Qed.
Lemma put_replicas_spec l path bytes r l' :
  put_replicas l path bytes = (r, l') →
  Forall2 store_le l l' ∧ (r = Ok tt → Forall (λ s, blobs s !! path = Some bytes) l')
  ∧ Forall2 (λ s s', s' = s ∨ (blobs s !! path = None
                               ∧ s' = with_blobs s (<[path := bytes]> (blobs s)))) l l'
  ∧ (Forall (no_fault path) l → Forall (no_clash path bytes) l → r = Ok tt).
Proof.
  revert r l'. induction l as [|s l IH]; intros r l'; simpl; [intros [= <- <-]; by auto|].
  destruct (put_one s path bytes) as [[u|e] s'] eqn:E;
    pose proof (put_one_spec _ _ _ _ _ E) as (Hle & Hok & Hs & Hf).
  - destruct (put_replicas l path bytes) as [r1 l1] eqn:El. intros [= <- <-].
    destruct (IH _ _ eq_refl) as (Hle' & Hok' & Hs' & Hf'). destruct u.
    split_and!; [by constructor|intros ->; constructor; auto|by constructor|].
    intros [? ?]%Forall_cons [? ?]%Forall_cons. auto.
  - intros [= <- <-]. split_and!; [by constructor|done| |].
    + constructor; [done|]. apply Forall_Forall2_diag, Forall_forall. by left.
    + intros [? ?]%Forall_cons [? ?]%Forall_cons. naive_solver.
Qed.

Section growth.
Context {SHA : Digest} {OP : ObjectPaths}.

Definition is_digest (path : string) : bool :=
  (String.length path =? 64) && forallb is_hex (chars path).
(** Every object stored under a digest has that digest. *)
Definition intact (s : Store) : Prop :=
  ∀ path b, blobs s !! path = Some b → is_digest path = true → sha256_hex b = path.
Definition artifacts_intact (a : ArtifactStore) : Prop := Forall intact (stores a).

Lemma object_path_digest b : object_path (sha256_hex b) = sha256_hex b.
Proof. apply object_path_hex, sha256_hex_digits. Qed.
Lemma with_blobs_intact s path bytes :
  intact s → (is_digest path = true → sha256_hex bytes = path) →
  intact (with_blobs s (<[path := bytes]> (blobs s))).
Proof. intros Hs Hb p b. simpl. intros [[<- <-]|[? ?]]%lookup_insert_Some; auto. Qed.

Lemma put_immutable_spec digest bytes a r a' :
  put_immutable digest bytes a = (r, a') →
  artifacts_le a a'
  ∧ (r = Ok tt → Forall (λ s, blobs s !! object_path digest = Some bytes) (stores a'))
  ∧ Forall2 (λ s s', s' = s ∨ (blobs s !! object_path digest = None
                  ∧ s' = with_blobs s (<[object_path digest := bytes]> (blobs s)))) (stores a) (stores a')
  ∧ (Forall (no_fault (object_path digest)) (stores a) →
     Forall (no_clash (object_path digest) bytes) (stores a) → r = Ok tt).
Proof.
  unfold put_immutable, stores. destruct (put_one _ _ _) as [[u|e] p] eqn:E;
    pose proof (put_one_spec _ _ _ _ _ E) as (Hle & Hok & Hs & Hf).
  - destruct (put_replicas _ _ _) as [r1 l] eqn:El. intros [= <- <-]. simpl.
    destruct (put_replicas_spec _ _ _ _ _ El) as (Hle' & Hok' & Hs' & Hf'). destruct u.
    split_and!; [done|intros ->; constructor; auto|by constructor|].
    intros [? ?]%Forall_cons [? ?]%Forall_cons. auto.
  - intros [= <- <-]. simpl. split_and!; [by split|done| |].
    + constructor; [done|]. apply Forall_Forall2_diag, Forall_forall. by left.
    + intros [? ?]%Forall_cons [? ?]%Forall_cons. naive_solver.
Qed.
Lemma find_replica_Some l path b :
  find_replica l path = Ok (Some b) → ∃ s, s ∈ l ∧ blobs s !! path = Some b.
Proof.
  induction l as [|s l IH]; simpl; [done|]. unfold store_get.
  destruct (get_fault s path); [done|]. destruct (blobs s !! path) eqn:E; simpl.
  - intros [= <-]. exists s. split; [set_solver|done].
  - intros (s' & ? & ?)%IH. exists s'. split; [set_solver|done].
Qed.
Lemma fetch_spec digest a r a' :
  fetch digest a = (r, a') →
  artifacts_le a a' ∧ (∀ bytes, r = Ok bytes → blobs (primary a') !! object_path digest = Some bytes)
  ∧ (artifacts_intact a → artifacts_intact a').
Proof.
  unfold fetch, store_get at 1.
  destruct (get_fault (primary a) _); [intros [= <- <-]; by naive_solver|].
  destruct (blobs (primary a) !! _) as [b|] eqn:Eb; simpl; [intros [= <- <-]; by naive_solver|].
  destruct (find_replica _ _) as [[b|]|e] eqn:Ef; [|intros [= <- <-]; by naive_solver..].
  destruct (put_one _ _ _) as [r1 p] eqn:E. intros [= <- <-]. simpl.
  pose proof (put_one_spec _ _ _ _ _ E) as (Hle & Hok & Hs & Hf).
  split_and!; [by split| |].
  - intros bytes ([] & -> & ->)%fmap_Ok. auto.
  - intros [Hp Hr]%Forall_cons. apply Forall_cons. simpl. split; [|done].
    destruct Hs as [->|[_ ->]]; [done|]. apply with_blobs_intact; [done|].
    apply find_replica_Some in Ef as (s & Hin & Hl). rewrite Forall_forall in Hr. by eapply Hr.
Qed.
Lemma put_immutable_intact bytes a r a' :
  put_immutable (sha256_hex bytes) bytes a = (r, a') → artifacts_intact a → artifacts_intact a'.
Proof.
  intros (_ & _ & H & _)%put_immutable_spec. unfold artifacts_intact.
  induction H as [|s s' l l' Hs _ IH]; [done|]. intros [? ?]%Forall_cons. apply Forall_cons.
  split; [|auto]. destruct Hs as [->|[_ ->]]; [done|]. apply with_blobs_intact; [done|].
  by rewrite object_path_digest.
Qed.
End growth.

Section artifacts_spec.
Context {SHA : Digest} {OP : ObjectPaths}.

Definition holds (path bytes : string) (s : Store) : Prop := blobs s !! path = Some bytes.

Lemma holds_clash path bytes l l' :
  Forall2 store_le l l' → Forall (holds path bytes) l' → Forall (no_clash path bytes) l.
Proof.
  induction 1 as [|s s' l l' Hs _ IH]; [done|]. intros [Hh ?]%Forall_cons.
  constructor; [|auto]. intros b Hb. pose proof (lookup_weaken _ _ _ _ Hb Hs) as Hb'.
  unfold holds in Hh. congruence.
Qed.
Lemma holds_le path bytes l l' :
  Forall2 store_le l l' → Forall (holds path bytes) l → Forall (holds path bytes) l'.
Proof.
  induction 1 as [|s s' l l' Hs _ IH]; [done|]. intros [Hh ?]%Forall_cons.
  constructor; [|auto]. by eapply lookup_weaken.
Qed.

(** (C23) Artifacts are immutable. Storing never changes or removes an object, also when
    it fails half way; when it succeeds, the primary and every replica hold the bytes;
    without faults it succeeds exactly when no store has other bytes under the digest.
    From then on, whatever else is stored and fetched, the artifact is fetched with the
    same bytes; and when the primary has lost it, a replica's copy is fetched and put
    back. Objects stored under a digest keep having that digest. *)
Theorem artifact_store_spec digest bytes a r a1 :
  put_immutable digest bytes a = (r, a1) →
  artifacts_le a a1
  ∧ (r = Ok tt → Forall (holds (object_path digest) bytes) (stores a1))
  ∧ (Forall (no_fault (object_path digest)) (stores a) →
     r = Ok tt ↔ Forall (no_clash (object_path digest) bytes) (stores a))
  ∧ (digest = sha256_hex bytes → artifacts_intact a → artifacts_intact a1)
  ∧ (r = Ok tt → ∀ a2, artifacts_le a1 a2 →
       get_fault (primary a2) (object_path digest) = false → fetch digest a2 = (Ok bytes, a2))
  ∧ (r = Ok tt → ∀ a2, Forall2 store_le (replicas a1) (replicas a2) → replicas a2 ≠ [] →
       Forall (no_fault (object_path digest)) (stores a2) →
       blobs (primary a2) !! object_path digest = None →
       ∃ a3, fetch digest a2 = (Ok bytes, a3) ∧ artifacts_le a2 a3
             ∧ Forall (holds (object_path digest) bytes) (stores a3)).
Proof.
  intros E. pose proof (put_immutable_spec _ _ _ _ _ E) as (Hle & Hok & _ & Hf).
  assert (Forall2 store_le (stores a) (stores a1)) as Hle' by (destruct Hle; by constructor).
  split; [done|]. split; [done|]. split; [|split; [|split]].
  - intros Hn. split; [|by auto]. intros Hr. eapply holds_clash; [done|]. by apply Hok.
  - intros ->. by eapply put_immutable_intact.
  - intros [Hp _]%Hok%Forall_cons a2 [Hle2 _] Hg. unfold fetch, store_get. rewrite Hg.
    by rewrite (lookup_weaken _ _ _ _ Hp Hle2).
  - intros [_ Hr]%Hok%Forall_cons a2 Hle2 Hne [[Hp Hg] Hfs]%Forall_cons Hnone.
    pose proof (holds_le _ _ _ _ Hle2 Hr) as Hr2.
    unfold fetch, store_get at 1. rewrite Hg, Hnone. simpl.
    destruct (replicas a2) as [|s l] eqn:El; [done|].
    apply Forall_cons in Hr2 as Hr2'. destruct Hr2' as [Hs _].
    apply Forall_cons in Hfs as [[_ Hgs] _]. simpl. unfold store_get. rewrite Hgs, Hs. simpl.
    destruct (put_one _ _ _) as [r1 p] eqn:E1.
    pose proof (put_one_spec _ _ _ _ _ E1) as (Hle1 & Hok1 & _ & Hf1).
    assert (r1 = Ok tt) as -> by (apply Hf1; [done|intros b; by rewrite Hnone]).
    eexists. split; [done|]. rewrite <- El. split; [by split|].
    unfold stores. simpl. rewrite El. constructor; [by apply Hok1|done].
Qed.

(** Fetching. What is fetched is what the primary holds afterwards, nothing is
    changed or removed, and objects stored under a digest keep having that digest: with
    intact stores the bytes fetched under the digest of an artifact have the digest of
    the artifact. *)
Theorem fetch_artifact_spec a digest r a1 :
  fetch digest a = (r, a1) →
  artifacts_le a a1
  ∧ (∀ bytes, r = Ok bytes → holds (object_path digest) bytes (primary a1))
  ∧ (artifacts_intact a → artifacts_intact a1
       ∧ ∀ artifact bytes, digest = sha256_hex artifact → r = Ok bytes →
           sha256_hex bytes = sha256_hex artifact).
Proof.
  intros (Hle & Hok & Hi)%fetch_spec. split; [done|]. split; [done|].
  intros Ha%Hi. split; [done|]. intros artifact bytes -> Hr%Hok.
  apply Forall_cons in Ha as [Ha _]. rewrite object_path_digest in Hr. eapply Ha; [done|].
  unfold is_digest. rewrite sha256_hex_length, Nat.eqb_refl. simpl.
  apply forallb_forall. intros x Hx%list_elem_of_In. pose proof (sha256_hex_digits artifact) as Hd.
  rewrite Forall_forall in Hd. by apply Hd.
Qed.
End artifacts_spec.

(** ** An instance *)

#[local] Existing Instance toy_digest.
#[local] Instance plain_paths : ObjectPaths := {| object_path s := s; object_path_hex s _ := eq_refl |}.
Definition demo_store (b : gmap string string) : Store :=
  {| blobs := b; put_fault _ := None; get_fault _ := false |}.
Definition demo_artifacts : ArtifactStore :=
  {| primary := demo_store ∅; replicas := [demo_store {["k" := "old"]}; demo_store ∅] |}.

Lemma artifact_store_spec_witness :
  ∃ r a1, put_immutable "d" "bytes" demo_artifacts = (r, a1)
    ∧ r = Ok tt ∧ Forall (holds "d" "bytes") (stores a1) ∧ fetch "d" a1 = (Ok "bytes", a1).
Proof.
  eexists _, _. split; [reflexivity|]. split; [reflexivity|].
  pose proof (artifact_store_spec "d" "bytes" demo_artifacts _ _ eq_refl) as (_ & H & _ & _ & Hf & _).
  split; [exact (H eq_refl)|]. refine (Hf eq_refl _ _ _); reflexivity.
Defined.
Lemma fetch_artifact_spec_witness :
  ∃ a1, fetch "k" demo_artifacts = (Ok "old", a1) ∧ holds "k" "old" (primary a1).
Proof.
  eexists. split; [reflexivity|].
  exact (proj1 (proj2 (fetch_artifact_spec demo_artifacts "k" _ _ eq_refl)) "old" eq_refl).
Defined.
(** Other bytes under the same digest are refused, and so is what is missing. *)
Example other_bytes_refused :
  (put_immutable "k" "new" demo_artifacts).1 = Err "immutable object digest collision".
Proof. reflexivity. Qed.
Example missing_artifact :
  (fetch "none" demo_artifacts).1 = Err "artifact none was not found in primary or replica stores".
Proof. reflexivity. Qed.
