(* ===== verification/Prog.v ===== *)
(** * Concurrent programs

    A program is a tree of atomic actions on a shared world; between two of its
    actions anything the environment does may happen. [wp] says what a program's own
    actions guarantee and what holds when it ends, whatever the environment does, and
    the theorems below carry it over to runs of one program among others ([exec]) and
    to any interleaving of any number of programs ([pool_step]). *)
From S2P Require Export Prelude.

Section prog.
Context {W E : Type}.

Inductive prog (A : Type) : Type :=
  | Ret (r : result E A)
  | Act {B : Type} (t : W → B * W) (k : B → prog A).
Arguments Ret {A} r.
Arguments Act {A B} t k.

#[global] Instance prog_ret : MRet prog := λ A a, Ret (Ok a).
#[global] Instance prog_bind : MBind prog := λ A B f,
  fix go p := match p with
              | Ret (Ok a) => f a
              | Ret (Err e) => Ret (Err e)
              | Act t k => Act t (λ b, go (k b))
              end.
#[global] Instance prog_fmap : FMap prog := λ A B f p, p ≫= λ a, mret (f a).
(** [match p { Ok(..) => .., Err(..) => .. }] *)
Fixpoint attempt {A} (p : prog A) : prog (result E A) :=
  match p with
  | Ret r => Ret (Ok r)
  | Act t k => Act t (λ b, attempt (k b))
  end.
Definition throw {A} (e : E) : prog A := Ret (Err e).
Definition lift {A} (r : result E A) : prog A := Ret r.
(** [if !b { return Err(e) }] *)
Definition check (b : bool) (e : E) : prog unit := if b then mret tt else throw e.
(** Reading the world. *)
Definition ask {B} (f : W → B) : prog B := Act (λ w, (f w, w)) (λ b, mret b).
(** An action that can fail. *)
Definition action {B} (t : W → result E B * W) : prog B := Act t (λ r, Ret r).

(** ** Runs among others *)

Context (env : W → W → Prop) `{!PreOrder env}.

(** A run from a world to a result and a world, with the program's own transitions. *)
Inductive exec {A} : prog A → W → list (W * W) → result E A → W → Prop :=
  | exec_ret r w w' : env w w' → exec (Ret r) w [] r w'
  | exec_act {B} (t : W → B * W) k w w1 b w2 tr r w' :
      env w w1 → t w1 = (b, w2) → exec (k b) w2 tr r w' →
      exec (Act t k) w ((w1, w2) :: tr) r w'.

(** Every own transition is in [G], and the result and the world satisfy [Q]. *)
Fixpoint wp {A} (G : W → W → Prop) (p : prog A) (w : W) (Q : result E A → W → Prop) : Prop :=
  match p with
  | Ret r => ∀ w', env w w' → Q r w'
  | Act t k => ∀ w1, env w w1 → G w1 (t w1).2 ∧ wp G (k (t w1).1) (t w1).2 Q
  end.

Lemma wp_sound {A} G (p : prog A) w Q tr r w' :
  wp G p w Q → exec p w tr r w' → Forall (λ '(w1, w2), G w1 w2) tr ∧ Q r w'.
Proof.
  intros Hwp Hx. revert Hwp. induction Hx as [r w w' Hw|B t k w w1 b w2 tr r w' Hw Ht _ IH].
  - intros H. split; [constructor|by apply H].
  - intros H. destruct (H w1 Hw) as [HG Hk]. rewrite Ht in *. destruct (IH Hk) as [? ?].
    split; [by constructor|done].
Qed.
Lemma wp_env {A} G (p : prog A) w w' Q : env w w' → wp G p w Q → wp G p w' Q.
Proof. destruct p; intros Hw H w1 Hw1; apply H; by etrans. Qed.
Lemma wp_mono {A} (G G' : W → W → Prop) (p : prog A) w (Q Q' : result E A → W → Prop) :
  (∀ w1 w2, G w1 w2 → G' w1 w2) → (∀ r w, Q r w → Q' r w) → wp G p w Q → wp G' p w Q'.
Proof.
  intros HG HQ. revert w. induction p as [r|B t k IH]; intros w H; simpl in *; [by auto|].
  intros w1 Hw1. destruct (H w1 Hw1) as [? ?]. auto.
Qed.
Lemma wp_assoc {A B C} G (p : prog A) (f : A → prog B) (g : B → prog C) w Q :
  wp G (p ≫= λ a, f a ≫= g) w Q → wp G ((p ≫= f) ≫= g) w Q.
Proof.
  revert w. induction p as [[a|e]|D t k IH]; intros w H; [done..|].
  intros w1 Hw1. destruct (H w1 Hw1) as [? ?]. split; [done|]. by apply IH.
Qed.
Lemma wp_fmap {A B} G (f : A → B) (p : prog A) w (Q : result E B → W → Prop) :
  wp G p w (λ r w', match r with Ok a => Q (Ok (f a)) w' | Err e => Q (Err e) w' end) →
  wp G (f <$> p) w Q.
Proof.
  revert w. induction p as [[a|e]|C t k IH]; intros w H; [done..|].
  intros w1 Hw1. destruct (H w1 Hw1) as [? ?]. split; [done|]. by apply IH.
Qed.
(** What the program does and what others do brings the world to a later one. *)
Lemma wp_later {A} (G : W → W → Prop) (p : prog A) w (Q : result E A → W → Prop) :
  (∀ w1 w2, G w1 w2 → env w1 w2) → wp G p w Q → wp G p w (λ r w', env w w' ∧ Q r w').
Proof.
  intros HG. revert w. induction p as [r|B t k IH]; intros w H; simpl in *.
  { intros w' Hw. split; [done|by apply H]. }
  intros w1 Hw1. destruct (H w1 Hw1) as [Ht Hk]. split; [done|].
  eapply wp_mono; [by intros ?? Hx; exact Hx| |by apply IH].
  intros r w' [? ?]. split; [|done]. etrans; [done|]. etrans; [by apply HG|done].
Qed.
Lemma wp_bind {A B} G (p : prog A) (f : A → prog B) w Q :
  wp G p w (λ r w', match r with Ok a => wp G (f a) w' Q | Err e => Q (Err e) w' end) →
  wp G (p ≫= f) w Q.
Proof.
  revert w. induction p as [[a|e]|C t k IH]; intros w H.
  - by apply H.
  - done.
  - intros w1 Hw1. destruct (H w1 Hw1) as [? ?]. split; [done|]. by apply IH.
Qed.
Lemma wp_attempt {A} G (p : prog A) w Q : wp G p w (λ r, Q (Ok r)) → wp G (attempt p) w Q.
Proof.
  revert w. induction p as [r|C t k IH]; intros w H; [done|].
  intros w1 Hw1. destruct (H w1 Hw1) as [? ?]. split; [done|]. by apply IH.
Qed.
Lemma wp_ret {A} G (a : A) w (Q : result E A → W → Prop) :
  (∀ w', env w w' → Q (Ok a) w') → wp G (mret a) w Q.
Proof. done. Qed.
Lemma wp_throw {A} G e w (Q : result E A → W → Prop) :
  (∀ w', env w w' → Q (Err e) w') → wp G (throw e) w Q.
Proof. done. Qed.
Lemma wp_check G b e w Q :
  (∀ w', env w w' → b = true → Q (Ok tt) w') → (∀ w', env w w' → b = false → Q (Err e) w') →
  wp G (check b e) w Q.
Proof. destruct b; intros H1 H2 w' Hw; auto. Qed.
Lemma wp_lift {A} G (r : result E A) w Q : (∀ w', env w w' → Q r w') → wp G (lift r) w Q.
Proof. done. Qed.
Lemma wp_ask {B} G (f : W → B) w Q :
  (∀ w1, env w w1 → G w1 w1) → (∀ w1 w2, env w w1 → env w1 w2 → Q (Ok (f w1)) w2) →
  wp G (ask f) w Q.
Proof. intros HG H w1 Hw1. split; [by apply HG|]. intros w2. by apply H. Qed.
Lemma wp_action {B} G (t : W → result E B * W) w Q :
  (∀ w1, env w w1 → G w1 (t w1).2 ∧ ∀ w2, env (t w1).2 w2 → Q (t w1).1 w2) → wp G (action t) w Q.
Proof. intros H w1 Hw1. destruct (H w1 Hw1). by split. Qed.

(** A run on its own: its transitions, its result and the world it ends in. *)
Fixpoint run {A} (p : prog A) (w : W) : list (W * W) * result E A * W :=
  match p with
  | Ret r => ([], r, w)
  | Act t k =>
      let '(b, w1) := t w in
      let '(tr, r, w') := run (k b) w1 in ((w, w1) :: tr, r, w')
  end.
Lemma run_exec {A} (p : prog A) w tr r w' : run p w = (tr, r, w') → exec p w tr r w'.
Proof.
  revert w tr. induction p as [x|B t k IH]; intros w tr; simpl.
  { intros [= <- <- <-]. by constructor. }
  destruct (t w) as [b w1] eqn:Et. destruct (run (k b) w1) as [[tr1 r1] w2] eqn:Er.
  intros [= <- <- <-]. econstructor; [done|exact Et|by apply IH].
Qed.

(** ** Any number of programs *)

(** A step of one of the programs, the start of another, which is told its number, or a
    step from outside. *)
Inductive pool_step {A} (start : nat → prog A → Prop) (outside : W → W → Prop) :
    list (prog A) * W → list (prog A) * W → Prop :=
  | pool_act {B} (t : W → B * W) k i ps w b w' :
      ps !! i = Some (Act t k) → t w = (b, w') →
      pool_step start outside (ps, w) (<[i := k b]> ps, w')
  | pool_start p ps w : start (length ps) p → pool_step start outside (ps, w) (ps ++ [p], w)
  | pool_outside ps w w' : outside w w' → pool_step start outside (ps, w) (ps, w').

(** A program can be started and run to its end. *)
Lemma pool_run {A} (start : nat → prog A → Prop) (outside : W → W → Prop) p ps w tr r w' :
  start (length ps) p → run p w = (tr, r, w') →
  rtc (pool_step start outside) (ps, w) (ps ++ [Ret r], w').
Proof.
  intros Hs Hr. eapply rtc_l; [by apply pool_start|]. clear Hs.
  revert w tr Hr. induction p as [x|B t k IH]; intros w tr; simpl.
  { by intros [= _ -> ->]. }
  destruct (t w) as [b w1] eqn:Et. destruct (run (k b) w1) as [[tr1 r1] w2] eqn:Er.
  intros [= _ <- <-]. eapply rtc_l; [|exact (IH b w1 tr1 Er)].
  replace (ps ++ [k b]) with (<[length ps := k b]> (ps ++ [Act t k])).
  - eapply pool_act; [|exact Et]. by apply list_lookup_middle.
  - rewrite insert_app_r_alt by lia. by rewrite Nat.sub_diag.
Qed.
End prog.
Arguments prog W E A : clear implicits.
Arguments Ret {W E A} r.
Arguments Act {W E A B} t k.

Section pool.
Context {W E : Type} (env : nat → W → W → Prop) {ENV : ∀ i, PreOrder (env i)}.
Notation prog := (prog W E).

(** When each program guarantees what the others take it to guarantee, all their
    interleavings keep what each keeps, and the programs that end do so as they say. *)
Lemma pool_safe {A} (start : nat → prog A → Prop) (outside : W → W → Prop)
    (G : nat → W → W → Prop) (Q : nat → result E A → W → Prop) (rel : W → W → Prop) {REL : PreOrder rel}
    (good : W → Prop) w ps w' :
  (∀ i p w, start i p → good w → wp (env i) (G i) p w (Q i)) →
  (∀ i j w1 w2, i ≠ j → good w1 → G i w1 w2 → env j w1 w2) →
  (∀ i w1 w2, outside w1 w2 → env i w1 w2) →
  (∀ i w1 w2, G i w1 w2 → rel w1 w2) → (∀ w1 w2, outside w1 w2 → rel w1 w2) →
  (∀ w1 w2, rel w1 w2 → good w1 → good w2) →
  good w → rtc (pool_step start outside) ([], w) (ps, w') →
  rel w w' ∧ good w' ∧ ∀ i p, ps !! i = Some p → wp (env i) (G i) p w' (Q i).
Proof.
  intros Hstart HG Hout HGr Hor Hgood Hw Hr.
  cut (∀ s, rtc (pool_step start outside) ([], w) s →
         rel w s.2 ∧ good s.2 ∧ ∀ i p, s.1 !! i = Some p → wp (env i) (G i) p s.2 (Q i)).
  { intros H. by apply (H (ps, w')). }
  clear ps w' Hr. apply rtc_ind_r; [by split|]. intros [ps1 w1] [ps w'] _ Hs (He & Hg & Hps).
  simpl in *.
  assert (∀ w2, rel w1 w2 → rel w w2 ∧ good w2) as Hstep.
  { intros w2 H12. split; [by etrans|by eapply Hgood]. }
  inversion Hs as [B t k i ps2 w2 b w3 Hi Ht|p ps2 w2 Hp|ps2 w2 w3 Ho]; subst.
  - assert (G i w1 w' ∧ wp (env i) (G i) (k b) w' (Q i)) as [HGw Hk].
    { destruct (Hps _ _ Hi w1) as [? ?]; [done|]. by rewrite Ht in *. }
    destruct (Hstep w') as (? & ?); [by eapply HGr|]. split_and!; [done..|].
    intros j p [(-> & <- & _)|[Hne Hj]]%list_lookup_insert_Some; [done|].
    eapply wp_env; [apply _| |by apply Hps]. by eapply HG.
  - split_and!; [done..|]. intros j q [Hq|[Hl Hq]]%lookup_app_Some; [by apply Hps|].
    destruct (j - length ps1) as [|n] eqn:Ej; [|done]. injection Hq as <-.
    assert (j = length ps1) as -> by lia. by apply Hstart.
  - destruct (Hstep w') as (? & ?); [by apply Hor|]. split_and!; [done..|].
    intros j p Hj. eapply wp_env; [apply _|by apply Hout|by apply Hps].
Qed.
End pool.
