(* ===== verification/Keys.v ===== *)
(** * Signing keys ([oath-registry/src/lib.rs], [publish_assessment.rs], [exec_assessment.rs])

    Reading the key of a directory, or making it: a key is written to a temporary file
    and linked to its place, so that of several processes that make it at once one wins
    and the others read what it wrote. Three programs of the same steps. *)
From S2P Require Export Prog Paths Transparency.

(** ** Names of temporary files *)

(** [format!("{:02x}", b)] *)
Definition lower_hex (a : ascii) : string := to_ascii_lowercase (hex_byte a).
(** [format!("{:016x}", u64::from_le_bytes(bytes[..8]))] *)
Definition le_hex (bytes : string) : string :=
  join "" (lower_hex <$> reverse (take 8 (chars bytes))).
Definition registry_temp {SHA : Digest} (path bytes : string) : string :=
  with_extension path (take_str 16 (sha256_hex bytes) +:+ ".tmp").
Definition client_temp (path bytes : string) : string :=
  with_extension path (le_hex bytes +:+ ".tmp").

(** ** The steps *)

(** A file with the number of the process that made it. The next random bytes if there
    are any; whether the next operation fails, and how far it gets. *)
Record KeyFile := { made_by : nat; data : string }.
Record KeyWorld := {
  k_files : gmap string KeyFile;
  k_random : option string;
  k_fault : option nat;
}.
Definition set_files (fs : gmap string KeyFile) (w : KeyWorld) : KeyWorld :=
  {| k_files := fs; k_random := k_random w; k_fault := k_fault w |}.
Notation task := (prog KeyWorld string).

Inductive Linked := LinkOk | LinkExists | LinkFailed.

Section key.
Context (temp_path : string → string) (path invalid : string) (me : nat).

(** An operation on files: what it does, and what is left when it fails. *)
Definition file_step {B} (t : gmap string KeyFile → result string B * gmap string KeyFile)
    (failed : nat → gmap string KeyFile → gmap string KeyFile) : task B :=
  action (λ w, match k_fault w with
               | None => let '(r, fs) := t (k_files w) in (r, set_files fs w)
               | Some n => (Err "i/o error", set_files (failed n (k_files w)) w)
               end).
Definition unchanged (_ : nat) (fs : gmap string KeyFile) : gmap string KeyFile := fs.
(** [path.exists()] is false when it cannot tell. *)
Definition exists_ : task bool :=
  ask (λ w, bool_decide (is_Some (k_files w !! path) ∧ k_fault w = None)).
Definition create_parent : task unit := file_step (λ fs, (Ok tt, fs)) unchanged.
(** 32 random bytes. *)
Definition random_bytes : task string :=
  ask (λ w, k_random w) ≫= λ r,
  lift (match r with
        | Some b => if decide (String.length b = 32) then Ok b else Err "key generation failed"
        | None => Err "key generation failed"
        end).
Definition open_new (p : string) : task unit :=
  file_step (λ fs, match fs !! p with
                   | Some _ => (Err "file exists", fs)
                   | None => (Ok tt, <[p := {| made_by := me; data := "" |}]> fs)
                   end) unchanged.
Definition write_all (p bytes : string) : task unit :=
  file_step (λ fs, (Ok tt, alter (λ f, {| made_by := made_by f; data := bytes |}) p fs))
    (λ n, alter (λ f, {| made_by := made_by f; data := take_str n bytes |}) p).
Definition sync_all : task unit := file_step (λ fs, (Ok tt, fs)) unchanged.
(** A link that fails may have been made all the same. *)
Definition link (from to : string) (fs : gmap string KeyFile) : result string Linked * gmap string KeyFile :=
  match fs !! from, fs !! to with
  | None, _ => (Err "file not found", fs)
  | Some _, Some _ => (Ok LinkExists, fs)
  | Some f, None => (Ok LinkOk, <[to := f]> fs)
  end.
Definition hard_link (from to : string) : task Linked :=
  r ← attempt (file_step (link from to) (λ n fs, if decide (n = 0) then fs else (link from to fs).2));
  mret (match r with Ok l => l | Err _ => LinkFailed end).
Definition remove_file (p : string) : task unit :=
  file_step (λ fs, (Ok tt, delete p fs)) unchanged.

Definition read_key : task string :=
  bytes ← file_step (λ fs, (data <$> ok_or (fs !! path) "file not found", fs)) unchanged;
  _ ← check (bool_decide (String.length bytes = 32)) invalid;
  mret bytes.
Definition load_or_create_key : task string :=
  found ← exists_;
  if found : bool then read_key else
  _ ← create_parent;
  bytes ← random_bytes;
  let temp := temp_path bytes in
  _ ← open_new temp;
  _ ← write_all temp bytes;
  _ ← sync_all;
  linked ← hard_link temp path;
  result ← (match linked with
            | LinkOk => mret (Ok bytes)
            | LinkExists => attempt read_key
            | LinkFailed => mret (Err "i/o error")
            end);
  _ ← attempt (remove_file temp);
  lift result.
End key.

Definition registry_signing_key {SHA : Digest} (path : string) : nat → task string :=
  load_or_create_key (registry_temp path) path "invalid registry signing key".
Definition publish_signing_key (path : string) : nat → task string :=
  load_or_create_key (client_temp path) path "invalid publish signing key length".
Definition decision_signing_key (path : string) : nat → task string :=
  load_or_create_key (client_temp path) path "invalid decision signing key length".

(** ** Temporary files are not the key *)

Lemma rsplit_once_char c s a b :
  rsplit_once (String c "") s = Some (a, b) → s = a +:+ String c b ∧ has c b = false.
Proof.
  unfold rsplit_once. intros H. apply bind_Some in H as (i & Hi & [= <- <-]).
  assert (∃ x y, s = x +:+ String c y ∧ has c y = false) as (x & y & -> & Hy).
  { clear -Hi. revert i Hi. induction s as [|z s IH]; intros i; cbn [rfind_str]; [done|].
    destruct (rfind_str (String c "") s) as [j|] eqn:E.
    - intros _. destruct (IH j eq_refl) as (x & y & -> & Hy). by exists (String z x), y.
    - rewrite starts_with_char. case_bool_decide as Hc; [|done]. intros _. subst z. exists "", s.
      split; [done|]. clear -E. induction s as [|z s IH]; [done|]. cbn [rfind_str] in E.
      destruct (rfind_str (String c "") s) eqn:E'; [done|]. rewrite starts_with_char in E.
      case_bool_decide; [done|]. rewrite has_cons, IH by done. by rewrite bool_decide_false. }
  rewrite rfind_str_char in Hi by done. injection Hi as <-.
  rewrite take_str_app. split; [|by rewrite drop_str_S].
  by rewrite drop_str_S.
Qed.
Lemma longer s e : s +:+ "." +:+ e = s → False.
Proof.
  intros H. apply (f_equal String.length) in H. rewrite str_length_app in H. simpl in H. lia.
Qed.
Lemma file_stem_other name e : has "." e = true → file_stem name +:+ "." +:+ e ≠ name.
Proof.
  intros He Heq. unfold file_stem in Heq.
  destruct (rsplit_once "." name) as [[a b]|] eqn:E.
  - apply rsplit_once_char in E as [-> Hb]. case_decide as Ha.
    + by apply longer in Heq.
    + apply str_app_inj_l in Heq. injection Heq as Heq. rewrite str_app_nil_l in Heq. congruence.
  - by apply longer in Heq.
Qed.
Lemma with_extension_other path e : has "." e = true → with_extension path e ≠ path.
Proof.
  intros He. unfold with_extension. destruct (rsplit_once "/" path) as [[d n]|] eqn:E.
  - apply rsplit_once_char in E as [-> _]. intros Heq. apply str_app_inj_l in Heq.
    injection Heq as Heq. by eapply file_stem_other.
  - by apply file_stem_other.
Qed.
Lemma registry_temp_other {SHA : Digest} path bytes : registry_temp path bytes ≠ path.
Proof. apply with_extension_other. rewrite has_app. apply orb_true_r. Qed.
Lemma client_temp_other path bytes : client_temp path bytes ≠ path.
Proof. apply with_extension_other. rewrite has_app. apply orb_true_r. Qed.

(** ** Processes that make the key at once *)

Section agreement.
Context (temp_path : string → string) (path invalid : string).
Context (Htemp : ∀ bytes, temp_path bytes ≠ path).

Definition valid_key (w : KeyWorld) : Prop :=
  ∀ f, k_files w !! path = Some f → String.length (data f) = 32.
(** The key stays, and a new one is valid. *)
Definition key_le (w w' : KeyWorld) : Prop :=
  (∀ f, k_files w !! path = Some f → k_files w' !! path = Some f)
  ∧ (valid_key w → valid_key w').
(** What a process relies on and guarantees: nobody touches another's files. *)
Definition others (me : nat) (w w' : KeyWorld) : Prop :=
  key_le w w' ∧ ∀ p f, k_files w !! p = Some f → made_by f = me → k_files w' !! p = Some f.
Definition mine (me : nat) (w w' : KeyWorld) : Prop :=
  key_le w w' ∧ ∀ p f, k_files w !! p = Some f → made_by f ≠ me → k_files w' !! p = Some f.

#[export] Instance key_le_preorder : PreOrder key_le.
Proof. split; [by intros w|]. intros a b c [H1 H2] [H3 H4]. split; auto. Qed.
#[export] Instance others_preorder me : PreOrder (others me).
Proof. split; [by intros w|]. intros a b c [H1 H2] [H3 H4]. split; [by etrans|auto]. Qed.

Context (me : nat).
Notation wp := (wp (others me) (mine me)).
Implicit Types w : KeyWorld.

Lemma mine_same w fs : fs = k_files w → mine me w (set_files fs w).
Proof. intros ->. by repeat split. Qed.
(** Steps on a file of the process other than the key. *)
Lemma mine_own w fs p :
  p ≠ path → (∀ q, q ≠ p → fs !! q = k_files w !! q) →
  (∀ f, k_files w !! p = Some f → made_by f = me) → mine me w (set_files fs w).
Proof.
  intros Hp Hfs Hf. split; [split|].
  - simpl. by rewrite Hfs.
  - intros Hv f. simpl. rewrite Hfs by done. apply Hv.
  - intros q f Hq Hme. simpl. destruct (decide (q = p)) as [->|?]; [by apply Hf in Hq|by rewrite Hfs].
Qed.
Lemma wp_file_step {B} (t : gmap string KeyFile → result string B * gmap string KeyFile) failed w
    (Q : result string B → KeyWorld → Prop) :
  (∀ w1, others me w w1 →
     let next r fs := mine me w1 (set_files fs w1) ∧ ∀ w2, others me (set_files fs w1) w2 → Q r w2 in
     next (t (k_files w1)).1 (t (k_files w1)).2 ∧ ∀ n, next (Err "i/o error") (failed n (k_files w1))) →
  wp (file_step t failed) w Q.
Proof.
  intros H. apply wp_action. intros w1 H1. destruct (H w1 H1) as [Ht Hf].
  destruct (k_fault w1) as [n|]; [apply Hf|]. by destruct (t (k_files w1)) as [r fs].
Qed.
(** Steps that change nothing. *)
Lemma wp_reading {B} (t : gmap string KeyFile → result string B * gmap string KeyFile) w
    (Q : result string B → KeyWorld → Prop) :
  (∀ fs, (t fs).2 = fs) → (∀ w2, others me w w2 → Q (Err "i/o error") w2) →
  (∀ w1 w2, others me w w1 → others me w1 w2 → Q (t (k_files w1)).1 w2) →
  wp (file_step t unchanged) w Q.
Proof.
  intros Ht He Hq. apply wp_file_step. intros w1 H1 next. unfold next.
  assert (set_files (k_files w1) w1 = w1) as E by by destruct w1.
  split; [|intros n]; unfold unchanged; rewrite ?Ht.
  - split; [by apply mine_same|]. rewrite E. intros w2 H2. by apply (Hq w1).
  - split; [by apply mine_same|]. rewrite E. intros w2 H2. apply He. by etrans.
Qed.

Lemma key_later w w' f :
  others me w w' → k_files w !! path = Some f → k_files w' !! path = Some f.
Proof. intros [[H _] _]. apply H. Qed.
(** The key that was read or made is the one of the file. *)
Definition is_key (r : result string string) (w : KeyWorld) : Prop :=
  ∀ k, r = Ok k → String.length k = 32 ∧ ∃ f, k_files w !! path = Some f ∧ data f = k.
Lemma is_key_later r w w' : others me w w' → is_key r w → is_key r w'.
Proof. intros [[H _] _] Hk k Hr. destruct (Hk k Hr) as (? & f & Hf & ?). eauto. Qed.
Lemma wp_read_key (R : KeyWorld → Prop) w :
  (∀ w w', others me w w' → R w → R w') → R w →
  wp (read_key path invalid) w (λ r w', R w' ∧ is_key r w').
Proof.
  intros HR Hw. apply wp_bind; [apply _|]. apply wp_reading; [done|intros w2 H2; split; [by eapply HR|done]|].
  intros w1 w2 H1 H2. cbn [fst]. assert (R w2) as Hw2 by (eapply HR; [exact H2|by eapply HR]).
  destruct (k_files w1 !! path) as [f|] eqn:Ef; simpl; [|done].
  apply wp_bind; [apply _|]. apply wp_check; [|intros w3 H3 _; split; [by eapply HR|done]].
  intros w3 H3 Hl%bool_decide_eq_true w4 H4. split; [eapply HR; [exact H4|by eapply HR]|].
  intros k [= <-]. split; [done|]. exists f. split; [|done].
  by apply (key_later w3), (key_later w2), (key_later w1).
Qed.

(** A temporary file that a process has written stays until it removes it. *)
Definition holds_temp (bytes : string) (f : KeyFile) (w : KeyWorld) : Prop :=
  made_by f = me ∧ k_files w !! temp_path bytes = Some f.
Lemma holds_temp_later bytes f w w' : others me w w' → holds_temp bytes f w → holds_temp bytes f w'.
Proof. intros [_ H] [? ?]. split; [done|]. by apply H. Qed.
Lemma wp_open_new bytes w :
  wp (open_new me (temp_path bytes)) w
    (λ r w', r = Ok tt → holds_temp bytes {| made_by := me; data := "" |} w').
Proof.
  apply wp_file_step. intros w1 H1. cbv zeta. split.
  - destruct (k_files w1 !! temp_path bytes) as [f|] eqn:E; cbn [fst snd].
    { split; [by apply mine_same|done]. }
    split.
    + apply (mine_own _ _ (temp_path bytes)); [done| |by rewrite E].
      intros q Hq. by rewrite lookup_insert_ne.
    + intros w2 H2 _. eapply holds_temp_later; [exact H2|]. split; [done|]. simpl. by rewrite lookup_insert_eq.
  - intros n. split; [by apply mine_same|done].
Qed.
Lemma wp_write_all bytes f w :
  holds_temp bytes f w →
  wp (write_all (temp_path bytes) bytes) w
    (λ r w', ∃ f', holds_temp bytes f' w' ∧ (r = Ok tt → data f' = bytes)).
Proof.
  intros Hf. apply wp_file_step. intros w1 H1. cbv zeta. cbn [fst snd].
  destruct (holds_temp_later _ _ _ _ H1 Hf) as [Hm Hf1].
  assert (∀ d, mine me w1 (set_files (alter (λ f, {| made_by := made_by f; data := d |})
    (temp_path bytes) (k_files w1)) w1)) as Hmine.
  { intros d. apply (mine_own _ _ (temp_path bytes)); [done| |by intros ? [= <-]%(eq_trans (eq_sym Hf1))].
    intros q Hq. by rewrite lookup_alter_ne. }
  assert (∀ d w2, others me (set_files (alter (λ f, {| made_by := made_by f; data := d |})
    (temp_path bytes) (k_files w1)) w1) w2 → holds_temp bytes {| made_by := me; data := d |} w2) as Hh.
  { intros d w2 H2. eapply holds_temp_later; [exact H2|]. split; [done|]. simpl.
    rewrite lookup_alter_eq, Hf1. simpl. by rewrite Hm. }
  split; [|intros n]; (split; [apply Hmine|]); intros w2 H2; eexists; (split; [by apply Hh|]); done.
Qed.
Lemma wp_hard_link bytes w :
  String.length bytes = 32 → holds_temp bytes {| made_by := me; data := bytes |} w →
  wp (hard_link (temp_path bytes) path) w
    (λ r w', holds_temp bytes {| made_by := me; data := bytes |} w'
             ∧ (r = Ok LinkOk → is_key (Ok bytes) w')).
Proof.
  intros Hl Hf. unfold hard_link. apply wp_bind; [apply _|]. apply wp_attempt. apply wp_file_step.
  intros w1 H1. cbv zeta. destruct (holds_temp_later _ _ _ _ H1 Hf) as [Hm Hf1].
  set (f := {| made_by := me; data := bytes |}) in *.
  assert (∀ fs, fs = k_files w1 ∨ (k_files w1 !! path = None ∧ fs = <[path := f]> (k_files w1)) →
    mine me w1 (set_files fs w1) ∧ ∀ w2, others me (set_files fs w1) w2 → holds_temp bytes f w2) as Hstep.
  { intros fs [->|[Hn ->]].
    - split; [by apply mine_same|]. intros w2 H2. by eapply holds_temp_later.
    - split.
      + split; [split|].
        * intros g Hg. congruence.
        * intros _ g. simpl. rewrite lookup_insert_eq. by intros [= <-].
        * intros p g Hg Hne. simpl. rewrite lookup_insert_ne; [done|]. congruence.
      + intros w2 H2. eapply holds_temp_later; [exact H2|]. split; [done|]. simpl.
        rewrite lookup_insert_ne; [done|]. by apply not_eq_sym, Htemp. }
  assert (link (temp_path bytes) path (k_files w1) = (Ok LinkExists, k_files w1)
    ∨ (k_files w1 !! path = None
       ∧ link (temp_path bytes) path (k_files w1) = (Ok LinkOk, <[path := f]> (k_files w1)))) as Hlink.
  { unfold link. rewrite Hf1. destruct (k_files w1 !! path); [by left|by right]. }
  split.
  - destruct Hlink as [->|[Hn ->]]; cbn [fst snd].
    + destruct (Hstep _ (or_introl eq_refl)) as [HM Hh]. split; [done|]. intros w2 H2 w3 H3.
      split; [|done]. apply Hh. by etrans.
    + destruct (Hstep _ (or_intror (conj Hn eq_refl))) as [HM Hh]. split; [done|]. intros w2 H2 w3 H3.
      split; [apply Hh; by etrans|]. intros _ k [= <-]. split; [done|]. exists f. split; [|done].
      apply (key_later w2); [done|]. apply (key_later _ _ _ H2). simpl. by rewrite lookup_insert_eq.
  - intros n. assert (mine me w1 (set_files (if decide (n = 0) then k_files w1 else
        (link (temp_path bytes) path (k_files w1)).2) w1) ∧
      ∀ w2, others me (set_files (if decide (n = 0) then k_files w1 else
        (link (temp_path bytes) path (k_files w1)).2) w1) w2 → holds_temp bytes f w2) as [HM Hh].
    { apply Hstep. case_decide; [by left|]. destruct Hlink as [->|[Hn ->]]; auto. }
    split; [exact HM|]. intros w2 H2 w3 H3. split; [|done]. apply Hh. by etrans.
Qed.
Lemma wp_remove bytes f r w :
  holds_temp bytes f w → is_key r w →
  wp (_ ← attempt (remove_file (temp_path bytes)); lift r) w is_key.
Proof.
  intros Hf Hr. apply wp_bind; [apply _|]. apply wp_attempt. apply wp_file_step.
  intros w1 H1. cbv zeta. destruct (holds_temp_later _ _ _ _ H1 Hf) as [Hm Hf1].
  assert (∀ fs, (fs = k_files w1 ∨ fs = delete (temp_path bytes) (k_files w1)) →
    mine me w1 (set_files fs w1) ∧ ∀ w2, others me (set_files fs w1) w2 → wp (lift r) w2 is_key) as Hd.
  { intros fs Hfs. assert (is_key r (set_files fs w1)) as Hk.
    { intros k Hk. destruct (is_key_later _ _ _ H1 Hr k Hk) as (? & g & Hg & ?). split; [done|].
      exists g. split; [|done]. destruct Hfs as [-> | ->]; [done|]. simpl. by rewrite lookup_delete_ne. }
    split; [|intros w2 H2 w3 H3; eapply is_key_later; [|exact Hk]; by etrans].
    destruct Hfs as [-> | ->]; [by apply mine_same|]. apply (mine_own _ _ (temp_path bytes)); [done| |].
    - intros q Hq. by rewrite lookup_delete_ne.
    - intros g Hg. congruence. }
  split; [apply Hd; by right|]. intros n. apply Hd. by left.
Qed.
Lemma wp_throw_key e w : wp (throw e) w is_key.
Proof. by intros w2 _ k. Qed.
Lemma wp_load_or_create w : wp (load_or_create_key temp_path path invalid me) w is_key.
Proof.
  unfold load_or_create_key. apply wp_bind; [apply _|]. apply wp_ask.
  { intros w1 _. by repeat split. }
  intros w1 w2 _ _. destruct (bool_decide _).
  { eapply wp_mono; [by intros ?? H; exact H| |by apply (wp_read_key (λ _, True))]. by intros r w3 [_ ?]. }
  apply wp_bind; [apply _|]. apply wp_reading; [done|by intros w3 _ k|]. intros w3 w4 _ _. cbn [fst].
  apply wp_bind; [apply _|]. apply wp_bind; [apply _|]. apply wp_ask.
  { intros w5 _. by repeat split. }
  intros w5 w6 _ _. apply wp_lift. intros w7 _.
  destruct (k_random w5) as [bytes|]; [|by intros k]. case_decide as Hl; [|by intros k]. cbv zeta.
  apply wp_bind; [apply _|]. eapply wp_mono; [by intros ?? H; exact H| |apply wp_open_new].
  intros [[]|e] w8 H8; [|by intros k]. specialize (H8 eq_refl).
  apply wp_bind; [apply _|]. eapply wp_mono; [by intros ?? H; exact H| |by eapply wp_write_all].
  intros [[]|e] w9 (f & Hf & Hd); [|by intros k]. specialize (Hd eq_refl).
  assert (f = {| made_by := me; data := bytes |}) as ->.
  { destruct f as [m d]. destruct Hf as [Hm _]. simpl in *. by subst. }
  apply wp_bind; [apply _|]. apply wp_reading; [done|by intros w10 _ k|]. intros w10 w11 H10 H11. cbn [fst].
  apply wp_bind; [apply _|].
  eapply wp_mono; [by intros ?? H; exact H| |apply wp_hard_link; [done|eapply holds_temp_later; [|exact Hf]; by etrans]].
  intros [l|e] w12 [Hh Hk]; [|by intros k]. destruct l.
  - apply wp_remove with {| made_by := me; data := bytes |}; [done|by apply Hk].
  - apply wp_bind; [apply _|]. apply wp_attempt.
    eapply wp_mono; [by intros ?? H; exact H| |apply (wp_read_key (holds_temp bytes {| made_by := me; data := bytes |}));
      [by apply holds_temp_later|exact Hh]].
    intros r w13 [H13 Hr]. by apply wp_remove with {| made_by := me; data := bytes |}.
  - by apply wp_remove with {| made_by := me; data := bytes |}.
Qed.
End agreement.

(** (C35) Processes that ask for the signing key at once agree on it. Any number of them run
    in any interleaving, each may stop or fail anywhere, also with a link that is made
    and reported as failed, and other files may be added by others: those that succeed
    have the same 32 bytes, the contents of the key's file; and a key that was there
    before is never replaced. *)
Theorem signing_key_agreement (temp_path : string → string) path invalid w ps w' :
  (∀ bytes, temp_path bytes ≠ path) →
  valid_key path w →
  rtc (pool_step (λ i p, p = load_or_create_key temp_path path invalid i)
         (λ w w', k_files w ⊆ k_files w' ∧ k_files w' !! path = k_files w !! path)) ([], w) (ps, w') →
  (∀ f, k_files w !! path = Some f → k_files w' !! path = Some f)
  ∧ ∀ i k, ps !! i = Some (Ret (Ok k)) →
      String.length k = 32 ∧ ∃ f, k_files w' !! path = Some f ∧ data f = k.
Proof.
  intros Htemp Hv Hr.
  destruct (pool_safe (others path) (λ i p, p = load_or_create_key temp_path path invalid i)
    (λ w w', k_files w ⊆ k_files w' ∧ k_files w' !! path = k_files w !! path) (mine path)
    (λ _, is_key path) (key_le path) (valid_key path) w ps w') as ([Hk _] & _ & Hps).
  - intros i p v -> _. by apply wp_load_or_create.
  - intros i j a b Hij _ [Hle Hf]. split; [done|]. intros p f Hp <-. apply Hf; [done|congruence].
  - intros i a b [Hsub Hp]. split; [split|].
    + intros f Hf. by rewrite Hp.
    + intros Ha f. rewrite Hp. apply Ha.
    + intros p f Hf _. by eapply lookup_weaken.
  - intros i a b [? _]. done.
  - intros a b [Hsub Hp]. split; [intros f Hf; by rewrite Hp|]. intros Ha f. rewrite Hp. apply Ha.
  - intros a b [_ H]. exact H.
  - exact Hv.
  - exact Hr.
  - split; [exact Hk|]. intros i k Hi. specialize (Hps _ _ Hi w'). by apply Hps.
Qed.

(** Alone and without faults a process makes the key and leaves no temporary file. *)
Lemma load_or_create_alone (temp_path : string → string) path invalid me w bytes :
  temp_path bytes ≠ path → k_fault w = None → k_random w = Some bytes → String.length bytes = 32 →
  k_files w !! path = None → k_files w !! temp_path bytes = None →
  let '(_, r, w') := run (load_or_create_key temp_path path invalid me) w in
  r = Ok bytes ∧ k_files w' = <[path := {| made_by := me; data := bytes |}]> (k_files w).
Proof.
  intros Ht Hf Hr Hl Hp Hn. destruct w as [fs rnd fault]. simpl in *. subst.
  cbn -[String.length]. rewrite bool_decide_false by (rewrite Hp; intros [[? ?] _]; done).
  cbn -[String.length]. rewrite decide_True by done. cbn -[String.length]. rewrite Hn. cbn -[String.length].
  unfold link. rewrite !alter_insert_eq, lookup_insert_eq. rewrite lookup_insert_ne by done. rewrite Hp.
  cbn. split; [done|]. rewrite delete_insert_ne by done. by rewrite delete_insert_id.
Qed.
(** [publish_signing_key] for the key below [/home/u/.oath]. *)
Definition demo_key_path : string := "/home/u/.oath/publish-signing.key".
Definition demo_key_bytes : string := "0123456789abcdef0123456789abcdef".
Definition no_key : KeyWorld := {| k_files := ∅; k_random := Some demo_key_bytes; k_fault := None |}.
Example temporary_name :
  client_temp demo_key_path demo_key_bytes = "/home/u/.oath/publish-signing.3736353433323130.tmp".
Proof. reflexivity. Qed.

Lemma signing_key_agreement_witness :
  ∃ ps w',
    rtc (pool_step (λ i p, p = publish_signing_key demo_key_path i)
         (λ w w', k_files w ⊆ k_files w' ∧ k_files w' !! demo_key_path = k_files w !! demo_key_path))
      ([], no_key) (ps, w')
    ∧ ps !! 0 = Some (Ret (Ok demo_key_bytes)) ∧ ps !! 1 = Some (Ret (Ok demo_key_bytes))
    ∧ ∃ f, k_files w' !! demo_key_path = Some f ∧ data f = demo_key_bytes.
Proof.
  destruct (run (publish_signing_key demo_key_path 0) no_key) as [[tr1 r1] w1] eqn:E1.
  destruct (run (publish_signing_key demo_key_path 1) w1) as [[tr2 r2] w2] eqn:E2.
  assert (r1 = Ok demo_key_bytes) as -> by (apply (f_equal (λ x, x.1.2)) in E1; by vm_compute in E1).
  assert (w1 = (run (publish_signing_key demo_key_path 0) no_key).2) as Hw1 by by rewrite E1.
  assert (r2 = Ok demo_key_bytes) as ->.
  { apply (f_equal (λ x, x.1.2)) in E2. rewrite Hw1 in E2. by vm_compute in E2. }
  set (out := λ w w', k_files w ⊆ k_files w' ∧ k_files w' !! demo_key_path = k_files w !! demo_key_path).
  pose proof (pool_run (λ i p, p = publish_signing_key demo_key_path i) out _ [] _ _ _ _ eq_refl E1) as H1.
  pose proof (pool_run (λ i p, p = publish_signing_key demo_key_path i) out _ [Ret (Ok demo_key_bytes)]
    _ _ _ _ eq_refl E2) as H2.
  exists [Ret (Ok demo_key_bytes); Ret (Ok demo_key_bytes)], w2.
  assert (rtc (pool_step (λ i p, p = publish_signing_key demo_key_path i) out) ([], no_key)
    ([Ret (Ok demo_key_bytes); Ret (Ok demo_key_bytes)], w2)) as H by (etrans; [exact H1|exact H2]).
  assert (valid_key demo_key_path no_key) as Hv by (intros f Hf; by vm_compute in Hf).
  split; [exact H|]. split; [done|]. split; [done|].
  exact (proj2 (proj2 (signing_key_agreement _ demo_key_path _ no_key _ w2 (client_temp_other demo_key_path)
    Hv H)
    0 demo_key_bytes eq_refl)).
Defined.
