(* ===== verification/Publishing.v ===== *)
(** * oath-cli: publishing ([main.rs], [publish_assessment.rs])

    What [oath publish], [oath stage] and [oath transfer] do, on actions: the files of the
    project, the packlist that npm computes, the assessment, the evidence that is kept, and
    the request to the registry. *)
From S2P Require Import Install.
From S2P Require Import Cli Command Publish Transfer.

(** ** The files of the project *)

(** An entry of a directory, with the canonical path the system gives for it. *)
Inductive ProjectTree :=
  | SymLink
  | PlainFile (opened : result string unit)
  | Special
  | Folder (entries : result string (list (string * result string (list string) * ProjectTree))).
Definition should_publish_exclude (rel : string) (excludes npmignore : list string) : bool :=
  let below p := bool_decide (rel = p) || starts_with (p +:+ "/") rel in
  existsb below excludes
  || existsb (λ p, let p := trim_end_matches "/" p in
       below p || ends_with ("." +:+ trim_prefix "*." p) rel
       || (starts_with "*." p && ends_with (drop_str 1 p) rel)) npmignore
  || ends_with ".test.js" rel || ends_with ".spec.js" rel || ends_with ".test.ts" rel || ends_with ".spec.ts" rel.
Definition publish_whitelist_allows (rel : string) (path : list string) (whitelist : option (list string)) : bool :=
  match whitelist with
  | None => true
  | Some whitelist =>
      let top := default rel (head (split_char "/" rel)) in
      existsb (λ w, bool_decide (trim_end_matches "/" w = top) || bool_decide (trim_end_matches "/" w = rel)) whitelist
      || bool_decide (default "" (last path) ∈ ["package.json"; "README.md"; "README"; "LICENSE"; "LICENCE"])
  end.
Section collect.
Variables (root : list string) (excludes npmignore : list string) (whitelist : option (list string)).
(** [strip_prefix(root)] of a path below the root. *)
Definition project_relative (path : list string) : string :=
  replace_char backslash "/" (utf8_lossy (RustStr.join "/" (drop (length root) path))).
Definition skipped (path : list string) : bool :=
  let rel := project_relative path in
  bool_decide (rel = "") || should_publish_exclude rel excludes npmignore
  || negb (publish_whitelist_allows rel path whitelist).
Definition take_entry (collect : result string (list (string * result string (list string) * ProjectTree)) →
      list (list string) → result string (list (list string)))
    (canonical : result string (list string)) (t : ProjectTree) (files : list (list string)) :
    result string (list (list string)) :=
  match t with
  | SymLink => Err "oath publish: refusing symlink"
  | _ =>
      path ← canonical;
      _ ← ensure (bool_decide (root `prefix_of` path)) "oath publish: refusing out-of-root path";
      if skipped path then Ok files
      else match t with
           | Folder entries => collect entries files
           | PlainFile opened => _ ← opened; Ok (files ++ [path])
           | _ => Err "oath publish: refusing non-regular file"
           end
  end.
Fixpoint collect_publish_files_inner (t : ProjectTree) (files : list (list string)) :
    result string (list (list string)) :=
  match t with
  | Folder (Ok entries) =>
      (fix go (l : list (string * result string (list string) * ProjectTree)) (files : list (list string)) :=
         match l with
         | [] => Ok files
         | (_, canonical, t) :: l =>
             files ← take_entry (λ _, collect_publish_files_inner t) canonical t files; go l files
         end) entries files
  | Folder (Err e) => Err e
  | _ => Err "failed to read publish dir"
  end.
End collect.
(** Paths are compared component by component. *)
Fixpoint names_le (a b : list string) : Prop :=
  match a, b with
  | [], _ => True
  | _, [] => False
  | x :: a, y :: b => (x ≠ y ∧ String.le x y) ∨ (x = y ∧ names_le a b)
  end.
#[export] Instance names_le_dec : RelDecision names_le.
Proof. intros a. induction a as [|x a IH]; intros [|y b]; simpl; apply _. Defined.
Definition collect_publish_files (root : list string) (t : ProjectTree) (excludes npmignore : list string)
    (whitelist : option (list string)) : result string (list (list string)) :=
  files ← collect_publish_files_inner root excludes npmignore whitelist t [];
  Ok (dedup (stable_sort names_le files)).
Definition default_excludes : list string := ["node_modules"; ".git"; "test"; ".oath"; "oath-lock.json"].
Definition npmignore_patterns (text : string) : list string :=
  trim <$> filter (λ l, trim l ≠ "" ∧ starts_with "#" l = false) (lines text).
Definition files_whitelist (pkg : Json) : option (list string) :=
  match jget "files" pkg with Some (JArray l) => Some (omap as_str l) | _ => None end.

(** ** Actions *)

Section actions.
Context {ED : Ed25519}.
Inductive PubAct : Type → Type :=
  (* the project and the machine *)
  | ReadPackage : PubAct (result string Json)
  | Cwd : PubAct (result string string)
  | HomeDir : PubAct (option string)
  | EnvVar (name : string) : PubAct (option string)
  | ClockSecs : PubAct (option Z)
  | PathExists (path : string) : PubAct bool
  | ReadTextFile (path : string) : PubAct (result string string)
  | WalkProject (root : string) : PubAct (result string (list string * ProjectTree))
  | CanonicalPath (path : string) : PubAct (result string string)
  | IsRegularFile (path : string) : PubAct bool
  | ListEntries (path : string) : PubAct (result string (list string))
  (* the files that are assessed, and evidence of earlier releases *)
  | ReadBytes (path : string) : PubAct (result string string)
  | ReadEvidence (path : string) : PubAct (result string string)
  (* the signing key of publishing; evidence that is kept *)
  | PublishKey : PubAct (result string SigningKey)
  | CreateDirectory (path : string) : PubAct (result string unit)
  | WriteBytes (path bytes : string) : PubAct (result string unit)
  | RenameFile (from to : string) : PubAct (result string unit)
  (* npm and node; a run succeeds or fails *)
  | NpmPackList (root : string) : PubAct (result string Json)
  | ToolVersion (name : string) : PubAct (result string string)
  | RunNpm (args : list string) (dir : option string) (env : list (string * string)) : PubAct (result string bool)
  (* a file, read again when it is packed: its header (times and mode) and its bytes *)
  | ReadForTar (path : string) : PubAct (result string (string * string))
  (* the registry *)
  | FetchPublished (url : string) : PubAct (option (bool * Json))
  | PutPackage (url token : string) (payload : Json) : PubAct (result string (bool * string))
  (* capsules, and what a program reads *)
  | MakeCapsule (root output : string) (a : PublishAssessmentV2) (e : PersistedEvidence) :
      PubAct (result string TransferManifest)
  | CheckCapsule (capsule : string) (trusted : option string) : PubAct (result string TransferVerification)
  | ShowJson (j : Json) : PubAct unit.
End actions.

Section publishing.
Context {SV : Semver} {SHA : Digest} {JT : JsonText} {B64 : Base64} {ED : Ed25519} {JF : JsonFile}.
(** The digests of the tarball: the bytes of SHA-512, and SHA-1 in hexadecimal. *)
Variables (cargo_version : string) (sha512_bytes sha1_hex : string → string).
(** The tar and gzip libraries: the tarball of entries, each a name, a header and bytes. *)
Variable pack_tar : list (string * (string * string)) → string.
Notation pubcmd := (cmd PubAct).

(** ** npm *)

Definition packlist_files (report : Json) : option (list Json) :=
  match report with
  | JArray (item :: _) => match jget "files" item with Some (JArray files) => Some files | _ => None end
  | _ => None
  end.
Definition path_names_le (a b : string) : Prop := names_le (names (components a)) (names (components b)).
#[export] Instance path_names_le_dec : RelDecision path_names_le := λ a b, decide (names_le _ _).
Definition path_below (root path : string) : bool :=
  bool_decide (is_Some (strip_components (components root) (components path))).
Definition packlist_path (root : string) (file : Json) : pubcmd string :=
  relative ← need (jget "path" file ≫= as_str) "npm pack file missing path";
  path ← try (CanonicalPath (pjoin root relative));
  _ ← demand (path_below root path) "npm pack selected out-of-root file";
  there ← act (IsRegularFile path);
  _ ← demand there "npm pack selected non-file";
  mret path.
Definition npm_authoritative_packlist (root : string) : pubcmd (list string) :=
  report ← try (NpmPackList root);
  files ← need (packlist_files report) "npm pack output did not contain files";
  canonical_root ← try (CanonicalPath root);
  paths ← fold_cmd (λ paths file, p ← packlist_path canonical_root file; mret (paths ++ [p])) [] files;
  mret (dedup (stable_sort path_names_le paths)).
Definition command_version (name : string) : pubcmd (Z * Z * Z) :=
  text ← try (ToolVersion name); lift (parse_tool_version text).
Definition version_at_least (v w : Z * Z * Z) : bool :=
  let '(a, b, c) := v in let '(d, e, f) := w in
  (d <? a)%Z || ((d =? a)%Z && ((e <? b)%Z || ((e =? b)%Z && (f <=? c)%Z))).
Definition ensure_npm_stage_prerequisites : pubcmd unit :=
  npm ← command_version "npm";
  node ← command_version "node";
  _ ← demand (version_at_least npm (11, 15, 0)%Z) "oath stage requires npm >= 11.15.0";
  demand (version_at_least node (22, 14, 0)%Z) "oath stage requires Node >= 22.14.0".

(** ** The assessment *)

Definition unix_seconds : pubcmd N := now ← act ClockSecs; mret (Z.to_N (default 0%Z now)).
Definition read_files (root : string) (files : list string) : pubcmd Snapshot :=
  fold_cmd (λ acc f, bytes ← try (ReadBytes f); mret (acc ++ [(relative_path root f, bytes)])) [] files.
Definition assess (root : string) (files : list string) (package : Json) (tag : string) (access : option string) :
    pubcmd PublishAssessmentV2 :=
  key ← try PublishKey;
  _ ← need (jget "name" package ≫= as_str) "package name missing";
  _ ← need (jget "version" package ≫= as_str) "package version missing";
  contents ← read_files root files;
  now ← unix_seconds;
  lift (assess_with_signing_key cargo_version contents package tag access now key).
Definition publish_assessment_root (root : string) : pubcmd string :=
  home ← act HomeDir;
  home ← need home "HOME or USERPROFILE is required for publish evidence";
  canonical ← try (CanonicalPath root);
  mret (pjoin home (".oath/publish-assessments/projects/" +:+ sha256_hex (utf8_lossy canonical))).
Definition read_previous (found : list PublishAssessmentV2) (entry : string) : pubcmd (list PublishAssessmentV2) :=
  r ← act (ReadEvidence (pjoin entry "assessment.json"));
  mret match r with
       | Ok bytes => match decode of_publish bytes with Ok a => found ++ [a] | Err _ => found end
       | Err _ => found
       end.
Definition read_base (found : list PublishAssessmentV2) (base : string) : pubcmd (list PublishAssessmentV2) :=
  there ← act (PathExists base);
  if there : bool then entries ← try (ListEntries base); fold_cmd read_previous found entries
  else mret found.
Definition attach (root : string) (a : PublishAssessmentV2) : pubcmd PublishAssessmentV2 :=
  key ← try PublishKey;
  base ← publish_assessment_root root;
  found ← fold_cmd read_base [] [base; pjoin root ".oath/publish-assessments"];
  mret (attach_previous_release found key a).
(** A file is written beside its place and renamed to it. *)
Definition atomic_json (path : string) (value : Json) : pubcmd unit :=
  let temp := with_extension path "tmp" in
  _ ← try (WriteBytes temp (to_vec_pretty value));
  try (RenameFile temp path).
Definition persist_signed (root : string) (a : PublishAssessmentV2) (package : Json) : pubcmd PersistedEvidence :=
  base ← publish_assessment_root root;
  let directory := pjoin base (evidence_name a) in
  _ ← try (CreateDirectory directory);
  _ ← atomic_json (pjoin directory "assessment.json") (publish_json a);
  _ ← atomic_json (pjoin directory "sbom.spdx.json") (spdx_sbom cargo_version package a);
  _ ← atomic_json (pjoin directory "provenance.intoto.json") (assessment_attestation cargo_version a);
  key ← try PublishKey;
  let s := sign_json (publish_json a) key in
  _ ← atomic_json (pjoin directory "signature.json") (signature_file s);
  mret {| pe_directory := directory; pe_assessment_signature := signature s; pe_signing_public_key := public_key s;
          pe_sbom_path := pjoin directory "sbom.spdx.json";
          pe_provenance_path := pjoin directory "provenance.intoto.json" |}.

(** ** [oath publish] *)

Record PublishOptions := {
  p_tag : option string; p_access : option string; p_dry_run : bool; p_json : bool; p_schema_version : N; p_stage : bool }.
Definition REGISTRY : string := "https://registry.npmjs.org".
Definition last_segment (n : string) : string := default n (last (split_char "/" n)).
Definition npmrc_token (content : string) : option string :=
  first_some (λ l, strip_prefix "//registry.npmjs.org/:_authToken=" (trim l)) (lines content).
Definition auth_token : pubcmd (option string) :=
  v ← act (EnvVar "NPM_TOKEN");
  match v with
  | Some t => mret (Some t)
  | None =>
      home ← act HomeDir;
      match home with
      | None => mret None
      | Some h =>
          r ← act (ReadTextFile (pjoin h ".npmrc"));
          mret match r with Ok content => npmrc_token content | Err _ => None end
      end
  end.
Definition already_published (version : string) (found : option (bool * Json)) : bool :=
  match found with
  | Some (true, body) =>
      match jget "versions" body ≫= object_of with
      | Some m => bool_decide (is_Some (alist_get version m))
      | None => false
      end
  | _ => false
  end.
Definition publish_payload (pkg : Json) (name version description tag : string) (access : option string)
    (tarball : string) : option Json :=
  let base := last_segment name +:+ "-" +:+ version +:+ ".tgz" in
  version_obj ← index_set "dist" (canon (JObject
    [("tarball", JString (REGISTRY +:+ "/" +:+ name +:+ "-/-/" +:+ base));
     ("integrity", JString ("sha512-" +:+ b64_encode (sha512_bytes tarball)));
     ("shasum", JString (sha1_hex tarball))])) pkg;
  let payload := canon (JObject
    ([("_id", JString name); ("name", JString name); ("description", JString description);
      ("dist-tags", JObject [(tag, JString version)]); ("versions", JObject [(version, version_obj)]);
      ("_attachments", JObject [(base, JObject
        [("content_type", JString "application/octet-stream"); ("data", JString (b64_encode tarball));
         ("length", jnat (N.of_nat (String.length tarball)))])])]
     ++ match access with Some a => [("access", JString a)] | None => [] end)) in
  Some payload.
(** The files Oath itself would take; only a difference to npm's list is reported. *)
Definition oath_files (cwd : string) (pkg : Json) : pubcmd (list (list string)) :=
  there ← act (PathExists (pjoin cwd ".npmignore"));
  ignored ← (if there : bool then
    r ← act (ReadTextFile (pjoin cwd ".npmignore"));
    mret (npmignore_patterns match r with Ok t => t | Err _ => "" end)
  else mret []);
  '(root, tree) ← try (WalkProject cwd);
  lift (collect_publish_files root tree default_excludes ignored (files_whitelist pkg)).
Definition tar_name (cwd file : string) : string :=
  "package/" +:+ match strip_components (components cwd) (components file) with
                 | Some cs => utf8_lossy (RustStr.join "/" (names cs))
                 | None => utf8_lossy file
                 end.
(** [append_path_with_name] reads each file again. *)
Definition pack_files (cwd : string) (files : list string) : pubcmd (list (string * (string * string))) :=
  fold_cmd (λ acc f, entry ← try (ReadForTar f); mret (acc ++ [(tar_name cwd f, entry)])) [] files.
Definition upload (o : PublishOptions) (pkg : Json) (name version description tag cwd : string)
    (files : list string) : pubcmd unit :=
  entries ← pack_files cwd files;
  let tarball := pack_tar entries in
  found ← act (FetchPublished (REGISTRY +:+ "/" +:+ name));
  _ ← demand (negb (already_published version found)) "already published";
  token ← auth_token;
  token ← need token "oath publish: no npm auth token found";
  match publish_payload pkg name version description tag (p_access o) tarball with
  | None => exit_with 101
  | Some payload =>
      '(ok, _) ← try (PutPackage (REGISTRY +:+ "/" +:+ name) token payload);
      demand ok "oath publish: registry refused"
  end.
Definition cmd_publish (o : PublishOptions) : pubcmd unit :=
  _ ← demand (negb (p_json o) || p_dry_run o) "oath publish --json requires --dry-run";
  _ ← demand (bool_decide (p_schema_version o = 1%N ∨ p_schema_version o = 2%N)) "unsupported publish assessment schema";
  let tag := default "latest" (p_tag o) in
  pkg ← try ReadPackage;
  name ← need (jget "name" pkg ≫= as_str) "package.json missing 'name'";
  version ← need (jget "version" pkg ≫= as_str) "package.json missing 'version'";
  let description := default "" (jget "description" pkg ≫= as_str) in
  cwd ← try Cwd;
  _ ← oath_files cwd pkg;
  files ← npm_authoritative_packlist cwd;
  a ← assess cwd files pkg tag (p_access o);
  a ← attach cwd a;
  _ ← when (p_json o) (act (ShowJson (if decide (p_schema_version o = 1%N) then legacy_v1 a else publish_json a)));
  _ ← demand (bool_decide (pa_decision a = Allow)) "oath publish: blocked";
  if p_dry_run o then mret tt
  else
    _ ← persist_signed cwd a pkg;
    if p_stage o then
      _ ← ensure_npm_stage_prerequisites;
      ok ← try (RunNpm ["stage"; "publish"; "--tag"; tag] None [("NPM_CONFIG_PROVENANCE", "true")]);
      demand ok "npm stage publish failed"
    else upload o pkg name version description tag cwd files.

(** ** [oath stage] *)

Inductive StageAction :=
  | StageList (package : option string) (json : bool) (registry : option string)
  | StageView (stage_id : string) (json : bool) (registry : option string)
  | StageDownload (stage_id : string) (json : bool) (registry : option string) (destination : string)
  | StageApprove (stage_id : string) (yes : bool) (otp registry : option string)
  | StageReject (stage_id : string) (yes : bool) (otp registry : option string).
Definition push_optional_flag (args : list string) (flag : string) (value : option string) : list string :=
  match value with Some v => args ++ [flag; v] | None => args end.
Definition stage_args (action : StageAction) : list string :=
  let json (b : bool) := if b then ["--json"] else [] in
  match action with
  | StageList package j registry =>
      push_optional_flag (["stage"; "list"] ++ match package with Some p => [p] | None => [] end ++ json j) "--registry" registry
  | StageView id j registry => push_optional_flag (["stage"; "view"; id] ++ json j) "--registry" registry
  | StageDownload id j registry _ => push_optional_flag (["stage"; "download"; id] ++ json j) "--registry" registry
  | StageApprove id _ otp registry =>
      push_optional_flag (push_optional_flag ["stage"; "approve"; id] "--otp" otp) "--registry" registry
  | StageReject id _ otp registry =>
      push_optional_flag (push_optional_flag ["stage"; "reject"; id] "--otp" otp) "--registry" registry
  end.
Definition stage_destination (action : StageAction) : option string :=
  match action with StageDownload _ _ _ d => Some d | _ => None end.
Definition stage_confirmed (action : StageAction) : bool :=
  match action with StageApprove _ yes _ _ | StageReject _ yes _ _ => yes | _ => true end.
Definition cmd_stage (action : StageAction) : pubcmd unit :=
  _ ← ensure_npm_stage_prerequisites;
  _ ← demand (stage_confirmed action) "oath stage requires --yes";
  _ ← match stage_destination action with Some d => try (CreateDirectory d) | None => mret tt end;
  ok ← try (RunNpm (stage_args action) (stage_destination action) []);
  demand ok "npm stage failed".

(** ** [oath transfer] *)

Inductive TransferAction :=
  | TransferCreate (output tag : string) (access : option string) (json : bool)
  | TransferVerify (capsule : string) (trusted_public_key : option string) (json : bool).
Definition verification_json (v : TransferVerification) : Json := JObject
  [("schema_version", jnat (tv_schema_version v)); ("name", JString (tv_name v)); ("version", JString (tv_version v));
   ("verified", JBool (tv_verified v)); ("integrity_verified", JBool (tv_integrity_verified v));
   ("package_sha512", JString (tv_package_sha512 v)); ("signature_valid", JBool (tv_signature_valid v));
   ("signature_trusted", JBool (tv_signature_trusted v)); ("signature_trust", JString (tv_signature_trust v));
   ("signing_public_key", JString (tv_signing_public_key v)); ("consumer_decision", JString (tv_consumer_decision v));
   ("limitations", jstrings (tv_limitations v))].
Definition cmd_transfer (action : TransferAction) : pubcmd unit :=
  match action with
  | TransferCreate output tag access json =>
      root ← try Cwd;
      package ← try ReadPackage;
      files ← npm_authoritative_packlist root;
      a ← assess root files package tag access;
      a ← attach root a;
      _ ← demand (bool_decide (pa_decision a = Allow)) "oath transfer: blocked";
      evidence ← persist_signed root a package;
      report ← try (MakeCapsule root output a evidence);
      when json (act (ShowJson (transfer_json report)))
  | TransferVerify capsule trusted json =>
      report ← try (CheckCapsule capsule trusted);
      when json (act (ShowJson (verification_json report)))
  end.
Inductive PublishCommand :=
  | Publish (o : PublishOptions) | Stage (action : StageAction) | Transfer (action : TransferAction).
Definition publish_command (c : PublishCommand) : pubcmd unit :=
  match c with Publish o => cmd_publish o | Stage a => cmd_stage a | Transfer a => cmd_transfer a end.
End publishing.
