(* ===== verification/PublishSpec.v ===== *)
(** * What is published was assessed ([main.rs], [cmd_publish], [cmd_stage], [cmd_transfer])

    A monitor of the publishing commands: it knows the project, the bytes that were read for
    the assessment, those that were read again to be packed, and what the registry answered,
    and permits an upload, a run of npm, a capsule or evidence only as they allow. *)
From S2P Require Import Install.
From S2P Require Import Cli Command Publish Transfer Publishing Capsule Versions.

Record Watched := {
  w_cwd : option string; w_pkg : option Json; w_read : list (string * string);
  w_again : list (string * (string * string));
  w_found : option (option (bool * Json)) }.
Definition nothing_watched : Watched :=
  {| w_cwd := None; w_pkg := None; w_read := []; w_again := []; w_found := None |}.

#[export] Instance PublishFile_eq_dec : EqDecision PublishFile.
Proof. solve_decision. Defined.

Section spec.
Context {SV : Semver} {SHA : Digest} {JT : JsonText} {B64 : Base64} {ED : Ed25519} {JF : JsonFile}.
Variables (cargo_version : string) (sha512_bytes sha1_hex : string → string).
Variables (pack_tar : list (string * (string * string)) → string) (c : PublishCommand).

(** The files as they were read, below the project. *)
Definition read_snapshot (s : Watched) : option Snapshot :=
  cwd ← w_cwd s; Some ((λ '(f, bytes), (relative_path cwd f, bytes)) <$> w_read s).
(** None of them has the name or the contents of a secret. *)
Definition clean (s : Watched) : bool :=
  match read_snapshot s with Some l => bool_decide (mjoin (file_findings <$> l) = []) | None => false end.
Definition may_upload (o : PublishOptions) : bool := negb (p_dry_run o) && negb (p_json o) && negb (p_stage o).
(** The entries of the tarball: the files as they were read again, under their names. *)
Definition packed (cwd : string) (l : list (string * (string * string))) : list (string * (string * string)) :=
  (λ '(f, entry), (tar_name cwd f, entry)) <$> l.
Definition may_put (o : PublishOptions) (s : Watched) (url : string) (payload : Json) : bool :=
  match w_pkg s, w_cwd s, w_found s with
  | Some pkg, Some cwd, Some found =>
      match jget "name" pkg ≫= as_str, jget "version" pkg ≫= as_str with
      | Some name, Some version =>
          bool_decide (url = REGISTRY +:+ "/" +:+ name ∧ (w_again s).*1 = (w_read s).*1) && negb (already_published version found)
          && bool_decide (publish_payload sha512_bytes sha1_hex pkg name version (default "" (jget "description" pkg ≫= as_str))
                            (default "latest" (p_tag o)) (p_access o) (pack_tar (packed cwd (w_again s)))
                            = Some payload)
      | _, _ => false
      end
  | _, _, _ => false
  end.
Definition may_do (s : Watched) X (e : PubAct X) : bool :=
  match c with
  | Publish o =>
      match e with
      | ReadForTar f => may_upload o && clean s && bool_decide (f ∈ (w_read s).*1)
      | PutPackage url _ payload => may_upload o && clean s && may_put o s url payload
      | RunNpm args _ _ => negb (p_dry_run o) && p_stage o && clean s && bool_decide (take 2 args = ["stage"; "publish"])
      | CreateDirectory _ | WriteBytes _ _ | RenameFile _ _ => negb (p_dry_run o) && clean s
      | MakeCapsule _ _ _ _ => false
      | _ => true
      end
  | Stage a =>
      match e with
      | RunNpm args dir _ => stage_confirmed a && bool_decide (args = stage_args a ∧ dir = stage_destination a)
      | CreateDirectory p => bool_decide (stage_destination a = Some p)
      | ReadForTar _ | PutPackage _ _ _ | WriteBytes _ _ | RenameFile _ _ | MakeCapsule _ _ _ _ => false
      | _ => true
      end
  | Transfer (TransferCreate output _ _ _) =>
      match e with
      | MakeCapsule root out a _ =>
          clean s && bool_decide (out = output ∧ w_cwd s = Some root ∧ pa_decision a = Allow)
          && bool_decide (pa_files a = manifest_of (default [] (read_snapshot s)))
      | CreateDirectory _ | WriteBytes _ _ | RenameFile _ _ => clean s
      | ReadForTar _ | PutPackage _ _ _ | RunNpm _ _ _ => false
      | _ => true
      end
  | Transfer (TransferVerify _ _ _) =>
      match e with
      | ReadForTar _ | PutPackage _ _ _ | RunNpm _ _ _ | CreateDirectory _ | WriteBytes _ _ | RenameFile _ _
      | MakeCapsule _ _ _ _ => false
      | _ => true
      end
  end.
Definition observe (s : Watched) X (e : PubAct X) : X → Watched :=
  let '(Build_Watched cwd pkg rd again found) := s in
  match e in PubAct X return X → Watched with
  | Cwd => λ x, match x with Ok d => Build_Watched (Some d) pkg rd again found | Err _ => s end
  | ReadPackage => λ x, match x with Ok j => Build_Watched cwd (Some j) rd again found | Err _ => s end
  | ReadBytes f => λ x, match x with Ok b => Build_Watched cwd pkg (rd ++ [(f, b)]) again found | Err _ => s end
  | ReadForTar f => λ x, match x with Ok b => Build_Watched cwd pkg rd (again ++ [(f, b)]) found | Err _ => s end
  | FetchPublished _ => λ x, Build_Watched cwd pkg rd again (Some x)
  | _ => λ _, s
  end.
Definition publish_monitor (s : Watched) X (e : PubAct X) (x : X) : option Watched :=
  if may_do s X e then Some (observe s X e x) else None.

(** ** Phases *)

(** Actions that are always permitted and tell the monitor nothing. *)
Definition quiet X (e : PubAct X) : Prop :=
  match e with
  | ReadPackage | Cwd | ReadBytes _ | ReadForTar _ | FetchPublished _ | PutPackage _ _ _ | RunNpm _ _ _
  | CreateDirectory _ | WriteBytes _ _ | RenameFile _ _ | MakeCapsule _ _ _ _ => False
  | _ => True
  end.
Definition keeping X (e : PubAct X) : Prop :=
  match e with CreateDirectory _ | WriteBytes _ _ | RenameFile _ _ => True | _ => quiet X e end.
Notation monitor := publish_monitor.
Lemma quiet_step X (e : PubAct X) x s : quiet X e → monitor s X e x = Some s.
Proof.
  intros He. unfold publish_monitor.
  assert (Hm : may_do s X e = true) by (unfold may_do; destruct c as [o|a|[]]; by destruct e).
  rewrite Hm. destruct s. by destruct e.
Qed.
Lemma quiet_phase {A B} (p : cmd PubAct A) (f : A → cmd PubAct B) Q s :
  only quiet p → (∀ a, safe monitor (f a) Q s) → (∀ e, Q (Err e) s) → safe monitor (p ≫= f) Q s.
Proof.
  intros Hp Hf HQ. apply (safe_after quiet monitor (λ s', s' = s)); try done; [|by intros a s' ->|by intros e s' ->].
  intros X e x s' He ->. exists s. split; [by apply quiet_step|done].
Qed.
(** The same, with what the command returns. *)
Lemma quiet_returns {A B} (φ : A → Prop) (p : cmd PubAct A) (f : A → cmd PubAct B) Q s :
  only quiet p → returns φ p → (∀ a, φ a → safe monitor (f a) Q s) → (∀ e, Q (Err e) s) → safe monitor (p ≫= f) Q s.
Proof.
  intros Hp Hr Hf HQ. apply watch_bind. eapply watch_mono.
  { apply (safe_returns _ φ); [done|]. apply (only_safe quiet monitor (λ s', s' = s) _ (λ _ s', s' = s)); try done.
    intros X e x s' He ->. exists s. split; [by apply quiet_step|done]. }
  intros [a|e] s' [-> Ha]; [by apply Hf|apply HQ].
Qed.
(** Evidence is kept where the monitor permits it. *)
Definition may_keep (s : Watched) : Prop := ∀ X (e : PubAct X) x, keeping X e → monitor s X e x = Some s.
Lemma keeping_phase {A B} (p : cmd PubAct A) (f : A → cmd PubAct B) Q s :
  may_keep s → only keeping p → (∀ a, safe monitor (f a) Q s) → (∀ e, Q (Err e) s) → safe monitor (p ≫= f) Q s.
Proof.
  intros Hk Hp Hf HQ. apply (safe_after keeping monitor (λ s', s' = s)); try done; [|by intros a s' ->|by intros e s' ->].
  intros X e x s' He ->. exists s. split; [by apply Hk|done].
Qed.

(** ** What the parts ask for *)

Lemma packlist_quiet root : only quiet (npm_authoritative_packlist root).
Proof.
  unfold npm_authoritative_packlist. only_tac. unfold packlist_path. only_tac.
Qed.
Lemma oath_files_quiet cwd pkg : only quiet (oath_files cwd pkg).
Proof. unfold oath_files. only_tac. Qed.
Lemma attach_quiet root a : only quiet (attach root a).
Proof.
  unfold attach, publish_assessment_root. only_tac. unfold read_base. only_tac.
Qed.
Lemma attach_same found key a :
  pa_decision (attach_previous_release found key a) = pa_decision a ∧
  pa_files (attach_previous_release found key a) = pa_files a.
Proof. unfold attach_previous_release. destruct (earlier_assessments a found); [done|]. by destruct a. Qed.
Lemma attach_returns root a :
  returns (λ a', pa_decision a' = pa_decision a ∧ pa_files a' = pa_files a) (attach root a).
Proof.
  unfold attach. apply returns_after. intros key. apply returns_after. intros base. apply returns_after. intros found.
  apply attach_same.
Qed.
Lemma persist_keeping root a pkg : only keeping (persist_signed cargo_version root a pkg).
Proof. unfold persist_signed, publish_assessment_root, atomic_json. only_tac. Qed.
Lemma prerequisites_quiet : only quiet ensure_npm_stage_prerequisites.
Proof. unfold ensure_npm_stage_prerequisites, command_version. only_tac. Qed.
Lemma token_quiet : only quiet auth_token.
Proof. unfold auth_token. only_tac. Qed.

(** ** Reading what is assessed *)

Definition with_read (l : list (string * string)) (s : Watched) : Watched := {|
  w_cwd := w_cwd s; w_pkg := w_pkg s; w_read := w_read s ++ l; w_again := w_again s; w_found := w_found s |}.
Lemma read_step f (x : result string string) s :
  monitor s _ (ReadBytes f) x = Some (match x with Ok b => with_read [(f, b)] s | Err _ => s end).
Proof.
  unfold publish_monitor. assert (Hm : may_do s _ (ReadBytes f) = true) by (unfold may_do; by destruct c as [|?|[]]).
  rewrite Hm. destruct s. by destruct x.
Qed.
Definition contents_of (root : string) (l : list (string * string)) : Snapshot :=
  (λ '(f, bytes), (relative_path root f, bytes)) <$> l.
Lemma read_files_safe {B} root files (f : Snapshot → cmd PubAct B) Q s :
  (∀ l, l.*1 = files → safe monitor (f (contents_of root l)) Q (with_read l s)) →
  (∀ l e, Q (Err e) (with_read l s)) →
  safe monitor (read_files root files ≫= f) Q s.
Proof.
  intros Hf HQ. unfold read_files. apply watch_bind.
  apply (safe_fold _ _ _ _ (λ rest acc s', ∃ l, acc = contents_of root l ∧ s' = with_read l s ∧ l.*1 ++ rest = files)).
  - exists []. split_and!; [done| |done]. unfold with_read. rewrite app_nil_r. by destruct s.
  - intros x rest acc s' (l & -> & -> & Hl) _. apply safe_try. intros b. rewrite read_step.
    eexists. split; [done|]. destruct b as [b|e]; [|apply HQ]. exists (l ++ [(x, b)]). split_and!.
    + unfold contents_of. by rewrite fmap_app.
    + unfold with_read. simpl. by rewrite app_assoc.
    + rewrite fmap_app. simpl. by rewrite <- app_assoc.
  - intros acc s' (l & -> & -> & Hl). apply Hf. by rewrite app_nil_r in Hl.
Qed.
Lemma assess_facts files package tag access now key a :
  assess_with_signing_key cargo_version files package tag access now key = Ok a →
  pa_files a = manifest_of files ∧ (pa_decision a = Allow → mjoin (file_findings <$> files) = []).
Proof.
  unfold assess_with_signing_key. intros (name & _ & (version & _ & H)%bind_Ok)%bind_Ok.
  match type of H with Ok ?x = Ok a => assert (Ha : x = a) by congruence end. clear H. subst a.
  split; [done|]. simpl. case_bool_decide as Hf; [done|]. intros _.
  assert (Hn : secret_findings files = []) by (by destruct (secret_findings files)).
  rewrite no_secret_findings in Hn.
  clear - Hn. induction files as [|f files IH]; [done|]. csimpl. rewrite Hn by left. simpl. apply IH.
  intros g Hg. apply Hn. by right.
Qed.
Lemma assess_phase {B} root files package tag access (f : PublishAssessmentV2 → cmd PubAct B) Q s :
  w_cwd s = Some root → w_read s = [] →
  (∀ a s', w_cwd s' = Some root → w_pkg s' = w_pkg s → w_again s' = w_again s → w_found s' = w_found s →
     (w_read s').*1 = files → pa_files a = manifest_of (default [] (read_snapshot s')) →
     (pa_decision a = Allow → clean s' = true) → safe monitor (f a) Q s') →
  (∀ e s', Q (Err e) s') →
  safe monitor (assess cargo_version root files package tag access ≫= f) Q s.
Proof.
  intros Hcwd Hread Hf HQ. unfold assess. apply watch_bind.
  apply quiet_phase; [only_tac| |by intros e; apply HQ]. intros key.
  apply quiet_phase; [only_tac| |by intros e; apply HQ]. intros _.
  apply quiet_phase; [only_tac| |by intros e; apply HQ]. intros _.
  apply read_files_safe; [|by intros l e; apply HQ]. intros l Hl.
  apply quiet_phase; [unfold unix_seconds; only_tac| |by intros e; apply HQ]. intros now.
  destruct (assess_with_signing_key _ _ _ _ _ _ _) as [a|e] eqn:Ha; [|apply HQ]. apply assess_facts in Ha as [Hm Hd].
  assert (Hs : read_snapshot (with_read l s) = Some (contents_of root l)).
  { unfold read_snapshot, with_read. simpl. by rewrite Hcwd, Hread. }
  apply Hf; try done; [by simpl; rewrite Hread|by rewrite Hs|]. intros Hallow. unfold clean. rewrite Hs.
  by apply bool_decide_eq_true_2, Hd.
Qed.

(** ** The commands *)

(** An action that is permitted, then the rest. *)
Lemma permitted {A B} (e : PubAct (result string A)) (f : A → cmd PubAct B) s :
  may_do s _ e = true → (∀ a, safe monitor (f a) (λ _ _, True) (observe s _ e (Ok a))) →
  safe monitor (try e ≫= f) (λ _ _, True) s.
Proof.
  intros Hm Hf. apply safe_try. intros x. exists (observe s _ e x). unfold publish_monitor. rewrite Hm.
  split; [done|]. destruct x; [apply Hf|done].
Qed.
Lemma pack_files_safe {B} o cwd files (f : list (string * (string * string)) → cmd PubAct B) s :
  c = Publish o → may_upload o = true → clean s = true → (w_read s).*1 = files → w_again s = [] →
  (∀ l, l.*1 = files → safe monitor (f (packed cwd l)) (λ _ _, True)
     (Build_Watched (w_cwd s) (w_pkg s) (w_read s) l (w_found s))) →
  safe monitor (pack_files cwd files ≫= f) (λ _ _, True) s.
Proof.
  intros Hc Ho Hcl Hfiles Hag Hf. unfold pack_files. apply watch_bind.
  apply (safe_fold _ _ _ _ (λ rest acc s', ∃ l, acc = packed cwd l ∧
    s' = Build_Watched (w_cwd s) (w_pkg s) (w_read s) l (w_found s) ∧ l.*1 ++ rest = files)).
  - exists []. split_and!; [done| |done]. destruct s. simpl in *. by subst.
  - intros x rest acc s' (l & -> & -> & Hl) _. apply safe_try. intros b. eexists. split.
    { unfold publish_monitor, may_do. rewrite Hc. rewrite Ho.
      assert (clean (Build_Watched (w_cwd s) (w_pkg s) (w_read s) l (w_found s)) = true) as -> by done.
      rewrite bool_decide_eq_true_2; [done|]. simpl. rewrite Hfiles, <- Hl. set_solver. }
    destruct b as [b|e]; [|done]. exists (l ++ [(x, b)]). split_and!.
    + unfold packed. by rewrite fmap_app.
    + done.
    + rewrite fmap_app. simpl. by rewrite <- app_assoc.
  - intros acc s' (l & -> & -> & Hl). apply Hf. by rewrite app_nil_r in Hl.
Qed.
Lemma upload_safe o pkg name version cwd files s :
  c = Publish o → may_upload o = true → clean s = true → w_cwd s = Some cwd → w_pkg s = Some pkg → (w_read s).*1 = files →
  w_again s = [] → jget "name" pkg ≫= as_str = Some name → jget "version" pkg ≫= as_str = Some version →
  safe monitor (upload sha512_bytes sha1_hex pack_tar o pkg name version (default "" (jget "description" pkg ≫= as_str))
                  (default "latest" (p_tag o)) cwd files) (λ _ _, True) s.
Proof.
  intros Hc Ho Hcl Hcwd Hpkg Hfiles Hag Hn Hv. unfold upload.
  apply (pack_files_safe o); [done..|]. intros l Hl. cbv zeta. apply safe_act. intros found.
  assert (Hm : ∀ s', may_do s' _ (FetchPublished (REGISTRY +:+ "/" +:+ name)) = true) by (intros; unfold may_do; by rewrite Hc).
  eexists. split; [unfold publish_monitor; by rewrite Hm|].
  destruct s as [cwd' pkg' rd again found']. simpl in Hcwd, Hpkg, Hfiles, Hag. subst cwd' pkg' again. cbn [observe w_cwd w_pkg w_read w_again].
  assert (Hcl' : clean (Build_Watched (Some cwd) (Some pkg) rd l (Some found)) = true) by exact Hcl.
  apply watch_lift. destruct (negb (already_published version found)) eqn:Hex; [|done]. cbn [ensure].
  apply quiet_phase; [apply token_quiet| |done]. intros [token|]; [|done]. apply watch_lift. cbn [ok_or].
  destruct (publish_payload _ _ _ _ _ _ _ _ _) as [payload|] eqn:Hp; [|done].
  apply permitted; [|by intros [ok body]; destruct ok].
  unfold may_do. rewrite Hc. cbv beta iota. rewrite Ho, Hcl'. unfold may_put. cbn [w_pkg w_cwd w_read w_again w_found].
  rewrite Hn, Hv, Hex, Hp. rewrite !bool_decide_eq_true_2; [done|done|]. split; [done|congruence].
Qed.
Lemma keeping_permitted s :
  (∀ X (e : PubAct X), keeping X e → may_do s X e = true) → may_keep s.
Proof. intros H X e x He. unfold publish_monitor. rewrite H by done. destruct s. by destruct e. Qed.
Lemma publish_keep o s : c = Publish o → p_dry_run o = false → clean s = true → may_keep s.
Proof. intros Hc Hd Hcl. apply keeping_permitted. intros X e He. unfold may_do. rewrite Hc, Hd, Hcl. by destruct e. Qed.
Lemma transfer_keep output tag access json s :
  c = Transfer (TransferCreate output tag access json) → clean s = true → may_keep s.
Proof. intros Hc Hcl. apply keeping_permitted. intros X e He. unfold may_do. rewrite Hc, Hcl. by destruct e. Qed.
(** The package and the directory of the project are always looked at first. *)
Lemma see_package {B} (f : Json → cmd PubAct B) s :
  (∀ j, safe monitor (f j) (λ _ _, True) (Build_Watched (w_cwd s) (Some j) (w_read s) (w_again s) (w_found s))) →
  safe monitor (try ReadPackage ≫= f) (λ _ _, True) s.
Proof.
  intros Hf. apply safe_try. intros x. eexists. split.
  { unfold publish_monitor. assert (Hm : may_do s _ ReadPackage = true) by (unfold may_do; by destruct c as [|?|[]]). by rewrite Hm. }
  destruct x as [j|e]; [|done]. destruct s. apply Hf.
Qed.
Lemma see_cwd {B} (f : string → cmd PubAct B) s :
  (∀ d, safe monitor (f d) (λ _ _, True) (Build_Watched (Some d) (w_pkg s) (w_read s) (w_again s) (w_found s))) →
  safe monitor (try Cwd ≫= f) (λ _ _, True) s.
Proof.
  intros Hf. apply safe_try. intros x. eexists. split.
  { unfold publish_monitor. assert (Hm : may_do s _ Cwd = true) by (unfold may_do; by destruct c as [|?|[]]). by rewrite Hm. }
  destruct x as [d|e]; [|done]. destruct s. apply Hf.
Qed.
Lemma cmd_publish_safe o :
  c = Publish o → safe monitor (cmd_publish cargo_version sha512_bytes sha1_hex pack_tar o) (λ _ _, True) nothing_watched.
Proof.
  intros Hc. unfold cmd_publish. apply watch_lift. destruct (negb (p_json o) || p_dry_run o) eqn:Hj; [|done]. cbn [ensure].
  apply watch_lift. destruct (bool_decide _); [|done]. cbn [ensure]. cbv zeta.
  apply see_package. intros pkg. apply watch_lift. destruct (jget "name" pkg ≫= as_str) as [name|] eqn:Hn; [|done]. cbn [ok_or].
  apply watch_lift. destruct (jget "version" pkg ≫= as_str) as [version|] eqn:Hv; [|done]. cbn [ok_or].
  apply see_cwd. intros cwd. simpl w_read.
  apply quiet_phase; [apply oath_files_quiet| |done]. intros _.
  apply quiet_phase; [apply packlist_quiet| |done]. intros files.
  apply assess_phase; [done|done| |done]. intros a s Hcwd Hpkg Hag _ Hfiles _ Hclean.
  apply (quiet_returns (λ a', pa_decision a' = pa_decision a ∧ pa_files a' = pa_files a));
    [apply attach_quiet|apply attach_returns| |done]. intros a' [Hdec _].
  apply quiet_phase; [apply only_when; by split| |done]. intros _.
  apply watch_lift. case_bool_decide as Hallow; [|done]. cbn [ensure]. rewrite Hdec in Hallow. specialize (Hclean Hallow).
  destruct (p_dry_run o) eqn:Hdry; [done|].
  apply keeping_phase; [by eapply publish_keep|apply persist_keeping| |done]. intros _.
  destruct (p_stage o) eqn:Hst.
  - apply quiet_phase; [apply prerequisites_quiet| |done]. intros _.
    apply permitted; [|by intros []]. unfold may_do. by rewrite Hc, Hdry, Hst, Hclean.
  - apply upload_safe; try done. unfold may_upload. rewrite Hdry, Hst. rewrite orb_false_r in Hj. by rewrite Hj.
Qed.
Lemma cmd_stage_safe a s : c = Stage a → safe monitor (cmd_stage a) (λ _ _, True) s.
Proof.
  intros Hc. unfold cmd_stage. apply quiet_phase; [apply prerequisites_quiet| |done]. intros _.
  apply watch_lift. destruct (stage_confirmed a) eqn:Hok; [|done]. cbn [ensure].
  assert (Hrun : ∀ s', safe monitor (ok ← try (RunNpm (stage_args a) (stage_destination a) []); demand ok "npm stage failed")
                            (λ _ _, True) s').
  { intros s'. apply permitted; [|by intros []]. unfold may_do. rewrite Hc, Hok. by apply bool_decide_eq_true_2. }
  apply watch_bind. apply (watch_mono _ _ (λ _ _, True)); [|intros [u|e] s' _; [apply Hrun|done]].
  destruct (stage_destination a) as [d|] eqn:Hd; [|done]. intros x. eexists. split; [|by destruct x].
  unfold publish_monitor. assert (Hm : may_do s _ (CreateDirectory d) = true); [|by rewrite Hm].
  unfold may_do. rewrite Hc. by apply bool_decide_eq_true_2.
Qed.
Lemma cmd_transfer_safe a : c = Transfer a → safe monitor (cmd_transfer cargo_version a) (λ _ _, True) nothing_watched.
Proof.
  intros Hc. destruct a as [output tag access json|capsule trusted json]; unfold cmd_transfer.
  - apply see_cwd. intros root. apply see_package. intros package. simpl w_read.
    apply quiet_phase; [apply packlist_quiet| |done]. intros files.
    apply assess_phase; [done|done| |done]. intros a s Hcwd _ _ _ Hfiles Hman Hclean.
    apply (quiet_returns (λ a', pa_decision a' = pa_decision a ∧ pa_files a' = pa_files a));
      [apply attach_quiet|apply attach_returns| |done]. intros a' [Hdec Hf].
    apply watch_lift. case_bool_decide as Hallow; [|done]. cbn [ensure]. rewrite Hdec in Hallow. specialize (Hclean Hallow).
    apply keeping_phase; [by eapply transfer_keep|apply persist_keeping| |done]. intros evidence.
    apply permitted.
    + unfold may_do. rewrite Hc, Hclean. simpl. rewrite Hf, Hman. rewrite !bool_decide_eq_true_2; [done|done|].
      by rewrite Hdec.
    + intros report. apply (only_safe quiet monitor (λ _, True)); [|by apply only_when; split|done|done].
      intros X e x s' He _. exists s'. split; [by apply quiet_step|done].
  - apply quiet_phase; [only_tac| |done]. intros report.
    apply (only_safe quiet monitor (λ _, True)); [|by apply only_when; split|done|done].
    intros X e x s' He _. exists s'. split; [by apply quiet_step|done].
Qed.

End spec.

(** ** A run *)

#[local] Existing Instance toy_digest.
#[local] Existing Instance Contracts.toy_json_text.
#[local] Existing Instance plain_base64.
#[local] Existing Instance digest_ed25519.
#[local] Existing Instance Capsule.toy_json_file.
(** A project of one file with the given contents; nothing is published yet. *)
Definition pub_world (source : string) X (e : PubAct X) : X :=
  match e in PubAct X return X with
  | ReadPackage => Ok demo_package
  | Cwd => Ok "/p" | HomeDir => Some "/h" | EnvVar _ => Some "token" | ClockSecs => Some 100%Z
  | PathExists _ => false | ReadTextFile _ => Err "none"
  | WalkProject _ => Ok (["p"], Folder (Ok [("index.js", Ok ["p"; "index.js"], PlainFile (Ok tt))]))
  | CanonicalPath p => Ok p | IsRegularFile _ => true | ListEntries _ => Ok []
  | ReadBytes _ => Ok source | ReadEvidence _ => Err "none"
  | PublishKey => Ok (tt : @SigningKey digest_ed25519)
  | CreateDirectory _ => Ok tt | WriteBytes _ _ => Ok tt | RenameFile _ _ => Ok tt
  | NpmPackList _ => Ok (JArray [JObject [("files", JArray [JObject [("path", JString "index.js")]])]])
  | ToolVersion _ => Ok "v99.0.0" | RunNpm _ _ _ => Ok true
  | ReadForTar _ => Ok ("header", source) | FetchPublished _ => None | PutPackage _ _ _ => Ok (true, "")
  | MakeCapsule _ _ _ _ => Err "none" | CheckCapsule _ _ => Err "none" | ShowJson _ => tt
  end.
Definition demo_publish : PublishCommand :=
  Publish {| p_tag := None; p_access := None; p_dry_run := false; p_json := false; p_schema_version := 2; p_stage := false |}.
(** The names and the bytes, one after the other. *)
Definition toy_tar (l : list (string * (string * string))) : string :=
  RustStr.join "," ((λ '(n, (_, bytes)), n +:+ ":" +:+ bytes) <$> l).
Definition publish_run (source : string) :=
  run (pub_world source) (@publish_command toy_semver _ _ _ _ _ "0.1.0" (λ s, s) (λ s, s) toy_tar demo_publish).
Definition uploads (ev : event PubAct) : bool := match action ev with PutPackage _ _ _ => true | _ => false end.
