(* ===== verification/Identity.v ===== *)
(** * oath-registry: identity, billing and metrics
      ([identity.rs], [billing.rs], [metrics.rs])

    OpenID Connect tokens and their authentication level, the invitation mail, Stripe's
    webhook signatures and the request counters. HTTP, JSON Web Tokens and HMAC are
    parameters. *)
From S2P Require Export Json Contracts.

(** ** Identity *)

Record IdentityClaims := {
  ic_sub : string;
  ic_iss : string;
  ic_aud : Json;
  ic_exp : Z;
  ic_email : option string;
  ic_email_verified : bool;
  ic_amr : list string;
  ic_acr : option string;
}.

(** [str::split] at characters of a set *)
Fixpoint split_chars (f : ascii → bool) (s : string) : list string :=
  match s with
  | "" => [""]
  | String c s =>
      if f c then "" :: split_chars f s
      else match split_chars f s with
           | part :: parts => String c part :: parts
           | [] => [String c ""]
           end
  end%string.
Definition step_up_methods : list string := ["mfa"; "otp"; "hwk"; "fido"; "webauthn"; "swk"].
Definition has_step_up_authentication (c : IdentityClaims) : bool :=
  existsb (λ method, bool_decide (to_ascii_lowercase method ∈ step_up_methods)) (ic_amr c)
  || match ic_acr c with
     | Some value =>
         existsb (λ component, eq_ignore_ascii_case component "mfa")
           (split_chars (λ a, bool_decide (a ∈ [":"; "/"; " "]%char)) value)
     | None => false
     end.

Inductive JwtAlgorithm :=
  | HS256 | HS384 | HS512 | RS256 | RS384 | RS512 | ES256 | ES384 | PS256 | PS384 | PS512 | EdDSA.
#[export] Instance JwtAlgorithm_eq_dec : EqDecision JwtAlgorithm.
Proof. solve_decision. Defined.
Definition allowed_algorithms : list JwtAlgorithm := [RS256; RS384; RS512; ES256; ES384; EdDSA].

(** [jsonwebtoken]: the header of a token, the provider's keys and the check of a token's
    signature, issuer, audience and expiry under one key and algorithm. *)
Class Jwt := {
  JwkSet : Type;
  DecodingKey : Type;
  decode_header : string → option (JwtAlgorithm * option string);
  find_key : JwkSet → string → option (option DecodingKey);
  decode_claims : string → DecodingKey → JwtAlgorithm → string → string → option IdentityClaims;
}.
Record OidcVerifier := { issuer : string; audience : string; jwks_uri : string }.

Section oidc.
Context {JW : Jwt}.

(** [fetch_jwks] is the provider's answer. *)
Definition verify (fetch_jwks : string → option JwkSet) (v : OidcVerifier) (token : string) :
    result string IdentityClaims :=
  '(algorithm, kid) ← ok_or (decode_header token) "decode OIDC token header";
  kid ← ok_or kid "OIDC token is missing kid";
  jwks ← ok_or (fetch_jwks (jwks_uri v)) "decode JWKS";
  jwk ← ok_or (find_key jwks kid) "OIDC signing key not found";
  key ← ok_or jwk "invalid JWK";
  _ ← ensure (bool_decide (algorithm ∈ allowed_algorithms)) "OIDC signing algorithm is not allowed";
  ok_or (decode_claims token key algorithm (issuer v) (audience v)) "invalid token".
(** The discovery document: its issuer and where its keys are. *)
Definition discover (fetch_document : string → option (string * string)) (issuer audience : string) :
    result string OidcVerifier :=
  let issuer := trim_end_matches "/" issuer in
  '(found, uri) ← ok_or (fetch_document (issuer +:+ "/.well-known/openid-configuration"))
                    "decode OIDC discovery document";
  _ ← ensure (bool_decide (found = issuer)) "OIDC discovery issuer mismatch";
  Ok {| issuer := issuer; audience := audience; jwks_uri := uri |}.
End oidc.

(** The address and the body of the invitation mail. *)
Definition invitation_mail (base_url from email organization accept_url : string) : string * Json :=
  (trim_end_matches "/" base_url +:+ "/emails",
   JObject [("from", JString from); ("to", JArray [JString email]);
            ("subject", JString ("Join " +:+ organization +:+ " on Oath"));
            ("text", JString ("Accept your Oath invitation: " +:+ accept_url))]).

(** ** Billing *)

Record StripeBilling := { secret_key : string; webhook_secret : string }.
(** [hex::decode], HMAC-SHA-256 and [serde_json::from_slice]. *)
Class Webhooks := {
  hex_decode : string → option string;
  hmac_sha256 : string → string → string;
  parse_body : string → option Json;
}.
Definition abs_diff (a b : Z) : Z := Z.abs (a - b).

(** The last time stamp of the header and its signatures. *)
Definition signature_part (acc : option Z * list string) (part : string) : option Z * list string :=
  let '(timestamp, signatures) := acc in
  (match strip_prefix "t=" part with Some v => parse_u64 v | None => timestamp end,
   match strip_prefix "v1=" part with Some v => signatures ++ [v] | None => signatures end).
Definition signature_header (header : string) : option Z * list string :=
  foldl signature_part (None, []) (split_char "," header).

Section billing.
Context {WH : Webhooks}.

Definition verify_webhook (b : StripeBilling) (header body : string) (now : Z) : result string Json :=
  let '(timestamp, signatures) := signature_header header in
  timestamp ← ok_or timestamp "Stripe signature has no timestamp";
  _ ← ensure (bool_decide (abs_diff now timestamp ≤ 300)%Z)
        "Stripe webhook timestamp is outside tolerance";
  let valid := existsb (λ value,
    match hex_decode value with
    | Some candidate =>
        bool_decide (candidate = hmac_sha256 (webhook_secret b)
                                   (pretty timestamp +:+ "." +:+ body))
    | None => false
    end) signatures in
  _ ← ensure valid "invalid Stripe webhook signature";
  ok_or (parse_body body) "invalid JSON".
End billing.

(** ** Metrics *)

(** The counters wrap around. *)
Record RegistryMetrics := {
  m_requests : Z;
  m_stages : Z;
  m_downloads : Z;
  m_denied : Z;
  m_errors : Z;
}.
Definition no_metrics : RegistryMetrics := Build_RegistryMetrics 0 0 0 0 0.
Definition count_request (m : RegistryMetrics) : RegistryMetrics :=
  let '(Build_RegistryMetrics r s d n e) := m in Build_RegistryMetrics (to_u64 (r + 1)) s d n e.
Definition count_stage (m : RegistryMetrics) : RegistryMetrics :=
  let '(Build_RegistryMetrics r s d n e) := m in Build_RegistryMetrics r (to_u64 (s + 1)) d n e.
Definition count_download (m : RegistryMetrics) : RegistryMetrics :=
  let '(Build_RegistryMetrics r s d n e) := m in Build_RegistryMetrics r s (to_u64 (d + 1)) n e.
Definition count_denied (m : RegistryMetrics) : RegistryMetrics :=
  let '(Build_RegistryMetrics r s d n e) := m in Build_RegistryMetrics r s d (to_u64 (n + 1)) e.
Definition count_error (m : RegistryMetrics) : RegistryMetrics :=
  let '(Build_RegistryMetrics r s d n e) := m in Build_RegistryMetrics r s d n (to_u64 (e + 1)).
Definition jint (n : Z) : Json := JNumber (pretty n).
Definition snapshot (m : RegistryMetrics) : Json :=
  JObject [("requests", jint (m_requests m)); ("stages", jint (m_stages m));
           ("downloads", jint (m_downloads m)); ("denied", jint (m_denied m));
           ("errors", jint (m_errors m))].
Definition prometheus_counter (name : string) (n : Z) : string :=
  "# TYPE oath_registry_" +:+ name +:+ "_total counter" +:+ String newline
    ("oath_registry_" +:+ name +:+ "_total " +:+ pretty n +:+ String newline "").
Definition prometheus (m : RegistryMetrics) : string :=
  prometheus_counter "requests" (m_requests m) +:+ prometheus_counter "stages" (m_stages m)
    +:+ prometheus_counter "downloads" (m_downloads m)
    +:+ prometheus_counter "denied" (m_denied m) +:+ prometheus_counter "errors" (m_errors m).

(** ** What the webhook check accepts *)

Definition part_timestamp (part : string) : option (option Z) := parse_u64 <$> strip_prefix "t=" part.
Lemma signature_header_spec header :
  signature_header header =
    (default None (last (omap part_timestamp (split_char "," header))),
     omap (strip_prefix "v1=") (split_char "," header)).
Proof.
  unfold signature_header. generalize (split_char "," header). intros l.
  induction l as [|part l IH] using rev_ind; [done|].
  assert (∀ {B} (f : string → option B),
    omap f (l ++ [part]) = omap f l ++ match f part with Some y => [y] | None => [] end) as Hs.
  { intros B f. by rewrite omap_app. }
  rewrite foldl_snoc, IH, !Hs. unfold signature_part, part_timestamp at 3.
  destruct (strip_prefix "t=" part) as [v|], (strip_prefix "v1=" part) as [u|];
    simpl; rewrite ?last_snoc, ?app_nil_r; try done.
Qed.

Section webhook.
Context {WH : Webhooks}.

(** A webhook is accepted exactly when the last time stamp of its header is within
    five minutes of now and one of its signatures is the hexadecimal HMAC of that time
    stamp and the body under the secret, and the body is JSON; the value is the body's. *)
Lemma verify_webhook_spec b header body now v :
  verify_webhook b header body now = Ok v ↔
    ∃ ts sig, last (omap part_timestamp (split_char "," header)) = Some (Some ts)
      ∧ (Z.abs (now - ts) ≤ 300)%Z
      ∧ sig ∈ omap (strip_prefix "v1=") (split_char "," header)
      ∧ hex_decode sig = Some (hmac_sha256 (webhook_secret b) (pretty ts +:+ "." +:+ body))
      ∧ parse_body body = Some v.
Proof.
  unfold verify_webhook. rewrite signature_header_spec.
  rewrite bind_Ok. setoid_rewrite ok_or_Ok. setoid_rewrite bind_Ok. setoid_rewrite ensure_Ok.
  setoid_rewrite bool_decide_eq_true. setoid_rewrite bind_Ok. setoid_rewrite ensure_Ok.
  setoid_rewrite ok_or_Ok. setoid_rewrite existsb_exists. unfold abs_diff.
  split.
  - intros (ts & Hl & _ & Ht & _ & (sig & Hin & Hs) & Hv). exists ts, sig.
    apply list_elem_of_In in Hin. destruct (hex_decode sig) as [c|] eqn:Ec; [|done].
    apply bool_decide_eq_true in Hs as ->. split_and!; try done.
    by destruct (last _) as [[]|]; simplify_eq/=.
  - intros (ts & sig & Hl & Ht & Hin & Hs & Hv). exists ts. rewrite Hl. split; [done|].
    exists tt. split; [done|]. exists tt. split; [|done]. exists sig. rewrite Hs.
    split; [by apply list_elem_of_In|by apply bool_decide_eq_true].
Qed.
End webhook.
Example password_is_no_step_up :
  has_step_up_authentication (Build_IdentityClaims "s" "i" JNull 0 None false ["pwd"]
    (Some "urn:example:loa:not-mfa")) = false
  ∧ has_step_up_authentication (Build_IdentityClaims "s" "i" JNull 0 None false ["pwd"; "WebAuthn"]
      None) = true
  ∧ has_step_up_authentication (Build_IdentityClaims "s" "i" JNull 0 None false []
      (Some "urn:example:loa:mfa")) = true.
Proof. done. Qed.
