(* ===== verification/EventLog.v ===== *)
(** * oath-registry: the event log ([postgres_api.rs])

    The registry's log of events: appending to it, and its checkpoints. Events come
    from the outbox of the control plane's transactions, or directly from a request.
    [registry_step] is any transaction of the registry, [log_inv] what holds of the log
    after any number of them. *)
From S2P Require Export Merkle ControlPlane Contracts.

(** ** Operations *)

Section log.
Context {SHA : Digest} {JT : JsonText} {B64 : Base64} {ED : Ed25519}.

(** [serde_json::to_string] of a [Value]: its maps iterate in the order of their keys,
    so the text is the canonical one. *)
Definition to_string (event : Json) : string := write event.
Definition direct_key (event : Json) : string := "direct:" +:+ sha256_hex (to_string event).
Definition latest_hash (d : DB) : option string := last (event_hashes d).
Definition event_row (signing_key : SigningKey) (now : Z) (event_key : string) (event : Json)
    (d : DB) : EventRow :=
  let previous := default "GENESIS" (latest_hash d) in
  let event_json := to_string event in
  let event_hash := sha256_hex (previous +:+ event_json) in
  {| er_event_key := event_key; er_event_json := event_json; er_previous_hash := previous;
     er_event_hash := event_hash;
     er_signature := b64_encode (ed_sign signing_key event_hash);
     er_created_at := to_i64 now |}.
(** The transaction, under the log's lock. Event hashes are unique in the table. *)
Definition append_event_keyed (signing_key : SigningKey) (now : Z) (event_key : string)
    (event : Json) (d : DB) : result db_error DB :=
  if decide (event_key ∈ er_event_key <$> events d) then Ok d
  else
    let row := event_row signing_key now event_key event d in
    _ ← ensure (bool_decide (er_event_hash row ∉ event_hashes d)) (UniqueViolation "registry_events");
    Ok (set_events (events d ++ [row]) d).

(** The signed state of the log. *)
Record TransparencyCheckpoint := {
  tc_schema_version : N;
  tc_event_count : nat;
  tc_merkle_root : string;
  tc_latest_hash : option string;
  tc_canonicalization : string;
  tc_public_key : string;
  tc_signature : string;
}.
Definition checkpoint_payload (hashes : list string) : Json := JObject
  [("schema_version", jnat 2); ("event_count", jnat (N.of_nat (length hashes)));
   ("merkle_root", JString (Merkle.merkle_root hashes)); ("latest_hash", jopt JString (last hashes))].
Definition checkpoint_of (signing_key : SigningKey) (hashes : list string) :
    TransparencyCheckpoint := {|
  tc_schema_version := 2; tc_event_count := length hashes; tc_merkle_root := Merkle.merkle_root hashes;
  tc_latest_hash := last hashes; tc_canonicalization := "oath-json-v1";
  tc_public_key := b64_encode (verifying_key signing_key);
  tc_signature := b64_encode (ed_sign signing_key
                    (canonical_json_bytes (checkpoint_payload hashes))) |}.

(** ** Any transaction of the registry *)

Context {SV : Semver} {RO : RowOrder} (maximum : Z) (signing_key : SigningKey).

(** What is appended is an event of the outbox or a direct one; what is marked as
    delivered is in the log. *)
Definition loggable (d : DB) (key : string) (event : Json) : Prop :=
  (∃ row, row ∈ outbox d ∧ ob_event_key row = key ∧ ob_event row = event) ∨ key = direct_key event.
Inductive registry_step : DB → DB → Prop :=
  | reg_transaction d d' : transaction maximum d d' → registry_step d d'
  | reg_append now key event d d' :
      loggable d key event → append_event_keyed signing_key now key event d = Ok d' →
      registry_step d d'
  | reg_delivered now row d :
      row ∈ outbox d → ob_event_key row ∈ er_event_key <$> events d →
      registry_step d (mark_outbox_delivered now (ob_id row) d).

(** ** The log is a chain *)

Fixpoint chained (previous : string) (l : list EventRow) : Prop :=
  match l with
  | [] => True
  | r :: l =>
      er_previous_hash r = previous
      ∧ er_event_hash r = sha256_hex (previous +:+ er_event_json r)
      ∧ er_signature r = b64_encode (ed_sign signing_key (er_event_hash r))
      ∧ chained (er_event_hash r) l
  end.
Record log_inv (d : DB) : Prop := {
  log_chained : chained "GENESIS" (events d);
  log_keys : NoDup (er_event_key <$> events d);
  log_ids : ob_id <$> outbox d = seq 1 (length (outbox d));
  log_sources r : r ∈ events d →
    (∃ row, row ∈ outbox d ∧ ob_event_key row = er_event_key r
            ∧ er_event_json r = to_string (ob_event row))
    ∨ er_event_key r = "direct:" +:+ sha256_hex (er_event_json r);
  log_delivered row : row ∈ outbox d → ob_delivered_at row ≠ None →
    ob_event_key row ∈ er_event_key <$> events d;
}.

Lemma chained_snoc prev l r :
  chained prev l →
  er_previous_hash r = default prev (last (er_event_hash <$> l)) →
  er_event_hash r = sha256_hex (er_previous_hash r +:+ er_event_json r) →
  er_signature r = b64_encode (ed_sign signing_key (er_event_hash r)) →
  chained prev (l ++ [r]).
Proof.
  revert prev. induction l as [|x l IH]; intros prev; simpl.
  - intros _ -> ? ?. done.
  - intros (? & ? & ? & ?) Hp ? ?. split_and!; [done..|]. apply IH; [done| |done|done].
    rewrite Hp. csimpl. rewrite last_cons. by destruct (last _).
Qed.
End log.

(** ** What the control plane does to the log and the outbox *)

(** Rows stay, but for their attempts; new ones are not delivered. *)
Definition same_row (r r' : OutboxRow) : Prop :=
  ob_id r' = ob_id r ∧ ob_event_key r' = ob_event_key r ∧ ob_event r' = ob_event r
  ∧ ob_delivered_at r' = ob_delivered_at r.
Definition log_frame (d d' : DB) : Prop :=
  events d' = events d
  ∧ ∃ l new, outbox d' = l ++ new ∧ Forall2 same_row (outbox d) l
      ∧ Forall (λ r, ob_delivered_at r = None) new
      ∧ ob_id <$> new = seq (S (length (outbox d))) (length new).

Lemma same_rows l : Forall2 same_row l l.
Proof. apply Forall_Forall2_diag, Forall_forall. by repeat split. Qed.
Lemma frame_same d d' : events d' = events d → outbox d' = outbox d → log_frame d d'.
Proof.
  intros He Ho. split; [done|]. exists (outbox d), []. rewrite app_nil_r.
  split_and!; [done|apply same_rows|constructor|done].
Qed.
Lemma frame_push now k e d d1 d' :
  push_outbox now k e d1 = Ok d' → events d1 = events d → outbox d1 = outbox d → log_frame d d'.
Proof.
  unfold push_outbox. case_decide; [done|]. intros [= <-] He Ho. split; [done|].
  eexists (outbox d), [_]. cbn. rewrite Ho. split_and!; [done|apply same_rows|by constructor|done].
Qed.
Lemma frame_update id f d :
  (∀ r, same_row r (f r)) → log_frame d (update_outbox id f d).
Proof.
  intros Hf. split; [done|]. eexists _, []. rewrite app_nil_r.
  split_and!; [done| |constructor|done]. simpl. apply Forall2_fmap_r, Forall_Forall2_diag, Forall_forall.
  intros r _. simpl. case_decide; [done|by repeat split].
Qed.

Lemma transaction_frame {SV : Semver} {RO : RowOrder} maximum d d' :
  transaction maximum d d' → log_frame d d'.
Proof.
  intros H. destruct H as
    [now s k e d b d' Hs H|now s ap reason k e d b d' r Hr Hs H
    |now name ver status reason actor at_ sig key k e seen tagged d b d' Hs Hsub H|name ver d d' H
    |now org hash role d d' H|hash org role expires kind d d' H|now su bu most window d b d' H
    |cutoff d|name owner principal role d d' H|hash org email role expires d d' H|now hash org d
    |now hash subject email d o d' H|now id type payload d|now id d d' H].
  - unfold create_stage in H. case_decide; [injection H as _ <-; by apply frame_same|].
    apply bind_Ok in H as (d1 & H1 & H). do 3 apply bind_Ok in H as (? & _ & H).
    apply bind_Ok in H as (d2 & H2 & H). apply bind_Ok in H as (d3 & H3 & [= _ <-]).
    assert (events d1 = events d ∧ outbox d1 = outbox d) as [E1 O1].
    { unfold ensure_package in H1. destruct (ControlPlane.packages d !! _); [by simplify_eq|].
      by apply bind_Ok in H1 as (? & _ & [= <-]). }
    unfold insert_stage in H2. do 3 apply bind_Ok in H2 as (? & _ & H2). injection H2 as <-.
    by eapply frame_push.
  - unfold decide_stage in H. rewrite Hr in H. case_decide; [|injection H as _ <-; by apply frame_same].
    apply bind_Ok in H as (d1 & H1 & H). apply bind_Ok in H as (d2 & H2 & [= _ <-]).
    destruct ap; [|injection H1 as <-; by eapply frame_push].
    do 2 apply bind_Ok in H1 as (? & _ & H1). injection H1 as <-. by eapply frame_push.
  - unfold revoke_version in H. destruct (versions d !! _); [|injection H as _ <-; by apply frame_same].
    apply bind_Ok in H as (d2 & H2 & [= _ <-]). by eapply frame_push.
  - unfold record_download in H. destruct (versions d !! _).
    + apply bind_Ok in H as (? & _ & [= <-]). by apply frame_same.
    + injection H as <-. by apply frame_same.
  - injection H as <-. by apply frame_same.
  - unfold insert_token in H. do 2 apply bind_Ok in H as (? & _ & H). injection H as <-. by apply frame_same.
  - unfold consume_rate_limit in H. apply bind_Ok in H as (? & _ & [= _ <-]). by apply frame_same.
  - by apply frame_same.
  - unfold grant_package_role in H. do 2 apply bind_Ok in H as (? & _ & H). injection H as <-. by apply frame_same.
  - unfold create_invitation in H. do 2 apply bind_Ok in H as (? & _ & H). injection H as <-. by apply frame_same.
  - apply frame_same; unfold revoke_invitation; destruct (invitations d !! hash); try done; by case_decide.
  - unfold accept_invitation in H. destruct (invitations d !! hash); [|injection H as _ <-; by apply frame_same].
    case_decide; [|injection H as _ <-; by apply frame_same].
    do 2 apply bind_Ok in H as (? & _ & H). injection H as _ <-. by apply frame_same.
  - apply frame_same; unfold record_billing_event; by destruct (billing_events d !! id).
  - unfold retry_outbox in H. apply bind_Ok in H as (? & _ & [= <-]). by apply frame_update.
Qed.

(** ** The log over time *)

Section over_time.
Context {SHA : Digest} {JT : JsonText} {B64 : Base64} {ED : Ed25519}.
Context {SV : Semver} {RO : RowOrder} (maximum : Z) (signing_key : SigningKey).
Notation registry_step := (registry_step maximum signing_key).
Notation log_inv := (log_inv signing_key).

Lemma append_Ok now key event d d' :
  append_event_keyed signing_key now key event d = Ok d' →
  (d' = d ∧ key ∈ er_event_key <$> events d)
  ∨ (key ∉ er_event_key <$> events d
     ∧ d' = set_events (events d ++ [event_row signing_key now key event d]) d).
Proof.
  unfold append_event_keyed. case_decide; [intros [= <-]; by left|].
  intros (? & _ & [= <-])%bind_Ok. by right.
Qed.
Lemma frame_row d d' row' :
  log_frame d d' → row' ∈ outbox d' → ob_delivered_at row' ≠ None →
  ∃ row, row ∈ outbox d ∧ same_row row row'.
Proof.
  intros (_ & l & new & -> & Hl & Hnew & _) [Hin|Hin]%elem_of_app Hd.
  - apply list_elem_of_lookup_1 in Hin as [i Hi].
    destruct (Forall2_lookup_r _ _ _ _ _ Hl Hi) as (row & Hrow & Hs).
    exists row. split; [by eapply list_elem_of_lookup_2|done].
  - rewrite Forall_forall in Hnew. by apply Hnew in Hin.
Qed.
Lemma frame_row_kept d d' row :
  log_frame d d' → row ∈ outbox d → ∃ row', row' ∈ outbox d' ∧ same_row row row'.
Proof.
  intros (_ & l & new & -> & Hl & _) Hin. apply list_elem_of_lookup_1 in Hin as [i Hi].
  destruct (Forall2_lookup_l _ _ _ _ _ Hl Hi) as (row' & Hrow & Hs).
  exists row'. rewrite elem_of_app. split; [left; by eapply list_elem_of_lookup_2|done].
Qed.
Lemma frame_log_inv d d' : log_frame d d' → log_inv d → log_inv d'.
Proof.
  intros F [Hc Hk Hi Hs Hd]. pose proof F as (He & l & new & Ho & Hl & Hnew & Hids).
  split; rewrite ?He; try done.
  - assert (ob_id <$> l = ob_id <$> outbox d) as El.
    { clear -Hl. induction Hl as [|r r' ? ? (? & _) _ IH]; csimpl; congruence. }
    rewrite Ho, fmap_app, El, Hi, Hids, length_app, seq_app.
    by rewrite (Forall2_length _ _ _ Hl).
  - intros r Hr. destruct (Hs r Hr) as [(row & Hrow & Hk1 & Hj)|?]; [left|by right].
    destruct (frame_row_kept _ _ _ F Hrow) as (row' & Hin & _ & E1 & E2 & _).
    exists row'. by rewrite E1, E2.
  - intros row' Hin Hdel. destruct (frame_row _ _ _ F Hin Hdel) as (row & Hrow & _ & E1 & _ & E2).
    rewrite E1. apply Hd; [done|congruence].
Qed.
Lemma append_log_inv now key event d d' :
  loggable d key event → append_event_keyed signing_key now key event d = Ok d' →
  log_inv d → log_inv d'.
Proof.
  intros Hg H I. apply append_Ok in H as [[-> _]|[Hn ->]]; [done|].
  destruct I as [Hc Hk Hi Hs Hd]. split; simpl; try done.
  - apply chained_snoc; done.
  - rewrite fmap_app. apply NoDup_app. split; [done|]. split; [|apply NoDup_singleton].
    intros x Hx Hy%list_elem_of_singleton. cbn in Hy. by subst.
  - intros r [Hr|Hr%list_elem_of_singleton]%elem_of_app; [by apply Hs|]. subst r. cbn.
    destruct Hg as [(row & Hrow & <- & <-)| ->]; [left; by exists row|by right].
  - intros row Hrow Hdel. rewrite fmap_app, elem_of_app. left. by apply Hd.
Qed.
Lemma delivered_log_inv now row d :
  row ∈ outbox d → ob_event_key row ∈ er_event_key <$> events d →
  log_inv d → log_inv (mark_outbox_delivered now (ob_id row) d).
Proof.
  intros Hrow Hlog [Hc Hk Hi Hs Hd]. unfold mark_outbox_delivered, update_outbox.
  split; simpl; try done.
  - rewrite length_fmap, <- Hi, <- list_fmap_compose. apply list_fmap_ext. intros i r _. simpl. by case_decide.
  - intros r Hr. destruct (Hs r Hr) as [(o & Ho & Hk1 & Hj)|?]; [left|by right].
    eexists. split; [by apply list_elem_of_fmap_2|]. simpl. by case_decide.
  - intros r' (r & -> & Hr)%list_elem_of_fmap. simpl. case_decide as Hid; [|by apply Hd].
    intros _. simpl. assert (r = row) as ->; [|done].
    apply list_elem_of_lookup_1 in Hr as [i Hr']. apply list_elem_of_lookup_1 in Hrow as [j Hrow'].
    assert (NoDup (ob_id <$> outbox d)) as HN by (rewrite Hi; apply NoDup_seq).
    assert (i = j) as ->; [|congruence].
    eapply (NoDup_lookup (ob_id <$> outbox d)); [done|by rewrite list_lookup_fmap, Hr'|].
    rewrite list_lookup_fmap, Hrow'. simpl. by rewrite Hid.
Qed.
Lemma registry_step_log d d' :
  registry_step d d' → log_inv d → log_inv d' ∧ events d `prefix_of` events d'.
Proof.
  intros H I. destruct H as [d d' H|now key event d d' Hg H|now row d Hr Hl].
  - apply transaction_frame in H as F. split; [by eapply frame_log_inv|]. by destruct F as [-> _].
  - split; [by eapply append_log_inv|]. apply append_Ok in H as [[-> _]|[_ ->]]; [done|].
    by apply prefix_app_r.
  - split; [by apply delivered_log_inv|done].
Qed.
Lemma registry_steps_log d d' :
  rtc registry_step d d' → log_inv d → log_inv d' ∧ events d `prefix_of` events d'.
Proof.
  induction 1 as [d|d d1 d' H _ IH]; [done|]. intros I.
  destruct (registry_step_log _ _ H I) as [I1 P1]. destruct (IH I1) as [I2 P2].
  split; [done|]. by etrans.
Qed.
Lemma log_inv_empty : log_inv empty_db.
Proof. split; simpl; [done|constructor|done|by intros r ?%elem_of_nil..]. Qed.
Lemma registry_step_step d d' : registry_step d d' → step maximum d d'.
Proof.
  intros [d1 d1' H|now key event d1 d1' _ H|now row d1 _ _];
    [by apply step_transaction| |apply step_delivered].
  apply append_Ok in H as [[-> _]|[_ ->]]; [|apply step_events].
  replace d1 with (set_events (events d1) d1) at 2 by by destruct d1. apply step_events.
Qed.
End over_time.

(** ** The log's theorems *)

Section theorems.
Context {SHA : Digest} {JT : JsonText} {B64 : Base64} {ED : Ed25519}.
Context {SV : Semver} {RO : RowOrder} (maximum : Z) (signing_key : SigningKey).
Notation registry_step := (registry_step maximum signing_key).

(** What is hashed for the events of a log. *)
Fixpoint log_inputs (previous : string) (l : list EventRow) : list string :=
  match l with
  | [] => []
  | r :: l => (previous +:+ er_event_json r) :: log_inputs (er_event_hash r) l
  end.
Lemma log_inputs_snoc p l r :
  log_inputs p (l ++ [r]) = log_inputs p l ++ [default p (last (er_event_hash <$> l)) +:+ er_event_json r].
Proof.
  revert p. induction l as [|x l IH]; intros p; [done|]. cbn [app log_inputs]. rewrite IH. csimpl.
  rewrite last_cons. by destruct (last _).
Qed.
(** The last hash of as many events binds all of them. *)
Lemma chained_binds l k :
  chained signing_key "GENESIS" l → chained signing_key "GENESIS" k → length l = length k →
  last (er_event_hash <$> l) = last (er_event_hash <$> k) →
  er_event_json <$> l = er_event_json <$> k
  ∨ collision (log_inputs "GENESIS" l ++ log_inputs "GENESIS" k).
Proof.
  intros Hl Hk Hlen. revert k Hk Hlen. induction l as [|r l IH] using rev_ind; intros k Hk Hlen.
  { by destruct k; [left|]. }
  destruct k as [|s k _] using rev_ind; [rewrite length_app in Hlen; simpl in Hlen; lia|].
  rewrite !length_app in Hlen. simpl in Hlen. rewrite !fmap_app. csimpl. rewrite !last_snoc.
  intros [= Eh].
  assert (∀ p m x, chained signing_key p (m ++ [x]) → chained signing_key p m
    ∧ er_event_hash x = sha256_hex (default p (last (er_event_hash <$> m)) +:+ er_event_json x)) as Hsnoc.
  { clear. intros p m. revert p. induction m as [|y m IH]; intros p x; simpl; [by intros (_ & -> & _)|].
    intros (? & ? & ? & [? ->]%IH). split; [done|]. csimpl. rewrite last_cons. by destruct (last _). }
  apply Hsnoc in Hl as [Hl El]. apply Hsnoc in Hk as [Hk Ek].
  rewrite !log_inputs_snoc. rewrite El, Ek in Eh. apply sha256_inj in Eh as [E|]; [|wider].
  assert (∀ m, chained signing_key "GENESIS" m → m ≠ [] →
    String.length (default "GENESIS" (last (er_event_hash <$> m))) = 64) as H64.
  { clear -Hsnoc. intros m Hm Hne. destruct m as [|x m _] using rev_ind; [done|].
    apply Hsnoc in Hm as [_ Ex]. rewrite fmap_app. csimpl. rewrite last_snoc. simpl.
    rewrite Ex. apply sha256_hex_length. }
  assert (String.length (default "GENESIS" (last (er_event_hash <$> l)))
          = String.length (default "GENESIS" (last (er_event_hash <$> k)))) as Hl64.
  { destruct l as [|x l], k as [|y k]; simpl in Hlen; first [lia|by rewrite !H64]. }
  apply str_app_inj_len in E as [Ep Ej]; [|done].
  destruct (IH Hl k Hk) as [IHe|?]; [lia| |left; congruence|wider].
  destruct l as [|x l], k as [|y k]; simpl in Hlen; try lia; [done|].
  destruct (last (er_event_hash <$> x :: l)) as [a|] eqn:E1;
    [|by apply last_None in E1]. destruct (last (er_event_hash <$> y :: k)) as [b|] eqn:E2;
    [|by apply last_None in E2]. simpl in Ep. by subst.
Qed.

(** (C9) What the log is, after any transactions in any order: a chain of hashes from
    GENESIS, each record signed by the registry, in which an outbox event is at most
    once, and at least once when it is marked as delivered; every record is an event of
    the outbox or a direct one. A checkpoint binds the log: two logs of as many events
    with the same latest hash hold the same events, unless two of the texts hashed for
    their events have one SHA-256 digest. *)
Theorem event_log_spec d :
  rtc registry_step empty_db d →
  chained signing_key "GENESIS" (events d)
  ∧ NoDup (er_event_key <$> events d)
  ∧ (∀ row, row ∈ outbox d → ob_delivered_at row ≠ None →
       ob_event_key row ∈ er_event_key <$> events d)
  ∧ (∀ r, r ∈ events d →
       (∃ row, row ∈ outbox d ∧ ob_event_key row = er_event_key r
               ∧ er_event_json r = to_string (ob_event row))
       ∨ er_event_key r = "direct:" +:+ sha256_hex (er_event_json r))
  ∧ (∀ d', rtc registry_step empty_db d' →
       tc_event_count (checkpoint_of signing_key (event_hashes d))
         = tc_event_count (checkpoint_of signing_key (event_hashes d')) →
       latest_hash d = latest_hash d' →
       er_event_json <$> events d = er_event_json <$> events d'
       ∨ collision (log_inputs "GENESIS" (events d) ++ log_inputs "GENESIS" (events d'))).
Proof.
  intros Hr. destruct (registry_steps_log _ _ _ _ Hr (log_inv_empty _)) as [I _].
  split; [apply I|]. split; [apply I|]. split; [apply I|]. split; [apply I|].
  intros d' Hr' Hlen Hlast. destruct (registry_steps_log _ _ _ _ Hr' (log_inv_empty _)) as [I' _].
  unfold checkpoint_of, event_hashes in Hlen. cbn in Hlen. rewrite !length_fmap in Hlen.
  apply chained_binds; [apply I|apply I'|done|done].
Qed.

(** (C15) The log is append-only, and clients can check it: whatever transactions run
    between two checkpoints, the earlier events are the first of the later ones; both
    checkpoints' signatures verify; and the consistency proof the registry gives for
    the earlier size is accepted between the two roots. *)
Theorem checkpoints_consistent d d' :
  rtc registry_step empty_db d → rtc registry_step d d' →
  (Z.of_nat (length (events d')) ≤ usize_max)%Z →
  events d `prefix_of` events d'
  ∧ (let c := checkpoint_of signing_key (event_hashes d) in
     let c' := checkpoint_of signing_key (event_hashes d') in
     ∃ proof, merkle_consistency_proof (event_hashes d') (tc_event_count c) = Some proof
       ∧ verify_merkle_consistency proof (tc_merkle_root c) (tc_merkle_root c') = true)
  ∧ verify_json (checkpoint_payload (event_hashes d))
      {| algorithm := "ed25519"; canonicalization := "oath-json-v1";
         public_key := tc_public_key (checkpoint_of signing_key (event_hashes d));
         signature := tc_signature (checkpoint_of signing_key (event_hashes d)) |} = Ok tt.
Proof.
  intros Hr Hs Hu. destruct (registry_steps_log _ _ _ _ Hr (log_inv_empty _)) as [I _].
  destruct (registry_steps_log _ _ _ _ Hs I) as [_ [l Hl]].
  split; [by exists l|]. split; [|exact (sign_json_verifies (checkpoint_payload (event_hashes d)) signing_key)].
  cbn. pose proof (merkle_consistency_complete (event_hashes d') (length (event_hashes d))) as Hm.
  destruct (merkle_consistency_proof _ _) as [proof|].
  - destruct Hm as (_ & _ & _ & Hv); [by unfold event_hashes; rewrite length_fmap|].
    exists proof. split; [done|]. unfold event_hashes in *. rewrite Hl, fmap_app in Hv.
    rewrite take_app_length in Hv. by rewrite Hl, fmap_app.
  - unfold event_hashes in Hm. rewrite !length_fmap in Hm.
    exfalso. specialize (Hm Hu). rewrite Hl, length_app in Hm. lia.
Qed.

(** A direct event that is already in the log is not logged again. *)
Lemma direct_event_once now event d d' now' :
  append_event_keyed signing_key now (direct_key event) event d = Ok d' →
  append_event_keyed signing_key now' (direct_key event) event d' = Ok d'.
Proof.
  intros [[-> Hin]|[_ ->]]%append_Ok; unfold append_event_keyed; rewrite decide_True; [done..|].
  cbn. rewrite fmap_app. set_solver.
Qed.
End theorems.

(** ** An instance *)

(** A digest that depends on the end of its input. *)
Definition tail_digest : Digest := {|
  sha256_hex s := toy_sha256 (of_chars (reverse (chars s)));
  sha256_hex_length s := @sha256_hex_length toy_digest _;
  sha256_hex_digits s := @sha256_hex_digits toy_digest _ |}.
#[local] Existing Instance tail_digest.
#[local] Existing Instance Contracts.toy_json_text.
#[local] Existing Instance toy_semver.
#[local] Existing Instance ControlPlane.list_order.
#[local] Existing Instance plain_base64.
#[local] Existing Instance digest_ed25519.

Definition demo_key : @SigningKey digest_ed25519 := tt.
Definition demo_event (n : N) : Json := JObject [("n", jnat n)].
Definition demo_log (n : N) (d : DB) : DB :=
  set_events (events d ++ [event_row demo_key 100 (direct_key (demo_event n)) (demo_event n) d]) d.
Lemma demo_append n d :
  direct_key (demo_event n) ∉ er_event_key <$> events d →
  er_event_hash (event_row demo_key 100 (direct_key (demo_event n)) (demo_event n) d) ∉ event_hashes d →
  registry_step 100 demo_key d (demo_log n d).
Proof.
  intros Hk Hh. apply (reg_append 100 demo_key 100 (direct_key (demo_event n)) (demo_event n)); [by right|].
  unfold append_event_keyed. rewrite decide_False by done. by rewrite bool_decide_eq_true_2.
Qed.
Lemma demo_log_1 : rtc (registry_step 100 demo_key) empty_db (demo_log 1 empty_db).
Proof. apply rtc_once, demo_append; apply not_elem_of_nil. Qed.
Lemma demo_log_2 : rtc (registry_step 100 demo_key) (demo_log 1 empty_db) (demo_log 2 (demo_log 1 empty_db)).
Proof.
  apply rtc_once, demo_append; intros H%list_elem_of_singleton; by vm_compute in H.
Qed.
Lemma event_log_spec_witness :
  rtc (registry_step 100 demo_key) empty_db (demo_log 1 empty_db)
  ∧ chained demo_key "GENESIS" (events (demo_log 1 empty_db)).
Proof.
  split; [exact demo_log_1|]. exact (proj1 (event_log_spec 100 demo_key (demo_log 1 empty_db) demo_log_1)).
Defined.
Lemma checkpoints_consistent_witness :
  rtc (registry_step 100 demo_key) empty_db (demo_log 1 empty_db)
  ∧ rtc (registry_step 100 demo_key) (demo_log 1 empty_db) (demo_log 2 (demo_log 1 empty_db))
  ∧ ∃ proof, merkle_consistency_proof (event_hashes (demo_log 2 (demo_log 1 empty_db))) 1 = Some proof.
Proof.
  split; [exact demo_log_1|]. split; [exact demo_log_2|].
  destruct (checkpoints_consistent 100 demo_key (demo_log 1 empty_db) (demo_log 2 (demo_log 1 empty_db))
    demo_log_1 demo_log_2) as (_ & (proof & H & _) & _); [vm_compute; discriminate|].
  exists proof. exact H.
Defined.
