(* ===== verification/Registry.v ===== *)
(** * oath-registry: the service ([postgres_api.rs])

    The HTTP handlers as programs of atomic actions ([Prog.v]): transactions of the
    control plane and of the event log, accesses to the artifact store, the clock, the
    random generator, the mailer. Requests run among others; every theorem about a
    handler holds whatever happens between two of its actions. *)
From S2P Require Export Objects Identity Assessment EventLog Prog.

(** ** Errors *)

Inductive StatusCode :=
  | BadRequest | Unauthorized | Forbidden | NotFoundStatus | ConflictStatus | TooManyRequests
  | InternalServerError.
#[export] Instance StatusCode_eq_dec : EqDecision StatusCode.
Proof. solve_decision. Defined.
Definition status_number (s : StatusCode) : N :=
  match s with
  | BadRequest => 400 | Unauthorized => 401 | Forbidden => 403 | NotFoundStatus => 404
  | ConflictStatus => 409 | TooManyRequests => 429 | InternalServerError => 500
  end.
Record ApiError := { err_status : StatusCode; err_message : string }.
Definition bad (m : string) : ApiError := Build_ApiError BadRequest m.
Definition unauthorized : ApiError := Build_ApiError Unauthorized "invalid or missing bearer token".
Definition forbidden (m : string) : ApiError := Build_ApiError Forbidden m.
Definition conflict (m : string) : ApiError := Build_ApiError ConflictStatus m.
Definition too_many_requests (m : string) : ApiError := Build_ApiError TooManyRequests m.
Definition not_found (m : string) : ApiError := Build_ApiError NotFoundStatus m.
Definition internal (m : string) : ApiError := Build_ApiError InternalServerError m.
(** The response of an error: its status and body. *)
Definition error_response (e : ApiError) : N * Json :=
  (status_number (err_status e), JObject [("error", JString (err_message e))]).

(** ** The world a request runs in *)

(** A transaction can be lost with its connection: before or after it committed. *)
Inductive DbFault := RolledBack | Committed.
(** The database, the artifacts and the files; the clock in seconds, the next random
    bytes if there are any, where the next temporary directory is, whether mail can be
    sent, the mails sent, the identity provider's keys, the counters. *)
Record World := {
  w_db : DB;
  w_fault : option DbFault;
  w_objects : ArtifactStore;
  w_fs : Fs;
  w_temp : string;
  w_now : Z;
  w_random : option string;
  w_mailer_up : bool;
  w_mails : list (string * Json);
  w_metrics : RegistryMetrics;
}.
Definition set_db (d : DB) (w : World) : World :=
  Build_World d (w_fault w) (w_objects w) (w_fs w) (w_temp w) (w_now w) (w_random w)
    (w_mailer_up w) (w_mails w) (w_metrics w).
Definition set_objects (a : ArtifactStore) (w : World) : World :=
  Build_World (w_db w) (w_fault w) a (w_fs w) (w_temp w) (w_now w) (w_random w)
    (w_mailer_up w) (w_mails w) (w_metrics w).
Definition set_fs (fs : Fs) (w : World) : World :=
  Build_World (w_db w) (w_fault w) (w_objects w) fs (w_temp w) (w_now w) (w_random w)
    (w_mailer_up w) (w_mails w) (w_metrics w).
Definition set_mails (m : list (string * Json)) (w : World) : World :=
  Build_World (w_db w) (w_fault w) (w_objects w) (w_fs w) (w_temp w) (w_now w) (w_random w)
    (w_mailer_up w) m (w_metrics w).
Definition set_metrics (m : RegistryMetrics) (w : World) : World :=
  Build_World (w_db w) (w_fault w) (w_objects w) (w_fs w) (w_temp w) (w_now w) (w_random w)
    (w_mailer_up w) (w_mails w) m.

Notation api := (prog World ApiError).

(** What the service is configured with. *)
Record Settings {ED : Ed25519} := {
  signing_key : SigningKey;
  oidc : option OidcVerifier;
  mailer : option (string * string);
  public_url : string;
  invitation_accept_url : option string;
  max_stage_request_bytes : Z;
  billing : option StripeBilling;
  require_step_up_approval : bool;
  requests_per_minute : Z;
  maximum_pending_stages : Z;
}.
Arguments Settings : clear implicits.

(** ** Requests *)

Record Headers := { authorization : option string; stripe_signature : option string }.
Record StageRequest := {
  rq_name : string;
  rq_version : string;
  rq_tag : string;
  rq_tarball_base64 : string;
  rq_assessment : Json;
  rq_private : bool;
}.
Definition latest_tag : string := "latest".
Record RevokeRequest := { rv_reason : string; rv_quarantine : bool }.
Record TokenRequest := { tr_role : string; tr_ttl_secs : Z }.
Definition default_token_ttl : Z := 3600.
Record PackageRoleRequest := { pr_principal_org : string; pr_new_role : string }.
Record InvitationRequest := { ir_email : string; ir_role : string; ir_ttl_secs : Z }.
Definition invitation_ttl : Z := 86400.

(** Roles that a request may name, and those that may publish. *)
Definition known_role (role : string) : bool :=
  bool_decide (role = "reader" ∨ role = "publisher" ∨ role = "admin").
Definition can_publish (role : string) : bool :=
  bool_decide (role = "publisher" ∨ role = "admin").

(** Members of a JSON map. *)
Fixpoint jinsert_member (k : string) (v : Json) (l : list (string * Json)) : list (string * Json) :=
  match l with
  | [] => [(k, v)]
  | (k', v') :: l => if decide (k' = k) then (k, v) :: l else (k', v') :: jinsert_member k v l
  end.
(** [value[key]]: null when there is none. *)
Definition jindex (k : string) (j : Json) : Json := default JNull (jget k j).
Definition is_string (j : Json) : bool := match j with JString _ => true | _ => false end.

(** ** Libraries and services

    The texts of times ([chrono]), the walk of a directory, the text of a header
    ([HeaderValue::to_str]), URL-safe base64, form encoding, the texts of database
    errors, Stripe's checkout and the identity provider's keys. *)
Class Surroundings {ED : Ed25519} {JW : Jwt} := {
  rfc3339_secs : Z → option string;
  rfc3339 : Z → option string;
  walk_dir : list string → Fs → PkgJson * list Entry;
  header_text : string → option string;
  url_safe_base64 : string → string;
  byte_serialize : string → string;
  error_text : db_error → string;
  create_checkout : StripeBilling → string → string → string → string → option string;
  fetch_jwks : Z → string → option JwkSet;
}.

Section service.
Context {SHA : Digest} {JT : JsonText} {B64 : Base64} {ED : Ed25519} {SV : Semver} {RO : RowOrder}.
Context {OP : ObjectPaths} {JW : Jwt} {WH : Webhooks} {AR : Archives} {RX : Regex} {OX : Oxc}.
Context {SU : Surroundings} (reg : Settings ED).

(** *** Actions *)

(** A transaction; every error is an internal one. *)
Definition tx_at {B} (t : Z → DB → result db_error (B * DB)) (w : World) :
    result ApiError B * World :=
  match t (w_now w) (w_db w) with
  | Err e => (Err (internal (error_text e)), w)
  | Ok (b, d) =>
      match w_fault w with
      | None => (Ok b, set_db d w)
      | Some RolledBack => (Err (internal "connection lost"), w)
      | Some Committed => (Err (internal "connection lost"), set_db d w)
      end
  end.
Definition tx {B} (t : Z → DB → result db_error (B * DB)) : api B := action (tx_at t).
Definition tx_ (t : Z → DB → result db_error DB) : api unit :=
  tx (λ now d, (λ d', (tt, d')) <$> t now d).
Definition query {B} (f : Z → DB → B) : api B := tx (λ now d, Ok (f now d, d)).
(** [crate::now()] *)
Definition now : api Z := ask w_now.
(** 32 random bytes as URL-safe text. *)
Definition random_token : api string :=
  r ← ask w_random;
  bytes ← lift (ok_or r (internal "random generator failed"));
  mret (url_safe_base64 bytes).
Definition put_artifact (digest bytes : string) : api unit :=
  action (λ w, let '(r, a) := put_immutable digest bytes (w_objects w) in
               (match r with Ok u => Ok u | Err e => Err (internal e) end, set_objects a w)).
Definition get_artifact (digest : string) : api string :=
  action (λ w, let '(r, a) := fetch digest (w_objects w) in
               (match r with Ok b => Ok b | Err e => Err (internal e) end, set_objects a w)).
Definition assess (tarball : string) (manifest : Json) (name version publisher : string) :
    api RegistryAssessmentBundle :=
  action (λ w, let '(r, fs) := assess_tarball parse_body rfc3339_secs walk_dir (w_temp w) tarball
                 manifest name version publisher (public_url reg) (w_now w) (w_fs w) in
               (match r with
                | Ok b => Ok b
                | Err e => Err (bad ("server assessment failed: " +:+ e))
                end, set_fs fs w)).
Definition count (f : RegistryMetrics → RegistryMetrics) : api unit :=
  action (λ w, (Ok tt, set_metrics (f (w_metrics w)) w)).
(** [mailer.send_invitation(..)] *)
Definition send_invitation (m : string * string) (email organization accept_url : string) : api unit :=
  action (λ w, if w_mailer_up w
               then (Ok tt, set_mails (w_mails w ++ [invitation_mail m.1 m.2 email organization accept_url]) w)
               else (Err (internal "send invitation email"), w)).

(** *** Who asks *)

Definition bearer_optional (headers : Headers) : result ApiError (option string) :=
  match authorization headers with
  | None => Ok None
  | Some value =>
      value ← ok_or (header_text value) unauthorized;
      '(scheme, token) ← ok_or (split_once " " value) unauthorized;
      if negb (eq_ignore_ascii_case scheme "bearer") || bool_decide (token = "")
         || negb (bool_decide (split_whitespace token = [token]))
      then Err unauthorized else Ok (Some token)
  end.
Definition bearer (headers : Headers) : result ApiError string :=
  token ← bearer_optional headers; ok_or token unauthorized.
Definition authenticate (headers : Headers) : api Principal :=
  token ← lift (bearer headers);
  p ← query (λ now, ControlPlane.authenticate now (sha256_hex token));
  lift (ok_or p unauthorized).
Definition authenticate_optional (headers : Headers) : api (option Principal) :=
  token ← lift (bearer_optional headers);
  match token with
  | None => mret None
  | Some token =>
      p ← query (λ now, ControlPlane.authenticate now (sha256_hex token));
      lift (Some <$> ok_or p unauthorized)
  end.
(** [name.strip_prefix('@').and_then(|v| v.split('/').next())] *)
Definition scope_of (name : string) : option string :=
  rest ← RustStr.strip_prefix "@" name; head (split_char "/" rest).
(** The owner of the package, when the principal may read or write it. *)
Definition authorize_name (principal : Principal) (name : string) (write : bool) : api string :=
  package ← query (λ _, package name);
  match package with
  | Some package =>
      if decide (pk_organization package = pr_organization principal) then
        _ ← check (negb (write && negb (can_publish (pr_role principal))))
              (forbidden "publisher role required");
        mret (pk_organization package)
      else
        role ← query (λ _, package_role name (pr_organization principal));
        let allowed := match role with
                       | Some role => if write then can_publish role else true
                       | None => false
                       end in
        _ ← check allowed (forbidden "package belongs to another organization");
        mret (pk_organization package)
  | None =>
      _ ← check write (not_found "package not found");
      _ ← check (can_publish (pr_role principal)) (forbidden "publisher role required");
      _ ← check (match scope_of name with
                 | Some scope => bool_decide (scope = pr_organization principal)
                 | None => true
                 end) (forbidden "package scope belongs to another organization");
      mret (pr_organization principal)
  end.

(** *** Events *)

Definition append_keyed (event_key : string) (event : Json) : api unit :=
  tx_ (λ now, append_event_keyed (signing_key reg) now event_key event).
Definition append_event (event : Json) : api unit := append_keyed (direct_key event) event.
Fixpoint drain_rows (pending : list OutboxRow) (delivered : nat) : api nat :=
  match pending with
  | [] => mret delivered
  | row :: pending =>
      r ← attempt (append_keyed (ob_event_key row) (ob_event row));
      match r with
      | Ok _ =>
          _ ← tx_ (λ now d, Ok (mark_outbox_delivered now (ob_id row) d));
          drain_rows pending (S delivered)
      | Err _ =>
          _ ← tx_ (λ now, retry_outbox now (ob_id row));
          drain_rows pending delivered
      end
  end.
Definition drain_outbox : api nat :=
  pending ← query (λ now, pending_outbox now 100);
  drain_rows pending 0.
(** [if let Err(error) = registry.drain_outbox().await { warn }] *)
Definition try_drain : api unit := _ ← attempt drain_outbox; mret tt.
Definition prune_expired_rate_limits : api nat :=
  n ← now;
  tx (λ _ d, Ok (prune_rate_limits_before (to_i64 (Z.max 0 (n - 24 * 3600))) d)).
Definition bootstrap (organization token role : string) : api unit :=
  tx_ (λ now, bootstrap_token now organization (sha256_hex token) role).
Definition issue_identity_token (organization role : string) (step_up : bool) : api string :=
  token ← random_token;
  n ← now;
  _ ← tx_ (λ _, insert_token (sha256_hex token) organization role
                  (to_i64 (saturating_add_u64 n 3600)) (if step_up then "oidc-mfa" else "oidc"));
  mret token.

(** *** Publishing *)

Definition MAX_MANIFEST_BYTES : Z := 1024 * 1024.
Definition MAX_ARCHIVE_ENTRIES : Z := 200000.
(** The loop over the archive: the package manifest, met once. *)
Fixpoint find_manifest (index : nat) (es : list (result string ArchiveEntry)) (found : option Json) :
    result ApiError (option Json) :=
  match es with
  | [] => Ok found
  | e :: es =>
      _ ← ensure (Z.of_nat index <? MAX_ARCHIVE_ENTRIES)%Z (bad "npm tarball has too many entries");
      e ← match e with Ok e => Ok e | Err m => Err (bad ("invalid npm tarball entry: " +:+ m)) end;
      path ← match ae_path e with
             | Ok p => Ok p
             | Err m => Err (bad ("invalid npm tarball path: " +:+ m))
             end;
      if decide (components path = [Normal "package"; Normal "package.json"]) then
        _ ← ensure (bool_decide (found = None)) (bad "npm tarball contains multiple package manifests");
        bytes ← match ae_bytes e with
                | Ok b => Ok b
                | Err m => Err (bad ("cannot read package manifest: " +:+ m))
                end;
        _ ← ensure (bool_decide (Z.of_nat (String.length bytes) ≤ MAX_MANIFEST_BYTES)%Z)
              (bad "package manifest exceeds 1 MiB");
        manifest ← ok_or (parse_body bytes) (bad "invalid package manifest");
        find_manifest (S index) es (Some manifest)
      else find_manifest (S index) es found
  end.
Definition manifest_from_tarball (tarball expected_name expected_version : string) :
    result ApiError Json :=
  es ← match read_archive tarball with
       | Ok es => Ok es
       | Err m => Err (bad ("invalid npm tarball: " +:+ m))
       end;
  manifest ← find_manifest 0 es None;
  manifest ← ok_or manifest (bad "npm tarball has no package.json");
  _ ← ensure (match manifest with JObject _ => true | _ => false end)
        (bad "package manifest must be a JSON object");
  _ ← ensure (bool_decide (jget "name" manifest ≫= as_str = Some expected_name))
        (bad "package manifest name does not match stage request");
  _ ← ensure (bool_decide (jget "version" manifest ≫= as_str = Some expected_version))
        (bad "package manifest version does not match stage request");
  Ok manifest.

Definition stage_id (owner name version digest : string) (created_at : Z) : string :=
  sha256_hex (owner +:+ ":" +:+ name +:+ ":" +:+ version +:+ ":" +:+ digest +:+ ":" +:+ pretty created_at).
Definition stage_created_event (s : StageRecord) (actor_org : string) : Json := JObject
  [("type", JString "stage.created"); ("id", JString (st_id s));
   ("organization", JString (st_organization s)); ("actor_org", JString actor_org);
   ("name", JString (st_name s)); ("version", JString (st_version s));
   ("digest", JString (st_digest s))].
Definition signed_verdict (v : RegistryVerdictV1) : RegistryVerdictV1 :=
  let 'Build_RegistryVerdictV1 sv g e p d r s pd ad po rb l _ := v in
  Build_RegistryVerdictV1 sv g e p d r s pd ad po rb l
    (Some (sign_json (verdict_json v) (signing_key reg))).
Definition new_stage (request : StageRequest) (owner digest : string) (manifest : Json)
    (bundle : RegistryAssessmentBundle) (created_at : Z) : StageRecord := {|
  st_id := stage_id owner (rq_name request) (rq_version request) digest created_at;
  st_organization := owner; st_name := rq_name request; st_version := rq_version request;
  st_tag := rq_tag request; st_digest := digest; st_status := "staged";
  st_private := rq_private request; st_manifest := manifest;
  st_publisher_assessment := rq_assessment request;
  st_assessment := verdict_json (signed_verdict (rb_verdict bundle));
  st_server_evidence := rb_evidence bundle; st_sbom := rb_sbom bundle;
  st_provenance := rb_provenance bundle; st_created_at := created_at |}.

Definition create_stage (headers : Headers) (request : StageRequest) : api StageRecord :=
  principal ← authenticate headers;
  owner ← authorize_name principal (rq_name request) true;
  package ← query (λ _, package (rq_name request));
  _ ← check (match package with
             | Some p => bool_decide (pk_private p = rq_private request)
             | None => true
             end) (conflict "package visibility cannot change between versions");
  _ ← lift (ok_or (parse_version (rq_version request)) (bad "invalid semantic version"));
  tarball ← lift (ok_or (b64_decode (rq_tarball_base64 request)) (bad "invalid tarball base64"));
  manifest ← lift (manifest_from_tarball tarball (rq_name request) (rq_version request));
  let digest := sha256_hex tarball in
  bundle ← assess tarball manifest (rq_name request) (rq_version request) (pr_organization principal);
  _ ← put_artifact digest tarball;
  created_at ← now;
  let s := new_stage request owner digest manifest bundle created_at in
  created ← tx (λ now, ControlPlane.create_stage now s ("stage.created:" +:+ st_id s)
                         (stage_created_event s (pr_organization principal))
                         (maximum_pending_stages reg));
  _ ← check created (too_many_requests "organization pending-stage quota reached");
  _ ← try_drain;
  _ ← count count_stage;
  mret s.
Definition list_stages (headers : Headers) : api (list StageRecord) :=
  principal ← authenticate headers;
  query (λ _, ControlPlane.list_stages (pr_organization principal)).
Definition view_stage (headers : Headers) (id : string) : api StageRecord :=
  principal ← authenticate headers;
  s ← query (λ _, read_stage id);
  s ← lift (ok_or s (not_found "stage not found"));
  _ ← authorize_name principal (st_name s) false;
  mret s.
Definition download_stage (headers : Headers) (id : string) : api string :=
  s ← view_stage headers id;
  get_artifact (st_digest s).

Definition decision_event (approve : bool) (id organization name version : string)
    (reason : option string) : Json := JObject
  [("type", JString (if approve then "stage.approved" else "stage.rejected")); ("id", JString id);
   ("organization", JString organization); ("name", JString name); ("version", JString version);
   ("reason", jopt JString reason)].
Definition decision_key (approve : bool) (id : string) : string :=
  "stage." +:+ (if approve then "approved" else "rejected") +:+ ":" +:+ id.
Definition decide_request (headers : Headers) (id : string) (approve : bool)
    (reason : option string) : api StageRecord :=
  principal ← authenticate headers;
  _ ← check (bool_decide (pr_role principal = "admin")) (forbidden "admin approval required");
  _ ← check (negb (approve && require_step_up_approval reg
                   && bool_decide (pr_kind principal ≠ "oidc-mfa")))
        (forbidden "approval requires a fresh OIDC identity with MFA or phishing-resistant authentication");
  s ← query (λ _, read_stage id);
  s ← lift (ok_or s (not_found "stage not found"));
  _ ← check (bool_decide (st_organization s = pr_organization principal))
        (forbidden "only the owning organization may approve or reject a stage");
  _ ← check (negb (approve && bool_decide (jget "decision" (st_assessment s) ≫= as_str = Some "deny")))
        (conflict "server assessment denied this exact artifact; approval is not permitted");
  decided ← tx (λ now, decide_stage now s approve reason (decision_key approve id)
                         (decision_event approve id (pr_organization principal) (st_name s)
                            (st_version s) reason));
  _ ← check decided (conflict "stage has already been decided");
  _ ← try_drain;
  s ← query (λ _, read_stage id);
  lift (ok_or s (internal "stage disappeared")).
Definition approve_stage (headers : Headers) (id : string) (reason : option string) : api StageRecord :=
  decide_request headers id true reason.
Definition reject_stage (headers : Headers) (id : string) (reason : option string) : api StageRecord :=
  decide_request headers id false reason.

(** *** Reading *)

Definition saturating_i64 (z : Z) : Z := clampZ (- 2 ^ 63) (2 ^ 63 - 1) z.
Definition tarball_url (name version : string) : string :=
  public_url reg +:+ "/-/oath/tarballs/" +:+ byte_serialize name +:+ "/" +:+ byte_serialize version.
(** The metadata of one version: the package's manifest with its name, its version, its
    tarball and the registry's records. *)
Definition version_metadata (now : Z) (name : string) (e : string * VersionRow) :
    result ApiError (string * Json) :=
  let '(version, row) := e in
  integrity ← ok_or (hex_decode (vr_digest row)) (internal "invalid digest");
  _ ← ensure (bool_decide (String.length integrity = 32))
        (internal "stored SHA-256 digest has invalid length");
  members ← match vr_manifest row with
            | JObject l => Ok l
            | _ => Err (internal "stored package manifest is not an object")
            end;
  Ok (version, JObject
    (jinsert_member "oath" (JObject
       [("status", JString (vr_status row)); ("private", JBool (vr_private row));
        ("publisher_organization", JString (vr_organization row));
        ("published_at", jint (vr_published_at row));
        ("release_age_seconds", jint (saturating_i64 (to_i64 now - vr_published_at row)));
        ("downloads", jint (vr_download_count row));
        ("source_available",
          JBool (is_string (jindex "repository" (jindex "package" (vr_assessment row)))));
        ("risk_score", jindex "risk_score" (vr_assessment row));
        ("assessment", vr_assessment row); ("server_evidence", vr_server_evidence row);
        ("sbom", vr_sbom row); ("provenance", vr_provenance row)])
     (jinsert_member "dist" (JObject
        [("integrity", JString ("sha256-" +:+ b64_encode integrity));
         ("tarball", JString (tarball_url name version))])
      (jinsert_member "version" (JString version)
       (jinsert_member "name" (JString name) members))))).
Fixpoint metadata_rows (name : string) (rows : list (string * VersionRow)) :
    api (list (string * Json)) :=
  match rows with
  | [] => mret []
  | e :: rows =>
      n ← now;
      m ← lift (version_metadata n name e);
      ms ← metadata_rows name rows;
      mret (m :: ms)
  end.
(** A private package is for those who may read it. *)
Definition authorize_read (headers : Headers) (name : string) (private : bool) : api unit :=
  if private then
    principal ← authenticate headers;
    _ ← authorize_name principal name false;
    mret tt
  else mret tt.
Definition package_metadata (headers : Headers) (name : string) : api Json :=
  p ← query (λ _, package name);
  p ← lift (ok_or p (not_found "package not found"));
  _ ← (if pk_private p then
         principal ← authenticate_optional headers;
         principal ← lift (ok_or principal unauthorized);
         _ ← authorize_name principal name false;
         mret tt
       else (_ ← authenticate_optional headers; mret tt));
  rows ← query (λ _, package_versions name);
  versions ← metadata_rows name rows;
  _ ← check (bool_decide (versions ≠ [])) (not_found "package has no published versions");
  tags ← query (λ _, package_tags name);
  mret (JObject [("name", JString name);
                 ("dist-tags", JObject ((λ '(k, v), (k, JString v)) <$> tags));
                 ("versions", JObject versions)]).
Definition download_version (headers : Headers) (name ver : string) : api string :=
  row ← query (λ _, ControlPlane.version name ver);
  row ← lift (ok_or row (not_found "package version not found"));
  _ ← authorize_read headers name (vr_private row);
  _ ← check (bool_decide (vr_status row = "active"))
        (forbidden ("package version is " +:+ vr_status row));
  bytes ← get_artifact (vr_digest row);
  _ ← tx_ (λ _, record_download name ver);
  _ ← count count_download;
  mret bytes.

Definition tombstone_json (name version : string) (t : TombstoneRow) : Json := JObject
  [("name", JString name); ("version", JString version); ("status", JString (ts_status t));
   ("reason", JString (ts_reason t)); ("actor_org", JString (ts_actor_org t));
   ("created_at", jint (ts_created_at t)); ("signature", JString (ts_signature t));
   ("public_key", JString (ts_public_key t))].
Definition tombstone_field (value : Json) (name : string) : result ApiError (string * Json) :=
  v ← ok_or (jget name value) (internal ("stored tombstone has no " +:+ name)); Ok (name, v).
Definition tombstone_bundle (value : Json) : result ApiError Json :=
  payload ← mapM (tombstone_field value)
              ["name"; "version"; "status"; "reason"; "actor_org"; "created_at"];
  proof ← mapM (tombstone_field value) ["signature"; "public_key"];
  Ok (JObject ([("payload", JObject payload); ("algorithm", JString "ed25519");
                ("canonicalization", JString "oath-json-v1")] ++ proof)).
Definition verdict_bundle (headers : Headers) (name ver : string) : api Json :=
  record ← query (λ _, version_bundle name ver);
  '(row, tombstone) ← lift (ok_or record (not_found "package version not found"));
  _ ← authorize_read headers name (vr_private row);
  hashes ← query (λ _, event_hashes);
  tombstone ← lift (match tombstone with
                    | Some t => tombstone_bundle (tombstone_json name ver t)
                    | None => Ok JNull
                    end);
  let c := checkpoint_of (signing_key reg) hashes in
  mret (JObject
    [("schema_version", jnat 1);
     ("package", JObject [("name", JString name); ("version", JString ver);
                          ("organization", JString (vr_organization row))]);
     ("digest", JString ("sha256:" +:+ vr_digest row)); ("status", JString (vr_status row));
     ("published_at", jint (vr_published_at row)); ("downloads", jint (vr_download_count row));
     ("verdict", vr_assessment row); ("server_evidence", vr_server_evidence row);
     ("sbom", vr_sbom row); ("provenance", vr_provenance row); ("tombstone", tombstone);
     ("checkpoint", JObject
        [("payload", checkpoint_payload hashes); ("algorithm", JString "ed25519");
         ("canonicalization", JString "oath-json-v1"); ("public_key", JString (tc_public_key c));
         ("signature", JString (tc_signature c))])]).
Definition osv_entry (e : string * string * string * Z) : Json :=
  let '(name, version, reason, created_at) := e in
  let modified := default "1970-01-01T00:00:00+00:00" (rfc3339 created_at) in
  let id := name +:+ "@" +:+ version in
  JObject
    [("schema_version", JString "1.6.0");
     ("id", JString ("OATH-MAL-" +:+ to_ascii_uppercase (take_str 16 (sha256_hex id))));
     ("modified", JString modified); ("published", JString modified);
     ("summary", JString ("Oath quarantined " +:+ id)); ("details", JString reason);
     ("affected", JArray [JObject
        [("package", JObject [("ecosystem", JString "npm"); ("name", JString name)]);
         ("versions", JArray [JString version]);
         ("database_specific", JObject [("source", JString "oath-registry");
                                        ("status", JString "quarantined")])]])].
Definition osv_feed : api Json :=
  rows ← query (λ _, public_quarantines);
  mret (JObject [("schema_version", jnat 1); ("vulns", JArray (osv_entry <$> rows))]).

(** *** Transparency *)

Definition checkpoint : api TransparencyCheckpoint :=
  hashes ← query (λ _, event_hashes);
  mret (checkpoint_of (signing_key reg) hashes).
Definition inclusion_proof (sequence : nat) : api Json :=
  _ ← check (negb (sequence =? 0)) (bad "event sequence starts at 1");
  hashes ← query (λ _, event_hashes);
  let index := sequence - 1 in
  leaf ← lift (ok_or (hashes !! index) (not_found "transparency event not found"));
  proof ← lift (ok_or (merkle_inclusion_proof hashes index) (internal "cannot build inclusion proof"));
  mret (JObject
    [("schema_version", jnat 1); ("sequence", jnat (N.of_nat sequence));
     ("tree_size", jnat (N.of_nat (length hashes))); ("leaf_hash", JString leaf);
     ("merkle_root", JString (Merkle.merkle_root hashes)); ("proof", jstrings proof)]).
Definition range_node_json (n : MerkleRangeNode) : Json := JObject
  [("start", jnat (N.of_nat (Merkle.start n))); ("size", jnat (N.of_nat (Merkle.size n)));
   ("hash", JString (Merkle.hash n))].
Definition consistency_proof (from : nat) : api Json :=
  hashes ← query (λ _, event_hashes);
  _ ← check (negb (length hashes <? from)) (bad "from tree size exceeds current tree size");
  proof ← lift (ok_or (merkle_consistency_proof hashes from) (internal "cannot build consistency proof"));
  mret (JObject
    [("schema_version", jnat 2); ("proof_type", JString "compact-frontier-v1");
     ("from_size", jnat (N.of_nat from)); ("to_size", jnat (N.of_nat (length hashes)));
     ("from_root", JString (Merkle.merkle_root (take from hashes)));
     ("to_root", JString (Merkle.merkle_root hashes));
     ("prefix", JArray (range_node_json <$> Merkle.prefix proof));
     ("suffix", JArray (range_node_json <$> Merkle.suffix proof)); ("hash_algorithm", JString "sha256");
     ("domain_separation", JObject [("leaf", jnat 0); ("node", jnat 1)])]).

(** *** Withdrawing, tokens, roles *)

Definition revoke_status (request : RevokeRequest) : string :=
  if rv_quarantine request then "quarantined" else "revoked".
Definition tombstone_payload (name version status reason actor_org : string) (created_at : Z) : Json :=
  JObject [("name", JString name); ("version", JString version); ("status", JString status);
           ("reason", JString reason); ("actor_org", JString actor_org);
           ("created_at", jint created_at)].
Definition revoke_key (status name version : string) : string :=
  "version." +:+ status +:+ ":" +:+ name +:+ "@" +:+ version.
(** The statements of [ControlPlane::revoke_version], between which others may commit:
    the [UPDATE] that finds the version, the [SELECT] of the active versions, the
    [UPDATE] of the tags, the rest and the commit. *)
Definition withdraw (name ver status reason actor_org : string) (created_at : Z)
    (sig key event_key : string) (event : Json) : api bool :=
  updated ← query (λ _ d, bool_decide (is_Some (versions d !! (name, ver))));
  if updated : bool then
    seen ← query (λ _ d, d);
    tagged ← query (λ _ d, d);
    tx (λ now, ControlPlane.revoke_version now name ver status reason actor_org created_at
                 sig key event_key event seen tagged)
  else mret false.
Definition revoke_version (headers : Headers) (name ver : string) (request : RevokeRequest) : api Json :=
  principal ← authenticate headers;
  _ ← authorize_name principal name true;
  let status := revoke_status request in
  created_at ← now;
  let payload := tombstone_payload name ver status (rv_reason request)
                   (pr_organization principal) created_at in
  let sig := b64_encode (ed_sign (signing_key reg) (canonical_json_bytes payload)) in
  let key := b64_encode (verifying_key (signing_key reg)) in
  let event := JObject [("type", JString "version.revoked"); ("tombstone", payload);
                        ("signature", JString sig); ("public_key", JString key)] in
  revoked ← withdraw name ver status (rv_reason request) (pr_organization principal)
              (to_i64 created_at) sig key (revoke_key status name ver) event;
  _ ← check revoked (not_found "package version not found");
  _ ← try_drain;
  mret (JObject [("tombstone", JObject
    [("payload", payload); ("algorithm", JString "ed25519");
     ("canonicalization", JString "oath-json-v1"); ("signature", JString sig);
     ("public_key", JString key)])]).

Definition issue_token (headers : Headers) (request : TokenRequest) : api Json :=
  principal ← authenticate headers;
  _ ← check (bool_decide (pr_role principal = "admin")) (forbidden "admin role required");
  _ ← check (known_role (tr_role request)) (bad "invalid token role");
  _ ← check (bool_decide (60 ≤ tr_ttl_secs request ≤ 86400)%Z)
        (bad "token ttl must be between 60 and 86400 seconds");
  token ← random_token;
  n ← now;
  _ ← tx_ (λ _, insert_token (sha256_hex token) (pr_organization principal) (tr_role request)
                  (to_i64 (saturating_add_u64 n (tr_ttl_secs request))) "service");
  n ← now;
  _ ← append_event (JObject
        [("type", JString "token.issued"); ("organization", JString (pr_organization principal));
         ("role", JString (tr_role request)); ("expires_at", jint (n + tr_ttl_secs request))]);
  mret (JObject [("token", JString token); ("token_type", JString "Bearer");
                 ("role", JString (tr_role request)); ("expires_in", jint (tr_ttl_secs request))]).
Definition grant_role (headers : Headers) (name : string) (request : PackageRoleRequest) : api Json :=
  principal ← authenticate headers;
  _ ← check (bool_decide (pr_role principal = "admin")) (forbidden "admin role required");
  owner ← authorize_name principal name true;
  _ ← check (bool_decide (owner = pr_organization principal))
        (forbidden "only the package-owning organization may grant roles");
  _ ← check (known_role (pr_new_role request)) (bad "invalid package role");
  _ ← tx_ (λ _, grant_package_role name (pr_organization principal) (pr_principal_org request)
                  (pr_new_role request));
  _ ← append_event (JObject
        [("type", JString "package.role_granted"); ("name", JString name);
         ("owner_org", JString (pr_organization principal));
         ("principal_org", JString (pr_principal_org request));
         ("role", JString (pr_new_role request))]);
  mret (JObject [("name", JString name); ("principal_org", JString (pr_principal_org request));
                 ("role", JString (pr_new_role request))]).

Definition accept_url (base token : string) : string :=
  base +:+ (if has "?" base then "&" else "?") +:+ "invitation_token=" +:+ token.
Definition create_invitation (headers : Headers) (request : InvitationRequest) : api Json :=
  principal ← authenticate headers;
  _ ← check (bool_decide (pr_role principal = "admin")) (forbidden "admin role required");
  _ ← check (known_role (ir_role request)) (bad "invalid invitation role");
  _ ← check (bool_decide (300 ≤ ir_ttl_secs request ≤ 604800)%Z)
        (bad "invitation ttl must be between 300 and 604800 seconds");
  m ← lift (ok_or (mailer reg) (internal "invitation email provider is not configured"));
  url ← lift (ok_or (invitation_accept_url reg) (internal "invitation accept URL is not configured"));
  token ← random_token;
  let token_hash := sha256_hex token in
  n ← now;
  let expires_at := saturating_add_u64 n (ir_ttl_secs request) in
  _ ← tx_ (λ _, ControlPlane.create_invitation token_hash (pr_organization principal)
                  (ir_email request) (ir_role request) (to_i64 expires_at));
  sent ← attempt (send_invitation m (ir_email request) (pr_organization principal) (accept_url url token));
  match sent with
  | Ok _ =>
      _ ← append_event (JObject
            [("type", JString "invitation.created");
             ("organization", JString (pr_organization principal));
             ("email_hash", JString (sha256_hex (ir_email request)));
             ("role", JString (ir_role request)); ("expires_at", jint expires_at)]);
      mret (JObject [("status", JString "sent"); ("token_id", JString token_hash);
                     ("expires_at", jint expires_at)])
  | Err e =>
      _ ← tx (λ now d, Ok (ControlPlane.revoke_invitation now token_hash (pr_organization principal) d));
      throw e
  end.
Definition revoke_invitation (headers : Headers) (token_id : string) : api Json :=
  principal ← authenticate headers;
  _ ← check (bool_decide (pr_role principal = "admin")) (forbidden "admin role required");
  revoked ← tx (λ now d, Ok (ControlPlane.revoke_invitation now token_id (pr_organization principal) d));
  _ ← check revoked (not_found "active invitation not found");
  _ ← append_event (JObject
        [("type", JString "invitation.revoked");
         ("organization", JString (pr_organization principal)); ("token_id", JString token_id)]);
  mret (JObject [("status", JString "revoked"); ("token_id", JString token_id)]).

(** The claims of an identity token, checked against the provider's keys of the moment. *)
Definition verify_identity (id_token : string) : api IdentityClaims :=
  v ← lift (ok_or (oidc reg) (internal "OIDC provider is not configured"));
  r ← ask (λ w, verify (fetch_jwks (w_now w)) v id_token);
  lift (match r with Ok c => Ok c | Err _ => Err unauthorized end).
Definition identity_reply (token organization role : string) : Json := JObject
  [("token", JString token); ("token_type", JString "Bearer"); ("expires_in", jint 3600);
   ("organization", JString organization); ("role", JString role)].
Definition accept_invitation (invitation_token id_token : string) : api Json :=
  claims ← verify_identity id_token;
  _ ← check (ic_email_verified claims) (forbidden "OIDC email is not verified");
  let step_up := has_step_up_authentication claims in
  email ← lift (ok_or (ic_email claims) (forbidden "OIDC identity has no email"));
  invitation ← tx (λ now, ControlPlane.accept_invitation now (sha256_hex invitation_token)
                            (ic_sub claims) email);
  invitation ← lift (ok_or invitation (not_found "active invitation not found"));
  token ← issue_identity_token (in_organization invitation) (in_role invitation) step_up;
  _ ← append_event (JObject
        [("type", JString "invitation.accepted");
         ("organization", JString (in_organization invitation));
         ("subject_hash", JString (sha256_hex (ic_sub claims)));
         ("email_hash", JString (sha256_hex email)); ("role", JString (in_role invitation))]);
  mret (identity_reply token (in_organization invitation) (in_role invitation)).
Definition sso_exchange (id_token : string) : api Json :=
  claims ← verify_identity id_token;
  m ← query (λ _, membership (ic_sub claims));
  '(organization, role) ← lift (ok_or m (forbidden "identity is not an organization member"));
  token ← issue_identity_token organization role (has_step_up_authentication claims);
  mret (identity_reply token organization role).

(** *** Billing, administration *)

Definition billing_checkout (headers : Headers) (price_id success_url cancel_url : string) : api Json :=
  principal ← authenticate headers;
  _ ← check (bool_decide (pr_role principal = "admin")) (forbidden "admin role required");
  b ← lift (ok_or (billing reg) (internal "billing provider is not configured"));
  url ← lift (ok_or (create_checkout b (pr_organization principal) price_id success_url cancel_url)
                (internal "checkout failed"));
  mret (JObject [("checkout_url", JString url)]).
Definition billing_webhook (headers : Headers) (body : string) : api unit :=
  sig ← lift (ok_or (s ← stripe_signature headers; header_text s) unauthorized);
  b ← lift (ok_or (billing reg) (internal "billing provider is not configured"));
  n ← now;
  event ← lift (match verify_webhook b sig body n with Ok e => Ok e | Err _ => Err unauthorized end);
  id ← lift (ok_or (jget "id" event ≫= as_str) (bad "billing event has no id"));
  type ← lift (ok_or (jget "type" event ≫= as_str) (bad "billing event has no type"));
  _ ← tx (λ now d, Ok (record_billing_event now id type event d));
  mret tt.
Definition admin_summary (headers : Headers) : api Json :=
  principal ← authenticate headers;
  _ ← check (bool_decide (pr_role principal = "admin")) (forbidden "admin role required");
  m ← ask w_metrics;
  mret (JObject [("service", JString "oath-registry"); ("control_plane", JString "postgresql");
                 ("organization", JString (pr_organization principal)); ("metrics", snapshot m)]).
Definition livez : api Json :=
  mret (JObject [("status", JString "ok"); ("service", JString "oath-registry");
                 ("schema_version", jnat 1)]).
Definition metrics_text : api string := m ← ask w_metrics; mret (prometheus m).

(** *** The router *)

Inductive Route :=
  | Livez
  | Metrics
  | CreateStage (request : StageRequest)
  | ListStages
  | ViewStage (id : string)
  | DownloadStage (id : string)
  | ApproveStage (id : string) (reason : option string)
  | RejectStage (id : string) (reason : option string)
  | RevokeVersion (name version : string) (request : RevokeRequest)
  | DownloadVersion (name version : string)
  | Checkpoint
  | InclusionProof (sequence : nat)
  | ConsistencyProof (from : nat)
  | VerdictBundle (name version : string)
  | OsvFeed
  | IssueToken (request : TokenRequest)
  | AdminSummary
  | CreateInvitation (request : InvitationRequest)
  | RevokeInvitation (token_id : string)
  | AcceptInvitation (invitation_token id_token : string)
  | SsoExchange (id_token : string)
  | BillingCheckout (price_id success_url cancel_url : string)
  | BillingWebhook (body : string)
  | GrantRole (name : string) (request : PackageRoleRequest)
  | PackageMetadata (name : string).
Inductive Reply :=
  | JsonReply (body : Json)
  | StageReply (s : StageRecord)
  | StagesReply (l : list StageRecord)
  | CheckpointReply (c : TransparencyCheckpoint)
  | BytesReply (bytes : string)
  | NoContent.
Definition handle (headers : Headers) (route : Route) : api Reply :=
  match route with
  | Livez => JsonReply <$> livez
  | Metrics => BytesReply <$> metrics_text
  | CreateStage request => StageReply <$> create_stage headers request
  | ListStages => StagesReply <$> list_stages headers
  | ViewStage id => StageReply <$> view_stage headers id
  | DownloadStage id => BytesReply <$> download_stage headers id
  | ApproveStage id reason => StageReply <$> approve_stage headers id reason
  | RejectStage id reason => StageReply <$> reject_stage headers id reason
  | RevokeVersion name ver request => JsonReply <$> revoke_version headers name ver request
  | DownloadVersion name ver => BytesReply <$> download_version headers name ver
  | Checkpoint => CheckpointReply <$> checkpoint
  | InclusionProof sequence => JsonReply <$> inclusion_proof sequence
  | ConsistencyProof from => JsonReply <$> consistency_proof from
  | VerdictBundle name ver => JsonReply <$> verdict_bundle headers name ver
  | OsvFeed => JsonReply <$> osv_feed
  | IssueToken request => JsonReply <$> issue_token headers request
  | AdminSummary => JsonReply <$> admin_summary headers
  | CreateInvitation request => JsonReply <$> create_invitation headers request
  | RevokeInvitation token_id => JsonReply <$> revoke_invitation headers token_id
  | AcceptInvitation invitation id_token => JsonReply <$> accept_invitation invitation id_token
  | SsoExchange id_token => JsonReply <$> sso_exchange id_token
  | BillingCheckout price success cancel =>
      JsonReply <$> billing_checkout headers price success cancel
  | BillingWebhook body => (λ _, NoContent) <$> billing_webhook headers body
  | GrantRole name request => JsonReply <$> grant_role headers name request
  | PackageMetadata name => JsonReply <$> package_metadata headers name
  end.

(** Requests to the service's own state are not limited; the others are counted by the
    text of their authorization header. *)
Definition exempt (route : Route) : bool :=
  match route with Livez | Metrics => true | _ => false end.
Definition rate_subject (headers : Headers) : string :=
  match authorization headers ≫= header_text with
  | Some value => sha256_hex value
  | None => "anonymous"
  end.
Definition enforce_registry_rate_limit (headers : Headers) (route : Route) : api Reply :=
  if exempt route then handle headers route
  else
    allowed ← tx (λ now, consume_rate_limit now (rate_subject headers) "api-minute"
                           (requests_per_minute reg) 60);
    _ ← check allowed (too_many_requests "registry request rate exceeded");
    handle headers route.
(** The whole service, with its counters. *)
Definition track_registry_metrics (headers : Headers) (route : Route) : api (result ApiError Reply) :=
  _ ← count count_request;
  r ← attempt (enforce_registry_rate_limit headers route);
  match r with
  | Err e =>
      _ ← (if decide (err_status e = Unauthorized ∨ err_status e = Forbidden)
           then count count_denied else mret tt);
      _ ← (if decide (500 ≤ status_number (err_status e))%N then count count_error else mret tt);
      mret r
  | Ok _ => mret r
  end.
End service.

(** ** Configuration *)

(** [str::parse::<i64>] *)
Definition parse_i64 (s : string) : option Z :=
  match RustStr.strip_prefix "-" s with
  | Some digits =>
      if decide (digits = "") then None
      else v ← parse_digits 0 (chars digits); if (v <=? 2 ^ 63)%Z then Some (- v)%Z else None
  | None => v ← parse_u64 s; if (v <? 2 ^ 63)%Z then Some v else None
  end.

Section configuration.
Context {ED : Ed25519} (env : string → option string).

Definition positive_limit (name : string) (dflt : Z) : result string Z :=
  value ← match env name with
          | Some v => ok_or (parse_i64 v) (name +:+ " must be a positive integer")
          | None => Ok dflt
          end;
  _ ← ensure (0 <? value)%Z (name +:+ " must be a positive integer");
  Ok value.
(** Two variables that go together. *)
Definition both (a b : string) : result string (option (string * string)) :=
  match env a, env b with
  | Some x, Some y => Ok (Some (x, y))
  | None, None => Ok None
  | _, _ => Err (a +:+ " and " +:+ b +:+ " must be configured together")
  end.
(** [PostgresRegistry::connect] but for the connection: [discover] asks the identity
    provider, [key] is the signing key of the registry's directory. *)
Definition configure (discover : string → string → result string OidcVerifier)
    (key : result string SigningKey) : result string (Settings ED) :=
  oidc ← both "OATH_OIDC_ISSUER" "OATH_OIDC_AUDIENCE";
  oidc ← match oidc with Some (i, a) => Some <$> discover i a | None => Ok None end;
  mail ← both "OATH_RESEND_API_KEY" "OATH_EMAIL_FROM";
  stripe ← both "STRIPE_SECRET_KEY" "STRIPE_WEBHOOK_SECRET";
  let url := env "OATH_INVITATION_ACCEPT_URL" in
  _ ← ensure (negb (bool_decide (is_Some mail) && bool_decide (url = None)))
        "OATH_INVITATION_ACCEPT_URL is required when invitation email is configured";
  bytes ← match env "OATH_REGISTRY_MAX_STAGE_REQUEST_BYTES" with
          | Some v => ok_or (parse_u64 v) "OATH_REGISTRY_MAX_STAGE_REQUEST_BYTES must be an integer"
          | None => Ok (64 * 1024 * 1024)%Z
          end;
  _ ← ensure (bool_decide (1024 * 1024 ≤ bytes ≤ 1024 * 1024 * 1024)%Z)
        "OATH_REGISTRY_MAX_STAGE_REQUEST_BYTES must be between 1 MiB and 1 GiB";
  rate ← positive_limit "OATH_REGISTRY_REQUESTS_PER_MINUTE" 6000;
  pending ← positive_limit "OATH_REGISTRY_MAX_PENDING_STAGES" 100;
  key ← key;
  Ok {| signing_key := key; oidc := oidc;
        mailer := (λ '(_, from), ("https://api.resend.com", from)) <$> mail;
        public_url := trim_end_matches "/" (default "http://localhost:4873" (env "OATH_PUBLIC_URL"));
        invitation_accept_url := url; max_stage_request_bytes := bytes;
        billing := (λ '(k, s), {| secret_key := k; webhook_secret := s |}) <$> stripe;
        require_step_up_approval :=
          match env "OATH_REQUIRE_STEP_UP_APPROVAL" with
          | Some v => eq_ignore_ascii_case v "true" || bool_decide (v = "1")
          | None => false
          end;
        requests_per_minute := rate; maximum_pending_stages := pending |}.
End configuration.

(** Limits are positive 64-bit integers, and a request is of at most 1 GiB. *)
Lemma configure_limits `{ED : Ed25519} env discover key s :
  configure env discover key = Ok s →
  (2 ^ 20 ≤ max_stage_request_bytes s ≤ 2 ^ 30)%Z
  ∧ (0 < requests_per_minute s < 2 ^ 63)%Z ∧ (0 < maximum_pending_stages s < 2 ^ 63)%Z.
Proof.
  assert (∀ n d v, (d < 2 ^ 63)%Z → positive_limit env n d = Ok v → (0 < v < 2 ^ 63)%Z) as Hl.
  { intros n d v Hd (x & Hx & (_ & Hp%ensure_Ok & [= <-])%bind_Ok)%bind_Ok. split; [lia|].
    destruct (env n) as [t|]; [|injection Hx as <-; lia]. apply ok_or_Ok in Hx. unfold parse_i64 in Hx.
    destruct (RustStr.strip_prefix "-" t).
    - case_decide; [done|]. destruct (parse_digits 0 _) as [z|] eqn:Ez; simpl in Hx; [|done].
      apply parse_digits_nonneg in Ez; [|done]. case_match; [|done]. injection Hx as <-. lia.
    - destruct (parse_u64 t); simpl in Hx; [|done]. case_match; [|done]. injection Hx as <-. lia. }
  unfold configure. intros H.
  repeat match type of H with
  | (_ ≫= _) = Ok _ => let x := fresh "x" in let Hx := fresh "Hx" in apply bind_Ok in H as (x & Hx & H)
  end.
  injection H as <-. cbn.
  repeat match goal with
  | Hx : positive_limit _ _ _ = Ok _ |- _ => apply Hl in Hx; [|lia]
  | Hx : ensure _ _ = Ok _ |- _ => apply ensure_Ok in Hx
  end.
  match goal with Hx : bool_decide (_ ≤ _ ≤ _)%Z = true |- _ => apply bool_decide_eq_true in Hx end.
  lia.
Qed.
