(* ===== verification/Service.v ===== *)
(** * oath-registry: what the service guarantees

    Theorems about the handlers of [Registry.v], proved with the program logic of
    [Prog.v]: whatever other requests do in between, the service's steps are those of the
    control plane and the log, and each of them is authorised. *)
From S2P Require Export Registry.

Section service.
Context {SHA : Digest} {JT : JsonText} {B64 : Base64} {ED : Ed25519} {SV : Semver} {RO : RowOrder}.
Context {OP : ObjectPaths} {JW : Jwt} {WH : Webhooks} {AR : Archives} {RX : Regex} {OX : Oxc}.
Context {SU : Surroundings} (reg : Settings ED).
Notation registry_step := (registry_step (maximum_pending_stages reg) (signing_key reg)).

(** ** What others may do *)

(** The digest is one of a tarball, and the primary store has an object for it. *)
Definition available (digest : string) (a : ArtifactStore) : Prop :=
  ∃ tarball, digest = sha256_hex tarball ∧ is_Some (blobs (primary a) !! object_path digest).
(** Stages of the second state that are not of the first have their artifacts. *)
Definition new_stages (d d' : DB) (a : ArtifactStore) : Prop :=
  ∀ id r, stages d !! id = None → stages d' !! id = Some r → available (st_digest (stage r)) a.
(** A transaction of the registry, or none; objects are only added, and stay what their
    digests say; stages are created after their artifacts; the clock, faults, files,
    mails and counters change as they like. *)
Definition world_step (w w' : World) : Prop :=
  (w_db w' = w_db w ∨ registry_step (w_db w) (w_db w'))
  ∧ artifacts_le (w_objects w) (w_objects w')
  ∧ (artifacts_intact (w_objects w) → artifacts_intact (w_objects w'))
  ∧ new_stages (w_db w) (w_db w') (w_objects w').
Notation later := (rtc world_step).
(** What holds of the world at all times. *)
Record good (w : World) : Prop := {
  good_inv : ControlPlane.inv (maximum_pending_stages reg) (w_db w);
  good_log : log_inv (signing_key reg) (w_db w);
  good_stored id r : stages (w_db w) !! id = Some r → available (st_digest (stage r)) (w_objects w);
}.

Lemma new_stages_same d d' a : stages d' = stages d → new_stages d d' a.
Proof. intros E id r Hn Hs. congruence. Qed.
Lemma available_le digest a a' : artifacts_le a a' → available digest a → available digest a'.
Proof. intros [H _] (t & Ht & b & Hb). exists t. split; [done|]. exists b. by eapply lookup_weaken. Qed.
Lemma world_step_db w w' :
  w_db w' = w_db w → w_objects w' = w_objects w → world_step w w'.
Proof.
  intros Hd Ho. split; [by left|]. rewrite Ho. split_and!; [done|done|].
  apply new_stages_same. by rewrite Hd.
Qed.
(** A stage keeps everything but its status. *)
Definition stage_kept (d d' : DB) : Prop :=
  ∀ id r, stages d !! id = Some r →
    ∃ r', stages d' !! id = Some r' ∧ set_status "" (stage r') = set_status "" (stage r).
Lemma transaction_stages d d' :
  transaction (maximum_pending_stages reg) d d' → stage_kept d d'.
Proof.
  intros H id q Hq. revert H.
  intros [H|[(n & v & r & Hr & ->)|[(now & s & k & e & Hs & H)|[(now & s & ap & re & k & e & r & Hr & Hs & H)
    |(now & n & v & st & re & a & t & sg & key & k & e & seen & tagged & Hs & H)]]]]%step_transaction%step_same.
  - destruct H as (_ & -> & _). by exists q.
  - by exists q.
  - apply create_stage_Ok in H as (_ & _ & Hn & _ & _ & _ & -> & _).
    exists q. rewrite lookup_insert_ne; [done|]. congruence.
  - apply decide_stage_Ok in H as (r0 & Hr0 & _ & _ & _ & _ & _ & H).
    assert (∃ st, stages d' = <[st_id s := decided st re r0]> (stages d)) as [st ->].
    { destruct ap; [destruct H as (_ & -> & _)|destruct H as [-> _]]; by eexists. }
    destruct (decide (id = st_id s)) as [->|Hne].
    + assert (r0 = q) as -> by congruence. rewrite lookup_insert_eq. eexists. split; [done|]. done.
    + exists q. by rewrite lookup_insert_ne.
  - apply revoke_version_Ok in H as (? & _ & _ & _ & _ & -> & _). by exists q.
Qed.
Lemma registry_stages d d' : registry_step d d' → stage_kept d d'.
Proof.
  intros [d1 d2 H|now key event d1 d2 _ H|now row d1 _ _]; [by apply transaction_stages| |by intros ? q ?; exists q].
  intros i q Hq. exists q. by apply append_Ok in H as [[-> _]|[_ ->]].
Qed.
Lemma world_step_good w w' : world_step w w' → good w → good w'.
Proof.
  intros (Hd & Ho & _ & Hn) [I L S].
  assert (ControlPlane.inv (maximum_pending_stages reg) (w_db w') ∧ log_inv (signing_key reg) (w_db w')
    ∧ stage_kept (w_db w) (w_db w')) as (? & ? & Hk).
  { destruct Hd as [->|H]; [split_and!; [done|done|by intros ? q ?; exists q]|].
    split_and!; [|by eapply registry_step_log|by apply registry_stages].
    eapply inv_step; [by eapply registry_step_step|done]. }
  split; [done|done|]. intros id r Hr.
  destruct (stages (w_db w) !! id) as [r0|] eqn:E; [|by eapply Hn].
  eapply available_le; [done|]. destruct (Hk _ _ E) as (r' & Hr' & Es). assert (r' = r) as -> by congruence.
  apply (f_equal st_digest) in Es. cbn in Es. rewrite Es. by eapply S.
Qed.
Lemma later_good w w' : later w w' → good w → good w'.
Proof. induction 1 as [w|w w1 w' H _ IH]; [done|]. intros Hg. by eapply IH, world_step_good. Qed.
Lemma later_objects w w' :
  later w w' → artifacts_le (w_objects w) (w_objects w')
               ∧ (artifacts_intact (w_objects w) → artifacts_intact (w_objects w')).
Proof.
  induction 1 as [w|w w1 w' (_ & Ha & Hi & _) _ [Ha' Hi']]; [done|]. split; [by etrans|auto].
Qed.
Lemma later_db w w' : later w w' → rtc registry_step (w_db w) (w_db w').
Proof.
  induction 1 as [w|w w1 w' [[E|H] _] _ IH]; [done|by rewrite <- E|by eapply rtc_l].
Qed.

(** *** What stays *)

Lemma transaction_packages d d' :
  transaction (maximum_pending_stages reg) d d' → ControlPlane.packages d ⊆ ControlPlane.packages d'.
Proof.
  intros [H|[(n & v & r & Hr & ->)|[(now & s & k & e & Hs & H)|[(now & s & ap & re & k & e & r & Hr & Hs & H)
    |(now & n & v & st & re & a & t & sg & key & k & e & seen & tagged & Hs & H)]]]]%step_transaction%step_same.
  - by destruct H as [-> _].
  - done.
  - by apply create_stage_Ok in H as (_ & _ & _ & _ & _ & Hp & _).
  - by apply decide_stage_Ok in H as (? & _ & _ & _ & _ & -> & _).
  - by apply revoke_version_Ok in H as (? & _ & _ & _ & -> & _).
Qed.
Lemma registry_packages d d' :
  registry_step d d' → ControlPlane.packages d ⊆ ControlPlane.packages d'.
Proof.
  intros [d1 d2 H|now key event d1 d2 _ H|now row d1 _ _]; [by apply transaction_packages| |done].
  by apply append_Ok in H as [[-> _]|[_ ->]].
Qed.
Lemma transaction_versions d d' :
  transaction (maximum_pending_stages reg) d d' → dom (versions d) ⊆ dom (versions d').
Proof.
  intros [H|[(n & v & r & Hr & ->)|[(now & s & k & e & Hs & H)|[(now & s & ap & re & k & e & r & Hr & Hs & H)
    |(now & n & v & st & re & a & t & sg & key & k & e & seen & tagged & Hs & H)]]]]%step_transaction%step_same.
  - by destruct H as (_ & _ & -> & _).
  - simpl. set_solver.
  - by apply create_stage_Ok in H as (_ & _ & _ & _ & _ & _ & _ & -> & _).
  - apply decide_stage_Ok in H as (? & _ & _ & _ & _ & _ & _ & H).
    destruct ap; [destruct H as (_ & _ & -> & _); set_solver|by destruct H as (_ & -> & _)].
  - apply revoke_version_Ok in H as (? & _ & _ & _ & _ & _ & -> & _). set_solver.
Qed.
(** No version is ever deleted. *)
Lemma later_versions w w' : later w w' → dom (versions (w_db w)) ⊆ dom (versions (w_db w')).
Proof.
  intros H%later_db. induction H as [d|d d1 d' [d1' d2 H|now key event d1' d2 _ H|now row d1' _ _] _ IH];
    [done| | |done]; (etrans; [|exact IH]); [by apply transaction_versions|].
  by apply append_Ok in H as [[-> _]|[_ ->]].
Qed.
Lemma later_package w w' name p :
  later w w' → package name (w_db w) = Some p → package name (w_db w') = Some p.
Proof.
  intros H%later_db. unfold package.
  induction H as [d|d d1 d' H _ IH]; [done|]. intros Hp. apply IH.
  by eapply lookup_weaken, registry_packages.
Qed.

Lemma later_stage w w' id r :
  later w w' → stages (w_db w) !! id = Some r →
  ∃ r', stages (w_db w') !! id = Some r' ∧ set_status "" (stage r') = set_status "" (stage r).
Proof.
  intros H%later_db. revert r. induction H as [d|d d1 d' H _ IH]; intros r Hr; [by exists r|].
  destruct (registry_stages _ _ H _ _ Hr) as (r1 & Hr1 & E). destruct (IH _ Hr1) as (r' & Hr' & E').
  exists r'. split; [done|]. congruence.
Qed.
(** An outbox row keeps its number, its key and its event. *)
Lemma later_row w w' row :
  later w w' → row ∈ outbox (w_db w) →
  ∃ row', row' ∈ outbox (w_db w') ∧ ob_id row' = ob_id row
          ∧ ob_event_key row' = ob_event_key row ∧ ob_event row' = ob_event row.
Proof.
  intros H%later_db. revert row. induction H as [d|d d1 d' H _ IH]; intros row Hr; [by exists row|].
  assert (∃ row1, row1 ∈ outbox d1 ∧ ob_id row1 = ob_id row
    ∧ ob_event_key row1 = ob_event_key row ∧ ob_event row1 = ob_event row) as (row1 & Hr1 & E1 & E2 & E3).
  { destruct H as [d1 d2 H|now key event d1 d2 _ H|now r d1 _ _].
    - apply transaction_frame in H. destruct (frame_row_kept _ _ _ H Hr) as (row1 & ? & ? & ? & ? & _).
      by exists row1.
    - exists row. by apply append_Ok in H as [[-> _]|[_ ->]].
    - unfold mark_outbox_delivered, update_outbox. simpl. eexists.
      split; [by apply list_elem_of_fmap_2|]. simpl. by case_decide. }
  destruct (IH _ Hr1) as (row' & Hr' & E1' & E2' & E3'). exists row'. split_and!; [done|congruence..].
Qed.
Lemma later_events w w' : later w w' → good w → events (w_db w) `prefix_of` events (w_db w').
Proof. intros H%later_db [_ L _]. by eapply registry_steps_log. Qed.

(** ** Programs that change nothing that needs a permission *)

(** All that is left alone but the log, the outbox's bookkeeping, the rate limits, the
    billing events and the download counts. *)
Definition housekeeping (d d' : DB) : Prop :=
  organizations d' = organizations d ∧ tokens d' = tokens d
  ∧ ControlPlane.packages d' = ControlPlane.packages d ∧ package_roles d' = package_roles d
  ∧ invitations d' = invitations d ∧ members d' = members d ∧ stages d' = stages d
  ∧ dist_tags d' = dist_tags d ∧ tombstones d' = tombstones d
  ∧ set_download_count 0 <$> versions d' = set_download_count 0 <$> versions d.
Definition quiet_step (w w' : World) : Prop :=
  world_step w w' ∧ housekeeping (w_db w) (w_db w').
Definition quiet {A} (p : api A) : Prop :=
  ∀ w, good w → wp later quiet_step p w (λ _, good).

Lemma housekeeping_refl d : housekeeping d d.
Proof. by repeat split. Qed.
Lemma quiet_step_db w w' : w_db w' = w_db w → w_objects w' = w_objects w → quiet_step w w'.
Proof. intros Hd Ho. split; [by apply world_step_db|]. rewrite Hd. apply housekeeping_refl. Qed.
Lemma quiet_bind {A B} (p : api A) (f : A → api B) :
  quiet p → (∀ a, quiet (f a)) → quiet (p ≫= f).
Proof.
  intros Hp Hf w Hw. apply wp_bind; [apply _|]. eapply wp_mono; [by intros ?? H; exact H| |by apply Hp].
  intros [a|e] w' Hw'; [by apply Hf|done].
Qed.
Lemma quiet_lift {A} (r : result ApiError A) : quiet (lift r).
Proof. intros w Hw w' H. by eapply later_good. Qed.
Lemma quiet_ret {A} (a : A) : quiet (mret a).
Proof. intros w Hw w' H. by eapply later_good. Qed.
Lemma quiet_throw {A} e : quiet (throw (A := A) e).
Proof. intros w Hw w' H. by eapply later_good. Qed.
Lemma quiet_check b e : quiet (check b e).
Proof. destruct b; [apply quiet_ret|apply quiet_throw]. Qed.
Lemma quiet_fmap {A B} (f : A → B) (p : api A) : quiet p → quiet (f <$> p).
Proof. intros Hp. apply quiet_bind; [done|]. intros a. apply quiet_ret. Qed.
Lemma quiet_attempt {A} (p : api A) : quiet p → quiet (attempt p).
Proof. intros Hp w Hw. apply wp_attempt. by apply Hp. Qed.
Lemma quiet_action {B} (t : World → result ApiError B * World) :
  (∀ w, good w → quiet_step w (t w).2) → quiet (action t).
Proof.
  intros Ht w Hw. apply wp_action. intros w1 H1. assert (good w1) as Hg by by eapply later_good.
  split; [by apply Ht|]. intros w2 H2. eapply later_good; [exact H2|].
  eapply later_good; [|exact Hg]. apply rtc_once. by apply Ht.
Qed.
Lemma quiet_ask {B} (f : World → B) : quiet (ask f).
Proof.
  intros w Hw. apply wp_ask; [intros w1 _; by apply quiet_step_db|].
  intros w1 w2 H1 H2. eapply later_good; [|done]. by etrans.
Qed.
(** A transaction fails, or does what it does; when its connection is lost it may have
    done it all the same. *)
Lemma wp_tx {B} G (t : Z → DB → result db_error (B * DB)) w (Q : result ApiError B → World → Prop) :
  (∀ w1, later w w1 →
     G w1 w1 ∧ (∀ e w2, later w1 w2 → Q (Err e) w2)
     ∧ ∀ b d, t (w_now w1) (w_db w1) = Ok (b, d) →
         G w1 (set_db d w1) ∧ ∀ w2, later (set_db d w1) w2 → Q (Ok b) w2 ∧ ∀ e, Q (Err e) w2) →
  wp later G (tx (SU := SU) t) w Q.
Proof.
  intros H. apply wp_action. intros w1 H1. destruct (H w1 H1) as (Hr & He & Ht). unfold tx_at.
  destruct (t (w_now w1) (w_db w1)) as [[b d]|e]; [|split; [exact Hr|exact (He _)]].
  destruct (Ht b d eq_refl) as [HG HQ].
  destruct (w_fault w1) as [[]|]; cbn [fst snd]; (split; [assumption|]); intros w2 H2.
  - by apply He.
  - by apply (HQ w2 H2).
  - by apply (HQ w2 H2).
Qed.
Lemma wp_tx_ G (t : Z → DB → result db_error DB) w (Q : result ApiError unit → World → Prop) :
  (∀ w1, later w w1 →
     G w1 w1 ∧ (∀ e w2, later w1 w2 → Q (Err e) w2)
     ∧ ∀ d, t (w_now w1) (w_db w1) = Ok d →
         G w1 (set_db d w1) ∧ ∀ w2, later (set_db d w1) w2 → Q (Ok tt) w2 ∧ ∀ e, Q (Err e) w2) →
  wp later G (tx_ (SU := SU) t) w Q.
Proof.
  intros H. apply wp_tx. intros w1 H1. destruct (H w1 H1) as (Hr & He & Ht).
  split; [done|]. split; [done|]. intros b d (x & Hx & [= -> ->])%fmap_Ok. by apply Ht.
Qed.
Lemma wp_query {B} G (f : Z → DB → B) w (Q : result ApiError B → World → Prop) :
  (∀ w1, later w w1 → G w1 w1) → (∀ w1 e, later w w1 → Q (Err e) w1) →
  (∀ w1 w2, later w w1 → later w1 w2 → Q (Ok (f (w_now w1) (w_db w1))) w2) →
  wp later G (query (SU := SU) f) w Q.
Proof.
  intros HG HE HQ. apply wp_tx. intros w1 H1. split; [by apply HG|].
  split; [intros e w2 H2; apply HE; by etrans|]. intros b d [= <- <-].
  assert (set_db (w_db w1) w1 = w1) as -> by by destruct w1. split; [by apply HG|].
  intros w2 H2. split; [by apply HQ|]. intros e. apply HE. by etrans.
Qed.
Lemma set_db_good w d :
  good w → (d = w_db w ∨ registry_step (w_db w) d) → new_stages (w_db w) d (w_objects w) →
  world_step w (set_db d w) ∧ good (set_db d w).
Proof.
  intros Hg Hd Hn. assert (world_step w (set_db d w)) as Hs.
  { split_and!; [|done..]. destruct Hd as [->|]; [by left|by right]. }
  split; [done|]. by eapply world_step_good.
Qed.
Lemma housekeeping_stages d d' a : housekeeping d d' → new_stages d d' a.
Proof. intros (_ & _ & _ & _ & _ & _ & E & _). by apply new_stages_same. Qed.
Lemma quiet_tx {B} (t : Z → DB → result db_error (B * DB)) :
  (∀ now d b d', t now d = Ok (b, d') → (d' = d ∨ registry_step d d') ∧ housekeeping d d') →
  quiet (tx (SU := SU) t).
Proof.
  intros Ht w Hg. apply wp_tx. intros w1 H1. pose proof (later_good _ _ H1 Hg) as Hg1.
  split; [by apply quiet_step_db|]. split; [intros e w2 H2; by eapply later_good|].
  intros b d Hd. destruct (Ht _ _ _ _ Hd) as [Hs Hk].
  destruct (set_db_good w1 d Hg1 Hs) as [Hw Hgd]; [by apply housekeeping_stages|]. split; [by split|].
  intros w2 H2. assert (good w2) by by eapply later_good. done.
Qed.
Lemma quiet_query {B} (f : Z → DB → B) : quiet (query (SU := SU) f).
Proof. apply quiet_tx. intros now d b d' [= _ <-]. split; [by left|apply housekeeping_refl]. Qed.

Lemma housekeeping_events d l : housekeeping d (set_events l d).
Proof. by repeat split. Qed.
Lemma housekeeping_outbox d l : housekeeping d (set_outbox l d).
Proof. by repeat split. Qed.
Lemma housekeeping_downloads n v r x d :
  versions d !! (n, v) = Some r →
  housekeeping d (set_versions (<[(n, v) := set_download_count x r]> (versions d)) d).
Proof.
  intros Hr. repeat split. simpl. rewrite fmap_insert. apply insert_id.
  by rewrite lookup_fmap, Hr.
Qed.
Lemma quiet_tx_ (t : Z → DB → result db_error DB) :
  (∀ now d d', t now d = Ok d' → (d' = d ∨ registry_step d d') ∧ housekeeping d d') →
  quiet (tx_ (SU := SU) t).
Proof. intros Ht. apply quiet_tx. intros now d b d' (x & Hx & [= _ ->])%fmap_Ok. by eapply Ht. Qed.
Lemma append_housekeeping now key event d d' :
  append_event_keyed (signing_key reg) now key event d = Ok d' → housekeeping d d'.
Proof. intros [[-> _]|[_ ->]]%append_Ok; [apply housekeeping_refl|apply housekeeping_events]. Qed.
Lemma quiet_append_event event : quiet (append_event reg event).
Proof.
  apply quiet_tx_. intros now d d' H. split; [|by eapply append_housekeeping].
  right. eapply reg_append; [by right|exact H].
Qed.
Lemma quiet_count f : quiet (count f).
Proof. apply quiet_action. intros w _. by apply quiet_step_db. Qed.

(** *** Draining the outbox *)

Definition in_outbox (d : DB) (row : OutboxRow) : Prop :=
  ∃ row', row' ∈ outbox d ∧ ob_id row' = ob_id row ∧ ob_event_key row' = ob_event_key row
          ∧ ob_event row' = ob_event row.
Lemma later_in_outbox w w' row : later w w' → in_outbox (w_db w) row → in_outbox (w_db w') row.
Proof.
  intros H (r & Hr & E1 & E2 & E3). destruct (later_row _ _ _ H Hr) as (r' & ? & ? & ? & ?).
  exists r'. split_and!; [done|congruence..].
Qed.
Lemma wp_append_row w row :
  good w → in_outbox (w_db w) row →
  wp later quiet_step (append_keyed reg (ob_event_key row) (ob_event row)) w
    (λ r w', good w' ∧ (∀ u, r = Ok u → ob_event_key row ∈ er_event_key <$> events (w_db w'))).
Proof.
  intros Hg Hrow. apply wp_tx_. intros w1 H1.
  pose proof (later_good _ _ H1 Hg) as Hg1. pose proof (later_in_outbox _ _ _ H1 Hrow) as Hrow1.
  split; [by apply quiet_step_db|]. split; [intros e w2 H2; split; [by eapply later_good|done]|].
  intros d Hd. assert (registry_step (w_db w1) d) as Hs.
  { eapply reg_append; [|exact Hd]. left. destruct Hrow1 as (r & ? & _ & ? & ?). by exists r. }
  apply append_housekeeping in Hd as Hk.
  destruct (set_db_good w1 d Hg1 (or_intror Hs)) as [Hw Hgd]; [by apply housekeeping_stages|].
  split; [by split|]. intros w2 H2.
  assert (good w2) by by eapply later_good. split; [|done]. split; [done|]. intros _ _.
  destruct (later_events _ _ H2 Hgd) as [l Hl]. rewrite Hl, fmap_app, elem_of_app. left.
  apply append_Ok in Hd as [[-> ?]|[_ ->]]; [done|]. simpl. rewrite fmap_app. set_solver.
Qed.
Lemma wp_mark w row :
  good w → in_outbox (w_db w) row → ob_event_key row ∈ er_event_key <$> events (w_db w) →
  wp later quiet_step (tx_ (SU := SU) (λ now d, Ok (mark_outbox_delivered now (ob_id row) d))) w
    (λ _, good).
Proof.
  intros Hg Hrow Hlog. apply wp_tx_. intros w1 H1.
  pose proof (later_good _ _ H1 Hg) as Hg1.
  split; [by apply quiet_step_db|]. split; [intros e w2 H2; by eapply later_good|].
  intros d [= <-]. destruct (later_in_outbox _ _ _ H1 Hrow) as (r & Hr & Ei & Ek & _).
  destruct (later_events _ _ H1 Hg) as [l Hl].
  assert (registry_step (w_db w1) (mark_outbox_delivered (w_now w1) (ob_id row) (w_db w1))) as Hs.
  { rewrite <- Ei. apply reg_delivered; [done|]. rewrite Ek, Hl, fmap_app, elem_of_app. by left. }
  destruct (set_db_good w1 _ Hg1 (or_intror Hs)) as [Hw Hgd]; [by apply new_stages_same|].
  split; [split; [done|apply housekeeping_outbox]|]. intros w2 H2.
  assert (good w2) by by eapply later_good. done.
Qed.
Lemma quiet_later {A} (p : api A) w Q :
  wp later quiet_step p w Q → wp later quiet_step p w (λ r w', later w w' ∧ Q r w').
Proof. apply wp_later; [apply _|]. intros w1 w2 [H _]. by apply rtc_once. Qed.
Lemma quiet_retry id :
  quiet (tx_ (SU := SU) (λ now, retry_outbox now id)).
Proof.
  apply quiet_tx_. intros now d d' H. split; [right; by eapply reg_transaction, step_retry|].
  unfold retry_outbox in H. apply bind_Ok in H as (? & _ & [= <-]). apply housekeeping_outbox.
Qed.
Lemma wp_drain_rows pending delivered w :
  good w → Forall (in_outbox (w_db w)) pending →
  wp later quiet_step (drain_rows reg pending delivered) w (λ _, good).
Proof.
  revert delivered w. induction pending as [|row pending IH]; intros delivered w Hg Hall.
  { by apply quiet_ret. }
  apply Forall_cons in Hall as [Hrow Hall]. cbn [drain_rows].
  assert (∀ w', later w w' → Forall (in_outbox (w_db w')) pending) as Hlater.
  { intros w' H. eapply Forall_impl; [exact Hall|]. intros r. by apply later_in_outbox. }
  apply wp_bind; [apply _|]. apply wp_attempt.
  eapply wp_mono; [by intros ?? H; exact H| |by apply quiet_later, wp_append_row].
  intros [u|e] w1 (H1 & Hg1 & Hlog); apply wp_bind; [apply _| |apply _|].
  - eapply wp_mono; [by intros ?? H; exact H| |eapply quiet_later, wp_mark; [done| |by eapply Hlog]].
    + intros [[]|e] w2 [H2 Hg2]; [|done]. apply IH; [done|]. apply Hlater. by etrans.
    + by eapply later_in_outbox.
  - eapply wp_mono; [by intros ?? H; exact H| |by apply quiet_later, quiet_retry].
    intros [[]|e'] w2 [H2 Hg2]; [|done]. apply IH; [done|]. apply Hlater. by etrans.
Qed.
Lemma pending_in_outbox now n d : Forall (in_outbox d) (pending_outbox now n d).
Proof.
  apply Forall_forall. intros r Hr. unfold pending_outbox in Hr.
  apply elem_of_take in Hr as (i & Hi & _). apply list_elem_of_lookup_2 in Hi.
  apply list_elem_of_filter in Hi as [_ Hi]. by exists r.
Qed.
Lemma quiet_drain_outbox : quiet (drain_outbox reg).
Proof.
  intros w Hg. apply wp_bind; [apply _|]. apply wp_query.
  - intros w1 _. by apply quiet_step_db.
  - intros w1 e H1. by eapply later_good.
  - intros w1 w2 H1 H2. apply wp_drain_rows; [eapply later_good; [|done]; by etrans|].
    eapply Forall_impl; [apply pending_in_outbox|]. intros r. by apply later_in_outbox.
Qed.
Lemma quiet_try_drain : quiet (try_drain reg).
Proof. apply quiet_bind; [apply quiet_attempt, quiet_drain_outbox|intros _; apply quiet_ret]. Qed.

(** ** Programs whose steps are authorised *)

(** Own steps are housekeeping, or what [perf] says; a program that succeeds does so
    with what [Q] says. *)
Definition own (perf : World → World → Prop) (w w' : World) : Prop :=
  quiet_step w w' ∨ (world_step w w' ∧ perf w w').
Definition safe {A} (perf : World → World → Prop) (Q : A → World → Prop) (p : api A) (w : World) : Prop :=
  wp later (own perf) p w (λ r w', good w' ∧ ∀ a, r = Ok a → Q a w').
Notation any := (λ _ _, True).

Section safe.
Context (perf : World → World → Prop).
Lemma own_refl w : own perf w w.
Proof. left. by apply quiet_step_db. Qed.
Lemma own_later w w' : own perf w w' → later w w'.
Proof. intros [[H _]|[H _]]; by apply rtc_once. Qed.
Lemma quiet_safe {A} (p : api A) w : quiet p → good w → safe perf any p w.
Proof. intros Hp Hg. eapply wp_mono; [by left| |by apply Hp]. done. Qed.
Lemma safe_wp {A B} G (Q : B → World → Prop) (p : api A) (f : A → api B) w R :
  (∀ a b, G a b → own perf a b) → wp later G p w R →
  (∀ r w', R r w' → good w') → (∀ a w', R (Ok a) w' → safe perf Q (f a) w') →
  safe perf Q (p ≫= f) w.
Proof.
  intros HG Hp Hg Hf. apply wp_bind; [apply _|]. eapply wp_mono; [exact HG| |exact Hp].
  intros [a|e] w' H; [by apply Hf|]. split; [by eapply Hg|done].
Qed.
Lemma safe_assoc {A B C} (Q : C → World → Prop) (p : api A) (f : A → api B) (g : B → api C) w :
  safe perf Q (p ≫= λ a, f a ≫= g) w → safe perf Q ((p ≫= f) ≫= g) w.
Proof. apply wp_assoc. Qed.

Context {A : Type} (Q : A → World → Prop).
Lemma safe_bind {B} (p : api B) (f : B → api A) w :
  quiet p → good w → (∀ a w', later w w' → good w' → safe perf Q (f a) w') →
  safe perf Q (p ≫= f) w.
Proof.
  intros Hp Hg Hf. eapply safe_wp; [by left|by apply quiet_later, Hp|by intros ? ? [_ ?]|].
  intros a w' [? ?]. by apply Hf.
Qed.
Lemma safe_ret (a : A) w : good w → (∀ w', later w w' → good w' → Q a w') → safe perf Q (mret a) w.
Proof.
  intros Hg HQ w' H. assert (good w') as Hg' by by eapply later_good.
  split; [done|]. intros _ [= <-]. by apply HQ.
Qed.
Lemma safe_throw e w : good w → safe perf Q (throw (A := A) e) w.
Proof. intros Hg w' H. split; [by eapply later_good|done]. Qed.
Lemma safe_lift {B} (r : result ApiError B) (f : B → api A) w :
  good w → (∀ a, r = Ok a → safe perf Q (f a) w) → safe perf Q (lift r ≫= f) w.
Proof. destruct r as [a|e]; intros Hg Hf; [by apply Hf|by apply safe_throw]. Qed.
Lemma safe_check b e (f : unit → api A) w :
  good w → (b = true → safe perf Q (f tt) w) → safe perf Q (check b e ≫= f) w.
Proof. destruct b; intros Hg Hf; [by apply Hf|by apply safe_throw]. Qed.
Lemma safe_tx {B} (t : Z → DB → result db_error (B * DB)) (f : B → api A) w :
  good w →
  (∀ w1 b d, later w w1 → good w1 → t (w_now w1) (w_db w1) = Ok (b, d) →
     registry_step (w_db w1) d ∧ new_stages (w_db w1) d (w_objects w1)
     ∧ (quiet_step w1 (set_db d w1) ∨ perf w1 (set_db d w1))
     ∧ ∀ w2, later (set_db d w1) w2 → later w w2 → good w2 → safe perf Q (f b) w2) →
  safe perf Q (tx (SU := SU) t ≫= f) w.
Proof.
  intros Hg Ht. apply wp_bind; [apply _|]. apply wp_tx. intros w1 H1.
  pose proof (later_good _ _ H1 Hg) as Hg1. split; [by apply own_refl|].
  split; [intros e w2 H2; split; [by eapply later_good|done]|].
  intros b d Hd. destruct (Ht w1 b d H1 Hg1 Hd) as (Hs & Hn & Hp & Hf).
  destruct (set_db_good w1 d Hg1 (or_intror Hs) Hn) as [Hw Hgd].
  split; [destruct Hp; [by left|by right]|]. intros w2 H2.
  assert (good w2) as Hg2 by by eapply later_good. split; [|done]. apply Hf; [done| |done].
  etrans; [exact H1|]. by eapply rtc_l.
Qed.
Lemma safe_tx_ (t : Z → DB → result db_error DB) (f : unit → api A) w :
  good w →
  (∀ w1 d, later w w1 → good w1 → t (w_now w1) (w_db w1) = Ok d →
     registry_step (w_db w1) d ∧ new_stages (w_db w1) d (w_objects w1)
     ∧ (quiet_step w1 (set_db d w1) ∨ perf w1 (set_db d w1))
     ∧ ∀ w2, later (set_db d w1) w2 → later w w2 → good w2 → safe perf Q (f tt) w2) →
  safe perf Q (tx_ (SU := SU) t ≫= f) w.
Proof.
  intros Hg Ht. apply safe_tx; [done|]. intros w1 b d H1 Hg1 (x & Hx & [= -> ->])%fmap_Ok.
  by apply Ht.
Qed.
Lemma safe_query {B} (q : Z → DB → B) (f : B → api A) w :
  good w →
  (∀ w1 w2, later w w1 → later w1 w2 → later w w2 → good w2 →
     safe perf Q (f (q (w_now w1) (w_db w1))) w2) →
  safe perf Q (query (SU := SU) q ≫= f) w.
Proof.
  intros Hg Hf. apply wp_bind; [apply _|]. apply wp_query.
  - intros w1 _. apply own_refl.
  - intros w1 e H1. split; [by eapply later_good|done].
  - intros w1 w2 H1 H2. assert (later w w2) by by etrans.
    apply Hf; [done..|]. by eapply later_good.
Qed.
Lemma safe_ask {B} (q : World → B) (f : B → api A) w :
  good w →
  (∀ w1 w2, later w w1 → later w1 w2 → later w w2 → good w2 → safe perf Q (f (q w1)) w2) →
  safe perf Q (ask q ≫= f) w.
Proof.
  intros Hg Hf. apply wp_bind; [apply _|]. apply wp_ask.
  - intros w1 _. apply own_refl.
  - intros w1 w2 H1 H2. assert (later w w2) by by etrans.
    apply Hf; [done..|]. by eapply later_good.
Qed.
End safe.

(** ** Who asks, and for what *)

(** Since the request began, its bearer token was that of [p]. *)
Definition caller (headers : Headers) (w0 : World) (p : Principal) (w : World) : Prop :=
  ∃ w1 token, later w0 w1 ∧ later w1 w ∧ bearer headers = Ok token
    ∧ ControlPlane.authenticate (w_now w1) (sha256_hex token) (w_db w1) = Some p.
(** What [authorize_name] lets a principal do, at one moment. *)
Definition may (write : bool) (p : Principal) (name owner : string) (d : DB) : Prop :=
  match package name d with
  | Some pk =>
      owner = pk_organization pk
      ∧ ((owner = pr_organization p ∧ (write = true → can_publish (pr_role p) = true))
         ∨ (owner ≠ pr_organization p
            ∧ ∃ role, package_role name (pr_organization p) d = Some role
                      ∧ (write = true → can_publish role = true)))
  | None =>
      owner = pr_organization p ∧ write = true ∧ can_publish (pr_role p) = true
      ∧ ∀ scope, scope_of name = Some scope → scope = pr_organization p
  end.
Definition permitted (w0 : World) (write : bool) (p : Principal) (name owner : string) (w : World) : Prop :=
  ∃ w1, later w0 w1 ∧ later w1 w ∧ may write p name owner (w_db w1).

Lemma caller_later headers w0 p w w' : later w w' → caller headers w0 p w → caller headers w0 p w'.
Proof. intros H (w1 & t & H1 & H2 & ?). exists w1, t. split_and!; [done|by etrans|naive_solver..]. Qed.
Lemma permitted_later w0 write p name owner w w' :
  later w w' → permitted w0 write p name owner w → permitted w0 write p name owner w'.
Proof. intros H (w1 & H1 & H2 & ?). exists w1. split_and!; [done|by etrans|done]. Qed.

Section who.
Context (perf : World → World → Prop) {A : Type} (Q : A → World → Prop).
Lemma safe_authenticate headers (f : Principal → api A) w0 w :
  later w0 w → good w →
  (∀ p w', later w0 w' → later w w' → good w' → caller headers w0 p w' → safe perf Q (f p) w') →
  safe perf Q (authenticate (SU := SU) headers ≫= f) w.
Proof.
  intros H0 Hg Hf. unfold authenticate.
  apply safe_assoc, safe_lift; [done|]. intros token Hb. apply safe_assoc, safe_query; [done|].
  intros w1 w2 H1 H12 H2 Hg2. apply safe_lift; [done|]. intros p Hp%ok_or_Ok.
  apply Hf; [by etrans|done|done|]. exists w1, token. split_and!; [by etrans|done..].
Qed.
Lemma safe_authorize_name p name write (f : string → api A) w0 w :
  later w0 w → good w →
  (∀ owner w', later w0 w' → later w w' → good w' → permitted w0 write p name owner w' →
     safe perf Q (f owner) w') →
  safe perf Q (authorize_name (SU := SU) p name write ≫= f) w.
Proof.
  intros H0 Hg Hf. unfold authorize_name. apply safe_assoc, safe_query; [done|].
  intros w1 w2 H1 H12 H2 Hg2. assert (later w0 w1) by by etrans.
  destruct (package name (w_db w1)) as [pk|] eqn:Hpk.
  - case_decide as Ho.
    + apply safe_assoc, safe_check; [done|]. intros Hc.
      apply Hf; [by etrans|done|done|]. exists w1. split_and!; [done..|].
      unfold may. rewrite Hpk. split; [done|]. left. split; [done|].
      intros ->. by destruct (can_publish (pr_role p)).
    + apply safe_assoc, safe_query; [done|]. intros w3 w4 H3 H34 H4 Hg4.
      apply safe_assoc, safe_check; [done|]. intros Hc.
      apply Hf; [by etrans; [exact H0|]; etrans|by etrans|done|].
      exists w3. split_and!; [by etrans; [exact H0|]; etrans|done|].
      unfold may. rewrite (later_package w1 w3 name pk) by (by etrans || done).
      split; [done|]. right. split; [done|].
      destruct (package_role _ _ _) as [role|]; [|done]. exists role. split; [done|].
      by intros ->.
  - apply safe_assoc, safe_check; [done|]. intros ->.
    apply safe_assoc, safe_check; [done|]. intros Hr.
    apply safe_assoc, safe_check; [done|]. intros Hs.
    apply Hf; [by etrans|done|done|]. exists w1. split_and!; [done..|].
    unfold may. rewrite Hpk. split_and!; [done..|]. intros scope Hsc.
    rewrite Hsc in Hs. by apply bool_decide_eq_true in Hs.
Qed.
End who.

(** ** Quiet handlers *)

Lemma quiet_authenticate headers : quiet (authenticate (SU := SU) headers).
Proof.
  apply quiet_bind; [apply quiet_lift|]. intros t. apply quiet_bind; [apply quiet_query|].
  intros p. apply quiet_lift.
Qed.
Lemma quiet_authenticate_optional headers : quiet (authenticate_optional (SU := SU) headers).
Proof.
  apply quiet_bind; [apply quiet_lift|]. intros [t|]; [|apply quiet_ret].
  apply quiet_bind; [apply quiet_query|]. intros p. apply quiet_lift.
Qed.
Lemma quiet_authorize_name p name write : quiet (authorize_name (SU := SU) p name write).
Proof.
  apply quiet_bind; [apply quiet_query|]. intros [pk|].
  - case_decide.
    + apply quiet_bind; [apply quiet_check|]. intros _. apply quiet_ret.
    + apply quiet_bind; [apply quiet_query|]. intros r. apply quiet_bind; [apply quiet_check|].
      intros _. apply quiet_ret.
  - do 3 (apply quiet_bind; [apply quiet_check|]; intros _). apply quiet_ret.
Qed.
Lemma quiet_objects {B} (f : ArtifactStore → result ApiError B * ArtifactStore) :
  (∀ a, artifacts_le a (f a).2 ∧ (artifacts_intact a → artifacts_intact (f a).2)) →
  quiet (action (λ w, ((f (w_objects w)).1, set_objects (f (w_objects w)).2 w))).
Proof.
  intros Hf. apply quiet_action. intros w _. destruct (Hf (w_objects w)).
  split; [split_and!; [by left|done|done|by apply new_stages_same]|apply housekeeping_refl].
Qed.
Lemma quiet_action_ext {B} (t t' : World → result ApiError B * World) :
  (∀ w, t w = t' w) → quiet (action t') → quiet (action t).
Proof.
  intros E H w Hg w1 H1. destruct (H w Hg w1 H1) as [H2 H3]. rewrite E. by split.
Qed.
Lemma quiet_put_artifact bytes : quiet (put_artifact (sha256_hex bytes) bytes).
Proof.
  eapply quiet_action_ext; [|apply (quiet_objects (λ a,
    let '(r, a) := put_immutable (sha256_hex bytes) bytes a in
    (match r with Ok u => Ok u | Err e => Err (internal e) end, a)))].
  - intros w. cbv beta. by destruct (put_immutable (sha256_hex bytes) bytes (w_objects w)).
  - intros a. destruct (put_immutable _ _ _) as [r a'] eqn:E.
    split; [by eapply put_immutable_spec|by eapply put_immutable_intact].
Qed.
Lemma quiet_get_artifact digest : quiet (get_artifact digest).
Proof.
  eapply quiet_action_ext; [|apply (quiet_objects (λ a,
    let '(r, a) := fetch digest a in
    (match r with Ok u => Ok u | Err e => Err (internal e) end, a)))].
  - intros w. cbv beta. by destruct (fetch digest (w_objects w)).
  - intros a. destruct (fetch _ _) as [r a'] eqn:E. apply fetch_spec in E as (? & _ & ?). done.
Qed.
Lemma quiet_assess tarball manifest name ver publisher :
  quiet (assess reg tarball manifest name ver publisher).
Proof. apply quiet_action. intros w _. destruct (assess_tarball _ _ _ _ _ _ _ _ _ _ _ _). by apply quiet_step_db. Qed.
Lemma quiet_now : quiet now.
Proof. apply quiet_ask. Qed.
Lemma quiet_send_invitation m email org url : quiet (send_invitation m email org url).
Proof. apply quiet_action. intros w _. destruct (w_mailer_up w); by apply quiet_step_db. Qed.
Lemma quiet_random_token : quiet (random_token (SU := SU)).
Proof.
  apply quiet_bind; [apply quiet_ask|]. intros r. apply quiet_bind; [apply quiet_lift|].
  intros b. apply quiet_ret.
Qed.
Lemma quiet_verify_identity t : quiet (verify_identity (SU := SU) reg t).
Proof.
  apply quiet_bind; [apply quiet_lift|]. intros v. apply quiet_bind; [apply quiet_ask|].
  intros r. apply quiet_lift.
Qed.
Lemma quiet_rate subject bucket most window :
  quiet (tx (SU := SU) (λ now, consume_rate_limit now subject bucket most window)).
Proof.
  apply quiet_tx. intros now d b d' H. split; [right; by eapply reg_transaction, step_rate|].
  unfold consume_rate_limit in H. apply bind_Ok in H as (? & _ & [= _ <-]). by repeat split.
Qed.
Lemma quiet_record_download name ver : quiet (tx_ (SU := SU) (λ _, record_download name ver)).
Proof.
  apply quiet_tx_. intros _ d d' H. split; [right; by eapply reg_transaction, step_download|].
  unfold record_download in H. destruct (versions d !! (name, ver)) as [r|] eqn:Hr.
  - apply bind_Ok in H as (? & _ & [= <-]). by apply housekeeping_downloads.
  - injection H as <-. apply housekeeping_refl.
Qed.
Lemma quiet_record_billing id type event :
  quiet (tx (SU := SU) (λ now d, Ok (record_billing_event now id type event d))).
Proof.
  apply quiet_tx. intros now d b d' [= H].
  assert (d' = (record_billing_event now id type event d).2) as -> by by rewrite H.
  split; [right; by apply reg_transaction, step_billing|].
  unfold record_billing_event. destruct (billing_events d !! id); by repeat split.
Qed.
Lemma quiet_prune cutoff : quiet (tx (SU := SU) (λ _ d, Ok (prune_rate_limits_before cutoff d))).
Proof.
  apply quiet_tx. intros now d b d' [= _ <-].
  split; [right; by apply reg_transaction, (step_prune _ cutoff d)|]. by repeat split.
Qed.

(** A step of the automation, by the shape of the program. *)
#[local] Hint Resolve quiet_ret quiet_throw quiet_lift quiet_check quiet_ask quiet_now quiet_query quiet_count
  quiet_authenticate quiet_authenticate_optional quiet_authorize_name quiet_put_artifact
  quiet_get_artifact quiet_assess quiet_send_invitation quiet_random_token quiet_verify_identity
  quiet_rate quiet_record_download quiet_record_billing quiet_prune quiet_append_event
  quiet_drain_outbox quiet_try_drain : quiet.
Ltac quiet_solve :=
  repeat first
    [ solve [eauto 2 with quiet]
    | apply quiet_fmap
    | apply quiet_attempt
    | apply quiet_bind; [|intros ?]
    | progress cbv beta iota zeta
    | case_match ].
Lemma quiet_metadata_rows name rows : quiet (metadata_rows (SU := SU) reg name rows).
Proof.
  induction rows as [|e rows IH]; cbn [metadata_rows]; [apply quiet_ret|].
  repeat (apply quiet_bind; [done || apply quiet_now || apply quiet_lift|intros ?]). apply quiet_ret.
Qed.
Lemma quiet_authorize_read headers name private :
  quiet (authorize_read (SU := SU) headers name private).
Proof. unfold authorize_read. quiet_solve. Qed.
#[local] Hint Resolve quiet_authorize_read quiet_metadata_rows : quiet.
Lemma quiet_view_stage headers id : quiet (view_stage (SU := SU) headers id).
Proof. unfold view_stage. quiet_solve. Qed.
#[local] Hint Resolve quiet_view_stage : quiet.

(** Routes that change nothing that needs a permission. *)
Definition reads (route : Route) : bool :=
  match route with
  | CreateStage _ | ApproveStage _ _ | RejectStage _ _ | RevokeVersion _ _ _ | IssueToken _
  | CreateInvitation _ | RevokeInvitation _ | AcceptInvitation _ _ | SsoExchange _
  | GrantRole _ _ => false
  | _ => true
  end.
Lemma quiet_reads headers route : reads route = true → quiet (handle reg headers route).
Proof.
  destruct route; intros H; try discriminate H; cbn [handle];
    unfold livez, metrics_text, list_stages, download_stage, download_version, checkpoint,
      inclusion_proof, consistency_proof, verdict_bundle, osv_feed, admin_summary,
      billing_checkout, billing_webhook, package_metadata; quiet_solve.
Qed.

(** ** What each request may do *)

(** The step commits a transaction. *)
Definition commits {B} (t : Z → DB → result db_error (B * DB)) (b : B) (w w' : World) : Prop :=
  ∃ d, t (w_now w) (w_db w) = Ok (b, d) ∧ w' = set_db d w.
Definition commits_ (t : Z → DB → result db_error DB) (w w' : World) : Prop :=
  ∃ d, t (w_now w) (w_db w) = Ok d ∧ w' = set_db d w.
(** The transaction of [decide_request]: by an admin of the stage's organization, with a
    second factor where approvals need one, and never against a verdict of "deny". *)
Definition decides (headers : Headers) (id : string) (approve : bool) (reason : option string)
    (w0 w w' : World) : Prop :=
  ∃ p s r b,
    caller headers w0 p w ∧ pr_role p = "admin" ∧ pr_organization p = st_organization s
    ∧ (approve = true → require_step_up_approval reg = true → pr_kind p = "oidc-mfa")
    ∧ (approve = true → jget "decision" (st_assessment s) ≫= as_str ≠ Some "deny")
    ∧ stages (w_db w) !! id = Some r ∧ set_status "" (stage r) = set_status "" s
    ∧ commits (λ now, decide_stage now s approve reason (decision_key approve id)
                (decision_event approve id (pr_organization p) (st_name s) (st_version s) reason)) b w w'.
Definition performs (headers : Headers) (route : Route) (w0 w w' : World) : Prop :=
  match route with
  | CreateStage rq =>
      ∃ p s owner tarball manifest b,
        caller headers w0 p w ∧ permitted w0 true p (rq_name rq) owner w
        ∧ b64_decode (rq_tarball_base64 rq) = Some tarball
        ∧ manifest_from_tarball tarball (rq_name rq) (rq_version rq) = Ok manifest
        ∧ is_Some (parse_version (rq_version rq))
        ∧ st_name s = rq_name rq ∧ st_version s = rq_version rq ∧ st_organization s = owner
        ∧ st_digest s = sha256_hex tarball ∧ st_manifest s = manifest ∧ st_status s = "staged"
        ∧ commits (λ now, ControlPlane.create_stage now s ("stage.created:" +:+ st_id s)
                    (stage_created_event s (pr_organization p)) (maximum_pending_stages reg)) b w w'
  | ApproveStage id reason => decides headers id true reason w0 w w'
  | RejectStage id reason => decides headers id false reason w0 w w'
  | RevokeVersion name ver rq =>
      ∃ p owner at_ sig key event ws wt b,
        caller headers w0 p w ∧ permitted w0 true p name owner w
        ∧ later w0 ws ∧ later ws wt ∧ later wt w
        ∧ commits (λ now, ControlPlane.revoke_version now name ver (revoke_status rq) (rv_reason rq)
                    (pr_organization p) at_ sig key (revoke_key (revoke_status rq) name ver) event
                    (w_db ws) (w_db wt)) b w w'
  | IssueToken rq =>
      ∃ p token expires,
        caller headers w0 p w ∧ pr_role p = "admin" ∧ known_role (tr_role rq) = true
        ∧ (60 ≤ tr_ttl_secs rq ≤ 86400)%Z
        ∧ commits_ (λ _, insert_token (sha256_hex token) (pr_organization p) (tr_role rq) expires "service") w w'
  | CreateInvitation rq =>
      ∃ p token, caller headers w0 p w ∧ pr_role p = "admin" ∧ known_role (ir_role rq) = true
        ∧ ((∃ expires, commits_ (λ _, ControlPlane.create_invitation (sha256_hex token) (pr_organization p)
                                 (ir_email rq) (ir_role rq) expires) w w')
           ∨ ∃ b, commits (λ now d, Ok (ControlPlane.revoke_invitation now (sha256_hex token)
                                          (pr_organization p) d)) b w w')
  | RevokeInvitation token_id =>
      ∃ p b, caller headers w0 p w ∧ pr_role p = "admin"
        ∧ commits (λ now d, Ok (ControlPlane.revoke_invitation now token_id (pr_organization p) d)) b w w'
  | AcceptInvitation invitation id_token =>
      ∃ claims email wv v,
        later w0 wv ∧ later wv w ∧ oidc reg = Some v
        ∧ verify (fetch_jwks (w_now wv)) v id_token = Ok claims
        ∧ ic_email_verified claims = true ∧ ic_email claims = Some email
        ∧ ((∃ b, commits (λ now, ControlPlane.accept_invitation now (sha256_hex invitation)
                           (ic_sub claims) email) b w w')
           ∨ ∃ wi i d token expires kind,
               later wv wi ∧ later wi w
               ∧ ControlPlane.accept_invitation (w_now wi) (sha256_hex invitation)
                   (ic_sub claims) email (w_db wi) = Ok (Some i, d)
               ∧ (kind = "oidc-mfa" → has_step_up_authentication claims = true)
               ∧ commits_ (λ _, insert_token (sha256_hex token) (in_organization i) (in_role i) expires kind) w w')
  | SsoExchange id_token =>
      ∃ claims wv v wm organization role token expires kind,
        later w0 wv ∧ later wv wm ∧ later wm w ∧ oidc reg = Some v
        ∧ verify (fetch_jwks (w_now wv)) v id_token = Ok claims
        ∧ membership (ic_sub claims) (w_db wm) = Some (organization, role)
        ∧ (kind = "oidc-mfa" → has_step_up_authentication claims = true)
        ∧ commits_ (λ _, insert_token (sha256_hex token) organization role expires kind) w w'
  | GrantRole name rq =>
      ∃ p, caller headers w0 p w ∧ pr_role p = "admin"
        ∧ permitted w0 true p name (pr_organization p) w ∧ known_role (pr_new_role rq) = true
        ∧ commits_ (λ _, grant_package_role name (pr_organization p) (pr_principal_org rq) (pr_new_role rq)) w w'
  | _ => False
  end.

(** Only [create_stage] makes stages. *)
Ltac no_stages H := repeat (apply bind_Ok in H as (? & _ & H)); injection H as <-;
  by apply new_stages_same.
Lemma token_no_stages hash org role e kind d d' a :
  insert_token hash org role e kind d = Ok d' → new_stages d d' a.
Proof. unfold insert_token. intros H. no_stages H. Qed.
Lemma grant_no_stages name owner p role d d' a :
  grant_package_role name owner p role d = Ok d' → new_stages d d' a.
Proof. unfold grant_package_role. intros H. no_stages H. Qed.
Lemma invite_no_stages hash org email role e d d' a :
  ControlPlane.create_invitation hash org email role e d = Ok d' → new_stages d d' a.
Proof. unfold ControlPlane.create_invitation. intros H. no_stages H. Qed.
Lemma uninvite_no_stages now hash org b d d' a :
  ControlPlane.revoke_invitation now hash org d = (b, d') → new_stages d d' a.
Proof.
  unfold ControlPlane.revoke_invitation.
  repeat case_match; intros [= <- <-]; by apply new_stages_same.
Qed.
Lemma accept_no_stages now hash su email d o d' a :
  ControlPlane.accept_invitation now hash su email d = Ok (o, d') → new_stages d d' a.
Proof.
  unfold ControlPlane.accept_invitation. destruct (invitations d !! hash); [case_decide|]; intros Hx.
  - repeat (apply bind_Ok in Hx as (? & _ & Hx)). injection Hx as _ <-. by apply new_stages_same.
  - injection Hx as _ <-. by apply new_stages_same.
  - injection Hx as _ <-. by apply new_stages_same.
Qed.
Lemma revoke_no_stages now name ver st re ac at_ sig key k e seen tagged b d d' a :
  ControlPlane.revoke_version now name ver st re ac at_ sig key k e seen tagged d = Ok (b, d') → new_stages d d' a.
Proof.
  intros H. apply new_stages_same. destruct b.
  - apply revoke_version_Ok in H as (? & _ & _ & _ & _ & -> & _). done.
  - by apply revoke_version_false in H as ->.
Qed.
Lemma decide_no_stages now s ap re k e b d d' a :
  decide_stage now s ap re k e d = Ok (b, d') → new_stages d d' a.
Proof.
  destruct b; intros H; [|apply decide_stage_false in H as ->; by apply new_stages_same].
  apply decide_stage_Ok in H as (r0 & Hr0 & _ & _ & _ & _ & _ & H).
  assert (∃ st, stages d' = <[st_id s := decided st re r0]> (stages d)) as [st Hst].
  { destruct ap; [destruct H as (_ & E & _)|destruct H as [E _]]; by eexists. }
  intros id r Hn. rewrite Hst. intros [[<- _]|[_ ?]]%lookup_insert_Some; congruence.
Qed.
Lemma create_new_stages now s k e maximum b d d' a :
  available (st_digest s) a →
  ControlPlane.create_stage now s k e maximum d = Ok (b, d') → new_stages d d' a.
Proof.
  intros Ha. destruct b; intros H; [|apply create_stage_false in H as ->; by apply new_stages_same].
  apply create_stage_Ok in H as (_ & _ & Hs & _ & _ & _ & E & _).
  intros id r Hn. rewrite E. intros [[<- <-]|[_ ?]]%lookup_insert_Some; [done|congruence].
Qed.
(** An artifact that has been put stays. *)
Lemma safe_put_artifact {A} perf (Q : A → World → Prop) bytes (f : unit → api A) w :
  good w →
  (∀ w', later w w' → good w' → (∀ w'', later w' w'' → available (sha256_hex bytes) (w_objects w'')) →
     safe perf Q (f tt) w') →
  safe perf Q (put_artifact (sha256_hex bytes) bytes ≫= f) w.
Proof.
  intros Hg Hf. eapply (safe_wp _ quiet_step); [by left
    |apply (quiet_later _ _ (λ r w', good w' ∧ (r = Ok tt → available (sha256_hex bytes) (w_objects w'))))
    |by intros ? ? (_ & ? & _)|].
  2: { intros [] w' (H & Hg' & Ha). apply Hf; [done..|]. intros w'' H'.
    eapply available_le; [|by apply Ha]. by apply later_objects. }
  apply wp_action. intros w1 H1. pose proof (quiet_put_artifact bytes w Hg w1 H1) as [Hq Hr].
  split; [exact Hq|]. intros w2 H2. split; [by apply Hr|]. revert H2. cbv beta.
  destruct (put_immutable _ _ _) as [r a] eqn:E. cbn [fst snd]. intros H2 Hok.
  destruct r as [[]|]; [|done]. apply put_immutable_spec in E as (_ & Hall & _).
  specialize (Hall eq_refl). apply Forall_cons in Hall as [Hp _].
  eapply available_le; [by apply later_objects in H2 as [? _]|]. exists bytes. split; [done|]. by eexists.
Qed.

Lemma safe_verify_identity {A} perf (Q : A → World → Prop) t (f : IdentityClaims → api A) w0 w :
  later w0 w → good w →
  (∀ c v wv w', later w0 wv → later wv w' → later w w' → good w' → oidc reg = Some v →
     verify (fetch_jwks (w_now wv)) v t = Ok c → safe perf Q (f c) w') →
  safe perf Q (verify_identity (SU := SU) reg t ≫= f) w.
Proof.
  intros H0 Hg Hf. unfold verify_identity. apply safe_assoc, safe_lift; [done|].
  intros v Hv%ok_or_Ok. apply safe_assoc, safe_ask; [done|]. intros w1 w2 H1 H12 H2 Hg2.
  apply safe_lift; [done|]. intros c Hc.
  destruct (verify _ _ _) as [c'|] eqn:E; [|done]. injection Hc as ->.
  apply (Hf c v w1 w2); [by etrans|done..].
Qed.
Lemma safe_issue_identity_token {A} (perf : World → World → Prop) (Q : A → World → Prop) org role step_up (f : string → api A) w :
  good w →
  (∀ w1 d token expires, later w w1 → good w1 →
     insert_token (sha256_hex token) org role expires (if step_up : bool then "oidc-mfa" else "oidc") (w_db w1) = Ok d →
     perf w1 (set_db d w1)) →
  (∀ token w', later w w' → good w' → safe perf Q (f token) w') →
  safe perf Q (issue_identity_token (SU := SU) org role step_up ≫= f) w.
Proof.
  intros Hg Hp Hf. unfold issue_identity_token. apply safe_assoc, safe_bind; [quiet_solve|done|].
  intros token w1 H1 Hg1. apply safe_assoc, safe_bind; [quiet_solve|done|]. intros n w2 H2 Hg2.
  apply safe_assoc, safe_tx_; [done|]. intros w3 d H3 Hg3 Hd.
  split; [by eapply reg_transaction, step_token|]. split; [by eapply token_no_stages|].
  split; [right; eapply Hp; [|done|exact Hd]; by etrans; [|etrans]|].
  intros w4 _ H4 Hg4. apply (Hf token w4); [|done]. by etrans; [|etrans].
Qed.

Ltac later_solve :=
  first [ assumption | reflexivity
        | multimatch goal with
          | H : rtc world_step ?a ?b |- rtc world_step ?a _ => transitivity b; [exact H|later_solve]
          end ].
(** The stages these requests reply with: one created under a package its caller may
    write, and one decided by an admin of the organization that owns it. *)
Definition created (headers : Headers) (rq : StageRequest) (w0 : World) (s : StageRecord) (w : World) : Prop :=
  ∃ p, caller headers w0 p w ∧ permitted w0 true p (st_name s) (st_organization s) w
       ∧ st_name s = rq_name rq.
Definition reviewed (headers : Headers) (id : string) (w0 : World) (s : StageRecord) (w : World) : Prop :=
  ∃ p w1, caller headers w0 p w ∧ pr_role p = "admin" ∧ pr_organization p = st_organization s
          ∧ later w0 w1 ∧ later w1 w ∧ read_stage id (w_db w1) = Some s.
Lemma safe_any {A} perf (Q : A → World → Prop) (p : api A) w : safe perf Q p w → safe perf any p w.
Proof.
  apply wp_mono; [by intros ?? H; exact H|]. intros r w' [Hg _]. by split.
Qed.
Lemma safe_create_stage headers rq w0 :
  good w0 →
  safe (performs headers (CreateStage rq) w0) (created headers rq w0) (create_stage reg headers rq) w0.
Proof.
  intros Hg. unfold create_stage. apply (safe_authenticate _ _ _ _ w0); [done..|].
  intros p w1 H1 _ Hg1 Hp. apply (safe_authorize_name _ _ _ _ _ _ w0); [done..|].
  intros owner w2 H2 H12 Hg2 Ho. apply safe_bind; [quiet_solve|done|]. intros pk w3 H23 Hg3.
  apply safe_check; [done|]. intros _. apply safe_lift; [done|]. intros ver Hver%ok_or_Ok.
  apply safe_lift; [done|]. intros tarball Ht%ok_or_Ok. apply safe_lift; [done|]. intros manifest Hm.
  apply safe_bind; [quiet_solve|done|]. intros bundle w4 H34 Hg4.
  apply safe_put_artifact; [done|]. intros w5 H45 Hg5 Ha.
  apply safe_bind; [quiet_solve|done|]. intros at_ w6 H56 Hg6.
  apply safe_tx; [done|]. intros w7 b d H67 Hg7 Hd.
  assert (later w2 w7) as H27 by (do 4 (etrans; [eassumption|]); done).
  assert (later w1 w7) as H17 by by etrans.
  split; [eapply reg_transaction, step_create; [|exact Hd]; done|].
  split; [eapply create_new_stages; [|exact Hd]; apply Ha; by etrans|]. split.
  - right. exists p, (new_stage reg rq owner (sha256_hex tarball) manifest bundle at_), owner, tarball, manifest, b.
    split_and!; [by eapply caller_later; [|exact Hp]|by eapply permitted_later; [|exact Ho]|done|done|by eexists|done..|by exists d].
  - intros w8 _ H68 Hg8. apply safe_check; [done|]. intros _.
    apply safe_bind; [apply quiet_try_drain|done|]. intros _ w9 H89 Hg9.
    apply safe_bind; [apply quiet_count|done|]. intros _ w10 H90 Hg10.
    apply safe_ret; [done|]. intros w11 H101 _.
    assert (later w2 w11) as H2b by later_solve.
    exists p. split_and!; [|by eapply permitted_later; [|exact Ho]|done].
    eapply caller_later; [|exact Hp]. later_solve.
Qed.
Lemma safe_decide headers route id approve reason w0 :
  (∀ w w', decides headers id approve reason w0 w w' → performs headers route w0 w w') →
  good w0 →
  safe (performs headers route w0) (reviewed headers id w0) (decide_request reg headers id approve reason) w0.
Proof.
  intros Hperf Hg. unfold decide_request. apply (safe_authenticate _ _ _ _ w0); [done..|].
  intros p w1 H1 _ Hg1 Hp. apply safe_check; [done|]. intros Hadmin%bool_decide_eq_true.
  apply safe_check; [done|]. intros Hstep. apply safe_query; [done|]. intros w2 w3 H12 H23 H13 Hg3.
  apply safe_lift; [done|]. intros s Hs%ok_or_Ok. apply safe_check; [done|].
  intros Horg%bool_decide_eq_true. apply safe_check; [done|]. intros Hdeny.
  apply safe_tx; [done|]. intros w4 b d H34 Hg4 Hd.
  apply fmap_Some in Hs as (r0 & Hr0 & ->).
  destruct (later_stage w2 w4 id r0) as (r & Hr & E); [etrans; [exact H23|done]|done|].
  assert (st_id (stage r) = id) as Hid.
  { destruct Hg4 as [I _]. by eapply inv_id. }
  pose proof (f_equal st_id E) as Hid0. cbn in Hid0. rewrite Hid in Hid0.
  split; [eapply reg_transaction, step_decide; [by rewrite <- Hid0|done|exact Hd]|].
  split; [by eapply decide_no_stages|]. split.
  - right. apply Hperf. exists p, (stage r0), r, b.
    split_and!; [by eapply caller_later; [|exact Hp]; etrans|done|done| | |done|done|by exists d].
    + intros -> Hreq. rewrite Hreq in Hstep. simpl in Hstep.
      destruct (decide (pr_kind p = "oidc-mfa")); [done|by rewrite bool_decide_true in Hstep].
    + intros -> Hjd. by rewrite Hjd, bool_decide_true in Hdeny.
  - intros w5 _ H35 Hg5. apply safe_check; [done|]. intros _.
    apply safe_bind; [apply quiet_try_drain|done|]. intros _ w6 H56 Hg6.
    apply safe_query; [done|]. intros w7 w8 H67 H78 H68 Hg8.
    intros w9 H89. split; [by eapply later_good|]. intros s' Hs'%ok_or_Ok.
    assert (later w2 w7) as H27 by later_solve.
    assert (later w7 w9) as H79 by by etrans.
    destruct (later_stage w2 w7 id r0 H27 Hr0) as (r' & Hr' & E').
    unfold read_stage in Hs'. rewrite Hr' in Hs'. injection Hs' as <-.
    exists p, w7. split_and!; [|done| | |done|unfold read_stage; by rewrite Hr'].
    + eapply caller_later; [|exact Hp]. later_solve.
    + rewrite <- Horg. apply (f_equal st_organization) in E'. cbn in E'. by rewrite E'.
    + later_solve.
Qed.
Lemma safe_revoke_version headers name ver rq w0 :
  good w0 → safe (performs headers (RevokeVersion name ver rq) w0) any (revoke_version reg headers name ver rq) w0.
Proof.
  intros Hg. unfold revoke_version. apply (safe_authenticate _ _ _ _ w0); [done..|].
  intros p w1 H1 _ Hg1 Hp. apply (safe_authorize_name _ _ _ _ _ _ w0); [done..|].
  intros owner w2 H2 H12 Hg2 Ho. apply safe_bind; [quiet_solve|done|]. intros at_ w3 H23 Hg3.
  unfold withdraw. apply safe_assoc, safe_query; [done|]. intros wu w4 H3u Hu4 H34 Hg4.
  destruct (bool_decide _); [|by apply safe_check].
  apply safe_assoc, safe_query; [done|]. intros ws w5 H4s Hs5 H45 Hg5.
  apply safe_assoc, safe_query; [done|]. intros wt w6 H5t Ht6 H56 Hg6.
  apply safe_tx; [done|]. intros w7 b d H67 Hg7 Hd.
  assert (later w2 w7) as H27 by later_solve. assert (later w1 w7) as H17 by by etrans.
  assert (later w0 ws) as H0s by later_solve.
  assert (later ws wt) as Hst by by etrans. assert (later wt w7) as Ht7 by by etrans.
  split; [eapply reg_transaction, step_revoke;
    [|apply later_versions; etrans; [exact Hst|exact Ht7]|exact Hd]; unfold revoke_status; case_match; auto|].
  split; [by eapply revoke_no_stages|]. split.
  - right. eexists p, owner, _, _, _, _, ws, wt, b.
    split_and!; [by eapply caller_later; [|exact Hp]|by eapply permitted_later; [|exact Ho]|done..|by exists d].
  - intros w8 _ _ Hg8. apply safe_check; [done|]. intros _. apply quiet_safe; [quiet_solve|done].
Qed.
Lemma safe_issue_token headers rq w0 :
  good w0 → safe (performs headers (IssueToken rq) w0) any (issue_token reg headers rq) w0.
Proof.
  intros Hg. unfold issue_token. apply (safe_authenticate _ _ _ _ w0); [done..|].
  intros p w1 H1 _ Hg1 Hp. apply safe_check; [done|]. intros Hadmin%bool_decide_eq_true.
  apply safe_check; [done|]. intros Hrole. apply safe_check; [done|]. intros Httl%bool_decide_eq_true.
  apply safe_bind; [quiet_solve|done|]. intros token w2 H2 Hg2.
  apply safe_bind; [quiet_solve|done|]. intros n w3 H3 Hg3.
  apply safe_tx_; [done|]. intros w4 d H4 Hg4 Hd.
  split; [by eapply reg_transaction, step_token|]. split; [by eapply token_no_stages|]. split.
  - right. eexists p, token, _.
    split_and!; [eapply caller_later; [|exact Hp]; by do 2 (etrans; [eassumption|])|done|done|lia..|by exists d].
  - intros w5 _ _ Hg5. apply quiet_safe; [quiet_solve|done].
Qed.
Lemma safe_grant_role headers name rq w0 :
  good w0 → safe (performs headers (GrantRole name rq) w0) any (grant_role reg headers name rq) w0.
Proof.
  intros Hg. unfold grant_role. apply (safe_authenticate _ _ _ _ w0); [done..|].
  intros p w1 H1 _ Hg1 Hp. apply safe_check; [done|]. intros Hadmin%bool_decide_eq_true.
  apply (safe_authorize_name _ _ _ _ _ _ w0); [done..|]. intros owner w2 H2 H12 Hg2 Ho.
  apply safe_check; [done|]. intros ->%bool_decide_eq_true. apply safe_check; [done|]. intros Hrole.
  apply safe_tx_; [done|]. intros w3 d H3 Hg3 Hd.
  split; [by eapply reg_transaction, step_grant|]. split; [by eapply grant_no_stages|]. split.
  - right. exists p. split_and!; [eapply caller_later; [|exact Hp]; by etrans|done|by eapply permitted_later; [|exact Ho]|done|by exists d].
  - intros w4 _ _ Hg4. apply quiet_safe; [quiet_solve|done].
Qed.
Lemma revoke_invitation_step now hash org d b d' :
  ControlPlane.revoke_invitation now hash org d = (b, d') → registry_step d d'.
Proof.
  intros H. assert (d' = (ControlPlane.revoke_invitation now hash org d).2) as -> by by rewrite H.
  apply reg_transaction, step_uninvite.
Qed.
Lemma safe_create_invitation headers rq w0 :
  good w0 → safe (performs headers (CreateInvitation rq) w0) any (create_invitation reg headers rq) w0.
Proof.
  intros Hg. unfold create_invitation. apply (safe_authenticate _ _ _ _ w0); [done..|].
  intros p w1 H1 _ Hg1 Hp. apply safe_check; [done|]. intros Hadmin%bool_decide_eq_true.
  apply safe_check; [done|]. intros Hrole. apply safe_check; [done|]. intros _.
  apply safe_lift; [done|]. intros m _. apply safe_lift; [done|]. intros url _.
  apply safe_bind; [quiet_solve|done|]. intros token w2 H2 Hg2.
  apply safe_bind; [quiet_solve|done|]. intros n w3 H3 Hg3.
  assert (later w1 w3) as H13 by by etrans.
  apply safe_tx_; [done|]. intros w4 d H4 Hg4 Hd.
  split; [by eapply reg_transaction, step_invite|]. split; [by eapply invite_no_stages|]. split.
  - right. exists p, token. split_and!; [eapply caller_later; [|exact Hp]; by etrans|done|done|].
    left. eexists. by exists d.
  - intros w5 _ H35 Hg5. apply safe_bind; [quiet_solve|done|]. intros [u|e] w6 H6 Hg6.
    + apply quiet_safe; [quiet_solve|done].
    + apply safe_tx; [done|]. intros w7 b d' H7 Hg7 [= Hd'].
      split; [by eapply revoke_invitation_step|]. split; [by eapply uninvite_no_stages|]. split; [|intros; by apply safe_throw].
      right. exists p, token. split_and!; [|done|done|right; exists b; exists d'; by rewrite Hd'].
      eapply caller_later; [|exact Hp]. do 3 (etrans; [eassumption|]). done.
Qed.
Lemma safe_revoke_invitation headers id w0 :
  good w0 → safe (performs headers (RevokeInvitation id) w0) any (revoke_invitation reg headers id) w0.
Proof.
  intros Hg. unfold revoke_invitation. apply (safe_authenticate _ _ _ _ w0); [done..|].
  intros p w1 H1 _ Hg1 Hp. apply safe_check; [done|]. intros Hadmin%bool_decide_eq_true.
  apply safe_tx; [done|]. intros w2 b d H2 Hg2 [= Hd].
  split; [by eapply revoke_invitation_step|]. split; [by eapply uninvite_no_stages|]. split.
  - right. exists p, b. split_and!; [by eapply caller_later; [|exact Hp]|done|]. exists d. by rewrite Hd.
  - intros w3 _ _ Hg3. apply safe_check; [done|]. intros _. apply quiet_safe; [quiet_solve|done].
Qed.
Lemma commit_later w d w' :
  good w → registry_step (w_db w) d → new_stages (w_db w) d (w_objects w) →
  later (set_db d w) w' → later w w'.
Proof. intros Hg Hs Hn H. eapply rtc_l; [|exact H]. apply set_db_good; [done|by right|done]. Qed.
Lemma safe_accept_invitation headers invitation t w0 :
  good w0 → safe (performs headers (AcceptInvitation invitation t) w0) any (accept_invitation reg invitation t) w0.
Proof.
  intros Hg. unfold accept_invitation. apply (safe_verify_identity _ _ _ _ w0); [done..|].
  intros c v wv w1 Hv Hv1 H1 Hg1 Ev Ec. apply safe_check; [done|]. intros Hver. cbv zeta.
  apply safe_lift; [done|]. intros email Hemail%ok_or_Ok.
  apply safe_tx; [done|]. intros w2 i d H2 Hg2 Hd.
  assert (registry_step (w_db w2) d) as Hs by by eapply reg_transaction, step_accept.
  assert (new_stages (w_db w2) d (w_objects w2)) as Hn by by eapply accept_no_stages.
  split; [done|]. split; [done|]. split.
  { right. exists c, email, wv, v. split_and!; [done|by etrans|done..|]. left. exists i. by exists d. }
  intros w3 H23 H13 Hg3. apply (commit_later w2 d w3 Hg2 Hs Hn) in H23. destruct i as [i|]; [|by apply safe_throw]. cbn [ok_or lift].
  apply safe_lift; [done|]. intros _ [= <-]. apply safe_issue_identity_token; [done| |].
  - intros w4 d' token expires H4 Hg4 Hd'. exists c, email, wv, v.
    split_and!; [done|by etrans; [|etrans]|done..|]. right.
    exists w2, i, d, token, expires. eexists. split_and!; [by etrans|by etrans|done| |by exists d'].
    by destruct (has_step_up_authentication c).
  - intros token w4 H4 Hg4. apply quiet_safe; [quiet_solve|done].
Qed.
Lemma safe_sso_exchange headers t w0 :
  good w0 → safe (performs headers (SsoExchange t) w0) any (sso_exchange reg t) w0.
Proof.
  intros Hg. unfold sso_exchange. apply (safe_verify_identity _ _ _ _ w0); [done..|].
  intros c v wv w1 Hv Hv1 H1 Hg1 Ev Ec. apply safe_query; [done|]. intros w2 w3 H12 H23 H13 Hg3.
  apply safe_lift; [done|]. intros [org role] Hm%ok_or_Ok. apply safe_issue_identity_token; [done| |].
  - intros w4 d token expires H4 Hg4 Hd. exists c, wv, v, w2, org, role, token, expires. eexists.
    split_and!; [done|by etrans|by etrans|done..| |by exists d].
    by destruct (has_step_up_authentication c).
  - intros token w4 H4 Hg4. apply quiet_safe; [quiet_solve|done].
Qed.
Lemma safe_then {A B} perf (p : api A) (f : A → api B) w :
  safe perf any p w → (∀ a, quiet (f a)) → safe perf any (p ≫= f) w.
Proof.
  intros Hp Hf. eapply safe_wp; [by intros ?? H; exact H|exact Hp|by intros ? ? [? _]|].
  intros a w' [Hg _]. by apply quiet_safe.
Qed.
Lemma safe_handle headers route w0 :
  good w0 → safe (performs headers route w0) any (handle reg headers route) w0.
Proof.
  intros Hg. destruct (reads route) eqn:Hr; [by apply quiet_safe; [apply quiet_reads|]|].
  destruct route; try discriminate Hr; apply safe_then; try (intros ?; apply quiet_ret).
  - by eapply safe_any, safe_create_stage.
  - by eapply safe_any, safe_decide.
  - by eapply safe_any, safe_decide.
  - by apply safe_revoke_version.
  - by apply safe_issue_token.
  - by apply safe_create_invitation.
  - by apply safe_revoke_invitation.
  - by apply (safe_accept_invitation headers).
  - by apply (safe_sso_exchange headers).
  - by apply safe_grant_role.
Qed.

(** *** Limits and counters around a request *)

Lemma safe_mono {A} (perf perf' : World → World → Prop) Q (p : api A) w :
  (∀ a b, perf a b → perf' a b) → safe perf Q p w → safe perf' Q p w.
Proof. intros H. apply wp_mono; [|done]. intros a b [?|[? ?]]; [by left|right; auto]. Qed.
Lemma caller_earlier headers w0 w1 p w : later w0 w1 → caller headers w1 p w → caller headers w0 p w.
Proof. intros H (wa & t & H1 & ?). exists wa, t. split; [by etrans|done]. Qed.
Lemma permitted_earlier w0 w1 write p name owner w :
  later w0 w1 → permitted w1 write p name owner w → permitted w0 write p name owner w.
Proof. intros H (wa & H1 & ?). exists wa. split; [by etrans|done]. Qed.
Lemma decides_earlier headers id approve reason w0 w1 a b :
  later w0 w1 → decides headers id approve reason w1 a b → decides headers id approve reason w0 a b.
Proof.
  intros H (p & s & r & x & Hc & ?). exists p, s, r, x. split; [by eapply caller_earlier|done].
Qed.
Lemma performs_earlier headers route w0 w1 a b :
  later w0 w1 → performs headers route w1 a b → performs headers route w0 a b.
Proof.
  intros H. destruct route; cbn [performs]; try done.
  - intros (p & s & o & t & m & x & Hc & Hp & Hr). exists p, s, o, t, m, x.
    split; [by eapply caller_earlier|]. split; [by eapply permitted_earlier|done].
  - by apply decides_earlier.
  - by apply decides_earlier.
  - intros (p & o & a1 & a2 & a3 & a4 & a5 & a6 & a7 & Hc & Hp & Hs & Hr).
    exists p, o, a1, a2, a3, a4, a5, a6, a7. split; [by eapply caller_earlier|].
    split; [by eapply permitted_earlier|]. split; [by etrans|done].
  - intros (p & t & e & Hc & Hr). exists p, t, e. split; [by eapply caller_earlier|done].
  - intros (p & t & Hc & Hr). exists p, t. split; [by eapply caller_earlier|done].
  - intros (p & t & Hc & Hr). exists p, t. split; [by eapply caller_earlier|done].
  - intros (c & e & wv & v & Hw & Hr). exists c, e, wv, v. split; [by etrans|done].
  - intros (c & wv & Hr). exists c, wv. destruct Hr as (v & wm & o & r & t & e & k & Hw & Hr).
    exists v, wm, o, r, t, e, k. split; [by etrans|done].
  - intros (p & Hc & Ha & Hp & Hr). exists p. split; [by eapply caller_earlier|]. split; [done|].
    split; [by eapply permitted_earlier|done].
Qed.
Lemma safe_attempt {A} perf (p : api A) w : safe perf any p w → safe perf any (attempt p) w.
Proof. intros H. apply wp_attempt. eapply wp_mono; [by intros ?? Hx; exact Hx| |exact H]. naive_solver. Qed.
Lemma safe_request headers route w0 :
  good w0 → safe (performs headers route w0) any (track_registry_metrics reg headers route) w0.
Proof.
  intros Hg. unfold track_registry_metrics. apply safe_bind; [quiet_solve|done|].
  intros _ w1 H1 Hg1. apply safe_then; [apply safe_attempt|intros r; quiet_solve].
  unfold enforce_registry_rate_limit. destruct (exempt route).
  { eapply safe_mono; [|by apply safe_handle]. intros a b. by apply performs_earlier. }
  apply safe_bind; [quiet_solve|done|]. intros allowed w2 H2 Hg2.
  apply safe_check; [done|]. intros _. eapply safe_mono; [|by apply safe_handle].
  intros a b. apply performs_earlier. by etrans.
Qed.

(** ** What each request may see *)

Definition may_read (headers : Headers) (w0 : World) (name : string) (w : World) : Prop :=
  ∃ p owner, caller headers w0 p w ∧ permitted w0 false p name owner w.
Definition sees_stage (headers : Headers) (w0 : World) (id : string) (s : StageRecord) (w : World) : Prop :=
  may_read headers w0 (st_name s) w
  ∧ ∃ w1, later w0 w1 ∧ later w1 w ∧ read_stage id (w_db w1) = Some s.
(** The reply to a request that shows what may be private. *)
Definition sees (headers : Headers) (route : Route) (w0 : World) (reply : Reply) (w : World) : Prop :=
  match route with
  | ListStages =>
      ∃ p w1, caller headers w0 p w ∧ later w0 w1 ∧ later w1 w
        ∧ reply = StagesReply (ControlPlane.list_stages (pr_organization p) (w_db w1))
  | ViewStage id => ∃ s, reply = StageReply s ∧ sees_stage headers w0 id s w
  | DownloadStage id =>
      ∃ s bytes, reply = BytesReply bytes ∧ sees_stage headers w0 id s w
        ∧ (artifacts_intact (w_objects w0) → sha256_hex bytes = st_digest s)
  | DownloadVersion name ver =>
      ∃ row bytes w1, reply = BytesReply bytes ∧ later w0 w1 ∧ later w1 w
        ∧ ControlPlane.version name ver (w_db w1) = Some row ∧ vr_status row = "active"
        ∧ (vr_private row = true → may_read headers w0 name w)
        ∧ (artifacts_intact (w_objects w0) → sha256_hex bytes = vr_digest row)
  | PackageMetadata name =>
      ∃ pk w1, later w0 w1 ∧ later w1 w ∧ package name (w_db w1) = Some pk
        ∧ (pk_private pk = true → may_read headers w0 name w)
  | VerdictBundle name ver =>
      ∃ row t w1, later w0 w1 ∧ later w1 w ∧ version_bundle name ver (w_db w1) = Some (row, t)
        ∧ (vr_private row = true → may_read headers w0 name w)
  | AdminSummary | BillingCheckout _ _ _ => ∃ p, caller headers w0 p w ∧ pr_role p = "admin"
  | CreateStage rq => ∃ s, reply = StageReply s ∧ created headers rq w0 s w
  | ApproveStage id _ | RejectStage id _ => ∃ s, reply = StageReply s ∧ reviewed headers id w0 s w
  | _ => True
  end.

Lemma may_read_later headers w0 name w w' :
  later w w' → may_read headers w0 name w → may_read headers w0 name w'.
Proof.
  intros H (p & o & Hc & Hp). exists p, o. split; [by eapply caller_later|by eapply permitted_later].
Qed.
Lemma safe_authorize_read {A} perf (Q : A → World → Prop) headers name private (f : unit → api A) w0 w :
  later w0 w → good w →
  (∀ w', later w w' → good w' → (private = true → may_read headers w0 name w') → safe perf Q (f tt) w') →
  safe perf Q (authorize_read (SU := SU) headers name private ≫= f) w.
Proof.
  intros H0 Hg Hf. unfold authorize_read. destruct private; [|by apply Hf].
  apply safe_assoc, (safe_authenticate _ _ _ _ w0); [done..|]. intros p w1 H1 H2 Hg1 Hp.
  apply safe_assoc, (safe_authorize_name _ _ _ _ _ _ w0); [done..|]. intros owner w3 H3 H13 Hg3 Ho.
  apply Hf; [by etrans|done|]. intros _. exists p, owner. split; [by eapply caller_later|done].
Qed.
(** What is fetched for a digest of a tarball. *)
Lemma safe_get_artifact {A} perf (Q : A → World → Prop) digest (f : string → api A) w :
  good w →
  (∀ bytes w', later w w' → good w' →
     ((∃ tarball, digest = sha256_hex tarball) → artifacts_intact (w_objects w) → sha256_hex bytes = digest) →
     safe perf Q (f bytes) w') →
  safe perf Q (get_artifact digest ≫= f) w.
Proof.
  intros Hg Hf. eapply (safe_wp _ quiet_step); [by left
    |apply (quiet_later _ _ (λ r w', good w' ∧ ∀ bytes, r = Ok bytes → (∃ tarball, digest = sha256_hex tarball) →
        artifacts_intact (w_objects w) → sha256_hex bytes = digest))
    |by intros ? ? (_ & ? & _)|].
  2: { intros bytes w' (H & Hg' & Ha). apply Hf; [done..|]. by apply Ha. }
  apply wp_action. intros w1 H1. pose proof (quiet_get_artifact digest w Hg w1 H1) as [Hq Hr].
  split; [exact Hq|]. intros w2 H2. split; [by apply Hr|]. clear Hq Hr H2. cbv beta.
  destruct (fetch _ _) as [r a] eqn:E. cbn [fst snd]. intros bytes Hb [tarball ->] Hi.
  destruct r as [b|]; [|done]. injection Hb as ->.
  apply later_objects in H1 as [_ Hi1]. apply fetch_artifact_spec in E as (_ & _ & Hd).
  by apply Hd; [apply Hi1|..].
Qed.
Lemma stage_digest w id r :
  good w → stages (w_db w) !! id = Some r → ∃ tarball, st_digest (stage r) = sha256_hex tarball.
Proof. intros Hg Hr. destruct (good_stored _ Hg _ _ Hr) as (t & E & _). by exists t. Qed.
Lemma version_digest w nv row :
  good w → versions (w_db w) !! nv = Some row → available (vr_digest row) (w_objects w).
Proof.
  intros Hg Hr. destruct (inv_version _ _ (good_inv _ Hg) _ _ Hr) as (id & r & Hid & _ & _ & E).
  apply (f_equal c_digest) in E. cbn in E. rewrite <- E. by eapply good_stored.
Qed.

Section reading.
Context (perf : World → World → Prop) (headers : Headers) (w0 : World) (Hg0 : good w0).
Lemma safe_reply {A} (g : A → Reply) (Q : Reply → World → Prop) (p : api A) w :
  safe perf (λ a, Q (g a)) p w → safe perf Q (g <$> p) w.
Proof.
  intros Hp. apply wp_fmap. eapply wp_mono; [by intros ?? H; exact H| |exact Hp].
  intros [a|e] w' [Hg HQ]; (split; [done|]); [|done]. intros _ [= <-]. by apply HQ.
Qed.
Lemma safe_view_stage {A} (Q : A → World → Prop) id (f : StageRecord → api A) :
  (∀ s w, later w0 w → good w → sees_stage headers w0 id s w →
     (∃ tarball, st_digest s = sha256_hex tarball) → safe perf Q (f s) w) →
  safe perf Q (view_stage (SU := SU) headers id ≫= f) w0.
Proof.
  intros Hf. unfold view_stage. apply safe_assoc, (safe_authenticate _ _ _ _ w0); [done..|].
  intros p w1 H1 _ Hg1 Hp. apply safe_assoc, safe_query; [done|]. intros w2 w3 H12 H23 H13 Hg3.
  apply safe_assoc, safe_lift; [done|]. intros s Hs%ok_or_Ok.
  assert (good w2) as Hg2 by (eapply later_good; [|exact Hg1]; done).
  apply safe_assoc, (safe_authorize_name _ _ _ _ _ _ w0); [later_solve|done|].
  intros owner w4 H4 H34 Hg4 Ho. apply Hf; [done|done| |].
  - split; [|exists w2; split_and!; [later_solve|later_solve|done]]. exists p, owner. split; [|done].
    eapply caller_later; [|exact Hp]. later_solve.
  - unfold read_stage in Hs. apply fmap_Some in Hs as (r & Hr & ->). exact (stage_digest _ _ _ Hg2 Hr).
Qed.
Lemma sees_list_stages : safe perf (sees headers ListStages w0) (handle reg headers ListStages) w0.
Proof.
  apply safe_reply. unfold list_stages. apply (safe_authenticate _ _ _ _ w0); [done..|].
  intros p w1 H1 _ Hg1 Hp. apply wp_query.
  - intros w2 _. apply own_refl.
  - intros w2 e H2. split; [eapply later_good; [|exact Hg1]; done|done].
  - intros w2 w3 H2 H3. split; [eapply later_good; [|exact Hg1]; later_solve|].
    intros _ [= <-]. exists p, w2. split_and!; [eapply caller_later; [|exact Hp]; later_solve|later_solve|done|done].
Qed.
Lemma sees_view_stage id : safe perf (sees headers (ViewStage id) w0) (handle reg headers (ViewStage id)) w0.
Proof.
  apply safe_view_stage. intros s w H Hg [Hr (w1 & H1 & H2 & Hs)] _. apply safe_ret; [done|]. intros w' H' Hg'.
  exists s. split; [done|]. split; [eapply may_read_later; [|exact Hr]; later_solve|]. exists w1. split_and!; [done|later_solve|done].
Qed.
Lemma sees_download_stage id :
  safe perf (sees headers (DownloadStage id) w0) (handle reg headers (DownloadStage id)) w0.
Proof.
  unfold handle, download_stage. apply safe_assoc, safe_view_stage.
  intros s w H Hg [Hr (w1 & H1 & H2 & Hs)] Hd. apply safe_get_artifact; [done|].
  intros bytes w2 H3 Hg2 Hb. apply safe_ret; [done|]. intros w' H' Hg'.
  exists s, bytes. split; [done|]. split.
  - assert (later w w') as Hw by later_solve.
    split; [eapply may_read_later; [|exact Hr]; later_solve|]. exists w1. split_and!; [done|later_solve|done].
  - intros Hi. apply Hb; [done|]. by apply (later_objects w0 w H).
Qed.
Lemma sees_download_version name ver :
  safe perf (sees headers (DownloadVersion name ver) w0) (handle reg headers (DownloadVersion name ver)) w0.
Proof.
  unfold handle, download_version. apply safe_assoc, safe_query; [done|].
  intros w1 w2 H1 H12 H2 Hg2. apply safe_assoc, safe_lift; [done|]. intros row Hrow%ok_or_Ok.
  apply safe_assoc, (safe_authorize_read _ _ _ _ _ _ w0); [done..|]. intros w3 H3 Hg3 Hp.
  apply safe_assoc, safe_check; [done|]. intros Hst%bool_decide_eq_true.
  apply safe_assoc, safe_get_artifact; [done|]. intros bytes w4 H4 Hg4 Hb.
  apply safe_assoc, safe_bind; [apply quiet_record_download|done|]. intros _ w5 H5 Hg5.
  apply safe_assoc, safe_bind; [apply quiet_count|done|]. intros _ w6 H6 Hg6.
  apply safe_ret; [done|]. intros w7 H7 _.
  assert (later w3 w7) as H37 by later_solve.
  assert (later w2 w7) as H27 by later_solve.
  exists row, bytes, w1. split_and!; [done|done|later_solve|done|done| |].
  - intros E. eapply may_read_later; [exact H37|by apply Hp].
  - intros Hi. apply Hb.
    + destruct (version_digest w1 (name, ver) row) as (t & E & _); [eapply later_good; [|exact Hg0]; done|done|by exists t].
    + apply (later_objects w0 w3); [later_solve|exact Hi].
Qed.
Lemma sees_package_metadata name :
  safe perf (sees headers (PackageMetadata name) w0) (handle reg headers (PackageMetadata name)) w0.
Proof.
  unfold handle, package_metadata. apply safe_assoc, safe_query; [done|].
  intros w1 w2 H1 H12 H2 Hg2. apply safe_assoc, safe_lift; [done|]. intros pk Hpk%ok_or_Ok.
  apply safe_assoc. eapply (safe_wp _ (own perf)
    (sees headers (PackageMetadata name) w0) _ _ w2 (λ r w', later w2 w' ∧ good w' ∧
      ∀ a, r = Ok a → pk_private pk = true → may_read headers w0 name w')); [done| |by intros ? ? (_ & ? & _)|].
  2: { intros [] w3 (H3 & Hg3 & Hr).
    assert (∀ B (p : api B) (g : B → Reply), quiet p →
      safe perf (sees headers (PackageMetadata name) w0) (g <$> p) w3) as Hrest.
    { intros B p g Hq. apply safe_bind; [done|done|]. intros b w4 H4 Hg4.
      apply safe_ret; [done|]. intros w5 H5 _. exists pk, w1. split_and!; [done|later_solve|done|].
      intros E. eapply may_read_later; [|by eapply Hr]. later_solve. }
    apply Hrest. quiet_solve. }
  apply wp_later; [apply _|intros a b; apply own_later|].
  change (safe perf (λ (_ : unit) w', pk_private pk = true → may_read headers w0 name w')
    (if pk_private pk then
       principal ← authenticate_optional headers;
       principal ← lift (ok_or principal unauthorized);
       _ ← authorize_name principal name false;
       mret tt
     else (_ ← authenticate_optional headers; mret tt)) w2).
  destruct (pk_private pk).
  - unfold authenticate_optional. apply safe_assoc, safe_lift; [done|]. intros token Hb.
    destruct token as [token|]; [|by apply safe_throw].
    apply safe_assoc, safe_query; [done|]. intros w3 w4 H23 H34 H24 Hg4.
    apply safe_lift; [done|]. intros p' (p & Hp%ok_or_Ok & ->)%fmap_Ok.
    apply (safe_authorize_name _ _ _ _ _ _ w0); [later_solve|done|].
    intros owner w5 H5 H45 Hg5 Ho. apply safe_ret; [done|]. intros w6 H6 _ _. exists p, owner.
    split; [|by eapply permitted_later]. exists w3, token.
    split_and!; [later_solve|later_solve|unfold bearer; by rewrite Hb|done].
  - apply safe_bind; [apply quiet_authenticate_optional|done|]. intros _ w3 H3 Hg3. by apply safe_ret.
Qed.
Lemma sees_verdict_bundle name ver :
  safe perf (sees headers (VerdictBundle name ver) w0) (handle reg headers (VerdictBundle name ver)) w0.
Proof.
  unfold handle, verdict_bundle. apply safe_assoc, safe_query; [done|].
  intros w1 w2 H1 H12 H2 Hg2. apply safe_assoc, safe_lift; [done|]. intros [row t] Hrow%ok_or_Ok.
  apply safe_assoc, (safe_authorize_read _ _ _ _ _ _ w0); [done..|]. intros w3 H3 Hg3 Hp.
  apply safe_assoc, safe_query; [done|]. intros w4 w5 H34 H45 H35 Hg5.
  apply safe_assoc, safe_lift; [done|]. intros tomb _. apply safe_ret; [done|]. intros w6 H6 _.
  exists row, t, w1. split_and!; [done|later_solve|done|].
  intros E. eapply may_read_later; [|by apply Hp]. later_solve.
Qed.
Lemma sees_admin p A (q : api A) (g : A → Reply) route :
  (∀ reply w, caller headers w0 p w → sees headers route w0 reply w) →
  ∀ w, good w → caller headers w0 p w → quiet q → safe perf (sees headers route w0) (g <$> q) w.
Proof.
  intros Hs w Hg Hp Hq. apply safe_bind; [done|done|]. intros a w1 H1 Hg1.
  apply safe_ret; [done|]. intros w2 H2 _. apply Hs. eapply caller_later; [|exact Hp]. later_solve.
Qed.
Lemma sees_handle route : reads route = true → safe perf (sees headers route w0) (handle reg headers route) w0.
Proof.
  intros Hr. pose proof (quiet_safe perf _ _ (quiet_reads headers route Hr) Hg0) as Hq.
  destruct route; try discriminate Hr; try exact Hq.
  - apply sees_list_stages.
  - apply sees_view_stage.
  - apply sees_download_stage.
  - apply sees_download_version.
  - apply sees_verdict_bundle.
  - unfold handle, admin_summary. apply safe_assoc, (safe_authenticate _ _ _ _ w0); [done..|].
    intros p w1 H1 _ Hg1 Hp. apply safe_assoc, safe_check; [done|]. intros Ha%bool_decide_eq_true.
    apply (sees_admin p); [by intros reply w Hc; exists p|done|done|quiet_solve].
  - unfold handle, billing_checkout. apply safe_assoc, (safe_authenticate _ _ _ _ w0); [done..|].
    intros p w1 H1 _ Hg1 Hp. apply safe_assoc, safe_check; [done|]. intros Ha%bool_decide_eq_true.
    apply (sees_admin p); [by intros reply w Hc; exists p|done|done|quiet_solve].
  - apply sees_package_metadata.
Qed.
End reading.
(** The replies of the requests that write: a stage goes to who may write its package,
    or decides about it. *)
Lemma sees_written headers route w0 :
  good w0 → reads route = false →
  safe (performs headers route w0) (sees headers route w0) (handle reg headers route) w0.
Proof.
  intros Hg Hr. pose proof (safe_handle headers route w0 Hg) as Hany.
  destruct route; try discriminate Hr;
    try (eapply wp_mono; [by intros ?? H; exact H| |exact Hany]; intros ? ? [? _]; by split).
  - apply safe_reply. eapply wp_mono; [by intros ?? H; exact H| |by apply safe_create_stage].
    intros r w [Hgw Hc]. split; [done|]. intros s E. exists s. split; [done|by apply Hc].
  - apply safe_reply. eapply wp_mono; [by intros ?? H; exact H| |by apply safe_decide].
    intros r w [Hgw Hc]. split; [done|]. intros s E. exists s. split; [done|by apply Hc].
  - apply safe_reply. eapply wp_mono; [by intros ?? H; exact H| |by apply safe_decide].
    intros r w [Hgw Hc]. split; [done|]. intros s E. exists s. split; [done|by apply Hc].
Qed.

(** ** The service *)

(** What runs: requests, the tasks of the outbox and of the rate limits, the bootstrap of
    an organization. *)
Inductive task : api unit → Prop :=
  | task_request headers route :
      task (_ ← track_registry_metrics reg headers route; mret tt)
  | task_drain : task (try_drain reg)
  | task_prune : task (_ ← prune_expired_rate_limits (SU := SU); mret tt)
  | task_bootstrap organization token role :
      task (bootstrap (SU := SU) organization token role).
(** Besides, the clock, the faults, the files and the mails change; others may add
    objects that are what their digests say. *)
Definition outside (w w' : World) : Prop :=
  w_db w' = w_db w ∧ artifacts_le (w_objects w) (w_objects w')
  ∧ (artifacts_intact (w_objects w) → artifacts_intact (w_objects w')).

Lemma bootstrap_no_stages now org hash role d d' a :
  bootstrap_token now org hash role d = Ok d' → new_stages d d' a.
Proof. intros [= <-]. by apply new_stages_same. Qed.
Lemma safe_task p w : task p → good w → safe any any p w.
Proof.
  intros [headers route| | |org token role] Hg.
  - apply safe_then; [|intros r; apply quiet_ret].
    eapply safe_mono; [|by apply safe_request]. done.
  - apply quiet_safe; [apply quiet_try_drain|done].
  - apply quiet_safe; [unfold prune_expired_rate_limits; quiet_solve|done].
  - apply wp_tx_. intros w1 H1. assert (good w1) as Hg1 by by eapply later_good.
    split; [apply own_refl|]. split; [intros e w2 H2; split; [by eapply later_good|done]|].
    intros d Hd. assert (registry_step (w_db w1) d) as Hs by by eapply reg_transaction, step_bootstrap.
    destruct (set_db_good w1 d Hg1 (or_intror Hs)) as [Hw Hgd]; [by eapply bootstrap_no_stages|].
    split; [by right|]. intros w2 H2. assert (good w2) by by eapply later_good. done.
Qed.
Lemma good_empty w : w_db w = empty_db → good w.
Proof.
  intros E. split; rewrite E; [apply inv_empty|apply log_inv_empty|]. done.
Qed.

Lemma service_later w ps w' :
  good w → rtc (pool_step (λ _, task) outside) ([], w) (ps, w') → later w w'.
Proof.
  intros Hg Hr.
  assert (∀ a b, outside a b → later a b) as Ho.
  { intros a b (E & Ho & Hx). apply rtc_once. split_and!; [by left|done|done|].
    apply new_stages_same. by rewrite E. }
  eapply (pool_safe (λ _, later) (λ _, task) outside (λ _, own any) (λ _ _ _, True) later good w ps w');
    [| | | |done|exact later_good|exact Hg|exact Hr].
  - intros i p v Hp Hv. eapply wp_mono; [by intros ?? H; exact H|done|by apply safe_task].
  - intros i j a b _ _. apply own_later.
  - intros i. apply Ho.
  - intros i. apply own_later.
Qed.

(** (C1) The service implements the control plane and the event log, however its
    requests interleave: from an empty database, any number of requests, drains of the
    outbox, prunings of the rate limits and bootstraps, cut at any point, with faults of
    the database and the object stores, leave a database that a sequence of the
    registry's transactions reaches, from which the invariants of the control plane and
    of the log follow; and the artifact of every published version is in the object
    store, so that fetching it, when the store answers, gives bytes with the version's
    digest. *)
Theorem service_refines w ps w' :
  w_db w = empty_db → artifacts_intact (w_objects w) →
  rtc (pool_step (λ _, task) outside) ([], w) (ps, w') →
  rtc registry_step empty_db (w_db w')
  ∧ artifacts_intact (w_objects w')
  ∧ ∀ nv row, versions (w_db w') !! nv = Some row →
      get_fault (primary (w_objects w')) (object_path (vr_digest row)) = false →
      ∃ bytes, fetch (vr_digest row) (w_objects w') = (Ok bytes, w_objects w')
               ∧ sha256_hex bytes = vr_digest row.
Proof.
  intros Hd Hi Hr. pose proof (good_empty w Hd) as Hg.
  pose proof (service_later w ps w' Hg Hr) as Hl.
  split; [rewrite <- Hd; by apply later_db|]. destruct (later_objects _ _ Hl) as [_ Hi'].
  split; [by apply Hi'|]. intros nv row Hrow Hf.
  destruct (version_digest w' nv row) as (tarball & E & bytes & Hb); [exact (later_good _ _ Hl Hg)|done|].
  assert (fetch (vr_digest row) (w_objects w') = (Ok bytes, w_objects w')) as Hfe.
  { unfold fetch, store_get. by rewrite Hf, Hb. }
  exists bytes. split; [done|]. apply fetch_artifact_spec in Hfe as (_ & _ & H).
  rewrite E. by eapply H; [apply Hi'| |].
Qed.

(** (C2) Every change a request makes is authorised. However other requests run in
    between, each of its own transitions either is housekeeping (the log, delivered
    events, counts, rate limits, billing events, objects) or is the one transaction its
    route stands for, and at some moment since the request began its bearer token was
    that of a principal who may do it: a stage is created, or a version withdrawn, by one
    who may write the package; a stage is decided by an admin of the organization that
    owns it, with a second factor where approvals need one, and never approved against a
    verdict of deny; tokens, roles and invitations are an admin's; a token for an
    identity is for the organization and role of its membership or invitation. *)
Theorem requests_are_authorized headers route w0 tr r w' :
  good w0 → exec later (track_registry_metrics reg headers route) w0 tr r w' →
  Forall (λ '(w1, w2), quiet_step w1 w2 ∨ (world_step w1 w2 ∧ performs headers route w0 w1 w2)) tr.
Proof.
  intros Hg Hx. by eapply (wp_sound _ _ _ _ _ _ _ _ (safe_request headers route w0 Hg)).
Qed.

(** (C3) A reply shows only what its reader may see, however other requests run in
    between. A stage that is viewed, or its tarball, goes to a principal who may read
    its package, one that is created to one who may write it, and one that is approved
    or rejected to an admin of the organization that owns it; a private package's
    metadata, versions and verdicts go to a principal who may read it; a list of stages
    is that of the principal's organization; the downloaded bytes are of an active
    version, and, while the stores are intact, have its digest. *)
Theorem replies_are_authorized headers route w0 tr reply w' :
  good w0 → exec later (handle reg headers route) w0 tr (Ok reply) w' →
  sees headers route w0 reply w'.
Proof.
  intros Hg Hx.
  assert (safe (performs headers route w0) (sees headers route w0) (handle reg headers route) w0) as Hs.
  { destruct (reads route) eqn:Hr; [by apply sees_handle|by apply sees_written]. }
  destruct (wp_sound _ _ _ _ _ _ _ _ Hs Hx) as [_ [_ HQ]]. by apply HQ.
Qed.
End service.

(** ** A run *)

#[local] Existing Instance tail_digest.
#[local] Existing Instance Contracts.toy_json_text.
#[local] Existing Instance plain_base64.
#[local] Existing Instance digest_ed25519.
#[local] Existing Instance toy_semver.
#[local] Existing Instance ControlPlane.list_order.
#[local] Existing Instance Objects.plain_paths.
#[local] Existing Instance no_regex.
#[local] Existing Instance sample_oxc.
#[local] Instance demo_archives : Archives := one_file "package/package.json".
Definition demo_claims : IdentityClaims := {|
  ic_sub := "alice"; ic_iss := "https://id.example"; ic_aud := JString "oath"; ic_exp := 5000;
  ic_email := Some "alice@acme.example"; ic_email_verified := true;
  ic_acr := None; ic_amr := ["hwk"] |}.
#[local] Instance demo_jwt : Jwt := {|
  JwkSet := unit; DecodingKey := unit;
  decode_header _ := Some (RS256, Some "k1"); find_key _ _ := Some (Some tt);
  decode_claims _ _ _ _ _ := Some demo_claims |}.
#[local] Instance demo_webhooks : Webhooks := {|
  hex_decode _ := Some "01234567890123456789012345678901"; hmac_sha256 _ m := m;
  parse_body _ := Some (JObject [("name", JString "demo"); ("version", JString "1.0.0")]) |}.
#[local] Instance demo_surroundings : Surroundings := {|
  rfc3339_secs _ := None; rfc3339 _ := None; walk_dir := demo_walk; header_text s := Some s;
  url_safe_base64 s := s; byte_serialize s := s; error_text _ := "database error";
  create_checkout _ _ _ _ _ := None; fetch_jwks _ _ := Some tt |}.
Definition demo_settings : Settings digest_ed25519 := {|
  signing_key := tt : @SigningKey digest_ed25519;
  oidc := Some {| issuer := "https://id.example"; audience := "oath"; jwks_uri := "https://id.example/keys" |};
  mailer := None; public_url := "https://r.example"; invitation_accept_url := None;
  max_stage_request_bytes := 2 ^ 26; billing := None; require_step_up_approval := false;
  requests_per_minute := 6000; maximum_pending_stages := 100 |}.
Definition start_world : World := {|
  w_db := empty_db; w_fault := None;
  w_objects := {| primary := demo_store ∅; replicas := [demo_store ∅] |};
  w_fs := no_files; w_temp := "/tmp/work"; w_now := 1000; w_random := Some "random";
  w_mailer_up := true; w_mails := []; w_metrics := no_metrics |}.
Definition with_token (token : string) : Headers :=
  {| authorization := Some ("Bearer " +:+ token); stripe_signature := None |}.
Definition request (token : string) (route : Route) (w : World) : result ApiError Reply * World :=
  let '(_, r, w') := run (handle demo_settings (with_token token) route) w in (r, w').
Definition demo_request : StageRequest := {|
  rq_name := "demo"; rq_version := "1.0.0"; rq_tag := latest_tag; rq_tarball_base64 := "tarball";
  rq_assessment := JNull; rq_private := true |}.
Definition world_org : World :=
  (run (bootstrap (SU := demo_surroundings) "acme" "secret" "admin") start_world).2.
Definition world_staged : World := (request "secret" (CreateStage demo_request) world_org).2.
Definition demo_stage_id : string := stage_id "acme" "demo" "1.0.0" (sha256_hex "tarball") 1000.
Definition world_published : World :=
  (request "secret" (ApproveStage demo_stage_id None) world_staged).2.

(** The whole way of a private package: staged, approved, downloaded by its owner, and by
    nobody else; its bytes, and a decided stage, do not change. *)
Example owner_downloads :
  (request "secret" (DownloadVersion "demo" "1.0.0") world_published).1 = Ok (BytesReply "tarball").
Proof. vm_compute. reflexivity. Qed.
Example stranger_does_not :
  (request "other" (DownloadVersion "demo" "1.0.0") world_published).1 = Err unauthorized.
Proof. vm_compute. reflexivity. Qed.
Example undecided_does_not :
  (request "secret" (DownloadVersion "demo" "1.0.0") world_staged).1
  = Err (not_found "package version not found").
Proof. vm_compute. reflexivity. Qed.
Example decided_once :
  (request "secret" (ApproveStage demo_stage_id None) world_published).1
  = Err (conflict "stage has already been decided").
Proof. vm_compute. reflexivity. Qed.
Example log_of_the_run :
  er_event_key <$> events (w_db world_published)
  = ["stage.created:" +:+ demo_stage_id; "stage.approved:" +:+ demo_stage_id].
Proof. vm_compute. reflexivity. Qed.

(** The same run as tasks of the service. *)
Notation settle p w := (run p w).2.
Definition serve (route : Route) : api unit :=
  _ ← track_registry_metrics demo_settings (with_token "secret") route; mret tt.
Definition served_org : World := settle (bootstrap (SU := demo_surroundings) "acme" "secret" "admin") start_world.
Definition served_staged : World := settle (serve (CreateStage demo_request)) served_org.
Definition served_published : World := settle (serve (ApproveStage demo_stage_id None)) served_staged.
Notation demo_pool := (pool_step (λ _, task demo_settings) outside).
Lemma pool_settle p ps w :
  task demo_settings p → ∃ ps', rtc demo_pool (ps, w) (ps', settle p w).
Proof.
  intros Hp. destruct (run p w) as [[tr r] w'] eqn:E. eexists. by eapply pool_run.
Qed.
Lemma served_pool : ∃ ps, rtc demo_pool ([], start_world) (ps, served_published).
Proof.
  destruct (pool_settle _ [] start_world (task_bootstrap demo_settings "acme" "secret" "admin")) as [ps1 H1].
  destruct (pool_settle _ ps1 served_org (task_request demo_settings (with_token "secret") (CreateStage demo_request))) as [ps2 H2].
  destruct (pool_settle _ ps2 served_staged (task_request demo_settings (with_token "secret") (ApproveStage demo_stage_id None))) as [ps3 H3].
  exists ps3. etrans; [exact H1|]. etrans; [exact H2|exact H3].
Qed.
Lemma start_intact : artifacts_intact (w_objects start_world).
Proof. repeat constructor; intros p b Hb; vm_compute in Hb; by destruct p. Qed.
Lemma good_start : good demo_settings start_world.
Proof. by apply good_empty. Qed.
Lemma good_staged : good demo_settings served_staged.
Proof.
  destruct (pool_settle _ [] start_world (task_bootstrap demo_settings "acme" "secret" "admin")) as [ps1 H1].
  destruct (pool_settle _ ps1 served_org (task_request demo_settings (with_token "secret") (CreateStage demo_request))) as [ps2 H2].
  eapply later_good; [|apply good_start]. eapply service_later; [apply good_start|].
  etrans; [exact H1|exact H2].
Qed.
Lemma good_published : good demo_settings served_published.
Proof.
  destruct served_pool as [ps H]. eapply later_good; [|apply good_start].
  eapply service_later; [apply good_start|exact H].
Qed.

Lemma service_refines_witness :
  ∃ ps row bytes,
    rtc demo_pool ([], start_world) (ps, served_published)
    ∧ versions (w_db served_published) !! ("demo", "1.0.0") = Some row
    ∧ fetch (vr_digest row) (w_objects served_published) = (Ok bytes, w_objects served_published)
    ∧ sha256_hex bytes = vr_digest row.
Proof.
  destruct served_pool as [ps H].
  pose proof (service_refines demo_settings start_world ps served_published eq_refl start_intact H)
    as (_ & _ & Hv).
  assert (is_Some (versions (w_db served_published) !! ("demo", "1.0.0"))) as [row Hrow]
    by (vm_compute; by eexists).
  destruct (Hv _ _ Hrow) as (bytes & Hb & Hd); [by vm_compute|].
  exists ps, row, bytes. split; [exact H|]. split; [exact Hrow|]. split; [exact Hb|exact Hd].
Defined.
Lemma requests_are_authorized_witness :
  ∃ tr r w',
    exec (rtc (world_step demo_settings))
      (track_registry_metrics demo_settings (with_token "secret") (ApproveStage demo_stage_id None))
      served_staged tr r w'
    ∧ is_Some (versions (w_db w') !! ("demo", "1.0.0"))
    ∧ Forall (λ '(w1, w2), quiet_step demo_settings w1 w2
        ∨ (world_step demo_settings w1 w2
           ∧ performs demo_settings (with_token "secret") (ApproveStage demo_stage_id None) served_staged w1 w2)) tr.
Proof.
  destruct (run (track_registry_metrics demo_settings (with_token "secret") (ApproveStage demo_stage_id None))
    served_staged) as [[tr r] w'] eqn:E.
  assert (exec (rtc (world_step demo_settings))
      (track_registry_metrics demo_settings (with_token "secret") (ApproveStage demo_stage_id None))
      served_staged tr r w') as Hx by (apply run_exec; [apply _|exact E]).
  exists tr, r, w'. split; [exact Hx|]. split.
  - apply (f_equal (λ x, bool_decide (is_Some (versions (w_db x.2) !! ("demo", "1.0.0"))))) in E.
    vm_compute in E. by eapply bool_decide_eq_true_1.
  - exact (requests_are_authorized demo_settings _ _ _ _ _ _ good_staged Hx).
Defined.
Lemma replies_are_authorized_witness :
  ∃ tr w',
    exec (rtc (world_step demo_settings))
      (handle demo_settings (with_token "secret") (DownloadVersion "demo" "1.0.0"))
      served_published tr (Ok (BytesReply "tarball")) w'
    ∧ sees demo_settings (with_token "secret") (DownloadVersion "demo" "1.0.0") served_published
        (BytesReply "tarball") w'.
Proof.
  destruct (run (handle demo_settings (with_token "secret") (DownloadVersion "demo" "1.0.0")) served_published)
    as [[tr r] w'] eqn:E.
  assert (r = Ok (BytesReply "tarball")) as -> by (apply (f_equal (λ x, x.1.2)) in E; by vm_compute in E).
  assert (exec (rtc (world_step demo_settings))
      (handle demo_settings (with_token "secret") (DownloadVersion "demo" "1.0.0"))
      served_published tr (Ok (BytesReply "tarball")) w') as Hx by (apply run_exec; [apply _|exact E]).
  exists tr, w'. split; [exact Hx|].
  exact (replies_are_authorized demo_settings _ _ _ _ _ _ good_published Hx).
Defined.

(** A token that may only read, of an organization with a publisher role on the package,
    may write the package of another organization. *)
Definition world_shared : World :=
  set_db (set_package_roles {[("demo", "partner") := ("acme", "publisher")]} (w_db world_published))
    world_published.
Lemma reader_token_writes_foreign_package :
  (run (authorize_name (SU := demo_surroundings)
     {| pr_organization := "partner"; pr_role := "reader"; pr_kind := "service" |} "demo" true)
     world_shared).1.2 = Ok "acme".
Proof. vm_compute. reflexivity. Qed.
